(* ===== verification/_CoqProject ===== *)
-Q . S2P
Prelude.v
HashStream.v
Sha256.v
Ripemd160.v
Crc32.v
Encoding.v
Subsidy.v
Notarized.v
NotaryList.v
Notary.v
Address.v
KV.v
Events.v
StateFile.v
StateIndex.v
Merkle.v
CCData.v
Signing.v
Connect.v
Restart.v
Arith256.v
Pow.v
Chain.v
BlockCheck.v
Supply.v
Query.v
CSha256.v
EmptyRoots.v
Incremental.v
Coins.v
Utxo.v
Compact.v
CoinsCodec.v
Script.v
Interp.v
ScriptSpec.v
Tx.v
SigHash.v
Upgrades.v
TxCheck.v
Ledger.v
Inputs.v
Money.v
PartialMerkle.v
Standard.v
Bloom.v
Mempool.v
AsMap.v
Text.v
Amounts.v
NetAddr.v
AddrMan.v
