(* ===== verification/Prelude.v ===== *)
(** * Verification of the core of the ZDEEX / Hush full node

    The program is a full node of a privacy chain: a Bitcoin/Zcash code base in
    C++ with the chain's own logic in C, in the files src/src/hush_*.h and
    src/src/hush.h.  That logic is what this library models: delayed proof of
    work (notaries sign transactions that pin a block of this chain into
    another one), the state kept about notarizations and its file on disk, the
    on-chain key-value store, the emission schedule, and the hash, encoding and
    address routines underneath.  Of the C++ classes it models those the chain's
    own rules stand on: 256-bit integers, difficulty, the block tree, SHA-256,
    the note-commitment trees, the set of unspent outputs with its caches, the
    script interpreter that decides who may spend them, transactions with their
    signature hashes, the rules on transactions and blocks of main.cpp, the memory
    pool, what light clients are served (bloom filters, partial Merkle trees), and
    how the node keeps the addresses of its peers.

    ** How the parts interact

    [hush_connectblock] receives each block.  It looks up the season's notary
    keys ([hush_notaries]), counts the notaries whose outputs each transaction spends
    ([hush_notarycmp], [bitweight]) and hands every output to
    [hush_voutupdate], which calls [hush_stateupdate].  That function appends a
    record to the state file and applies the matching [hush_eventadd_*]
    function: notarizations become checkpoints ([hush_notarized_update]),
    OP_RETURN data of type K goes to the key-value store, key sets to the
    activation table.  Validation asks the checkpoints ([hush_checkpoint],
    [hush_dpowconfs]), RPC and cross-chain code asks for Merkle data
    ([hush_MoM], [hush_MoMoMdata]).  At start-up [hush_init] makes the first
    [hush_stateupdate] call, which replays the file.

    [ConnectBlock] (main.cpp) checks each transaction of a block by itself
    ([CheckTransactionWithoutProofVerification], [ContextualCheckTransaction] with
    the network upgrade of the height), then against the unspent outputs that the
    ones before it left ([CheckTxInputs], and the script of each input by
    [VerifyScript], whose signatures are over [SignatureHash]), applies it
    ([UpdateCoins]), and at the end compares what the coinbase pays with the reward
    and the fees.

    Transactions that are not in a block yet wait in the memory pool
    ([addUnchecked]); a block that connects takes its own out, with those that
    conflict ([removeForBlock]), a reorganisation those that are no longer valid.  A
    client that sent a filter gets blocks reduced to the transactions that touch it
    ([filtered_block]) with a partial Merkle tree.  Addresses of peers arrive in
    messages ([UnserializeAddress]), go into the buckets of the address manager by
    group, source and key ([Add_], [GetGroup], [Interpret] on the map of autonomous
    systems), move to the tried table after a connection ([Good_]) and are given to
    peers that ask ([GetAddr_]).

    ** Files

    - [Prelude]: machine integers as [Z] with their reductions ([u8] ... [s64]),
      byte order, array helpers, the tactics and the hint databases.
    - [HashStream], [Sha256], [Ripemd160], [Crc32]: the hashes of hush_utils.h.
      [HashStream] is the buffering code of both streaming hashes over an
      arbitrary compression function; the other files give the unrolled
      compression functions and prove them equal to the published algorithms.
    - [Encoding]: bit count, hexadecimal, little-endian numbers, OP_RETURN
      framing (hush_utils.h) and [memread] (hush.h).
    - [Address]: base58 (mini-gmp.c) and addresses (hush_utils.h).
    - [Subsidy]: [hush_block_subsidy], [hush_sc_block_subsidy] (hush_utils.h),
      [hush_commission], [the_commission] (hush_bitcoind.h).
    - [Notarized]: [struct hush_state] (hush_structs.h), the checkpoints
      (hush_notary.h) and [hush_checkpoint], [hush_MoM] (hush_bitcoind.h).
    - [NotaryList], [Notary]: the key tables of hush_defs.h and hush_notary.h,
      seasons, key lookup, activation table, the special notary of a block.
    - [Signing], [Connect]: the count of notaries of [hush_connectblock] (hush.h),
      then that function itself with [hush_voutupdate] and
      [hush_validate_chain].
    - [Restart]: histories of a node made of calls of [hush_connectblock] and
      restarts, and what the state file keeps of them.
    - [KV]: hush_kv.h.
    - [Events]: hush_events.h; the record [node] gathers the globals it changes.
    - [StateFile], [StateIndex]: [hush_stateupdate] and both parsers (hush.h),
      [hush_faststateinit] and the index (hush_gateway.h).  The parser is written
      once over the interface [ByteSource]; its replay lemmas are proved from
      the laws of [LawfulSource], which both byte sources satisfy.  [saved] is the
      part of a node that the file keeps, [logged] says that a step of the
      node is in the file.
    - [Merkle], [CCData]: Merkle trees and branches (primitives/block.cpp) and
      hush_ccdata.h.
    - [Arith256]: the 256-bit integers of arith_uint256.h and arith_uint256.cpp,
      limb by limb, and the compact target format.
    - [Pow]: pow.cpp: the retargeting rules with the adaptive ones, the check of
      a header, the work of a block.
    - [Chain]: chain.cpp and chain.h: the skip list, the order of chain work, the
      active chain, and [AddToBlockIndex] (main.cpp).
    - [BlockCheck]: the rules of hush_bitcoind.h on the header and the coinbase of
      a block ([hush_checkPOW], [hush_checkcommission], [hush_checknotarypay]).
    - [Supply]: [hush_current_supply] and [hush_max_money] (hush_globals.h,
      hush_utils.h).
    - [Query]: the chain queries and staking targets of hush_bitcoind.h.
    - [CSha256]: the class [CSHA256] (crypto/sha256.cpp).
    - [EmptyRoots], [Incremental]: the tables of empty roots, the incremental
      Merkle trees and their witnesses (zcash/IncrementalMerkleTree.cpp and .hpp,
      zcash/util.cpp).  The templates are written over the interface [TreeHash];
      their theorems use only [LawfulTreeHash], which the SHA-256 instance
      satisfies.
    - [Coins]: the unspent outputs of a transaction, the database and the caches
      over it (coins.h, coins.cpp, txdb.cpp).  A level of the stack sees the one
      below through the interface [View] and its laws [lawful].
    - [Utxo]: how connecting and disconnecting a block changes the coin cache
      (main.cpp, undo.h, importcoin.cpp), over the interface [Store].
    - [Compact], [CoinsCodec]: compact integers, amounts, scripts and outputs
      (serialize.h, compressor.cpp), and with them the coins of the database and
      the undo files (coins.h, undo.h).
    - [Script], [Interp], [ScriptSpec]: opcodes, script numbers, the reader of
      instructions and the recognisers of script/script.h and script.cpp; the
      interpreter of script/interpreter.cpp, one handler per case of its switch,
      and [VerifyScript]; what they accept.  A loop over the instructions of a
      script is an instance of [scan].
    - [Tx], [SigHash]: transactions and their serialisation (primitives/transaction.h
      and .cpp, sprout and sapling parts), as formats with a reader and a writer and
      the laws [lawful]; [SignatureHash] with its three algorithms, the precomputed
      hashes and [CheckSig] (script/interpreter.cpp).
    - [Upgrades]: consensus/upgrades.cpp.
    - [TxCheck]: the rules on single transactions and on the transactions of a block
      (main.cpp), with rejections as values of the monad [check].
    - [Ledger]: the coin database as the map of its unspent outputs, and their worth.
    - [Inputs]: values, maturity and scripts of the inputs (main.cpp, coins.cpp,
      transaction.cpp, hush_utils.h), the signature cache (script/serverchecker.cpp).
    - [Money]: [ConnectBlock] with all checks on transactions, fees and the coinbase,
      in the monad [viewing] of checks that change the view.
    - [PartialMerkle]: merkleblock.h and .cpp, and the check of proofs of
      rpc/rawtransaction.cpp.
    - [Standard]: the templates of script/standard.cpp and the scripts made for
      destinations.
    - [Bloom]: the filters of bloom.h and bloom.cpp with [MurmurHash3] (hash.cpp), the
      messages that set them (main.cpp), and the reduced blocks (merkleblock.cpp).
    - [Mempool]: txmempool.h and .cpp: the transactions of the pool, the indexes of
      spent outputs and nullifiers, removal, and what [AcceptToMemoryPool] asks of
      the pool.
    - [AsMap]: util/asmap.cpp: the bytecode that maps addresses to autonomous systems,
      its interpreter and its check at start-up.
    - [Text]: base 32, base 64 (util/strencodings.cpp) and bech32 (bech32.cpp).
    - [Amounts]: amounts of money as texts (util/strencodings.cpp, utilmoneystr.cpp,
      rpc/server.cpp) and hexadecimal.
    - [NetAddr]: netaddress.h, netaddress.cpp and [CAddress] of protocol.h.
    - [AddrMan]: addrman.h and addrman.cpp.

    ** Correspondence

    A C function is a function of the same name.  Globals and function-local
    statics are arguments and results; [realloc]ed arrays and utlist chains are
    lists; uthash tables are finite maps ([KV]) or association lists
    ([Notary]).  A pointer result is an [option] or an index.  Out parameters
    are components of the result.  Integers that can overflow are reduced where
    the C expression is.  Undefined behaviour and process crashes (division by
    zero, a shift by 64, reads of uninitialised variables, writes past a local
    buffer) are [None].  Mutexes, allocation failure and diagnostic prints are
    left out.

    Code outside the repository's C core is a parameter: the active chain and
    the block index, the RPC behind [hush_verifynotarization], the signature
    check of the key-value store, the wallet's [pubkey2addr], the two-to-one
    hash of the Merkle functions, the public keys of secp256k1, the checker of signatures,
    lock times and crypto-conditions ([Checker]) and the hash functions of the
    interpreter ([Hashes]), the exchange accounting of the fiat chains, the
    Equihash check, the script templates behind [hush_block2pubkey33], blocks on
    disk, BLAKE2b ([Blake2b]), SHA-3, the verification of signatures by a key and of
    the Sapling proofs ([SaplingVerifier]), the checks of imports from other chains,
    the Pedersen hash, the Sapling trees as [Coins] sees them (roots that tell trees
    apart and are not zero), the clock and the random numbers of the address manager.  Theorems hold for every value of these parameters,
    or state what they need of one as a named law.

    ** What the theorems show

    - Durability: a node that has connected, checked and reorganised blocks, and was
      restarted any number of times, has after a restart the notarization, Merkle
      data, checkpoints, events, saved height, key-value table and notary keys it
      had ([restart_restores_node], with its exceptions).
    - Blocks: connecting a block only moves the notarization forward
      ([block_advances]) and, without enough notary outputs, not at all
      ([block_without_signatures]); an accepted header carries its work
      ([check_pow_sound]), and the check of the coinbase's payment to the notaries
      accepts exactly the payment that the node builds, where it does not read
      past the list of notaries ([notarypay_exact]).
    - Finality: [checkpoint_finality].
    - Money: no block creates more than its reward, its commission and what the
      shielded parts release ([connected_supply]); outputs to the hash of a key are
      spent only by a signature of that key over the spending transaction
      ([spent_only_with_signature]).
    - Transactions: the checks accept exactly the transactions that the rules
      describe ([check_transaction_exact]) in the format of the epoch
      ([accepted_in_epoch]), and what they accept is what connecting relies on
      ([checked_block_fits]); a transaction has one encoding
      ([transaction_encoding_unique]), a signature commits to the parts that its
      hash type names, unless two of the messages that are hashed for it collide
      ([signature_hash_commits]), and is checked as intended
      ([check_sig_exact]).
    - Scripts: verification answers on every pair of scripts
      ([verify_script_answers]) and stays within its limits
      ([reached_in_limits]); multisignatures are an ordered matching
      ([checkmultisig_in_order]); the standard outputs are spent exactly as
      intended ([p2pkh_spent_iff], [p2sh_spent_iff]); [Solver] recognises exactly
      the standard forms ([solver_exact]).
    - Unspent outputs: a stack of caches is a plain set of outputs, nullifiers and
      anchors ([coins_stack_refines]); disconnecting a block takes back exactly
      what connecting it did ([connect_disconnect_restores]), also from the undo
      file ([undo_file_restores]); a block spends nothing twice
      ([block_spends_once]).
    - Memory pool: its indexes are those of its transactions and no two of them
      conflict ([mempool_consistent]); removal ends and takes out exactly what depends
      on a transaction ([remove_ends]); a block clears its conflicts
      ([block_clears_conflicts]).
    - Light clients: a partial tree proves what it claims ([partial_trees_prove]), a
      reduced block holds every transaction that touches the filter
      ([filtered_block_serves]), unless two of the pairs that are hashed for the
      block or the proof collide.  The collision is always one between messages of
      explicit finite lists ([merkle_pairs], [proof_pairs], [hashed]).
    - Note commitments: an incremental tree has the plain Merkle root of its
      leaves ([incremental_tree_correct]), and the path of a witness authenticates
      its leaf in the grown tree ([incremental_witness_correct]).
    - Notaries: a transaction counts as a notarization exactly if it spends outputs
      with the keys of enough different notaries ([notarization_threshold]).
    - Peers: the tables of the address manager stay consistent, as its own debugging
      check understands it, and no operation fails ([addrman_consistent]); gossip
      moves and erases no tried entry and changes at most the time and the services
      of the announced address ([gossip_keeps_tried]); what is
      given away is bounded ([getaddr_bounded]); any bytes read as an address are
      either refused or safe to use ([received_address_safe]); a checked map of
      autonomous systems is the encoding of a decision tree, and looking up an
      address follows that tree ([checked_map_interprets]).
    - Texts: amounts are parsed exactly ([parse_fixed_point_exact]); there is one
      bech32 text for each content ([bech32_exact]).
    - Primitives: [csha256_is_fips].

    Further theorems carry no claim number.  Some complete a component
    ([npptr_most_recent_cover], [MoM_covers], [notarysinit_activation],
    [notary_addresses_match_keys], [kvfee_spec], [calcMoM_spec],
    [hush_block_subsidy_nonincreasing], [sc_subsidy_cache_transparent],
    [the_commission_hush3], [calc_crc32_is_bit_serial], [hex_round_trip],
    [opreturn_framing], [index_validates], [notarizeddata_cursor_transparent],
    [block_proof_exact], [get_locator_correct], [findnotary_inverts_table],
    [timestamp_chains_have_no_notaries], [notarization_without_signatures],
    [kv_flags_never_stored], [sha256_vcompress_is_fips], [base58_round_trip],
    [loaders_agree], [commission_in_sync], [emission_bounded],
    [calc_rmd160_sha256_is_hash160], [current_supply_halving],
    [staking_targets_bounded], [chain_power_order], [dragon_rwnum_round_trip],
    [find_fork_correct], [retarget_bounded], [MoMoMdata_sound],
    [checkpoints_well_formed], [sha256_streaming_is_fips], [coinsupply_exact],
    [rewind_spec], [devtax_paid], [update_coins_never_asserts],
    [kv_register_search], [compact_round_trip], [opret_round_trip],
    [varint_round_trip], [set_tip_correct], [special_notary_unique],
    [arith256_modular], [current_epoch_latest], [next_activation],
    [update_ledger], [cache_transparent], [final_after_fork],
    [compact_size_canonical], [coins_round_trip], [next_work_accepted],
    [hush3_money], [script_number_canonical], [merkle_proofs], [address_round_trip],
    [signature_encoding_exact], [get_ancestor_correct], [add_to_block_index_ok],
    [kv_owner_protected], [dropped_output_unspendable], [destinations_round_trip],
    [rolling_remembers], [filteradd_found], [base_texts_exact],
    [bech32_detects_change], [amount_round_trip], [money_round_trip],
    [hex_dump_round_trip], [peer_round_trip], [same_group_exact],
    [subnet_match_exact], [netmask_exact], [hidden_text_round_trip],
    [good_moves_to_tried], [DecodeAsmap_checked]);
    others record defects that the modelling showed
    ([notarizeddata_cursor_observable], [base58decode_short_length],
    [kv_empty_key_divides], [notarized_record_drops_depth], [ratification_lost],
    [notaries_read_past_end],
    [subsidy_dead_rows], [sc_subsidy_shift_undefined], [exponential_overflows],
    [hash_always_qualifies], [staked_block_without_work],
    [hush3_commission_outlives_subsidy], [supply_counter_wraps],
    [segids_stale_at_zero], [large_tree_size_wraps], [pegs_tombstone_stays],
    [kv_claimed_height_takeover], [varint_two_encodings],
    [high_s_reported_unknown], [script_reads_past_end],
    [truncated_push_read_as_data], [move_loses_binding_sig],
    [future_lock_final_before_fork], [joinsplit_mints],
    [commission_message_reads_missing_output], [check_proof_of_work_ignores_hash],
    [inner_node_passes], [cc_params_swapped], [null_data_any_opcode],
    [small_lock_address_lost], [clear_leaves_pointers], [removeExpired_keeps_all],
    [import_fails_check], [reorg_keeps_immature], [hash_misses_last_byte],
    [keys_of_two_networks], [no_collisions], [test_before_evict_ignored],
    [last_success_is_last_seen], [no_digits_is_zero], [negative_not_read]).

    ** Fuel

    Loops that are not structural take fuel: the base conversion of base58 (two
    digits per byte; [eval_digits] shows it is enough), the loaders of the state
    file (one step per byte plus one; [load_mem_replay]), the Merkle levels (the
    number of leaves; [top_level]), the walks of [Chain] (the height of the
    block plus one; part of each theorem), the loops over a script (its length;
    [scan_eq]), the loop of [OP_CHECKMULTISIG] (the number of keys; part of
    [verify_script_answers]), removal from the memory pool (part of [remove_ends]),
    the loops over a map of autonomous systems (its length, since every instruction
    takes a bit; part of [checked_map_interprets]), the bits that [ConvertBits] holds
    ([emit]), the padding of base 32 and base 64 (a group), the digits of a printed
    64-bit number (19; [dec_ok]).

    Bounds in hypotheses: strings below 2^31 characters and scripts, messages and
    maps below their limits in the code; in [AddrMan] fewer than 2^31 entries ever made
    and fewer than 2^31 attempts, where the code's [int] counters would overflow.

    ** Not modelled

    The wallet, RPC, mining, start-up and the threads and sockets of net.cpp: the
    logic there is in the order of system calls, database transactions and locks.
    The choice of a peer ([Select_]) and the fee estimator compute with floating-point
    numbers.  The file of the address manager, whose reader rebuilds the tables under
    new ids, is left out, and so are the texts of IPv4 and IPv6 addresses and the
    parsers of integers, which go through the C library.  The price code of
    hush_gateway.h asks web services and computes in floating point; the settings of
    the command line are records here.  The light client (hush_nSPV*.h) is request
    handling over the classes above.  Curve25519, JSON, the queues over utlist.h, the
    crypto-conditions contracts and the vendored libraries are only called by the
    modelled code; where it relies on them they are parameters. *)
From stdpp Require Export base list gmap.
From Stdlib Require Export ZArith Lia.
From Stdlib Require Import Btauto.

Local Open Scope Z_scope.

(** ** Machine integers

    A C integer of width [w] is an element of [Z]; every conversion that the
    source performs is written out with one of the functions below. *)

Definition u8 (x : Z) : Z := x mod 2 ^ 8.
Definition u16 (x : Z) : Z := x mod 2 ^ 16.
Definition u32 (x : Z) : Z := x mod 2 ^ 32.
Definition u64 (x : Z) : Z := x mod 2 ^ 64.
Definition s32 (x : Z) : Z := (x + 2 ^ 31) mod 2 ^ 32 - 2 ^ 31.
Definition s64 (x : Z) : Z := (x + 2 ^ 63) mod 2 ^ 64 - 2 ^ 63.

Definition is_u (w x : Z) : Prop := 0 <= x < 2 ^ w.
Definition is_s32 (x : Z) : Prop := - 2 ^ 31 <= x < 2 ^ 31.
Definition is_s64 (x : Z) : Prop := - 2 ^ 63 <= x < 2 ^ 63.

#[export] Instance is_u_dec w x : Decision (is_u w x).
Proof. unfold is_u. apply _. Defined.
#[export] Instance is_s32_dec x : Decision (is_s32 x).
Proof. unfold is_s32. apply _. Defined.
#[export] Instance is_s64_dec x : Decision (is_s64 x).
Proof. unfold is_s64. apply _. Defined.

(** Signed results that must not overflow, and division that must not be by zero:
    [None] is undefined behaviour. *)
Definition i32 (x : Z) : option Z := if decide (is_s32 x) then Some x else None.
Definition i64 (x : Z) : option Z := if decide (is_s64 x) then Some x else None.
Definition quot (x y : Z) : option Z := if y =? 0 then None else Some (Z.quot x y).

(** A byte buffer is a list of [Z], each in [0, 256). *)
Definition byte_ok (b : Z) : Prop := 0 <= b < 256.
Definition bytes_ok (l : list Z) : Prop := Forall byte_ok l.

#[export] Instance byte_ok_dec b : Decision (byte_ok b).
Proof. unfold byte_ok. apply _. Defined.
#[export] Instance bytes_ok_dec l : Decision (bytes_ok l).
Proof. unfold bytes_ok. apply _. Defined.

(** [Zlen] is the length of a buffer as the C code sees it. *)
Definition Zlen {A} (l : list A) : Z := Z.of_nat (length l).

(** [memcpy(dst + i, src, |src|)] into an array. *)
Definition memcpy_at (dst : list Z) (i : nat) (src : list Z) : list Z :=
  take i dst ++ src ++ drop (i + length src) dst.

(** Read of an array cell; the default is never observed by a caller that
    stays in bounds. *)
Definition rd (l : list Z) (i : nat) : Z := nth i l 0.

(** ** Byte order *)

Fixpoint le_bytes (n : nat) (x : Z) : list Z :=
  match n with
  | O => []
  | S n => x mod 256 :: le_bytes n (x / 256)
  end.

Fixpoint le_num (l : list Z) : Z :=
  match l with
  | [] => 0
  | b :: l => b + 256 * le_num l
  end.

Definition be_bytes (n : nat) (x : Z) : list Z := rev (le_bytes n x).
Definition be_num (l : list Z) : Z := le_num (rev l).

(** ** Automation *)

Create HintDb hush discriminated.
Create Rewrite HintDb word.

(** Expose machine-integer ranges to [lia]. *)
Ltac unfold_ranges :=
  unfold is_u, is_s32, is_s64, byte_ok in *;
  change (2 ^ 8) with 256 in *;
  change (2 ^ 16) with 65536 in *;
  change (2 ^ 31) with 2147483648 in *;
  change (2 ^ 32) with 4294967296 in *;
  change (2 ^ 63) with 9223372036854775808 in *;
  change (2 ^ 64) with 18446744073709551616 in *.

Ltac mlia := unfold_ranges; unfold u8, u16, u32, u64, s32, s64 in *; unfold_ranges;
  Z.to_euclidean_division_equations; lia.

(** Equality of two bit-vector expressions, bit by bit. *)
Ltac zbits :=
  apply Z.bits_inj'; let i := fresh "i" in let Hi := fresh "Hi" in intros i Hi;
  repeat first
    [ rewrite Z.land_spec | rewrite Z.lor_spec | rewrite Z.lxor_spec
    | rewrite Z.lnot_spec by lia | rewrite Z.bits_0 ];
  repeat match goal with
    | |- context [Z.testbit ?x i] => let b := fresh "b" in generalize (Z.testbit x i); intros b
    end;
  try btauto.

(** Case split on the boolean comparisons of the goal. *)
Ltac bdestruct_one :=
  match goal with
  | |- context [(?x <? ?y)%Z] => destruct (Z.ltb_spec x y)
  | |- context [(?x <=? ?y)%Z] => destruct (Z.leb_spec x y)
  | |- context [(?x =? ?y)%Z] => destruct (Z.eqb_spec x y)
  | |- context [bool_decide ?P] => destruct (bool_decide_reflect P)
  end.
Ltac bdestruct_all := repeat (bdestruct_one; try lia).

(** A conjunction of tests, as equations. *)
Ltac split_andb :=
  repeat match goal with
         | E : _ && _ = true |- _ => apply andb_prop in E as [? ?]
         | E : Nat.eqb _ _ = true |- _ => apply Nat.eqb_eq in E
         | E : Z.eqb _ _ = true |- _ => apply Z.eqb_eq in E
         end.

(** ** Lemmas on machine integers *)

Lemma u32_range x : is_u 32 (u32 x).
Proof. unfold is_u, u32. apply Z.mod_pos_bound. lia. Qed.

Lemma u64_range x : is_u 64 (u64 x).
Proof. unfold is_u, u64. apply Z.mod_pos_bound. lia. Qed.

Lemma u8_range x : byte_ok (u8 x).
Proof. unfold byte_ok, u8. apply Z.mod_pos_bound. lia. Qed.

Lemma u16_range x : is_u 16 (u16 x).
Proof. unfold is_u, u16. apply Z.mod_pos_bound. lia. Qed.

Lemma s32_range x : is_s32 (s32 x).
Proof. unfold is_s32, s32. pose proof (Z.mod_pos_bound (x + 2 ^ 31) (2 ^ 32)). lia. Qed.

Lemma u32_id x : is_u 32 x -> u32 x = x.
Proof. apply Z.mod_small. Qed.

Lemma u64_id x : is_u 64 x -> u64 x = x.
Proof. apply Z.mod_small. Qed.

Lemma u16_id x : is_u 16 x -> u16 x = x.
Proof. apply Z.mod_small. Qed.

Lemma u8_id x : byte_ok x -> u8 x = x.
Proof. apply Z.mod_small. Qed.

Lemma s32_id x : is_s32 x -> s32 x = x.
Proof. unfold is_s32, s32. intros. rewrite Z.mod_small; lia. Qed.

Lemma s64_id x : is_s64 x -> s64 x = x.
Proof. unfold is_s64, s64. intros. rewrite Z.mod_small; lia. Qed.

Lemma s32_u32 x : s32 (u32 x) = s32 x.
Proof. unfold s32, u32. by rewrite Zplus_mod_idemp_l. Qed.

Lemma u32_s32 x : u32 (s32 x) = u32 x.
Proof.
  unfold s32, u32. rewrite <-Zminus_mod_idemp_l, Zmod_mod, Zminus_mod_idemp_l.
  f_equal. lia.
Qed.

Lemma u32_add_l x y : u32 (u32 x + y) = u32 (x + y).
Proof. apply Zplus_mod_idemp_l. Qed.
Lemma u32_add_r x y : u32 (x + u32 y) = u32 (x + y).
Proof. apply Zplus_mod_idemp_r. Qed.
Lemma u64_add_l x y : u64 (u64 x + y) = u64 (x + y).
Proof. apply Zplus_mod_idemp_l. Qed.
Lemma u64_add_r x y : u64 (x + u64 y) = u64 (x + y).
Proof. apply Zplus_mod_idemp_r. Qed.
#[export] Hint Rewrite u32_add_l u32_add_r u64_add_l u64_add_r : word.

Lemma u32_land x : u32 x = Z.land x (Z.ones 32).
Proof. unfold u32. by rewrite Z.land_ones. Qed.

Lemma is_u_testbit w x i : 0 <= w -> is_u w x -> w <= i -> Z.testbit x i = false.
Proof.
  intros Hw Hx Hi. rewrite <-(Z.mod_small x (2 ^ w)) by done.
  by apply Z.mod_pow2_bits_high.
Qed.

(** A non-negative number whose bits from [w] on are clear is below [2 ^ w]. *)
Lemma is_u_of_bits w x :
  0 <= w -> 0 <= x -> (forall i, w <= i -> Z.testbit x i = false) -> is_u w x.
Proof.
  intros Hw Hx Hb. unfold is_u. split; [done |].
  enough (x = x mod 2 ^ w) as -> by (apply Z.mod_pos_bound; lia).
  apply Z.bits_inj'. intros i Hi.
  destruct (Z.lt_ge_cases i w).
  - by rewrite Z.mod_pow2_bits_low.
  - rewrite Z.mod_pow2_bits_high by lia. by apply Hb.
Qed.

Lemma is_u_lxor w x y : 0 <= w -> is_u w x -> is_u w y -> is_u w (Z.lxor x y).
Proof.
  intros Hw Hx Hy. apply is_u_of_bits; [done | |].
  - apply Z.lxor_nonneg. unfold is_u in *. tauto.
  - intros i Hi. by rewrite Z.lxor_spec, !(is_u_testbit w).
Qed.

Lemma is_u_land w x y : 0 <= w -> is_u w x -> is_u w y -> is_u w (Z.land x y).
Proof.
  intros Hw Hx Hy. apply is_u_of_bits; [done | |].
  - apply Z.land_nonneg. unfold is_u in *. tauto.
  - intros i Hi. by rewrite Z.land_spec, (is_u_testbit w).
Qed.

Lemma is_u_lor w x y : 0 <= w -> is_u w x -> is_u w y -> is_u w (Z.lor x y).
Proof.
  intros Hw Hx Hy. apply is_u_of_bits; [done | |].
  - apply Z.lor_nonneg. unfold is_u in *. tauto.
  - intros i Hi. by rewrite Z.lor_spec, !(is_u_testbit w).
Qed.

Lemma is_u_shiftr w x n : 0 <= w -> 0 <= n -> is_u w x -> is_u w (Z.shiftr x n).
Proof.
  intros Hw Hn Hx. apply is_u_of_bits; [done | |].
  - apply Z.shiftr_nonneg. unfold is_u in *. tauto.
  - intros i Hi. rewrite Z.shiftr_spec by lia. apply (is_u_testbit w); [done | done | lia].
Qed.
#[export] Hint Resolve u32_range u64_range u16_range u8_range s32_range : hush.
#[export] Hint Resolve is_u_lxor is_u_land is_u_lor is_u_shiftr : hush.

Lemma land_255 x : Z.land x 255 = x mod 256.
Proof. change 255 with (Z.ones 8). by rewrite Z.land_ones. Qed.

Lemma land_ffffffff x : Z.land x 0xFFFFFFFF = u32 x.
Proof. change 0xFFFFFFFF with (Z.ones 32). by rewrite Z.land_ones. Qed.

Lemma u32_idem x : u32 (u32 x) = u32 x.
Proof. apply u32_id, u32_range. Qed.

Lemma lor_add a b k : 0 <= k -> 0 <= b < 2 ^ k -> Z.lor (a * 2 ^ k) b = a * 2 ^ k + b.
Proof.
  intros Hk Hb. rewrite <-Z.shiftl_mul_pow2 by done. symmetry.
  apply Z.add_nocarry_lor. apply Z.bits_inj'. intros i Hi.
  rewrite Z.land_spec, Z.bits_0. destruct (Z.lt_ge_cases i k).
  - by rewrite Z.shiftl_spec_low.
  - rewrite (is_u_testbit k b i) by done. apply andb_false_r.
Qed.

(** ** Lemmas on byte order *)

Lemma length_le_bytes n x : length (le_bytes n x) = n.
Proof. revert x. induction n; intros; simpl; auto. Qed.

Lemma length_be_bytes n x : length (be_bytes n x) = n.
Proof. unfold be_bytes. by rewrite length_rev, length_le_bytes. Qed.

Lemma le_bytes_ok n x : bytes_ok (le_bytes n x).
Proof.
  revert x. induction n; intros; simpl; constructor; [| apply IHn].
  apply Z.mod_pos_bound. lia.
Qed.

Lemma bytes_ok_app l1 l2 : bytes_ok (l1 ++ l2) <-> bytes_ok l1 /\ bytes_ok l2.
Proof. apply Forall_app. Qed.

Lemma bytes_ok_take n l : bytes_ok l -> bytes_ok (take n l).
Proof. apply Forall_take. Qed.

Lemma bytes_ok_drop n l : bytes_ok l -> bytes_ok (drop n l).
Proof. apply Forall_drop. Qed.

Lemma bytes_ok_replicate n b : byte_ok b -> bytes_ok (replicate n b).
Proof. intros. by apply Forall_replicate. Qed.

Lemma bytes_ok_rev l : bytes_ok (rev l) <-> bytes_ok l.
Proof. unfold bytes_ok. rewrite !List.Forall_forall. by setoid_rewrite <-in_rev. Qed.

Lemma be_bytes_ok n x : bytes_ok (be_bytes n x).
Proof. apply bytes_ok_rev, le_bytes_ok. Qed.

Lemma le_num_le_bytes n x : le_num (le_bytes n x) = x mod 2 ^ (8 * Z.of_nat n).
Proof.
  revert x. induction n as [| n IH]; intros x; [by rewrite Z.mod_1_r |].
  cbn [le_bytes le_num]. rewrite IH.
  replace (8 * Z.of_nat (S n)) with (8 + 8 * Z.of_nat n) by lia.
  rewrite Z.pow_add_r, Z.rem_mul_r by lia. done.
Qed.

Lemma le_num_bounds l : bytes_ok l -> 0 <= le_num l < 2 ^ (8 * Zlen l).
Proof.
  unfold Zlen. induction 1 as [| b l Hb _ IH]; [simpl; lia |]. cbn [le_num length].
  replace (8 * Z.of_nat (S (length l))) with (8 + 8 * Z.of_nat (length l)) by lia.
  rewrite Z.pow_add_r by lia. unfold byte_ok in Hb. change (2 ^ 8) with 256. nia.
Qed.

Lemma le_bytes_le_num l : bytes_ok l -> le_bytes (length l) (le_num l) = l.
Proof.
  induction 1 as [| b l Hb _ IH]; [done |]. cbn [le_num length le_bytes].
  unfold byte_ok in Hb. replace (b + 256 * le_num l) with (le_num l * 256 + b) by lia.
  rewrite Z.div_add_l, Z.div_small, Z.add_0_r, IH by lia.
  f_equal. rewrite Z.add_comm, Z.mod_add, Z.mod_small; lia.
Qed.

Lemma le_bytes_mod n x : le_bytes n (x mod 2 ^ (8 * Z.of_nat n)) = le_bytes n x.
Proof.
  rewrite <-le_num_le_bytes. rewrite <-(length_le_bytes n x) at 1.
  apply le_bytes_le_num, le_bytes_ok.
Qed.

Lemma le_num_inj l1 l2 :
  bytes_ok l1 -> bytes_ok l2 -> length l1 = length l2 -> le_num l1 = le_num l2 -> l1 = l2.
Proof.
  intros H1 H2 Hl E. rewrite <-(le_bytes_le_num l1), <-(le_bytes_le_num l2) by done.
  congruence.
Qed.

Lemma le_num_app l1 l2 : le_num (l1 ++ l2) = le_num l1 + 2 ^ (8 * Zlen l1) * le_num l2.
Proof.
  unfold Zlen. induction l1 as [| b l1 IH]; cbn [app le_num length]; [simpl; lia |].
  rewrite IH. replace (8 * Z.of_nat (S (length l1))) with (8 + 8 * Z.of_nat (length l1)) by lia.
  rewrite Z.pow_add_r by lia. change (2 ^ 8) with 256. lia.
Qed.

Lemma be_num_be_bytes n x : be_num (be_bytes n x) = x mod 2 ^ (8 * Z.of_nat n).
Proof. unfold be_num, be_bytes. by rewrite rev_involutive, le_num_le_bytes. Qed.

#[export] Hint Resolve le_bytes_ok be_bytes_ok bytes_ok_take bytes_ok_drop
  bytes_ok_replicate : hush.

(** ** Checking finitely many cases *)

(** A property of the first [n] naturals checked one by one. *)
Lemma lt_forall (n : nat) (P : nat -> Prop) :
  Forall P (seq 0 n) -> forall j, (j < n)%nat -> P j.
Proof. intros H j Hj. rewrite List.Forall_forall in H. apply H, in_seq. lia. Qed.

(** The same for a decidable property of [0 .. n-1], by evaluation. *)
Lemma Zrange_check (n : nat) (P : Z -> Prop) `{forall x, Decision (P x)} :
  forallb (fun i => bool_decide (P (Z.of_nat i))) (seq 0 n) = true ->
  forall d, 0 <= d < Z.of_nat n -> P d.
Proof.
  intros F d Hd. rewrite forallb_forall in F.
  specialize (F (Z.to_nat d) ltac:(apply in_seq; lia)).
  rewrite Z2Nat.id in F by lia. by apply bool_decide_eq_true in F.
Qed.

(** ** Lemmas on buffers *)

Lemma concat_map_length {A} (f : A -> list Z) n l :
  (forall x, length (f x) = n) -> length (concat (map f l)) = (n * length l)%nat.
Proof.
  intros Hf. induction l as [| x l IH]; cbn; [lia |]. rewrite length_app, Hf, IH. lia.
Qed.

Lemma length_memcpy_at dst i src :
  (i + length src <= length dst)%nat -> length (memcpy_at dst i src) = length dst.
Proof. intros. unfold memcpy_at. rewrite !length_app, length_take, length_drop. lia. Qed.

Lemma memcpy_at_ok dst i src : bytes_ok dst -> bytes_ok src -> bytes_ok (memcpy_at dst i src).
Proof.
  intros. unfold memcpy_at. rewrite !bytes_ok_app. auto with hush.
Qed.

Lemma take_memcpy_at dst i src :
  (i + length src <= length dst)%nat ->
  take (i + length src) (memcpy_at dst i src) = take i dst ++ src.
Proof.
  intros. unfold memcpy_at. rewrite app_assoc, take_app_length'; [done |].
  rewrite length_app, length_take. lia.
Qed.

Lemma rd_app_l l1 l2 i : (i < length l1)%nat -> rd (l1 ++ l2) i = rd l1 i.
Proof. intros. unfold rd. by apply app_nth1. Qed.

Lemma rd_ok l i : bytes_ok l -> byte_ok (rd l i).
Proof.
  intros H. unfold rd. destruct (Nat.lt_ge_cases i (length l)).
  - unfold bytes_ok in H. rewrite List.Forall_forall in H. by apply H, nth_In.
  - rewrite nth_overflow by done. unfold byte_ok. lia.
Qed.

Lemma rd_lookup l i x : l !! i = Some x -> rd l i = x.
Proof. intros. unfold rd. by apply nth_lookup_Some with (d := 0) in H. Qed.

Lemma rev_replicate {A} n (x : A) : rev (replicate n x) = replicate n x.
Proof. induction n as [| n IH]; [done |]. cbn [replicate rev]. by rewrite IH, <-replicate_S_end. Qed.

Lemma Zlen_app {A} (l1 l2 : list A) : Zlen (l1 ++ l2) = Zlen l1 + Zlen l2.
Proof. unfold Zlen. rewrite length_app. lia. Qed.

Lemma Zlen_nonneg {A} (l : list A) : 0 <= Zlen l.
Proof. unfold Zlen. lia. Qed.
