(* ===== verification/HashStream.v ===== *)
(** * The block-buffered hashing skeleton of src/src/hush_utils.h

    [sha256_vprocess]/[sha256_vdone] and the macro [HASH_PROCESS] with
    [rmd160_vdone] are one algorithm over two compression functions: a 64-byte
    buffer that is compressed whenever it is full, and a final block made of
    the 0x80 marker, zeroes and the 64-bit message length.  This file models
    that algorithm over an abstract compression function and proves that,
    however the message is cut into calls, the result is the compression of
    the padded message block by block ([md_hash]).  Sha256.v and Ripemd160.v
    instantiate it. *)
From S2P Require Import Prelude.
Local Open Scope Z_scope.

(** [struct sha256_vstate] and [struct rmd160_vstate]: the same fields. *)
Record vstate := VState {
  vs_length : Z;          (* uint64_t length, in bits *)
  vs_state : list Z;      (* uint32_t state[] *)
  vs_curlen : nat;        (* uint32_t curlen *)
  vs_buf : list Z         (* uint8_t buf[64] *)
}.

Section HashStream.
Context (compress : list Z -> list Z -> list Z).
Context (store64 : Z -> list Z).

(** [xxx_vcompress(md, buf)]: replaces [md->state], returns 0. *)
Definition vcompress (md : vstate) (block : list Z) : Z * vstate :=
  (0, VState (vs_length md) (compress (vs_state md) block) (vs_curlen md) (vs_buf md)).

(** One iteration of the [while ( inlen > 0 )] loop: error code, state, rest
    of the input. *)
Definition vprocess_step (md : vstate) (inp : list Z) : Z * vstate * list Z :=
  if (vs_curlen md =? 0)%nat && (64 <=? length inp)%nat then
    let '(err, md) := vcompress md (take 64 inp) in
    if err =? 0 then
      (0, VState (u64 (vs_length md + 64 * 8)) (vs_state md) (vs_curlen md) (vs_buf md),
       drop 64 inp)
    else (err, md, inp)
  else
    let n := Nat.min (length inp) (64 - vs_curlen md) in
    let md := VState (vs_length md) (vs_state md) (vs_curlen md + n)
                (memcpy_at (vs_buf md) (vs_curlen md) (take n inp)) in
    let inp := drop n inp in
    if (vs_curlen md =? 64)%nat then
      let '(err, md) := vcompress md (vs_buf md) in
      if err =? 0 then
        (0, VState (u64 (vs_length md + 8 * 64)) (vs_state md) 0 (vs_buf md), inp)
      else (err, md, inp)
    else (0, md, inp).

Fixpoint vprocess_loop (fuel : nat) (md : vstate) (inp : list Z) : Z * vstate :=
  match fuel with
  | O => (0, md)
  | S fuel =>
    match inp with
    | [] => (0, md)
    | _ =>
      let '(err, md, inp) := vprocess_step md inp in
      if err =? 0 then vprocess_loop fuel md inp else (err, md)
    end
  end.

(** [xxx_vprocess(md, in, inlen)].  An iteration either consumes a byte or
    empties a full buffer, so [inlen + 1] iterations are enough. *)
Definition vprocess (md : vstate) (inp : list Z) : Z * vstate :=
  if (64 <? vs_curlen md)%nat then (-1, md)
  else vprocess_loop (S (length inp)) md inp.

(** [md->buf[md->curlen++] = (uint8_t)0] up to [upto]. *)
Definition zero_fill (upto : nat) (md : vstate) : vstate :=
  if (vs_curlen md <? upto)%nat then
    VState (vs_length md) (vs_state md) upto
      (memcpy_at (vs_buf md) (vs_curlen md) (replicate (upto - vs_curlen md) 0))
  else md.

(** [xxx_vdone(md, out)] up to the copy of the state into [out]. *)
Definition vdone (md : vstate) : Z * vstate :=
  if (64 <=? vs_curlen md)%nat then (-1, md)
  else
    let md := VState (u64 (vs_length md + u32 (Z.of_nat (vs_curlen md) * 8)))
                (vs_state md) (vs_curlen md) (vs_buf md) in
    let md := VState (vs_length md) (vs_state md) (S (vs_curlen md))
                (memcpy_at (vs_buf md) (vs_curlen md) [128]) in
    let md :=
      if (56 <? vs_curlen md)%nat then
        let md := zero_fill 64 md in
        let md := (vcompress md (vs_buf md)).2 in
        VState (vs_length md) (vs_state md) 0 (vs_buf md)
      else md in
    let md := zero_fill 56 md in
    let md := VState (vs_length md) (vs_state md) (vs_curlen md)
                (memcpy_at (vs_buf md) 56 (store64 (vs_length md))) in
    (0, (vcompress md (vs_buf md)).2).

(** ** The reference: padding, then one compression per 64-byte block *)

Fixpoint absorb (n : nat) (st : list Z) (msg : list Z) : list Z :=
  match n with
  | O => st
  | S n => absorb n (compress st (take 64 msg)) (drop 64 msg)
  end.

Definition pad (msg : list Z) : list Z :=
  msg ++ [128] ++ replicate ((119 - length msg mod 64) mod 64) 0
      ++ store64 (u64 (8 * Zlen msg)).

Definition md_hash (st0 : list Z) (msg : list Z) : list Z :=
  absorb (length (pad msg) / 64) st0 (pad msg).

(** The state [md] stands for the message [msg] hashed from [st0]. *)
Record repr (st0 msg : list Z) (md : vstate) : Prop := {
  repr_curlen : vs_curlen md = (length msg mod 64)%nat;
  repr_state : vs_state md = absorb (length msg / 64) st0 msg;
  repr_length : vs_length md = u64 (512 * Z.of_nat (length msg / 64));
  repr_buf : take (vs_curlen md) (vs_buf md) = drop (64 * (length msg / 64)) msg;
  repr_buf_length : length (vs_buf md) = 64%nat
}.

(** ** Lemmas *)

Lemma absorb_add a b st msg :
  absorb (a + b) st msg = absorb b (absorb a st msg) (drop (64 * a) msg).
Proof.
  revert st msg. induction a as [| a IH]; intros; simpl; [done |].
  rewrite IH, drop_drop. do 2 f_equal. lia.
Qed.

Lemma absorb_app n st m1 m2 :
  (64 * n <= length m1)%nat -> absorb n st (m1 ++ m2) = absorb n st m1.
Proof.
  revert st m1. induction n as [| n IH]; intros st m1 H; [done |]. cbn [absorb].
  rewrite take_app_le, drop_app_le by lia. apply IH. rewrite length_drop. lia.
Qed.

(** Absorbing one more full block. *)
Lemma absorb_snoc n st msg blk :
  length msg = (64 * n)%nat -> length blk = 64%nat ->
  absorb (S n) st (msg ++ blk) = compress (absorb n st msg) blk.
Proof.
  intros Hm Hb. replace (S n) with (n + 1)%nat by lia.
  rewrite absorb_add, absorb_app, drop_app_length' by lia. cbn [absorb].
  by rewrite take_ge by lia.
Qed.

Lemma divmod_add_small q r n :
  (r + n < 64)%nat -> ((64 * q + r + n) / 64 = q /\ (64 * q + r + n) mod 64 = r + n)%nat.
Proof.
  intros. split.
  - symmetry. apply (Nat.div_unique _ _ _ (r + n)); lia.
  - symmetry. apply (Nat.mod_unique _ _ q); lia.
Qed.

Lemma length_split (msg : list Z) :
  length msg = (64 * (length msg / 64) + length msg mod 64)%nat /\ (length msg mod 64 < 64)%nat.
Proof.
  split; [apply Nat.div_mod_eq | apply Nat.mod_upper_bound; lia].
Qed.

(** A message is its full blocks followed by what the buffer holds. *)
Lemma repr_msg st0 msg md :
  repr st0 msg md ->
  msg = take (64 * (length msg / 64)) msg ++ take (vs_curlen md) (vs_buf md).
Proof. intros [? ? ? -> ?]. by rewrite take_drop. Qed.

(** Completing the current block: [tail] fills the buffer up to 64 bytes. *)
Lemma repr_full st0 msg md tail blk :
  repr st0 msg md -> (vs_curlen md + length tail = 64)%nat ->
  blk = take (vs_curlen md) (vs_buf md) ++ tail ->
  (length (msg ++ tail) / 64 = S (length msg / 64) /\ length (msg ++ tail) mod 64 = 0)%nat /\
  absorb (length (msg ++ tail) / 64) st0 (msg ++ tail) = compress (vs_state md) blk.
Proof.
  intros R Hl ->. destruct (length_split msg) as [Hs Hr].
  pose proof (repr_curlen _ _ _ R) as Hc.
  set (q := (length msg / 64)%nat) in *.
  assert ((length (msg ++ tail) / 64 = S q /\ length (msg ++ tail) mod 64 = 0)%nat) as [Hq Hm].
  { rewrite length_app. replace (length msg + length tail)%nat with (64 * S q)%nat by lia.
    split; [by rewrite Nat.mul_comm, Nat.div_mul |].
    by rewrite Nat.mul_comm, Nat.Div0.mod_mul. }
  split; [done |]. rewrite Hq.
  rewrite (repr_msg _ _ _ R) at 1. fold q. rewrite <-app_assoc, absorb_snoc.
  - f_equal. rewrite (repr_state _ _ _ R). fold q.
    rewrite <-(take_drop (64 * q) msg) at 2. rewrite absorb_app; [done |].
    rewrite length_take. lia.
  - rewrite length_take. lia.
  - rewrite length_app, length_take, (repr_buf_length _ _ _ R). lia.
Qed.

Lemma u64_512_succ q : u64 (u64 (512 * Z.of_nat q) + 512) = u64 (512 * Z.of_nat (S q)).
Proof. rewrite u64_add_l. f_equal. lia. Qed.

(** Bytes that do not fill the buffer are only copied. *)
Lemma repr_buffer st0 msg md data :
  repr st0 msg md -> (vs_curlen md + length data < 64)%nat ->
  repr st0 (msg ++ data)
    (VState (vs_length md) (vs_state md) (vs_curlen md + length data)
       (memcpy_at (vs_buf md) (vs_curlen md) data)).
Proof.
  intros R Hl. destruct (length_split msg) as [Hs Hr].
  pose proof (repr_curlen _ _ _ R) as Hc. pose proof (repr_buf_length _ _ _ R) as Hb.
  destruct (divmod_add_small (length msg / 64) (vs_curlen md) (length data)) as [Hq Hm]; [lia |].
  replace (64 * (length msg / 64) + vs_curlen md + length data)%nat
    with (length (msg ++ data)) in * by (rewrite length_app; lia).
  split; cbn -[Nat.div Nat.modulo].
  - by rewrite Hm.
  - rewrite Hq, absorb_app by lia. apply R.
  - rewrite Hq. apply R.
  - rewrite Hq, drop_app_le, take_memcpy_at by lia. by rewrite (repr_buf _ _ _ R).
  - rewrite length_memcpy_at; lia.
Qed.

(** Bytes that fill the buffer cause one compression and reset it. *)
Lemma repr_flush st0 msg md data blk buf :
  repr st0 msg md -> (vs_curlen md + length data = 64)%nat ->
  blk = take (vs_curlen md) (vs_buf md) ++ data -> length buf = 64%nat ->
  repr st0 (msg ++ data)
    (VState (u64 (vs_length md + 512)) (compress (vs_state md) blk) 0 buf).
Proof.
  intros R Hl Hblk Hbuf. destruct (length_split msg) as [Hs Hr].
  destruct (repr_full st0 msg md data blk) as [[Hq Hm] Ha]; auto.
  pose proof (repr_curlen _ _ _ R) as Hc.
  split; cbn -[Nat.div Nat.modulo].
  - by rewrite Hm.
  - by rewrite Ha.
  - rewrite Hq, (repr_length _ _ _ R). apply u64_512_succ.
  - rewrite Hq, drop_ge; [done |]. rewrite length_app. lia.
  - done.
Qed.

Lemma memcpy_at_fill dst i src :
  (i + length src = length dst)%nat -> memcpy_at dst i src = take i dst ++ src.
Proof. intros. unfold memcpy_at. by rewrite drop_ge, app_nil_r by lia. Qed.

(** One iteration keeps the correspondence, returns 0 and consumes input. *)
Lemma vprocess_step_repr st0 msg md inp :
  repr st0 msg md -> inp <> [] ->
  exists n md', (0 < n <= length inp)%nat /\
    vprocess_step md inp = (0, md', drop n inp) /\ repr st0 (msg ++ take n inp) md'.
Proof.
  intros R Hinp. assert (0 < length inp)%nat by (destruct inp; simpl; [done | lia]).
  pose proof (repr_curlen _ _ _ R) as Hc. pose proof (repr_buf_length _ _ _ R) as Hb.
  destruct (length_split msg) as [_ Hr].
  unfold vprocess_step. destruct (_ && _) eqn:E; cbn [vcompress vs_curlen vs_buf].
  - apply andb_prop in E as [E1%Nat.eqb_eq E2%Nat.leb_le].
    exists 64%nat. eexists. split; [lia |]. split; [reflexivity |].
    cbn [vs_curlen vs_buf vs_length vs_state]. rewrite E1.
    apply (repr_flush st0 msg md); rewrite ?length_take, ?E1; auto; lia.
  - set (n := Nat.min (length inp) (64 - vs_curlen md)).
    assert (length (take n inp) = n) as Hn by (rewrite length_take; lia).
    exists n. destruct (Nat.eqb_spec (vs_curlen md + n) 64) as [E2 | E2].
    + eexists. split; [lia |]. split; [reflexivity |].
      apply (repr_flush st0 msg md); auto.
      * lia.
      * apply memcpy_at_fill. lia.
      * rewrite length_memcpy_at; lia.
    + eexists. split; [lia |]. split; [reflexivity |].
      rewrite <-Hn at 2. apply (repr_buffer st0 msg md); [done | lia].
Qed.

Lemma vprocess_loop_repr fuel st0 msg md inp :
  repr st0 msg md -> (length inp < fuel)%nat ->
  exists md', vprocess_loop fuel md inp = (0, md') /\ repr st0 (msg ++ inp) md'.
Proof.
  revert msg md inp. induction fuel as [| fuel IH]; intros msg md inp R Hf; [lia |].
  destruct (decide (inp = [])) as [-> | Hne].
  { exists md. rewrite app_nil_r. by split. }
  destruct (vprocess_step_repr st0 msg md inp R Hne) as (n & md' & Hn & E & R').
  destruct (IH (msg ++ take n inp) md' (drop n inp) R') as (md2 & E2 & R2).
  { rewrite length_drop. lia. }
  exists md2. rewrite <-app_assoc, take_drop in R2. split; [| done].
  cbn [vprocess_loop]. destruct inp; [done |]. by rewrite E.
Qed.

Lemma vprocess_repr st0 msg md inp :
  repr st0 msg md ->
  exists md', vprocess md inp = (0, md') /\ repr st0 (msg ++ inp) md'.
Proof.
  intros R. unfold vprocess. pose proof (repr_curlen _ _ _ R) as Hc.
  destruct (length_split msg) as [_ Hr].
  destruct (Nat.ltb_spec 64 (vs_curlen md)); [lia |].
  apply vprocess_loop_repr; [done | lia].
Qed.

Context (store64_length : forall x, length (store64 x) = 8%nat).

Lemma length_pad msg : (length (pad msg) mod 64 = 0)%nat.
Proof.
  unfold pad. rewrite !length_app, length_replicate, store64_length. cbn [length].
  destruct (length_split msg) as [Hs Hr].
  set (q := (length msg / 64)%nat) in *. set (r := (length msg mod 64)%nat) in *.
  rewrite Hs. pose proof (Nat.div_mod_eq (119 - r) 64) as E.
  pose proof (Nat.mod_upper_bound (119 - r) 64 ltac:(lia)).
  set (k := ((119 - r) mod 64)%nat) in *.
  assert (64 * q + r + (1 + (k + 8)) = (q + 2 - (119 - r) / 64) * 64)%nat as -> by lia.
  apply Nat.Div0.mod_mul.
Qed.

Lemma repr_total_bits st0 msg md :
  repr st0 msg md ->
  u64 (vs_length md + u32 (Z.of_nat (vs_curlen md) * 8)) = u64 (8 * Zlen msg).
Proof.
  intros R. destruct (length_split msg) as [Hs Hr].
  rewrite (repr_length _ _ _ R), (repr_curlen _ _ _ R), u64_add_l.
  rewrite u32_id by (unfold is_u; lia). f_equal. unfold Zlen. lia.
Qed.

(** The last compression of [vdone], on a buffer holding the tail of the
    padded message. *)
Lemma repr_last st0 msg md data bits :
  repr st0 msg md -> (vs_curlen md + length data = 56)%nat ->
  compress (vs_state md)
    (memcpy_at (memcpy_at (vs_buf md) (vs_curlen md) data) 56 (store64 bits)) =
  absorb (length (msg ++ data ++ store64 bits) / 64) st0 (msg ++ data ++ store64 bits).
Proof.
  intros R Hl. pose proof (repr_buf_length _ _ _ R) as Hb.
  destruct (repr_full st0 msg md (data ++ store64 bits)
     (memcpy_at (memcpy_at (vs_buf md) (vs_curlen md) data) 56 (store64 bits))) as [_ Ha]; auto.
  - rewrite length_app, store64_length. lia.
  - rewrite memcpy_at_fill by (rewrite length_memcpy_at, store64_length; lia).
    rewrite app_assoc. f_equal. rewrite <-Hl. apply take_memcpy_at. lia.
Qed.

Lemma memcpy_at_twice dst i a b :
  (i + length a + length b <= length dst)%nat ->
  memcpy_at (memcpy_at dst i a) (i + length a) b = memcpy_at dst i (a ++ b).
Proof.
  intros. unfold memcpy_at at 1. rewrite take_memcpy_at by lia.
  unfold memcpy_at. rewrite length_app, <-!app_assoc. do 3 f_equal.
  rewrite app_assoc, drop_app_ge, drop_drop by (rewrite length_app, length_take; lia).
  f_equal. rewrite length_app, length_take. lia.
Qed.

Lemma zero_fill_spec upto md :
  (vs_curlen md <= upto)%nat ->
  zero_fill upto md =
  VState (vs_length md) (vs_state md) upto
    (memcpy_at (vs_buf md) (vs_curlen md) (replicate (upto - vs_curlen md) 0)).
Proof.
  intros. unfold zero_fill. destruct (Nat.ltb_spec (vs_curlen md) upto); [done |].
  replace upto with (vs_curlen md) by lia. rewrite Nat.sub_diag. unfold memcpy_at. cbn.
  rewrite Nat.add_0_r, take_drop. by destruct md.
Qed.

(** [vdone] on a state that stands for [msg] computes the reference digest. *)
Lemma vdone_repr st0 msg md :
  repr st0 msg md -> exists md', vdone md = (0, md') /\ vs_state md' = md_hash st0 msg.
Proof.
  intros R. destruct (length_split msg) as [_ Hr].
  pose proof (repr_curlen _ _ _ R) as Hc. pose proof (repr_buf_length _ _ _ R) as Hb.
  pose proof (repr_total_bits _ _ _ R) as Hbits.
  unfold vdone, md_hash, pad. destruct (Nat.leb_spec 64 (vs_curlen md)); [lia |].
  cbn [vs_curlen vs_buf vs_length vs_state]. rewrite Hbits, <-Hc. clear Hbits.
  eexists. split; [reflexivity |]. set (c := vs_curlen md) in *.
  destruct (Nat.ltb_spec 56 (S c)) as [H56 | H56].
  - replace ((119 - c) mod 64)%nat with ((64 - S c) + 56)%nat
      by (rewrite Nat.mod_small; lia).
    rewrite zero_fill_spec by (simpl; lia). cbn [vcompress snd vs_curlen vs_buf vs_length vs_state].
    rewrite zero_fill_spec by (simpl; lia).
    cbn [vcompress snd vs_curlen vs_buf vs_length vs_state].
    replace (S c) with (c + length [128%Z])%nat by (simpl; lia).
    rewrite memcpy_at_twice by (rewrite length_replicate; simpl; lia).
    set (d := [128] ++ replicate (64 - (c + length [128%Z])) 0).
    assert (c + length d = 64)%nat as Hd
      by (unfold d; rewrite length_app, length_replicate; simpl; lia).
    pose proof (repr_flush st0 msg md d _ (memcpy_at (vs_buf md) c d) R Hd eq_refl) as R2.
    rewrite <-memcpy_at_fill in R2 by (unfold c in *; lia).
    specialize (R2 ltac:(rewrite length_memcpy_at; lia)).
    rewrite (repr_last st0 (msg ++ d) _ (replicate 56 0) _ R2 ltac:(reflexivity)).
    rewrite replicate_add. unfold d. by rewrite <-!app_assoc.
  - replace ((119 - c) mod 64)%nat with (56 - S c)%nat.
    2:{ replace (119 - c)%nat with (56 - S c + 1 * 64)%nat by lia.
        rewrite Nat.Div0.mod_add, Nat.mod_small; lia. }
    rewrite zero_fill_spec by (simpl; lia).
    cbn [vcompress snd vs_curlen vs_buf vs_length vs_state].
    replace (S c) with (c + length [128%Z])%nat by (simpl; lia).
    rewrite memcpy_at_twice by (rewrite length_replicate; simpl; lia).
    rewrite (repr_last st0 msg md); [| done |].
    + by rewrite <-!app_assoc.
    + rewrite length_app, length_replicate. simpl. lia.
Qed.

(** The initial state stands for the empty message, whatever the buffer
    contained before. *)
Lemma repr_init st0 buf : length buf = 64%nat -> repr st0 [] (VState 0 st0 0 buf).
Proof. intros. by split. Qed.

(** Feeding a message in pieces. *)
Definition vprocess_all (md : vstate) (chunks : list (list Z)) : vstate :=
  foldl (fun md c => (vprocess md c).2) md chunks.

Lemma vprocess_all_repr st0 msg md chunks :
  repr st0 msg md -> repr st0 (msg ++ concat chunks) (vprocess_all md chunks).
Proof.
  revert msg md. induction chunks as [| c cs IH]; intros msg md R; cbn.
  - by rewrite app_nil_r.
  - destruct (vprocess_repr _ _ _ c R) as (md' & E & R'). unfold vprocess_all. cbn [foldl].
    rewrite E, app_assoc. apply IH, R'.
Qed.

Lemma hash_chunks st0 buf chunks :
  length buf = 64%nat ->
  exists md', vdone (vprocess_all (VState 0 st0 0 buf) chunks) = (0, md') /\
    vs_state md' = md_hash st0 (concat chunks).
Proof. intros. apply vdone_repr, (vprocess_all_repr st0 []), repr_init; done. Qed.

End HashStream.

(** Two compression functions that agree on byte blocks give the same hash. *)
Lemma absorb_ext (f g : list Z -> list Z -> list Z) (P : list Z -> Prop) :
  (forall st blk, P st -> bytes_ok blk -> length blk = 64%nat ->
     f st blk = g st blk /\ P (f st blk)) ->
  forall n st msg, P st -> bytes_ok msg -> (64 * n <= length msg)%nat ->
  absorb f n st msg = absorb g n st msg /\ P (absorb f n st msg).
Proof.
  intros Hfg n. induction n as [| n IH]; intros st msg HP Hm Hl; [done |]. cbn [absorb].
  destruct (Hfg st (take 64 msg)) as [E HP']; auto with hush.
  { rewrite length_take. lia. }
  rewrite <-E. apply IH; auto with hush. rewrite length_drop. lia.
Qed.

Lemma pad_ok store64 msg :
  (forall x, bytes_ok (store64 x)) -> bytes_ok msg -> bytes_ok (pad store64 msg).
Proof.
  intros Hs Hm. unfold pad. rewrite !bytes_ok_app. repeat split; auto.
  - by repeat constructor.
  - by apply bytes_ok_replicate.
Qed.

Lemma md_hash_ext (f g : list Z -> list Z -> list Z) (P : list Z -> Prop) s1 s2 st msg :
  (forall st blk, P st -> bytes_ok blk -> length blk = 64%nat ->
     f st blk = g st blk /\ P (f st blk)) ->
  (forall x, s1 x = s2 x) -> (forall x, bytes_ok (s1 x)) -> P st -> bytes_ok msg ->
  md_hash f s1 st msg = md_hash g s2 st msg /\ P (md_hash f s1 st msg).
Proof.
  intros Hfg Hs Hok HP Hm. unfold md_hash.
  replace (pad s2 msg) with (pad s1 msg) by (unfold pad; by rewrite Hs).
  apply (absorb_ext f g P Hfg); auto using pad_ok.
  pose proof (Nat.div_mod_eq (length (pad s1 msg)) 64). lia.
Qed.

(** ** Rotating roles

    An unrolled loop over [S m] registers renames them from round to round:
    the register that plays role [r] in round [t]. *)
Definition cell (m t r : nat) : nat := ((m * t + r) mod S m)%nat.

Lemma cell_mod m t r : cell m t r = cell m (t mod S m) r.
Proof.
  unfold cell. rewrite <-(Nat.Div0.add_mod_idemp_l (m * t)), <-Nat.Div0.mul_mod_idemp_r.
  by rewrite Nat.Div0.add_mod_idemp_l.
Qed.

Lemma cell_S_mod m t r : cell m (S t) r = cell m (S (t mod S m)) r.
Proof.
  transitivity (cell m t (m + r)); [unfold cell; f_equal; lia |].
  rewrite cell_mod. unfold cell. f_equal. lia.
Qed.
