(* ===== verification/Sha256.v ===== *)
(** * SHA-256 of src/src/hush_utils.h (lines 54-299)

    [sha256_vcompress] keeps the eight working variables in an array and
    rotates the roles of its cells from one unrolled round to the next, with
    rewritten choice and majority functions.  The file translates the 64
    unrolled rounds literally, states the compression function of FIPS 180-4
    ([Fips]) and proves the two equal; with HashStream.v, [vcalc_sha256] is
    SHA-256 for every message and does not depend on the uninitialised
    contents of the stack buffer. *)
From S2P Require Import Prelude HashStream.
Local Open Scope Z_scope.

Module Sha256.

(** ** Macros *)

Definition LOAD32H (y : list Z) : Z :=
  u32 (Z.lor (Z.lor (Z.lor (Z.shiftl (Z.land (rd y 0) 255) 24)
                           (u32 (Z.shiftl (Z.land (rd y 1) 255) 16)))
                    (u32 (Z.shiftl (Z.land (rd y 2) 255) 8)))
             (Z.land (rd y 3) 255)).

Definition STORE32H (x : Z) : list Z :=
  [u8 (Z.land (Z.shiftr x 24) 255); u8 (Z.land (Z.shiftr x 16) 255);
   u8 (Z.land (Z.shiftr x 8) 255); u8 (Z.land x 255)].

Definition STORE64H (x : Z) : list Z :=
  [u8 (Z.land (Z.shiftr x 56) 255); u8 (Z.land (Z.shiftr x 48) 255);
   u8 (Z.land (Z.shiftr x 40) 255); u8 (Z.land (Z.shiftr x 32) 255);
   u8 (Z.land (Z.shiftr x 24) 255); u8 (Z.land (Z.shiftr x 16) 255);
   u8 (Z.land (Z.shiftr x 8) 255); u8 (Z.land x 255)].

Definition RORc (x y : Z) : Z :=
  Z.land (Z.lor (Z.shiftr (Z.land (u32 x) 0xFFFFFFFF) (Z.land y 31))
                (u32 (Z.shiftl (u32 x) (32 - Z.land y 31))))
         0xFFFFFFFF.
Definition Ch (x y z : Z) : Z := Z.lxor z (Z.land x (Z.lxor y z)).
Definition Maj (x y z : Z) : Z := Z.lor (Z.land (Z.lor x y) z) (Z.land x y).
Definition S_ (x n : Z) : Z := RORc x n.
Definition R_ (x n : Z) : Z := Z.shiftr (Z.land x 0xFFFFFFFF) n.
Definition Sigma0 (x : Z) : Z := Z.lxor (Z.lxor (S_ x 2) (S_ x 13)) (S_ x 22).
Definition Sigma1 (x : Z) : Z := Z.lxor (Z.lxor (S_ x 6) (S_ x 11)) (S_ x 25).
Definition Gamma0 (x : Z) : Z := Z.lxor (Z.lxor (S_ x 7) (S_ x 18)) (R_ x 3).
Definition Gamma1 (x : Z) : Z := Z.lxor (Z.lxor (S_ x 17) (S_ x 19)) (R_ x 10).

(** ** Compression *)

(** Filling [W[0..15]] from the block and [W[16..63]] by the recurrence. *)
Definition load_W (buf : list Z) : list Z :=
  map (fun i => LOAD32H (drop (4 * i) buf)) (seq 0 16).

Definition fill_W1 (W : list Z) (i : nat) : list Z :=
  W ++ [u32 (Gamma1 (rd W (i - 2)) + rd W (i - 7) + Gamma0 (rd W (i - 15)) + rd W (i - 16))].

Definition fill_W (buf : list Z) : list Z := foldl fill_W1 (load_W buf) (seq 16 48).

(** One expansion of the macro [RND(S[a],...,S[h],i,ki)]. *)
Inductive rnd := Rnd (a b c d e f g h i : nat) (ki : Z).

Definition RND (W : list Z) (S : list Z) (r : rnd) : list Z :=
  let '(Rnd a b c d e f g h i ki) := r in
  let t0 := u32 (rd S h + Sigma1 (rd S e) + Ch (rd S e) (rd S f) (rd S g) + ki + rd W i) in
  let t1 := u32 (Sigma0 (rd S a) + Maj (rd S a) (rd S b) (rd S c)) in
  let S := <[d := u32 (rd S d + t0)]> S in
  <[h := u32 (t0 + t1)]> S.

Definition RND_lines : list rnd :=
  [Rnd 0 1 2 3 4 5 6 7 0 0x428a2f98;
   Rnd 7 0 1 2 3 4 5 6 1 0x71374491;
   Rnd 6 7 0 1 2 3 4 5 2 0xb5c0fbcf;
   Rnd 5 6 7 0 1 2 3 4 3 0xe9b5dba5;
   Rnd 4 5 6 7 0 1 2 3 4 0x3956c25b;
   Rnd 3 4 5 6 7 0 1 2 5 0x59f111f1;
   Rnd 2 3 4 5 6 7 0 1 6 0x923f82a4;
   Rnd 1 2 3 4 5 6 7 0 7 0xab1c5ed5;
   Rnd 0 1 2 3 4 5 6 7 8 0xd807aa98;
   Rnd 7 0 1 2 3 4 5 6 9 0x12835b01;
   Rnd 6 7 0 1 2 3 4 5 10 0x243185be;
   Rnd 5 6 7 0 1 2 3 4 11 0x550c7dc3;
   Rnd 4 5 6 7 0 1 2 3 12 0x72be5d74;
   Rnd 3 4 5 6 7 0 1 2 13 0x80deb1fe;
   Rnd 2 3 4 5 6 7 0 1 14 0x9bdc06a7;
   Rnd 1 2 3 4 5 6 7 0 15 0xc19bf174;
   Rnd 0 1 2 3 4 5 6 7 16 0xe49b69c1;
   Rnd 7 0 1 2 3 4 5 6 17 0xefbe4786;
   Rnd 6 7 0 1 2 3 4 5 18 0x0fc19dc6;
   Rnd 5 6 7 0 1 2 3 4 19 0x240ca1cc;
   Rnd 4 5 6 7 0 1 2 3 20 0x2de92c6f;
   Rnd 3 4 5 6 7 0 1 2 21 0x4a7484aa;
   Rnd 2 3 4 5 6 7 0 1 22 0x5cb0a9dc;
   Rnd 1 2 3 4 5 6 7 0 23 0x76f988da;
   Rnd 0 1 2 3 4 5 6 7 24 0x983e5152;
   Rnd 7 0 1 2 3 4 5 6 25 0xa831c66d;
   Rnd 6 7 0 1 2 3 4 5 26 0xb00327c8;
   Rnd 5 6 7 0 1 2 3 4 27 0xbf597fc7;
   Rnd 4 5 6 7 0 1 2 3 28 0xc6e00bf3;
   Rnd 3 4 5 6 7 0 1 2 29 0xd5a79147;
   Rnd 2 3 4 5 6 7 0 1 30 0x06ca6351;
   Rnd 1 2 3 4 5 6 7 0 31 0x14292967;
   Rnd 0 1 2 3 4 5 6 7 32 0x27b70a85;
   Rnd 7 0 1 2 3 4 5 6 33 0x2e1b2138;
   Rnd 6 7 0 1 2 3 4 5 34 0x4d2c6dfc;
   Rnd 5 6 7 0 1 2 3 4 35 0x53380d13;
   Rnd 4 5 6 7 0 1 2 3 36 0x650a7354;
   Rnd 3 4 5 6 7 0 1 2 37 0x766a0abb;
   Rnd 2 3 4 5 6 7 0 1 38 0x81c2c92e;
   Rnd 1 2 3 4 5 6 7 0 39 0x92722c85;
   Rnd 0 1 2 3 4 5 6 7 40 0xa2bfe8a1;
   Rnd 7 0 1 2 3 4 5 6 41 0xa81a664b;
   Rnd 6 7 0 1 2 3 4 5 42 0xc24b8b70;
   Rnd 5 6 7 0 1 2 3 4 43 0xc76c51a3;
   Rnd 4 5 6 7 0 1 2 3 44 0xd192e819;
   Rnd 3 4 5 6 7 0 1 2 45 0xd6990624;
   Rnd 2 3 4 5 6 7 0 1 46 0xf40e3585;
   Rnd 1 2 3 4 5 6 7 0 47 0x106aa070;
   Rnd 0 1 2 3 4 5 6 7 48 0x19a4c116;
   Rnd 7 0 1 2 3 4 5 6 49 0x1e376c08;
   Rnd 6 7 0 1 2 3 4 5 50 0x2748774c;
   Rnd 5 6 7 0 1 2 3 4 51 0x34b0bcb5;
   Rnd 4 5 6 7 0 1 2 3 52 0x391c0cb3;
   Rnd 3 4 5 6 7 0 1 2 53 0x4ed8aa4a;
   Rnd 2 3 4 5 6 7 0 1 54 0x5b9cca4f;
   Rnd 1 2 3 4 5 6 7 0 55 0x682e6ff3;
   Rnd 0 1 2 3 4 5 6 7 56 0x748f82ee;
   Rnd 7 0 1 2 3 4 5 6 57 0x78a5636f;
   Rnd 6 7 0 1 2 3 4 5 58 0x84c87814;
   Rnd 5 6 7 0 1 2 3 4 59 0x8cc70208;
   Rnd 4 5 6 7 0 1 2 3 60 0x90befffa;
   Rnd 3 4 5 6 7 0 1 2 61 0xa4506ceb;
   Rnd 2 3 4 5 6 7 0 1 62 0xbef9a3f7;
   Rnd 1 2 3 4 5 6 7 0 63 0xc67178f2].

Definition sha256_vcompress (state buf : list Z) : list Z :=
  let W := fill_W buf in
  let S := foldl (RND W) state RND_lines in
  zip_with (fun x y => u32 (x + y)) state S.

(** ** The hash *)

Definition sha256_H0 : list Z :=
  [0x6A09E667; 0xBB67AE85; 0x3C6EF372; 0xA54FF53A;
   0x510E527F; 0x9B05688C; 0x1F83D9AB; 0x5BE0CD19].

Definition sha256_vinit (md : vstate) : vstate := VState 0 sha256_H0 0 (vs_buf md).

Definition sha256_vprocess : vstate -> list Z -> Z * vstate := vprocess sha256_vcompress.

(** [out] is [None] when the function returns -1 and leaves it alone. *)
Definition sha256_vdone (md : vstate) : Z * vstate * option (list Z) :=
  let '(ret, md) := vdone sha256_vcompress STORE64H md in
  (ret, md, if ret =? 0 then Some (concat (map STORE32H (vs_state md))) else None).

(** [md0] is the uninitialised stack variable. *)
Definition vcalc_sha256 (md0 : vstate) (src : list Z) : option (list Z) :=
  let md := sha256_vinit md0 in
  let md := (sha256_vprocess md src).2 in
  (sha256_vdone md).2.

Definition bits256_doublesha256 (md0 md1 : vstate) (data : list Z) : option (list Z) :=
  match vcalc_sha256 md0 data with
  | Some hash => match vcalc_sha256 md1 hash with
                 | Some hash2 => Some (rev hash2)
                 | None => None
                 end
  | None => None
  end.

(** ** FIPS 180-4 *)

Module Fips.
Definition ROTR (n x : Z) : Z := Z.lor (Z.shiftr (u32 x) n) (u32 (Z.shiftl (u32 x) (32 - n))).
Definition SHR (n x : Z) : Z := Z.shiftr (u32 x) n.
Definition Ch (x y z : Z) : Z := Z.lxor (Z.land x y) (Z.land (Z.lnot x) z).
Definition Maj (x y z : Z) : Z := Z.lxor (Z.lxor (Z.land x y) (Z.land x z)) (Z.land y z).
Definition Sig0 (x : Z) : Z := Z.lxor (Z.lxor (ROTR 2 x) (ROTR 13 x)) (ROTR 22 x).
Definition Sig1 (x : Z) : Z := Z.lxor (Z.lxor (ROTR 6 x) (ROTR 11 x)) (ROTR 25 x).
Definition sig0 (x : Z) : Z := Z.lxor (Z.lxor (ROTR 7 x) (ROTR 18 x)) (SHR 3 x).
Definition sig1 (x : Z) : Z := Z.lxor (Z.lxor (ROTR 17 x) (ROTR 19 x)) (SHR 10 x).

(** The standard's constants: the first 32 bits of the fractional parts of
    the cube roots of the first 64 primes, and, for the initial state, of the
    square roots of the first eight. *)
Definition is_prime (p : nat) : bool :=
  (2 <=? p)%nat && forallb (fun d => negb (p mod d =? 0)%nat) (seq 2 (p - 2)).
Definition primes : list Z := map Z.of_nat (List.filter is_prime (seq 2 310)).

(** Integer cube root, one bit of the result at a time. *)
Fixpoint cbrt_bits (n : nat) (x r : Z) : Z :=
  match n with
  | O => r
  | S n => let r' := r + 2 ^ Z.of_nat n in cbrt_bits n x (if r' ^ 3 <=? x then r' else r)
  end.
Definition cbrt (x : Z) : Z := cbrt_bits 40 x 0.

Definition K : list Z := Eval vm_compute in map (fun p => u32 (cbrt (p * 2 ^ 96))) primes.
Definition H0 : list Z := Eval vm_compute in map (fun p => u32 (Z.sqrt (p * 2 ^ 64))) (take 8 primes).

Inductive vars := Vars (a b c d e f g h : Z).

(** Round [t]: every variable moves one place. *)
Definition step (W : list Z) (v : vars) (t : nat) : vars :=
  let '(Vars a b c d e f g h) := v in
  let T1 := h + Sig1 e + Ch e f g + rd K t + rd W t in
  let T2 := Sig0 a + Maj a b c in
  Vars (u32 (T1 + T2)) a b c (u32 (d + T1)) e f g.

Definition schedule (M : list Z) : list Z :=
  foldl (fun W t => W ++ [u32 (sig1 (rd W (t - 2)) + rd W (t - 7) + sig0 (rd W (t - 15)) + rd W (t - 16))])
    (map (fun i => be_num (take 4 (drop (4 * i) M))) (seq 0 16)) (seq 16 48).

Definition vars_list (v : vars) : list Z :=
  let '(Vars a b c d e f g h) := v in [a; b; c; d; e; f; g; h].

Definition compress (H M : list Z) : list Z :=
  let v := Vars (rd H 0) (rd H 1) (rd H 2) (rd H 3) (rd H 4) (rd H 5) (rd H 6) (rd H 7) in
  let v := foldl (step (schedule M)) v (seq 0 64) in
  zip_with (fun x y => u32 (x + y)) H (vars_list v).

(** SHA-256 of a byte string: 32 bytes, each word most significant byte
    first. *)
Definition sha256 (msg : list Z) : list Z :=
  concat (map (be_bytes 4) (md_hash compress (be_bytes 8) H0 msg)).
End Fips.

(** ** The code computes the standard *)

Lemma RORc_ROTR x n : 0 <= n < 32 -> RORc x n = Fips.ROTR n x.
Proof.
  intros Hn. unfold RORc, Fips.ROTR. rewrite !land_ffffffff, u32_idem.
  replace (Z.land n 31) with n.
  2:{ change 31 with (Z.ones 5). rewrite Z.land_ones, Z.mod_small; lia. }
  apply u32_id. apply is_u_lor; [lia | | auto with hush].
  apply is_u_shiftr; [lia | lia | auto with hush].
Qed.

Lemma Ch_fips x y z : Ch x y z = Fips.Ch x y z.
Proof. unfold Ch, Fips.Ch. zbits. Qed.

Lemma Maj_fips x y z : Maj x y z = Fips.Maj x y z.
Proof. unfold Maj, Fips.Maj. zbits. Qed.

Lemma Sigma0_fips x : Sigma0 x = Fips.Sig0 x.
Proof. unfold Sigma0, Fips.Sig0, S_. by rewrite !RORc_ROTR by lia. Qed.

Lemma Sigma1_fips x : Sigma1 x = Fips.Sig1 x.
Proof. unfold Sigma1, Fips.Sig1, S_. by rewrite !RORc_ROTR by lia. Qed.

Lemma Gamma0_fips x : Gamma0 x = Fips.sig0 x.
Proof.
  unfold Gamma0, Fips.sig0, S_, R_, Fips.SHR. by rewrite !RORc_ROTR, land_ffffffff by lia.
Qed.

Lemma Gamma1_fips x : Gamma1 x = Fips.sig1 x.
Proof.
  unfold Gamma1, Fips.sig1, S_, R_, Fips.SHR. by rewrite !RORc_ROTR, land_ffffffff by lia.
Qed.

Lemma LOAD32H_be b0 b1 b2 b3 l :
  byte_ok b0 -> byte_ok b1 -> byte_ok b2 -> byte_ok b3 ->
  LOAD32H (b0 :: b1 :: b2 :: b3 :: l) = be_num [b0; b1; b2; b3].
Proof.
  unfold byte_ok. intros. unfold LOAD32H, rd, be_num. cbn [nth rev app le_num].
  rewrite !land_255, !Z.mod_small, !Z.shiftl_mul_pow2 by lia.
  rewrite !(u32_id (_ * _)) by (unfold is_u; lia).
  replace (b0 * 2 ^ 24) with (b0 * 2 ^ 8 * 2 ^ 16) by lia.
  replace (Z.lor (b0 * 2 ^ 8 * 2 ^ 16) (b1 * 2 ^ 16)) with ((b0 * 2 ^ 8 + b1) * 2 ^ 8 * 2 ^ 8).
  2:{ rewrite <-!(Z.shiftl_mul_pow2 _ 16), <-Z.shiftl_lor, lor_add, !Z.shiftl_mul_pow2 by lia. lia. }
  rewrite <-(Z.shiftl_mul_pow2 b2), <-(Z.shiftl_mul_pow2 (_ * _) 8) by lia.
  rewrite <-Z.shiftl_lor, lor_add, Z.shiftl_mul_pow2, lor_add by lia.
  rewrite u32_id by (unfold is_u; lia). lia.
Qed.

Lemma load_W_fips buf i :
  bytes_ok buf -> (4 * i + 4 <= length buf)%nat ->
  LOAD32H (drop (4 * i) buf) = be_num (take 4 (drop (4 * i) buf)).
Proof.
  intros Hb Hl. apply (bytes_ok_drop (4 * i)) in Hb.
  assert (4 <= length (drop (4 * i) buf))%nat as Hl' by (rewrite length_drop; lia).
  destruct (drop (4 * i) buf) as [| b0 [| b1 [| b2 [| b3 l]]]]; cbn [length] in Hl'; try lia.
  unfold bytes_ok in Hb. rewrite !Forall_cons in Hb.
  destruct Hb as (? & ? & ? & ? & _). by apply LOAD32H_be.
Qed.

Lemma fill_W_fips buf :
  bytes_ok buf -> length buf = 64%nat -> fill_W buf = Fips.schedule buf.
Proof.
  intros Hb Hl. unfold fill_W, Fips.schedule.
  assert (load_W buf = map (fun i => be_num (take 4 (drop (4 * i) buf))) (seq 0 16)) as ->.
  { apply map_ext_in. intros i [_ Hi]%in_seq. apply load_W_fips; [done | lia]. }
  generalize (map (fun i => be_num (take 4 (drop (4 * i) buf))) (seq 0 16)).
  induction (seq 16 48) as [| t l IH]; intros W; [done |]. cbn [foldl].
  unfold fill_W1 at 2. rewrite Gamma1_fips, Gamma0_fips. apply IH.
Qed.

Definition canon (t : nat) : rnd :=
  Rnd (cell 7 t 0) (cell 7 t 1) (cell 7 t 2) (cell 7 t 3) (cell 7 t 4) (cell 7 t 5) (cell 7 t 6) (cell 7 t 7)
      t (rd Fips.K t).

(** The evaluated constants are what their definition says. *)
Lemma fips_constants :
  Fips.K = map (fun p => u32 (Fips.cbrt (p * 2 ^ 96))) Fips.primes /\
  Fips.H0 = map (fun p => u32 (Z.sqrt (p * 2 ^ 64))) (take 8 Fips.primes) /\
  length Fips.primes = 64%nat.
Proof. vm_compute. done. Qed.

Lemma sha256_H0_fips : sha256_H0 = Fips.H0.
Proof. reflexivity. Qed.

Lemma RND_lines_canon : RND_lines = map canon (seq 0 64).
Proof. reflexivity. Qed.

(** The array of the unrolled code before round [t] holds the variables. *)
Definition holds (t : nat) (S : list Z) (v : Fips.vars) : Prop :=
  length S = 8%nat /\ map (fun r => rd S (cell 7 t r)) (seq 0 8) = Fips.vars_list v.

Lemma RND_step W t A v :
  holds t A v -> holds (S t) (RND W A (canon t)) (Fips.step W v t).
Proof.
  intros [Hl HA]. unfold holds, canon.
  rewrite (map_ext _ (fun r => rd A (cell 7 (t mod 8) r))) in HA by (intros; by rewrite <-cell_mod).
  rewrite (map_ext _ (fun r => rd (RND W A (canon t)) (cell 7 (S (t mod 8)) r)))
    by (intros; by rewrite <-cell_S_mod).
  unfold canon. rewrite !(cell_mod 7 t).
  pose proof (Nat.mod_upper_bound t 8 ltac:(lia)) as Hj. revert HA Hj.
  generalize (t mod 8)%nat as j. intros j HA Hj.
  destruct A as [| s0 [| s1 [| s2 [| s3 [| s4 [| s5 [| s6 [| s7 [|]]]]]]]]]; try discriminate.
  destruct v as [a b c d e f g h].
  unfold RND, Fips.step. rewrite Sigma0_fips, Sigma1_fips, Ch_fips, Maj_fips.
  destruct j as [|[|[|[|[|[|[|[| j]]]]]]]]; [.. | lia];
    cbn in HA; injection HA as -> -> -> -> -> -> -> ->;
    (split; [done |]); cbn -[u32 Fips.Sig0 Fips.Sig1 Fips.Ch Fips.Maj Fips.K];
    autorewrite with word; reflexivity.
Qed.

Lemma RND_loop W n t A v :
  holds t A v ->
  holds (t + n) (foldl (RND W) A (map canon (seq t n))) (foldl (Fips.step W) v (seq t n)).
Proof.
  revert t A v. induction n as [| n IH]; intros t A v H; cbn [seq map foldl].
  - by rewrite Nat.add_0_r.
  - replace (t + S n)%nat with (S t + n)%nat by lia. by apply IH, RND_step.
Qed.

Lemma sha256_vcompress_fips H M :
  length H = 8%nat -> bytes_ok M -> length M = 64%nat ->
  sha256_vcompress H M = Fips.compress H M.
Proof.
  intros Hl HM HlM. unfold sha256_vcompress, Fips.compress.
  rewrite fill_W_fips, RND_lines_canon by done. f_equal.
  set (v := Fips.Vars _ _ _ _ _ _ _ _).
  destruct (RND_loop (Fips.schedule M) 64 0 H v) as [HL HA].
  { split; [done |]. unfold v. by destruct H as [| ? [| ? [| ? [| ? [| ? [| ? [| ? [| ? [|]]]]]]]]]. }
  rewrite <-HA. clear HA. revert HL. generalize (foldl (RND (Fips.schedule M)) H (map canon (seq 0 64))).
  intros A HL. by destruct A as [| ? [| ? [| ? [| ? [| ? [| ? [| ? [| ? [|]]]]]]]]].
Qed.

Lemma STORE32H_be x : STORE32H x = be_bytes 4 x.
Proof.
  unfold STORE32H, be_bytes. cbn [le_bytes rev app]. rewrite !land_255, !Z.shiftr_div_pow2 by lia.
  rewrite !Z.div_div by lia. unfold u8. by rewrite !Zmod_mod.
Qed.

Lemma STORE64H_be x : STORE64H x = be_bytes 8 x.
Proof.
  unfold STORE64H, be_bytes. cbn [le_bytes rev app]. rewrite !land_255, !Z.shiftr_div_pow2 by lia.
  rewrite !Z.div_div by lia. unfold u8. by rewrite !Zmod_mod.
Qed.

Lemma sha256_vcompress_ok st blk :
  length st = 8%nat -> bytes_ok blk -> length blk = 64%nat ->
  sha256_vcompress st blk = Fips.compress st blk /\ length (sha256_vcompress st blk) = 8%nat.
Proof.
  intros. rewrite sha256_vcompress_fips by done. split; [done |].
  unfold Fips.compress. rewrite length_zip_with, H. by destruct (foldl _ _ _).
Qed.

Lemma sha256_done_chunks md0 chunks :
  length (vs_buf md0) = 64%nat -> Forall bytes_ok chunks ->
  exists md', sha256_vdone (vprocess_all sha256_vcompress (sha256_vinit md0) chunks) =
    (0, md', Some (Fips.sha256 (concat chunks))).
Proof.
  intros Hb Hc. unfold sha256_vinit, sha256_vdone.
  destruct (hash_chunks sha256_vcompress STORE64H) with (st0 := sha256_H0) (buf := vs_buf md0)
    (chunks := chunks) as (md' & E & Hs); [done | done |].
  rewrite E. exists md'. cbn [Z.eqb]. do 2 f_equal. rewrite Hs. unfold Fips.sha256.
  rewrite <-sha256_H0_fips.
  destruct (md_hash_ext sha256_vcompress Fips.compress (fun st => length st = 8%nat)
    STORE64H (be_bytes 8) sha256_H0 (concat chunks)) as [-> _].
  - apply sha256_vcompress_ok.
  - apply STORE64H_be.
  - intros. rewrite STORE64H_be. auto with hush.
  - done.
  - unfold bytes_ok. by apply Forall_concat.
  - f_equal. apply map_ext. apply STORE32H_be.
Qed.

Lemma vcalc_sha256_eq md0 msg :
  length (vs_buf md0) = 64%nat -> bytes_ok msg ->
  vcalc_sha256 md0 msg = Some (Fips.sha256 msg).
Proof.
  intros Hb Hm. destruct (sha256_done_chunks md0 [msg] Hb) as (md' & E); [by constructor |].
  unfold vcalc_sha256, sha256_vprocess. cbn [concat app] in E. rewrite app_nil_r in E.
  unfold vprocess_all in E. cbn [foldl] in E. by rewrite E.
Qed.

Lemma fips_sha256_shape msg :
  bytes_ok msg -> length (Fips.sha256 msg) = 32%nat /\ bytes_ok (Fips.sha256 msg).
Proof.
  intros Hm. unfold Fips.sha256. split.
  - rewrite (concat_map_length _ 4) by (intros; apply length_be_bytes).
    destruct (md_hash_ext Fips.compress Fips.compress (fun st => length st = 8%nat)
      (be_bytes 8) (be_bytes 8) Fips.H0 msg) as [_ E]; auto with hush.
    + intros st blk H1 H2 H3. split; [done |].
      rewrite <-sha256_vcompress_fips by done. by apply sha256_vcompress_ok.
    + by rewrite E.
  - unfold bytes_ok. apply Forall_concat, List.Forall_forall. intros l Hl.
    apply in_map_iff in Hl as (x & <- & _). apply be_bytes_ok.
Qed.

(** [sha256_vinit], any number of [sha256_vprocess] calls and
    [sha256_vdone] compute the SHA-256 of FIPS 180-4 of the concatenated input:
    however the caller cuts the message and whatever the uninitialised buffer
    held, the last call returns 0 and writes the standard's digest, 32 bytes. *)
Theorem sha256_streaming_is_fips (md0 : vstate) (chunks : list (list Z)) :
  length (vs_buf md0) = 64%nat -> Forall bytes_ok chunks ->
  exists md',
    sha256_vdone (foldl (fun md c => (sha256_vprocess md c).2) (sha256_vinit md0) chunks) =
      (0, md', Some (Fips.sha256 (concat chunks))) /\
    length (Fips.sha256 (concat chunks)) = 32%nat.
Proof.
  intros Hb Hc. destruct (sha256_done_chunks md0 chunks Hb Hc) as (md' & E).
  exists md'. split; [exact E |]. apply fips_sha256_shape. by apply Forall_concat.
Qed.

Lemma sha256_streaming_is_fips_witness :
  length (replicate 64 7) = 64%nat /\
  exists md',
    sha256_vdone (foldl (fun md c => (sha256_vprocess md c).2)
      (sha256_vinit (VState 3 [1] 9 (replicate 64 7))) [[97]; []; [98; 99]]) =
      (0, md', Some (Fips.sha256 [97; 98; 99])) /\
    length (Fips.sha256 [97; 98; 99]) = 32%nat.
Proof.
  split; [reflexivity |].
  apply (sha256_streaming_is_fips (VState 3 [1] 9 (replicate 64 7)) [[97]; []; [98; 99]]).
  - reflexivity.
  - repeat constructor; unfold byte_ok; lia.
Defined.

(** [sha256_vcompress] is the compression function of FIPS 180-4: the
    64 unrolled rounds with rotating array cells and the rewritten choice and
    majority functions equal the standard's loop, for every 8-word state and
    64-byte block. *)
Theorem sha256_vcompress_is_fips (H M : list Z) :
  length H = 8%nat -> bytes_ok M -> length M = 64%nat ->
  sha256_vcompress H M = Fips.compress H M.
Proof. apply sha256_vcompress_fips. Qed.

Lemma sha256_vcompress_is_fips_witness :
  sha256_vcompress sha256_H0 (map Z.of_nat (seq 0 64)) =
  Fips.compress sha256_H0 (map Z.of_nat (seq 0 64)).
Proof.
  apply (sha256_vcompress_is_fips sha256_H0 (map Z.of_nat (seq 0 64))).
  - reflexivity.
  - repeat constructor; unfold byte_ok; lia.
  - reflexivity.
Defined.

(** The SHA-256 of the three-byte message "abc" (FIPS 180-4 example). *)
Example sha256_abc :
  vcalc_sha256 (VState 5 [] 70 (replicate 64 170)) [97; 98; 99] =
  Some (be_bytes 32 0xba7816bf8f01cfea414140de5dae2223b00361a396177a9cb410ff61f20015ad).
Proof. vm_compute. reflexivity. Qed.
End Sha256.
