(* ===== verification/Ripemd160.v ===== *)
(** * RIPEMD-160 of src/src/hush_utils.h (lines 300-676)

    As in Sha256.v: the 160 unrolled macro lines of [rmd160_vcompress] are
    translated literally, the standard's two-line description ([Std]) is
    stated with its message-word and rotation tables, and the two are proved
    equal; HashStream.v then gives [calc_rmd160].  [calc_rmd160_sha256] is the
    hash behind every transparent address. *)
From S2P Require Import Prelude HashStream Sha256.
Local Open Scope Z_scope.

Module Rmd160.

(** ** Macros *)

Definition LOAD32L (y : list Z) : Z :=
  u32 (Z.lor (Z.lor (Z.lor (Z.shiftl (Z.land (rd y 3) 255) 24)
                           (u32 (Z.shiftl (Z.land (rd y 2) 255) 16)))
                    (u32 (Z.shiftl (Z.land (rd y 1) 255) 8)))
             (Z.land (rd y 0) 255)).

Definition STORE32L (x : Z) : list Z :=
  [u8 (Z.land x 255); u8 (Z.land (Z.shiftr x 8) 255);
   u8 (Z.land (Z.shiftr x 16) 255); u8 (Z.land (Z.shiftr x 24) 255)].

Definition STORE64L (x : Z) : list Z :=
  [u8 (Z.land x 255); u8 (Z.land (Z.shiftr x 8) 255);
   u8 (Z.land (Z.shiftr x 16) 255); u8 (Z.land (Z.shiftr x 24) 255);
   u8 (Z.land (Z.shiftr x 32) 255); u8 (Z.land (Z.shiftr x 40) 255);
   u8 (Z.land (Z.shiftr x 48) 255); u8 (Z.land (Z.shiftr x 56) 255)].

(** [~x] on a [uint32_t]. *)
Definition not32 (x : Z) : Z := u32 (Z.lnot x).

Definition F_ (x y z : Z) : Z := Z.lxor (Z.lxor x y) z.
Definition G_ (x y z : Z) : Z := Z.lor (Z.land x y) (Z.land (not32 x) z).
Definition H_ (x y z : Z) : Z := Z.lxor (Z.lor x (not32 y)) z.
Definition I_ (x y z : Z) : Z := Z.lor (Z.land x z) (Z.land y (not32 z)).
Definition J_ (x y z : Z) : Z := Z.lxor x (Z.lor y (not32 z)).

(** The operands are widened to 64 bits before the shifts. *)
Definition ROLc (x y : Z) : Z :=
  Z.land (Z.lor (u64 (Z.shiftl x (Z.land y 31)))
                (Z.shiftr (Z.land x 0xFFFFFFFF) (32 - Z.land y 31)))
         0xFFFFFFFF.

Inductive rop := FF | GG | HH | II | JJ | FFF | GGG | HHH | III | JJJ.

(** The boolean function and the constant each macro adds. *)
Definition rop_fun (o : rop) : Z -> Z -> Z -> Z :=
  match o with
  | FF | FFF => F_ | GG | GGG => G_ | HH | HHH => H_ | II | III => I_ | JJ | JJJ => J_
  end.
Definition rop_const (o : rop) : Z :=
  match o with
  | FF => 0 | GG => 0x5a827999 | HH => 0x6ed9eba1 | II => 0x8f1bbcdc | JJ => 0xa953fd4e
  | FFF => 0 | GGG => 0x7a6d76e9 | HHH => 0x6d703ef3 | III => 0x5c4dd124 | JJJ => 0x50a28be6
  end.

(** A macro line [OP(a,b,c,d,e,X[x],s)]; the five variables of a line are
    cells 0 to 4 of an array. *)
Inductive rline := Ln (o : rop) (a b c d e x : nat) (s : Z).

Definition run_line (X : list Z) (V : list Z) (l : rline) : list Z :=
  let '(Ln o a b c d e x s) := l in
  let va := u32 (rd V a + (rop_fun o (rd V b) (rd V c) (rd V d) + rd X x + rop_const o)) in
  let va := u32 (ROLc va s + rd V e) in
  let vc := u32 (ROLc (rd V c) 10) in
  <[c := vc]> (<[a := va]> V).

Definition left_lines : list rline :=
  [Ln FF 0 1 2 3 4 0 11; Ln FF 4 0 1 2 3 1 14; Ln FF 3 4 0 1 2 2 15;
   Ln FF 2 3 4 0 1 3 12; Ln FF 1 2 3 4 0 4 5; Ln FF 0 1 2 3 4 5 8;
   Ln FF 4 0 1 2 3 6 7; Ln FF 3 4 0 1 2 7 9; Ln FF 2 3 4 0 1 8 11;
   Ln FF 1 2 3 4 0 9 13; Ln FF 0 1 2 3 4 10 14; Ln FF 4 0 1 2 3 11 15;
   Ln FF 3 4 0 1 2 12 6; Ln FF 2 3 4 0 1 13 7; Ln FF 1 2 3 4 0 14 9;
   Ln FF 0 1 2 3 4 15 8; Ln GG 4 0 1 2 3 7 7; Ln GG 3 4 0 1 2 4 6;
   Ln GG 2 3 4 0 1 13 8; Ln GG 1 2 3 4 0 1 13; Ln GG 0 1 2 3 4 10 11;
   Ln GG 4 0 1 2 3 6 9; Ln GG 3 4 0 1 2 15 7; Ln GG 2 3 4 0 1 3 15;
   Ln GG 1 2 3 4 0 12 7; Ln GG 0 1 2 3 4 0 12; Ln GG 4 0 1 2 3 9 15;
   Ln GG 3 4 0 1 2 5 9; Ln GG 2 3 4 0 1 2 11; Ln GG 1 2 3 4 0 14 7;
   Ln GG 0 1 2 3 4 11 13; Ln GG 4 0 1 2 3 8 12; Ln HH 3 4 0 1 2 3 11;
   Ln HH 2 3 4 0 1 10 13; Ln HH 1 2 3 4 0 14 6; Ln HH 0 1 2 3 4 4 7;
   Ln HH 4 0 1 2 3 9 14; Ln HH 3 4 0 1 2 15 9; Ln HH 2 3 4 0 1 8 13;
   Ln HH 1 2 3 4 0 1 15; Ln HH 0 1 2 3 4 2 14; Ln HH 4 0 1 2 3 7 8;
   Ln HH 3 4 0 1 2 0 13; Ln HH 2 3 4 0 1 6 6; Ln HH 1 2 3 4 0 13 5;
   Ln HH 0 1 2 3 4 11 12; Ln HH 4 0 1 2 3 5 7; Ln HH 3 4 0 1 2 12 5;
   Ln II 2 3 4 0 1 1 11; Ln II 1 2 3 4 0 9 12; Ln II 0 1 2 3 4 11 14;
   Ln II 4 0 1 2 3 10 15; Ln II 3 4 0 1 2 0 14; Ln II 2 3 4 0 1 8 15;
   Ln II 1 2 3 4 0 12 9; Ln II 0 1 2 3 4 4 8; Ln II 4 0 1 2 3 13 9;
   Ln II 3 4 0 1 2 3 14; Ln II 2 3 4 0 1 7 5; Ln II 1 2 3 4 0 15 6;
   Ln II 0 1 2 3 4 14 8; Ln II 4 0 1 2 3 5 6; Ln II 3 4 0 1 2 6 5;
   Ln II 2 3 4 0 1 2 12; Ln JJ 1 2 3 4 0 4 9; Ln JJ 0 1 2 3 4 0 15;
   Ln JJ 4 0 1 2 3 5 5; Ln JJ 3 4 0 1 2 9 11; Ln JJ 2 3 4 0 1 7 6;
   Ln JJ 1 2 3 4 0 12 8; Ln JJ 0 1 2 3 4 2 13; Ln JJ 4 0 1 2 3 10 12;
   Ln JJ 3 4 0 1 2 14 5; Ln JJ 2 3 4 0 1 1 12; Ln JJ 1 2 3 4 0 3 13;
   Ln JJ 0 1 2 3 4 8 14; Ln JJ 4 0 1 2 3 11 11; Ln JJ 3 4 0 1 2 6 8;
   Ln JJ 2 3 4 0 1 15 5; Ln JJ 1 2 3 4 0 13 6].

Definition right_lines : list rline :=
  [Ln JJJ 0 1 2 3 4 5 8; Ln JJJ 4 0 1 2 3 14 9; Ln JJJ 3 4 0 1 2 7 9;
   Ln JJJ 2 3 4 0 1 0 11; Ln JJJ 1 2 3 4 0 9 13; Ln JJJ 0 1 2 3 4 2 15;
   Ln JJJ 4 0 1 2 3 11 15; Ln JJJ 3 4 0 1 2 4 5; Ln JJJ 2 3 4 0 1 13 7;
   Ln JJJ 1 2 3 4 0 6 7; Ln JJJ 0 1 2 3 4 15 8; Ln JJJ 4 0 1 2 3 8 11;
   Ln JJJ 3 4 0 1 2 1 14; Ln JJJ 2 3 4 0 1 10 14; Ln JJJ 1 2 3 4 0 3 12;
   Ln JJJ 0 1 2 3 4 12 6; Ln III 4 0 1 2 3 6 9; Ln III 3 4 0 1 2 11 13;
   Ln III 2 3 4 0 1 3 15; Ln III 1 2 3 4 0 7 7; Ln III 0 1 2 3 4 0 12;
   Ln III 4 0 1 2 3 13 8; Ln III 3 4 0 1 2 5 9; Ln III 2 3 4 0 1 10 11;
   Ln III 1 2 3 4 0 14 7; Ln III 0 1 2 3 4 15 7; Ln III 4 0 1 2 3 8 12;
   Ln III 3 4 0 1 2 12 7; Ln III 2 3 4 0 1 4 6; Ln III 1 2 3 4 0 9 15;
   Ln III 0 1 2 3 4 1 13; Ln III 4 0 1 2 3 2 11; Ln HHH 3 4 0 1 2 15 9;
   Ln HHH 2 3 4 0 1 5 7; Ln HHH 1 2 3 4 0 1 15; Ln HHH 0 1 2 3 4 3 11;
   Ln HHH 4 0 1 2 3 7 8; Ln HHH 3 4 0 1 2 14 6; Ln HHH 2 3 4 0 1 6 6;
   Ln HHH 1 2 3 4 0 9 14; Ln HHH 0 1 2 3 4 11 12; Ln HHH 4 0 1 2 3 8 13;
   Ln HHH 3 4 0 1 2 12 5; Ln HHH 2 3 4 0 1 2 14; Ln HHH 1 2 3 4 0 10 13;
   Ln HHH 0 1 2 3 4 0 13; Ln HHH 4 0 1 2 3 4 7; Ln HHH 3 4 0 1 2 13 5;
   Ln GGG 2 3 4 0 1 8 15; Ln GGG 1 2 3 4 0 6 5; Ln GGG 0 1 2 3 4 4 8;
   Ln GGG 4 0 1 2 3 1 11; Ln GGG 3 4 0 1 2 3 14; Ln GGG 2 3 4 0 1 11 14;
   Ln GGG 1 2 3 4 0 15 6; Ln GGG 0 1 2 3 4 0 14; Ln GGG 4 0 1 2 3 5 6;
   Ln GGG 3 4 0 1 2 12 9; Ln GGG 2 3 4 0 1 2 12; Ln GGG 1 2 3 4 0 13 9;
   Ln GGG 0 1 2 3 4 9 12; Ln GGG 4 0 1 2 3 7 5; Ln GGG 3 4 0 1 2 10 15;
   Ln GGG 2 3 4 0 1 14 8; Ln FFF 1 2 3 4 0 12 8; Ln FFF 0 1 2 3 4 15 5;
   Ln FFF 4 0 1 2 3 10 12; Ln FFF 3 4 0 1 2 4 9; Ln FFF 2 3 4 0 1 1 12;
   Ln FFF 1 2 3 4 0 5 5; Ln FFF 0 1 2 3 4 8 14; Ln FFF 4 0 1 2 3 7 6;
   Ln FFF 3 4 0 1 2 6 8; Ln FFF 2 3 4 0 1 2 13; Ln FFF 1 2 3 4 0 13 6;
   Ln FFF 0 1 2 3 4 14 5; Ln FFF 4 0 1 2 3 0 15; Ln FFF 3 4 0 1 2 3 13;
   Ln FFF 2 3 4 0 1 9 11; Ln FFF 1 2 3 4 0 11 11].

Definition load_X (buf : list Z) : list Z :=
  map (fun i => LOAD32L (drop (4 * i) buf)) (seq 0 16).

Definition rmd160_vcompress (st buf : list Z) : list Z :=
  let X := load_X buf in
  let l := foldl (run_line X) st left_lines in
  let r := foldl (run_line X) st right_lines in
  let aa := rd l 0 in let bb := rd l 1 in let cc := rd l 2 in
  let dd := rd l 3 in let ee := rd l 4 in
  let aaa := rd r 0 in let bbb := rd r 1 in let ccc := rd r 2 in
  let ddd := rd r 3 in let eee := rd r 4 in
  let ddd := u32 (ddd + (cc + rd st 1)) in
  [ddd; u32 (rd st 2 + dd + eee); u32 (rd st 3 + ee + aaa);
   u32 (rd st 4 + aa + bbb); u32 (rd st 0 + bb + ccc)].

(** ** The hash *)

Definition rmd160_H0 : list Z := [0x67452301; 0xefcdab89; 0x98badcfe; 0x10325476; 0xc3d2e1f0].

Definition rmd160_vinit (md : vstate) : vstate := VState 0 rmd160_H0 0 (vs_buf md).
Definition rmd160_vprocess : vstate -> list Z -> Z * vstate := vprocess rmd160_vcompress.
Definition rmd160_vdone (md : vstate) : Z * vstate * option (list Z) :=
  let '(ret, md) := vdone rmd160_vcompress STORE64L md in
  (ret, md, if ret =? 0 then Some (concat (map STORE32L (vs_state md))) else None).

Definition calc_rmd160 (md0 : vstate) (msg : list Z) : option (list Z) :=
  let md := rmd160_vinit md0 in
  let md := (rmd160_vprocess md msg).2 in
  (rmd160_vdone md).2.

Definition calc_rmd160_sha256 (md0 md1 : vstate) (data : list Z) : option (list Z) :=
  match Sha256.vcalc_sha256 md0 data with
  | Some hash => calc_rmd160 md1 hash
  | None => None
  end.

(** ** The standard *)

Module Std.
Definition rol (n x : Z) : Z := Z.lor (u32 (Z.shiftl x n)) (Z.shiftr (u32 x) (32 - n)).

Definition f (j : nat) (x y z : Z) : Z :=
  match (j / 16)%nat with
  | 0%nat => Z.lxor (Z.lxor x y) z
  | 1%nat => Z.lor (Z.land x y) (Z.land (not32 x) z)
  | 2%nat => Z.lxor (Z.lor x (not32 y)) z
  | 3%nat => Z.lor (Z.land x z) (Z.land y (not32 z))
  | _ => Z.lxor x (Z.lor y (not32 z))
  end.

Definition K (j : nat) : Z := rd [0; 0x5a827999; 0x6ed9eba1; 0x8f1bbcdc; 0xa953fd4e] (j / 16).
Definition K' (j : nat) : Z := rd [0x50a28be6; 0x5c4dd124; 0x6d703ef3; 0x7a6d76e9; 0] (j / 16).

(** Message-word selection: powers of one permutation, started from the
    identity on the left and from [9 i + 5 mod 16] on the right. *)
Definition rho (i : nat) : nat :=
  nth i [7; 4; 13; 1; 10; 6; 15; 3; 12; 0; 9; 5; 2; 14; 11; 8]%nat 0%nat.
Definition r (j : nat) : nat := Nat.iter (j / 16) rho (j mod 16)%nat.
Definition r' (j : nat) : nat := Nat.iter (j / 16) rho ((9 * (j mod 16) + 5) mod 16)%nat.

(** Rotation amounts. *)
Definition s : list Z :=
  [11; 14; 15; 12; 5; 8; 7; 9; 11; 13; 14; 15; 6; 7; 9; 8;
   7; 6; 8; 13; 11; 9; 7; 15; 7; 12; 15; 9; 11; 7; 13; 12;
   11; 13; 6; 7; 14; 9; 13; 15; 14; 8; 13; 6; 5; 12; 7; 5;
   11; 12; 14; 15; 14; 15; 9; 8; 9; 14; 5; 6; 8; 6; 5; 12;
   9; 15; 5; 11; 6; 8; 13; 12; 5; 12; 13; 14; 11; 8; 5; 6].
Definition s' : list Z :=
  [8; 9; 9; 11; 13; 15; 15; 5; 7; 7; 8; 11; 14; 14; 12; 6;
   9; 13; 15; 7; 12; 8; 9; 11; 7; 7; 12; 7; 6; 15; 13; 11;
   9; 7; 15; 11; 8; 6; 6; 14; 12; 13; 5; 14; 13; 13; 7; 5;
   15; 5; 8; 11; 14; 14; 6; 14; 6; 9; 12; 9; 12; 5; 15; 8;
   8; 5; 12; 9; 12; 5; 14; 6; 8; 13; 6; 5; 15; 13; 11; 11].

Inductive vars := Vars (A B C D E : Z).

Definition step (fj : Z -> Z -> Z -> Z) (X : Z) (Kj sj : Z) (v : vars) : vars :=
  let '(Vars A B C D E) := v in
  Vars E (u32 (rol sj (u32 (A + fj B C D + X + Kj)) + E)) B (rol 10 C) D.

Definition step_left (X : list Z) (v : vars) (j : nat) : vars :=
  step (f j) (rd X (r j)) (K j) (rd s j) v.
Definition step_right (X : list Z) (v : vars) (j : nat) : vars :=
  step (f (79 - j)) (rd X (r' j)) (K' j) (rd s' j) v.

Definition compress (h M : list Z) : list Z :=
  let X := map (fun i => le_num (take 4 (drop (4 * i) M))) (seq 0 16) in
  let v0 := Vars (rd h 0) (rd h 1) (rd h 2) (rd h 3) (rd h 4) in
  let '(Vars A B C D E) := foldl (step_left X) v0 (seq 0 80) in
  let '(Vars A' B' C' D' E') := foldl (step_right X) v0 (seq 0 80) in
  [u32 (rd h 1 + C + D'); u32 (rd h 2 + D + E'); u32 (rd h 3 + E + A');
   u32 (rd h 4 + A + B'); u32 (rd h 0 + B + C')].

Definition rmd160 (msg : list Z) : list Z :=
  concat (map (le_bytes 4) (md_hash compress (le_bytes 8) rmd160_H0 msg)).
End Std.

Lemma std_rmd160_ok msg : bytes_ok (Std.rmd160 msg).
Proof.
  unfold Std.rmd160, bytes_ok. apply Forall_concat, List.Forall_forall. intros l Hl.
  apply in_map_iff in Hl as (x & <- & _). apply le_bytes_ok.
Qed.

(** ** The code computes the standard *)

Lemma u32_u64 x : u32 (u64 x) = u32 x.
Proof.
  unfold u32, u64. change (2 ^ 64) with (2 ^ 32 * 2 ^ 32). rewrite Z.rem_mul_r by lia.
  by rewrite Z.mul_comm, Z.mod_add, Zmod_mod.
Qed.

Lemma u32_lor x y : u32 (Z.lor x y) = Z.lor (u32 x) (u32 y).
Proof. by rewrite !u32_land, Z.land_lor_distr_l. Qed.

Lemma ROLc_rol x n : 0 < n < 32 -> ROLc x n = Std.rol n x.
Proof.
  intros Hn. unfold ROLc, Std.rol. rewrite !land_ffffffff.
  replace (Z.land n 31) with n.
  2:{ change 31 with (Z.ones 5). rewrite Z.land_ones, Z.mod_small; lia. }
  rewrite u32_lor, u32_u64. f_equal. apply u32_id, is_u_shiftr; auto with hush; lia.
Qed.

Lemma rol_range n x : 0 < n < 32 -> is_u 32 (Std.rol n x).
Proof.
  intros. unfold Std.rol. apply is_u_lor; [lia | auto with hush |].
  apply is_u_shiftr; auto with hush; lia.
Qed.

Definition canon (t : nat) (o : rop) (x : nat) (s : Z) : rline :=
  Ln o (cell 4 t 0) (cell 4 t 1) (cell 4 t 2) (cell 4 t 3) (cell 4 t 4) x s.

Definition vars_list (v : Std.vars) : list Z :=
  let '(Std.Vars A B C D E) := v in [A; B; C; D; E].

Definition holds (t : nat) (V : list Z) (v : Std.vars) : Prop :=
  length V = 5%nat /\ map (fun k => rd V (cell 4 t k)) (seq 0 5) = vars_list v.

Lemma run_line_step X t o x s V v :
  0 < s < 32 -> holds t V v ->
  holds (S t) (run_line X V (canon t o x s))
    (Std.step (rop_fun o) (rd X x) (rop_const o) s v).
Proof.
  intros Hs [Hl HV]. unfold holds.
  rewrite (map_ext _ (fun k => rd V (cell 4 (t mod 5) k))) in HV by (intros; by rewrite <-cell_mod).
  rewrite (map_ext _ (fun k => rd (run_line X V (canon t o x s)) (cell 4 (S (t mod 5)) k)))
    by (intros; by rewrite <-cell_S_mod).
  unfold canon. rewrite !(cell_mod 4 t).
  pose proof (Nat.mod_upper_bound t 5 ltac:(lia)) as Hj. revert HV Hj.
  generalize (t mod 5)%nat as j. intros j HV Hj.
  destruct V as [| v0 [| v1 [| v2 [| v3 [| v4 [|]]]]]]; try discriminate.
  destruct v as [A B C D E]. unfold run_line, Std.step. rewrite !ROLc_rol by lia.
  rewrite (u32_id (Std.rol 10 _)) by (apply rol_range; lia).
  destruct j as [|[|[|[|[| j]]]]]; [.. | lia];
    cbn in HV; injection HV as -> -> -> -> ->;
    (split; [done |]); cbn -[u32 Std.rol rop_fun rop_const];
    by rewrite !Z.add_assoc.
Qed.

(** A sequence of lines in role order runs the standard's rounds. *)
Lemma run_lines X (ops : nat -> rop) (xs : nat -> nat) (ss : nat -> Z) step n t V v :
  (forall j w, (j < t + n)%nat -> 0 < ss j < 32 /\
     step w j = Std.step (rop_fun (ops j)) (rd X (xs j)) (rop_const (ops j)) (ss j) w) ->
  holds t V v ->
  holds (t + n) (foldl (run_line X) V (map (fun j => canon j (ops j) (xs j) (ss j)) (seq t n)))
    (foldl step v (seq t n)).
Proof.
  revert t V v. induction n as [| n IH]; intros t V v Hs H; cbn [seq map foldl].
  - by rewrite Nat.add_0_r.
  - replace (t + S n)%nat with (S t + n)%nat by lia.
    destruct (Hs t v) as [Hr ->]; [lia |]. apply IH.
    + intros j w Hj. apply Hs. lia.
    + by apply run_line_step.
Qed.

Definition left_op (j : nat) : rop := nth (j / 16) [FF; GG; HH; II; JJ] FF.
Definition right_op (j : nat) : rop := nth (j / 16) [JJJ; III; HHH; GGG; FFF] JJJ.

Lemma left_lines_canon :
  left_lines = map (fun j => canon j (left_op j) (Std.r j) (rd Std.s j)) (seq 0 80).
Proof. reflexivity. Qed.

Lemma right_lines_canon :
  right_lines = map (fun j => canon j (right_op j) (Std.r' j) (rd Std.s' j)) (seq 0 80).
Proof. reflexivity. Qed.

Lemma left_rounds X j w : (j < 80)%nat ->
  0 < rd Std.s j < 32 /\
  Std.step_left X w j =
  Std.step (rop_fun (left_op j)) (rd X (Std.r j)) (rop_const (left_op j)) (rd Std.s j) w.
Proof. revert j. apply lt_forall. repeat constructor. Qed.

Lemma right_rounds X j w : (j < 80)%nat ->
  0 < rd Std.s' j < 32 /\
  Std.step_right X w j =
  Std.step (rop_fun (right_op j)) (rd X (Std.r' j)) (rop_const (right_op j)) (rd Std.s' j) w.
Proof. revert j. apply lt_forall. repeat constructor. Qed.

Lemma load_X_std buf :
  bytes_ok buf -> length buf = 64%nat ->
  load_X buf = map (fun i => le_num (take 4 (drop (4 * i) buf))) (seq 0 16).
Proof.
  intros Hb Hl. apply map_ext_in. intros i [_ Hi]%in_seq.
  apply (bytes_ok_drop (4 * i)) in Hb.
  assert (4 <= length (drop (4 * i) buf))%nat as Hl' by (rewrite length_drop; lia).
  destruct (drop (4 * i) buf) as [| b0 [| b1 [| b2 [| b3 l]]]]; cbn [length] in Hl'; try lia.
  unfold bytes_ok in Hb. rewrite !Forall_cons in Hb. destruct Hb as (? & ? & ? & ? & _).
  change (LOAD32L (b0 :: b1 :: b2 :: b3 :: l)) with (Sha256.LOAD32H [b3; b2; b1; b0]).
  by rewrite Sha256.LOAD32H_be.
Qed.

Lemma holds_final t V v :
  (t mod 5 = 0)%nat -> holds t V v -> V = vars_list v.
Proof.
  intros Ht [Hl <-].
  rewrite (map_ext _ (fun k => rd V (cell 4 (t mod 5) k))) by (intros; by rewrite <-cell_mod).
  rewrite Ht. by destruct V as [| ? [| ? [| ? [| ? [| ? [|]]]]]].
Qed.

Lemma rmd160_vcompress_std h M :
  length h = 5%nat -> bytes_ok M -> length M = 64%nat ->
  rmd160_vcompress h M = Std.compress h M.
Proof.
  intros Hl HM HlM. unfold rmd160_vcompress, Std.compress.
  rewrite load_X_std, left_lines_canon, right_lines_canon by done.
  set (X := map _ (seq 0 16)).
  set (v0 := Std.Vars _ _ _ _ _).
  assert (holds 0 h v0) as H0.
  { split; [done |]. unfold v0. by destruct h as [| ? [| ? [| ? [| ? [| ? [|]]]]]]. }
  pose proof (run_lines X left_op Std.r (rd Std.s) (Std.step_left X) 80 0 h v0
    (left_rounds X) H0) as HL%holds_final; [| done].
  pose proof (run_lines X right_op Std.r' (rd Std.s') (Std.step_right X) 80 0 h v0
    (right_rounds X) H0) as HR%holds_final; [| done].
  rewrite HL, HR.
  destruct (foldl (Std.step_left X) v0 (seq 0 80)), (foldl (Std.step_right X) v0 (seq 0 80)).
  cbn [vars_list rd nth]. f_equal. f_equal. unfold rd. lia.
Qed.

Lemma STORE32L_le x : STORE32L x = le_bytes 4 x.
Proof.
  unfold STORE32L. cbn [le_bytes]. rewrite !land_255, !Z.shiftr_div_pow2 by lia.
  rewrite !Z.div_div by lia. unfold u8. by rewrite !Zmod_mod.
Qed.

Lemma STORE64L_le x : STORE64L x = le_bytes 8 x.
Proof.
  unfold STORE64L. cbn [le_bytes]. rewrite !land_255, !Z.shiftr_div_pow2 by lia.
  rewrite !Z.div_div by lia. unfold u8. by rewrite !Zmod_mod.
Qed.

Lemma rmd160_vcompress_ok st blk :
  length st = 5%nat -> bytes_ok blk -> length blk = 64%nat ->
  rmd160_vcompress st blk = Std.compress st blk /\ length (rmd160_vcompress st blk) = 5%nat.
Proof. intros. split; [by apply rmd160_vcompress_std | done]. Qed.

Lemma rmd160_done_chunks md0 chunks :
  length (vs_buf md0) = 64%nat -> Forall bytes_ok chunks ->
  exists md', rmd160_vdone (vprocess_all rmd160_vcompress (rmd160_vinit md0) chunks) =
    (0, md', Some (Std.rmd160 (concat chunks))) /\ length (vs_state md') = 5%nat.
Proof.
  intros Hb Hc. unfold rmd160_vinit, rmd160_vdone.
  destruct (hash_chunks rmd160_vcompress STORE64L) with (st0 := rmd160_H0) (buf := vs_buf md0)
    (chunks := chunks) as (md' & E & Hs); [done | done |].
  rewrite E. exists md'. cbn [Z.eqb]. rewrite Hs. unfold Std.rmd160.
  destruct (md_hash_ext rmd160_vcompress Std.compress (fun st => length st = 5%nat)
    STORE64L (le_bytes 8) rmd160_H0 (concat chunks)) as [Eq Hl].
  - apply rmd160_vcompress_ok.
  - apply STORE64L_le.
  - intros. rewrite STORE64L_le. auto with hush.
  - done.
  - unfold bytes_ok. by apply Forall_concat.
  - split; [| done]. do 2 f_equal. rewrite Eq. f_equal. apply map_ext. apply STORE32L_le.
Qed.

Lemma calc_rmd160_eq md0 msg :
  length (vs_buf md0) = 64%nat -> bytes_ok msg ->
  calc_rmd160 md0 msg = Some (Std.rmd160 msg) /\ length (Std.rmd160 msg) = 20%nat.
Proof.
  intros Hb Hm. destruct (rmd160_done_chunks md0 [msg] Hb) as (md' & E & Hl); [by constructor |].
  unfold calc_rmd160, rmd160_vprocess. cbn [concat app] in E. rewrite app_nil_r in E.
  unfold vprocess_all in E. cbn [foldl] in E. rewrite E. split; [done |].
  unfold rmd160_vdone in E. destruct (vdone _ _ _) as [ret md2] eqn:Ed.
  injection E as -> -> E3. injection E3 as <-. rewrite (concat_map_length _ 4) by done. lia.
Qed.

(** [calc_rmd160_sha256], the hash behind transparent addresses, is
    RIPEMD-160 of SHA-256 of the key, 20 bytes, for every input and whatever
    the two uninitialised stack buffers held. *)
Theorem calc_rmd160_sha256_is_hash160 (md0 md1 : vstate) (data : list Z) :
  length (vs_buf md0) = 64%nat -> length (vs_buf md1) = 64%nat -> bytes_ok data ->
  calc_rmd160_sha256 md0 md1 data = Some (Std.rmd160 (Sha256.Fips.sha256 data)) /\
  length (Std.rmd160 (Sha256.Fips.sha256 data)) = 20%nat.
Proof.
  intros H0 H1 Hd. unfold calc_rmd160_sha256. rewrite Sha256.vcalc_sha256_eq by done.
  apply calc_rmd160_eq; [done |]. by apply Sha256.fips_sha256_shape.
Qed.

Lemma calc_rmd160_sha256_is_hash160_witness :
  calc_rmd160_sha256 (VState 1 [] 2 (replicate 64 3)) (VState 4 [] 5 (replicate 64 6)) [2; 79; 53] =
    Some (Std.rmd160 (Sha256.Fips.sha256 [2; 79; 53])) /\
  length (Std.rmd160 (Sha256.Fips.sha256 [2; 79; 53])) = 20%nat.
Proof.
  apply (calc_rmd160_sha256_is_hash160 (VState 1 [] 2 (replicate 64 3))
    (VState 4 [] 5 (replicate 64 6)) [2; 79; 53]).
  - reflexivity.
  - reflexivity.
  - repeat constructor; unfold byte_ok; lia.
Defined.

(** RIPEMD-160 of "abc" (the standard's test vector). *)
Example rmd160_abc :
  calc_rmd160 (VState 7 [] 3 (replicate 64 9)) [97; 98; 99] =
  Some (be_bytes 20 0x8eb208f7e05d987a9b044a8e98c6b087f15a0bfc).
Proof. vm_compute. reflexivity. Qed.
End Rmd160.
