(* ===== verification/Encoding.v ===== *)
(** * Byte-level encoders and decoders of src/src/hush_utils.h

    Bit counting, hexadecimal, little-endian numbers, OP_RETURN script framing
    and the bounded string helpers.  A C string is the list of its characters
    followed by a 0 cell; [rest] in a statement is whatever memory follows. *)
From S2P Require Import Prelude.
Local Open Scope Z_scope.

(** ** Definitions *)

(** [bitweight]: [(1LL << i) & x] for [i] from 0 to 63. *)
Definition bitweight (x : Z) : Z :=
  foldl (fun wt i => if Z.land (u64 (Z.shiftl 1 (Z.of_nat i))) x =? 0 then wt else wt + 1)
    0 (seq 0 64).

Definition _unhex (c : Z) : Z :=
  if (48 <=? c) && (c <=? 57) then c - 48
  else if (97 <=? c) && (c <=? 102) then c - 97 + 10
  else if (65 <=? c) && (c <=? 70) then c - 65 + 10
  else -1.

(** The diagnostic print of [unhex] is the only difference. *)
Definition unhex (c : Z) : Z := _unhex c.

(** The counting loop of [is_hexstr]; [i] is the current index. *)
Fixpoint is_hexstr_loop (str : list Z) (n : Z) (i : Z) : Z :=
  match str with
  | [] => i
  | c :: str =>
    if c =? 0 then i
    else if (0 <? n) && (n <=? i) then i
    else if _unhex c <? 0 then i
    else is_hexstr_loop str n (i + 1)
  end.

Definition is_hexstr (str : list Z) (n : Z) : Z :=
  if rd str 0 =? 0 then 0
  else
    let i := is_hexstr_loop str n 0 in
    if n =? 0 then i else if i =? n then 1 else 0.

Definition _decode_hex (h0 h1 : Z) : Z := u8 (Z.lor (Z.shiftl (unhex h0) 4) (unhex h1)).

(** [decode_hex(bytes,n,hex)] for [n >= 1] ([n = 0] reads [hex[-1]]): the
    bytes written and the value returned.  [hex[n-1]] is a hexadecimal digit
    when the second test is reached, so the newline branch shortens [n] only in
    dead code; it is kept. *)
Definition decode_hex (n : nat) (hex : list Z) : list Z * Z :=
  if is_hexstr hex (Z.of_nat n) <=? 0 then (replicate n 0, Z.of_nat n)
  else
    let c := rd hex (n - 1) in
    let '(n, hex) := if (c =? 10) || (c =? 13) then ((n - 1)%nat, <[(n - 1)%nat := 0]> hex)
                     else (n, hex) in
    if (n =? 0)%nat || ((rd hex (n * 2 + 1) =? 0) && negb (rd hex (n * 2) =? 0)) then
      let first := if (0 <? n)%nat then [u8 (unhex (rd hex 0))] else [] in
      (first ++ map (fun i => _decode_hex (rd hex (1 + i * 2)) (rd hex (1 + i * 2 + 1))) (seq 0 n),
       Z.of_nat n + 1)
    else
      (map (fun i => _decode_hex (rd hex (i * 2)) (rd hex (i * 2 + 1))) (seq 0 n), Z.of_nat n).

Definition hexbyte (c : Z) : Z :=
  let c := Z.land c 0xf in
  if c <? 10 then 48 + c else if c <? 16 then 97 + c - 10 else 0.

(** The characters written, the closing NUL included, and the value returned. *)
Definition init_hexbytes_noT (message : list Z) : list Z * Z :=
  match message with
  | [] => ([0], 1)
  | _ => (concat (map (fun m => [hexbyte (Z.land (Z.shiftr m 4) 0xf); hexbyte (Z.land m 0xf)]) message)
            ++ [0], s32 (Zlen message) * 2 + 1)
  end.

Definition bits256_str (x : list Z) : list Z := (init_hexbytes_noT x).1.

(** [dragon_rwnum(rwflag,serialized,len,endianedp)]: the value returned, the
    buffer and the integer behind [endianedp] (as an unsigned number) after the
    call.  Only the widths 1, 2, 4 and 8 touch that integer. *)
Definition rwnum_width (len : nat) : bool :=
  (len =? 1)%nat || (len =? 2)%nat || (len =? 4)%nat || (len =? 8)%nat.

Definition rwnum_load (serialized : list Z) (len : nat) : Z :=
  foldl (fun x i => Z.lor (u64 (Z.shiftl x 8)) (rd serialized i)) 0 (rev (seq 0 len)).

Fixpoint rwnum_store (len : nat) (x : Z) : list Z :=
  match len with
  | O => []
  | S len => u8 (Z.land x 0xff) :: rwnum_store len (Z.shiftr x 8)
  end.

Definition dragon_rwnum (rwflag : bool) (serialized : list Z) (len : nat) (endianed : Z)
  : Z * list Z * Z :=
  if rwflag then
    let x := if rwnum_width len then endianed mod 2 ^ (8 * Z.of_nat len) else 0 in
    (Z.of_nat len, memcpy_at serialized 0 (rwnum_store len x), endianed)
  else
    let x := rwnum_load serialized len in
    (Z.of_nat len, serialized,
     if rwnum_width len then x mod 2 ^ (8 * Z.of_nat len) else endianed).

(** [dragon_rwbignum]: a plain copy of [len] bytes in either direction. *)
Definition dragon_rwbignum (rwflag : bool) (serialized : list Z) (len : nat) (endianed : list Z)
  : Z * list Z * list Z :=
  if rwflag then (Z.of_nat len, memcpy_at serialized 0 (take len endianed), endianed)
  else (Z.of_nat len, serialized, memcpy_at endianed 0 (take len serialized)).

(** [hush_scriptitemlen]: the offset of the data and its length. *)
Definition hush_scriptitemlen (script : list Z) : Z * Z :=
  let opretlen := rd script 0 in
  if 0x4c <=? opretlen then
    if opretlen =? 0x4c then (2, rd script 1)
    else if opretlen =? 0x4d then (3, rd script 1 + Z.shiftl (rd script 2) 8)
    else (1, opretlen)
  else (1, opretlen).

(** [hush_opreturnscript]: the script written and the length returned. *)
Definition hush_opreturnscript (type : Z) (opret : list Z) : list Z * Z :=
  let opretlen := Zlen opret + 1 in
  let hdr :=
    if 0x4c <=? opretlen then
      if 0xff <? opretlen then
        [0x4d; u8 (Z.land opretlen 0xff); u8 (Z.land (Z.shiftr opretlen 8) 0xff)]
      else [0x4c; u8 opretlen]
    else [u8 opretlen] in
  let script := [0x6a] ++ hdr ++ [type] ++ opret in
  (script, Zlen ([0x6a] ++ hdr ++ [type]) + opretlen - 1).

(** [memread(dest,size,filedata,&fpos,datalen)]: the bytes copied and the new
    position, or [None] for the -1 return that moves nothing. *)
Definition memread (size : nat) (filedata : list Z) (fpos : nat) : option (list Z * nat) :=
  if (fpos + size <=? length filedata)%nat
  then Some (take size (drop fpos filedata), (fpos + size)%nat)
  else None.

(** [_stripwhite(buf,accept)] in place: [buf] loses its blanks, except
    [accept]; the value is the new length. *)
Definition is_blank (c : Z) : bool :=
  (c =? 32) || (c =? 10) || (c =? 13) || (c =? 9) || (c =? 8).

Fixpoint stripwhite_loop (buf : list Z) (accept : Z) (i j : nat) (fuel : nat) : list Z * nat :=
  match fuel with
  | O => (buf, j)
  | S fuel =>
    let c := rd buf i in
    if c =? 0 then (buf, j)
    else
      let buf := <[j := c]> buf in
      stripwhite_loop buf accept (S i)
        (if (c =? accept) || negb (is_blank c) then S j else j) fuel
  end.

Definition _stripwhite (buf : list Z) (accept : Z) : list Z * Z :=
  if rd buf 0 =? 0 then (buf, 0)
  else
    let '(buf, j) := stripwhite_loop buf accept 0 0 (length buf) in
    (<[j := 0]> buf, Z.of_nat j).

(** [safecopy(dest,src,len)] with two distinct non-null pointers: the
    destination array of [len] cells and the value returned. *)
Fixpoint copy_upto (src : list Z) (len : nat) : list Z :=
  match len, src with
  | S len, c :: src => if c =? 0 then [] else c :: copy_upto src len
  | _, _ => []
  end.

Definition safecopy (src : list Z) (len : nat) : list Z * Z :=
  let cp := copy_upto src len in
  let dest := cp ++ replicate (len - length cp) 0 in
  if (length cp =? len)%nat then (dest, -1) else (dest, Zlen cp).

(** ** Hexadecimal *)

Lemma hexbyte_digit d : 0 <= d < 16 ->
  _unhex (hexbyte d) = d /\ hexbyte d <> 0 /\ hexbyte d <> 10 /\ hexbyte d <> 13.
Proof.
  intros Hd. revert d Hd. by apply (Zrange_check 16
    (fun d => _unhex (hexbyte d) = d /\ hexbyte d <> 0 /\ hexbyte d <> 10 /\ hexbyte d <> 13)).
Qed.

Definition hex_digit (c : Z) : Prop := c <> 0 /\ c <> 10 /\ c <> 13 /\ 0 <= _unhex c.

Lemma is_hexstr_loop_digits str n i :
  0 < n -> i <= n -> n - i < Zlen str ->
  Forall hex_digit (take (Z.to_nat (n - i)) str) -> rd str (Z.to_nat (n - i)) = 0 \/
    hex_digit (rd str (Z.to_nat (n - i))) ->
  is_hexstr_loop str n i = n.
Proof.
  intros Hn. revert i. induction str as [| c str IH]; intros i Hi Hl Hd Hend.
  { unfold Zlen in Hl. simpl in Hl. lia. }
  unfold Zlen in Hl. cbn [length] in Hl. cbn [is_hexstr_loop].
  destruct (Z.eq_dec i n) as [-> | Hne].
  - destruct (c =? 0); [done |]. destruct (Z.ltb_spec 0 n); [| lia].
    destruct (Z.leb_spec n n); [done | lia].
  - replace (Z.to_nat (n - i)) with (S (Z.to_nat (n - (i + 1)))) in * by lia.
    cbn [take] in Hd. inversion_clear Hd as [| ? ? [H0 [_ [_ Hx]]] Hd'].
    destruct (Z.eqb_spec c 0); [done |]. destruct (Z.leb_spec n i); [lia |].
    rewrite andb_false_r. destruct (Z.ltb_spec (_unhex c) 0); [lia |].
    apply IH; try lia.
    + unfold Zlen. lia.
    + done.
    + exact Hend.
Qed.

Definition hex_digits (message : list Z) : list Z :=
  concat (map (fun m => [hexbyte (Z.land (Z.shiftr m 4) 0xf); hexbyte (Z.land m 0xf)]) message).

Lemma nibble_range m k : 0 <= Z.land (Z.shiftr m k) 0xf < 16 /\ 0 <= Z.land m 0xf < 16.
Proof.
  change 0xf with (Z.ones 4). rewrite !Z.land_ones by lia.
  split; apply Z.mod_pos_bound; lia.
Qed.

Lemma hex_digits_ok message : Forall hex_digit (hex_digits message).
Proof.
  unfold hex_digits. apply Forall_concat, List.Forall_forall. intros l (m & <- & _)%in_map_iff.
  destruct (nibble_range m 4) as [H1 H2].
  destruct (hexbyte_digit _ H1) as (E1 & ? & ? & ?), (hexbyte_digit _ H2) as (E2 & ? & ? & ?).
  repeat constructor; try done; lia.
Qed.

Lemma length_hex_digits message : length (hex_digits message) = (2 * length message)%nat.
Proof. unfold hex_digits. by apply concat_map_length. Qed.

Lemma rd_hex_digits message rest i : (i < length message)%nat ->
  rd (hex_digits message ++ rest) (i * 2) = hexbyte (Z.land (Z.shiftr (rd message i) 4) 0xf) /\
  rd (hex_digits message ++ rest) (i * 2 + 1) = hexbyte (Z.land (rd message i) 0xf).
Proof.
  revert i. induction message as [| m l IH]; intros i Hi; cbn [length] in Hi; [lia |].
  destruct i as [| i]; [done |]. apply (IH i). lia.
Qed.

Lemma decode_nibbles m : byte_ok m ->
  _decode_hex (hexbyte (Z.land (Z.shiftr m 4) 0xf)) (hexbyte (Z.land m 0xf)) = m.
Proof.
  intros Hm. unfold _decode_hex, unhex. destruct (nibble_range m 4) as [H1 H2].
  destruct (hexbyte_digit _ H1) as (-> & _), (hexbyte_digit _ H2) as (-> & _).
  change 0xf with (Z.ones 4) in *. rewrite !Z.land_ones, Z.shiftr_div_pow2 in * by lia.
  rewrite (Z.mod_small (m / _)) by (unfold byte_ok in Hm; Z.to_euclidean_division_equations; lia).
  rewrite Z.shiftl_mul_pow2, lor_add by lia.
  pose proof (Z.div_mod m (2 ^ 4) ltac:(lia)) as E. rewrite Z.mul_comm, <-E. by apply u8_id.
Qed.

Lemma map_rd_seq (l : list Z) : map (rd l) (seq 0 (length l)) = l.
Proof.
  induction l as [| x l IH]; [done |]. cbn [length seq map]. f_equal.
  by rewrite <-seq_shift, map_map.
Qed.

Lemma decode_hex_digits message rest :
  message <> [] -> bytes_ok message ->
  decode_hex (length message) (hex_digits message ++ 0 :: rest) = (message, Zlen message).
Proof.
  intros Hne Hok. set (n := length message).
  assert (0 < n)%nat as Hn by (unfold n; destruct message; simpl; [done | lia]).
  pose proof (hex_digits_ok message) as HD. pose proof (length_hex_digits message) as HL. fold n in HL.
  set (str := hex_digits message ++ 0 :: rest).
  assert (forall i, (i < 2 * n)%nat -> hex_digit (rd str i)) as Hrd.
  { intros i Hi. unfold str. rewrite rd_app_l by lia. unfold rd.
    rewrite List.Forall_forall in HD. apply HD, nth_In. lia. }
  assert (is_hexstr str (Z.of_nat n) = 1) as Hhex.
  { unfold is_hexstr. destruct (Hrd 0%nat ltac:(lia)) as [H0 _].
    destruct (Z.eqb_spec (rd str 0) 0); [done |].
    rewrite is_hexstr_loop_digits; rewrite ?Z.sub_0_r, ?Nat2Z.id; try lia.
    - destruct (Z.eqb_spec (Z.of_nat n) 0); [lia |]. by rewrite Z.eqb_refl.
    - unfold str. rewrite Zlen_app. unfold Zlen. cbn [length]. lia.
    - unfold str. rewrite take_app_le by lia. by apply Forall_take.
    - right. apply Hrd. lia. }
  unfold decode_hex. rewrite Hhex. cbn [Z.leb Z.compare].
  destruct (Hrd (n - 1)%nat ltac:(lia)) as (_ & Hnl & Hcr & _).
  destruct (Z.eqb_spec (rd str (n - 1)) 10), (Z.eqb_spec (rd str (n - 1)) 13); try done.
  cbn [orb]. assert (rd str (n * 2) = 0) as ->.
  { unfold rd, str. rewrite app_nth2, HL by lia. by replace (n * 2 - 2 * n)%nat with 0%nat by lia. }
  rewrite andb_false_r. destruct (Nat.eqb_spec n 0); [lia |]. cbn [orb].
  f_equal. transitivity (map (rd message) (seq 0 n)); [| apply map_rd_seq].
  apply map_ext_in. intros i [_ Hi]%in_seq.
  destruct (rd_hex_digits message (0 :: rest) i Hi) as [E1 E2]. fold str in E1, E2.
  rewrite E1, E2.
  apply decode_nibbles. by apply rd_ok.
Qed.

(** Decoding what [init_hexbytes_noT] printed gives the message back:
    [decode_hex] returns its length, whatever memory follows the terminating
    NUL (the over-read of [hex[2n+1]] cannot change the result). *)
Theorem hex_round_trip (message rest : list Z) :
  message <> [] -> bytes_ok message ->
  decode_hex (length message) ((init_hexbytes_noT message).1 ++ rest) = (message, Zlen message).
Proof.
  intros Hne Hok. replace ((init_hexbytes_noT message).1) with (hex_digits message ++ [0])
    by (by destruct message). rewrite <-app_assoc. by apply decode_hex_digits.
Qed.

Lemma hex_round_trip_witness :
  [3; 138; 255] <> [] /\
  decode_hex 3 ((init_hexbytes_noT [3; 138; 255]).1 ++ [77; 0]) = ([3; 138; 255], 3).
Proof.
  split; [discriminate |].
  apply (hex_round_trip [3; 138; 255] [77; 0]); [discriminate |].
  repeat constructor; unfold byte_ok; lia.
Defined.

(** [decode_hex] tests only the first [n] of the [2n] digits it converts: a
    string whose second half is not hexadecimal is accepted. *)
Example decode_hex_unchecked_tail :
  decode_hex 2 [97; 98; 120; 121; 0; 0] = ([0xab; 0xff], 2).
Proof. vm_compute. reflexivity. Qed.

(** ** Numbers *)

Lemma rwnum_store_le len x : rwnum_store len x = le_bytes len x.
Proof.
  revert x. induction len as [| len IH]; intros x; [done |]. cbn [rwnum_store le_bytes].
  rewrite land_255, Z.shiftr_div_pow2, IH by lia. f_equal. unfold u8. apply Zmod_mod.
Qed.

Lemma take_snoc_rd l n : (n < length l)%nat -> take (S n) l = take n l ++ [rd l n].
Proof.
  revert n. induction l as [| x l IH]; intros n H; cbn [length] in H; [lia |].
  destruct n as [| n]; [done |]. cbn [take app]. f_equal. apply IH. lia.
Qed.

(** The loop reads from the most significant byte down; the shift stays inside
    64 bits as long as at most eight bytes are read. *)
Lemma rwnum_load_aux l len k :
  bytes_ok l -> (k + len <= 8)%nat -> (k + len <= length l)%nat ->
  foldl (fun x i => Z.lor (u64 (Z.shiftl x 8)) (rd l i)) (le_num (take len (drop k l))) (rev (seq 0 k)) =
  le_num (take (k + len) l).
Proof.
  intros Hok. revert len. induction k as [| k IH]; intros len H8 Hl; [done |].
  rewrite seq_S, rev_app_distr. cbn [rev app foldl Nat.add].
  replace (S (k + len)) with (k + S len)%nat by lia.
  rewrite <-IH by lia. f_equal.
  assert (drop k l = rd l k :: drop (S k) l) as ->.
  { clear -Hl. revert k Hl. induction l as [| x l IHl]; intros k Hl; cbn [length] in Hl; [lia |].
    destruct k as [| k]; [done |]. apply IHl. lia. }
  cbn [take le_num]. pose proof (rd_ok l k Hok) as Hb. unfold byte_ok in Hb.
  pose proof (le_num_bounds (take len (drop (S k) l)) ltac:(auto with hush)) as Hn.
  unfold Zlen in Hn. rewrite length_take, length_drop, Nat.min_l in Hn by lia.
  rewrite u64_id, Z.shiftl_mul_pow2, lor_add by (try lia; unfold is_u; rewrite Z.shiftl_mul_pow2 by lia;
    assert (2 ^ (8 * Z.of_nat len) <= 2 ^ 56) by (apply Z.pow_le_mono_r; lia); lia).
  lia.
Qed.

Lemma rwnum_load_le l len :
  bytes_ok l -> (len <= 8)%nat -> (len <= length l)%nat -> rwnum_load l len = le_num (take len l).
Proof.
  intros Hok H8 Hl. pose proof (rwnum_load_aux l 0 len Hok) as E.
  rewrite Nat.add_0_r in E. apply E; lia.
Qed.

Lemma rwnum_width_le8 len : rwnum_width len = true -> (len <= 8)%nat.
Proof. unfold rwnum_width. intros. repeat rewrite orb_true_iff in *. rewrite !Nat.eqb_eq in *. lia. Qed.

Lemma dragon_rwnum_read_eq l len x :
  rwnum_width len = true -> bytes_ok l -> (len <= length l)%nat ->
  dragon_rwnum false l len x = (Z.of_nat len, l, le_num (take len l)).
Proof.
  intros Hw Hok Hl. pose proof (rwnum_width_le8 len Hw). unfold dragon_rwnum.
  rewrite Hw, rwnum_load_le by lia || done. do 2 f_equal. apply Z.mod_small.
  pose proof (le_num_bounds (take len l) ltac:(auto with hush)) as B.
  unfold Zlen in B. by rewrite length_take, Nat.min_l in B by lia.
Qed.

(** [dragon_rwnum] is little-endian and inverts itself: writing a number
    of width 1, 2, 4 or 8 bytes stores its little-endian bytes in front of the
    buffer, and reading them back gives the number modulo its width. *)
Theorem dragon_rwnum_round_trip (len : nat) (buf : list Z) (x y : Z) :
  rwnum_width len = true -> bytes_ok buf -> (len <= length buf)%nat ->
  let '(ret, buf', _) := dragon_rwnum true buf len x in
  ret = Z.of_nat len /\ buf' = le_bytes len x ++ drop len buf /\
  dragon_rwnum false buf' len y = (Z.of_nat len, buf', x mod 2 ^ (8 * Z.of_nat len)).
Proof.
  intros Hw Hok Hl. unfold dragon_rwnum at 1. rewrite Hw.
  assert (memcpy_at buf 0 (rwnum_store len (x mod 2 ^ (8 * Z.of_nat len))) =
          le_bytes len x ++ drop len buf) as E.
  { unfold memcpy_at. rewrite rwnum_store_le, le_bytes_mod, length_le_bytes. done. }
  rewrite E. split; [done |]. split; [done |].
  rewrite dragon_rwnum_read_eq; [| done | | rewrite length_app, length_le_bytes; lia].
  - by rewrite take_app_length', le_num_le_bytes by (by rewrite length_le_bytes).
  - apply bytes_ok_app. auto with hush.
Qed.

Lemma dragon_rwnum_round_trip_witness :
  rwnum_width 4 = true /\
  (let '(ret, buf', _) := dragon_rwnum true [9; 9; 9; 9; 7] 4 0x01020304 in
   ret = 4 /\ buf' = le_bytes 4 0x01020304 ++ [7] /\
   dragon_rwnum false buf' 4 0 = (4, buf', 0x01020304 mod 2 ^ 32)).
Proof.
  split; [reflexivity |].
  apply (dragon_rwnum_round_trip 4 [9; 9; 9; 9; 7] 0x01020304 0).
  - reflexivity.
  - repeat constructor; unfold byte_ok; lia.
  - simpl. lia.
Defined.

(** ** OP_RETURN framing *)

(** [hush_scriptitemlen] undoes the framing of [hush_opreturnscript]: for
    a payload of up to 65534 bytes the script starts with OP_RETURN, and behind
    it the item parser finds a length of payload plus type byte and an offset
    at which exactly [type] and the payload stand; the returned length is the
    script's. *)
Theorem opreturn_framing (type : Z) (opret : list Z) :
  Zlen opret < 0xffff -> bytes_ok opret ->
  let '(script, ret) := hush_opreturnscript type opret in
  let '(len, opretlen) := hush_scriptitemlen (drop 1 script) in
  ret = Zlen script /\ rd script 0 = 0x6a /\ opretlen = Zlen opret + 1 /\
  drop (Z.to_nat len) (drop 1 script) = type :: opret.
Proof.
  intros Hlt Hok. pose proof (Zlen_nonneg opret) as Hz.
  unfold hush_opreturnscript. set (n := Zlen opret) in *.
  destruct (Z.leb_spec 0x4c (n + 1)) as [H4c | H4c].
  - destruct (Z.ltb_spec 0xff (n + 1)) as [Hff | Hff]; cbn [app drop hush_scriptitemlen rd nth];
      unfold hush_scriptitemlen, rd; cbn [nth].
    + rewrite !land_255, Z.shiftr_div_pow2 by lia. unfold u8. rewrite !Zmod_mod.
      rewrite Z.shiftl_mul_pow2 by lia. change (2 ^ 8) with 256.
      rewrite (Z.mod_small ((n + 1) / 256)) by (Z.to_euclidean_division_equations; lia).
      cbn. repeat split.
      * unfold Zlen in *. cbn [length]. lia.
      * pose proof (Z.div_mod (n + 1) 256). lia.
    + rewrite u8_id by (unfold byte_ok; lia). cbn. repeat split. unfold Zlen in *. cbn [length]. lia.
  - cbn [app drop]. unfold hush_scriptitemlen, rd. cbn [nth].
    rewrite u8_id by (unfold byte_ok; lia).
    destruct (Z.leb_spec 0x4c (n + 1)); [lia |].
    cbn. repeat split. unfold Zlen in *. cbn [length]. lia.
Qed.

Lemma opreturn_framing_witness :
  Zlen (replicate 80 5) < 0xffff /\
  (let '(script, ret) := hush_opreturnscript 75 (replicate 80 5) in
   let '(len, opretlen) := hush_scriptitemlen (drop 1 script) in
   ret = Zlen script /\ rd script 0 = 0x6a /\ opretlen = Zlen (replicate 80 5) + 1 /\
   drop (Z.to_nat len) (drop 1 script) = 75 :: replicate 80 5).
Proof.
  split; [reflexivity |].
  apply (opreturn_framing 75 (replicate 80 5)); [reflexivity |].
  apply bytes_ok_replicate. unfold byte_ok. lia.
Defined.
