(* ===== verification/Subsidy.v ===== *)
(** * Emission: block subsidy and founders reward

    [hush_block_subsidy] and [hush_sc_block_subsidy] of src/src/hush_utils.h,
    [hush_commission] and [the_commission] of src/src/hush_bitcoind.h.  The two
    files carry the comment that their tables must be kept in sync; this file
    proves that they are, bounds the emission, and shows that the function-local
    cache of the smart-chain subsidy is transparent.

    The command-line settings ([-z2zheight], [-ac_reward], ...) are the record
    [sc_config].  Undefined behaviour of C (a shift by 64 or more) is [None]. *)
From S2P Require Import Prelude.
Local Open Scope Z_scope.

(** ** The HUSH3 table *)

(** [HALVING1] is [GetArg("-z2zheight",340000)]. *)
Definition hush_block_subsidy (HALVING1 height : Z) : Z :=
  if height <? 128 then 0
  else if height <? HALVING1 then 1125000000
  else if height <? 2020000 then 281250000
  else if height <? 3700000 then 140625000
  else if height <? 5380000 then 70312500
  else if height <? 7060000 then 35156250
  else if height <? 8740000 then 17578125
  else if height <? 10420000 then 8789062
  else if height <? 12100000 then 4394531
  else if height <? 15460000 then 2197265
  else if height <? 17140000 then 1098632
  else if height <? 18820000 then 549316
  else if height <? 23860000 then 274658
  else if height <? 23860000 then 137329
  else if height <? 25540000 then 68664
  else if height <? 27220000 then 34332
  else if height <? 27220000 then 17166
  else if height <? 28900000 then 8583
  else if height <? 30580000 then 4291
  else if height <? 32260000 then 2145
  else if height <? 33940000 then 1072
  else if height <? 35620000 then 536
  else if height <? 37300000 then 268
  else if height <? 38980000 then 134
  else if height <? 40660000 then 67
  else if height <? 42340000 then 33
  else if height <? 44020000 then 16
  else if height <? 45700000 then 8
  else if height <? 47380000 then 4
  else if height <? 49060000 then 2
  else if height <? 50740000 then 1
  else 0.

Definition starting_commission : Z := 125000000.

Definition hush_commission (HALVING1 height : Z) : Z :=
  if height <? 129 then 0
  else if height <? HALVING1 then starting_commission
  else if height <? 2020000 then 31250000
  else if height <? 3700000 then 15625000
  else if height <? 5380000 then 7812500
  else if height <? 7060000 then 3906250
  else if height <? 8740000 then 1953125
  else if height <? 10420000 then 976562
  else if height <? 12100000 then 488281
  else if height <? 15460000 then 244140
  else if height <? 17140000 then 122070
  else if height <? 18820000 then 61035
  else if height <? 23860000 then 30517
  else if height <? 23860000 then 15258
  else if height <? 25540000 then 7629
  else if height <? 27220000 then 3814
  else if height <? 27220000 then 1907
  else if height <? 28900000 then 953
  else if height <? 30580000 then 476
  else if height <? 32260000 then 238
  else if height <? 33940000 then 119
  else if height <? 35620000 then 59
  else if height <? 37300000 then 29
  else if height <? 38980000 then 14
  else if height <? 40660000 then 7
  else if height <? 42340000 then 3
  else if height <? 44020000 then 1
  else if height <? 45700000 then 0
  else if height <? 47380000 then 0
  else if height <? 49060000 then 0
  else if height <? 50740000 then 0
  else 0.

(** ** Smart chains *)

Definition COIN : Z := 100000000.

Record sc_config := ScConfig {
  sc_ishush3 : bool;          (* strncmp(SMART_CHAIN_SYMBOL,"HUSH3",5) == 0 *)
  z2zheight : Z;
  ENDSUBSIDY : list Z;        (* uint64_t, one per era *)
  REWARD : list Z;
  HALVING : list Z;
  DECAY : list Z;
  LASTERA : nat;
  SUPPLY : Z;
  MAGIC : Z;                  (* uint32_t *)
  STAKED : Z;
  FOUNDERS : Z;               (* int32_t *)
  FOUNDERS_REWARD : Z;        (* uint64_t *)
  COMMISSION : Z              (* uint64_t *)
}.

(** The function-local statics [cached_subsidy], [cached_numhalvings] and
    [cached_era]. *)
Record sc_cache := ScCache { cached_subsidy : Z; cached_numhalvings : Z; cached_era : nat }.

Definition empty_cache : sc_cache := ScCache 0 0 0.

Section ScSubsidy.
Context (cfg : sc_config).

(** [for ( curEra = 0; curEra <= LASTERA; curEra++ ) if ( ... ) break;] *)
Fixpoint find_era (fuel curEra : nat) (nHeight : Z) : nat :=
  match fuel with
  | O => curEra
  | S fuel =>
    if (LASTERA cfg <? curEra)%nat then curEra
    else if (nHeight <? rd (ENDSUBSIDY cfg) curEra) || (rd (ENDSUBSIDY cfg) curEra =? 0) then curEra
    else find_era fuel (S curEra) nHeight
  end.

Definition cur_era (nHeight : Z) : nat :=
  if rd (ENDSUBSIDY cfg) 0 =? 0 then 0%nat else find_era (S (LASTERA cfg)) 0 nHeight.

(** [for (int i=0; i < numhalvings && subsidy != 0; i++)
       subsidy = (subsidy * DECAY) / 100000000;] *)
Fixpoint decay_loop (n : nat) (decay subsidy : Z) : Z :=
  match n with
  | O => subsidy
  | S n => if subsidy =? 0 then subsidy else decay_loop n decay (u64 (subsidy * decay) / 100000000)
  end.

(** The branch [ASSETCHAINS_DECAY[curEra] == 100000000]: linear decay towards
    the next era. *)
Definition linear_decay (curEra : nat) (nHeight nStart subsidy : Z) : Z :=
  let '(subsidyDifference, sign) :=
    if (curEra =? LASTERA cfg)%nat then (subsidy, 1)
    else
      let d := s64 (subsidy - rd (REWARD cfg) (S curEra)) in
      if d <? 0 then (s64 (d * -1), -1) else (d, 1) in
  let denominator := s64 (rd (ENDSUBSIDY cfg) curEra - nStart) in
  let numerator := s64 (denominator - (u64 (rd (ENDSUBSIDY cfg) curEra - nHeight)
                                       + u64 (nHeight - nStart) mod rd (HALVING cfg) curEra)) in
  if denominator =? 0 then 10000
  else s64 (subsidy - sign * Z.quot (s64 (subsidyDifference * numerator)) denominator).

(** The halving step of one era: the subsidy and the cache after it. *)
Definition era_subsidy (cache : sc_cache) (curEra : nat) (nHeight : Z) : option (Z * sc_cache) :=
  let nStart := match curEra with O => 0 | S e => rd (ENDSUBSIDY cfg) e end in
  let subsidy := s64 (rd (REWARD cfg) curEra) in
  if negb (subsidy =? 0) || (negb (curEra =? LASTERA cfg)%nat && negb (rd (REWARD cfg) (S curEra) =? 0)) then
    if negb (rd (HALVING cfg) curEra =? 0) then
      if sc_ishush3 cfg then Some (hush_block_subsidy (z2zheight cfg) nHeight, cache)
      else
        let numhalvings := s32 (u64 (nHeight - nStart) / rd (HALVING cfg) curEra) in
        if 0 <? numhalvings then
          if rd (DECAY cfg) curEra =? 0 then
            if numhalvings <? 64 then Some (Z.shiftr subsidy numhalvings, cache) else None
          else if (rd (DECAY cfg) curEra =? 100000000) && negb (rd (ENDSUBSIDY cfg) curEra =? 0) then
            Some (linear_decay curEra nHeight nStart subsidy, cache)
          else if (0 <? cached_subsidy cache) && (cached_era cache =? curEra)%nat
                  && (cached_numhalvings cache =? numhalvings) then
            Some (cached_subsidy cache, cache)
          else
            let s := decay_loop (Z.to_nat numhalvings) (rd (DECAY cfg) curEra) subsidy in
            Some (s, ScCache s numhalvings curEra)
        else Some (subsidy, cache)
    else Some (subsidy, cache)
  else Some (subsidy, cache).

(** The part after the era computation: premine and magic. *)
Definition add_premine (nHeight subsidy : Z) : Z :=
  let magicExtra := if STAKED cfg =? 0 then Z.land (MAGIC cfg) 0xffffff else MAGIC cfg in
  if 10000000000 <? SUPPLY cfg then
    if nHeight <=? SUPPLY cfg / 1000000000 then
      let subsidy := s64 (subsidy + 1000000000 * COIN) in
      if nHeight =? 1 then s64 (subsidy + ((SUPPLY cfg mod 1000000000) * COIN + magicExtra)) else subsidy
    else subsidy
  else if nHeight =? 1 then
    if (LASTERA cfg =? 0)%nat then s64 (SUPPLY cfg * COIN + magicExtra)
    else s64 (subsidy + (SUPPLY cfg * COIN + magicExtra))
  else subsidy.

Definition hush_sc_block_subsidy (cache : sc_cache) (nHeight : Z) : option (Z * sc_cache) :=
  let era :=
    if (rd (ENDSUBSIDY cfg) 0 =? 0) && (rd (REWARD cfg) 0 =? 0) then Some (10000, cache)
    else
      let curEra := cur_era nHeight in
      if (curEra <=? LASTERA cfg)%nat then era_subsidy cache curEra nHeight
      else Some (0, cache) in
  match era with
  | Some (subsidy, cache) => Some (u64 (add_premine nHeight subsidy), cache)
  | None => None
  end.

(** The outputs of a transaction, the part [the_commission] looks at. *)
Definition commission_block : Type := list (list Z).

(** The inner loop of the block sum: [j] counts the outputs; a [break] leaves
    this loop only. *)
Fixpoint sum_vouts (height : Z) (txn_count i j n : nat) (vout : list Z) (total : Z) : Z :=
  match vout with
  | [] => total
  | nValue :: vout =>
    if (225000 <? height) && negb (STAKED cfg =? 0) && (1 <? txn_count)%nat
       && (i =? txn_count - 1)%nat && (j =? n - 1)%nat then total
    else
      let total := if negb (i =? 0)%nat || negb (j =? 1)%nat then u64 (total + nValue) else total in
      if 1000000 * COIN <? total then 1000000 * COIN
      else sum_vouts height txn_count i (S j) n vout total
  end.

Fixpoint sum_block (height : Z) (txn_count i : nat) (vtx : commission_block) (total : Z) : Z :=
  match vtx with
  | [] => total
  | vout :: vtx =>
    sum_block height txn_count (S i) vtx
      (sum_vouts height txn_count i 0 (length vout) vout total)
  end.

(** [the_commission]; [uninit] is the content of the local variable
    [commission] when neither branch assigns it. *)
Definition the_commission (uninit : Z) (cache : sc_cache) (pblock : option commission_block) (height : Z)
  : option (Z * sc_cache) :=
  let floor c := if c <? 10000 then 0 else c in
  if negb (FOUNDERS cfg =? 0) then
    match hush_sc_block_subsidy cache height with
    | None => None
    | Some (nSubsidy, cache) =>
      let commission := u64 (nSubsidy * COMMISSION cfg) / COIN in
      let commission := if sc_ishush3 cfg then hush_commission (z2zheight cfg) height else commission in
      let commission :=
        if 1 <? FOUNDERS cfg then
          if Z.rem height (FOUNDERS cfg) =? 0 then
            if FOUNDERS_REWARD cfg =? 0 then u64 (commission * FOUNDERS cfg) else FOUNDERS_REWARD cfg
          else 0
        else commission in
      Some (floor commission, cache)
    end
  else
    match pblock with
    | Some vtx =>
      let total := sum_block height (length vtx) 0 vtx 0 in
      Some (floor (u64 (total / 10000 * COMMISSION cfg) / 10000), cache)
    | None => Some (floor uninit, cache)
    end.
End ScSubsidy.

(** ** Tables: the first row whose bound exceeds the height *)

Fixpoint tlook (l : list (Z * Z)) (h : Z) : Z :=
  match l with
  | [] => 0
  | (e, v) :: l => if h <? e then v else tlook l h
  end.

(** The values never increase along the table and are not negative. *)
Fixpoint tmono (bound : Z) (l : list (Z * Z)) : bool :=
  match l with
  | [] => true
  | (_, v) :: l => (0 <=? v) && (v <=? bound) && tmono v l
  end.

(** The sum of [tlook l h] over all [h >= start]. *)
Fixpoint tsum (start : Z) (l : list (Z * Z)) : Z :=
  match l with
  | [] => 0
  | (e, v) :: l => v * Z.max 0 (e - start) + tsum (Z.max start e) l
  end.

Fixpoint zsum (f : Z -> Z) (start : Z) (n : nat) : Z :=
  match n with
  | O => 0
  | S n => f start + zsum f (start + 1) n
  end.

Definition subsidy_table (HALVING1 : Z) : list (Z * Z) :=
  [(HALVING1, 1125000000); (2020000, 281250000); (3700000, 140625000); (5380000, 70312500);
   (7060000, 35156250); (8740000, 17578125); (10420000, 8789062); (12100000, 4394531);
   (15460000, 2197265); (17140000, 1098632); (18820000, 549316); (23860000, 274658);
   (23860000, 137329); (25540000, 68664); (27220000, 34332); (27220000, 17166);
   (28900000, 8583); (30580000, 4291); (32260000, 2145); (33940000, 1072);
   (35620000, 536); (37300000, 268); (38980000, 134); (40660000, 67);
   (42340000, 33); (44020000, 16); (45700000, 8); (47380000, 4);
   (49060000, 2); (50740000, 1)].
Definition commission_table (HALVING1 : Z) : list (Z * Z) :=
  [(HALVING1, starting_commission); (2020000, 31250000); (3700000, 15625000); (5380000, 7812500);
   (7060000, 3906250); (8740000, 1953125); (10420000, 976562); (12100000, 488281);
   (15460000, 244140); (17140000, 122070); (18820000, 61035); (23860000, 30517);
   (23860000, 15258); (25540000, 7629); (27220000, 3814); (27220000, 1907);
   (28900000, 953); (30580000, 476); (32260000, 238); (33940000, 119);
   (35620000, 59); (37300000, 29); (38980000, 14); (40660000, 7);
   (42340000, 3); (44020000, 1); (45700000, 0); (47380000, 0);
   (49060000, 0); (50740000, 0)].

Lemma hush_block_subsidy_table z h : 
  hush_block_subsidy z h = if h <? 128 then 0 else tlook (subsidy_table z) h.
Proof. reflexivity. Qed.

Lemma hush_commission_table z h : 
  hush_commission z h = if h <? 129 then 0 else tlook (commission_table z) h.
Proof. reflexivity. Qed.

Lemma tlook_range bound l h : tmono bound l = true -> 0 <= bound -> 0 <= tlook l h <= bound.
Proof.
  revert bound. induction l as [| [e v] l IH]; intros bound H Hb; cbn in *; [lia |].
  apply andb_prop in H as [[H1%Z.leb_le H2%Z.leb_le]%andb_prop H3].
  specialize (IH v H3 H1). destruct (h <? e); lia.
Qed.

Lemma tlook_mono bound l h1 h2 :
  tmono bound l = true -> h1 <= h2 -> tlook l h2 <= tlook l h1.
Proof.
  revert bound. induction l as [| [e v] l IH]; intros bound H Hh; cbn in *; [lia |].
  apply andb_prop in H as [[H1%Z.leb_le _]%andb_prop H3].
  pose proof (tlook_range v l h2 H3 H1). specialize (IH v H3 Hh).
  destruct (Z.ltb_spec h1 e), (Z.ltb_spec h2 e); lia.
Qed.

Lemma zsum_ext f g start n :
  (forall h, start <= h -> f h = g h) -> zsum f start n = zsum g start n.
Proof.
  revert start. induction n as [| n IH]; intros start H; [done |]. cbn.
  rewrite H by lia. f_equal. apply IH. intros h Hh. apply H. lia.
Qed.

Lemma zsum_split f start k n :
  (k <= n)%nat -> zsum f start n = zsum f start k + zsum f (start + Z.of_nat k) (n - k).
Proof.
  revert start k. induction n as [| n IH]; intros start k Hk.
  - replace k with 0%nat by lia. done.
  - destruct k as [| k]; [by rewrite Z.add_0_r |]. cbn [zsum Nat.sub].
    rewrite (IH (start + 1) k) by lia. replace (start + Z.of_nat (S k)) with (start + 1 + Z.of_nat k) by lia.
    lia.
Qed.

Lemma zsum_const f v start n :
  (forall h, start <= h < start + Z.of_nat n -> f h = v) -> zsum f start n = v * Z.of_nat n.
Proof.
  revert start. induction n as [| n IH]; intros start H; [simpl; lia |]. cbn [zsum].
  rewrite H by lia. rewrite IH by (intros; apply H; lia). lia.
Qed.

Lemma zsum_add f g start n :
  zsum (fun h => f h + g h) start n = zsum f start n + zsum g start n.
Proof. revert start. induction n as [| n IH]; intros start; cbn; [done |]. rewrite IH. lia. Qed.

Lemma tsum_nonneg bound start l : tmono bound l = true -> 0 <= tsum start l.
Proof.
  revert bound start. induction l as [| [e v] l IH]; intros bound start H; cbn in *; [lia |].
  apply andb_prop in H as [[H1%Z.leb_le _]%andb_prop H3]. specialize (IH v (Z.max start e) H3). nia.
Qed.

(** The sum over any range is at most [tsum], with equality once the range
    reaches the last bound. *)
Lemma zsum_tlook bound l start n :
  tmono bound l = true ->
  zsum (tlook l) start n <= tsum start l /\
  (Forall (fun r => r.1 <= start + Z.of_nat n) l -> zsum (tlook l) start n = tsum start l).
Proof.
  revert bound start n. induction l as [| [e v] l IH]; intros bound start n H.
  { cbn [tsum]. rewrite (zsum_const _ 0) by done. split; [lia |]. intros _. lia. }
  cbn [tmono] in H. apply andb_prop in H as [[H1%Z.leb_le _]%andb_prop H3].
  set (k := Z.to_nat (Z.min (Z.of_nat n) (Z.max 0 (e - start)))).
  rewrite (zsum_split _ start k n) by lia.
  rewrite (zsum_const (tlook ((e, v) :: l)) v start k).
  2:{ intros h Hh. cbn [tlook]. destruct (Z.ltb_spec h e); [done | lia]. }
  cbn [tsum]. destruct (Z.le_gt_cases (start + Z.of_nat n) e) as [Hc | Hc].
  - replace (n - k)%nat with 0%nat by lia. cbn [zsum].
    pose proof (tsum_nonneg v (Z.max start e) l H3) as Hp.
    split; [nia |]. intros F. inversion_clear F as [| ? ? F1 F2]. cbn [fst] in F1.
    destruct (IH v (Z.max start e) 0%nat H3) as [_ E]. cbn [zsum] in E. rewrite <-E.
    + assert (Z.of_nat k = Z.max 0 (e - start)) by lia. nia.
    + eapply Forall_impl; [exact F2 |]. intros [a b] Ha. cbn [fst] in *. lia.
  - assert (Z.of_nat k = Z.max 0 (e - start)) as Hk by lia.
    replace (start + Z.of_nat k) with (Z.max start e) by lia.
    rewrite (zsum_ext (tlook ((e, v) :: l)) (tlook l)).
    2:{ intros h Hh. cbn [tlook]. destruct (Z.ltb_spec h e); [lia | done]. }
    destruct (IH v (Z.max start e) (n - k)%nat H3) as [IH1 IH2]. rewrite Hk. split; [lia |].
    intros F. inversion_clear F as [| ? ? F1 F2]. rewrite IH2; [done |].
    eapply Forall_impl; [exact F2 |]. intros [a b] Ha. cbn [fst] in *. lia.
Qed.

Lemma zsum_tlook_from bound l first n :
  0 <= first -> tmono bound l = true ->
  zsum (fun h => if h <? first then 0 else tlook l h) 0 n <= tsum first l /\
  (first <= Z.of_nat n -> Forall (fun r => r.1 <= Z.of_nat n) l ->
   zsum (fun h => if h <? first then 0 else tlook l h) 0 n = tsum first l).
Proof.
  intros Hf Hm. set (f := fun h => _). set (k := Nat.min n (Z.to_nat first)).
  rewrite (zsum_split f 0 k n) by lia. rewrite (zsum_const f 0 0 k).
  2:{ intros h Hh. unfold f. destruct (Z.ltb_spec h first); [done | lia]. }
  pose proof (tsum_nonneg bound first l Hm). rewrite Z.mul_0_l, !Z.add_0_l.
  destruct (Z.le_gt_cases first (Z.of_nat n)).
  - replace (Z.of_nat k) with first by lia.
    rewrite (zsum_ext f (tlook l)).
    2:{ intros h Hh. unfold f. destruct (Z.ltb_spec h first); [lia | done]. }
    destruct (zsum_tlook bound l first (n - k) Hm) as [A B]. split; [done |].
    intros _ F. apply B. replace (first + Z.of_nat (n - k)) with (Z.of_nat n) by lia. done.
  - replace (n - k)%nat with 0%nat by lia. split; [done |]. lia.
Qed.

Lemma commission_ninth z h :
  129 <= h -> hush_commission z h = hush_block_subsidy z h / 9.
Proof.
  intros Hh. rewrite hush_commission_table, hush_block_subsidy_table.
  destruct (Z.ltb_spec h 128), (Z.ltb_spec h 129); try lia.
  unfold subsidy_table, commission_table. cbn [tlook].
  repeat (destruct (_ <? _); [reflexivity |]). reflexivity.
Qed.

(** The two emission tables are in sync: at every height from 129 on and
    for every setting of -z2zheight, the founders reward is exactly one ninth
    (rounded down) of the miner subsidy, i.e. a tenth of the block; below it is
    zero, although block 128 already pays the full subsidy. *)
Theorem commission_in_sync (z h : Z) :
  hush_commission z h = (if h <? 129 then 0 else hush_block_subsidy z h / 9) /\
  (128 < z -> hush_block_subsidy z 128 = 1125000000 /\ hush_commission z 128 = 0).
Proof.
  split.
  - destruct (Z.ltb_spec h 129); [| by apply commission_ninth].
    unfold hush_commission. by destruct (Z.ltb_spec h 129); [| lia].
  - intros Hz. unfold hush_block_subsidy, hush_commission. cbn [Z.ltb Z.compare Pos.compare Pos.compare_cont].
    by destruct (Z.ltb_spec 128 z); [| lia].
Qed.

Lemma commission_in_sync_witness :
  hush_commission 340000 400000 = (if 400000 <? 129 then 0 else hush_block_subsidy 340000 400000 / 9) /\
  hush_block_subsidy 340000 128 = 1125000000 /\ hush_commission 340000 128 = 0.
Proof.
  destruct (commission_in_sync 340000 400000) as [H1 H2]. split; [exact H1 |]. apply H2. lia.
Defined.

(** The subsidy never increases from one height to a later one, once the
    transition (height 128) is over. *)
Theorem hush_block_subsidy_nonincreasing (z h1 h2 : Z) :
  128 <= h1 -> h1 <= h2 -> hush_block_subsidy z h2 <= hush_block_subsidy z h1.
Proof.
  intros H1 H2. rewrite !hush_block_subsidy_table.
  destruct (Z.ltb_spec h1 128), (Z.ltb_spec h2 128); try lia.
  by apply (tlook_mono 1125000000).
Qed.

Lemma hush_block_subsidy_nonincreasing_witness :
  hush_block_subsidy 340000 2020000 <= hush_block_subsidy 340000 2019999.
Proof. apply (hush_block_subsidy_nonincreasing 340000 2019999 2020000); lia. Defined.

(** The coins mined below height [n], founders reward included. *)
Definition mined (n : nat) : Z :=
  zsum (fun h => hush_block_subsidy 340000 h + hush_commission 340000 h) 0 n.

Lemma subsidy_total n :
  zsum (hush_block_subsidy 340000) 0 n <= 1331710687680000 /\
  (50740000 <= Z.of_nat n -> zsum (hush_block_subsidy 340000) 0 n = 1331710687680000).
Proof.
  rewrite (zsum_ext _ _ _ _ (fun h _ => hush_block_subsidy_table 340000 h)).
  destruct (zsum_tlook_from 1125000000 (subsidy_table 340000) 128 n) as [A B]; [lia | done |].
  split; [exact A |]. intros Hn. apply B; [lia |].
  unfold subsidy_table. repeat (constructor; [cbn [fst]; lia |]). constructor.
Qed.

Lemma commission_total n :
  zsum (hush_commission 340000) 0 n <= 147967708280000 /\
  (50740000 <= Z.of_nat n -> zsum (hush_commission 340000) 0 n = 147967708280000).
Proof.
  rewrite (zsum_ext _ _ _ _ (fun h _ => hush_commission_table 340000 h)).
  destruct (zsum_tlook_from 125000000 (commission_table 340000) 129 n) as [A B]; [lia | done |].
  split; [exact A |]. intros Hn. apply B; [lia |].
  unfold commission_table. repeat (constructor; [cbn [fst]; lia |]). constructor.
Qed.

(** Total emission: with the default -z2zheight the blocks below any
    height mint at most 14796783.95960000 coins, and exactly that from height
    50740000 on, so no later block mints anything. *)
Theorem emission_bounded (n k : nat) :
  mined n <= 1479678395960000 /\ mined (Z.to_nat 50740000 + k) = 1479678395960000.
Proof.
  unfold mined. rewrite !zsum_add. split.
  - pose proof (subsidy_total n) as [A _]. pose proof (commission_total n) as [B _]. lia.
  - set (m := (Z.to_nat 50740000 + k)%nat). assert (50740000 <= Z.of_nat m) as Hm by lia.
    clearbody m. rewrite (proj2 (subsidy_total m) Hm), (proj2 (commission_total m) Hm). done.
Qed.

(** Unreachable rows: the repeated bounds 23860000 and 27220000 hide two
    table entries, so no height and no -z2zheight ever pays 137329 or 17166, and
    the subsidy drops to a quarter at both bounds. *)
Theorem subsidy_dead_rows (z h : Z) :
  hush_block_subsidy z h <> 137329 /\ hush_block_subsidy z h <> 17166 /\
  hush_block_subsidy 340000 23860000 = hush_block_subsidy 340000 23859999 / 4 /\
  hush_block_subsidy 340000 27220000 = hush_block_subsidy 340000 27219999 / 4.
Proof.
  split; [| split; [| by split]]; rewrite hush_block_subsidy_table;
    (destruct (Z.ltb_spec h 128); [lia |]); unfold subsidy_table; cbn [tlook];
    repeat match goal with
      | |- context [h <? ?e] => destruct (Z.ltb_spec h e); try lia
      end.
Qed.

(** ** The smart-chain subsidy *)

Section Cache.
Context (cfg : sc_config).

(** The cached value is the one the decay loop computes for its key. *)
Definition cache_ok (c : sc_cache) : Prop :=
  0 < cached_subsidy c ->
  cached_subsidy c = decay_loop (Z.to_nat (cached_numhalvings c)) (rd (DECAY cfg) (cached_era c))
                       (s64 (rd (REWARD cfg) (cached_era c))).

Lemma empty_cache_ok : cache_ok empty_cache.
Proof. unfold cache_ok. cbn. lia. Qed.

Lemma era_subsidy_cache c era h :
  cache_ok c ->
  fst <$> era_subsidy cfg c era h = fst <$> era_subsidy cfg empty_cache era h /\
  (forall s c', era_subsidy cfg c era h = Some (s, c') -> cache_ok c').
Proof.
  intros Hc. unfold era_subsidy. cbn zeta.
  repeat match goal with
    | |- context [if ?b then _ else _] =>
      lazymatch b with
      | context [cached_subsidy] => fail
      | _ => destruct b
      end
    end; try (split; [done |]; intros ? ? [= <- <-]; done); try (split; [done |]; discriminate).
  cbn [cached_subsidy empty_cache Z.ltb Z.compare andb].
  destruct ((0 <? cached_subsidy c) && _ && _) eqn:E.
  - apply andb_prop in E as [[E1%Z.ltb_lt E2%Nat.eqb_eq]%andb_prop E3%Z.eqb_eq].
    cbn [fmap option_fmap option_map fst]. rewrite (Hc E1), E2, E3. split; [done |].
    intros ? ? [= <- <-]. done.
  - split; [done |]. intros ? ? [= <- <-]. intros _. done.
Qed.

Lemma sc_subsidy_cache c h :
  cache_ok c ->
  fst <$> hush_sc_block_subsidy cfg c h = fst <$> hush_sc_block_subsidy cfg empty_cache h /\
  (forall s c', hush_sc_block_subsidy cfg c h = Some (s, c') -> cache_ok c').
Proof.
  intros Hc. unfold hush_sc_block_subsidy.
  destruct (_ && _); [split; [done |]; intros ? ? [= <- <-]; done |].
  destruct (_ <=? _)%nat; [| split; [done |]; intros ? ? [= <- <-]; done].
  destruct (era_subsidy_cache c (cur_era cfg h) h Hc) as [E1 E2].
  destruct (era_subsidy cfg c _ h) as [[s1 c1] |], (era_subsidy cfg empty_cache _ h) as [[s2 c2] |];
    cbn in *; try discriminate; [| split; [done |]; discriminate].
  injection E1 as ->. split; [done |]. intros ? ? [= <- <-]. by eapply E2.
Qed.

(** The values a sequence of calls returns, threading the statics. *)
Fixpoint subsidy_calls (c : sc_cache) (heights : list Z) : list (option Z) :=
  match heights with
  | [] => []
  | h :: heights =>
    match hush_sc_block_subsidy cfg c h with
    | Some (s, c) => Some s :: subsidy_calls c heights
    | None => None :: subsidy_calls c heights
    end
  end.

Lemma subsidy_calls_cache c heights :
  cache_ok c ->
  subsidy_calls c heights = map (fun h => fst <$> hush_sc_block_subsidy cfg empty_cache h) heights.
Proof.
  revert c. induction heights as [| h hs IH]; intros c Hc; [done |]. cbn [subsidy_calls map].
  destruct (sc_subsidy_cache c h Hc) as [E1 E2]. rewrite <-E1.
  destruct (hush_sc_block_subsidy cfg c h) as [[s c'] |] eqn:E; cbn; f_equal; apply IH; [| done].
  by eapply E2.
Qed.
End Cache.

(** The function-local cache of [hush_sc_block_subsidy] is transparent:
    in any sequence of calls from program start, in any order of heights, every
    call returns what the function computes with an empty cache. *)
Theorem sc_subsidy_cache_transparent (cfg : sc_config) (heights : list Z) :
  subsidy_calls cfg empty_cache heights =
  map (fun h => fst <$> hush_sc_block_subsidy cfg empty_cache h) heights.
Proof. apply subsidy_calls_cache, empty_cache_ok. Qed.

(** A one-era chain that halves every block. *)
Definition halving_chain : sc_config :=
  ScConfig false 340000 [0] [1000] [1] [0] 0 10 0 0 0 0 0.

(** A chain with plain halvings ([-ac_halving] without decay) reaches a
    shift by 64 or more, undefined in C, as soon as 64 halvings have passed: the
    source has no counterpart of Bitcoin's cut-off at 64 halvings. *)
Theorem sc_subsidy_shift_undefined (cfg : sc_config) (c : sc_cache) (h : Z) :
  rd (ENDSUBSIDY cfg) 0 = 0 -> s64 (rd (REWARD cfg) 0) <> 0 -> rd (REWARD cfg) 0 <> 0 ->
  sc_ishush3 cfg = false -> rd (DECAY cfg) 0 = 0 ->
  0 < rd (HALVING cfg) 0 -> 64 * rd (HALVING cfg) 0 <= h -> h < 2 ^ 31 ->
  hush_sc_block_subsidy cfg c h = None.
Proof.
  intros He Hr Hr' Hs Hd Hp H64 Hh. unfold hush_sc_block_subsidy, cur_era. rewrite He.
  cbn [Z.eqb andb]. destruct (Z.eqb_spec (rd (REWARD cfg) 0) 0); [done |].
  cbn [Nat.leb]. unfold era_subsidy. cbn zeta.
  destruct (Z.eqb_spec (s64 (rd (REWARD cfg) 0)) 0); [done |].
  destruct (Z.eqb_spec (rd (HALVING cfg) 0) 0); [lia |]. cbn [negb orb]. rewrite Hs, Hd.
  set (p := rd (HALVING cfg) 0) in *.
  rewrite Z.sub_0_r, u64_id by (unfold is_u; lia).
  assert (64 <= h / p) by (apply Z.div_le_lower_bound; lia).
  assert (h / p <= h) by (apply Z.div_le_upper_bound; nia).
  rewrite s32_id by (unfold is_s32; lia).
  destruct (Z.ltb_spec 0 (h / p)); [| lia]. cbn [Z.eqb].
  by destruct (Z.ltb_spec (h / p) 64); [lia |].
Qed.

Lemma sc_subsidy_shift_undefined_witness :
  hush_sc_block_subsidy halving_chain empty_cache 63 = Some (0, empty_cache) /\
  hush_sc_block_subsidy halving_chain empty_cache 64 = None.
Proof.
  split; [reflexivity |].
  apply (sc_subsidy_shift_undefined halving_chain empty_cache 64);
    first [reflexivity | vm_compute; congruence].
Defined.

(** The founders reward actually paid by a HUSH3 node ([the_commission]
    with -ac_founders=1) is the table value, except that amounts below 10000
    are dropped: it is zero from height 23860000 on. *)
Theorem the_commission_hush3 (cfg : sc_config) (uninit : Z) (c : sc_cache) b (h s : Z) c' :
  sc_ishush3 cfg = true -> FOUNDERS cfg = 1 ->
  hush_sc_block_subsidy cfg c h = Some (s, c') ->
  the_commission cfg uninit c b h =
    Some (if hush_commission (z2zheight cfg) h <? 10000 then 0 else hush_commission (z2zheight cfg) h, c') /\
  (23860000 <= h -> z2zheight cfg <= h -> the_commission cfg uninit c b h = Some (0, c')).
Proof.
  intros Hi Hf Hs.
  assert (the_commission cfg uninit c b h =
    Some (if hush_commission (z2zheight cfg) h <? 10000 then 0 else hush_commission (z2zheight cfg) h, c')) as E.
  { unfold the_commission. rewrite Hf, Hs, Hi. done. }
  split; [exact E |]. intros H1 H2. rewrite E. do 2 f_equal.
  rewrite hush_commission_table. destruct (Z.ltb_spec h 129); [lia |].
  unfold commission_table. cbn [tlook].
  repeat match goal with
    | |- context [h <? ?e] => destruct (Z.ltb_spec h e); try lia; try reflexivity
    end.
Qed.

Definition hush3_chain : sc_config :=
  ScConfig true 340000 [128; 340000; 0] [0; 1125000000; 281250000] [129; 340000; 1680000]
    [0; 0; 0] 2 6178674 0xd394d36e 0 1 0 11111111.

Lemma the_commission_hush3_witness :
  hush_sc_block_subsidy hush3_chain empty_cache 24000000 = Some (68664, empty_cache) /\
  the_commission hush3_chain 7 empty_cache None 24000000 =
    Some (if hush_commission 340000 24000000 <? 10000 then 0 else hush_commission 340000 24000000, empty_cache) /\
  the_commission hush3_chain 7 empty_cache None 24000000 = Some (0, empty_cache).
Proof.
  split; [reflexivity |].
  destruct (the_commission_hush3 hush3_chain 7 empty_cache None 24000000 68664 empty_cache) as [H1 H2];
    try reflexivity.
  split; [exact H1 |]. apply H2; cbn; lia.
Defined.
