(* ===== verification/Notarized.v ===== *)
(** * Notarization checkpoints

    The state of a chain ([struct hush_state], src/src/hush_structs.h) and the
    operations that maintain and query its list of notarized checkpoints:
    src/src/hush_notary.h from [hush_npptr_for_height] to
    [hush_notarized_update], and [hush_MoM] and [hush_checkpoint] of
    src/src/hush_bitcoind.h.

    The realloc'ed array [NPOINTS] is a list, [NUM_NPOINTS] its length; a
    pointer into it is an index.  The fields of [struct hush_state] that no
    reachable code reads ([deposited] ... [shorted], [RTbufs], [RTmask]) are
    left out.  [mapBlockIndex] is a function from hashes to heights. *)
From stdpp Require Import sorting.
From S2P Require Import Prelude.
Local Open Scope Z_scope.

(** A [uint256] is its 32 bytes in memory order. *)
Abbreviation uint256 := (list Z) (only parsing).
Definition zero256 : uint256 := replicate 32 0.

Record notarized_checkpoint := Checkpoint {
  np_notarized_hash : uint256;
  np_notarized_desttxid : uint256;
  np_MoM : uint256;
  np_MoMoM : uint256;
  np_nHeight : Z;
  np_notarized_height : Z;
  np_MoMdepth : Z;
  np_MoMoMdepth : Z;
  np_MoMoMoffset : Z;
  np_hushstarti : Z;
  np_hushendi : Z
}.

Record hush_event := Event {
  ev_len : Z;               (* uint16_t *)
  ev_height : Z;
  ev_type : Z;
  ev_symbol : list Z;
  ev_space : list Z
}.

Record hush_state := State {
  NOTARIZED_HASH : uint256;
  NOTARIZED_DESTTXID : uint256;
  sp_MoM : uint256;
  SAVEDHEIGHT : Z;
  CURRENT_HEIGHT : Z;
  NOTARIZED_HEIGHT : Z;
  sp_MoMdepth : Z;
  SAVEDTIMESTAMP : Z;
  NPOINTS : list notarized_checkpoint;
  last_NPOINTSi : nat;
  Hush_events : list hush_event
}.

(** The zero-initialised global. *)
Definition init_state : hush_state :=
  State zero256 zero256 zero256 0 0 0 0 0 [] 0 [].

#[export] Instance checkpoint_eq_dec : EqDecision notarized_checkpoint.
Proof. solve_decision. Defined.
#[export] Instance event_eq_dec : EqDecision hush_event.
Proof. solve_decision. Defined.
#[export] Instance state_eq_dec : EqDecision hush_state.
Proof. solve_decision. Defined.

(** Assignments to fields of [*sp]. *)
Definition set_notarized (h : Z) (hash txid : uint256) (sp : hush_state) : hush_state :=
  State hash txid (sp_MoM sp) (SAVEDHEIGHT sp) (CURRENT_HEIGHT sp) h (sp_MoMdepth sp)
    (SAVEDTIMESTAMP sp) (NPOINTS sp) (last_NPOINTSi sp) (Hush_events sp).
Definition set_MoM (MoM : uint256) (depth : Z) (sp : hush_state) : hush_state :=
  State (NOTARIZED_HASH sp) (NOTARIZED_DESTTXID sp) MoM (SAVEDHEIGHT sp) (CURRENT_HEIGHT sp)
    (NOTARIZED_HEIGHT sp) depth (SAVEDTIMESTAMP sp) (NPOINTS sp) (last_NPOINTSi sp) (Hush_events sp).
Definition set_npoints (l : list notarized_checkpoint) (sp : hush_state) : hush_state :=
  State (NOTARIZED_HASH sp) (NOTARIZED_DESTTXID sp) (sp_MoM sp) (SAVEDHEIGHT sp) (CURRENT_HEIGHT sp)
    (NOTARIZED_HEIGHT sp) (sp_MoMdepth sp) (SAVEDTIMESTAMP sp) l (last_NPOINTSi sp) (Hush_events sp).
Definition set_last (i : nat) (sp : hush_state) : hush_state :=
  State (NOTARIZED_HASH sp) (NOTARIZED_DESTTXID sp) (sp_MoM sp) (SAVEDHEIGHT sp) (CURRENT_HEIGHT sp)
    (NOTARIZED_HEIGHT sp) (sp_MoMdepth sp) (SAVEDTIMESTAMP sp) (NPOINTS sp) i (Hush_events sp).
Definition set_events (l : list hush_event) (sp : hush_state) : hush_state :=
  State (NOTARIZED_HASH sp) (NOTARIZED_DESTTXID sp) (sp_MoM sp) (SAVEDHEIGHT sp) (CURRENT_HEIGHT sp)
    (NOTARIZED_HEIGHT sp) (sp_MoMdepth sp) (SAVEDTIMESTAMP sp) (NPOINTS sp) (last_NPOINTSi sp) l.
Definition set_heights (saved ts current : Z) (sp : hush_state) : hush_state :=
  State (NOTARIZED_HASH sp) (NOTARIZED_DESTTXID sp) (sp_MoM sp) saved current
    (NOTARIZED_HEIGHT sp) (sp_MoMdepth sp) ts (NPOINTS sp) (last_NPOINTSi sp) (Hush_events sp).

(** ** Lookups *)

(** The condition under which checkpoint [np] covers [height]. *)
Definition np_covers (height : Z) (np : notarized_checkpoint) : bool :=
  negb (np_MoMdepth np =? 0)
  && (np_notarized_height np - Z.land (np_MoMdepth np) 0xffff <? height)
  && (height <=? np_notarized_height np).

(** [for (i=sp->NUM_NPOINTS-1; i>=0; i--)]: the loop over the first [n]
    checkpoints, from the last one down. *)
Fixpoint npptr_loop (height : Z) (l : list notarized_checkpoint) (n : nat) : option (notarized_checkpoint * nat) :=
  match n with
  | O => None
  | S i =>
    match l !! i with
    | Some np => if np_covers height np then Some (np, i) else npptr_loop height l i
    | None => npptr_loop height l i
    end
  end.

(** The checkpoint and [*idx]; the null pointer goes with [*idx = -1]. *)
Definition hush_npptr_for_height (sp : hush_state) (height : Z) : option notarized_checkpoint * Z :=
  match npptr_loop height (NPOINTS sp) (length (NPOINTS sp)) with
  | Some (np, i) => (Some np, Z.of_nat i)
  | None => (None, -1)
  end.

Definition hush_npptr (sp : hush_state) (height : Z) : option notarized_checkpoint :=
  (hush_npptr_for_height sp height).1.

(** [None] is the null pointer; a negative [idx] passes the test of the source
    and points in front of the array ([inr]). *)
Definition hush_npptr_at (sp : hush_state) (idx : Z) : option notarized_checkpoint + unit :=
  if idx <? Zlen (NPOINTS sp) then
    if idx <? 0 then inr tt else inl (NPOINTS sp !! Z.to_nat idx)
  else inl None.

Fixpoint prevMoM_loop (l : list notarized_checkpoint) (n : nat) : Z :=
  match n with
  | O => 0
  | S i =>
    match l !! i with
    | Some np => if bool_decide (np_MoM np = zero256) then prevMoM_loop l i else np_notarized_height np
    | None => prevMoM_loop l i
    end
  end.

Definition hush_prevMoMheight (sp : hush_state) : Z := prevMoM_loop (NPOINTS sp) (length (NPOINTS sp)).

(** [mapBlockIndex]: the height of a known block.  The result is the height,
    [*prevMoMheightp], [*hashp], [*txidp] and the state, from which an orphaned
    notarization is erased. *)
Definition hush_notarized_height (index : uint256 -> option Z) (sp : hush_state)
  : Z * Z * uint256 * uint256 * hush_state :=
  match index (NOTARIZED_HASH sp) with
  | Some ht =>
    if ht <? 0 then (0, 0, zero256, zero256, set_notarized 0 zero256 zero256 sp)
    else (NOTARIZED_HEIGHT sp, hush_prevMoMheight sp, NOTARIZED_HASH sp, NOTARIZED_DESTTXID sp, sp)
  | None => (0, 0, zero256, zero256, set_notarized 0 zero256 zero256 sp)
  end.

(** [hadnotarization] is a function-local static. *)
Definition hush_dpowconfs (dpowconfs : bool) (sp : hush_state) (hadnotarization : bool)
  (txheight numconfs : Z) : Z * bool :=
  if dpowconfs && (0 <? txheight) && (0 <? numconfs) then
    if 0 <? NOTARIZED_HEIGHT sp then
      (if txheight <? NOTARIZED_HEIGHT sp then numconfs else 1, true)
    else if hadnotarization then (1, hadnotarization)
    else (numconfs, hadnotarization)
  else (numconfs, hadnotarization).

Record MoM_data := MoMData {
  md_notarized_ht : Z; md_MoM : uint256; md_hushtxid : uint256; md_MoMoM : uint256;
  md_MoMoMoffset : Z; md_MoMoMdepth : Z; md_hushstarti : Z; md_hushendi : Z
}.

Definition hush_MoMdata (sp : hush_state) (height : Z) : Z * MoM_data :=
  match hush_npptr sp height with
  | Some np =>
    (Z.land (np_MoMdepth np) 0xffff,
     MoMData (np_notarized_height np) (np_MoM np) (np_notarized_desttxid np) (np_MoMoM np)
       (np_MoMoMoffset np) (np_MoMoMdepth np) (np_hushstarti np) (np_hushendi np))
  | None => (0, MoMData 0 zero256 zero256 zero256 0 0 0 0)
  end.

(** [hush_MoM]: the depth, [*notarized_heightp], [*MoMp], [*hushtxidp]. *)
Definition hush_MoM (sp : hush_state) (nHeight : Z) : Z * Z * uint256 * uint256 :=
  let '(depth, d) := hush_MoMdata sp nHeight in
  if negb (depth =? 0) && (0 <? md_notarized_ht d) && (md_notarized_ht d - depth <? nHeight)
     && (nHeight <=? md_notarized_ht d)
  then (depth, md_notarized_ht d, md_MoM d, md_hushtxid d)
  else (depth, 0, zero256, zero256).

(** ** [hush_notarizeddata] *)

(** The forward scan shared by its two loops: from index [i], with [np] the
    current pointer, until a checkpoint at or above [nHeight].  Yields the
    pointer, [last_NPOINTSi] and whether the loop broke out. *)
Fixpoint np_scan (nHeight : Z) (l : list notarized_checkpoint) (i : nat)
  (np : option notarized_checkpoint) (last : nat) : option notarized_checkpoint * nat * bool :=
  match l with
  | [] => (np, last, false)
  | x :: l =>
    if nHeight <=? np_nHeight x then (np, last, true)
    else np_scan nHeight l (S i) (Some x) i
  end.

Definition hush_notarizeddata (sp : hush_state) (nHeight : Z)
  : Z * uint256 * uint256 * hush_state :=
  let l := NPOINTS sp in
  let last := last_NPOINTSi sp in
  let '(np, last) :=
    if (0 <? length l)%nat then
      let '(np, last, flag) :=
        if (last <? length l)%nat && (0 <? last)%nat then
          match l !! (last - 1)%nat with
          | Some np0 =>
            if np_nHeight np0 <? nHeight then np_scan nHeight (drop last l) last (Some np0) last
            else (Some np0, last, false)
          | None => (None, last, false)
          end
        else (None, last, false) in
      if flag then (np, last)
      else let '(np, last, _) := np_scan nHeight l 0 None last in (np, last)
    else (None, last) in
  match np with
  | Some np => (np_notarized_height np, np_notarized_hash np, np_notarized_desttxid np, set_last last sp)
  | None => (0, zero256, zero256, set_last last sp)
  end.

(** ** Updates *)

Definition hush_notarized_update (sp : hush_state) (nHeight notarized_height : Z)
  (notarized_hash notarized_desttxid MoM : uint256) (MoMdepth : Z) : hush_state :=
  if nHeight <=? notarized_height then sp
  else
    let np := Checkpoint notarized_hash notarized_desttxid MoM zero256 nHeight notarized_height
                MoMdepth 0 0 0 0 in
    set_MoM MoM MoMdepth
      (set_notarized notarized_height notarized_hash notarized_desttxid
        (set_npoints (NPOINTS sp ++ [np]) sp)).

(** [hush_checkpoint(&notarized_height,nHeight,hash)]; [tip] is the height of
    [chainActive.LastTip()].  The result is the return value, the notarized
    height stored and the state ([last_NPOINTSi] moves). *)
Definition hush_checkpoint (index : uint256 -> option Z) (tip : option Z) (sp : hush_state)
  (nHeight : Z) (hash : uint256) : Z * option Z * hush_state :=
  match tip with
  | None => (-1, None, sp)
  | Some tip =>
    let '(notarized_height, notarized_hash, _, sp) := hush_notarizeddata sp tip in
    let ret :=
      if (0 <=? notarized_height) && (notarized_height <=? tip) then
        match index notarized_hash with
        | Some ht =>
          if ht =? notarized_height then
            if nHeight <? notarized_height then -1
            else if (nHeight =? notarized_height) && negb (bool_decide (hash = notarized_hash)) then -1
            else 0
          else 0
        | None => 0
        end
      else 0 in
    (ret, Some notarized_height, sp)
  end.

(** ** Properties of the lookups *)

Lemma npptr_loop_spec height l n np i :
  npptr_loop height l n = Some (np, i) <->
  (i < n)%nat /\ l !! i = Some np /\ np_covers height np = true /\
  forall j np', (i < j < n)%nat -> l !! j = Some np' -> np_covers height np' = false.
Proof.
  induction n as [|n IH]; cbn [npptr_loop]; [split; [done|intros [? _]; lia]|].
  assert (Hskip : (forall x, l !! n = Some x -> np_covers height x = false) ->
    npptr_loop height l n = Some (np, i) <->
    (i < S n)%nat /\ l !! i = Some np /\ np_covers height np = true /\
    forall j np', (i < j < S n)%nat -> l !! j = Some np' -> np_covers height np' = false).
  { intros Hn. rewrite IH. split; intros (Hi & Hl & Hc & Hj); repeat split; auto.
    - intros j np' Hr Hjl. destruct (decide (j = n)) as [->|]; [eauto|]. eapply Hj; [|done]. lia.
    - destruct (decide (i = n)) as [->|]; [|lia]. rewrite (Hn np Hl) in Hc. done.
    - intros j np' Hr. apply Hj. lia. }
  destruct (l !! n) as [x|] eqn:Hx; [|by apply Hskip].
  destruct (np_covers height x) eqn:Hc; [|apply Hskip; by intros ? [= <-]].
  split; [intros [= <- <-]; repeat split; auto; intros; lia|].
  intros (Hi & Hl & Hcov & Hj). destruct (decide (i = n)) as [->|]; [congruence|].
  rewrite (Hj n x) in Hc; [done|lia|done].
Qed.

Lemma npptr_loop_none height l n :
  npptr_loop height l n = None <->
  forall j np, (j < n)%nat -> l !! j = Some np -> np_covers height np = false.
Proof.
  split.
  - induction n as [|n IH]; cbn [npptr_loop]; intros H j np Hj Hl; [lia|].
    destruct (decide (j = n)) as [->|].
    + rewrite Hl in H. by destruct (np_covers height np).
    + eapply IH; [|instantiate (1 := j); lia|done]. by repeat case_match.
  - intros H. destruct (npptr_loop height l n) as [[np i]|] eqn:E; [|done].
    apply npptr_loop_spec in E as (Hi & Hl & Hc & _). rewrite (H i np) in Hc; done.
Qed.

(** [hush_npptr_for_height] returns the most recent checkpoint whose
    Merkle-of-Merkle range [(notarized_height - depth, notarized_height]]
    contains the height, together with its index, and the null pointer with
    index -1 exactly when no checkpoint covers the height. *)
Theorem npptr_most_recent_cover (sp : hush_state) (height : Z) :
  match hush_npptr_for_height sp height with
  | (Some np, idx) =>
      0 <= idx < Zlen (NPOINTS sp) /\ NPOINTS sp !! Z.to_nat idx = Some np /\
      hush_npptr_at sp idx = inl (Some np) /\ np_covers height np = true /\
      forall j np', idx < Z.of_nat j -> NPOINTS sp !! j = Some np' -> np_covers height np' = false
  | (None, idx) => idx = -1 /\ Forall (fun np => np_covers height np = false) (NPOINTS sp)
  end.
Proof.
  unfold hush_npptr_for_height.
  destruct (npptr_loop height (NPOINTS sp) (length (NPOINTS sp))) as [[np i]|] eqn:E.
  - apply npptr_loop_spec in E as (Hi & Hl & Hc & Hj).
    unfold hush_npptr_at, Zlen. rewrite Nat2Z.id.
    rewrite (proj2 (Z.ltb_lt _ _)) by lia. rewrite (proj2 (Z.ltb_ge _ _)) by lia.
    repeat split; [lia|lia|done|by rewrite Hl|done|].
    intros j np' Hlt Hj'. apply (Hj j np'); [|done]. apply lookup_lt_Some in Hj'. lia.
  - rewrite npptr_loop_none in E. split; [done|].
    apply Forall_lookup_2. intros j np Hj. apply (E j); [by apply lookup_lt_Some in Hj|done].
Qed.

(** ** The cached search of [hush_notarizeddata] *)

(** The checkpoints confirmed before block [nHeight]. *)
Fixpoint confirmed_before (nHeight : Z) (l : list notarized_checkpoint) : list notarized_checkpoint :=
  match l with
  | [] => []
  | x :: l => if np_nHeight x <? nHeight then x :: confirmed_before nHeight l else []
  end.

Definition np_order (a b : notarized_checkpoint) : Prop := np_nHeight a <= np_nHeight b.
Definition np_sorted (l : list notarized_checkpoint) : Prop := StronglySorted np_order l.

(** The answer without cache: the data of the last confirmed checkpoint. *)
Definition notarized_ref (l : list notarized_checkpoint) (nHeight : Z) : Z * uint256 * uint256 :=
  match last (confirmed_before nHeight l) with
  | Some np => (np_notarized_height np, np_notarized_hash np, np_notarized_desttxid np)
  | None => (0, zero256, zero256)
  end.

Lemma np_scan_np nHeight l i np lst :
  (np_scan nHeight l i np lst).1.1 =
  match last (confirmed_before nHeight l) with Some x => Some x | None => np end.
Proof.
  revert i np lst. induction l as [|x l IH]; intros; cbn [np_scan confirmed_before]; [done|].
  rewrite Z.leb_antisym. destruct (np_nHeight x <? nHeight); [|done].
  cbn [negb]. rewrite IH, last_cons. by destruct (last (confirmed_before nHeight l)).
Qed.

Lemma confirmed_before_app nHeight l1 l2 :
  Forall (fun x => np_nHeight x < nHeight) l1 ->
  confirmed_before nHeight (l1 ++ l2) = l1 ++ confirmed_before nHeight l2.
Proof.
  induction 1 as [|x l1 Hx _ IH]; [done|]. cbn. rewrite (proj2 (Z.ltb_lt _ _) Hx). by rewrite IH.
Qed.

Lemma sorted_prefix_below l n x nHeight :
  np_sorted l -> l !! n = Some x -> np_nHeight x < nHeight ->
  Forall (fun y => np_nHeight y < nHeight) (take (S n) l).
Proof.
  intros Hs Hn Hx. rewrite (take_S_r _ _ _ Hn). apply Forall_app. split; [|by constructor].
  apply Forall_forall. intros y Hy.
  rewrite <- (take_drop_middle l n x Hn) in Hs.
  assert (np_order y x) by (eapply StronglySorted_app_1_elem_of; [exact Hs|done|left]).
  unfold np_order in *. lia.
Qed.

Lemma notarizeddata_last_irrelevant sp nHeight :
  np_sorted (NPOINTS sp) -> (hush_notarizeddata sp nHeight).1 = notarized_ref (NPOINTS sp) nHeight.
Proof.
  intros Hs. unfold hush_notarizeddata, notarized_ref.
  set (l := NPOINTS sp) in *. set (lst := last_NPOINTSi sp).
  assert (Hfresh : forall k, (np_scan nHeight l 0 None k).1.1 = last (confirmed_before nHeight l)).
  { intros k. rewrite np_scan_np. by destruct (last _). }
  destruct (0 <? length l)%nat eqn:Hlen.
  2:{ destruct l; [done|]. cbn in Hlen. done. }
  destruct ((lst <? length l)%nat && (0 <? lst)%nat) eqn:Hc.
  - apply andb_prop in Hc as [H1%Nat.ltb_lt H2%Nat.ltb_lt].
    destruct (l !! (lst - 1)%nat) as [np0|] eqn:Hl.
    2:{ apply lookup_ge_None in Hl. lia. }
    destruct (np_nHeight np0 <? nHeight) eqn:Hb; [apply Z.ltb_lt in Hb|].
    + pose proof (np_scan_np nHeight (drop lst l) lst (Some np0) lst) as Hscan.
      destruct (np_scan nHeight (drop lst l) lst (Some np0) lst) as [[np k] flag]. cbn in Hscan.
      destruct flag.
      * subst np. pose proof (sorted_prefix_below l _ _ _ Hs Hl Hb) as Hp.
        replace (S (lst - 1)) with lst in Hp by lia.
        assert (confirmed_before nHeight l = take lst l ++ confirmed_before nHeight (drop lst l)) as ->
          by (rewrite <- (confirmed_before_app _ _ _ Hp); by rewrite take_drop).
        rewrite last_app.
        destruct (last (confirmed_before nHeight (drop lst l))); [done|].
        replace (take lst l) with (take (lst - 1) l ++ [np0]); [by rewrite last_snoc|].
        replace lst with (S (lst - 1)) at 2 by lia. by rewrite (take_S_r _ _ _ Hl).
      * specialize (Hfresh k). destruct (np_scan nHeight l 0 None k) as [[np' k'] ?].
        cbn in Hfresh. subst np'. by destruct (last (confirmed_before nHeight l)).
    + specialize (Hfresh lst). destruct (np_scan nHeight l 0 None lst) as [[np' k'] ?].
      cbn in Hfresh. subst np'. by destruct (last (confirmed_before nHeight l)).
  - specialize (Hfresh lst). destruct (np_scan nHeight l 0 None lst) as [[np' k'] ?].
    cbn in Hfresh. subst np'. by destruct (last (confirmed_before nHeight l)).
Qed.

Lemma notarizeddata_state sp nHeight :
  exists k, (hush_notarizeddata sp nHeight).2 = set_last k sp.
Proof.
  unfold hush_notarizeddata. repeat (case_match; simplify_eq); eauto.
Qed.

(** The static cursor [last_NPOINTSi] is only an accelerator: as long as
    the checkpoints are stored in the order of the blocks that confirmed them,
    [hush_notarizeddata] returns for every value of the cursor the data of the
    last checkpoint confirmed below [nHeight] (zeros if there is none) and
    changes nothing but the cursor. *)
Theorem notarizeddata_cursor_transparent (sp : hush_state) (nHeight : Z) :
  np_sorted (NPOINTS sp) ->
  (hush_notarizeddata sp nHeight).1 = notarized_ref (NPOINTS sp) nHeight /\
  exists k, (hush_notarizeddata sp nHeight).2 = set_last k sp.
Proof. split; [by apply notarizeddata_last_irrelevant|apply notarizeddata_state]. Qed.

(** A checkpoint with the given confirming and notarized heights. *)
Definition demo_np (nHeight nh : Z) : notarized_checkpoint :=
  Checkpoint (le_bytes 32 nh) (le_bytes 32 (nh + 1)) zero256 zero256 nHeight nh 0 0 0 0 0.

Definition demo_sp (l : list notarized_checkpoint) (k : nat) : hush_state :=
  set_last k (set_npoints l init_state).

Lemma notarizeddata_cursor_transparent_witness :
  np_sorted [demo_np 10 5; demo_np 20 15; demo_np 30 25] /\
  (hush_notarizeddata (demo_sp [demo_np 10 5; demo_np 20 15; demo_np 30 25] 2) 22).1
    = (15, le_bytes 32 15, le_bytes 32 16).
Proof.
  assert (H : np_sorted [demo_np 10 5; demo_np 20 15; demo_np 30 25])
    by (repeat (constructor; unfold np_order; cbn; try lia)).
  split; [exact H|].
  rewrite (proj1 (notarizeddata_cursor_transparent
    (demo_sp [demo_np 10 5; demo_np 20 15; demo_np 30 25] 2) 22 H)). vm_compute. reflexivity.
Defined.

(** Without that order the cursor is observable: notarizations appended
    after a reorganisation may have a smaller confirming height, and then two
    nodes with the same checkpoints get different notarized blocks for the same
    height, depending on what each of them was asked before. *)
Theorem notarizeddata_cursor_observable :
  exists sp queries nHeight,
    Forall (fun np => np_notarized_height np < np_nHeight np) (NPOINTS sp) /\
    (hush_notarizeddata sp nHeight).1 <>
    (hush_notarizeddata (foldl (fun s q => (hush_notarizeddata s q).2) sp queries) nHeight).1.
Proof.
  exists (demo_sp [demo_np 10 5; demo_np 20 12; demo_np 15 11; demo_np 30 25] 0), [40], 18.
  split; [repeat constructor|]. vm_compute. discriminate.
Qed.

(** ** Reachable checkpoint states and finality *)

(** The operations on the checkpoints, in any order. *)
Inductive np_step : hush_state -> hush_state -> Prop :=
| step_update sp nHeight nh hash txid MoM depth :
    0 <= nh -> np_step sp (hush_notarized_update sp nHeight nh hash txid MoM depth)
| step_query sp nHeight : np_step sp (hush_notarizeddata sp nHeight).2
| step_height sp index : np_step sp (hush_notarized_height index sp).2.

(** Every stored notarization is older than the block that confirmed it, and the
    summary in the state is that of the newest checkpoint, or blank. *)
Definition np_inv (sp : hush_state) : Prop :=
  Forall (fun np => 0 <= np_notarized_height np < np_nHeight np) (NPOINTS sp) /\
  ((NOTARIZED_HEIGHT sp = 0 /\ NOTARIZED_HASH sp = zero256 /\ NOTARIZED_DESTTXID sp = zero256) \/
   exists np, last (NPOINTS sp) = Some np /\ NOTARIZED_HEIGHT sp = np_notarized_height np /\
     NOTARIZED_HASH sp = np_notarized_hash np /\ NOTARIZED_DESTTXID sp = np_notarized_desttxid np) /\
  (NPOINTS sp = [] \/
   exists np, last (NPOINTS sp) = Some np /\ sp_MoM sp = np_MoM np /\ sp_MoMdepth sp = np_MoMdepth np).

Lemma np_step_inv sp sp' : np_step sp sp' -> np_inv sp -> np_inv sp'.
Proof.
  intros Hstep (Hall & Hsum & HMoM). destruct Hstep as [sp nHeight nh hash txid MoM depth Hnh | sp q | sp index].
  - unfold hush_notarized_update. destruct (nHeight <=? nh) eqn:E; [by repeat split|].
    apply Z.leb_gt in E. unfold np_inv; cbn. repeat split.
    + apply Forall_app. split; [done|]. constructor; [cbn; lia|constructor].
    + right. eexists. rewrite last_snoc. by repeat split.
    + right. eexists. rewrite last_snoc. by repeat split.
  - destruct (notarizeddata_state sp q) as [k ->]. by repeat split.
  - unfold hush_notarized_height. repeat case_match; cbn; repeat split; cbn; auto.
Qed.

(** In every state reached by recording notarizations and querying them, in
    any order and with any arguments, each checkpoint notarizes a block strictly
    below the block that confirmed it, and the state's summary
    ([NOTARIZED_HEIGHT], [NOTARIZED_HASH], ...) is that of the newest checkpoint
    or blank; the order of confirming heights is kept whenever a notarization is
    recorded at or above the last one. *)
Theorem checkpoints_well_formed (sp : hush_state) :
  rtc np_step init_state sp ->
  np_inv sp /\
  forall nHeight nh hash txid MoM depth,
    np_sorted (NPOINTS sp) -> Forall (fun np => np_nHeight np <= nHeight) (NPOINTS sp) ->
    np_sorted (NPOINTS (hush_notarized_update sp nHeight nh hash txid MoM depth)).
Proof.
  intros Hr. split.
  - assert (np_inv init_state) as Hi by (repeat split; [constructor|by left|by left]).
    induction Hr as [|x y z Hxy _ IH]; [done|]. apply IH. by eapply np_step_inv.
  - intros nHeight nh hash txid MoM depth Hs Hle. unfold hush_notarized_update.
    destruct (nHeight <=? nh); [done|]. cbn. apply StronglySorted_app_2; [|done|repeat constructor].
    rewrite Forall_forall in Hle. intros x y Hx Hy. apply list_elem_of_singleton in Hy as ->. by apply Hle.
Qed.

Definition demo_notarized : hush_state :=
  hush_notarized_update (hush_notarized_update init_state 10 5 (le_bytes 32 5) (le_bytes 32 6) zero256 0)
    20 15 (le_bytes 32 15) (le_bytes 32 16) zero256 0.

Lemma checkpoints_well_formed_witness :
  rtc np_step init_state demo_notarized /\ np_inv demo_notarized.
Proof.
  assert (H : rtc np_step init_state demo_notarized).
  { eapply rtc_l; [apply (step_update _ 10 5 (le_bytes 32 5) (le_bytes 32 6) zero256 0); lia|].
    eapply rtc_l; [apply (step_update _ 20 15 (le_bytes 32 15) (le_bytes 32 16) zero256 0); lia|].
    constructor. }
  split; [exact H|]. exact (proj1 (checkpoints_well_formed demo_notarized H)).
Defined.

Lemma confirmed_before_incl nHeight l np :
  np ∈ confirmed_before nHeight l -> np ∈ l /\ np_nHeight np < nHeight.
Proof.
  induction l as [|x l IH]; cbn; [by intros ?%not_elem_of_nil|].
  destruct (np_nHeight x <? nHeight) eqn:E; [|by intros ?%not_elem_of_nil]. apply Z.ltb_lt in E.
  rewrite elem_of_cons. intros [->|H]; [split; [left|done]|]. destruct (IH H). split; [by right|done].
Qed.

Lemma last_elem_of {A} (l : list A) x : last l = Some x -> x ∈ l.
Proof. intros H. apply last_Some in H as [l' ->]. apply elem_of_app. right. left. Qed.

(** [C6] Finality.  When the last notarized block below the tip is known to the
    block index at its height, [hush_checkpoint] accepts a block exactly if it
    is above the notarized height or is the notarized block itself: every
    block below, and every other block at that height, is refused with -1. *)
Theorem checkpoint_finality index tip sp np nHeight hash :
  np_inv sp -> np_sorted (NPOINTS sp) ->
  last (confirmed_before tip (NPOINTS sp)) = Some np ->
  index (np_notarized_hash np) = Some (np_notarized_height np) ->
  let '(ret, nh, _) := hush_checkpoint index (Some tip) sp nHeight hash in
  nh = Some (np_notarized_height np) /\
  ret = if bool_decide (np_notarized_height np < nHeight \/
                        (nHeight = np_notarized_height np /\ hash = np_notarized_hash np))
        then 0 else -1.
Proof.
  intros [Hinv _] Hs Hl Hidx. unfold hush_checkpoint.
  pose proof (notarizeddata_last_irrelevant sp tip Hs) as Hd. unfold notarized_ref in Hd. rewrite Hl in Hd.
  destruct (hush_notarizeddata sp tip) as [[[nh nhash] txid] sp']. cbn in Hd. injection Hd as -> -> ->.
  apply last_elem_of, confirmed_before_incl in Hl as [Hin Hlt].
  rewrite Forall_forall in Hinv. specialize (Hinv np Hin).
  split; [done|]. rewrite Hidx, Z.eqb_refl.
  rewrite (proj2 (Z.leb_le _ _)) by lia. rewrite (proj2 (Z.leb_le _ _)) by lia. cbn [andb].
  destruct (nHeight <? np_notarized_height np) eqn:E1.
  { apply Z.ltb_lt in E1. rewrite bool_decide_eq_false_2; [done|lia]. }
  apply Z.ltb_ge in E1. destruct (nHeight =? np_notarized_height np) eqn:E2; cbn [andb].
  - apply Z.eqb_eq in E2. destruct (bool_decide (hash = np_notarized_hash np)) eqn:E3; cbn [negb].
    + apply bool_decide_eq_true_1 in E3. rewrite bool_decide_eq_true_2; [done|]. by right.
    + apply bool_decide_eq_false_1 in E3. rewrite bool_decide_eq_false_2; [done|]. intros [?|[? ?]]; [lia|done].
  - apply Z.eqb_neq in E2. rewrite bool_decide_eq_true_2; [done|]. left. lia.
Qed.

Lemma checkpoint_finality_witness :
  (hush_checkpoint (fun h => Some (le_num h)) (Some 30) demo_notarized 14 (le_bytes 32 14)).1.1 = -1 /\
  (hush_checkpoint (fun h => Some (le_num h)) (Some 30) demo_notarized 15 (le_bytes 32 15)).1.1 = 0.
Proof.
  assert (Hi : np_inv demo_notarized).
  { do 2 (eapply np_step_inv; [apply step_update; lia|]). repeat split; [constructor|by left|by left]. }
  assert (Hs : np_sorted (NPOINTS demo_notarized)) by (repeat (constructor; unfold np_order; cbn; try lia)).
  pose proof (checkpoint_finality (fun h => Some (le_num h)) 30 demo_notarized
    (Checkpoint (le_bytes 32 15) (le_bytes 32 16) zero256 zero256 20 15 0 0 0 0 0)) as H.
  split; [pose proof (H 14 (le_bytes 32 14) Hi Hs eq_refl eq_refl) as H'
         |pose proof (H 15 (le_bytes 32 15) Hi Hs eq_refl eq_refl) as H'];
  vm_compute in H'; vm_compute; apply H'.
Defined.

(** ** Confirmations and Merkle ranges *)

(** [hush_dpowconfs] never reports more confirmations than the chain gives,
    and once a notarization has been seen it reports more than one only for
    transactions strictly below the last notarized height. *)
Theorem dpowconfs_capped dpow sp had txheight numconfs :
  let '(r, had') := hush_dpowconfs dpow sp had txheight numconfs in
  (r = numconfs \/ (r = 1 /\ 0 < numconfs)) /\
  (had = true -> had' = true) /\
  (dpow = true -> 0 < txheight -> had' = true -> 1 < r -> txheight < NOTARIZED_HEIGHT sp).
Proof.
  unfold hush_dpowconfs.
  destruct dpow, (0 <? txheight) eqn:E1, (0 <? numconfs) eqn:E2; cbn [andb]; try (repeat split; auto; lia).
  destruct (0 <? NOTARIZED_HEIGHT sp) eqn:E3, had, (txheight <? NOTARIZED_HEIGHT sp) eqn:E4;
    repeat split; auto; try lia; try discriminate; right; lia.
Qed.

(** [hush_MoM] hands out a Merkle root and notarization transaction only of
    a checkpoint that covers the height (the most recent one), and the depth it
    returns is that checkpoint's. *)
Theorem MoM_covers sp nHeight depth nh MoM txid :
  hush_MoM sp nHeight = (depth, nh, MoM, txid) -> nh <> 0 ->
  nh - depth < nHeight <= nh /\
  exists np, hush_npptr sp nHeight = Some np /\ np_covers nHeight np = true /\
    depth = Z.land (np_MoMdepth np) 0xffff /\ nh = np_notarized_height np /\
    MoM = np_MoM np /\ txid = np_notarized_desttxid np.
Proof.
  unfold hush_MoM, hush_MoMdata, hush_npptr, hush_npptr_for_height.
  destruct (npptr_loop nHeight (NPOINTS sp) (length (NPOINTS sp))) as [[np i]|] eqn:E; cbn;
    [|intros [= <- <- <- <-]; done].
  apply npptr_loop_spec in E as (_ & _ & Hc & _). intros H Hne.
  destruct (_ && _) eqn:Hb; [|by injection H as <- <- <- <-].
  injection H as <- <- <- <-. split; [lia|]. by exists np.
Qed.

Lemma MoM_covers_witness :
  let sp := hush_notarized_update init_state 20 15 (le_bytes 32 15) (le_bytes 32 16) (le_bytes 32 7) 0x10005 in
  15 - 5 < 12 <= 15.
Proof.
  intros sp. apply (MoM_covers sp 12 5 15 (le_bytes 32 7) (le_bytes 32 16)); [vm_compute; reflexivity|lia].
Defined.
