(* ===== verification/Notary.v ===== *)
(** * Notary nodes: seasons, key tables and the special notary of a block

    src/src/hush_notary.h from [gethushseason] to [hush_chosennotary] and
    [hush_init], with the constants of src/src/hush_defs.h and [hush_whoami] of
    src/src/hush_utils.h.  Function-local statics are explicit state.  The uthash
    table of a [knotaries_entry] is an association list with the last entry added
    first, which is the one [HASH_FIND] meets first. *)
From Stdlib Require Import String.
From S2P Require Import Prelude Encoding NotaryList.
Local Open Scope string_scope.
Local Open Scope list_scope.
Local Open Scope Z_scope.

(** ** Constants *)

Definition NUM_HUSH_SEASONS : nat := 7.
Definition NUM_HUSH_NOTARIES : nat := 64.
Definition HUSH_DPOW_GAP : Z := 2000.
Definition HUSH_MAXBLOCKS : Z := 250000.
Definition HUSH_NOTARIES_HARDCODED : Z := 180000.
Definition nHushHardforkHeight : Z := 166250.
Definition nHushHardforkHeight2 : Z := 245055.
Definition nHushHardforkHeight3 : Z := 340420.
Definition nHushHardforkHeight4 : Z := 1605555.
Definition nHushHardforkTimestamp : Z := 1580303652.
Definition nHushHardforkTimestamp2 : Z := 1594425600.

(** The products are computed in [uint32_t]. *)
Definition HUSH_SEASON_TIMESTAMPS : list Z :=
  [1525132800; 1563148800; nHushHardforkTimestamp; nHushHardforkTimestamp2;
   u32 (nHushHardforkTimestamp2 * 5); u32 (nHushHardforkTimestamp2 * 6);
   u32 (nHushHardforkTimestamp2 * 7)].

Definition HUSH_SEASON_HEIGHTS : list Z :=
  [1; 2; nHushHardforkHeight; nHushHardforkHeight2; 340000; nHushHardforkHeight3; nHushHardforkHeight4].

(** ** Seasons *)

(** [strncmp(SMART_CHAIN_SYMBOL,lit,strlen(lit)) == 0]. *)
Definition has_prefix (lit : list Z) (symbol : list Z) : bool :=
  bool_decide (take (length lit) symbol = lit).
Definition is_tush (symbol : list Z) : bool := has_prefix [84; 85; 83; 72] symbol.
Definition is_hush3 (symbol : list Z) : bool := has_prefix [72; 85; 83; 72; 51] symbol.

(** The loop [for (i = 1; i < NUM_HUSH_SEASONS; i++)] of both functions. *)
Fixpoint season_loop (x : Z) (prev : Z) (bounds : list Z) (i : Z) : Z :=
  match bounds with
  | [] => 0
  | b :: bounds => if (x <=? b) && (prev <? x) then i + 1 else season_loop x b bounds (i + 1)
  end.

Definition season_of (x : Z) (bounds : list Z) : Z :=
  match bounds with
  | [] => 0
  | b :: rest => if x <=? b then 1 else season_loop x b rest 1
  end.

(** [nHushHardforkHeight3] is unsigned, so its comparison with [height] is. *)
Definition gethushseason (symbol : list Z) (height : Z) : Z :=
  if is_tush symbol then 7
  else if nHushHardforkHeight3 <? u32 height then 7
  else season_of height HUSH_SEASON_HEIGHTS.

Definition getacseason (timestamp : Z) : Z := season_of timestamp HUSH_SEASON_TIMESTAMPS.

(** ** The key tables *)

(** The decoded keys of one season. *)
Definition decode_season (l : list (string * string)) : list (list Z) :=
  map (fun e => (decode_hex 33 (cstr e.2)).1) l.

(** [hush_pubkeys] and [didinit] of [hush_notaries], and [NOTARY_ADDRESSES]. *)
Record notary_cache := NotaryCache {
  nc_pubkeys : list (list (list Z));
  nc_didinit : list bool;
  nc_addresses : list (list (list Z))
}.

Definition nc_init : notary_cache :=
  NotaryCache (replicate 7 (replicate 64 (replicate 33 0))) (replicate 7 false)
    (replicate 7 (replicate 64 [])).

Section Chain.

(** The symbol of the chain, [ASSETCHAINS_PRIVATE], the wallet's [pubkey2addr]
    and the time stamp of the active chain's block at a height. *)
Context (SMART_CHAIN_SYMBOL : list Z) (ASSETCHAINS_PRIVATE : bool)
        (pubkey2addr : list Z -> list Z) (hush_heightstamp : Z -> Z).

Definition notaries_season (height timestamp : Z) : Z :=
  let timestamp :=
    if (timestamp =? 0) && negb (rd SMART_CHAIN_SYMBOL 0 =? 0) then hush_heightstamp height
    else if rd SMART_CHAIN_SYMBOL 0 =? 0 then 0
    else timestamp in
  if is_hush3 SMART_CHAIN_SYMBOL || is_tush SMART_CHAIN_SYMBOL
  then gethushseason SMART_CHAIN_SYMBOL height else getacseason timestamp.

(** The keys copied out and the return value; [None] leaves [pubkeys] alone. *)
Definition hush_notaries (c : notary_cache) (height timestamp : Z)
  : option (list (list Z)) * Z * notary_cache :=
  let season := notaries_season height timestamp in
  if negb (season =? 0) then
    let i := Z.to_nat (season - 1) in
    let c :=
      if nth i (nc_didinit c) false then c
      else
        let keys := decode_season (nth i notaries_list []) in
        NotaryCache (<[i := keys]> (nc_pubkeys c)) (<[i := true]> (nc_didinit c))
          (if ASSETCHAINS_PRIVATE then <[i := map pubkey2addr keys]> (nc_addresses c)
           else nc_addresses c) in
    (Some (nth i (nc_pubkeys c) []), Z.of_nat NUM_HUSH_NOTARIES, c)
  else (None, -1, c).

(** The loop of [hush_findnotary]. *)
Fixpoint find_key (pubkey33 : list Z) (pubkeys : list (list Z)) (i : Z) : Z :=
  match pubkeys with
  | [] => -1
  | k :: pubkeys => if bool_decide (take 33 pubkey33 = k) then i else find_key pubkey33 pubkeys (i + 1)
  end.

(** The index found, [*numnotariesp] and the cache. *)
Definition hush_findnotary (c : notary_cache) (pubkey33 : list Z) (height timestamp : Z)
  : Z * Z * notary_cache :=
  match hush_notaries c height timestamp with
  | (Some pubkeys, n, c) => (find_key pubkey33 (take (Z.to_nat n) pubkeys) 0, n, c)
  | (None, n, c) => (-1, n, c)
  end.

(** ** The activation table [Pubkeys] *)

Record knotaries_entry := KNotaries {
  kn_height : Z;
  kn_numnotaries : Z;
  kn_Notaries : list (list Z * Z)       (* pubkey, notaryid *)
}.

Record notary_state := NotaryState {
  Pubkeys : option (list knotaries_entry);
  hwmheight : Z;                        (* static of hush_notarysinit *)
  ns_didinit : bool;                    (* static of hush_init *)
  NOTARY_PUBKEY33 : list Z
}.

Definition num_gaps : nat := Z.to_nat (HUSH_MAXBLOCKS / HUSH_DPOW_GAP).

Definition notarysinit_htind (origheight : Z) : nat :=
  if 0 <? origheight then
    let height := (Z.quot (origheight + HUSH_DPOW_GAP / 2) HUSH_DPOW_GAP + 1) * HUSH_DPOW_GAP in
    let htind := height / HUSH_DPOW_GAP in
    Z.to_nat (if HUSH_MAXBLOCKS / HUSH_DPOW_GAP <=? htind then HUSH_MAXBLOCKS / HUSH_DPOW_GAP - 1 else htind)
  else 0%nat.

(** The loop that builds [N.Notaries]. *)
Fixpoint add_keys (pubkeys : list (list Z)) (k : Z) (acc : list (list Z * Z)) : list (list Z * Z) :=
  match pubkeys with
  | [] => acc
  | p :: pubkeys => add_keys pubkeys (k + 1) ((take 33 p, u8 k) :: acc)
  end.

(** The loop that copies [N] into the table, with its [break]. *)
Fixpoint fill_pubkeys (tab : list knotaries_entry) (n : knotaries_entry) (old : bool) (i fuel : nat)
  : list knotaries_entry :=
  match fuel with
  | O => tab
  | S fuel =>
    match tab !! i with
    | Some e =>
      if negb (kn_height e =? 0) && old then tab
      else fill_pubkeys (<[i := KNotaries (Z.of_nat i * HUSH_DPOW_GAP) (kn_numnotaries n) (kn_Notaries n)]> tab)
             n old (S i) fuel
    | None => tab
    end
  end.

Definition hush_notarysinit (s : notary_state) (origheight : Z) (pubkeys : list (list Z)) (num : nat)
  : notary_state :=
  let tab := match Pubkeys s with
             | Some t => t
             | None => replicate (1 + num_gaps) (KNotaries 0 0 [])
             end in
  let htind := notarysinit_htind origheight in
  let n := KNotaries 0 (Z.of_nat num) (add_keys (take num pubkeys) 0 []) in
  let tab := fill_pubkeys tab n (origheight <? hwmheight s) htind (num_gaps - htind) in
  NotaryState (Some tab) (if hwmheight s <? origheight then origheight else hwmheight s)
    (ns_didinit s) (NOTARY_PUBKEY33 s).

(** [hush_init]; [NOTARY_PUBKEY] is the configured key as a C string, [stateupdate]
    the closing call [hush_stateupdate(0,...,0)] on the rest of the node. *)
Definition hush_init {W} (stateupdate : W -> W) (NOTARY_PUBKEY : list Z) (height : Z)
  (s : notary_state) (w : W) : notary_state * W :=
  if ns_didinit s then (s, w)
  else
    let s := NotaryState (Pubkeys s) (hwmheight s) true (decode_hex 33 NOTARY_PUBKEY).1 in
    let s := if 0 <=? height
             then hush_notarysinit s 0 (decode_season Notaries_genesis) (length Notaries_genesis)
             else s in
    (s, stateupdate w).

(** [hush_chosennotary]: -1 if not a notary, 0 if a notary, 1 if it is the
    special notary of the block; [*notaryidp]; the states. *)
Definition hush_chosennotary {W} (stateupdate : W -> W) (NOTARY_PUBKEY : list Z)
  (c : notary_cache) (s : notary_state) (w : W) (height : Z) (pubkey33 : list Z) (timestamp : Z)
  : Z * Z * (notary_cache * notary_state * W) :=
  if height <? 0 then (-1, -1, (c, s, w))
  else
    let '(found, notaryid, c) :=
      if (HUSH_NOTARIES_HARDCODED <=? height) || negb (rd SMART_CHAIN_SYMBOL 0 =? 0) then
        let '(id, num, c) := hush_findnotary c pubkey33 height timestamp in
        if (0 <=? id) && negb (num =? 0)
        then (Some (if Z.rem height num =? id then 1 else 0), id, c)
        else (None, id, c)
      else (None, -1, c) in
    match found with
    | Some modval => (modval, notaryid, (c, s, w))
    | None =>
      if 250000 <=? height then (-1, notaryid, (c, s, w))
      else
        let '(s, w) := match Pubkeys s with
                       | None => hush_init stateupdate NOTARY_PUBKEY 0 s w
                       | Some _ => (s, w)
                       end in
        let htind := Z.quot height HUSH_DPOW_GAP in
        let htind := if HUSH_MAXBLOCKS / HUSH_DPOW_GAP <=? htind then HUSH_MAXBLOCKS / HUSH_DPOW_GAP - 1 else htind in
        let e := nth (Z.to_nat htind) (default [] (Pubkeys s)) (KNotaries 0 0 []) in
        match list_find (fun p => p.1 = take 33 pubkey33) (kn_Notaries e) with
        | Some (_, (_, id)) =>
          if 0 <? kn_numnotaries e
          then (if Z.rem height (kn_numnotaries e) =? id then 1 else 0, id, (c, s, w))
          else (-1, notaryid, (c, s, w))
        | None => (-1, notaryid, (c, s, w))
        end
    end.

(** [hush_whoami]: the hexadecimal string written and the notary id. *)
Definition hush_whoami {W} (stateupdate : W -> W) (NOTARY_PUBKEY : list Z)
  (c : notary_cache) (s : notary_state) (w : W) (height timestamp : Z) : list Z * Z :=
  (concat (map (fun b => [hexbyte (Z.shiftr b 4); hexbyte b]) (NOTARY_PUBKEY33 s)) ++ [0],
   (hush_chosennotary stateupdate NOTARY_PUBKEY c s w height (NOTARY_PUBKEY33 s) timestamp).1.2).

End Chain.

(** ** Seasons *)

(** Every 32-bit height has a season between 1 and 7: the season never
    decreases with a nonnegative height, is 7 beyond the third hard fork (the
    last bound of the table is never consulted) and always on TUSH; a negative
    height, which the unsigned comparison turns into a huge one, is in season 7. *)
Theorem gethushseason_total (symbol : list Z) (h1 h2 : Z) :
  is_s32 h1 -> is_s32 h2 ->
  1 <= gethushseason symbol h1 <= 7 /\
  (0 <= h1 <= h2 -> gethushseason symbol h1 <= gethushseason symbol h2) /\
  (h1 < 0 \/ nHushHardforkHeight3 < h1 \/ is_tush symbol = true -> gethushseason symbol h1 = 7).
Proof.
  unfold gethushseason, season_of, HUSH_SEASON_HEIGHTS, season_loop, nHushHardforkHeight3,
    nHushHardforkHeight, nHushHardforkHeight2, nHushHardforkHeight4, u32.
  intros H1 H2. unfold_ranges. destruct (is_tush symbol); [lia|].
  assert (E : forall h, -2147483648 <= h < 2147483648 ->
    h mod 2 ^ 32 = if h <? 0 then h + 2 ^ 32 else h).
  { intros h Hh. destruct (h <? 0) eqn:E.
    - symmetry. apply (Z.mod_unique_pos _ _ (-1)); lia.
    - apply Z.mod_small. lia. }
  rewrite !E by lia. destruct (Z.ltb_spec h1 0), (Z.ltb_spec h2 0); repeat split; bdestruct_all; cbn; lia.
Qed.

Lemma gethushseason_total_witness :
  1 <= gethushseason (chars "HUSH3") 340000 <= 7 /\ gethushseason (chars "HUSH3") (-1) = 7.
Proof.
  split; [apply (gethushseason_total (chars "HUSH3") 340000 340001) |
          apply (gethushseason_total (chars "HUSH3") (-1) 5)]; try (unfold_ranges; lia).
Defined.

(** ** The decoded tables *)

Definition season_keys (season : Z) : list (list Z) :=
  decode_season (nth (Z.to_nat (season - 1)) notaries_list []).

Definition zero_key : list Z := replicate 33 0.

(** A compressed public key: 33 bytes, the first 2 or 3. *)
Definition compressed (k : list Z) : bool :=
  (length k =? 33)%nat && ((rd k 0 =? 2) || (rd k 0 =? 3)) && bool_decide (bytes_ok k).

Lemma season_keys_length s : 1 <= s <= 7 -> length (season_keys s) = 64%nat.
Proof.
  intros Hs. unfold season_keys, decode_season. rewrite length_map.
  assert (s = 1 \/ s = 2 \/ s = 3 \/ s = 4 \/ s = 5 \/ s = 6 \/ s = 7) as H by lia.
  destruct_or! H; subst s; reflexivity.
Qed.

Lemma season_keys_unused s : 1 <= s <= 5 -> season_keys s = replicate 64 zero_key.
Proof.
  intros Hs. assert (s = 1 \/ s = 2 \/ s = 3 \/ s = 4 \/ s = 5) as H by lia.
  destruct_or! H; subst s; vm_compute; reflexivity.
Qed.

Lemma season_keys_67 s : s = 6 \/ s = 7 ->
  NoDup (season_keys s) /\ Forall (fun k => compressed k = true) (season_keys s).
Proof.
  intros [-> | ->]; split;
    (apply (bool_decide_eq_true_1 _); vm_compute; reflexivity).
Qed.

Lemma find_key_range p l i : find_key p l i = -1 \/ i <= find_key p l i < i + Zlen l.
Proof.
  revert i. induction l as [|k l IH]; intros i; cbn [find_key]; [by left|].
  unfold Zlen in *. cbn [length]. case_bool_decide; [right; lia|].
  destruct (IH (i + 1)); [by left|right; lia].
Qed.

Lemma find_key_lookup p l i j :
  find_key p l i = i + Z.of_nat j -> 0 <= i -> l !! j = Some (take 33 p).
Proof.
  revert i j. induction l as [|k l IH]; intros i j; cbn [find_key]; [lia|].
  case_bool_decide as E; intros H Hi.
  - replace j with 0%nat by lia. cbn. by rewrite E.
  - destruct j as [|j].
    + destruct (find_key_range p l (i + 1)); lia.
    + cbn. apply (IH (i + 1)); lia.
Qed.

Lemma find_key_nodup p l i j :
  NoDup l -> l !! j = Some (take 33 p) -> find_key p l i = i + Z.of_nat j.
Proof.
  intros Hd. revert i j. induction Hd as [|k l Hk Hd IH]; intros i j Hj; [done|].
  cbn [find_key]. destruct j as [|j]; cbn in Hj.
  - injection Hj as ->. rewrite bool_decide_eq_true_2 by done. lia.
  - rewrite bool_decide_eq_false_2.
    + rewrite (IH (i + 1) j Hj). lia.
    + intros <-. apply Hk. by eapply list_elem_of_lookup_2.
Qed.

Lemma find_key_none p l i : 0 <= i -> find_key p l i = -1 <-> ~ take 33 p ∈ l.
Proof.
  intros Hi. split.
  - intros H Hin. revert i Hi H. induction l as [|k l IH]; intros i Hi; cbn [find_key];
      [by apply not_elem_of_nil in Hin|].
    case_bool_decide as E; [lia|]. apply elem_of_cons in Hin as [Heq|Hin]; [done|].
    apply (IH Hin (i + 1)). lia.
  - intros Hn. destruct (find_key_range p l i) as [|Hr]; [done|]. exfalso. apply Hn.
    eapply list_elem_of_lookup_2, (find_key_lookup p l i (Z.to_nat (find_key p l i - i))); lia.
Qed.

(** ** The cache *)

Definition cache_ok (c : notary_cache) : Prop :=
  length (nc_pubkeys c) = 7%nat /\ length (nc_didinit c) = 7%nat /\
  forall i, (i < 7)%nat -> nc_didinit c !! i = Some true ->
    nc_pubkeys c !! i = Some (season_keys (Z.of_nat i + 1)).

Lemma cache_ok_init : cache_ok nc_init.
Proof.
  repeat split. intros i Hi. cbn [nc_didinit nc_init]. rewrite lookup_replicate_2 by done. done.
Qed.

Section ChainLemmas.
Context (symbol : list Z) (priv : bool) (p2a : list Z -> list Z) (stamp : Z -> Z).

Lemma notaries_season_range height timestamp :
  is_s32 height -> 0 <= notaries_season symbol stamp height timestamp <= 7.
Proof.
  intros Hh. unfold notaries_season. destruct (_ || _).
  - unfold gethushseason, season_of, HUSH_SEASON_HEIGHTS, season_loop. repeat case_match; lia.
  - unfold getacseason, season_of, HUSH_SEASON_TIMESTAMPS, season_loop. repeat case_match; lia.
Qed.

Lemma hush_notaries_spec c height timestamp :
  is_s32 height -> cache_ok c ->
  let s := notaries_season symbol stamp height timestamp in
  exists c', cache_ok c' /\
    hush_notaries symbol priv p2a stamp c height timestamp =
    if s =? 0 then (None, -1, c') else (Some (season_keys s), 64, c').
Proof.
  intros Hh (Hp & Hd & Hc) s. unfold hush_notaries. fold s.
  pose proof (notaries_season_range height timestamp Hh) as Hr. fold s in Hr.
  destruct (Z.eqb_spec s 0); cbn [negb]; [by exists c|].
  set (i := Z.to_nat (s - 1)).
  assert (Hi : (i < 7)%nat) by lia.
  assert (Hs : Z.of_nat i + 1 = s) by lia.
  destruct (nth i (nc_didinit c) false) eqn:E.
  - exists c. split; [done|]. do 2 f_equal.
    assert (nc_didinit c !! i = Some true).
    { destruct (nc_didinit c !! i) eqn:E2; [|apply lookup_ge_None in E2; lia].
      apply nth_lookup_Some with (d := false) in E2. congruence. }
    f_equal. rewrite <- Hs. apply nth_lookup_Some, Hc; done.
  - eexists. split; [|cbn [nc_pubkeys]; rewrite (nth_lookup_Some _ i [] (season_keys s));
      [reflexivity|by rewrite list_lookup_insert_eq by lia]].
    repeat split; cbn; rewrite ?length_insert; [done|done|].
    intros j Hj. destruct (decide (j = i)) as [->|].
    + intros _. rewrite list_lookup_insert_eq by lia. by rewrite Hs.
    + rewrite !list_lookup_insert_ne by done. by apply Hc.
Qed.

(** [hush_findnotary] in terms of the season's table. *)
Lemma hush_findnotary_spec c pubkey height timestamp :
  is_s32 height -> cache_ok c ->
  let s := notaries_season symbol stamp height timestamp in
  exists c', cache_ok c' /\
    hush_findnotary symbol priv p2a stamp c pubkey height timestamp =
    if s =? 0 then (-1, -1, c') else (find_key pubkey (season_keys s) 0, 64, c').
Proof.
  intros Hh Hok s. destruct (hush_notaries_spec c height timestamp Hh Hok) as (c' & Hok' & E).
  fold s in E. unfold hush_findnotary. rewrite E. exists c'. split; [done|].
  pose proof (notaries_season_range height timestamp Hh) as Hr. fold s in Hr.
  destruct (Z.eqb_spec s 0); [done|]. rewrite firstn_all2; [done|].
  rewrite season_keys_length by lia. lia.
Qed.

End ChainLemmas.

(** ** Identity and rotation of the notaries *)

Definition HUSH3 : list Z := chars "HUSH3".

Lemma season_hush3 stamp height timestamp :
  is_s32 height -> 340000 < height ->
  notaries_season HUSH3 stamp height timestamp = if height <=? 340420 then 6 else 7.
Proof.
  intros H1 H2. unfold notaries_season. change (is_hush3 HUSH3) with true. cbn [orb].
  unfold gethushseason, season_of, HUSH_SEASON_HEIGHTS, season_loop, nHushHardforkHeight3,
    nHushHardforkHeight, nHushHardforkHeight2, nHushHardforkHeight4, u32. unfold_ranges.
  change (is_tush HUSH3) with false. cbv iota. rewrite Z.mod_small by lia. bdestruct_all; cbn; lia.
Qed.

(** On HUSH3 above block 340000 the season's table holds 64 distinct
    compressed keys, and [hush_findnotary] is its inverse for every cache state:
    the key of notary [id] is found as [id], and whatever key is found as [id] is
    that entry; unknown keys give -1. *)
Theorem findnotary_inverts_table priv p2a stamp c height timestamp :
  is_s32 height -> 340000 < height -> cache_ok c ->
  let s := notaries_season HUSH3 stamp height timestamp in
  let find p := hush_findnotary HUSH3 priv p2a stamp c p height timestamp in
  length (season_keys s) = 64%nat /\ NoDup (season_keys s) /\
  Forall (fun k => compressed k = true) (season_keys s) /\
  forall p, length p = 33%nat ->
    (find p).1.2 = 64 /\ cache_ok (find p).2 /\
    (forall id, (find p).1.1 = Z.of_nat id <-> season_keys s !! id = Some p) /\
    ((find p).1.1 = -1 <-> ~ p ∈ season_keys s).
Proof.
  intros Hh Hlo Hok s find.
  assert (Hs : s = 6 \/ s = 7) by (unfold s; rewrite season_hush3 by done; destruct (_ <=? _); lia).
  destruct (season_keys_67 s Hs) as [Hnd Hc].
  split; [apply season_keys_length; lia|]. split; [done|]. split; [done|].
  intros p Hp. destruct (hush_findnotary_spec HUSH3 priv p2a stamp c p height timestamp Hh Hok)
    as (c' & Hok' & E). fold s in E. unfold find. rewrite E. clear E find.
  destruct (Z.eqb_spec s 0); [lia|]. cbn [fst snd].
  assert (Ht : take 33 p = p) by (rewrite firstn_all2; [done|lia]).
  split; [done|]. split; [done|]. split.
  - intros id. split; intros H.
    + rewrite <- Ht. apply (find_key_lookup p _ 0); lia.
    + rewrite (find_key_nodup p _ 0 id Hnd); [done|by rewrite Ht].
  - rewrite find_key_none by lia. by rewrite Ht.
Qed.

Lemma findnotary_inverts_table_witness :
  (hush_findnotary HUSH3 false (fun k => k) (fun _ => 0) nc_init
     (nth 3 (season_keys 6) []) 340001 0).1.1 = 3.
Proof.
  pose proof (findnotary_inverts_table false (fun k => k) (fun _ => 0) nc_init 340001 0) as H.
  destruct H as (_ & _ & _ & H); [unfold_ranges; lia|lia|apply cache_ok_init|].
  destruct (H (nth 3 (season_keys 6) [])) as (_ & _ & H3 & _); [vm_compute; reflexivity|].
  apply (H3 3%nat). vm_compute. reflexivity.
Defined.

(** Above block 340000 of HUSH3 each block has exactly one special notary:
    [hush_chosennotary] answers 1 for the key at position [height mod 64] of the
    season's table and for no other key, 0 for the other 63 notaries and -1 for
    everybody else; the id it stores is the position of the key. *)
Theorem special_notary_unique {W} (upd : W -> W) cfg priv p2a stamp c ns w height timestamp p :
  is_s32 height -> 340000 < height -> cache_ok c -> length p = 33%nat ->
  let s := notaries_season HUSH3 stamp height timestamp in
  let '(r, id, _) := hush_chosennotary HUSH3 priv p2a stamp upd cfg c ns w height p timestamp in
  (r = 1 <-> season_keys s !! Z.to_nat (height mod 64) = Some p) /\
  (r = -1 <-> ~ p ∈ season_keys s) /\ (r = -1 \/ r = 0 \/ r = 1) /\
  (0 <= r -> season_keys s !! Z.to_nat id = Some p).
Proof.
  intros Hh Hlo Hok Hp s. unfold hush_chosennotary.
  assert (Hs : s = 6 \/ s = 7) by (unfold s; rewrite season_hush3 by done; destruct (_ <=? _); lia).
  destruct (season_keys_67 s Hs) as [Hnd _].
  destruct (hush_findnotary_spec HUSH3 priv p2a stamp c p height timestamp Hh Hok) as (c' & Hok' & E).
  fold s in E. rewrite E. clear E. destruct (Z.eqb_spec s 0); [lia|]. unfold_ranges.
  rewrite (proj2 (Z.ltb_ge height 0)) by lia.
  rewrite (proj2 (Z.leb_le HUSH_NOTARIES_HARDCODED height)) by (unfold HUSH_NOTARIES_HARDCODED; lia).
  rewrite (proj2 (Z.leb_le 250000 height)) by lia. cbn [orb].
  assert (Ht : take 33 p = p) by (rewrite firstn_all2; [done|lia]).
  rewrite Z.rem_mod_nonneg by lia.
  assert (Hm : 0 <= height mod 64 < 64) by (apply Z.mod_pos_bound; lia).
  destruct (find_key_range p (season_keys s) 0) as [Hf | Hf].
  - rewrite Hf. change (0 <=? -1) with false. cbn [andb]. apply find_key_none in Hf; [|lia]. rewrite Ht in Hf.
    repeat split; try lia; try done; auto.
    intros H. exfalso. apply Hf. by eapply list_elem_of_lookup_2.
  - set (id := find_key p (season_keys s) 0) in *.
    assert (Hl : season_keys s !! Z.to_nat id = Some p)
      by (rewrite <- Ht; apply (find_key_lookup p _ 0); lia).
    rewrite (proj2 (Z.leb_le 0 id)) by lia. change (negb (64 =? 0)) with true. cbn [andb].
    assert (p ∈ season_keys s) by (by eapply list_elem_of_lookup_2).
    destruct (Z.eqb_spec (height mod 64) id) as [->|Hne].
    + repeat split; try lia; try done; auto.
    + repeat split; try lia; try done; auto.
      intros H'. pose proof (NoDup_lookup _ _ _ _ Hnd H' Hl). lia.
Qed.

Lemma special_notary_unique_witness :
  (hush_chosennotary HUSH3 false (fun k => k) (fun _ => 0) (fun w : unit => w) [] nc_init
     (NotaryState None 0 false []) tt 500000 (nth 32 (season_keys 7) []) 0).1.1 = 1.
Proof.
  pose proof (special_notary_unique (fun w : unit => w) [] false (fun k => k) (fun _ => 0) nc_init
    (NotaryState None 0 false []) tt 500000 0 (nth 32 (season_keys 7) [])) as H.
  assert (A1 : is_s32 500000) by (unfold_ranges; lia).
  specialize (H A1 ltac:(lia) cache_ok_init ltac:(vm_compute; reflexivity)).
  cbv zeta in H.
  destruct (hush_chosennotary _ _ _ _ _ _ _ _ _ _ _ _) as [[r id] st]. cbn [fst].
  apply (proj1 H). vm_compute. reflexivity.
Defined.

Lemma getacseason_range timestamp : is_u 32 timestamp ->
  getacseason timestamp = 0 \/ 1 <= getacseason timestamp <= 5.
Proof.
  unfold is_u, getacseason, season_of. intros H.
  change HUSH_SEASON_TIMESTAMPS with [1525132800; 1563148800; 1580303652; 1594425600;
    3677160704; 976619008; 2571044608].
  unfold season_loop. bdestruct_all; cbn; lia.
Qed.

(** Chains other than HUSH3 and TUSH select their season by time stamp, but
    the bounds of seasons 6 and 7, computed in 32 bits, wrap around below those
    before them: no time stamp is in a season that has real keys, so on such a
    chain no public key other than 33 zero bytes is ever a notary, and after
    time 3677160704 there are no notaries at all. *)
Theorem timestamp_chains_have_no_notaries symbol priv p2a stamp c height timestamp p :
  is_s32 height -> is_u 32 timestamp -> is_u 32 (stamp height) -> cache_ok c ->
  is_hush3 symbol = false -> is_tush symbol = false -> length p = 33%nat ->
  let '(id, num, _) := hush_findnotary symbol priv p2a stamp c p height timestamp in
  (id = -1 \/ (id = 0 /\ p = zero_key)) /\
  (3677160704 < timestamp -> rd symbol 0 <> 0 -> num = -1).
Proof.
  intros Hh Ht Hst Hok H3 Htu Hp.
  destruct (hush_findnotary_spec symbol priv p2a stamp c p height timestamp Hh Hok) as (c' & _ & E).
  rewrite E. clear E. set (s := notaries_season symbol stamp height timestamp).
  assert (Hs : s = 0 \/ 1 <= s <= 5).
  { unfold s, notaries_season. rewrite H3, Htu. cbn [orb]. apply getacseason_range.
    destruct (_ && _); [done|]. destruct (rd symbol 0 =? 0); [|done]. unfold is_u. lia. }
  assert (Hlate : 3677160704 < timestamp -> rd symbol 0 <> 0 -> s = 0).
  { intros Hl Hr. unfold s, notaries_season. rewrite H3, Htu. cbn [orb].
    rewrite (proj2 (Z.eqb_neq timestamp 0)) by lia. rewrite (proj2 (Z.eqb_neq (rd symbol 0) 0)) by done.
    cbn [andb]. unfold is_u, getacseason, season_of in *.
    change HUSH_SEASON_TIMESTAMPS with [1525132800; 1563148800; 1580303652; 1594425600;
      3677160704; 976619008; 2571044608].
    unfold season_loop. bdestruct_all; cbn; lia. }
  destruct (Z.eqb_spec s 0) as [E|E]; [split; [by left|done]|].
  split; [|intros Hl Hr; specialize (Hlate Hl Hr); lia].
  assert (take 33 p = p) as Htk by (rewrite firstn_all2; [done|lia]).
  rewrite (season_keys_unused s) by lia. destruct (decide (p = zero_key)) as [->|Ez].
  - right. split; [vm_compute; reflexivity|done].
  - left. apply find_key_none; [lia|]. rewrite Htk, elem_of_replicate. by intros [? _].
Qed.

Lemma timestamp_chains_have_no_notaries_witness :
  let '(id, num, _) := hush_findnotary (chars "DRAGONX") false (fun k => k) (fun _ => 1700000000)
                         nc_init (nth 0 (season_keys 7) []) 1000 0 in
  id = -1 \/ (id = 0 /\ nth 0 (season_keys 7) [] = zero_key).
Proof.
  pose proof (timestamp_chains_have_no_notaries (chars "DRAGONX") false (fun k => k)
    (fun _ => 1700000000) nc_init 1000 0 (nth 0 (season_keys 7) [])
    ltac:(unfold_ranges; lia) ltac:(unfold is_u; lia) ltac:(unfold is_u; lia) cache_ok_init
    ltac:(vm_compute; reflexivity) ltac:(vm_compute; reflexivity) ltac:(vm_compute; reflexivity)) as H.
  destruct (hush_findnotary _ _ _ _ _ _ _ _) as [[id num] c]. exact (proj1 H).
Defined.

(** ** The activation table *)

Definition pubkeys_entry (i : nat) (n : knotaries_entry) : knotaries_entry :=
  KNotaries (Z.of_nat i * HUSH_DPOW_GAP) (kn_numnotaries n) (kn_Notaries n).

Lemma fill_pubkeys_fresh tab n i fuel j :
  (i + fuel <= length tab)%nat ->
  fill_pubkeys tab n false i fuel !! j =
  if decide (i <= j < i + fuel)%nat then Some (pubkeys_entry j n) else tab !! j.
Proof.
  revert tab i. induction fuel as [|fuel IH]; intros tab i Hl; cbn [fill_pubkeys].
  { rewrite decide_False by lia. done. }
  destruct (tab !! i) eqn:E; [|apply lookup_ge_None in E; lia].
  rewrite andb_false_r. rewrite IH by (rewrite length_insert; lia).
  destruct (decide (S i <= j < S i + fuel)%nat); [by rewrite decide_True by lia|].
  destruct (decide (j = i)) as [->|].
  - rewrite list_lookup_insert_eq by lia. by rewrite decide_True by lia.
  - rewrite list_lookup_insert_ne by done. by rewrite decide_False by lia.
Qed.

Lemma length_fill_pubkeys tab n old i fuel : length (fill_pubkeys tab n old i fuel) = length tab.
Proof.
  revert tab i. induction fuel as [|fuel IH]; intros; cbn [fill_pubkeys]; [done|].
  repeat case_match; [done| |done]. by rewrite IH, length_insert.
Qed.

Lemma add_keys_app l k acc : add_keys l k acc = add_keys l k [] ++ acc.
Proof.
  revert k acc. induction l as [|p l IH]; intros k acc; cbn; [done|].
  rewrite IH. rewrite (IH _ [_]). by rewrite <- app_assoc.
Qed.

Lemma add_keys_elem l k p id :
  (p, id) ∈ add_keys l k [] <-> exists j q, l !! j = Some q /\ p = take 33 q /\ id = u8 (k + Z.of_nat j).
Proof.
  revert k. induction l as [|x l IH]; intros k; cbn [add_keys].
  { split; [by intros ?%not_elem_of_nil|intros (j & q & ? & _); done]. }
  rewrite add_keys_app, elem_of_app, IH, list_elem_of_singleton. split.
  - intros [(j & q & Hj & -> & ->) | [= -> ->]].
    + exists (S j), q. repeat split; [done|f_equal; lia].
    + exists 0%nat, x. repeat split. f_equal; lia.
  - intros ([|j] & q & Hj & -> & ->); cbn in Hj.
    + right. injection Hj as ->. do 2 f_equal. lia.
    + left. exists j, q. repeat split; [done|f_equal; lia].
Qed.

(** Registering a set of notaries at a height at or above the highest one
    so far makes it the active set of every 2000-block slot from the activation
    slot on, and leaves the sets of the earlier slots as they were; the
    activation slot starts after the registering block, and at most one and a
    half gaps after it. *)
Theorem notarysinit_activation s tab origheight pubkeys num j :
  Pubkeys s = Some tab -> length tab = (1 + num_gaps)%nat ->
  hwmheight s <= origheight -> 0 < origheight < HUSH_MAXBLOCKS - 3 * HUSH_DPOW_GAP ->
  (num <= 64)%nat -> (num <= length pubkeys)%nat -> (j < num_gaps)%nat ->
  exists tab', Pubkeys (hush_notarysinit s origheight pubkeys num) = Some tab' /\
    length tab' = length tab /\ hwmheight (hush_notarysinit s origheight pubkeys num) = origheight /\
    let act := Z.of_nat (notarysinit_htind origheight) * HUSH_DPOW_GAP in
    origheight < act <= origheight + 3 * HUSH_DPOW_GAP / 2 /\
    if decide (notarysinit_htind origheight <= j)%nat
    then exists e, tab' !! j = Some e /\ kn_height e = Z.of_nat j * HUSH_DPOW_GAP /\
           kn_numnotaries e = Z.of_nat num /\
           forall p id, (p, id) ∈ kn_Notaries e <->
             exists k q, (k < num)%nat /\ pubkeys !! k = Some q /\ p = take 33 q /\ id = Z.of_nat k
    else tab' !! j = tab !! j.
Proof.
  intros Ht Hlen Hw Ho Hn Hpk Hj. unfold hush_notarysinit. rewrite Ht.
  rewrite (proj2 (Z.ltb_ge origheight (hwmheight s))) by lia. cbn [Pubkeys hwmheight].
  eexists. split; [reflexivity|].
  assert (Hact : let act := Z.of_nat (notarysinit_htind origheight) * HUSH_DPOW_GAP in
    origheight < act <= origheight + 3 * HUSH_DPOW_GAP / 2 /\ (notarysinit_htind origheight < num_gaps)%nat).
  { unfold notarysinit_htind, num_gaps, HUSH_DPOW_GAP, HUSH_MAXBLOCKS in *.
    rewrite (proj2 (Z.ltb_lt 0 origheight)) by lia. change (2000 / 2) with 1000.
    change (250000 / 2000) with 125. rewrite Z.quot_div_nonneg by lia. rewrite Z.div_mul by lia.
    pose proof (Z.div_mod (origheight + 1000) 2000 ltac:(lia)).
    pose proof (Z.mod_pos_bound (origheight + 1000) 2000 ltac:(lia)).
    set (q := (origheight + 1000) / 2000) in *. cbv zeta.
    rewrite (proj2 (Z.leb_gt 125 (q + 1))) by lia. change (3 * 2000 / 2) with 3000.
    assert (0 <= q) by lia. split; [split|]; lia. }
  cbv zeta in Hact. destruct Hact as [Hact Hht].
  split; [|split; [bdestruct_all; lia|split; [exact Hact|]]].
  { apply length_fill_pubkeys. }
  rewrite fill_pubkeys_fresh by lia. destruct (decide (notarysinit_htind origheight <= j)%nat).
  - rewrite decide_True by lia. eexists. split; [reflexivity|]. cbn. split; [done|]. split; [done|].
    intros p id. rewrite add_keys_elem. split.
    + intros (k & q & Hk & -> & ->). apply lookup_take_Some in Hk as [Hk Hlt].
      exists k, q. do 3 (split; [done|]). unfold u8. rewrite Z.add_0_l. apply Z.mod_small. lia.
    + intros (k & q & Hk & Hq & -> & ->). exists k, q. rewrite lookup_take_lt by done.
      do 2 (split; [done|]). unfold u8. rewrite Z.add_0_l. symmetry. apply Z.mod_small. lia.
  - by rewrite decide_False by lia.
Qed.

Definition demo_notary_state : notary_state :=
  (hush_init (fun w : unit => w) (cstr "") 0 (NotaryState None 0 false []) tt).1.

Lemma notarysinit_activation_witness :
  exists tab', Pubkeys (hush_notarysinit demo_notary_state 5000 (season_keys 7) 64) = Some tab' /\
    tab' !! 3%nat = default [] (Pubkeys demo_notary_state) !! 3%nat.
Proof.
  pose proof (notarysinit_activation demo_notary_state (default [] (Pubkeys demo_notary_state)) 5000
    (season_keys 7) 64 3 ltac:(vm_compute; reflexivity) ltac:(vm_compute; reflexivity)
    ltac:(vm_compute; discriminate) ltac:(split; vm_compute; reflexivity) ltac:(lia)
    ltac:(rewrite season_keys_length; lia) ltac:(vm_compute; lia)) as H.
  assert (E : notarysinit_htind 5000 = 4%nat) by (vm_compute; reflexivity).
  destruct H as (tab' & H1 & _ & _ & _ & H2). rewrite E in H2. cbn [decide] in H2.
  exists tab'. split; [exact H1|exact H2].
Defined.
