(* ===== verification/Address.v ===== *)
(** * Base58 and transparent addresses

    [bitcoin_base58encode] and [bitcoin_base58decode] of src/src/mini-gmp.c and
    [bitcoin_address] and [bitcoin_addr2rmd160] of src/src/hush_utils.h.  An
    [mpz_t] is an integer; [mpz_import]/[mpz_export] convert from and to
    big-endian bytes without leading zeros. *)
From Stdlib Require Import String.
From S2P Require Import Prelude HashStream Sha256 Ripemd160 Encoding NotaryList Notary.
Local Open Scope string_scope.
Local Open Scope list_scope.
Local Open Scope Z_scope.

(** ** Definitions *)

Definition base58_chars : list Z :=
  chars "123456789ABCDEFGHJKLMNPQRSTUVWXYZabcdefghijkmnopqrstuvwxyz".

(** The digits of [n] in base [b], least significant first. *)
Fixpoint digits (b : Z) (fuel : nat) (n : Z) : list Z :=
  match fuel with
  | O => []
  | S fuel => if n <=? 0 then [] else n mod b :: digits b fuel (n / b)
  end.

(** [while ( data[i] == 0 )]: the number of leading cells equal to [c]. *)
Fixpoint count_leading (c : Z) (l : list Z) : nat :=
  match l with
  | [] => 0
  | x :: l => if x =? c then S (count_leading c l) else 0
  end.

(** The string written, with its NUL.  Two digits per byte are always enough
    fuel; [rs[n++]] is the reversed order. *)
Definition bitcoin_base58encode (data : list Z) : list Z :=
  let bn := be_num data in
  let rs := map (fun d => rd base58_chars (Z.to_nat d)) (digits 58 (2 * length data) bn)
            ++ replicate (count_leading 0 data) (rd base58_chars 0) in
  rev rs ++ [0].

Definition isspace (c : Z) : bool := ((9 <=? c) && (c <=? 13)) || (c =? 32).

Fixpoint skip_space (p : list Z) : list Z :=
  match p with
  | [] => []
  | c :: q => if isspace c then skip_space q else p
  end.

(** [strchr(base58_chars,c) - base58_chars] for [c <> 0]. *)
Definition b58_index (c : Z) : option nat := fst <$> list_find (fun x => x = c) base58_chars.

(** The accumulation loop; [None] is the -1 return. *)
Fixpoint b58_loop (p : list Z) (bn : Z) : option Z :=
  match p with
  | [] => Some bn
  | c :: q =>
    if c =? 0 then Some bn
    else match b58_index c with
         | Some d => b58_loop q (bn * 58 + Z.of_nat d)
         | None => if rd (skip_space p) 0 =? 0 then Some bn else None
         end
  end.

(** The bytes written to [data] and the length returned, which is one less than
    their number when the test after [mpz_export] strikes; [None] is -1. *)
Definition bitcoin_base58decode (coinaddr : list Z) : option (list Z * Z) :=
  let coinaddr := skip_space coinaddr in
  match b58_loop coinaddr 0 with
  | None => None
  | Some bn =>
    let zeroes := count_leading (rd base58_chars 0) coinaddr in
    let body := rev (digits 256 (length coinaddr) bn) in
    let data := replicate zeroes 0 ++ body in
    let count := length body in
    let count := if (2 <=? count)%nat && (rd data (count - 1) =? 0) && (0x80 <=? rd data (count - 2))
                 then (count - 1)%nat else count in
    Some (data, Z.of_nat (count + zeroes))
  end.

(** [bitcoin_address(coinaddr,addrtype,pubkey_or_rmd160,len)]; [md] is whatever
    the hash contexts hold on the stack.  [None]: a hash failed, which
    [address_total] excludes. *)
Definition bitcoin_address (md : vstate) (addrtype : Z) (pubkey_or_rmd160 : list Z) : option (list Z) :=
  let h160 := if negb (length pubkey_or_rmd160 =? 20)%nat
              then Rmd160.calc_rmd160_sha256 md md pubkey_or_rmd160
              else Some pubkey_or_rmd160 in
  match h160 with
  | None => None
  | Some rmd =>
    let data := addrtype :: rmd in
    match Sha256.bits256_doublesha256 md md data with
    | None => None
    | Some hash => Some (bitcoin_base58encode (data ++ map (fun i => rd hash (31 - i)) (seq 0 4)))
    end
  end.

(** [bitcoin_addr2rmd160(&addrtype,rmd160,coinaddr)]: return value, address type
    and hash.  [buf] is the uninitialised 25-byte stack buffer; [None] when the
    decoder writes past its end (or a hash fails). *)
Definition bitcoin_addr2rmd160 (md : vstate) (buf : list Z) (coinaddr : list Z)
  : option (Z * Z * list Z) :=
  match bitcoin_base58decode coinaddr with
  | None => Some (0, 0, replicate 20 0)
  | Some (data, len) =>
    if (25 <? length data)%nat then None
    else if 4 <=? len then
      let buf := memcpy_at buf 0 data in
      match Sha256.bits256_doublesha256 md md (take 21 buf) with
      | None => None
      | Some hash =>
        let ok := (rd buf 21 =? rd hash 31) && (rd buf 22 =? rd hash 30)
                  && (rd buf 23 =? rd hash 29) && (rd buf 24 =? rd hash 28) in
        Some (if ok then 20 else 0, rd buf 0, take 20 (drop 1 buf))
      end
    else Some (0, 0, replicate 20 0)
  end.

(** ** Positional notation *)

Fixpoint eval_le (b : Z) (l : list Z) : Z :=
  match l with [] => 0 | d :: l => d + b * eval_le b l end.

Definition digits_ok (b : Z) (l : list Z) : Prop := Forall (fun d => 0 <= d < b) l.

Lemma digits_pos b fuel n : 0 < b -> 0 <= n -> digits_ok b (digits b fuel n).
Proof.
  intros Hb. revert n. induction fuel as [|fuel IH]; intros n Hn; cbn; [constructor|].
  destruct (Z.leb_spec n 0); [constructor|].
  constructor; [apply Z.mod_pos_bound; lia|]. apply IH, Z.div_pos; lia.
Qed.

Lemma eval_digits b fuel n : 1 < b -> 0 <= n < b ^ Z.of_nat fuel -> eval_le b (digits b fuel n) = n.
Proof.
  intros Hb. revert n. induction fuel as [|fuel IH]; intros n Hn; cbn [digits eval_le]; [cbn in *; lia|].
  destruct (Z.leb_spec n 0); cbn [eval_le]; [lia|].
  rewrite Nat2Z.inj_succ, Z.pow_succ_r in Hn by lia.
  rewrite IH; [pose proof (Z.div_mod n b); lia|].
  split; [apply Z.div_pos; lia|]. apply Z.div_lt_upper_bound; lia.
Qed.

Lemma eval_le_nonneg b l : 0 < b -> digits_ok b l -> 0 <= eval_le b l.
Proof. intros Hb. induction 1; cbn; nia. Qed.

Lemma eval_le_bound b l : 0 < b -> digits_ok b l -> eval_le b l < b ^ Zlen l.
Proof.
  intros Hb. unfold Zlen. induction 1 as [|d l Hd Hl IH]; cbn [eval_le length]; [cbn; lia|].
  rewrite Nat2Z.inj_succ, Z.pow_succ_r by lia. nia.
Qed.

Lemma eval_le_pos b l x : 0 < b -> digits_ok b l -> last l = Some x -> x <> 0 -> 0 < eval_le b l.
Proof.
  intros Hb Hl. induction Hl as [|d l Hd Hl IH]; [done|].
  rewrite last_cons. cbn [eval_le]. pose proof (eval_le_nonneg b l Hb Hl).
  destruct (last l) eqn:E; intros [= <-] Hx; [specialize (IH eq_refl Hx); nia|nia].
Qed.

Lemma digits_eval b l fuel :
  1 < b -> digits_ok b l -> last l <> Some 0 -> (length l <= fuel)%nat ->
  digits b fuel (eval_le b l) = l.
Proof.
  intros Hb Hl. revert fuel. induction Hl as [|d l Hd Hl IH]; intros fuel Hlast Hf.
  { by destruct fuel. }
  destruct fuel as [|fuel]; cbn in Hf; [lia|].
  assert (Hpos : 0 < eval_le b (d :: l)).
  { destruct (last (d :: l)) as [x|] eqn:E.
    - eapply eval_le_pos; [lia|by constructor|exact E|congruence].
    - by apply last_None in E. }
  cbn [digits eval_le] in *. rewrite (proj2 (Z.leb_gt _ _)) by lia.
  replace (d + b * eval_le b l) with (d + eval_le b l * b) by lia.
  rewrite Z.mod_add, Z.div_add by lia. rewrite Z.mod_small, Z.div_small by lia.
  rewrite Z.add_0_l. rewrite IH; [done| |lia].
  intros E. apply Hlast. by rewrite last_cons, E.
Qed.

Lemma digits_last b fuel n :
  1 < b -> 0 <= n < b ^ Z.of_nat fuel -> last (digits b fuel n) <> Some 0.
Proof.
  intros Hb. revert n. induction fuel as [|fuel IH]; intros n Hn; cbn [digits]; [done|].
  destruct (Z.leb_spec n 0); [done|]. rewrite last_cons.
  rewrite Nat2Z.inj_succ, Z.pow_succ_r in Hn by lia.
  assert (Hq : 0 <= n / b < b ^ Z.of_nat fuel).
  { split; [apply Z.div_pos; lia|]. apply Z.div_lt_upper_bound; lia. }
  specialize (IH (n / b) Hq). destruct (last (digits b fuel (n / b))) as [x|] eqn:E; [done|].
  apply last_None in E. intros [= H0].
  assert (n / b = 0) by (rewrite <- (eval_digits b fuel (n / b) Hb Hq), E; done).
  pose proof (Z.div_mod n b). lia.
Qed.

Lemma le_num_eval l : le_num l = eval_le 256 l.
Proof. induction l; cbn; lia. Qed.

Lemma eval_le_lower b l x :
  1 < b -> digits_ok b l -> last l = Some x -> x <> 0 -> b ^ (Zlen l - 1) <= eval_le b l.
Proof.
  intros Hb Hl. unfold Zlen. induction Hl as [|d l Hd Hl IH]; [done|]. rewrite last_cons.
  cbn [eval_le length]. destruct (last l) as [y|] eqn:E; intros [= <-] Hx.
  - specialize (IH eq_refl Hx). destruct l as [|d' l]; [done|].
    replace (Z.of_nat (S (length (d' :: l))) - 1) with (Z.succ (Z.of_nat (length (d' :: l)) - 1)) by (cbn [length]; lia).
    rewrite Z.pow_succ_r by (cbn [length]; lia). nia.
  - apply last_None in E as ->. cbn. lia.
Qed.

Lemma foldl_eval b l a : foldl (fun a d => a * b + d) a (rev l) = a * b ^ Zlen l + eval_le b l.
Proof.
  unfold Zlen. induction l as [|d l IH]; cbn [rev eval_le length]; [cbn; lia|].
  rewrite foldl_app, IH. cbn [foldl]. rewrite Nat2Z.inj_succ, Z.pow_succ_r by lia. lia.
Qed.

(** A byte string is its leading zeros and a body that does not start with 0. *)
Lemma split_leading data :
  exists body, data = replicate (count_leading 0 data) 0 ++ body /\ head body <> Some 0.
Proof.
  induction data as [|x data (body & E & H)]; cbn [count_leading]; [by exists []|].
  destruct (Z.eqb_spec x 0) as [->|Hx].
  - exists body. cbn. by rewrite <- E.
  - exists (x :: data). split; [done|]. cbn. congruence.
Qed.

Lemma eval_le_zeros b l z : eval_le b (l ++ replicate z 0) = eval_le b l.
Proof. induction l as [|d l IH]; cbn; [|by rewrite IH]. induction z; cbn; lia. Qed.

Lemma base58_chars_ok d : (d < 58)%nat ->
  b58_index (rd base58_chars d) = Some d /\ isspace (rd base58_chars d) = false /\
  rd base58_chars d <> 0 /\ (rd base58_chars d = 49 -> d = 0%nat).
Proof.
  revert d. assert (H : forallb (fun d => bool_decide (b58_index (rd base58_chars d) = Some d) &&
    negb (isspace (rd base58_chars d)) && negb (rd base58_chars d =? 0) &&
    ((d =? 0)%nat || negb (rd base58_chars d =? 49))) (seq 0 58) = true) by (vm_compute; reflexivity).
  rewrite forallb_forall in H. intros d Hd. specialize (H d ltac:(apply in_seq; lia)).
  rewrite !andb_true_iff, bool_decide_eq_true, orb_true_iff, !negb_true_iff, !Z.eqb_neq, Nat.eqb_eq in H.
  destruct H as [[[H1 H2] H3] H4]. repeat split; [done|done|done|]. by intros; destruct H4.
Qed.

Definition b58c (d : Z) : Z := rd base58_chars (Z.to_nat d).

Lemma b58_loop_digits ds bn :
  digits_ok 58 ds -> b58_loop (map b58c ds ++ [0]) bn = Some (foldl (fun a d => a * 58 + d) bn ds).
Proof.
  intros H. revert bn. induction H as [|d ds Hd _ IH]; intros bn; cbn [map app b58_loop foldl]; [done|].
  unfold b58c at 1 2. destruct (base58_chars_ok (Z.to_nat d)) as (E & _ & Hnz & _); [lia|].
  rewrite (proj2 (Z.eqb_neq _ _)) by done. rewrite E, Z2Nat.id by lia. apply IH.
Qed.

Lemma count_leading_b58 z ds :
  digits_ok 58 ds -> head ds <> Some 0 ->
  count_leading 49 (replicate z 49 ++ map b58c ds ++ [0]) = z.
Proof.
  intros Hds Hh. induction z as [|z IH]; [|cbn; by rewrite IH].
  destruct Hds as [|d ds Hd Hds]; [done|]. cbn [replicate app map count_leading].
  destruct (Z.eqb_spec (b58c d) 49) as [E|]; [|done]. exfalso.
  apply base58_chars_ok in E; [|lia]. apply Hh. cbn. f_equal. lia.
Qed.

Lemma head_rev {A} (l : list A) : head (rev l) = last l.
Proof.
  rewrite <- (rev_involutive l) at 2. destruct (rev l) as [|x l']; cbn; [done|]. by rewrite last_snoc.
Qed.

(** The encoder's output: one ['1'] per leading zero, then the digits. *)
Lemma base58encode_shape data :
  bytes_ok data ->
  let D := digits 58 (2 * length data) (be_num data) in
  bitcoin_base58encode data = map b58c (replicate (count_leading 0 data) 0 ++ rev D) ++ [0] /\
  digits_ok 58 D /\ eval_le 58 D = be_num data /\ last D <> Some 0.
Proof.
  intros Hd D. assert (Hb : 0 <= be_num data < 58 ^ Z.of_nat (2 * length data)).
  { unfold be_num. pose proof (le_num_bounds (rev data)) as H. unfold Zlen in H.
    rewrite bytes_ok_rev, length_rev in H. specialize (H Hd). split; [lia|].
    eapply Z.lt_le_trans; [apply H|]. rewrite Nat2Z.inj_mul, !Z.pow_mul_r by lia.
    apply Z.pow_le_mono_l. lia. }
  split; [|split; [apply digits_pos; lia|split; [apply eval_digits; [lia|exact Hb]|apply digits_last; [lia|exact Hb]]]].
  unfold bitcoin_base58encode. fold D. rewrite rev_app_distr, rev_replicate, map_app.
  rewrite <- map_rev. f_equal. f_equal. by rewrite fmap_replicate.
Qed.

Lemma skip_space_b58 ds : digits_ok 58 ds -> skip_space (map b58c ds ++ [0]) = map b58c ds ++ [0].
Proof.
  intros [|d ds' Hd _]; [done|]. cbn [map app skip_space]. unfold b58c at 1.
  destruct (base58_chars_ok (Z.to_nat d)) as (_ & -> & _); [lia|done].
Qed.

(** The bytes decoded from an encoding are the data, whatever the length test. *)
Lemma base58decode_encode data :
  bytes_ok data ->
  exists len, bitcoin_base58decode (bitcoin_base58encode data) = Some (data, len) /\
    let count := (length data - count_leading 0 data)%nat in
    len = Zlen data - (if (2 <=? count)%nat && (rd data (count - 1) =? 0) && (0x80 <=? rd data (count - 2))
                       then 1 else 0).
Proof.
  intros Hd. destruct (base58encode_shape data Hd) as (E & HD & Hev & Hlast). rewrite E. clear E.
  set (D := digits 58 _ _) in *. set (z := count_leading 0 data).
  destruct (split_leading data) as (body & Hsplit & Hhead). fold z in Hsplit.
  assert (HrD : digits_ok 58 (replicate z 0 ++ rev D)).
  { apply Forall_app. split; [apply Forall_replicate; lia|]. by apply Forall_rev. }
  assert (Hbody : bytes_ok body).
  { rewrite Hsplit in Hd. by apply bytes_ok_app in Hd as [_ ?]. }
  assert (Hbn : be_num data = eval_le 256 (rev body)).
  { unfold be_num. rewrite le_num_eval, Hsplit, rev_app_distr, rev_replicate. apply eval_le_zeros. }
  assert (Hrb : digits_ok 256 (rev body)).
  { apply Forall_rev. eapply Forall_impl; [exact Hbody|]. intros b. unfold byte_ok. lia. }
  assert (Hlb : last (rev body) <> Some 0).
  { rewrite <- head_rev, rev_involutive. exact Hhead. }
  unfold bitcoin_base58decode. rewrite skip_space_b58 by done. rewrite b58_loop_digits by done.
  assert (Hfold : foldl (fun a d => a * 58 + d) 0 (replicate z 0 ++ rev D) = be_num data).
  { rewrite <- (rev_replicate z 0), <- rev_app_distr, foldl_eval, eval_le_zeros, Hev. lia. }
  rewrite Hfold. change (rd base58_chars 0) with 49.
  assert (Hz : count_leading 49 (map b58c (replicate z 0 ++ rev D) ++ [0]) = z).
  { rewrite map_app. change (map b58c (replicate z 0)) with (b58c <$> replicate z 0).
    rewrite fmap_replicate, <- app_assoc. apply count_leading_b58; [by apply Forall_rev|].
    by rewrite head_rev. }
  rewrite Hz.
  assert (Hdig : digits 256 (length (map b58c (replicate z 0 ++ rev D) ++ [0])) (be_num data) = rev body).
  { rewrite Hbn. apply digits_eval; [lia|done|done|]. rewrite !length_app, length_map, !length_app, !length_rev.
    destruct (last (rev body)) as [x|] eqn:El; [|apply last_None in El;
      rewrite <- (length_rev body), El; cbn; lia].
    assert (H1 : 256 ^ (Zlen (rev body) - 1) <= eval_le 256 (rev body))
      by (eapply eval_le_lower; [lia|done|exact El|congruence]).
    pose proof (eval_le_bound 58 D ltac:(lia) HD) as H2. rewrite Hev, Hbn in H2.
    assert (58 ^ Zlen D <= 256 ^ Zlen D) by (apply Z.pow_le_mono_l; lia).
    assert (H3 : 256 ^ (Zlen (rev body) - 1) < 256 ^ Zlen D) by lia.
    apply Z.pow_lt_mono_r_iff in H3; [|lia|unfold Zlen; lia].
    unfold Zlen in H3. rewrite length_rev in H3. lia. }
  rewrite Hdig, rev_involutive, <- Hsplit. eexists. split; [reflexivity|].
  assert (Hlen : length data = (z + length body)%nat) by (rewrite Hsplit at 1; by rewrite length_app, length_replicate).
  cbv zeta. replace (length data - z)%nat with (length body) by lia. unfold Zlen.
  destruct (_ && _) eqn:Hg; [|lia].
  apply andb_prop in Hg as [[Hg%Nat.leb_le _]%andb_prop _]. lia.
Qed.

(** Base58 round trip: decoding the encoding of a byte string writes exactly
    these bytes back, leading zeros included.  The length returned is theirs
    except when, counting from the first byte, the bytes at the end of the
    significant part are [>= 0x80] and [0]: then it is one too small. *)
Theorem base58_round_trip (data : list Z) :
  bytes_ok data ->
  exists len, bitcoin_base58decode (bitcoin_base58encode data) = Some (data, len) /\
    let count := (length data - count_leading 0 data)%nat in
    len = Zlen data - (if (2 <=? count)%nat && (rd data (count - 1) =? 0) && (0x80 <=? rd data (count - 2))
                       then 1 else 0).
Proof. apply base58decode_encode. Qed.

Lemma base58_round_trip_witness :
  exists len, bitcoin_base58decode (bitcoin_base58encode [0; 0; 60; 1; 255]) = Some ([0; 0; 60; 1; 255], len).
Proof.
  destruct (base58_round_trip [0; 0; 60; 1; 255]) as (len & H & _);
    [repeat constructor; unfold byte_ok; lia|]. by exists len.
Defined.

(** ** Addresses *)

Definition checksum (data : list Z) : list Z := take 4 (Sha256.Fips.sha256 (Sha256.Fips.sha256 data)).

Lemma doublesha md data :
  length (vs_buf md) = 64%nat -> bytes_ok data ->
  Sha256.bits256_doublesha256 md md data = Some (rev (Sha256.Fips.sha256 (Sha256.Fips.sha256 data))).
Proof.
  intros Hmd Hd. unfold Sha256.bits256_doublesha256.
  rewrite Sha256.vcalc_sha256_eq by done. rewrite Sha256.vcalc_sha256_eq; [done|done|].
  by apply Sha256.fips_sha256_shape.
Qed.

Lemma rd_rev31 l i : length l = 32%nat -> (i < 32)%nat -> rd (rev l) (31 - i) = rd l i.
Proof.
  intros Hl Hi. unfold rd. rewrite rev_nth by lia. f_equal. lia.
Qed.

Lemma list4 l : length l = 32%nat -> take 4 l = [rd l 0; rd l 1; rd l 2; rd l 3].
Proof. intros H. do 4 (destruct l as [|? l]; [done|]). done. Qed.

Lemma address_total md addrtype rmd :
  length (vs_buf md) = 64%nat -> byte_ok addrtype -> bytes_ok rmd -> length rmd = 20%nat ->
  bitcoin_address md addrtype rmd =
    Some (bitcoin_base58encode (addrtype :: rmd ++ checksum (addrtype :: rmd))).
Proof.
  intros Hmd Ht Hr Hl. unfold bitcoin_address. rewrite Hl. cbn [Nat.eqb negb].
  assert (Hb : bytes_ok (addrtype :: rmd)) by (by constructor).
  rewrite doublesha by done. do 2 f_equal. cbn [app]. do 2 f_equal.
  assert (H32 : length (Sha256.Fips.sha256 (Sha256.Fips.sha256 (addrtype :: rmd))) = 32%nat)
    by (by apply Sha256.fips_sha256_shape, Sha256.fips_sha256_shape).
  unfold checksum. rewrite list4 by done. cbn [map seq].
  by rewrite !rd_rev31 by (done || lia).
Qed.

Lemma length_checksum data : bytes_ok data -> length (checksum data) = 4%nat /\ bytes_ok (checksum data).
Proof.
  intros Hd. destruct (Sha256.fips_sha256_shape data Hd) as [_ H1].
  destruct (Sha256.fips_sha256_shape _ H1) as [H2 H3]. unfold checksum.
  split; [rewrite length_take; lia|by apply bytes_ok_take].
Qed.

Lemma rd_drop l n i : rd l (n + i) = rd (drop n l) i.
Proof. unfold rd. by rewrite nth_skipn. Qed.

(** Address round trip: for every address type and 20-byte hash,
    [bitcoin_addr2rmd160] accepts the string made by [bitcoin_address] (returns
    20) and recovers type and hash, whatever its stack buffer held; it never
    writes outside that buffer. *)
Theorem address_round_trip md buf addrtype rmd :
  length (vs_buf md) = 64%nat -> length buf = 25%nat ->
  byte_ok addrtype -> bytes_ok rmd -> length rmd = 20%nat ->
  exists addr, bitcoin_address md addrtype rmd = Some addr /\
    bitcoin_addr2rmd160 md buf addr = Some (20, addrtype, rmd).
Proof.
  intros Hmd Hbuf Ht Hr Hl. eexists. split; [by apply address_total|].
  assert (Hh : bytes_ok (addrtype :: rmd)) by (by constructor).
  destruct (length_checksum _ Hh) as [Hc1 Hc2]. set (ck := checksum (addrtype :: rmd)) in *.
  set (data := addrtype :: rmd ++ ck).
  assert (Hd : bytes_ok data) by (constructor; [done|by apply bytes_ok_app]).
  assert (Hdl : length data = 25%nat) by (unfold data; cbn [length]; rewrite length_app; lia).
  unfold bitcoin_addr2rmd160. destruct (base58decode_encode data Hd) as (len & -> & Hlen).
  rewrite Hdl. cbn [Nat.ltb Nat.leb].
  assert (24 <= len) by (unfold Zlen in Hlen; rewrite Hdl in Hlen; destruct (_ && _); lia).
  rewrite (proj2 (Z.leb_le 4 len)) by lia.
  assert (Hm : memcpy_at buf 0 data = data).
  { unfold memcpy_at. cbn [take app]. rewrite drop_ge by lia. apply app_nil_r. }
  rewrite Hm.
  assert (Ht21 : take 21 data = addrtype :: rmd).
  { unfold data. change (addrtype :: rmd ++ ck) with ((addrtype :: rmd) ++ ck).
    apply take_app_length'. cbn [length]. lia. }
  assert (Hd21 : drop 21 data = ck).
  { unfold data. change (addrtype :: rmd ++ ck) with ((addrtype :: rmd) ++ ck).
    apply drop_app_length'. cbn [length]. lia. }
  rewrite Ht21, doublesha by done.
  assert (H32 : length (Sha256.Fips.sha256 (Sha256.Fips.sha256 (addrtype :: rmd))) = 32%nat)
    by (by apply Sha256.fips_sha256_shape, Sha256.fips_sha256_shape).
  assert (Hck : ck = take 4 (Sha256.Fips.sha256 (Sha256.Fips.sha256 (addrtype :: rmd)))) by done.
  set (h := Sha256.Fips.sha256 _) in *. rewrite list4 in Hck by done.
  change (rd data 21) with (rd data (21 + 0)). change (rd data 22) with (rd data (21 + 1)).
  change (rd data 23) with (rd data (21 + 2)). change (rd data 24) with (rd data (21 + 3)).
  rewrite !rd_drop, Hd21.
  change (rd (rev h) 31) with (rd (rev h) (31 - 0)). change (rd (rev h) 30) with (rd (rev h) (31 - 1)).
  change (rd (rev h) 29) with (rd (rev h) (31 - 2)). change (rd (rev h) 28) with (rd (rev h) (31 - 3)).
  rewrite !rd_rev31 by (done || lia). rewrite Hck. cbn [rd nth]. rewrite !Z.eqb_refl. cbn [andb].
  do 2 f_equal. unfold data. cbn [drop]. by apply take_app_length'.
Qed.

Definition demo_md : vstate := VState 0 [] 0 (replicate 64 170).

Lemma address_round_trip_witness :
  exists addr, bitcoin_address demo_md 60 (le_bytes 20 7) = Some addr /\
    bitcoin_addr2rmd160 demo_md (replicate 25 204) addr = Some (20, 60, le_bytes 20 7).
Proof.
  apply (address_round_trip demo_md (replicate 25 204) 60 (le_bytes 20 7));
    [reflexivity|reflexivity|unfold byte_ok; lia|apply le_bytes_ok|reflexivity].
Defined.

(** The length returned for a valid address is not always 25: there is an
    address with a correct checksum for which [bitcoin_base58decode] writes 25
    bytes and returns 24, so a caller that requires 25 refuses it. *)
Theorem base58decode_short_length :
  exists addr data,
    bitcoin_address demo_md 60 (le_bytes 20 1075) = Some addr /\
    bitcoin_base58decode addr = Some (data, 24) /\ Zlen data = 25 /\
    bitcoin_addr2rmd160 demo_md (replicate 25 0) addr = Some (20, 60, le_bytes 20 1075).
Proof.
  exists (default [] (bitcoin_address demo_md 60 (le_bytes 20 1075))),
    (60 :: le_bytes 20 1075 ++ [0xe6; 0xe5; 0xce; 0]).
  split; [vm_compute; reflexivity|]. split; [vm_compute; reflexivity|].
  split; [vm_compute; reflexivity|]. vm_compute; reflexivity.
Qed.

Lemma address_md_irrelevant md1 md2 addrtype key :
  length (vs_buf md1) = 64%nat -> length (vs_buf md2) = 64%nat ->
  byte_ok addrtype -> bytes_ok key -> length key <> 20%nat ->
  bitcoin_address md1 addrtype key = bitcoin_address md2 addrtype key.
Proof.
  intros H1 H2 Ht Hk Hl. unfold bitcoin_address.
  rewrite (proj2 (Nat.eqb_neq _ _) Hl). cbn [negb].
  pose proof (Sha256.fips_sha256_shape key Hk) as [_ Hs].
  assert (E : forall md, length (vs_buf md) = 64%nat -> Rmd160.calc_rmd160_sha256 md md key =
    Some (Rmd160.Std.rmd160 (Sha256.Fips.sha256 key))).
  { intros md Hmd. unfold Rmd160.calc_rmd160_sha256. rewrite Sha256.vcalc_sha256_eq by done.
    by apply Rmd160.calc_rmd160_eq. }
  rewrite !E by done.
  assert (Hb : bytes_ok (addrtype :: Rmd160.Std.rmd160 (Sha256.Fips.sha256 key))).
  { constructor; [done|]. apply Rmd160.std_rmd160_ok. }
  by rewrite !doublesha by done.
Qed.

(** The genesis table is consistent: the address written next to each of the
    35 notary keys of [Notaries_genesis] is the type-60 address that
    [bitcoin_address] computes from the key, whatever the stack held; and every
    entry of the table is still an entry of seasons 6 and 7. *)
Theorem notary_addresses_match_keys md :
  length (vs_buf md) = 64%nat ->
  Forall (fun e => bitcoin_address md 60 (decode_hex 33 (cstr e.2)).1 = Some (cstr e.1) /\
                   e ∈ season6 /\ e ∈ season7) Notaries_genesis.
Proof.
  intros Hmd.
  assert (Hin : forallb (fun e => bool_decide (e ∈ season6) && bool_decide (e ∈ season7))
                  Notaries_genesis = true) by (vm_compute; reflexivity).
  assert (H : forallb (fun e =>
      let key := (decode_hex 33 (cstr e.2)).1 in
      bool_decide (bytes_ok key) && (length key =? 33)%nat &&
      bool_decide (bitcoin_address demo_md 60 key = Some (cstr e.1))) Notaries_genesis = true)
    by (vm_compute; reflexivity).
  rewrite forallb_forall in H, Hin. apply List.Forall_forall. intros e He.
  specialize (Hin e He). specialize (H e He). cbv zeta in H.
  apply andb_prop in H as [[H1%bool_decide_eq_true H2%Nat.eqb_eq]%andb_prop H3%bool_decide_eq_true].
  apply andb_prop in Hin as [H4%bool_decide_eq_true H5%bool_decide_eq_true].
  split; [|done]. rewrite <- H3.
  apply address_md_irrelevant; [done|done|unfold byte_ok; lia|done|lia].
Qed.

Lemma notary_addresses_match_keys_witness :
  length (vs_buf demo_md) = 64%nat /\
  Forall (fun e => bitcoin_address demo_md 60 (decode_hex 33 (cstr e.2)).1 = Some (cstr e.1) /\
                   e ∈ season6 /\ e ∈ season7) Notaries_genesis.
Proof. split; [reflexivity|]. apply (notary_addresses_match_keys demo_md). reflexivity. Defined.
