(* ===== verification/KV.v ===== *)
(** * The on-chain key-value store

    src/src/hush_kv.h: the global uthash table [HUSH_KV] is a finite map from
    key bytes to entries; the memory behind an OP_RETURN buffer is a list.  The
    curve25519 signature check ([hush_kvsigverify], outside this file) is a
    parameter.  [int32_t] sums and products are reduced to 32 bits, as compiled
    code does. *)
From Stdlib Require Import String.
From S2P Require Import Prelude Encoding NotaryList Notarized.
Local Open Scope string_scope.
Local Open Scope list_scope.
Local Open Scope Z_scope.

(** ** Definitions *)

Definition HUSH_KVDURATION : Z := 1440.
Definition HUSH_KVPROTECTED : Z := 1.

Record hush_kv := KV {
  kv_pubkey : list Z;       (* bits256 *)
  kv_value : list Z;
  kv_height : Z;            (* int32_t *)
  kv_flags : Z;             (* uint32_t *)
  kv_valuesize : Z          (* uint16_t *)
}.

Abbreviation kv_table := (gmap (list Z) hush_kv).

(** [hush_kvcmp]; a null pointer is [None], [memcmp] is given by its sign. *)
Fixpoint memcmp (a b : list Z) : Z :=
  match a, b with
  | x :: a, y :: b => if x <? y then -1 else if y <? x then 1 else memcmp a b
  | _, _ => 0
  end.

Definition hush_kvcmp (refvalue value : option (list Z)) : Z :=
  match refvalue, value with
  | None, None => 0
  | None, Some _ | Some _, None => -1
  | Some r, Some v => if negb (Zlen r =? Zlen v) then -1 else memcmp r v
  end.

Definition hush_kvnumdays (flags : Z) : Z :=
  let numdays := Z.land (Z.shiftr flags 2) 0x3ff + 1 in
  if 365 <? numdays then 365 else numdays.

Definition hush_kvduration (flags : Z) : Z := hush_kvnumdays flags * HUSH_KVDURATION.

(** [None] is the division by a zero key length. *)
Definition hush_kvfee (flags opretlen keylen : Z) : option Z :=
  let k := if 32 <? keylen then 32 else keylen in
  if k =? 0 then None
  else
    let fee := u64 (s32 (hush_kvnumdays flags * Z.quot (s32 (opretlen * opretlen)) k)) in
    Some (if fee <? 100000 then 100000 else fee).

(** [hush_kvsearch]: what it returns through its result and its pointers. *)
Record kv_found := KVFound {
  kf_retval : Z; kf_pubkey : list Z; kf_flags : Z; kf_height : Z; kf_value : list Z
}.

Definition kv_miss : kv_found := KVFound (-1) zero256 0 (-1) [].

Definition kv_expired (current_height : Z) (e : hush_kv) : bool :=
  s32 (kv_height e + hush_kvduration (kv_flags e)) <? current_height.

Definition hush_kvsearch (kv : kv_table) (current_height : Z) (key : list Z) : kv_found * kv_table :=
  match kv !! key with
  | Some e =>
    if kv_expired current_height e then (kv_miss, delete key kv)
    else (KVFound (kv_valuesize e) (kv_pubkey e) (kv_flags e) (kv_height e)
            (if 0 <? kv_valuesize e then kv_value e else []), kv)
  | None => (kv_miss, kv)
  end.

Definition transfer_tag : list Z := chars "transfer:".

(** The owner key of a value "transfer:<64 hexadecimal digits>". *)
Definition transfer_pubkey (valueptr : list Z) (pubkey : list Z) : list Z :=
  let transferpubstr := drop 9 valueptr in
  if bool_decide (take 9 valueptr = transfer_tag) && (is_hexstr transferpubstr 0 =? 64)
  then rev (map (fun i => _decode_hex (rd transferpubstr (i * 2)) (rd transferpubstr (i * 2 + 1))) (seq 0 32))
  else pubkey.

(** The update of one entry once it is authorised. *)
Definition kv_store (kv : kv_table) (key : list Z) (valuesize : Z) (valueptr pubkey : list Z)
  (height flags : Z) : kv_table :=
  let '(ptr, newflag, pubkey) :=
    match kv !! key with
    | Some e => (e, false, transfer_pubkey valueptr pubkey)
    | None => (KV (replicate 32 0) [] 0 0 0, true, pubkey)
    end in
  let '(value, size) :=
    if newflag || (Z.land (kv_flags ptr) HUSH_KVPROTECTED =? 0)
    then (if negb (valuesize =? 0) then take (Z.to_nat valuesize) valueptr else [], valuesize)
    else (kv_value ptr, kv_valuesize ptr) in
  <[key := KV pubkey value height flags size]> kv.

Section Update.
(** [hush_kvsigverify(buf,len,pubkey,sig) >= 0]. *)
Context (hush_kvsigverify : list Z -> list Z -> list Z -> bool).

(** [enabled]: [SMART_CHAIN_SYMBOL[0] != 0].  [None] is the division by zero. *)
Definition hush_kvupdate (enabled : bool) (kv : kv_table) (opretbuf : list Z) (opretlen value : Z)
  : option kv_table :=
  if negb enabled then Some kv
  else
    let keylen := (dragon_rwnum false (drop 1 opretbuf) 2 0).2 in
    let valuesize := (dragon_rwnum false (drop 3 opretbuf) 2 0).2 in
    let height := s32 (dragon_rwnum false (drop 5 opretbuf) 4 0).2 in
    let flags := (dragon_rwnum false (drop 9 opretbuf) 4 0).2 in
    if opretlen <? keylen + 13 then Some kv
    else
      let key := take (Z.to_nat keylen) (drop 13 opretbuf) in
      let valueptr := drop (13 + Z.to_nat keylen) opretbuf in
      match hush_kvfee flags opretlen keylen with
      | None => None
      | Some fee =>
        if fee <=? value then
          let coresize := 4 + 4 + 2 + 2 + keylen + valuesize + 1 in
          if (opretlen =? coresize) || (opretlen =? coresize + 32) || (opretlen =? coresize + 2 * 32) then
            let pubkey := if coresize + 32 <=? opretlen
                          then take 32 (drop (Z.to_nat coresize) opretbuf) else replicate 32 0 in
            let sig := if opretlen =? coresize + 32 * 2
                       then take 32 (drop (Z.to_nat coresize + 32) opretbuf) else replicate 32 0 in
            let '(ref, kv) := hush_kvsearch kv height key in
            if (0 <=? kf_retval ref) && negb (bool_decide (kf_pubkey ref = zero256))
               && negb (hush_kvsigverify (key ++ kf_value ref) (kf_pubkey ref) sig)
            then Some kv
            else Some (kv_store kv key valuesize valueptr pubkey height (kf_flags ref))
          else Some kv
        else Some kv
      end.

(** ** Fees and durations *)

(** The duration of an entry is 1 to 365 days of 1440 blocks; the fee is
    undefined exactly for the empty key and at least 100000 otherwise, equal to
    [days * (len^2 / min(keylen,32))] above that as long as it fits 31 bits. *)
Theorem kvfee_spec flags opretlen keylen :
  is_u 32 flags -> 0 <= opretlen -> is_u 16 keylen ->
  1 <= hush_kvnumdays flags <= 365 /\ hush_kvduration flags = 1440 * hush_kvnumdays flags /\
  (hush_kvfee flags opretlen keylen = None <-> keylen = 0) /\
  (forall fee, hush_kvfee flags opretlen keylen = Some fee -> 100000 <= fee) /\
  (opretlen < 46341 -> 0 < keylen ->
   hush_kvnumdays flags * (opretlen * opretlen / Z.min keylen 32) < 2 ^ 31 ->
   hush_kvfee flags opretlen keylen =
     Some (Z.max 100000 (hush_kvnumdays flags * (opretlen * opretlen / Z.min keylen 32)))).
Proof.
  intros Hf Ho Hk.
  assert (Hd : 1 <= hush_kvnumdays flags <= 365).
  { unfold hush_kvnumdays. unfold is_u in Hf.
    assert (0 <= Z.land (Z.shiftr flags 2) 0x3ff)
      by (apply Z.land_nonneg; left; apply Z.shiftr_nonneg; lia).
    destruct (365 <? _) eqn:E; lia. }
  split; [done|]. split; [unfold hush_kvduration, HUSH_KVDURATION; lia|].
  unfold hush_kvfee, is_u in *. replace (if 32 <? keylen then 32 else keylen) with (Z.min keylen 32)
    by (destruct (Z.ltb_spec 32 keylen); lia).
  destruct (Z.eqb_spec (Z.min keylen 32) 0).
  { split; [split; [lia|done]|]. split; [done|lia]. }
  split; [split; [done|lia]|]. split.
  { intros fee [= <-]. destruct (_ <? 100000) eqn:E; lia. }
  intros Hl Hk0 Hfit.
  assert (0 <= opretlen * opretlen <= 2147441940) by nia.
  rewrite (s32_id (opretlen * opretlen)) by (unfold is_s32; lia).
  rewrite Z.quot_div_nonneg by lia. set (fee := hush_kvnumdays flags * _) in *.
  assert (0 <= fee) by (apply Z.mul_nonneg_nonneg; [lia|apply Z.div_pos; lia]).
  rewrite s32_id by (unfold is_s32; lia). rewrite u64_id by (unfold is_u; lia).
  f_equal. destruct (Z.ltb_spec fee 100000); lia.
Qed.

(** ** Well-formed updates *)

(** The buffer of an update request: tag, sizes, height, flags, key, value and
    what follows (nothing, an owner key, or an owner key and a signature). *)
Definition kv_opret (key value : list Z) (height flags : Z) (tail : list Z) : list Z :=
  [75] ++ le_bytes 2 (Zlen key) ++ le_bytes 2 (Zlen value) ++ le_bytes 4 height ++ le_bytes 4 flags
  ++ key ++ value ++ tail.

Definition kv_tail_ok (tail : list Z) : Prop :=
  length tail = 0%nat \/ length tail = 32%nat \/ length tail = 64%nat.

Definition tail_pubkey (tail : list Z) : list Z :=
  if (32 <=? length tail)%nat then take 32 tail else replicate 32 0.
Definition tail_sig (tail : list Z) : list Z :=
  if (length tail =? 64)%nat then take 32 (drop 32 tail) else replicate 32 0.

(** What an update does once its buffer is parsed. *)
Definition kv_apply (kv : kv_table) (key value : list Z) (height : Z) (tail : list Z) : kv_table :=
  let '(ref, kv) := hush_kvsearch kv height key in
  if (0 <=? kf_retval ref) && negb (bool_decide (kf_pubkey ref = zero256))
     && negb (hush_kvsigverify (key ++ kf_value ref) (kf_pubkey ref) (tail_sig tail))
  then kv
  else kv_store kv key (Zlen value) (value ++ tail) (tail_pubkey tail) height (kf_flags ref).

Definition kv_request_ok (key value : list Z) (height flags : Z) (tail : list Z) : Prop :=
  bytes_ok key /\ bytes_ok value /\ bytes_ok tail /\ kv_tail_ok tail /\
  0 < Zlen key < 2 ^ 16 /\ Zlen value < 2 ^ 16 /\ is_s32 height /\ is_u 32 flags.

Lemma read_num_at pre n x rest y :
  rwnum_width n = true -> bytes_ok rest -> 0 <= x < 2 ^ (8 * Z.of_nat n) ->
  (dragon_rwnum false (drop (length pre) (pre ++ le_bytes n x ++ rest)) n y).2 = x.
Proof.
  intros Hw Hr Hx. rewrite drop_app_length. rewrite dragon_rwnum_read_eq; cbn [snd].
  - rewrite take_app_length' by (by rewrite length_le_bytes). rewrite le_num_le_bytes. by apply Z.mod_small.
  - done.
  - apply bytes_ok_app. split; [apply le_bytes_ok|done].
  - rewrite length_app, length_le_bytes. lia.
Qed.

Lemma le_bytes_s32 height : is_s32 height -> le_bytes 4 height = le_bytes 4 (u32 height).
Proof. intros _. unfold u32. by rewrite (le_bytes_mod 4). Qed.

Lemma s32_of_u32 height : is_s32 height -> s32 (u32 height) = height.
Proof. intros H. rewrite s32_u32. by apply s32_id. Qed.

Lemma kvupdate_parse kv key value height flags tail paid fee :
  kv_request_ok key value height flags tail ->
  let buf := kv_opret key value height flags tail in
  hush_kvfee flags (Zlen buf) (Zlen key) = Some fee ->
  hush_kvupdate true kv buf (Zlen buf) paid =
    Some (if fee <=? paid then kv_apply kv key value height tail else kv).
Proof.
  intros (Hk & Hv & Ht & Hto & Hkl & Hvl & Hh & Hf) buf Hfee. unfold is_u in Hf.
  assert (Hu : is_u 32 (u32 height)) by apply u32_range. unfold is_u in Hu.
  pose proof (Zlen_nonneg value) as Hv0.
  assert (Hblen : Zlen buf = 13 + Zlen key + Zlen value + Zlen tail).
  { unfold buf, kv_opret, Zlen. rewrite !length_app, !length_le_bytes. cbn [length]. lia. }
  assert (E1 : (dragon_rwnum false (drop 1 buf) 2 0).2 = Zlen key).
  { apply (read_num_at [75] 2); [done| |lia].
    repeat (apply bytes_ok_app; split); auto using le_bytes_ok. }
  assert (E2 : (dragon_rwnum false (drop 3 buf) 2 0).2 = Zlen value).
  { apply (read_num_at ([75] ++ le_bytes 2 (Zlen key)) 2); [done| |lia].
    repeat (apply bytes_ok_app; split); auto using le_bytes_ok. }
  assert (E3 : (dragon_rwnum false (drop 5 buf) 4 0).2 = u32 height).
  { unfold buf, kv_opret. rewrite (le_bytes_s32 height Hh).
    apply (read_num_at ([75] ++ le_bytes 2 (Zlen key) ++ le_bytes 2 (Zlen value)) 4); [done| |lia].
    repeat (apply bytes_ok_app; split); auto using le_bytes_ok. }
  assert (E4 : (dragon_rwnum false (drop 9 buf) 4 0).2 = flags).
  { apply (read_num_at ([75] ++ le_bytes 2 (Zlen key) ++ le_bytes 2 (Zlen value) ++ le_bytes 4 height) 4);
      [done| |lia]. repeat (apply bytes_ok_app; split); auto using le_bytes_ok. }
  assert (E5 : drop 13 buf = key ++ value ++ tail) by done.
  unfold hush_kvupdate. rewrite E1, E2, E3, E4. cbn [negb]. rewrite s32_of_u32 by done.
  rewrite (proj2 (Z.ltb_ge _ _)) by (unfold Zlen in *; lia). rewrite Hfee.
  destruct (fee <=? paid); [|done].
  assert (Hsz : (Zlen buf =? 4 + 4 + 2 + 2 + Zlen key + Zlen value + 1) ||
    (Zlen buf =? 4 + 4 + 2 + 2 + Zlen key + Zlen value + 1 + 32) ||
    (Zlen buf =? 4 + 4 + 2 + 2 + Zlen key + Zlen value + 1 + 2 * 32) = true).
  { rewrite !orb_true_iff, !Z.eqb_eq. unfold Zlen in *. destruct Hto as [H|[H|H]]; rewrite H in *; lia. }
  rewrite Hsz. clear Hsz.
  assert (Ekey : take (Z.to_nat (Zlen key)) (drop 13 buf) = key).
  { rewrite E5. unfold Zlen. rewrite Nat2Z.id. apply take_app_length. }
  assert (Eval : drop (13 + Z.to_nat (Zlen key)) buf = value ++ tail).
  { unfold Zlen. rewrite Nat2Z.id, <- drop_drop, E5. apply drop_app_length. }
  rewrite Ekey, Eval. clear Ekey Eval.
  assert (Hcore : Z.to_nat (4 + 4 + 2 + 2 + Zlen key + Zlen value + 1) = (13 + (length key + length value))%nat)
    by (unfold Zlen; lia).
  assert (Etail : drop (Z.to_nat (4 + 4 + 2 + 2 + Zlen key + Zlen value + 1)) buf = tail).
  { rewrite Hcore, <- drop_drop, E5, <- drop_drop, drop_app_length. apply drop_app_length. }
  rewrite <- drop_drop, Etail.
  replace (if 4 + 4 + 2 + 2 + Zlen key + Zlen value + 1 + 32 <=? Zlen buf then take 32 tail else replicate 32 0)
    with (tail_pubkey tail).
  2:{ unfold tail_pubkey. destruct (Nat.leb_spec 32 (length tail)); rewrite Hblen; unfold Zlen.
      - by rewrite (proj2 (Z.leb_le _ _)) by lia.
      - by rewrite (proj2 (Z.leb_gt _ _)) by lia. }
  replace (if Zlen buf =? 4 + 4 + 2 + 2 + Zlen key + Zlen value + 1 + 32 * 2 then take 32 (drop 32 tail) else replicate 32 0)
    with (tail_sig tail).
  2:{ unfold tail_sig. rewrite Hblen. unfold Zlen. destruct (Nat.eqb_spec (length tail) 64).
      - by rewrite (proj2 (Z.eqb_eq _ _)) by lia.
      - by rewrite (proj2 (Z.eqb_neq _ _)) by lia. }
  unfold kv_apply. destruct (hush_kvsearch kv height key) as [ref kv']. by destruct (_ && _).
Qed.

End Update.

Lemma kvfee_spec_witness :
  1 <= hush_kvnumdays 0x75 <= 365 /\ hush_kvfee 0x75 8000 4 = Some 480000000.
Proof.
  destruct (kvfee_spec 0x75 8000 4) as (H1 & _ & _ & _ & H2);
    [unfold is_u; lia|lia|unfold is_u; lia|].
  split; [exact H1|]. rewrite H2; [reflexivity|lia|lia|reflexivity].
Defined.

(** ** Stored flags *)

(** Any sequence of updates (with arbitrary buffers) and searches. *)
Inductive kv_step (sv : list Z -> list Z -> list Z -> bool) : kv_table -> kv_table -> Prop :=
| kv_step_update en kv buf len paid kv' :
    hush_kvupdate sv en kv buf len paid = Some kv' -> kv_step sv kv kv'
| kv_step_search kv height key : kv_step sv kv (hush_kvsearch kv height key).2.

Definition flags_zero (kv : kv_table) : Prop := map_Forall (fun _ e => kv_flags e = 0) kv.

Lemma kvsearch_flags kv height key :
  flags_zero kv ->
  kf_flags (hush_kvsearch kv height key).1 = 0 /\ flags_zero (hush_kvsearch kv height key).2.
Proof.
  intros H. unfold hush_kvsearch. destruct (kv !! key) as [e|] eqn:E; [|done].
  destruct (kv_expired height e); cbn.
  - split; [done|]. by apply map_Forall_delete.
  - split; [|done]. exact (H key e E).
Qed.

Lemma kv_step_flags sv kv kv' : kv_step sv kv kv' -> flags_zero kv -> flags_zero kv'.
Proof.
  intros [en t buf len paid t' Hu | t height key] H; [|by apply kvsearch_flags].
  unfold hush_kvupdate in Hu.
  repeat match type of Hu with
    | context [match hush_kvsearch ?a ?b ?c with _ => _ end] =>
        pose proof (kvsearch_flags a b c H) as [Hr Ht]; destruct (hush_kvsearch a b c) as [ref t1]
    | (if ?b then _ else _) = _ => destruct b
    | match ?x with Some _ => _ | None => _ end = _ => destruct x
    end; try discriminate; injection Hu as <-; try done.
  cbn [fst snd] in *. unfold kv_store. rewrite Hr.
  repeat case_match; simplify_eq; by apply map_Forall_insert_2.
Qed.

(** In every reachable store all entries carry flags 0: whatever duration
    or protection bits a request encodes, [hush_kvsearch] overwrites them before
    they are stored.  So each entry lives exactly 1440 blocks and is never
    protected, although the fee was charged for the requested number of days. *)
Theorem kv_flags_never_stored sv kv key e :
  rtc (kv_step sv) ∅ kv -> kv !! key = Some e ->
  kv_flags e = 0 /\ hush_kvduration (kv_flags e) = 1440 /\ Z.land (kv_flags e) HUSH_KVPROTECTED = 0.
Proof.
  intros Hr He. assert (Hz : flags_zero kv).
  { assert (H0 : flags_zero ∅) by apply map_Forall_empty. clear He. revert H0.
    induction Hr as [|x y z Hxy _ IH]; [done|]. intros H. apply IH. by eapply kv_step_flags. }
  rewrite (Hz key e He). done.
Qed.

(** A request for 30 days, flags [29 << 2 | 1], by an owner. *)
Definition demo_owner : list Z := le_bytes 32 77.
Definition demo_request (height : Z) : list Z := kv_opret (chars "name") (chars "value") height 0x75 demo_owner.
Definition demo_kv : kv_table :=
  default ∅ (hush_kvupdate (fun _ _ _ => false) true ∅ (demo_request 1000) (Zlen (demo_request 1000)) 1000000).

Lemma kv_flags_never_stored_witness :
  exists e, demo_kv !! chars "name" = Some e /\ kv_value e = chars "value" /\ kv_flags e = 0.
Proof.
  assert (Hr : rtc (kv_step (fun _ _ _ => false)) ∅ demo_kv).
  { apply rtc_once. apply (kv_step_update _ true ∅ (demo_request 1000) (Zlen (demo_request 1000)) 1000000).
    vm_compute. reflexivity. }
  destruct (demo_kv !! chars "name") as [e|] eqn:E; [|vm_compute in E; discriminate].
  exists e. split; [reflexivity|].
  pose proof (kv_flags_never_stored (fun _ _ _ => false) demo_kv (chars "name") e Hr E) as [H _].
  split; [|exact H]. vm_compute in E. injection E as <-. vm_compute. reflexivity.
Defined.

(** ** Functional behaviour *)

Lemma kv_store_frame kv key size val pk height flags k :
  k <> key -> kv_store kv key size val pk height flags !! k = kv !! k.
Proof.
  intros H. unfold kv_store. repeat case_match; simplify_eq; by rewrite lookup_insert_ne.
Qed.

Lemma kvsearch_frame kv height key k :
  k <> key -> (hush_kvsearch kv height key).2 !! k = kv !! k.
Proof.
  intros H. unfold hush_kvsearch. destruct (kv !! key) as [e|]; [|done].
  destruct (kv_expired height e); [|done]. by apply lookup_delete_ne.
Qed.

Lemma kv_store_new kv key value tail pk height flags :
  kv !! key = None ->
  kv_store kv key (Zlen value) (value ++ tail) pk height flags =
    <[key := KV pk value height flags (Zlen value)]> kv.
Proof.
  intros H. unfold kv_store. rewrite H. cbn [orb]. destruct (Z.eqb_spec (Zlen value) 0) as [E|E]; cbn [negb].
  - destruct value; [done|]. unfold Zlen in E. cbn in E. lia.
  - unfold Zlen. by rewrite Nat2Z.id, take_app_length.
Qed.

(** Registering a key: a well-formed, sufficiently paid request for a key
    with no entry stores the value, the owner key of the request and its height;
    a search up to 1440 blocks later returns exactly these; a later search
    misses and removes the entry; no other key is affected. *)
Theorem kv_register_search sv kv key value height flags tail paid fee :
  kv_request_ok key value height flags tail ->
  kv !! key = None -> height + 1440 < 2 ^ 31 ->
  let buf := kv_opret key value height flags tail in
  hush_kvfee flags (Zlen buf) (Zlen key) = Some fee -> fee <= paid ->
  exists kv', hush_kvupdate sv true kv buf (Zlen buf) paid = Some kv' /\
    (forall h, h <= height + 1440 ->
       hush_kvsearch kv' h key = (KVFound (Zlen value) (tail_pubkey tail) 0 height value, kv')) /\
    (forall h, height + 1440 < h -> hush_kvsearch kv' h key = (kv_miss, kv)) /\
    (forall k, k <> key -> kv' !! k = kv !! k).
Proof.
  intros Hok Hnone Hh buf Hfee Hpaid. pose proof Hok as (_ & _ & _ & _ & _ & _ & Hs & _).
  pose proof (kvupdate_parse sv kv key value height flags tail paid fee Hok Hfee) as Hu.
  rewrite (proj2 (Z.leb_le _ _) Hpaid) in Hu. fold buf in Hu.
  assert (Happ : kv_apply sv kv key value height tail =
    <[key := KV (tail_pubkey tail) value height 0 (Zlen value)]> kv).
  { unfold kv_apply, hush_kvsearch. rewrite Hnone. cbn. by apply kv_store_new. }
  rewrite Happ in Hu. eexists. split; [exact Hu|]. unfold hush_kvsearch. rewrite lookup_insert_eq.
  unfold kv_expired. cbn [kv_height kv_flags kv_valuesize kv_pubkey kv_value].
  change (hush_kvduration 0) with 1440. rewrite s32_id by (unfold is_s32 in *; lia).
  split; [|split].
  - intros h Hle. rewrite (proj2 (Z.ltb_ge _ _)) by lia. do 2 f_equal.
    destruct (Z.ltb_spec 0 (Zlen value)) as [|Hz]; [done|].
    destruct value; [done|]. unfold Zlen in Hz. cbn in Hz. lia.
  - intros h Hlt. rewrite (proj2 (Z.ltb_lt _ _)) by lia. f_equal.
    rewrite delete_insert_eq. by apply delete_id.
  - intros k Hk. by rewrite lookup_insert_ne.
Qed.

#[export] Instance kv_request_ok_dec key value height flags tail :
  Decision (kv_request_ok key value height flags tail).
Proof. unfold kv_request_ok, kv_tail_ok. apply _. Defined.

Ltac decide_request := apply (bool_decide_eq_true_1 _); vm_compute; reflexivity.

Lemma kv_register_search_witness :
  exists kv', hush_kvupdate (fun _ _ _ => false) true ∅ (demo_request 1000) (Zlen (demo_request 1000)) 100000
    = Some kv' /\
    hush_kvsearch kv' 2440 (chars "name") = (KVFound 5 demo_owner 0 1000 (chars "value"), kv').
Proof.
  destruct (kv_register_search (fun _ _ _ => false) ∅ (chars "name") (chars "value") 1000 0x75 demo_owner
    100000 100000) as (kv' & H1 & H2 & _);
    [decide_request|reflexivity|lia|vm_compute; reflexivity|lia|].
  exists kv'. split; [exact H1|]. apply H2. lia.
Defined.

(** Ownership: while an entry is live at the height the request claims, has an
    owner key, and the signature check of the request fails, the update leaves
    the whole store unchanged. *)
Theorem kv_owner_protected sv kv key value height flags tail paid fee e :
  kv_request_ok key value height flags tail ->
  kv !! key = Some e -> kv_expired height e = false -> 0 <= kv_valuesize e ->
  kv_pubkey e <> zero256 ->
  sv (key ++ (if 0 <? kv_valuesize e then kv_value e else [])) (kv_pubkey e) (tail_sig tail) = false ->
  let buf := kv_opret key value height flags tail in
  hush_kvfee flags (Zlen buf) (Zlen key) = Some fee ->
  hush_kvupdate sv true kv buf (Zlen buf) paid = Some kv.
Proof.
  intros Hok He Hexp Hsz Hpk Hsig buf Hfee.
  pose proof (kvupdate_parse sv kv key value height flags tail paid fee Hok Hfee) as Hu.
  fold buf in Hu. rewrite Hu. f_equal. destruct (fee <=? paid); [|done].
  unfold kv_apply, hush_kvsearch. rewrite He, Hexp. cbn [kf_retval kf_pubkey kf_value].
  rewrite (proj2 (Z.leb_le _ _) Hsz), bool_decide_eq_false_2 by done. by rewrite Hsig.
Qed.

Lemma kv_owner_protected_witness :
  hush_kvupdate (fun _ _ _ => false) true demo_kv
    (kv_opret (chars "name") (chars "stolen") 1500 0 []) (Zlen (kv_opret (chars "name") (chars "stolen") 1500 0 []))
    100000 = Some demo_kv.
Proof.
  destruct (demo_kv !! chars "name") as [e|] eqn:E; [|vm_compute in E; discriminate].
  apply (kv_owner_protected (fun _ _ _ => false) demo_kv (chars "name") (chars "stolen") 1500 0 [] 100000 100000 e);
    try (vm_compute in E; injection E as <-).
  - decide_request.
  - vm_compute. reflexivity.
  - vm_compute. reflexivity.
  - vm_compute. discriminate.
  - vm_compute. discriminate.
  - reflexivity.
  - vm_compute. reflexivity.
Defined.

(** The height that decides whether an entry has expired is the one written in
    the request: a request that claims a height beyond the expiry of the
    present entry replaces it, owner key included, without any signature,
    whatever the actual height of the chain. *)
Theorem kv_claimed_height_takeover sv kv key value height flags tail paid fee e :
  kv_request_ok key value height flags tail ->
  kv !! key = Some e -> kv_expired height e = true ->
  let buf := kv_opret key value height flags tail in
  hush_kvfee flags (Zlen buf) (Zlen key) = Some fee -> fee <= paid ->
  hush_kvupdate sv true kv buf (Zlen buf) paid =
    Some (<[key := KV (tail_pubkey tail) value height 0 (Zlen value)]> kv).
Proof.
  intros Hok He Hexp buf Hfee Hpaid.
  pose proof (kvupdate_parse sv kv key value height flags tail paid fee Hok Hfee) as Hu.
  fold buf in Hu. rewrite Hu, (proj2 (Z.leb_le _ _) Hpaid). f_equal.
  unfold kv_apply, hush_kvsearch. rewrite He, Hexp. cbn [kf_retval kf_pubkey kf_value kv_miss kf_flags].
  cbn [Z.leb Z.compare andb]. rewrite kv_store_new by apply lookup_delete_eq. apply insert_delete_eq.
Qed.

Lemma kv_claimed_height_takeover_witness :
  hush_kvupdate (fun _ _ _ => false) true demo_kv
    (kv_opret (chars "name") (chars "stolen") 2441 0 (le_bytes 32 666))
    (Zlen (kv_opret (chars "name") (chars "stolen") 2441 0 (le_bytes 32 666))) 100000
  = Some (<[chars "name" := KV (le_bytes 32 666) (chars "stolen") 2441 0 6]> demo_kv).
Proof.
  destruct (demo_kv !! chars "name") as [e|] eqn:E; [|vm_compute in E; discriminate].
  apply (kv_claimed_height_takeover (fun _ _ _ => false) demo_kv (chars "name") (chars "stolen") 2441 0
    (le_bytes 32 666) 100000 100000 e); try (vm_compute in E; injection E as <-).
  - decide_request.
  - vm_compute. reflexivity.
  - vm_compute. reflexivity.
  - vm_compute. reflexivity.
  - lia.
Defined.

(** A request with an empty key divides by zero in [hush_kvfee] before anything is
    checked: the process stops, whatever the store holds and whatever was paid. *)
Theorem kv_empty_key_divides sv kv paid :
  hush_kvupdate sv true kv (75 :: replicate 12 0) 13 paid = None.
Proof. reflexivity. Qed.
