(* ===== verification/Events.v ===== *)
(** * The event log of a node

    src/src/hush_events.h, with [hush_baseid] of src/src/hush_globals.h,
    [hush_nameset] of src/src/hush_utils.h and the entry of [hush_opreturn] of
    src/src/hush_gateway.h.  [node] gathers the globals these functions change:
    the chain's [struct hush_state], the key-value table, the notary tables and
    the two [HUSH_LASTMINED] variables.  A step that would crash the process is
    [None].  Strings are lists of characters without the final NUL. *)
From Stdlib Require Import String.
From stdpp Require Import sorting.
From S2P Require Import Prelude Encoding NotaryList Notarized Notary KV.
Local Open Scope string_scope.
Local Open Scope list_scope.
Local Open Scope Z_scope.

(** ** Names *)

Definition CURRENCIES : list (list Z) := map chars
  ["USD"; "EUR"; "JPY"; "GBP"; "AUD"; "CAD"; "CHF"; "NZD";
   "CNY"; "RUB"; "MXN"; "BRL"; "INR"; "HKD"; "TRY"; "ZAR"; "PLN"; "NOK"; "SEK"; "DKK"; "CZK"; "HUF";
   "ILS"; "KRW"; "MYR"; "PHP"; "RON"; "SGD"; "THB"; "BGN"; "IDR"; "HRK"; "HUSH"].

Definition toupper (c : Z) : Z := if (97 <=? c) && (c <=? 122) then c - 32 else c.

(** Names of 64 characters or more overrun the local buffer and are excluded by
    the 64-character limit of [SMART_CHAIN_SYMBOL]. *)
Definition hush_baseid (origbase : list Z) : Z :=
  match list_find (fun c => c = map toupper origbase) CURRENCIES with
  | Some (i, _) => Z.of_nat i
  | None => -1
  end.

(** The pair [symbol], [dest]. *)
Definition hush_nameset (source : list Z) : list Z * list Z :=
  match source with
  | [] => (chars "HUSH3", chars "BTC")
  | _ => (source, chars "HUSH3")
  end.

(** The index in [HUSH_STATES]. *)
Definition hush_stateptrget (base : list Z) : Z :=
  match base with
  | [] => 33
  | _ => if 0 <=? hush_baseid base then hush_baseid base + 1 else 0
  end.

(** ** The node *)

Record node := Node {
  n_sp : hush_state;
  n_kv : kv_table;
  n_notary : notary_state;
  HUSH_LASTMINED : Z;
  prevHUSH_LASTMINED : Z
}.

Definition with_sp (sp : hush_state) (w : node) : node :=
  Node sp (n_kv w) (n_notary w) (HUSH_LASTMINED w) (prevHUSH_LASTMINED w).
Definition with_kv (kv : kv_table) (w : node) : node :=
  Node (n_sp w) kv (n_notary w) (HUSH_LASTMINED w) (prevHUSH_LASTMINED w).
Definition with_notary (s : notary_state) (w : node) : node :=
  Node (n_sp w) (n_kv w) s (HUSH_LASTMINED w) (prevHUSH_LASTMINED w).
Definition with_mined (last prev : Z) (w : node) : node :=
  Node (n_sp w) (n_kv w) (n_notary w) last prev.

Definition EV_RATIFY : Z := 80.       (* 'P' *)
Definition EV_NOTARIZED : Z := 78.    (* 'N' *)
Definition EV_HUSHHEIGHT : Z := 75.   (* 'K' *)
Definition EV_REWIND : Z := 66.       (* 'B' *)
Definition EV_PRICEFEED : Z := 86.    (* 'V' *)
Definition EV_OPRETURN : Z := 82.     (* 'R' *)

(** [sizeof(struct hush_event)]: 83 bytes of fields, padded to 8. *)
Definition sizeof_event : Z := 88.
Definition sizeof_opreturn : Z := 48.

Record chain_env := ChainEnv {
  SYMBOL : list Z;                           (* SMART_CHAIN_SYMBOL *)
  IS_HUSH_NOTARY : bool;
  EXTERNAL_NOTARIES : bool;                  (* HUSH_EXTERNAL_NOTARIES *)
  (* hush_verifynotarization: an RPC query to the notarized chain *)
  verifynotarization : list Z -> list Z -> Z -> Z -> uint256 -> uint256 -> Z;
  (* hush_kvsigverify *)
  kvsigverify : list Z -> list Z -> list Z -> bool;
  (* the exchange accounting of hush_opreturn on the fiat-pegged chains *)
  pax_opreturn : Z -> Z -> list Z -> uint256 -> Z -> node -> node;
  (* oplen and padding of struct hush_event_opreturn, not set when it is copied *)
  opreturn_junk : list Z
}.

Section Events.
Context (E : chain_env).

(** ** Adding events *)

Definition hush_eventadd (sp : hush_state) (height : Z) (symbol : list Z) (type : Z)
  (data : list Z) (datalen : Z) : hush_state :=
  match SYMBOL E with
  | [] => sp
  | _ => set_events (Hush_events sp ++
           [Event (u16 (sizeof_event + datalen)) height type symbol (take (Z.to_nat datalen) data)]) sp
  end.

Definition coin : list Z := match SYMBOL E with [] => chars "HUSH3" | s => s end.

(** The bytes of [struct hush_event_notarized]. *)
Definition notarized_bytes (hash txid : uint256) (nh : Z) (MoM : uint256) (depth : Z) (dest : list Z) : list Z :=
  hash ++ txid ++ MoM ++ le_bytes 4 nh ++ le_bytes 4 depth ++ take 16 (take 15 dest ++ replicate 16 0).

Definition hush_eventadd_notarized (w : node) (symbol : list Z) (height : Z) (dest : list Z)
  (notarized_hash notarized_desttxid : uint256) (notarizedheight : Z) (MoM : uint256) (MoMdepth : Z) : node :=
  if IS_HUSH_NOTARY E
     && (verifynotarization E symbol dest height notarizedheight notarized_hash notarized_desttxid <? 0) then w
  else if bool_decide (symbol = coin) then
    let data := notarized_bytes notarized_hash notarized_desttxid notarizedheight MoM MoMdepth dest in
    let sp := hush_eventadd (n_sp w) height symbol EV_NOTARIZED data 120 in
    with_sp (hush_notarized_update sp height notarizedheight notarized_hash notarized_desttxid MoM MoMdepth) w
  else w.

Definition hush_eventadd_pubkeys (w : node) (symbol : list Z) (height : Z) (num : nat)
  (pubkeys : list (list Z)) : node :=
  let data := Z.of_nat num :: concat (take num pubkeys) in
  let sp := hush_eventadd (n_sp w) height symbol EV_RATIFY data (1 + 33 * Z.of_nat num) in
  with_notary (hush_notarysinit (n_notary w) height pubkeys num) (with_sp sp w).

(** [hush_pvals] is empty. *)
Definition hush_eventadd_pricefeed (w : node) (symbol : list Z) (height : Z) (prices : list Z) (num : nat) : node :=
  if (num =? 35)%nat then
    let data := Z.of_nat num :: concat (map (le_bytes 4) (take num prices)) in
    with_sp (hush_eventadd (n_sp w) height symbol EV_PRICEFEED data (1 + 4 * Z.of_nat num)) w
  else w.

Definition hush_opreturn (w : node) (height value : Z) (opretbuf : list Z) (opretlen : Z)
  (txid : uint256) (vout : Z) : option node :=
  let enabled := match SYMBOL E with [] => false | _ => true end in
  if enabled && (hush_baseid (SYMBOL E) <? 0) && negb (rd opretbuf 0 =? 75) then Some w
  else if (rd opretbuf 0 =? 75) && negb (opretlen =? 40) then
    match hush_kvupdate (kvsigverify E) enabled (n_kv w) opretbuf opretlen value with
    | Some kv => Some (with_kv kv w)
    | None => None
    end
  else if rd opretbuf 0 =? 75 then Some w
  else Some (pax_opreturn E height value opretbuf txid vout w).

Definition hush_eventadd_opreturn (w : node) (symbol : list Z) (height : Z) (txid : uint256)
  (value vout : Z) (buf : list Z) : option node :=
  match SYMBOL E with
  | [] => Some w
  | _ =>
    let data := txid ++ le_bytes 8 value ++ le_bytes 2 vout ++ opreturn_junk E ++ buf in
    let sp := hush_eventadd (n_sp w) height symbol EV_OPRETURN data (u16 (Zlen buf + sizeof_opreturn)) in
    hush_opreturn (with_sp sp w) height value buf (Zlen buf) txid vout
  end.

(** ** Undoing events *)

Definition hush_event_undo (sp : hush_state) (ep : hush_event) : hush_state :=
  if (ev_type ep =? EV_HUSHHEIGHT) && (ev_height ep <=? SAVEDHEIGHT sp)
  then set_heights (ev_height ep) (SAVEDTIMESTAMP sp) (CURRENT_HEIGHT sp) sp
  else sp.

(** The loop, on the events from the newest to the oldest. *)
Fixpoint rewind_loop (height : Z) (newest_first : list hush_event) (sp : hush_state) : hush_state :=
  match newest_first with
  | [] => set_events [] sp
  | ep :: older =>
    if ev_height ep <? height then set_events (rev newest_first) sp
    else rewind_loop height older (hush_event_undo sp ep)
  end.

Definition hush_event_rewind (w : node) (height : Z) : node :=
  let w :=
    match SYMBOL E with
    | [] => if (height <=? HUSH_LASTMINED w) && negb (prevHUSH_LASTMINED w =? 0)
            then with_mined (prevHUSH_LASTMINED w) 0 w else w
    | _ => w
    end in
  with_sp (rewind_loop height (rev (Hush_events (n_sp w))) (n_sp w)) w.

Definition hush_sethushheight (sp : hush_state) (hushheight timestamp : Z) : hush_state :=
  let sp := if SAVEDHEIGHT sp <? hushheight
            then set_heights hushheight timestamp (CURRENT_HEIGHT sp) sp else sp in
  if CURRENT_HEIGHT sp <? hushheight
  then set_heights (SAVEDHEIGHT sp) (SAVEDTIMESTAMP sp) hushheight sp else sp.

Definition hush_eventadd_hushheight (w : node) (symbol : list Z) (height hushheight timestamp : Z) : node :=
  if 0 <? hushheight then
    let data := le_bytes 4 hushheight ++ le_bytes 4 timestamp in
    let sp := hush_eventadd (n_sp w) height symbol EV_HUSHHEIGHT data 8 in
    with_sp (hush_sethushheight sp hushheight timestamp) w
  else
    let sp := hush_eventadd (n_sp w) height symbol EV_REWIND (le_bytes 4 height) 4 in
    hush_event_rewind (with_sp sp w) height.

Definition hush_currentheight_set (w : node) (height : Z) : node :=
  with_sp (set_heights (SAVEDHEIGHT (n_sp w)) (SAVEDTIMESTAMP (n_sp w)) height (n_sp w)) w.

Definition hush_currentheight (superlite : option Z) (w : node) : Z :=
  match superlite with
  | Some height => height                   (* NSPV_inforesult.height *)
  | None => CURRENT_HEIGHT (n_sp w)
  end.

End Events.

(** ** Rewinding *)

Definition ev_sorted (l : list hush_event) : Prop :=
  StronglySorted (fun a b => ev_height a <= ev_height b) l.

(** The fields a rewind may not touch. *)
Definition same_checkpoints (sp sp' : hush_state) : Prop :=
  NPOINTS sp' = NPOINTS sp /\ NOTARIZED_HEIGHT sp' = NOTARIZED_HEIGHT sp /\
  NOTARIZED_HASH sp' = NOTARIZED_HASH sp /\ NOTARIZED_DESTTXID sp' = NOTARIZED_DESTTXID sp /\
  sp_MoM sp' = sp_MoM sp /\ sp_MoMdepth sp' = sp_MoMdepth sp /\ last_NPOINTSi sp' = last_NPOINTSi sp /\
  CURRENT_HEIGHT sp' = CURRENT_HEIGHT sp.

Lemma undo_frame sp ep :
  same_checkpoints sp (hush_event_undo sp ep) /\ SAVEDHEIGHT (hush_event_undo sp ep) <= SAVEDHEIGHT sp.
Proof.
  unfold hush_event_undo, same_checkpoints. destruct (_ && _) eqn:H; cbn; [|repeat split; lia].
  apply andb_prop in H as [_ H%Z.leb_le]. repeat split; lia.
Qed.

Lemma rewind_loop_frame height l sp :
  same_checkpoints sp (rewind_loop height l sp) /\ SAVEDHEIGHT (rewind_loop height l sp) <= SAVEDHEIGHT sp.
Proof.
  revert sp. induction l as [|ep l IH]; intros sp; cbn [rewind_loop]; [by repeat split|].
  destruct (ev_height ep <? height); [by repeat split|].
  destruct (IH (hush_event_undo sp ep)) as [H1 H2], (undo_frame sp ep) as [H3 H4].
  split; [|lia]. unfold same_checkpoints in *. intuition congruence.
Qed.

Lemma rewind_loop_events height l sp :
  StronglySorted (fun a b => ev_height b <= ev_height a) l ->
  Hush_events (rewind_loop height l sp) = rev (List.filter (fun e => ev_height e <? height) l).
Proof.
  intros Hs. revert sp. induction Hs as [|ep l Hs IH Hall]; intros sp; cbn [rewind_loop]; [done|].
  destruct (ev_height ep <? height) eqn:E; cbn [List.filter Hush_events set_events]; rewrite E.
  - apply Z.ltb_lt in E. do 2 f_equal. symmetry. apply forallb_filter_id, forallb_forall.
    intros x Hx. rewrite List.Forall_forall in Hall. specialize (Hall x Hx). lia.
  - apply IH.
Qed.

Lemma ev_sorted_rev l : ev_sorted l -> StronglySorted (fun a b => ev_height b <= ev_height a) (rev l).
Proof.
  induction 1 as [|e l Hs IH Hall]; cbn; [constructor|].
  apply StronglySorted_app_2; [|done|repeat constructor].
  intros x y Hx Hy. apply list_elem_of_singleton in Hy as ->.
  rewrite Forall_forall in Hall. apply Hall. apply list_elem_of_In, in_rev. by apply list_elem_of_In.
Qed.

Lemma rewind_events E w height :
  ev_sorted (Hush_events (n_sp w)) ->
  Hush_events (n_sp (hush_event_rewind E w height)) =
    List.filter (fun e => ev_height e <? height) (Hush_events (n_sp w)).
Proof.
  intros Hs. unfold hush_event_rewind.
  assert (H : forall w', n_sp w' = n_sp w ->
    Hush_events (n_sp (with_sp (rewind_loop height (rev (Hush_events (n_sp w'))) (n_sp w')) w')) =
    List.filter (fun e => ev_height e <? height) (Hush_events (n_sp w))).
  { intros w' ->. cbn. rewrite rewind_loop_events by by apply ev_sorted_rev.
    by rewrite filter_rev, rev_involutive. }
  apply H. by repeat case_match.
Qed.

(** Rewinding a log in height order to [height] keeps exactly the events
    strictly below [height] and never raises the saved height; a record with a
    nonpositive notarized-chain height has the same effect on the log (the
    marker event it appends is removed at once).  Neither touches the
    checkpoints, the last notarization, the key-value store or the notary
    tables: these survive a reorganisation. *)
Theorem rewind_spec E w symbol height hushheight timestamp :
  ev_sorted (Hush_events (n_sp w)) ->
  Forall (fun e => ev_height e <= height) (Hush_events (n_sp w)) -> hushheight <= 0 ->
  let w1 := hush_event_rewind E w height in
  let w2 := hush_eventadd_hushheight E w symbol height hushheight timestamp in
  let kept := List.filter (fun e => ev_height e <? height) (Hush_events (n_sp w)) in
  Hush_events (n_sp w1) = kept /\ Hush_events (n_sp w2) = kept /\
  same_checkpoints (n_sp w) (n_sp w1) /\ same_checkpoints (n_sp w) (n_sp w2) /\
  SAVEDHEIGHT (n_sp w1) <= SAVEDHEIGHT (n_sp w) /\
  n_kv w1 = n_kv w /\ n_kv w2 = n_kv w /\ n_notary w1 = n_notary w /\ n_notary w2 = n_notary w.
Proof.
  intros Hs Hle Hk w1 w2 kept.
  assert (Hfr : forall w0, same_checkpoints (n_sp w0) (n_sp (hush_event_rewind E w0 height)) /\
    SAVEDHEIGHT (n_sp (hush_event_rewind E w0 height)) <= SAVEDHEIGHT (n_sp w0) /\
    n_kv (hush_event_rewind E w0 height) = n_kv w0 /\
    n_notary (hush_event_rewind E w0 height) = n_notary w0).
  { intros w0. unfold hush_event_rewind. cbn [n_sp with_sp n_kv n_notary].
    repeat case_match; cbn [n_sp with_mined n_kv n_notary]; split; try apply rewind_loop_frame;
      (split; [apply rewind_loop_frame|done]). }
  destruct (Hfr w) as (F1 & F2 & F3 & F4). fold w1 in F1, F2, F3, F4.
  assert (E1 : Hush_events (n_sp w1) = kept) by (by apply rewind_events).
  unfold w2, hush_eventadd_hushheight. rewrite (proj2 (Z.ltb_ge 0 hushheight)) by lia.
  set (sp' := hush_eventadd E (n_sp w) height symbol EV_REWIND (le_bytes 4 height) 4).
  destruct (Hfr (with_sp sp' w)) as (G1 & _ & G3 & G4).
  assert (Hsc : same_checkpoints (n_sp w) sp') by (unfold sp', hush_eventadd; by repeat case_match).
  split; [done|]. split; [|split; [done|split; [|split; [done|split; [done|split; [done|split; done]]]]]].
  - destruct (SYMBOL E) as [|c s] eqn:Esym.
    + assert (sp' = n_sp w) as -> by (unfold sp', hush_eventadd; by rewrite Esym).
      rewrite rewind_events by done. done.
    + assert (Hev : exists e, ev_height e = height /\ Hush_events sp' = Hush_events (n_sp w) ++ [e]).
      { unfold sp', hush_eventadd. rewrite Esym. cbn. by eexists (Event _ _ _ _ _). }
      destruct Hev as (e & He & Hev). rewrite rewind_events; cbn [n_sp with_sp]; rewrite Hev.
      * rewrite List.filter_app. cbn [List.filter]. rewrite He, Z.ltb_irrefl. apply app_nil_r.
      * apply StronglySorted_app_2; [|done|repeat constructor]. intros x y Hx Hy.
        apply list_elem_of_singleton in Hy as ->. rewrite He. rewrite Forall_forall in Hle. by apply Hle.
  - unfold same_checkpoints in *. cbn [n_sp with_sp] in G1. intuition congruence.
Qed.

Definition demo_env : chain_env :=
  ChainEnv (chars "HUSH3") false true (fun _ _ _ _ _ _ => 0) (fun _ _ _ => false)
    (fun _ _ _ _ _ w => w) (replicate 6 0).
Definition demo_node : node := Node init_state ∅ (NotaryState None 0 false []) 0 0.
Definition demo_log : node :=
  hush_eventadd_hushheight demo_env (hush_eventadd_hushheight demo_env demo_node (chars "HUSH3") 10 500 1600000000)
    (chars "HUSH3") 20 510 1600000100.

Lemma rewind_spec_witness :
  map ev_height (Hush_events (n_sp demo_log)) = [10; 20] /\
  map ev_height (Hush_events (n_sp (hush_event_rewind demo_env demo_log 20))) = [10].
Proof.
  split; [vm_compute; reflexivity|].
  rewrite (proj1 (rewind_spec demo_env demo_log (chars "HUSH3") 20 0 0
    ltac:(repeat (constructor; cbn; try lia)) ltac:(repeat (constructor; cbn; try lia)) ltac:(lia))).
  vm_compute. reflexivity.
Defined.
