(* ===== verification/StateFile.v ===== *)
(** * The state file: writing, parsing and replay

    [hush_stateupdate] appends one record per event to the file "hushstate" and
    applies the event to the node; at start-up [hush_faststateinit] (or, if that
    fails, the [FILE]-based loop) parses the records and applies them again.
    src/src/hush.h and the index functions of src/src/hush_gateway.h.

    The two parsers of the source are the same code over two byte sources, a
    memory image with a cursor and a [FILE]; [parse_record] is that code over
    the interface [ByteSource].  Where the source goes on with variables that a
    short read left uninitialised, the model has no result ([None]). *)
From Stdlib Require Import String.
From S2P Require Import Prelude Encoding NotaryList Notarized Notary KV Events.
Local Open Scope string_scope.
Local Open Scope list_scope.
Local Open Scope Z_scope.

(** ** Byte sources *)

Class ByteSource (S : Type) := {
  src_getc : S -> option Z * S;
  src_read : nat -> S -> option (list Z) * S
}.

(** [filedata] with the cursor [fpos]; [memread] leaves the cursor alone when it
    fails.  A byte read at the end is the NUL that [OS_loadfile] appends. *)
Definition mem_source (filedata : list Z) : ByteSource nat := {|
  src_getc fpos := (Some (rd filedata fpos), S fpos);
  src_read n fpos := match memread n filedata fpos with
                     | Some (b, fpos) => (Some b, fpos)
                     | None => (None, fpos)
                     end
|}.

(** A [FILE] is what is left to read; a short [fread] consumes all of it. *)
Definition file_source : ByteSource (list Z) := {|
  src_getc fp := match fp with [] => (None, []) | c :: fp => (Some c, fp) end;
  src_read n fp := if (n <=? length fp)%nat then (Some (take n fp), drop n fp) else (None, [])
|}.

(** ** Parsing *)

Fixpoint chunks (n num : nat) (l : list Z) : list (list Z) :=
  match num with
  | O => []
  | S num => take n l :: chunks n num (drop n l)
  end.

Definition le_s32 (b : list Z) : Z := s32 (le_num b).

Section Parser.
Context (E : chain_env) (symbol dest : list Z).

Definition matched : bool := bool_decide (symbol = SYMBOL E).

Section Source.
Context {S : Type} `{ByteSource S}.

(** 'P': a set of notary keys. *)
Definition parse_P (w : node) (ht : option (list Z)) (s : S) : option (node * S) :=
  let '(num, s) := src_getc s in
  num ← num;
  if num <=? 64 then
    let '(keys, s) := src_read (33 * Z.to_nat num) s in
    match keys with
    | None => Some (w, s)
    | Some keys =>
      if EXTERNAL_NOTARIES E && matched then
        ht ← ht;
        Some (hush_eventadd_pubkeys E w symbol (le_s32 ht) (Z.to_nat num) (chunks 33 (Z.to_nat num) keys), s)
      else Some (w, s)
    end
  else Some (w, s).

(** 'N' and 'M': a notarization, without and with a Merkle root. *)
Definition parse_NM (w : node) (isM : bool) (ht : option (list Z)) (s : S) : option (node * S) :=
  let '(nh, s) := src_read 4 s in
  let '(hash, s) := src_read 32 s in
  let '(txid, s) := src_read 32 s in
  let '(MoM, depth, s) :=
    if isM then
      let '(MoM, s) := src_read 32 s in
      let '(depth, s) := src_read 4 s in (MoM, depth, s)
    else (Some zero256, Some [0; 0; 0; 0], s) in
  ht ← ht; nh ← nh; hash ← hash; txid ← txid; MoM ← MoM; depth ← depth;
  Some (hush_eventadd_notarized E w symbol (le_s32 ht) dest hash txid (le_s32 nh) MoM (le_s32 depth), s).

(** 'U': deprecated, skipped. *)
Definition parse_U (w : node) (s : S) : option (node * S) :=
  let '(_, s) := src_getc s in
  let '(_, s) := src_getc s in
  let '(_, s) := src_read 8 s in
  let '(_, s) := src_read 32 s in
  Some (w, s).

(** 'K' and 'T': a height of the notarized chain, without and with time. *)
Definition parse_KT (w : node) (isT : bool) (ht : option (list Z)) (s : S) : option (node * S) :=
  let '(kheight, s) := src_read 4 s in
  let '(ts, s) := if isT then src_read 4 s else (Some [0; 0; 0; 0], s) in
  ht ← ht; kheight ← kheight; ts ← ts;
  Some (hush_eventadd_hushheight E w symbol (le_s32 ht) (le_s32 kheight) (u32 (le_s32 ts)), s).

(** 'R': an OP_RETURN; [olen] is below the size of [opret], 65536. *)
Definition parse_R (w : node) (ht : option (list Z)) (s : S) : option (node * S) :=
  let '(txid, s) := src_read 32 s in
  let '(v, s) := src_read 2 s in
  let '(ovalue, s) := src_read 8 s in
  let '(olen, s) := src_read 2 s in
  olen ← olen;
  let '(opret, s) := src_read (Z.to_nat (le_num olen)) s in
  ht ← ht; txid ← txid; v ← v; ovalue ← ovalue; opret ← opret;
  w ← hush_eventadd_opreturn E w symbol (le_s32 ht) txid (le_num ovalue) (le_num v) opret;
  Some (w, s).

(** 'V': a price feed. *)
Definition parse_V (w : node) (ht : option (list Z)) (s : S) : option (node * S) :=
  let '(numpvals, s) := src_getc s in
  match numpvals with
  | None => Some (w, s)
  | Some n =>
    if n * 4 <=? 512 then
      let '(pvals, s) := src_read (4 * Z.to_nat n) s in
      match pvals with
      | None => Some (w, s)
      | Some pvals =>
        ht ← ht;
        Some (hush_eventadd_pricefeed E w symbol (le_s32 ht)
                (map le_num (chunks 4 (Z.to_nat n) pvals)) (Z.to_nat n), s)
      end
    else Some (w, s)
  end.

(** One record after its type byte [func]. *)
Definition parse_record (w : node) (func : Z) (s : S) : option (node * S) :=
  let '(ht, s) := src_read 4 s in
  if func =? 80 then parse_P w ht s
  else if (func =? 78) || (func =? 77) then parse_NM w (func =? 77) ht s
  else if func =? 85 then parse_U w s
  else if func =? 75 then parse_KT w false ht s
  else if func =? 84 then parse_KT w true ht s
  else if func =? 82 then parse_R w ht s
  else if func =? 86 then parse_V w ht s
  else Some (w, s).

End Source.

(** [None]: no defined result; [Some None]: the -1 return at the end of the data. *)
Definition hush_parsestatefiledata (w : node) (filedata : list Z) (fpos : nat)
  : option (option (Z * node * nat)) :=
  if (fpos <? length filedata)%nat then
    let func := rd filedata fpos in
    r ← @parse_record nat (mem_source filedata) w func (S fpos);
    Some (Some (func, r.1, r.2))
  else Some None.

Definition hush_parsestatefile (w : node) (fp : list Z) : option (option (Z * node * list Z)) :=
  match fp with
  | [] => Some None
  | func :: fp =>
    r ← @parse_record (list Z) file_source w func fp;
    Some (Some (func, r.1, r.2))
  end.

(** The two loading loops; every record consumes at least its type byte. *)
Fixpoint load_mem (fuel : nat) (w : node) (filedata : list Z) (fpos : nat) : option node :=
  match fuel with
  | O => None
  | S fuel =>
    r ← hush_parsestatefiledata w filedata fpos;
    match r with
    | Some (_, w, fpos) => load_mem fuel w filedata fpos
    | None => Some w
    end
  end.

Fixpoint load_file (fuel : nat) (w : node) (fp : list Z) : option node :=
  match fuel with
  | O => None
  | S fuel =>
    r ← hush_parsestatefile w fp;
    match r with
    | Some (_, w, fp) => load_file fuel w fp
    | None => Some w
    end
  end.

End Parser.

(** ** Writing *)

(** The arguments of [hush_stateupdate]; a null pointer is [None]. *)
Record update_args := UpdateArgs {
  ua_height : Z;
  ua_notarypubs : option (list (list Z)); ua_numnotaries : Z; ua_notaryid : Z;
  ua_txhash : uint256; ua_voutmask : Z; ua_numvouts : Z;
  ua_pvals : option (list Z); ua_numpvals : Z;
  ua_HUSHheight : Z; ua_HUSHtimestamp : Z;
  ua_opretvalue : Z; ua_opretbuf : option (list Z); ua_opretlen : Z; ua_vout : Z
}.

(** The stream of the state file: [None] until the first call opens it. *)
Record state_file := StateFile { sf_disk : option (list Z); sf_open : bool }.

Section Writer.
Context (E : chain_env).

(** The last branch: the current notarization of [sp]. *)
Definition has_MoM (sp : hush_state) : bool :=
  negb (sp_MoMdepth sp =? 0) && negb (bool_decide (sp_MoM sp = zero256)).

Definition notarized_payload (sp : hush_state) : list Z :=
  le_bytes 4 (NOTARIZED_HEIGHT sp) ++ NOTARIZED_HASH sp ++ NOTARIZED_DESTTXID sp
  ++ (if has_MoM sp then sp_MoM sp ++ le_bytes 4 (sp_MoMdepth sp) else []).

Definition write_notarized (w : node) (symbol dest : list Z) (height : Z) : node * list Z :=
  let sp := n_sp w in
  (hush_eventadd_notarized E w symbol height dest (NOTARIZED_HASH sp) (NOTARIZED_DESTTXID sp)
     (NOTARIZED_HEIGHT sp) (sp_MoM sp) (sp_MoMdepth sp),
   [if has_MoM sp then 77 else 78] ++ le_bytes 4 height ++ notarized_payload sp).

(** 'U', 'V' or the notarization. *)
Definition write_misc (w : node) (symbol dest : list Z) (a : update_args) : node * list Z :=
  let height := ua_height a in
  if negb (ua_voutmask a =? 0) && (0 <? ua_numvouts a) then
    (w, [85] ++ le_bytes 4 height ++ [ua_numvouts a] ++ [ua_notaryid a]
        ++ le_bytes 8 (ua_voutmask a) ++ ua_txhash a)
  else
    match ua_pvals a, 0 <? ua_numpvals a with
    | Some pvals, true =>
      let nonz := length (List.filter (fun p => negb (p =? 0)) (map (rd pvals) (seq 0 32))) in
      if (32 <=? nonz)%nat then
        let num := Z.to_nat (ua_numpvals a) in
        (hush_eventadd_pricefeed E w symbol height pvals num,
         [86] ++ le_bytes 4 height ++ [ua_numpvals a] ++ concat (map (le_bytes 4) (take num pvals)))
      else (w, [])
    | _, _ => write_notarized w symbol dest height
    end.

(** 'P' or one of those. *)
Definition write_pubs (w : node) (symbol dest : list Z) (a : update_args) : node * list Z :=
  match ua_notarypubs a, 0 <? ua_numnotaries a with
  | Some pubs, true =>
    let num := Z.to_nat (ua_numnotaries a) in
    (hush_eventadd_pubkeys E w symbol (ua_height a) num pubs,
     [80] ++ le_bytes 4 (ua_height a) ++ [ua_numnotaries a] ++ concat (take num pubs))
  | _, _ => write_misc w symbol dest a
  end.

(** The record written and the event applied, after the initial part: 'T' or
    'K', else 'R', else the others. *)
Definition write_record (w : node) (a : update_args) : option (node * list Z) :=
  let '(symbol, dest) := hush_nameset (SYMBOL E) in
  let height := ua_height a in
  if negb (ua_HUSHheight a =? 0) then
    Some (hush_eventadd_hushheight E w symbol height (ua_HUSHheight a) (ua_HUSHtimestamp a),
          if negb (ua_HUSHtimestamp a =? 0)
          then [84] ++ le_bytes 4 height ++ le_bytes 4 (ua_HUSHheight a) ++ le_bytes 4 (ua_HUSHtimestamp a)
          else [75] ++ le_bytes 4 height ++ le_bytes 4 (ua_HUSHheight a))
  else
    match ua_opretbuf a, 0 <? ua_opretlen a with
    | Some buf, true =>
      let opret := take (Z.to_nat (ua_opretlen a)) buf in
      w ← hush_eventadd_opreturn E w symbol height (ua_txhash a) (ua_opretvalue a) (ua_vout a) opret;
      Some (w, [82] ++ le_bytes 4 height ++ ua_txhash a ++ le_bytes 2 (ua_vout a)
               ++ le_bytes 8 (ua_opretvalue a) ++ le_bytes 2 (ua_opretlen a) ++ opret)
    | _, _ => Some (write_pubs w symbol dest a)
    end.

(** The initial part: open the file, or create it, and load what it holds.  A
    file of size 0 is not loaded by [OS_loadfile] and goes to the second loop. *)
Definition state_open (w : node) (f : state_file) : option (node * state_file) :=
  if sf_open f then Some (w, f)
  else
    let '(symbol, dest) := hush_nameset (SYMBOL E) in
    match sf_disk f with
    | Some data =>
      w ← match data with
          | [] => load_file E symbol dest (S (length data)) w data
          | _ => load_mem E symbol dest (S (length data)) w data 0
          end;
      Some (w, StateFile (Some data) true)
    | None => Some (w, StateFile (Some []) true)
    end.

Definition hush_stateupdate (w : node) (f : state_file) (a : update_args) : option (node * state_file) :=
  r ← state_open w f;
  let '(w, f) := (r : node * state_file) in
  if ua_height a <=? 0 then Some (w, f)
  else
    r ← write_record w a;
    let '(w, bytes) := (r : node * list Z) in
    Some (w, StateFile (Some (default [] (sf_disk f) ++ bytes)) true).

End Writer.

(** ** What the parsers need of a source *)

(** [view s]: the bytes that are left. *)
Class LawfulSource (S : Type) `{ByteSource S} (view : S -> list Z) : Prop := {
  read_law s b rest : b <> [] -> view s = b ++ rest ->
    exists s', src_read (length b) s = (Some b, s') /\ view s' = rest;
  getc_law s c rest : view s = c :: rest ->
    exists s', src_getc s = (Some c, s') /\ view s' = rest
}.

Lemma mem_source_lawful filedata :
  @LawfulSource nat (mem_source filedata) (fun fpos => drop fpos filedata).
Proof.
  split.
  - intros fpos b rest Hne Hv. cbn. unfold memread.
    assert (Hlen : (length (drop fpos filedata) = length b + length rest)%nat) by (by rewrite Hv, length_app).
    rewrite length_drop in Hlen. destruct b as [|x b]; [done|]. cbn [length] in Hlen.
    rewrite (proj2 (Nat.leb_le _ _)) by (cbn [length]; lia). rewrite Hv, take_app_length.
    eexists. split; [done|]. rewrite <- drop_drop, Hv. apply drop_app_length.
  - intros fpos c rest Hv. exists (S fpos). cbn. split.
    + do 2 f_equal. apply rd_lookup. rewrite <- (Nat.add_0_r fpos), <- lookup_drop, Hv. done.
    + rewrite <- Nat.add_1_r, <- drop_drop, Hv. done.
Qed.

Lemma file_source_lawful : @LawfulSource (list Z) file_source (fun fp => fp).
Proof.
  split.
  - intros fp b rest _ ->. exists rest. cbn. rewrite length_app.
    rewrite (proj2 (Nat.leb_le _ _)) by lia. by rewrite take_app_length, drop_app_length.
  - intros fp c rest ->. by exists rest.
Qed.

(** ** Field codecs *)

Lemma le_s32_bytes x : is_s32 x -> le_s32 (le_bytes 4 x) = x.
Proof.
  intros H. unfold le_s32. rewrite le_num_le_bytes. change (x mod 2 ^ (8 * Z.of_nat 4)) with (u32 x).
  rewrite s32_u32. by apply s32_id.
Qed.

Lemma le_num_bytes n x : 0 <= x < 2 ^ (8 * Z.of_nat n) -> le_num (le_bytes n x) = x.
Proof. intros H. rewrite le_num_le_bytes. by apply Z.mod_small. Qed.

Lemma chunks_concat n (ls : list (list Z)) rest :
  Forall (fun l => length l = n) ls -> chunks n (length ls) (concat ls ++ rest) = ls.
Proof.
  induction 1 as [|l ls Hl _ IH]; cbn [length chunks concat]; [done|].
  rewrite <- app_assoc, take_app_length', drop_app_length' by done. by rewrite IH.
Qed.

Lemma chunks_concat' n num (ls : list (list Z)) :
  Forall (fun l => length l = n) ls -> (num <= length ls)%nat ->
  chunks n num (concat (take num ls)) = take num ls.
Proof.
  intros Hall Hnum. pose proof (chunks_concat n (take num ls) []) as H.
  rewrite app_nil_r, length_take_le in H by done. apply H. by apply Forall_take.
Qed.

Lemma length_concat_const n (ls : list (list Z)) :
  Forall (fun l => length l = n) ls -> length (concat ls) = (n * length ls)%nat.
Proof. induction 1 as [|l ls Hl _ IH]; cbn; [lia|]. rewrite length_app, Hl, IH. lia. Qed.

(** Read the next field of known bytes from a lawful source. *)
Ltac read_field :=
  match goal with
  | Hv : ?view ?s = ?b ++ ?rest |- context [src_read ?n ?s] =>
      let s' := fresh "s" in let Hr := fresh "Hr" in let Hv' := fresh "Hv" in
      destruct (read_law s b rest) as (s' & Hr & Hv');
      [ by (intros ?%(f_equal length); rewrite ?length_le_bytes in *; cbn in *; lia)
      | exact Hv
      | replace n with (length b) by (rewrite ?length_le_bytes; done || lia); rewrite Hr; clear Hr Hv; rename Hv' into Hv ]
  | Hv : ?view ?s = ?c :: ?rest |- context [src_getc ?s] =>
      let s' := fresh "s" in let Hr := fresh "Hr" in let Hv' := fresh "Hv" in
      destruct (getc_law s c rest Hv) as (s' & Hr & Hv'); rewrite Hr; clear Hr Hv; rename Hv' into Hv
  end.

Section Replay.
Context (E : chain_env).
Let symbol := (hush_nameset (SYMBOL E)).1.
Let dest := (hush_nameset (SYMBOL E)).2.

(** A notarization summary that the record formats can represent. *)
Definition summary_ok (sp : hush_state) : Prop :=
  is_s32 (NOTARIZED_HEIGHT sp) /\ length (NOTARIZED_HASH sp) = 32%nat /\
  length (NOTARIZED_DESTTXID sp) = 32%nat /\ length (sp_MoM sp) = 32%nat /\ is_s32 (sp_MoMdepth sp) /\
  (sp_MoMdepth sp = 0 <-> sp_MoM sp = zero256).

(** Arguments within the types of [hush_stateupdate]'s parameters; key sets only
    when this node loads them, price feeds that fit the parser's buffer. *)
Definition args_ok (w : node) (a : update_args) : Prop :=
  is_s32 (ua_height a) /\ is_s32 (ua_HUSHheight a) /\ is_u 32 (ua_HUSHtimestamp a) /\
  length (ua_txhash a) = 32%nat /\ is_u 16 (ua_vout a) /\ is_u 64 (ua_opretvalue a) /\
  is_u 16 (ua_opretlen a) /\ (forall buf, ua_opretbuf a = Some buf -> ua_opretlen a <= Zlen buf) /\
  (forall pubs, ua_notarypubs a = Some pubs ->
     0 <= ua_numnotaries a <= 64 /\ ua_numnotaries a <= Zlen pubs /\
     Forall (fun k => length k = 33%nat) pubs /\ EXTERNAL_NOTARIES E = true /\ SYMBOL E <> []) /\
  (forall pvals, ua_pvals a = Some pvals ->
     0 <= ua_numpvals a <= 128 /\ ua_numpvals a <= Zlen pvals /\ Forall (is_u 32) pvals) /\
  summary_ok (n_sp w).

Context {S : Type} `{HS : ByteSource S} (view : S -> list Z) `{!LawfulSource S view}.

Lemma replay_KT w isT height kh ts s rest :
  is_s32 height -> is_s32 kh -> is_u 32 ts -> (isT = false -> ts = 0) ->
  view s = (if isT then le_bytes 4 kh ++ le_bytes 4 ts ++ rest else le_bytes 4 kh ++ rest) ->
  exists s', view s' = rest /\
    parse_KT E symbol w isT (Some (le_bytes 4 height)) s =
      Some (hush_eventadd_hushheight E w symbol height kh ts, s').
Proof.
  intros Hh Hk Ht HT Hv. unfold parse_KT.
  assert (Hts : u32 (le_s32 (le_bytes 4 ts)) = ts).
  { unfold le_s32. rewrite le_num_bytes by (unfold is_u in Ht; cbn; lia). rewrite u32_s32. by apply u32_id. }
  destruct isT.
  - read_field. read_field. exists s1. split; [done|]. cbn [mbind option_bind]. by rewrite !le_s32_bytes, Hts by done.
  - read_field. exists s0. split; [done|]. rewrite (HT eq_refl). cbn [mbind option_bind].
    by rewrite !le_s32_bytes by done.
Qed.

Lemma replay_R w height txid vout value opret s rest :
  is_s32 height -> length txid = 32%nat -> is_u 16 vout -> is_u 64 value ->
  opret <> [] -> is_u 16 (Zlen opret) ->
  view s = txid ++ le_bytes 2 vout ++ le_bytes 8 value ++ le_bytes 2 (Zlen opret) ++ opret ++ rest ->
  exists s', view s' = rest /\
    parse_R E symbol w (Some (le_bytes 4 height)) s =
      (w' ← hush_eventadd_opreturn E w symbol height txid value vout opret; Some (w', s')).
Proof.
  intros Hh Htx Hvo Hval Hne Hlen Hv. unfold parse_R. unfold is_u in *.
  do 4 read_field. cbn [mbind option_bind].
  rewrite (le_num_bytes 2 (Zlen opret)) by (cbn; lia).
  edestruct (read_law s3 opret rest Hne) as (s4 & Hr & Hv4); [eassumption|].
  replace (Z.to_nat (Zlen opret)) with (length opret) by (unfold Zlen; lia). rewrite Hr.
  exists s4. split; [done|]. cbn [mbind option_bind].
  rewrite le_s32_bytes by done. by rewrite !le_num_bytes by (cbn; lia).
Qed.

Lemma replay_P w height num pubs s rest :
  is_s32 height -> 0 < num <= 64 -> num <= Zlen pubs -> Forall (fun k => length k = 33%nat) pubs ->
  EXTERNAL_NOTARIES E = true -> SYMBOL E <> [] ->
  view s = num :: concat (take (Z.to_nat num) pubs) ++ rest ->
  exists s', view s' = rest /\
    parse_P E symbol w (Some (le_bytes 4 height)) s =
      Some (hush_eventadd_pubkeys E w symbol height (Z.to_nat num) pubs, s').
Proof.
  intros Hh Hn Hl Hall Hext Hsym Hv. unfold parse_P. read_field. cbn [mbind option_bind].
  rewrite (proj2 (Z.leb_le num 64)) by lia.
  set (b := concat (take (Z.to_nat num) pubs)) in *.
  assert (Hlb : length b = (33 * Z.to_nat num)%nat).
  { unfold b. rewrite (length_concat_const 33) by (by apply Forall_take). rewrite length_take_le; [done|].
    unfold Zlen in Hl. lia. }
  destruct (read_law s0 b rest) as (s1 & Hr & Hv1); [intros ->; cbn in Hlb; lia|done|].
  rewrite <- Hlb, Hr. exists s1. split; [done|].
  assert (Hm : matched E symbol = true).
  { unfold matched, symbol. apply bool_decide_eq_true. destruct (SYMBOL E); done. }
  rewrite Hext, Hm. cbn [andb mbind option_bind]. rewrite le_s32_bytes by done. unfold b.
  rewrite chunks_concat' by (done || unfold Zlen in Hl; lia).
  unfold hush_eventadd_pubkeys, hush_notarysinit. by rewrite !take_take, Nat.min_id.
Qed.

Lemma map_chunks4 num pvals :
  Forall (is_u 32) pvals -> (num <= length pvals)%nat ->
  map le_num (chunks 4 num (concat (map (le_bytes 4) (take num pvals)))) = take num pvals.
Proof.
  intros Hall Hn. rewrite <- firstn_map.
  rewrite chunks_concat'.
  - rewrite firstn_map, map_map. rewrite <- (map_id (take num pvals)) at 2. apply map_ext_in.
    intros x Hx. apply le_num_bytes. rewrite List.Forall_forall in Hall.
    apply list_elem_of_In, elem_of_take in Hx as (i & Hx & _).
    specialize (Hall x (proj1 (list_elem_of_In _ _) (list_elem_of_lookup_2 _ _ _ Hx))).
    unfold is_u in Hall. cbn. lia.
  - apply List.Forall_forall. intros l (x & <- & _)%in_map_iff. apply length_le_bytes.
  - by rewrite length_map.
Qed.

Lemma replay_V w height num pvals s rest :
  is_s32 height -> 0 < num <= 128 -> num <= Zlen pvals -> Forall (is_u 32) pvals ->
  view s = num :: concat (map (le_bytes 4) (take (Z.to_nat num) pvals)) ++ rest ->
  exists s', view s' = rest /\
    parse_V E symbol w (Some (le_bytes 4 height)) s =
      Some (hush_eventadd_pricefeed E w symbol height pvals (Z.to_nat num), s').
Proof.
  intros Hh Hn Hl Hall Hv. unfold parse_V. read_field.
  rewrite (proj2 (Z.leb_le (num * 4) 512)) by lia.
  set (b := concat (map (le_bytes 4) (take (Z.to_nat num) pvals))) in *.
  assert (Hlb : length b = (4 * Z.to_nat num)%nat).
  { unfold b. rewrite (concat_map_length _ 4) by (intros; apply length_le_bytes).
    rewrite length_take_le; [done|]. unfold Zlen in Hl. lia. }
  destruct (read_law s0 b rest) as (s1 & Hr & Hv1); [intros ->; cbn in Hlb; lia|done|].
  rewrite <- Hlb, Hr. exists s1. split; [done|]. cbn [mbind option_bind]. rewrite le_s32_bytes by done.
  unfold b. rewrite map_chunks4 by (done || unfold Zlen in Hl; lia).
  unfold hush_eventadd_pricefeed. by rewrite take_take, Nat.min_id.
Qed.

Lemma replay_U w num nid mask txid s rest :
  length txid = 32%nat ->
  view s = [num] ++ [nid] ++ le_bytes 8 mask ++ txid ++ rest ->
  exists s', view s' = rest /\ parse_U w s = Some (w, s').
Proof.
  intros Htx Hv. unfold parse_U. cbn [app] in Hv. do 4 read_field. by exists s3.
Qed.

(** The notarization [sp] that was written, read into the node [v]. *)
Lemma replay_notarized v sp height s rest :
  is_s32 height -> summary_ok sp -> view s = notarized_payload sp ++ rest ->
  exists s', view s' = rest /\
    parse_NM E symbol dest v (has_MoM sp) (Some (le_bytes 4 height)) s =
      Some (hush_eventadd_notarized E v symbol height dest (NOTARIZED_HASH sp) (NOTARIZED_DESTTXID sp)
              (NOTARIZED_HEIGHT sp) (sp_MoM sp) (sp_MoMdepth sp), s').
Proof.
  intros Hh (H1 & H2 & H3 & H4 & H5 & H6) Hv. unfold notarized_payload in *.
  rewrite <- !app_assoc in Hv. unfold parse_NM. do 3 read_field. destruct (has_MoM sp) eqn:EM.
  - rewrite <- app_assoc in Hv. do 2 read_field. eexists. split; [eassumption|].
    cbn [mbind option_bind]. by rewrite !le_s32_bytes by done.
  - cbn [app] in Hv. exists s2. split; [done|]. cbn [mbind option_bind].
    rewrite !le_s32_bytes by done.
    assert (Hz : sp_MoMdepth sp = 0 /\ sp_MoM sp = zero256).
    { unfold has_MoM in EM. destruct (Z.eqb_spec (sp_MoMdepth sp) 0) as [Ez|Ez].
      - split; [done|]. by apply H6.
      - cbn [negb andb] in EM. apply negb_false_iff, bool_decide_eq_true in EM. split; [by apply H6|done]. }
    destruct Hz as [-> ->]. done.
Qed.

Lemma replay_NM w height s rest :
  is_s32 height -> summary_ok (n_sp w) -> view s = notarized_payload (n_sp w) ++ rest ->
  exists s', view s' = rest /\
    parse_NM E symbol dest w (has_MoM (n_sp w)) (Some (le_bytes 4 height)) s =
      Some ((write_notarized E w symbol dest height).1, s').
Proof. by apply replay_notarized. Qed.

(** [bytes] is nothing, or one record that takes [w] to [w']. *)
Definition replays (w w' : node) (bytes : list Z) : Prop :=
  (bytes = [] /\ w' = w) \/
  exists func tail, bytes = func :: tail /\
    forall s rest, view s = tail ++ rest ->
      exists s', view s' = rest /\ parse_record E symbol dest w func s = Some (w', s').

Lemma replay_misc w a :
  args_ok w a -> replays w (write_misc E w symbol dest a).1 (write_misc E w symbol dest a).2.
Proof.
  intros (Hh & _ & _ & Htx & _ & _ & _ & _ & _ & Hpv & Hsum). unfold write_misc.
  destruct (_ && _).
  { right. exists 85, (le_bytes 4 (ua_height a) ++ [ua_numvouts a] ++ [ua_notaryid a]
      ++ le_bytes 8 (ua_voutmask a) ++ ua_txhash a). split; [reflexivity|].
    intros s rest Hv. rewrite <- !app_assoc in Hv. unfold parse_record. read_field.
    by apply (replay_U w (ua_numvouts a) (ua_notaryid a) (ua_voutmask a) (ua_txhash a)). }
  assert (HN : replays w (write_notarized E w symbol dest (ua_height a)).1
                         (write_notarized E w symbol dest (ua_height a)).2).
  { right. exists (if has_MoM (n_sp w) then 77 else 78), (le_bytes 4 (ua_height a) ++ notarized_payload (n_sp w)).
    split; [reflexivity|]. intros s rest Hv. rewrite <- app_assoc in Hv. unfold parse_record. read_field.
    destruct (replay_NM w (ua_height a) s0 rest Hh Hsum Hv) as (s' & Hv' & Hr).
    exists s'. split; [done|]. rewrite <- Hr. by destruct (has_MoM (n_sp w)). }
  destruct (ua_pvals a) as [pvals|]; [|exact HN].
  destruct (Z.ltb_spec 0 (ua_numpvals a)) as [Hn|Hn]; [|exact HN].
  destruct (32 <=? _)%nat; [|by left]. right.
  destruct (Hpv pvals eq_refl) as (Hp1 & Hp2 & Hp3).
  exists 86, (le_bytes 4 (ua_height a) ++ [ua_numpvals a]
    ++ concat (map (le_bytes 4) (take (Z.to_nat (ua_numpvals a)) pvals))). split; [reflexivity|].
  intros s rest Hv. rewrite <- !app_assoc in Hv. unfold parse_record. read_field.
  apply (replay_V w (ua_height a) (ua_numpvals a) pvals s0 rest); [done|lia|done|done|done].
Qed.

Lemma replay_pubs w a :
  args_ok w a -> replays w (write_pubs E w symbol dest a).1 (write_pubs E w symbol dest a).2.
Proof.
  intros Hok. pose proof (replay_misc w a Hok) as Hmisc.
  destruct Hok as (Hh & _ & _ & _ & _ & _ & _ & _ & Hpub & _ & _). unfold write_pubs.
  destruct (ua_notarypubs a) as [pubs|]; [|exact Hmisc].
  destruct (Z.ltb_spec 0 (ua_numnotaries a)) as [Hn|Hn]; [|exact Hmisc]. right.
  destruct (Hpub pubs eq_refl) as (Hp1 & Hp2 & Hp3 & Hp4 & Hp5).
  exists 80, (le_bytes 4 (ua_height a) ++ [ua_numnotaries a] ++ concat (take (Z.to_nat (ua_numnotaries a)) pubs)).
  split; [reflexivity|].
  intros s rest Hv. rewrite <- !app_assoc in Hv. unfold parse_record. read_field.
  apply (replay_P w (ua_height a) (ua_numnotaries a) pubs s0 rest); [done|lia|done|done|done|done|done].
Qed.

(** Every record written is parsed back to the same node. *)
Lemma replay_record w a w' bytes :
  args_ok w a -> write_record E w a = Some (w', bytes) -> replays w w' bytes.
Proof.
  intros Hok Hw. pose proof (replay_pubs w a Hok) as Hpubs.
  destruct Hok as (Hh & Hk & Hts & Htx & Hvo & Hval & Hol & Hbuf & _ & _ & _).
  unfold write_record in Hw. assert (En : hush_nameset (SYMBOL E) = (symbol, dest)) by apply surjective_pairing.
  rewrite En in Hw.
  destruct (negb (ua_HUSHheight a =? 0)).
  { right. injection Hw as <- <-. destruct (negb (ua_HUSHtimestamp a =? 0)) eqn:Et.
    - exists 84, (le_bytes 4 (ua_height a) ++ le_bytes 4 (ua_HUSHheight a) ++ le_bytes 4 (ua_HUSHtimestamp a)).
      split; [reflexivity|]. intros s rest Hv. rewrite <- !app_assoc in Hv.
      unfold parse_record. read_field. by apply (replay_KT w true _ _ _ s0 rest).
    - exists 75, (le_bytes 4 (ua_height a) ++ le_bytes 4 (ua_HUSHheight a)). split; [reflexivity|].
      intros s rest Hv. rewrite <- !app_assoc in Hv. apply negb_false_iff, Z.eqb_eq in Et.
      unfold parse_record. read_field. by apply (replay_KT w false _ _ _ s0 rest). }
  destruct (ua_opretbuf a) as [buf|]; [|injection Hw as Hw; by rewrite Hw in Hpubs].
  destruct (Z.ltb_spec 0 (ua_opretlen a)) as [Hpos|Hpos]; [|injection Hw as Hw; by rewrite Hw in Hpubs].
  right. set (opret := take (Z.to_nat (ua_opretlen a)) buf) in *.
  assert (Hlen : Zlen opret = ua_opretlen a).
  { unfold opret, Zlen. specialize (Hbuf buf eq_refl). unfold Zlen in Hbuf. rewrite length_take_le; lia. }
  destruct (hush_eventadd_opreturn _ _ _ _ _ _ _ _) as [w1|] eqn:Eo; [|done].
  cbn [mbind option_bind] in Hw. injection Hw as <- <-.
  exists 82, (le_bytes 4 (ua_height a) ++ ua_txhash a ++ le_bytes 2 (ua_vout a)
    ++ le_bytes 8 (ua_opretvalue a) ++ le_bytes 2 (ua_opretlen a) ++ opret). split; [reflexivity|].
  intros s rest Hv. rewrite <- !app_assoc in Hv. unfold parse_record. read_field. rewrite <- Hlen in Hv.
  destruct (replay_R w (ua_height a) (ua_txhash a) (ua_vout a) (ua_opretvalue a) opret s0 rest)
    as (s' & Hv' & Hr); try done.
  { intros Hn. rewrite Hn in Hlen. unfold Zlen in Hlen. cbn in Hlen. lia. }
  { by rewrite Hlen. }
  exists s'. split; [done|]. cbn [Z.eqb Pos.eqb orb]. by rewrite Hr, Eo.
Qed.

End Replay.

(** ** Restart *)

(** Updates within the types, with the bytes they append. *)
Inductive live_run (E : chain_env) : node -> list Z -> node -> Prop :=
| live_nil w : live_run E w [] w
| live_cons w a w1 b bs w2 :
    args_ok E w a -> write_record E w a = Some (w1, b) -> live_run E w1 bs w2 ->
    live_run E w (b ++ bs) w2.

(** Bytes that every source turns into the same changes of the node. *)
Inductive log_run (E : chain_env) : node -> list Z -> node -> Prop :=
| log_nil w : log_run E w [] w
| log_cons w w1 b bs w2 :
    (forall S (HS : ByteSource S) view, LawfulSource S view -> replays E view w w1 b) ->
    log_run E w1 bs w2 -> log_run E w (b ++ bs) w2.

Lemma live_log E w bytes w' : live_run E w bytes w' -> log_run E w bytes w'.
Proof.
  induction 1 as [w|w a w1 b bs w2 Hok Hw _ IH]; [constructor|]. eapply log_cons; [|exact IH].
  intros S HS view HL. by apply (replay_record E view w a).
Qed.

Lemma log_app E w b1 w1 b2 w2 : log_run E w b1 w1 -> log_run E w1 b2 w2 -> log_run E w (b1 ++ b2) w2.
Proof. induction 1 as [|w w0 b bs w1 Hr _ IH]; [done|]. intros H. rewrite <- app_assoc. econstructor; [exact Hr|by apply IH]. Qed.

Lemma load_mem_replay E w bytes w' :
  log_run E w bytes w' ->
  forall filedata fpos fuel, drop fpos filedata = bytes -> (length bytes < fuel)%nat ->
  load_mem E (hush_nameset (SYMBOL E)).1 (hush_nameset (SYMBOL E)).2 fuel w filedata fpos = Some w'.
Proof.
  induction 1 as [w | w w1 b bs w2 Hrep Hrun IH]; intros fd fpos [|fuel] Hv Hf; try lia; cbn [load_mem].
  - unfold hush_parsestatefiledata. rewrite (proj2 (Nat.ltb_ge _ _)); [done|].
    apply (f_equal length) in Hv. rewrite length_drop in Hv. cbn in Hv. lia.
  - destruct (Hrep nat (mem_source fd) (fun p => drop p fd) (mem_source_lawful fd)) as [[-> ->] | (func & tail & -> & Hparse)].
    + apply (IH fd fpos (S fuel)); [done|]. cbn in Hf. lia.
    + pose proof (f_equal length Hv) as Hl. rewrite length_drop in Hl. cbn in Hl, Hf.
      rewrite length_app in Hl, Hf.
      unfold hush_parsestatefiledata. rewrite (proj2 (Nat.ltb_lt _ _)) by lia.
      assert (Hrd : rd fd fpos = func).
      { apply rd_lookup. rewrite <- (Nat.add_0_r fpos), <- lookup_drop, Hv. done. }
      rewrite Hrd.
      assert (Hv1 : drop (S fpos) fd = tail ++ bs) by (rewrite <- Nat.add_1_r, <- drop_drop, Hv; done).
      destruct (Hparse (S fpos) bs Hv1) as (s' & Hv' & Hr). rewrite Hr. cbn [mbind option_bind fst snd].
      apply IH; [done|lia].
Qed.

Lemma load_file_replay E w bytes w' :
  log_run E w bytes w' -> forall fuel, (length bytes < fuel)%nat ->
  load_file E (hush_nameset (SYMBOL E)).1 (hush_nameset (SYMBOL E)).2 fuel w bytes = Some w'.
Proof.
  induction 1 as [w | w w1 b bs w2 Hrep Hrun IH]; intros [|fuel] Hf; try lia; [done|].
  destruct (Hrep (list Z) file_source (fun fp => fp) file_source_lawful) as [[-> ->] | (func & tail & -> & Hparse)].
  - apply (IH (S fuel)). cbn in Hf. lia.
  - cbn [load_file app hush_parsestatefile].
    destruct (Hparse (tail ++ bs) bs eq_refl) as (s' & -> & Hr). rewrite Hr. cbn [mbind option_bind fst snd].
    apply IH. cbn in Hf. rewrite length_app in Hf. lia.
Qed.

(** *** What is not in the file *)

(** The last height of the chain tip, the cursor of the checkpoint search and the
    heights that this node mined are variables that no record holds. *)
Definition forget_sp (current : Z) (last : nat) (sp : hush_state) : hush_state :=
  set_last last (set_heights (SAVEDHEIGHT sp) (SAVEDTIMESTAMP sp) current sp).
Definition forget (current : Z) (last : nat) (mined prev : Z) (w : node) : node :=
  with_mined mined prev (with_sp (forget_sp current last (n_sp w)) w).
(** Everything else: notarization, Merkle data, checkpoints, event log, saved height,
    key-value table and notary keys. *)
Definition saved (w : node) : node := forget 0 0 0 0 w.

Lemma saved_forget current last m p w : saved (forget current last m p w) = saved w.
Proof. by destruct w as [[] ? ? ? ?]. Qed.

Lemma saved_inv w v : saved w = saved v -> exists current last m p, v = forget current last m p w.
Proof.
  destruct w as [[] ? ? ? ?], v as [[? ? ? ? current ? ? ? ? last ?] ? ? m p]. cbv. intros [= -> -> -> -> -> -> -> -> -> -> ->].
  by exists current, last, m, p.
Qed.

Section Forget.
Context (E : chain_env).

Lemma eventadd_forget current last sp height symbol type data len :
  hush_eventadd E (forget_sp current last sp) height symbol type data len =
  forget_sp current last (hush_eventadd E sp height symbol type data len).
Proof using. unfold hush_eventadd. by destruct (SYMBOL E), sp. Qed.

Lemma notarized_update_forget current last sp nHeight nh hash txid MoM depth :
  hush_notarized_update (forget_sp current last sp) nHeight nh hash txid MoM depth =
  forget_sp current last (hush_notarized_update sp nHeight nh hash txid MoM depth).
Proof using. unfold hush_notarized_update. by destruct (_ <=? _), sp. Qed.

Lemma undo_forget current last sp ep :
  hush_event_undo (forget_sp current last sp) ep = forget_sp current last (hush_event_undo sp ep).
Proof using. unfold hush_event_undo. destruct sp. cbn. by destruct (_ && _). Qed.

Lemma rewind_loop_forget current last height l sp :
  rewind_loop height l (forget_sp current last sp) = forget_sp current last (rewind_loop height l sp).
Proof using.
  revert sp. induction l as [|ep l IH]; intros sp; cbn [rewind_loop]; [by destruct sp|].
  destruct (_ <? _); [by destruct sp|]. by rewrite undo_forget, IH.
Qed.

Lemma notarized_saved w v symbol height dest hash txid nh MoM depth :
  saved v = saved w ->
  saved (hush_eventadd_notarized E v symbol height dest hash txid nh MoM depth) =
  saved (hush_eventadd_notarized E w symbol height dest hash txid nh MoM depth).
Proof using.
  intros Hs. unfold hush_eventadd_notarized. destruct (_ && _); [done|]. case_bool_decide; [|done].
  apply eq_sym, saved_inv in Hs as (current & last & m & p & ->). cbn [n_sp forget with_mined with_sp].
  rewrite eventadd_forget, notarized_update_forget. set (sp := hush_notarized_update _ _ _ _ _ _ _). clearbody sp.
  unfold saved, forget. by destruct sp.
Qed.

Lemma opreturn_saved w v symbol height txid value vout buf w1 :
  hush_baseid (SYMBOL E) < 0 -> saved v = saved w -> hush_eventadd_opreturn E w symbol height txid value vout buf = Some w1 ->
  exists v1, hush_eventadd_opreturn E v symbol height txid value vout buf = Some v1 /\ saved v1 = saved w1.
Proof using.
  intros Hbase Hs. unfold hush_eventadd_opreturn, hush_opreturn. destruct (SYMBOL E) as [|c0 s] eqn:Es; [intros [= <-]; by exists v|].
  rewrite (proj2 (Z.ltb_lt _ _) Hbase). cbn [andb].
  apply eq_sym, saved_inv in Hs as (current & last & m & p & ->). cbn [n_sp n_kv forget with_mined with_sp].
  rewrite eventadd_forget. set (sp := hush_eventadd _ _ _ _ _ _ _). clearbody sp.
  destruct (rd buf 0 =? 75); cbn [negb andb]; [|intros [= <-]; eexists; split; [reflexivity|]; unfold saved, forget; by destruct sp].
  destruct (negb (Zlen buf =? 40)); [|intros [= <-]; eexists; split; [reflexivity|]; unfold saved, forget; by destruct sp].
  destruct (hush_kvupdate _ _ _ _ _ _) as [kv|]; [|done]. intros [= <-]. eexists. split; [reflexivity|]. unfold saved, forget. by destruct sp.
Qed.

Lemma write_pubs_saved w v symbol dest a :
  saved v = saved w ->
  (write_pubs E v symbol dest a).2 = (write_pubs E w symbol dest a).2 /\
  saved (write_pubs E v symbol dest a).1 = saved (write_pubs E w symbol dest a).1.
Proof using.
  intros Hs. pose proof Hs as (current & last & m & p & Hv)%eq_sym%saved_inv. unfold write_pubs.
  assert ((write_misc E v symbol dest a).2 = (write_misc E w symbol dest a).2 /\
    saved (write_misc E v symbol dest a).1 = saved (write_misc E w symbol dest a).1) as Hmisc.
  { unfold write_misc. destruct (_ && _); [done|].
    assert ((write_notarized E v symbol dest (ua_height a)).2 = (write_notarized E w symbol dest (ua_height a)).2 /\
      saved (write_notarized E v symbol dest (ua_height a)).1 = saved (write_notarized E w symbol dest (ua_height a)).1) as HN.
    { unfold write_notarized. cbn [fst snd]. split; [by subst v|]. rewrite (notarized_saved w v) by done. by subst v. }
    destruct (ua_pvals a) as [pvals|]; [|exact HN]. destruct (0 <? ua_numpvals a); [|exact HN].
    destruct (32 <=? _)%nat; [|done]. split; [done|]. cbn [fst]. unfold hush_eventadd_pricefeed. destruct (_ =? _)%nat; [|done].
    subst v. cbn [n_sp forget with_mined with_sp]. rewrite eventadd_forget. set (sp := hush_eventadd _ _ _ _ _ _ _). clearbody sp.
    unfold saved, forget. by destruct sp. }
  destruct (ua_notarypubs a) as [pubs|]; [|exact Hmisc]. destruct (0 <? ua_numnotaries a); [|exact Hmisc].
  split; [done|]. cbn [fst]. unfold hush_eventadd_pubkeys. subst v. cbn [n_sp n_notary forget with_mined with_sp].
  rewrite eventadd_forget. set (sp := hush_eventadd _ _ _ _ _ _ _). clearbody sp. unfold saved, forget. by destruct sp.
Qed.

(** *** Histories *)

(** From [w] and [f] to [w1] and [f1] the file grows by records which take every node that
    agrees with [w] in what is saved to one that agrees with [w1]. *)
Definition logged (w : node) (f : state_file) (w1 : node) (f1 : state_file) : Prop :=
  forall data, f = StateFile (Some data) true ->
  exists bytes, f1 = StateFile (Some (data ++ bytes)) true /\
    forall v, saved v = saved w -> exists v1, log_run E v bytes v1 /\ saved v1 = saved w1.

Lemma logged_same w w1 f : saved w1 = saved w -> logged w f w1 f.
Proof using.
  intros Hs data ->. exists []. rewrite app_nil_r. split; [done|]. intros v Hv. exists v. split; [constructor|by rewrite Hv, Hs].
Qed.

Lemma logged_trans w f w1 f1 w2 f2 : logged w f w1 f1 -> logged w1 f1 w2 f2 -> logged w f w2 f2.
Proof using.
  intros H1 H2 data Hf. destruct (H1 data Hf) as (b1 & Hf1 & L1). destruct (H2 _ Hf1) as (b2 & -> & L2).
  exists (b1 ++ b2). rewrite app_assoc. split; [done|]. intros v Hv. destruct (L1 v Hv) as (v1 & R1 & Hv1).
  destruct (L2 v1 Hv1) as (v2 & R2 & Hv2). exists v2. split; [by eapply log_app|done].
Qed.

Lemma logged_record w0 w f a w1 f1 :
  0 < ua_height a ->
  (forall w' b, write_record E w a = Some (w', b) -> forall v, saved v = saved w0 ->
     exists v1, saved v1 = saved w' /\ forall S (HS : ByteSource S) view, LawfulSource S view -> replays E view v v1 b) ->
  hush_stateupdate E w f a = Some (w1, f1) -> logged w0 f w1 f1.
Proof using.
  intros Hh Hrec Hu data ->. unfold hush_stateupdate in Hu. cbn in Hu. rewrite (proj2 (Z.leb_gt _ _) Hh) in Hu.
  destruct (write_record E w a) as [[w' b]|]; [|done]. cbn in Hu. injection Hu as <- <-. exists b. split; [done|].
  intros v Hv. destruct (Hrec w' b eq_refl v Hv) as (v1 & Hv1 & Hr). exists v1. split; [|done].
  rewrite <- (app_nil_r b). econstructor; [exact Hr|constructor].
Qed.

Lemma args_ok_saved w v a : saved v = saved w -> args_ok E w a -> args_ok E v a.
Proof using. intros (current & last & m & p & ->)%eq_sym%saved_inv. done. Qed.

(** A notarization: the node changes its fields and then calls [hush_stateupdate], which writes
    them; replay sets all of them from the record. *)
Lemma logged_notarized w f height nh hash txid MoM depth w1 f1 :
  let sp := set_MoM MoM depth (set_notarized nh hash txid (n_sp w)) in
  IS_HUSH_NOTARY E = false -> 0 < height -> is_s32 height -> nh < height -> summary_ok sp ->
  hush_stateupdate E (with_sp sp w) f (UpdateArgs height None 0 0 zero256 0 0 None 0 0 0 0 None 0 0) = Some (w1, f1) ->
  logged w f w1 f1.
Proof using.
  intros sp Hno Hh Hs Hnh Hok Hu. eapply logged_record; [|  |exact Hu]; [done|]. intros w' b Hw v Hv.
  unfold write_record in Hw. rewrite (surjective_pairing (hush_nameset (SYMBOL E))) in Hw.
  cbn [ua_HUSHheight ua_opretbuf ua_height Z.eqb negb] in Hw. unfold write_pubs, write_misc, write_notarized in Hw.
  cbn [ua_notarypubs ua_voutmask ua_pvals ua_numvouts ua_height Z.eqb negb andb n_sp with_sp] in Hw.
  set (symbol := (hush_nameset (SYMBOL E)).1) in *. set (dest := (hush_nameset (SYMBOL E)).2) in *.
  injection Hw as <- <-.
  exists (hush_eventadd_notarized E v symbol height dest hash txid nh MoM depth). split.
  - rewrite (notarized_saved w v) by done. unfold hush_eventadd_notarized. rewrite Hno. cbn [andb].
    rewrite bool_decide_eq_true_2 by (unfold symbol, coin; by destruct (SYMBOL E)).
    unfold hush_eventadd, hush_notarized_update. cbn [n_sp with_sp NOTARIZED_HASH NOTARIZED_DESTTXID NOTARIZED_HEIGHT sp_MoM sp_MoMdepth sp set_MoM set_notarized].
    rewrite (proj2 (Z.leb_gt _ _) Hnh). subst sp. destruct w as [[] ? ? ? ?]. by destruct (SYMBOL E).
  - intros S HS view HL. right. exists (if has_MoM sp then 77 else 78), (le_bytes 4 height ++ notarized_payload sp).
    split; [done|]. intros s rest Hview. rewrite <- app_assoc in Hview. unfold parse_record. read_field.
    destruct (replay_notarized E view v sp height s0 rest Hs Hok Hview) as (s' & Hv' & Hr).
    exists s'. split; [done|]. etrans; [|exact Hr]. by destruct (has_MoM sp).
Qed.

(** A rewind, which the node carries out once before the record and once with it. *)
Lemma rewind_loop_set height l evs sp : rewind_loop height l (set_events evs sp) = rewind_loop height l sp.
Proof using.
  revert sp. induction l as [|ep l IH]; intros sp; cbn [rewind_loop]; [done|]. destruct (_ <? _); [done|].
  rewrite <- (IH (hush_event_undo sp ep)). f_equal. unfold hush_event_undo. cbn. by destruct (_ && _).
Qed.

Lemma rewind_loop_end height l sp :
  exists evs sp', rewind_loop height l sp = set_events evs sp' /\ (evs = [] \/ exists ep older, rev evs = ep :: older /\ ev_height ep < height).
Proof using.
  revert sp. induction l as [|ep l IH]; intros sp; cbn [rewind_loop]; [exists [], sp; auto|].
  destruct (Z.ltb_spec (ev_height ep) height); [|apply IH]. exists (rev (ep :: l)), sp. split; [done|]. right.
  exists ep, l. by rewrite rev_involutive.
Qed.

Lemma rewind_named_twice height sp :
  let R := fun sp => rewind_loop height (rev (Hush_events sp)) sp in R (R sp) = R sp.
Proof using.
  cbv zeta. destruct (rewind_loop_end height (rev (Hush_events sp)) sp) as (evs & sp' & -> & H). cbn [Hush_events set_events].
  rewrite rewind_loop_set. destruct H as [->|(ep & older & Hr & Hlt)]; [done|]. rewrite Hr. cbn [rewind_loop].
  rewrite (proj2 (Z.ltb_lt _ _) Hlt), <- Hr. by rewrite rev_involutive.
Qed.

(** The event of the record is taken back at once. *)
Lemma rewind_marked height symbol data len sp :
  let R := fun sp => rewind_loop height (rev (Hush_events sp)) sp in
  R (hush_eventadd E sp height symbol EV_REWIND data len) = R sp.
Proof using.
  cbv zeta. unfold hush_eventadd. destruct (SYMBOL E); [done|]. cbn [Hush_events set_events].
  rewrite rev_unit. cbn [rewind_loop ev_height]. rewrite Z.ltb_irrefl.
  unfold hush_event_undo. cbn [ev_type]. apply rewind_loop_set.
Qed.

(** Loading a file that a history wrote. *)
Lemma logged_restart w0 w f a0 :
  logged w0 (StateFile (Some []) true) w f -> ua_height a0 <= 0 ->
  exists w', hush_stateupdate E w0 (StateFile (sf_disk f) false) a0 = Some (w', f) /\ saved w' = saved w.
Proof using.
  intros Hl Ha. destruct (Hl [] eq_refl) as (bytes & -> & Hrun). cbn [app sf_disk].
  destruct (Hrun w0 eq_refl) as (w' & Hlog & Hw'). exists w'. split; [|done].
  unfold hush_stateupdate, state_open. cbn [sf_open sf_disk]. rewrite (surjective_pairing (hush_nameset (SYMBOL E))).
  assert (Hload : match bytes with
    | [] => load_file E (hush_nameset (SYMBOL E)).1 (hush_nameset (SYMBOL E)).2 (S (length bytes)) w0 bytes
    | _ => load_mem E (hush_nameset (SYMBOL E)).1 (hush_nameset (SYMBOL E)).2 (S (length bytes)) w0 bytes 0
    end = Some w').
  { destruct bytes; [apply (load_file_replay E w0 _ w' Hlog); lia|].
    apply (load_mem_replay E w0 _ w' Hlog); [done|lia]. }
  rewrite Hload. cbn [mbind option_bind]. by rewrite (proj2 (Z.leb_le _ _) Ha).
Qed.
Lemma eventadd_summary sp h symbol type data len : summary_ok sp -> summary_ok (hush_eventadd E sp h symbol type data len).
Proof using. unfold hush_eventadd. by destruct (SYMBOL E). Qed.

Lemma opreturn_summary w symbol height txid value vout buf w1 :
  hush_baseid (SYMBOL E) < 0 -> hush_eventadd_opreturn E w symbol height txid value vout buf = Some w1 ->
  summary_ok (n_sp w) -> summary_ok (n_sp w1) /\ n_notary w1 = n_notary w.
Proof using.
  intros Hbase Ho Hok. revert Ho. unfold hush_eventadd_opreturn, hush_opreturn. destruct (SYMBOL E) as [|c0 s] eqn:Es; [by intros [= <-]|].
  rewrite (proj2 (Z.ltb_lt _ _) Hbase). cbn [andb].
  destruct (rd buf 0 =? 75); cbn [negb andb]; [|intros [= <-]; split; [cbn; by apply eventadd_summary|done]].
  destruct (negb (Zlen buf =? 40)); [|intros [= <-]; split; [cbn; by apply eventadd_summary|done]].
  destruct (hush_kvupdate _ _ _ _ _ _) as [kv|]; [|done]. intros [= <-]. split; [cbn; by apply eventadd_summary|done].
Qed.

End Forget.

Section Saved.
Context (E : chain_env) (Hnamed : SYMBOL E <> []) (Hbase : hush_baseid (SYMBOL E) < 0).

Lemma rewind_named w height :
  hush_event_rewind E w height = with_sp (rewind_loop height (rev (Hush_events (n_sp w))) (n_sp w)) w.
Proof using Hnamed Hbase. unfold hush_event_rewind. by destruct (SYMBOL E). Qed.

Lemma hushheight_saved w v symbol height hushheight ts :
  saved v = saved w ->
  saved (hush_eventadd_hushheight E v symbol height hushheight ts) = saved (hush_eventadd_hushheight E w symbol height hushheight ts).
Proof using Hnamed Hbase.
  intros (current & last & m & p & ->)%eq_sym%saved_inv. unfold hush_eventadd_hushheight. destruct (0 <? hushheight).
  - cbn [n_sp forget with_mined with_sp]. rewrite eventadd_forget.
    set (sp := hush_eventadd _ _ _ _ _ _ _). clearbody sp. unfold saved, forget, hush_sethushheight. destruct sp. cbn.
    by repeat (destruct (_ <? hushheight); cbn).
  - rewrite !rewind_named. cbn [n_sp forget with_mined with_sp]. rewrite eventadd_forget.
    set (sp := hush_eventadd _ _ _ _ _ _ _). clearbody sp.
    change (Hush_events (forget_sp current last sp)) with (Hush_events sp). rewrite rewind_loop_forget.
    set (sp' := rewind_loop _ _ _). clearbody sp'. unfold saved, forget. by destruct sp'.
Qed.

(** What is written, and what the event does to the rest, does not depend on what is not saved. *)
Lemma write_record_saved w v a w1 b :
  saved v = saved w -> write_record E w a = Some (w1, b) ->
  exists v1, write_record E v a = Some (v1, b) /\ saved v1 = saved w1.
Proof using Hnamed Hbase.
  intros Hs. unfold write_record. destruct (hush_nameset (SYMBOL E)) as [symbol dest].
  destruct (negb _).
  { intros [= <- <-]. eexists. split; [reflexivity|]. by apply hushheight_saved. }
  pose proof (write_pubs_saved E w v symbol dest a Hs) as [Hp1 Hp2].
  assert (write_pubs E w symbol dest a = (w1, b) -> exists v1, Some (write_pubs E v symbol dest a) = Some (v1, b) /\ saved v1 = saved w1) as Hpubs.
  { intros Hw. rewrite Hw in Hp1, Hp2. destruct (write_pubs E v symbol dest a) as [v1 b1]. cbn in Hp1, Hp2. subst b1. eauto. }
  destruct (ua_opretbuf a) as [buf|]; [|intros [= Hw]; by apply Hpubs].
  destruct (0 <? ua_opretlen a); [|intros [= Hw]; by apply Hpubs].
  destruct (hush_eventadd_opreturn E w _ _ _ _ _ _) as [w2|] eqn:Eo; [|done]. cbn [mbind option_bind]. intros [= <- <-].
  destruct (opreturn_saved E w v _ _ _ _ _ _ _ Hbase Hs Eo) as (v1 & -> & Hv1). by exists v1.
Qed.

(** A call of [hush_stateupdate]. *)
Lemma logged_update w f a w1 f1 :
  args_ok E w a -> hush_stateupdate E w f a = Some (w1, f1) -> logged E w f w1 f1.
Proof using Hnamed Hbase.
  intros Hok Hu. destruct (Z.leb_spec (ua_height a) 0) as [Hh|Hh].
  - intros data ->. unfold hush_stateupdate in Hu. cbn in Hu. rewrite (proj2 (Z.leb_le _ _) Hh) in Hu. injection Hu as <- <-.
    by apply (logged_same E w w).
  - eapply logged_record; [done| |exact Hu]. intros w' b Hw v Hv.
    destruct (write_record_saved w v a w' b Hv Hw) as (v1 & Hv1 & Hs). exists v1. split; [done|].
    intros S HS view HL. apply (replay_record E view v a); [by eapply args_ok_saved|done].
Qed.

Lemma rewind_absorbs w symbol height hushheight ts :
  hushheight <= 0 ->
  hush_eventadd_hushheight E (hush_event_rewind E w height) symbol height hushheight ts =
  hush_eventadd_hushheight E w symbol height hushheight ts.
Proof using Hnamed Hbase.
  intros Hk. unfold hush_eventadd_hushheight. rewrite (proj2 (Z.ltb_ge 0 hushheight)) by lia.
  rewrite !rewind_named. cbn [n_sp with_sp]. rewrite !rewind_marked, rewind_named_twice. by destruct w.
Qed.

Lemma logged_rewind w f height ts w1 f1 :
  0 < height -> is_s32 height -> is_u 32 ts -> summary_ok (n_sp w) ->
  hush_stateupdate E (hush_event_rewind E w height) f (UpdateArgs height None 0 0 zero256 0 0 None 0 (- height) ts 0 None 0 0) = Some (w1, f1) ->
  logged E w f w1 f1.
Proof using Hnamed Hbase.
  intros Hh Hs Ht Hok Hu. eapply logged_record; [|  |exact Hu]; [done|]. intros w' b Hw v Hv.
  set (a := UpdateArgs _ _ _ _ _ _ _ _ _ _ _ _ _ _ _) in *.
  assert (write_record E w a = Some (w', b)) as Hw0.
  { revert Hw. unfold write_record, a. cbn [ua_HUSHheight ua_height ua_HUSHtimestamp].
    destruct (hush_nameset (SYMBOL E)) as [symbol dest]. rewrite (proj2 (Z.eqb_neq _ _)) by lia. cbn [negb].
    by rewrite rewind_absorbs by lia. }
  destruct (write_record_saved w v a w' b Hv Hw0) as (v1 & Hv1 & Hs1). exists v1. split; [done|].
  intros S HS view HL. apply (replay_record E view v a); [|done]. eapply args_ok_saved; [exact Hv|].
  unfold args_ok, a. cbn [ua_height ua_HUSHheight ua_HUSHtimestamp ua_txhash ua_vout ua_opretvalue ua_opretlen ua_opretbuf ua_notarypubs ua_pvals].
  unfold is_s32, is_u in *. split_and!; try (lia || done).
Qed.

(** A record leaves a summary that it can represent, and keeps the key tables set up. *)
Lemma write_record_ok w a w1 b :
  write_record E w a = Some (w1, b) -> summary_ok (n_sp w) ->
  summary_ok (n_sp w1) /\ ns_didinit (n_notary w1) = ns_didinit (n_notary w).
Proof using Hnamed Hbase.
  intros Hw Hok. pose proof (eventadd_summary E) as Hadd.
  unfold write_record in Hw. destruct (hush_nameset (SYMBOL E)) as [symbol dest].
  destruct (negb _).
  { injection Hw as <- <-. unfold hush_eventadd_hushheight. destruct (0 <? _).
    - split; [|done]. cbn [n_sp with_sp]. unfold hush_sethushheight.
      specialize (Hadd (n_sp w) (ua_height a) symbol EV_HUSHHEIGHT (le_bytes 4 (ua_HUSHheight a) ++ le_bytes 4 (ua_HUSHtimestamp a)) 8 Hok).
      by repeat case_match.
    - rewrite rewind_named. split; [|done]. cbn [n_sp with_sp]. set (sp := hush_eventadd _ _ _ _ _ _ _).
      destruct (rewind_loop_frame (ua_height a) (rev (Hush_events sp)) sp) as [(_ & H1 & H2 & H3 & H4 & H5 & _) _].
      unfold summary_ok. rewrite H1, H2, H3, H4, H5. by apply Hadd. }
  assert (forall w' b', write_pubs E w symbol dest a = (w', b') -> summary_ok (n_sp w') /\ ns_didinit (n_notary w') = ns_didinit (n_notary w)) as Hpubs.
  { intros w' b' Hp. assert (forall w2 b2, write_notarized E w symbol dest (ua_height a) = (w2, b2) -> summary_ok (n_sp w2) /\ ns_didinit (n_notary w2) = ns_didinit (n_notary w)) as HN.
    { intros w2 b2 [= <- <-]. unfold hush_eventadd_notarized. destruct (_ && _); [done|]. case_bool_decide; [|done]. split; [|done].
      cbn [n_sp with_sp]. unfold hush_notarized_update. destruct (_ <=? _); [by apply Hadd|done]. }
    revert Hp. unfold write_pubs, write_misc. destruct (ua_notarypubs a) as [pubs|]; [destruct (0 <? ua_numnotaries a);
      [intros [= <- <-]; split; [cbn; by apply Hadd|done]|]|];
    (destruct (_ && _); [by intros [= <- <-]|]; destruct (ua_pvals a); [destruct (0 <? ua_numpvals a); [|apply HN]|apply HN];
     destruct (32 <=? _)%nat; [|by intros [= <- <-]]; intros [= <- <-]; unfold hush_eventadd_pricefeed; destruct (_ =? _)%nat; [|done];
     split; [cbn; by apply Hadd|done]). }
  destruct (ua_opretbuf a) as [buf|]; [|injection Hw as Hw; by apply (Hpubs _ _ Hw)].
  destruct (0 <? ua_opretlen a); [|injection Hw as Hw; by apply (Hpubs _ _ Hw)].
  destruct (hush_eventadd_opreturn E w _ _ _ _ _ _) as [w2|] eqn:Eo; [|done]. injection Hw as <- <-.
  destruct (opreturn_summary E _ _ _ _ _ _ _ _ Hbase Eo Hok) as [? ->]. done.
Qed.

End Saved.

Definition idle_args : update_args :=
  UpdateArgs 0 None 0 0 zero256 0 0 None 0 0 0 0 None 0 0.
Definition height_args (height kh ts : Z) : update_args :=
  UpdateArgs height None 0 0 zero256 0 0 None 0 kh ts 0 None 0 0.
Lemma args_ok_simple E w height kh ts :
  is_s32 height -> is_s32 kh -> is_u 32 ts -> summary_ok (n_sp w) -> args_ok E w (height_args height kh ts).
Proof.
  intros H1 H2 H3 H4. unfold args_ok; cbn. repeat split; try done; try (unfold is_u; lia); apply H1 || apply H2 || apply H3 || apply H4.
Qed.

(** A height is recorded. *)
Definition demo_f0 : state_file := StateFile (Some []) true.
Definition demo_step (x : node * state_file) (a : update_args) : node * state_file :=
  default x (hush_stateupdate demo_env x.1 x.2 a).
Definition demo_s1 := demo_step (demo_node, demo_f0) (height_args 10 500 1600000000).
Lemma demo_summary : summary_ok (n_sp demo_node).
Proof.
  split; [vm_compute; split; [discriminate|reflexivity]|].
  split; [vm_compute; reflexivity|]. split; [vm_compute; reflexivity|].
  split; [vm_compute; reflexivity|]. split; [vm_compute; split; [discriminate|reflexivity]|].
  split; intros _; vm_compute; reflexivity.
Qed.

(** The two loaders agree: on any file written by the node, the in-memory
    loop of [hush_faststateinit] and the [FILE] loop it falls back to both end
    (a fuel of one more than the size suffices) in the node that wrote it. *)
Theorem loaders_agree E w bytes w' :
  live_run E w bytes w' ->
  let '(symbol, dest) := hush_nameset (SYMBOL E) in
  load_mem E symbol dest (S (length bytes)) w bytes 0 = Some w' /\
  load_file E symbol dest (S (length bytes)) w bytes = Some w'.
Proof.
  intros Hl%live_log. rewrite (surjective_pairing (hush_nameset (SYMBOL E))).
  split; [apply (load_mem_replay E w bytes w' Hl); [done|lia]|apply (load_file_replay E w bytes w' Hl); lia].
Qed.

Lemma loaders_agree_witness :
  exists bytes, sf_disk demo_s1.2 = Some bytes /\ Zlen bytes = 13 /\
  load_mem demo_env (chars "HUSH3") (chars "HUSH3") (S (length bytes)) demo_node bytes 0 = Some demo_s1.1.
Proof.
  eexists. split; [vm_compute; reflexivity|]. split; [vm_compute; reflexivity|].
  apply (loaders_agree demo_env demo_node _ demo_s1.1).
  rewrite <- (app_nil_r [_; _; _; _; _; _; _; _; _; _; _; _; _]).
  apply (live_cons demo_env demo_node (height_args 10 500 1600000000) demo_s1.1);
    [apply args_ok_simple; [unfold is_s32; lia|unfold is_s32; lia|unfold is_u; lia|apply demo_summary]
    |vm_compute; reflexivity|constructor].
Defined.

(** The representability of the summary matters: if a state carries a Merkle
    depth without a root, the record written is 'N', which drops the depth, so
    the checkpoint restored after a restart differs from the one that the
    running node added. *)
Theorem notarized_record_drops_depth :
  exists w f, hush_stateupdate demo_env (with_sp (set_MoM zero256 5 init_state) demo_node) demo_f0
                (height_args 30 0 0) = Some (w, f) /\
    exists w', hush_stateupdate demo_env (with_sp (set_MoM zero256 5 init_state) demo_node)
                 (StateFile (sf_disk f) false) idle_args = Some (w', f) /\
      map np_MoMdepth (NPOINTS (n_sp w)) = [5] /\ map np_MoMdepth (NPOINTS (n_sp w')) = [0].
Proof.
  eexists _, _. split; [vm_compute; reflexivity|]. eexists. split; [vm_compute; reflexivity|].
  split; vm_compute; reflexivity.
Qed.
