(* ===== verification/StateIndex.v ===== *)
(** * The index of the state file

    While [hush_faststateinit] parses the state file it writes "hushstate.ind", a
    sequence of 32-bit words: every hundredth word is an absolute position, the
    others hold the offset of the end of a record from the last absolute
    position (24 bits) and the record's type (8 bits).  [hush_stateind_validate]
    walks the index beside the file.  src/src/hush_gateway.h. *)
From S2P Require Import Prelude Notarized Events StateFile.
Local Open Scope Z_scope.

(** ** Writing *)

(** The index file as words, [prevpos100] and [indcounter]. *)
Record indexer := Indexer { ix_words : list Z; ix_prevpos100 : Z; ix_counter : Z }.

(** The state in which [hush_faststateinit] enters its loop. *)
Definition index_start : indexer := Indexer [0] 0 1.

Definition hush_indfile_update (x : indexer) (newfpos func : Z) : indexer :=
  let tmp := Z.lor (u32 (Z.shiftl (u32 (newfpos - ix_prevpos100 x)) 8)) (Z.land func 0xff) in
  let x := Indexer (ix_words x ++ [tmp]) (ix_prevpos100 x) (u32 (ix_counter x + 1)) in
  if Z.rem (ix_counter x) 100 =? 0
  then Indexer (ix_words x ++ [u32 newfpos]) (u32 newfpos) (u32 (ix_counter x + 1))
  else x.

(** The loop: the records of the file as end position and type. *)
Definition index_records (l : list (Z * Z)) : indexer :=
  foldl (fun x r => hush_indfile_update x r.1 r.2) index_start l.

(** The loop of [hush_faststateinit] with both its effects, on the node and on the
    index. *)
Fixpoint fast_loop (E : chain_env) (symbol dest : list Z) (fuel : nat) (w : node) (filedata : list Z)
  (fpos : nat) (x : indexer) : option (node * indexer) :=
  match fuel with
  | O => None
  | S fuel =>
    r ← hush_parsestatefiledata E symbol dest w filedata fpos;
    match r with
    | Some (func, w, fpos) =>
      fast_loop E symbol dest fuel w filedata fpos (hush_indfile_update x (Z.of_nat fpos) func)
    | None => Some (w, x)
    end
  end.

(** [hush_faststateinit] on a readable file: -1 for an empty one, else 1 with the
    loaded node and the index. *)
Definition hush_faststateinit (E : chain_env) (symbol dest : list Z) (w : node) (filedata : list Z)
  : option (Z * node * indexer) :=
  match filedata with
  | [] => Some (-1, w, index_start)
  | _ => r ← fast_loop E symbol dest (S (length filedata)) w filedata 0 index_start;
         Some (1, r.1, r.2)
  end.

(** ** Validating *)

(** The loop over the words from index [i]: the last position and
    [prevpos100], or [None] for the -1 return. *)
Fixpoint validate_loop (words : list Z) (filedata : list Z) (datalen : Z)
  (i prevpos100 lastfpos fpos : Z) : option (Z * Z) :=
  match words with
  | [] => Some (fpos, prevpos100)
  | tmp :: words =>
    if Z.rem i 100 =? 0 then validate_loop words filedata datalen (i + 1) tmp fpos fpos
    else
      let func := Z.land tmp 0xff in
      let offset := Z.shiftr tmp 8 in
      let fpos := u32 (prevpos100 + offset) in
      if (datalen <=? lastfpos) || negb (rd filedata (Z.to_nat lastfpos) =? func) then None
      else validate_loop words filedata datalen (i + 1) prevpos100 fpos fpos
  end.

(** [hush_stateind_validate] on an index of whole words: the position returned,
    [*indcounterp] and [*prevpos100p]. *)
Definition hush_stateind_validate (words : list Z) (filedata : list Z) : option (Z * Z * Z) :=
  match validate_loop words filedata (Zlen filedata) 0 0 0 0 with
  | Some (fpos, prevpos100) => Some (fpos, Zlen words, prevpos100)
  | None => None
  end.

(** The index does not influence what is loaded. *)
Lemma fast_loop_load E symbol dest fuel w fd fpos x :
  fst <$> fast_loop E symbol dest fuel w fd fpos x = load_mem E symbol dest fuel w fd fpos.
Proof.
  revert w fpos x. induction fuel as [|fuel IH]; intros w fpos x; cbn [fast_loop load_mem]; [done|].
  destruct (hush_parsestatefiledata E symbol dest w fd fpos) as [[[[func w'] fpos']|]|]; [|done|done].
  cbn [mbind option_bind]. apply IH.
Qed.

(** ** A written index validates *)

(** [l] lists the records of [filedata] from position [p] on, as end positions
    and types, each nonempty and of the type found in the file. *)
Fixpoint records_of (filedata : list Z) (p : Z) (l : list (Z * Z)) : Prop :=
  match l with
  | [] => True
  | (q, func) :: l =>
    p < q <= Zlen filedata /\ byte_ok func /\ rd filedata (Z.to_nat p) = func /\ records_of filedata q l
  end.

(** Every record ends less than 16 megabytes after the last absolute position. *)
Fixpoint index_fits (x : indexer) (l : list (Z * Z)) : Prop :=
  match l with
  | [] => True
  | (q, func) :: l => q - ix_prevpos100 x < 2 ^ 24 /\ index_fits (hush_indfile_update x q func) l
  end.

Definition end_pos (p : Z) (l : list (Z * Z)) : Z := foldl (fun _ r => r.1) p l.

Lemma index_word off func : 0 <= off < 2 ^ 24 -> byte_ok func ->
  let tmp := Z.lor (u32 (Z.shiftl (u32 off) 8)) (Z.land func 0xff) in
  Z.land tmp 0xff = func /\ Z.shiftr tmp 8 = off.
Proof.
  intros Ho Hf. unfold byte_ok in Hf. cbv zeta.
  rewrite (u32_id off) by (unfold is_u; lia). rewrite Z.shiftl_mul_pow2 by lia.
  rewrite u32_id by (unfold is_u; lia). rewrite !land_255.
  rewrite (Z.mod_small func) by lia. rewrite lor_add by lia.
  split.
  - rewrite Z.add_comm, Z.mod_add by lia. apply Z.mod_small. lia.
  - rewrite Z.shiftr_div_pow2 by lia. rewrite Z.div_add_l by lia. rewrite Z.div_small by lia. lia.
Qed.

Lemma validate_app ws rest fd len i prev f :
  validate_loop (ws ++ rest) fd len i prev f f =
  match validate_loop ws fd len i prev f f with
  | Some (f', prev') => validate_loop rest fd len (i + Zlen ws) prev' f' f'
  | None => None
  end.
Proof.
  revert i prev f. induction ws as [|t ws IH]; intros i prev f; cbn [app validate_loop].
  { unfold Zlen. cbn. f_equal. lia. }
  assert (E : i + Zlen (t :: ws) = i + 1 + Zlen ws) by (unfold Zlen; cbn [length]; lia). rewrite E.
  destruct (Z.rem i 100 =? 0); [apply IH|].
  destruct (_ || _); [done|apply IH].
Qed.

(** The indexer stands at position [p] of the file. *)
Definition index_inv (fd : list Z) (x : indexer) (p : Z) : Prop :=
  validate_loop (ix_words x) fd (Zlen fd) 0 0 0 0 = Some (p, ix_prevpos100 x) /\
  ix_counter x = Zlen (ix_words x) /\ Z.rem (ix_counter x) 100 <> 0 /\ 0 <= ix_prevpos100 x <= p.

Lemma index_step fd x p q func :
  index_inv fd x p -> p < q <= Zlen fd -> Zlen fd < 2 ^ 32 -> byte_ok func ->
  rd fd (Z.to_nat p) = func -> q - ix_prevpos100 x < 2 ^ 24 -> ix_counter x < 2 ^ 32 - 2 ->
  index_inv fd (hush_indfile_update x q func) q /\
  ix_counter (hush_indfile_update x q func) <= ix_counter x + 2.
Proof.
  intros (Hv & Hc & Hm & Hp) Hq Hfd Hf Hrd Hspan Hcnt. unfold hush_indfile_update. cbv zeta.
  destruct (index_word (q - ix_prevpos100 x) func) as [Hw1 Hw2]; [lia|done|]. cbv zeta in Hw1, Hw2.
  set (tmp := Z.lor _ _) in *. cbn [ix_counter ix_words ix_prevpos100].
  pose proof (Zlen_nonneg (ix_words x)) as Hn.
  rewrite (u32_id (ix_counter x + 1)) by (unfold is_u; lia).
  assert (Hlen : forall (y : Z) ws, Zlen (ws ++ [y]) = Zlen ws + 1)
    by (intros; rewrite Zlen_app; unfold Zlen; cbn [length]; lia).
  assert (Hv1 : validate_loop (ix_words x ++ [tmp]) fd (Zlen fd) 0 0 0 0 = Some (q, ix_prevpos100 x)).
  { rewrite validate_app, Hv, Z.add_0_l, <- Hc. cbn [validate_loop].
    rewrite (proj2 (Z.eqb_neq _ _) Hm), Hw1, Hw2, Hrd, Z.eqb_refl.
    rewrite (proj2 (Z.leb_gt _ _)) by lia. cbn [orb negb].
    replace (ix_prevpos100 x + (q - ix_prevpos100 x)) with q by lia. by rewrite u32_id by (unfold is_u; lia). }
  destruct (Z.eqb_spec (Z.rem (ix_counter x + 1) 100) 0) as [Hz|Hz]; cbn [ix_counter].
  - rewrite (u32_id (ix_counter x + 1 + 1)), (u32_id q) by (unfold is_u; lia). split; [|lia].
    unfold index_inv. cbn [ix_words ix_prevpos100 ix_counter].
    rewrite validate_app, Hv1, !Hlen, Z.add_0_l, <- Hc. cbn [validate_loop].
    rewrite (proj2 (Z.eqb_eq _ _) Hz). repeat split; try lia.
    rewrite Z.rem_mod_nonneg in * by lia. intros Hz2.
    apply Z.mod_divide in Hz, Hz2; try lia. destruct Hz as [u Hu], Hz2 as [v Hv2]. lia.
  - split; [|lia]. unfold index_inv. cbn [ix_words ix_prevpos100 ix_counter].
    rewrite Hlen. repeat split; try done; lia.
Qed.

(** The index written while a state file of less than 4 gigabytes is loaded
    validates against that file, provided no record ends 16 megabytes or more
    after the last absolute position: the walk ends at the end of the last
    record, with the same counter and base position as the writer. *)
Theorem index_validates fd l :
  records_of fd 0 l -> index_fits index_start l -> Zlen fd < 2 ^ 32 -> 2 * Zlen l < 2 ^ 32 - 4 ->
  let x := index_records l in
  hush_stateind_validate (ix_words x) fd = Some (end_pos 0 l, ix_counter x, ix_prevpos100 x).
Proof.
  intros Hr Hfit Hfd Hl.
  assert (H : forall l x p, index_inv fd x p -> records_of fd p l -> index_fits x l ->
    ix_counter x + 2 * Zlen l < 2 ^ 32 - 2 ->
    index_inv fd (foldl (fun x r => hush_indfile_update x r.1 r.2) x l) (end_pos p l)).
  { clear Hr Hfit Hl l. intros l. induction l as [|[q func] l IH]; intros x p Hi Hr Hfit Hc; [done|].
    cbn in Hr, Hfit. destruct Hr as (Hq & Hb & Hrd & Hr), Hfit as [Hs Hfit].
    assert (Hlen : Zlen ((q, func) :: l) = Zlen l + 1) by (unfold Zlen; cbn [length]; lia).
    pose proof (Zlen_nonneg l). rewrite Hlen in Hc.
    destruct (index_step fd x p q func) as [Hi' Hc']; try done; [lia|].
    apply (IH _ q Hi' Hr Hfit). lia. }
  assert (H0 : index_inv fd index_start 0) by (split; [reflexivity|]; split; [reflexivity|]; split; [discriminate|cbn; lia]).
  specialize (H l index_start 0 H0 Hr Hfit ltac:(cbn; lia)). fold (index_records l) in H.
  destruct H as (Hv & Hc & _ & _). cbv zeta. unfold hush_stateind_validate. by rewrite Hv, Hc.
Qed.

Lemma index_validates_witness :
  hush_stateind_validate (ix_words (index_records [(3, 75); (6, 84)])) [75; 1; 2; 84; 4; 5] = Some (6, 3, 0).
Proof.
  apply (index_validates [75; 1; 2; 84; 4; 5] [(3, 75); (6, 84)]); unfold Zlen, byte_ok; cbn; unfold Zlen, byte_ok; cbn; repeat split; try lia.
Defined.
