(* ===== verification/Merkle.v ===== *)
(** * Merkle trees and branches

    [BuildMerkleTree], [GetMerkleBranch] and [CBlock::CheckMerkleBranch] of
    src/src/primitives/block.cpp, the functions behind block Merkle roots and
    the Merkle-of-Merkle roots (MoM) of notarizations.  The two-to-one hash
    [Hash] is a parameter: the theorems hold for every such function. *)
From S2P Require Import Prelude Notarized.

Section Merkle.
Context (Hash : uint256 -> uint256 -> uint256).

(** ** The code *)

Definition at_ (tree : list uint256) (i : nat) : uint256 := nth i tree zero256.

(** The body of the inner loop for [i = 2k]. *)
Definition merkle_pair (j nSize : nat) (acc : list uint256 * bool) (k : nat) : list uint256 * bool :=
  let '(vMerkleTree, mutated) := acc in
  let i := 2 * k in
  let i2 := Nat.min (i + 1) (nSize - 1) in
  let mutated := mutated || ((i2 =? i + 1) && (i2 + 1 =? nSize)
                             && bool_decide (at_ vMerkleTree (j + i) = at_ vMerkleTree (j + i2))) in
  (vMerkleTree ++ [Hash (at_ vMerkleTree (j + i)) (at_ vMerkleTree (j + i2))], mutated).

Definition merkle_level (j nSize : nat) (acc : list uint256 * bool) : list uint256 * bool :=
  foldl (merkle_pair j nSize) acc (seq 0 ((nSize + 1) / 2)).

(** The outer loop; the size halves, so the size is enough fuel. *)
Fixpoint merkle_levels (fuel j nSize : nat) (acc : list uint256 * bool) : list uint256 * bool :=
  match fuel with
  | O => acc
  | S fuel => if 1 <? nSize
              then merkle_levels fuel (j + nSize) ((nSize + 1) / 2) (merkle_level j nSize acc)
              else acc
  end.

(** The root, [*fMutated] and [vMerkleTree]. *)
Definition BuildMerkleTree (leaves : list uint256) : uint256 * bool * list uint256 :=
  let '(vMerkleTree, mutated) := merkle_levels (length leaves) 0 (length leaves) (leaves, false) in
  (default zero256 (last vMerkleTree), mutated, vMerkleTree).

Fixpoint branch_loop (fuel nIndex j nSize : nat) (vMerkleTree : list uint256) : list uint256 :=
  match fuel with
  | O => []
  | S fuel =>
    if 1 <? nSize
    then at_ vMerkleTree (j + Nat.min (Nat.lxor nIndex 1) (nSize - 1))
         :: branch_loop fuel (nIndex / 2) (j + nSize) ((nSize + 1) / 2) vMerkleTree
    else []
  end.

Definition GetMerkleBranch (nIndex nLeaves : nat) (vMerkleTree : list uint256) : list uint256 :=
  branch_loop nLeaves nIndex 0 nLeaves vMerkleTree.

(** For [nIndex >= 0]; -1 gives the zero hash. *)
Fixpoint CheckMerkleBranch (hash : uint256) (vMerkleBranch : list uint256) (nIndex : nat) : uint256 :=
  match vMerkleBranch with
  | [] => hash
  | it :: rest =>
    CheckMerkleBranch (if Nat.odd nIndex then Hash it hash else Hash hash it) rest (nIndex / 2)
  end.

(** ** The tree by levels *)

Definition next_level (l : list uint256) : list uint256 :=
  map (fun k => Hash (at_ l (2 * k)) (at_ l (Nat.min (2 * k + 1) (length l - 1))))
    (seq 0 ((length l + 1) / 2)).

(** The pairs that are hashed for the next level, and for all of them. *)
Definition level_pairs (l : list uint256) : list (uint256 * uint256) :=
  map (fun k => (at_ l (2 * k), at_ l (Nat.min (2 * k + 1) (length l - 1)))) (seq 0 ((length l + 1) / 2)).
Fixpoint pairs_from (fuel : nat) (l : list uint256) : list (uint256 * uint256) :=
  match fuel with
  | O => []
  | S fuel => if 1 <? length l then level_pairs l ++ pairs_from fuel (next_level l) else []
  end.
Definition merkle_pairs (l : list uint256) : list (uint256 * uint256) := pairs_from (length l) l.

Fixpoint levels (fuel : nat) (l : list uint256) : list (list uint256) :=
  match fuel with
  | O => []
  | S fuel => if 1 <? length l then next_level l :: levels fuel (next_level l) else []
  end.

Definition merkle_root (l : list uint256) : uint256 := hd zero256 (List.last (levels (length l) l) l).

Lemma length_next_level l : length (next_level l) = ((length l + 1) / 2)%nat.
Proof. unfold next_level. by rewrite length_map, length_seq. Qed.

Lemma half_lt n : (1 < n)%nat -> (0 < (n + 1) / 2 < n)%nat.
Proof. intros H. split; [apply Nat.div_str_pos; lia|apply Nat.Div0.div_lt_upper_bound; lia]. Qed.

Lemma at_app_r pre l rest i : (i < length l)%nat -> at_ (pre ++ l ++ rest) (length pre + i) = at_ l i.
Proof.
  intros H. unfold at_. rewrite app_nth2 by lia. rewrite Nat.add_comm, Nat.add_sub. by apply app_nth1.
Qed.

Lemma merkle_level_spec pre l m :
  (1 < length l)%nat ->
  (merkle_level (length pre) (length l) (pre ++ l, m)).1 = pre ++ l ++ next_level l.
Proof.
  intros Hl. unfold merkle_level, next_level.
  assert (H : forall ks done m, Forall (fun k => 2 * k < length l)%nat ks ->
    (foldl (merkle_pair (length pre) (length l)) (pre ++ l ++ done, m) ks).1 =
    pre ++ l ++ done ++ map (fun k => Hash (at_ l (2 * k)) (at_ l (Nat.min (2 * k + 1) (length l - 1)))) ks).
  { intros ks. induction ks as [|k ks IH]; intros done m' Hks; cbn [foldl map].
    { by rewrite app_nil_r. }
    inversion Hks as [|? ? Hk Hks']; subst. unfold merkle_pair at 2.
    rewrite !at_app_r by lia. rewrite <- !app_assoc.
    rewrite (IH (done ++ [_])) by done. by rewrite <- app_assoc. }
  specialize (H (seq 0 ((length l + 1) / 2)) [] m). rewrite !app_nil_r in H. rewrite H; [done|].
  apply List.Forall_forall. intros k Hk%in_seq.
  assert (2 * ((length l + 1) / 2) <= length l + 1)%nat by (apply Nat.Div0.mul_div_le). lia.
Qed.

Lemma merkle_levels_spec fuel pre l m :
  (merkle_levels fuel (length pre) (length l) (pre ++ l, m)).1 = pre ++ l ++ concat (levels fuel l).
Proof.
  revert pre l m. induction fuel as [|fuel IH]; intros pre l m; cbn [merkle_levels levels concat].
  { by rewrite app_nil_r. }
  destruct (Nat.ltb_spec 1 (length l)) as [Hl|Hl]; cbn [concat]; [|by rewrite app_nil_r].
  pose proof (merkle_level_spec pre l m Hl) as H.
  destruct (merkle_level (length pre) (length l) (pre ++ l, m)) as [t m']. cbn in H. subst t.
  rewrite app_assoc, <- (length_app pre l), <- length_next_level, IH.
  by rewrite <- !app_assoc.
Qed.

Lemma last_indep {A} (x : A) xs d d' : List.last (x :: xs) d = List.last (x :: xs) d'.
Proof. revert x. induction xs as [|y xs IH]; intros x; [done|]. apply (IH y). Qed.

(** The last of [x :: xs] with default [d] is the last of [xs] with default [x]. *)
Lemma last_cons_default {A} (x : A) xs d : List.last (x :: xs) d = List.last xs x.
Proof. destruct xs as [|y xs]; [done|]. apply (last_indep y xs). Qed.

Lemma top_level fuel l :
  (0 < length l <= fuel)%nat ->
  exists r, List.last (levels fuel l) l = [r] /\ last (l ++ concat (levels fuel l)) = Some r.
Proof.
  revert l. induction fuel as [|fuel IH]; intros l Hl; [lia|]. cbn [levels].
  destruct (Nat.ltb_spec 1 (length l)) as [H1|H1].
  - pose proof (half_lt (length l) H1) as Hh. rewrite <- length_next_level in Hh.
    destruct (IH (next_level l)) as (r & E1 & E2); [lia|]. exists r. cbn [concat]. split.
    + rewrite last_cons_default. exact E1.
    + rewrite last_app, E2. done.
  - destruct l as [|r [|? ?]]; cbn in Hl, H1; [lia| |lia]. by exists r.
Qed.

Fixpoint ref_branch (fuel nIndex : nat) (l : list uint256) : list uint256 :=
  match fuel with
  | O => []
  | S fuel => if 1 <? length l
              then at_ l (Nat.min (Nat.lxor nIndex 1) (length l - 1))
                   :: ref_branch fuel (nIndex / 2) (next_level l)
              else []
  end.

Lemma branch_loop_spec fuel nIndex pre l :
  branch_loop fuel nIndex (length pre) (length l) (pre ++ l ++ concat (levels fuel l)) =
  ref_branch fuel nIndex l.
Proof.
  revert nIndex pre l. induction fuel as [|fuel IH]; intros nIndex pre l; [done|].
  cbn [branch_loop ref_branch levels]. destruct (Nat.ltb_spec 1 (length l)) as [Hl|Hl]; [|done].
  cbn [concat]. rewrite at_app_r by lia. f_equal.
  rewrite <- (length_app pre l), <- length_next_level.
  rewrite (app_assoc pre l). apply IH.
Qed.

Lemma lxor_even k : Nat.lxor (2 * k) 1 = (2 * k + 1)%nat.
Proof.
  apply Nat.bits_inj. intros m. rewrite Nat.lxor_spec. destruct m as [|m].
  - by rewrite Nat.testbit_even_0, Nat.testbit_odd_0.
  - rewrite Nat.testbit_even_succ', Nat.testbit_odd_succ' by lia.
    rewrite <- (Nat.add_0_l 1), <- (Nat.mul_0_r 2), Nat.testbit_odd_succ' by lia.
    by rewrite Nat.bits_0, xorb_false_r.
Qed.

Lemma lxor_odd k : Nat.lxor (2 * k + 1) 1 = (2 * k)%nat.
Proof. by rewrite <- (lxor_even k), Nat.lxor_assoc, Nat.lxor_nilpotent, Nat.lxor_0_r. Qed.

Lemma next_level_at l k :
  (2 * k < length l)%nat ->
  at_ (next_level l) k = Hash (at_ l (2 * k)) (at_ l (Nat.min (2 * k + 1) (length l - 1))).
Proof.
  intros Hk. unfold at_ at 1, next_level.
  set (f := fun k : nat => _). rewrite (nth_indep _ zero256 (f 0%nat)).
  - rewrite map_nth. unfold f. by rewrite seq_nth
      by (apply Nat.div_le_lower_bound; lia).
  - rewrite length_map, length_seq. apply Nat.div_le_lower_bound; lia.
Qed.

Lemma check_ref_branch fuel l nIndex :
  (0 < length l <= fuel)%nat -> (nIndex < length l)%nat ->
  CheckMerkleBranch (at_ l nIndex) (ref_branch fuel nIndex l) nIndex = hd zero256 (List.last (levels fuel l) l).
Proof.
  revert l nIndex. induction fuel as [|fuel IH]; intros l nIndex Hl Hi; [lia|].
  destruct (top_level (S fuel) l Hl) as (r & Etop & _). rewrite Etop. cbn [hd].
  cbn [ref_branch levels] in *. destruct (Nat.ltb_spec 1 (length l)) as [H1|H1].
  2:{ destruct l as [|x [|? ?]]; cbn in Hl, H1, Hi; [lia| |lia]. injection Etop as ->.
      replace nIndex with 0%nat by lia. done. }
  pose proof (half_lt (length l) H1) as Hh. rewrite <- length_next_level in Hh.
  cbn [CheckMerkleBranch].
  destruct (top_level fuel (next_level l)) as (r' & E' & _); [lia|].
  assert (Er : r' = r) by (rewrite last_cons_default in Etop; congruence).
  assert (Hk : exists k, (2 * k < length l)%nat /\ (nIndex / 2 = k)%nat /\
    (if Nat.odd nIndex then Hash (at_ l (Nat.min (Nat.lxor nIndex 1) (length l - 1))) (at_ l nIndex)
     else Hash (at_ l nIndex) (at_ l (Nat.min (Nat.lxor nIndex 1) (length l - 1)))) = at_ (next_level l) k).
  { destruct (Nat.Even_or_Odd nIndex) as [[k ->]|[k ->]]; exists k.
    - split; [lia|]. split; [rewrite Nat.mul_comm; apply Nat.div_mul; lia|].
      rewrite Nat.odd_even, lxor_even, next_level_at by lia. done.
    - split; [lia|]. split; [rewrite Nat.mul_comm, Nat.div_add_l by lia; cbn; lia|].
      rewrite Nat.odd_odd, lxor_odd, next_level_at by lia. f_equal; f_equal; lia. }
  destruct Hk as (k & Hk1 & Hk2 & ->). rewrite Hk2.
  rewrite (IH (next_level l) k), E'; [by cbn|lia|].
  rewrite length_next_level. apply Nat.div_le_lower_bound; lia.
Qed.

Lemma BuildMerkleTree_eq leaves :
  let '(root, _, tree) := BuildMerkleTree leaves in
  tree = leaves ++ concat (levels (length leaves) leaves) /\
  (leaves = [] -> root = zero256) /\ (leaves <> [] -> root = merkle_root leaves).
Proof.
  unfold BuildMerkleTree. pose proof (merkle_levels_spec (length leaves) [] leaves false) as H.
  cbn [app length] in H. destruct (merkle_levels _ _ _ _) as [t m]. cbn in H. subst t.
  split; [done|]. split; [by intros ->|]. intros Hne. unfold merkle_root.
  destruct (top_level (length leaves) leaves) as (r & E1 & E2); [destruct leaves; [done|]; cbn; lia|].
  by rewrite E1, E2.
Qed.

(** A pair of the one list and a different pair of the other have the same hash. *)
Definition collides (A B : list (uint256 * uint256)) : Prop :=
  exists x y, x ∈ A /\ y ∈ B /\ x <> y /\ Hash x.1 x.2 = Hash y.1 y.2.

(** There is none, by trying them all. *)
Lemma no_collision A B :
  forallb (fun x => forallb (fun y => bool_decide (x = y) || negb (bool_decide (Hash x.1 x.2 = Hash y.1 y.2))) B) A = true ->
  ~ collides A B.
Proof.
  intros H (x & y & Hx%list_elem_of_In & Hy%list_elem_of_In & Hne & E).
  rewrite forallb_forall in H. specialize (H x Hx). rewrite forallb_forall in H. specialize (H y Hy).
  rewrite bool_decide_eq_false_2, bool_decide_eq_true_2 in H by done. done.
Qed.

(** The pairs that [CheckMerkleBranch] hashes. *)
Fixpoint branch_pairs (hash : uint256) (vMerkleBranch : list uint256) (nIndex : nat) : list (uint256 * uint256) :=
  match vMerkleBranch with
  | [] => []
  | it :: rest =>
    let p := if Nat.odd nIndex then (it, hash) else (hash, it) in
    p :: branch_pairs (Hash p.1 p.2) rest (nIndex / 2)
  end.

Lemma collides_sub A B A' B' : A ⊆ A' -> B ⊆ B' -> collides A B -> collides A' B'.
Proof. intros HA HB (x & y & Hx & Hy & H). exists x, y. auto. Qed.

Lemma branch_binding vMerkleBranch nIndex x y :
  CheckMerkleBranch x vMerkleBranch nIndex = CheckMerkleBranch y vMerkleBranch nIndex ->
  x = y \/ collides (branch_pairs x vMerkleBranch nIndex) (branch_pairs y vMerkleBranch nIndex).
Proof.
  revert nIndex x y. induction vMerkleBranch as [|it rest IH]; intros nIndex x y; cbn; [by left|].
  intros H. destruct (decide (x = y)) as [|Hne]; [by left|right].
  destruct (Nat.odd nIndex); cbn [fst snd] in *; destruct (IH _ _ _ H) as [E|Hc].
  - exists (it, x), (it, y). split; [left|]. split; [left|]. split; [congruence|done].
  - revert Hc. apply collides_sub; intros p Hp; by right.
  - exists (x, it), (y, it). split; [left|]. split; [left|]. split; [congruence|done].
  - revert Hc. apply collides_sub; intros p Hp; by right.
Qed.

End Merkle.

(** Merkle proofs are complete and binding, for every two-to-one hash: for each
    leaf, [CheckMerkleBranch] on the branch taken by [GetMerkleBranch] from the
    tree of [BuildMerkleTree] gives the root (which is the level-by-level root);
    and a value that passes the same branch to the same root is that leaf,
    unless a pair that was hashed for the value and a different one that was
    hashed for the leaf have one hash. *)
Theorem merkle_proofs (Hash : uint256 -> uint256 -> uint256) leaves nIndex leaf :
  leaves !! nIndex = Some leaf ->
  let '(root, _, tree) := BuildMerkleTree Hash leaves in
  let branch := GetMerkleBranch nIndex (length leaves) tree in
  root = merkle_root Hash leaves /\ CheckMerkleBranch Hash leaf branch nIndex = root /\
  forall x, CheckMerkleBranch Hash x branch nIndex = root ->
    x = leaf \/ collides Hash (branch_pairs Hash x branch nIndex) (branch_pairs Hash leaf branch nIndex).
Proof.
  intros Hleaf. pose proof (BuildMerkleTree_eq Hash leaves) as H.
  destruct (BuildMerkleTree Hash leaves) as [[root m] tree]. destruct H as (-> & _ & Hroot).
  assert (Hi := lookup_lt_Some _ _ _ Hleaf).
  assert (Hne : leaves <> []) by (intros ->; done). specialize (Hroot Hne).
  assert (Hcheck : CheckMerkleBranch Hash leaf
    (GetMerkleBranch nIndex (length leaves) (leaves ++ concat (levels Hash (length leaves) leaves))) nIndex = root).
  { unfold GetMerkleBranch. pose proof (branch_loop_spec Hash (length leaves) nIndex [] leaves) as Hb.
    cbn [app length] in Hb. rewrite Hb.
    rewrite Hroot. unfold merkle_root. rewrite <- (check_ref_branch Hash (length leaves) leaves nIndex) by lia.
    f_equal. unfold at_. symmetry. by apply nth_lookup_Some. }
  cbv zeta. split; [done|]. split; [done|]. intros x Hx. rewrite <- Hcheck in Hx.
  exact (branch_binding Hash _ nIndex x leaf Hx).
Qed.

(** A toy hash and five leaves. *)
Definition demo_hash (a b : uint256) : uint256 := [17 * le_num a + 31 * le_num b + 1]%Z.

Lemma merkle_proofs_witness :
  let '(root, _, tree) := BuildMerkleTree demo_hash [[1]; [2]; [3]; [4]; [5]]%Z in
  CheckMerkleBranch demo_hash [5]%Z (GetMerkleBranch 4 5 tree) 4 = root.
Proof.
  pose proof (merkle_proofs demo_hash [[1]; [2]; [3]; [4]; [5]]%Z 4 [5]%Z eq_refl) as H.
  destruct (BuildMerkleTree demo_hash _) as [[root m] tree]. exact (proj1 (proj2 H)).
Defined.

(** The known weakness that [*fMutated] reports: repeating the last two leaves of
    six keeps the root. *)
Example merkle_duplicate_flagged :
  let l := [[1]; [2]; [3]; [4]; [5]; [6]]%Z in
  (BuildMerkleTree demo_hash l).1 = ((BuildMerkleTree demo_hash l).1.1, false) /\
  (BuildMerkleTree demo_hash (l ++ [[5]; [6]])%Z).1 = ((BuildMerkleTree demo_hash l).1.1, true).
Proof. split; vm_compute; reflexivity. Qed.
