(* ===== verification/CCData.v ===== *)
(** * Cross-chain Merkle data

    src/src/hush_ccdata.h: the Merkle root of a range of blocks (MoM), the list
    [CC_data] of notarizations seen, newest first, and the root of roots (MoMoM)
    with the positions of one chain's entries.  The utlist macros are list
    operations; [hush_chainactive] is the active chain as a function from heights
    to the Merkle root of the block. *)
From stdpp Require Import sorting.
From S2P Require Import Prelude Encoding Notarized Merkle.
Local Open Scope Z_scope.

(** ** Data *)

Record hush_ccdata := CCdata {
  cc_MoM : uint256; cc_MoMdepth : Z; cc_notarized_height : Z; cc_height : Z; cc_txi : Z;
  cc_CCid : Z; cc_symbol : list Z
}.

Record hush_ccdata_entry := CCentry {
  ce_MoM : uint256; ce_notarized_height : Z; ce_hushheight : Z; ce_txi : Z; ce_symbol : list Z
}.

Record hush_ccdataMoMoM := CCMoMoM {
  mm_MoMoM : uint256; mm_hushstarti : Z; mm_hushendi : Z; mm_MoMoMdepth : Z;
  mm_pairs : list (Z * Z)          (* notarized_height, MoMoMoffset *)
}.

Section CCData.
Context (Hash : uint256 -> uint256 -> uint256).

(** ** Operations *)

(** The leaves [height], [height-1], ..., newest first; [None] if a block is missing. *)
Fixpoint mom_leaves (chainactive : Z -> option uint256) (height : Z) (n : nat) : option (list uint256) :=
  match n with
  | O => Some []
  | S n =>
    match chainactive height with
    | Some root => option_map (cons root) (mom_leaves chainactive (height - 1) n)
    | None => None
    end
  end.

Definition hush_calcMoM (chainactive : Z -> option uint256) (height MoMdepth : Z) : uint256 :=
  let MoMdepth := Z.land MoMdepth 0xffff in
  if height <=? MoMdepth then zero256
  else match mom_leaves chainactive height (Z.to_nat MoMdepth) with
       | Some leaves => (BuildMerkleTree Hash leaves).1.1
       | None => zero256
       end.

Definition cc_entry (c : hush_ccdata) : hush_ccdata_entry :=
  CCentry (cc_MoM c) (cc_notarized_height c) (cc_height c) (cc_txi c) (cc_symbol c).

(** The loop of [hush_allMoMs], with its [break]. *)
Fixpoint allMoMs_loop (CC_data : list hush_ccdata) (hushstarti hushendi : Z) : list hush_ccdata_entry :=
  match CC_data with
  | [] => []
  | c :: rest =>
    let tail := if cc_height c <? hushstarti then [] else allMoMs_loop rest hushstarti hushendi in
    if (cc_height c <=? hushendi) && (hushstarti <=? cc_height c) then cc_entry c :: tail else tail
  end.

(** The entries and [*MoMoMp]; [None] is the null pointer with [*nump = 0]. *)
Definition hush_allMoMs (CC_data : list hush_ccdata) (hushstarti hushendi : Z)
  : option (list hush_ccdata_entry * uint256) :=
  match allMoMs_loop CC_data hushstarti hushendi with
  | [] => None
  | l => Some (l, (BuildMerkleTree Hash (map ce_MoM l)).1.1)
  end.

(** [maxpairs] (-1 for the error) and the pairs. *)
Definition hush_addpair (pairs : list (Z * Z)) (notarized_height offset maxpairs : Z) : Z * list (Z * Z) :=
  if 0 <=? maxpairs then
    (if maxpairs <=? Zlen pairs then maxpairs + 100 else maxpairs, pairs ++ [(notarized_height, offset)])
  else (-1, pairs).

(** The search for the range: [starti], [endi] and [CCid]. *)
Fixpoint momom_range (CC_data : list hush_ccdata) (symbol : list Z) (hushheight notarized_height : Z)
  (starti endi CCid : Z) : Z * Z * Z :=
  match CC_data with
  | [] => (starti, endi, CCid)
  | c :: rest =>
    if cc_height c <? hushheight then
      if bool_decide (cc_symbol c = symbol) then
        let '(endi, CCid) := if endi =? 0 then (cc_height c, cc_CCid c) else (endi, CCid) in
        if cc_notarized_height c <=? notarized_height then (cc_height c + 1, endi, CCid)
        else momom_range rest symbol hushheight notarized_height (cc_height c) endi CCid
      else momom_range rest symbol hushheight notarized_height (cc_height c) endi CCid
    else momom_range rest symbol hushheight notarized_height starti endi CCid
  end.

(** The loop that collects the positions of the chain's entries. *)
Fixpoint collect_pairs (symbol : list Z) (l : list hush_ccdata_entry) (i maxpairs : Z) (pairs : list (Z * Z))
  : list (Z * Z) :=
  match l with
  | [] => pairs
  | e :: l =>
    if bool_decide (symbol = ce_symbol e) then
      let '(maxpairs, pairs) := hush_addpair pairs (ce_notarized_height e) i maxpairs in
      collect_pairs symbol l (i + 1) maxpairs pairs
    else collect_pairs symbol l (i + 1) maxpairs pairs
  end.

Definition put32 (x : Z) : list Z := (dragon_rwnum true (replicate 4 0) 4 x).1.2.

(** The loop over the pairs, bounded by the 8192 bytes of [hexdata]. *)
Fixpoint put_pairs (hexdata : list Z) (pairs : list (Z * Z)) : list Z * bool :=
  match pairs with
  | [] => (hexdata, true)
  | (nh, off) :: pairs =>
    if 8192 <? Zlen hexdata + 8 then (hexdata, false)
    else put_pairs (hexdata ++ put32 nh ++ put32 off) pairs
  end.

Definition momom_header (CCid : Z) (md : hush_ccdataMoMoM) : list Z :=
  put32 CCid ++ put32 (mm_hushstarti md) ++ put32 (mm_hushendi md) ++ mm_MoMoM md
  ++ put32 (mm_MoMoMdepth md) ++ put32 (Zlen (mm_pairs md)).

(** The return value, the hexadecimal string and [*mdata]. *)
Definition hush_MoMoMdata (CC_data : list hush_ccdata) (hexsize : Z) (symbol : list Z)
  (hushheight notarized_height : Z) : Z * list Z * hush_ccdataMoMoM :=
  let none := CCMoMoM zero256 0 0 0 [] in
  if hexsize <? 8192 * 2 + 1 then (-1, [0], none)
  else
    let '(starti, endi, CCid) := momom_range CC_data symbol hushheight notarized_height 0 0 0 in
    let md := CCMoMoM zero256 starti endi 0 [] in
    if negb (starti =? 0) && negb (endi =? 0) && (starti <=? endi) then
      match hush_allMoMs CC_data starti endi with
      | None => (-1, [0], md)
      | Some (allMoMs, MoMoM) =>
        let md := CCMoMoM MoMoM starti endi (Zlen allMoMs) (collect_pairs symbol allMoMs 0 0 []) in
        if 0 <? Zlen (mm_pairs md) then
          let '(hexdata, complete) := put_pairs (momom_header CCid md) (mm_pairs md) in
          if complete && (Zlen hexdata * 2 + 1 <? hexsize)
          then (0, (init_hexbytes_noT hexdata).1, md)
          else (-1, [0], md)
        else (-1, [0], md)
      end
    else (-1, [0], md).

(** [hush_purge_ccdata]; [main]: [SMART_CHAIN_SYMBOL[0] == 0]. *)
Fixpoint purge_loop (CC_data : list hush_ccdata) (height : Z) : list hush_ccdata :=
  match CC_data with
  | [] => []
  | c :: rest => if height <=? cc_height c then purge_loop rest height else CC_data
  end.

Definition hush_purge_ccdata (main : bool) (CC_data : list hush_ccdata) (height : Z) : list hush_ccdata :=
  if main then purge_loop CC_data height else CC_data.

(** [hush_rwccdata] returns before it does anything. *)
Definition hush_rwccdata (CC_data : list hush_ccdata) (c : hush_ccdata) : Z * list hush_ccdata := (0, CC_data).

(** ** Properties *)

(** Newest first. *)
Definition cc_sorted (l : list hush_ccdata) : Prop :=
  StronglySorted (fun a b => cc_height b <= cc_height a) l.

Lemma allMoMs_loop_spec l a b :
  cc_sorted l ->
  allMoMs_loop l a b =
    map cc_entry (List.filter (fun c => (cc_height c <=? b) && (a <=? cc_height c)) l).
Proof.
  induction 1 as [|c l Hs IH Hall]; cbn [allMoMs_loop List.filter map]; [done|].
  destruct (Z.ltb_spec (cc_height c) a) as [Hlt|Hge].
  - rewrite (proj2 (Z.leb_gt a (cc_height c))) by lia. rewrite andb_false_r.
    replace (List.filter _ l) with (@nil hush_ccdata); [done|].
    clear IH Hs. induction l as [|d l IHl]; [done|]. inversion Hall; subst. cbn [List.filter].
    rewrite (proj2 (Z.leb_gt a (cc_height d))) by lia. rewrite andb_false_r. by apply IHl.
  - rewrite IH. by destruct (_ && _).
Qed.

Lemma purge_loop_spec l h :
  cc_sorted l -> purge_loop l h = List.filter (fun c => cc_height c <? h) l.
Proof.
  induction 1 as [|c l Hs IH Hall]; cbn [purge_loop List.filter]; [done|].
  destruct (Z.leb_spec h (cc_height c)) as [Hle|Hgt].
  - rewrite (proj2 (Z.ltb_ge _ _)) by lia. done.
  - rewrite (proj2 (Z.ltb_lt _ _)) by lia. f_equal. symmetry. apply forallb_filter_id, forallb_forall.
    intros d Hd. rewrite List.Forall_forall in Hall. specialize (Hall d Hd). lia.
Qed.

(** Each pair points at an entry of the chain, and each entry has its pair. *)
Lemma collect_pairs_spec symbol l i maxpairs pairs nh off :
  0 <= maxpairs ->
  (nh, off) ∈ collect_pairs symbol l i maxpairs pairs <->
  (nh, off) ∈ pairs \/ exists k e, l !! k = Some e /\ ce_symbol e = symbol /\
    nh = ce_notarized_height e /\ off = i + Z.of_nat k.
Proof.
  revert i maxpairs pairs. induction l as [|e l IH]; intros i maxpairs pairs Hm; cbn [collect_pairs].
  { split; [by left|]. intros [?|(k & e & ? & _)]; [done|]. by rewrite lookup_nil in *. }
  assert (Hshift : forall P : Prop, (exists k e', (e :: l) !! k = Some e' /\ ce_symbol e' = symbol /\
      nh = ce_notarized_height e' /\ off = i + Z.of_nat k) <->
    (ce_symbol e = symbol /\ nh = ce_notarized_height e /\ off = i) \/
    exists k e', l !! k = Some e' /\ ce_symbol e' = symbol /\ nh = ce_notarized_height e' /\
      off = i + 1 + Z.of_nat k).
  { intros _. split.
    - intros ([|k] & e' & Hk & H1 & H2 & H3); cbn in Hk.
      + left. injection Hk as ->. repeat split; [done|done|lia].
      + right. exists k, e'. repeat split; [done|done|done|lia].
    - intros [(H1 & H2 & H3)|(k & e' & Hk & H1 & H2 & H3)].
      + exists 0%nat, e. repeat split; [done|done|lia].
      + exists (S k), e'. repeat split; [done|done|done|lia]. }
  rewrite (Hshift True). clear Hshift. case_bool_decide as Hsym.
  - unfold hush_addpair. rewrite (proj2 (Z.leb_le 0 maxpairs) Hm).
    rewrite IH by (destruct (_ <=? _); lia). rewrite elem_of_app, list_elem_of_singleton.
    split; intros H; destruct_or! H; eauto; try (right; right; done).
    + injection H as -> ->. right. left. done.
    + destruct H as (_ & -> & ->). left. by right.
  - rewrite IH by done. split; intros H; destruct_or! H; eauto. destruct H as (<- & _). done.
Qed.

End CCData.

Definition pair_bytes (p : Z * Z) : list Z := put32 p.1 ++ put32 p.2.

Lemma length_put32 x : length (put32 x) = 4%nat.
Proof. reflexivity. Qed.

Lemma put_pairs_complete h ps d :
  put_pairs h ps = (d, true) -> d = h ++ concat (map pair_bytes ps) /\ (ps <> [] -> Zlen d <= 8192).
Proof.
  revert h. induction ps as [|[nh off] ps IH]; intros h; cbn [put_pairs map concat].
  { intros [= <-]. by rewrite app_nil_r. }
  destruct (Z.ltb_spec 8192 (Zlen h + 8)) as [|Hle]; [done|]. intros H.
  destruct (IH _ H) as [-> Hd]. split; [by rewrite <- !app_assoc|]. intros _.
  destruct ps as [|p ps]; [|by apply Hd].
  cbn [map concat] in *. rewrite app_nil_r. rewrite !Zlen_app. unfold Zlen in *. rewrite !length_put32. lia.
Qed.

(** When [hush_MoMoMdata] succeeds on a list in order (newest first), the root it
    reports is the Merkle root over the MoMs of exactly the notarizations in the
    reported height range, the pairs are exactly the positions (with their
    notarized heights) of the chain's own entries among those leaves, there is
    at least one, and the string is the hexadecimal form of the complete header
    and pair list, at most 8192 bytes. *)
Theorem MoMoMdata_sound Hash CC_data hexsize symbol hushheight nh hex md :
  cc_sorted CC_data ->
  hush_MoMoMdata Hash CC_data hexsize symbol hushheight nh = (0, hex, md) ->
  let entries := map cc_entry (List.filter (fun c => (cc_height c <=? mm_hushendi md)
                                 && (mm_hushstarti md <=? cc_height c)) CC_data) in
  mm_MoMoM md = (BuildMerkleTree Hash (map ce_MoM entries)).1.1 /\ mm_MoMoMdepth md = Zlen entries /\
  mm_pairs md <> [] /\
  (forall h off, (h, off) ∈ mm_pairs md <-> exists k e, entries !! k = Some e /\ ce_symbol e = symbol /\
     h = ce_notarized_height e /\ off = Z.of_nat k) /\
  exists CCid, let data := momom_header CCid md ++ concat (map pair_bytes (mm_pairs md)) in
    hex = (init_hexbytes_noT data).1 /\ Zlen data <= 8192.
Proof.
  intros Hs. unfold hush_MoMoMdata. destruct (hexsize <? _); [done|].
  destruct (momom_range CC_data symbol hushheight nh 0 0 0) as [[starti endi] CCid].
  destruct (_ && _); [|done]. unfold hush_allMoMs. rewrite (allMoMs_loop_spec _ _ _ Hs).
  set (entries := map cc_entry _). destruct entries as [|e0 es] eqn:Ee; [done|]. rewrite <- Ee. clear e0 es Ee.
  set (md0 := CCMoMoM _ _ _ _ _).
  destruct (Z.ltb_spec 0 (Zlen (mm_pairs md0))) as [Hpos|]; [|done].
  assert (Hne : mm_pairs md0 <> []) by (intros E; rewrite E in Hpos; unfold Zlen in Hpos; cbn in Hpos; lia).
  destruct (put_pairs (momom_header CCid md0) (mm_pairs md0)) as [d c] eqn:Ep.
  destruct c; [|done]. cbn [andb]. destruct (_ <? hexsize); [|done]. intros [= <- <-].
  destruct (put_pairs_complete _ _ _ Ep) as [-> Hd].
  split; [done|]. split; [done|]. split; [done|]. split.
  - intros h off. unfold md0. cbn [mm_pairs]. rewrite collect_pairs_spec by lia.
    rewrite elem_of_nil. split; [intros [[]|H]|intros H; right]; exact H.
  - exists CCid. split; [done|]. by apply Hd.
Qed.

Definition demo_cc (h nh : Z) (s : list Z) : hush_ccdata := CCdata (le_bytes 32 h) 10 nh h 0 2 s.
Definition demo_list : list hush_ccdata := [demo_cc 40 35 [65]; demo_cc 30 25 [66]; demo_cc 20 15 [65]].

Lemma MoMoMdata_sound_witness :
  let '(r, hex, md) := hush_MoMoMdata demo_hash demo_list 20000 [65] 100 15 in
  r = 0 /\ mm_MoMoMdepth md = 2 /\ mm_pairs md <> [].
Proof.
  assert (Hs : cc_sorted demo_list) by (repeat (constructor; cbn; try lia)).
  destruct (hush_MoMoMdata demo_hash demo_list 20000 [65] 100 15) as [[r hex] md] eqn:E.
  assert (Hr : r = 0) by (vm_compute in E; congruence). subst r.
  destruct (MoMoMdata_sound demo_hash demo_list 20000 [65] 100 15 hex md Hs E) as (_ & H2 & H3 & _).
  split; [reflexivity|]. split; [|exact H3]. rewrite H2. vm_compute in E.
  injection E as _ <-. vm_compute. reflexivity.
Defined.

Lemma mom_leaves_spec chain height n l :
  mom_leaves chain height n = Some l ->
  length l = n /\ forall k, (k < n)%nat -> l !! k = chain (height - Z.of_nat k).
Proof.
  revert height l. induction n as [|n IH]; intros height l; cbn [mom_leaves].
  { intros [= <-]. split; [done|]. intros k Hk. lia. }
  destruct (chain height) as [root|] eqn:E; [|done].
  destruct (mom_leaves chain (height - 1) n) as [l'|] eqn:E'; [|done]. intros [= <-].
  destruct (IH _ _ E') as [Hl Hk]. split; [cbn; lia|]. intros [|k] Hlt; cbn.
  - rewrite <- E. f_equal. lia.
  - rewrite Hk by lia. f_equal. lia.
Qed.

(** The MoM of [height] with a depth: zero if the depth (its low 16 bits) reaches
    the height or a block is missing, else the Merkle root whose [k]th leaf is the
    Merkle root of block [height - k]; the chain id in the upper bits is ignored. *)
Theorem calcMoM_spec Hash chain height MoMdepth :
  let depth := MoMdepth mod 2 ^ 16 in
  let r := hush_calcMoM Hash chain height MoMdepth in
  (height <= depth -> r = zero256) /\
  (depth < height -> (exists k, 0 <= k < depth /\ chain (height - k) = None) -> r = zero256) /\
  (depth < height -> (forall k, 0 <= k < depth -> chain (height - k) <> None) ->
   exists leaves, Zlen leaves = depth /\ r = (BuildMerkleTree Hash leaves).1.1 /\
     forall k, (k < length leaves)%nat -> leaves !! k = chain (height - Z.of_nat k)).
Proof.
  cbv zeta. unfold hush_calcMoM. change 0xffff with (Z.ones 16). rewrite Z.land_ones by lia.
  set (depth := MoMdepth mod 2 ^ 16). assert (Hd : 0 <= depth) by (apply Z.mod_pos_bound; lia).
  assert (Hnone : forall n h, mom_leaves chain h n = None <-> exists k, (k < n)%nat /\ chain (h - Z.of_nat k) = None).
  { clear. induction n as [|n IH]; intros h; cbn [mom_leaves]; [split; [done|intros (k & ? & _); lia]|].
    destruct (chain h) as [root|] eqn:E.
    - assert (E1 : option_map (cons root) (mom_leaves chain (h - 1) n) = None <-> mom_leaves chain (h - 1) n = None)
        by (by destruct (mom_leaves chain (h - 1) n)).
      rewrite E1, IH. split.
      + intros (k & Hk & Hc). exists (S k). split; [lia|]. rewrite <- Hc. f_equal. lia.
      + intros ([|k] & Hk & Hc); [rewrite Z.sub_0_r in Hc; congruence|].
        exists k. split; [lia|]. rewrite <- Hc. f_equal. lia.
    - split; [|done]. intros _. exists 0%nat. split; [lia|]. by rewrite Z.sub_0_r. }
  split; [|split].
  - intros H. by rewrite (proj2 (Z.leb_le _ _) H).
  - intros H (k & Hk & Hc). rewrite (proj2 (Z.leb_gt _ _) H).
    assert (E : mom_leaves chain height (Z.to_nat depth) = None); [|by rewrite E].
    apply Hnone. exists (Z.to_nat k). split; [lia|]. by rewrite Z2Nat.id by lia.
  - intros H Hall. rewrite (proj2 (Z.leb_gt _ _) H).
    destruct (mom_leaves chain height (Z.to_nat depth)) as [l|] eqn:E.
    + destruct (mom_leaves_spec _ _ _ _ E) as [Hl Hk]. exists l. split; [unfold Zlen; lia|]. split; [done|].
      intros k Hlt. apply Hk. lia.
    + apply Hnone in E as (k & Hk & Hc). exfalso. apply (Hall (Z.of_nat k)); [lia|done].
Qed.
