(* ===== verification/Signing.v ===== *)
(** * Counting notary signatures

    The part of [hush_connectblock] (src/src/hush.h) that decides whether a
    transaction is a notarization: [hush_notarycmp] maps the script that an
    input spends to a notary, [signedmask] collects the notaries as bits,
    [bitweight] (src/src/hush_utils.h) counts them and the count is compared
    with [HUSH_MINRATIFY] and the number of notaries. *)
From S2P Require Import Prelude Encoding Notary.
Local Open Scope Z_scope.

(** ** Definitions *)

(** [hush_notarycmp(scriptPubKey,scriptlen,pubkeys,numnotaries,rmd160)]. *)
Definition hush_notarycmp (scriptPubKey : list Z) (pubkeys : list (list Z)) (numnotaries : Z)
  (rmd160 : list Z) : Z :=
  if (length scriptPubKey =? 25)%nat && bool_decide (take 20 (drop 3 scriptPubKey) = rmd160) then 0
  else if (length scriptPubKey =? 35)%nat
       then find_key (take 33 (drop 1 scriptPubKey)) (take (Z.to_nat numnotaries) pubkeys) 0
       else -1.

Definition HUSH_MINRATIFY (height : Z) : Z := if height <? 90000 then 7 else 11.

(** [gettxout_scriptPubKey(scriptPubKey,maxsize,txid,n)] of
    src/src/rpc/rawtransaction.cpp: the first bytes of the script of the output,
    [None] (a negative length) if there is no such output. *)
Definition gettxout_scriptPubKey (maxsize : nat) (output : option (list Z)) : option (list Z) :=
  s ← output; Some (take maxsize s).

(** One input. *)
Definition sign_input (pubkeys : list (list Z)) (numnotaries : Z) (rmd160 : list Z)
  (mask : Z) (script : option (list Z)) : Z :=
  match gettxout_scriptPubKey 35 script with
  | None | Some [] => mask
  | Some s =>
    let k := hush_notarycmp s pubkeys numnotaries rmd160 in
    if 0 <=? k then Z.lor mask (u64 (Z.shiftl 1 k)) else mask
  end.

(** [signedmask] after the loop over the inputs of transaction [i]; [scripts] are
    the scripts of the outputs they spend.  The first input of the coinbase is skipped. *)
Definition signed_mask (height : Z) (i : nat) (pubkeys : list (list Z)) (numnotaries : Z)
  (rmd160 : list Z) (scripts : list (option (list Z))) : Z :=
  foldl (sign_input pubkeys numnotaries rmd160) (if height <? 91400 then 1 else 0)
    (if (i =? 0)%nat then drop 1 scripts else scripts).

(** The test that sets [notarized]; [named]: [SMART_CHAIN_SYMBOL[0] != 0]. *)
Definition is_notarized (height : Z) (named : bool) (numnotaries signedmask : Z) : bool :=
  let numvalid := bitweight signedmask in
  (((height <? 90000) || negb (Z.land signedmask 1 =? 0)) && (HUSH_MINRATIFY height <=? numvalid))
  || ((HUSH_MINRATIFY height <=? numvalid) && named)
  || (Z.quot numnotaries 5 <? numvalid).

(** ** The bit count *)

Lemma bit_test x i : 0 <= x < 2 ^ 64 -> (i < 64)%nat ->
  (Z.land (u64 (Z.shiftl 1 (Z.of_nat i))) x =? 0) = negb (Z.testbit x (Z.of_nat i)).
Proof.
  intros Hx Hi. assert (Hb : u64 (Z.shiftl 1 (Z.of_nat i)) = 2 ^ Z.of_nat i).
  { rewrite Z.shiftl_mul_pow2, Z.mul_1_l by lia. apply u64_id. unfold is_u.
    split; [lia|]. apply Z.pow_lt_mono_r; lia. }
  rewrite Hb. destruct (Z.testbit x (Z.of_nat i)) eqn:E; cbn [negb].
  - apply Z.eqb_neq. intros H0. apply (f_equal (fun z => Z.testbit z (Z.of_nat i))) in H0.
    rewrite Z.land_spec, Z.pow2_bits_true, E, Z.bits_0 in H0 by lia. done.
  - apply Z.eqb_eq. apply Z.bits_inj. intros k. rewrite Z.land_spec, Z.bits_0.
    destruct (decide (k = Z.of_nat i)) as [->|Hne]; [by rewrite E, andb_false_r|].
    by rewrite Z.pow2_bits_false by lia.
Qed.

Lemma bitweight_count x : 0 <= x < 2 ^ 64 ->
  bitweight x = Zlen (List.filter (fun i => Z.testbit x (Z.of_nat i)) (seq 0 64)).
Proof.
  intros Hx. unfold bitweight.
  assert (H : forall l wt, Forall (fun i => (i < 64)%nat) l ->
    foldl (fun wt i => if Z.land (u64 (Z.shiftl 1 (Z.of_nat i))) x =? 0 then wt else wt + 1) wt l =
    wt + Zlen (List.filter (fun i => Z.testbit x (Z.of_nat i)) l)).
  { intros l. induction l as [|i l IH]; intros wt Hl; cbn [foldl List.filter]; [unfold Zlen; cbn; lia|].
    inversion Hl; subst. rewrite bit_test by done. rewrite IH by done.
    destruct (Z.testbit x (Z.of_nat i)); cbn [negb]; unfold Zlen; cbn [length]; lia. }
  rewrite H; [lia|]. apply List.Forall_forall. intros i Hi%in_seq. lia.
Qed.

(** The mask of a list of notary ids. *)
Definition mask_of (m : Z) (ids : list nat) : Z :=
  foldl (fun m k => Z.lor m (u64 (Z.shiftl 1 (Z.of_nat k)))) m ids.

Lemma bit_value k : (k < 64)%nat -> u64 (Z.shiftl 1 (Z.of_nat k)) = 2 ^ Z.of_nat k.
Proof.
  intros Hk. rewrite Z.shiftl_mul_pow2, Z.mul_1_l by lia. apply u64_id. unfold is_u.
  split; [lia|]. apply Z.pow_lt_mono_r; lia.
Qed.

Lemma mask_of_spec ids m :
  0 <= m < 2 ^ 64 -> Forall (fun k => (k < 64)%nat) ids ->
  0 <= mask_of m ids < 2 ^ 64 /\
  forall i : nat, Z.testbit (mask_of m ids) (Z.of_nat i) = Z.testbit m (Z.of_nat i) || bool_decide (i ∈ ids).
Proof.
  intros Hm Hids. revert m Hm. induction Hids as [|k ids Hk Hids IH]; intros m Hm; cbn [mask_of foldl].
  { split; [done|]. intros i. rewrite bool_decide_eq_false_2 by apply not_elem_of_nil. by rewrite orb_false_r. }
  rewrite bit_value by done.
  assert (Hr : is_u 64 (Z.lor m (2 ^ Z.of_nat k))).
  { apply is_u_lor; [lia|done|]. unfold is_u. split; [lia|]. apply Z.pow_lt_mono_r; lia. }
  destruct (IH _ Hr) as [H1 H2]. split; [exact H1|]. intros i. fold (mask_of (Z.lor m (2 ^ Z.of_nat k)) ids).
  rewrite H2, Z.lor_spec, <- orb_assoc. f_equal.
  destruct (decide (i = k)) as [->|Hne].
  - rewrite Z.pow2_bits_true by lia. rewrite (bool_decide_eq_true_2 (k ∈ k :: ids)) by left. done.
  - rewrite Z.pow2_bits_false by lia. cbn [orb]. apply bool_decide_ext. rewrite elem_of_cons. naive_solver.
Qed.

Lemma bitweight_mask ids :
  Forall (fun k => (k < 64)%nat) ids -> bitweight (mask_of 0 ids) = Zlen (remove_dups ids).
Proof.
  intros Hids. destruct (mask_of_spec ids 0 ltac:(lia) Hids) as [Hr Hb].
  rewrite bitweight_count by done. unfold Zlen. f_equal. apply Permutation_length, NoDup_Permutation.
  - apply NoDup_ListNoDup, List.NoDup_filter, seq_NoDup.
  - apply NoDup_remove_dups.
  - intros i. rewrite list_elem_of_In, filter_In, in_seq, Hb, Z.bits_0. cbn [orb].
    rewrite bool_decide_eq_true, elem_of_remove_dups. split; [by intros [_ ?]|].
    intros Hi. split; [|done]. rewrite Forall_forall in Hids. specialize (Hids i Hi). lia.
Qed.

(** ** The notarization test *)

(** The notaries that are counted, one id per matching input. *)
Definition signer_ids (i : nat) (pubkeys : list (list Z)) (numnotaries : Z) (rmd160 : list Z)
  (scripts : list (option (list Z))) : list nat :=
  omap (fun s => s ← gettxout_scriptPubKey 35 s; let k := hush_notarycmp s pubkeys numnotaries rmd160 in
                 if 0 <=? k then Some (Z.to_nat k) else None)
    (if (i =? 0)%nat then drop 1 scripts else scripts).

Lemma signed_mask_ids height i pubkeys num rmd160 scripts :
  signed_mask height i pubkeys num rmd160 scripts =
  mask_of (if height <? 91400 then 1 else 0) (signer_ids i pubkeys num rmd160 scripts).
Proof.
  unfold signed_mask, signer_ids.
  set (l := if (i =? 0)%nat then drop 1 scripts else scripts).
  generalize (if height <? 91400 then 1 else 0). induction l as [|s l IH]; intros m; [done|].
  cbn [foldl omap list_omap]. rewrite IH. unfold sign_input.
  destruct (gettxout_scriptPubKey 35 s) as [[|b s0]|]; cbn [mbind option_bind]; [done| |done].
  destruct (Z.leb_spec 0 (hush_notarycmp (b :: s0) pubkeys num rmd160)); [|done].
  unfold mask_of. cbn [foldl]. by rewrite Z2Nat.id by lia.
Qed.

(** The script counts as one of notary [k]: its key follows the first byte of at
    least 35 bytes, or it is notary 0's key hash in 25 bytes. *)
Definition counts_for (pubkeys : list (list Z)) (rmd160 : list Z) (s : list Z) (k : nat) : Prop :=
  ((35 <= length s)%nat /\ pubkeys !! k = Some (take 33 (drop 1 s))) \/
  (k = 0%nat /\ length s = 25%nat /\ take 20 (drop 3 s) = rmd160).

Lemma notarycmp_counts s pubkeys num rmd160 :
  let k := hush_notarycmp (take 35 s) pubkeys num rmd160 in
  0 <= k -> 0 <= num -> counts_for pubkeys rmd160 s (Z.to_nat k) /\ (0 < num -> k < num).
Proof.
  cbv zeta. unfold hush_notarycmp, counts_for. intros H0 Hnum. rewrite length_take in *.
  destruct ((_ =? 25)%nat && _) eqn:E1.
  { apply andb_prop in E1 as [E1%Nat.eqb_eq E2%bool_decide_eq_true].
    rewrite (take_ge s 35) in E2 by lia. split; [right; by split_and!; [|lia|]|done]. }
  destruct (Nat.eqb_spec (Nat.min 35 (length s)) 35); [|lia].
  assert (Hkey : take 33 (drop 1 (take 35 s)) = take 33 (drop 1 s))
    by (rewrite skipn_firstn_comm, take_take; f_equal; lia).
  rewrite Hkey in *. set (k := find_key _ _ 0) in *.
  destruct (find_key_range (take 33 (drop 1 s)) (take (Z.to_nat num) pubkeys) 0) as [Hk|Hk]; fold k in Hk; [lia|].
  split.
  - left. split; [lia|]. pose proof (find_key_lookup (take 33 (drop 1 s)) (take (Z.to_nat num) pubkeys) 0 (Z.to_nat k)) as Hl.
    fold k in Hl. specialize (Hl ltac:(lia) ltac:(lia)). rewrite take_take, Nat.min_id in Hl.
    by apply lookup_take_Some in Hl as [? _].
  - intros _. unfold Zlen in Hk. rewrite length_take in Hk. lia.
Qed.

Lemma signer_counts i pubkeys rmd160 scripts k :
  k ∈ signer_ids i pubkeys 64 rmd160 scripts ->
  (k < 64)%nat /\ exists s, Some s ∈ scripts /\ counts_for pubkeys rmd160 s k.
Proof.
  intros Hk. apply list_elem_of_omap in Hk as ([s|] & Hin & Hs); [|done]. cbn [gettxout_scriptPubKey mbind option_bind] in Hs.
  destruct (Z.leb_spec 0 (hush_notarycmp (take 35 s) pubkeys 64 rmd160)) as [H0|]; [|done]. injection Hs as <-.
  destruct (notarycmp_counts s pubkeys 64 rmd160 H0 ltac:(lia)) as [Hc Hlt]. split; [lia|].
  exists s. split; [|done]. destruct (i =? 0)%nat; [|done].
  rewrite <- (take_drop 1 scripts). apply elem_of_app. by right.
Qed.

(** From block 91400 on each notary is counted once. *)
Lemma mask_weight height i pubkeys rmd160 scripts :
  91400 <= height ->
  bitweight (signed_mask height i pubkeys 64 rmd160 scripts) =
  Zlen (remove_dups (signer_ids i pubkeys 64 rmd160 scripts)).
Proof.
  intros Hh. rewrite signed_mask_ids, (proj2 (Z.ltb_ge height 91400)) by lia.
  apply bitweight_mask, Forall_forall. intros k Hk. by apply signer_counts in Hk as [? _].
Qed.

Lemma is_notarized_iff height i pubkeys rmd160 scripts :
  91400 <= height ->
  is_notarized height true 64 (signed_mask height i pubkeys 64 rmd160 scripts) = true <->
  11 <= Zlen (remove_dups (signer_ids i pubkeys 64 rmd160 scripts)).
Proof.
  intros Hh. unfold is_notarized. rewrite mask_weight by done. unfold HUSH_MINRATIFY.
  rewrite (proj2 (Z.ltb_ge height 90000)) by lia. change (Z.quot 64 5) with 12.
  rewrite !orb_true_iff, !andb_true_iff, !Z.leb_le, Z.ltb_lt. intuition lia.
Qed.

(** *** Without the loop and the mask *)

(** The transaction spends an output that counts for notary [k]; the first input of a
    coinbase, the transaction at index 0 of the block, is left out. *)
Definition spends_for (pubkeys : list (list Z)) (rmd160 : list Z) (i : nat) (scripts : list (option (list Z))) (k : nat) : Prop :=
  (k < 64)%nat /\ exists j s, scripts !! j = Some (Some s) /\ (i = 0%nat -> j <> 0%nat) /\ counts_for pubkeys rmd160 s k.

(** With different keys a script counts for one notary. *)
Lemma counts_notarycmp s pubkeys rmd160 k :
  length pubkeys = 64%nat -> NoDup pubkeys -> counts_for pubkeys rmd160 s k ->
  hush_notarycmp (take 35 s) pubkeys 64 rmd160 = Z.of_nat k.
Proof.
  intros Hlen Hnd Hc. unfold hush_notarycmp. rewrite length_take. destruct Hc as [[Hl Hk]|(-> & Hl & Hr)].
  - rewrite Nat.min_l by lia. cbn [Nat.eqb andb].
    replace (take 33 (drop 1 (take 35 s))) with (take 33 (drop 1 s)) by (rewrite skipn_firstn_comm, take_take; f_equal; lia).
    rewrite (take_ge pubkeys) by (rewrite Hlen; lia). rewrite (find_key_nodup (take 33 (drop 1 s)) pubkeys 0 k Hnd); [lia|]. rewrite Hk. by rewrite ?take_take.
  - rewrite (take_ge s 35) by lia. rewrite Hl. change (Nat.min 35 25 =? 25)%nat with true. cbn [andb].
    by rewrite bool_decide_eq_true_2.
Qed.

Lemma signer_ids_iff i pubkeys rmd160 scripts k :
  length pubkeys = 64%nat -> NoDup pubkeys ->
  k ∈ signer_ids i pubkeys 64 rmd160 scripts <-> spends_for pubkeys rmd160 i scripts k.
Proof.
  intros Hlen Hnd. assert (forall x, x ∈ (if (i =? 0)%nat then drop 1 scripts else scripts) <->
    exists j, scripts !! j = Some x /\ (i = 0%nat -> j <> 0%nat)) as Hin.
  { intros x. rewrite list_elem_of_lookup. destruct (Nat.eqb_spec i 0) as [->|Hi].
    - split.
      + intros [j Hj]. rewrite lookup_drop in Hj. exists (1 + j)%nat. split; [done|lia].
      + intros (j & Hj & Hj0). specialize (Hj0 eq_refl). destruct j as [|j]; [done|]. exists j. by rewrite lookup_drop.
    - split; intros [j Hj]; exists j; [by split|apply Hj]. }
  unfold signer_ids, spends_for. rewrite list_elem_of_omap. setoid_rewrite Hin. split.
  - intros ([s|] & (j & Hj & Hj0) & Hs); [|done]. cbn [gettxout_scriptPubKey mbind option_bind] in Hs.
    destruct (Z.leb_spec 0 (hush_notarycmp (take 35 s) pubkeys 64 rmd160)) as [H0|]; [|done]. injection Hs as <-.
    destruct (notarycmp_counts s pubkeys 64 rmd160 H0 ltac:(lia)) as [Hc Hlt]. split; [lia|]. by exists j, s.
  - intros (Hk & j & s & Hj & Hj0 & Hc). exists (Some s). split; [by exists j|].
    cbn [gettxout_scriptPubKey mbind option_bind]. rewrite (counts_notarycmp s pubkeys rmd160 k) by done.
    destruct (Z.leb_spec 0 (Z.of_nat k)); [|lia]. by rewrite Nat2Z.id.
Qed.

(** A list of different notaries that are all counted is no longer than the count. *)
Lemma counted_length (ids l : list nat) : NoDup ids -> (forall k, k ∈ ids -> k ∈ l) -> Zlen ids <= Zlen (remove_dups l).
Proof.
  intros Hnd Hin. unfold Zlen. apply inj_le, submseteq_length, NoDup_submseteq; [done|].
  intros k Hk. by apply elem_of_remove_dups, Hin.
Qed.

Lemma first_bit height i pubkeys rmd160 scripts :
  91400 <= height ->
  negb (Z.land (signed_mask height i pubkeys 64 rmd160 scripts) 1 =? 0) = bool_decide (0%nat ∈ signer_ids i pubkeys 64 rmd160 scripts).
Proof.
  intros Hh. rewrite signed_mask_ids, (proj2 (Z.ltb_ge height 91400)) by lia.
  set (ids := signer_ids i pubkeys 64 rmd160 scripts).
  destruct (mask_of_spec ids 0 ltac:(lia)) as [Hr Hb].
  { apply Forall_forall. intros k Hk. by apply signer_counts in Hk as [? _]. }
  pose proof (bit_test (mask_of 0 ids) 0 Hr ltac:(lia)) as Ht. change (u64 (Z.shiftl 1 (Z.of_nat 0))) with 1 in Ht.
  rewrite Z.land_comm, Ht, negb_involutive. rewrite (Hb 0%nat). done.
Qed.

(** [C7] When a transaction is taken for a notarization, from block 91400 on and with a
    set of 64 different notary keys: exactly if the outputs that it spends count for
    enough different notaries, 11 of them on a named chain, on an unnamed one 13 or
    11 of which notary 0 is one.  A spent output counts for a notary if the key of the
    notary stands in its script behind the first byte, or for notary 0 also if the key
    hash stands in a script of 25 bytes; no signature is looked at (see [notarization_without_signatures]).  Two
    inputs with the key of one notary count once. *)
Theorem notarization_threshold height named i pubkeys rmd160 scripts :
  91400 <= height -> length pubkeys = 64%nat -> NoDup pubkeys ->
  is_notarized height named 64 (signed_mask height i pubkeys 64 rmd160 scripts) = true <->
  exists ids, NoDup ids /\ (forall k, k ∈ ids -> spends_for pubkeys rmd160 i scripts k) /\
    (13 <= Zlen ids \/ (11 <= Zlen ids /\ (named = true \/ 0%nat ∈ ids))).
Proof.
  intros Hh Hlen Hnd. set (l := signer_ids i pubkeys 64 rmd160 scripts).
  assert (forall k, k ∈ l <-> spends_for pubkeys rmd160 i scripts k) as Hl by (intros k; by apply signer_ids_iff).
  assert (is_notarized height named 64 (signed_mask height i pubkeys 64 rmd160 scripts) = true <->
    13 <= Zlen (remove_dups l) \/ (11 <= Zlen (remove_dups l) /\ (named = true \/ 0%nat ∈ l))) as ->.
  { unfold is_notarized. rewrite mask_weight by done. fold l. unfold HUSH_MINRATIFY.
    rewrite (proj2 (Z.ltb_ge height 90000)) by lia. change (Z.quot 64 5) with 12. rewrite (first_bit height i pubkeys rmd160 scripts) by done. fold l.
    rewrite !orb_true_iff, !andb_true_iff, orb_false_l, bool_decide_eq_true, !Z.leb_le, Z.ltb_lt. intuition lia. }
  split.
  - intros Hc. exists (remove_dups l). split; [apply NoDup_remove_dups|]. split; [intros k Hk; by apply Hl, elem_of_remove_dups|].
    by rewrite elem_of_remove_dups.
  - intros (ids & Hids & Hk & Hc). assert (Zlen ids <= Zlen (remove_dups l)) as Hle by (apply counted_length; [done|intros k ?; by apply Hl, Hk]).
    destruct Hc as [|[? [?|H0]]]; [left; lia|right; split; [lia|by left]|right; split; [lia|right; by apply Hl, Hk]].
Qed.

Definition demo_script (k : nat) : option (list Z) := Some (33 :: nth k (season_keys 7) [] ++ [0xac]).

(** Eleven notaries, one of them twice, and ten of them, one twice. *)
Lemma notarization_threshold_witness :
  is_notarized 600000 true 64 (signed_mask 600000 1 (season_keys 7) 64 [] (map demo_script (seq 0 11 ++ [3%nat]))) = true /\
  exists ids, NoDup ids /\ (forall k, k ∈ ids -> spends_for (season_keys 7) [] 1 (map demo_script (seq 0 11 ++ [3%nat])) k) /\
    (13 <= Zlen ids \/ (11 <= Zlen ids /\ (true = true \/ 0%nat ∈ ids))).
Proof.
  assert (is_notarized 600000 true 64 (signed_mask 600000 1 (season_keys 7) 64 [] (map demo_script (seq 0 11 ++ [3%nat]))) = true) as H
    by (vm_compute; reflexivity).
  split; [exact H|]. apply (notarization_threshold 600000 true 1 (season_keys 7) []); [lia|vm_compute; reflexivity| |exact H].
  apply (bool_decide_eq_true_1 _). vm_compute. reflexivity.
Defined.
Example ten_are_too_few :
  is_notarized 600000 true 64 (signed_mask 600000 1 (season_keys 7) 64 [] (map demo_script (seq 0 10 ++ [3%nat]))) = false.
Proof. vm_compute. reflexivity. Qed.

Lemma remove_dups_nodup (l : list nat) : NoDup l -> remove_dups l = l.
Proof.
  induction 1 as [|x l Hx Hl IH]; [done|]. cbn [remove_dups]. case_decide; [done|]. by rewrite IH.
Qed.

(** ** Scripts that carry a key without asking for its signature *)

(** [<key> OP_DROP]: an input that pushes any nonzero value satisfies it. *)
Definition push_drop (key : list Z) : list Z := 33 :: key ++ [0x75].

Section Forged.
Context (pubkeys : list (list Z)) (rmd160 : list Z).
Context (Hlen : length pubkeys = 64%nat) (Hnd : NoDup pubkeys) (Hkeys : Forall (fun k => length k = 33%nat) pubkeys).

Lemma push_drop_counts k :
  (k < 64)%nat -> hush_notarycmp (take 35 (push_drop (nth k pubkeys []))) pubkeys 64 rmd160 = Z.of_nat k.
Proof.
  intros Hk. destruct (lookup_lt_is_Some_2 pubkeys k) as [key Hkey]; [lia|].
  rewrite (nth_lookup_Some _ _ _ _ Hkey).
  assert (Hl : length key = 33%nat) by (by eapply Forall_lookup_1 in Hkeys).
  unfold push_drop, hush_notarycmp.
  assert (H35 : length (33 :: key ++ [0x75]) = 35%nat) by (cbn; rewrite length_app, Hl; done).
  rewrite (take_ge (33 :: key ++ [0x75])) by lia. rewrite H35.
  change ((35 =? 25)%nat) with false. change ((35 =? 35)%nat) with true. cbn [andb].
  change (drop 1 (33 :: key ++ [0x75])) with (key ++ [0x75]). rewrite take_app_length' by done.
  rewrite (take_ge pubkeys) by (rewrite Hlen; lia).
  rewrite (find_key_nodup key pubkeys 0 k Hnd); [lia|]. by rewrite take_ge by lia.
Qed.

Lemma forged_ids ids :
  Forall (fun k => (k < 64)%nat) ids ->
  signer_ids 1 pubkeys 64 rmd160 (map (fun k => Some (push_drop (nth k pubkeys []))) ids) = ids.
Proof.
  intros Hids. unfold signer_ids. cbn [Nat.eqb]. induction Hids as [|k ids Hk Hids IH]; [done|].
  cbn [map omap list_omap gettxout_scriptPubKey mbind option_bind]. rewrite push_drop_counts by done.
  destruct (Z.leb_spec 0 (Z.of_nat k)); [|lia]. rewrite Nat2Z.id. by f_equal.
Qed.
End Forged.

(** [hush_notarycmp] compares 33 bytes of a 35-byte script and not its opcodes:
    inputs that spend [<key> OP_DROP] outputs, which need no signature of the
    notary, count as signatures, so that 11 such outputs with the keys of
    different notaries make a transaction a notarization. *)
Theorem notarization_without_signatures height pubkeys rmd160 ids :
  91400 <= height -> length pubkeys = 64%nat -> NoDup pubkeys -> Forall (fun k => length k = 33%nat) pubkeys ->
  NoDup ids -> Forall (fun k => (k < 64)%nat) ids -> 11 <= Zlen ids ->
  is_notarized height true 64
    (signed_mask height 1 pubkeys 64 rmd160 (map (fun k => Some (push_drop (nth k pubkeys []))) ids)) = true.
Proof.
  intros Hh Hl Hnd Hk Hi Hlt Hc. apply is_notarized_iff; [done|]. rewrite forged_ids by done.
  by rewrite remove_dups_nodup.
Qed.

Lemma notarization_without_signatures_witness :
  is_notarized 600000 true 64
    (signed_mask 600000 1 (season_keys 7) 64 [] (map (fun k => Some (push_drop (nth k (season_keys 7) []))) (seq 20 11))) = true.
Proof.
  apply (notarization_without_signatures 600000 (season_keys 7) [] (seq 20 11)); [lia|vm_compute; reflexivity|..].
  - apply (bool_decide_eq_true_1 _). vm_compute. reflexivity.
  - apply (bool_decide_eq_true_1 _). vm_compute. reflexivity.
  - apply (bool_decide_eq_true_1 _). vm_compute. reflexivity.
  - apply (bool_decide_eq_true_1 _). vm_compute. reflexivity.
  - vm_compute. discriminate.
Defined.
