(* ===== verification/Connect.v ===== *)
(** * Connecting a block

    [hush_validate_chain], [hush_voutupdate] and [hush_connectblock] of
    src/src/hush.h: how the outputs of a block change the node.  A block is its
    transactions with their hash, the scripts their inputs spend and their
    outputs.  [scriptbuf], a 10001-byte array of [hush_connectblock] that keeps
    the bytes of earlier outputs, is a list that is overwritten from its start.
    Time of day, the signature log file and prints are left out. *)
From Stdlib Require Import String.
From S2P Require Import Prelude HashStream Ripemd160 Encoding NotaryList Notarized Notary KV Events StateFile Merkle CCData Signing.
Local Open Scope string_scope.
Local Open Scope list_scope.
Local Open Scope Z_scope.

(** ** Data *)

Record txout := TxOut { vo_nValue : Z; vo_script : list Z }.
Record tx := Tx { tx_hash : uint256; tx_vin : list (option (list Z)); tx_vout : list txout }.

(** The node with the statics of these functions. *)
Record cnode := CNode {
  cn_node : node; cn_file : state_file; cn_cache : notary_cache;
  cn_CC : list hush_ccdata;
  cn_hwmheight : Z;             (* static of hush_connectblock *)
  cn_last_rewind : Z            (* static of hush_validate_chain *)
}.

Definition set_node (w : node) (c : cnode) : cnode :=
  CNode w (cn_file c) (cn_cache c) (cn_CC c) (cn_hwmheight c) (cn_last_rewind c).
Definition set_file (f : state_file) (c : cnode) : cnode :=
  CNode (cn_node c) f (cn_cache c) (cn_CC c) (cn_hwmheight c) (cn_last_rewind c).
Definition set_cache (k : notary_cache) (c : cnode) : cnode :=
  CNode (cn_node c) (cn_file c) k (cn_CC c) (cn_hwmheight c) (cn_last_rewind c).
Definition set_CC (l : list hush_ccdata) (c : cnode) : cnode :=
  CNode (cn_node c) (cn_file c) (cn_cache c) l (cn_hwmheight c) (cn_last_rewind c).
Definition set_hwm (h : Z) (c : cnode) : cnode :=
  CNode (cn_node c) (cn_file c) (cn_cache c) (cn_CC c) h (cn_last_rewind c).
Definition set_rewind (r : Z) (c : cnode) : cnode :=
  CNode (cn_node c) (cn_file c) (cn_cache c) (cn_CC c) (cn_hwmheight c) r.

(** What the functions read of their surroundings. *)
Record connect_env := ConnectEnv {
  ce_chain : chain_env;
  ce_private : bool;                        (* ASSETCHAINS_PRIVATE *)
  ce_pubkey2addr : list Z -> list Z;
  ce_heightstamp : Z -> Z;
  ce_ibd : bool;                            (* IsInitialBlockDownload() *)
  ce_index : uint256 -> option Z;           (* mapBlockIndex: height of a hash *)
  ce_REWIND : Z;                            (* HUSH_REWIND *)
  ce_regtest : bool;
  ce_notarypay : bool;                      (* ASSETCHAINS_NOTARY_PAY[0] != 0 *)
  ce_PUBKEY : list Z                        (* NOTARY_PUBKEY as a C string *)
}.

(** The C string at the start of a memory area. *)
Fixpoint cstring (l : list Z) : list Z :=
  match l with
  | [] => []
  | c :: l => if c =? 0 then [] else c :: cstring l
  end.

Definition crypto555 : list Z :=
  (decode_hex 33 (cstr "038a1bd41a08f38edda51042988022933c5775dfce81f7bae0b32a9179650352ac")).1.

Section Connect.
Context (X : connect_env).
Let E := ce_chain X.

(** A call of [hush_stateupdate]. *)
Definition upd (c : cnode) (a : update_args) : option cnode :=
  r ← hush_stateupdate E (cn_node c) (cn_file c) a;
  let '(w, f) := (r : node * state_file) in
  Some (set_file f (set_node w c)).

Definition R_args (height : Z) (txhash : uint256) (value : Z) (opret : list Z) (opretlen j : Z) : update_args :=
  UpdateArgs height None 0 0 txhash 0 0 None 0 0 0 value (Some opret) (u16 opretlen) (u16 j).
Definition N_args (height : Z) : update_args :=
  UpdateArgs height None 0 0 zero256 0 0 None 0 0 0 0 None 0 0.
Definition P_args (height : Z) (pubkeys : list (list Z)) (num : Z) : update_args :=
  UpdateArgs height (Some pubkeys) (u8 num) 0 zero256 0 0 None 0 0 0 0 None 0 0.
Definition H_args (height hushheight timestamp : Z) : update_args :=
  UpdateArgs height None 0 0 zero256 0 0 None 0 hushheight timestamp 0 None 0 0.

(** ** [hush_validate_chain] *)

(** The result and [last_rewind]; [None] is the null pointer that is read when
    the hash is unknown. *)
Definition hush_validate_chain (c : cnode) (srchash : uint256) (notarized_height : Z) : option (Z * cnode) :=
  if ce_ibd X then Some (1, c)
  else
    match ce_index X srchash with
    | None => None
    | Some ht =>
      if negb (ht =? notarized_height) then
        let nh := NOTARIZED_HEIGHT (n_sp (cn_node c)) in
        let rewindtarget :=
          if (0 <? nh) && (nh <? notarized_height) then nh - 1
          else if 101 <? notarized_height then notarized_height - 101
          else 0 in
        Some (0, if negb (rewindtarget =? 0) && (ce_REWIND X <? rewindtarget) && (cn_last_rewind c <? rewindtarget)
                 then set_rewind rewindtarget c else c)
      else Some (1, c)
    end.

(** ** [hush_voutupdate] *)

(** The variables of the caller that it updates through pointers. *)
Record vout_st := VoutSt {
  v_notaryid : Z; v_voutmask : Z; v_specialtx : bool; v_notarizedheight : Z; v_isratification : bool;
  v_node : cnode
}.

Definition v_set_node (c : cnode) (st : vout_st) : vout_st :=
  VoutSt (v_notaryid st) (v_voutmask st) (v_specialtx st) (v_notarizedheight st) (v_isratification st) c.
Definition v_set_id (id mask : Z) (st : vout_st) : vout_st :=
  VoutSt id mask (v_specialtx st) (v_notarizedheight st) (v_isratification st) (v_node st).
Definition v_set_height (nh : Z) (st : vout_st) : vout_st :=
  VoutSt (v_notaryid st) (v_voutmask st) (v_specialtx st) nh (v_isratification st) (v_node st).

(** The pay-to-pubkey part. *)
Definition vout_p2pk (st : vout_st) (scriptbuf : list Z) (scriptlen height i j timestamp : Z) : vout_st :=
  if (scriptlen =? 35) && (rd scriptbuf 0 =? 33) && (rd scriptbuf 34 =? 0xac) then
    let key := take 33 (drop 1 scriptbuf) in
    let c := v_node st in
    let w := cn_node c in
    let w := if (i =? 0) && (j =? 0) && bool_decide (NOTARY_PUBKEY33 (n_notary w) = key) && IS_HUSH_NOTARY E
             then with_mined height (HUSH_LASTMINED w) w else w in
    let st := v_set_node (set_node w c) st in
    if bool_decide (crypto555 = key) then
      VoutSt (v_notaryid st) (v_voutmask st) true (v_notarizedheight st) (v_isratification st) (v_node st)
    else
      let '(r, nid, (cache, s, _)) :=
        hush_chosennotary (SYMBOL E) (ce_private X) (ce_pubkey2addr X) (ce_heightstamp X) (fun u : unit => u)
          (ce_PUBKEY X) (cn_cache c) (n_notary w) tt height key timestamp in
      let st := v_set_node (set_cache cache (set_node (with_notary s w) c)) st in
      if (0 <=? r) && (v_notaryid st <? 64) then
        let bit := u64 (Z.shiftl 1 j) in
        if v_notaryid st <? 0 then v_set_id nid (Z.lor (v_voutmask st) bit) st
        else if negb (v_notaryid st =? nid) then v_set_id 64 0 st
        else v_set_id (v_notaryid st) (Z.lor (v_voutmask st) bit) st
      else st
  else st.

(** [opretlen] and the offset of the data behind 0x6a. *)
Definition opret_header (scriptbuf : list Z) : Z * nat :=
  let b := rd scriptbuf 1 in
  if b =? 0x4c then (rd scriptbuf 2, 3%nat)
  else if b =? 0x4d then (rd scriptbuf 2 + Z.shiftl (rd scriptbuf 3) 8, 4%nat)
  else (b, 2%nat).

(** The names that count as notarized without signatures. *)
Definition unsigned_symbol (s : list Z) : bool :=
  bool_decide (s = chars "DPOW") || bool_decide (s = chars "ZPOW") || bool_decide (s = chars "TUSH").

(** [MoM] and [MoMdepth] at offset [len] (behind the name), zero if they are
    absent or implausible.  The cross-chain fields that follow only feed
    [hush_rwccdata], which does nothing. *)
Definition read_MoM (scriptbuf : list Z) (len opoffset : nat) (opretlen nh : Z) : uint256 * Z :=
  if Z.of_nat len + 36 - Z.of_nat opoffset <=? opretlen then
    let MoM := take 32 (drop len scriptbuf) in
    let depth := s32 (dragon_rwnum false (drop (len + 32) scriptbuf) 4 0).2 in
    if bool_decide (MoM = zero256) || (nh <? Z.land depth 0xffff) then (zero256, 0) else (MoM, depth)
  else (zero256, 0).

(** The assignments to [*sp] and the state update of a valid notarization. *)
Definition record_notarization (c : cnode) (height nh : Z) (srchash desttxid MoM : uint256) (depth : Z) : option cnode :=
  let w := cn_node c in
  let sp := set_notarized nh srchash desttxid (n_sp w) in
  let sp := if negb (bool_decide (MoM = zero256)) && (0 <? Z.land depth 0xffff) then set_MoM MoM depth sp else sp in
  upd (set_node (with_sp sp w) c) (N_args height).

(** The branch [j == 1 && opretlen >= ...]: the value returned early, or [None]
    to go on, and the state. *)
Definition vout_notarization (fJustCheck : bool) (st : vout_st) (scriptbuf : list Z) (opoffset : nat)
  (opretlen height : Z) (matched notarized : bool) (signedmask : Z) : option (option Z * vout_st) :=
  let len := opoffset in
  let offset := if matched then 68%nat else 36%nat in
  let name := cstring (drop (len + offset) scriptbuf) in
  let symbol := take 65 name in
  let notarized := notarized || (negb matched && negb (signedmask =? 0) && (HUSH_MINRATIFY height <=? bitweight signedmask))
                   || unsigned_symbol symbol in
  let srchash := take 32 (drop len scriptbuf) in
  let nh := s32 (dragon_rwnum false (drop (len + 32) scriptbuf) 4 0).2 in
  let st := v_set_height nh st in
  let desttxid := take 32 (drop (len + 36) scriptbuf) in
  v ← (if matched then hush_validate_chain (v_node st) srchash nh else Some (1, v_node st));
  let '(validated, c) := (v : Z * cnode) in
  let st := v_set_node c st in
  if fJustCheck && matched then Some (Some (-2), st)
  else if notarized && negb (validated =? 0) then
    let '(MoM, depth) := read_MoM scriptbuf (len + offset + S (length name)) opoffset opretlen nh in
    if matched && (NOTARIZED_HEIGHT (n_sp (cn_node c)) <? nh) && (nh <? height) then
      c ← record_notarization c height nh srchash desttxid MoM depth;
      Some (None, v_set_node c st)
    else Some (None, st)
  else Some (None, st).

(** The branch for other OP_RETURNs that name this chain. *)
Definition vout_other (st : vout_st) (scriptbuf : list Z) (len : nat) (opretlen height : Z)
  (txhash : uint256) (j value signedmask : Z) : option vout_st :=
  let israt := v_isratification st
               || ((68 <=? opretlen) && bool_decide (take 32 (drop len scriptbuf) = replicate 32 0)) in
  let st := VoutSt (v_notaryid st) (v_voutmask st) (v_specialtx st) (v_notarizedheight st) israt (v_node st) in
  let b := rd scriptbuf len in
  if negb israt && (negb (signedmask =? 0) || (negb (b =? 88) && negb (b =? 65))) then
    c ← upd (v_node st) (R_args height txhash value (drop len scriptbuf) opretlen j);
    Some (v_set_node c st)
  else Some st.

(** The whole function: the value returned and the updated variables. *)
Definition hush_voutupdate (fJustCheck : bool) (st : vout_st) (scriptbuf : list Z) (scriptlen height : Z)
  (txhash : uint256) (i j value : Z) (notarized : bool) (signedmask timestamp : Z) : option (Z * vout_st) :=
  let st := vout_p2pk st scriptbuf scriptlen height i j timestamp in
  if rd scriptbuf 0 =? 0x6a then
    let '(opretlen, len) := opret_header scriptbuf in
    let named := match SYMBOL E with [] => false | _ => true end in
    if named && (rd scriptbuf len =? 75) then
      c ← upd (v_node st) (R_args height txhash value (drop len scriptbuf) opretlen j);
      Some (-1, v_set_node c st)
    else
      let matched := named && bool_decide (SYMBOL E = cstring (drop (len + 68) scriptbuf)) in
      let offset := if matched then 68 else 36 in
      if (j =? 1) && (offset <=? opretlen) then
        r ← vout_notarization fJustCheck st scriptbuf len opretlen height matched notarized signedmask;
        let '(early, st) := (r : option Z * vout_st) in
        Some (default (v_notaryid st) early, st)
      else if matched && (i =? 0) && (j =? 1) && (opretlen =? 149) then Some (v_notaryid st, st)
      else if matched then
        st ← vout_other st scriptbuf len opretlen height txhash j value signedmask;
        Some (v_notaryid st, st)
      else Some (v_notaryid st, st)
  else Some (v_notaryid st, st).

(** ** [hush_connectblock] *)

(** The variables of the loop over the transactions. *)
Record conn_st := ConnSt {
  k_node : cnode; k_scriptbuf : list Z; k_pubkeys : list (list Z); k_notarizations : list Z
}.

(** [hush_init(height)] on the node: key tables, then the first state update. *)
Definition node_init (c : cnode) (height : Z) : option cnode :=
  let w := cn_node c in
  let first := negb (ns_didinit (n_notary w)) in
  let s := (hush_init (fun u : unit => u) (ce_PUBKEY X) height (n_notary w) tt).1 in
  let c := set_node (with_notary s w) c in
  if first then upd c idle_args else Some c.

(** High-water mark and rewind. *)
Definition connect_height (fJustCheck : bool) (c : cnode) (height nTime : Z) : option cnode :=
  if cn_hwmheight c <? height then Some (set_hwm height c)
  else
    let named := match SYMBOL E with [] => false | _ => true end in
    let c := if negb (height =? cn_hwmheight c)
             then set_hwm height (set_CC (hush_purge_ccdata (negb named) (cn_CC c) height) c) else c in
    if fJustCheck then Some c
    else upd (set_node (hush_event_rewind E (cn_node c) height) c) (H_args height (- height) nTime).

(** The loop over the outputs of transaction [i]. *)
Fixpoint vout_loop (fJustCheck : bool) (vouts : list txout) (j : Z) (height : Z) (txhash : uint256) (i : Z)
  (notarized : bool) (signedmask timestamp : Z) (st : vout_st) (scriptbuf : list Z) (notarizations : list Z)
  : option (vout_st * list Z * list Z) :=
  match vouts with
  | [] => Some (st, scriptbuf, notarizations)
  | o :: vouts =>
    let len := Zlen (vo_script o) in
    if (4 <=? len) && (len <=? 10001) then
      let scriptbuf := memcpy_at scriptbuf 0 (vo_script o) in
      r ← hush_voutupdate fJustCheck st scriptbuf len height txhash i j (u64 (vo_nValue o)) notarized signedmask timestamp;
      let '(ret, st) := (r : Z * vout_st) in
      let st := v_set_id ret (v_voutmask st) st in
      vout_loop fJustCheck vouts (j + 1) height txhash i notarized signedmask timestamp st scriptbuf
        (if fJustCheck && (ret =? -2) then notarizations ++ [i] else notarizations)
    else vout_loop fJustCheck vouts (j + 1) height txhash i notarized signedmask timestamp st scriptbuf notarizations
  end.

(** The keys of a ratification: the pay-to-pubkey outputs between the first and
    the last. *)
Definition ratified_keys (vouts : list txout) : list (list Z) :=
  omap (fun o => let s := vo_script o in
                 if (length s =? 35)%nat && (rd s 0 =? 33) && (rd s 34 =? 0xac)
                 then Some (take 33 (drop 1 s)) else None)
    (removelast (drop 1 vouts)).

(** Its loop goes through [scriptbuf] too. *)
Definition ratify_buf (vouts : list txout) (scriptbuf : list Z) : list Z :=
  foldl (fun b o => let len := Zlen (vo_script o) in
                    if (4 <=? len) && (len <=? 10001) then memcpy_at b 0 (vo_script o) else b)
    scriptbuf (removelast (drop 1 vouts)).

(** The tail of the loop body; [None] when more than 64 keys overrun [pubkeys]. *)
Definition ratify (c : cnode) (height numnotaries signedmask : Z) (vouts : list txout)
  : option (cnode * list (list Z)) :=
  let keys := ratified_keys vouts in
  let numvalid := Zlen keys in
  let pubkeys := keys ++ replicate (64 - length keys) (replicate 33 0) in
  if 64 <? numvalid then None
  else
    let named := match SYMBOL E with [] => false | _ => true end in
    if (named || (height <? 100000))
       && ((negb (Z.land signedmask 1 =? 0) && (HUSH_MINRATIFY height <=? numvalid))
           || (Z.quot numnotaries 3 <? bitweight signedmask))
    then c ← upd c (P_args height pubkeys numvalid); Some (c, pubkeys)
    else Some (c, pubkeys).

(** One transaction. *)
Definition connect_tx (fJustCheck : bool) (k : conn_st) (t : tx) (i height numnotaries : Z) (rmd160 : list Z)
  (blockhash : uint256) (timestamp : Z) : option conn_st :=
  let named := match SYMBOL E with [] => false | _ => true end in
  let signedmask := signed_mask height (Z.to_nat i) (k_pubkeys k) numnotaries rmd160 (tx_vin t) in
  let notarized := is_notarized height named numnotaries signedmask in
  let regtest := ce_regtest X && (Z.rem height 7 =? 0) in
  let c := k_node k in
  let c := if regtest
           then set_node (with_sp (set_notarized height blockhash (tx_hash t) (n_sp (cn_node c))) (cn_node c)) c
           else c in
  let notarized := notarized || regtest in
  r ← vout_loop fJustCheck (tx_vout t) 0 height (tx_hash t) i notarized signedmask timestamp
        (VoutSt (-1) 0 false 0 false c) (k_scriptbuf k) (k_notarizations k);
  let '(st, scriptbuf, notarizations) := (r : vout_st * list Z * list Z) in
  let c := v_node st in
  if negb fJustCheck && notarized && (negb (v_notarizedheight st =? 0) || v_specialtx st)
     && v_specialtx st && v_isratification st && (2 <? Zlen (tx_vout t))
  then
    r ← ratify c height numnotaries signedmask (tx_vout t);
    let '(c, pubkeys) := (r : cnode * list (list Z)) in
    Some (ConnSt c (ratify_buf (tx_vout t) scriptbuf) pubkeys notarizations)
  else Some (ConnSt c scriptbuf (k_pubkeys k) notarizations).

Fixpoint tx_loop (fJustCheck : bool) (vtx : list tx) (i height numnotaries : Z) (rmd160 : list Z)
  (blockhash : uint256) (timestamp : Z) (k : conn_st) : option conn_st :=
  match vtx with
  | [] => Some k
  | t :: vtx =>
    if negb fJustCheck && (1 <? i) && ce_notarypay X then Some k
    else
      k ← connect_tx fJustCheck k t i height numnotaries rmd160 blockhash timestamp;
      tx_loop fJustCheck vtx (i + 1) height numnotaries rmd160 blockhash timestamp k
  end.

(** The return value of a check. *)
Definition check_result (notarizations : list Z) : Z :=
  match notarizations with
  | [] => 0
  | [i] => if i =? 1 then 1 else -1
  | _ => -1
  end.

(** [md] and [scriptbuf] are uninitialised stack memory, [junk] the key array
    when there is no season. *)
Definition hush_connectblock (md : vstate) (scriptbuf : list Z) (junk : list (list Z)) (fJustCheck : bool)
  (c : cnode) (height nTime : Z) (blockhash : uint256) (vtx : list tx) (tip_height tip_time : Z)
  : option (Z * cnode) :=
  c ← node_init c height;
  let '(keys, numnotaries, cache) :=
    hush_notaries (SYMBOL E) (ce_private X) (ce_pubkey2addr X) (ce_heightstamp X) (cn_cache c) height (u32 nTime) in
  let pubkeys := default junk keys in
  rmd160 ← Rmd160.calc_rmd160_sha256 md md (nth 0 pubkeys []);
  c ← connect_height fJustCheck (set_cache cache c) height nTime;
  let c := set_node (hush_currentheight_set (cn_node c) tip_height) c in
  k ← tx_loop fJustCheck vtx 0 height numnotaries rmd160 blockhash tip_time (ConnSt c scriptbuf pubkeys []);
  let c := k_node k in
  c ← (if negb fJustCheck && (height =? cn_hwmheight c) then upd c (H_args height height (u32 nTime)) else Some c);
  Some (if fJustCheck then check_result (k_notarizations k) else 0, c).

End Connect.

(** ** What an output may change *)

(** The notarization a state reports. *)
Definition summary (sp : hush_state) : Z * uint256 * uint256 :=
  (NOTARIZED_HEIGHT sp, NOTARIZED_HASH sp, NOTARIZED_DESTTXID sp).

Definition MoM_ok (sp : hush_state) : Prop := sp_MoMdepth sp = 0 <-> sp_MoM sp = zero256.

(** Only checkpoints of block [height] are added, each for the notarization that
    [sp'] reports and for an earlier block. *)
Definition grows (height : Z) (sp sp' : hush_state) : Prop :=
  exists l, NPOINTS sp' = NPOINTS sp ++ l /\
    Forall (fun np => np_nHeight np = height /\ np_notarized_height np < height /\
      (np_notarized_height np, np_notarized_hash np, np_notarized_desttxid np) = summary sp') l.

(** The step leaves the reported notarization and its Merkle data alone. *)
Definition quiet (height : Z) (sp sp' : hush_state) : Prop :=
  summary sp' = summary sp /\ sp_MoM sp' = sp_MoM sp /\ sp_MoMdepth sp' = sp_MoMdepth sp /\ grows height sp sp'.

Lemma quiet_same height sp sp' :
  summary sp' = summary sp -> sp_MoM sp' = sp_MoM sp -> sp_MoMdepth sp' = sp_MoMdepth sp ->
  NPOINTS sp' = NPOINTS sp -> quiet height sp sp'.
Proof. intros. repeat split; try done. exists []. by rewrite app_nil_r. Qed.

Lemma quiet_refl height sp : quiet height sp sp.
Proof. by apply quiet_same. Qed.

Lemma quiet_trans height sp1 sp2 sp3 : quiet height sp1 sp2 -> quiet height sp2 sp3 -> quiet height sp1 sp3.
Proof.
  intros (A1 & A2 & A3 & l1 & A4 & A5) (B1 & B2 & B3 & l2 & B4 & B5).
  split; [congruence|]. split; [congruence|]. split; [congruence|]. exists (l1 ++ l2).
  split; [by rewrite B4, A4, app_assoc|]. apply Forall_app. split; [by rewrite B1|done].
Qed.

Lemma eventadd_fields E sp h symbol type data len :
  let sp' := hush_eventadd E sp h symbol type data len in
  summary sp' = summary sp /\ sp_MoM sp' = sp_MoM sp /\ sp_MoMdepth sp' = sp_MoMdepth sp /\ NPOINTS sp' = NPOINTS sp.
Proof. unfold hush_eventadd. by destruct (SYMBOL E). Qed.

Lemma eventadd_quiet E sp height h symbol type data len : quiet height sp (hush_eventadd E sp h symbol type data len).
Proof. by apply quiet_same; apply eventadd_fields. Qed.

Lemma write_notarized_quiet E w symbol dest height :
  quiet height (n_sp w) (n_sp (write_notarized E w symbol dest height).1).
Proof.
  unfold write_notarized, hush_eventadd_notarized. cbn [fst].
  destruct (_ && _); [apply quiet_refl|]. case_bool_decide; [|apply quiet_refl]. cbn [n_sp with_sp].
  set (sp1 := hush_eventadd _ _ _ _ _ _ _).
  assert (Hq : quiet height (n_sp w) sp1) by apply eventadd_quiet.
  unfold hush_notarized_update. destruct (Z.leb_spec height (NOTARIZED_HEIGHT (n_sp w))); [done|].
  eapply quiet_trans; [exact Hq|]. destruct Hq as (H1 & H2 & H3 & _). symmetry in H1, H2, H3.
  split; [exact H1|]. split; [exact H2|]. split; [exact H3|]. eexists. split; [reflexivity|]. by repeat constructor.
Qed.

Section Quiet.
Context (X : connect_env).
Let E := ce_chain X.
Context (Hsym : SYMBOL E <> []) (Hbase : hush_baseid (SYMBOL E) < 0).

Lemma opreturn_quiet w symbol height txid value vout buf w' :
  hush_eventadd_opreturn E w symbol height txid value vout buf = Some w' ->
  quiet height (n_sp w) (n_sp w').
Proof.
  unfold hush_eventadd_opreturn, hush_opreturn. destruct (SYMBOL E) as [|c s] eqn:Es; [done|].
  set (sp1 := hush_eventadd _ _ _ _ _ _ _).
  assert (Hq : quiet height (n_sp w) sp1) by (unfold sp1; apply eventadd_quiet).
  rewrite (proj2 (Z.ltb_lt _ _) Hbase). cbn [andb].
  destruct (rd buf 0 =? 75); cbn [negb andb]; [|by intros [= <-]].
  destruct (negb (Zlen buf =? 40)); [|by intros [= <-]].
  destruct (hush_kvupdate _ _ _ _ _ _); [|done]. by intros [= <-].
Qed.

Lemma upd_quiet c a c' :
  sf_open (cn_file c) = true -> 0 < ua_height a ->
  ua_HUSHheight a = 0 -> ua_voutmask a = 0 -> ua_pvals a = None ->
  upd X c a = Some c' ->
  quiet (ua_height a) (n_sp (cn_node c)) (n_sp (cn_node c')) /\ sf_open (cn_file c') = true.
Proof.
  intros Hopen Hh Hk Hm Hv. unfold upd, hush_stateupdate, state_open. rewrite Hopen.
  cbn [mbind option_bind]. rewrite (proj2 (Z.leb_gt _ _) Hh). fold E.
  destruct (write_record E (cn_node c) a) as [[w b]|] eqn:Hw; [|done]. cbn [mbind option_bind].
  intros [= <-]. split; [|done]. cbn [cn_node set_file set_node].
  unfold write_record in Hw. destruct (hush_nameset (SYMBOL E)) as [symbol dest].
  rewrite Hk in Hw. cbn [Z.eqb negb] in Hw.
  assert (HN : quiet (ua_height a) (n_sp (cn_node c)) (n_sp (write_pubs E (cn_node c) symbol dest a).1)).
  { unfold write_pubs, write_misc. rewrite Hm, Hv. cbn [Z.eqb negb].
    destruct (ua_notarypubs a); [destruct (0 <? ua_numnotaries a)|]; [apply eventadd_quiet|apply write_notarized_quiet..]. }
  destruct (write_pubs E (cn_node c) symbol dest a) as [w0 b0].
  destruct (ua_opretbuf a) as [buf|]; [|by injection Hw as -> _].
  destruct (0 <? ua_opretlen a); [|by injection Hw as -> _].
  destruct (hush_eventadd_opreturn _ _ _ _ _ _ _ _) as [w1|] eqn:Eo; [|done]. cbn in Hw.
  injection Hw as <- _. by eapply opreturn_quiet.
Qed.

Lemma p2pk_quiet st buf slen height i j ts h :
  quiet h (n_sp (cn_node (v_node st))) (n_sp (cn_node (v_node (vout_p2pk X st buf slen height i j ts)))) /\
  cn_file (v_node (vout_p2pk X st buf slen height i j ts)) = cn_file (v_node st) /\
  NPOINTS (n_sp (cn_node (v_node (vout_p2pk X st buf slen height i j ts)))) = NPOINTS (n_sp (cn_node (v_node st))).
Proof.
  unfold vout_p2pk. destruct (_ && _ && _); [|split; [apply quiet_refl|by split]].
  destruct (hush_chosennotary _ _ _ _ _ _ _ _ _ _ _ _) as [[r nid] [[cache s] u]].
  repeat case_match; split; try done; apply quiet_refl.
Qed.

(** A genuine notarization by this output. *)
Definition genuine (notarized fJustCheck : bool) (j height : Z) (sp sp' : hush_state) : Prop :=
  notarized = true /\ fJustCheck = false /\ j = 1 /\
  NOTARIZED_HEIGHT sp < NOTARIZED_HEIGHT sp' < height /\
  (ce_ibd X = true \/ ce_index X (NOTARIZED_HASH sp') = Some (NOTARIZED_HEIGHT sp')) /\
  (MoM_ok sp -> MoM_ok sp') /\ grows height sp sp'.

Lemma quiet_genuine notarized fJust j height sp1 sp2 sp3 :
  quiet height sp1 sp2 -> NPOINTS sp2 = NPOINTS sp1 -> genuine notarized fJust j height sp2 sp3 ->
  genuine notarized fJust j height sp1 sp3.
Proof using Type.
  intros (A1 & A2 & A3 & _) Hnp (B1 & B2 & B3 & B4 & B5 & B6 & B7).
  injection A1 as A1 _ _. unfold genuine, MoM_ok, grows in *. rewrite A1 in B4. rewrite A2, A3 in B6.
  rewrite Hnp in B7. split_and!; try done; lia.
Qed.

Lemma validate_quiet c hash nh r c' :
  hush_validate_chain X c hash nh = Some (r, c') ->
  cn_node c' = cn_node c /\ cn_file c' = cn_file c /\
  (r <> 0 -> ce_ibd X = true \/ ce_index X hash = Some nh).
Proof using Type.
  unfold hush_validate_chain. destruct (ce_ibd X); [intros [= <- <-]; auto|].
  destruct (ce_index X hash) as [ht|]; [|done].
  destruct (Z.eqb_spec ht nh) as [->|Hne]; cbn [negb]; [intros [= <- <-]; auto|].
  intros [= <- <-]. by destruct (_ && _).
Qed.

Lemma record_genuine c height nh srchash desttxid MoM depth c' :
  sf_open (cn_file c) = true -> 0 < height ->
  record_notarization X c height nh srchash desttxid MoM depth = Some c' ->
  let sp := n_sp (cn_node c) in let sp' := n_sp (cn_node c') in
  summary sp' = (nh, srchash, desttxid) /\ (MoM_ok sp -> MoM_ok sp') /\ grows height sp sp' /\
  sf_open (cn_file c') = true.
Proof.
  intros Hopen Hh Hr. unfold record_notarization in Hr.
  set (sp1 := if negb (bool_decide (MoM = zero256)) && (0 <? Z.land depth 0xffff) then _ else _) in Hr.
  assert (Hsp1 : summary sp1 = (nh, srchash, desttxid) /\ NPOINTS sp1 = NPOINTS (n_sp (cn_node c)))
    by (unfold sp1; destruct (_ && _); done).
  assert (HM : MoM_ok (n_sp (cn_node c)) -> MoM_ok sp1).
  { unfold sp1, MoM_ok. destruct (_ && _) eqn:Eb; [|done]. intros _. cbn.
    apply andb_prop in Eb as [E1%negb_true_iff%bool_decide_eq_false E2%Z.ltb_lt].
    split; [intros ->; by rewrite Z.land_0_l in E2|done]. }
  apply upd_quiet in Hr as [(Q1 & Q2 & Q3 & Q4) Hopen']; try done. cbn [cn_node set_node n_sp with_sp] in *.
  destruct Hsp1 as [Hs1 Hs2]. cbv zeta. split; [congruence|]. split.
  - intros HM0. unfold MoM_ok. rewrite Q2, Q3. by apply HM.
  - unfold grows in *. by rewrite Hs2 in Q4.
Qed.

Lemma notarization_step fJust st buf len opretlen height notarized mask early st' sp :
  sf_open (cn_file (v_node st)) = true -> 0 < height ->
  n_sp (cn_node (v_node st)) = sp ->
  cstring (drop (len + 68) buf) = SYMBOL E -> (length (SYMBOL E) <= 65)%nat -> unsigned_symbol (SYMBOL E) = false ->
  vout_notarization X fJust st buf len opretlen height true notarized mask = Some (early, st') ->
  let sp' := n_sp (cn_node (v_node st')) in
  sf_open (cn_file (v_node st')) = true /\
  (quiet height sp sp' \/ genuine notarized fJust 1 height sp sp').
Proof.
  intros Hopen Hh Hsp Hname Hlen Huns. unfold vout_notarization. rewrite Hname.
  rewrite take_ge by lia. rewrite Huns. cbn [negb andb]. rewrite !orb_false_r.
  cbn [v_node v_set_height]. set (hash := take 32 (drop len buf)).
  set (nh := s32 (dragon_rwnum false (drop (len + 32) buf) 4 0).2).
  destruct (hush_validate_chain X (v_node st) hash nh) as [[r c]|] eqn:Ev; [|done].
  apply validate_quiet in Ev as (Hn & Hf & Hr). cbn [mbind option_bind]. rewrite andb_true_r.
  assert (Hquiet : quiet height sp (n_sp (cn_node c))) by (rewrite Hn, Hsp; apply quiet_refl).
  assert (Hc : sf_open (cn_file c) = true) by (by rewrite Hf).
  destruct fJust; [intros [= <- <-]; auto|].
  destruct notarized; [|intros [= <- <-]; auto]. cbn [andb].
  destruct (Z.eqb_spec r 0) as [->|Hr0]; cbn [negb]; [intros [= <- <-]; auto|].
  destruct (read_MoM _ _ _ _ _) as [MoM depth].
  destruct (_ <? nh) eqn:E1; [|intros [= <- <-]; auto].
  destruct (nh <? height) eqn:E2; [|intros [= <- <-]; auto]. cbn [andb].
  destruct (record_notarization _ _ _ _ _ _ _ _) as [c1|] eqn:Er; [|done].
  cbn [mbind option_bind]. intros [= <- <-]. cbn [v_node v_set_node].
  destruct (record_genuine _ _ _ _ _ _ _ _ Hc Hh Er) as (Hsum & HM & Hg & Hop).
  split; [done|]. right. rewrite <- Hn in Hsp. subst sp. unfold summary in Hsum. injection Hsum as S1 S2 S3.
  apply Z.ltb_lt in E1, E2. unfold genuine. rewrite S1, S2. split_and!; auto.
Qed.

Context (Hlen : (length (SYMBOL E) <= 65)%nat) (Huns : unsigned_symbol (SYMBOL E) = false).

Lemma other_quiet st buf len opretlen height txhash j value mask st' :
  sf_open (cn_file (v_node st)) = true -> 0 < height ->
  vout_other X st buf len opretlen height txhash j value mask = Some st' ->
  quiet height (n_sp (cn_node (v_node st))) (n_sp (cn_node (v_node st'))) /\ sf_open (cn_file (v_node st')) = true.
Proof.
  intros Hopen Hh. unfold vout_other. cbn [v_node].
  destruct (_ && _); [|intros [= <-]; split; [apply quiet_refl|done]].
  destruct (upd _ _ _) as [c|] eqn:Eu; [|done]. intros [= <-]. cbn [v_node v_set_node].
  by apply upd_quiet in Eu.
Qed.

Lemma unmatched_step fJust st buf len opretlen height notarized mask early st' :
  vout_notarization X fJust st buf len opretlen height false notarized mask = Some (early, st') ->
  v_node st' = v_node st.
Proof.
  unfold vout_notarization. cbn [mbind option_bind]. rewrite andb_false_r.
  destruct (_ && _); [|by intros [= <- <-]]. destruct (read_MoM _ _ _ _ _). by intros [= <- <-].
Qed.

Lemma voutupdate_step fJust st buf slen height txhash i j value notarized mask ts ret st' :
  sf_open (cn_file (v_node st)) = true -> 0 < height ->
  hush_voutupdate X fJust st buf slen height txhash i j value notarized mask ts = Some (ret, st') ->
  let sp := n_sp (cn_node (v_node st)) in let sp' := n_sp (cn_node (v_node st')) in
  sf_open (cn_file (v_node st')) = true /\
  (quiet height sp sp' \/ genuine notarized fJust j height sp sp').
Proof.
  intros Hopen Hh. unfold hush_voutupdate. fold E.
  destruct (p2pk_quiet st buf slen height i j ts height) as (Hq & Hf & Hnp).
  set (st1 := vout_p2pk _ _ _ _ _ _ _ _) in *. rewrite <- Hf in Hopen.
  destruct (rd buf 0 =? 0x6a); [|intros [= <- <-]; auto].
  destruct (opret_header buf) as [opretlen len].
  assert (Hnamed : (match SYMBOL E with [] => false | _ => true end) = true) by (by destruct (SYMBOL E)).
  rewrite Hnamed. cbn [andb]. destruct (rd buf len =? 75).
  { destruct (upd _ _ _) as [c|] eqn:Eu; [|done]. intros [= <- <-]. cbn [v_node v_set_node].
    apply upd_quiet in Eu as [Q Ho]; try done. split; [done|]. left. by eapply quiet_trans. }
  case_bool_decide as Hname.
  - destruct ((j =? 1) && _) eqn:Ej.
    + apply andb_prop in Ej as [->%Z.eqb_eq _].
      destruct (vout_notarization _ _ _ _ _ _ _ _ _ _) as [[early st2]|] eqn:En; [|done].
      intros [= <- <-].
      destruct (notarization_step _ _ _ _ _ _ _ _ _ _ _ Hopen Hh eq_refl (eq_sym Hname) Hlen Huns En) as [Ho [Q|G]];
        (split; [done|]).
      * left. by eapply quiet_trans.
      * right. by apply (quiet_genuine _ _ _ _ _ _ _ Hq Hnp G).
    + destruct (_ && (opretlen =? 149)); [intros [= <- <-]; auto|].
      destruct (vout_other _ _ _ _ _ _ _ _ _ _) as [st2|] eqn:Eo; [|done]. intros [= <- <-].
      apply other_quiet in Eo as [Q Ho]; [|done..]. split; [done|]. left. by eapply quiet_trans.
  - destruct ((j =? 1) && _); [|cbn [andb]; intros [= <- <-]; auto].
    destruct (vout_notarization _ _ _ _ _ _ _ _ _ _) as [[early st2]|] eqn:En; [|done].
    intros [= <- <-]. apply unmatched_step in En. rewrite En. auto.
Qed.

Lemma vout_loop_quiet fJust vouts j height txhash i mask ts st buf ns st' buf' ns' :
  sf_open (cn_file (v_node st)) = true -> 0 < height ->
  vout_loop X fJust vouts j height txhash i false mask ts st buf ns = Some (st', buf', ns') ->
  quiet height (n_sp (cn_node (v_node st))) (n_sp (cn_node (v_node st'))) /\ sf_open (cn_file (v_node st')) = true.
Proof.
  intros Hopen Hh. revert j st buf ns Hopen. induction vouts as [|o vouts IH]; intros j st buf ns Hopen; cbn [vout_loop].
  { intros [= <- <- <-]. split; [apply quiet_refl|done]. }
  destruct (_ && _); [|by apply IH].
  destruct (hush_voutupdate _ _ _ _ _ _ _ _ _ _ _ _ _) as [[ret st1]|] eqn:Ev; [|done]. cbn [mbind option_bind].
  apply voutupdate_step in Ev as [Ho [Q|G]]; [|by destruct G|done..].
  intros Hl. apply IH in Hl as [Q' Ho']; [|done]. split; [|done]. by eapply quiet_trans.
Qed.

(** Transaction [i] of the block is not signed by enough notaries. *)
Definition unsigned_tx (height num : Z) (pubkeys : list (list Z)) (rmd160 : list Z) (i : Z) (t : tx) : Prop :=
  is_notarized height true num (signed_mask height (Z.to_nat i) pubkeys num rmd160 (tx_vin t)) = false.

Lemma connect_tx_quiet fJust k t i height num rmd160 hash ts k' :
  ce_regtest X = false -> sf_open (cn_file (k_node k)) = true -> 0 < height ->
  unsigned_tx height num (k_pubkeys k) rmd160 i t ->
  connect_tx X fJust k t i height num rmd160 hash ts = Some k' ->
  quiet height (n_sp (cn_node (k_node k))) (n_sp (cn_node (k_node k'))) /\
  sf_open (cn_file (k_node k')) = true /\ k_pubkeys k' = k_pubkeys k.
Proof.
  intros Hreg Hopen Hh Hun. unfold connect_tx, unsigned_tx in *. fold E. rewrite Hreg.
  assert (Hnamed : (match SYMBOL E with [] => false | _ => true end) = true) by (by destruct (SYMBOL E)).
  rewrite Hnamed, Hun. cbn [andb orb].
  destruct (vout_loop _ _ _ _ _ _ _ _ _ _ _ _ _) as [[[st buf] ns]|] eqn:El; [|done]. cbn [mbind option_bind].
  apply vout_loop_quiet in El as [Q Ho]; [|done..]. rewrite andb_false_r. cbn [andb]. by intros [= <-].
Qed.

Lemma tx_loop_quiet fJust vtx i height num rmd160 hash ts k k' :
  ce_regtest X = false -> sf_open (cn_file (k_node k)) = true -> 0 < height ->
  (forall n t, vtx !! n = Some t -> unsigned_tx height num (k_pubkeys k) rmd160 (i + Z.of_nat n) t) ->
  tx_loop X fJust vtx i height num rmd160 hash ts k = Some k' ->
  quiet height (n_sp (cn_node (k_node k))) (n_sp (cn_node (k_node k'))) /\ sf_open (cn_file (k_node k')) = true.
Proof.
  intros Hreg Hopen Hh. revert i k Hopen. induction vtx as [|t vtx IH]; intros i k Hopen Hun; cbn [tx_loop].
  { intros [= <-]. split; [apply quiet_refl|done]. }
  destruct (_ && _); [intros [= <-]; split; [apply quiet_refl|done]|].
  destruct (connect_tx _ _ _ _ _ _ _ _ _ _) as [k1|] eqn:Ec; [|done]. cbn [mbind option_bind].
  apply connect_tx_quiet in Ec as (Q & Ho & Hk); [|done..|specialize (Hun 0%nat t eq_refl); by rewrite Z.add_0_r in Hun].
  intros Hl. apply IH in Hl as [Q' Ho']; [|done|].
  - split; [|done]. by eapply quiet_trans.
  - intros n t' Hn. specialize (Hun (S n) t' Hn). rewrite Hk. replace (i + 1 + Z.of_nat n) with (i + Z.of_nat (S n)) by lia. done.
Qed.

Lemma upd_height_quiet c height hushheight ts c' :
  sf_open (cn_file c) = true -> 0 < height -> 0 < hushheight ->
  upd X c (H_args height hushheight ts) = Some c' ->
  quiet height (n_sp (cn_node c)) (n_sp (cn_node c')).
Proof.
  intros Hopen Hh Hk. unfold upd, hush_stateupdate, state_open. rewrite Hopen.
  cbn [mbind option_bind H_args ua_height]. rewrite (proj2 (Z.leb_gt _ _) Hh). fold E.
  unfold write_record. destruct (hush_nameset (SYMBOL E)) as [symbol dest]. 
  cbn [ua_HUSHheight ua_height ua_HUSHtimestamp H_args].
  destruct (Z.eqb_spec hushheight 0); [lia|]. cbn [negb mbind option_bind].
  intros Hc%(f_equal (fun o => cn_node (default c o))). cbn [default from_option id cn_node set_file set_node] in Hc. rewrite <- Hc.
  unfold hush_eventadd_hushheight. rewrite (proj2 (Z.ltb_lt _ _) Hk). cbn [n_sp with_sp].
  destruct (eventadd_fields E (n_sp (cn_node c)) height symbol EV_HUSHHEIGHT (le_bytes 4 hushheight ++ le_bytes 4 ts) 8)
    as (F1 & F2 & F3 & F4).
  apply quiet_same; unfold hush_sethushheight; repeat case_match; done.
Qed.

(** What connecting transactions may do: the notarized height only grows, a new
    notarization is below the block and known to the node, and each checkpoint
    added belongs to this block and to a notarization in between. *)
Definition advances (height : Z) (sp sp' : hush_state) : Prop :=
  NOTARIZED_HEIGHT sp <= NOTARIZED_HEIGHT sp' /\
  (summary sp' = summary sp \/
   NOTARIZED_HEIGHT sp < NOTARIZED_HEIGHT sp' < height /\
   (ce_ibd X = true \/ ce_index X (NOTARIZED_HASH sp') = Some (NOTARIZED_HEIGHT sp'))) /\
  (MoM_ok sp -> MoM_ok sp') /\
  exists l, NPOINTS sp' = NPOINTS sp ++ l /\
    Forall (fun np => np_nHeight np = height /\ np_notarized_height np < height /\
                      NOTARIZED_HEIGHT sp <= np_notarized_height np <= NOTARIZED_HEIGHT sp') l.

Lemma quiet_advances height sp sp' : quiet height sp sp' -> advances height sp sp'.
Proof using Type.
  clear Hbase Hlen.
  intros (Hs & H1 & H2 & l & Hl & Hf). pose proof Hs as Hs'. injection Hs' as Hh _ _.
  unfold advances, MoM_ok. rewrite H1, H2. split; [lia|]. split; [by left|]. split; [done|].
  exists l. split; [done|]. eapply Forall_impl; [exact Hf|]. cbn. intros np (A & B & C). injection C as C _ _. lia.
Qed.

Lemma genuine_advances notarized fJust j height sp sp' : genuine notarized fJust j height sp sp' -> advances height sp sp'.
Proof using Type.
  clear Hbase Hlen.
  intros (_ & _ & _ & Hh & Hk & HM & l & Hl & Hf). split; [lia|]. split; [by right|]. split; [done|].
  exists l. split; [done|]. eapply Forall_impl; [exact Hf|]. cbn. intros np (A & B & C). injection C as C _ _. lia.
Qed.

Lemma advances_trans height sp1 sp2 sp3 : advances height sp1 sp2 -> advances height sp2 sp3 -> advances height sp1 sp3.
Proof using Type.
  clear Hbase Hlen.
  intros (A1 & A2 & A3 & l1 & A4 & A5) (B1 & B2 & B3 & l2 & B4 & B5).
  split; [lia|]. split.
  - destruct B2 as [B2|B2]; [|right; split; [lia|tauto]].
    rewrite B2. injection B2 as H1 H2 _. destruct A2 as [A2|[A2 A2']]; [by left|right]. rewrite H1, H2. split; [lia|done].
  - split; [auto|]. exists (l1 ++ l2). split; [by rewrite B4, A4, app_assoc|].
    apply Forall_app. split; eapply Forall_impl; try eassumption; cbn; intros; lia.
Qed.

Lemma vout_loop_advances fJust vouts j height txhash i notarized mask ts st buf ns st' buf' ns' :
  sf_open (cn_file (v_node st)) = true -> 0 < height ->
  vout_loop X fJust vouts j height txhash i notarized mask ts st buf ns = Some (st', buf', ns') ->
  advances height (n_sp (cn_node (v_node st))) (n_sp (cn_node (v_node st'))) /\ sf_open (cn_file (v_node st')) = true.
Proof.
  intros Hopen Hh. revert j st buf ns Hopen. induction vouts as [|o vouts IH]; intros j st buf ns Hopen; cbn [vout_loop].
  { intros [= <- <- <-]. split; [apply quiet_advances, quiet_refl|done]. }
  destruct (_ && _); [|by apply IH].
  destruct (hush_voutupdate _ _ _ _ _ _ _ _ _ _ _ _ _) as [[ret st1]|] eqn:Ev; [|done]. cbn [mbind option_bind].
  apply voutupdate_step in Ev as [Ho Hs]; [|done..].
  intros Hl. apply IH in Hl as [Q' Ho']; [|done]. split; [|done]. eapply advances_trans; [|exact Q'].
  destruct Hs; [by apply quiet_advances|by eapply genuine_advances].
Qed.

Lemma connect_tx_advances fJust k t i height num rmd160 hash ts k' :
  ce_regtest X = false -> sf_open (cn_file (k_node k)) = true -> 0 < height ->
  connect_tx X fJust k t i height num rmd160 hash ts = Some k' ->
  advances height (n_sp (cn_node (k_node k))) (n_sp (cn_node (k_node k'))) /\ sf_open (cn_file (k_node k')) = true.
Proof.
  intros Hreg Hopen Hh. unfold connect_tx. rewrite Hreg. cbn [andb].
  destruct (vout_loop _ _ _ _ _ _ _ _ _ _ _ _ _) as [[[st buf] ns]|] eqn:El; [|done]. cbn [mbind option_bind].
  apply vout_loop_advances in El as [Q Ho]; [|done..]. destruct (_ && _); [|by intros [= <-]].
  unfold ratify. destruct (64 <? _); [done|]. destruct (_ && _); [|by intros [= <-]].
  destruct (upd _ _ _) as [c|] eqn:Eu; [|done]. cbn [mbind option_bind]. intros [= <-]. cbn [k_node].
  apply upd_quiet in Eu as [Q' Ho']; [|done..]. split; [|done].
  eapply advances_trans; [exact Q|by apply quiet_advances].
Qed.

Lemma tx_loop_advances fJust vtx i height num rmd160 hash ts k k' :
  ce_regtest X = false -> sf_open (cn_file (k_node k)) = true -> 0 < height ->
  tx_loop X fJust vtx i height num rmd160 hash ts k = Some k' ->
  advances height (n_sp (cn_node (k_node k))) (n_sp (cn_node (k_node k'))) /\ sf_open (cn_file (k_node k')) = true.
Proof.
  intros Hreg Hopen Hh. revert i k Hopen. induction vtx as [|t vtx IH]; intros i k Hopen; cbn [tx_loop].
  { intros [= <-]. split; [apply quiet_advances, quiet_refl|done]. }
  destruct (_ && _); [intros [= <-]; split; [apply quiet_advances, quiet_refl|done]|].
  destruct (connect_tx _ _ _ _ _ _ _ _ _ _) as [k1|] eqn:Ec; [|done]. cbn [mbind option_bind].
  apply connect_tx_advances in Ec as [Q Ho]; [|done..].
  intros Hl. apply IH in Hl as [Q' Ho']; [|done]. split; [|done]. by eapply advances_trans.
Qed.

(** The frame of [hush_connectblock] for a block above the high-water mark. *)
Lemma connectblock_frame md buf junk fJust c height nTime hash vtx tip ts keys num cache r c' :
  ns_didinit (n_notary (cn_node c)) = true -> sf_open (cn_file c) = true -> 0 < height -> cn_hwmheight c < height ->
  hush_notaries (SYMBOL E) (ce_private X) (ce_pubkey2addr X) (ce_heightstamp X) (cn_cache c) height (u32 nTime)
    = (Some keys, num, cache) ->
  hush_connectblock X md buf junk fJust c height nTime hash vtx tip ts = Some (r, c') ->
  exists rmd160 k k', Rmd160.calc_rmd160_sha256 md md (nth 0 keys []) = Some rmd160 /\
    tx_loop X fJust vtx 0 height num rmd160 hash ts k = Some k' /\
    k_pubkeys k = keys /\ sf_open (cn_file (k_node k)) = true /\
    quiet height (n_sp (cn_node c)) (n_sp (cn_node (k_node k))) /\
    (sf_open (cn_file (k_node k')) = true -> quiet height (n_sp (cn_node (k_node k'))) (n_sp (cn_node c'))).
Proof.
  intros Hinit Hopen Hh Hhwm Hkeys. unfold hush_connectblock, node_init, hush_init. rewrite Hinit. fold E.
  cbn [negb fst mbind option_bind cn_cache set_node]. rewrite Hkeys. change (default junk (Some keys)) with keys.
  destruct (Rmd160.calc_rmd160_sha256 _ _ _) as [rmd160|] eqn:Ermd; [|done]. cbn [mbind option_bind].
  unfold connect_height. cbn [cn_hwmheight set_cache set_node]. rewrite (proj2 (Z.ltb_lt _ _) Hhwm). cbn [mbind option_bind].
  destruct (tx_loop _ _ _ _ _ _ _ _ _ _) as [k'|] eqn:El; [|done]. cbn [mbind option_bind].
  intros Hend. eexists rmd160, _, k'. split; [done|]. split; [exact El|]. split; [done|]. split; [done|].
  split; [by apply quiet_same|]. intros Ho.
  destruct (_ && _).
  - destruct (upd _ _ _) as [c2|] eqn:Eu; [|done]. injection Hend as _ <-. by eapply upd_height_quiet.
  - injection Hend as _ <-. apply quiet_refl.
Qed.

End Quiet.

(** ** Blocks *)

(** A chain whose notarizations need signatures: it has a name, which is not a
    currency and none of the three that are exempt. *)
Class SignedChain (E : chain_env) : Prop := {
  sc_named : SYMBOL E <> [];
  sc_base : hush_baseid (SYMBOL E) < 0;
  sc_length : (length (SYMBOL E) <= 65)%nat;
  sc_signed : unsigned_symbol (SYMBOL E) = false
}.

(** The node runs, its state file is open and the block is above every block
    connected before. *)
Record ready (c : cnode) (height : Z) : Prop := Ready {
  rd_init : ns_didinit (n_notary (cn_node c)) = true;
  rd_open : sf_open (cn_file c) = true;
  rd_height : cn_hwmheight c < height
}.

Definition block_keys (X : connect_env) (c : cnode) (height nTime : Z) : option (list (list Z)) * Z * notary_cache :=
  hush_notaries (SYMBOL (ce_chain X)) (ce_private X) (ce_pubkey2addr X) (ce_heightstamp X) (cn_cache c) height (u32 nTime).

(** A node just below block 600000, and a block whose second transaction notarizes
    block 599990 with the outputs of [n] notaries. *)
Definition demo_X : connect_env :=
  ConnectEnv demo_env false (fun k => k) (fun _ => 0) false
    (fun h => if bool_decide (h = replicate 32 7) then Some 599990 else None) 0 false false [].
Definition demo_c : cnode :=
  CNode (Node init_state ∅ (NotaryState None 0 true (replicate 33 0)) 0 0) (StateFile (Some []) true)
    (NotaryCache (replicate 8 []) (replicate 8 false) (replicate 8 [])) [] 599999 0.
Definition demo_opreturn : list Z :=
  [0x6a; 0x4c; 110] ++ replicate 32 7 ++ le_bytes 4 599990 ++ replicate 32 9 ++ chars "HUSH3" ++ [0]
  ++ replicate 32 5 ++ le_bytes 4 10.
Definition demo_block (n : nat) : list tx :=
  let p2pk := 33 :: replicate 33 2 ++ [0xac] in
  [Tx (replicate 32 1) [None] [TxOut 5 p2pk];
   Tx (replicate 32 3) (map demo_script (seq 0 n)) [TxOut 1000 p2pk; TxOut 0 demo_opreturn]].
Definition demo_md : vstate := VState 0 [] 0 (replicate 64 0).
Definition demo_connect (n : nat) : option (Z * cnode) :=
  hush_connectblock demo_X demo_md (replicate 200 0) [] false demo_c 600000 1640995200 (replicate 32 4)
    (demo_block n) 599999 1640995000.
Definition demo_after (n : nat) : cnode := (default (-7, demo_c) (demo_connect n)).2.

Lemma demo_connect_some n :
  (default (-7, demo_c) (demo_connect n)).1 = 0 ->
  hush_connectblock demo_X demo_md (replicate 200 0) [] false demo_c 600000 1640995200 (replicate 32 4)
    (demo_block n) 599999 1640995000 = Some (0, demo_after n).
Proof.
  unfold demo_after, demo_connect. destruct (hush_connectblock _ _ _ _ _ _ _ _ _ _ _ _) as [[r c]|].
  - cbn [default from_option id fst snd]. by intros ->.
  - discriminate.
Qed.

#[export] Instance demo_signed : SignedChain (ce_chain demo_X).
Proof. by split; vm_compute; (discriminate || lia || reflexivity). Qed.

Lemma demo_ready : ready demo_c 600000.
Proof. by split. Qed.

Lemma demo_keys : block_keys demo_X demo_c 600000 1640995200 =
  (Some (season_keys 7), 64, (block_keys demo_X demo_c 600000 1640995200).2).
Proof. vm_compute. reflexivity. Qed.

(** [C4] Connecting a new block on a chain whose notarizations are signed never
    moves the notarization back: the notarized height only grows, a changed
    notarization lies below the block and (outside the initial download) its hash
    is a block of the node at exactly that height, all checkpoints added belong
    to this block and to notarizations between the old and the new one, and a
    Merkle root is stored with a nonzero depth exactly if it is not zero. *)
Theorem block_advances X `{!SignedChain (ce_chain X)} md buf junk fJustCheck c height nTime hash vtx tip ts keys num cache r c' :
  ce_regtest X = false -> 0 < height -> ready c height ->
  block_keys X c height nTime = (Some keys, num, cache) ->
  hush_connectblock X md buf junk fJustCheck c height nTime hash vtx tip ts = Some (r, c') ->
  advances X height (n_sp (cn_node c)) (n_sp (cn_node c')).
Proof.
  intros Hreg Hh [Hi Ho Hw] Hkeys Hc. destruct SignedChain0 as [H1 H2 H3 H4].
  eapply connectblock_frame in Hc as (rmd & k & k' & _ & Hl & _ & Hop & Q1 & Q2); [|done..].
  eapply tx_loop_advances in Hl as [Ha Hop']; [|done..].
  eapply advances_trans; [by apply quiet_advances|]. eapply advances_trans; [exact Ha|]. by apply quiet_advances, Q2.
Qed.

Lemma block_advances_witness :
  NOTARIZED_HEIGHT (n_sp (cn_node (demo_after 11))) = 599990 /\
  advances demo_X 600000 (n_sp (cn_node demo_c)) (n_sp (cn_node (demo_after 11))).
Proof.
  split; [vm_compute; reflexivity|].
  refine (block_advances demo_X demo_md (replicate 200 0) [] false demo_c 600000 1640995200 (replicate 32 4)
    (demo_block 11) 599999 1640995000 _ _ _ 0 (demo_after 11) eq_refl ltac:(lia) demo_ready demo_keys (demo_connect_some 11 _)).
  vm_compute. reflexivity.
Defined.

(** [C3] From block 91400 on, with a season's 64 keys, a block in which no
    transaction spends outputs of 11 different notaries cannot change the
    notarization that the node reports: whatever its outputs hold, the notarized
    height, hash and transaction and the Merkle data stay, and checkpoints that
    are added repeat that notarization. *)
Theorem block_without_signatures X `{!SignedChain (ce_chain X)} md buf junk fJustCheck c height nTime hash vtx tip ts keys cache rmd160 r c' :
  ce_regtest X = false -> 91400 <= height -> ready c height ->
  block_keys X c height nTime = (Some keys, 64, cache) ->
  Rmd160.calc_rmd160_sha256 md md (nth 0 keys []) = Some rmd160 ->
  (forall n t, vtx !! n = Some t -> Zlen (remove_dups (signer_ids n keys 64 rmd160 (tx_vin t))) < 11) ->
  hush_connectblock X md buf junk fJustCheck c height nTime hash vtx tip ts = Some (r, c') ->
  quiet height (n_sp (cn_node c)) (n_sp (cn_node c')).
Proof.
  intros Hreg Hh [Hi Ho Hw] Hkeys Hrmd Htx Hc. destruct SignedChain0 as [H1 H2 H3 H4].
  eapply connectblock_frame in Hc as (rmd & k & k' & Hr & Hl & Hk & Hop & Q1 & Q2); [|done || lia..].
  assert (rmd160 = rmd) as <- by congruence.
  eapply tx_loop_quiet in Hl as [Ha Hop']; [|done || lia..|].
  - eapply quiet_trans; [exact Q1|]. eapply quiet_trans; [exact Ha|]. by apply Q2.
  - intros n t Hn. unfold unsigned_tx. rewrite Hk, Z.add_0_l, Nat2Z.id. apply not_true_is_false.
    rewrite is_notarized_iff by done. specialize (Htx n t Hn). lia.
Qed.

Lemma block_without_signatures_witness :
  quiet 600000 (n_sp (cn_node demo_c)) (n_sp (cn_node (demo_after 10))).
Proof.
  refine (block_without_signatures demo_X demo_md (replicate 200 0) [] false demo_c 600000 1640995200 (replicate 32 4)
    (demo_block 10) 599999 1640995000 _ _
    (default [] (Rmd160.calc_rmd160_sha256 demo_md demo_md (nth 0 (season_keys 7) []))) 0 (demo_after 10)
    eq_refl ltac:(lia) demo_ready demo_keys _ _ (demo_connect_some 10 _)).
  - vm_compute. reflexivity.
  - intros [|[|n]] t Hn; [injection Hn as <-; vm_compute; reflexivity..|done].
  - vm_compute. reflexivity.
Defined.
