(* ===== verification/Restart.v ===== *)
(** * Restarting a node

    What [hush_connectblock] (Connect.v) does to a node is what the state file
    (StateFile.v) remembers: a node that has connected blocks, reorganised and
    checked others, and that is started again from the file it wrote, has the
    notarization, Merkle data, checkpoints, event log, saved height, key-value table
    and notary keys it had.  The proof follows the code of [hush_connectblock]
    through its calls of [hush_stateupdate] and the assignments between them. *)
From Stdlib Require Import String.
From S2P Require Import Prelude HashStream Ripemd160 Encoding NotaryList Notarized Notary KV Events StateFile Merkle CCData Signing Connect.
Local Open Scope string_scope.
Local Open Scope list_scope.
Local Open Scope Z_scope.

(** ** Nodes and blocks that are covered *)

(** A chain with a name that is not a currency, followed by a node that is not a notary and
    not in regtest mode. *)
Class Follower (X : connect_env) : Prop := {
  fo_named : SYMBOL (ce_chain X) <> [];
  fo_base : hush_baseid (SYMBOL (ce_chain X)) < 0;
  fo_length : (length (SYMBOL (ce_chain X)) <= 65)%nat;
  fo_plain : IS_HUSH_NOTARY (ce_chain X) = false;
  fo_regtest : ce_regtest X = false
}.

(** The length that an OP_RETURN declares stays within [scriptbuf], which the code does not check. *)
Definition opret_fits (size : Z) (o : txout) : Prop :=
  rd (vo_script o) 0 = 0x6a ->
  let '(opretlen, len) := opret_header (vo_script o) in Z.of_nat len + u16 opretlen <= size.

(** A payment to the key that makes a transaction a ratification of notary keys. *)
Definition special (o : txout) : bool :=
  (Zlen (vo_script o) =? 35) && (rd (vo_script o) 0 =? 33) && (rd (vo_script o) 34 =? 0xac)
  && bool_decide (crypto555 = take 33 (drop 1 (vo_script o))).

(** Ratified keys are loaded only with [HUSH_EXTERNAL_NOTARIES], which nothing sets. *)
Definition tx_fits (X : connect_env) (size : Z) (t : tx) : Prop :=
  length (tx_hash t) = 32%nat /\ Forall (opret_fits size) (tx_vout t) /\
  (EXTERNAL_NOTARIES (ce_chain X) = true \/ Forall (fun o => special o = false) (tx_vout t)).

(** The node has opened its state file and set up its keys. *)
Definition started (c : cnode) : Prop :=
  (exists data, cn_file c = StateFile (Some data) true) /\ ns_didinit (n_notary (cn_node c)) = true /\
  summary_ok (n_sp (cn_node c)).

Section Kept.
Context (X : connect_env) `{HF : !Follower X}.
Let E := ce_chain X.

(** The step is in the file. *)
Definition kept (c c1 : cnode) : Prop :=
  started c -> started c1 /\ logged E (cn_node c) (cn_file c) (cn_node c1) (cn_file c1).

Lemma kept_trans c c1 c2 : kept c c1 -> kept c1 c2 -> kept c c2.
Proof using. intros H1 H2 Hs. destruct (H1 Hs) as [Hs1 L1]. destruct (H2 Hs1) as [Hs2 L2]. split; [done|by eapply logged_trans]. Qed.

(** Assignments to what is not saved. *)
Lemma kept_same c c1 : cn_file c1 = cn_file c -> saved (cn_node c1) = saved (cn_node c) -> kept c c1.
Proof using.
  intros Hf Hs (Hd & Hi & Hok). rewrite Hf. split; [|by apply logged_same].
  apply eq_sym, saved_inv in Hs as (current & last & m & p & Hs). unfold started. rewrite Hf, Hs. done.
Qed.

Lemma kept_refl c : kept c c.
Proof using. by apply kept_same. Qed.

Lemma update_started c w a w1 f1 :
  started c -> summary_ok (n_sp w) -> n_notary w = n_notary (cn_node c) ->
  hush_stateupdate E w (cn_file c) a = Some (w1, f1) -> started (set_file f1 (set_node w1 c)).
Proof using HF.
  intros ((data & Hf) & Hi & _) Hok Hn. rewrite Hf. unfold hush_stateupdate, state_open. cbn [sf_open mbind option_bind].
  destruct (_ <=? 0); [intros [= <- <-]; split; [by exists data|split; [cbn; by rewrite Hn|done]]|].
  destruct (write_record E w a) as [[w' b]|] eqn:Ew; [|done]. cbn [mbind option_bind]. intros [= <- <-].
  apply write_record_ok in Ew as [Hok' Hi']; [|apply fo_named|apply fo_base|done].
  split; [by eexists|]. split; [cbn; by rewrite Hi', Hn|done].
Qed.

Lemma upd_kept c a c1 :
  (summary_ok (n_sp (cn_node c)) -> args_ok E (cn_node c) a) -> upd X c a = Some c1 -> kept c c1.
Proof using HF.
  intros Ha Hu Hs. unfold upd in Hu. fold E in Hu.
  destruct (hush_stateupdate E (cn_node c) (cn_file c) a) as [[w f]|] eqn:Eu; [|done].
  cbn [mbind option_bind] in Hu. injection Hu as <-. split; [eapply update_started; [done|apply Hs|done|exact Eu]|].
  eapply logged_update; [apply fo_named|apply fo_base| |exact Eu]. apply Ha, Hs.
Qed.

(** ** The calls of [hush_stateupdate] *)

Lemma R_args_ok c height txhash value buf len opretlen j :
  is_s32 height -> length txhash = 32%nat -> Z.of_nat len + u16 opretlen <= Zlen buf -> summary_ok (n_sp (cn_node c)) ->
  args_ok E (cn_node c) (R_args height txhash (u64 value) (drop len buf) opretlen j).
Proof using.
  intros Hh Ht Hl Hok. unfold args_ok, R_args. cbn [ua_height ua_HUSHheight ua_HUSHtimestamp ua_txhash ua_vout ua_opretvalue ua_opretlen ua_opretbuf ua_notarypubs ua_pvals].
  pose proof (u16_range opretlen). pose proof (u16_range j). pose proof (u64_range value).
  split_and!; try done; try (unfold is_u, is_s32 in *; lia).
  intros b [= <-]. unfold Zlen in *. rewrite length_drop. lia.
Qed.

Lemma N_args_ok c height : is_s32 height -> summary_ok (n_sp (cn_node c)) -> args_ok E (cn_node c) (N_args height).
Proof using. intros Hh Hok. unfold args_ok, N_args. cbn. split_and!; try done; unfold is_u, is_s32 in *; lia. Qed.

Lemma H_args_ok c height ts :
  is_s32 height -> is_u 32 ts -> summary_ok (n_sp (cn_node c)) -> args_ok E (cn_node c) (H_args height height ts).
Proof using. intros Hh Ht Hok. unfold args_ok, H_args. cbn. split_and!; try done; unfold is_u, is_s32 in *; lia. Qed.

Lemma ratified_keys_length vouts : Forall (fun k => length k = 33%nat) (ratified_keys vouts).
Proof using.
  apply List.Forall_forall. intros k Hk%list_elem_of_In. unfold ratified_keys in Hk.
  apply list_elem_of_omap in Hk as (o & _ & Ho). destruct (Nat.eqb_spec (length (vo_script o)) 35) as [Hl|]; [|done].
  cbn [andb] in Ho. destruct (_ && _); [|done]. injection Ho as <-. rewrite length_take, length_drop. lia.
Qed.

Lemma ratify_kept c height num mask vouts c1 keys :
  EXTERNAL_NOTARIES E = true -> is_s32 height -> ratify X c height num mask vouts = Some (c1, keys) -> kept c c1.
Proof using HF.
  intros Hext Hh. unfold ratify. destruct (Z.ltb_spec 64 (Zlen (ratified_keys vouts))) as [|Hk]; [done|].
  destruct (_ && _); [|intros [= <- <-]; apply kept_refl].
  destruct (upd _ _ _) as [c2|] eqn:Eu; [|done]. cbn [mbind option_bind]. intros [= <- <-].
  eapply upd_kept; [|exact Eu]. intros Hok. pose proof (ratified_keys_length vouts) as Hall.
  unfold args_ok, P_args. cbn [ua_height ua_HUSHheight ua_HUSHtimestamp ua_txhash ua_vout ua_opretvalue ua_opretlen ua_opretbuf ua_notarypubs ua_numnotaries ua_pvals].
  split_and!; try done; try (unfold is_u, is_s32 in *; lia).
  assert (u8 (Zlen (ratified_keys vouts)) = Zlen (ratified_keys vouts)) as -> by (apply u8_id; unfold byte_ok, Zlen in *; lia).
  intros pubs [= <-]. unfold Zlen in *. rewrite length_app, length_replicate.
  split_and!; try lia; [|done|apply fo_named].
  apply Forall_app. split; [done|]. by apply Forall_replicate.
Qed.

Lemma record_kept c height nh srchash desttxid MoM depth c1 :
  0 < height -> is_s32 height -> is_s32 nh -> nh < height -> length srchash = 32%nat -> length desttxid = 32%nat ->
  length MoM = 32%nat -> is_s32 depth ->
  record_notarization X c height nh srchash desttxid MoM depth = Some c1 -> kept c c1.
Proof using HF.
  intros Hh Hs Hn Hlt Hl1 Hl2 Hl3 Hd. unfold record_notarization.
  set (sp1 := if negb (bool_decide (MoM = zero256)) && (0 <? Z.land depth 0xffff) then _ else _). intros Hu Hst. destruct (Hst) as (_ & _ & K1 & K2 & K3 & K4 & K5 & K6).
  assert (exists M d, sp1 = set_MoM M d (set_notarized nh srchash desttxid (n_sp (cn_node c))) /\ summary_ok sp1) as (M & d & Hsp & Hok).
  { unfold sp1. destruct (_ && _) eqn:Eb.
    - exists MoM, depth. split; [done|]. apply andb_prop in Eb as [E1%negb_true_iff%bool_decide_eq_false E2%Z.ltb_lt].
      split_and!; try done. cbn. split; [intros ->; by rewrite Z.land_0_l in E2|done].
    - exists (sp_MoM (n_sp (cn_node c))), (sp_MoMdepth (n_sp (cn_node c))). by destruct (n_sp (cn_node c)). }
  unfold upd in Hu. fold E in Hu. cbn [cn_node cn_file set_node] in Hu.
  destruct (hush_stateupdate E _ _ _) as [[w f]|] eqn:Eu; [|done]. cbn [mbind option_bind] in Hu. injection Hu as <-. split.
  - by apply (update_started c (with_sp sp1 (cn_node c)) _ _ _ Hst Hok eq_refl Eu).
  - rewrite Hsp in Eu, Hok. by eapply logged_notarized; [apply fo_plain| | | | |exact Eu].
Qed.

Lemma connect_height_kept fJust c height nTime c1 :
  0 < height -> is_s32 height -> is_u 32 nTime -> connect_height X fJust c height nTime = Some c1 -> kept c c1.
Proof using HF.
  intros Hh Hs Ht. unfold connect_height. destruct (_ <? height); [intros [= <-]; by apply kept_same|].
  set (c2 := if negb _ then _ else _). assert (cn_file c2 = cn_file c /\ cn_node c2 = cn_node c) as [Ef En] by (unfold c2; by destruct (negb _)).
  intros H. eapply kept_trans with (c1 := c2); [apply kept_same; [done|by rewrite En]|].
  destruct fJust; [injection H as <-; apply kept_refl|]. clearbody c2. clear Ef En. intros Hst. revert H. 
  unfold upd. fold E. cbn [cn_node cn_file set_node].
  destruct (hush_stateupdate E _ _ _) as [[w f]|] eqn:Eu; [|done]. cbn [mbind option_bind]. intros [= <-].
  destruct Hst as (Hd & Hi & Hok). split.
  - eapply (update_started c2); [done| | |exact Eu]; rewrite rewind_named by (apply fo_named || apply fo_base); [|done].
    cbn [n_sp with_sp]. destruct (rewind_loop_frame height (rev (Hush_events (n_sp (cn_node c2)))) (n_sp (cn_node c2))) as [(_ & H1 & H2 & H3 & H4 & H5 & _) _].
    unfold summary_ok. by rewrite H1, H2, H3, H4, H5.
  - by eapply logged_rewind; [apply fo_named|apply fo_base| | | | |exact Eu].
Qed.

(** ** Outputs *)

(** A pay-to-pubkey output changes nothing that is saved once the key tables are set up. *)
Lemma chosennotary_same sym priv p2a stamp upd cfg cache s height key ts :
  ns_didinit s = true ->
  (hush_chosennotary sym priv p2a stamp upd cfg cache s tt height key ts).2.1.2 = s.
Proof using.
  intros Hi. unfold hush_chosennotary. destruct (height <? 0); [done|].
  destruct (if (_ : bool) then _ else _) as [[found id] cache1]. destruct found; [done|].
  destruct (250000 <=? height); [done|].
  assert ((match Pubkeys s with None => hush_init upd cfg 0 s tt | Some _ => (s, tt) end) = (s, tt)) as ->
    by (destruct (Pubkeys s); [done|]; unfold hush_init; by rewrite Hi).
  destruct (list_find _ _) as [[? [? ?]]|]; [|done]. by repeat case_match.
Qed.

Lemma p2pk_kept st buf slen height i j ts : kept (v_node st) (v_node (vout_p2pk X st buf slen height i j ts)).
Proof using.
  intros Hst. revert Hst. unfold vout_p2pk. destruct (_ && _ && _); [|apply kept_refl].
  set (w := if _ && IS_HUSH_NOTARY (ce_chain X) then _ else _).
  assert (saved w = saved (cn_node (v_node st)) /\ n_notary w = n_notary (cn_node (v_node st))) as [Hw Hn]
    by (unfold w; destruct (_ && _); split; by destruct (cn_node (v_node st))).
  clearbody w. case_bool_decide; [by apply kept_same|]. intros Hst.
  pose proof (chosennotary_same (SYMBOL (ce_chain X)) (ce_private X) (ce_pubkey2addr X) (ce_heightstamp X) (fun u : unit => u)
    (ce_PUBKEY X) (cn_cache (v_node st)) (n_notary w) height (take 33 (drop 1 buf)) ts) as Hc.
  destruct (hush_chosennotary _ _ _ _ _ _ _ _ _ _ _ _) as [[r nid] [[cache s] u]]. cbn [fst snd] in Hc.
  rewrite Hc by (rewrite Hn; apply Hst). revert Hst. repeat case_match; (apply kept_same; [done|]; cbn; by destruct w).
Qed.

Lemma other_kept st buf len opretlen height txhash j value mask st' :
  is_s32 height -> length txhash = 32%nat -> Z.of_nat len + u16 opretlen <= Zlen buf ->
  vout_other X st buf len opretlen height txhash j (u64 value) mask = Some st' -> kept (v_node st) (v_node st').
Proof using HF.
  intros Hh Ht Hl. unfold vout_other. cbn [v_node]. destruct (_ && _); [|intros [= <-]; apply kept_refl].
  destruct (upd _ _ _) as [c|] eqn:Eu; [|done]. intros [= <-]. eapply upd_kept; [|exact Eu]. by apply R_args_ok.
Qed.

Lemma read_MoM_ok buf len opoffset opretlen nh MoM depth :
  (len + 32 <= length buf)%nat -> read_MoM buf len opoffset opretlen nh = (MoM, depth) -> length MoM = 32%nat /\ is_s32 depth.
Proof using.
  intros Hl. unfold read_MoM. pose proof (s32_range (dragon_rwnum false (drop (len + 32) buf) 4 0).2).
  assert (is_s32 0) by (unfold is_s32; lia).
  destruct (_ <=? _); [destruct (_ || _)|]; intros [= <- <-]; split; try done. rewrite length_take, length_drop. lia.
Qed.

Lemma notarization_kept fJust st buf len opretlen height notarized mask early st' matched :
  0 < height -> is_s32 height -> (len <= 4)%nat -> (200 <= length buf)%nat ->
  (matched = true -> cstring (drop (len + 68) buf) = SYMBOL E) ->
  vout_notarization X fJust st buf len opretlen height matched notarized mask = Some (early, st') ->
  kept (v_node st) (v_node st').
Proof using HF.
  intros Hh Hs Hlen Hbuf Hname. destruct matched; [specialize (Hname eq_refl)|intros ->%unmatched_step; apply kept_refl].
  unfold vout_notarization. rewrite Hname. cbn [v_node v_set_height]. set (hash := take 32 (drop len buf)).
  set (nh := s32 (dragon_rwnum false (drop (len + 32) buf) 4 0).2).
  destruct (hush_validate_chain X (v_node st) hash nh) as [[r c]|] eqn:Ev; [|done].
  apply validate_quiet in Ev as (Hn & Hf & _). cbn [mbind option_bind].
  assert (kept (v_node st) c) as Hk by (apply kept_same; [done|by rewrite Hn]).
  destruct (fJust && true); [by intros [= <- <-]|]. destruct (_ && negb _); [|by intros [= <- <-]].
  pose proof (fo_length (X := X)) as Hsym. fold E in Hsym.
  destruct (read_MoM _ _ _ _ _) as [MoM depth] eqn:EM. apply read_MoM_ok in EM as [Hm Hd]; [|lia].
  destruct (_ <? nh); [|by intros [= <- <-]]. cbn [andb]. destruct (Z.ltb_spec nh height); [|by intros [= <- <-]].
  destruct (record_notarization _ _ _ _ _ _ _ _) as [c1|] eqn:Er; [|done]. cbn [mbind option_bind]. intros [= <- <-].
  cbn [v_node v_set_node]. eapply kept_trans; [exact Hk|]. eapply record_kept; [..|exact Er]; try done.
  - apply s32_range.
  - unfold hash. rewrite length_take, length_drop. lia.
  - rewrite length_take, length_drop. lia.
Qed.

Lemma voutupdate_kept fJust st buf slen height txhash i j value notarized mask ts ret st' :
  0 < height -> is_s32 height -> length txhash = 32%nat -> (200 <= length buf)%nat ->
  (rd buf 0 = 0x6a -> let '(opretlen, len) := opret_header buf in Z.of_nat len + u16 opretlen <= Zlen buf) ->
  hush_voutupdate X fJust st buf slen height txhash i j (u64 value) notarized mask ts = Some (ret, st') ->
  kept (v_node st) (v_node st').
Proof using HF.
  intros Hh Hs Ht Hbuf Hfit. unfold hush_voutupdate. fold E.
  pose proof (p2pk_kept st buf slen height i j ts) as Hp. set (st1 := vout_p2pk _ _ _ _ _ _ _ _) in *.
  assert (forall st2, kept (v_node st1) (v_node st2) -> kept (v_node st) (v_node st2)) as Hthen by (intros st2; by apply kept_trans).
  clearbody st1. destruct (Z.eqb_spec (rd buf 0) 0x6a) as [E6|]; [|by intros [= <- <-]]. specialize (Hfit E6).
  assert ((opret_header buf).2 <= 4)%nat as Hl4 by (unfold opret_header; repeat case_match; cbn; lia).
  destruct (opret_header buf) as [opretlen len]. cbn [snd] in Hl4.
  destruct ((match SYMBOL E with [] => _ | _ => _ end) && (_ =? 75)).
  { destruct (upd _ _ _) as [c|] eqn:Eu; [|done]. intros [= <- <-]. apply Hthen. cbn [v_node v_set_node].
    eapply upd_kept; [|exact Eu]. by apply R_args_ok. }
  set (matched := _ && bool_decide _).
  assert (matched = true -> cstring (drop (len + 68) buf) = SYMBOL E) as Hm
    by (intros [_ Hb%bool_decide_eq_true]%andb_prop; done).
  clearbody matched. destruct (_ && (_ <=? opretlen)).
  { destruct (vout_notarization _ _ _ _ _ _ _ _ _ _) as [[early st2]|] eqn:En; [|done].
    intros [= <- <-]. apply Hthen. by eapply notarization_kept. }
  destruct (_ && (opretlen =? 149)); [by intros [= <- <-]|]. destruct matched; [|by intros [= <- <-]].
  destruct (vout_other _ _ _ _ _ _ _ _ _ _) as [st2|] eqn:Eo; [|done]. intros [= <- <-]. apply Hthen.
  by eapply other_kept.
Qed.

(** ** Blocks *)

Lemma memcpy_grows buf script : (length buf <= length (memcpy_at buf 0 script))%nat.
Proof using. unfold memcpy_at. change (take 0 buf) with (@nil Z). rewrite app_nil_l, length_app, length_drop. lia. Qed.

Lemma opret_header_copied buf script :
  4 <= Zlen script -> rd (memcpy_at buf 0 script) 0 = rd script 0 /\ opret_header (memcpy_at buf 0 script) = opret_header script.
Proof using.
  intros Hl. assert (forall i, (i < 4)%nat -> rd (memcpy_at buf 0 script) i = rd script i) as Hrd.
  { intros i Hi. unfold rd, memcpy_at. change (take 0 buf) with (@nil Z). rewrite app_nil_l. apply app_nth1. unfold Zlen in Hl. lia. }
  unfold opret_header. by rewrite !Hrd by lia.
Qed.

Lemma vout_loop_kept size fJust vouts j height txhash i notarized mask ts st buf ns st' buf' ns' :
  0 < height -> is_s32 height -> length txhash = 32%nat -> 200 <= size <= Zlen buf -> Forall (opret_fits size) vouts ->
  vout_loop X fJust vouts j height txhash i notarized mask ts st buf ns = Some (st', buf', ns') ->
  kept (v_node st) (v_node st') /\ size <= Zlen buf'.
Proof using HF.
  intros Hh Hs Ht. revert j st buf ns. induction vouts as [|o vouts IH]; intros j st buf ns Hb Hf; cbn [vout_loop].
  { intros [= <- <- <-]. split; [apply kept_refl|lia]. }
  apply Forall_cons in Hf as [Ho Hf]. destruct (Z.leb_spec 4 (Zlen (vo_script o))) as [H4|]; [|by apply IH].
  destruct (_ <=? 10001); [|by apply IH]. cbn [andb].
  destruct (hush_voutupdate _ _ _ _ _ _ _ _ _ _ _ _ _) as [[ret st1]|] eqn:Ev; [|done]. cbn [mbind option_bind].
  pose proof (memcpy_grows buf (vo_script o)) as Hg.
  intros Hl. apply IH in Hl as [Hk Hz]; [|unfold Zlen in *; lia|done]. split; [|done].
  cbn [v_node v_set_id] in Hk. eapply kept_trans; [|exact Hk]. eapply voutupdate_kept; [done|done|exact Ht| | |exact Ev]; [unfold Zlen in *; lia|].
  destruct (opret_header_copied buf _ H4) as [-> ->]. intros E6. specialize (Ho E6).
  destruct (opret_header (vo_script o)). unfold Zlen in *. lia.
Qed.

Lemma p2pk_special st buf slen height i j ts :
  v_specialtx (vout_p2pk X st buf slen height i j ts) =
  v_specialtx st || ((slen =? 35) && (rd buf 0 =? 33) && (rd buf 34 =? 0xac) && bool_decide (crypto555 = take 33 (drop 1 buf))).
Proof using.
  unfold vout_p2pk. destruct (_ && _ && _); cbn [andb]; [|by rewrite orb_false_r].
  destruct (bool_decide (crypto555 = _)); [by rewrite orb_true_r|]. rewrite orb_false_r.
  destruct (hush_chosennotary _ _ _ _ _ _ _ _ _ _ _ _) as [[r nid] [[cache s] u]]. by repeat case_match.
Qed.

Lemma voutupdate_special fJust st buf slen height txhash i j value notarized mask ts ret st' :
  hush_voutupdate X fJust st buf slen height txhash i j value notarized mask ts = Some (ret, st') ->
  v_specialtx st' = v_specialtx (vout_p2pk X st buf slen height i j ts).
Proof using.
  unfold hush_voutupdate. set (st1 := vout_p2pk _ _ _ _ _ _ _ _). clearbody st1.
  destruct (_ =? 0x6a); [|by intros [= <- <-]]. destruct (opret_header buf) as [opretlen len].
  destruct (_ && (_ =? 75)); [destruct (upd _ _ _); [|done]; by intros [= <- <-]|].
  set (matched := _ && bool_decide _). clearbody matched. destruct (_ && (_ <=? opretlen)).
  { destruct (vout_notarization _ _ _ _ _ _ _ _ _ _) as [[early st2]|] eqn:En; [|done]. intros [= _ <-]. revert En.
    unfold vout_notarization. destruct (if matched then hush_validate_chain _ _ _ _ else _) as [[v c]|]; [|done].
    cbn [mbind option_bind]. destruct (_ && matched); [by intros [= _ <-]|]. destruct (_ && negb _); [|by intros [= _ <-]].
    destruct (read_MoM _ _ _ _ _) as [MoM depth]. destruct (_ && (_ <? height)); [|by intros [= _ <-]].
    destruct (record_notarization _ _ _ _ _ _ _ _); [|done]. by intros [= _ <-]. }
  destruct (_ && (opretlen =? 149)); [by intros [= <- <-]|]. destruct matched; [|by intros [= <- <-]].
  unfold vout_other. destruct (_ && _); [destruct (upd _ _ _); [|done]|]; by intros [= <- <-].
Qed.

Lemma vout_loop_special fJust vouts j height txhash i notarized mask ts st buf ns st' buf' ns' :
  Forall (fun o => special o = false) vouts -> v_specialtx st = false ->
  vout_loop X fJust vouts j height txhash i notarized mask ts st buf ns = Some (st', buf', ns') -> v_specialtx st' = false.
Proof using.
  intros Hno. revert j st buf ns. induction Hno as [|o vouts Ho _ IH]; intros j st buf ns Hst; cbn [vout_loop].
  { by intros [= <- <- <-]. }
  destruct (_ && _); [|by apply IH].
  destruct (hush_voutupdate _ _ _ _ _ _ _ _ _ _ _ _ _) as [[ret st1]|] eqn:Ev; [|done]. cbn [mbind option_bind].
  apply voutupdate_special in Ev. rewrite p2pk_special, Hst in Ev. cbn [orb] in Ev. apply IH. cbn [v_specialtx v_set_id]. rewrite Ev.
  unfold special in Ho. destruct (Z.eqb_spec (Zlen (vo_script o)) 35) as [H35|]; [|done]. rewrite <- Ho. cbn [andb].
  unfold memcpy_at. change (take 0 buf) with (@nil Z). rewrite app_nil_l. unfold Zlen in H35.
  unfold rd. rewrite !app_nth1 by lia. rewrite drop_app_le, take_app_le by (rewrite ?length_drop; lia). done.
Qed.

Lemma ratify_buf_grows vouts buf : Zlen buf <= Zlen (ratify_buf vouts buf).
Proof using.
  unfold ratify_buf. generalize (removelast (drop 1 vouts)) as l. intros l. revert buf.
  induction l as [|o l IH]; intros buf; cbn [foldl]; [lia|]. etrans; [|apply IH].
  destruct (_ && _); [|lia]. pose proof (memcpy_grows buf (vo_script o)). unfold Zlen. lia.
Qed.

Lemma connect_tx_kept size fJust k t i height num rmd160 hash ts k' :
  0 < height -> is_s32 height -> 200 <= size <= Zlen (k_scriptbuf k) -> tx_fits X size t ->
  connect_tx X fJust k t i height num rmd160 hash ts = Some k' ->
  kept (k_node k) (k_node k') /\ size <= Zlen (k_scriptbuf k').
Proof using HF.
  intros Hh Hs Hb (Ht & Hf & Hsp). unfold connect_tx. rewrite fo_regtest. cbn [andb].
  destruct (vout_loop _ _ _ _ _ _ _ _ _ _ _ _ _) as [[[st buf] ns]|] eqn:El; [|done]. cbn [mbind option_bind].
  eapply vout_loop_kept in El as K; [|done..]. destruct K as [Hk Hz]. cbn [v_node] in Hk.
  destruct Hsp as [Hext|Hno].
  2: { apply vout_loop_special in El; [|done..]. rewrite El, andb_false_r. cbn [andb]. by intros [= <-]. }
  destruct (_ && _); [|by intros [= <-]].
  destruct (ratify _ _ _ _ _ _) as [[c keys]|] eqn:Er; [|done]. cbn [mbind option_bind]. intros [= <-]. cbn [k_node k_scriptbuf].
  pose proof (ratify_buf_grows (tx_vout t) buf). split; [|lia]. eapply kept_trans; [exact Hk|]. by eapply ratify_kept.
Qed.

Lemma tx_loop_kept size fJust vtx i height num rmd160 hash ts k k' :
  0 < height -> is_s32 height -> 200 <= size <= Zlen (k_scriptbuf k) -> Forall (tx_fits X size) vtx ->
  tx_loop X fJust vtx i height num rmd160 hash ts k = Some k' -> kept (k_node k) (k_node k').
Proof using HF.
  intros Hh Hs Hb Hf. revert i k Hb. induction Hf as [|t vtx Ht _ IH]; intros i k Hb; cbn [tx_loop].
  { intros [= <-]. apply kept_refl. }
  destruct (_ && _); [intros [= <-]; apply kept_refl|].
  destruct (connect_tx _ _ _ _ _ _ _ _ _ _) as [k1|] eqn:Ec; [|done]. cbn [mbind option_bind].
  eapply connect_tx_kept in Ec as [Hk Hz]; [|done..]. intros Hl. eapply kept_trans; [exact Hk|]. eapply IH; [|exact Hl]. lia.
Qed.

(** A call of [hush_connectblock], to connect a block or only to check it, at, above or below the
    highest block seen. *)
Lemma connectblock_kept md buf junk fJust c height nTime hash vtx tip ts r c' :
  0 < height -> is_s32 height -> is_u 32 nTime -> 200 <= Zlen buf -> Forall (tx_fits X (Zlen buf)) vtx ->
  hush_connectblock X md buf junk fJust c height nTime hash vtx tip ts = Some (r, c') -> kept c c'.
Proof using HF.
  intros Hh Hs Ht Hb Hf Hc Hst. revert Hc.
  destruct (Hst) as (_ & Hi & _). unfold hush_connectblock, node_init, hush_init. rewrite Hi. fold E.
  cbn [negb fst mbind option_bind cn_cache set_node].
  destruct (hush_notaries _ _ _ _ _ _ _) as [[keys num] cache].
  destruct (Rmd160.calc_rmd160_sha256 _ _ _) as [rmd160|]; [|done]. cbn [mbind option_bind].
  set (c0 := set_cache _ _). assert (kept c c0) as H0 by (apply kept_same; [done|by destruct (cn_node c)]).
  destruct (connect_height _ _ _ _ _) as [c1|] eqn:E1; [|done]. cbn [mbind option_bind].
  apply connect_height_kept in E1 as H1; [|done..].
  set (c2 := set_node (hush_currentheight_set _ _) c1).
  assert (kept c1 c2) as H2 by (apply kept_same; [done|by destruct (cn_node c1) as [[] ? ? ? ?]]).
  destruct (tx_loop _ _ _ _ _ _ _ _ _ _) as [k|] eqn:El; [|done]. cbn [mbind option_bind].
  eapply tx_loop_kept in El as H3; [|done|done| |done]; [|cbn; lia]. cbn [k_node] in H3.
  assert (kept c (k_node k)) as Hk by (apply (kept_trans c c0); [done|]; apply (kept_trans c0 c1); [done|]; by apply (kept_trans c1 c2)).
  destruct (_ && _); [|intros [= _ <-]; by apply Hk].
  destruct (upd _ _ _) as [c3|] eqn:Eu; [|done]. intros [= _ <-]. revert Hst. eapply kept_trans; [exact Hk|].
  eapply upd_kept; [|exact Eu]. apply H_args_ok; [done|]. by rewrite u32_id.
Qed.

End Kept.

(** ** Histories of a node *)

(** A process that has not called [hush_init] yet and has no state file. *)
Record fresh (c : cnode) : Prop := Fresh {
  fr_init : ns_didinit (n_notary (cn_node c)) = false;
  fr_file : cn_file c = StateFile None false;
  fr_summary : summary_ok (n_sp (cn_node c))
}.

(** The process [c0] started again on the file that [c] left. *)
Definition restart (X : connect_env) (c0 c : cnode) (height : Z) : option cnode :=
  node_init X (set_file (StateFile (sf_disk (cn_file c)) false) c0) height.

(** From the first start: blocks connected or checked, at any height in any order, and
    restarts. *)
Inductive history (X : connect_env) (c0 : cnode) : cnode -> Prop :=
| first_start h c : 0 <= h -> node_init X c0 h = Some c -> history X c0 c
| next_block md buf junk fJustCheck c height nTime hash vtx tip ts r c' :
    history X c0 c -> 0 < height -> is_s32 height -> is_u 32 nTime ->
    200 <= Zlen buf -> Forall (tx_fits X (Zlen buf)) vtx ->
    hush_connectblock X md buf junk fJustCheck c height nTime hash vtx tip ts = Some (r, c') -> history X c0 c'
| next_start h c c' : history X c0 c -> 0 <= h -> restart X c0 c h = Some c' -> history X c0 c'.

Section Restart.
Context (X : connect_env) `{HF : !Follower X} (c0 : cnode) (Hc0 : fresh c0).
Let E := ce_chain X.

(** The node after [hush_init] has set up the keys. *)
Let w0 : node := with_notary (hush_init (fun u : unit => u) (ce_PUBKEY X) 0 (n_notary (cn_node c0)) tt).1 (cn_node c0).

Lemma node_init_fresh f h :
  0 <= h -> node_init X (set_file f c0) h = upd X (set_node w0 (set_file f c0)) idle_args.
Proof using Hc0.
  intros Hh. unfold node_init. cbn [cn_node set_file]. rewrite (fr_init _ Hc0). cbn [negb]. unfold w0, hush_init.
  rewrite (fr_init _ Hc0). by rewrite (proj2 (Z.leb_le 0 h) Hh).
Qed.

Lemma w0_started c : n_notary (cn_node c) = n_notary w0 -> n_sp (cn_node c) = n_sp w0 ->
  (exists data, cn_file c = StateFile (Some data) true) -> started c.
Proof using Hc0.
  intros Hn Hs Hf. split; [done|]. rewrite Hn, Hs. split; [|apply Hc0]. unfold w0, hush_init. by rewrite (fr_init _ Hc0).
Qed.

(** Every state of a history is the replay of its file. *)
Lemma restart_replays c h :
  logged E w0 (StateFile (Some []) true) (cn_node c) (cn_file c) -> started c -> 0 <= h ->
  exists c', restart X c0 c h = Some c' /\ cn_file c' = cn_file c /\ saved (cn_node c') = saved (cn_node c).
Proof using Hc0.
  intros Hl Hst Hh. destruct (logged_restart E w0 (cn_node c) (cn_file c) idle_args Hl ltac:(done)) as (w' & Hu & Hw').
  unfold restart. rewrite node_init_fresh by done. unfold upd. cbn [cn_node cn_file set_node set_file]. fold E. rewrite Hu.
  cbn [mbind option_bind]. by eexists.
Qed.

Lemma history_logged c :
  history X c0 c -> started c /\ logged E w0 (StateFile (Some []) true) (cn_node c) (cn_file c).
Proof using HF Hc0.
  induction 1 as [h c Hh Hi|md buf junk fJust c height nTime hash vtx tip ts r c' _ [Hst Hl] H1 H2 H3 H4 H5 Hc|h c c' _ [Hst Hl] Hh Hr].
  - replace c0 with (set_file (StateFile None false) c0) in Hi by (destruct c0; cbn in *; by rewrite <- (fr_file _ Hc0)).
    rewrite node_init_fresh in Hi by done. unfold upd, hush_stateupdate, state_open in Hi. cbn [sf_open sf_disk cn_file set_file set_node] in Hi.
    rewrite (surjective_pairing (hush_nameset _)) in Hi. injection Hi as <-. split; [by apply w0_started; [..|eexists]|by apply logged_same].
  - destruct (connectblock_kept X _ _ _ _ _ _ _ _ _ _ _ _ _ H1 H2 H3 H4 H5 Hc Hst) as [Hst' Hl']. split; [done|by eapply logged_trans].
  - destruct (restart_replays c h Hl Hst Hh) as (c1 & Hr1 & Hf & Hs). rewrite Hr in Hr1. injection Hr1 as <-.
    destruct (kept_same X c c' Hf Hs Hst) as [Hst' Hl']. split; [done|by eapply logged_trans].
Qed.
End Restart.


(** A node as the code runs it: not a notary, HUSH_EXTERNAL_NOTARIES zero. *)
Definition follow_X : connect_env :=
  ConnectEnv (ChainEnv (chars "HUSH3") false false (fun _ _ _ _ _ _ => 0) (fun _ _ _ => false) (fun _ _ _ _ _ w => w) (replicate 6 0))
    false (fun k => k) (fun _ => 0) false (fun h => if bool_decide (h = replicate 32 7) then Some 599990 else None) 0 false false [].

(** A first start, block 600000 with a notarization of block 599990 by 11 notaries, and another
    block 600000 in its place. *)
Definition demo_fresh : cnode :=
  CNode demo_node (StateFile None false) (NotaryCache (replicate 8 []) (replicate 8 false) (replicate 8 [])) [] 0 0.
Definition demo_c1 : cnode := default demo_fresh (node_init follow_X demo_fresh 0).
Definition demo_next (c : cnode) (n : nat) : option (Z * cnode) :=
  hush_connectblock follow_X demo_md (replicate 200 0) [] false c 600000 1640995200 (replicate 32 4) (demo_block n) 599999 1640995000.
Definition demo_c2 : cnode := (default (-7, demo_fresh) (demo_next demo_c1 11)).2.
Definition demo_c3 : cnode := (default (-7, demo_fresh) (demo_next demo_c2 1)).2.

#[export] Instance demo_follower : Follower follow_X.
Proof. by split; vm_compute; (discriminate || lia || reflexivity). Qed.

Lemma demo_next_some c n :
  (default (-7, demo_fresh) (demo_next c n)).1 = 0 -> demo_next c n = Some (0, (default (-7, demo_fresh) (demo_next c n)).2).
Proof.
  destruct (demo_next c n) as [[r c']|]; [|discriminate]. cbn [default from_option id fst snd]. by intros ->.
Qed.

Lemma demo_fits n : Forall (tx_fits follow_X (Zlen (replicate 200 0))) (demo_block n).
Proof.
  assert (forall o, rd (vo_script o) 0 = 33 -> opret_fits (Zlen (replicate 200 0)) o) as Hkey
    by (intros o Hr Ho; rewrite Hr in Ho; discriminate).
  assert (special (TxOut 5 (33 :: replicate 33 2 ++ [0xac])) = false) as Hno by (vm_compute; reflexivity).
  constructor; [|constructor; [|constructor]]; (split; [done|]; split; [|right]); repeat constructor; try (by apply Hkey); try exact Hno.
  intros _. vm_compute. discriminate.
Qed.


(** Keys that a block ratifies are written to the file, but with HUSH_EXTERNAL_NOTARIES zero the
    parser skips the record: the running node has the event and the keys, the restarted one has
    neither. *)
Lemma ratification_lost :
  let E := ce_chain follow_X in
  exists w f w', hush_stateupdate E demo_node demo_f0 (P_args 600000 [replicate 33 7] 1) = Some (w, f) /\
    hush_stateupdate E demo_node (StateFile (sf_disk f) false) idle_args = Some (w', f) /\
    length (Hush_events (n_sp w)) = 1%nat /\ Hush_events (n_sp w') = [] /\
    Pubkeys (n_notary w) <> None /\ Pubkeys (n_notary w') = None.
Proof.
  eexists _, _, _. split; [vm_compute; reflexivity|]. split; [vm_compute; reflexivity|].
  split; [vm_compute; reflexivity|]. split; [vm_compute; reflexivity|]. split; vm_compute; [discriminate|reflexivity].
Qed.
