(* ===== verification/Arith256.v ===== *)
(** * 256-bit unsigned integers

    The class [base_uint<256>] of src/src/arith_uint256.h and
    src/src/arith_uint256.cpp: [pn[WIDTH]] is a list of 8 limbs of 32 bits, the
    lowest first, and each operator is its loop over the limbs.  [val] is the
    number that the limbs stand for; the theorems show that the operators are the
    operations of the integers modulo 2^256.  The null-pointer test of
    [CompareTo] is left out. *)
From S2P Require Import Prelude.
Local Open Scope Z_scope.

(** ** Definitions *)

Abbreviation limbs := (list Z) (only parsing).
Definition WIDTH : nat := 8.

Fixpoint val (l : limbs) : Z :=
  match l with
  | [] => 0
  | d :: l => d + 2 ^ 32 * val l
  end.

(** [base_uint(uint64_t b)] *)
Definition of_u64 (b : Z) : limbs := u32 b :: u32 (Z.shiftr b 32) :: replicate 6 0.

(** [operator~] *)
Definition bnot (a : limbs) : limbs := map (fun x => u32 (Z.lnot x)) a.

(** [operator++]: while (++pn[i] == 0 && i < WIDTH-1) i++ *)
Fixpoint incr (a : limbs) : limbs :=
  match a with
  | [] => []
  | x :: a => let x := u32 (x + 1) in
              if x =? 0 then match a with [] => [x] | _ => x :: incr a end else x :: a
  end.

(** [operator-()] *)
Definition neg (a : limbs) : limbs := incr (bnot a).

(** [operator+=] *)
Fixpoint add_loop (carry : Z) (a b : limbs) : limbs :=
  match a, b with
  | x :: a, y :: b =>
    let n := u64 (carry + x + y) in
    Z.land n 0xffffffff :: add_loop (Z.shiftr n 32) a b
  | _, _ => []
  end.
Definition add (a b : limbs) : limbs := add_loop 0 a b.

(** [operator-=] *)
Definition sub (a b : limbs) : limbs := add a (neg b).

(** [operator*=(uint32_t b32)] *)
Fixpoint mul32_loop (carry b32 : Z) (a : limbs) : limbs :=
  match a with
  | [] => []
  | x :: a =>
    let n := u64 (carry + b32 * x) in
    Z.land n 0xffffffff :: mul32_loop (Z.shiftr n 32) b32 a
  end.
Definition mul32 (a : limbs) (b32 : Z) : limbs := mul32_loop 0 b32 a.

(** The inner loop of [operator*=(const base_uint& b)]: [acc] is [pn] from limb
    [j] on and [aj] is [a.pn[j]]. *)
Fixpoint mul_row (carry aj : Z) (acc b : limbs) : limbs :=
  match acc, b with
  | p :: acc, y :: b =>
    let n := u64 (carry + p + aj * y) in
    Z.land n 0xffffffff :: mul_row (Z.shiftr n 32) aj acc b
  | acc, _ => acc
  end.

(** The outer loop: limb [j] is final once row [j] has been added. *)
Fixpoint mul_loop (a acc b : limbs) : limbs :=
  match a, acc with
  | aj :: a, _ :: _ =>
    match mul_row 0 aj acc b with
    | [] => []
    | p :: acc => p :: mul_loop a acc b
    end
  | _, acc => acc
  end.
Definition mul (a b : limbs) : limbs := mul_loop a (replicate (length a) 0) b.

(** [operator<<=], [operator>>=] *)
Definition or_at (i : Z) (x : Z) (pn : limbs) : limbs :=
  <[Z.to_nat i := Z.lor (rd pn (Z.to_nat i)) x]> pn.

Definition shl_step (a : limbs) (k shift : Z) (pn : limbs) (i : nat) : limbs :=
  let i' := Z.of_nat i in
  let pn := if (i' + k + 1 <? Z.of_nat WIDTH) && negb (shift =? 0)
            then or_at (i' + k + 1) (Z.shiftr (rd a i) (32 - shift)) pn else pn in
  if i' + k <? Z.of_nat WIDTH then or_at (i' + k) (u32 (Z.shiftl (rd a i) shift)) pn else pn.
Definition shl (a : limbs) (shift : Z) : limbs :=
  foldl (shl_step a (shift / 32) (shift mod 32)) (replicate WIDTH 0) (seq 0 WIDTH).

Definition shr_step (a : limbs) (k shift : Z) (pn : limbs) (i : nat) : limbs :=
  let i' := Z.of_nat i in
  let pn := if (0 <=? i' - k - 1) && negb (shift =? 0)
            then or_at (i' - k - 1) (u32 (Z.shiftl (rd a i) (32 - shift))) pn else pn in
  if 0 <=? i' - k then or_at (i' - k) (Z.shiftr (rd a i) shift) pn else pn.
Definition shr (a : limbs) (shift : Z) : limbs :=
  foldl (shr_step a (shift / 32) (shift mod 32)) (replicate WIDTH 0) (seq 0 WIDTH).

(** [CompareTo]; [a] and [b] are read from the highest limb. *)
Fixpoint compare_from_top (a b : limbs) : Z :=
  match a, b with
  | x :: a, y :: b => if x <? y then -1 else if y <? x then 1 else compare_from_top a b
  | _, _ => 0
  end.
Definition CompareTo (a b : limbs) : Z := compare_from_top (rev a) (rev b).

(** [EqualTo(uint64_t b)] *)
Definition EqualTo (a : limbs) (b : Z) : bool :=
  forallb (fun i => rd a i =? 0) (rev (seq 2 (WIDTH - 2)))
  && (rd a 1 =? Z.shiftr b 32) && (rd a 0 =? Z.land b 0xffffffff).

(** [bits()] *)
Definition limb_bits (x : Z) : Z :=
  match List.find (fun b => negb (Z.land x (Z.shiftl 1 (Z.of_nat b)) =? 0)) (rev (seq 1 31)) with
  | Some b => Z.of_nat b + 1
  | None => 1
  end.
Fixpoint bits_from_top (a : limbs) : Z :=
  match a with
  | [] => 0
  | x :: a => if negb (x =? 0) then 32 * Zlen a + limb_bits x else bits_from_top a
  end.
Definition bits (a : limbs) : Z := bits_from_top (rev a).

(** [operator/=]: one step per value of [shift]; [None] is the exception. *)
Fixpoint div_loop (shift : nat) (num div q : limbs) : limbs :=
  let '(num, q) :=
    if 0 <=? CompareTo num div
    then (sub num div, or_at (Z.of_nat shift / 32) (u32 (Z.shiftl 1 (Z.land (Z.of_nat shift) 31))) q)
    else (num, q) in
  match shift with
  | O => q
  | S shift => div_loop shift num (shr div 1) q
  end.
Definition div (a b : limbs) : option limbs :=
  let num_bits := bits a in
  let div_bits := bits b in
  if div_bits =? 0 then None
  else if num_bits <? div_bits then Some (of_u64 0)
  else
    let shift := num_bits - div_bits in
    Some (div_loop (Z.to_nat shift) a (shl b shift) (of_u64 0)).

Definition GetLow64 (a : limbs) : Z := Z.lor (rd a 0) (Z.shiftl (rd a 1) 32).

(** [SetCompact]: the number, [*pfNegative] and [*pfOverflow]. *)
Definition SetCompact (nCompact : Z) : limbs * bool * bool :=
  let nSize := Z.shiftr nCompact 24 in
  let nWord := Z.land nCompact 0x007fffff in
  let '(nWord, r) :=
    if nSize <=? 3
    then let nWord := Z.shiftr nWord (8 * (3 - nSize)) in (nWord, of_u64 nWord)
    else (nWord, shl (of_u64 nWord) (8 * (nSize - 3))) in
  (r, negb (nWord =? 0) && negb (Z.land nCompact 0x00800000 =? 0),
   negb (nWord =? 0) && ((34 <? nSize) || ((0xff <? nWord) && (33 <? nSize)) || ((0xffff <? nWord) && (32 <? nSize)))).

(** [GetCompact(fNegative)]; the two assertions hold, see [getcompact_asserts]. *)
Definition compact_mantissa (a : limbs) : Z * Z :=
  let nSize := Z.quot (bits a + 7) 8 in
  let nCompact := if nSize <=? 3 then u32 (Z.shiftl (GetLow64 a) (8 * (3 - nSize)))
                  else u32 (GetLow64 (shr a (8 * (nSize - 3)))) in
  if negb (Z.land nCompact 0x00800000 =? 0) then (Z.shiftr nCompact 8, nSize + 1) else (nCompact, nSize).
Definition GetCompact (a : limbs) (fNegative : bool) : Z :=
  let '(nCompact, nSize) := compact_mantissa a in
  let nCompact := Z.lor nCompact (u32 (Z.shiftl nSize 24)) in
  Z.lor nCompact (if fNegative && negb (Z.land nCompact 0x007fffff =? 0) then 0x00800000 else 0).

(** [ArithToUint256], [UintToArith256] *)
Definition ArithToUint256 (a : limbs) : list Z := concat (map (le_bytes 4) a).
Fixpoint UintToArith256_loop (n : nat) (b : list Z) : limbs :=
  match n with
  | O => []
  | S n => le_num (take 4 b) :: UintToArith256_loop n (drop 4 b)
  end.
Definition UintToArith256 (b : list Z) : limbs := UintToArith256_loop WIDTH b.

(** ** Limbs and numbers *)

Definition limb_ok (x : Z) : Prop := is_u 32 x.
(** The representation invariant of the class. *)
Definition wf (a : limbs) : Prop := length a = WIDTH /\ Forall limb_ok a.

#[export] Instance limb_ok_dec x : Decision (limb_ok x) := is_u_dec 32 x.
#[export] Instance wf_dec a : Decision (wf a).
Proof. unfold wf. apply _. Defined.

Lemma val_bounds l : Forall limb_ok l -> 0 <= val l < 2 ^ (32 * Zlen l).
Proof.
  induction 1 as [|d l Hd Hl IH]; cbn [val]; [done|].
  unfold Zlen in *. cbn [length]. rewrite Nat2Z.inj_succ, Z.mul_succ_r, Z.pow_add_r by lia.
  unfold limb_ok, is_u in Hd. nia.
Qed.

Lemma wf_bounds a : wf a -> 0 <= val a < 2 ^ 256.
Proof. intros [Hl Ha]. apply val_bounds in Ha. unfold Zlen in Ha. rewrite Hl in Ha. exact Ha. Qed.

Lemma val_inj l1 l2 :
  length l1 = length l2 -> Forall limb_ok l1 -> Forall limb_ok l2 -> val l1 = val l2 -> l1 = l2.
Proof.
  revert l2. induction l1 as [|x l1 IH]; intros [|y l2] Hl H1 H2 Hv; try done.
  inversion H1 as [|? ? Hx H1']; inversion H2 as [|? ? Hy H2']; subst. cbn [val] in Hv.
  unfold limb_ok, is_u in Hx, Hy.
  assert (x = y /\ val l1 = val l2) as [-> ?] by lia.
  f_equal. apply IH; auto.
Qed.

Lemma val_app l1 l2 : val (l1 ++ l2) = val l1 + 2 ^ (32 * Zlen l1) * val l2.
Proof.
  induction l1 as [|x l1 IH]; cbn [val app]; [unfold Zlen; cbn; lia|].
  rewrite IH. unfold Zlen. cbn [length]. rewrite Nat2Z.inj_succ, Z.mul_succ_r, (Z.pow_add_r _ _ 32) by lia. ring.
Qed.

Lemma val_replicate0 n : val (replicate n 0) = 0.
Proof. induction n as [|n IH]; cbn [val replicate]; lia. Qed.

Lemma mod_split x m : 0 < m -> x mod (2 ^ 32 * m) = x mod 2 ^ 32 + 2 ^ 32 * ((x / 2 ^ 32) mod m).
Proof. intros Hm. rewrite Z.rem_mul_r by lia. reflexivity. Qed.

Lemma pow32_succ (n : nat) : 2 ^ (32 * Z.of_nat (S n)) = 2 ^ 32 * 2 ^ (32 * Z.of_nat n).
Proof. rewrite Nat2Z.inj_succ, Z.mul_succ_r, Z.add_comm, Z.pow_add_r by lia. reflexivity. Qed.

(** A limb and the carry out of it. *)
Lemma limb_carry n : 0 <= n < 2 ^ 64 ->
  Z.land (u64 n) 0xffffffff = n mod 2 ^ 32 /\ Z.shiftr (u64 n) 32 = n / 2 ^ 32.
Proof.
  intros Hn. rewrite u64_id by done. split; [apply land_ffffffff|]. by rewrite Z.shiftr_div_pow2 by lia.
Qed.

Lemma limb_ok_mod x : limb_ok (x mod 2 ^ 32).
Proof. unfold limb_ok, is_u. apply Z.mod_pos_bound. lia. Qed.

(** One limb of a loop with a carry. *)
Lemma carry_step n rest m : 0 < m ->
  n mod 2 ^ 32 + 2 ^ 32 * ((n / 2 ^ 32 + rest) mod m) = (n + 2 ^ 32 * rest) mod (2 ^ 32 * m).
Proof.
  intros Hm. rewrite mod_split by done.
  rewrite (Z.mul_comm (2 ^ 32) rest), Z_mod_plus_full, Z_div_plus_full by lia. reflexivity.
Qed.

(** ** Addition, subtraction *)

Lemma add_loop_spec a b c :
  length a = length b -> Forall limb_ok a -> Forall limb_ok b -> 0 <= c <= 1 ->
  val (add_loop c a b) = (c + val a + val b) mod 2 ^ (32 * Zlen a) /\
  length (add_loop c a b) = length a /\ Forall limb_ok (add_loop c a b).
Proof.
  revert b c. induction a as [|x a IH]; intros [|y b] c Hl Ha Hb Hc; try done.
  { cbn. split; [|done]. by rewrite Z.mod_1_r. }
  inversion Ha as [|? ? Hx Ha']; inversion Hb as [|? ? Hy Hb']; subst. cbn [add_loop val].
  unfold limb_ok, is_u in Hx, Hy. destruct (limb_carry (c + x + y) ltac:(lia)) as [-> ->].
  destruct (IH b ((c + x + y) / 2 ^ 32)) as (Hv & Hlen & Hok);
    [by injection Hl|done|done|split; [apply Z.div_pos; lia|apply Z.lt_succ_r, Z.div_lt_upper_bound; lia]|].
  split; [|split].
  - rewrite Hv. unfold Zlen. cbn [length]. rewrite pow32_succ.
    rewrite <- (Z.add_assoc (_ / _)), carry_step by (apply Z.pow_pos_nonneg; lia). f_equal. lia.
  - cbn [length]. by rewrite Hlen.
  - constructor; [apply limb_ok_mod|done].
Qed.

Lemma add_spec a b : wf a -> wf b -> wf (add a b) /\ val (add a b) = (val a + val b) mod 2 ^ 256.
Proof.
  intros [La Ha] [Lb Hb]. destruct (add_loop_spec a b 0) as (Hv & Hl & Ho); [congruence|done..|lia|].
  split; [split; [by rewrite <- La|done]|]. unfold add. rewrite Hv. unfold Zlen. rewrite La. reflexivity.
Qed.

Lemma bnot_spec a : Forall limb_ok a ->
  val (bnot a) = 2 ^ (32 * Zlen a) - 1 - val a /\ Forall limb_ok (bnot a) /\ length (bnot a) = length a.
Proof.
  induction 1 as [|x a Hx Ha (IH & Hok & Hl)]; [done|]. cbn [bnot map val].
  assert (Hn : u32 (Z.lnot x) = 2 ^ 32 - 1 - x).
  { unfold limb_ok, is_u in Hx. unfold u32, Z.lnot. symmetry. apply Z.mod_unique_pos with (-1); lia. }
  rewrite Hn. fold (bnot a). rewrite IH. unfold Zlen in *. cbn [length]. rewrite pow32_succ.
  split; [lia|]. split; [|by rewrite Hl]. constructor; [unfold limb_ok, is_u in *; lia|done].
Qed.

Lemma incr_spec a : Forall limb_ok a ->
  val (incr a) = (val a + 1) mod 2 ^ (32 * Zlen a) /\ Forall limb_ok (incr a) /\ length (incr a) = length a.
Proof.
  induction 1 as [|x a Hx Ha (IH & Hok & Hl)]; [done|]. cbn [incr val].
  pose proof (val_bounds a Ha) as Hb. unfold limb_ok, is_u in Hx.
  assert (Hp : 2 ^ (32 * Zlen (x :: a)) = 2 ^ 32 * 2 ^ (32 * Zlen a)) by (unfold Zlen; apply pow32_succ).
  rewrite Hp. unfold u32. destruct (Z.eqb_spec ((x + 1) mod 2 ^ 32) 0) as [E0|E0].
  - assert (x = 2 ^ 32 - 1) as -> by (destruct (decide (x = 2 ^ 32 - 1)); [done|]; rewrite Z.mod_small in E0; lia).
    destruct a as [|y a]; [split; [reflexivity|split; [by repeat constructor|done]]|].
    set (a' := y :: a) in *. change ((2 ^ 32 - 1 + 1) mod 2 ^ 32) with 0. cbn [val length].
    split; [|split; [constructor; [done|done]|by rewrite Hl]].
    rewrite IH, <- (Z.add_0_l (val a' + 1)), (carry_step 0) by (apply Z.pow_pos_nonneg; unfold Zlen; lia). f_equal. lia.
  - assert (x < 2 ^ 32 - 1) by (destruct (decide (x = 2 ^ 32 - 1)); [by subst|lia]).
    rewrite (Z.mod_small (x + 1)) by lia. cbn [val]. rewrite Z.mod_small by nia.
    split; [lia|]. split; [|done]. constructor; [unfold limb_ok, is_u; lia|done].
Qed.

Lemma neg_spec a : wf a -> wf (neg a) /\ val (neg a) = (- val a) mod 2 ^ 256.
Proof.
  intros [La Ha]. destruct (bnot_spec a Ha) as (Hv & Ho & Hl). destruct (incr_spec _ Ho) as (Hv' & Ho' & Hl').
  unfold neg. split; [split; [congruence|done]|]. rewrite Hv', Hv. unfold Zlen. rewrite Hl, La.
  change (32 * Z.of_nat WIDTH) with 256. rewrite <- (Z_mod_plus_full (- val a) 1). f_equal. lia.
Qed.

Lemma sub_spec a b : wf a -> wf b -> wf (sub a b) /\ val (sub a b) = (val a - val b) mod 2 ^ 256.
Proof.
  intros Ha Hb. destruct (neg_spec b Hb) as [Hn Hv]. unfold sub. destruct (add_spec a (neg b) Ha Hn) as [Hw Hs].
  split; [done|]. by rewrite Hs, Hv, Zplus_mod_idemp_r.
Qed.

(** ** Multiplication *)

Lemma pow32_pos (n : nat) : 0 < 2 ^ (32 * Z.of_nat n).
Proof. apply Z.pow_pos_nonneg; lia. Qed.
#[local] Hint Resolve pow32_pos limb_ok_mod : core.

Lemma carry_bound n : 0 <= n < 2 ^ 64 -> 0 <= n / 2 ^ 32 < 2 ^ 32.
Proof. intros Hn. split; [apply Z.div_pos; lia|apply Z.div_lt_upper_bound; lia]. Qed.

Lemma mul_row_spec acc b c aj :
  (length acc <= length b)%nat -> Forall limb_ok acc -> Forall limb_ok b -> limb_ok aj -> limb_ok c ->
  val (mul_row c aj acc b) = (c + val acc + aj * val b) mod 2 ^ (32 * Zlen acc) /\
  length (mul_row c aj acc b) = length acc /\ Forall limb_ok (mul_row c aj acc b).
Proof.
  revert b c. induction acc as [|p acc IH]; intros b c Hl Hp Hb Hj Hc.
  { cbn. split; [|done]. by rewrite Z.mod_1_r. }
  destruct b as [|y b]; [cbn in Hl; lia|].
  inversion Hp as [|? ? Hp0 Hp']; inversion Hb as [|? ? Hy Hb']; subst. cbn [mul_row val].
  unfold limb_ok, is_u in Hp0, Hy, Hj, Hc.
  assert (Hn : 0 <= c + p + aj * y < 2 ^ 64) by nia.
  destruct (limb_carry _ Hn) as [-> ->].
  destruct (IH b ((c + p + aj * y) / 2 ^ 32)) as (Hv & Hlen & Hok); [cbn in Hl; lia|done..|by apply carry_bound|].
  split; [|split].
  - rewrite Hv. unfold Zlen. cbn [length]. rewrite pow32_succ.
    rewrite <- (Z.add_assoc (_ / _)), carry_step by auto. f_equal. ring.
  - cbn [length]. by rewrite Hlen.
  - constructor; auto.
Qed.

Lemma mul_loop_spec a acc b :
  length a = length acc -> (length acc <= length b)%nat ->
  Forall limb_ok a -> Forall limb_ok acc -> Forall limb_ok b ->
  val (mul_loop a acc b) = (val acc + val a * val b) mod 2 ^ (32 * Zlen acc) /\
  length (mul_loop a acc b) = length acc /\ Forall limb_ok (mul_loop a acc b).
Proof.
  revert acc. induction a as [|aj a IH]; intros [|p0 acc] Hla Hlb Ha Hacc Hb; try done.
  inversion Ha as [|? ? Hj Ha']; subst. cbn [mul_loop].
  destruct (mul_row_spec (p0 :: acc) b 0 aj Hlb Hacc Hb Hj) as (Hv & Hlen & Hok); [done|].
  destruct (mul_row 0 aj (p0 :: acc) b) as [|p r]; [done|].
  inversion Hok as [|? ? Hp Hr]; subst. cbn [length] in *.
  destruct (IH r) as (Hv' & Hlen' & Hok'); [lia|lia|done..|].
  cbn [val length]. rewrite Hv', Hlen'. split; [|split; [lia|by constructor]].
  unfold Zlen in *. cbn [val length] in Hv |- *. injection Hlen as Hlen. rewrite Hlen, pow32_succ in *.
  unfold limb_ok, is_u in Hp. rewrite <- (Z.mod_small p (2 ^ 32)) by done.
  rewrite <- (Z.add_0_l (val r + _)), <- (Z.div_small p (2 ^ 32)), carry_step by auto.
  replace (p + 2 ^ 32 * (val r + val a * val b)) with (p + 2 ^ 32 * val r + 2 ^ 32 * (val a * val b)) by ring.
  rewrite Hv, Zplus_mod_idemp_l. f_equal. ring.
Qed.

Lemma mul_spec a b : wf a -> wf b -> wf (mul a b) /\ val (mul a b) = (val a * val b) mod 2 ^ 256.
Proof.
  intros [La Ha] [Lb Hb].
  destruct (mul_loop_spec a (replicate (length a) 0) b) as (Hv & Hl & Ho); rewrite ?length_replicate; [done|lia|done| |done|].
  { apply Forall_replicate. done. }
  rewrite length_replicate in Hl. unfold mul. split; [split; [congruence|done]|].
  rewrite Hv, val_replicate0, Z.add_0_l. unfold Zlen. rewrite length_replicate, La. reflexivity.
Qed.

Lemma mul32_loop_spec a c b :
  Forall limb_ok a -> limb_ok b -> limb_ok c ->
  val (mul32_loop c b a) = (c + b * val a) mod 2 ^ (32 * Zlen a) /\
  length (mul32_loop c b a) = length a /\ Forall limb_ok (mul32_loop c b a).
Proof.
  intros Ha Hb. revert c. induction Ha as [|x a Hx Ha IH]; intros c Hc.
  { cbn. split; [|done]. by rewrite Z.mod_1_r. }
  cbn [mul32_loop val]. unfold limb_ok, is_u in Hx, Hb, Hc.
  assert (Hn : 0 <= c + b * x < 2 ^ 64) by nia. destruct (limb_carry _ Hn) as [-> ->].
  destruct (IH ((c + b * x) / 2 ^ 32)) as (Hv & Hlen & Hok); [by apply carry_bound|].
  split; [|split; [cbn [length]; by rewrite Hlen|constructor; auto]].
  rewrite Hv. unfold Zlen. cbn [length]. rewrite pow32_succ, carry_step by auto. f_equal. ring.
Qed.

Lemma mul32_spec a b : wf a -> is_u 32 b -> wf (mul32 a b) /\ val (mul32 a b) = (val a * b) mod 2 ^ 256.
Proof.
  intros [La Ha] Hb. destruct (mul32_loop_spec a 0 b Ha Hb) as (Hv & Hl & Ho); [done|].
  unfold mul32. split; [split; [congruence|done]|]. rewrite Hv. unfold Zlen. rewrite La. f_equal. ring.
Qed.

(** ** Shifts, bit by bit *)

Lemma limb_high_bit x i : limb_ok x -> 32 <= i -> Z.testbit x i = false.
Proof. intros. by apply (is_u_testbit 32). Qed.

Lemma rd_limb_ok l m : Forall limb_ok l -> limb_ok (rd l m).
Proof.
  intros Hl. unfold rd. destruct (decide (m < length l)%nat) as [Hm|Hm].
  - rewrite Forall_forall in Hl. apply Hl. by apply list_elem_of_In, nth_In.
  - by rewrite nth_overflow by lia.
Qed.
#[local] Hint Resolve rd_limb_ok : core.

Lemma val_testbit l m i : Forall limb_ok l -> 0 <= i < 32 ->
  Z.testbit (val l) (32 * Z.of_nat m + i) = Z.testbit (rd l m) i.
Proof.
  intros Hl Hi. revert m. induction Hl as [|d l Hd Hl IH]; intros m; cbn [val].
  { unfold rd. rewrite Z.bits_0. destruct m; cbn; by rewrite Z.bits_0. }
  assert (Hv : d + 2 ^ 32 * val l = Z.lor (val l * 2 ^ 32) d) by (rewrite lor_add by (done || lia); lia).
  rewrite Hv, Z.lor_spec, Z.mul_pow2_bits by lia. destruct m as [|m]; cbn [rd nth].
  - replace (32 * Z.of_nat 0 + i) with i by lia. by rewrite Z.testbit_neg_r by lia.
  - rewrite (limb_high_bit d) by (done || lia). rewrite orb_false_r.
    replace (32 * Z.of_nat (S m) + i - 32) with (32 * Z.of_nat m + i) by lia. apply IH.
Qed.

(** Bits of [val] at any position. *)
Lemma val_bit l n : Forall limb_ok l -> 0 <= n -> Z.testbit (val l) n = Z.testbit (rd l (Z.to_nat (n / 32))) (n mod 32).
Proof.
  intros Hl Hn. rewrite <- val_testbit by (done || apply Z.mod_pos_bound; lia).
  f_equal. rewrite Z2Nat.id by (apply Z.div_pos; lia). rewrite <- Z.div_mod by lia. done.
Qed.

Lemma length_or_at j x pn : length (or_at j x pn) = length pn.
Proof. apply length_insert. Qed.

Lemma or_at_bit j x pn m i : length pn = WIDTH -> (m < WIDTH)%nat -> 0 <= j ->
  Z.testbit (rd (or_at j x pn) m) i = Z.testbit (rd pn m) i || ((Z.of_nat m =? j) && Z.testbit x i).
Proof.
  intros Hl Hm Hj. unfold or_at. destruct (Z.eqb_spec (Z.of_nat m) j) as [E|E].
  - assert (Z.to_nat j = m) as -> by lia. rewrite (rd_lookup _ m (Z.lor (rd pn m) x)), Z.lor_spec; [done|].
    apply list_lookup_insert_eq. lia.
  - cbn [andb]. rewrite orb_false_r. f_equal. unfold rd. rewrite !nth_lookup, list_lookup_insert_ne by lia. done.
Qed.

(** The bit at limb [m], place [i], after steps that each contribute [C j]. *)
Lemma foldl_bits (step : limbs -> nat -> limbs) (C : nat -> bool) m i js pn :
  (forall pn j, length pn = WIDTH -> length (step pn j) = WIDTH) ->
  (forall pn j, length pn = WIDTH -> Z.testbit (rd (step pn j) m) i = Z.testbit (rd pn m) i || C j) ->
  length pn = WIDTH ->
  Z.testbit (rd (foldl step pn js) m) i = Z.testbit (rd pn m) i || existsb C js.
Proof.
  intros Hlen Hstep. revert pn. induction js as [|j js IH]; intros pn Hl; cbn [foldl existsb].
  { by rewrite orb_false_r. }
  rewrite IH, Hstep by auto. by rewrite orb_assoc.
Qed.

Lemma existsb_at (q : Z) (f : nat -> bool) n :
  existsb (fun j => (Z.of_nat j =? q) && f j) (seq 0 n) = (0 <=? q) && (q <? Z.of_nat n) && f (Z.to_nat q).
Proof.
  induction n as [|n IH]; [cbn; bdestruct_all; by rewrite ?andb_false_r|].
  rewrite seq_S, existsb_app, IH. cbn [existsb Nat.add]. rewrite orb_false_r.
  destruct (Z.eqb_spec (Z.of_nat n) q) as [<-|Hne].
  - rewrite Nat2Z.id. rewrite Z.ltb_irrefl, andb_false_r. cbn [andb orb].
    rewrite (proj2 (Z.leb_le 0 (Z.of_nat n))), (proj2 (Z.ltb_lt (Z.of_nat n) (Z.of_nat (S n)))) by lia. done.
  - cbn [andb]. rewrite orb_false_r. f_equal. f_equal. bdestruct_all; done.
Qed.

Lemma existsb_or {A} (f g : A -> bool) l : existsb (fun x => f x || g x) l = existsb f l || existsb g l.
Proof.
  induction l as [|x l IH]; cbn [existsb]; [done|]. rewrite IH. by destruct (f x), (g x), (existsb f l).
Qed.

Lemma rd_replicate0 n m : rd (replicate n 0) m = 0.
Proof. unfold rd. revert m. induction n as [|n IH]; intros [|m]; cbn; auto. Qed.

Lemma u32_bit x i : 0 <= i < 32 -> Z.testbit (u32 x) i = Z.testbit x i.
Proof. intros Hi. unfold u32. by rewrite Z.mod_pow2_bits_low by lia. Qed.

(** A list of limbs is determined by its bits. *)
Lemma limbs_of_bits (r : limbs) (x : Z) :
  wf r -> 0 <= x -> (forall i, 256 <= i -> Z.testbit x i = false) ->
  (forall (m : nat) i, (m < WIDTH)%nat -> 0 <= i < 32 -> Z.testbit (rd r m) i = Z.testbit x (32 * Z.of_nat m + i)) ->
  val r = x.
Proof.
  intros Hr Hx Hhi Hbits. apply Z.bits_inj_iff'. intros n Hn.
  destruct (decide (n < 256)) as [Hlt|Hge].
  - rewrite val_bit by (done || apply Hr). rewrite Hbits.
    + f_equal. rewrite Z2Nat.id by (apply Z.div_pos; lia). rewrite <- Z.div_mod by lia. done.
    + unfold WIDTH. assert (n / 32 < 8) by (apply Z.div_lt_upper_bound; lia). lia.
    + apply Z.mod_pos_bound. lia.
  - rewrite Hhi by lia. apply (is_u_testbit 256); [lia|by apply wf_bounds|lia].
Qed.

Lemma or_at_ok j x pn : Forall limb_ok pn -> limb_ok x -> Forall limb_ok (or_at j x pn).
Proof. intros Hp Hx. apply Forall_insert; [done|]. apply is_u_lor; [lia| |done]. by apply rd_limb_ok. Qed.

Lemma u32_ok x : limb_ok (u32 x).
Proof. apply u32_range. Qed.
Lemma shiftr_ok x n : limb_ok x -> 0 <= n -> limb_ok (Z.shiftr x n).
Proof. intros. apply is_u_shiftr; [lia|done..]. Qed.
#[local] Hint Resolve or_at_ok u32_ok shiftr_ok : core.

Lemma step_wf (step : limbs -> nat -> limbs) js pn :
  (forall pn j, wf pn -> wf (step pn j)) -> wf pn -> wf (foldl step pn js).
Proof. intros Hs. revert pn. induction js as [|j js IH]; intros pn Hp; cbn [foldl]; auto. Qed.

Lemma or_at_wf j x pn : wf pn -> limb_ok x -> wf (or_at j x pn).
Proof. intros [Hl Hp] Hx. split; [by rewrite length_or_at|auto]. Qed.

Lemma zero_wf : wf (replicate WIDTH 0).
Proof. split; [done|]. by apply Forall_replicate. Qed.

Section Shift.
Context (a : limbs) (k s : Z) (Ha : wf a) (Hk : 0 <= k) (Hs : 0 <= s < 32).

Lemma shl_step_wf pn j : wf pn -> wf (shl_step a k s pn j).
Proof.
  intros Hp. unfold shl_step. destruct Ha as [_ Ha'].
  set (pn1 := if _ && _ then _ else pn).
  assert (H1 : wf pn1) by (unfold pn1; destruct (_ && _); [apply or_at_wf; [done|]; apply shiftr_ok; [auto|lia]|done]).
  clearbody pn1. destruct (_ <? _); [apply or_at_wf; auto|done].
Qed.

Lemma shr_step_wf pn j : wf pn -> wf (shr_step a k s pn j).
Proof.
  intros Hp. unfold shr_step. destruct Ha as [_ Ha'].
  set (pn1 := if _ && _ then _ else pn).
  assert (H1 : wf pn1) by (unfold pn1; destruct (_ && _); [apply or_at_wf; auto|done]).
  clearbody pn1. destruct (_ <=? _); [apply or_at_wf; [done|]; apply shiftr_ok; [auto|lia]|done].
Qed.

(** What limb [j] contributes to place [i] of limb [m]. *)
Lemma shl_step_bit pn j m i : length pn = WIDTH -> (m < WIDTH)%nat -> 0 <= i < 32 ->
  Z.testbit (rd (shl_step a k s pn j) m) i =
  Z.testbit (rd pn m) i ||
    (((Z.of_nat j =? Z.of_nat m - k) && Z.testbit (rd a j) (i - s)) ||
     ((Z.of_nat j =? Z.of_nat m - k - 1) && Z.testbit (rd a j) (i + 32 - s))).
Proof.
  intros Hl Hm Hi. destruct Ha as [_ Ha']. unfold shl_step.
  set (pn1 := if _ && _ then _ else pn).
  assert (Hl1 : length pn1 = WIDTH) by (unfold pn1; destruct (_ && _); [by rewrite length_or_at|done]).
  assert (Hb1 : Z.testbit (rd pn1 m) i = Z.testbit (rd pn m) i ||
    ((Z.of_nat j =? Z.of_nat m - k - 1) && Z.testbit (rd a j) (i + 32 - s))).
  { unfold pn1. unfold WIDTH in *. destruct (Z.eqb_spec s 0) as [->|Hs0]; cbn [negb andb].
    - rewrite andb_false_r. rewrite (limb_high_bit (rd a j)) by (auto || lia). by rewrite andb_false_r, orb_false_r.
    - rewrite andb_true_r. destruct (Z.ltb_spec (Z.of_nat j + k + 1) (Z.of_nat 8)).
      + rewrite or_at_bit by (done || lia). rewrite Z.shiftr_spec by lia.
        replace (i + (32 - s)) with (i + 32 - s) by lia. f_equal. f_equal. bdestruct_all; done.
      + replace (Z.of_nat j =? Z.of_nat m - k - 1) with false by (symmetry; apply Z.eqb_neq; lia).
        by rewrite orb_false_r. }
  destruct (Z.ltb_spec (Z.of_nat j + k) (Z.of_nat WIDTH)).
  - rewrite or_at_bit by (done || lia). rewrite Hb1, u32_bit, Z.shiftl_spec by lia.
    replace (Z.of_nat m =? Z.of_nat j + k) with (Z.of_nat j =? Z.of_nat m - k) by (bdestruct_all; done).
    rewrite <- orb_assoc. f_equal. apply orb_comm.
  - rewrite Hb1. unfold WIDTH in *. f_equal. replace (Z.of_nat j =? Z.of_nat m - k) with false by (symmetry; apply Z.eqb_neq; lia). done.
Qed.

Lemma shr_step_bit pn j m i : length pn = WIDTH -> (m < WIDTH)%nat -> 0 <= i < 32 ->
  Z.testbit (rd (shr_step a k s pn j) m) i =
  Z.testbit (rd pn m) i ||
    (((Z.of_nat j =? Z.of_nat m + k) && Z.testbit (rd a j) (i + s)) ||
     ((Z.of_nat j =? Z.of_nat m + k + 1) && Z.testbit (rd a j) (i - 32 + s))).
Proof.
  intros Hl Hm Hi. destruct Ha as [_ Ha']. unfold shr_step.
  set (pn1 := if _ && _ then _ else pn).
  assert (Hl1 : length pn1 = WIDTH) by (unfold pn1; destruct (_ && _); [by rewrite length_or_at|done]).
  assert (Hb1 : Z.testbit (rd pn1 m) i = Z.testbit (rd pn m) i ||
    ((Z.of_nat j =? Z.of_nat m + k + 1) && Z.testbit (rd a j) (i - 32 + s))).
  { unfold pn1. destruct (Z.eqb_spec s 0) as [->|Hs0]; cbn [negb andb].
    - rewrite andb_false_r. rewrite (Z.testbit_neg_r (rd a j)) by lia. by rewrite andb_false_r, orb_false_r.
    - rewrite andb_true_r. destruct (Z.leb_spec 0 (Z.of_nat j - k - 1)).
      + rewrite or_at_bit by (done || lia). rewrite u32_bit, Z.shiftl_spec by lia.
        replace (i - (32 - s)) with (i - 32 + s) by lia. f_equal. f_equal. bdestruct_all; done.
      + replace (Z.of_nat j =? Z.of_nat m + k + 1) with false by (symmetry; apply Z.eqb_neq; lia).
        by rewrite orb_false_r. }
  destruct (Z.leb_spec 0 (Z.of_nat j - k)).
  - rewrite or_at_bit by (done || lia). rewrite Hb1, Z.shiftr_spec by lia.
    replace (Z.of_nat m =? Z.of_nat j - k) with (Z.of_nat j =? Z.of_nat m + k) by (bdestruct_all; done).
    rewrite <- orb_assoc. f_equal. apply orb_comm.
  - rewrite Hb1. f_equal. replace (Z.of_nat j =? Z.of_nat m + k) with false by (symmetry; apply Z.eqb_neq; lia). done.
Qed.
End Shift.

Lemma length_shl_step a k s pn j : length (shl_step a k s pn j) = length pn.
Proof. unfold shl_step. repeat case_match; by rewrite ?length_or_at. Qed.
Lemma length_shr_step a k s pn j : length (shr_step a k s pn j) = length pn.
Proof. unfold shr_step. repeat case_match; by rewrite ?length_or_at. Qed.

Lemma shift_parts shift : 0 <= shift -> 0 <= shift / 32 /\ 0 <= shift mod 32 < 32 /\ shift = 32 * (shift / 32) + shift mod 32.
Proof. intros. split; [apply Z.div_pos; lia|]. split; [apply Z.mod_pos_bound; lia|apply Z.div_mod; lia]. Qed.

Lemma shl_spec a shift : wf a -> 0 <= shift ->
  wf (shl a shift) /\ val (shl a shift) = (val a * 2 ^ shift) mod 2 ^ 256.
Proof.
  intros Ha Hsh. destruct (shift_parts shift Hsh) as (Hk & Hs & Heq).
  set (k := shift / 32) in *. set (s := shift mod 32) in *.
  assert (Hw : wf (shl a shift)) by (apply step_wf; [intros; by apply shl_step_wf|apply zero_wf]).
  split; [done|]. apply limbs_of_bits; [done|apply Z.mod_pos_bound; lia| |].
  { intros i Hi. by rewrite Z.mod_pow2_bits_high by lia. }
  intros m i Hm Hi. rewrite Z.mod_pow2_bits_low by (unfold WIDTH in Hm; lia). rewrite Z.mul_pow2_bits by lia.
  unfold shl. fold k s.
  rewrite (foldl_bits (shl_step a k s) (fun j => ((Z.of_nat j =? Z.of_nat m - k) && Z.testbit (rd a j) (i - s)) || ((Z.of_nat j =? Z.of_nat m - k - 1) && Z.testbit (rd a j) (i + 32 - s))) m i);
    [|intros; by rewrite length_shl_step|intros; by apply shl_step_bit|done].
  rewrite rd_replicate0, Z.bits_0. cbn [orb].
  rewrite existsb_or, (existsb_at _ (fun j => Z.testbit (rd a j) (i - s))), (existsb_at _ (fun j => Z.testbit (rd a j) (i + 32 - s))).
  destruct Ha as [Hla Ha']. change (Z.of_nat WIDTH) with 8. unfold WIDTH in Hm.
  rewrite (proj2 (Z.ltb_lt (Z.of_nat m - k) 8)), (proj2 (Z.ltb_lt (Z.of_nat m - k - 1) 8)), !andb_true_r by lia.
  destruct (Z.leb_spec s i).
  - rewrite (limb_high_bit (rd a (Z.to_nat (Z.of_nat m - k - 1)))) by (auto || lia). rewrite andb_false_r, orb_false_r.
    destruct (Z.leb_spec 0 (Z.of_nat m - k)); cbn [andb].
    + rewrite <- val_testbit by (done || lia). f_equal. lia.
    + by rewrite Z.testbit_neg_r by lia.
  - rewrite (Z.testbit_neg_r (rd a (Z.to_nat (Z.of_nat m - k)))) by lia. rewrite andb_false_r. cbn [orb].
    destruct (Z.leb_spec 0 (Z.of_nat m - k - 1)); cbn [andb].
    + rewrite <- val_testbit by (done || lia). f_equal. lia.
    + by rewrite Z.testbit_neg_r by lia.
Qed.

Lemma shr_spec a shift : wf a -> 0 <= shift -> wf (shr a shift) /\ val (shr a shift) = val a / 2 ^ shift.
Proof.
  intros Ha Hsh. destruct (shift_parts shift Hsh) as (Hk & Hs & Heq).
  set (k := shift / 32) in *. set (s := shift mod 32) in *.
  assert (Hw : wf (shr a shift)) by (apply step_wf; [intros; by apply shr_step_wf|apply zero_wf]).
  pose proof (wf_bounds a Ha) as Hb. split; [done|]. rewrite <- Z.shiftr_div_pow2 by lia.
  apply limbs_of_bits; [done|apply Z.shiftr_nonneg; lia| |].
  { intros i Hi. rewrite Z.shiftr_spec by lia. apply (is_u_testbit 256); [lia|done|lia]. }
  intros m i Hm Hi. rewrite Z.shiftr_spec by lia. unfold shr. fold k s.
  rewrite (foldl_bits (shr_step a k s) (fun j => ((Z.of_nat j =? Z.of_nat m + k) && Z.testbit (rd a j) (i + s)) || ((Z.of_nat j =? Z.of_nat m + k + 1) && Z.testbit (rd a j) (i - 32 + s))) m i);
    [|intros; by rewrite length_shr_step|intros; by apply shr_step_bit|done].
  rewrite rd_replicate0, Z.bits_0. cbn [orb].
  rewrite existsb_or, (existsb_at _ (fun j => Z.testbit (rd a j) (i + s))), (existsb_at _ (fun j => Z.testbit (rd a j) (i - 32 + s))).
  destruct Ha as [Hla Ha']. change (Z.of_nat WIDTH) with 8. unfold WIDTH in Hm.
  rewrite (proj2 (Z.leb_le 0 (Z.of_nat m + k))), (proj2 (Z.leb_le 0 (Z.of_nat m + k + 1))) by lia. cbn [andb].
  assert (Hhi : forall (x : Z) i', 8 <= x -> Z.testbit (val a) (32 * x + i') = false \/ i' < 0).
  { intros x i' Hx. destruct (Z.ltb_spec i' 0); [by right|left]. apply (is_u_testbit 256); [lia|done|lia]. }
  destruct (Z.ltb_spec (i + s) 32).
  - rewrite (Z.testbit_neg_r _ (i - 32 + s)) by lia. rewrite andb_false_r, orb_false_r.
    destruct (Z.ltb_spec (Z.of_nat m + k) 8); cbn [andb].
    + rewrite <- val_testbit by (done || lia). f_equal. lia.
    + symmetry. destruct (Hhi (Z.of_nat m + k) (i + s)) as [Hf|]; [lia| |lia]. rewrite <- Hf. f_equal. lia.
  - rewrite (limb_high_bit _ (i + s)) by (auto || lia). rewrite andb_false_r. cbn [orb].
    destruct (Z.ltb_spec (Z.of_nat m + k + 1) 8); cbn [andb].
    + rewrite <- val_testbit by (done || lia). f_equal. lia.
    + symmetry. destruct (Hhi (Z.of_nat m + k + 1) (i - 32 + s)) as [Hf|]; [lia| |lia]. rewrite <- Hf. f_equal. lia.
Qed.

(** ** Comparison, bit length *)

Definition cmp (x y : Z) : Z := if x <? y then -1 else if y <? x then 1 else 0.

Lemma compare_from_top_spec a b :
  length a = length b -> Forall limb_ok a -> Forall limb_ok b ->
  compare_from_top a b = cmp (val (rev a)) (val (rev b)).
Proof.
  revert b. induction a as [|x a IH]; intros [|y b] Hl Ha Hb; try done.
  inversion Ha as [|? ? Hx Ha']; inversion Hb as [|? ? Hy Hb']; subst. injection Hl as Hl.
  cbn [compare_from_top rev]. rewrite IH by done. rewrite !val_app. unfold Zlen. rewrite !length_rev, Hl. cbn [val].
  assert (Hra : 0 <= val (rev a) < 2 ^ (32 * Z.of_nat (length b)))
    by (rewrite <- Hl, <- (length_rev a); apply val_bounds; by apply Forall_rev).
  assert (Hrb : 0 <= val (rev b) < 2 ^ (32 * Z.of_nat (length b)))
    by (rewrite <- (length_rev b); apply val_bounds; by apply Forall_rev).
  set (m := 2 ^ (32 * Z.of_nat (length b))) in *. rewrite Z.mul_0_r, !Z.add_0_r.
  unfold cmp. destruct (Z.ltb_spec x y); [|destruct (Z.ltb_spec y x)]; [..|assert (x = y) as -> by lia];
    bdestruct_all; nia.
Qed.

Lemma CompareTo_spec a b : wf a -> wf b -> CompareTo a b = cmp (val a) (val b).
Proof.
  intros [La Ha] [Lb Hb]. unfold CompareTo.
  rewrite compare_from_top_spec by (rewrite ?length_rev; congruence || by apply Forall_rev). by rewrite !rev_involutive.
Qed.

Lemma land_bit x b : 0 <= b -> (Z.land x (Z.shiftl 1 b) =? 0) = negb (Z.testbit x b).
Proof.
  intros Hb. rewrite Z.shiftl_mul_pow2, Z.mul_1_l by lia. destruct (Z.testbit x b) eqn:E; cbn [negb].
  - apply Z.eqb_neq. intros H0. apply (f_equal (fun z => Z.testbit z b)) in H0.
    rewrite Z.land_spec, Z.pow2_bits_true, E, Z.bits_0 in H0 by lia. done.
  - apply Z.eqb_eq. apply Z.bits_inj. intros i. rewrite Z.land_spec, Z.bits_0.
    destruct (decide (i = b)) as [->|Hne]; [by rewrite E|]. by rewrite Z.pow2_bits_false, andb_false_r by lia.
Qed.

Lemma find_top_bit (x : Z) (n : nat) :
  match List.find (fun b => negb (Z.land x (Z.shiftl 1 (Z.of_nat b)) =? 0)) (rev (seq 1 n)) with
  | Some b => (1 <= b <= n)%nat /\ Z.testbit x (Z.of_nat b) = true /\
              forall j, Z.of_nat b < j <= Z.of_nat n -> Z.testbit x j = false
  | None => forall j, 1 <= j <= Z.of_nat n -> Z.testbit x j = false
  end.
Proof.
  induction n as [|n IH]; [cbn; lia|]. rewrite seq_S, rev_app_distr. cbn [rev app List.find].
  rewrite land_bit, negb_involutive by lia. cbn [Nat.add].
  destruct (Z.testbit x (Z.of_nat (S n))) eqn:E; [split; [lia|]; split; [done|lia]|].
  destruct (List.find _ _) as [b|].
  - destruct IH as (H1 & H2 & H3). split; [lia|]. split; [done|]. intros j Hj.
    destruct (decide (j = Z.of_nat (S n))) as [->|]; [done|]. apply H3. lia.
  - intros j Hj. destruct (decide (j = Z.of_nat (S n))) as [->|]; [done|]. apply IH. lia.
Qed.

Lemma limb_bits_spec x : limb_ok x -> x <> 0 -> limb_bits x = Z.log2 x + 1.
Proof.
  intros Hx H0. unfold limb_bits. pose proof (find_top_bit x 31) as H. destruct (List.find _ _) as [b|].
  - destruct H as (H1 & H2 & H3). f_equal. symmetry. apply Z.log2_bits_unique; [done|]. intros m Hm.
    destruct (decide (m <= 31)); [apply H3; lia|]. apply limb_high_bit; [done|lia].
  - assert (x = 1) as ->; [|done]. apply Z.bits_inj_iff'. intros i Hi.
    destruct (decide (i = 0)) as [->|Hi0].
    + destruct (Z.testbit x 0) eqn:E; [done|]. exfalso. apply H0. apply Z.bits_inj_0. intros j.
      destruct (Z.ltb_spec j 0); [by apply Z.testbit_neg_r|]. destruct (decide (j = 0)) as [->|]; [done|].
      destruct (decide (j <= 31)); [apply H; lia|apply limb_high_bit; [done|lia]].
    + assert (Z.testbit 1 i = false) as -> by (rewrite (Z.pow2_bits_false 0 i) || apply (Z.pow2_bits_false 0); lia).
      destruct (decide (i <= 31)); [apply H; lia|apply limb_high_bit; [done|lia]].
Qed.

Lemma log2_high v x m : 0 <= m -> 0 <= v < 2 ^ m -> 0 < x -> Z.log2 (v + 2 ^ m * x) = m + Z.log2 x.
Proof.
  intros Hm Hv Hx. apply Z.log2_unique; [pose proof (Z.log2_nonneg x); lia|].
  destruct (Z.log2_spec x Hx) as [H1 H2].
  replace (Z.succ (m + Z.log2 x)) with (m + Z.succ (Z.log2 x)) by lia.
  rewrite !Z.pow_add_r by (try apply Z.le_le_succ_r; auto using Z.log2_nonneg). nia.
Qed.

(** The number of bits of a natural number. *)
Definition bitlen (x : Z) : Z := if x =? 0 then 0 else Z.log2 x + 1.

Lemma bits_from_top_spec a : Forall limb_ok a -> bits_from_top a = bitlen (val (rev a)).
Proof.
  induction 1 as [|x a Hx Ha IH]; [done|]. cbn [bits_from_top rev]. rewrite val_app. cbn [val].
  unfold Zlen at 2. rewrite length_rev. fold (Zlen a). rewrite Z.mul_0_r, Z.add_0_r.
  destruct (Z.eqb_spec x 0) as [->|H0]; cbn [negb]; [by rewrite Z.mul_0_r, Z.add_0_r|].
  assert (Hb : 0 <= val (rev a) < 2 ^ (32 * Zlen a))
    by (unfold Zlen; rewrite <- (length_rev a); apply val_bounds; by apply Forall_rev).
  pose proof Hx as Hx'. unfold limb_ok, is_u in Hx'. unfold bitlen.
  destruct (Z.eqb_spec (val (rev a) + 2 ^ (32 * Zlen a) * x) 0); [nia|].
  rewrite log2_high, limb_bits_spec by (done || unfold Zlen; lia). lia.
Qed.

Lemma bits_spec a : wf a -> bits a = bitlen (val a).
Proof.
  intros [La Ha]. unfold bits. rewrite bits_from_top_spec by by apply Forall_rev. by rewrite rev_involutive.
Qed.

Lemma bitlen_bounds x : 0 < x -> 0 < bitlen x /\ 2 ^ (bitlen x - 1) <= x < 2 ^ bitlen x.
Proof.
  intros Hx. unfold bitlen. destruct (Z.eqb_spec x 0); [lia|]. destruct (Z.log2_spec x Hx).
  pose proof (Z.log2_nonneg x). rewrite Z.add_simpl_r. split; [lia|done].
Qed.

Lemma bitlen_nonneg x : 0 <= bitlen x.
Proof. unfold bitlen. destruct (x =? 0); [lia|]. pose proof (Z.log2_nonneg x). lia. Qed.

Lemma bitlen_le x n : 0 <= x < 2 ^ n -> 0 <= n -> bitlen x <= n.
Proof.
  intros Hx Hn. destruct (decide (x = 0)) as [->|]; [cbn; lia|].
  destruct (bitlen_bounds x ltac:(lia)) as [H1 H2].
  destruct (decide (bitlen x <= n)); [done|]. assert (2 ^ n <= 2 ^ (bitlen x - 1)) by (apply Z.pow_le_mono_r; lia). lia.
Qed.

Lemma of_u64_spec b : 0 <= b < 2 ^ 64 -> wf (of_u64 b) /\ val (of_u64 b) = b.
Proof.
  intros Hb. unfold of_u64. split.
  - split; [done|]. constructor; [apply u32_ok|]. constructor; [apply u32_ok|]. by apply Forall_replicate.
  - cbn [val]. rewrite val_replicate0, Z.shiftr_div_pow2 by lia. unfold u32.
    rewrite (Z.mod_small (b / 2 ^ 32)) by (split; [apply Z.div_pos|apply Z.div_lt_upper_bound]; lia).
    pose proof (Z.div_mod b (2 ^ 32)). lia.
Qed.

(** ** Division *)

Lemma low_bit (n : nat) : (n < 256)%nat -> u32 (Z.shiftl 1 (Z.land (Z.of_nat n) 31)) = 2 ^ (Z.of_nat n mod 32).
Proof.
  intros Hn. change 31 with (Z.ones 5). rewrite Z.land_ones, Z.shiftl_mul_pow2, Z.mul_1_l; try lia.
  - change (2 ^ 5) with 32. apply u32_id. pose proof (Z.mod_pos_bound (Z.of_nat n) 32 ltac:(lia)). unfold is_u.
    split; [apply Z.pow_nonneg; lia|]. apply Z.pow_lt_mono_r; lia.
  - apply Z.mod_pos_bound. lia.
Qed.

(** Setting bit [n] of the quotient. *)
Lemma set_bit q (n : nat) : wf q -> (n < 256)%nat -> Z.testbit (val q) (Z.of_nat n) = false ->
  let q' := or_at (Z.of_nat n / 32) (u32 (Z.shiftl 1 (Z.land (Z.of_nat n) 31))) q in
  wf q' /\ val q' = val q + 2 ^ Z.of_nat n.
Proof.
  intros Hq Hn Hbit. cbv zeta. rewrite low_bit by done.
  pose proof (Z.mod_pos_bound (Z.of_nat n) 32 ltac:(lia)) as Hm.
  assert (Hlok : limb_ok (2 ^ (Z.of_nat n mod 32))) by (rewrite <- low_bit by done; apply u32_ok).
  assert (Hw : wf (or_at (Z.of_nat n / 32) (2 ^ (Z.of_nat n mod 32)) q)) by by apply or_at_wf.
  split; [done|]. pose proof (wf_bounds q Hq) as Hb.
  assert (Hp : 0 <= 2 ^ Z.of_nat n < 2 ^ 256) by (split; [apply Z.pow_nonneg|apply Z.pow_lt_mono_r]; lia).
  assert (Hadd : val q + 2 ^ Z.of_nat n = Z.lor (val q) (2 ^ Z.of_nat n)).
  { rewrite <- Z.lxor_lor, Z.add_nocarry_lxor; [done| |].
    all: apply Z.bits_inj_0; intros i; rewrite Z.land_spec;
      destruct (decide (i = Z.of_nat n)) as [->|]; [by rewrite Hbit|by rewrite Z.pow2_bits_false, andb_false_r by lia]. }
  rewrite Hadd. apply limbs_of_bits; [done|apply Z.lor_nonneg; lia| |].
  { intros i Hi. rewrite Z.lor_spec. rewrite !(is_u_testbit 256) by (exact Hb || exact Hp || lia). done. }
  intros m i Hm' Hi. rewrite or_at_bit by (apply Hq || done || apply Z.div_pos; lia).
  destruct Hq as [_ Hq]. rewrite Z.lor_spec, val_testbit by done. f_equal.
  pose proof (Z.div_mod (Z.of_nat n) 32 ltac:(lia)).
  destruct (Z.eqb_spec (Z.of_nat m) (Z.of_nat n / 32)) as [E|E]; cbn [andb].
  - destruct (decide (i = Z.of_nat n mod 32)) as [->|Hne].
    + rewrite E, <- Z.div_mod by lia. by rewrite !Z.pow2_bits_true by lia.
    + rewrite !Z.pow2_bits_false by lia. done.
  - symmetry. apply Z.pow2_bits_false. lia.
Qed.

Lemma mult_low_bits Q n : 0 <= n -> (2 ^ (n + 1) | Q) -> Z.testbit Q n = false.
Proof. intros Hn [c ->]. rewrite Z.mul_pow2_bits by lia. apply Z.testbit_neg_r. lia. Qed.

Lemma div_loop_spec (shift : nat) num dv q D :
  wf num -> wf dv -> wf q -> 0 < D -> (shift < 256)%nat ->
  val dv = D * 2 ^ Z.of_nat shift -> val num < D * 2 ^ (Z.of_nat shift + 1) -> (2 ^ (Z.of_nat shift + 1) | val q) ->
  wf (div_loop shift num dv q) /\ val (div_loop shift num dv q) = val q + val num / D.
Proof.
  revert num dv q. induction shift as [|shift IH]; intros num dv q Hn Hd Hq HD Hsh Hdv Hnum Hdiv.
  all: cbn [div_loop]; rewrite CompareTo_spec by done.
  all: pose proof (wf_bounds num Hn) as Hbn; pose proof (wf_bounds dv Hd) as Hbd.
  all: set (p := 2 ^ Z.of_nat _) in Hdv; assert (Hp : 0 < p) by (apply Z.pow_pos_nonneg; lia).
  all: rewrite Z.pow_add_r in Hnum by lia; fold p in Hnum.
  all: pose proof (mult_low_bits _ _ (Nat2Z.is_nonneg _) Hdiv) as Hb.
  all: match goal with |- context [or_at (Z.of_nat ?n / 32)] => destruct (set_bit q n Hq Hsh Hb) as [Hq' Hv'] end.
  all: fold p in Hv'; destruct (sub_spec num dv Hn Hd) as [Hs Hvs].
  - assert (Hstep : forall b : bool, (if b then val num - val dv else val num) = (val num - (if b then D else 0)))
      by (subst p; intros [|]; rewrite ?Hdv; cbn; lia).
    unfold cmp. destruct (Z.ltb_spec (val num) (val dv)); cbn [Z.leb Z.compare].
    + split; [done|]. rewrite Z.div_small; subst p; cbn in *; lia.
    + assert (Hd1 : val num / D = 1).
      { symmetry. apply Z.div_unique_pos with (val num - D); subst p; cbn in *; lia. }
      destruct (val dv <? val num); cbn [Z.leb Z.compare]; (split; [done|]); rewrite Hv', Hd1; done.
  - assert (Hpp : p = 2 * 2 ^ Z.of_nat shift).
    { unfold p. rewrite Nat2Z.inj_succ, <- Z.add_1_r, Z.pow_add_r by lia. change (2 ^ 1) with 2. lia. }
    destruct (shr_spec dv 1 Hd) as [Hr Hvr]; [lia|]. change (2 ^ 1) with 2 in *.
    assert (Hvr' : val (shr dv 1) = D * 2 ^ Z.of_nat shift).
    { rewrite Hvr, Hdv, Hpp. symmetry. apply Z.div_unique_pos with 0; lia. }
    assert (Hp2 : 2 ^ (Z.of_nat shift + 1) = p) by (rewrite Hpp, Z.pow_add_r by lia; change (2 ^ 1) with 2; lia).
    assert (Hdq : (p | val q)).
    { destruct Hdiv as [c Hc]. exists (2 * c). rewrite Hc, Z.pow_add_r by lia. fold p. change (2 ^ 1) with 2. lia. }
    unfold cmp. destruct (Z.ltb_spec (val num) (val dv)) as [Hlt|Hge]; cbn [Z.leb Z.compare].
    + apply IH; try done; [lia|rewrite Hp2; lia|by rewrite Hp2].
    + assert (Hvs' : val (sub num dv) = val num - D * p) by (rewrite Hvs, Z.mod_small; lia).
      assert (Hgoal : forall q0, q0 = or_at (Z.of_nat (S shift) / 32) (u32 (Z.shiftl 1 (Z.land (Z.of_nat (S shift)) 31))) q ->
        wf (div_loop shift (sub num dv) (shr dv 1) q0) /\
        val (div_loop shift (sub num dv) (shr dv 1) q0) = val q + val num / D).
      { intros q0 ->. destruct (IH (sub num dv) (shr dv 1) _ Hs Hr Hq' HD ltac:(lia) Hvr') as [W V].
        - rewrite Hp2, Hvs'. lia.
        - rewrite Hp2, Hv'. apply Z.divide_add_r; [done|apply Z.divide_refl].
        - split; [done|]. rewrite V, Hv', Hvs'.
          replace (val num - D * p) with (val num + (- p) * D) by lia. rewrite Z.div_add by lia. lia. }
      destruct (val dv <? val num); cbn [Z.leb Z.compare]; by apply Hgoal.
Qed.

Lemma div_spec a b : wf a -> wf b ->
  match div a b with
  | Some q => 0 < val b /\ wf q /\ val q = val a / val b
  | None => val b = 0
  end.
Proof.
  intros Ha Hb. pose proof (wf_bounds a Ha) as Hba. pose proof (wf_bounds b Hb) as Hbb.
  unfold div. rewrite !bits_spec by done.
  destruct (Z.eqb_spec (bitlen (val b)) 0) as [E|E].
  { destruct (decide (val b = 0)); [done|]. destruct (bitlen_bounds (val b)); lia. }
  assert (Hpos : 0 < val b) by (destruct (decide (val b = 0)) as [E0|]; [by rewrite E0 in E|lia]).
  destruct (bitlen_bounds (val b) Hpos) as [Hb1 Hb2]. pose proof (bitlen_nonneg (val a)) as Hb3.
  assert (Ha2 : val a < 2 ^ bitlen (val a)).
  { destruct (decide (val a = 0)) as [->|]; [done|]. apply bitlen_bounds; lia. }
  destruct (of_u64_spec 0 ltac:(lia)) as [H0 H0v].
  destruct (Z.ltb_spec (bitlen (val a)) (bitlen (val b))) as [Hlt|Hge]; (split; [done|]).
  { split; [done|]. rewrite H0v, Z.div_small; [done|].
    assert (2 ^ bitlen (val a) <= 2 ^ (bitlen (val b) - 1)) by (apply Z.pow_le_mono_r; lia). lia. }
  set (sh := bitlen (val a) - bitlen (val b)) in *.
  assert (Hal : bitlen (val a) <= 256) by (apply bitlen_le; lia).
  destruct (shl_spec b sh Hb ltac:(lia)) as [Hs Hsv].
  assert (Hpow : 2 ^ bitlen (val b) * 2 ^ sh = 2 ^ bitlen (val a)) by (rewrite <- Z.pow_add_r by lia; f_equal; lia).
  assert (H256 : 2 ^ bitlen (val a) <= 2 ^ 256) by (apply Z.pow_le_mono_r; lia).
  assert (Hsh : 0 < 2 ^ sh) by (apply Z.pow_pos_nonneg; lia).
  rewrite Z.mod_small in Hsv by nia.
  destruct (div_loop_spec (Z.to_nat sh) a (shl b sh) (of_u64 0) (val b) Ha Hs H0 Hpos) as [W V].
  - lia.
  - by rewrite Z2Nat.id by lia.
  - rewrite Z2Nat.id, Z.pow_add_r by lia. change (2 ^ 1) with 2.
    assert (2 ^ bitlen (val b) <= 2 * val b).
    { replace (bitlen (val b)) with (bitlen (val b) - 1 + 1) at 1 by lia. rewrite Z.pow_add_r by lia. lia. }
    nia.
  - rewrite H0v. apply Z.divide_0_r.
  - split; [done|]. rewrite V, H0v. lia.
Qed.

(** ** The compact format *)

Lemma GetLow64_spec a : wf a -> GetLow64 a = val a mod 2 ^ 64.
Proof.
  intros [La Ha]. destruct a as [|x0 [|x1 a]]; [done|done|].
  inversion Ha as [|? ? Hx0 Ha1]; subst. inversion Ha1 as [|? ? Hx1 Ha2]; subst.
  cbn [val]. unfold GetLow64, rd. cbn [nth].
  rewrite Z.shiftl_mul_pow2, Z.lor_comm, lor_add by (done || lia). unfold limb_ok, is_u in Hx0, Hx1.
  apply Z.mod_unique_pos with (val a); lia.
Qed.

(** What a mantissa and a size say about a number. *)
Definition compact_of (x m n : Z) : Prop :=
  (n <= 3 /\ m = x * 2 ^ (8 * (3 - n))) \/ (3 < n /\ m = x / 2 ^ (8 * (n - 3))).

Lemma pow8_succ n : 0 <= n -> 2 ^ (8 * (n + 1)) = 256 * 2 ^ (8 * n).
Proof. intros. replace (8 * (n + 1)) with (8 + 8 * n) by lia. rewrite Z.pow_add_r by lia. reflexivity. Qed.

(** The number of bytes and the three leading ones. *)
Lemma byte_size x : 0 < x -> let n := Z.quot (bitlen x + 7) 8 in
  1 <= n /\ 2 ^ (8 * (n - 1)) <= x < 2 ^ (8 * n).
Proof.
  intros Hx. cbv zeta. destruct (bitlen_bounds x Hx) as (H1 & H2 & H3). rewrite Z.quot_div_nonneg by lia.
  pose proof (Z.div_mod (bitlen x + 7) 8). pose proof (Z.mod_pos_bound (bitlen x + 7) 8).
  split; [lia|]. split.
  - eapply Z.le_trans; [|exact H2]. apply Z.pow_le_mono_r; lia.
  - eapply Z.lt_le_trans; [exact H3|]. apply Z.pow_le_mono_r; lia.
Qed.

Lemma testbit23 m : 0 <= m < 2 ^ 24 -> (Z.land m 0x00800000 =? 0) = (m <? 2 ^ 23).
Proof.
  intros Hm. change 0x00800000 with (Z.shiftl 1 23). rewrite land_bit, Z.testbit_spec' || rewrite land_bit by lia.
  assert (Hb : Z.testbit m 23 = (m / 2 ^ 23 =? 1)).
  { rewrite Z.testbit_eqb by lia. assert (0 <= m / 2 ^ 23 < 2) by (split; [apply Z.div_pos|apply Z.div_lt_upper_bound]; lia).
    rewrite Z.mod_small by done. done. }
  rewrite Hb. pose proof (Z.div_mod m (2 ^ 23)). pose proof (Z.mod_pos_bound m (2 ^ 23)).
  destruct (Z.eqb_spec (m / 2 ^ 23) 1), (Z.ltb_spec m (2 ^ 23)); cbn [negb]; try done; lia.
Qed.

(** The mantissa before the sign bit is cleared. *)
Lemma raw_mantissa a : wf a -> 0 < val a ->
  let n := Z.quot (bits a + 7) 8 in
  let m := if n <=? 3 then u32 (Z.shiftl (GetLow64 a) (8 * (3 - n))) else u32 (GetLow64 (shr a (8 * (n - 3)))) in
  1 <= n <= 32 /\ 2 ^ 16 <= m < 2 ^ 24 /\ compact_of (val a) m n.
Proof.
  intros Ha Hx. rewrite bits_spec by done. pose proof (wf_bounds a Ha) as Hb.
  destruct (byte_size (val a) Hx) as (H1 & H2 & H3). set (n := Z.quot (bitlen (val a) + 7) 8) in *. cbv zeta.
  assert (Hn32 : n <= 32).
  { destruct (decide (n <= 32)); [done|]. assert (2 ^ 256 <= 2 ^ (8 * (n - 1))) by (apply Z.pow_le_mono_r; lia). lia. }
  split; [lia|]. destruct (Z.leb_spec n 3) as [Hle|Hgt].
  - assert (H24 : 2 ^ (8 * n) * 2 ^ (8 * (3 - n)) = 2 ^ 24) by (rewrite <- Z.pow_add_r by lia; f_equal; lia).
    assert (H16 : 2 ^ (8 * (n - 1)) * 2 ^ (8 * (3 - n)) = 2 ^ 16) by (rewrite <- Z.pow_add_r by lia; f_equal; lia).
    assert (Hpos : 0 < 2 ^ (8 * (3 - n))) by (apply Z.pow_pos_nonneg; lia).
    assert (Hsm : 2 ^ (8 * n) <= 2 ^ 24) by (apply Z.pow_le_mono_r; lia).
    rewrite GetLow64_spec, Z.mod_small, Z.shiftl_mul_pow2 by (done || lia).
    assert (Hm : 2 ^ 16 <= val a * 2 ^ (8 * (3 - n)) < 2 ^ 24) by nia.
    rewrite u32_id by (unfold is_u; lia). split; [done|]. left. split; [lia|done].
  - destruct (shr_spec a (8 * (n - 3)) Ha ltac:(lia)) as [Hs Hv].
    assert (H24 : 2 ^ (8 * n) = 2 ^ (8 * (n - 3)) * 2 ^ 24) by (rewrite <- Z.pow_add_r by lia; f_equal; lia).
    assert (H16 : 2 ^ (8 * (n - 1)) = 2 ^ (8 * (n - 3)) * 2 ^ 16) by (rewrite <- Z.pow_add_r by lia; f_equal; lia).
    assert (Hpos : 0 < 2 ^ (8 * (n - 3))) by (apply Z.pow_pos_nonneg; lia).
    assert (Hm : 2 ^ 16 <= val a / 2 ^ (8 * (n - 3)) < 2 ^ 24)
      by (split; [apply Z.div_le_lower_bound|apply Z.div_lt_upper_bound]; lia).
    rewrite GetLow64_spec, Hv by done. rewrite (Z.mod_small _ (2 ^ 64)) by lia.
    rewrite u32_id by (unfold is_u; lia). split; [done|]. right. split; [lia|done].
Qed.

Lemma compact_mantissa_spec a : wf a -> 0 < val a ->
  let '(m, n) := compact_mantissa a in 1 <= n <= 33 /\ 2 ^ 15 <= m < 2 ^ 23 /\ compact_of (val a) m n.
Proof.
  intros Ha Hx. destruct (raw_mantissa a Ha Hx) as (Hn & Hm & Hc). unfold compact_mantissa.
  set (n := Z.quot (bits a + 7) 8) in *. set (m := if n <=? 3 then _ else _) in *.
  rewrite testbit23 by lia. destruct (Z.ltb_spec m (2 ^ 23)) as [Hlt|Hge]; cbn [negb]; [split; [lia|]; split; [lia|done]|].
  rewrite Z.shiftr_div_pow2 by lia. change (2 ^ 8) with 256.
  split; [lia|]. split; [split; [apply Z.div_le_lower_bound|apply Z.div_lt_upper_bound]; lia|].
  destruct Hc as [[Hn3 ->]|[Hn3 ->]].
  - destruct (decide (n = 3)) as [->|Hne].
    + right. split; [lia|]. change (8 * (3 - 3)) with 0. change (8 * (3 + 1 - 3)) with 8. by rewrite Z.mul_1_r.
    + left. split; [lia|]. replace (3 - n) with (3 - (n + 1) + 1) by lia. rewrite pow8_succ by lia.
      symmetry. apply Z.div_unique_pos with 0; lia.
  - right. split; [lia|]. replace (n + 1 - 3) with (n - 3 + 1) by lia. rewrite pow8_succ by lia.
    rewrite (Z.mul_comm 256), Z.div_div by (try (apply Z.pow_nonzero); lia). done.
Qed.

Lemma GetCompact_spec a : wf a -> 0 < val a ->
  exists m n, GetCompact a false = m + n * 2 ^ 24 /\ 1 <= n <= 33 /\ 2 ^ 15 <= m < 2 ^ 23 /\ compact_of (val a) m n.
Proof.
  intros Ha Hx. pose proof (compact_mantissa_spec a Ha Hx) as H. unfold GetCompact.
  destruct (compact_mantissa a) as [m n]. destruct H as (Hn & Hm & Hc). exists m, n. split; [|done].
  cbn [andb]. rewrite Z.lor_0_r, Z.shiftl_mul_pow2, u32_id, Z.lor_comm, lor_add by (unfold is_u; lia). lia.
Qed.

Lemma GetCompact_zero a : wf a -> val a = 0 -> GetCompact a false = 0.
Proof.
  intros Ha Hv. unfold GetCompact, compact_mantissa. rewrite bits_spec, GetLow64_spec, Hv by done. reflexivity.
Qed.

(** The exact value of a compact number. *)
Definition compact_value (c : Z) : Z :=
  let n := c / 2 ^ 24 in let m := c mod 2 ^ 23 in
  if n <=? 3 then m / 2 ^ (8 * (3 - n)) else m * 2 ^ (8 * (n - 3)).

Lemma pow8_ge n k : 0 <= k <= n -> 2 ^ (8 * k) <= 2 ^ (8 * n).
Proof. intros. apply Z.pow_le_mono_r; lia. Qed.

(** The overflow test of [SetCompact] compares with 2^256. *)
Lemma overflow_test m n : 3 < n -> 0 <= m < 2 ^ 23 ->
  negb (m =? 0) && ((34 <? n) || ((0xff <? m) && (33 <? n)) || ((0xffff <? m) && (32 <? n)))
  = (2 ^ 256 <=? m * 2 ^ (8 * (n - 3))).
Proof.
  intros Hn Hm. destruct (Z.eqb_spec m 0) as [->|H0]; cbn [negb andb]; [done|].
  assert (Hcase : n <= 32 \/ n = 33 \/ n = 34 \/ 35 <= n) by lia. destruct Hcase as [Hc|[->|[->|Hc]]].
  - replace (34 <? n) with false by (symmetry; apply Z.ltb_ge; lia). replace (33 <? n) with false by (symmetry; apply Z.ltb_ge; lia).
    replace (32 <? n) with false by (symmetry; apply Z.ltb_ge; lia). rewrite !andb_false_r. symmetry. apply Z.leb_gt.
    pose proof (pow8_ge 29 (n - 3) ltac:(lia)). change (2 ^ 256) with (2 ^ 24 * 2 ^ (8 * 29)). nia.
  - change (2 ^ 256) with (2 ^ 16 * 2 ^ (8 * (33 - 3))). cbn [orb andb Z.ltb Z.compare Pos.compare Pos.compare_cont].
    rewrite andb_false_r, andb_true_r. cbn [orb]. set (p := 2 ^ (8 * (33 - 3))).
    assert (0 < p) by (apply Z.pow_pos_nonneg; lia). bdestruct_all; nia.
  - change (2 ^ 256) with (2 ^ 8 * 2 ^ (8 * (34 - 3))). cbn [orb andb Z.ltb Z.compare Pos.compare Pos.compare_cont].
    rewrite !andb_true_r. set (p := 2 ^ (8 * (34 - 3))).
    assert (0 < p) by (apply Z.pow_pos_nonneg; lia). bdestruct_all; nia.
  - rewrite (proj2 (Z.ltb_lt 34 n)) by lia. cbn [orb]. symmetry. apply Z.leb_le.
    pose proof (pow8_ge (n - 3) 32 ltac:(lia)). change (2 ^ (8 * 32)) with (2 ^ 256) in *. nia.
Qed.

Lemma SetCompact_spec c : is_u 32 c ->
  let '(r, neg, ovf) := SetCompact c in
  wf r /\ val r = compact_value c mod 2 ^ 256 /\
  neg = negb (c mod 2 ^ 23 / 2 ^ (8 * Z.max 0 (3 - c / 2 ^ 24)) =? 0) && Z.testbit c 23 /\
  ovf = (2 ^ 256 <=? compact_value c).
Proof.
  intros Hc. unfold SetCompact. change 0x007fffff with (Z.ones 23). rewrite Z.land_ones, Z.shiftr_div_pow2 by lia.
  change 0x00800000 with (Z.shiftl 1 23). rewrite land_bit, negb_involutive by lia. unfold compact_value.
  set (n := c / 2 ^ 24). set (m := c mod 2 ^ 23). unfold is_u in Hc.
  assert (Hm : 0 <= m < 2 ^ 23) by (apply Z.mod_pos_bound; lia).
  assert (Hn : 0 <= n < 256) by (split; [apply Z.div_pos|apply Z.div_lt_upper_bound]; lia).
  destruct (Z.leb_spec n 3) as [H3|H3].
  - rewrite Z.shiftr_div_pow2, Z.max_r by lia. set (w := m / 2 ^ (8 * (3 - n))).
    assert (Hw : 0 <= w < 2 ^ 23).
    { split; [apply Z.div_pos; [lia|apply Z.pow_pos_nonneg; lia]|].
      apply Z.div_lt_upper_bound; [apply Z.pow_pos_nonneg; lia|].
      assert (1 <= 2 ^ (8 * (3 - n))) by (pose proof (Z.pow_pos_nonneg 2 (8 * (3 - n))); lia). nia. }
    destruct (of_u64_spec w) as [W V]; [lia|]. split; [done|]. split; [by rewrite V, Z.mod_small by lia|]. split; [done|].
    rewrite (proj2 (Z.ltb_ge 34 n)), (proj2 (Z.ltb_ge 33 n)), (proj2 (Z.ltb_ge 32 n)) by lia.
    rewrite !andb_false_r. symmetry. apply Z.leb_gt. lia.
  - rewrite Z.max_l, Z.div_1_r by lia. destruct (of_u64_spec m) as [W V]; [lia|].
    destruct (shl_spec (of_u64 m) (8 * (n - 3)) W) as [W' V']; [lia|].
    split; [done|]. split; [by rewrite V', V|]. split; [done|]. by apply overflow_test.
Qed.

Lemma compact_value_nonneg c : is_u 32 c -> 0 <= compact_value c.
Proof.
  intros Hc. unfold compact_value. pose proof (Z.mod_pos_bound c (2 ^ 23) ltac:(lia)).
  destruct (Z.leb_spec (c / 2 ^ 24) 3).
  - apply Z.div_pos; [lia|]. apply Z.pow_pos_nonneg; lia.
  - apply Z.mul_nonneg_nonneg; [lia|]. apply Z.pow_nonneg. lia.
Qed.

(** No compact number is all ones. *)
Lemma compact_value_not_max c : is_u 32 c -> 2 ^ 256 - 1 <> compact_value c.
Proof.
  intros Hc. unfold compact_value. pose proof (Z.mod_pos_bound c (2 ^ 23) ltac:(lia)) as Hm.
  destruct (Z.leb_spec (c / 2 ^ 24) 3) as [H3|H3].
  - assert (c mod 2 ^ 23 / 2 ^ (8 * (3 - c / 2 ^ 24)) <= c mod 2 ^ 23).
    { apply Z.div_le_upper_bound; [apply Z.pow_pos_nonneg; lia|].
      assert (0 < 2 ^ (8 * (3 - c / 2 ^ 24))) by (apply Z.pow_pos_nonneg; lia). nia. }
    lia.
  - replace (8 * (c / 2 ^ 24 - 3)) with (1 + (8 * (c / 2 ^ 24 - 3) - 1)) by lia. rewrite Z.pow_add_r by lia.
    change (2 ^ 1) with 2. set (q := 2 ^ (8 * (c / 2 ^ 24 - 3) - 1)). intros E.
    assert (H : Z.odd (2 ^ 256 - 1) = Z.odd (c mod 2 ^ 23 * (2 * q))) by by rewrite E.
    rewrite Z.odd_mul, Z.odd_mul in H. cbn [Z.odd] in H. rewrite andb_false_r in H. discriminate.
Qed.

(** A number has only one normalised mantissa and size. *)
Lemma compact_of_range x m n : 0 <= x -> 2 ^ 15 <= m < 2 ^ 23 -> compact_of x m n -> 0 <= n ->
  2 ^ 15 * 2 ^ (8 * n) <= x * 2 ^ 24 < 2 ^ 23 * 2 ^ (8 * n).
Proof.
  intros Hx Hm [[Hn ->]|[Hn ->]] Hn0.
  - assert (H : 2 ^ 24 = 2 ^ (8 * (3 - n)) * 2 ^ (8 * n)) by (rewrite <- Z.pow_add_r by lia; f_equal; lia).
    rewrite H. assert (0 < 2 ^ (8 * n)) by (apply Z.pow_pos_nonneg; lia). nia.
  - assert (H : 2 ^ (8 * n) = 2 ^ 24 * 2 ^ (8 * (n - 3))) by (rewrite <- Z.pow_add_r by lia; f_equal; lia).
    rewrite H. set (p := 2 ^ (8 * (n - 3))) in *. assert (0 < p) by (apply Z.pow_pos_nonneg; lia).
    pose proof (Z.div_mod x p ltac:(lia)). pose proof (Z.mod_pos_bound x p ltac:(lia)). nia.
Qed.

Lemma compact_of_unique x m n m' n' :
  0 <= x -> 2 ^ 15 <= m < 2 ^ 23 -> 2 ^ 15 <= m' < 2 ^ 23 -> 0 <= n -> 0 <= n' ->
  compact_of x m n -> compact_of x m' n' -> m = m' /\ n = n'.
Proof.
  intros Hx Hm Hm' Hn Hn' Hc Hc'.
  pose proof (compact_of_range x m n Hx Hm Hc Hn) as H1. pose proof (compact_of_range x m' n' Hx Hm' Hc' Hn') as H2.
  assert (n = n') as <-.
  { destruct (Z.lt_trichotomy n n') as [H|[H|H]]; [|done|]; exfalso.
    - pose proof (pow8_ge n' (n + 1) ltac:(lia)) as H3. rewrite pow8_succ in H3 by lia. lia.
    - pose proof (pow8_ge n (n' + 1) ltac:(lia)) as H3. rewrite pow8_succ in H3 by lia. lia. }
  split; [|done]. destruct Hc as [[]|[]], Hc' as [[]|[]]; congruence || lia.
Qed.

Lemma compact_split c m n : c = m + n * 2 ^ 24 -> 0 <= m < 2 ^ 23 -> 0 <= n ->
  c / 2 ^ 24 = n /\ c mod 2 ^ 23 = m /\ Z.testbit c 23 = false.
Proof.
  intros -> Hm Hn.
  assert (H1 : (m + n * 2 ^ 24) / 2 ^ 24 = n) by (rewrite Z.div_add, Z.div_small by lia; lia).
  assert (H2 : (m + n * 2 ^ 24) mod 2 ^ 23 = m).
  { replace (m + n * 2 ^ 24) with (m + (2 * n) * 2 ^ 23) by lia. rewrite Z_mod_plus_full, Z.mod_small by lia. done. }
  split; [done|]. split; [done|]. rewrite Z.testbit_eqb by lia. apply Z.eqb_neq.
  replace ((m + n * 2 ^ 24) / 2 ^ 23) with (n * 2); [rewrite Z_mod_mult; lia|].
  apply Z.div_unique_pos with m; lia.
Qed.

(** Reading back a normalised mantissa and size. *)
Lemma compact_value_of x m n :
  0 <= x -> 2 ^ 15 <= m < 2 ^ 23 -> 1 <= n -> compact_of x m n ->
  let v := compact_value (m + n * 2 ^ 24) in
  0 < v <= x /\ (x - v) * 2 ^ 15 <= x /\ compact_of v m n.
Proof.
  intros Hx Hm Hn Hc. cbv zeta. unfold compact_value.
  destruct (compact_split _ m n eq_refl ltac:(lia) ltac:(lia)) as (-> & -> & _).
  destruct Hc as [[H3 ->]|[H3 ->]].
  - rewrite (proj2 (Z.leb_le n 3)), Z.div_mul by (try (apply Z.pow_nonzero); lia).
    assert (0 < 2 ^ (8 * (3 - n))) by (apply Z.pow_pos_nonneg; lia).
    split; [nia|]. split; [lia|]. by left.
  - rewrite (proj2 (Z.leb_gt n 3)) by lia. set (p := 2 ^ (8 * (n - 3))) in *.
    assert (0 < p) by (apply Z.pow_pos_nonneg; lia).
    pose proof (Z.div_mod x p ltac:(lia)). pose proof (Z.mod_pos_bound x p ltac:(lia)).
    split; [nia|]. split; [nia|]. right. split; [lia|]. fold p. by rewrite Z.div_mul by lia.
Qed.

(** The compact numbers that [GetCompact] produces: a mantissa of 16 to 23 bits
    without lost bits, in range. *)
Definition canonical (c : Z) : Prop :=
  2 ^ 15 <= c mod 2 ^ 24 < 2 ^ 23 /\ 1 <= c / 2 ^ 24 /\ compact_value c < 2 ^ 256 /\
  (c / 2 ^ 24 <= 3 -> (2 ^ (8 * (3 - c / 2 ^ 24)) | c mod 2 ^ 24)).

Lemma canonical_compact_of c : canonical c ->
  compact_of (compact_value c) (c mod 2 ^ 24) (c / 2 ^ 24) /\ c mod 2 ^ 24 + c / 2 ^ 24 * 2 ^ 24 = c /\ 0 < compact_value c.
Proof.
  intros (Hm & Hn & Hv & Hd). set (m := c mod 2 ^ 24) in *. set (n := c / 2 ^ 24) in *.
  assert (Hc : m + n * 2 ^ 24 = c) by (unfold m, n; pose proof (Z.div_mod c (2 ^ 24)); lia).
  destruct (compact_split c m n (eq_sym Hc) ltac:(lia) ltac:(lia)) as (H1 & H2 & _).
  unfold compact_value in *. fold n in Hv |- *. rewrite H2 in *.
  destruct (Z.leb_spec n 3) as [H3|H3].
  - destruct (Hd H3) as [q Hq]. assert (0 < 2 ^ (8 * (3 - n))) by (apply Z.pow_pos_nonneg; lia).
    rewrite Hq, Z.div_mul by lia. split; [left; by split|]. split; [lia|nia].
  - assert (0 < 2 ^ (8 * (n - 3))) by (apply Z.pow_pos_nonneg; lia).
    split; [right; split; [lia|by rewrite Z.div_mul by lia]|]. split; [lia|nia].
Qed.

Lemma GetCompact_of_value r c : wf r -> canonical c -> val r = compact_value c -> GetCompact r false = c.
Proof.
  intros Hr Hc Hv. destruct (canonical_compact_of c Hc) as (Ho & He & Hp). destruct Hc as (Hm & Hn & Hlt & _).
  destruct (GetCompact_spec r Hr) as (m & n & -> & Hn' & Hm' & Hc'); [lia|].
  rewrite Hv in Hc'. destruct (compact_of_unique (compact_value c) m n (c mod 2 ^ 24) (c / 2 ^ 24)) as [-> ->]; try done; lia.
Qed.

(** ** Conversions *)

Lemma UintToArith256_loop_spec n b : bytes_ok b -> length b = (4 * n)%nat ->
  val (UintToArith256_loop n b) = le_num b /\ Forall limb_ok (UintToArith256_loop n b) /\
  length (UintToArith256_loop n b) = n /\ ArithToUint256 (UintToArith256_loop n b) = b.
Proof.
  revert b. induction n as [|n IH]; intros b Hb Hl; [by destruct b|]. cbn [UintToArith256_loop val].
  destruct (IH (drop 4 b)) as (Hv & Ho & Hn & Hr); [by apply bytes_ok_drop|rewrite length_drop; lia|].
  assert (Hl4 : length (take 4 b) = 4%nat) by (rewrite length_take; lia).
  assert (Hlo : limb_ok (le_num (take 4 b))).
  { pose proof (le_num_bounds (take 4 b) (bytes_ok_take 4 b Hb)) as H. unfold Zlen in H. rewrite Hl4 in H. exact H. }
  split; [|split; [by constructor|split; [cbn; by rewrite Hn|]]].
  - rewrite Hv. transitivity (le_num (take 4 b ++ drop 4 b)); [|by rewrite take_drop].
    rewrite le_num_app. unfold Zlen. rewrite Hl4. reflexivity.
  - unfold ArithToUint256 in *. cbn [map concat]. rewrite Hr. replace 4%nat with (length (take 4 b)) at 1 by exact Hl4.
    rewrite le_bytes_le_num by by apply bytes_ok_take. apply take_drop.
Qed.

Lemma UintToArith256_spec b : bytes_ok b -> length b = 32%nat ->
  wf (UintToArith256 b) /\ val (UintToArith256 b) = le_num b /\ ArithToUint256 (UintToArith256 b) = b.
Proof. intros Hb Hl. by destruct (UintToArith256_loop_spec WIDTH b) as (? & ? & ? & ?). Qed.

Lemma EqualTo_spec a b : wf a -> is_u 64 b -> EqualTo a b = (val a =? b).
Proof.
  intros [La Ha] Hb. unfold EqualTo. rewrite land_ffffffff, Z.shiftr_div_pow2 by lia.
  destruct a as [|x0 [|x1 [|x2 [|x3 [|x4 [|x5 [|x6 [|x7 [|]]]]]]]]]; try done.
  repeat match goal with H : Forall _ (_ :: _) |- _ => inversion H; clear H; subst end.
  unfold rd. cbn [seq WIDTH Nat.sub rev app forallb nth val]. unfold limb_ok, is_u, u32 in *.
  pose proof (Z.div_mod b (2 ^ 32)). pose proof (Z.mod_pos_bound b (2 ^ 32)).
  destruct (Z.eqb_spec x7 0), (Z.eqb_spec x6 0), (Z.eqb_spec x5 0), (Z.eqb_spec x4 0), (Z.eqb_spec x3 0), (Z.eqb_spec x2 0);
    cbn [andb]; try (symmetry; apply Z.eqb_neq; lia).
  subst. destruct (Z.eqb_spec x1 (b / 2 ^ 32)), (Z.eqb_spec x0 (b mod 2 ^ 32)); cbn [andb];
    symmetry; (apply Z.eqb_eq || apply Z.eqb_neq); lia.
Qed.

(** The operators of [base_uint<256>], loops over 32-bit limbs with carries,
    compute the operations of the integers modulo 2^256: sum, difference,
    product, product with a 32-bit number, shifts, order and bit length; the
    shift-and-subtract division gives the floor of the quotient and fails exactly
    for a zero divisor.  All results are 8 limbs of 32 bits. *)
Theorem arith256_modular a b w s :
  wf a -> wf b -> is_u 32 w -> 0 <= s ->
  let M := 2 ^ 256 in
  (wf (add a b) /\ val (add a b) = (val a + val b) mod M) /\
  (wf (sub a b) /\ val (sub a b) = (val a - val b) mod M) /\
  (wf (mul a b) /\ val (mul a b) = (val a * val b) mod M) /\
  (wf (mul32 a w) /\ val (mul32 a w) = (val a * w) mod M) /\
  (wf (shl a s) /\ val (shl a s) = (val a * 2 ^ s) mod M) /\
  (wf (shr a s) /\ val (shr a s) = val a / 2 ^ s) /\
  (CompareTo a b < 0 <-> val a < val b) /\ (CompareTo a b = 0 <-> a = b) /\
  bits a = bitlen (val a) /\
  match div a b with
  | Some q => val b <> 0 /\ wf q /\ val q = val a / val b
  | None => val b = 0
  end.
Proof.
  intros Ha Hb Hw Hs. cbv zeta. rewrite CompareTo_spec by done.
  split; [by apply add_spec|]. split; [by apply sub_spec|]. split; [by apply mul_spec|]. split; [by apply mul32_spec|].
  split; [by apply shl_spec|]. split; [by apply shr_spec|].
  split; [unfold cmp; bdestruct_all; lia|]. split.
  { split; [|intros ->; unfold cmp; by rewrite Z.ltb_irrefl]. unfold cmp. intros H.
    destruct Ha, Hb. apply val_inj; [congruence|done..|]. revert H. bdestruct_all. }
  split; [by apply bits_spec|]. pose proof (div_spec a b Ha Hb) as H. destruct (div a b); [|done].
  destruct H as (? & ? & ?). split; [lia|done].
Qed.

Lemma arith256_modular_witness :
  option_map val (div (of_u64 1000) (of_u64 7)) = Some 142 /\
  val (mul (shl (of_u64 1) 255) (of_u64 3)) = 2 ^ 255.
Proof.
  assert (W1 : wf (of_u64 1000)) by (apply (bool_decide_eq_true_1 _); vm_compute; reflexivity).
  assert (W2 : wf (of_u64 7)) by (apply (bool_decide_eq_true_1 _); vm_compute; reflexivity).
  assert (W3 : wf (shl (of_u64 1) 255)) by (apply (bool_decide_eq_true_1 _); vm_compute; reflexivity).
  assert (W4 : wf (of_u64 3)) by (apply (bool_decide_eq_true_1 _); vm_compute; reflexivity).
  split.
  - destruct (arith256_modular (of_u64 1000) (of_u64 7) 5 9 W1 W2 ltac:(unfold is_u; lia) ltac:(lia))
      as (_ & _ & _ & _ & _ & _ & _ & _ & _ & H).
    destruct (div (of_u64 1000) (of_u64 7)) as [q|]; [|discriminate]. destruct H as (_ & _ & H). cbn. by rewrite H.
  - destruct (arith256_modular (shl (of_u64 1) 255) (of_u64 3) 5 9 W3 W4 ltac:(unfold is_u; lia) ltac:(lia))
      as (_ & _ & [_ ->] & _). vm_compute. reflexivity.
Defined.

Lemma SetCompact_canonical c : canonical c -> is_u 32 c ->
  let '(r, fNegative, fOverflow) := SetCompact c in
  fNegative = false /\ fOverflow = false /\ val r = compact_value c /\ GetCompact r false = c.
Proof.
  intros Hc Hu. pose proof (SetCompact_spec c Hu) as H. destruct (SetCompact c) as [[r neg] ovf].
  destruct H as (Hr & Hv & -> & ->). pose proof Hc as (Hm & Hn & Hlt & _).
  destruct (canonical_compact_of c Hc) as (_ & He & Hp). rewrite Z.mod_small in Hv by lia.
  destruct (compact_split c _ _ (eq_sym He) ltac:(lia) ltac:(lia)) as (_ & _ & ->).
  rewrite andb_false_r. split; [done|]. split; [apply Z.leb_gt; lia|]. split; [done|]. by apply GetCompact_of_value.
Qed.

Lemma SetCompact_GetCompact a : wf a ->
  let '(r, fNegative, fOverflow) := SetCompact (GetCompact a false) in
  fNegative = false /\ fOverflow = false /\
  0 <= val a - val r /\ (val a - val r) * 2 ^ 15 <= val a /\ GetCompact r false = GetCompact a false.
Proof.
  intros Ha. pose proof (wf_bounds a Ha) as Hb.
  destruct (decide (val a = 0)) as [E0|E0].
  { rewrite (GetCompact_zero a Ha E0), E0. vm_compute. repeat split; discriminate. }
  destruct (GetCompact_spec a Ha ltac:(lia)) as (m & n & -> & Hn & Hm & Hc).
  destruct (compact_value_of (val a) m n ltac:(lia) Hm ltac:(lia) Hc) as (H1 & H2 & H3).
  destruct (compact_split _ m n eq_refl ltac:(lia) ltac:(lia)) as (S1 & S2 & _).
  assert (S3 : (m + n * 2 ^ 24) mod 2 ^ 24 = m) by (rewrite Z_mod_plus_full, Z.mod_small by lia; done).
  assert (Hcn : canonical (m + n * 2 ^ 24)).
  { unfold canonical. rewrite S1, S3. split; [lia|]. split; [lia|]. split; [lia|]. intros H3n.
    destruct H3 as [[_ E]|[]]; [|lia]. rewrite E at 1. apply Z.divide_factor_r. }
  pose proof (SetCompact_canonical _ Hcn ltac:(unfold is_u; lia)) as Hcan. destruct (SetCompact _) as [[r neg] ovf].
  destruct Hcan as (-> & -> & Hv & Hg). rewrite Hv. split; [done|]. split; [done|]. split; [lia|]. split; [done|exact Hg].
Qed.

(** The compact target format is a floating point with rounding down: reading
    back the compact form of a 256-bit number sets neither flag and gives a number
    that is at most the original, by less than one part in 2^15, and that has the
    same compact form; a canonical compact number survives [SetCompact] and
    [GetCompact] unchanged. *)
Theorem compact_round_trip :
  (forall a, wf a ->
     let '(r, fNegative, fOverflow) := SetCompact (GetCompact a false) in
     fNegative = false /\ fOverflow = false /\
     0 <= val a - val r /\ (val a - val r) * 2 ^ 15 <= val a /\ GetCompact r false = GetCompact a false) /\
  (forall c, canonical c -> is_u 32 c ->
     let '(r, fNegative, fOverflow) := SetCompact c in
     fNegative = false /\ fOverflow = false /\ val r = compact_value c /\ GetCompact r false = c).
Proof. split; [exact SetCompact_GetCompact|exact SetCompact_canonical]. Qed.

Lemma compact_round_trip_witness :
  let '(r, neg, ovf) := SetCompact 0x200f0f0f in neg = false /\ ovf = false /\ GetCompact r false = 0x200f0f0f.
Proof.
  assert (H1 : canonical 0x200f0f0f) by (repeat split; vm_compute; discriminate || (intros H; exfalso; by apply H)).
  pose proof (proj2 compact_round_trip 0x200f0f0f H1 ltac:(unfold is_u; lia)) as H.
  destruct (SetCompact 0x200f0f0f) as [[r neg] ovf]. destruct H as (? & ? & _ & ?). by split.
Defined.
