(* ===== verification/Pow.v ===== *)
(** * Difficulty and proof of work

    src/src/pow.cpp with the time spans of src/src/consensus/params.h and
    [GetMedianTimePast] of src/src/chain.h.  Targets are [arith_uint256] numbers,
    the limbs of [Arith256].  The chain that ends in [pindexLast] is the list of
    its blocks, the newest first; a null [pindexLast] is the empty list.  [None] is
    undefined behaviour: signed overflow, division by zero (an exception for
    [arith_uint256]) or the null pointer that [GetNextWorkRequired] reads before it
    tests it.  Log output is left out. *)
From stdpp Require Import sorting.
From S2P Require Import Prelude Arith256.
Local Open Scope Z_scope.

(** ** Definitions *)

Record blk := Blk { b_nBits : Z; b_nTime : Z }.

(** [Consensus::Params], the part that is read here. *)
Record pow_params := PowParams {
  powLimit : limbs; powAlternate : limbs;
  nPowAveragingWindow : Z; nPowMaxAdjustDown : Z; nPowMaxAdjustUp : Z;
  nPowTargetSpacing : Z; nLwmaAjustedWeight : Z
}.

(** The globals. *)
Record pow_globals := PowGlobals {
  g_ALGO : Z;                  (* ASSETCHAINS_ALGO *)
  g_ADAPTIVEPOW : Z;
  g_BLOCKTIME : Z;
  g_STAKED : Z;
  g_ishush3 : bool             (* SMART_CHAIN_SYMBOL starts with HUSH3 *)
}.
Definition ASSETCHAINS_EQUIHASH : Z := 0.
Definition ASSETCHAINS_RANDOMX : Z := 1.
Definition HUSH_MINDIFF_NBITS : Z := 0x200f0f0f.
Definition K : Z := 1000000.

(** [arith_uint256(x)] for a signed or unsigned [x]. *)
Definition u256 (x : Z) : limbs := of_u64 (u64 x).
Definition gt (a b : limbs) : bool := 0 <? CompareTo a b.
Definition lt (a b : limbs) : bool := CompareTo a b <? 0.
(** [SetCompact] when the flags are not asked for. *)
Definition set_compact (nCompact : Z) : limbs := (SetCompact nCompact).1.1.

Definition AveragingWindowTimespan (p : pow_params) : Z := nPowAveragingWindow p * nPowTargetSpacing p.
Definition MinActualTimespan (p : pow_params) : Z := Z.quot (AveragingWindowTimespan p * (100 - nPowMaxAdjustUp p)) 100.
Definition MaxActualTimespan (p : pow_params) : Z := Z.quot (AveragingWindowTimespan p * (100 + nPowMaxAdjustDown p)) 100.

(** [GetMedianTimePast()] of the newest block of a chain. *)
Definition GetMedianTimePast (chain : list blk) : Z :=
  let times := merge_sort Z.le (map b_nTime (take 11 chain)) in
  nth (length times / 2) times 0.

Section Pow.
Context (G : pow_globals).
Let T := g_BLOCKTIME G.

Definition lim (l : list limbs) (i : nat) : limbs := nth i l (of_u64 0).

Definition RT_CST_RST_outer (nTime : Z) (bnTarget : limbs) (ts : list Z) (ct : list limbs)
  (numerator denominator : Z) (W : nat) : option limbs :=
  mintarget ← div bnTarget (u256 2);
  tn ← i32 (T * numerator);
  cmpval ← quot tn denominator;
  let cmpval := if cmpval <? 2 then 2 else cmpval in
  let dt := u32 (rd ts 0 - rd ts W) in
  if dt <? u32 cmpval then
    k ← i64 (K * u32 (nTime - rd ts 0));
    k ← i64 (k * dt);
    k ← i64 (k * denominator);
    tt ← i32 (T * T);
    den ← i32 (numerator * tt);
    outerK ← quot k den;
    bnTarget ← (if outerK <? K then q ← div (lim ct 0) (u256 K); Some (mul q (u256 outerK)) else Some bnTarget);
    Some (if gt bnTarget mintarget then mintarget else bnTarget)
  else Some bnTarget.

Definition RT_CST_RST_target (nTime : Z) (ts : list Z) (ct : list limbs) (width : nat) : option limbs :=
  let sum := foldl (fun s i => add s (lim ct i)) (lim ct 0) (seq 1 (width - 1)) in
  avg ← div sum (u256 (Z.of_nat width * K));
  k ← i64 (K * u32 (nTime - rd ts 0));
  k ← i64 (k * u32 (rd ts 0 - rd ts width));
  den ← i32 (Z.of_nat width * T);
  den ← i32 (den * T);
  innerK ← quot k den;
  Some (mul avg (u256 innerK)).

Definition RT_CST_RST_inner (nTime : Z) (bnTarget : limbs) (ts : list Z) (ct : list limbs)
  (W outeri : nat) : option limbs :=
  let width := (outeri + W)%nat in
  expected ← i32 ((Z.of_nat width + 1) * T);
  let elapsed := s32 (rd ts 0 - rd ts width) in
  if elapsed <? expected then
    q ← div bnTarget (u256 101);
    let mintarget := mul q (u256 100) in
    target ← RT_CST_RST_target nTime ts ct W;
    Some (if bool_decide (target = bnTarget) then mintarget else target)
  else Some bnTarget.

(** A *= 3, n times, with the overflow of [int64_t]. *)
Fixpoint pow3 (n : nat) (A : Z) : option Z :=
  match n with
  | O => Some A
  | S n => A ← i64 (A * 3); pow3 n A
  end.

Definition zawy_exponential_val360000 (num : Z) : option Z :=
  n ← quot num T;
  A ← (if 0 <? n then pow3 (Z.to_nat n) 1 else Some 1);
  let modval := Z.rem num T in
  B ← (if negb (modval =? 0) then
         b1 ← i32 (3600 * 110 * modval);
         b2 ← i32 (3600 * 60 * modval);
         b2 ← i32 (b2 * modval);
         tt ← i32 (T * T);
         Some (3600 * 100 + Z.quot b1 T + Z.quot b2 tt)
       else Some (3600 * 100));
  i64 (A * B).

Definition zawy_exponential (bnTarget : limbs) (mult : Z) : option limbs :=
  q ← div bnTarget (u256 (100 * 3600));
  v ← zawy_exponential_val360000 mult;
  Some (mul q (u256 v)).

Definition zawy_ctB (bnTarget : limbs) (solvetime : Z) : option limbs :=
  n ← i64 (1000 * solvetime);
  n ← i64 (n * solvetime);
  n ← i64 (n * 1000);
  tt ← i32 (T * T);
  den ← i32 (tt * 784);
  num ← quot n den;
  if 1 <? num then q ← div bnTarget (u256 1000); Some (mul q (u256 num)) else Some bnTarget.

Definition zawy_TSA_EMA (tipdiff : Z) (prevTarget : limbs) : option limbs :=
  let tipdiff := if tipdiff <? 4 then 4 else tipdiff in
  let tipdiff := Z.land tipdiff (Z.lnot 1) in
  kt ← i64 (K * T);
  bnTarget ← div prevTarget (u256 kt);
  let A := mul bnTarget (u256 T) in
  v ← zawy_exponential_val360000 (Z.quot tipdiff 2);
  q ← div bnTarget (u256 360000);
  tv ← i64 (tipdiff * v);
  let B := mul q (u256 tv) in
  cv ← i64 (T * v);
  let C := mul q (u256 cv) in
  r ← div (sub (add A B) C) (u256 tipdiff);
  Some (mul r (u256 kt)).

Definition bnLimit (p : pow_params) : limbs :=
  if g_ALGO G =? ASSETCHAINS_EQUIHASH then powLimit p else powAlternate p.

(** The function [AveragingWindowTimespan()] of pow.cpp. *)
Definition AWT (p : pow_params) : Z := if g_ishush3 G then 1275 else AveragingWindowTimespan p.

Definition CalculateNextWorkRequired (bnAvg : limbs) (nLastBlockTime nFirstBlockTime : Z) (p : pow_params) : option Z :=
  let nActualTimespan := nLastBlockTime - nFirstBlockTime in
  let nActualTimespan := AWT p + Z.quot (nActualTimespan - AWT p) 4 in
  let nActualTimespan :=
    if g_ADAPTIVEPOW G <=? 0 then
      let n := if nActualTimespan <? MinActualTimespan p then MinActualTimespan p else nActualTimespan in
      if MaxActualTimespan p <? n then MaxActualTimespan p else n
    else nActualTimespan in
  q ← div bnAvg (u256 (AWT p));
  let bnNew := mul32 q (u32 nActualTimespan) in
  let bnNew := if gt bnNew (bnLimit p) then bnLimit p else bnNew in
  Some (GetCompact bnNew false).

(** The loop of [lwmaCalculateNextWorkRequired]: [t], [sumTarget] and what is left
    of the chain ([pindexFirst]). *)
Fixpoint lwma_loop (fuel : nat) (chain : list blk) (j k N t : Z) (sumTarget : limbs) : option (Z * limbs * list blk) :=
  match fuel, chain with
  | S fuel, next :: chain =>
    match chain with
    | [] => Some (t, sumTarget, [])
    | first :: _ =>
      let solvetime := b_nTime next - b_nTime first in
      q ← div (set_compact (b_nBits next)) (u256 (k * N * N));
      lwma_loop fuel chain (j - 1) k N (t + solvetime * j) (add sumTarget q)
    end
  | _, _ => Some (t, sumTarget, chain)
  end.

Definition lwmaCalculateNextWorkRequired (chain : list blk) (p : pow_params) : option Z :=
  let k := nLwmaAjustedWeight p in
  let N := nPowAveragingWindow p in
  r ← lwma_loop (Z.to_nat N) chain (N - 1) k N 0 (of_u64 0);
  let '(t, sumTarget, first) := (r : Z * limbs * list blk) in
  match first with
  | [] => Some (GetCompact (bnLimit p) false)
  | _ =>
    let t := if t <? Z.quot (N * k) 3 then Z.quot (N * k) 3 else t in
    let nextTarget := mul (u256 t) sumTarget in
    Some (GetCompact (if gt nextTarget (bnLimit p) then bnLimit p else nextTarget) false)
  end.

Definition NUMCT : nat := 64.

(** [zflags], [ct] and [ts] of the last 64 blocks, filled when the chain is long
    enough; [ct] of a block whose flag is 1 or 2 is corrected when there is an
    older block still. *)
Definition fill_ct (chain : list blk) : option (list Z * list limbs * list Z) :=
  let l := take NUMCT chain in
  let pad {A} (x : A) (l : list A) := l ++ replicate (NUMCT - length l) x in
  let zflags := pad 0 (map (fun b => Z.land (b_nBits b) 3) l) in
  let ct := pad (of_u64 0) (map (fun b => set_compact (b_nBits b)) l) in
  let ts := pad 0 (map b_nTime l) in
  match drop NUMCT chain with
  | [] => Some (zflags, ct, ts)
  | _ =>
    ct ← mapM (fun i => let c := lim ct i in
                 if (i <? NUMCT - 1)%nat && ((rd zflags i =? 1) || (rd zflags i =? 2))
                 then zawy_ctB c (u32 (rd ts i - rd ts (S i))) else Some c) (seq 0 NUMCT);
    Some (zflags, ct, ts)
  end.

(** The averaging loop: the sum of the targets, [mult] and what is left of the
    chain ([pindexFirst]). *)
Fixpoint avg_loop (fuel : nat) (chain : list blk) (i : nat) (pblock : option blk) (zflags : list Z)
  (mult : Z) (bnTot : limbs) : option (limbs * Z * list blk) :=
  match fuel, chain with
  | S fuel, b :: chain =>
    let bnTmp := set_compact (b_nBits b) in
    r ← match pblock with
        | Some pb =>
          if 0 <? g_ADAPTIVEPOW G then
            let diff := s32 (b_nTime pb - b_nTime b) in
            mult ← (if (i <? 6)%nat then
                      k ← i32 ((8 + Z.of_nat i) * T);
                      diff ← i32 (diff - k);
                      Some (if mult <? diff then diff else mult)
                    else Some mult);
            bnTmp ← (if negb (rd zflags i =? 0) && (rd zflags 0 =? 0)
                     then q ← div bnTmp (u256 8); Some (mul q (u256 7)) else Some bnTmp);
            Some (mult, bnTmp)
          else Some (mult, bnTmp)
        | None => Some (mult, bnTmp)
        end;
    let '(mult, bnTmp) := (r : Z * limbs) in
    avg_loop fuel chain (S i) pblock zflags mult (add bnTot bnTmp)
  | _, _ => Some (bnTot, mult, chain)
  end.

(** The outer triggers, in the order of the code: the first that lowers the target
    decides. *)
Fixpoint outer_triggers (nTime : Z) (orig : limbs) (ts : list Z) (ct : list limbs) (last : limbs)
  (params : list (Z * Z * nat)) : option (limbs * Z) :=
  match params with
  | [] => Some (last, 0)
  | (num, den, W) :: params =>
    t ← RT_CST_RST_outer nTime orig ts ct num den W;
    if lt t orig then Some (t, 2) else outer_triggers nTime orig ts ct t params
  end.

(** The inner ones: each may lower the target further. *)
Fixpoint inner_triggers (nTime : Z) (ts : list Z) (ct : list limbs) (i : nat) (bnTarget : limbs)
  (params : list (nat * nat)) : option limbs :=
  match params with
  | [] => Some bnTarget
  | (bound, W) :: params =>
    bnTarget ← (if (i <? bound)%nat then
                  t ← RT_CST_RST_inner nTime bnTarget ts ct W i;
                  Some (if lt t bnTarget then t else bnTarget)
                else Some bnTarget);
    inner_triggers nTime ts ct i bnTarget params
  end.

(** The adaptive target and [zawyflag]. *)
Definition adapt (nTime : Z) (bnTarget : limbs) (zflags ts : list Z) (ct : list limbs) : option (limbs * Z) :=
  if (rd zflags 0 =? 0) || (rd zflags 0 =? 3) then
    let first := if (60 <=? T) && (T <? 100) then [(1, 60, 1%nat)] else if 100 <=? T then [(1, 100, 1%nat)] else [] in
    outer_triggers nTime bnTarget ts ct bnTarget (first ++ [(15, 100, 2%nat); (1, 2, 3%nat); (7, 3, 6%nat); (12, 7, 12%nat)])
  else
    let i := default 50%nat (List.find (fun i => rd zflags i =? 2) (seq 0 50)) in
    t ← inner_triggers nTime ts ct i bnTarget [(10, 1); (20, 2); (30, 3); (40, 6); (50, 12)]%nat;
    Some (t, if bool_decide (t = bnTarget) then 0 else 1).

Definition set_flag (nbits flag : Z) : Z := Z.lor (Z.land nbits 0xfffffffc) flag.

(** [GetNextWorkRequired]; [last_height] is [pindexLast->GetHeight()]. *)
Definition GetNextWorkRequired (chain : list blk) (last_height : Z) (pblock : option blk) (p : pow_params) : option Z :=
  match chain with
  | [] => None
  | tip :: _ =>
    if negb (g_ALGO G =? ASSETCHAINS_EQUIHASH) && negb (g_ALGO G =? ASSETCHAINS_RANDOMX)
    then lwmaCalculateNextWorkRequired chain p
    else
      let nProofOfWorkLimit := GetCompact (bnLimit p) false in
      height ← i32 (last_height + 1);
      let long := (0 <? g_ADAPTIVEPOW G) && (Z.of_nat NUMCT <=? height) in
      let zeros := (replicate NUMCT 0, replicate NUMCT (of_u64 0), replicate NUMCT 0) in
      a ← match pblock with
          | Some pb =>
            if long then
              let tipdiff := s32 (b_nTime pb - b_nTime tip) in
              t7 ← i32 (7 * T);
              mult ← i32 (tipdiff - t7);
              arrays ← fill_ct chain;
              Some (arrays, tipdiff, mult)
            else Some (zeros, 0, 0)
          | None => Some (zeros, 0, 0)
          end;
      let '(zflags, ct, ts, tipdiff, mult) := (a : list Z * list limbs * list Z * Z * Z) in
      if long && (match pblock with Some _ => true | None => false end) && (g_ADAPTIVEPOW G =? 2) then
        t ← zawy_TSA_EMA tipdiff (lim ct 0);
        Some (set_flag (GetCompact t false) 0)
      else
        r ← avg_loop (Z.to_nat (nPowAveragingWindow p)) chain 0 pblock zflags mult (of_u64 0);
        let '(bnTot, mult, first) := (r : limbs * Z * list blk) in
        match first with
        | [] => Some nProofOfWorkLimit
        | _ =>
          bnAvg ← div bnTot (u256 (nPowAveragingWindow p));
          nbits ← CalculateNextWorkRequired bnAvg (GetMedianTimePast chain) (GetMedianTimePast first) p;
          if 0 <? g_ADAPTIVEPOW G then
            let bnTarget := set_compact nbits in
            match pblock with
            | Some pb =>
              if (Z.of_nat NUMCT <? height) && (0 <? tipdiff) then
                let easy := set_compact (Z.land HUSH_MINDIFF_NBITS (Z.lnot 3)) in
                r ← adapt (b_nTime pb) bnTarget zflags ts ct;
                let '(bnTarget, zawyflag) := (r : limbs * Z) in
                if 1 <? mult then
                  t ← zawy_exponential bnTarget mult;
                  if lt t bnTarget || gt t easy then Some (Z.land HUSH_MINDIFF_NBITS (Z.lnot 3))
                  else Some (set_flag (GetCompact t false) zawyflag)
                else Some (set_flag (GetCompact bnTarget false) zawyflag)
              else Some (set_flag (GetCompact bnTarget false) 0)
            | None => Some (set_flag (GetCompact bnTarget false) 0)
            end
          else Some nbits
        end
  end.

(** [CheckProofOfWork]; [hash] is the number of the block hash, [tip] the value of
    [hush_currentheight()]. *)
Definition CheckProofOfWork (nBits : Z) (hash : limbs) (height tip : Z) (HUSH_LOADINGBLOCKS : Z) (p : pow_params) : bool :=
  let '(bnTarget, fNegative, fOverflow) := SetCompact nBits in
  let height := if height =? 0 then tip + 1 else height in
  let limit := if (height <=? 1) || (g_ALGO G =? ASSETCHAINS_EQUIHASH) then powLimit p else powAlternate p in
  if fNegative || EqualTo bnTarget 0 || fOverflow || gt bnTarget limit then false
  else
    let bnTarget := if negb (g_STAKED G =? 0) then set_compact HUSH_MINDIFF_NBITS else bnTarget in
    if gt hash bnTarget then
      if negb (HUSH_LOADINGBLOCKS =? 0) then true else true
    else true.

End Pow.

(** [DoesHashQualify]: the assignment inside the comparison happens first. *)
Definition DoesHashQualify (hash : limbs) (nBits : Z) : bool :=
  let target := set_compact nBits in negb (gt target target).

(** [GetBlockProof]: the work of a block. *)
Definition GetBlockProof (nBits : Z) : option limbs :=
  let '(t, fNegative, fOverflow) := SetCompact nBits in
  if fNegative || fOverflow || EqualTo t 0 then Some (of_u64 0)
  else q ← div (bnot t) (add t (of_u64 1)); Some (add q (of_u64 1)).

Definition GetBlockProofEquivalentTime (to from tip_nBits_work : limbs) (spacing : Z) : option Z :=
  let '(r, sign) := if gt to from then (sub to from, 1) else (sub from to, -1) in
  r ← div (mul r (u256 spacing)) tip_nBits_work;
  if 63 <? bits r then Some (sign * (2 ^ 63 - 1)) else Some (s64 (u64 sign * GetLow64 r)).

(** ** Targets as numbers *)

Lemma gt_spec a b : wf a -> wf b -> gt a b = (val b <? val a).
Proof. intros Ha Hb. unfold gt. rewrite CompareTo_spec by done. unfold cmp. destruct (Z.ltb_spec (val a) (val b)), (Z.ltb_spec (val b) (val a)); done || lia. Qed.

Lemma lt_spec a b : wf a -> wf b -> lt a b = (val a <? val b).
Proof. intros Ha Hb. unfold lt. rewrite CompareTo_spec by done. unfold cmp. destruct (Z.ltb_spec (val a) (val b)), (Z.ltb_spec (val b) (val a)); done || lia. Qed.

Lemma u256_spec x : 0 <= x < 2 ^ 64 -> wf (u256 x) /\ val (u256 x) = x.
Proof. intros Hx. unfold u256. rewrite u64_id by done. by apply of_u64_spec. Qed.

Lemma set_compact_wf c : is_u 32 c -> wf (set_compact c).
Proof.
  intros Hc. unfold set_compact. pose proof (SetCompact_spec c Hc) as H.
  destruct (SetCompact c) as [[r n] o]. apply H.
Qed.

Lemma GetCompact_range a : wf a -> is_u 32 (GetCompact a false).
Proof.
  intros Ha. pose proof (wf_bounds a Ha). destruct (decide (val a = 0)) as [E|E].
  - by rewrite GetCompact_zero.
  - destruct (GetCompact_spec a Ha) as (m & n & -> & Hn & Hm & _); [lia|]. unfold is_u. lia.
Qed.

(** What [SetCompact] gives for the compact form of a number. *)
Lemma set_compact_GetCompact a : wf a ->
  exists r, SetCompact (GetCompact a false) = (r, false, false) /\ wf r /\
    val r <= val a /\ (val a - val r) * 2 ^ 15 <= val a.
Proof.
  intros Ha. pose proof (SetCompact_GetCompact a Ha) as H.
  pose proof (SetCompact_spec _ (GetCompact_range a Ha)) as Hs.
  destruct (SetCompact (GetCompact a false)) as [[r n] o]. destruct H as (-> & -> & H1 & H2 & _).
  exists r. split; [done|]. split; [apply Hs|]. lia.
Qed.

(** ** Retargeting *)

Section Retarget.
Context (G : pow_globals) (p : pow_params).
Context (Hlim : wf (powLimit p)) (Halt : wf (powAlternate p)).
Context (Hawt : 0 < AWT G p < 2 ^ 64).

Lemma bnLimit_wf : wf (bnLimit G p).
Proof. unfold bnLimit. by destruct (_ =? _). Qed.

(** The time span that is used. *)
Definition timespan (last first : Z) : Z :=
  let n := AWT G p + Z.quot (last - first - AWT G p) 4 in
  Z.min (MaxActualTimespan p) (Z.max (MinActualTimespan p) n).

Lemma calculate_spec avg last first :
  wf avg -> g_ADAPTIVEPOW G <= 0 ->
  exists new, CalculateNextWorkRequired G avg last first p = Some (GetCompact new false) /\ wf new /\
    val new = Z.min (val (bnLimit G p)) ((val avg / AWT G p * u32 (timespan last first)) mod 2 ^ 256).
Proof.
  intros Ha Had. unfold CalculateNextWorkRequired. rewrite (proj2 (Z.leb_le _ _) Had).
  set (n := AWT G p + _). set (n' := if n <? _ then _ else n). set (ts := if _ <? n' then _ else n').
  assert (Hts : ts = timespan last first).
  { unfold ts, n', timespan. fold n.
    destruct (Z.ltb_spec n (MinActualTimespan p)); match goal with |- context [?a <? ?b] => destruct (Z.ltb_spec a b) end; lia. }
  rewrite Hts. destruct (u256_spec (AWT G p)) as [Wd Vd]; [lia|].
  pose proof (div_spec avg (u256 (AWT G p)) Ha Wd) as Hd. rewrite Vd in Hd.
  destruct (div avg (u256 (AWT G p))) as [q|]; [|lia]. destruct Hd as (_ & Wq & Vq). cbn [mbind option_bind].
  destruct (mul32_spec q (u32 (timespan last first)) Wq (u32_range _)) as [Wm Vm]. rewrite Vq in Vm.
  pose proof bnLimit_wf as Wl. eexists. split; [reflexivity|].
  rewrite gt_spec by done. destruct (Z.ltb_spec (val (bnLimit G p)) (val (mul32 q (u32 (timespan last first))))).
  - split; [done|]. lia.
  - split; [done|]. lia.
Qed.

Lemma avg_loop_plain fuel chain i pblock zf mult tot :
  g_ADAPTIVEPOW G <= 0 -> wf tot -> Forall (fun b => is_u 32 (b_nBits b)) chain ->
  exists tot', avg_loop G fuel chain i pblock zf mult tot = Some (tot', mult, drop fuel chain) /\ wf tot'.
Proof.
  intros Had. revert chain i tot. induction fuel as [|fuel IH]; intros chain i tot Ht Hc; cbn [avg_loop].
  { by exists tot. }
  destruct chain as [|b chain]; [by exists tot|]. inversion Hc; subst.
  rewrite (proj2 (Z.ltb_ge 0 _) Had).
  assert (Hr : match pblock with Some pb => Some (mult, set_compact (b_nBits b)) | None => Some (mult, set_compact (b_nBits b)) end
    = Some (mult, set_compact (b_nBits b))) by by destruct pblock.
  rewrite Hr. cbn [mbind option_bind drop]. apply IH; [|done].
  apply add_spec; [done|]. by apply set_compact_wf.
Qed.

(** Without the adaptive rules every chain has a next target: the compact form of a
    number that is at most the limit. *)
Lemma next_work_total chain last_height pblock :
  chain <> [] -> Forall (fun b => is_u 32 (b_nBits b)) chain -> is_s32 (last_height + 1) ->
  g_ADAPTIVEPOW G <= 0 -> 0 < nPowAveragingWindow p < 2 ^ 64 ->
  g_ALGO G = ASSETCHAINS_EQUIHASH \/ g_ALGO G = ASSETCHAINS_RANDOMX ->
  exists new, GetNextWorkRequired G chain last_height pblock p = Some (GetCompact new false) /\ wf new /\
    val new <= val (bnLimit G p).
Proof.
  intros Hne Hc Hh Had Hw Halgo. destruct chain as [|tip chain]; [done|]. cbn [GetNextWorkRequired].
  replace (negb (g_ALGO G =? ASSETCHAINS_EQUIHASH) && negb (g_ALGO G =? ASSETCHAINS_RANDOMX)) with false
    by (destruct Halgo as [->| ->]; done).
  assert (Hi : i32 (last_height + 1) = Some (last_height + 1)) by (unfold i32; by rewrite decide_True).
  rewrite Hi. cbn [mbind option_bind].
  rewrite (proj2 (Z.ltb_ge 0 _) Had). cbn [andb].
  assert (Hz : forall (A : Type) (x : A), match pblock with Some _ => Some x | None => Some x end = Some x) by by destruct pblock.
  rewrite Hz. cbn [mbind option_bind].
  destruct (of_u64_spec 0) as [W0 _]; [lia|].
  destruct (avg_loop_plain (Z.to_nat (nPowAveragingWindow p)) (tip :: chain) 0 pblock (replicate NUMCT 0) 0 _ Had W0 Hc)
    as (tot & -> & Wt). cbn [mbind option_bind].
  pose proof bnLimit_wf as Wl.
  destruct (drop _ (tip :: chain)) as [|f fs]; [by exists (bnLimit G p)|].
  destruct (u256_spec (nPowAveragingWindow p)) as [Wd Vd]; [lia|].
  pose proof (div_spec tot _ Wt Wd) as Hd. rewrite Vd in Hd. destruct (div tot _) as [avg|]; [|lia].
  destruct Hd as (_ & Wa & _). cbn [mbind option_bind].
  destruct (calculate_spec avg (GetMedianTimePast (tip :: chain)) (GetMedianTimePast (f :: fs)) Wa Had) as (new & -> & Wn & Vn).
  cbn [mbind option_bind]. exists new. split; [done|]. split; [done|]. lia.
Qed.
End Retarget.

(** The limit that [CheckProofOfWork] uses. *)
Definition check_limit (G : pow_globals) (height tip : Z) (p : pow_params) : limbs :=
  let height := if height =? 0 then tip + 1 else height in
  if (height <=? 1) || (g_ALGO G =? ASSETCHAINS_EQUIHASH) then powLimit p else powAlternate p.

Lemma check_spec G nBits hash height tip loading p :
  is_u 32 nBits -> wf (powLimit p) -> wf (powAlternate p) ->
  CheckProofOfWork G nBits hash height tip loading p = true <->
  let '(t, fNegative, fOverflow) := SetCompact nBits in
  fNegative = false /\ fOverflow = false /\ 0 < val t <= val (check_limit G height tip p).
Proof.
  intros Hn Hl Ha. unfold CheckProofOfWork. fold (check_limit G height tip p).
  pose proof (SetCompact_spec nBits Hn) as Hs. destruct (SetCompact nBits) as [[t neg] ovf]. destruct Hs as (Wt & _).
  assert (Wl : wf (check_limit G height tip p)) by (unfold check_limit; by destruct (_ || _)).
  pose proof (wf_bounds t Wt). rewrite gt_spec, EqualTo_spec by (done || unfold is_u; lia).
  set (lim := val (check_limit G height tip p)). clearbody lim.
  destruct neg, ovf, (Z.eqb_spec (val t) 0), (Z.ltb_spec lim (val t)); cbn [orb];
    try (split; [done|intros (? & ? & ?); try done; lia]).
  split; [intros _; split; [done|]; split; [done|]; lia|intros _].
  destruct (gt hash _); [|done]. by destruct (negb _).
Qed.

(** [CheckProofOfWork] looks only at the target: a header is accepted exactly if
    its [nBits] is a positive number without overflow that does not exceed the
    limit, whatever the hash of the block. *)
Theorem check_proof_of_work_ignores_hash G nBits height tip p :
  is_u 32 nBits -> wf (powLimit p) -> wf (powAlternate p) ->
  exists accepted : bool,
    (forall hash loading, CheckProofOfWork G nBits hash height tip loading p = accepted) /\
    (accepted = true <->
     let '(t, fNegative, fOverflow) := SetCompact nBits in
     fNegative = false /\ fOverflow = false /\ 0 < val t <= val (check_limit G height tip p)).
Proof.
  intros Hn Hl Ha. exists (CheckProofOfWork G nBits [] height tip 0 p).
  split; [intros hash loading; apply eq_true_iff_eq; by rewrite !check_spec|by apply check_spec].
Qed.

(** The parameters of chainparams.cpp for the main network at 75 seconds. *)
Definition demo_limit : limbs := UintToArith256 (replicate 32 0x0f).
Definition demo_params : pow_params := PowParams demo_limit demo_limit 17 32 16 75 0.
Definition demo_G : pow_globals := PowGlobals ASSETCHAINS_EQUIHASH 0 75 0 true.

Lemma check_proof_of_work_ignores_hash_witness :
  CheckProofOfWork demo_G 0x1d00ffff (bnot (of_u64 0)) 600000 599999 0 demo_params = true.
Proof.
  destruct (check_proof_of_work_ignores_hash demo_G 0x1d00ffff 600000 599999 demo_params) as (b & Hb & Ht);
    [unfold is_u; lia|apply (bool_decide_eq_true_1 _); vm_compute; reflexivity..|].
  rewrite Hb. apply Ht. vm_compute. repeat split; discriminate.
Defined.

(** On a chain without the adaptive rules the next target always exists and the
    node accepts it: for every chain and block [GetNextWorkRequired] returns a
    compact number that decodes without flags to at most the limit, and unless
    that number is zero [CheckProofOfWork] accepts a header that carries it, at
    every height above 1. *)
Theorem next_work_accepted G p chain last_height pblock :
  wf (powLimit p) -> wf (powAlternate p) -> 0 < AWT G p < 2 ^ 64 -> 0 < nPowAveragingWindow p < 2 ^ 64 ->
  g_ADAPTIVEPOW G <= 0 -> g_ALGO G = ASSETCHAINS_EQUIHASH \/ g_ALGO G = ASSETCHAINS_RANDOMX ->
  chain <> [] -> Forall (fun b => is_u 32 (b_nBits b)) chain -> is_s32 (last_height + 1) ->
  exists nBits t, GetNextWorkRequired G chain last_height pblock p = Some nBits /\
    SetCompact nBits = (t, false, false) /\ val t <= val (bnLimit G p) /\
    (val t <> 0 -> forall hash height tip loading, 1 < height ->
       CheckProofOfWork G nBits hash height tip loading p = true).
Proof.
  intros Hl Ha Hawt Hw Had Halgo Hne Hc Hh.
  destruct (next_work_total G p Hl Ha Hawt chain last_height pblock Hne Hc Hh Had Hw Halgo) as (new & Hn & Wn & Vn).
  destruct (set_compact_GetCompact new Wn) as (r & Hr & Wr & Hle & _).
  exists (GetCompact new false), r. split; [done|]. split; [done|]. split; [lia|].
  intros H0 hash height tip loading Hht. apply check_spec; [by apply GetCompact_range|done..|].
  rewrite Hr. split; [done|]. split; [done|]. pose proof (wf_bounds r Wr).
  assert (Hlimit : check_limit G height tip p = bnLimit G p).
  { unfold check_limit, bnLimit. destruct (Z.eqb_spec height 0); [lia|].
    rewrite (proj2 (Z.leb_gt height 1)) by lia. done. }
  rewrite Hlimit. lia.
Qed.

Lemma next_work_accepted_witness :
  exists nBits, GetNextWorkRequired demo_G (map (fun i => Blk 0x1e0fffff (1600000000 - 75 * Z.of_nat i)) (seq 0 40)) 600000
      (Some (Blk 0 1600000075)) demo_params = Some nBits /\
    CheckProofOfWork demo_G nBits (bnot (of_u64 0)) 600001 600000 0 demo_params = true.
Proof.
  destruct (next_work_accepted demo_G demo_params (map (fun i => Blk 0x1e0fffff (1600000000 - 75 * Z.of_nat i)) (seq 0 40)) 600000
    (Some (Blk 0 1600000075))) as (nBits & t & Hn & Hs & _ & Hok);
    [apply (bool_decide_eq_true_1 _); vm_compute; reflexivity..|cbn; lia|cbn; lia|cbn; lia|by left|done| | |].
  - apply (bool_decide_eq_true_1 _). vm_compute. reflexivity.
  - apply (bool_decide_eq_true_1 _). vm_compute. reflexivity.
  - exists nBits. split; [done|]. apply Hok; [|lia]. intros H0.
    assert (E : option_map (fun b => val (SetCompact b).1.1 =? 0)
      (GetNextWorkRequired demo_G (map (fun i => Blk 0x1e0fffff (1600000000 - 75 * Z.of_nat i)) (seq 0 40)) 600000
        (Some (Blk 0 1600000075)) demo_params) = Some false) by (vm_compute; reflexivity).
    rewrite Hn in E. cbn [option_map] in E. rewrite Hs in E. cbn [fst] in E. rewrite H0 in E. discriminate.
Defined.

(** The retarget is bounded: with an average target below 2^252 and time limits
    of at most 16 windows the new target is the average, scaled by a time span
    between [MinActualTimespan] and [MaxActualTimespan] over the window, cut at
    the limit, and rounded down by less than one part in 2^15. *)
Theorem retarget_bounded G p avg last first :
  wf (powLimit p) -> wf (powAlternate p) -> g_ADAPTIVEPOW G <= 0 ->
  0 < AWT G p < 2 ^ 64 -> wf avg -> val avg < 2 ^ 252 ->
  0 <= MinActualTimespan p <= MaxActualTimespan p -> MaxActualTimespan p < 2 ^ 32 -> MaxActualTimespan p <= 16 * AWT G p ->
  exists nBits t span, CalculateNextWorkRequired G avg last first p = Some nBits /\
    SetCompact nBits = (t, false, false) /\ MinActualTimespan p <= span <= MaxActualTimespan p /\
    let x := Z.min (val (bnLimit G p)) (val avg / AWT G p * span) in
    val t <= x /\ (x - val t) * 2 ^ 15 <= x.
Proof.
  intros Hl Ha Had Hawt Wa Hsm Hmm H32 H16.
  destruct (calculate_spec G p Hl Ha Hawt avg last first Wa Had) as (new & Hc & Wn & Vn).
  destruct (set_compact_GetCompact new Wn) as (r & Hr & Wr & Hle & Hprec).
  exists (GetCompact new false), r, (timespan G p last first).
  assert (Hspan : MinActualTimespan p <= timespan G p last first <= MaxActualTimespan p) by (unfold timespan; lia).
  split; [done|]. split; [done|]. split; [done|]. cbv zeta.
  rewrite u32_id in Vn by (unfold is_u; lia). pose proof (wf_bounds avg Wa).
  assert (Hq : 0 <= val avg / AWT G p * timespan G p last first < 2 ^ 256).
  { assert (0 <= val avg / AWT G p) by (apply Z.div_pos; lia).
    pose proof (Z.mul_div_le (val avg) (AWT G p) ltac:(lia)). nia. }
  rewrite Z.mod_small in Vn by done. rewrite <- Vn. split; [done|]. done.
Qed.

Lemma retarget_bounded_witness :
  exists nBits t span, CalculateNextWorkRequired demo_G (set_compact 0x1e0fffff) 1600000000 1599998000 demo_params = Some nBits /\
    SetCompact nBits = (t, false, false) /\ 1071 <= span <= 1683 /\
    let x := Z.min (val demo_limit) (val (set_compact 0x1e0fffff) / 1275 * span) in
    val t <= x /\ (x - val t) * 2 ^ 15 <= x.
Proof.
  apply (retarget_bounded demo_G demo_params (set_compact 0x1e0fffff) 1600000000 1599998000);
    [apply (bool_decide_eq_true_1 _); vm_compute; reflexivity..|cbn; lia|cbn; lia| | | | |];
    try (apply (bool_decide_eq_true_1 _); vm_compute; reflexivity); vm_compute; try split; (discriminate || reflexivity).
Defined.

(** The operands of the division in [GetBlockProof]. *)
Lemma proof_terms nBits t neg :
  is_u 32 nBits -> SetCompact nBits = (t, neg, false) ->
  wf (bnot t) /\ val (bnot t) = 2 ^ 256 - 1 - val t /\ wf (add t (of_u64 1)) /\ val (add t (of_u64 1)) = val t + 1.
Proof.
  intros Hn Ht. pose proof (SetCompact_spec nBits Hn) as Hs. rewrite Ht in Hs. destruct Hs as (Wt & Vt & _ & Hovf).
  pose proof (wf_bounds t Wt) as Hb. destruct (of_u64_spec 1) as [W1 V1]; [lia|].
  destruct (add_spec t (of_u64 1) Wt W1) as [Wa Va].
  assert (Hlt : val t < 2 ^ 256 - 1).
  { symmetry in Hovf. apply Z.leb_gt in Hovf. destruct (decide (val t = 2 ^ 256 - 1)) as [E|]; [|lia].
    exfalso. rewrite E in Vt. rewrite Z.mod_small in Vt by (split; [by apply compact_value_nonneg|done]).
    by apply (compact_value_not_max nBits Hn). }
  rewrite V1, Z.mod_small in Va by lia.
  destruct Wt as [L F]. destruct (bnot_spec t F) as (Vb & Fb & Lb).
  split; [split; congruence|]. split; [|done]. rewrite Vb. unfold Zlen. by rewrite L.
Qed.

Lemma block_proof_total nBits : is_u 32 nBits -> exists w, GetBlockProof nBits = Some w /\ wf w.
Proof.
  intros Hn. unfold GetBlockProof. destruct (of_u64_spec 0) as [W0 _]; [lia|]. destruct (of_u64_spec 1) as [W1 _]; [lia|].
  destruct (SetCompact nBits) as [[t neg] ovf] eqn:Es.
  destruct (neg || ovf || EqualTo t 0) eqn:E; [by exists (of_u64 0)|].
  apply orb_false_iff in E as [E _]. apply orb_false_iff in E as [_ ->].
  destruct (proof_terms nBits t neg Hn Es) as (Wb & _ & Wa & Va).
  pose proof (div_spec _ _ Wb Wa) as Hd. destruct (div (bnot t) (add t (of_u64 1))) as [q|].
  - cbn [mbind option_bind]. exists (add q (of_u64 1)). split; [done|]. apply add_spec; [apply Hd|done].
  - pose proof (SetCompact_spec nBits Hn) as Hs. rewrite Es in Hs. destruct Hs as (Wt & _). pose proof (wf_bounds t Wt). lia.
Qed.

(** The work credited for a block is exact: for a valid target [t] the expression
    [(~t / (t + 1)) + 1], which stays within 256 bits, is the floor of
    2^256 / (t + 1); invalid and zero targets count nothing. *)
Theorem block_proof_exact nBits :
  is_u 32 nBits ->
  let '(t, fNegative, fOverflow) := SetCompact nBits in
  exists w, GetBlockProof nBits = Some w /\ wf w /\
    val w = if fNegative || fOverflow || (val t =? 0) then 0 else 2 ^ 256 / (val t + 1).
Proof.
  intros Hn. unfold GetBlockProof. pose proof (SetCompact_spec nBits Hn) as Hs.
  destruct (SetCompact nBits) as [[t neg] ovf] eqn:Es. destruct Hs as (Wt & _).
  pose proof (wf_bounds t Wt) as Hb. rewrite EqualTo_spec by (done || unfold is_u; lia).
  destruct (of_u64_spec 0) as [W0 V0]; [lia|]. destruct (of_u64_spec 1) as [W1 V1]; [lia|].
  destruct (neg || ovf || (val t =? 0)) eqn:E; [by exists (of_u64 0)|].
  apply orb_false_iff in E as [E Ht0%Z.eqb_neq]. apply orb_false_iff in E as [_ ->].
  destruct (proof_terms nBits t neg Hn Es) as (Wb & Vb & Wa & Va).
  pose proof (div_spec (bnot t) (add t (of_u64 1)) Wb Wa) as Hd.
  destruct (div (bnot t) (add t (of_u64 1))) as [q|]; [|lia]. destruct Hd as (_ & Wq & Vq). cbn [mbind option_bind].
  destruct (add_spec q (of_u64 1) Wq W1) as [Wr Vr]. eexists. split; [done|]. split; [done|].
  rewrite Vr, Vq, Vb, Va, V1.
  assert (Hq : (2 ^ 256 - 1 - val t) / (val t + 1) + 1 = 2 ^ 256 / (val t + 1)).
  { rewrite <- Z.div_add by lia. f_equal. lia. }
  rewrite Hq. apply Z.mod_small. split; [apply Z.div_pos; lia|]. apply Z.div_lt; lia.
Qed.

Lemma block_proof_exact_witness :
  exists w, GetBlockProof 0x1d00ffff = Some w /\ val w = 2 ^ 256 / (0xffff * 2 ^ 208 + 1).
Proof.
  pose proof (block_proof_exact 0x1d00ffff ltac:(unfold is_u; lia)) as H.
  destruct (SetCompact 0x1d00ffff) as [[t n] o] eqn:E. destruct H as (w & Hw & _ & Hv). exists w. split; [done|].
  rewrite Hv. assert (E' : (n || o || (val t =? 0), val t) = (false, 0xffff * 2 ^ 208)).
  { apply (f_equal (fun x : limbs * bool * bool => let '(t, n, o) := x in (n || o || (val t =? 0), val t))) in E.
    rewrite <- E. vm_compute. reflexivity. }
  injection E' as -> ->. reflexivity.
Defined.

(** ** The exponential rescue *)

Lemma pow3_some n A r : pow3 n A = Some r -> r = A * 3 ^ Z.of_nat n.
Proof.
  revert A. induction n as [|n IH]; intros A; cbn [pow3]; [intros [= <-]; cbn; lia|].
  unfold i64. destruct (decide _); [|done]. cbn [mbind option_bind]. intros H%IH.
  rewrite Nat2Z.inj_succ, Z.pow_succ_r by lia. lia.
Qed.

Lemma i32_cases x : i32 x = Some x \/ i32 x = None.
Proof. unfold i32. case_decide; auto. Qed.

(** From 29 block times on the [int64_t] product overflows. *)
Theorem exponential_overflows G num :
  0 < g_BLOCKTIME G -> 29 * g_BLOCKTIME G <= num -> zawy_exponential_val360000 G num = None.
Proof.
  intros HT Hn. unfold zawy_exponential_val360000, quot. destruct (Z.eqb_spec (g_BLOCKTIME G) 0); [lia|].
  cbn [mbind option_bind]. assert (Hq : 29 <= Z.quot num (g_BLOCKTIME G)) by (apply Z.quot_le_lower_bound; lia).
  rewrite (proj2 (Z.ltb_lt _ _)) by lia.
  destruct (pow3 _ 1) as [A|] eqn:E; [|done]. apply pow3_some in E. rewrite Z2Nat.id in E by lia. cbn [mbind option_bind].
  assert (HA : 3 ^ 29 <= A) by (rewrite E, Z.mul_1_l; apply Z.pow_le_mono_r; lia).
  assert (Hgen : forall B, 360000 <= B -> i64 (A * B) = None).
  { intros B HB. unfold i64. rewrite decide_False; [done|]. unfold is_s64. change (3 ^ 29) with 68630377364883 in HA. nia. }
  destruct (negb _); [|apply Hgen; lia].
  assert (Hm : 0 <= Z.rem num (g_BLOCKTIME G)) by (apply Z.rem_nonneg; lia).
  set (m := Z.rem num (g_BLOCKTIME G)) in *. set (T := g_BLOCKTIME G) in *.
  destruct (i32_cases (3600 * 110 * m)) as [->| ->]; cbn [mbind option_bind]; [|done].
  destruct (i32_cases (3600 * 60 * m)) as [->| ->]; cbn [mbind option_bind]; [|done].
  destruct (i32_cases (3600 * 60 * m * m)) as [->| ->]; cbn [mbind option_bind]; [|done].
  destruct (i32_cases (T * T)) as [->| ->]; cbn [mbind option_bind]; [|done]. apply Hgen.
  assert (0 <= Z.quot (3600 * 110 * m) T) by (apply Z.quot_pos; lia).
  assert (0 <= Z.quot (3600 * 60 * m * m) (T * T)) by (apply Z.quot_pos; nia).
  lia.
Qed.

(** The comparison of [DoesHashQualify] is between an object and itself. *)
Theorem hash_always_qualifies hash nBits : DoesHashQualify hash nBits = true.
Proof.
  unfold DoesHashQualify. set (t := set_compact nBits). unfold gt, CompareTo.
  induction (rev t) as [|x l IH]; [done|]. cbn [compare_from_top]. rewrite Z.ltb_irrefl. exact IH.
Qed.
