(* ===== verification/Chain.v ===== *)
(** * The block tree and the active chain

    [CBlockIndex::GetAncestor] and [BuildSkip] with their skip list, [CChain]
    ([SetTip], [FindFork], [GetLocator]) and the order of [CChainPower] of
    src/src/chain.cpp and src/src/chain.h, and the part of [AddToBlockIndex] of
    src/src/main.cpp that links a new block.

    The objects on the heap are a finite map from block hashes, as
    [mapBlockIndex]; a [CBlockIndex *] is the hash of its object.  [None] as a
    result is a failed assertion or a dangling pointer; a null pointer is
    [Some None].  The case that [mapBlockIndex] holds a null pointer is left out. *)
From S2P Require Import Prelude Arith256 Pow.
Local Open Scope Z_scope.

(** ** Definitions *)

Abbreviation ptr := (list Z) (only parsing).

Record bindex := BIndex {
  bi_pprev : option ptr; bi_pskip : option ptr;
  bi_height : Z;                        (* chainPower.nHeight *)
  bi_work : limbs                       (* chainPower.chainWork *)
}.
Abbreviation tree := (gmap (list Z) bindex) (only parsing).

(** *** The skip list *)

Definition InvertLowestOne (n : Z) : Z := Z.land n (n - 1).

Definition GetSkipHeight (height : Z) : Z :=
  if height <? 2 then 0
  else if negb (Z.land height 1 =? 0) then InvertLowestOne (InvertLowestOne (height - 1)) + 1
  else InvertLowestOne height.

(** The loop of [GetAncestor]. *)
Fixpoint anc_loop (fuel : nat) (t : tree) (walk : ptr) (heightWalk height : Z) : option ptr :=
  if height <? heightWalk then
    match fuel with
    | O => None
    | S fuel =>
      b ← t !! walk;
      let heightSkip := GetSkipHeight heightWalk in
      let heightSkipPrev := GetSkipHeight (heightWalk - 1) in
      let prev := (q ← bi_pprev b; anc_loop fuel t q (heightWalk - 1) height) in
      match bi_pskip b with
      | Some s =>
        if (heightSkip =? height)
           || ((height <? heightSkip) && negb ((heightSkipPrev <? heightSkip - 2) && (height <=? heightSkipPrev)))
        then anc_loop fuel t s heightSkip height
        else prev
      | None => prev
      end
    end
  else Some walk.

Definition GetAncestor (t : tree) (p : ptr) (height : Z) : option (option ptr) :=
  b ← t !! p;
  if (bi_height b <? height) || (height <? 0) then Some None
  else q ← anc_loop (Z.to_nat (bi_height b - height)) t p (bi_height b) height; Some (Some q).

(** [BuildSkip] of an object that is not in the tree yet: its [pskip]. *)
Definition BuildSkip (t : tree) (pprev : option ptr) (height : Z) : option (option ptr) :=
  match pprev with
  | Some q => GetAncestor t q (GetSkipHeight height)
  | None => Some None
  end.

(** *** [CChainPower] *)

Definition workDivisor (w1 w2 : limbs) : limbs :=
  if gt w1 w2 then w1 else if negb (bool_decide (w2 = of_u64 0)) then w2 else of_u64 1.
Definition power_cmp (w1 w2 : limbs) : option Z :=
  let d := workDivisor w1 w2 in
  q1 ← div (shl w1 16) d;
  q2 ← div (shl w2 16) d;
  Some (CompareTo q1 q2).
Definition power_eq (w1 w2 : limbs) : option bool := option_map (fun c => c =? 0) (power_cmp w1 w2).
Definition power_lt (w1 w2 : limbs) : option bool := option_map (fun c => c <? 0) (power_cmp w1 w2).
Definition power_le (w1 w2 : limbs) : option bool := option_map (fun c => c <=? 0) (power_cmp w1 w2).

(** *** [AddToBlockIndex] *)

Record index_state := IndexState { ix_map : tree; ix_best : option ptr (* pindexBestHeader *) }.

Definition AddToBlockIndex (s : index_state) (hash hashPrevBlock : ptr) (nBits : Z) : option (ptr * index_state) :=
  let t := ix_map s in
  match t !! hash with
  | Some _ => Some (hash, s)
  | None =>
    let prev := t !! hashPrevBlock in
    let pprev := match prev with Some _ => Some hashPrevBlock | None => None end in
    let height := match prev with Some b => bi_height b + 1 | None => 0 end in
    pskip ← BuildSkip t pprev height;
    proof ← GetBlockProof nBits;
    let base := match prev with Some b => bi_work b | None => of_u64 0 end in
    let new := BIndex pprev pskip height (add base proof) in
    best ← match ix_best s with
           | None => Some hash
           | Some p => b ← t !! p; l ← power_lt (bi_work b) (bi_work new); Some (if (l : bool) then hash else p)
           end;
    Some (hash, IndexState (<[hash := new]> t) (Some best))
  end.

(** *** [CChain] *)

Record chain := Chain { vChain : list (option ptr); lastTip : option ptr }.

Definition ch_at (c : chain) (h : Z) : option ptr :=
  if (h <? 0) || (Zlen (vChain c) <=? h) then None else nth (Z.to_nat h) (vChain c) None.
Definition Tip (c : chain) : option ptr := last (vChain c) ≫= id.
Definition Height (c : chain) : Z := Zlen (vChain c) - 1.
Definition Contains (t : tree) (c : chain) (p : ptr) : option bool :=
  b ← t !! p; Some (bool_decide (ch_at c (bi_height b) = Some p)).
Definition Next (t : tree) (c : chain) (p : ptr) : option (option ptr) :=
  b ← t !! p;
  i ← Contains t c p;
  Some (if (i : bool) then ch_at c (bi_height b + 1) else None).

(** [vChain.resize(n)] *)
Definition resize_chain (n : nat) (l : list (option ptr)) : list (option ptr) :=
  take n l ++ replicate (n - length l) None.

Fixpoint set_tip_loop (fuel : nat) (t : tree) (l : list (option ptr)) (p : option ptr) : option (list (option ptr)) :=
  match p with
  | None => Some l
  | Some q =>
    b ← t !! q;
    let h := Z.to_nat (bi_height b) in
    if bool_decide (nth h l None = Some q) then Some l
    else
      match fuel with
      | O => None
      | S fuel => set_tip_loop fuel t (<[h := Some q]> l) (bi_pprev b)
      end
  end.
Definition SetTip (t : tree) (c : chain) (p : option ptr) : option chain :=
  match p with
  | None => Some (Chain [] None)
  | Some q =>
    b ← t !! q;
    let n := S (Z.to_nat (bi_height b)) in
    l ← set_tip_loop n t (resize_chain n (vChain c)) p;
    Some (Chain l p)
  end.

Fixpoint fork_loop (fuel : nat) (t : tree) (c : chain) (p : option ptr) : option (option ptr) :=
  match p with
  | None => Some None
  | Some q =>
    i ← Contains t c q;
    if (i : bool) then Some (Some q)
    else
      match fuel with
      | O => None
      | S fuel => b ← t !! q; fork_loop fuel t c (bi_pprev b)
      end
  end.
Definition FindFork (t : tree) (c : chain) (p : option ptr) : option (option ptr) :=
  match p with
  | None => Some None
  | Some q =>
    b ← t !! q;
    p ← (if Height c <? bi_height b then GetAncestor t q (Height c) else Some (Some q));
    fork_loop (S (Z.to_nat (bi_height b))) t c p
  end.

(** [GetLocator]; [have] is [vHave]. *)
Fixpoint locator_loop (fuel : nat) (t : tree) (c : chain) (p : option ptr) (nStep : Z) (have : list ptr) : option (list ptr) :=
  match p with
  | None => Some have
  | Some q =>
    match fuel with
    | O => None
    | S fuel =>
      b ← t !! q;
      let have := have ++ [q] in
      if bi_height b =? 0 then Some have
      else
        let nHeight := Z.max (bi_height b - nStep) 0 in
        i ← Contains t c q;
        p ← (if (i : bool) then Some (ch_at c nHeight) else GetAncestor t q nHeight);
        locator_loop fuel t c p (if (10 <? length have)%nat then nStep * 2 else nStep) have
    end
  end.
Definition GetLocator (t : tree) (c : chain) (p : option ptr) : option (list ptr) :=
  match (match p with Some _ => p | None => Tip c end) with
  | None => Some []
  | Some q => b ← t !! q; locator_loop (S (Z.to_nat (bi_height b))) t c (Some q) 1 []
  end.

(** ** The tree *)

(** The reference: follow [pprev] [n] times. *)
Fixpoint parent (n : nat) (t : tree) (p : ptr) : option ptr :=
  match n with
  | O => Some p
  | S n => b ← t !! p; q ← bi_pprev b; parent n t q
  end.

(** Heights count the blocks below, and [pskip] is the ancestor that
    [GetSkipHeight] asks for. *)
Record block_ok (t : tree) (p : ptr) (b : bindex) : Prop := BlockOk {
  ok_height : 0 <= bi_height b;
  ok_prev : match bi_pprev b with
            | None => bi_height b = 0
            | Some q => exists bq, t !! q = Some bq /\ bi_height bq = bi_height b - 1
            end;
  ok_skip : forall s, bi_pskip b = Some s ->
            parent (Z.to_nat (bi_height b - GetSkipHeight (bi_height b))) t p = Some s
}.
Definition wf_tree (t : tree) : Prop := map_Forall (block_ok t) t.

Lemma invert_range n : 0 < n -> 0 <= InvertLowestOne n < n.
Proof.
  intros Hn. unfold InvertLowestOne. split; [apply Z.land_nonneg; lia|].
  rewrite <- (Z2N.id n), <- (Z2N.id (Z.of_N (Z.to_N n) - 1)) by lia. rewrite <- N2Z.inj_land.
  pose proof (N.land_le_r (Z.to_N n) (Z.to_N (Z.of_N (Z.to_N n) - 1))). lia.
Qed.

Lemma skip_range h : 0 < h -> 0 <= GetSkipHeight h < h.
Proof.
  intros Hh. unfold GetSkipHeight. destruct (Z.ltb_spec h 2); [lia|]. destruct (negb _).
  - pose proof (invert_range (h - 1) ltac:(lia)) as H1. set (m := InvertLowestOne (h - 1)) in *.
    destruct (decide (m = 0)) as [->|]; [change (InvertLowestOne 0) with 0; lia|]. pose proof (invert_range m ltac:(lia)). lia.
  - apply invert_range. lia.
Qed.

Lemma parent_add t p m n : parent (m + n) t p = q ← parent m t p; parent n t q.
Proof.
  revert p. induction m as [|m IH]; intros p; cbn [parent Nat.add]; [done|].
  destruct (t !! p) as [b|]; cbn [mbind option_bind]; [|done]. destruct (bi_pprev b); [|done]. apply IH.
Qed.

Section Tree.
Context (t : tree) (Ht : wf_tree t).

Lemma parent_exists n p b : t !! p = Some b -> Z.of_nat n <= bi_height b ->
  exists q bq, parent n t p = Some q /\ t !! q = Some bq /\ bi_height bq = bi_height b - Z.of_nat n.
Proof using Ht.
  revert p b. induction n as [|n IH]; intros p b Hp Hn; cbn [parent].
  { exists p, b. split; [done|]. split; [done|lia]. }
  rewrite Hp. cbn [mbind option_bind]. destruct (Ht p b Hp) as [_ Hprev _].
  destruct (bi_pprev b) as [q|]; [|lia]. destruct Hprev as (bq & Hq & Hh). cbn [mbind option_bind].
  destruct (IH q bq Hq) as (r & br & H1 & H2 & H3); [lia|]. exists r, br. split; [done|]. split; [done|lia].
Qed.

Lemma anc_loop_spec fuel p b height :
  t !! p = Some b -> 0 <= height <= bi_height b -> bi_height b - height <= Z.of_nat fuel ->
  anc_loop fuel t p (bi_height b) height = parent (Z.to_nat (bi_height b - height)) t p.
Proof using Ht.
  revert p b. induction fuel as [|fuel IH]; intros p b Hp Hh Hf; cbn [anc_loop].
  { rewrite (proj2 (Z.ltb_ge _ _)) by lia. replace (Z.to_nat (bi_height b - height)) with 0%nat by lia. done. }
  destruct (Z.ltb_spec height (bi_height b)) as [Hlt|Hge].
  2: { replace (Z.to_nat (bi_height b - height)) with 0%nat by lia. done. }
  rewrite Hp. cbn [mbind option_bind]. destruct (Ht p b Hp) as [_ Hprev Hskip].
  destruct (bi_pprev b) as [q|] eqn:Eq; [|lia]. destruct Hprev as (bq & Hq & Hhq). cbn [mbind option_bind].
  assert (Hvia : anc_loop fuel t q (bi_height b - 1) height = parent (Z.to_nat (bi_height b - height)) t p).
  { rewrite <- Hhq, IH by (done || lia).
    replace (Z.to_nat (bi_height b - height)) with (S (Z.to_nat (bi_height bq - height))) by lia.
    cbn [parent]. rewrite Hp. cbn [mbind option_bind]. by rewrite Eq. }
  destruct (bi_pskip b) as [s|] eqn:Es; [|exact Hvia]. specialize (Hskip s eq_refl).
  destruct ((GetSkipHeight (bi_height b) =? height) || _) eqn:Ec; [|exact Hvia].
  pose proof (skip_range (bi_height b) ltac:(lia)) as Hsr.
  assert (Hge : height <= GetSkipHeight (bi_height b)).
  { apply orb_true_iff in Ec as [Ec%Z.eqb_eq|Ec]; [lia|]. apply andb_prop in Ec as [Ec%Z.ltb_lt _]. lia. }
  destruct (parent_exists (Z.to_nat (bi_height b - GetSkipHeight (bi_height b))) p b Hp) as (s' & bs & H1 & H2 & H3); [lia|].
  assert (s' = s) as -> by congruence.
  replace (GetSkipHeight (bi_height b)) with (bi_height bs) by lia. rewrite IH by (done || lia).
  replace (Z.to_nat (bi_height b - height))
    with (Z.to_nat (bi_height b - GetSkipHeight (bi_height b)) + Z.to_nat (bi_height bs - height))%nat by lia.
  rewrite parent_add, H1. done.
Qed.

Lemma GetAncestor_spec p b height : t !! p = Some b -> 0 <= height <= bi_height b ->
  exists q bq, GetAncestor t p height = Some (Some q) /\ parent (Z.to_nat (bi_height b - height)) t p = Some q /\
    t !! q = Some bq /\ bi_height bq = height.
Proof using Ht.
  intros Hp Hh. destruct (parent_exists (Z.to_nat (bi_height b - height)) p b Hp) as (q & bq & H1 & H2 & H3); [lia|].
  exists q, bq. unfold GetAncestor. rewrite Hp. cbn [mbind option_bind].
  rewrite (proj2 (Z.ltb_ge _ _)), (proj2 (Z.ltb_ge _ _)) by lia. cbn [orb].
  rewrite anc_loop_spec, H1 by (done || lia). split; [done|]. split; [done|]. split; [done|lia].
Qed.
End Tree.

(** *** Growing the tree *)

Lemma parent_mono t t' n p q : t ⊆ t' -> parent n t p = Some q -> parent n t' p = Some q.
Proof.
  intros Hs. revert p. induction n as [|n IH]; intros p; cbn [parent]; [done|].
  destruct (t !! p) as [b|] eqn:E; [|done]. rewrite (lookup_weaken _ _ _ _ E Hs). cbn [mbind option_bind].
  destruct (bi_pprev b); [apply IH|done].
Qed.

Lemma block_ok_mono t t' p b : t ⊆ t' -> block_ok t p b -> block_ok t' p b.
Proof.
  intros Hs [H1 H2 H3]. split; [done| |].
  - destruct (bi_pprev b); [|done]. destruct H2 as (bq & Hq & Hh). exists bq. split; [by eapply lookup_weaken|done].
  - intros s Es. eapply parent_mono; eauto.
Qed.

(** A new block whose [pskip] comes from [BuildSkip] keeps the tree well formed. *)
Lemma insert_ok t hash pprev pskip height work :
  wf_tree t -> t !! hash = None ->
  match pprev with None => height = 0 | Some q => exists bq, t !! q = Some bq /\ height = bi_height bq + 1 end ->
  BuildSkip t pprev height = Some pskip ->
  wf_tree (<[hash := BIndex pprev pskip height work]> t).
Proof.
  intros Ht Hnew Hprev Hbuild. set (b := BIndex pprev pskip height work).
  assert (Hs : t ⊆ <[hash := b]> t) by by apply insert_subseteq.
  assert (Hb : block_ok (<[hash := b]> t) hash b).
  { split; cbn.
    - destruct pprev as [q|]; [|lia]. destruct Hprev as (bq & Hq & ->). destruct (Ht q bq Hq). lia.
    - destruct pprev as [q|]; [|done]. destruct Hprev as (bq & Hq & ->).
      exists bq. split; [by eapply lookup_weaken|lia].
    - intros s ->. destruct pprev as [q|]; [|done]. destruct Hprev as (bq & Hq & ->).
      destruct (Ht q bq Hq) as [Hq0 _ _]. pose proof (skip_range (bi_height bq + 1) ltac:(lia)) as Hsr.
      destruct (GetAncestor_spec t Ht q bq (GetSkipHeight (bi_height bq + 1)) Hq) as (s' & bs & H1 & H2 & _); [lia|].
      cbn [BuildSkip] in Hbuild. assert (s' = s) as -> by congruence.
      replace (Z.to_nat (bi_height bq + 1 - GetSkipHeight (bi_height bq + 1)))
        with (S (Z.to_nat (bi_height bq - GetSkipHeight (bi_height bq + 1)))) by lia.
      cbn [parent]. rewrite lookup_insert_eq. cbn [mbind option_bind bi_pprev b].
      eapply parent_mono; eauto. }
  intros p b' Hp. destruct (decide (p = hash)) as [->|Hne].
  - rewrite lookup_insert_eq in Hp. by injection Hp as <-.
  - rewrite lookup_insert_ne in Hp by done. eapply block_ok_mono; [exact Hs|]. by apply Ht.
Qed.

(** ** The order of chain work *)

Lemma scaled_lt w d : 0 <= w < d -> 65536 * w / d < 65536.
Proof. intros Hw. apply Z.div_lt_upper_bound; lia. Qed.

Lemma power_cmp_spec w1 w2 : wf w1 -> wf w2 -> val w1 < 2 ^ 240 -> val w2 < 2 ^ 240 ->
  power_cmp w1 w2 = Some (cmp (val w1) (val w2)).
Proof.
  intros W1 W2 H1 H2. pose proof (wf_bounds _ W1) as B1. pose proof (wf_bounds _ W2) as B2.
  destruct (of_u64_spec 1) as [Wo Vo]; [lia|]. destruct (of_u64_spec 0) as [Wz Vz]; [lia|].
  unfold power_cmp. set (d := workDivisor w1 w2).
  assert (Hd : wf d /\ val d = Z.max 1 (Z.max (val w1) (val w2))).
  { unfold d, workDivisor. rewrite gt_spec by done. destruct (Z.ltb_spec (val w2) (val w1)); [split; [done|lia]|].
    case_bool_decide as E; cbn [negb].
    - split; [done|]. rewrite Vo, E in *. lia.
    - split; [done|]. assert (val w2 <> 0); [|lia]. intros E0. apply E.
      destruct W2, Wz. apply val_inj; [congruence|done..|lia]. }
  destruct Hd as [Wd Vd].
  destruct (shl_spec w1 16 W1) as [Ws1 Vs1]; [lia|]. destruct (shl_spec w2 16 W2) as [Ws2 Vs2]; [lia|].
  change (2 ^ 16) with 65536 in *. rewrite Z.mod_small in Vs1, Vs2 by lia.
  pose proof (div_spec _ d Ws1 Wd) as D1. pose proof (div_spec _ d Ws2 Wd) as D2.
  destruct (div (shl w1 16) d) as [q1|]; [|lia]. destruct (div (shl w2 16) d) as [q2|]; [|lia].
  destruct D1 as (_ & Wq1 & Vq1). destruct D2 as (_ & Wq2 & Vq2). cbn [mbind option_bind].
  rewrite CompareTo_spec, Vq1, Vq2, Vs1, Vs2, Vd by done. f_equal.
  rewrite (Z.mul_comm (val w1)), (Z.mul_comm (val w2)).
  destruct (decide (val w1 = val w2)) as [->|Hne]; [unfold cmp; by rewrite !Z.ltb_irrefl|].
  set (m := Z.max 1 (Z.max (val w1) (val w2))).
  assert (Hmax : forall x, 0 < x -> x = m -> 65536 * x / m = 65536) by (intros x Hx ->; apply Z.div_mul; lia).
  unfold cmp. destruct (Z.ltb_spec (val w1) (val w2)).
  - rewrite (Hmax (val w2)) by lia. pose proof (scaled_lt (val w1) m ltac:(lia)). by rewrite (proj2 (Z.ltb_lt _ _)).
  - rewrite (Hmax (val w1)) by lia. pose proof (scaled_lt (val w2) m ltac:(lia)).
    rewrite (proj2 (Z.ltb_ge 65536 _)) by lia. by rewrite !(proj2 (Z.ltb_lt _ _)) by lia.
Qed.

(** The comparison of chain work, which scales both numbers to 16 bits by the
    larger one before it compares the quotients, loses nothing: for works below
    2^240 the operators [==], [<] and [<=] of [CChainPower] are exactly those of
    the numbers. *)
Theorem chain_power_order w1 w2 :
  wf w1 -> wf w2 -> val w1 < 2 ^ 240 -> val w2 < 2 ^ 240 ->
  power_eq w1 w2 = Some (val w1 =? val w2) /\ power_lt w1 w2 = Some (val w1 <? val w2) /\
  power_le w1 w2 = Some (val w1 <=? val w2).
Proof.
  intros W1 W2 H1 H2. unfold power_eq, power_lt, power_le. rewrite power_cmp_spec by done. cbn [option_map].
  unfold cmp. destruct (Z.ltb_spec (val w1) (val w2)), (Z.ltb_spec (val w2) (val w1)), (Z.eqb_spec (val w1) (val w2)),
    (Z.leb_spec (val w1) (val w2)); try lia; done.
Qed.

Lemma chain_power_order_witness :
  power_lt (of_u64 (2 ^ 40)) (of_u64 (2 ^ 40 + 1)) = Some true.
Proof.
  destruct (chain_power_order (of_u64 (2 ^ 40)) (of_u64 (2 ^ 40 + 1))) as (_ & -> & _);
    [apply (bool_decide_eq_true_1 _); vm_compute; reflexivity..|].
  vm_compute. reflexivity.
Defined.

(** ** The block index *)

(** Every block is linked, carries its work, and [pindexBestHeader] is a block with
    the most work. *)
Record index_ok (s : index_state) : Prop := IndexOk {
  ix_wf : wf_tree (ix_map s);
  ix_work : map_Forall (fun _ b => wf (bi_work b) /\ val (bi_work b) < 2 ^ 240) (ix_map s);
  ix_best_ok : match ix_best s with
               | None => ix_map s = ∅
               | Some p => exists b, ix_map s !! p = Some b /\
                           map_Forall (fun _ b' => val (bi_work b') <= val (bi_work b)) (ix_map s)
               end
}.

(** The work below a new block. *)
Definition base_work (s : index_state) (hashPrevBlock : ptr) : limbs :=
  match ix_map s !! hashPrevBlock with Some b => bi_work b | None => of_u64 0 end.

(** [AddToBlockIndex] keeps the block index sound: it never fails, keeps every
    block that was there and adds the new one linked to its parent with the height
    and skip pointer that [GetAncestor] relies on, and [pindexBestHeader] stays a
    block with the most accumulated work (as long as that is below 2^240). *)
Theorem add_to_block_index_ok s hash prev nBits :
  index_ok s -> is_u 32 nBits ->
  (forall w, GetBlockProof nBits = Some w -> val (base_work s prev) + val w < 2 ^ 240) ->
  exists s', AddToBlockIndex s hash prev nBits = Some (hash, s') /\ index_ok s' /\
    ix_map s ⊆ ix_map s' /\ is_Some (ix_map s' !! hash).
Proof.
  intros Hok Hn Hlim. pose proof Hok as [Hwf Hwork Hbest]. unfold AddToBlockIndex. unfold base_work in Hlim. set (t := ix_map s) in *.
  destruct (t !! hash) as [b|] eqn:Eh; [exists s; split; [done|]; split; [done|]; split; [done|by exists b]|].
  destruct (block_proof_total nBits Hn) as (w & Ew & Ww). specialize (Hlim w Ew). rewrite Ew.
  set (base := match t !! prev with Some b => bi_work b | None => of_u64 0 end) in *.
  assert (Wb : wf base /\ val base < 2 ^ 240).
  { unfold base. destruct (t !! prev) as [b|] eqn:Ep; [by apply (Hwork prev)|].
    destruct (of_u64_spec 0) as [W V]; [lia|]. split; [done|]. rewrite V. lia. }
  destruct (add_spec base w (proj1 Wb) Ww) as [Wa Va].
  pose proof (wf_bounds base (proj1 Wb)). pose proof (wf_bounds w Ww). rewrite Z.mod_small in Va by lia.
  set (pprev := match t !! prev with Some _ => Some prev | None => None end).
  set (height := match t !! prev with Some b => bi_height b + 1 | None => 0 end).
  assert (Hprev : match pprev with None => height = 0 | Some q => exists bq, t !! q = Some bq /\ height = bi_height bq + 1 end).
  { unfold pprev, height. destruct (t !! prev) as [b|] eqn:Ep; [by exists b|done]. }
  assert (Hskip : exists k, BuildSkip t pprev height = Some k).
  { destruct pprev as [q|]; [|by exists None]. destruct Hprev as (bq & Hq & ->). destruct (Hwf q bq Hq) as [Hq0 _ _].
    pose proof (skip_range (bi_height bq + 1) ltac:(lia)).
    destruct (GetAncestor_spec t Hwf q bq (GetSkipHeight (bi_height bq + 1)) Hq) as (k & _ & Hk & _); [lia|]. by exists (Some k). }
  destruct Hskip as [k Hk]. rewrite Hk. cbn [mbind option_bind].
  set (new := BIndex pprev k height (add base w)).
  assert (Hbest' : exists p bp, (match ix_best s with
           | None => Some hash
           | Some p => b ← t !! p; l ← power_lt (bi_work b) (bi_work new); Some (if (l : bool) then hash else p)
           end) = Some p /\ <[hash := new]> t !! p = Some bp /\
           map_Forall (fun _ b' => val (bi_work b') <= val (bi_work bp)) (<[hash := new]> t)).
  { destruct (ix_best s) as [p|].
    - destruct Hbest as (b & Hp & Hmax). rewrite Hp. cbn [mbind option_bind]. destruct (Hwork p b Hp) as [Wp Vp].
      unfold power_lt. rewrite power_cmp_spec by (done || cbn; lia). cbn [option_map mbind option_bind bi_work new].
      assert (Hc : (cmp (val (bi_work b)) (val (add base w)) <? 0) = (val (bi_work b) <? val (add base w)))
        by (unfold cmp; destruct (Z.ltb_spec (val (bi_work b)) (val (add base w))), (Z.ltb_spec (val (add base w)) (val (bi_work b))); done).
      rewrite Hc. destruct (Z.ltb_spec (val (bi_work b)) (val (add base w))) as [Hlt|Hge].
      + exists hash, new. split; [done|]. split; [by rewrite lookup_insert_eq|].
        apply map_Forall_insert_2; [cbn; lia|]. intros q bq Hq. specialize (Hmax q bq Hq). cbn in *. lia.
      + exists p, b. split; [done|]. split; [rewrite lookup_insert_ne; congruence|].
        apply map_Forall_insert_2; [cbn; lia|done].
    - exists hash, new. split; [done|]. split; [by rewrite lookup_insert_eq|]. rewrite Hbest.
      apply map_Forall_insert_2; [cbn; lia|apply map_Forall_empty]. }
  destruct Hbest' as (p & bp & -> & Hp & Hmax). cbn [mbind option_bind].
  exists (IndexState (<[hash := new]> t) (Some p)). split; [done|]. split.
  - split; cbn [ix_map ix_best].
    + by apply insert_ok.
    + apply map_Forall_insert_2; [cbn; split; [done|lia]|done].
    + by exists bp.
  - cbn [ix_map]. split; [by apply insert_subseteq|]. rewrite lookup_insert_eq. by eexists.
Qed.

Lemma empty_index_ok : index_ok (IndexState ∅ None).
Proof. split; [apply map_Forall_empty|apply map_Forall_empty|done]. Qed.

Lemma add_to_block_index_ok_witness :
  exists s', AddToBlockIndex (IndexState ∅ None) [1] [0] 0x1d00ffff = Some ([1], s') /\ index_ok s' /\ is_Some (ix_map s' !! [1]).
Proof.
  destruct (add_to_block_index_ok (IndexState ∅ None) [1] [0] 0x1d00ffff empty_index_ok ltac:(unfold is_u; lia))
    as (s' & H1 & H2 & _ & H3); [|by exists s'].
  intros w Hw. assert (E : option_map (fun w => val (base_work (IndexState ∅ None) [0]) + val w <? 2 ^ 240)
    (GetBlockProof 0x1d00ffff) = Some true) by (vm_compute; reflexivity).
  rewrite Hw in E. injection E as E. by apply Z.ltb_lt in E.
Defined.

(** The skip list finds the right block: in a well-formed tree [GetAncestor]
    returns, for every height from 0 to the block's own, the block that is reached
    by following [pprev] from it, which has that height; the loop makes at most
    one step per height.  Other heights give the null pointer. *)
Theorem get_ancestor_correct t p b height :
  wf_tree t -> t !! p = Some b ->
  (0 <= height <= bi_height b ->
   exists q bq, GetAncestor t p height = Some (Some q) /\ parent (Z.to_nat (bi_height b - height)) t p = Some q /\
     t !! q = Some bq /\ bi_height bq = height) /\
  (height < 0 \/ bi_height b < height -> GetAncestor t p height = Some None).
Proof.
  intros Ht Hp. split; [by apply GetAncestor_spec|]. intros Hh. unfold GetAncestor. rewrite Hp. cbn [mbind option_bind].
  destruct (Z.ltb_spec (bi_height b) height), (Z.ltb_spec height 0); done || lia.
Qed.

(** A chain of four blocks, built by [AddToBlockIndex]. *)
Definition demo_add (s : index_state) (x : ptr * ptr) : index_state :=
  default s (snd <$> AddToBlockIndex s x.1 x.2 0x1d00ffff).
Definition demo_tree : tree :=
  ix_map (foldl demo_add (IndexState ∅ None) [([1], [0]); ([2], [1]); ([3], [2]); ([4], [3])]).

Lemma add_wf s hash prev : wf_tree (ix_map s) -> wf_tree (ix_map (demo_add s (hash, prev))).
Proof.
  intros Ht. unfold demo_add, AddToBlockIndex. cbn [fst snd]. destruct (ix_map s !! hash) eqn:Eh; [done|].
  destruct (BuildSkip _ _ _) as [k|] eqn:Ek; [|done]. cbn [mbind option_bind].
  destruct (GetBlockProof _) as [w|]; [|done]. cbn [mbind option_bind].
  set (new := BIndex _ _ _ _) in *.
  assert (Hw : wf_tree (<[hash := new]> (ix_map s))).
  { apply insert_ok; try done. destruct (ix_map s !! prev) as [b|] eqn:E; [by exists b|done]. }
  destruct (match ix_best s with Some _ => _ | None => _ end) as [best|]; [exact Hw|done].
Qed.

Lemma demo_tree_wf : wf_tree demo_tree.
Proof. unfold demo_tree. cbn [foldl]. do 4 apply add_wf. apply map_Forall_empty. Qed.

Lemma get_ancestor_correct_witness :
  GetAncestor demo_tree [4] 1 = Some (Some [2]) /\ GetAncestor demo_tree [4] 4 = Some None.
Proof.
  destruct (demo_tree !! [4]) as [b|] eqn:E; [|vm_compute in E; discriminate].
  assert (Hb : bi_height b = 3) by (assert (E' : bi_height <$> demo_tree !! [4] = Some 3) by (vm_compute; reflexivity);
    rewrite E in E'; by injection E').
  split.
  - destruct (proj1 (get_ancestor_correct demo_tree [4] b 1 demo_tree_wf E) ltac:(lia)) as (q & bq & -> & Hq & _).
    rewrite Hb in Hq. vm_compute in Hq. by injection Hq as <-.
  - apply (proj2 (get_ancestor_correct demo_tree [4] b 4 demo_tree_wf E)). lia.
Defined.

(** ** The active chain *)

(** [vChain] holds at index [h] a block of height [h] whose parent is at [h - 1]. *)
Definition chain_ok (t : tree) (l : list (option ptr)) : Prop :=
  forall h o, l !! h = Some o -> exists q b, o = Some q /\ t !! q = Some b /\ bi_height b = Z.of_nat h /\
    (forall h', h = S h' -> l !! h' = Some (bi_pprev b)).

Lemma chain_ok_parent t l h q : chain_ok t l -> l !! h = Some (Some q) ->
  forall k, (k <= h)%nat -> l !! k = Some (parent (h - k) t q).
Proof.
  intros Hc. revert q. induction h as [|h IH]; intros q Hq k Hk.
  { assert (k = 0)%nat as -> by lia. done. }
  destruct (decide (k = S h)) as [->|Hne]; [by rewrite Nat.sub_diag|].
  destruct (Hc _ _ Hq) as (q' & b & [= <-] & Hb & _ & Hprev). specialize (Hprev h eq_refl).
  destruct (Hc _ _ Hprev) as (q2 & b2 & E2 & Hb2 & _). rewrite E2 in Hprev.
  rewrite (IH q2 Hprev k ltac:(lia)). replace (S h - k)%nat with (S (h - k)) by lia. cbn [parent].
  rewrite Hb. cbn [mbind option_bind]. by rewrite E2.
Qed.

Section SetTip.
Context (t : tree) (Ht : wf_tree t) (old : list (option ptr)) (Hold : chain_ok t old).
Context (p : ptr) (H : nat).

Lemma set_tip_loop_spec fuel h q b l :
  (h < fuel)%nat -> (h <= H)%nat -> parent (H - h) t p = Some q -> t !! q = Some b -> bi_height b = Z.of_nat h ->
  length l = S H -> (forall k, (k <= h)%nat -> l !! k = Some (old !! k ≫= id)) ->
  (forall k, (h < k <= H)%nat -> l !! k = Some (parent (H - k) t p)) ->
  exists l', set_tip_loop fuel t l (Some q) = Some l' /\ length l' = S H /\
    forall k, (k <= H)%nat -> l' !! k = Some (parent (H - k) t p).
Proof using Ht Hold.
  revert h q b l. induction fuel as [|fuel IH]; intros h q b l Hf Hh Hq Hb Hbh Hl Hlow Hhigh; [lia|].
  cbn [set_tip_loop]. rewrite Hb. cbn [mbind option_bind]. rewrite Hbh, Nat2Z.id.
  case_bool_decide as Heq.
  - exists l. split; [done|]. split; [done|]. intros k Hk. destruct (decide (h < k)%nat); [apply Hhigh; lia|].
    assert (Hoh : old !! h = Some (Some q)).
    { rewrite nth_lookup, (Hlow h) in Heq by lia. cbn in Heq. destruct (old !! h) as [o|]; [cbn in Heq; by subst|done]. }
    rewrite Hlow by lia. rewrite (chain_ok_parent t old h q Hold Hoh k) by lia. cbn [mbind option_bind].
    unfold id. f_equal. replace (H - k)%nat with ((H - h) + (h - k))%nat by lia. rewrite parent_add, Hq. done.
  - assert (Hl' : length (<[h:=Some q]> l) = S H) by by rewrite length_insert.
    assert (Hhigh' : forall k, (h <= k <= H)%nat -> <[h:=Some q]> l !! k = Some (parent (H - k) t p)).
    { intros k Hk. destruct (decide (k = h)) as [->|]; [rewrite list_lookup_insert_eq by lia; by rewrite Hq|].
      rewrite list_lookup_insert_ne by lia. apply Hhigh. lia. }
    destruct (Ht q b Hb) as [_ Hprev _]. destruct h as [|h].
    + destruct (bi_pprev b) as [r|]; [destruct Hprev as (br & Hr & Hrh); destruct (Ht r br Hr); lia|].
      exists (<[0%nat:=Some q]> l). split; [by destruct fuel|]. split; [done|]. intros k Hk. apply Hhigh'. lia.
    + destruct (bi_pprev b) as [r|] eqn:Er; [|lia]. destruct Hprev as (br & Hr & Hrh).
      apply (IH h r br); try done; try lia.
      * replace (H - h)%nat with ((H - S h) + 1)%nat by lia. rewrite parent_add, Hq. cbn [mbind option_bind parent].
        rewrite Hb. cbn [mbind option_bind]. by rewrite Er.
      * intros k Hk. rewrite list_lookup_insert_ne by lia. apply Hlow. lia.
Qed.
End SetTip.

Lemma lookup_resize n l k : (k < n)%nat -> resize_chain n l !! k = Some (l !! k ≫= id).
Proof.
  intros Hk. unfold resize_chain. destruct (decide (k < length l)%nat) as [Hlt|Hge].
  - rewrite lookup_app_l by (rewrite length_take; lia). rewrite lookup_take_lt by lia.
    destruct (lookup_lt_is_Some_2 l k Hlt) as [o ->]. done.
  - rewrite lookup_app_r by (rewrite length_take; lia). rewrite (lookup_ge_None_2 l) by lia. cbn.
    apply lookup_replicate. split; [done|]. rewrite length_take. lia.
Qed.

Lemma SetTip_spec t c p b : wf_tree t -> chain_ok t (vChain c) -> t !! p = Some b ->
  exists c', SetTip t c (Some p) = Some c' /\ lastTip c' = Some p /\
    length (vChain c') = S (Z.to_nat (bi_height b)) /\
    (forall k, (k <= Z.to_nat (bi_height b))%nat -> vChain c' !! k = Some (parent (Z.to_nat (bi_height b) - k) t p)).
Proof.
  intros Ht Hc Hp. unfold SetTip. rewrite Hp. cbn [mbind option_bind]. set (H := Z.to_nat (bi_height b)).
  destruct (Ht p b Hp) as [H0 _ _].
  destruct (set_tip_loop_spec t Ht (vChain c) Hc p H (S H) H p b (resize_chain (S H) (vChain c))) as (l & -> & Hl & Hk).
  - lia.
  - lia.
  - by rewrite Nat.sub_diag.
  - done.
  - lia.
  - unfold resize_chain. rewrite length_app, length_take, length_replicate. lia.
  - intros k Hk. apply lookup_resize. lia.
  - lia.
  - cbn [mbind option_bind]. eexists. split; [done|]. by split.
Qed.

Lemma chain_of_parents t p b l : wf_tree t -> t !! p = Some b ->
  length l = S (Z.to_nat (bi_height b)) ->
  (forall k, (k <= Z.to_nat (bi_height b))%nat -> l !! k = Some (parent (Z.to_nat (bi_height b) - k) t p)) ->
  chain_ok t l.
Proof.
  intros Ht Hp Hl Hk h o Ho. pose proof (lookup_lt_Some _ _ _ Ho) as Hlt. destruct (Ht p b Hp) as [H0 _ _].
  assert (o = parent (Z.to_nat (bi_height b) - h) t p) as -> by (rewrite Hk in Ho by lia; congruence).
  destruct (parent_exists t Ht (Z.to_nat (bi_height b) - h) p b Hp) as (q & bq & E & Hq & Hh); [lia|].
  exists q, bq. split; [done|]. split; [done|]. split; [lia|]. intros h' ->.
  rewrite Hk by lia. f_equal. replace (Z.to_nat (bi_height b) - h')%nat with ((Z.to_nat (bi_height b) - S h') + 1)%nat by lia.
  rewrite parent_add, E. cbn [mbind option_bind parent]. rewrite Hq. cbn [mbind option_bind]. by destruct (bi_pprev bq).
Qed.

(** [SetTip] makes the active chain the chain of the new tip, whatever fork the
    old one was: starting from any consistent [vChain] the new one has one entry
    per height up to the tip's, entry [h] is the tip's ancestor at [h], and it is
    consistent again, although the loop stops at the first entry that is already
    right. *)
Theorem set_tip_correct t c p b :
  wf_tree t -> chain_ok t (vChain c) -> t !! p = Some b ->
  exists c', SetTip t c (Some p) = Some c' /\ lastTip c' = Some p /\ chain_ok t (vChain c') /\
    Height c' = bi_height b /\
    forall h, 0 <= h <= bi_height b -> GetAncestor t p h = Some (ch_at c' h).
Proof.
  intros Ht Hc Hp. destruct (SetTip_spec t c p b Ht Hc Hp) as (c' & Hs & Htip & Hl & Hk).
  destruct (Ht p b Hp) as [H0 _ _].
  exists c'. split; [done|]. split; [done|]. split; [by eapply chain_of_parents|].
  split; [unfold Height, Zlen; rewrite Hl; lia|]. intros h Hh.
  destruct (GetAncestor_spec t Ht p b h Hp Hh) as (q & bq & -> & Hq & _). f_equal.
  unfold ch_at, Zlen. rewrite Hl. rewrite (proj2 (Z.ltb_ge h 0)), (proj2 (Z.leb_gt _ h)) by lia. cbn [orb].
  rewrite nth_lookup, Hk by lia. cbn. rewrite <- Hq. f_equal. lia.
Qed.

Lemma set_tip_correct_witness :
  exists c', SetTip demo_tree (Chain [] None) (Some [4]) = Some c' /\ Height c' = 3 /\ ch_at c' 1 = Some [2].
Proof.
  destruct (demo_tree !! [4]) as [b|] eqn:E; [|vm_compute in E; discriminate].
  assert (Hb : bi_height b = 3) by (assert (E' : bi_height <$> demo_tree !! [4] = Some 3) by (vm_compute; reflexivity);
    rewrite E in E'; by injection E').
  assert (Hn : chain_ok demo_tree (vChain (Chain [] None))) by (intros h o Ho; discriminate).
  destruct (set_tip_correct demo_tree (Chain [] None) [4] b demo_tree_wf Hn E) as (c' & H1 & _ & _ & H2 & H3).
  exists c'. split; [done|]. split; [lia|]. specialize (H3 1 ltac:(lia)).
  assert (E3 : GetAncestor demo_tree [4] 1 = Some (Some [2])) by (vm_compute; reflexivity). congruence.
Defined.

(** *** The fork point *)

Definition on_chain (t : tree) (c : chain) (x : ptr) : Prop := Contains t c x = Some true.

(** [r] is the first block on the way down from [q] that is on the chain. *)
Definition fork_point (t : tree) (c : chain) (q : ptr) (r : option ptr) : Prop :=
  match r with
  | Some f => exists n, parent n t q = Some f /\ on_chain t c f /\
              forall m x, (m < n)%nat -> parent m t q = Some x -> ~ on_chain t c x
  | None => forall m x, parent m t q = Some x -> ~ on_chain t c x
  end.

Lemma fork_step t c q b r : t !! q = Some b -> ~ on_chain t c q ->
  match bi_pprev b with Some q' => fork_point t c q' r | None => r = None end -> fork_point t c q r.
Proof.
  intros Hq Hno Hr. destruct (bi_pprev b) as [q'|] eqn:Ep.
  - assert (Hp : forall m, parent (S m) t q = parent m t q') by (intros m; cbn [parent]; rewrite Hq; cbn; by rewrite Ep).
    destruct r as [f|]; cbn [fork_point] in *.
    + destruct Hr as (n & H1 & H2 & H3). exists (S n). rewrite Hp. split; [done|]. split; [done|].
      intros [|m] x Hm Hx; [cbn in Hx; congruence|]. rewrite Hp in Hx. apply (H3 m); [lia|done].
    + intros [|m] x Hx; [cbn in Hx; congruence|]. rewrite Hp in Hx. by apply (Hr m).
  - subst r. intros [|m] x Hx; [cbn in Hx; congruence|]. cbn [parent] in Hx. rewrite Hq in Hx. cbn in Hx. by rewrite Ep in Hx.
Qed.

Lemma fork_loop_spec t c fuel q b : wf_tree t -> t !! q = Some b -> bi_height b < Z.of_nat fuel ->
  exists r, fork_loop fuel t c (Some q) = Some r /\ fork_point t c q r.
Proof.
  intros Ht. revert q b. induction fuel as [|fuel IH]; intros q b Hq Hf; [destruct (Ht q b Hq); lia|].
  cbn [fork_loop]. assert (Hc : exists i, Contains t c q = Some i) by (unfold Contains; rewrite Hq; cbn; by eexists).
  destruct Hc as [[] Hc]; rewrite Hc; cbn [mbind option_bind].
  - exists (Some q). split; [done|]. exists 0%nat. split; [done|]. split; [done|]. lia.
  - rewrite Hq. cbn [mbind option_bind]. destruct (Ht q b Hq) as [_ Hprev _].
    assert (Hno : ~ on_chain t c q) by (unfold on_chain; congruence).
    destruct (bi_pprev b) as [q'|] eqn:Ep.
    + destruct Hprev as (b' & Hq' & Hh). destruct (IH q' b' Hq') as (r & Hr & Hf'); [lia|].
      exists r. split; [done|]. apply (fork_step t c q b); [done..|]. by rewrite Ep.
    + exists None. split; [by destruct fuel|]. apply (fork_step t c q b); [done..|]. by rewrite Ep.
Qed.

Lemma above_chain t c x b : t !! x = Some b -> Height c < bi_height b -> ~ on_chain t c x.
Proof.
  intros Hx Hh Hon. unfold on_chain, Contains in Hon. rewrite Hx in Hon. cbn [mbind option_bind] in Hon.
  injection Hon as Hon. apply bool_decide_eq_true in Hon. unfold ch_at, Height in *.
  rewrite (proj2 (Z.leb_le _ _)), orb_true_r in Hon by lia. discriminate.
Qed.

(** [FindFork] finds the fork: for every chain and every block of a well-formed
    tree it returns, and the result is the first block on the way down from that
    block which is on the chain, or the null pointer if there is none; jumping to
    the chain's height through the skip list skips only blocks that cannot be on
    it. *)
Theorem find_fork_correct t c q b :
  wf_tree t -> t !! q = Some b -> exists r, FindFork t c (Some q) = Some r /\ fork_point t c q r.
Proof.
  intros Ht Hq. unfold FindFork. rewrite Hq. cbn [mbind option_bind]. destruct (Ht q b Hq) as [H0 _ _].
  destruct (Z.ltb_spec (Height c) (bi_height b)) as [Hlt|Hge].
  2: { cbn [mbind option_bind]. apply (fork_loop_spec t c _ q b Ht Hq). lia. }
  assert (Habove : forall m x, parent m t q = Some x -> Height c < bi_height b - Z.of_nat m -> Z.of_nat m <= bi_height b -> ~ on_chain t c x).
  { intros m x Hx Hm Hmb. destruct (parent_exists t Ht m q b Hq Hmb) as (x' & bx & E & Hbx & Hhx).
    assert (x' = x) as -> by congruence. apply (above_chain t c x bx Hbx). lia. }
  destruct (Z.ltb_spec (Height c) 0) as [Hneg|Hpos].
  - assert (Hempty : vChain c = []) by (unfold Height, Zlen in Hneg; destruct (vChain c); [done|cbn in Hneg; lia]).
    exists None. unfold GetAncestor. rewrite Hq. cbn [mbind option_bind].
    rewrite (proj2 (Z.ltb_lt (Height c) 0)), orb_true_r by lia. split; [done|].
    intros m x Hx Hon. unfold on_chain, Contains in Hon. destruct (t !! x) as [bx|] eqn:Ex; [|done]. cbn [mbind option_bind] in Hon.
    injection Hon as Hon. apply bool_decide_eq_true in Hon. unfold ch_at in Hon. rewrite Hempty in Hon.
    destruct (Z.to_nat (bi_height bx)), (_ || _); done.
  - destruct (GetAncestor_spec t Ht q b (Height c) Hq) as (q' & b' & -> & Hpar & Hb' & Hh'); [lia|].
    cbn [mbind option_bind]. set (n := Z.to_nat (bi_height b - Height c)) in *.
    destruct (fork_loop_spec t c (S (Z.to_nat (bi_height b))) q' b' Ht Hb') as (r & Hr & Hf); [lia|].
    exists r. split; [done|]. destruct r as [f|]; cbn [fork_point] in *.
    + destruct Hf as (k & H1 & H2 & H3). exists (n + k)%nat. rewrite parent_add, Hpar. split; [done|]. split; [done|].
      intros m x Hm Hx. destruct (decide (m < n)%nat); [apply (Habove m x Hx); lia|].
      apply (H3 (m - n)%nat); [lia|]. replace m with (n + (m - n))%nat in Hx by lia. by rewrite parent_add, Hpar in Hx.
    + intros m x Hx. destruct (decide (m < n)%nat); [apply (Habove m x Hx); lia|].
      apply (Hf (m - n)%nat). replace m with (n + (m - n))%nat in Hx by lia. by rewrite parent_add, Hpar in Hx.
Qed.

Lemma find_fork_correct_witness :
  exists r, FindFork demo_tree (Chain [Some [1]; Some [2]] (Some [2])) (Some [4]) = Some r /\
    fork_point demo_tree (Chain [Some [1]; Some [2]] (Some [2])) [4] r.
Proof.
  destruct (demo_tree !! [4]) as [b|] eqn:E; [|vm_compute in E; discriminate].
  exact (find_fork_correct demo_tree (Chain [Some [1]; Some [2]] (Some [2])) [4] b demo_tree_wf E).
Defined.

(** *** The locator *)

(** A locator of [q]: ancestors at strictly falling heights, from [q] to a block of
    height 0. *)
Inductive locates (t : tree) : ptr -> list ptr -> Prop :=
| locates_root q b : t !! q = Some b -> bi_height b = 0 -> locates t q [q]
| locates_step q b q' b' n l :
    t !! q = Some b -> t !! q' = Some b' -> parent n t q = Some q' -> bi_height b' < bi_height b ->
    locates t q' l -> locates t q (q :: l).

Lemma ch_at_parent t c q b h : wf_tree t -> chain_ok t (vChain c) -> t !! q = Some b ->
  ch_at c (bi_height b) = Some q -> 0 <= h <= bi_height b -> ch_at c h = parent (Z.to_nat (bi_height b - h)) t q.
Proof.
  intros Ht Hc Hq Hat Hh. unfold ch_at in *. unfold Zlen in *.
  destruct (Z.ltb_spec (bi_height b) 0); [done|]. destruct (Z.leb_spec (Z.of_nat (length (vChain c))) (bi_height b)); [done|].
  cbn [orb] in Hat. rewrite (proj2 (Z.ltb_ge h 0)), (proj2 (Z.leb_gt _ h)) by lia. cbn [orb].
  rewrite nth_lookup in Hat. destruct (vChain c !! Z.to_nat (bi_height b)) as [o|] eqn:Eo; [|done]. cbn in Hat. subst o.
  rewrite nth_lookup, (chain_ok_parent t (vChain c) _ q Hc Eo) by lia. cbn. f_equal. lia.
Qed.

Lemma locator_loop_spec t c fuel q b nStep have : wf_tree t -> chain_ok t (vChain c) ->
  t !! q = Some b -> bi_height b < Z.of_nat fuel -> 0 < nStep ->
  exists l, locator_loop fuel t c (Some q) nStep have = Some (have ++ l) /\ locates t q l.
Proof.
  intros Ht Hc. revert q b nStep have. induction fuel as [|fuel IH]; intros q b nStep have Hq Hf Hn; [destruct (Ht q b Hq); lia|].
  cbn [locator_loop]. rewrite Hq. cbn [mbind option_bind]. destruct (Ht q b Hq) as [H0 _ _].
  destruct (Z.eqb_spec (bi_height b) 0) as [E0|E0].
  { exists [q]. split; [done|]. by apply (locates_root t q b). }
  set (h := Z.max (bi_height b - nStep) 0).
  destruct (GetAncestor_spec t Ht q b h Hq) as (q' & b' & Hanc & Hpar & Hq' & Hh'); [lia|].
  assert (Hnext : (i ← Contains t c q; if (i : bool) then Some (ch_at c h) else GetAncestor t q h) = Some (Some q')).
  { unfold Contains. rewrite Hq. cbn [mbind option_bind]. case_bool_decide as Hat; [|done].
    rewrite (ch_at_parent t c q b h Ht Hc Hq Hat) by lia. by rewrite Hpar. }
  unfold Contains in *. rewrite Hq in *. cbn [mbind option_bind] in *. rewrite Hnext. cbn [mbind option_bind].
  destruct (IH q' b' (if (10 <? length (have ++ [q]))%nat then nStep * 2 else nStep) (have ++ [q]) Hq') as (l & Hl & Hloc);
    [lia|destruct (_ <? _)%nat; lia|].
  exists (q :: l). split; [by rewrite Hl, <- app_assoc|]. apply (locates_step t q b q' b' _ l Hq Hq' Hpar); [lia|done].
Qed.

(** [GetLocator] terminates with a locator: from any block of a well-formed tree,
    on the active chain or not, it lists ancestors at strictly falling heights,
    starting with the block itself and ending at height 0. *)
Theorem get_locator_correct t c q b :
  wf_tree t -> chain_ok t (vChain c) -> t !! q = Some b ->
  exists l, GetLocator t c (Some q) = Some l /\ locates t q l.
Proof.
  intros Ht Hc Hq. unfold GetLocator. rewrite Hq. cbn [mbind option_bind].
  destruct (locator_loop_spec t c (S (Z.to_nat (bi_height b))) q b 1 [] Ht Hc Hq) as (l & Hl & Hloc); [lia..|].
  by exists l.
Qed.

Lemma get_locator_correct_witness :
  exists l, GetLocator demo_tree (Chain [] None) (Some [4]) = Some l /\ locates demo_tree [4] l.
Proof.
  destruct (demo_tree !! [4]) as [b|] eqn:E; [|vm_compute in E; discriminate].
  apply (get_locator_correct demo_tree (Chain [] None) [4] b demo_tree_wf); [intros h o Ho; discriminate|exact E].
Defined.
