(* ===== verification/BlockCheck.v ===== *)
(** * Rules on the header and the coinbase of a block

    [devtax_scriptpub_for_height] of src/src/hush_globals.h and
    [hush_checkcommission], [hush_checkPOW], [hush_notarypay],
    [hush_checknotarypay] with their helpers of src/src/hush_bitcoind.h.

    A block is its header fields and its transactions; an input is the list of
    output scripts of the transaction it spends ([None]: [GetTransaction] fails)
    with the index of the output.  The results of [CheckEquihashSolution] and
    [hush_block2pubkey33] are arguments.  [None] as a result is an access outside
    an array. *)
From Stdlib Require Import String.
From S2P Require Import Prelude HashStream Sha256 Encoding Subsidy NotaryList Notarized Notary Address Events StateFile Connect Arith256 Pow.
Local Open Scope string_scope.
Local Open Scope list_scope.
Local Open Scope Z_scope.

(** ** Data *)

Record ptx := PTx { px_vin : list (option (list (list Z)) * nat); px_vout : list txout }.
Record pblock := PBlock { pb_nBits : Z; pb_nTime : Z; pb_hash : limbs; pb_prev : uint256; pb_vtx : list ptx }.

(** The settings that are read here. *)
Record check_env := CheckEnv {
  ck_connect : connect_env;
  ck_cfg : sc_config;
  ck_PUBKEY33 : list Z;              (* ASSETCHAINS_OVERRIDE_PUBKEY33 *)
  ck_PUBKEYHASH : list Z;            (* ASSETCHAINS_OVERRIDE_PUBKEYHASH *)
  ck_NOTARY_PAY : list Z;            (* ASSETCHAINS_NOTARY_PAY *)
  ck_EARLYTXID : bool;               (* HUSH_EARLYTXID != zeroid *)
  ck_early_tx : option (list txout * Z)  (* that transaction and its height *)
}.

(** The state: [ASSETCHAINS_SCRIPTPUB] as characters, the statics of
    [hush_appendACscriptpub] and [hush_checkcommission],
    [HUSH_TEST_ASSETCHAIN_SKIP_POW], the cache of the subsidy and the node. *)
Record ck_state := CkState {
  cs_scriptpub : list Z; cs_appended : bool; cs_didinit : bool; cs_skip : bool;
  cs_cache : sc_cache; cs_node : cnode
}.
Definition set_scriptpub (p : list Z) (s : ck_state) : ck_state :=
  CkState p true (cs_didinit s) (cs_skip s) (cs_cache s) (cs_node s).
Definition set_didinit (s : ck_state) : ck_state :=
  CkState (cs_scriptpub s) (cs_appended s) true (cs_skip s) (cs_cache s) (cs_node s).
Definition set_skip (b : bool) (s : ck_state) : ck_state :=
  CkState (cs_scriptpub s) (cs_appended s) (cs_didinit s) b (cs_cache s) (cs_node s).
Definition set_sc_cache (k : sc_cache) (s : ck_state) : ck_state :=
  CkState (cs_scriptpub s) (cs_appended s) (cs_didinit s) (cs_skip s) k (cs_node s).
Definition set_cnode (c : cnode) (s : ck_state) : ck_state :=
  CkState (cs_scriptpub s) (cs_appended s) (cs_didinit s) (cs_skip s) (cs_cache s) c.

Definition s8 (x : Z) : Z := (x + 2 ^ 7) mod 2 ^ 8 - 2 ^ 7.
Definition OP_RETURN : Z := 0x6a.
Definition OP_CHECKSIG : Z := 0xac.
Definition HUSH_EARLYTXID_HEIGHT : Z := 100.

(** ** The developers' scripts *)

Definition DEVTAX_DATA : list (string * string) := [
  ("RAMagYNy678TEFvjqE9kmkDX5j3xsK9whE", "76a9140bcca88d9224ec1571d4dd68009305d055ca3a4588ac");
  ("RAstH3RJSHq2jr9cigVmAdC5kLdeqCU9gu", "76a9141187d31f4b95c3210d2c69acb6853034fb748f8d88ac");
  ("RCjpaSm3SBnoR7EfM3BGFApx1FgMYZqUqd", "76a91425f1a8f5c0bcb7fb4c351f98fd664bbbc029c65488ac");
  ("RCoJZfPhyigihrzBx3nBnT2V2fdt8PUEmN", "76a914269a4514eaa07aa928d3d809d6f9b5a8b0a0d84588ac");
  ("REadVrDc5PdtkuuXhGMcdBfTLKFkYZtp61", "76a9143a24eb5ff34c8395c4159aa74113680960fbae0888ac");
  ("REJjRATXJ4YqtTTbcSS24HTzVpKc235kzb", "76a914372334851e666ff7932d423b1d614db0ad88f3e988ac");
  ("REktw85C53o6FN9yuQL4HfL8cEgq9oQzgg", "76a9143c15f6d372a486e0d3da907e0063d990d50a1f9588ac");
  ("REXWQqh6ibSc3SDZDN1n3tN6H2fjDB3LRs", "76a914398dc193009312742129f00bc12214c2e0ec2cba88ac");
  ("RFJYpa7sHMes2da1Kd9JZpNEwoz3ut2zxq", "76a91442127c49a163f79898c69906147ca3c7c34924b788ac");
  ("RFLXxCk7AAtUnxauu8k5BzuhXm6XqfJjLA", "76a914427297ae0417d18b7f9c31b4a51502d4f2a8cd7988ac");
  ("RHrBQoDnZ5QrtkL7B1zsdFxrNfLuEikf5T", "76a9145dfe2cfe9f6db1c0e6847a35f433d1948d4086a488ac");
  ("RJDnDj2XHFSbjrBWxW7AA5vv8pQbeiRw5i", "76a9146213f7d7567a97d4b6888d3863ed8d4808acf9c688ac");
  ("RKf78FsvzJebo41n1ZQGyLxbuh3bmbkmAg", "76a91471d646502b388d9cca69f05bdedc8920918eca4a88ac");
  ("RL6J7DU69YvJBFSL93RnezR7dJYW93yKN3", "76a9147699d74f361b559ef4cdab6ad2582f68fdd444bd88ac");
  ("RLDDJMB3fSexorUC7ZkTRjcRLJEkNJZktz", "76a91477e8bd3dc10277540fa7f183936c977c130c397c88ac");
  ("RR9ufAA8m5Myu5EZd2KdXy9hpD6sY5vE1f", "76a914ae2164e50fd814faa8629907679af2668f8fd08388ac");
  ("RUBz8fptKNXB5NL3H1ohNGTeKMBv9WRcpd", "76a914cf6e56a04785c9a913d355a2d9c7c7ec1243a4ff88ac");
  ("RUT8NytuYHqmYXwBkue7ujLWaCKw5ZVc38", "76a914d24b763bdac5fb28513d134743e42302736c0dfd88ac");
  ("RVF6tWNCrUsubeKLzadH4aeseVwnJPKd8N", "76a914dafd59fd09a4e7cb813fc4dde4515a605e3aceae88ac");
  ("RVMygLshHa8qvFX1orEi5FGji99BVXUQFy", "76a914dc4a3eb079349b4bb25864af4ddc5cd52faf382d88ac")
].
Definition DEVTAX_NUM : Z := 20.
Definition is_tush3 (symbol : list Z) : bool := has_prefix (chars "TUSH3") symbol.
Definition legacy_devtax_address : list Z := chars "RHushEyeDm7XwtaTWtyCbjGQumYyV8vMjn".

(** The row of a height, [None] before the fork and on other chains. *)
Definition devtax_row (symbol : list Z) (nHeight : Z) : option (string * string) :=
  let fork := if is_hush3 symbol then nHushHardforkHeight4 else 5 in
  if fork <=? nHeight then
    if is_hush3 symbol || is_tush3 symbol then Some (nth (Z.to_nat (nHeight mod DEVTAX_NUM)) DEVTAX_DATA ("", "")) else None
  else None.
Definition devtax_scriptpub_for_height (symbol scriptpub : list Z) (nHeight : Z) : list Z :=
  match devtax_row symbol nHeight with Some e => chars e.2 | None => scriptpub end.

(** [std::string::operator[]] with a [char] as the index, and [back()]. *)
Definition str_at (s : list Z) (i : Z) : option Z :=
  if (0 <=? i) && (i <? Zlen s) then Some (rd s (Z.to_nat i)) else if i =? Zlen s then Some 0 else None.
Definition str_back (s : list Z) : option Z := c ← last s; Some (s8 c).

Section Check.
Context (ck : check_env).
Let X := ck_connect ck.
Let symbol := SYMBOL (ce_chain X).
Let named := match symbol with [] => false | _ => true end.

(** ** Commission *)

Definition hush_appendACscriptpub (s : ck_state) : option (bool * ck_state) :=
  if cs_appended s then Some (true, s)
  else
    back ← str_back (cs_scriptpub s);
    x ← str_at (cs_scriptpub s) back;
    if x =? 49 then
      y ← str_at (cs_scriptpub s) (back - 1);
      if y =? 51 then
        match ck_early_tx ck with
        | Some (vout, ht) =>
          if ht <? HUSH_EARLYTXID_HEIGHT then
            match List.find (fun o => rd (vo_script o) 0 =? OP_RETURN) vout with
            | Some o =>
              let hex := concat (map (fun m => [hexbyte (Z.land (Z.shiftr m 4) 0xf); hexbyte (Z.land m 0xf)]) (drop 3 (vo_script o))) in
              Some (true, set_scriptpub (take (length (cs_scriptpub s) - 2) (cs_scriptpub s) ++ hex) s)
            | None => Some (false, s)
            end
          else Some (false, s)
        | None => Some (false, s)
        end
      else Some (false, s)
    else Some (false, s).

Definition is_p2pk (script : list Z) : bool :=
  (length script =? 35)%nat && (rd script 0 =? 33) && (rd script 34 =? OP_CHECKSIG).

(** The comparison of a script with a script in hexadecimal. *)
Definition hex_script_eq (scriptpub script : list Z) (size : Z) : bool :=
  ((length scriptpub / 2 =? length script)%nat && (Zlen script <? size))
  && bool_decide ((decode_hex (length script) (scriptpub ++ [0])).1 = script).

Definition commission_script_ok (scriptpub script : list Z) : bool :=
  if (1 <? length scriptpub)%nat then hex_script_eq scriptpub script 8192
  else
    (is_p2pk script && bool_decide (take 33 (drop 1 script) = ck_PUBKEY33 ck))
    || ((length script =? 25)%nat && (rd script 0 =? 0x76) && (rd script 1 =? 0xa9) && (rd script 2 =? 20)
        && (rd script 23 =? 0x88) && (rd script 24 =? OP_CHECKSIG)
        && bool_decide (take 20 (drop 3 script) = ck_PUBKEYHASH ck)).

(** [uninit] as in [the_commission]. *)
Definition hush_checkcommission (uninit : Z) (s : ck_state) (b : pblock) (height : Z) : option (Z * ck_state) :=
  let scriptpub := devtax_scriptpub_for_height symbol (cs_scriptpub s) (u32 height) in
  if negb (COMMISSION (ck_cfg ck) =? 0) || negb (FOUNDERS_REWARD (ck_cfg ck) =? 0) then
    coinbase ← head (pb_vtx b);
    r ← the_commission (ck_cfg ck) uninit (cs_cache s)
          (Some (map (fun t => map vo_nValue (px_vout t)) (pb_vtx b))) height;
    let '(c, cache) := (r : Z * sc_cache) in
    let checktoshis := s64 c in
    let s := set_sc_cache cache s in
    if (10000 <=? checktoshis) && (length (px_vout coinbase) <? 2)%nat then Some (-1, s)
    else if negb (checktoshis =? 0) then
      out ← px_vout coinbase !! 1%nat;
      s ← (if (1 <? length scriptpub)%nat && negb (cs_didinit s) && (HUSH_EARLYTXID_HEIGHT <? height) && ck_EARLYTXID ck
           then r ← hush_appendACscriptpub s;
                let '(ok, s) := (r : bool * ck_state) in
                Some (if ok then set_didinit s else s)
           else Some s);
      if negb (commission_script_ok scriptpub (vo_script out)) then Some (-1, s)
      else if negb (vo_nValue out =? checktoshis) then Some (-1, s)
      else Some (checktoshis, s)
    else Some (checktoshis, s)
  else Some (0, s).

(** ** The check of a header *)

(** The 33 bytes behind the first one of the first output, whatever its length. *)
Definition hush_is_notarytx (t : ptx) : option bool :=
  match px_vout t with
  | [] => Some false
  | o :: _ => if (length (vo_script o) <? 34)%nat then None
              else Some (bool_decide (take 33 (drop 1 (vo_script o)) = crypto555))
  end.

(** The rule for block 1: where the premine goes. *)
Definition premine_ok (s : ck_state) (b : pblock) (height : Z) : option bool :=
  let scriptpub := devtax_scriptpub_for_height symbol (cs_scriptpub s) (u32 height) in
  let script := (coinbase ← head (pb_vtx b); out ← head (px_vout coinbase); Some (vo_script out)) in
  hex ← (if (1 <? length scriptpub)%nat then
           back ← str_back scriptpub;
           x ← str_at scriptpub back;
           if negb (x =? 49) then y ← str_at scriptpub (back - 1); Some (negb (y =? 51)) else Some false
         else Some false);
  if (hex : bool) then script ← script; Some (hex_script_eq scriptpub script 10000)
  else if negb (rd (ck_PUBKEY33 ck) 0 =? 0) then
    script ← script; Some (is_p2pk script && bool_decide (take 33 (drop 1 script) = ck_PUBKEY33 ck))
  else Some true.

(** The approximate check of a paid notarization. *)
Definition notarypay_ok (s : ck_state) (slowflag : bool) (b : pblock) (height : Z) : option (bool * ck_state) :=
  match pb_vtx b with
  | t0 :: t1 :: _ =>
    if negb slowflag && (1 <? length (px_vout t0))%nat then
      isnotary ← hush_is_notarytx t1;
      if negb (isnotary : bool) then Some (false, s)
      else
        let '(_, numSN, cache) := hush_notaries symbol (ce_private X) (ce_pubkey2addr X) (ce_heightstamp X)
                                    (cn_cache (cs_node s)) height (pb_nTime b) in
        Some (negb (Zlen (px_vin t1) <? u64 (Z.quot (s8 numSN) 5)), set_cnode (set_cache cache (cs_node s)) s)
    else Some (true, s)
  | _ => Some (true, s)
  end.

Definition checkPOW_commission (uninit : Z) (s : ck_state) (failed : bool) (b : pblock) (height : Z) : option (bool * ck_state) :=
  if negb failed && negb (COMMISSION (ck_cfg ck) =? 0) then
    if height =? 1 then ok ← premine_ok s b height; Some (ok, s)
    else r ← hush_checkcommission uninit s b height;
         let '(c, s) := (r : Z * ck_state) in Some (negb (c <? 0), s)
  else Some (true, s).

(** The part of [hush_checkPOW] after the height is known. *)
Definition checkPOW_at (uninit : Z) (s : ck_state) (possible slowflag : bool) (b : pblock) (height : Z) : option (Z * ck_state) :=
  let failed := named && gt (pb_hash b) (set_compact (pb_nBits b)) in
  if failed && (negb possible || named) && cs_skip s then Some (0, s)
  else if failed && (negb possible || named) && (STAKED (ck_cfg ck) =? 0) then Some (-1, s)
  else
    r ← checkPOW_commission uninit s failed b height;
    let '(ok, s) := (r : bool * ck_state) in
    if negb ok then Some (-1, s)
    else
      r ← (if negb failed && negb (rd (ck_NOTARY_PAY ck) 0 =? 0) then notarypay_ok s slowflag b height else Some (true, s));
      let '(ok, s) := (r : bool * ck_state) in
      if negb ok then Some (-1, s)
      else Some (if failed && negb possible then -1 else 0, s).

Definition hush_checkPOW (uninit : Z) (s : ck_state) (equihash possible slowflag : bool) (b : pblock) (height : Z)
  : option (Z * ck_state) :=
  let s := if negb (cs_skip s) && ce_regtest X then set_skip true s else s in
  if negb equihash then Some (-1, s)
  else if height =? 0 then
    if slowflag then Some (0, s)
    else
      let height := match ce_index X (pb_prev b) with Some h => h + 1 | None => 0 end in
      if height =? 0 then Some (0, s) else checkPOW_at uninit s possible slowflag b height
  else checkPOW_at uninit s possible slowflag b height.

(** ** Payment of the notaries *)

Definition hush_notarypayamount (nHeight notarycount : Z) : Z :=
  let curEra := if 1 <? rd (ENDSUBSIDY (ck_cfg ck)) 0 then find_era (ck_cfg ck) (S (LASTERA (ck_cfg ck))) 0 (u64 nHeight) else 0%nat in
  if (LASTERA (ck_cfg ck) <? curEra)%nat then 0
  else if notarycount =? 0 then 0
  else rd (ck_NOTARY_PAY ck) curEra / u64 notarycount.

(** [junk] is the content of [scriptbuf], [u] that of the variables that are
    passed by pointer without a value. *)
Definition hush_getnotarizedheight (junk : list Z) (u : vout_st) (c : cnode) (timestamp height : Z) (script : list Z)
  : option (Z * cnode) :=
  let len := Zlen script in
  if (4 <=? len) && (len <=? 10001) then
    r ← hush_voutupdate X true (VoutSt 0 (v_voutmask u) (v_specialtx u) (v_notarizedheight u) (v_isratification u) c)
          (memcpy_at junk 0 script) len height zero256 1 1 0 true 0 timestamp;
    let '(ret, st) := (r : Z * vout_st) in
    Some (if negb (ret =? -2) then 0 else v_notarizedheight st, v_node st)
  else Some (0, c).

Definition notary_out (keys : list (list Z)) (amount id : Z) : txout :=
  TxOut (s64 amount) (33 :: nth (Z.to_nat id) keys [] ++ [OP_CHECKSIG]).

(** [notarypubkeys] after the call of [hush_notaries]. *)
Definition notarypubkeys (r : option (list (list Z))) : list (list Z) := default (replicate 64 (replicate 33 0)) r.

(** The total and the outputs of the transaction; the counter of the loop is an
    [int8_t], so it stops at 128. *)
Definition hush_notarypay (junk : list Z) (u : vout_st) (c : cnode) (vout : list txout) (NotarizationNotaries : list Z)
  (timestamp height : Z) (script : list Z) : option (Z * list txout * cnode) :=
  let '(r, _, cache) := hush_notaries symbol (ce_private X) (ce_pubkey2addr X) (ce_heightstamp X) (cn_cache c) height timestamp in
  let keys := notarypubkeys r in
  let c := set_cache cache c in
  if rd (nth 0 keys []) 0 =? 0 then Some (0, vout, c)
  else
    h ← hush_getnotarizedheight junk u c timestamp height script;
    let '(notarizedheight, c) := (h : Z * cnode) in
    if notarizedheight =? 0 then Some (0, vout, c)
    else
      let n := S (length NotarizationNotaries) in
      let vout := take n vout ++ replicate (n - length vout) (TxOut (-1) []) in
      let amount := hush_notarypayamount height (Zlen NotarizationNotaries) in
      if amount =? 0 then Some (0, vout, c)
      else
        let paid := map (notary_out keys amount) (take 128 NotarizationNotaries) in
        Some (foldl (fun t o => u64 (t + vo_nValue o)) 0 paid, take 1 vout ++ paid ++ drop (1 + length paid) vout, c).

(** The inner loop of [GetNotarizationNotaries] for one spent script. *)
Definition matching_notaries (keys : list (list Z)) (numNN : Z) (script : list Z) : list Z :=
  List.filter (fun i => is_p2pk script && bool_decide (take 33 (drop 1 script) = nth (Z.to_nat i) keys []))
    (map Z.of_nat (seq 0 (Z.to_nat numNN))).

(** [Some None]: false is returned. *)
Fixpoint notaries_of_vin (keys : list (list Z)) (numNN : Z) (vin : list (option (list (list Z)) * nat)) : option (option (list Z)) :=
  match vin with
  | [] => Some (Some [])
  | (None, _) :: _ => Some None
  | (Some vout, n) :: vin =>
    here ← (if 0 <? numNN then script ← vout !! n; Some (matching_notaries keys numNN script) else Some []);
    rest ← notaries_of_vin keys numNN vin;
    Some (option_map (app here) rest)
  end.
Definition GetNotarizationNotaries (keys : list (list Z)) (numNN : Z) (vin : list (option (list (list Z)) * nat))
  : option (option (list Z)) :=
  if rd (nth 0 keys []) 0 =? 0 then Some None else notaries_of_vin keys numNN vin.

(** The loop over the outputs [all] of the coinbase: [matches] and [total].  [None]: the
    vector [NotarizationNotaries] is read at [n - 1] where it has no element; the
    code does not check this, and what it does from there on is undefined. *)
Fixpoint pay_loop (keys : list (list Z)) (nn : list Z) (amount : Z) (all outs : list txout) (n matches total : Z) : option (Z * Z) :=
  match outs with
  | [] => Some (matches, total)
  | o :: outs =>
    if n =? 0 then pay_loop keys nn amount all outs (s8 (n + 1)) matches total
    else
      r ← (if is_p2pk (vo_script o) then
             id ← (if 0 <? n then nn !! Z.to_nat (n - 1) else None);
             if bool_decide (take 33 (drop 1 (vo_script o)) = nth (Z.to_nat id) keys []) then
               v ← all !! Z.to_nat n;
               Some (if u64 (vo_nValue v) =? amount then (s8 (matches + 1), u64 (total + vo_nValue o)) else (matches, total))
             else Some (matches, total)
           else Some (matches, total));
      let '(matches, total) := (r : Z * Z) in
      pay_loop keys nn amount all outs (s8 (n + 1)) matches total
  end.

(** The first half of [hush_checknotarypay]: the notaries of the notarization and
    the payment that [hush_notarypay] builds for them; [None] inside: 0 is
    returned. *)
Definition expected_pay (junk : list Z) (u : vout_st) (c : cnode) (b : pblock) (height : Z)
  : option (option (list (list Z) * list Z * Z * list txout) * cnode) :=
  t1 ← pb_vtx b !! 1%nat;
  let '(r, numSN, cache) := hush_notaries symbol (ce_private X) (ce_pubkey2addr X) (ce_heightstamp X) (cn_cache c) height (pb_nTime b) in
  let keys := notarypubkeys r in
  let c := set_cache cache c in
  g ← GetNotarizationNotaries keys (s8 numSN) (px_vin t1);
  match (g : option (list Z)) with
  | None => Some (None, c)
  | Some nn =>
    if negb (bool_decide (NoDup nn)) then Some (None, c)
    else
      match px_vout t1 with
      | [_; o] =>
        if vo_nValue o =? 0 then
          op ← vo_script o !! 0%nat;
          if op =? OP_RETURN then
            p ← hush_notarypay junk u c [] nn (pb_nTime b) height (vo_script o);
            let '(total, vout, c) := (p : Z * list txout * cnode) in
            Some (if total =? 0 then None else Some (keys, nn, total, vout), c)
          else Some (None, c)
        else Some (None, c)
      | _ => Some (None, c)
      end
  end.

(** [None]: an undefined read, here or in [expected_pay]. *)
Definition hush_checknotarypay (junk : list Z) (u : vout_st) (c : cnode) (b : pblock) (height : Z) : option (Z * cnode) :=
  e ← expected_pay junk u c b height;
  let '(e, c) := (e : option (list (list Z) * list Z * Z * list txout) * cnode) in
  match e with
  | None => Some (0, c)
  | Some (keys, nn, totalsats, vout) =>
    pay ← vout !! 1%nat;
    coinbase ← head (pb_vtx b);
    r ← pay_loop keys nn (u64 (vo_nValue pay)) (px_vout coinbase) (px_vout coinbase) 0 0 0;
    let '(matches, total) := (r : Z * Z) in
    Some (if negb (matches =? 0) && (u64 matches =? Zlen nn) && (totalsats =? total) then totalsats else 0, c)
  end.

End Check.

(** ** Commission *)

(** What an accepted commission means. *)
Lemma checkcommission_paid ck uninit s b height c s' :
  COMMISSION (ck_cfg ck) <> 0 -> 0 <= c ->
  hush_checkcommission ck uninit s b height = Some (c, s') ->
  exists t cache,
    the_commission (ck_cfg ck) uninit (cs_cache s) (Some (map (fun t => map vo_nValue (px_vout t)) (pb_vtx b))) height = Some (t, cache) /\
    c = s64 t /\
    (c <> 0 -> exists coinbase out, head (pb_vtx b) = Some coinbase /\ px_vout coinbase !! 1%nat = Some out /\ vo_nValue out = c /\
       commission_script_ok ck (devtax_scriptpub_for_height (SYMBOL (ce_chain (ck_connect ck))) (cs_scriptpub s) (u32 height)) (vo_script out) = true).
Proof.
  intros Hc H0. unfold hush_checkcommission. apply Z.eqb_neq in Hc. rewrite Hc. cbn [negb orb].
  destruct (head (pb_vtx b)) as [coinbase|]; cbn [mbind option_bind]; [|done].
  destruct (the_commission _ _ _ _ _) as [[t cache]|]; cbn [mbind option_bind]; [|done].
  destruct ((10000 <=? s64 t) && _); [intros [= <- _]; lia|].
  destruct (Z.eqb_spec (s64 t) 0) as [E|E]; cbn [negb].
  { intros [= <- _]. exists t, cache. split; [done|]. split; [done|]. done. }
  destruct (px_vout coinbase !! 1%nat) as [out|] eqn:Eo; cbn [mbind option_bind]; [|done].
  match goal with |- context [mbind _ ?x] => destruct x as [s1|] end; cbn [mbind option_bind]; [|done].
  destruct (commission_script_ok _ _ _) eqn:Es; cbn [negb]; [|intros [= <- _]; lia].
  destruct (Z.eqb_spec (vo_nValue out) (s64 t)) as [Ev|]; cbn [negb]; [|intros [= <- _]; lia].
  intros [= <- _]. exists t, cache. split; [done|]. split; [done|]. intros _. exists coinbase, out. auto.
Qed.

(** ** The header *)

Section CheckPOW.
Context (ck : check_env) (uninit : Z) (s : ck_state) (b : pblock).
Context (Hname : SYMBOL (ce_chain (ck_connect ck)) <> []) (Hstaked : STAKED (ck_cfg ck) = 0).
Context (Hskip : cs_skip s = false) (Hreg : ce_regtest (ck_connect ck) = false).
Context (Hwf : wf (pb_hash b)) (Hbits : is_u 32 (pb_nBits b)).

Lemma checkPOW_at_sound possible slowflag height s' :
  checkPOW_at ck uninit s possible slowflag b height = Some (0, s') ->
  val (pb_hash b) <= val (set_compact (pb_nBits b)) /\
  (COMMISSION (ck_cfg ck) <> 0 -> height <> 1 ->
   exists c s1, hush_checkcommission ck uninit s b height = Some (c, s1) /\ 0 <= c).
Proof using All.
  unfold checkPOW_at. set (named := match SYMBOL _ with [] => false | _ => true end).
  assert (named = true) as -> by (subst named; destruct (SYMBOL _); done). cbn [andb]. rewrite orb_true_r, andb_true_r, Hskip, Hstaked.
  rewrite andb_false_r. cbn [Z.eqb]. rewrite gt_spec by (done || by apply set_compact_wf).
  destruct (Z.ltb_spec (val (set_compact (pb_nBits b))) (val (pb_hash b))) as [|Hle]; cbn [andb]; [done|].
  intros H. split; [done|]. intros Hc H1. revert H. unfold checkPOW_commission. apply Z.eqb_neq in Hc, H1. rewrite Hc, H1. cbn [negb andb].
  destruct (hush_checkcommission _ _ _ _ _) as [[c s1]|]; cbn [mbind option_bind]; [|done].
  destruct (Z.ltb_spec c 0); cbn [negb]; [done|]. intros _. by exists c, s1.
Qed.

Lemma checkPOW_sound equihash possible slowflag height s' :
  height <> 0 -> hush_checkPOW ck uninit s equihash possible slowflag b height = Some (0, s') ->
  equihash = true /\ checkPOW_at ck uninit s possible slowflag b height = Some (0, s').
Proof using Hskip Hreg.
  intros Hh. unfold hush_checkPOW. rewrite Hskip, Hreg. cbn [negb andb]. apply Z.eqb_neq in Hh. rewrite Hh.
  destruct equihash; cbn [negb]; [|done]. done.
Qed.
End CheckPOW.

(** ** The table *)

Definition p2pkh (h : list Z) : list Z := [0x76; 0xa9; 20] ++ h ++ [0x88; OP_CHECKSIG].

(** Each script of the table is the pay-to-key-hash script of the address next to
    it. *)
Lemma devtax_rows md :
  length (vs_buf md) = 64%nat ->
  Forall (fun e => exists h, length (chars e.2) = 50%nat /\ (decode_hex 25 (cstr e.2)).1 = p2pkh h /\
                             bitcoin_address md 60 h = Some (cstr e.1)) DEVTAX_DATA.
Proof.
  intros Hmd.
  assert (H : forallb (fun e =>
      let h := take 20 (drop 3 (decode_hex 25 (cstr e.2)).1) in
      (length (chars e.2) =? 50)%nat && bool_decide ((decode_hex 25 (cstr e.2)).1 = p2pkh h)
      && (length h =? 20)%nat && bool_decide (bytes_ok h)
      && bool_decide (bitcoin_address demo_md 60 h = Some (cstr e.1))) DEVTAX_DATA = true) by (vm_compute; reflexivity).
  rewrite forallb_forall in H. apply List.Forall_forall. intros e He. specialize (H e He). cbv zeta in H.
  set (h := take 20 (drop 3 (decode_hex 25 (cstr e.2)).1)) in *. clearbody h.
  apply andb_prop in H as [H H5%bool_decide_eq_true]. apply andb_prop in H as [H H4%bool_decide_eq_true].
  apply andb_prop in H as [H H3%Nat.eqb_eq]. apply andb_prop in H as [H1%Nat.eqb_eq H2%bool_decide_eq_true].
  exists h. split; [done|]. split; [done|]. rewrite <- H5. unfold bitcoin_address. rewrite H3. cbn [Nat.eqb negb].
  assert (Hb : bytes_ok (60 :: h)) by (constructor; [unfold byte_ok; lia|done]).
  by rewrite !doublesha.
Qed.

Lemma devtax_scriptpub_row symbol scriptpub height :
  is_hush3 symbol = true -> nHushHardforkHeight4 <= height ->
  exists e, DEVTAX_DATA !! Z.to_nat (height mod DEVTAX_NUM) = Some e /\
    devtax_scriptpub_for_height symbol scriptpub height = chars e.2.
Proof.
  intros Hs Hh. unfold devtax_scriptpub_for_height, devtax_row. rewrite Hs, (proj2 (Z.leb_le _ _) Hh). cbn [orb].
  destruct (DEVTAX_DATA !! Z.to_nat (height mod DEVTAX_NUM)) as [e|] eqn:E.
  - exists e. split; [done|]. by rewrite (nth_lookup_Some _ _ _ e).
  - apply lookup_ge_None in E. change (length DEVTAX_DATA) with 20%nat in E. unfold DEVTAX_NUM in *.
    pose proof (Z.mod_pos_bound height 20). lia.
Qed.

Lemma hush_commission_range z h : 0 <= hush_commission z h <= 125000000.
Proof. unfold hush_commission, starting_commission. repeat case_match; lia. Qed.

(** [C8] A block that [hush_checkPOW] accepts carries its proof of work: on a named
    chain without staking and outside the regression test network the result 0
    for a known height means that the Equihash solution was right and that the
    hash does not exceed the target; and where a commission is set, every block
    but the first pays in output 1 of its coinbase exactly the commission, if
    there is one, to the required script. *)
Theorem check_pow_sound ck uninit s equihash possible slowflag b height s' :
  SYMBOL (ce_chain (ck_connect ck)) <> [] -> STAKED (ck_cfg ck) = 0 ->
  cs_skip s = false -> ce_regtest (ck_connect ck) = false ->
  wf (pb_hash b) -> is_u 32 (pb_nBits b) -> height <> 0 ->
  hush_checkPOW ck uninit s equihash possible slowflag b height = Some (0, s') ->
  equihash = true /\ val (pb_hash b) <= val (set_compact (pb_nBits b)) /\
  (COMMISSION (ck_cfg ck) <> 0 -> height <> 1 ->
   exists t cache,
     the_commission (ck_cfg ck) uninit (cs_cache s) (Some (map (fun t => map vo_nValue (px_vout t)) (pb_vtx b))) height = Some (t, cache) /\
     (s64 t <> 0 -> exists coinbase out, head (pb_vtx b) = Some coinbase /\ px_vout coinbase !! 1%nat = Some out /\
        vo_nValue out = s64 t /\
        commission_script_ok ck (devtax_scriptpub_for_height (SYMBOL (ce_chain (ck_connect ck))) (cs_scriptpub s) (u32 height))
          (vo_script out) = true)).
Proof.
  intros Hn Hst Hsk Hr Hw Hb Hh H. apply (checkPOW_sound ck uninit s b Hsk Hr) in H as [-> H]; [|done].
  destruct (checkPOW_at_sound ck uninit s b Hn Hst Hsk Hr Hw Hb _ _ _ _ H) as [Hle Hc]. split; [done|]. split; [done|].
  intros Hcm H1. destruct (Hc Hcm H1) as (c & s1 & E & H0).
  destruct (checkcommission_paid ck uninit s b height c s1 Hcm H0 E) as (t & cache & Et & -> & Hp). by exists t, cache.
Qed.

(** The developers are paid in rotation: from the fork height on a HUSH3 block
    that [hush_checkPOW] accepts pays, in output 1 of its coinbase, exactly the
    amount of the founders reward table to the key hash of the address in row
    (height mod 20) of the table. *)
Theorem devtax_paid ck uninit s equihash possible slowflag b height s' md :
  is_hush3 (SYMBOL (ce_chain (ck_connect ck))) = true -> sc_ishush3 (ck_cfg ck) = true ->
  FOUNDERS (ck_cfg ck) = 1 -> COMMISSION (ck_cfg ck) <> 0 -> STAKED (ck_cfg ck) = 0 ->
  cs_skip s = false -> ce_regtest (ck_connect ck) = false -> wf (pb_hash b) -> is_u 32 (pb_nBits b) ->
  nHushHardforkHeight4 <= height < 2 ^ 31 -> 10000 <= hush_commission (z2zheight (ck_cfg ck)) height ->
  length (vs_buf md) = 64%nat ->
  hush_checkPOW ck uninit s equihash possible slowflag b height = Some (0, s') ->
  exists row h coinbase out, DEVTAX_DATA !! Z.to_nat (height mod DEVTAX_NUM) = Some row /\
    bitcoin_address md 60 h = Some (cstr row.1) /\
    head (pb_vtx b) = Some coinbase /\ px_vout coinbase !! 1%nat = Some out /\
    vo_nValue out = hush_commission (z2zheight (ck_cfg ck)) height /\ vo_script out = p2pkh h.
Proof.
  intros Hs Hi Hf Hcm Hst Hsk Hr Hw Hb Hh Hc Hmd H.
  assert (Hn : SYMBOL (ce_chain (ck_connect ck)) <> []) by (intros E; rewrite E in Hs; done).
  apply (checkPOW_sound ck uninit s b Hsk Hr) in H as [_ H]; [|unfold nHushHardforkHeight4 in Hh; lia].
  destruct (checkPOW_at_sound ck uninit s b Hn Hst Hsk Hr Hw Hb _ _ _ _ H) as [_ Hpaid].
  destruct (Hpaid Hcm) as (c & s1 & E & H0); [unfold nHushHardforkHeight4 in Hh; lia|].
  destruct (checkcommission_paid ck uninit s b height c s1 Hcm H0 E) as (t & cache & Et & -> & Hp).
  assert (t = hush_commission (z2zheight (ck_cfg ck)) height) as ->.
  { revert Et. unfold the_commission. rewrite Hf, Hi. cbn [Z.eqb negb]. destruct (hush_sc_block_subsidy _ _ _) as [[sub k]|]; [|done].
    change (1 <? 1) with false. cbv iota. rewrite (proj2 (Z.ltb_ge _ _) Hc). by intros [= <- _]. }
  pose proof (hush_commission_range (z2zheight (ck_cfg ck)) height) as Hrange.
  rewrite s64_id in Hp by (unfold is_s64; lia). destruct Hp as (coinbase & out & Hcb & Ho & Hv & Hok); [lia|].
  rewrite u32_id in Hok by (unfold nHushHardforkHeight4, is_u in *; lia).
  destruct (devtax_scriptpub_row _ (cs_scriptpub s) height Hs (proj1 Hh)) as (row & Erow & Epub).
  pose proof (devtax_rows md Hmd) as Hrows. rewrite Forall_forall in Hrows.
  destruct (Hrows row) as (h & Hl & Hdec & Haddr); [by eapply list_elem_of_lookup_2|].
  exists row, h, coinbase, out. split; [done|]. split; [done|]. split; [done|]. split; [done|]. split; [done|].
  revert Hok. rewrite Epub. unfold commission_script_ok, hex_script_eq. rewrite Hl. cbn [Nat.ltb Nat.leb].
  intros Hok. apply andb_prop in Hok as [Hok He%bool_decide_eq_true]. apply andb_prop in Hok as [Hlen%Nat.eqb_eq _].
  change (50 / 2)%nat with 25%nat in Hlen. rewrite <- Hlen in He. rewrite <- He. exact Hdec.
Qed.

(** ** Payment of the notaries *)

(** An output that pays notary [id]. *)
Definition pays (keys : list (list Z)) (amount id : Z) (o : txout) : bool :=
  is_p2pk (vo_script o) && bool_decide (take 33 (drop 1 (vo_script o)) = nth (Z.to_nat id) keys [])
  && (u64 (vo_nValue o) =? amount).

(** The loop as a function of the outputs behind the first one. *)
Fixpoint score (keys : list (list Z)) (amount : Z) (nn : list Z) (outs : list txout) : option (Z * Z) :=
  match outs, nn with
  | [], _ => Some (0, 0)
  | o :: outs, [] => if is_p2pk (vo_script o) then None else score keys amount [] outs
  | o :: outs, id :: nn =>
    r ← score keys amount nn outs;
    let '(m, t) := (r : Z * Z) in
    Some (if pays keys amount id o then (m + 1, vo_nValue o + t) else (m, t))
  end.

Lemma s8_id x : -128 <= x < 128 -> s8 x = x.
Proof. intros Hx. unfold s8. change (2 ^ 7) with 128. change (2 ^ 8) with 256. rewrite Z.mod_small; lia. Qed.

Lemma score_range keys amount nn outs m t : score keys amount nn outs = Some (m, t) -> 0 <= m <= Zlen outs.
Proof.
  revert nn m t. induction outs as [|o outs IH]; intros nn m t; unfold Zlen in *; cbn [score length].
  { destruct nn; intros [= <- _]; lia. }
  destruct nn as [|id nn].
  - destruct (is_p2pk _); [done|]. intros H%IH. lia.
  - destruct (score keys amount nn outs) as [[m' t']|] eqn:E; cbn [mbind option_bind]; [|done]. apply IH in E.
    destruct (pays _ _ _ _); intros [= <- _]; lia.
Qed.

Lemma pay_loop_score keys amount nn pre outs m t :
  (0 < length pre)%nat -> Zlen pre + Zlen outs <= 127 -> 0 <= m -> m + Zlen outs <= 127 -> is_u 64 t ->
  pay_loop keys nn amount (pre ++ outs) outs (Zlen pre) m t =
  r ← score keys amount (drop (length pre - 1) nn) outs; Some (m + r.1, u64 (t + r.2)).
Proof.
  revert pre m t. induction outs as [|o outs IH]; intros pre m t Hp Hl Hm Hml Ht.
  { cbn [pay_loop]. destruct (drop _ nn); cbn; rewrite !Z.add_0_r, u64_id by done; done. }
  assert (Hlen : Zlen (o :: outs) = Zlen outs + 1) by (unfold Zlen; cbn; lia). rewrite Hlen in *.
  assert (Hpre : Zlen (pre ++ [o]) = Zlen pre + 1) by (unfold Zlen; rewrite length_app; cbn; lia).
  assert (Hpos : 0 < Zlen pre) by (unfold Zlen; lia). assert (0 <= Zlen outs) by (unfold Zlen; lia).
  cbn [pay_loop]. rewrite (proj2 (Z.eqb_neq (Zlen pre) 0)), s8_id, <- Hpre by lia.
  replace (pre ++ o :: outs) with ((pre ++ [o]) ++ outs) by (by rewrite <- app_assoc).
  assert (Hat : ((pre ++ [o]) ++ outs) !! Z.to_nat (Zlen pre) = Some o).
  { unfold Zlen. rewrite Nat2Z.id, <- app_assoc. apply list_lookup_middle. done. }
  set (i := (length pre - 1)%nat). assert (Hi : Z.to_nat (Zlen pre - 1) = i) by (unfold Zlen; lia).
  assert (Hdrop : drop (length (pre ++ [o]) - 1) nn = drop (S i) nn) by (f_equal; rewrite length_app; cbn; lia).
  assert (Hgo : forall m t, 0 <= m -> m + Zlen outs <= 127 -> is_u 64 t ->
     pay_loop keys nn amount ((pre ++ [o]) ++ outs) outs (Zlen (pre ++ [o])) m t =
     r ← score keys amount (drop (S i) nn) outs; Some (m + r.1, u64 (t + r.2))).
  { intros m' t' H1 H2 H3. rewrite IH, Hdrop; [done|rewrite length_app; cbn; lia|lia|done|done|done]. }
  rewrite (proj2 (Z.ltb_lt 0 (Zlen pre))), Hi by lia.
  destruct (nn !! i) as [id|] eqn:Eid.
  - rewrite (drop_S _ id i Eid). cbn [score]. unfold pays. cbn [mbind option_bind]. rewrite Hat. cbn [mbind option_bind].
    destruct (is_p2pk (vo_script o)); cbn [andb mbind option_bind];
      [|rewrite Hgo by (done || lia); destruct (score _ _ _ _) as [[m' t']|]; done].
    destruct (bool_decide _); cbn [andb mbind option_bind];
      [|rewrite Hgo by (done || lia); destruct (score _ _ _ _) as [[m' t']|]; done].
    destruct (u64 (vo_nValue o) =? amount); cbn [mbind option_bind];
      [|rewrite Hgo by (done || lia); destruct (score _ _ _ _) as [[m' t']|]; done].
    rewrite s8_id, Hgo by (lia || apply u64_range). destruct (score _ _ _ _) as [[m' t']|] eqn:Es; [|done].
    cbn [mbind option_bind fst snd]. rewrite u64_add_l. do 2 f_equal; [lia|f_equal; lia].
  - apply lookup_ge_None in Eid. rewrite (drop_ge nn i), (drop_ge nn (S i)) in * by lia. cbn [score].
    destruct (is_p2pk (vo_script o)); cbn [mbind option_bind]; [done|]. rewrite Hgo by (done || lia). done.
Qed.

(** All notaries are matched exactly if the outputs start with payments to them. *)
Lemma score_full keys amount nn outs t :
  score keys amount nn outs = Some (Zlen nn, t) <->
  exists os extra, outs = os ++ extra /\ Forall2 (fun id o => pays keys amount id o = true) nn os /\
    Forall (fun o => is_p2pk (vo_script o) = false) extra /\ t = foldr (fun o t => vo_nValue o + t) 0 os.
Proof.
  revert nn t. induction outs as [|o outs IH]; intros nn t.
  - cbn [score]. split.
    + destruct nn as [|id nn]; [intros [= <-]; exists [], []; auto|intros [= H _]; unfold Zlen in H; cbn in H; lia].
    + intros (os & extra & E & HF & _ & ->). destruct os; [|done]. apply Forall2_nil_inv_r in HF as ->. done.
  - destruct nn as [|id nn].
    + cbn [score]. change (Zlen (@nil Z)) with 0. split.
      * destruct (is_p2pk (vo_script o)) eqn:Eo; [done|]. intros (os & extra & -> & HF & Hex & ->)%(IH []).
        apply Forall2_nil_inv_l in HF as ->. exists [], (o :: extra). auto.
      * intros (os & extra & E & HF & Hex & ->). apply Forall2_nil_inv_l in HF as ->. cbn [app] in E. subst extra.
        inversion_clear Hex as [|? ? Eo Hex']. rewrite Eo. apply (IH []). exists [], outs. auto.
    + cbn [score]. replace (Zlen (id :: nn)) with (Zlen nn + 1) by (unfold Zlen; cbn; lia). split.
      * destruct (score keys amount nn outs) as [[m t']|] eqn:Es; cbn [mbind option_bind]; [|done].
        assert (Hm : m <= Zlen nn).
        { clear IH. revert nn m t' Es. induction outs as [|o' outs IH]; intros nn m t'; unfold Zlen in *; cbn [score].
          { destruct nn; intros [= <- _]; lia. }
          destruct nn as [|id' nn]; [destruct (is_p2pk _); [done|]; intros H%(IH []); cbn in *; lia|].
          destruct (score keys amount nn outs) as [[m1 t1]|] eqn:E; cbn [mbind option_bind]; [|done]. apply IH in E.
          destruct (pays _ _ _ _); intros [= <- _]; cbn; lia. }
        destruct (pays keys amount id o) eqn:Ep; intros [= Hmm <-]; [|lia].
        replace m with (Zlen nn) in Es by lia. apply IH in Es as (os & extra & -> & HF & Hex & ->).
        exists (o :: os), extra. split; [done|]. split; [by constructor|]. done.
      * intros (os & extra & E & HF & Hex & ->). apply Forall2_cons_inv_l in HF as (o' & os' & Ep & HF & ->).
        injection E as <- ->. rewrite (proj2 (IH nn (foldr (fun o t => vo_nValue o + t) 0 os'))); [|by exists os', extra].
        cbn [mbind option_bind]. rewrite Ep. done.
Qed.

Lemma foldl_u64 os t : is_u 64 t ->
  foldl (fun t o => u64 (t + vo_nValue o)) t os = u64 (t + foldr (fun o t => vo_nValue o + t) 0 os).
Proof.
  revert t. induction os as [|o os IH]; intros t Ht; cbn [foldl foldr]; [by rewrite Z.add_0_r, u64_id|].
  rewrite IH by apply u64_range. rewrite u64_add_l. f_equal. lia.
Qed.

Lemma u64_s64 x : is_u 64 x -> u64 (s64 x) = x.
Proof.
  intros Hx. unfold u64, s64. rewrite Zminus_mod_idemp_l. replace (x + 2 ^ 63 - 2 ^ 63) with x by lia. by apply Z.mod_small.
Qed.

Lemma s64_u64 x : is_s64 x -> s64 (u64 x) = x.
Proof. intros Hx. unfold u64, s64. rewrite Zplus_mod_idemp_l. by apply s64_id. Qed.

(** An output that pays a notary is the one that [hush_notarypay] builds. *)
Lemma pays_iff keys amount id o :
  length (nth (Z.to_nat id) keys []) = 33%nat -> is_u 64 amount -> is_s64 (vo_nValue o) ->
  pays keys amount id o = true <-> o = notary_out keys amount id.
Proof.
  intros Hk Ha Hv. unfold pays, notary_out. split.
  - intros H. apply andb_prop in H as [H Hv'%Z.eqb_eq]. apply andb_prop in H as [Hp Hk'%bool_decide_eq_true].
    unfold is_p2pk in Hp. apply andb_prop in Hp as [Hp H34%Z.eqb_eq]. apply andb_prop in Hp as [Hl%Nat.eqb_eq H0%Z.eqb_eq].
    destruct o as [v script]. cbn [vo_nValue vo_script] in *. f_equal; [rewrite <- Hv'; by rewrite s64_u64|].
    destruct script as [|x script]; [done|]. cbn in H0. subst x. f_equal. cbn [drop] in Hk'. rewrite <- Hk'.
    rewrite <- (take_drop 33 script) at 1. f_equal. cbn [length] in Hl. unfold rd in H34. cbn [nth] in H34.
    destruct (drop 33 script) as [|y r] eqn:Ed; [apply (f_equal length) in Ed; rewrite length_drop in Ed; cbn in Ed; lia|].
    assert (r = []) as -> by (apply (f_equal length) in Ed; rewrite length_drop in Ed; cbn in Ed; destruct r; [done|cbn in Ed; lia]).
    f_equal. rewrite <- (take_drop 33 script), Ed, app_nth2 in H34 by (rewrite length_take; lia).
    rewrite length_take in H34. replace (33 - _)%nat with 0%nat in H34 by lia. done.
  - intros ->. cbn [vo_nValue vo_script]. set (k := nth (Z.to_nat id) keys []) in *. clearbody k.
    rewrite u64_s64 by done. rewrite Z.eqb_refl, andb_true_r. change (drop 1 (33 :: k ++ [OP_CHECKSIG])) with (k ++ [OP_CHECKSIG]).
    rewrite (bool_decide_eq_true_2 (take 33 _ = _)) by (rewrite take_app_le by lia; apply take_ge; lia). rewrite andb_true_r.
    unfold is_p2pk. cbn [length rd nth]. rewrite length_app, Hk. cbn [length Nat.add Nat.eqb Z.eqb andb].
    unfold rd. cbn [nth]. rewrite app_nth2 by lia. rewrite Hk. done.
Qed.

Lemma notaries_of_vin_range keys numNN vin nn :
  notaries_of_vin keys numNN vin = Some (Some nn) -> Forall (fun i => 0 <= i < numNN) nn.
Proof.
  revert nn. induction vin as [|[[vout|] n] vin IH]; intros nn; cbn [notaries_of_vin]; [intros [= <-]; constructor| |done].
  assert (Hm : forall script, Forall (fun i => 0 <= i < numNN) (matching_notaries keys numNN script)).
  { intros script. apply List.Forall_forall. intros i [Hi _]%List.filter_In. apply in_map_iff in Hi as (k & <- & Hk%in_seq). lia. }
  destruct (0 <? numNN); cbn [mbind option_bind].
  - destruct (vout !! n) as [script|]; cbn [mbind option_bind]; [|done].
    destruct (notaries_of_vin keys numNN vin) as [[rest|]|]; cbn [mbind option_bind option_map]; [|done|done].
    intros [= <-]. apply Forall_app. auto.
  - destruct (notaries_of_vin keys numNN vin) as [[rest|]|]; cbn [mbind option_bind option_map]; [|done|done].
    intros [= <-]. auto.
Qed.

Lemma nodup_short nn : NoDup nn -> Forall (fun i => 0 <= i < 64) nn -> (length nn <= 64)%nat.
Proof.
  intros Hnd HF. apply (submseteq_length nn (map Z.of_nat (seq 0 64))). apply NoDup_submseteq; [done|].
  intros x Hx. rewrite Forall_forall in HF. specialize (HF x Hx). apply list_elem_of_In, in_map_iff. exists (Z.to_nat x).
  split; [lia|]. apply in_seq. lia.
Qed.

Section NotaryPay.
Context (ck : check_env) (junk : list Z) (u : vout_st) (height timestamp : Z).
Context (Hh : is_s32 height).
Let X := ck_connect ck.

(** Keys that pass the first test come from a season with real keys. *)
Lemma real_keys c :
  cache_ok (cn_cache c) ->
  exists r num cache, cache_ok cache /\
    hush_notaries (SYMBOL (ce_chain X)) (ce_private X) (ce_pubkey2addr X) (ce_heightstamp X) (cn_cache c) height timestamp = (r, num, cache) /\
    (forall c2, cache_ok (cn_cache c2) -> exists cache2,
       hush_notaries (SYMBOL (ce_chain X)) (ce_private X) (ce_pubkey2addr X) (ce_heightstamp X) (cn_cache c2) height timestamp = (r, num, cache2)) /\
    (rd (nth 0 (notarypubkeys r) []) 0 <> 0 ->
     num = 64 /\ length (notarypubkeys r) = 64%nat /\ Forall (fun k => length k = 33%nat) (notarypubkeys r)).
Proof using Hh.
  intros Hc. set (s := notaries_season (SYMBOL (ce_chain X)) (ce_heightstamp X) height timestamp).
  destruct (hush_notaries_spec (SYMBOL (ce_chain X)) (ce_private X) (ce_pubkey2addr X) (ce_heightstamp X) (cn_cache c) height timestamp Hh Hc)
    as (cache & Hok & E). fold s in E. rewrite E.
  exists (if s =? 0 then None else Some (season_keys s)), (if s =? 0 then -1 else 64), cache.
  split; [done|]. split; [by destruct (s =? 0)|]. split.
  { intros c2 H2. destruct (hush_notaries_spec (SYMBOL (ce_chain X)) (ce_private X) (ce_pubkey2addr X) (ce_heightstamp X) (cn_cache c2) height timestamp Hh H2)
      as (cache2 & _ & E2). fold s in E2. exists cache2. rewrite E2. by destruct (s =? 0). }
  pose proof (notaries_season_range (SYMBOL (ce_chain X)) (ce_heightstamp X) height timestamp Hh) as Hr. fold s in Hr.
  destruct (Z.eqb_spec s 0); [done|]. cbn [notarypubkeys default from_option id].
  destruct (decide (s <= 5)) as [H5|H5]; [rewrite season_keys_unused by lia; done|]. intros _.
  split; [done|]. split; [apply season_keys_length; lia|].
  destruct (season_keys_67 s ltac:(lia)) as [_ HF]. eapply Forall_impl; [exact HF|]. cbv beta.
  intros k Hk. unfold compressed in Hk. apply andb_prop in Hk as [Hk _]. apply andb_prop in Hk as [Hk%Nat.eqb_eq _]. done.
Qed.

(** What [hush_notarypay] builds when it succeeds. *)
Lemma notarypay_built c nn script keys num cache total vout c' :
  (length nn <= 128)%nat ->
  hush_notaries (SYMBOL (ce_chain X)) (ce_private X) (ce_pubkey2addr X) (ce_heightstamp X) (cn_cache c) height timestamp = (keys, num, cache) ->
  hush_notarypay ck junk u c [] nn timestamp height script = Some (total, vout, c') -> total <> 0 ->
  let amount := hush_notarypayamount ck height (Zlen nn) in
  let outs := map (notary_out (notarypubkeys keys) amount) nn in
  nn <> [] /\ amount <> 0 /\ vout = TxOut (-1) [] :: outs /\ total = foldl (fun t o => u64 (t + vo_nValue o)) 0 outs.
Proof using Type.
  intros Hl Hk. unfold hush_notarypay. fold X. rewrite Hk. destruct (rd _ 0 =? 0); [intros [= <- _ _]; done|].
  destruct (hush_getnotarizedheight _ _ _ _ _ _ _) as [[nh c1]|]; cbn [mbind option_bind]; [|done].
  destruct (nh =? 0); [intros [= <- _ _]; done|]. set (amount := hush_notarypayamount ck height (Zlen nn)).
  destruct (Z.eqb_spec amount 0) as [|Ha]; [intros [= <- _ _]; done|]. rewrite (take_ge nn) by lia.
  set (outs := map (notary_out (notarypubkeys keys) amount) nn). assert (Hlo : length outs = length nn) by apply length_map.
  intros [= <- <- _] Ht. split.
  { intros ->. apply Ha. subst amount. unfold hush_notarypayamount. change (Zlen (@nil Z)) with 0. rewrite Z.eqb_refl. by destruct (_ <? _)%nat. }
  split; [done|]. split; [|done]. rewrite Hlo. cbn [length app Nat.sub replicate take drop Nat.add]. f_equal.
  rewrite drop_ge by (rewrite length_replicate; lia). by rewrite app_nil_r.
Qed.
End NotaryPay.

Lemma notarypayamount_range ck height n : Forall (is_u 64) (ck_NOTARY_PAY ck) -> is_u 64 (hush_notarypayamount ck height n).
Proof.
  intros HF. unfold hush_notarypayamount. set (e := if 1 <? _ then _ else _). clearbody e.
  destruct (_ <? e)%nat; [unfold is_u; lia|]. destruct (Z.eqb_spec n 0); [unfold is_u; lia|].
  assert (H : is_u 64 (rd (ck_NOTARY_PAY ck) e)).
  { unfold rd. destruct (nth_in_or_default e (ck_NOTARY_PAY ck) 0) as [Hin|E]; [|rewrite E; unfold is_u; lia].
    rewrite List.Forall_forall in HF. auto. }
  pose proof (u64_range n) as Hn. destruct (decide (u64 n = 0)) as [->|]; [rewrite Z.div_0_r; unfold is_u; lia|].
  unfold is_u in *. split; [apply Z.div_pos; lia|]. apply Z.div_lt_upper_bound; nia.
Qed.

(** The payment that a block must contain. *)
Lemma expected_pay_inv ck junk u c b height keys nn total vout c' :
  is_s32 height -> cache_ok (cn_cache c) ->
  expected_pay ck junk u c b height = Some (Some (keys, nn, total, vout), c') ->
  let amount := hush_notarypayamount ck height (Zlen nn) in
  (length nn <= 64)%nat /\ nn <> [] /\ amount <> 0 /\ total <> 0 /\
  Forall (fun id => length (nth (Z.to_nat id) keys []) = 33%nat) nn /\
  vout = TxOut (-1) [] :: map (notary_out keys amount) nn /\
  total = foldl (fun t o => u64 (t + vo_nValue o)) 0 (map (notary_out keys amount) nn).
Proof.
  intros Hh Hc. unfold expected_pay. destruct (pb_vtx b !! 1%nat) as [t1|]; cbn [mbind option_bind]; [|done].
  destruct (real_keys ck height (pb_nTime b) Hh c Hc) as (r & num & cache & Hcache & -> & Hagain & Hreal).
  unfold GetNotarizationNotaries. destruct (Z.eqb_spec (rd (nth 0 (notarypubkeys r) []) 0) 0) as [|Hz]; [done|].
  destruct (Hreal Hz) as (-> & Hlk & Hkeys). change (s8 64) with 64.
  destruct (notaries_of_vin _ _ _) as [[nn'|]|] eqn:En; cbn [mbind option_bind]; [|done|done].
  destruct (bool_decide_reflect (NoDup nn')) as [Hnd|]; cbn [negb]; [|done].
  pose proof (notaries_of_vin_range _ _ _ _ En) as Hrange. pose proof (nodup_short nn' Hnd Hrange) as Hlen.
  destruct (px_vout t1) as [|o1 [|o2 [|]]]; try done. destruct (vo_nValue o2 =? 0); [|done].
  destruct (vo_script o2 !! 0%nat) as [op|]; cbn [mbind option_bind]; [|done]. destruct (op =? OP_RETURN); [|done].
  destruct (hush_notarypay _ _ _ _ _ _ _ _ _) as [[[tot vo] c2]|] eqn:Ep; cbn [mbind option_bind]; [|done].
  destruct (Z.eqb_spec tot 0) as [|Ht]; [done|]. intros [= <- <- <- <- _].
  destruct (Hagain (set_cache cache c) Hcache) as (cache2 & E2).
  destruct (notarypay_built ck junk u height (pb_nTime b) _ nn' _ _ _ _ _ _ _ ltac:(lia) E2 Ep Ht) as (Hne & Ha & Hv & Htot).
  split; [done|]. split; [done|]. split; [done|]. split; [done|]. split; [|done].
  eapply Forall_impl; [exact Hrange|]. cbv beta. intros id Hid. rewrite Forall_forall in Hkeys. apply Hkeys.
  apply list_elem_of_In, nth_In. lia.
Qed.

Lemma Forall2_pays keys amount nn os :
  Forall (fun id => length (nth (Z.to_nat id) keys []) = 33%nat) nn -> is_u 64 amount -> Forall (fun o => is_s64 (vo_nValue o)) os ->
  Forall2 (fun id o => pays keys amount id o = true) nn os <-> os = map (notary_out keys amount) nn.
Proof.
  intros Hk Ha Hv. split.
  - intros HF. induction HF as [|id o nn os Hp HF IH]; cbn [map]; [done|].
    apply Forall_cons in Hk as [H1 H2]. apply Forall_cons in Hv as [H3 H4]. f_equal; [by apply pays_iff|auto].
  - intros ->. induction nn as [|id nn IH]; cbn [map]; constructor; apply Forall_cons in Hk as [H1 H2]; cbn [map] in Hv;
      apply Forall_cons in Hv as [H3 H4]; [by apply pays_iff|auto].
Qed.

(** There is no element of [nn] for the pay-to-pubkey outputs behind as many outputs as
    it has elements, and only for those. *)
Lemma score_undefined keys amount nn outs :
  score keys amount nn outs = None <-> exists o, o ∈ drop (length nn) outs /\ is_p2pk (vo_script o) = true.
Proof.
  revert nn. induction outs as [|o outs IH]; intros nn.
  { cbn [score]. split; [by destruct nn|]. rewrite drop_nil. by intros (o & ?%not_elem_of_nil & _). }
  destruct nn as [|id nn]; cbn [score length drop].
  - destruct (is_p2pk (vo_script o)) eqn:Eo; [split; [|done]; intros _; exists o; split; [left|done]|].
    rewrite (IH []). cbn [length drop]. split; intros (x & Hx & Hp); exists x; (split; [|done]); [by right|].
    apply elem_of_cons in Hx as [->|]; [congruence|done].
  - rewrite <-(IH nn). destruct (score keys amount nn outs) as [[m t]|]; cbn [mbind option_bind]; [|done].
    by destruct (pays _ _ _ _).
Qed.

(** [C9] The payment of the notaries is checked exactly, where the behaviour is defined.  When
    the second transaction of a block is a notarization for which [hush_notarypay]
    builds a payment, the check looks for each pay-to-pubkey output of the
    coinbase (of at most 127 outputs) at the notary at its position.  If there is one
    at a position behind the notaries, the vector is read out of bounds and the
    behaviour is undefined.  Otherwise the check returns the full amount exactly if the
    outputs behind the first one start with the outputs that [hush_notarypay]
    builds for the miner, in the order of the signatures, and zero, for rejection, if not. *)
Theorem notarypay_exact ck junk u c b height keys nn total vout c' coinbase miner outs :
  is_s32 height -> cache_ok (cn_cache c) -> Forall (is_u 64) (ck_NOTARY_PAY ck) ->
  expected_pay ck junk u c b height = Some (Some (keys, nn, total, vout), c') ->
  head (pb_vtx b) = Some coinbase -> px_vout coinbase = miner :: outs -> (length outs <= 126)%nat ->
  Forall (fun o => is_s64 (vo_nValue o)) outs ->
  let read_past_end := exists o, o ∈ drop (length nn) outs /\ is_p2pk (vo_script o) = true in
  (read_past_end -> hush_checknotarypay ck junk u c b height = None) /\
  (~ read_past_end -> exists sats, hush_checknotarypay ck junk u c b height = Some (sats, c') /\ total <> 0 /\
     ((exists extra, outs = tail vout ++ extra) -> sats = total) /\
     (~ (exists extra, outs = tail vout ++ extra) -> sats = 0)).
Proof.
  intros Hh Hc Hpay He Hcb Hvo Hlen Hv read_past_end. pose proof (expected_pay_inv ck junk u c b height _ _ _ _ _ Hh Hc He) as H.
  cbv zeta in H. pose proof (notarypayamount_range ck height (Zlen nn) Hpay) as Ha. set (amount := hush_notarypayamount ck height (Zlen nn)) in *.
  clearbody amount. destruct H as (Hl & Hne & Ha0 & Ht0 & Hk & -> & Htot).
  unfold hush_checknotarypay. rewrite He. cbn [mbind option_bind tail].
  destruct nn as [|id nn]; [done|]. cbn [map lookup list_lookup]. change ((?x :: ?y :: ?l) !! 1%nat) with (Some y). cbn [mbind option_bind].
  rewrite Hcb. cbn [mbind option_bind]. rewrite Hvo. cbn [vo_nValue notary_out]. rewrite u64_s64 by done.
  cbn [pay_loop]. rewrite Z.eqb_refl. change (s8 (0 + 1)) with (Zlen [miner]). change (miner :: outs) with ([miner] ++ outs).
  rewrite pay_loop_score; [|cbn; lia|unfold Zlen; cbn; lia|lia|unfold Zlen; cbn; lia|unfold is_u; lia].
  change (drop (length [miner] - 1) (id :: nn)) with (id :: nn). set (nn' := id :: nn) in *.
  change (notary_out keys amount id :: map (notary_out keys amount) nn) with (map (notary_out keys amount) nn') in *.
  rewrite foldl_u64 in Htot by (unfold is_u; lia). rewrite Z.add_0_l in Htot.
  pose proof (score_undefined keys amount nn' outs) as Hund. fold read_past_end in Hund.
  pose proof (score_full keys amount nn' outs) as Hfull.
  split; [intros Hp; by rewrite (proj2 Hund Hp)|]. intros Hp.
  destruct (score keys amount nn' outs) as [[m t]|] eqn:Es; [|by destruct Hp; apply Hund].
  cbn [mbind option_bind fst snd]. rewrite !Z.add_0_l. eexists. split; [done|]. split; [done|].
  pose proof (score_range _ _ _ _ _ _ Es) as Hm. rewrite u64_id by (unfold is_u, Zlen in *; lia). split.
  - intros (extra & E). assert (Forall (fun o => is_p2pk (vo_script o) = false) extra) as Hex.
    { apply Forall_forall. intros o Ho. apply not_true_is_false. intros Ht. apply Hp. exists o. split; [|done].
      rewrite E, drop_app_length'; [done|by rewrite length_map]. }
    rewrite E in Hv. apply Forall_app in Hv as [Hv _].
    assert (HN : Some (m, t) = Some (Zlen nn', foldr (fun o t => vo_nValue o + t) 0 (map (notary_out keys amount) nn'))).
    { apply Hfull. eexists _, extra. split; [done|]. split; [by apply Forall2_pays|]. auto. }
    apply (inj Some) in HN. apply pair_eq in HN as [-> ->]. rewrite <- Htot, !Z.eqb_refl, andb_true_r.
    destruct (Z.eqb_spec (Zlen nn') 0) as [E0|]; [|done]. unfold Zlen, nn' in E0. cbn in E0. lia.
  - intros Hno. destruct (negb (m =? 0) && (m =? Zlen nn') && (total =? u64 t)) eqn:E; [|done]. destruct Hno.
    apply andb_prop in E as [E _]. apply andb_prop in E as [_ E%Z.eqb_eq]. subst m.
    destruct (proj1 (Hfull t) eq_refl) as (os & extra & Eo & HF & Hex & _). exists extra. rewrite Eo in Hv |- *.
    apply Forall_app in Hv as [Hv _]. by apply Forall2_pays in HF as ->.
Qed.

(** ** Examples *)

Definition demo_node : cnode :=
  CNode (cn_node demo_c) (cn_file demo_c) nc_init [] 599999 0.
Definition demo_ck : check_env :=
  CheckEnv demo_X hush3_chain (replicate 33 0) (replicate 20 0) [3000; 3000; 3000] false None.
Definition demo_s : ck_state := CkState (chars "76a9") false false false empty_cache demo_node.
Definition demo_devtax : list Z := (decode_hex 25 (cstr "76a9140bcca88d9224ec1571d4dd68009305d055ca3a4588ac")).1.
Definition demo_pow_block : pblock :=
  PBlock 0x200f0f0f 1700000000 (of_u64 5) (replicate 32 1) [PTx [] [TxOut 281250000 [0x51]; TxOut 31250000 demo_devtax]].

Lemma check_pow_sound_witness :
  hush_checkPOW demo_ck 0 demo_s true false true demo_pow_block 1605560 = Some (0, demo_s) /\
  true = true /\ val (pb_hash demo_pow_block) <= val (set_compact 0x200f0f0f) /\
  (COMMISSION (ck_cfg demo_ck) <> 0 -> 1605560 <> 1 ->
   exists t cache,
     the_commission (ck_cfg demo_ck) 0 (cs_cache demo_s) (Some (map (fun t => map vo_nValue (px_vout t)) (pb_vtx demo_pow_block))) 1605560
       = Some (t, cache) /\
     (s64 t <> 0 -> exists coinbase out, head (pb_vtx demo_pow_block) = Some coinbase /\ px_vout coinbase !! 1%nat = Some out /\
        vo_nValue out = s64 t /\
        commission_script_ok demo_ck (devtax_scriptpub_for_height (SYMBOL (ce_chain (ck_connect demo_ck))) (cs_scriptpub demo_s) (u32 1605560))
          (vo_script out) = true)).
Proof.
  split; [vm_compute; reflexivity|].
  apply (check_pow_sound demo_ck 0 demo_s true false true demo_pow_block 1605560 demo_s);
    [vm_compute; discriminate|reflexivity|reflexivity|reflexivity|apply (bool_decide_eq_true_1 _); vm_compute; reflexivity
    |unfold is_u; cbn; lia|lia|vm_compute; reflexivity].
Defined.

Lemma devtax_paid_witness :
  exists row h coinbase out, DEVTAX_DATA !! Z.to_nat (1605560 mod DEVTAX_NUM) = Some row /\
    bitcoin_address demo_md 60 h = Some (cstr row.1) /\
    head (pb_vtx demo_pow_block) = Some coinbase /\ px_vout coinbase !! 1%nat = Some out /\
    vo_nValue out = hush_commission (z2zheight (ck_cfg demo_ck)) 1605560 /\ vo_script out = p2pkh h.
Proof.
  apply (devtax_paid demo_ck 0 demo_s true false true demo_pow_block 1605560 demo_s demo_md);
    [reflexivity|reflexivity|reflexivity|vm_compute; discriminate|reflexivity|reflexivity|reflexivity
    |apply (bool_decide_eq_true_1 _); vm_compute; reflexivity|unfold is_u; cbn; lia
    |unfold nHushHardforkHeight4; lia|vm_compute; discriminate|reflexivity|vm_compute; reflexivity].
Defined.

(** A notarization signed by notaries 2 and 0, and a coinbase that pays them. *)
Definition demo_pay_outs : list txout :=
  [notary_out (season_keys 7) 1500 2; notary_out (season_keys 7) 1500 0].
Definition demo_pay_block : pblock :=
  let spent i := (Some [33 :: nth i (season_keys 7) [] ++ [OP_CHECKSIG]], 0%nat) in
  PBlock 0x200f0f0f 1640995200 (of_u64 5) (replicate 32 1)
    [PTx [] (TxOut 281250000 [0x51] :: demo_pay_outs ++ [TxOut 0 [0x6a; 1; 7]]);
     PTx [spent 2%nat; spent 0%nat] [TxOut 1000 [0x51]; TxOut 0 demo_opreturn]].
Definition demo_u : vout_st := VoutSt 5 6 true 7 true demo_node.

(** One more output to a public key: a notary that is not there is read. *)
Definition demo_overpay_block : pblock :=
  let spent i := (Some [33 :: nth i (season_keys 7) [] ++ [OP_CHECKSIG]], 0%nat) in
  PBlock 0x200f0f0f 1640995200 (of_u64 5) (replicate 32 1)
    [PTx [] (TxOut 281250000 [0x51] :: demo_pay_outs ++ [notary_out (season_keys 7) 1500 5]);
     PTx [spent 2%nat; spent 0%nat] [TxOut 1000 [0x51]; TxOut 0 demo_opreturn]].
Example notaries_read_past_end :
  hush_checknotarypay demo_ck (replicate 200 0) demo_u demo_node demo_overpay_block 600000 = None.
Proof. vm_compute. reflexivity. Qed.

Lemma notarypay_exact_witness :
  exists c', hush_checknotarypay demo_ck (replicate 200 0) demo_u demo_node demo_pay_block 600000 = Some (3000, c').
Proof.
  destruct (expected_pay demo_ck (replicate 200 0) demo_u demo_node demo_pay_block 600000) as [[[[[[keys nn] total] vout]|] c']|] eqn:E;
    [|vm_compute in E; discriminate|vm_compute in E; discriminate].
  assert (total = 3000 /\ tail vout = demo_pay_outs) as [-> Hv] by (vm_compute in E; injection E as <- <- <- <- <-; split; vm_compute; reflexivity).
  exists c'.
  assert (nn = [2; 0]) as -> by (vm_compute in E; injection E as <- <- <- <-; vm_compute; reflexivity).
  destruct (notarypay_exact demo_ck (replicate 200 0) demo_u demo_node demo_pay_block 600000 keys [2; 0] 3000 vout c'
    (PTx [] (TxOut 281250000 [0x51] :: demo_pay_outs ++ [TxOut 0 [0x6a; 1; 7]])) (TxOut 281250000 [0x51]) (demo_pay_outs ++ [TxOut 0 [0x6a; 1; 7]]))
    as [_ Hdef]; [unfold is_s32; lia|exact cache_ok_init| |exact E|reflexivity|reflexivity|cbn; lia| |].
  - apply (bool_decide_eq_true_1 _); vm_compute; reflexivity.
  - apply (bool_decide_eq_true_1 _); vm_compute; reflexivity.
  - destruct Hdef as (sats & E1 & _ & Hs & _); [intros (o & Ho%list_elem_of_singleton & Hp); by subst o|].
    rewrite E1. f_equal. f_equal. apply Hs. exists [TxOut 0 [0x6a; 1; 7]]. by rewrite Hv.
Defined.

(** Without a check of the stake a staked chain accepts any hash, as long as the
    coinbase pays to a public key. *)
Theorem staked_block_without_work ck uninit s slowflag b height :
  SYMBOL (ce_chain (ck_connect ck)) <> [] -> STAKED (ck_cfg ck) <> 0 -> cs_skip s = false -> ce_regtest (ck_connect ck) = false ->
  height <> 0 -> gt (pb_hash b) (set_compact (pb_nBits b)) = true ->
  hush_checkPOW ck uninit s true true slowflag b height = Some (0, s).
Proof.
  intros Hn Hst Hsk Hr Hh Hgt. unfold hush_checkPOW. rewrite Hsk, Hr. apply Z.eqb_neq in Hh, Hst. rewrite Hh. cbn [negb andb].
  unfold checkPOW_at. rewrite Hgt, Hsk, Hst. destruct (SYMBOL _); done.
Qed.
