(* ===== verification/Supply.v ===== *)
(** * The money supply

    [hush_current_supply] of src/src/hush_globals.h and [hush_max_money] of
    src/src/hush_utils.h, the estimate of the coins in existence from which the
    node takes [MAX_MONEY], and the settings of the HUSH3 chain (the branch
    [ishush3] of [hush_args] in src/src/hush_utils.h).  [None] is a signed
    overflow. *)
From S2P Require Import Prelude Subsidy.
Local Open Scope Z_scope.

(** ** Definitions *)

Definition SATOSHIDEN : Z := 100000000.
Definition HUSH_MAXNVALUE : Z := 2 ^ 63 - 1.
Definition HUSH_BIT63SET (x : Z) : bool := negb (Z.land x (2 ^ 63) =? 0).

Section Supply.
Context (cfg : sc_config) (GENESISTXVAL : Z).

(** The loop of plain and exponential decay: the sum and the reward left. *)
Fixpoint decay_supply (fuel : nat) (k : Z) (curEnd period decay reward cur : Z) : option (Z * Z) :=
  if u64 k <? curEnd then
    match fuel with
    | O => None
    | S fuel =>
      decay_supply fuel (s32 (u64 (k + period))) curEnd period decay
        (if negb (decay =? 0) then s64 (u64 (reward * decay) / SATOSHIDEN) else Z.shiftr reward 1)
        (u64 (cur + period * reward))
    end
  else Some (cur, reward).

(** The branch of linear decay. *)
Definition linear_supply (j : nat) (nSteps period reward curEnd lastEnd cur : Z) : option Z :=
  let '(subsidyDifference, up, lowestSubsidy) :=
    if (j =? LASTERA cfg)%nat then (reward, false, 0)
    else
      let d := s64 (u64 (reward - rd (REWARD cfg) (S j))) in
      if d <? 0 then (s64 (- d), true, reward) else (d, false, s64 (rd (REWARD cfg) (S j))) in
  let denominator := s64 (u64 (nSteps * period)) in
  let denominator := if denominator =? 0 then 1 else denominator in
  let stepDifference := s64 (u64 (period * subsidyDifference) / u64 denominator) in
  let stepTriangle := s64 (Z.shiftr (u64 (period * stepDifference)) 1) in
  r ← (if up then
         let n1 := u32 (nSteps - 1) in
         a ← i64 (stepTriangle * n1);
         b ← i64 (a * n1);
         c ← i64 (stepDifference * nSteps);
         Some (u64 (u64 (u64 (cur + a) + b) + c), lowestSubsidy)
       else
         l ← i64 (stepDifference * nSteps);
         lowestSubsidy ← i64 (reward - l);
         a ← i64 (stepTriangle * nSteps);
         b ← i64 (a * nSteps);
         Some (u64 (u64 (cur + a) + b), lowestSubsidy));
  let '(cur, lowestSubsidy) := (r : Z * Z) in
  Some (u64 (cur + lowestSubsidy * (curEnd - lastEnd))).

(** One era with a positive reward. *)
Definition era_supply (j : nat) (nHeight reward cur : Z) : option Z :=
  let endj := rd (ENDSUBSIDY cfg) j in
  let lastEnd := match j with O => 0 | S i => rd (ENDSUBSIDY cfg) i end in
  let curEnd := if endj =? 0 then nHeight else if endj <? nHeight then endj else nHeight in
  let period := if rd (HALVING cfg) j =? 0 then 210000 else rd (HALVING cfg) j in
  let nSteps := u32 (u64 (curEnd - lastEnd) / period) in
  let modulo := u32 (u64 (curEnd - lastEnd) mod period) in
  let decay := rd (DECAY cfg) j in
  if rd (HALVING cfg) j =? 0 then
    a ← i64 (reward * u32 (nHeight - 1));
    Some (u64 (cur + a))
  else if decay =? SATOSHIDEN then linear_supply j nSteps period reward curEnd lastEnd cur
  else
    r ← decay_supply (S (Z.to_nat (curEnd / period))) (s32 lastEnd) curEnd period decay reward cur;
    let '(cur, reward) := (r : Z * Z) in
    a ← i64 (modulo * reward);
    Some (u64 (cur + a)).

(** The loop over the eras. *)
Fixpoint eras_supply (fuel : nat) (j : nat) (nHeight cur : Z) : option Z :=
  match fuel with
  | O => Some cur
  | S fuel =>
    if (LASTERA cfg <? j)%nat then Some cur
    else
      let prev := match j with O => 0 | S i => rd (ENDSUBSIDY cfg) i end in
      if negb (j =? 0)%nat
         && ((nHeight <=? prev)
             || ((prev =? 0) && (rd (REWARD cfg) j =? 0) && ((j =? LASTERA cfg)%nat || negb (rd (DECAY cfg) j =? SATOSHIDEN))))
      then Some cur
      else
        let reward := s64 (rd (REWARD cfg) j) in
        cur ← (if 0 <? reward then era_supply j nHeight reward cur else Some cur);
        eras_supply fuel (S j) nHeight cur
  end.

Definition base_supply : Z := u64 ((SUPPLY cfg + 1) * SATOSHIDEN + Z.land (MAGIC cfg) 0xffffff + GENESISTXVAL).

(** The cap and the commission. *)
Definition cap_supply (cur : Z) : Z :=
  if HUSH_BIT63SET cur then HUSH_MAXNVALUE
  else if negb (COMMISSION cfg =? 0) then
    let newval := u64 (cur + u64 (cur / COIN * COMMISSION cfg)) in
    if HUSH_BIT63SET newval then HUSH_MAXNVALUE
    else if newval <? cur then HUSH_MAXNVALUE
    else newval
  else cur.

Definition hush_current_supply (nHeight : Z) : option Z :=
  cur ← (if (LASTERA cfg =? 0)%nat && (rd (REWARD cfg) 0 =? 0)
         then Some (u64 (base_supply + u32 (nHeight * 10000)))
         else eras_supply (S (LASTERA cfg)) 0 nHeight base_supply);
  Some (cap_supply cur).

Definition hush_max_money : option Z := hush_current_supply 10000000.
End Supply.

(** The settings of HUSH3; [HALVING1] is [GetArg("-z2zheight",340000)]. *)
Definition hush3_config (HALVING1 magic : Z) : sc_config :=
  ScConfig true HALVING1 [129; HALVING1; 2 * 5422111; 0] [0; 1125000000; 281250000; 140625000]
    [129; HALVING1; 2020000; 3700000] [0; 0; 0; 0] 2 6178674 magic 0 1 0 11111111.

(** ** The cap *)

Lemma bit63 x : is_u 64 x -> HUSH_BIT63SET x = (2 ^ 63 <=? x).
Proof.
  intros Hx. unfold HUSH_BIT63SET.
  assert (E : Z.land x (2 ^ 63) = if Z.testbit x 63 then 2 ^ 63 else 0).
  { apply Z.bits_inj'. intros i Hi. rewrite Z.land_spec, Z.pow2_bits_eqb by lia.
    destruct (Z.eqb_spec 63 i) as [<-|Hne].
    - rewrite andb_true_r. destruct (Z.testbit x 63); [by rewrite Z.pow2_bits_true|by rewrite Z.bits_0].
    - rewrite andb_false_r. destruct (Z.testbit x 63); [by rewrite Z.pow2_bits_false by lia|by rewrite Z.bits_0]. }
  rewrite E, Z.testbit_odd, Z.shiftr_div_pow2 by lia. destruct (Z.leb_spec (2 ^ 63) x) as [H|H].
  - replace (x / 2 ^ 63) with 1; [done|]. apply (Z.div_unique x (2 ^ 63) 1 (x - 2 ^ 63)); unfold is_u in Hx; lia.
  - rewrite Z.div_small by (unfold is_u in Hx; lia). done.
Qed.

Lemma cap_range cfg cur : is_u 64 cur -> 0 <= cap_supply cfg cur <= HUSH_MAXNVALUE.
Proof.
  intros Hc. unfold cap_supply, HUSH_MAXNVALUE. rewrite bit63 by done. destruct (Z.leb_spec (2 ^ 63) cur); [lia|].
  destruct (negb _); [|unfold is_u in Hc; lia]. set (v := u64 (cur + _)). assert (Hv : is_u 64 v) by apply u64_range.
  rewrite bit63 by done. destruct (Z.leb_spec (2 ^ 63) v); [lia|]. destruct (v <? cur); unfold is_u in *; lia.
Qed.

(** ** The sum is additive in what it starts from *)

Definition shift_by (cur : Z) (x : option Z) : option Z := option_map (fun x => u64 (cur + x)) x.

Lemma decay_supply_add fuel k e p d r cur x : is_u 64 cur -> is_u 64 x ->
  decay_supply fuel k e p d r (u64 (cur + x)) =
  option_map (fun y => (u64 (cur + y.1), y.2)) (decay_supply fuel k e p d r x).
Proof.
  intros Hc. revert k r x. induction fuel as [|fuel IH]; intros k r x Hx; cbn [decay_supply]; destruct (u64 k <? e); [done|done| |done].
  replace (u64 (u64 (cur + x) + p * r)) with (u64 (cur + u64 (x + p * r))); [apply IH, u64_range|].
  rewrite u64_add_l, u64_add_r. f_equal. lia.
Qed.

Lemma u64_comm3 cur x a : u64 (u64 (cur + x) + a) = u64 (cur + u64 (x + a)).
Proof. rewrite u64_add_l, u64_add_r. f_equal. lia. Qed.

Section Additive.
Context (cfg : sc_config) (cur : Z) (Hcur : is_u 64 cur).

Lemma linear_supply_add j n p r e l x :
  linear_supply cfg j n p r e l (u64 (cur + x)) = shift_by cur (linear_supply cfg j n p r e l x).
Proof using Type.
  unfold linear_supply. destruct (if (j =? LASTERA cfg)%nat then _ else _) as [[sd up] low].
  set (den := if _ =? 0 then 1 else _). clearbody den. set (sdiff := s64 (_ / _)). clearbody sdiff. set (tri := s64 (Z.shiftr _ _)). clearbody tri.
  destruct up.
  - destruct (i64 (tri * u32 (n - 1))) as [a|]; [|done]. cbn [mbind option_bind]. destruct (i64 (a * _)) as [b|]; [|done].
    cbn [mbind option_bind]. destruct (i64 (sdiff * n)) as [c|]; [|done]. cbn [mbind option_bind shift_by option_map]. by rewrite !u64_comm3.
  - destruct (i64 (sdiff * n)) as [l0|]; [|done]. cbn [mbind option_bind]. destruct (i64 (r - l0)) as [l1|]; [|done]. cbn [mbind option_bind].
    destruct (i64 (tri * n)) as [a|]; [|done]. cbn [mbind option_bind]. destruct (i64 (a * n)) as [b|]; [|done].
    cbn [mbind option_bind shift_by option_map]. by rewrite !u64_comm3.
Qed.

Lemma era_supply_add j h r x : is_u 64 x -> era_supply cfg j h r (u64 (cur + x)) = shift_by cur (era_supply cfg j h r x).
Proof using Hcur.
  intros Hx. unfold era_supply. destruct (rd (HALVING cfg) j =? 0).
  - destruct (i64 _) as [a|]; [|done]. cbn [mbind option_bind shift_by option_map]. by rewrite u64_comm3.
  - destruct (_ =? SATOSHIDEN); [apply linear_supply_add|]. rewrite decay_supply_add by done.
    destruct (decay_supply _ _ _ _ _ _ _) as [[c r']|]; [|done]. cbn [mbind option_bind option_map fst snd].
    destruct (i64 _) as [a|]; [|done]. cbn [mbind option_bind shift_by option_map]. by rewrite u64_comm3.
Qed.

Lemma era_supply_range j h r x y : era_supply cfg j h r x = Some y -> is_u 64 y.
Proof using Type.
  unfold era_supply, linear_supply. destruct (rd (HALVING cfg) j =? 0).
  { destruct (i64 _); [|done]. intros [= <-]. apply u64_range. }
  destruct (_ =? SATOSHIDEN).
  - destruct (if (j =? LASTERA cfg)%nat then _ else _) as [[sd up] low].
    match goal with |- context [mbind _ ?z = _] => destruct z as [[c l]|] end; [|done]. intros [= <-]. apply u64_range.
  - destruct (decay_supply _ _ _ _ _ _ _) as [[c r']|]; [|done]. cbn [mbind option_bind]. destruct (i64 _); [|done]. intros [= <-]. apply u64_range.
Qed.

Lemma eras_supply_add fuel j h x : is_u 64 x -> eras_supply cfg fuel j h (u64 (cur + x)) = shift_by cur (eras_supply cfg fuel j h x).
Proof using Hcur.
  revert j x. induction fuel as [|fuel IH]; intros j x Hx; cbn [eras_supply]; [done|].
  destruct (LASTERA cfg <? j)%nat; [done|]. destruct (_ && _); [done|]. destruct (0 <? _).
  - rewrite era_supply_add by done. destruct (era_supply _ _ _ _ _) as [y|] eqn:E; [|done]. cbn [mbind option_bind shift_by option_map].
    apply IH. by eapply era_supply_range.
  - cbn [mbind option_bind]. by apply IH.
Qed.
End Additive.

Lemma eras_supply_range cfg fuel j h x y : is_u 64 x -> eras_supply cfg fuel j h x = Some y -> is_u 64 y.
Proof.
  revert j x. induction fuel as [|fuel IH]; intros j x Hx; cbn [eras_supply]; [by intros [= <-]|].
  destruct (LASTERA cfg <? j)%nat; [by intros [= <-]|]. destruct (_ && _); [by intros [= <-]|]. destruct (0 <? _).
  - destruct (era_supply _ _ _ _ _) as [z|] eqn:E; [|done]. cbn [mbind option_bind]. apply IH. by eapply era_supply_range.
  - cbn [mbind option_bind]. by apply IH.
Qed.

Lemma current_supply_range cfg g h x : hush_current_supply cfg g h = Some x -> 0 <= x <= HUSH_MAXNVALUE.
Proof.
  unfold hush_current_supply. destruct (_ && _).
  - cbn [mbind option_bind]. intros [= <-]. apply cap_range, u64_range.
  - destruct (eras_supply _ _ _ _ _) as [c|] eqn:E; [|done]. cbn [mbind option_bind]. intros [= <-].
    apply cap_range. eapply eras_supply_range; [|exact E]. apply u64_range.
Qed.

(** ** Chains with plain halving *)

(** One era without end, halving every [p] blocks. *)
Record halving_config (cfg : sc_config) (r p : Z) : Prop := HalvingConfig {
  hv_name : sc_ishush3 cfg = false;
  hv_eras : LASTERA cfg = 0%nat;
  hv_end : rd (ENDSUBSIDY cfg) 0 = 0;
  hv_reward : rd (REWARD cfg) 0 = r;
  hv_halving : rd (HALVING cfg) 0 = p;
  hv_decay : rd (DECAY cfg) 0 = 0;
  hv_commission : COMMISSION cfg = 0;
  hv_reward_pos : 0 < r;
  hv_period_pos : 0 < p
}.

(** What block [h] mints, without the premine. *)
Definition emitted (cfg : sc_config) (h : Z) : Z :=
  match era_subsidy cfg empty_cache 0 h with Some (s, _) => s | None => 0 end.

(** The coins counted for the unfinished period beyond those minted. *)
Definition excess (r p h : Z) : Z :=
  if h mod p =? 0 then 0 else (p - h mod p) * Z.shiftr r (h / p) + h mod p * Z.shiftr r (h / p + 1).

Lemma zsum_periods f p q : 0 < p ->
  zsum (fun h => f (h / p)) 0 (Z.to_nat (Z.of_nat q * p)) = p * zsum f 0 q.
Proof.
  intros Hp. induction q as [|q IH]; [simpl; lia|].
  rewrite Nat2Z.inj_succ, Z.mul_succ_l. assert (Hqp : 0 <= Z.of_nat q * p) by nia. remember (Z.of_nat q * p) as a eqn:Ea.
  rewrite (zsum_split _ 0 (Z.to_nat a) (Z.to_nat (a + p))) by lia. rewrite IH.
  rewrite (zsum_const (fun h => f (h / p)) (f (Z.of_nat q))).
  - rewrite (zsum_split f 0 q (S q)) by lia. replace (S q - q)%nat with 1%nat by lia. cbn [zsum]. rewrite !Z.add_0_l.
    replace (Z.of_nat (Z.to_nat (a + p) - Z.to_nat a)) with p by lia. ring.
  - intros h Hh. f_equal. symmetry. apply (Z.div_unique h p (Z.of_nat q) (h - a)); [lia|]. lia.
Qed.

Lemma zsum_periods_rest f p h : 0 < p -> 0 <= h ->
  zsum (fun h => f (h / p)) 0 (Z.to_nat h) = p * zsum f 0 (Z.to_nat (h / p)) + h mod p * f (h / p).
Proof.
  intros Hp Hh. pose proof (Z.div_mod h p ltac:(lia)) as E. pose proof (Z.mod_pos_bound h p Hp). pose proof (Z.div_pos h p Hh Hp).
  assert (Hqp : 0 <= h / p * p) by nia. remember (h / p * p) as a eqn:Ea. assert (Eh : h = a + h mod p) by lia.
  rewrite (zsum_split _ 0 (Z.to_nat a) (Z.to_nat h)) by lia.
  replace (Z.to_nat a) with (Z.to_nat (Z.of_nat (Z.to_nat (h / p)) * p)) at 1 by lia. rewrite zsum_periods by done.
  rewrite (zsum_const (fun h => f (h / p)) (f (h / p))); [replace (Z.of_nat (Z.to_nat h - Z.to_nat a)) with (h mod p) by lia; ring|].
  intros x Hx. f_equal. symmetry. apply (Z.div_unique x p (h / p) (x - a)); lia.
Qed.

Section Halving.
Context (cfg : sc_config) (r p : Z) (Hcfg : halving_config cfg r p).

Lemma emitted_spec h : is_s64 r -> 0 <= h < 2 ^ 31 -> h / p < 64 -> emitted cfg h = Z.shiftr r (h / p).
Proof using Hcfg.
  intros Hr Hh H64. destruct Hcfg as [E1 E2 E3 E4 E5 E6 E7 H1 H2]. unfold emitted, era_subsidy.
  rewrite E4, s64_id, (proj2 (Z.eqb_neq r 0)) by (done || lia). cbn [negb orb]. rewrite E5, (proj2 (Z.eqb_neq p 0)) by lia. cbn [negb].
  rewrite E1, Z.sub_0_r, u64_id by (unfold is_u; lia). pose proof (Z.div_pos h p ltac:(lia) H2).
  rewrite s32_id by (unfold is_s32; lia). destruct (Z.ltb_spec 0 (h / p)).
  - rewrite E6. cbn [Z.eqb]. rewrite (proj2 (Z.ltb_lt (h / p) 64)) by done. done.
  - replace (h / p) with 0 by lia. by rewrite Z.shiftr_0_r.
Qed.

Lemma halving_loop H N d i fuel cur :
  0 <= H -> H + p < 2 ^ 31 -> N = (H + p - 1) / p -> Z.of_nat d = N - i -> 0 <= i -> (d <= fuel)%nat -> is_u 64 cur ->
  decay_supply fuel (i * p) H p 0 (Z.shiftr r i) cur = Some (u64 (cur + p * zsum (Z.shiftr r) i d), Z.shiftr r N).
Proof using Hcfg.
  intros HH HHp HN. destruct Hcfg as [_ _ _ _ _ _ _ H1 H2].
  assert (HN2 : H <= N * p /\ (N - 1) * p < H \/ H = 0 /\ N = 0).
  { pose proof (Z.div_mod (H + p - 1) p ltac:(lia)). pose proof (Z.mod_pos_bound (H + p - 1) p H2). rewrite <- HN in *.
    destruct (decide (H = 0)); [right; split; [done|]; nia|left; nia]. }
  revert i fuel cur. induction d as [|d IH]; intros i fuel cur Hd Hi Hf Hc.
  - assert (i = N) as -> by lia. assert (Hge : H <= N * p) by nia.
    assert (E : (u64 (N * p) <? H) = false) by (rewrite u64_id by (unfold is_u; nia); apply Z.ltb_ge; lia).
    destruct fuel; cbn [decay_supply]; rewrite E; cbn [zsum]; rewrite Z.mul_0_r, Z.add_0_r, u64_id by done; done.
  - assert (Hlt : i * p < H) by nia. destruct fuel as [|fuel]; [lia|]. cbn [decay_supply].
    rewrite u64_id by (unfold is_u; nia). rewrite (proj2 (Z.ltb_lt _ _) Hlt). cbn [Z.eqb negb].
    replace (i * p + p) with ((i + 1) * p) by lia. rewrite u64_id by (unfold is_u; nia). rewrite s32_id by (unfold is_s32; nia).
    rewrite Z.shiftr_shiftr by lia. rewrite IH by (lia || apply u64_range). cbn [zsum]. rewrite u64_add_l. do 3 f_equal. lia.
Qed.

Lemma shiftr_bounds i : 0 <= i -> 0 <= Z.shiftr r i <= r.
Proof using Hcfg.
  intros Hi. destruct Hcfg as [_ _ _ _ _ _ _ H1 _]. rewrite Z.shiftr_div_pow2 by done.
  split; [apply Z.div_pos; [lia|apply Z.pow_pos_nonneg; lia]|]. apply Z.div_le_upper_bound; [apply Z.pow_pos_nonneg; lia|].
  pose proof (Z.pow_pos_nonneg 2 i). nia.
Qed.

Lemma zsum_shiftr_bounds i n : 0 <= i -> 0 <= zsum (Z.shiftr r) i n <= Z.of_nat n * r.
Proof using Hcfg.
  revert i. induction n as [|n IH]; intros i Hi; cbn [zsum]; [lia|]. specialize (IH (i + 1) ltac:(lia)).
  pose proof (shiftr_bounds i Hi). lia.
Qed.
End Halving.

(** The money supply of a halving chain, from which the node takes its limit for
    amounts, never undercounts: on a chain with one era that halves every [p]
    blocks [hush_current_supply] is the initial supply, plus exactly the coins
    that [hush_sc_block_subsidy] mints in the blocks below the height, plus a
    nonnegative excess that is zero at the end of each period; and no chain ever
    has a supply above 2^63 - 1. *)
Theorem current_supply_halving cfg g r p h :
  halving_config cfg r p -> 0 <= h -> h + p < 2 ^ 31 -> h <= 64 * p ->
  base_supply cfg g + (h / p + 2) * (p * r) < 2 ^ 63 ->
  hush_current_supply cfg g h = Some (base_supply cfg g + zsum (emitted cfg) 0 (Z.to_nat h) + excess r p h) /\
  0 <= excess r p h /\ (h mod p = 0 -> excess r p h = 0) /\
  (forall cfg g h x, hush_current_supply cfg g h = Some x -> 0 <= x <= HUSH_MAXNVALUE).
Proof.
  intros Hcfg Hh Hhp H64 Hb. pose proof Hcfg as [E1 E2 E3 E4 E5 E6 E7 H1 H2].
  pose proof (Z.div_mod h p ltac:(lia)) as Ediv. pose proof (Z.mod_pos_bound h p H2) as Hm. pose proof (Z.div_pos h p Hh H2) as Hq.
  assert (HB : is_u 64 (base_supply cfg g)) by apply u64_range. remember (base_supply cfg g) as B eqn:EB.
  set (q := h / p) in *. set (m := h mod p) in *. assert (Hr : is_s64 r) by (unfold is_s64, is_u in *; nia).
  pose proof (shiftr_bounds cfg r p Hcfg q Hq) as Hs1. pose proof (shiftr_bounds cfg r p Hcfg (q + 1) ltac:(lia)) as Hs2.
  split; [|split; [unfold excess; fold m q; destruct (m =? 0); nia|split; [unfold excess; fold m; by intros ->|apply current_supply_range]]].
  unfold hush_current_supply. rewrite <- EB, E2, E4, (proj2 (Z.eqb_neq r 0)) by lia. cbn [Nat.eqb andb eras_supply]. rewrite E2.
  cbn [Nat.ltb Nat.leb Nat.eqb negb andb]. rewrite E4, s64_id, (proj2 (Z.ltb_lt 0 r)) by done.
  unfold era_supply. rewrite E3, E5, E6, (proj2 (Z.eqb_neq p 0)) by lia. change (0 =? SATOSHIDEN) with false. change (0 =? 0) with true. cbv iota.
  rewrite Z.sub_0_r, u64_id by (unfold is_u; lia). fold m q. change (s32 0) with 0.
  remember ((h + p - 1) / p) as N eqn:EN.
  assert (HN : N = if m =? 0 then q else q + 1).
  { rewrite EN. symmetry. destruct (Z.eqb_spec m 0); [apply (Z.div_unique _ p q (p - 1)); lia|apply (Z.div_unique _ p (q + 1) (m - 1)); lia]. }
  assert (HNq : 0 <= q <= N /\ N <= q + 1) by (rewrite HN; destruct (m =? 0); lia).
  pose proof (halving_loop cfg r p Hcfg h N (Z.to_nat N) 0 (S (Z.to_nat q)) B Hh Hhp EN ltac:(clearbody q; lia) ltac:(lia) ltac:(clearbody q; lia) HB) as HL.
  rewrite Z.mul_0_l, Z.shiftr_0_r in HL. rewrite HL. cbn [mbind option_bind].
  pose proof (zsum_shiftr_bounds cfg r p Hcfg 0 (Z.to_nat N) ltac:(lia)) as Hz. pose proof (shiftr_bounds cfg r p Hcfg N ltac:(lia)) as Hs3.
  assert (Hpr : 0 < p * r) by nia. assert (Hqpr : 0 <= q * (p * r)) by nia.
  assert (Hms : 0 <= m * Z.shiftr r N <= p * r) by nia.
  assert (Hpz : 0 <= p * zsum (Z.shiftr r) 0 (Z.to_nat N) <= (q + 1) * (p * r)).
  { rewrite Z2Nat.id in Hz by lia. split; [nia|]. assert (zsum (Z.shiftr r) 0 (Z.to_nat N) <= (q + 1) * r) by nia. nia. }
  rewrite (u32_id m) by (unfold is_u; lia). unfold i64. rewrite decide_True by (unfold is_s64, is_u in *; lia). cbn [mbind option_bind].
  rewrite u64_add_l, u64_id by (unfold is_u in *; lia). unfold cap_supply. rewrite bit63 by (unfold is_u in *; lia).
  rewrite (proj2 (Z.leb_gt _ _)) by lia. rewrite E7. cbn [Z.eqb negb]. f_equal.
  assert (Hsum : zsum (emitted cfg) 0 (Z.to_nat h) = zsum (fun h => Z.shiftr r (h / p)) 0 (Z.to_nat h)).
  { assert (Hext : forall n s, 0 <= s -> s + Z.of_nat n <= h -> zsum (emitted cfg) s n = zsum (fun h => Z.shiftr r (h / p)) s n).
    { induction n as [|n IHn]; intros s Hs Hsn; cbn [zsum]; [done|]. rewrite IHn by lia. f_equal.
      apply (emitted_spec cfg r p Hcfg); [done|lia|]. apply Z.div_lt_upper_bound; lia. }
    apply Hext; lia. }
  rewrite Hsum, (zsum_periods_rest (Z.shiftr r) p h H2 Hh). fold q m. unfold excess. fold m q. rewrite HN. destruct (Z.eqb_spec m 0) as [E0|E0].
  - rewrite E0. lia.
  - rewrite (zsum_split _ 0 (Z.to_nat q) (Z.to_nat (q + 1))) by lia. replace (Z.to_nat (q + 1) - Z.to_nat q)%nat with 1%nat by lia.
    cbn [zsum]. rewrite Z.add_0_l, Z2Nat.id by lia. lia.
Qed.

Lemma current_supply_halving_witness :
  hush_current_supply (ScConfig false 0 [0] [3 * COIN] [1000] [0] 0 10 7 0 0 0 0) 0 2500 =
    Some (1100000007 + zsum (emitted (ScConfig false 0 [0] [3 * COIN] [1000] [0] 0 10 7 0 0 0 0)) 0 (Z.to_nat 2500)
          + excess (3 * COIN) 1000 2500) /\
  excess (3 * COIN) 1000 2500 = 56250000000.
Proof.
  split; [|vm_compute; reflexivity].
  refine (proj1 (current_supply_halving (ScConfig false 0 [0] [3 * COIN] [1000] [0] 0 10 7 0 0 0 0) 0 (3 * COIN) 1000 2500 _ _ _ _ _));
    [by split|lia|lia|lia|vm_compute; reflexivity].
Defined.

(** ** HUSH3 *)

Definition hush3_end : Z := 10844222.

Lemma land_magic magic : 0 <= Z.land magic 0xffffff < 2 ^ 24.
Proof. change 0xffffff with (Z.ones 24). rewrite Z.land_ones by lia. apply Z.mod_pos_bound. lia. Qed.

Lemma hush_block_subsidy_range h : 0 <= hush_block_subsidy 340000 h <= 1125000000.
Proof. unfold hush_block_subsidy. repeat case_match; lia. Qed.

(** The subsidy with these settings: the table, cut at the end of the last era, and
    the premine in block 1. *)
Lemma hush3_subsidy magic c h : 0 <= h ->
  hush_sc_block_subsidy (hush3_config 340000 magic) c h =
  Some ((if h <? hush3_end then hush_block_subsidy 340000 h else 0)
        + (if h =? 1 then 617867400000000 + Z.land magic 0xffffff else 0), c).
Proof.
  intros Hh. unfold hush_sc_block_subsidy. cbn [hush3_config ENDSUBSIDY REWARD LASTERA rd nth Z.eqb andb].
  unfold cur_era. cbn [hush3_config ENDSUBSIDY rd nth Z.eqb find_era LASTERA Nat.ltb Nat.leb]. change (2 * 5422111) with hush3_end. cbn [orb].
  rewrite !orb_false_r.
  assert (Hera : forall e, (e <= 2)%nat -> era_subsidy (hush3_config 340000 magic) c e h = Some (hush_block_subsidy 340000 h, c)).
  { intros [|[|[|e]]] He; [reflexivity..|lia]. }
  pose proof (hush_block_subsidy_range h) as Hr. pose proof (land_magic magic) as Hl.
  assert (Hp : forall s, 0 <= s <= 1125000000 -> u64 (add_premine (hush3_config 340000 magic) h s) =
    s + (if h =? 1 then 617867400000000 + Z.land magic 0xffffff else 0)).
  { intros s Hs. unfold add_premine. cbn [hush3_config SUPPLY LASTERA STAKED MAGIC]. change (10000000000 <? 6178674) with false.
    change (0 =? 0) with true. cbv iota. cbn [Nat.eqb]. unfold COIN. destruct (h =? 1).
    - rewrite s64_id by (unfold is_s64; lia). rewrite u64_id by (unfold is_u; lia). lia.
    - rewrite u64_id by (unfold is_u; lia). lia. }
  destruct (Z.ltb_spec h 129); [cbn [Nat.leb]; rewrite Hera, Hp by lia; rewrite (proj2 (Z.ltb_lt h hush3_end)) by (unfold hush3_end; lia); done|].
  destruct (Z.ltb_spec h 340000); [cbn [Nat.leb]; rewrite Hera, Hp by lia; rewrite (proj2 (Z.ltb_lt h hush3_end)) by (unfold hush3_end; lia); done|].
  destruct (Z.ltb_spec h hush3_end); cbn [Nat.leb]; [by rewrite Hera, Hp by lia|]. by rewrite Hp by lia.
Qed.

(** The founders reward with these settings. *)
Lemma hush3_commission magic c b h : 0 <= h ->
  the_commission (hush3_config 340000 magic) 0 c b h =
  Some (if hush_commission 340000 h <? 10000 then 0 else hush_commission 340000 h, c).
Proof. intros Hh. unfold the_commission. rewrite hush3_subsidy by done. reflexivity. Qed.

(** What block [h] mints: subsidy, premine and founders reward. *)
Definition minted (magic h : Z) : Z :=
  default 0 (option_map fst (hush_sc_block_subsidy (hush3_config 340000 magic) empty_cache h))
  + default 0 (option_map fst (the_commission (hush3_config 340000 magic) 0 empty_cache None h)).

Lemma zsum_le f g start n : (forall h, start <= h -> f h <= g h) -> zsum f start n <= zsum g start n.
Proof.
  revert start. induction n as [|n IH]; intros start H; cbn [zsum]; [lia|]. specialize (IH (start + 1) ltac:(intros; apply H; lia)).
  pose proof (H start). lia.
Qed.

Lemma minted_total magic n : zsum (minted magic) 1 n <= 2097545795960000 + Z.land magic 0xffffff.
Proof.
  pose proof (land_magic magic) as Hl. set (p := 617867400000000 + Z.land magic 0xffffff).
  assert (H : zsum (minted magic) 1 n <= zsum (fun h => (hush_block_subsidy 340000 h + hush_commission 340000 h) + (if h =? 1 then p else 0)) 1 n).
  { apply zsum_le. intros h Hh. unfold minted. rewrite hush3_subsidy, hush3_commission by lia. cbn [option_map default from_option id fst]. fold p.
    pose proof (hush_block_subsidy_range h). assert (0 <= hush_commission 340000 h) by (unfold hush_commission, starting_commission; repeat case_match; lia).
    destruct (h <? hush3_end), (hush_commission 340000 h <? 10000); lia. }
  rewrite (zsum_add (fun h => hush_block_subsidy 340000 h + hush_commission 340000 h)), (zsum_add (hush_block_subsidy 340000)) in H.
  pose proof (proj1 (subsidy_total (S n))) as Hs. pose proof (proj1 (commission_total (S n))) as Hc. cbn [zsum] in Hs, Hc.
  change (hush_block_subsidy 340000 0) with 0 in Hs. change (hush_commission 340000 0) with 0 in Hc. rewrite !Z.add_0_l in Hs, Hc.
  assert (Hp : zsum (fun h => if h =? 1 then p else 0) 1 n <= p).
  { destruct n as [|n]; cbn [zsum]; [lia|]. rewrite (zsum_const _ 0 (1 + 1)); [change (1 =? 1) with true; cbv iota; lia|].
    intros h Hh. destruct (Z.eqb_spec h 1); lia. }
  lia.
Qed.

(** The settings of HUSH3 are consistent with its tables: above block 1 a block
    mints the amount of the subsidy table, up to height 10844222, where the last
    era ends and the subsidy stops; and the limit for amounts that the node takes
    from [hush_max_money] is never below the coins minted, premine and founders
    reward included. *)
Theorem hush3_money magic :
  (forall c h, 2 <= h -> hush_sc_block_subsidy (hush3_config 340000 magic) c h =
     Some (if h <? hush3_end then hush_block_subsidy 340000 h else 0, c)) /\
  exists M, hush_max_money (hush3_config 340000 magic) 5000000000 = Some M /\ M <= HUSH_MAXNVALUE /\
    forall n, zsum (minted magic) 1 n <= M.
Proof.
  split.
  { intros c h Hh. rewrite hush3_subsidy by lia. rewrite (proj2 (Z.eqb_neq h 1)) by lia. by rewrite Z.add_0_r. }
  pose proof (land_magic magic) as Hl. unfold hush_max_money, hush_current_supply. cbn [hush3_config LASTERA Nat.eqb andb].
  set (B := base_supply (hush3_config 340000 magic) 5000000000).
  assert (HB : B = 617872500000000 + Z.land magic 0xffffff).
  { unfold B, base_supply, SATOSHIDEN. cbn [hush3_config SUPPLY MAGIC]. rewrite u64_id; [lia|unfold is_u; lia]. }
  replace B with (u64 (B + 0)) by (rewrite u64_id; [lia|unfold is_u; lia]).
  rewrite eras_supply_add by (unfold is_u; lia).
  replace (eras_supply (hush3_config 340000 magic) 3 0 10000000 0) with (Some 1688306342960000) by (vm_compute; reflexivity).
  cbn [shift_by option_map mbind option_bind]. rewrite u64_id by (unfold is_u; lia). eexists. split; [reflexivity|].
  split; [apply cap_range; unfold is_u; lia|]. intros n. pose proof (minted_total magic n) as Hn.
  assert (H : B + 1688306342960000 <= cap_supply (hush3_config 340000 magic) (B + 1688306342960000)); [|lia].
  unfold cap_supply. rewrite bit63 by (unfold is_u; lia). rewrite (proj2 (Z.leb_gt _ _)) by lia. cbn [hush3_config COMMISSION Z.eqb negb].
  set (v := u64 (_ + u64 _)). destruct (HUSH_BIT63SET v); [unfold HUSH_MAXNVALUE; lia|].
  destruct (Z.ltb_spec v (B + 1688306342960000)); [unfold HUSH_MAXNVALUE; lia|lia].
Qed.

(** The founders reward outlives the subsidy. *)
Theorem hush3_commission_outlives_subsidy magic c b :
  hush_sc_block_subsidy (hush3_config 340000 magic) c hush3_end = Some (0, c) /\
  the_commission (hush3_config 340000 magic) 0 c b hush3_end = Some (488281, c).
Proof. split; [by rewrite hush3_subsidy|by rewrite hush3_commission]. Qed.

(** Without a reward the count of 10000 per block wraps around in 32 bits. *)
Theorem supply_counter_wraps cfg g :
  LASTERA cfg = 0%nat -> rd (REWARD cfg) 0 = 0 -> COMMISSION cfg = 0 -> base_supply cfg g < 2 ^ 62 ->
  exists x y, hush_current_supply cfg g 429496 = Some x /\ hush_current_supply cfg g 429497 = Some y /\ y < x.
Proof.
  intros E1 E2 E3 Hb. unfold hush_current_supply. rewrite E1, E2. cbn [Nat.eqb Z.eqb andb mbind option_bind].
  assert (HB : is_u 64 (base_supply cfg g)) by apply u64_range. set (B := base_supply cfg g) in *. clearbody B.
  eexists _, _. split; [reflexivity|]. split; [reflexivity|].
  change (u32 (429496 * 10000)) with 4294960000. change (u32 (429497 * 10000)) with 2704. unfold cap_supply. rewrite E3. cbn [Z.eqb negb].
  rewrite !u64_id by (unfold is_u in *; lia). rewrite !bit63 by (unfold is_u in *; lia). rewrite !(proj2 (Z.leb_gt _ _)) by lia. lia.
Qed.
