(* ===== verification/Query.v ===== *)
(** * Queries on the active chain

    Functions of src/src/hush_bitcoind.h that read the active chain: blocks by
    height, coin supply, eligible notaries, and the targets of the staking and
    adaptive rules.  The chain is that of [Chain]; the further fields of
    [CBlockIndex], the blocks on disk and the longest chain seen at the peers are
    the record [query_env], the fields that the functions change are the map
    [extras].  [None] is a dangling pointer or a division by zero. *)
From S2P Require Import Prelude HashStream Sha256 NotaryList Notary Arith256 Pow Chain.
Local Open Scope Z_scope.

(** ** Data *)

(** A transaction as [hush_newcoins] reads it: for each input the values of the
    outputs of the transaction it spends ([None]: not found) and the index; for
    each output value and script; [valueBalance]. *)
Record qtx := QTx {
  qt_vin : list (option (list Z) * nat); qt_vout : list (Z * list Z); qt_valueBalance : Z
}.

Record query_env := QueryEnv {
  qe_tree : gmap (list Z) bindex;
  qe_active : chain;
  qe_nTime : list Z -> Z;
  qe_median : list Z -> Z;                   (* GetMedianTimePast() *)
  qe_load : list Z -> option (list qtx);     (* hush_blockload *)
  qe_pubkey33 : list Z -> list Z;            (* hush_block2pubkey33 of the loaded block *)
  qe_counts : list Z -> bool;                (* ExtractDestination succeeds and gives another address than the example *)
  qe_stake : list Z -> option (list Z);      (* the address of the last transaction of the loaded block, if it pays a stake back to itself *)
  qe_longest : Z;                            (* hush_longestchain() *)
  qe_BLOCKTIME : Z; qe_STAKED : Z; qe_MIN_DIFF : Z
}.

(** [newcoins], [zfunds] and [segid]. *)
Record extra := Extra { x_newcoins : Z; x_zfunds : Z; x_segid : Z }.
Abbreviation extras := (gmap (list Z) extra) (only parsing).
Definition get_extra (x : extras) (p : list Z) : extra := default (Extra 0 0 (-2)) (x !! p).

Section Query.
Context (Q : query_env).
Let t := qe_tree Q.

(** ** Blocks by height *)

Definition LastTip : option (list Z) := match vChain (qe_active Q) with [] => None | _ => lastTip (qe_active Q) end.

Definition hush_chainactive (height : Z) : option (option (list Z)) :=
  match LastTip with
  | Some p => b ← t !! p; Some (if height <=? bi_height b then ch_at (qe_active Q) height else None)
  | None => Some None
  end.
Definition hush_chainactive_timestamp : Z := match LastTip with Some p => u32 (qe_nTime Q p) | None => 0 end.
Definition hush_heightstamp (height : Z) : option Z :=
  if 0 <? height then p ← hush_chainactive height; Some (match (p : option (list Z)) with Some p => qe_nTime Q p | None => 0 end)
  else Some 0.
Definition hush_blockheight (hash : list Z) : Z := match t !! hash with Some b => bi_height b | None => 0 end.
Definition hush_blocktime (hash : list Z) : Z := match t !! hash with Some _ => qe_nTime Q hash | None => 0 end.
Definition hush_nextheight : option Z :=
  match LastTip with
  | Some p => b ← t !! p; Some (if 0 <? bi_height b then bi_height b + 1 else qe_longest Q + 1)
  | None => Some (qe_longest Q + 1)
  end.
Definition hush_isrealtime : option bool :=
  match LastTip with Some p => b ← t !! p; Some (qe_longest Q <=? bi_height b) | None => Some false end.

(** ** Coin supply *)

(** The sum of the inputs, [None] inside: one is not found. *)
Fixpoint sum_vins (vin : list (option (list Z) * nat)) (vinsum : Z) : option Z :=
  match vin with
  | [] => Some vinsum
  | (prev, n) :: vin => vals ← prev; v ← vals !! n; sum_vins vin (vinsum + v)
  end.

Definition counted (o : Z * list Z) : Z := if qe_counts Q o.2 then o.1 else 0.
Definition sum_outs (vout : list (Z * list Z)) : Z :=
  match rev vout with
  | [] => 0
  | o :: front => foldr (fun o s => counted o + s) 0 front + (if negb (rd o.2 0 =? 0x6a) then counted o else 0)
  end.

(** The value returned and [*zfundsp], which is set only at the end. *)
Fixpoint newcoins_loop (vtx : list qtx) (first : bool) (vinsum voutsum zfunds : Z) : Z * option Z :=
  match vtx with
  | [] => (voutsum - vinsum, Some zfunds)
  | tx :: vtx =>
    match (if first then Some vinsum else sum_vins (qt_vin tx) vinsum) with
    | None => (0, None)
    | Some vinsum => newcoins_loop vtx false vinsum (voutsum + sum_outs (qt_vout tx)) (zfunds - qt_valueBalance tx)
    end
  end.
Definition hush_newcoins (vtx : list qtx) : Z * option Z := newcoins_loop vtx true 0 0 0.

(** The loop of [hush_coinsupply]: supply, [*zfundsp] and the changed fields. *)
Fixpoint supply_loop (fuel : nat) (p : option (list Z)) (x : extras) (supply zfunds : Z) : option (Z * Z * extras) :=
  match p with
  | None => Some (supply, zfunds, x)
  | Some q =>
    b ← t !! q;
    if 0 <? bi_height b then
      match fuel with
      | O => None
      | S fuel =>
        let e := get_extra x q in
        if (x_newcoins e =? 0) && (x_zfunds e =? 0) then
          match qe_load Q q with
          | None => Some (0, 0, x)
          | Some vtx =>
            let '(n, z) := hush_newcoins vtx in
            let e := Extra n (default (x_zfunds e) z) (x_segid e) in
            supply_loop fuel (bi_pprev b) (<[q := e]> x) (supply + x_newcoins e) (zfunds + x_zfunds e)
          end
        else supply_loop fuel (bi_pprev b) x (supply + x_newcoins e) (zfunds + x_zfunds e)
      end
    else Some (supply, zfunds, x)
  end.
Definition hush_coinsupply (x : extras) (height : Z) : option (Z * Z * extras) :=
  p ← hush_chainactive height;
  match (p : option (list Z)) with
  | None => Some (0, 0, x)
  | Some q => b ← t !! q; supply_loop (Z.to_nat (bi_height b)) (Some q) x 0 0
  end.

(** ** Notaries and miners *)

Fixpoint find_notary (keys : list (list Z)) (pubkey : list Z) (j : Z) : option Z :=
  match keys with
  | [] => None
  | k :: keys => if bool_decide (k = pubkey) then Some j else find_notary keys pubkey (j + 1)
  end.

(** [mids[i]] of a block, -1 if there is none. *)
Definition miner_id (keys : list (list Z)) (p : option (list Z)) : Z :=
  match p with
  | Some q => match qe_load Q q with Some _ => default (-1) (find_notary keys (qe_pubkey33 Q q) 0) | None => -1 end
  | None => -1
  end.

(** [keys] are the keys that [hush_notaries] gives for the height; [nonz] is the
    initial value of [*nonzpkeysp]. *)
Definition hush_eligiblenotary (keys : list (list Z)) (nonz height : Z) : option (Z * Z) :=
  blocks ← mapM (fun i => hush_chainactive (height - Z.of_nat i)) (seq 0 66);
  let mids := map (miner_id keys) blocks in
  let nonz := nonz + Zlen (List.filter (fun m => 0 <=? m) mids) in
  let mid0 := nth 0 mids (-1) in
  let duplicate := Zlen (List.filter (fun i =>
        (0 <=? mid0) && match nth i blocks None with Some _ => nth i mids (-1) =? mid0 | None => false end) (seq 1 65)) in
  Some (if (duplicate =? 0) && ((186233 <? height) || (0 <? nonz)) then 1 else 0, nonz).

Definition hush_minerids (keys : list (list Z)) (height : Z) (width : nat) : option (list Z) :=
  ids ← mapM (fun i =>
          if height - Z.of_nat i <=? 0 then Some []
          else p ← hush_chainactive (height - Z.of_nat width + Z.of_nat i + 1);
               Some (match (p : option (list Z)) with
                     | Some q => match qe_load Q q with
                                 | Some _ => [u8 (default (Zlen keys) (find_notary keys (qe_pubkey33 Q q) 0))]
                                 | None => []
                                 end
                     | None => []
                     end)) (seq 0 width);
  Some (concat ids).

(** ** Staking *)

Definition hush_segid32 (md : vstate) (coinaddr : list Z) : option Z :=
  h ← Sha256.vcalc_sha256 md coinaddr; Some (le_num (take 4 h)).

Definition hush_segid (md : vstate) (x : extras) (nocache : bool) (height : Z) : option (Z * extras) :=
  if 0 <? height then
    p ← hush_chainactive height;
    match (p : option (list Z)) with
    | None => Some (-1, x)
    | Some q =>
      let e := get_extra x q in
      if negb nocache && (-1 <=? x_segid e) then Some (x_segid e, x)
      else
        match qe_load Q q, qe_stake Q q with
        | Some _, Some addr =>
          s ← hush_segid32 md addr;
          let segid := Z.land s 0x3f in
          Some (segid, <[q := Extra (x_newcoins e) (x_zfunds e) segid]> x)
        | _, _ => Some (-1, x)
        end
    end
  else Some (-1, x).

(** The statics of [hush_segids]. *)
Record segid_cache := SegidCache { prevhashbuf : list Z; prevheight : Z }.
Fixpoint segid_loop (md : vstate) (x : extras) (height : Z) (n : nat) : option (list Z * extras) :=
  match n with
  | O => Some ([], x)
  | S n =>
    r ← hush_segid md x true height;
    let '(s, x) := (r : Z * extras) in
    r ← segid_loop md x (height + 1) n;
    let '(l, x) := (r : list Z * extras) in
    Some (u8 s :: l, x)
  end.
Definition hush_segids (md : vstate) (k : segid_cache) (x : extras) (height : Z) (n : nat)
  : option (list Z * segid_cache * extras) :=
  if (height =? prevheight k) && (n =? 100)%nat then Some (prevhashbuf k, k, x)
  else
    r ← segid_loop md x height n;
    let '(l, x) := (r : list Z * extras) in
    Some (l, if (n =? 100)%nat then SegidCache l height else k, x).

(** ** Targets *)

Definition hush_adaptivepow_target (height : Z) (bnTarget : limbs) (nTime : Z) : option limbs :=
  let T := qe_BLOCKTIME Q in
  if 10 <? height then
    p ← hush_chainactive (height - 1);
    match (p : option (list Z)) with
    | None => Some bnTarget
    | Some tip =>
      let diff := s32 (nTime - qe_median Q tip) in
      let tipdiff := s32 (nTime - qe_nTime Q tip) in
      t13 ← i32 (13 * T);
      t2 ← i32 (2 * T);
      let diff := if t13 <? tipdiff then tipdiff else diff in
      if (t13 <=? diff) && ((height <? 30) || (t2 <? tipdiff)) then
        mult ← i32 (diff - 12 * T);
        k ← quot mult T;
        m ← i64 (k * T + Z.quot T 2);
        mm ← i64 (m * m);
        let new := mul bnTarget (u256 mm) in
        let easy := set_compact HUSH_MINDIFF_NBITS in
        Some (if lt new bnTarget || gt new easy then easy else new)
      else Some bnTarget
    end
  else Some bnTarget.

(** The loop over the last 100 heights: number of staked blocks, number of the
    others, sum of the hashes of the others. *)
Fixpoint stake_loop (md : vstate) (x : extras) (height : Z) (idx : list nat) (n m : Z) (sum : limbs)
  : option (Z * Z * limbs * extras) :=
  match idx with
  | [] => Some (n, m, sum, x)
  | i :: idx =>
    let ht := height - 100 + Z.of_nat i in
    if ht <=? 1 then stake_loop md x height idx n m sum
    else
      p ← hush_chainactive ht;
      match (p : option (list Z)) with
      | None => stake_loop md x height idx n m sum
      | Some q =>
        r ← hush_segid md x false ht;
        let '(s, x) := (r : Z * extras) in
        if 0 <=? s then stake_loop md x height idx (n + 1) m sum
        else stake_loop md x height idx n (m + 1) (add sum (UintToArith256 q))
      end
  end.

(** The new target from the average [ave], the share of staked blocks and the
    goal. *)
Definition stake_target (ave easydiff : limbs) (percPoS goalperc : Z) : option limbs :=
  if percPoS <? goalperc then
    q ← div ave (u256 (goalperc * goalperc * goalperc * goalperc));
    Some (mul q (u256 (percPoS * percPoS)))
  else if goalperc <? percPoS then
    q ← div ave (u256 (goalperc * goalperc));
    let new := mul q (u256 (percPoS * percPoS * percPoS)) in
    if gt new easydiff then Some easydiff
    else if lt new ave then
      new ← div (add (mul ave (u256 goalperc)) (mul easydiff (u256 percPoS))) (u256 (percPoS + goalperc));
      Some (if lt new ave then ave else new)
    else Some new
  else Some ave.

(** The target, [*percPoSp] and the changed fields. *)
Definition hush_PoWtarget (md : vstate) (x : extras) (target : limbs) (height goalperc : Z) : option (limbs * Z * extras) :=
  if (height <=? 10) || ((qe_STAKED Q =? 100) && (height <=? 100)) then Some (target, 0, x)
  else
    let easydiff := set_compact (qe_MIN_DIFF Q) in
    r ← stake_loop md x height (seq 0 100) 0 0 (of_u64 0);
    let '(n, m, sum, x) := (r : Z * Z * limbs * extras) in
    let percPoS := if m + n <? 100 then Z.quot (n * n + goalperc * (100 - n)) 100 else n in
    ave ← (if 0 <? m then a ← div sum (u256 m); Some (if gt a target then target else a) else Some target);
    new ← stake_target ave easydiff (if percPoS =? 0 then 1 else percPoS) goalperc;
    Some (new, percPoS, x).

End Query.

(** ** Coin supply *)

Section CoinSupply.
Context (Q : query_env).

(** What a block adds, computed from the block. *)
Definition computed (q : list Z) : Z * Z :=
  match qe_load Q q with Some vtx => let '(n, z) := hush_newcoins Q vtx in (n, default 0 z) | None => (0, 0) end.

(** The fields of each block are unset or what is computed from the block. *)
Definition consistent (x : extras) : Prop :=
  forall q, let e := get_extra x q in
  (x_newcoins e = 0 /\ x_zfunds e = 0) \/ (x_newcoins e, x_zfunds e) = computed q.

(** The reference: the sum over a block and its [n - 1] ancestors. *)
Fixpoint chain_total (n : nat) (q : list Z) : Z * Z :=
  match n with
  | O => (0, 0)
  | S n =>
    let '(s, z) := match b ← qe_tree Q !! q; bi_pprev b with Some q' => chain_total n q' | None => (0, 0) end in
    ((computed q).1 + s, (computed q).2 + z)
  end.

Lemma consistent_empty : consistent ∅.
Proof using Type. intros q. left. unfold get_extra. by rewrite lookup_empty. Qed.

Lemma consistent_insert x q e : consistent x -> (x_newcoins e, x_zfunds e) = computed q -> consistent (<[q := e]> x).
Proof using Type.
  intros Hx He q'. unfold get_extra. destruct (decide (q = q')) as [<-|Hne].
  - rewrite lookup_insert_eq. by right.
  - rewrite lookup_insert_ne by done. apply Hx.
Qed.

Context (Ht : wf_tree (qe_tree Q)) (Hload : forall q b, qe_tree Q !! q = Some b -> is_Some (qe_load Q q)).

Lemma supply_loop_spec n q b x s z :
  qe_tree Q !! q = Some b -> bi_height b = Z.of_nat n -> consistent x ->
  exists x', supply_loop Q n (Some q) x s z = Some (s + (chain_total n q).1, z + (chain_total n q).2, x') /\ consistent x'.
Proof using Ht Hload.
  revert q b x s z. induction n as [|n IH]; intros q b x s z Hq Hh Hx; cbn [supply_loop]; rewrite Hq; cbn [mbind option_bind]; rewrite Hh.
  { exists x. cbn [chain_total fst snd]. by rewrite !Z.add_0_r. }
  rewrite (proj2 (Z.ltb_lt 0 _)) by lia. destruct (Ht q b Hq) as [_ Hprev _].
  destruct (bi_pprev b) as [q'|] eqn:Ep; [|lia]. destruct Hprev as (b' & Hb' & Hhb).
  cbn [chain_total]. rewrite Hq. cbn [mbind option_bind]. rewrite Ep. destruct (chain_total n q') as [cs cz] eqn:Ec. cbn [fst snd].
  assert (Hnext : forall x1 s1 z1, consistent x1 -> exists x', supply_loop Q n (Some q') x1 s1 z1 = Some (s1 + cs, z1 + cz, x') /\ consistent x').
  { intros x1 s1 z1 Hx1. destruct (IH q' b' x1 s1 z1 Hb' ltac:(lia) Hx1) as (x' & E & Hx'). rewrite Ec in E. by exists x'. }
  specialize (Hx q) as Hxq. cbv zeta in Hxq. set (e := get_extra x q) in *.
  destruct ((x_newcoins e =? 0) && (x_zfunds e =? 0)) eqn:E0.
  - apply andb_prop in E0 as [E1%Z.eqb_eq E2%Z.eqb_eq]. destruct (Hload q b Hq) as [vtx Hv]. rewrite Hv.
    destruct (hush_newcoins Q vtx) as [nc zf] eqn:En. cbn [x_newcoins x_zfunds]. rewrite E2.
    assert (Hcomp : computed q = (nc, default 0 zf)) by (unfold computed; by rewrite Hv, En).
    destruct (Hnext (<[q := Extra nc (default 0 zf) (x_segid e)]> x) (s + nc) (z + default 0 zf)) as (x' & E & Hx'); [by apply consistent_insert|].
    exists x'. rewrite E, Hcomp. split; [|done]. cbn [fst snd]. do 3 f_equal; lia.
  - destruct Hxq as [[E1 E2]|Hcomp]; [rewrite E1, E2 in E0; done|].
    destruct (Hnext x (s + x_newcoins e) (z + x_zfunds e) Hx) as (x' & E & Hx'). exists x'. rewrite E, <- Hcomp. split; [|done].
    cbn [fst snd]. do 3 f_equal; lia.
Qed.
End CoinSupply.

(** The coin supply does not depend on what earlier queries left in the block
    index: from any consistent values of [newcoins] and [zfunds] the loop ends
    with the sum of the coins of all blocks from the given one down to height 1,
    each computed from its block, and leaves consistent values. *)
Theorem coinsupply_exact Q x height q b :
  wf_tree (qe_tree Q) -> (forall q b, qe_tree Q !! q = Some b -> is_Some (qe_load Q q)) -> consistent Q x ->
  hush_chainactive Q height = Some (Some q) -> qe_tree Q !! q = Some b ->
  exists x', hush_coinsupply Q x height =
    Some ((chain_total Q (Z.to_nat (bi_height b)) q).1, (chain_total Q (Z.to_nat (bi_height b)) q).2, x') /\ consistent Q x'.
Proof.
  intros Ht Hload Hx Hq Hb. unfold hush_coinsupply. rewrite Hq. cbn [mbind option_bind]. rewrite Hb. cbn [mbind option_bind].
  destruct (Ht q b Hb) as [H0 _ _].
  destruct (supply_loop_spec Q Ht Hload (Z.to_nat (bi_height b)) q b x 0 0 Hb ltac:(lia) Hx) as (x' & E & Hx').
  exists x'. split; [|done]. exact E.
Qed.

(** ** Targets *)

Lemma div_total a b : wf a -> wf b -> 0 < val b -> exists q, div a b = Some q /\ wf q /\ val q = val a / val b.
Proof.
  intros Ha Hb H. pose proof (div_spec a b Ha Hb) as Hd. destruct (div a b) as [q|]; [|lia]. destruct Hd as (_ & Wq & Vq). by exists q.
Qed.

Lemma mul_le a b : wf a -> wf b -> wf (mul a b) /\ 0 <= val (mul a b) <= val a * val b.
Proof.
  intros Ha Hb. destruct (mul_spec a b Ha Hb) as [W V]. split; [done|]. rewrite V.
  pose proof (wf_bounds a Ha). pose proof (wf_bounds b Hb). split; [apply Z.mod_pos_bound; lia|]. apply Z.mod_le; nia.
Qed.

Lemma add_le a b : wf a -> wf b -> wf (add a b) /\ 0 <= val (add a b) <= val a + val b.
Proof.
  intros Ha Hb. destruct (add_spec a b Ha Hb) as [W V]. split; [done|]. rewrite V.
  pose proof (wf_bounds a Ha). pose proof (wf_bounds b Hb). split; [apply Z.mod_pos_bound; lia|]. apply Z.mod_le; lia.
Qed.

(** Overflow or not, the target stays between the average and the easiest one. *)
Lemma stake_target_spec ave easy p g :
  wf ave -> wf easy -> 0 < p <= 100 -> 0 < g <= 100 ->
  exists r, stake_target ave easy p g = Some r /\ wf r /\ val r <= Z.max (val ave) (val easy).
Proof.
  intros Wa We Hp Hg. pose proof (wf_bounds ave Wa) as Ba. unfold stake_target.
  assert (Hp2 : 0 < p * p <= 10000) by nia. assert (Hg2 : 0 < g * g <= 10000) by nia.
  assert (Hp3 : 0 < p * p * p <= 1000000) by nia. assert (Hg3 : 0 < g * g * g <= 1000000) by nia.
  assert (Hg4 : 0 < g * g * g * g <= 100000000) by nia.
  destruct (Z.ltb_spec p g) as [Hlt|Hge].
  - destruct (u256_spec (g * g * g * g)) as [W1 V1]; [lia|]. destruct (u256_spec (p * p)) as [W2 V2]; [lia|].
    destruct (div_total ave _ Wa W1) as (q & -> & Wq & Vq); [lia|]. cbn [mbind option_bind].
    destruct (mul_le q _ Wq W2) as [Wm Bm]. eexists. split; [done|]. split; [done|].
    rewrite V1 in Vq. rewrite V2 in Bm. assert (val q * (p * p) <= val ave); [|lia].
    pose proof (Z.mul_div_le (val ave) (g * g * g * g) ltac:(lia)). rewrite <- Vq in *. pose proof (wf_bounds q Wq).
    assert (p * p <= g * g) by nia. assert (g * g <= g * g * g * g) by nia. nia.
  - destruct (Z.ltb_spec g p) as [Hlt|Heq]; [|eexists; split; [done|]; split; [done|lia]].
    destruct (u256_spec (g * g)) as [W1 V1]; [lia|]. destruct (u256_spec (p * p * p)) as [W2 V2]; [lia|].
    destruct (div_total ave _ Wa W1) as (q & -> & Wq & Vq); [lia|]. cbn [mbind option_bind].
    destruct (mul_le q _ Wq W2) as [Wm _]. set (new := mul q _) in *. clearbody new. rewrite (gt_spec new easy Wm We), (lt_spec new ave Wm Wa).
    destruct (Z.ltb_spec (val easy) (val new)); [eexists; split; [done|]; split; [done|lia]|].
    destruct (Z.ltb_spec (val new) (val ave)); [|eexists; split; [done|]; split; [done|lia]].
    destruct (u256_spec g) as [Wg Vg]; [lia|]. destruct (u256_spec p) as [Wp Vp]; [lia|]. destruct (u256_spec (p + g)) as [Ws Vs]; [lia|].
    destruct (mul_le ave _ Wa Wg) as [Wx Bx]. destruct (mul_le easy _ We Wp) as [Wy By]. destruct (add_le _ _ Wx Wy) as [Wz Bz].
    destruct (div_total _ _ Wz Ws) as (d & -> & Wd & Vd); [lia|]. cbn [mbind option_bind]. rewrite (lt_spec d ave Wd Wa).
    destruct (Z.ltb_spec (val d) (val ave)); [eexists; split; [done|]; split; [done|lia]|]. eexists. split; [done|]. split; [done|].
    rewrite Vd, Vs. apply Z.div_le_upper_bound; [lia|]. rewrite Vg in Bx. rewrite Vp in By.
    assert (val ave * g <= Z.max (val ave) (val easy) * g) by nia. assert (val easy * p <= Z.max (val ave) (val easy) * p) by nia. lia.
Qed.

Section Staking.
Context (Q : query_env) (md : vstate) (Hmd : length (vs_buf md) = 64%nat).
Context (Htip : forall p, LastTip Q = Some p -> is_Some (qe_tree Q !! p)).
Context (Hhash : forall h q, ch_at (qe_active Q) h = Some q -> bytes_ok q /\ length q = 32%nat).
Context (Haddr : forall q a, qe_stake Q q = Some a -> bytes_ok a).

Lemma chainactive_total h : exists p, hush_chainactive Q h = Some p /\ (forall q, p = Some q -> bytes_ok q /\ length q = 32%nat).
Proof using Htip Hhash.
  unfold hush_chainactive. destruct (LastTip Q) as [p|] eqn:E; [|by exists None].
  destruct (Htip p eq_refl) as [b Hb]. rewrite Hb. cbn [mbind option_bind]. eexists. split; [done|].
  intros q. destruct (h <=? bi_height b); [apply Hhash|done].
Qed.

Lemma segid_total x nocache h : exists s x', hush_segid Q md x nocache h = Some (s, x').
Proof using Hmd Htip Hhash Haddr.
  unfold hush_segid. destruct (0 <? h); [|by eexists _, _]. destruct (chainactive_total h) as (p & -> & _). cbn [mbind option_bind].
  destruct p as [q|]; [|by eexists _, _]. destruct (negb nocache && _); [by eexists _, _|].
  destruct (qe_load Q q); [|by eexists _, _]. destruct (qe_stake Q q) as [a|] eqn:Ea; [|by eexists _, _].
  unfold hush_segid32. rewrite Sha256.vcalc_sha256_eq by (done || by eapply Haddr). cbn [mbind option_bind]. by eexists _, _.
Qed.

Lemma stake_loop_total height idx x n m sum : wf sum -> 0 <= n -> 0 <= m ->
  exists n' m' sum' x', stake_loop Q md x height idx n m sum = Some (n', m', sum', x') /\
    n <= n' /\ m <= m' /\ n' + m' <= n + m + Zlen idx /\ wf sum'.
Proof using Hmd Htip Hhash Haddr.
  revert x n m sum. induction idx as [|i idx IH]; intros x n m sum Ws Hn Hm; cbn [stake_loop].
  { exists n, m, sum, x. split; [done|]. unfold Zlen. cbn. split; [lia|]. split; [lia|]. split; [lia|done]. }
  assert (Hlen : Zlen (i :: idx) = Zlen idx + 1) by (unfold Zlen; cbn; lia). rewrite Hlen.
  assert (Hskip : exists n' m' sum' x', stake_loop Q md x height idx n m sum = Some (n', m', sum', x') /\
    n <= n' /\ m <= m' /\ n' + m' <= n + m + (Zlen idx + 1) /\ wf sum').
  { destruct (IH x n m sum Ws Hn Hm) as (n' & m' & s' & x' & E & H1 & H2 & H3 & H4). exists n', m', s', x'. split; [done|]. split; [lia|]. split; [lia|]. split; [lia|done]. }
  destruct (_ <=? 1); [exact Hskip|]. destruct (chainactive_total (height - 100 + Z.of_nat i)) as (p & -> & Hp). cbn [mbind option_bind].
  destruct p as [q|]; [|exact Hskip]. destruct (Hp q eq_refl) as [Hb Hl]. destruct (segid_total x false (height - 100 + Z.of_nat i)) as (s & x1 & ->).
  cbn [mbind option_bind]. destruct (0 <=? s).
  - destruct (IH x1 (n + 1) m sum Ws ltac:(lia) Hm) as (n' & m' & s' & x' & E & H1 & H2 & H3 & H4).
    exists n', m', s', x'. split; [done|]. split; [lia|]. split; [lia|]. split; [lia|done].
  - destruct (UintToArith256_spec q Hb Hl) as (Wq & _). destruct (add_spec sum _ Ws Wq) as [Wa _].
    destruct (IH x1 n (m + 1) _ Wa Hn ltac:(lia)) as (n' & m' & s' & x' & E & H1 & H2 & H3 & H4).
    exists n', m', s', x'. split; [done|]. split; [lia|]. split; [lia|]. split; [lia|done].
Qed.

Lemma PoWtarget_bounded x target height g :
  wf target -> is_u 32 (qe_MIN_DIFF Q) -> 0 < g <= 100 ->
  exists r perc x', hush_PoWtarget Q md x target height g = Some (r, perc, x') /\ wf r /\ 0 <= perc <= 100 /\
    val r <= Z.max (val target) (val (set_compact (qe_MIN_DIFF Q))).
Proof using Hmd Htip Hhash Haddr.
  intros Wt Hd Hg. unfold hush_PoWtarget. destruct (_ || _).
  { eexists target, 0, x. split; [done|]. split; [done|]. split; lia. }
  pose proof (set_compact_wf _ Hd) as We. destruct (of_u64_spec 0) as [W0 _]; [lia|].
  destruct (stake_loop_total height (seq 0 100) x 0 0 (of_u64 0) W0) as (n & m & sum & x' & -> & Hn & Hm & Hnm & Ws); [lia..|].
  change (Zlen (seq 0 100)) with 100 in Hnm. cbn [mbind option_bind].
  set (perc := if m + n <? 100 then _ else _). assert (Hperc : 0 <= perc <= 100).
  { subst perc. destruct (m + n <? 100); [|lia]. rewrite Z.quot_div_nonneg by nia.
    split; [apply Z.div_pos; nia|]. apply Z.div_le_upper_bound; nia. }
  clearbody perc.
  assert (Have : exists ave, (if 0 <? m then a ← div sum (u256 m); Some (if gt a target then target else a) else Some target) = Some ave /\ wf ave /\ val ave <= val target).
  { destruct (Z.ltb_spec 0 m); [|by eexists]. destruct (u256_spec m) as [Wm Vm]; [lia|].
    destruct (div_total sum _ Ws Wm) as (a & -> & Wa & _); [lia|]. cbn [mbind option_bind]. eexists. split; [done|].
    rewrite gt_spec by done. destruct (Z.ltb_spec (val target) (val a)); split; done || lia. }
  destruct Have as (ave & -> & Wa & Ha). cbn [mbind option_bind].
  destruct (stake_target_spec ave _ (if perc =? 0 then 1 else perc) g Wa We) as (r & -> & Wr & Hr); [destruct (Z.eqb_spec perc 0); lia|lia|].
  cbn [mbind option_bind]. exists r, perc, x'. split; [done|]. split; [done|]. split; [lia|lia].
Qed.
End Staking.

Lemma adaptive_bounded Q height target nTime r :
  wf target -> val target <= val (set_compact HUSH_MINDIFF_NBITS) -> hush_adaptivepow_target Q height target nTime = Some r ->
  wf r /\ val target <= val r <= val (set_compact HUSH_MINDIFF_NBITS).
Proof.
  intros Wt Ht. assert (We : wf (set_compact HUSH_MINDIFF_NBITS)) by (apply (bool_decide_eq_true_1 _); vm_compute; reflexivity).
  set (easy := set_compact HUSH_MINDIFF_NBITS) in *. unfold hush_adaptivepow_target. fold easy. clearbody easy.
  assert (Hsame : Some target = Some r -> wf r /\ val target <= val r <= val easy) by (intros [= <-]; split; [done|lia]).
  destruct (10 <? height); [|exact Hsame]. destruct (hush_chainactive Q (height - 1)) as [[tip|]|]; cbn [mbind option_bind]; [|exact Hsame|done].
  destruct (i32 (13 * _)) as [t13|]; [|done]. cbn [mbind option_bind]. destruct (i32 (2 * _)) as [t2|]; [|done]. cbn [mbind option_bind].
  destruct (_ && _); [|exact Hsame]. destruct (i32 _) as [mult|]; [|done]. cbn [mbind option_bind]. destruct (quot _ _) as [k|]; [|done].
  cbn [mbind option_bind]. destruct (i64 _) as [m|]; [|done]. cbn [mbind option_bind]. destruct (i64 (m * m)) as [mm|]; [|done]. cbn [mbind option_bind].
  assert (W2 : wf (u256 mm)) by (apply of_u64_spec, u64_range). destruct (mul_spec target _ Wt W2) as [Wn _]. set (new := mul target _) in *.
  rewrite lt_spec, gt_spec by done. intros [= <-]. destruct (Z.ltb_spec (val new) (val target)), (Z.ltb_spec (val easy) (val new)); cbn [orb]; split; done || lia.
Qed.

(** The targets of the staking and adaptive rules stay in bounds although their
    256-bit products can wrap around: [hush_PoWtarget] always returns, a share
    between 0 and 100 percent and a target that exceeds neither the given one nor
    the easiest staking target, whichever is larger; [hush_adaptivepow_target]
    never makes a block harder and never easier than the minimum difficulty. *)
Theorem staking_targets_bounded Q md x target height g nTime :
  length (vs_buf md) = 64%nat -> (forall p, LastTip Q = Some p -> is_Some (qe_tree Q !! p)) ->
  (forall h q, ch_at (qe_active Q) h = Some q -> bytes_ok q /\ length q = 32%nat) ->
  (forall q a, qe_stake Q q = Some a -> bytes_ok a) ->
  wf target -> is_u 32 (qe_MIN_DIFF Q) -> 0 < g <= 100 ->
  (exists r perc x', hush_PoWtarget Q md x target height g = Some (r, perc, x') /\ wf r /\ 0 <= perc <= 100 /\
     val r <= Z.max (val target) (val (set_compact (qe_MIN_DIFF Q)))) /\
  (val target <= val (set_compact HUSH_MINDIFF_NBITS) -> forall r, hush_adaptivepow_target Q height target nTime = Some r ->
     wf r /\ val target <= val r <= val (set_compact HUSH_MINDIFF_NBITS)).
Proof.
  intros H1 H2 H3 H4 Wt Hd Hg. split; [by apply PoWtarget_bounded|]. intros Ht r. by apply adaptive_bounded.
Qed.

(** ** Examples *)

(** The chain of four blocks; each mints 7 and shields 2. *)
Definition demo_Q : query_env :=
  QueryEnv demo_tree (Chain [Some [1]; Some [2]; Some [3]; Some [4]] (Some [4])) (fun _ => 0) (fun _ => 0)
    (fun _ => Some [QTx [] [(10, [0x51]); (0, [0x6a])] 0; QTx [(Some [5], 0%nat)] [(2, [0x51])] (-2)])
    (fun _ => []) (fun _ => true) (fun _ => None) 4 60 0 0x200f0f0f.

Lemma coinsupply_exact_witness :
  exists x', hush_coinsupply demo_Q ∅ 3 = Some (21, 6, x') /\ consistent demo_Q x'.
Proof.
  destruct (demo_tree !! [4]) as [b|] eqn:E; [|vm_compute in E; discriminate].
  assert (Hb : bi_height b = 3) by (assert (E' : bi_height <$> demo_tree !! [4] = Some 3) by (vm_compute; reflexivity);
    rewrite E in E'; by injection E').
  destruct (coinsupply_exact demo_Q ∅ 3 [4] b demo_tree_wf) as (x' & Hx & Hc);
    [intros q b' _; by eexists|apply consistent_empty|vm_compute; reflexivity|exact E|].
  exists x'. split; [|done]. rewrite Hx, Hb. vm_compute. reflexivity.
Defined.

Definition stake_Q : query_env :=
  let block h p := BIndex p None h (of_u64 1) in
  let hash k := replicate 32 k in
  QueryEnv (<[hash 3 := block 2 (Some (hash 2))]> (<[hash 2 := block 1 (Some (hash 1))]> (<[hash 1 := block 0 None]> ∅)))
    (Chain [Some (hash 1); Some (hash 2); Some (hash 3)] (Some (hash 3))) (fun _ => 0) (fun _ => 0)
    (fun _ => None) (fun _ => []) (fun _ => true) (fun _ => None) 4 60 50 0x200f0f0f.
Definition stake_md : vstate := VState 0 [] 0 (replicate 64 0).

Lemma staking_targets_bounded_witness :
  exists r perc x', hush_PoWtarget stake_Q stake_md ∅ (of_u64 1000) 102 50 = Some (r, perc, x') /\ wf r /\ 0 <= perc <= 100 /\
     val r <= Z.max 1000 (val (set_compact 0x200f0f0f)).
Proof.
  refine (proj1 (staking_targets_bounded stake_Q stake_md ∅ (of_u64 1000) 102 50 0 eq_refl _ _ _ _ _ _)).
  - intros p [= <-]. eexists. vm_compute. reflexivity.
  - intros h q. unfold ch_at. cbn [qe_active stake_Q vChain]. destruct (_ || _); [done|].
    destruct (Z.to_nat h) as [|[|[|[|]]]]; intros [= <-]; (split; [apply (bool_decide_eq_true_1 _); vm_compute; reflexivity|reflexivity]).
  - done.
  - apply (bool_decide_eq_true_1 _); vm_compute; reflexivity.
  - unfold is_u; cbn; lia.
  - lia.
Defined.

(** The cache of [hush_segids] answers for height 0 before anything is computed. *)
Theorem segids_stale_at_zero Q md x :
  hush_segids Q md (SegidCache (replicate 100 0) 0) x 0 100 = Some (replicate 100 0, SegidCache (replicate 100 0) 0, x) /\
  segid_loop Q md x 0 1 = Some ([255], x).
Proof. by split. Qed.
