(* ===== verification/CSha256.v ===== *)
(** * [CSHA256] of src/src/crypto/sha256.cpp

    The node's own SHA-256: the compression function keeps the message schedule
    in sixteen variables that are updated in place, and the class buffers its
    input.  [Transform] is translated round by round and proved equal to the
    compression function of FIPS 180-4 ([Sha256.Fips]); [Write], [Finalize] and
    [FinalizeNoPadding] then compute the standard's digest however the input is
    cut.  A [uint32_t] argument is reduced on entry. *)
From S2P Require Import Prelude HashStream Sha256.
Local Open Scope Z_scope.

Module CSha.

Definition Ch (x y z : Z) : Z := Z.lxor z (Z.land x (Z.lxor y z)).
Definition Maj (x y z : Z) : Z := Z.lor (Z.land x y) (Z.land z (Z.lor x y)).
Definition shr32 (x n : Z) : Z := Z.shiftr (u32 x) n.
Definition shl32 (x n : Z) : Z := u32 (Z.shiftl (u32 x) n).
Definition Sigma0 (x : Z) : Z :=
  Z.lxor (Z.lxor (Z.lor (shr32 x 2) (shl32 x 30)) (Z.lor (shr32 x 13) (shl32 x 19)))
         (Z.lor (shr32 x 22) (shl32 x 10)).
Definition Sigma1 (x : Z) : Z :=
  Z.lxor (Z.lxor (Z.lor (shr32 x 6) (shl32 x 26)) (Z.lor (shr32 x 11) (shl32 x 21)))
         (Z.lor (shr32 x 25) (shl32 x 7)).
Definition sigma0 (x : Z) : Z :=
  Z.lxor (Z.lxor (Z.lor (shr32 x 7) (shl32 x 25)) (Z.lor (shr32 x 18) (shl32 x 14))) (shr32 x 3).
Definition sigma1 (x : Z) : Z :=
  Z.lxor (Z.lxor (Z.lor (shr32 x 17) (shl32 x 15)) (Z.lor (shr32 x 19) (shl32 x 13))) (shr32 x 10).

(** The last argument of a call of [Round]: [w_i = ReadBE32(chunk + off)],
    [w_i += sigma1(w_j) + w_k + sigma0(w_l)], or the sum without assignment. *)
Inductive warg :=
| WLoad (i off : nat)
| WAdd (i j k l : nat)
| WSum (i j k l : nat).

(** A call of [Round]; the first eight numbers name the variables a to h. *)
Inductive line := Line (a b c d e f g h : nat) (k : Z) (w : warg).

Definition ReadBE32 (ptr : list Z) : Z := be_num (take 4 ptr).
Definition WriteBE32 (x : Z) : list Z := be_bytes 4 x.
Definition WriteBE64 (x : Z) : list Z := be_bytes 8 x.

(** Value of the last argument, and the variables [w0 .. w15] after it. *)
Definition eval_warg (chunk w : list Z) (a : warg) : Z * list Z :=
  match a with
  | WLoad i off => let v := ReadBE32 (drop off chunk) in (v, <[i := v]> w)
  | WAdd i j k l =>
    let v := u32 (rd w i + u32 (sigma1 (rd w j) + rd w k + sigma0 (rd w l))) in (v, <[i := v]> w)
  | WSum i j k l => (u32 (rd w i + sigma1 (rd w j) + rd w k + sigma0 (rd w l)), w)
  end.

Definition Round (S : list Z) (a b c d e f g h : nat) (k w : Z) : list Z :=
  let t1 := u32 (rd S h + Sigma1 (rd S e) + Ch (rd S e) (rd S f) (rd S g) + k + w) in
  let t2 := u32 (Sigma0 (rd S a) + Maj (rd S a) (rd S b) (rd S c)) in
  let S := <[d := u32 (rd S d + t1)]> S in
  <[h := u32 (t1 + t2)]> S.

Definition run_line (chunk : list Z) (st : list Z * list Z) (l : line) : list Z * list Z :=
  let '(s, w) := st in
  let '(Line a b c d e f g h k arg) := l in
  let '(v, w) := eval_warg chunk w arg in
  (Round s a b c d e f g h k v, w).

Definition Round_lines : list line :=
  [Line 0 1 2 3 4 5 6 7 0x428a2f98 (WLoad 0 0);
   Line 7 0 1 2 3 4 5 6 0x71374491 (WLoad 1 4);
   Line 6 7 0 1 2 3 4 5 0xb5c0fbcf (WLoad 2 8);
   Line 5 6 7 0 1 2 3 4 0xe9b5dba5 (WLoad 3 12);
   Line 4 5 6 7 0 1 2 3 0x3956c25b (WLoad 4 16);
   Line 3 4 5 6 7 0 1 2 0x59f111f1 (WLoad 5 20);
   Line 2 3 4 5 6 7 0 1 0x923f82a4 (WLoad 6 24);
   Line 1 2 3 4 5 6 7 0 0xab1c5ed5 (WLoad 7 28);
   Line 0 1 2 3 4 5 6 7 0xd807aa98 (WLoad 8 32);
   Line 7 0 1 2 3 4 5 6 0x12835b01 (WLoad 9 36);
   Line 6 7 0 1 2 3 4 5 0x243185be (WLoad 10 40);
   Line 5 6 7 0 1 2 3 4 0x550c7dc3 (WLoad 11 44);
   Line 4 5 6 7 0 1 2 3 0x72be5d74 (WLoad 12 48);
   Line 3 4 5 6 7 0 1 2 0x80deb1fe (WLoad 13 52);
   Line 2 3 4 5 6 7 0 1 0x9bdc06a7 (WLoad 14 56);
   Line 1 2 3 4 5 6 7 0 0xc19bf174 (WLoad 15 60);
   Line 0 1 2 3 4 5 6 7 0xe49b69c1 (WAdd 0 14 9 1);
   Line 7 0 1 2 3 4 5 6 0xefbe4786 (WAdd 1 15 10 2);
   Line 6 7 0 1 2 3 4 5 0x0fc19dc6 (WAdd 2 0 11 3);
   Line 5 6 7 0 1 2 3 4 0x240ca1cc (WAdd 3 1 12 4);
   Line 4 5 6 7 0 1 2 3 0x2de92c6f (WAdd 4 2 13 5);
   Line 3 4 5 6 7 0 1 2 0x4a7484aa (WAdd 5 3 14 6);
   Line 2 3 4 5 6 7 0 1 0x5cb0a9dc (WAdd 6 4 15 7);
   Line 1 2 3 4 5 6 7 0 0x76f988da (WAdd 7 5 0 8);
   Line 0 1 2 3 4 5 6 7 0x983e5152 (WAdd 8 6 1 9);
   Line 7 0 1 2 3 4 5 6 0xa831c66d (WAdd 9 7 2 10);
   Line 6 7 0 1 2 3 4 5 0xb00327c8 (WAdd 10 8 3 11);
   Line 5 6 7 0 1 2 3 4 0xbf597fc7 (WAdd 11 9 4 12);
   Line 4 5 6 7 0 1 2 3 0xc6e00bf3 (WAdd 12 10 5 13);
   Line 3 4 5 6 7 0 1 2 0xd5a79147 (WAdd 13 11 6 14);
   Line 2 3 4 5 6 7 0 1 0x06ca6351 (WAdd 14 12 7 15);
   Line 1 2 3 4 5 6 7 0 0x14292967 (WAdd 15 13 8 0);
   Line 0 1 2 3 4 5 6 7 0x27b70a85 (WAdd 0 14 9 1);
   Line 7 0 1 2 3 4 5 6 0x2e1b2138 (WAdd 1 15 10 2);
   Line 6 7 0 1 2 3 4 5 0x4d2c6dfc (WAdd 2 0 11 3);
   Line 5 6 7 0 1 2 3 4 0x53380d13 (WAdd 3 1 12 4);
   Line 4 5 6 7 0 1 2 3 0x650a7354 (WAdd 4 2 13 5);
   Line 3 4 5 6 7 0 1 2 0x766a0abb (WAdd 5 3 14 6);
   Line 2 3 4 5 6 7 0 1 0x81c2c92e (WAdd 6 4 15 7);
   Line 1 2 3 4 5 6 7 0 0x92722c85 (WAdd 7 5 0 8);
   Line 0 1 2 3 4 5 6 7 0xa2bfe8a1 (WAdd 8 6 1 9);
   Line 7 0 1 2 3 4 5 6 0xa81a664b (WAdd 9 7 2 10);
   Line 6 7 0 1 2 3 4 5 0xc24b8b70 (WAdd 10 8 3 11);
   Line 5 6 7 0 1 2 3 4 0xc76c51a3 (WAdd 11 9 4 12);
   Line 4 5 6 7 0 1 2 3 0xd192e819 (WAdd 12 10 5 13);
   Line 3 4 5 6 7 0 1 2 0xd6990624 (WAdd 13 11 6 14);
   Line 2 3 4 5 6 7 0 1 0xf40e3585 (WAdd 14 12 7 15);
   Line 1 2 3 4 5 6 7 0 0x106aa070 (WAdd 15 13 8 0);
   Line 0 1 2 3 4 5 6 7 0x19a4c116 (WAdd 0 14 9 1);
   Line 7 0 1 2 3 4 5 6 0x1e376c08 (WAdd 1 15 10 2);
   Line 6 7 0 1 2 3 4 5 0x2748774c (WAdd 2 0 11 3);
   Line 5 6 7 0 1 2 3 4 0x34b0bcb5 (WAdd 3 1 12 4);
   Line 4 5 6 7 0 1 2 3 0x391c0cb3 (WAdd 4 2 13 5);
   Line 3 4 5 6 7 0 1 2 0x4ed8aa4a (WAdd 5 3 14 6);
   Line 2 3 4 5 6 7 0 1 0x5b9cca4f (WAdd 6 4 15 7);
   Line 1 2 3 4 5 6 7 0 0x682e6ff3 (WAdd 7 5 0 8);
   Line 0 1 2 3 4 5 6 7 0x748f82ee (WAdd 8 6 1 9);
   Line 7 0 1 2 3 4 5 6 0x78a5636f (WAdd 9 7 2 10);
   Line 6 7 0 1 2 3 4 5 0x84c87814 (WAdd 10 8 3 11);
   Line 5 6 7 0 1 2 3 4 0x8cc70208 (WAdd 11 9 4 12);
   Line 4 5 6 7 0 1 2 3 0x90befffa (WAdd 12 10 5 13);
   Line 3 4 5 6 7 0 1 2 0xa4506ceb (WAdd 13 11 6 14);
   Line 2 3 4 5 6 7 0 1 0xbef9a3f7 (WSum 14 12 7 15);
   Line 1 2 3 4 5 6 7 0 0xc67178f2 (WSum 15 13 8 0)].

Definition Initialize : list Z :=
  [0x6a09e667; 0xbb67ae85; 0x3c6ef372; 0xa54ff53a;
   0x510e527f; 0x9b05688c; 0x1f83d9ab; 0x5be0cd19].

(** The body of the loop of [Transform]; [w] is the uninitialised schedule. *)
Definition transform_block (w s chunk : list Z) : list Z :=
  zip_with (fun x y => u32 (x + y)) s (foldl (run_line chunk) (s, w) Round_lines).1.

Definition w_init : list Z := replicate 16 0.

(** [Transform(s, chunk, blocks)]. *)
Fixpoint Transform (s chunk : list Z) (blocks : nat) : list Z :=
  match blocks with
  | O => s
  | S blocks => Transform (transform_block w_init s chunk) (drop 64 chunk) blocks
  end.

(** ** The class *)

Record csha := Csha {
  c_s : list Z;        (* uint32_t s[8] *)
  c_buf : list Z;      (* unsigned char buf[64] *)
  c_bytes : Z          (* size_t bytes *)
}.

(** The constructor leaves [buf] as it is. *)
Definition CSHA256_new (buf : list Z) : csha := Csha Initialize buf 0.
Definition Reset (c : csha) : csha := Csha Initialize (c_buf c) 0.

(** [Write(data, len)], in its three steps: complete a started block, hash the
    whole blocks of the data in place, keep the rest.  Each step returns the
    object, the buffer fill and the data that is left. *)
Definition write_fill (c : csha) (data : list Z) : csha * nat * list Z :=
  let bufsize := Z.to_nat (c_bytes c mod 64) in
  if negb (bufsize =? 0)%nat && (64 <=? u64 (Z.of_nat bufsize + Zlen data)) then
    let n := (64 - bufsize)%nat in
    let buf := memcpy_at (c_buf c) bufsize (take n data) in
    (Csha (Transform (c_s c) buf 1) buf (u64 (c_bytes c + Z.of_nat n)), O, drop n data)
  else (c, bufsize, data).

Definition write_blocks (c : csha) (data : list Z) : csha * list Z :=
  if (64 <=? length data)%nat then
    let blocks := (length data / 64)%nat in
    (Csha (Transform (c_s c) data blocks) (c_buf c) (u64 (c_bytes c + 64 * Z.of_nat blocks)),
     drop (64 * blocks) data)
  else (c, data).

Definition write_rest (c : csha) (bufsize : nat) (data : list Z) : csha :=
  if (0 <? length data)%nat then
    Csha (c_s c) (memcpy_at (c_buf c) bufsize data) (u64 (c_bytes c + Zlen data))
  else c.

Definition Write (c : csha) (data : list Z) : csha :=
  let '(c, bufsize, data) := write_fill c data in
  let '(c, data) := write_blocks c data in
  write_rest c bufsize data.

(** [None]: the exception on a message that is not one block. *)
Definition FinalizeNoPadding (c : csha) (enforce_compression : bool) : option (list Z) :=
  if enforce_compression && negb (c_bytes c =? 64) then None
  else Some (concat (map WriteBE32 (c_s c))).

Definition pad_array : list Z := 128 :: replicate 63 0.

Definition Finalize (c : csha) : csha * option (list Z) :=
  let sizedesc := WriteBE64 (u64 (Z.shiftl (c_bytes c) 3)) in
  let c := Write c (take (1 + Z.to_nat ((119 - c_bytes c mod 64) mod 64)) pad_array) in
  let c := Write c sizedesc in
  (c, FinalizeNoPadding c false).

(** [SelfTest(tr)]: the transformation on nothing, on the padded empty string
    and on 64 spaces. *)
Definition selftest_in1 : list Z := 128 :: replicate 63 0.
Definition selftest_in2 : list Z := replicate 64 32 ++ [128] ++ replicate 61 0 ++ [2; 0].
Definition selftest_out1 : list Z :=
  [0xe3b0c442; 0x98fc1c14; 0x9afbf4c8; 0x996fb924; 0x27ae41e4; 0x649b934c; 0xa495991b; 0x7852b855].
Definition selftest_out2 : list Z :=
  [0xce4153b0; 0x147c2a86; 0x3ed4298e; 0xe0676bc8; 0x79fc77a1; 0x2abe1f49; 0xb2b055df; 0x1069523e].
Definition SelfTest (tr : list Z -> list Z -> nat -> list Z) : bool :=
  if negb (bool_decide (tr Initialize [] O = Initialize)) then false
  else if negb (bool_decide (tr (tr Initialize [] O) selftest_in1 1%nat = selftest_out1)) then false
  else bool_decide (tr Initialize selftest_in2 2%nat = selftest_out2).

Example selftest_passes : SelfTest Transform = true.
Proof. vm_compute. reflexivity. Qed.

(** ** The code computes the standard *)

Lemma Ch_sha x y z : Ch x y z = Sha256.Ch x y z.
Proof. reflexivity. Qed.

Lemma Maj_sha x y z : Maj x y z = Sha256.Maj x y z.
Proof. unfold Maj, Sha256.Maj. zbits. Qed.

Lemma Sigma0_sha x : Sigma0 x = Sha256.Sigma0 x.
Proof. rewrite Sha256.Sigma0_fips. reflexivity. Qed.

Lemma Sigma1_sha x : Sigma1 x = Sha256.Sigma1 x.
Proof. rewrite Sha256.Sigma1_fips. reflexivity. Qed.

Lemma sigma0_fips x : sigma0 x = Sha256.Fips.sig0 x.
Proof. reflexivity. Qed.

Lemma sigma1_fips x : sigma1 x = Sha256.Fips.sig1 x.
Proof. reflexivity. Qed.

(** A call of [Round] is the round of hush_utils.h. *)
Lemma Round_RND W S a b c d e f g h t k :
  Round S a b c d e f g h k (rd W t) = Sha256.RND W S (Sha256.Rnd a b c d e f g h t k).
Proof. unfold Round, Sha256.RND. by rewrite Sigma0_sha, Sigma1_sha, Maj_sha, Ch_sha. Qed.

(** The lines follow one pattern. *)
Definition warg_at (t : nat) : warg :=
  if (t <? 16)%nat then WLoad t (4 * t)
  else (if (t <? 62)%nat then WAdd else WSum)
         (t mod 16)%nat ((t + 14) mod 16)%nat ((t + 9) mod 16)%nat ((t + 1) mod 16)%nat.
Definition line_at (t : nat) : line :=
  let '(Sha256.Rnd a b c d e f g h _ k) := Sha256.canon t in Line a b c d e f g h k (warg_at t).

Lemma Round_lines_pattern : Round_lines = map line_at (seq 0 64).
Proof. reflexivity. Qed.

(** *** The schedule in sixteen cells *)

Definition sched_next (W : list Z) (t : nat) : Z :=
  u32 (Sha256.Fips.sig1 (rd W (t - 2)) + rd W (t - 7) + Sha256.Fips.sig0 (rd W (t - 15)) + rd W (t - 16)).

Lemma sched_fold n W :
  (16 <= length W)%nat ->
  let W' := foldl (fun W t => W ++ [sched_next W t]) W (seq (length W) n) in
  length W' = (length W + n)%nat /\
  (forall i, (i < length W)%nat -> rd W' i = rd W i) /\
  (forall t, (length W <= t < length W + n)%nat -> rd W' t = sched_next W' t).
Proof.
  revert W. induction n as [| n IH]; intros W HW; cbn [seq foldl]; cbv zeta.
  { split; [lia |]. split; [done | lia]. }
  destruct (IH (W ++ [sched_next W (length W)])) as (Hl & Hlo & Hhi).
  { rewrite length_app. lia. }
  revert Hl Hlo Hhi. rewrite length_app. cbn [length]. rewrite Nat.add_1_r.
  generalize (foldl (fun W t => W ++ [sched_next W t]) (W ++ [sched_next W (length W)]) (seq (S (length W)) n)).
  intros W' Hl Hlo Hhi.
  assert (forall i, (i < length W)%nat -> rd W' i = rd W i) as Hlo'.
  { intros i Hi. rewrite Hlo by lia. by apply rd_app_l. }
  split; [lia |]. split; [done |]. intros t Ht.
  destruct (decide (t = length W)) as [-> | Hne]; [| apply Hhi; lia].
  rewrite Hlo by lia. unfold rd at 1. rewrite app_nth2, Nat.sub_diag by lia. cbn [nth].
  unfold sched_next. by rewrite !Hlo' by lia.
Qed.

Lemma schedule_spec M :
  length M = 64%nat ->
  (forall t, (t < 16)%nat -> rd (Sha256.Fips.schedule M) t = ReadBE32 (drop (4 * t) M)) /\
  (forall t, (16 <= t < 64)%nat -> rd (Sha256.Fips.schedule M) t = sched_next (Sha256.Fips.schedule M) t).
Proof.
  intros HM. unfold Sha256.Fips.schedule.
  set (W0 := map _ (seq 0 16)). assert (length W0 = 16%nat) as H0 by done.
  destruct (sched_fold 48 W0) as (_ & Hlo & Hhi); [lia |]. rewrite H0 in *. split; [| exact Hhi].
  intros t Ht. etransitivity; [apply Hlo; lia |]. unfold W0.
  do 16 (destruct t as [| t]; [reflexivity |]). lia.
Qed.

(** Before round [t] the cells hold the last sixteen schedule words; the last
    two words are not stored. *)
Definition cells (W w : list Z) (t : nat) : Prop :=
  length w = 16%nat /\ forall i, (i < t)%nat -> (t <= i + 16)%nat -> (i < 62)%nat -> rd w (i mod 16) = rd W i.

Lemma cells_write W w t :
  cells W w t -> cells W (<[(t mod 16)%nat := rd W t]> w) (S t).
Proof.
  intros [Hl Hc]. pose proof (Nat.mod_upper_bound t 16 ltac:(lia)).
  split; [by rewrite length_insert |]. intros i Hi Hi' Hi2.
  destruct (decide (i = t)) as [-> | Hne].
  - apply rd_lookup, list_lookup_insert_eq. lia.
  - unfold rd. rewrite !nth_lookup, list_lookup_insert_ne.
    + rewrite <-!nth_lookup. apply Hc; lia.
    + intros E. pose proof (Nat.div_mod_eq i 16). pose proof (Nat.div_mod_eq t 16). lia.
Qed.

Lemma cells_back W w t k :
  cells W w t -> (16 <= t)%nat -> (k < 16)%nat -> (t + k < 78)%nat ->
  rd w ((t + k) mod 16) = rd W (t + k - 16).
Proof.
  intros [_ Hc] Ht Hk Hk2. rewrite <-(Hc (t + k - 16)%nat) by lia. f_equal.
  replace (t + k)%nat with (t + k - 16 + 1 * 16)%nat at 1 by lia. apply Nat.Div0.mod_add.
Qed.

(** The last argument of line [t] is schedule word [t], and the cells move on
    as far as later lines read them. *)
Lemma eval_warg_at chunk w t :
  length chunk = 64%nat -> (t < 64)%nat -> cells (Sha256.Fips.schedule chunk) w t ->
  (eval_warg chunk w (warg_at t)).1 = rd (Sha256.Fips.schedule chunk) t /\
  cells (Sha256.Fips.schedule chunk) (eval_warg chunk w (warg_at t)).2 (S t).
Proof.
  intros Hl Ht Hc. destruct (schedule_spec chunk Hl) as [Hlo Hhi]. unfold warg_at.
  destruct (Nat.ltb_spec t 16) as [H16 | H16].
  - cbn [eval_warg fst snd]. rewrite <-Hlo by done. split; [done |].
    rewrite <-(Nat.mod_small t 16) at 1 by done. by apply cells_write.
  - assert (u32 (rd w (t mod 16) + u32 (sigma1 (rd w ((t + 14) mod 16)) + rd w ((t + 9) mod 16) +
              sigma0 (rd w ((t + 1) mod 16)))) = rd (Sha256.Fips.schedule chunk) t) as E.
    { rewrite Hhi by lia. unfold sched_next. rewrite sigma1_fips, sigma0_fips, u32_add_r.
      replace (t mod 16)%nat with ((t + 0) mod 16)%nat by (f_equal; lia).
      rewrite !(cells_back _ _ _ _ Hc) by lia. f_equal.
      replace (t + 14 - 16)%nat with (t - 2)%nat by lia. replace (t + 9 - 16)%nat with (t - 7)%nat by lia.
      replace (t + 1 - 16)%nat with (t - 15)%nat by lia. replace (t + 0 - 16)%nat with (t - 16)%nat by lia.
      lia. }
    destruct (Nat.ltb_spec t 62) as [H62 | H62]; cbn [eval_warg fst snd].
    + rewrite E. split; [done |]. by apply cells_write.
    + split; [rewrite <-E, u32_add_r; f_equal; lia |].
      destruct Hc as [Hw Hc]. split; [done |]. intros i Hi Hi' Hi2. apply Hc; lia.
Qed.

Lemma run_line_at chunk A w t :
  length chunk = 64%nat -> (t < 64)%nat -> cells (Sha256.Fips.schedule chunk) w t ->
  exists w', run_line chunk (A, w) (line_at t) =
    (Sha256.RND (Sha256.Fips.schedule chunk) A (Sha256.canon t), w') /\
    cells (Sha256.Fips.schedule chunk) w' (S t).
Proof.
  intros Hl Ht Hc. destruct (eval_warg_at chunk w t Hl Ht Hc) as [E Hc'].
  unfold run_line, line_at, Sha256.canon.
  destruct (eval_warg chunk w (warg_at t)) as [v w'] eqn:Ew. cbn [fst snd] in *.
  exists w'. split; [| done]. rewrite E. f_equal. apply Round_RND.
Qed.

Lemma run_lines_at chunk n t A w :
  length chunk = 64%nat -> (t + n <= 64)%nat -> cells (Sha256.Fips.schedule chunk) w t ->
  (foldl (run_line chunk) (A, w) (map line_at (seq t n))).1 =
  foldl (Sha256.RND (Sha256.Fips.schedule chunk)) A (map Sha256.canon (seq t n)).
Proof.
  intros Hl. revert t A w. induction n as [| n IH]; intros t A w Ht Hc; [done |].
  destruct (run_line_at chunk A w t Hl ltac:(lia) Hc) as (w' & E & Hc').
  cbn [seq map foldl]. rewrite E. apply IH; [lia | done].
Qed.

(** The compression function is the standard's, whatever the schedule variables
    held before. *)
Lemma transform_block_fips w s chunk :
  length w = 16%nat -> length s = 8%nat -> bytes_ok chunk -> length chunk = 64%nat ->
  transform_block w s chunk = Sha256.Fips.compress s chunk.
Proof.
  intros Hw Hs Hb Hl. rewrite <-Sha256.sha256_vcompress_fips by done.
  unfold transform_block, Sha256.sha256_vcompress.
  rewrite Sha256.fill_W_fips, Round_lines_pattern, Sha256.RND_lines_canon, run_lines_at by
    (done || (split; [done | lia])). done.
Qed.

Lemma transform_block_ok s blk :
  length s = 8%nat -> bytes_ok blk -> length blk = 64%nat ->
  transform_block w_init s blk = Sha256.Fips.compress s blk /\
  length (transform_block w_init s blk) = 8%nat.
Proof.
  intros. rewrite transform_block_fips by done. split; [done |].
  rewrite <-Sha256.sha256_vcompress_fips by done. by apply Sha256.sha256_vcompress_ok.
Qed.

(** A block looks at the first 64 bytes only. *)
Definition line_in_block (l : line) : bool :=
  let '(Line _ _ _ _ _ _ _ _ _ w) := l in
  match w with WLoad _ off => (off + 4 <=? 64)%nat | _ => true end.

Lemma run_line_take chunk st l :
  line_in_block l = true -> run_line (take 64 chunk) st l = run_line chunk st l.
Proof.
  destruct st as [A w], l as [a b c d e f g h k [i off | |]]; [| done | done].
  intros H%Nat.leb_le. cbn [run_line eval_warg]. unfold ReadBE32.
  by rewrite !firstn_skipn_comm, firstn_firstn, Nat.min_l by lia.
Qed.

Lemma transform_block_take w s chunk :
  transform_block w s (take 64 chunk) = transform_block w s chunk.
Proof.
  unfold transform_block. do 2 f_equal.
  assert (Forall (fun l => line_in_block l = true) Round_lines) as H.
  { apply List.Forall_forall, List.forallb_forall. reflexivity. }
  generalize (s, w). induction H as [| l ls Hl _ IH]; intros st; [done |].
  cbn [foldl]. by rewrite run_line_take, IH.
Qed.

Lemma Transform_absorb s chunk blocks :
  Transform s chunk blocks = absorb (transform_block w_init) blocks s chunk.
Proof.
  revert s chunk. induction blocks as [| n IH]; intros s chunk; [done |].
  cbn [Transform absorb]. by rewrite IH, transform_block_take.
Qed.

(** ** The buffered object *)

(** The object [c] stands for the message [msg]. *)
Record stands (msg : list Z) (c : csha) : Prop := {
  st_bytes : c_bytes c = u64 (Zlen msg);
  st_s : c_s c = absorb (transform_block w_init) (length msg / 64) Initialize msg;
  st_buf : take (length msg mod 64) (c_buf c) = drop (64 * (length msg / 64)) msg;
  st_buf_length : length (c_buf c) = 64%nat
}.

Lemma mod64_u64 (l : list Z) : Z.to_nat (u64 (Zlen l) mod 64) = (length l mod 64)%nat.
Proof.
  unfold Zlen. generalize (length l). intros n.
  unfold u64. change (2 ^ 64) with (64 * 2 ^ 58). rewrite Z.rem_mul_r by lia.
  rewrite (Z.mul_comm 64), Z.mod_add by lia. rewrite Z.mod_mod by lia.
  change 64 with (Z.of_nat 64). by rewrite <-Nat2Z.inj_mod, Nat2Z.id.
Qed.

Lemma bytes_add (msg : list Z) (n : nat) data :
  length data = n -> u64 (u64 (Zlen msg) + Z.of_nat n) = u64 (Zlen (msg ++ data)).
Proof. intros <-. by rewrite u64_add_l, Zlen_app. Qed.

(** Appending to a message whose length is a multiple of 64. *)
Lemma stands_blocks msg c data blocks :
  stands msg c -> (length msg mod 64 = 0)%nat -> length data = (64 * blocks)%nat ->
  stands (msg ++ data)
    (Csha (Transform (c_s c) data blocks) (c_buf c) (u64 (c_bytes c + 64 * Z.of_nat blocks))).
Proof.
  intros R H0 Hd. pose proof (Nat.div_mod_eq (length msg) 64) as Hm.
  assert (length (msg ++ data) / 64 = length msg / 64 + blocks)%nat as Hq.
  { rewrite length_app, Hd, Nat.mul_comm, Nat.div_add; lia. }
  assert (length (msg ++ data) mod 64 = 0)%nat as Hr.
  { rewrite length_app, Hd, Nat.mul_comm, Nat.Div0.mod_add; lia. }
  split; cbn [c_bytes c_s c_buf]; rewrite ?Hr, ?Hq.
  - rewrite (st_bytes _ _ R), <-(bytes_add msg (64 * blocks)) by done. f_equal. lia.
  - rewrite Transform_absorb, absorb_add, (st_s _ _ R), absorb_app by lia.
    by rewrite drop_app_length' by lia.
  - rewrite drop_ge; [done |]. rewrite length_app. lia.
  - apply R.
Qed.

Lemma absorb_take f n st (msg : list Z) :
  (64 * n <= length msg)%nat -> absorb f n st (take (64 * n) msg) = absorb f n st msg.
Proof.
  intros H. rewrite <-(take_drop (64 * n) msg) at 2.
  rewrite absorb_app; [done |]. rewrite length_take. lia.
Qed.

(** Completing a started block. *)
Lemma stands_fill msg c data :
  stands msg c -> (length msg mod 64 + length data = 64)%nat ->
  let buf := memcpy_at (c_buf c) (length msg mod 64) data in
  stands (msg ++ data) (Csha (Transform (c_s c) buf 1) buf (u64 (c_bytes c + Zlen data))).
Proof.
  intros R Hd buf. pose proof (Nat.div_mod_eq (length msg) 64) as Hm.
  pose proof (st_buf_length _ _ R) as Hb.
  assert (length (msg ++ data) = 64 * S (length msg / 64))%nat as Hl by (rewrite length_app; lia).
  assert (length (msg ++ data) / 64 = S (length msg / 64))%nat as Hq
    by (by rewrite Hl, Nat.mul_comm, Nat.div_mul).
  assert (length (msg ++ data) mod 64 = 0)%nat as Hr
    by (by rewrite Hl, Nat.mul_comm, Nat.Div0.mod_mul).
  split; cbn [c_bytes c_s c_buf]; rewrite ?Hr, ?Hq.
  - by rewrite (st_bytes _ _ R), u64_add_l, Zlen_app.
  - rewrite Transform_absorb.
    change (absorb _ 1 _ buf) with (transform_block w_init (c_s c) (take 64 buf)). unfold buf.
    rewrite memcpy_at_fill, take_ge by (rewrite ?length_app, ?length_take; lia).
    rewrite (st_buf _ _ R), (st_s _ _ R).
    replace (msg ++ data) with
      (take (64 * (length msg / 64)) msg ++ (drop (64 * (length msg / 64)) msg ++ data))
      by (by rewrite app_assoc, take_drop).
    rewrite absorb_snoc.
    + rewrite absorb_take by lia. reflexivity.
    + rewrite length_take. lia.
    + rewrite length_app, length_drop. lia.
  - rewrite drop_ge; [done |]. lia.
  - unfold buf. rewrite length_memcpy_at; lia.
Qed.

(** Keeping bytes that do not complete a block. *)
Lemma stands_rest msg c data :
  stands msg c -> (length msg mod 64 + length data < 64)%nat ->
  stands (msg ++ data)
    (Csha (c_s c) (memcpy_at (c_buf c) (length msg mod 64) data) (u64 (c_bytes c + Zlen data))).
Proof.
  intros R Hd. pose proof (Nat.div_mod_eq (length msg) 64) as Hm.
  pose proof (st_buf_length _ _ R) as Hb.
  destruct (divmod_add_small (length msg / 64) (length msg mod 64) (length data)) as [Hq Hr]; [done |].
  replace (64 * (length msg / 64) + length msg mod 64 + length data)%nat
    with (length (msg ++ data)) in * by (rewrite length_app; lia).
  split; cbn [c_bytes c_s c_buf]; rewrite ?Hr, ?Hq.
  - by rewrite (st_bytes _ _ R), u64_add_l, Zlen_app.
  - rewrite absorb_app by lia. apply R.
  - rewrite take_memcpy_at, drop_app_le by lia. by rewrite (st_buf _ _ R).
  - rewrite length_memcpy_at; lia.
Qed.

Lemma write_fill_stands msg c data :
  stands msg c -> 64 + Zlen data < 2 ^ 64 ->
  exists c' n, (n <= length data)%nat /\
    write_fill c data = (c', (length (msg ++ take n data) mod 64)%nat, drop n data) /\
    stands (msg ++ take n data) c' /\
    (length (msg ++ take n data) mod 64 = 0 \/
     length (msg ++ take n data) mod 64 + length (drop n data) < 64)%nat.
Proof.
  intros R Hlen. pose proof (Nat.div_mod_eq (length msg) 64) as Hm.
  pose proof (Nat.mod_upper_bound (length msg) 64 ltac:(lia)) as Hr.
  unfold write_fill. rewrite (st_bytes _ _ R). rewrite mod64_u64.
  rewrite (u64_id (_ + Zlen data)) by (unfold is_u, Zlen in *; lia). unfold Zlen in Hlen.
  destruct (_ && _) eqn:E.
  - apply andb_prop in E as [E1%negb_true_iff%Nat.eqb_neq E2%Z.leb_le]. unfold Zlen in E2.
    set (n := (64 - length msg mod 64)%nat) in *.
    assert (length (take n data) = n) as Hn by (rewrite length_take; lia).
    assert (length (msg ++ take n data) mod 64 = 0)%nat as H0.
    { rewrite length_app. replace (length msg + length (take n data))%nat
        with ((S (length msg / 64)) * 64)%nat by lia. apply Nat.Div0.mod_mul. }
    eexists _, n. rewrite H0. split; [lia |]. split; [reflexivity |]. split; [| by left].
    pose proof (stands_fill msg c (take n data) R ltac:(lia)) as R'. cbv zeta in R'.
    unfold Zlen in R'. rewrite Hn, (st_bytes _ _ R) in R'. exact R'.
  - exists c, O. rewrite take_0, drop_0, app_nil_r. split; [lia |]. split; [done |].
    split; [done |]. apply andb_false_iff in E as [E%negb_false_iff%Nat.eqb_eq | E%Z.leb_gt]; unfold Zlen in *; lia.
Qed.

Lemma Write_stands msg c data :
  stands msg c -> 64 + Zlen data < 2 ^ 64 -> stands (msg ++ data) (Write c data).
Proof.
  intros R Hlen. destruct (write_fill_stands msg c data R Hlen) as (c1 & n & Hn & E & R1 & Hcase).
  unfold Write. rewrite E. clear E. rewrite <-(take_drop n data) at 1. rewrite app_assoc.
  revert R1 Hcase. generalize (msg ++ take n data) (drop n data). clear. intros m d R1 Hcase.
  assert (exists k c2, (k <= length d)%nat /\ write_blocks c1 d = (c2, drop k d) /\
    stands (m ++ take k d) c2 /\
    (length (m ++ take k d) mod 64 = length m mod 64)%nat /\
    (length m mod 64 + length (drop k d) < 64)%nat) as (k & c2 & Hk & -> & R2 & Hs & Hr).
  { unfold write_blocks. destruct (Nat.leb_spec 64 (length d)) as [H | H].
    - pose proof (Nat.div_mod_eq (length d) 64). pose proof (Nat.mod_upper_bound (length d) 64 ltac:(lia)).
      set (b := (length d / 64)%nat) in *.
      assert (length (take (64 * b) d) = 64 * b)%nat as Hb by (rewrite length_take; lia).
      eexists (64 * b)%nat, _. split; [lia |]. split; [reflexivity |].
      pose proof (stands_blocks m c1 (take (64 * b) d) b R1 ltac:(destruct Hcase; lia) Hb) as R2.
      rewrite !Transform_absorb in *. rewrite <-(take_drop (64 * b) d) at 2.
      rewrite absorb_app by lia. split; [exact R2 |].
      rewrite length_app, Hb, Nat.mul_comm, Nat.Div0.mod_add, length_drop. split; [done |]. destruct Hcase; lia.
    - exists O, c1. rewrite take_0, drop_0, app_nil_r. do 4 (split; [lia || done |]).
      destruct Hcase; lia. }
  rewrite <-(take_drop k d) at 1. rewrite app_assoc. unfold write_rest.
  destruct (Nat.ltb_spec 0 (length (drop k d))) as [H | H].
  - rewrite <-Hs. apply stands_rest; [done | lia].
  - destruct (drop k d) as [| x l]; [by rewrite app_nil_r | cbn [length] in H; lia].
Qed.

Lemma new_stands buf : length buf = 64%nat -> stands [] (CSHA256_new buf).
Proof. intros H. by split. Qed.

Definition Write_all (c : csha) (chunks : list (list Z)) : csha := foldl Write c chunks.

Lemma Write_all_stands msg c chunks :
  stands msg c -> Forall (fun d => 64 + Zlen d < 2 ^ 64) chunks ->
  stands (msg ++ concat chunks) (Write_all c chunks).
Proof.
  intros R H. revert msg c R. unfold Write_all. induction H as [| d ds Hd _ IH]; intros msg c R; cbn.
  - by rewrite app_nil_r.
  - rewrite app_assoc. by apply IH, Write_stands.
Qed.

Lemma pad_take (k : nat) : (k <= 63)%nat -> take (1 + k) pad_array = [128] ++ replicate k 0.
Proof. intros Hk. unfold pad_array. cbn [take app Nat.add]. f_equal. rewrite take_replicate. f_equal. lia. Qed.

Lemma Finalize_stands msg c :
  stands msg c ->
  (Finalize c).2 = Some (concat (map WriteBE32
    (md_hash (transform_block w_init) (be_bytes 8) Initialize msg))).
Proof.
  intros R. unfold Finalize. cbn [snd].
  pose proof (Nat.mod_upper_bound (length msg) 64 ltac:(lia)) as Hr.
  assert (c_bytes c mod 64 = Z.of_nat (length msg mod 64)) as Hb.
  { pose proof (mod64_u64 msg). rewrite (st_bytes _ _ R).
    pose proof (Z.mod_pos_bound (u64 (Zlen msg)) 64). lia. }
  assert (Z.to_nat ((119 - c_bytes c mod 64) mod 64) = (119 - length msg mod 64) mod 64)%nat as ->.
  { rewrite Hb. change 64 with (Z.of_nat 64) at 1.
    replace (119 - Z.of_nat (length msg mod 64)) with (Z.of_nat (119 - length msg mod 64)) by lia.
    by rewrite <-Nat2Z.inj_mod, Nat2Z.id. }
  pose proof (Nat.mod_upper_bound (119 - length msg mod 64) 64 ltac:(lia)) as Hk.
  rewrite pad_take by lia.
  assert (u64 (Z.shiftl (c_bytes c) 3) = u64 (8 * Zlen msg)) as ->.
  { rewrite (st_bytes _ _ R), Z.shiftl_mul_pow2 by lia. unfold u64. rewrite Z.mul_mod_idemp_l by lia.
    f_equal. lia. }
  pose proof (Write_stands _ _ ([128] ++ replicate ((119 - length msg mod 64) mod 64) 0) R) as R1.
  specialize (R1 ltac:(rewrite Zlen_app; unfold Zlen; rewrite length_replicate; cbn [length]; lia)).
  pose proof (Write_stands _ _ (WriteBE64 (u64 (8 * Zlen msg))) R1) as R2.
  specialize (R2 ltac:(unfold Zlen, WriteBE64; rewrite length_be_bytes; lia)).
  unfold FinalizeNoPadding. cbn [andb]. rewrite (st_s _ _ R2). rewrite <-!app_assoc. reflexivity.
Qed.

Lemma Initialize_fips : Initialize = Sha256.Fips.H0.
Proof. reflexivity. Qed.

Lemma md_hash_fips msg :
  bytes_ok msg ->
  md_hash (transform_block w_init) (be_bytes 8) Initialize msg =
  md_hash Sha256.Fips.compress (be_bytes 8) Sha256.Fips.H0 msg.
Proof.
  intros Hm. rewrite Initialize_fips.
  apply (md_hash_ext (transform_block w_init) Sha256.Fips.compress (fun st => length st = 8%nat)); auto with hush.
  apply transform_block_ok.
Qed.

(** The 512-bit block of two hashes through [FinalizeNoPadding]. *)
Lemma one_block buf a b :
  length buf = 64%nat -> bytes_ok a -> bytes_ok b -> length a = 32%nat -> length b = 32%nat ->
  FinalizeNoPadding (Write (Write (CSHA256_new buf) a) b) true =
  Some (concat (map WriteBE32 (Sha256.Fips.compress Sha256.Fips.H0 (a ++ b)))).
Proof.
  intros Hbuf Ha Hb Hla Hlb.
  pose proof (Write_all_stands [] _ [a; b] (new_stands buf Hbuf)) as R.
  assert (length (a ++ b) = 64%nat) as Hl by (rewrite length_app; lia).
  unfold Write_all in R. cbn [foldl concat app] in R. rewrite app_nil_r in R.
  specialize (R ltac:(unfold Zlen; repeat constructor; lia)).
  unfold FinalizeNoPadding. rewrite (st_bytes _ _ R), (st_s _ _ R). unfold Zlen. rewrite Hl.
  change (u64 (Z.of_nat 64) =? 64) with true. cbn [negb andb].
  change (64 / 64)%nat with 1%nat. cbn [absorb]. rewrite take_ge by lia.
  rewrite transform_block_fips; [done | done | done | | done].
  apply bytes_ok_app. by split.
Qed.

(** [C33] The class [CSHA256] computes the SHA-256 of FIPS 180-4: however the
    message is cut into calls of [Write], and whatever the uninitialised
    buffer held, [Finalize] writes the standard's digest of the concatenated
    data; on a message of exactly 64 bytes [FinalizeNoPadding] writes one
    compression of the initial state, and on any other length it throws. *)
Theorem csha256_is_fips (buf : list Z) (chunks : list (list Z)) :
  length buf = 64%nat -> Forall bytes_ok chunks -> Zlen (concat chunks) < 2 ^ 63 ->
  let c := foldl Write (CSHA256_new buf) chunks in
  (Finalize c).2 = Some (Sha256.Fips.sha256 (concat chunks)) /\
  FinalizeNoPadding c true =
    if Zlen (concat chunks) =? 64 then
      Some (concat (map (be_bytes 4) (Sha256.Fips.compress Sha256.Fips.H0 (concat chunks))))
    else None.
Proof.
  intros Hbuf Hc Hlen c.
  assert (Forall (fun d => 64 + Zlen d < 2 ^ 64) chunks) as Hds.
  { clear c Hc. induction chunks as [| d ds IH]; constructor; cbn [concat] in Hlen;
      rewrite Zlen_app in Hlen; pose proof (Zlen_nonneg d); pose proof (Zlen_nonneg (concat ds)).
    - lia.
    - apply IH. lia. }
  pose proof (Write_all_stands [] _ chunks (new_stands buf Hbuf) Hds) as R.
  fold (Write_all (CSHA256_new buf) chunks) in c. fold c in R. cbn [app] in R.
  assert (bytes_ok (concat chunks)) as Hb by (by apply Forall_concat).
  split.
  - rewrite (Finalize_stands _ _ R), md_hash_fips by done. reflexivity.
  - unfold FinalizeNoPadding. rewrite (st_bytes _ _ R), u64_id by
      (pose proof (Zlen_nonneg (concat chunks)); unfold is_u; lia).
    destruct (Z.eqb_spec (Zlen (concat chunks)) 64) as [E | E]; [| done]. cbn [negb andb].
    rewrite (st_s _ _ R). assert (length (concat chunks) = 64%nat) as El by (unfold Zlen in E; lia).
    rewrite El. change (64 / 64)%nat with 1%nat. cbn [absorb]. rewrite take_ge by lia.
    rewrite transform_block_fips by done. reflexivity.
Qed.

Lemma csha256_is_fips_witness :
  let c := foldl Write (CSHA256_new (replicate 64 7)) [[97]; []; [98; 99]] in
  (Finalize c).2 = Some (Sha256.Fips.sha256 [97; 98; 99]) /\ FinalizeNoPadding c true = None.
Proof.
  apply (csha256_is_fips (replicate 64 7) [[97]; []; [98; 99]]).
  - reflexivity.
  - repeat constructor; unfold byte_ok; lia.
  - reflexivity.
Defined.
End CSha.
