(* ===== verification/EmptyRoots.v ===== *)
(** * Hashes of the note-commitment trees (src/src/zcash/IncrementalMerkleTree.cpp)

    The tables of the roots of empty subtrees, byte for byte, the two-to-one
    hash [SHA256Compress::combine], and [EmptyRoot] of both hash types.  The
    SHA-256 table is checked entry by entry against the compression function of
    FIPS 180-4.  The Pedersen hash is a function of an external library. *)
From S2P Require Import Prelude HashStream Sha256 CSha256.
Local Open Scope Z_scope.

Module Roots.

(** [SHA256Compress::combine]: [buf] is the uninitialised buffer of the hasher;
    [None] is the exception of [FinalizeNoPadding].  The depth is not used. *)
Definition sha_combine (buf a b : list Z) (depth : nat) : option (list Z) :=
  let hasher := CSha.CSHA256_new buf in
  let hasher := CSha.Write hasher a in
  let hasher := CSha.Write hasher b in
  CSha.FinalizeNoPadding hasher true.

(** Entry [d]: the root of an empty subtree of depth [d].  The bytes of an entry
    are written as one number, most significant byte first. *)
Definition sha256_empty_roots : list (list Z) := map (be_bytes 32)
  [0x0000000000000000000000000000000000000000000000000000000000000000;
   0xda5698be17b9b46962335799779fbeca8ce5d491c0d26243bafef9ea1837a9d8;
   0xdc766fab492ccf3d1e49d4f374b5235fa56506aac2224d39f943fcd49202974c;
   0x3f0a406181105968fdaee30679e3273c66b72bf9a7f5debbf3b5a0a26e359f92;
   0x26b0052694fc42fdff93e6fb5a71d38c3dd7dc5b6ad710eb048c660233137fab;
   0x0109ecc0722659ff83450b8f7b8846e67b2859f33c30d9b7acd5bf39cae54e31;
   0x3f909b8ce3d7ffd8a5b30908f605a03b0db85169558ddc1da7bbbcc9b09fd325;
   0x40460fa6bc692a06f47521a6725a547c028a6a240d8409f165e63cb54da2d23f;
   0x8c085674249b43da1b9a31a0e820e81e75f342807b03b6b9e64983217bc2b38e;
   0xa083450c1ba2a3a7be76fad9d13bc37be4bf83bd3e59fc375a36ba62dc620298;
   0x1ddddabc2caa2de9eff9e18c8c5a39406d7936e889bc16cfabb144f5c0022682;
   0xc22d8f0b5e4056e5f318ba22091cc07db5694fbeb5e87ef0d7e2c57ca352359e;
   0x89a434ae1febd7687eceea21d07f20a2512449d08ce2eee55871cdb9d46c1233;
   0x7333dbffbd11f09247a2b33a013ec4c4342029d851e22ba485d4461851370c15;
   0x5dad844ab9466b70f745137195ca221b48f346abd145fb5efc23a8b4ba508022;
   0x507e0dae81cbfbe457fd370ef1ca4201c2b6401083ddab440e4a038dc1e358c4;
   0xbdcdb3293188c9807d808267018684cfece07ac35a42c00f2c79b4003825305d;
   0xbab5800972a16c2c22530c66066d0a5867e987bed21a6d5a450b683cf1cfd709;
   0x11aa0b4ad29b13b057a31619d6500d636cd735cdd07d811ea265ec4bcbbbd058;
   0x5145b1b055c2df02b95675e3797b91de1b846d25003c0a803d08900728f2cd6a;
   0x0323f2850bf3444f4b4c5c09a6057ec7169190f45acb9e46984ab3dfcec4f06a;
   0x671546e26b1da1af754531e26d8a6a51073a57ddd72dc472efb43fcb257cffff;
   0xbb23a9bba56de57cb284b0d2b01c642cf79c9a5563f0067a21292412145bd78a;
   0xf30cc836b9f71b4e7ee3c72b1fd253268af9a27e9d7291a23d02821b21ddfd16;
   0x58a2753dade103cecbcda50b5ebfce31e12d41d5841dcc95620f7b3d50a1b9a1;
   0x925e6d474a5d8d3004f29da0dd78d30ae3824ce79dfe4934bb29ec3afaf3d521;
   0x08f279618616bcdd4eadc9c7a9062691a59b43b07e2c1e237f17bd189cd6a8fe;
   0xc92b32db42f42e2bf0a59df9055be5c669d3242df45357659b75ae2c27a76f50;
   0xc0db2a74998c50eb7ba6534f6d410efc27c4bb88acb0222c7906ea28a327b511;
   0xd7c612c817793191a1e68652121876d6b3bde40f4fa52bc314145ce6e5cdd259;
   0xb22370106c67a17209f6130bc09f735d83aa2c04fc4fe72ea5d80b216723e7ce;
   0x9f67d5f664664c901940eee3d02dd5b3e4b92e7b42820c42fc5159e91b41172a;
   0xac58cd1388fec290d398f1944b564449a63c815880566bd1d189f7839e3b0c8c;
   0x5698eae7c8515ed05a70339bdf7c1028e7acca13a4fa97d9538f01ac8d889ae3;
   0x2d4995770a76fb93314ca74b3524ea1db5688ad0a76183ea17204a8f024a9f3b;
   0x5e8992c1b072c16e9e28a85358fb5fb6901a81587766dadb7aa0b973ded2f264;
   0xe95db71e1f7291ba5499461bc715203e29b84bfa4283e3bb7f470a15d0e1584e;
   0x41f078bd1824c8a4b71964f394aa595084d8eb17b97a3630433af70d10e0eff6;
   0xa1913fe6b20132312f8c1f00ddd63cec7a03f5f1d7d83492fa284c0b5d6320b0;
   0xba9440c4dbfcf55ceb605a5b8990fc11f8ef22870d8d12e130f986491eae84b3;
   0x49db2d5e22b8015cae4810d75e54014c5469862738e161ec96ec20218718828a;
   0xd4851fb8431edfbb8b1e85ada6895967c2dac87df344992a05faf1ecf836eec9;
   0xe4ab9f4470f00cd196d47c75c82e7adaf06fe17e042e3953d93bb5d56d8cd8fb;
   0x7e4320434849ecb357f1afaaba21a54400ef2d11cff83b937d87fdafa49f8199;
   0x020adc98d96cfbbcca15fc3aa03760ed286686c35b5d92c7cb64a999b394a854;
   0x3a26b29fe1acfdd6c6a151bcc3dbcb95a10ebe2f0553f80779569b67b7244e77;
   0xec2d0986e6a0ddf43897b2d4f23bb034f538ffe00827f310dc4963f3267f0bfb;
   0xd48073f8819f81f0358e3fc35a047cc74082ae1cb7ee22fb609c01649342d0e6;
   0xad8037601793f172441ecb00dc138d9fc5957125ecc382ec65e36f817dc799fb;
   0xca500a5441f36f4df673d6b8ed075d36dae2c7e6481428c70a5a76b7a9bebce8;
   0x422b6ddd473231dc4d56fe913444ccd56f7c61f747ba57ca946d5fef72d840a0;
   0xab41f4ecb7d7089615800e19fcc53b8379ed05ee35c82567095583fd90ff3035;
   0xbbf7618248354ceb1bc1fc9dbc42c426a4e2c1e0d443c5683a9256c62ecdc26f;
   0xe50ae71479fc8ec569192a13072e011afc249f471af09500ea39f75d0af856bf;
   0xe74c0b9220147db2d50a3b58d413775d16c984690be7d90f0bc43d99dba1b689;
   0x29324a0a48d11657a51ba08b004879bfcfc66a1acb7ce36dfe478d2655484b48;
   0x88952e3d0ac06cb16b665201122249659a22325e01c870f49e29da6b1757e082;
   0xcdf879f2435b95af042a3bf7b850f7819246c805285803d67ffbf4f295bed004;
   0xe005e324200b4f428c62bc3331e695c373607cd0faa9790341fa3ba1ed228bc5;
   0x354447727aa9a53dd8345b6b6c693443e56ef4aeba13c410179fc8589e7733d5;
   0xda52dda91f2829c15c0e58d29a95360b86ab30cf0cac8101832a29f38c3185f1;
   0xc7da7814e228e1144411d78b536092fe920bcdfcc36cf19d1259047b267d58b5;
   0xaba1f68b6c2b4db6cc06a7340e12313c4b4a4ea6deb17deb3e1e66cd8eacf32b;
   0xc160ae4f64ab764d864a52ad5e33126c4b5ce105a47deedd75bc70199a5247ef;
   0xeadf23fc99d514dd8ea204d223e98da988831f9b5d1940274ca520b7fb173d8a;
   0x5b8e14facac8a7c7a3bfee8bae71f2f7793d3ad5fe3383f93ab6061f2a11bb02].

(** The 63 entries the source lists for the Pedersen hash. *)
Definition pedersen_listed_roots : list (list Z) := map (be_bytes 32)
  [0x0100000000000000000000000000000000000000000000000000000000000000;
   0x817de36ab2d57feb077634bca77819c8e0bd298c04f6fed0e6a83cc1356ca155;
   0xffe9fc03f18b176c998806439ff0bb8ad193afdb27b2ccbc88856916dd804e34;
   0xd8283386ef2ef07ebdbb4383c12a739a953a4d6e0d6fb1139a4036d693bfbb6c;
   0xe110de65c907b9dea4ae0bd83a4b0a51bea175646a64c12b4c9f931b2cb31b49;
   0x912d82b2c2bca231f71efcf61737fbf0a08befa0416215aeef53e8bb6d23390a;
   0x8ac9cf9c391e3fd42891d27238a81a8a5c1d3a72b1bcbea8cf44a58ce7389613;
   0xd6c639ac24b46bd19341c91b13fdcab31581ddaf7f1411336a271f3d0aa52813;
   0x7b99abdc3730991cc9274727d7d82d28cb794edbc7034b4f0053ff7c4b680444;
   0x43ff5457f13b926b61df552d4e402ee6dc1463f99a535f9a713439264d5b616b;
   0xba49b659fbd0b7334211ea6a9d9df185c757e70aa81da562fb912b84f49bce72;
   0x4777c8776a3b1e69b73a62fa701fa4f7a6282d9aee2c7a6b82e7937d7081c23c;
   0xec677114c27206f5debc1c1ed66f95e2b1885da5b7be3d736b1de98579473048;
   0x1b77dac4d24fb7258c3c528704c59430b630718bec486421837021cf75dab651;
   0xbd74b25aacb92378a871bf27d225cfc26baca344a1ea35fdd94510f3d157082c;
   0xd6acdedf95f608e09fa53fb43dcd0990475726c5131210c9e5caeab97f0e642f;
   0x1ea6675f9551eeb9dfaaa9247bc9858270d3d3a4c5afa7177a984d5ed1be2451;
   0x6edb16d01907b759977d7650dad7e3ec049af1a3d875380b697c862c9ec5d51c;
   0xcd1c8dbf6e3acc7a80439bc4962cf25b9dce7c896f3a5bd70803fc5a0e33cf00;
   0x6aca8448d8263e547d5ff2950e2ed3839e998d31cbc6ac9fd57bc6002b159216;
   0x8d5fa43e5a10d11605ac7430ba1f5d81fb1b68d29a640405767749e841527673;
   0x08eeab0c13abd6069e6310197bf80f9c1ea6de78fd19cbae24d4a520e6cf3023;
   0x0769557bc682b1bf308646fd0b22e648e8b9e98f57e29f5af40f6edb833e2c49;
   0x4c6937d78f42685f84b43ad3b7b00f81285662f85c6a68ef11d62ad1a3ee0850;
   0xfee0e52802cb0c46b1eb4d376c62697f4759f6c8917fa352571202fd778fd712;
   0x16d6252968971a83da8521d65382e61f0176646d771c91528e3276ee45383e4a;
   0xd2e1642c9a462229289e5b0e3b7f9008e0301cbb93385ee0e21da2545073cb58;
   0xa5122c08ff9c161d9ca6fc462073396c7d7d38e8ee48cdb3bea7e2230134ed6a;
   0x28e7b841dcbc47cceb69d7cb8d94245fb7cb2ba3a7a6bc18f13f945f7dbd6e2a;
   0xe1f34b034d4a3cd28557e2907ebf990c918f64ecb50a94f01d6fda5ca5c7ef72;
   0x12935f14b676509b81eb49ef25f39269ed72309238b4c145803544b646dca62d;
   0xb2eed031d4d6a4f02a097f80b54cc1541d4163c6b6f5971f88b6e41d35c53814;
   0xfbc2f4300c01f0b7820d00e3347c8da4ee614674376cbc45359daa54f9b5493e;
   0x252e6798645f5bf114e4b4e90e96182861489840d9b4ccc4c1fb5a46997cee14;
   0x98b19042f1f7c7dd11ec25ea66b6ff74e08ce11d447ed6f1bfe87e110e331e11;
   0xd451304799572ba9f42c4dab6b07c703bd2c123ab9d60f2a60f9955854910b6a;
   0x3ecd5f27acf01bd37a33e4517867ef76474cd83fb31c9208dcef2eedcef36c72;
   0x26c37da67894a13df8aa4878d2514a4212573b73eccaab16fe4fa660e8fe2707;
   0xb545ef34485eed30d42b2c295a4a5b680de8a9d5e38345782462c04f09dc6851;
   0x77fd20b300946765a87f24bd045073729cbd7b66eb8fa140b583faa9d1425801;
   0xcbaa576b1799b58ff3a6decbba919b0b68d7c893e46fde998768e87e350a0725;
   0x45fe81b18ca30074d0120d2b1a0d10b3a050933512db8ee34e52473d4f08a267;
   0x0e60a1f0121f591e551d3ed1865b50a75d7ccff1289df7c44dd465a54317f56a;
   0xcedfb184dd92a0cbfc11e8be697b476988ed5f39369abdd90c61544988601c0d;
   0xf362686612649a313ba464437a0cad0e7e3d7e1b4b3743f90e05a2100a495f42;
   0x7deae5f3bbdeffd3f85271a08b5ec31f16f937964ae708fdff7c13e5a4f3df6b;
   0x40ccf0fc1eab6d8502bd93dc31342dfd57df5bbb5d70a1bf6b92efc61ec9a258;
   0xd78025491f1bca8507f64f25872dd02388479a1a225126e40d2fe418b98e0e2c;
   0x0db7294685c8a0725f15846ea5899ea0e986c2707bd7b412954412f26abf550a;
   0xb7e290be9555cf75548650da6d47c893aef7f8c6dd2735499495f636590dae0a;
   0x2dd2532a858c300145a65e351f91be6afeab597c41ef073f50b622d586ff5927;
   0x972f0c5c6f9aeb0e38bf8319f3a5fcdc8fd8782e4188730cd082d9babc589851;
   0x001e577b0f4390182b4ae43d329b3aa8835dae1bb79e604b7d2da0e90d060929;
   0xaa6e70a91ebc54eefce5ffd5b675daf3f1d940a8451fcb01081fa9d4f262436f;
   0xd77038bf67e631752940231251d7fe85af52dbdd6aab37c7a5ec32b65fe6de03;
   0xd227a17a7e0cf96dcedd9fc7bce43c6c1d66badd7543a887c8656c547ecfb24f;
   0x70e8a521951583e53fc0585c707eceda89b7a7d1af41d1a015d797fa76c0f569;
   0xe485a96855e872fc5090150e2cd24e10591d35166eb0eb30fcdfac93b01d281c;
   0xe4a19febdf2a86896e41f2cedcf2ae584671802e6a467e8439cab5d61843416b;
   0xe927838847806a43bd6c6088e39f65b8b3e58b2db5f7ad5643d91e0659a28a2a;
   0x0bd3a818e83f9cd2ff4f62011a510176ac32f5448e6e154515043c5926d51c6f;
   0xce413445e03790498fe72d8e01915e7ff120ae35b3b590d21b7f74dee1830f0d;
   0x600e6f93e73d7abd4ee0a65cb1b19aa3ecc525689dbf17779658741b95c15a55].

(** The array has 65 entries: the two that are not listed are zero. *)
Definition pedersen_empty_roots : list (list Z) := pedersen_listed_roots ++ replicate 2 (replicate 32 0).

(** [EmptyRoot(depth)] is [at(depth)]: [None] is the exception out of range. *)
Definition sha_EmptyRoot (depth : nat) : option (list Z) := sha256_empty_roots !! depth.
Definition pedersen_EmptyRoot (depth : nat) : option (list Z) := pedersen_empty_roots !! depth.

(** One compression of the initial state, as bytes. *)
Definition compress2 (a b : list Z) : list Z :=
  concat (map (be_bytes 4) (Sha256.Fips.compress Sha256.Fips.H0 (a ++ b))).

Lemma sha_combine_spec buf a b depth :
  length buf = 64%nat -> bytes_ok a -> bytes_ok b -> length a = 32%nat -> length b = 32%nat ->
  sha_combine buf a b depth = Some (compress2 a b).
Proof. apply CSha.one_block. Qed.

Definition hash_ok (r : list Z) : Prop := length r = 32%nat /\ bytes_ok r.

Lemma be_bytes_hashes l : Forall hash_ok (map (be_bytes 32) l).
Proof.
  apply List.Forall_forall. intros r (x & <- & _)%in_map_iff.
  split; [apply length_be_bytes | apply be_bytes_ok].
Qed.

Lemma empty_roots_shape :
  (length sha256_empty_roots = 66%nat /\ Forall hash_ok sha256_empty_roots) /\
  (length pedersen_empty_roots = 65%nat /\ Forall hash_ok pedersen_empty_roots).
Proof.
  split; (split; [reflexivity |]); [apply be_bytes_hashes |].
  apply Forall_app_2; [apply be_bytes_hashes |].
  repeat constructor; unfold byte_ok; lia.
Qed.

(** Each entry is the compression of two copies of the one before it. *)
Lemma sha_empty_roots_chain :
  forallb (fun d => bool_decide (compress2 (nth d sha256_empty_roots []) (nth d sha256_empty_roots []) =
                                 nth (S d) sha256_empty_roots [])) (seq 0 65) = true.
Proof. vm_compute. reflexivity. Qed.
End Roots.
