(* ===== verification/Incremental.v ===== *)
(** * Incremental Merkle trees and witnesses
    (src/src/zcash/IncrementalMerkleTree.cpp and .hpp, src/src/zcash/util.cpp)

    The note-commitment trees keep, instead of the leaves, the last one or two
    leaves and the roots of the complete subtrees to their left.  A witness is
    such a tree frozen at a leaf, with the roots of the subtrees completed since
    and the tree in progress.  The templates are modelled over the interface
    [TreeHash]; the theorems are proved from [LawfulTreeHash] against the plain
    Merkle root [troot] of all leaves, padded with uncommitted ones.  [None] is
    an exception. *)
From S2P Require Import Prelude HashStream Sha256 CSha256 EmptyRoots.
Local Open Scope Z_scope.

Abbreviation hash := (list Z) (only parsing).

(** The static members of the template argument [Hash]. *)
Class TreeHash := {
  combine : hash -> hash -> nat -> hash;
  EmptyRoot : nat -> option hash;
  uncommitted : hash
}.

Module Incremental.

(** ** Conversions of src/src/zcash/util.cpp *)

Definition convertBytesVectorToVector (bytes : list Z) : list bool :=
  concat (map (fun c => map (fun j => Z.odd (Z.land (Z.shiftr c (7 - Z.of_nat j)) 1)) (seq 0 8)) bytes).

Definition convertVectorToInt (v : list bool) : option Z :=
  if (64 <? length v)%nat then None
  else Some (foldl (fun result '(i, b) =>
    if b : bool then Z.lor result (u64 (Z.shiftl 1 (Z.of_nat (length v - 1 - i)))) else result)
    0 (zip (seq 0 (length v)) v)).

(** ** [class MerklePath] *)

Record MerklePath := MkMerklePath { authentication_path : list (list bool); index : list bool }.

(** [pathBytes[i][p / 8] |= bit << (7 - (p % 8))] over a zeroed array of
    [(size + 7) / 8] bytes. *)
Definition pack_bits (bits : list bool) : list Z :=
  foldl (fun bytes '(p, b) =>
    <[(p / 8)%nat := u8 (Z.lor (rd bytes (p / 8)) (Z.shiftl (Z.b2z b) (7 - Z.of_nat (p mod 8))))]> bytes)
    (replicate ((length bits + 7) / 8) 0) (zip (seq 0 (length bits)) bits).

(** Writing: [pathBytes] and [indexInt]; [None] for the failed assertion or the
    exception of [convertVectorToInt]. *)
Definition write_path (p : MerklePath) : option (list (list Z) * Z) :=
  if (length (authentication_path p) =? length (index p))%nat then
    indexInt ← convertVectorToInt (index p);
    Some (map pack_bits (authentication_path p), indexInt)
  else None.

(** Reading appends to the object, here a new one; [None]: a shift by 64 bits
    or more. *)
Definition read_path (pathBytes : list (list Z)) (indexInt : Z) : option MerklePath :=
  if (64 <? length pathBytes)%nat then None
  else Some (MkMerklePath (map convertBytesVectorToVector pathBytes)
    (map (fun i => Z.odd (Z.land (Z.shiftr indexInt (Z.of_nat (length pathBytes - 1 - i))) 1))
       (seq 0 (length pathBytes)))).

(** ** [class IncrementalMerkleTree] *)

Record tree := Tree { left : option hash; right : option hash; parents : list (option hash) }.
Definition empty_tree : tree := Tree None None [].

Section Code.
Context `{TreeHash} (Depth : nat).

(** [PathFiller::next]. *)
Definition next (queue : list hash) (depth : nat) : option (hash * list hash) :=
  match queue with
  | h :: queue => Some (h, queue)
  | [] => e ← EmptyRoot depth; Some (e, [])
  end.

(** [true]: no exception. *)
Definition wfcheck (t : tree) : bool :=
  if (Depth <=? length (parents t))%nat then false
  else if bool_decide (last (parents t) = Some None) then false
  else if bool_decide (left t = None) && bool_decide (is_Some (right t)) then false
  else if bool_decide (left t = None) && (0 <? length (parents t))%nat then false
  else true.

Definition last_leaf (t : tree) : option hash :=
  match right t with
  | Some r => Some r
  | None => left t
  end.

(** [ret += (1 << (i+1))]: the shift is an [int]; a shift by 32 or more is
    undefined, and [1 << 31] is the least [int]. *)
Fixpoint size_parents (i : nat) (ps : list (option hash)) (ret : Z) : option Z :=
  match ps with
  | [] => Some ret
  | None :: ps => size_parents (S i) ps ret
  | Some _ :: ps =>
    if (i + 1 <? 32)%nat then size_parents (S i) ps (u64 (ret + s32 (Z.shiftl 1 (Z.of_nat (i + 1)))))
    else None
  end.

Definition size (t : tree) : option Z :=
  let ret := 0 in
  let ret := if left t is Some _ then ret + 1 else ret in
  let ret := if right t is Some _ then ret + 1 else ret in
  size_parents 0 (parents t) ret.

(** [depth - 1] wraps at 0, and no vector has that size. *)
Definition is_complete (t : tree) (depth : nat) : bool :=
  match left t, right t with
  | Some _, Some _ =>
    if negb (S (length (parents t)) =? depth)%nat then false
    else forallb (fun p => bool_decide (is_Some p)) (parents t)
  | _, _ => false
  end.

(** The loop of [append]; [n] is [Depth - i]. *)
Fixpoint append_parents (n i : nat) (ps : list (option hash)) (combined : hash) : list (option hash) :=
  match n with
  | O => ps
  | S n =>
    match ps with
    | Some p :: ps => None :: append_parents n (S i) ps (combine p combined (i + 1))
    | None :: ps => Some combined :: ps
    | [] => [Some combined]
    end
  end.

Definition append (t : tree) (obj : hash) : option tree :=
  if is_complete t Depth then None
  else Some
    match left t, right t with
    | None, _ => Tree (Some obj) (right t) (parents t)
    | _, None => Tree (left t) (Some obj) (parents t)
    | Some l, Some r => Tree (Some obj) None (append_parents Depth 0 (parents t) (combine l r 0))
    end.

Fixpoint next_depth_parents (ps : list (option hash)) (d skip : nat) : nat :=
  match ps with
  | [] => d + skip
  | Some _ :: ps => next_depth_parents ps (S d) skip
  | None :: ps =>
    match skip with
    | S skip => next_depth_parents ps (S d) skip
    | O => d
    end
  end.

(** An empty leaf: [inl] the new [skip], or [inr] the result 0. *)
Definition next_depth_leaf (leaf : option hash) (skip : nat) : nat + nat :=
  match leaf, skip with
  | Some _, _ => inl skip
  | None, S skip => inl skip
  | None, O => inr O
  end.

Definition next_depth (t : tree) (skip : nat) : nat :=
  match next_depth_leaf (left t) skip with
  | inr d => d
  | inl skip =>
    match next_depth_leaf (right t) skip with
    | inr d => d
    | inl skip => next_depth_parents (parents t) 1 skip
    end
  end.

(** The two loops of [root]: over [parents], and up to [depth] ([n] is what is
    left). *)
Fixpoint root_parents (ps : list (option hash)) (d : nat) (root : hash) (filler : list hash)
    : option (hash * list hash) :=
  match ps with
  | [] => Some (root, filler)
  | Some p :: ps => root_parents ps (S d) (combine p root d) filler
  | None :: ps =>
    '(h, filler) ← next filler d;
    root_parents ps (S d) (combine root h d) filler
  end.

Fixpoint root_fill (n d : nat) (root : hash) (filler : list hash) : option hash :=
  match n with
  | O => Some root
  | S n => '(h, filler) ← next filler d; root_fill n (S d) (combine root h d) filler
  end.

Definition leaf_or_next (leaf : option hash) (filler : list hash) : option (hash * list hash) :=
  match leaf with
  | Some x => Some (x, filler)
  | None => next filler 0
  end.

Definition root (t : tree) (depth : nat) (filler_hashes : list hash) : option hash :=
  '(combine_left, filler) ← leaf_or_next (left t) filler_hashes;
  '(combine_right, filler) ← leaf_or_next (right t) filler;
  let root := combine combine_left combine_right 0 in
  '(root, filler) ← root_parents (parents t) 1 root filler;
  let d := S (length (parents t)) in
  root_fill (depth - d) d root filler.

(** The public [root()]. *)
Definition tree_root (t : tree) : option hash := root t Depth [].

(** The loops of [path]: the entries, from the leaf up, as pairs of an [index]
    bit and a hash. *)
Fixpoint path_parents (ps : list (option hash)) (d : nat) (filler : list hash)
    : option (list (bool * hash) * list hash) :=
  match ps with
  | [] => Some ([], filler)
  | Some p :: ps =>
    '(es, filler) ← path_parents ps (S d) filler; Some ((true, p) :: es, filler)
  | None :: ps =>
    '(h, filler) ← next filler d;
    '(es, filler) ← path_parents ps (S d) filler; Some ((false, h) :: es, filler)
  end.

Fixpoint path_fill (n d : nat) (filler : list hash) : option (list (bool * hash)) :=
  match n with
  | O => Some []
  | S n =>
    '(h, filler) ← next filler d;
    es ← path_fill n (S d) filler; Some ((false, h) :: es)
  end.

Definition path_leaf (l : hash) (r : option hash) (filler : list hash) : option (bool * hash * list hash) :=
  match r with
  | Some _ => Some (true, l, filler)
  | None => '(h, filler) ← next filler 0; Some (false, h, filler)
  end.

Definition path (t : tree) (filler_hashes : list hash) : option MerklePath :=
  match left t with
  | None => None
  | Some l =>
    '(e, filler) ← path_leaf l (right t) filler_hashes;
    '(es, filler) ← path_parents (parents t) 1 filler;
    let d := S (length (parents t)) in
    es' ← path_fill (Depth - d) d filler;
    let entries := e :: es ++ es' in
    Some (MkMerklePath (rev (map (fun e => convertBytesVectorToVector e.2) entries))
                       (rev (map fst entries)))
  end.

(** ** [class IncrementalWitness] *)

Record witness := Witness {
  w_tree : tree;
  filled : list hash;
  cursor : option tree;
  cursor_depth : nat
}.

(** [tree.witness()]. *)
Definition witness_of (t : tree) : witness := Witness t [] None 0.

Definition partial_path (w : witness) : option (list hash) :=
  match cursor w with
  | Some c => r ← root c (cursor_depth w) []; Some (filled w ++ [r])
  | None => Some (filled w)
  end.

Definition witness_append (w : witness) (obj : hash) : option witness :=
  match cursor w with
  | Some c =>
    c ← append c obj;
    if is_complete c (cursor_depth w) then
      r ← root c (cursor_depth w) [];
      Some (Witness (w_tree w) (filled w ++ [r]) None (cursor_depth w))
    else Some (Witness (w_tree w) (filled w) (Some c) (cursor_depth w))
  | None =>
    let d := next_depth (w_tree w) (length (filled w)) in
    if (Depth <=? d)%nat then None
    else if (d =? 0)%nat then Some (Witness (w_tree w) (filled w ++ [obj]) None d)
    else
      c ← append empty_tree obj;
      Some (Witness (w_tree w) (filled w) (Some c) d)
  end.

Definition witness_path (w : witness) : option MerklePath :=
  uncles ← partial_path w; path (w_tree w) uncles.
Definition witness_root (w : witness) : option hash :=
  uncles ← partial_path w; root (w_tree w) Depth uncles.
Definition element (w : witness) : option hash := last_leaf (w_tree w).
Definition position (w : witness) : option Z :=
  n ← size (w_tree w); Some (u64 (n - 1)).

(** [SerializationOp] of a witness stores the tree, the filled subtrees and the
    cursor; reading recomputes the depth of the cursor. *)
Definition reload (w : witness) : witness :=
  Witness (w_tree w) (filled w) (cursor w) (next_depth (w_tree w) (length (filled w))).

Fixpoint append_all (t : tree) (objs : list hash) : option tree :=
  match objs with
  | [] => Some t
  | x :: objs => t ← append t x; append_all t objs
  end.

Fixpoint witness_append_all (w : witness) (objs : list hash) : option witness :=
  match objs with
  | [] => Some w
  | x :: objs => w ← witness_append w x; witness_append_all w objs
  end.

(** ** The specification *)

(** The Merkle root of [2 ^ d] leaves, the given ones followed by uncommitted
    ones. *)
Fixpoint troot (d : nat) (l : list hash) : hash :=
  match d with
  | O => match l with [] => uncommitted | x :: _ => x end
  | S d => combine (troot d (take (2 ^ d) l)) (troot d (drop (2 ^ d) l)) d
  end.

(** Climbing from a leaf with the entries of an authentication path. *)
Fixpoint climb (d : nat) (r : hash) (entries : list (bool * hash)) : hash :=
  match entries with
  | [] => r
  | (true, h) :: entries => climb (S d) (combine h r d) entries
  | (false, h) :: entries => climb (S d) (combine r h d) entries
  end.

(** The verifier of a path in its written form: the hashes from the root down
    and the position as a number. *)
Definition verify (leaf : hash) (pathBytes : list (list Z)) (indexInt : Z) : hash :=
  climb 0 leaf (zip (map (fun i => Z.testbit indexInt (Z.of_nat i)) (seq 0 (length pathBytes)))
                    (rev pathBytes)).
End Code.

(** What the code relies on: the table of empty roots holds the roots of
    subtrees without leaves, and hashes are 32 bytes. *)
Class LawfulTreeHash `{TreeHash} (Depth : nat) : Prop := {
  EmptyRoot_spec d : (d <= Depth)%nat -> EmptyRoot d = Some (troot d []);
  combine_ok a b d : Roots.hash_ok a -> Roots.hash_ok b -> Roots.hash_ok (combine a b d);
  uncommitted_ok : Roots.hash_ok uncommitted
}.

(** ** Bits *)

Lemma odd_bit x k : 0 <= k -> Z.odd (Z.land (Z.shiftr x k) 1) = Z.testbit x k.
Proof.
  intros Hk. rewrite <-Z.bit0_odd, Z.land_spec, Z.shiftr_spec by lia.
  rewrite Z.add_0_l. change (Z.testbit 1 0) with true. apply andb_true_r.
Qed.

(** The number whose bits, least significant first, are [v]. *)
Fixpoint bits_num (v : list bool) : Z :=
  match v with
  | [] => 0
  | b :: v => Z.b2z b + 2 * bits_num v
  end.

Lemma bits_num_testbit v i : Z.testbit (bits_num v) (Z.of_nat i) = nth i v false.
Proof.
  revert i. induction v as [| b v IH]; intros i; cbn [bits_num].
  - rewrite Z.bits_0. by destruct i.
  - destruct i as [| i]; cbn [nth].
    + apply Z.add_b2z_double_bit0.
    + rewrite Z.add_comm, Nat2Z.inj_succ, Z.testbit_succ_r by lia. apply IH.
Qed.

Lemma bits_num_bounds v : 0 <= bits_num v < 2 ^ Zlen v.
Proof.
  unfold Zlen. induction v as [| b v IH]; [cbn; lia |]. cbn [bits_num length].
  rewrite Nat2Z.inj_succ, Z.pow_succ_r by lia. destruct b; cbn [Z.b2z]; lia.
Qed.

Lemma bits_num_snoc v b : bits_num (v ++ [b]) = bits_num v + Z.b2z b * 2 ^ Zlen v.
Proof.
  unfold Zlen. induction v as [| c v IH]; cbn [app bits_num length]; [cbn; lia |].
  rewrite IH, Nat2Z.inj_succ, Z.pow_succ_r by lia. lia.
Qed.

Lemma zip_seq_app {A} (v1 v2 : list A) a :
  zip (seq a (length (v1 ++ v2))) (v1 ++ v2) =
  zip (seq a (length v1)) v1 ++ zip (seq (a + length v1) (length v2)) v2.
Proof. by rewrite length_app, seq_app, zip_with_app by (by rewrite length_seq). Qed.

Lemma convert_loop (N a : nat) (v : list bool) (acc : Z) :
  N = (a + length v)%nat -> (N <= 64)%nat -> 0 <= acc ->
  foldl (fun result '(i, b) =>
    if b : bool then Z.lor result (u64 (Z.shiftl 1 (Z.of_nat (N - 1 - i)))) else result)
    (acc * 2 ^ Zlen v) (zip (seq a (length v)) v) = acc * 2 ^ Zlen v + bits_num (rev v).
Proof.
  revert a acc. induction v as [| b v IH]; intros a acc HN H64 Ha; cbn [length] in *.
  { cbn. lia. }
  change (zip (seq a (S (length v))) (b :: v)) with ((a, b) :: zip (seq (S a) (length v)) v).
  cbn [foldl rev]. rewrite bits_num_snoc. unfold Zlen in *. rewrite length_rev. cbn [length].
  rewrite Nat2Z.inj_succ, Z.pow_succ_r by lia.
  replace (N - 1 - a)%nat with (length v) by lia.
  assert (0 < 2 ^ Z.of_nat (length v) <= 2 ^ 63) as Hp.
  { split; [lia |]. apply Z.pow_le_mono_r; lia. }
  replace (if b then Z.lor (acc * (2 * 2 ^ Z.of_nat (length v)))
                      (u64 (Z.shiftl 1 (Z.of_nat (length v))))
           else acc * (2 * 2 ^ Z.of_nat (length v)))
    with ((acc * 2 + Z.b2z b) * 2 ^ Z.of_nat (length v)).
  - rewrite IH by (lia || (destruct b; cbn [Z.b2z]; lia)). lia.
  - destruct b; cbn [Z.b2z]; [| lia].
    rewrite (Z.shiftl_mul_pow2 1), Z.mul_1_l, u64_id by (unfold is_u; lia).
    replace (acc * (2 * 2 ^ Z.of_nat (length v)))
      with (Z.shiftl (acc * 2) (Z.of_nat (length v))) by (rewrite Z.shiftl_mul_pow2 by lia; lia).
    replace (2 ^ Z.of_nat (length v)) with (Z.shiftl 1 (Z.of_nat (length v))) at 2
      by (rewrite Z.shiftl_mul_pow2; lia).
    rewrite <-Z.shiftl_lor, Z.shiftl_mul_pow2 by lia. f_equal.
    change (acc * 2) with (acc * 2 ^ 1). rewrite lor_add by lia. lia.
Qed.

Lemma convertVectorToInt_rev v :
  (length v <= 64)%nat -> convertVectorToInt (rev v) = Some (bits_num v).
Proof.
  intros Hv. unfold convertVectorToInt. rewrite length_rev.
  rewrite (proj2 (Nat.ltb_ge 64 _)) by lia. f_equal. rewrite <-(rev_involutive v) at 3.
  rewrite <-(Z.add_0_l (bits_num _)), <-(length_rev v) in *.
  apply (convert_loop (length (rev v)) 0 (rev v) 0); lia.
Qed.

(** *** Bytes *)

Definition byte_bits (c : Z) : list bool := map (fun j => Z.testbit c (7 - Z.of_nat j)) (seq 0 8).

Lemma convertBytes_bits bytes : convertBytesVectorToVector bytes = concat (map byte_bits bytes).
Proof.
  unfold convertBytesVectorToVector, byte_bits. f_equal. apply map_ext. intros c.
  apply map_ext_in. intros j [_ Hj]%in_seq. apply odd_bit. lia.
Qed.

Definition set_bit (bytes : list Z) '((p, b) : nat * bool) : list Z :=
  <[(p / 8)%nat := u8 (Z.lor (rd bytes (p / 8)) (Z.shiftl (Z.b2z b) (7 - Z.of_nat (p mod 8))))]> bytes.

Lemma set_bit_at pre x post j b :
  (j < 8)%nat ->
  set_bit (pre ++ x :: post) ((8 * length pre + j)%nat, b) =
  pre ++ u8 (Z.lor x (Z.shiftl (Z.b2z b) (7 - Z.of_nat j))) :: post.
Proof.
  intros Hj. unfold set_bit.
  assert ((8 * length pre + j) / 8 = length pre)%nat as -> by (symmetry; apply (Nat.div_unique _ _ _ j); lia).
  assert ((8 * length pre + j) mod 8 = j)%nat as -> by (symmetry; apply (Nat.mod_unique _ _ (length pre)); lia).
  rewrite (rd_lookup _ _ x) by (by apply list_lookup_middle).
  by rewrite insert_app_r_alt, Nat.sub_diag by lia.
Qed.

Lemma pack_byte c :
  byte_ok c ->
  foldl (fun x '(j, b) => u8 (Z.lor x (Z.shiftl (Z.b2z b) (7 - Z.of_nat j)))) 0
    (zip (seq 0 8) (byte_bits c)) = c.
Proof.
  apply (Zrange_check 256 (fun c => foldl (fun x '(j, b) =>
    u8 (Z.lor x (Z.shiftl (Z.b2z b) (7 - Z.of_nat j)))) 0 (zip (seq 0 8) (byte_bits c)) = c)).
  vm_compute. reflexivity.
Qed.

Lemma set_bits_at pre x post k v :
  (k + length v <= 8)%nat ->
  foldl set_bit (pre ++ x :: post) (zip (seq (8 * length pre + k) (length v)) v) =
  pre ++ foldl (fun x '(j, b) => u8 (Z.lor x (Z.shiftl (Z.b2z b) (7 - Z.of_nat j)))) x
           (zip (seq k (length v)) v) :: post.
Proof.
  revert k x. induction v as [| b v IH]; intros k x Hk; [done |]. cbn [length] in *.
  change (zip (seq ?a (S (length v))) (b :: v)) with ((a, b) :: zip (seq (S a) (length v)) v).
  cbn [foldl]. rewrite set_bit_at by lia. rewrite <-Nat.add_succ_r. apply IH. lia.
Qed.

Lemma pack_loop bytes pre :
  bytes_ok bytes ->
  foldl set_bit (pre ++ replicate (length bytes) 0)
    (zip (seq (8 * length pre) (length (concat (map byte_bits bytes)))) (concat (map byte_bits bytes))) =
  pre ++ bytes.
Proof.
  intros Hb. revert pre. induction Hb as [| c bytes Hc Hb IH]; intros pre; [done |].
  cbn [map concat length replicate]. rewrite zip_seq_app, foldl_app.
  rewrite <-(Nat.add_0_r (8 * length pre)) at 1.
  rewrite set_bits_at by (cbn; lia). change (length (byte_bits c)) with 8%nat. rewrite pack_byte by done.
  specialize (IH (pre ++ [c])). rewrite length_app in IH. cbn [length] in IH.
  rewrite <-!app_assoc in IH. cbn [app] in IH.
  replace (8 * length pre + 8)%nat with (8 * (length pre + 1))%nat by lia. exact IH.
Qed.

(** Writing a path of bytes packs them back. *)
Lemma pack_bits_bytes bytes :
  bytes_ok bytes -> pack_bits (convertBytesVectorToVector bytes) = bytes.
Proof.
  intros Hb. rewrite convertBytes_bits. unfold pack_bits. fold set_bit.
  assert (length (concat (map byte_bits bytes)) = 8 * length bytes)%nat as Hl.
  { clear. induction bytes as [| c bytes IH]; [done |]. cbn [map concat length].
    rewrite length_app, IH. change (length (byte_bits c)) with 8%nat. lia. }
  rewrite Hl at 1. replace ((8 * length bytes + 7) / 8)%nat with (length bytes)
    by (apply (Nat.div_unique _ _ _ 7); lia).
  apply (pack_loop bytes []). done.
Qed.

(** ** Slots

    Seen from the last leaf, a tree is one optional hash per level: the left
    sibling where the path turns right. *)
Section Proofs.
Context `{LawfulTreeHash Depth}.

Lemma troot_combine d a b :
  (length a = 2 ^ d)%nat -> combine (troot d a) (troot d b) d = troot (S d) (a ++ b).
Proof. intros Ha. cbn [troot]. by rewrite take_app_length', drop_app_length' by lia. Qed.

Lemma troot_short d c :
  (length c <= 2 ^ d)%nat -> combine (troot d c) (troot d []) d = troot (S d) c.
Proof. intros Hc. cbn [troot]. by rewrite take_ge, drop_ge by lia. Qed.

(** The slots from level [d] up hold the leaves [l], higher levels first. *)
Inductive prep : nat -> list (option hash) -> list hash -> Prop :=
| prep_nil d : prep d [] []
| prep_none d s l : prep (S d) s l -> prep d (None :: s) l
| prep_some d s l c :
    prep (S d) s l -> (length c = 2 ^ d)%nat -> prep d (Some (troot d c) :: s) (l ++ c).

Lemma prep_some_inv d p s L :
  prep d (Some p :: s) L ->
  exists l c, p = troot d c /\ L = l ++ c /\ prep (S d) s l /\ (length c = 2 ^ d)%nat.
Proof. inversion 1. subst. eauto 8. Qed.

Lemma prep_none_inv d s L : prep d (None :: s) L -> prep (S d) s L.
Proof. by inversion 1. Qed.

Lemma prep_pad d s l n : prep d s l -> prep d (s ++ replicate n None) l.
Proof.
  induction 1 as [d | d s l _ IH | d s l c _ IH Hc]; cbn [app].
  - revert d. induction n as [| n IH]; intros d; cbn [replicate]; constructor. apply IH.
  - by constructor.
  - by constructor.
Qed.

(** *** Weights: the number of leaves a list of slots holds *)

Fixpoint weight (d : nat) (s : list (option hash)) : nat :=
  match s with
  | [] => 0
  | Some _ :: s => 2 ^ d + weight (S d) s
  | None :: s => weight (S d) s
  end.

Lemma prep_weight d s l : prep d s l -> length l = weight d s.
Proof. induction 1; cbn [weight length]; rewrite ?length_app; lia. Qed.

Definition all_some (s : list (option hash)) : bool := forallb (fun p => bool_decide (is_Some p)) s.

Lemma pow2_S d : (2 ^ S d = 2 ^ d + 2 ^ d)%nat.
Proof. rewrite Nat.pow_succ_r'. lia. Qed.

Lemma pow2_pos d : (0 < 2 ^ d)%nat.
Proof. apply Nat.neq_0_lt_0, Nat.pow_nonzero. lia. Qed.

Lemma pow2_le a b : (a <= b)%nat -> (2 ^ a <= 2 ^ b)%nat.
Proof. intros. by apply Nat.pow_le_mono_r. Qed.

Lemma pow2_lt a b : (a < b)%nat -> (2 ^ a < 2 ^ b)%nat.
Proof. intros. apply Nat.pow_lt_mono_r; lia. Qed.

(** The slots are full exactly when none is empty. *)
Lemma weight_full d s :
  if all_some s then (weight d s + 2 ^ d = 2 ^ (d + length s))%nat
  else (weight d s + 2 ^ d < 2 ^ (d + length s))%nat.
Proof.
  revert d. induction s as [| [p |] s IH]; intros d; cbn [all_some forallb weight length].
  - rewrite Nat.add_0_r. lia.
  - rewrite bool_decide_eq_true_2 by eauto. cbn [andb]. fold (all_some s).
    specialize (IH (S d)). rewrite pow2_S in IH.
    replace (d + S (length s))%nat with (S d + length s)%nat by lia.
    destruct (all_some s); lia.
  - rewrite bool_decide_eq_false_2 by (by intros [? ?]). cbn [andb].
    specialize (IH (S d)). rewrite pow2_S in IH. pose proof (pow2_pos d).
    replace (d + S (length s))%nat with (S d + length s)%nat by lia.
    destruct (all_some s); lia.
Qed.

(** *** Carrying a complete subtree *)

Lemma append_parents_prep n i ps l c :
  prep (S i) ps l -> (length c = 2 ^ S i)%nat -> (length ps < n)%nat ->
  prep (S i) (append_parents n i ps (troot (S i) c)) (l ++ c).
Proof.
  revert n i l c. induction ps as [| [p |] ps IH]; intros n i l c Hp Hc Hn;
    (destruct n as [| n]; [lia |]); cbn [append_parents]; cbn [length] in Hn.
  - inversion Hp. apply prep_some; [constructor | done].
  - apply prep_some_inv in Hp as (l' & c' & -> & -> & Hp & Hc').
    apply prep_none. rewrite Nat.add_1_r, troot_combine, <-app_assoc by done.
    apply IH; [done | | lia]. rewrite length_app, (pow2_S (S i)). congruence.
  - apply prep_none_inv in Hp. by apply prep_some.
Qed.

(** The representation is canonical: the last parent is not empty. *)
Definition canonical (ps : list (option hash)) : Prop := last ps <> Some None.

Lemma append_parents_shape n i ps c :
  canonical ps -> (length ps < n)%nat ->
  append_parents n i ps c <> [] /\ canonical (append_parents n i ps c) /\
  length (append_parents n i ps c) = (if all_some ps then S (length ps) else length ps).
Proof.
  revert n i c. unfold canonical.
  induction ps as [| [p |] ps IH]; intros n i c Hc Hn; (destruct n as [| n]; [lia |]);
    cbn [append_parents]; cbn [length] in Hn.
  - done.
  - assert (last ps <> Some None) as Hc'.
    { intros E. apply Hc. rewrite last_cons, E. done. }
    destruct (IH n (S i) (combine p c (i + 1)) Hc' ltac:(lia)) as (Hne & Hca & Hl).
    split; [done |]. split.
    + rewrite last_cons. destruct (last (append_parents _ _ _ _)) eqn:E; [done |].
      by apply last_None in E.
    + cbn [length all_some forallb]. rewrite bool_decide_eq_true_2 by eauto. cbn [andb].
      fold (all_some ps). rewrite Hl. by destruct (all_some ps).
  - split; [done |]. split.
    + intros E. apply Hc. rewrite last_cons in *. by destruct (last ps).
    + done.
Qed.

(** ** Trees *)

(** [t] stands for the leaves [L] and fits in depth [D]. *)
Inductive rep (D : nat) : tree -> list hash -> Prop :=
| rep_empty : rep D empty_tree []
| rep_left x ps l :
    prep 1 ps l -> (S (length ps) <= D)%nat -> canonical ps ->
    rep D (Tree (Some x) None ps) (l ++ [x])
| rep_right x y ps l :
    prep 1 ps l -> (S (length ps) <= D)%nat -> canonical ps ->
    rep D (Tree (Some x) (Some y) ps) (l ++ [x; y]).

Lemma rep_weaken D D' t L : (D <= D')%nat -> rep D t L -> rep D' t L.
Proof. intros HD. destruct 1; constructor; auto; lia. Qed.

Lemma rep_length_le D t L : (1 <= D)%nat -> rep D t L ->
  if is_complete t D then (length L = 2 ^ D)%nat else (length L < 2 ^ D)%nat.
Proof.
  intros HD. destruct 1 as [| x ps l Hp Hl Hc | x y ps l Hp Hl Hc];
    cbn [is_complete left right parents empty_tree].
  - apply pow2_pos.
  - rewrite length_app, (prep_weight _ _ _ Hp). cbn [length].
    pose proof (weight_full 1 ps) as Hw. pose proof (pow2_le (1 + length ps) D ltac:(lia)).
    change (2 ^ 1)%nat with 2%nat in Hw. destruct (all_some ps); lia.
  - rewrite length_app, (prep_weight _ _ _ Hp). cbn [length].
    pose proof (weight_full 1 ps) as Hw. change (2 ^ 1)%nat with 2%nat in Hw.
    fold (all_some ps).
    destruct (Nat.eqb_spec (S (length ps)) D) as [<- | Hne]; cbn [negb].
    + change (1 + length ps)%nat with (S (length ps)) in Hw. destruct (all_some ps); lia.
    + pose proof (pow2_lt (1 + length ps) D ltac:(lia)). destruct (all_some ps); lia.
Qed.

Lemma is_complete_length D t L :
  (1 <= D)%nat -> rep D t L -> is_complete t D = bool_decide (length L = 2 ^ D)%nat.
Proof.
  intros HD Hr. pose proof (rep_length_le D t L HD Hr).
  destruct (is_complete t D); symmetry; [apply bool_decide_eq_true_2 | apply bool_decide_eq_false_2]; lia.
Qed.

(** [append] on a tree that is not full. *)
Lemma append_rep D t L x :
  (1 <= D <= Depth)%nat -> rep D t L -> (length L < 2 ^ D)%nat ->
  exists t', append Depth t x = Some t' /\ rep D t' (L ++ [x]).
Proof.
  intros HD Hr Hlt.
  assert (is_complete t Depth = false) as Hnc.
  { rewrite (is_complete_length Depth t L) by (lia || (eapply rep_weaken; [| done]; lia)).
    apply bool_decide_eq_false_2. pose proof (pow2_le D Depth ltac:(lia)). lia. }
  unfold append. rewrite Hnc. eexists. split; [reflexivity |].
  destruct Hr as [| a ps l Hp Hl Hc | a b ps l Hp Hl Hc]; cbn [left right parents empty_tree].
  - apply (rep_left D x [] []); [constructor | cbn; lia | done].
  - rewrite <-app_assoc. by apply rep_right.
  - assert (length ps < Depth)%nat as Hd by lia.
    destruct (append_parents_shape Depth 0 ps (combine a b 0) Hc Hd) as (_ & Hca & Hlen).
    apply rep_left.
    + change (combine a b 0) with (troot 1 [a; b]). by apply append_parents_prep.
    + rewrite Hlen. pose proof (weight_full 1 ps) as Hw. change (2 ^ 1)%nat with 2%nat in Hw.
      rewrite length_app, (prep_weight _ _ _ Hp) in Hlt. cbn [length] in Hlt.
      destruct (all_some ps); [| lia].
      assert (2 ^ (1 + length ps) < 2 ^ D)%nat as Hlt' by lia.
      apply Nat.pow_lt_mono_r_iff in Hlt'; lia.
    + done.
Qed.

Lemma append_full t L x :
  (1 <= Depth)%nat -> rep Depth t L -> (length L = 2 ^ Depth)%nat -> append Depth t x = None.
Proof.
  intros HD Hr Hl. unfold append. rewrite (is_complete_length Depth t L) by done.
  by rewrite bool_decide_eq_true_2.
Qed.

Lemma append_all_rep D t L xs :
  (1 <= D <= Depth)%nat -> rep D t L -> (length L + length xs <= 2 ^ D)%nat ->
  exists t', append_all Depth t xs = Some t' /\ rep D t' (L ++ xs).
Proof.
  intros HD. revert t L. induction xs as [| x xs IH]; intros t L Hr Hl.
  - exists t. by rewrite app_nil_r.
  - cbn [length] in Hl. destruct (append_rep D t L x HD Hr ltac:(lia)) as (t1 & E & Hr1).
    destruct (IH t1 (L ++ [x]) Hr1) as (t2 & E2 & Hr2).
    { rewrite length_app. cbn [length]. lia. }
    exists t2. cbn [append_all]. rewrite E. cbn [mbind option_bind].
    by rewrite <-app_assoc in Hr2.
Qed.

Lemma rep_wfcheck D t L : (1 <= D <= Depth)%nat -> rep D t L -> wfcheck Depth t = true.
Proof.
  intros HD. unfold wfcheck.
  destruct 1 as [| x ps l Hp Hl Hc | x y ps l Hp Hl Hc]; cbn [left right parents empty_tree length last].
  - destruct (Nat.leb_spec Depth 0); [lia | done].
  - destruct (Nat.leb_spec Depth (length ps)); [lia |]. by rewrite bool_decide_eq_false_2.
  - destruct (Nat.leb_spec Depth (length ps)); [lia |]. by rewrite bool_decide_eq_false_2.
Qed.

Lemma rep_last_leaf D t L : rep D t L -> last_leaf t = last L.
Proof.
  destruct 1 as [| x ps l _ _ _ | x y ps l _ _ _]; [done | |]; cbn [last_leaf right left].
  - by rewrite last_snoc.
  - by rewrite (app_assoc l [x] [y] : l ++ [x; y] = _), last_snoc.
Qed.

(** *** Size *)

Lemma size_parents_weight i ps ret :
  (weight (S i) ps < 2 ^ 31)%nat -> 0 <= ret -> ret + Z.of_nat (weight (S i) ps) < 2 ^ 64 ->
  size_parents i ps ret = Some (ret + Z.of_nat (weight (S i) ps)).
Proof.
  revert i ret. induction ps as [| [p |] ps IH]; intros i ret Hw Hr Hb; cbn [size_parents weight] in *.
  - f_equal. lia.
  - assert (S i < 31)%nat as Hi.
    { apply (Nat.pow_lt_mono_r_iff 2); lia. }
    rewrite (proj2 (Nat.ltb_lt (i + 1) 32)) by lia.
    assert (Z.of_nat (2 ^ S i) = 2 ^ Z.of_nat (i + 1)) as Hp.
    { rewrite Nat2Z.inj_pow. f_equal. lia. }
    assert (0 < 2 ^ Z.of_nat (i + 1) <= 2 ^ 30) as Hp30.
    { split; [lia |]. apply Z.pow_le_mono_r; lia. }
    rewrite Z.shiftl_mul_pow2, Z.mul_1_l, s32_id by (unfold is_s32; lia).
    rewrite u64_id by (unfold is_u; lia). rewrite IH by lia. f_equal. lia.
  - by apply IH.
Qed.

Lemma rep_size D t L :
  rep D t L -> (length L <= 2 ^ 31)%nat -> size t = Some (Zlen L).
Proof.
  intros Hr Hl. assert (Z.of_nat (length L) <= 2 ^ 31) as Hz.
  { change (2 ^ 31) with (Z.of_nat 2 ^ Z.of_nat 31). rewrite <-Nat2Z.inj_pow. lia. }
  unfold size, Zlen. destruct Hr as [| x ps l Hp _ _ | x y ps l Hp _ _]; [done | |];
    cbn [left right parents]; rewrite length_app in *; cbn [length] in *;
    rewrite (prep_weight _ _ _ Hp) in *; rewrite size_parents_weight by lia; f_equal; lia.
Qed.

(** ** Roots *)

(** Slots of a tree with at least one leaf, padded to [n] levels. *)
Definition slots (t : tree) (n : nat) : list (option hash) :=
  (if right t is Some _ then left t else None) :: parents t ++
  replicate (n - S (length (parents t))) None.

Lemma length_slots t n : (S (length (parents t)) <= n)%nat -> length (slots t n) = n.
Proof. intros. unfold slots. cbn [length]. rewrite length_app, length_replicate. lia. Qed.

(** A tree with a leaf: the last one, and the slots hold the others. *)
Lemma rep_slots D t L n :
  rep D t L -> L <> [] -> (D <= n)%nat ->
  exists l x, L = l ++ [x] /\ last_leaf t = Some x /\ is_Some (left t) /\
    prep 0 (slots t n) l /\ length (slots t n) = n.
Proof.
  intros Hr HL HD. destruct Hr as [| x ps l Hp Hl _ | x y ps l Hp Hl _]; [done | |].
  - exists l, x. repeat (split; [by eauto |]). split.
    + apply prep_none, prep_pad, Hp.
    + apply length_slots. cbn [parents]. lia.
  - exists (l ++ [x]), y. rewrite <-app_assoc. repeat (split; [by eauto |]). split.
    + apply (prep_some 0 _ l [x]); [apply prep_pad, Hp | done].
    + apply length_slots. cbn [parents]. lia.
Qed.

Lemma root_fill_parents n d r q :
  root_fill n d r q = ('(r, _) ← root_parents (replicate n None) d r q; Some r).
Proof.
  revert d r q. induction n as [| n IH]; intros d r q; [done |]. cbn [root_fill replicate root_parents].
  destruct (next q d) as [[h q'] |]; [| done]. cbn [mbind option_bind]. apply IH.
Qed.

Lemma root_parents_app s1 s2 d r q :
  root_parents (s1 ++ s2) d r q =
  ('(r, q) ← root_parents s1 d r q; root_parents s2 (d + length s1) r q).
Proof.
  revert d r q. induction s1 as [| [p |] s1 IH]; intros d r q; cbn [app root_parents length].
  - cbn [mbind option_bind]. by rewrite Nat.add_0_r.
  - rewrite IH. by rewrite Nat.add_succ_r.
  - destruct (next q d) as [[h q'] |]; [| done]. cbn [mbind option_bind].
    rewrite IH. by rewrite Nat.add_succ_r.
Qed.

(** [root] is one climb over the slots. *)
Lemma root_slots t x n q :
  is_Some (left t) -> last_leaf t = Some x ->
  root t n q = ('(r, _) ← root_parents (slots t n) 0 x q; Some r).
Proof.
  intros [a Ha] Hx. unfold root, slots. destruct t as [l r ps]. cbn [left right parents] in *. subst l.
  cbn [leaf_or_next mbind option_bind].
  destruct r as [b |]; cbn [last_leaf right left] in Hx; injection Hx as <-;
    cbn [leaf_or_next mbind option_bind root_parents].
  - rewrite root_parents_app. destruct (root_parents ps 1 _ q) as [[r q'] |]; [| done].
    cbn [mbind option_bind]. by rewrite root_fill_parents.
  - destruct (next q 0) as [[h q1] |]; [| done]. cbn [mbind option_bind].
    rewrite root_parents_app. destruct (root_parents ps 1 _ q1) as [[r q'] |]; [| done].
    cbn [mbind option_bind]. by rewrite root_fill_parents.
Qed.

Lemma next_empty d : (d <= Depth)%nat -> next [] d = Some (troot d [], []).
Proof. intros. cbn [next]. by rewrite EmptyRoot_spec. Qed.

(** Climbing with nothing to the right. *)
Lemma climb_empty d s l c :
  prep d s l -> (length c <= 2 ^ d)%nat -> (d + length s <= Depth)%nat ->
  root_parents s d (troot d c) [] = Some (troot (d + length s) (l ++ c), []).
Proof.
  revert d l c. induction s as [| [p |] s IH]; intros d l c Hp Hc Hd; cbn [root_parents length] in *.
  - inversion Hp. by rewrite Nat.add_0_r.
  - apply prep_some_inv in Hp as (l' & c' & -> & -> & Hp & Hc').
    rewrite troot_combine, Nat.add_succ_r, <-app_assoc by done.
    apply (IH (S d)); [done | rewrite length_app, pow2_S; lia | cbn; lia].
  - apply prep_none_inv in Hp. rewrite next_empty by lia. cbn [mbind option_bind].
    rewrite troot_short, Nat.add_succ_r by done. apply (IH (S d)); [done | rewrite pow2_S; lia | cbn; lia].
Qed.

Lemma rep_root D t L n :
  rep D t L -> (1 <= D <= n)%nat -> (n <= Depth)%nat -> root t n [] = Some (troot n L).
Proof.
  intros Hr HD Hn. destruct (decide (L = [])) as [-> | HL].
  - inversion Hr as [E | x ps l _ _ _ E1 E | x y ps l _ _ _ E1 E];
      [| by destruct l | by destruct l].
    unfold root. cbn [empty_tree left right parents leaf_or_next]. rewrite next_empty by lia.
    cbn [mbind option_bind leaf_or_next]. rewrite next_empty by lia. cbn [mbind option_bind root_parents length].
    rewrite troot_short by (cbn; lia). rewrite root_fill_parents.
    assert (prep 1 (replicate (n - 1) None) []) as Hp by apply (prep_pad 1 [] []), prep_nil.
    rewrite (climb_empty 1 _ [] []) by (done || (rewrite ?length_replicate; cbn [length]; pose proof (pow2_pos 1); lia)).
    cbn [mbind option_bind]. rewrite length_replicate. do 2 f_equal. lia.
  - destruct (rep_slots D t L n Hr HL ltac:(lia)) as (l & x & -> & Hx & Hs & Hp & Hlen).
    rewrite (root_slots t x n []) by done.
    change x with (troot 0 [x]) at 1. rewrite (climb_empty 0 _ l [x]) by (done || (cbn [length Nat.pow]; lia)).
    cbn [mbind option_bind]. by rewrite Hlen.
Qed.

(** ** Witnesses *)

(** The depth of the [k]-th empty slot. *)
Lemma next_depth_parents_pad ps d n k :
  next_depth_parents (ps ++ replicate n None) d k = next_depth_parents ps d k.
Proof.
  revert d k. induction ps as [| [p |] ps IH]; intros d k; cbn [app next_depth_parents].
  - revert d k. induction n as [| n IH]; intros d k; cbn [replicate next_depth_parents]; [done |].
    destruct k as [| k]; [lia |]. rewrite IH. lia.
  - apply IH.
  - destruct k; [done | apply IH].
Qed.

Lemma next_depth_slots t n k :
  is_Some (left t) -> next_depth t k = next_depth_parents (slots t n) 0 k.
Proof.
  intros [a Ha]. unfold next_depth, slots. rewrite Ha. cbn [next_depth_leaf].
  destruct (right t) as [b |]; cbn [next_depth_leaf next_depth_parents].
  - by rewrite next_depth_parents_pad.
  - destruct k; [done |]. by rewrite next_depth_parents_pad.
Qed.

(** The empty slots hold complete subtrees [q] with the leaves [m]. *)
Inductive filled_by : nat -> list (option hash) -> list hash -> list hash -> Prop :=
| fb_nil d s : filled_by d s [] []
| fb_some d p s q m : filled_by (S d) s q m -> filled_by d (Some p :: s) q m
| fb_none d s f q m :
    (length f = 2 ^ d)%nat -> filled_by (S d) s q m ->
    filled_by d (None :: s) (troot d f :: q) (f ++ m).

(** One more subtree, complete or not. *)
Inductive covered_by : nat -> list (option hash) -> list hash -> list hash -> Prop :=
| cb_nil d s : covered_by d s [] []
| cb_some d p s q m : covered_by (S d) s q m -> covered_by d (Some p :: s) q m
| cb_none d s f q m :
    (length f = 2 ^ d)%nat -> covered_by (S d) s q m ->
    covered_by d (None :: s) (troot d f :: q) (f ++ m)
| cb_last d s f : (length f <= 2 ^ d)%nat -> covered_by d (None :: s) [troot d f] f.

Lemma filled_covered d s q m : filled_by d s q m -> covered_by d s q m.
Proof. induction 1; by constructor. Qed.

Lemma filled_by_nil_inv d s m : filled_by d s [] m -> m = [].
Proof. remember [] as q eqn:E. induction 1; [done | auto | done]. Qed.

(** What is in the first empty slot after those of [q]. *)
Lemma filled_snoc d s q m f :
  filled_by d s q m -> (next_depth_parents s d (length q) < d + length s)%nat ->
  let h := next_depth_parents s d (length q) in
  ((length f = 2 ^ h)%nat -> filled_by d s (q ++ [troot h f]) (m ++ f)) /\
  ((length f <= 2 ^ h)%nat -> covered_by d s (q ++ [troot h f]) (m ++ f)).
Proof.
  revert d q m. induction s as [| [p |] s IH]; intros d q m Hq Hh; cbn [next_depth_parents length] in *.
  - lia.
  - assert (filled_by (S d) s q m) as Hq'.
    { inversion Hq; subst; [constructor | done]. }
    destruct (IH (S d) q m Hq' ltac:(lia)) as [H1 H2].
    split; intros Hf; constructor; auto.
  - destruct q as [| r q]; cbn [length app] in *.
    + apply filled_by_nil_inv in Hq as ->. cbn [app]. split; intros Hf.
      * rewrite <-(app_nil_r f) at 2. constructor; [done | constructor].
      * by constructor.
    + inversion Hq as [| | d' s' g q' m' Hg Hq' E1 E2 E3 E4]. subst.
      destruct (IH (S d) q m' Hq' ltac:(lia)) as [H1 H2].
      rewrite <-app_assoc. split; intros Hf; (apply fb_none || apply cb_none); auto.
Qed.

(** How much room is left. *)
Lemma filled_room d s q l m :
  prep d s l -> filled_by d s q m ->
  let h := next_depth_parents s d (length q) in
  if (h <? d + length s)%nat then (length l + 2 ^ d + length m + 2 ^ h <= 2 ^ (d + length s))%nat
  else (length l + 2 ^ d + length m = 2 ^ (d + length s))%nat.
Proof.
  revert d q l m. induction s as [| [p |] s IH]; intros d q l m Hp Hq; cbn [next_depth_parents length].
  - inversion Hp. inversion Hq. subst. cbn [length]. rewrite !Nat.add_0_r, Nat.ltb_irrefl. lia.
  - apply prep_some_inv in Hp as (l' & c & _ & -> & Hp & Hc).
    assert (filled_by (S d) s q m) as Hq' by (inversion Hq; subst; [constructor | done]).
    specialize (IH (S d) q l' m Hp Hq'). cbv zeta in *. rewrite pow2_S in IH.
    replace (d + S (length s))%nat with (S d + length s)%nat by lia.
    rewrite length_app. destruct (_ <? _)%nat; lia.
  - apply prep_none_inv in Hp. replace (d + S (length s))%nat with (S d + length s)%nat by lia.
    destruct q as [| r q]; cbn [length].
    + apply filled_by_nil_inv in Hq as ->. cbv zeta. rewrite (proj2 (Nat.ltb_lt _ _)) by lia.
      rewrite (prep_weight _ _ _ Hp). pose proof (weight_full (S d) s) as Hw.
      rewrite pow2_S in Hw. cbn [length]. destruct (all_some s); lia.
    + inversion Hq as [| | d' s' g q' m' Hg Hq' E1 E2 E3 E4]. subst.
      specialize (IH (S d) q l m' Hp Hq'). cbv zeta in *. rewrite pow2_S in IH.
      rewrite length_app. destruct (_ <? _)%nat; lia.
Qed.

(** Climbing from a complete subtree with the fillers of a witness. *)
Lemma climb_covered d s l c q m :
  prep d s l -> (length c = 2 ^ d)%nat -> covered_by d s q m -> (d + length s <= Depth)%nat ->
  exists q', root_parents s d (troot d c) q = Some (troot (d + length s) (l ++ c ++ m), q').
Proof.
  intros Hp Hc Hq. revert l c Hp Hc.
  induction Hq as [d s | d p s q m _ IH | d s f q m Hf _ IH | d s f Hf];
    intros l c Hp Hc Hd; cbn [length] in Hd.
  - exists []. rewrite app_nil_r. apply climb_empty; [done | lia | done].
  - apply prep_some_inv in Hp as (l' & c' & -> & -> & Hp & Hc'). cbn [root_parents length].
    rewrite troot_combine, Nat.add_succ_r, <-app_assoc, (app_assoc c') by done.
    apply (IH l'); [done | rewrite length_app, pow2_S; lia | lia].
  - apply prep_none_inv in Hp. cbn [root_parents next mbind option_bind length].
    rewrite troot_combine, Nat.add_succ_r, (app_assoc c) by done.
    apply (IH l); [done | rewrite length_app, pow2_S; lia | lia].
  - apply prep_none_inv in Hp. cbn [root_parents next mbind option_bind length].
    rewrite troot_combine, Nat.add_succ_r by done. exists [].
    apply (climb_empty (S d)); [done | rewrite length_app, pow2_S; lia | lia].
Qed.

(** The witness [w] was taken at the last leaf of [L] and has seen [m] since:
    complete subtrees, then the tree in progress. *)
Definition in_progress (w : witness) (m : list hash) : Prop :=
  match cursor w with
  | None => m = []
  | Some c =>
    cursor_depth w = next_depth (w_tree w) (length (filled w)) /\
    (1 <= cursor_depth w < Depth)%nat /\ rep (cursor_depth w) c m /\
    (0 < length m < 2 ^ cursor_depth w)%nat
  end.

Record wrep (w : witness) (L m : list hash) : Prop := {
  wr_tree : rep Depth (w_tree w) L;
  wr_leaf : L <> [];
  wr_filled : exists m1 m2, m = m1 ++ m2 /\
    filled_by 0 (slots (w_tree w) Depth) (filled w) m1 /\ in_progress w m2
}.

Lemma wrep_start t L : rep Depth t L -> L <> [] -> wrep (witness_of t) L [].
Proof. intros. split; [done | done |]. exists [], []. split; [done |]. split; [constructor | done]. Qed.

(** The room left, at the depth of the next subtree. *)
Lemma wrep_room w L m1 :
  (1 <= Depth)%nat -> rep Depth (w_tree w) L -> L <> [] ->
  filled_by 0 (slots (w_tree w) Depth) (filled w) m1 ->
  let h := next_depth (w_tree w) (length (filled w)) in
  if (h <? Depth)%nat then (length L + length m1 + 2 ^ h <= 2 ^ Depth)%nat
  else (length L + length m1 = 2 ^ Depth)%nat.
Proof.
  intros HD Hr HL Hf.
  destruct (rep_slots Depth _ L Depth Hr HL ltac:(lia)) as (l & x & -> & Hx & Hs & Hp & Hlen).
  pose proof (filled_room 0 _ _ l m1 Hp Hf) as H1. cbv zeta in *.
  rewrite (next_depth_slots _ Depth) by done. rewrite Hlen in H1. cbn [Nat.add Nat.pow] in H1.
  rewrite length_app. cbn [length]. destruct (_ <? _)%nat; lia.
Qed.

(** A complete subtree becomes part of the filled ones. *)
Lemma wrep_fill w L m1 f d :
  (1 <= Depth)%nat -> rep Depth (w_tree w) L -> L <> [] ->
  filled_by 0 (slots (w_tree w) Depth) (filled w) m1 ->
  (next_depth (w_tree w) (length (filled w)) < Depth)%nat ->
  (length f = 2 ^ next_depth (w_tree w) (length (filled w)))%nat ->
  wrep (Witness (w_tree w)
          (filled w ++ [troot (next_depth (w_tree w) (length (filled w))) f]) None d) L (m1 ++ f).
Proof.
  intros HD Hr HL Hf Hh Hlf. split; [done | done |]. exists (m1 ++ f), []. cbn [w_tree filled].
  rewrite app_nil_r. split; [done |]. split; [| done].
  destruct (rep_slots Depth _ L Depth Hr HL ltac:(lia)) as (l & x & -> & Hx & Hs & Hp & Hlen).
  rewrite (next_depth_slots _ Depth) in * by done.
  apply filled_snoc; [done | rewrite Hlen; cbn [Nat.add]; lia | done].
Qed.

Lemma append_leaf x :
  (1 <= Depth)%nat -> append Depth empty_tree x = Some (Tree (Some x) None []).
Proof. done. Qed.

(** [append] of a witness: it fails exactly when the tree is full. *)
Lemma witness_append_wrep w L m y :
  (1 <= Depth)%nat -> wrep w L m ->
  if (length L + length m <? 2 ^ Depth)%nat then
    exists w', witness_append Depth w y = Some w' /\ w_tree w' = w_tree w /\ wrep w' L (m ++ [y])
  else (length L + length m = 2 ^ Depth)%nat /\ witness_append Depth w y = None.
Proof.
  intros HD [Hr HL (m1 & m2 & -> & Hf & Hp)].
  pose proof (wrep_room w L m1 HD Hr HL Hf) as Hroom. cbv zeta in Hroom.
  unfold witness_append. unfold in_progress in Hp. rewrite length_app.
  destruct (cursor w) as [c |] eqn:Ec.
  - destruct Hp as (Hcd & Hd & Hc & Hm2). rewrite <-Hcd in Hroom.
    rewrite (proj2 (Nat.ltb_lt (cursor_depth w) Depth)) in Hroom by lia.
    rewrite (proj2 (Nat.ltb_lt _ (2 ^ Depth))) by lia.
    destruct (append_rep (cursor_depth w) c m2 y ltac:(lia) Hc ltac:(lia)) as (c' & -> & Hc').
    cbn [mbind option_bind]. rewrite (is_complete_length (cursor_depth w) c' _ ltac:(lia) Hc'), <-app_assoc.
    case_bool_decide as Hfull.
    + rewrite (rep_root (cursor_depth w) _ (m2 ++ [y])) by (done || lia). cbn [mbind option_bind].
      eexists. split; [reflexivity |]. split; [done |]. rewrite Hcd in *.
      apply wrep_fill; auto; lia.
    + eexists. split; [reflexivity |]. split; [done |]. split; [done | done |].
      exists m1, (m2 ++ [y]). split; [done |]. split; [done |].
      cbn [in_progress cursor cursor_depth w_tree filled]. rewrite length_app in *. cbn [length] in *.
      split; [done |]. split; [lia |]. split; [done | lia].
  - subst m2. rewrite app_nil_r. cbn [length]. rewrite Nat.add_0_r.
    destruct (Nat.ltb_spec (next_depth (w_tree w) (length (filled w))) Depth) as [Hlt | Hge].
    + pose proof (pow2_pos (next_depth (w_tree w) (length (filled w)))).
      rewrite (proj2 (Nat.ltb_lt _ (2 ^ Depth))) by lia.
      rewrite (proj2 (Nat.leb_gt Depth _)) by lia.
      destruct (Nat.eqb_spec (next_depth (w_tree w) (length (filled w))) 0) as [E0 | E0].
      * eexists. split; [reflexivity |]. split; [done |].
        pose proof (wrep_fill w L m1 [y] (next_depth (w_tree w) (length (filled w)))
          HD Hr HL Hf Hlt) as Hw. rewrite E0 in *. by apply Hw.
      * rewrite append_leaf by done. cbn [mbind option_bind]. eexists. split; [reflexivity |].
        split; [done |]. split; [done | done |]. exists m1, [y].
        split; [done |]. split; [done |]. cbn [in_progress cursor cursor_depth w_tree filled length].
        split; [done |]. split; [lia |]. split.
        -- apply (rep_left _ y [] []); [constructor | cbn; lia | done].
        -- pose proof (pow2_lt 0 _ (proj1 (Nat.neq_0_lt_0 _) E0)). cbn [Nat.pow] in *. lia.
    + rewrite (proj2 (Nat.ltb_ge _ (2 ^ Depth))) by lia.
      by rewrite (proj2 (Nat.leb_le Depth _)) by lia.
Qed.

Lemma witness_append_all_wrep w L m ys :
  (1 <= Depth)%nat -> wrep w L m -> (length L + length m + length ys <= 2 ^ Depth)%nat ->
  exists w', witness_append_all Depth w ys = Some w' /\ w_tree w' = w_tree w /\ wrep w' L (m ++ ys).
Proof.
  intros HD. revert w m. induction ys as [| y ys IH]; intros w m Hw Hl.
  - exists w. by rewrite app_nil_r.
  - cbn [length] in Hl. pose proof (witness_append_wrep w L m y HD Hw) as H1.
    rewrite (proj2 (Nat.ltb_lt _ _)) in H1 by lia. destruct H1 as (w1 & E1 & Et & Hw1).
    destruct (IH w1 (m ++ [y]) Hw1) as (w2 & E2 & Et2 & Hw2).
    { rewrite length_app. cbn [length]. lia. }
    exists w2. cbn [witness_append_all]. rewrite E1. cbn [mbind option_bind].
    rewrite <-app_assoc in Hw2. split; [done |]. split; [congruence | done].
Qed.

(** The fillers cover what was appended since. *)
Lemma wrep_uncles w L m :
  (1 <= Depth)%nat -> wrep w L m ->
  exists q, partial_path w = Some q /\ covered_by 0 (slots (w_tree w) Depth) q m.
Proof.
  intros HD [Hr HL (m1 & m2 & -> & Hf & Hp)]. unfold partial_path. unfold in_progress in Hp.
  destruct (cursor w) as [c |].
  - destruct Hp as (Hcd & Hd & Hc & Hm2).
    rewrite (rep_root (cursor_depth w) _ m2) by (done || lia). cbn [mbind option_bind].
    eexists. split; [done |].
    destruct (rep_slots Depth _ L Depth Hr HL ltac:(lia)) as (l & x & -> & Hx & Hs & Hpr & Hlen).
    rewrite Hcd in *. rewrite (next_depth_slots _ Depth) in * by done.
    apply filled_snoc; [done | rewrite Hlen; cbn [Nat.add]; lia | lia].
  - subst. rewrite app_nil_r. eexists. split; [done |]. by apply filled_covered.
Qed.

Lemma wrep_root w L m :
  (1 <= Depth)%nat -> wrep w L m -> witness_root Depth w = Some (troot Depth (L ++ m)).
Proof.
  intros HD Hw. destruct (wrep_uncles w L m HD Hw) as (q & Eq & Hq). destruct Hw as [Hr HL _].
  unfold witness_root. rewrite Eq. cbn [mbind option_bind].
  destruct (rep_slots Depth _ L Depth Hr HL ltac:(lia)) as (l & x & -> & Hx & Hs & Hp & Hlen).
  rewrite (root_slots _ x) by done.
  destruct (climb_covered 0 _ l [x] q m Hp eq_refl Hq ltac:(cbn [Nat.add]; lia)) as (q' & E).
  cbn [troot] in E. rewrite E. cbn [mbind option_bind Nat.add]. by rewrite Hlen, <-app_assoc.
Qed.

Lemma wrep_reload w L m : (1 <= Depth)%nat -> wrep w L m ->
  wrep (reload w) L m /\ (is_Some (cursor w) -> reload w = w).
Proof.
  intros HD [Hr HL (m1 & m2 & -> & Hf & Hp)]. split.
  - split; [done | done |]. exists m1, m2. split; [done |]. split; [done |].
    unfold in_progress, reload in *. cbn [cursor cursor_depth w_tree filled].
    destruct (cursor w); [| done]. destruct Hp as (E & Hp). rewrite <-E. by split.
  - intros [c Ec]. unfold in_progress in Hp. rewrite Ec in Hp. destruct Hp as (E & _).
    unfold reload. rewrite <-E. by destruct w.
Qed.

(** ** Authentication paths *)

Definition is_some (p : option hash) : bool := if p is Some _ then true else false.

(** The entries follow the slots, and climbing them is [root]. *)
Lemma path_parents_climb s d r q r' q' :
  root_parents s d r q = Some (r', q') ->
  exists es, path_parents s d q = Some (es, q') /\ climb d r es = r' /\ map fst es = map is_some s.
Proof.
  revert d r q. induction s as [| [p |] s IH]; intros d r q E; cbn [root_parents path_parents] in *.
  - injection E as <- <-. by exists [].
  - destruct (IH _ _ _ E) as (es & -> & Hc & Hm). exists ((true, p) :: es).
    cbn [climb map fst is_some]. by rewrite Hm.
  - destruct (next q d) as [[h q1] |]; [| done]. cbn [mbind option_bind] in *.
    destruct (IH _ _ _ E) as (es & -> & Hc & Hm). exists ((false, h) :: es).
    cbn [climb map fst is_some]. by rewrite Hm.
Qed.

Lemma path_fill_parents n d q :
  path_fill n d q = ('(es, _) ← path_parents (replicate n None) d q; Some es).
Proof.
  revert d q. induction n as [| n IH]; intros d q; [done |]. cbn [path_fill replicate path_parents].
  destruct (next q d) as [[h q'] |]; [| done]. cbn [mbind option_bind]. rewrite IH.
  by destruct (path_parents _ _ _) as [[es q''] |].
Qed.

Lemma path_parents_app s1 s2 d q :
  path_parents (s1 ++ s2) d q =
  ('(es1, q) ← path_parents s1 d q; '(es2, q) ← path_parents s2 (d + length s1) q; Some (es1 ++ es2, q)).
Proof.
  revert d q. induction s1 as [| [p |] s1 IH]; intros d q; cbn [app path_parents length].
  - cbn [mbind option_bind]. rewrite Nat.add_0_r. by destruct (path_parents s2 d q) as [[es q'] |].
  - rewrite IH, Nat.add_succ_r. destruct (path_parents s1 _ q) as [[es q'] |]; [| done].
    cbn [mbind option_bind]. by destruct (path_parents s2 _ q') as [[es2 q2] |].
  - destruct (next q d) as [[h q1] |]; [| done]. cbn [mbind option_bind].
    rewrite IH, Nat.add_succ_r. destruct (path_parents s1 _ q1) as [[es q'] |]; [| done].
    cbn [mbind option_bind]. by destruct (path_parents s2 _ q') as [[es2 q2] |].
Qed.

Definition path_of_entries (es : list (bool * hash)) : MerklePath :=
  MkMerklePath (rev (map (fun e => convertBytesVectorToVector e.2) es)) (rev (map fst es)).

Lemma path_slots t q :
  is_Some (left t) ->
  path Depth t q = ('(es, _) ← path_parents (slots t Depth) 0 q; Some (path_of_entries es)).
Proof.
  intros [a Ha]. unfold path, slots. rewrite Ha.
  assert (forall e q1,
    ('(es, filler) ← path_parents (parents t) 1 q1;
     es' ← path_fill (Depth - S (length (parents t))) (S (length (parents t))) filler;
     Some (path_of_entries (e :: es ++ es'))) =
    ('(es, _) ← path_parents (parents t ++ replicate (Depth - S (length (parents t))) None) 1 q1;
     Some (path_of_entries (e :: es)))) as Hes.
  { intros e q1. rewrite path_parents_app.
    destruct (path_parents (parents t) 1 q1) as [[es q2] |]; [| done]. cbn [mbind option_bind].
    rewrite path_fill_parents. cbn [Nat.add].
    by destruct (path_parents (replicate _ None) _ q2) as [[es2 q3] |]. }
  destruct (right t) as [b |]; cbn [path_leaf mbind option_bind path_parents].
  - etransitivity; [apply Hes |]. by destruct (path_parents _ 1 q) as [[es q'] |].
  - destruct (next q 0) as [[h q1] |]; [| done]. cbn [mbind option_bind].
    etransitivity; [apply Hes |]. by destruct (path_parents _ 1 q1) as [[es q'] |].
Qed.

(** *** Every hash is 32 bytes *)

Lemma troot_ok d l : Forall Roots.hash_ok l -> Roots.hash_ok (troot d l).
Proof.
  revert l. induction d as [| d IH]; intros l Hl; cbn [troot].
  - destruct Hl; [apply uncommitted_ok | done].
  - apply combine_ok; apply IH; [by apply Forall_take | by apply Forall_drop].
Qed.

Lemma prep_ok d s l :
  prep d s l -> Forall Roots.hash_ok l -> Forall (fun p => forall h, p = Some h -> Roots.hash_ok h) s.
Proof.
  induction 1 as [d | d s l _ IH | d s l c _ IH _]; intros Hl.
  - constructor.
  - constructor; [done | auto].
  - apply Forall_app in Hl as [Hl Hc]. constructor; [| auto]. intros h [= <-]. by apply (troot_ok d).
Qed.

Lemma covered_ok d s q m : covered_by d s q m -> Forall Roots.hash_ok m -> Forall Roots.hash_ok q.
Proof.
  induction 1 as [d s | d p s q m _ IH | d s f q m _ _ IH | d s f _]; intros Hm.
  - constructor.
  - auto.
  - apply Forall_app in Hm as [Hf Hm]. constructor; [by apply troot_ok | auto].
  - constructor; [by apply troot_ok | constructor].
Qed.

Lemma path_parents_ok s d q es q' :
  Forall (fun p => forall h, p = Some h -> Roots.hash_ok h) s -> Forall Roots.hash_ok q ->
  (d + length s <= Depth)%nat ->
  path_parents s d q = Some (es, q') -> Forall (fun e => Roots.hash_ok e.2) es.
Proof.
  intros Hs. revert d q es. induction Hs as [| p s Hp _ IH]; intros d q es Hq Hd E; cbn [path_parents] in E.
  - injection E as <- <-. constructor.
  - cbn [length] in Hd. destruct p as [p |].
    + destruct (path_parents s (S d) q) as [[es1 q1] |] eqn:E1; [| done]. injection E as <- <-.
      constructor; [by apply Hp | by apply (IH (S d) q); [| lia |]].
    + destruct (next q d) as [[h q1] |] eqn:En; [| done]. cbn [mbind option_bind] in E.
      destruct (path_parents s (S d) q1) as [[es1 q2] |] eqn:E1; [| done]. injection E as <- <-.
      assert (Roots.hash_ok h /\ Forall Roots.hash_ok q1) as [Hh Hq1].
      { destruct q as [| h' q0]; [rewrite next_empty in En by lia | cbn [next] in En];
          injection En as <- <-.
        - split; [by apply troot_ok | constructor].
        - by apply Forall_cons. }
      constructor; [done | by apply (IH (S d) q1); [| lia |]].
Qed.

(** *** Written paths *)

Lemma write_entries es :
  Forall (fun e => Roots.hash_ok e.2) es -> (length es <= 64)%nat ->
  write_path (path_of_entries es) = Some (rev (map snd es), bits_num (map fst es)).
Proof.
  intros Hes Hl. unfold write_path, path_of_entries. cbn [authentication_path index].
  rewrite !length_rev, !length_map, Nat.eqb_refl, convertVectorToInt_rev by (by rewrite length_map).
  cbn [mbind option_bind]. rewrite map_rev, map_map. do 3 f_equal.
  apply map_ext_in. intros e He. apply pack_bits_bytes.
  rewrite List.Forall_forall in Hes. by apply Hes.
Qed.

Lemma read_entries es :
  (length es <= 64)%nat ->
  read_path (rev (map snd es)) (bits_num (map fst es)) = Some (path_of_entries es).
Proof.
  intros Hl. unfold read_path, path_of_entries. rewrite length_rev, length_map.
  rewrite (proj2 (Nat.ltb_ge 64 _)) by lia. f_equal. f_equal; [by rewrite map_rev, map_map |].
  apply (nth_ext _ _ false false); rewrite ?length_map, ?length_rev, ?length_map, ?length_seq; [done |].
  intros i Hi. rewrite (nth_indep _ false (Z.odd (Z.land (Z.shiftr (bits_num (map fst es))
    (Z.of_nat (length es - 1 - 0))) 1))) by (by rewrite length_map, length_seq).
  rewrite (map_nth (fun i => Z.odd (Z.land (Z.shiftr (bits_num (map fst es))
    (Z.of_nat (length es - 1 - i))) 1)) (seq 0 (length es)) O i), seq_nth by done.
  rewrite odd_bit, bits_num_testbit by lia. rewrite rev_nth by (by rewrite length_map).
  rewrite length_map. f_equal. lia.
Qed.

Lemma verify_entries x es :
  verify x (rev (map snd es)) (bits_num (map fst es)) = climb 0 x es.
Proof.
  unfold verify. rewrite rev_involutive, length_rev, length_map. f_equal.
  rewrite (map_ext _ (fun i => nth i (map fst es) false)) by (intros; apply bits_num_testbit).
  transitivity (zip (map fst es) (map snd es)).
  - f_equal. apply (nth_ext _ _ false false); rewrite !length_map, length_seq; [done |].
    intros i Hi. rewrite (nth_indep _ false (nth 0 (map fst es) false)) by (by rewrite length_map, length_seq).
    by rewrite (map_nth (fun i => nth i (map fst es) false)), seq_nth by done.
  - induction es as [| [b h] es IH]; [done |]. cbn [map zip zip_with]. f_equal. exact IH.
Qed.

Lemma weight_bits d s : Z.of_nat (weight d s) = 2 ^ Z.of_nat d * bits_num (map is_some s).
Proof.
  revert d. induction s as [| [p |] s IH]; intros d; cbn [weight map bits_num is_some Z.b2z]; [lia | |].
  - rewrite Nat2Z.inj_add, IH, Nat2Z.inj_pow, (Nat2Z.inj_succ d), Z.pow_succ_r by lia.
    change (Z.of_nat 2) with 2. lia.
  - rewrite IH, Nat2Z.inj_succ, Z.pow_succ_r by lia. lia.
Qed.

(** The path of a witness, written, read back and verified. *)
Lemma wrep_path w l x m :
  (1 <= Depth <= 64)%nat -> wrep w (l ++ [x]) m -> Forall Roots.hash_ok (l ++ [x] ++ m) ->
  exists mp pb, witness_path Depth w = Some mp /\ write_path mp = Some (pb, Zlen l) /\
    read_path pb (Zlen l) = Some mp /\ length pb = Depth /\
    verify x pb (Zlen l) = troot Depth (l ++ [x] ++ m).
Proof.
  intros HD Hw Hok. destruct (wrep_uncles w _ m ltac:(lia) Hw) as (q & Eq & Hq). destruct Hw as [Hr HL _].
  apply Forall_app in Hok as [Hl Hok]. apply Forall_app in Hok as [Hx Hm].
  destruct (rep_slots Depth _ _ Depth Hr HL ltac:(lia)) as (l' & x' & E & Hx' & Hs & Hp & Hlen).
  apply app_inj_tail in E as [<- <-].
  destruct (climb_covered 0 _ l [x] q m Hp eq_refl Hq ltac:(cbn [Nat.add]; lia)) as (q' & Ec).
  cbn [troot Nat.add] in Ec. destruct (path_parents_climb _ _ _ _ _ _ Ec) as (es & Ees & Hcl & Hf).
  assert (length es = Depth) as Hles.
  { rewrite <-(length_map fst es), Hf, length_map. done. }
  assert (Zlen l = bits_num (map fst es)) as Hz.
  { unfold Zlen. rewrite Hf, (prep_weight _ _ _ Hp), weight_bits. cbn [Z.of_nat Z.pow]. lia. }
  exists (path_of_entries es), (rev (map snd es)). rewrite Hz.
  split; [| split; [| split; [| split]]].
  - unfold witness_path. rewrite Eq. cbn [mbind option_bind]. by rewrite path_slots, Ees by done.
  - apply write_entries; [| lia].
    apply (path_parents_ok (slots (w_tree w) Depth) 0 q es q'); [by eapply prep_ok | by eapply covered_ok | | done].
    cbn [Nat.add]. lia.
  - apply read_entries. lia.
  - by rewrite length_rev, length_map.
  - by rewrite verify_entries, Hcl, Hlen.
Qed.

(** [C31] [IncrementalMerkleTree]: after appending any leaves up to the capacity
    [2 ^ Depth] the calls have all succeeded, the root is the Merkle root of
    the leaves padded with uncommitted ones, [last] is the last leaf, the tree
    passes [wfcheck], [size] is the number of leaves (up to [2 ^ 31]), and a
    further [append] throws exactly when the tree is full. *)
Theorem incremental_tree_correct (L : list hash) (x : hash) :
  (1 <= Depth)%nat -> (length L <= 2 ^ Depth)%nat ->
  exists t, append_all Depth empty_tree L = Some t /\
    tree_root Depth t = Some (troot Depth L) /\ last_leaf t = last L /\ wfcheck Depth t = true /\
    ((length L <= 2 ^ 31)%nat -> size t = Some (Zlen L)) /\
    (append Depth t x = None <-> length L = (2 ^ Depth)%nat).
Proof.
  intros HD HL.
  destruct (append_all_rep Depth empty_tree [] L) as (t & E & Hr); [lia | constructor | done |].
  exists t. split; [done |]. cbn [app] in Hr.
  split; [apply (rep_root Depth); [done | lia | lia] |].
  split; [by eapply rep_last_leaf |]. split; [eapply rep_wfcheck; [| done]; lia |].
  split; [by eapply rep_size |]. split.
  - intros En. destruct (decide (length L = (2 ^ Depth)%nat)) as [| Hne]; [done |].
    destruct (append_rep Depth t L x) as (t' & Et & _); [lia | done | lia | congruence].
  - intros Hf. by eapply append_full.
Qed.

(** [C32] [IncrementalWitness]: a witness taken after the leaves [l] and [x], with
    the leaves [m] appended to it, has the root of the tree of all leaves; it
    still witnesses [x]; its path, as written to a stream, carries the position
    of [x], reads back as the same path, and hashes from [x] up to that root;
    storing and loading the witness changes none of this; and a further
    [append] throws exactly when the tree is full. *)
Theorem incremental_witness_correct (l : list hash) (x : hash) (m : list hash) (y : hash) :
  (1 <= Depth <= 64)%nat -> (length l + 1 + length m <= 2 ^ Depth)%nat ->
  Forall Roots.hash_ok (l ++ [x] ++ m) ->
  exists t w, append_all Depth empty_tree (l ++ [x]) = Some t /\
    witness_append_all Depth (witness_of t) m = Some w /\
    witness_root Depth w = Some (troot Depth (l ++ [x] ++ m)) /\
    witness_root Depth (reload w) = witness_root Depth w /\
    witness_path Depth (reload w) = witness_path Depth w /\
    element w = Some x /\ ((length l < 2 ^ 31)%nat -> position w = Some (Zlen l)) /\
    (exists mp pb, witness_path Depth w = Some mp /\ write_path mp = Some (pb, Zlen l) /\
       read_path pb (Zlen l) = Some mp /\ length pb = Depth /\
       verify x pb (Zlen l) = troot Depth (l ++ [x] ++ m)) /\
    (witness_append Depth w y = None <-> (length l + 1 + length m = 2 ^ Depth)%nat).
Proof.
  intros HD Hl Hok.
  assert (length (l ++ [x]) = length l + 1)%nat as Hlx by (by rewrite length_app).
  destruct (append_all_rep Depth empty_tree [] (l ++ [x])) as (t & E & Hr);
    [lia | constructor | cbn [length Nat.add]; lia |]. cbn [app] in Hr.
  assert (l ++ [x] <> []) as Hne by (by destruct l).
  destruct (witness_append_all_wrep _ _ [] m ltac:(lia) (wrep_start t _ Hr Hne)) as (w & Ew & Et & Hw);
    [cbn [length]; lia |]. cbn [app witness_of w_tree] in *.
  exists t, w. split; [done |]. split; [done |].
  destruct (wrep_reload w _ _ ltac:(lia) Hw) as [Hw2 Hid].
  rewrite (wrep_root _ _ _ ltac:(lia) Hw), (wrep_root _ _ _ ltac:(lia) Hw2), <-app_assoc.
  split; [done |]. split; [done |]. split; [| split; [| split; [| split]]].
  - destruct (cursor w) as [c |] eqn:Ec; [by rewrite Hid by eauto |].
    unfold witness_path, partial_path, reload. cbn [cursor filled w_tree]. by rewrite Ec.
  - unfold element. rewrite Et, (rep_last_leaf _ _ _ Hr). apply last_snoc.
  - intros Hp. unfold position. rewrite Et, (rep_size _ _ _ Hr) by lia. cbn [mbind option_bind].
    unfold Zlen. rewrite Hlx. f_equal.
    assert (Z.of_nat (length l) < 2 ^ 31).
    { change (2 ^ 31) with (Z.of_nat 2 ^ Z.of_nat 31). rewrite <-Nat2Z.inj_pow. lia. }
    rewrite u64_id by (unfold is_u; lia). lia.
  - by apply wrep_path.
  - pose proof (witness_append_wrep w _ _ y ltac:(lia) Hw) as Ha. rewrite Hlx in Ha.
    destruct (Nat.ltb_spec (length l + 1 + length m) (2 ^ Depth)) as [Hlt | Hge].
    + destruct Ha as (w' & -> & _). split; [done | lia].
    + by destruct Ha as [? ->].
Qed.

(** A tree with [2 ^ 31] leaves under its 31st parent reports a size near
    [2 ^ 64]: [1 << 31] is negative as an [int]. *)
Theorem large_tree_size_wraps (a : hash) (c : list hash) :
  (32 <= Depth)%nat -> (length c = 2 ^ 31)%nat ->
  let t := Tree (Some a) None (replicate 30 None ++ [Some (troot 31 c)]) in
  rep Depth t (c ++ [a]) /\ size t = Some (2 ^ 64 - 2 ^ 31 + 1).
Proof.
  intros HD Hc t. split; [| reflexivity]. apply rep_left.
  - unfold t. do 30 apply prep_none. apply (prep_some 31 [] [] c); [constructor | done].
  - rewrite length_app, length_replicate. cbn [length]. lia.
  - unfold canonical. by rewrite last_snoc.
Qed.
End Proofs.

(** ** The two hash types *)

(** [SHA256Compress]: a [Hash] object is 32 bytes, so [combine] never throws
    ([Roots.sha_combine_spec]). *)
#[export] Instance sha_tree_hash : TreeHash := {|
  combine a b d := default [] (Roots.sha_combine (replicate 64 0) a b d);
  EmptyRoot := Roots.sha_EmptyRoot;
  uncommitted := replicate 32 0
|}.

(** [PedersenHash]: [librustzcash_merkle_hash] and
    [librustzcash_tree_uncommitted] are functions of an external library. *)
Definition pedersen_tree_hash (librustzcash_merkle_hash : nat -> hash -> hash -> hash)
    (librustzcash_tree_uncommitted : hash) : TreeHash := {|
  combine a b d := librustzcash_merkle_hash d a b;
  EmptyRoot := Roots.pedersen_EmptyRoot;
  uncommitted := librustzcash_tree_uncommitted
|}.

Lemma sha_combine_hash a b d :
  Roots.hash_ok a -> Roots.hash_ok b -> combine a b d = Roots.compress2 a b.
Proof. intros [? ?] [? ?]. cbn [combine sha_tree_hash]. by rewrite Roots.sha_combine_spec. Qed.

Lemma compress_length H M : length H = 8%nat -> length (Sha256.Fips.compress H M) = 8%nat.
Proof.
  intros HH. unfold Sha256.Fips.compress. rewrite length_zip_with, HH.
  by destruct (foldl (Sha256.Fips.step (Sha256.Fips.schedule M)) _ _).
Qed.

Lemma words_ok ws : length ws = 8%nat -> Roots.hash_ok (concat (map (be_bytes 4) ws)).
Proof.
  intros Hw. split.
  - rewrite (concat_map_length _ 4) by (intros; apply length_be_bytes). by rewrite Hw.
  - unfold bytes_ok. apply Forall_concat, List.Forall_forall. intros l Hl.
    apply in_map_iff in Hl as (x & <- & _). apply be_bytes_ok.
Qed.

Lemma compress2_ok a b : Roots.hash_ok (Roots.compress2 a b).
Proof. apply words_ok, compress_length. reflexivity. Qed.

(** The SHA-256 table of empty roots is right at every depth. *)
Lemma sha_empty_roots d :
  (d <= 65)%nat -> Roots.hash_ok (troot d []) /\ Roots.sha_EmptyRoot d = Some (troot d []).
Proof.
  induction d as [| d IH]; intros Hd.
  - split; [split; [done |]; apply bytes_ok_replicate; unfold byte_ok; lia | reflexivity].
  - destruct IH as [Hok E]; [lia |]. cbn [troot]. rewrite take_nil, drop_nil, sha_combine_hash by done.
    split; [apply compress2_ok |].
    pose proof Roots.sha_empty_roots_chain as Hch. rewrite forallb_forall in Hch.
    specialize (Hch d ltac:(apply in_seq; lia)). apply bool_decide_eq_true in Hch.
    unfold Roots.sha_EmptyRoot in *. rewrite (nth_lookup_Some _ _ _ _ E) in Hch. rewrite Hch.
    destruct (lookup_lt_is_Some_2 Roots.sha256_empty_roots (S d)) as [r Er].
    { rewrite (proj1 (proj1 Roots.empty_roots_shape)). lia. }
    by rewrite (nth_lookup_Some _ _ _ _ Er).
Qed.

Lemma sha_lawful Depth : (Depth <= 65)%nat -> LawfulTreeHash Depth.
Proof.
  intros HD. split.
  - intros d Hd. apply sha_empty_roots. lia.
  - intros a b d Ha Hb. rewrite sha_combine_hash by done. apply compress2_ok.
  - apply (sha_empty_roots 0). lia.
Qed.

(** The Sprout tree (depth 29). *)
#[export] Instance sprout_lawful : LawfulTreeHash 29.
Proof. apply sha_lawful. lia. Qed.

Definition leaf_of (n : Z) : hash := replicate 31 0 ++ [n].

Lemma leaves_ok ns : Forall byte_ok ns -> Forall Roots.hash_ok (map leaf_of ns).
Proof.
  intros Hn. apply Forall_map. eapply Forall_impl; [exact Hn |]. intros n Hb. split; [done |].
  apply bytes_ok_app. split; [apply bytes_ok_replicate; unfold byte_ok; lia | constructor; [done | constructor]].
Qed.

Lemma pow2_29 (n : nat) : (n <= 8)%nat -> (n < 2 ^ 29)%nat.
Proof. intros H. apply (Nat.le_lt_trans _ (2 ^ 3)); [exact H | apply pow2_lt; lia]. Qed.

Lemma incremental_tree_correct_witness :
  exists t, append_all 29 empty_tree (map leaf_of [1; 2; 3]) = Some t /\
    tree_root 29 t = Some (troot 29 (map leaf_of [1; 2; 3])) /\ last_leaf t = Some (leaf_of 3).
Proof.
  destruct (incremental_tree_correct (Depth := 29) (map leaf_of [1; 2; 3]) (leaf_of 4))
    as (t & E & R & La & _).
  - lia.
  - apply Nat.lt_le_incl, pow2_29. cbn [length map]. lia.
  - exists t. split; [exact E |]. split; [exact R | exact La].
Defined.

Lemma incremental_witness_correct_witness :
  exists t w, append_all 29 empty_tree (map leaf_of [1] ++ [leaf_of 2]) = Some t /\
    witness_append_all 29 (witness_of t) (map leaf_of [3; 4; 5]) = Some w /\
    witness_root 29 w = Some (troot 29 (map leaf_of [1; 2; 3; 4; 5])).
Proof.
  destruct (incremental_witness_correct (Depth := 29) (map leaf_of [1]) (leaf_of 2)
    (map leaf_of [3; 4; 5]) (leaf_of 6)) as (t & w & E1 & E2 & E3 & _).
  - lia.
  - apply Nat.lt_le_incl, pow2_29. cbn [length map]. lia.
  - apply (leaves_ok [1; 2; 3; 4; 5]). repeat constructor; unfold byte_ok; lia.
  - exists t, w. split; [exact E1 |]. split; [exact E2 | exact E3].
Defined.
End Incremental.
