(* ===== verification/Coins.v ===== *)
(** * The set of unspent outputs (src/src/coins.h, coins.cpp, txdb.cpp)

    [CCoins] is what is left of a transaction: its unspent outputs.  A
    [CCoinsViewCache] keeps modified entries in memory over another view, which
    is again a cache or the database [CCoinsViewDB].  The virtual class
    [CCoinsView] is the interface [View]; [LawfulView] states what one level
    promises to the level above, and both the database and a cache over any
    lawful view satisfy it.  The const methods of a cache fill it, so every
    operation returns the new state.  Memory accounting and the Sprout pool,
    whose maps stay empty, are left out. *)
From S2P Require Import Prelude.
Local Open Scope Z_scope.

Abbreviation uint256 := (list Z) (only parsing).

Definition IsNull256 (h : uint256) : bool := forallb (fun b => b =? 0) h.

(** ** [class CTxOut] and [class CCoins] *)

Record txout := TxOut { nValue : Z; scriptPubKey : list Z }.

#[export] Instance txout_eq_dec : EqDecision txout.
Proof. solve_decision. Defined.

Definition SetNull : txout := TxOut (-1) [].
Definition IsNull (o : txout) : bool := nValue o =? -1.

Definition OP_RETURN : Z := 0x6a.
Definition MAX_SCRIPT_SIZE : Z := 10000.
Definition IsUnspendable (script : list Z) : bool :=
  match script with
  | op :: _ => (op =? OP_RETURN) || (MAX_SCRIPT_SIZE <? Zlen script)
  | [] => MAX_SCRIPT_SIZE <? Zlen script
  end.

Record coins := Coins { fCoinBase : bool; vout : list txout; nHeight : Z; nVersion : Z }.

#[export] Instance coins_eq_dec : EqDecision coins.
Proof. solve_decision. Defined.

Definition Clear : coins := Coins false [] 0 0.
Definition set_vout (c : coins) (v : list txout) : coins := Coins (fCoinBase c) v (nHeight c) (nVersion c).

(** The loop of [Cleanup] pops null outputs off the back; here the list is
    reversed. *)
Fixpoint pop_nulls (back : list txout) : list txout :=
  match back with
  | o :: back => if IsNull o then pop_nulls back else o :: back
  | [] => []
  end.
Definition Cleanup (c : coins) : coins := set_vout c (rev (pop_nulls (rev (vout c)))).

Definition ClearUnspendable (c : coins) : coins :=
  Cleanup (set_vout c (map (fun o => if IsUnspendable (scriptPubKey o) then SetNull else o) (vout c))).

Definition IsPruned (c : coins) : bool := forallb IsNull (vout c).

Definition IsAvailable (c : coins) (nPos : nat) : bool :=
  match vout c !! nPos with
  | Some o => negb (IsNull o)
  | None => false
  end.

Definition Spend (c : coins) (nPos : nat) : bool * coins :=
  match vout c !! nPos with
  | Some o => if IsNull o then (false, c) else (true, Cleanup (set_vout c (<[nPos := SetNull]> (vout c))))
  | None => (false, c)
  end.

(** [operator==]. *)
Definition coins_eqb (a b : coins) : bool :=
  if IsPruned a && IsPruned b then true else bool_decide (a = b).

(** The outputs of a transaction that enters the set. *)
Definition FromTx (isCoinBase : bool) (tx_vout : list txout) (tx_nVersion nHeightIn : Z) : coins :=
  ClearUnspendable (Coins isCoinBase tx_vout nHeightIn tx_nVersion).

(** ** Cache entries *)

(** [CCoinsCacheEntry]; the two booleans are the bits of [flags]. *)
Record centry := CEntry { e_coins : coins; e_dirty : bool; e_fresh : bool }.
(** [CNullifiersCacheEntry]. *)
Record nentry := NEntry { n_entered : bool; n_dirty : bool }.

(** The Sapling commitment tree: only its root matters here. *)
Class AnchorTree := {
  atree : Type;
  aroot : atree -> uint256;
  aempty : atree
}.

(** [CAnchorsSaplingCacheEntry]. *)
Record aentry `{AnchorTree} := AEntry { a_entered : bool; a_tree : atree; a_dirty : bool }.
Arguments AEntry {_} _ _ _ : assert.

(** The arguments of [BatchWrite]. *)
Record batch `{AnchorTree} := Batch {
  b_coins : gmap uint256 centry;
  b_block : uint256;
  b_anchor : uint256;
  b_anchors : gmap uint256 aentry;
  b_nullifiers : gmap uint256 nentry
}.
Arguments Batch {_} _ _ _ _ _ : assert.

(** The virtual methods of [CCoinsView]; [None] for [BatchWrite] is a failed
    assertion. *)
Class View `{AnchorTree} (V : Type) := {
  GetCoins : V -> uint256 -> option coins * V;
  GetNullifier : V -> uint256 -> bool * V;
  GetSaplingAnchorAt : V -> uint256 -> option atree * V;
  GetBestBlock : V -> uint256 * V;
  GetBestAnchor : V -> uint256 * V;
  BatchWrite : V -> batch -> option V
}.

(** A loop over a map that changes, for each entry [e] of the map at a key, the
    entry of another map at the same key: [upd old e] is the new one, [None] a
    failed assertion.  An entry of [l] is erased once it has been handled. *)
Fixpoint batch_loop {E F} (upd : option F -> uint256 -> E -> option (option F))
    (l : list (uint256 * E)) (m : gmap uint256 F) : option (gmap uint256 F) :=
  match l with
  | [] => Some m
  | (k, e) :: l =>
    r ← upd (m !! k) k e;
    batch_loop upd l (partial_alter (fun _ => r) k m)
  end.

(** ** [class CCoinsViewDB] *)

Section DB.
Context `{AnchorTree}.

(** The keys 'c', 'Z', 'S', 'B' and 'z' of the chain state database. *)
Record db := Db {
  d_coins : gmap uint256 coins;
  d_anchors : gmap uint256 atree;
  d_nullifiers : gmap uint256 bool;
  d_best : option uint256;
  d_best_anchor : option uint256
}.

Definition db_write_coins (old : option coins) (k : uint256) (e : centry) : option (option coins) :=
  if e_dirty e then
    if IsPruned (e_coins e) then Some None else Some (Some (e_coins e))
  else Some old.

Definition db_write_anchor (old : option atree) (k : uint256) (e : aentry) : option (option atree) :=
  if a_dirty e then
    if negb (a_entered e) then Some None
    else if negb (bool_decide (k = aroot aempty)) then Some (Some (a_tree e)) else Some old
  else Some old.

Definition db_write_nullifier (old : option bool) (k : uint256) (e : nentry) : option (option bool) :=
  if n_dirty e then
    if negb (n_entered e) then Some None else Some (Some true)
  else Some old.

Definition db_BatchWrite (d : db) (b : batch) : option db :=
  coins ← batch_loop db_write_coins (map_to_list (b_coins b)) (d_coins d);
  anchors ← batch_loop db_write_anchor (map_to_list (b_anchors b)) (d_anchors d);
  nullifiers ← batch_loop db_write_nullifier (map_to_list (b_nullifiers b)) (d_nullifiers d);
  Some (Db coins anchors nullifiers
    (if negb (IsNull256 (b_block b)) then Some (b_block b) else d_best d)
    (if negb (IsNull256 (b_anchor b)) then Some (b_anchor b) else d_best_anchor d)).

#[export] Instance db_view : View db := {|
  GetCoins d txid := (d_coins d !! txid, d);
  GetNullifier d nf := (bool_decide (is_Some (d_nullifiers d !! nf)), d);
  GetSaplingAnchorAt d rt := (if bool_decide (rt = aroot aempty) then Some aempty else d_anchors d !! rt, d);
  GetBestBlock d := (default (replicate 32 0) (d_best d), d);
  GetBestAnchor d := (default (aroot aempty) (d_best_anchor d), d);
  BatchWrite := db_BatchWrite
|}.
End DB.

(** ** [class CCoinsViewCache] *)

Section Cache.
Context `{AnchorTree} {V : Type} `{!View V}.

Record cache := Cache {
  c_base : V;
  c_hashBlock : uint256;
  c_hashAnchor : uint256;
  c_coins : gmap uint256 centry;
  c_anchors : gmap uint256 aentry;
  c_nullifiers : gmap uint256 nentry
}.

Definition new_cache (base : V) : cache :=
  Cache base (replicate 32 0) (replicate 32 0) ∅ ∅ ∅.

Definition set_base (c : cache) (v : V) : cache :=
  Cache v (c_hashBlock c) (c_hashAnchor c) (c_coins c) (c_anchors c) (c_nullifiers c).
Definition set_coins (c : cache) (m : gmap uint256 centry) : cache :=
  Cache (c_base c) (c_hashBlock c) (c_hashAnchor c) m (c_anchors c) (c_nullifiers c).
Definition set_anchors (c : cache) (m : gmap uint256 aentry) : cache :=
  Cache (c_base c) (c_hashBlock c) (c_hashAnchor c) (c_coins c) m (c_nullifiers c).
Definition set_nullifiers (c : cache) (m : gmap uint256 nentry) : cache :=
  Cache (c_base c) (c_hashBlock c) (c_hashAnchor c) (c_coins c) (c_anchors c) m.
Definition set_hashBlock (c : cache) (h : uint256) : cache :=
  Cache (c_base c) h (c_hashAnchor c) (c_coins c) (c_anchors c) (c_nullifiers c).
Definition set_hashAnchor (c : cache) (h : uint256) : cache :=
  Cache (c_base c) (c_hashBlock c) h (c_coins c) (c_anchors c) (c_nullifiers c).

(** [FetchCoins]: the entry, [None] for [cacheCoins.end()]. *)
Definition FetchCoins (c : cache) (txid : uint256) : option centry * cache :=
  match c_coins c !! txid with
  | Some e => (Some e, c)
  | None =>
    let '(r, base) := GetCoins (c_base c) txid in
    let c := set_base c base in
    match r with
    | None => (None, c)
    | Some tmp =>
      let e := CEntry tmp false (IsPruned tmp) in
      (Some e, set_coins c (<[txid := e]> (c_coins c)))
    end
  end.

Definition cache_GetCoins (c : cache) (txid : uint256) : option coins * cache :=
  let '(it, c) := FetchCoins c txid in (e_coins <$> it, c).

Definition HaveCoins (c : cache) (txid : uint256) : bool * cache :=
  let '(it, c) := FetchCoins c txid in
  (match it with
   | Some e => negb (bool_decide (vout (e_coins e) = []))
   | None => false
   end, c).

Definition cache_GetSaplingAnchorAt (c : cache) (rt : uint256) : option atree * cache :=
  match c_anchors c !! rt with
  | Some e => (if a_entered e then Some (a_tree e) else None, c)
  | None =>
    let '(r, base) := GetSaplingAnchorAt (c_base c) rt in
    let c := set_base c base in
    match r with
    | None => (None, c)
    | Some tree => (Some tree, set_anchors c (<[rt := AEntry true tree false]> (c_anchors c)))
    end
  end.

Definition cache_GetNullifier (c : cache) (nf : uint256) : bool * cache :=
  match c_nullifiers c !! nf with
  | Some e => (n_entered e, c)
  | None =>
    let '(tmp, base) := GetNullifier (c_base c) nf in
    let c := set_base c base in
    (tmp, set_nullifiers c (<[nf := NEntry tmp false]> (c_nullifiers c)))
  end.

Definition cache_GetBestBlock (c : cache) : uint256 * cache :=
  if IsNull256 (c_hashBlock c) then
    let '(h, base) := GetBestBlock (c_base c) in
    (h, set_hashBlock (set_base c base) h)
  else (c_hashBlock c, c).

Definition cache_GetBestAnchor (c : cache) : uint256 * cache :=
  if IsNull256 (c_hashAnchor c) then
    let '(h, base) := GetBestAnchor (c_base c) in
    (h, set_hashAnchor (set_base c base) h)
  else (c_hashAnchor c, c).

Definition SetBestBlock (c : cache) (hashBlockIn : uint256) : cache := set_hashBlock c hashBlockIn.

(** [PushAnchor(tree)]. *)
Definition PushAnchor (c : cache) (tree : atree) : cache :=
  let newrt := aroot tree in
  let '(currentRoot, c) := cache_GetBestAnchor c in
  if bool_decide (currentRoot <> newrt) then
    set_hashAnchor (set_anchors c (<[newrt := AEntry true tree true]> (c_anchors c))) newrt
  else c.

(** [PopAnchor(newrt, SAPLING)]; [None]: the assertion of
    [BringBestAnchorIntoCache]. *)
Definition PopAnchor (c : cache) (newrt : uint256) : option cache :=
  let '(currentRoot, c) := cache_GetBestAnchor c in
  if bool_decide (currentRoot <> newrt) then
    let '(r, c) := cache_GetSaplingAnchorAt c currentRoot in
    match r with
    | None => None
    | Some _ =>
      let tree := match c_anchors c !! currentRoot with Some e => a_tree e | None => aempty end in
      Some (set_hashAnchor (set_anchors c (<[currentRoot := AEntry false tree true]> (c_anchors c))) newrt)
    end
  else Some c.

(** [SetNullifiers(tx, spent)]: [nfs] are the nullifiers of the shielded
    spends. *)
Fixpoint SetNullifiers (c : cache) (nfs : list uint256) (spent : bool) : cache :=
  match nfs with
  | [] => c
  | nf :: nfs => SetNullifiers (set_nullifiers c (<[nf := NEntry spent true]> (c_nullifiers c))) nfs spent
  end.

(** [ModifyCoins(txid)]: the entry the modifier refers to, [DIRTY]. *)
Definition modify_begin (c : cache) (txid : uint256) : centry * cache :=
  let '(e, c) :=
    match c_coins c !! txid with
    | Some e => (e, c)
    | None =>
      let '(r, base) := GetCoins (c_base c) txid in
      let c := set_base c base in
      match r with
      | None => (CEntry Clear false true, c)
      | Some cs => (CEntry cs false (IsPruned cs), c)
      end
    end in
  (CEntry (e_coins e) true (e_fresh e), c).

(** [~CCoinsModifier]: [e] is the entry after the modification. *)
Definition modify_end (c : cache) (txid : uint256) (e : centry) : cache :=
  let cs := Cleanup (e_coins e) in
  if e_fresh e && IsPruned cs then set_coins c (delete txid (c_coins c))
  else set_coins c (<[txid := CEntry cs (e_dirty e) (e_fresh e)]> (c_coins c)).

(** A block of code that modifies the coins through the modifier: [f] returns
    the modified coins and a result. *)
Definition ModifyCoins {R} (c : cache) (txid : uint256) (f : coins -> coins * R) : R * cache :=
  let '(e, c) := modify_begin c txid in
  let '(cs, r) := f (e_coins e) in
  (r, modify_end c txid (CEntry cs (e_dirty e) (e_fresh e))).

Definition cache_write_coins (itUs : option centry) (k : uint256) (e : centry) : option (option centry) :=
  if e_dirty e then
    match itUs with
    | None =>
      if negb (IsPruned (e_coins e)) then
        if e_fresh e then Some (Some (CEntry (e_coins e) true true)) else None
      else Some None
    | Some us =>
      if e_fresh us && IsPruned (e_coins e) then Some None
      else Some (Some (CEntry (e_coins e) true (e_fresh us)))
    end
  else Some itUs.

Definition cache_write_anchor (parent : option aentry) (k : uint256) (e : aentry) : option (option aentry) :=
  if a_dirty e then
    match parent with
    | None => Some (Some (AEntry (a_entered e) (a_tree e) true))
    | Some p =>
      if negb (Bool.eqb (a_entered p) (a_entered e)) then Some (Some (AEntry (a_entered e) (a_tree p) true))
      else Some (Some p)
    end
  else Some parent.

Definition cache_write_nullifier (parent : option nentry) (k : uint256) (e : nentry) : option (option nentry) :=
  if n_dirty e then
    match parent with
    | None => Some (Some (NEntry (n_entered e) true))
    | Some p =>
      if negb (Bool.eqb (n_entered p) (n_entered e)) then Some (Some (NEntry (n_entered e) true))
      else Some (Some p)
    end
  else Some parent.

Definition cache_BatchWrite (c : cache) (b : batch) : option cache :=
  coins ← batch_loop cache_write_coins (map_to_list (b_coins b)) (c_coins c);
  anchors ← batch_loop cache_write_anchor (map_to_list (b_anchors b)) (c_anchors c);
  nullifiers ← batch_loop cache_write_nullifier (map_to_list (b_nullifiers b)) (c_nullifiers c);
  Some (Cache (c_base c) (b_block b) (b_anchor b) coins anchors nullifiers).

Definition Flush (c : cache) : option cache :=
  base ← BatchWrite (c_base c)
           (Batch (c_coins c) (c_hashBlock c) (c_hashAnchor c) (c_anchors c) (c_nullifiers c));
  Some (Cache base (c_hashBlock c) (c_hashAnchor c) ∅ ∅ ∅).

#[export] Instance cache_view : View cache := {|
  GetCoins := cache_GetCoins;
  GetNullifier := cache_GetNullifier;
  GetSaplingAnchorAt := cache_GetSaplingAnchorAt;
  GetBestBlock := cache_GetBestBlock;
  GetBestAnchor := cache_GetBestAnchor;
  BatchWrite := cache_BatchWrite
|}.
End Cache.
Arguments cache {_} _ : assert.

(** ** The abstract state *)

(** The outputs available under a transaction id; [None] when there are none. *)
Definition norm (r : option coins) : option coins :=
  match r with
  | Some c => if IsPruned c then None else Some c
  | None => None
  end.

(** Trailing spent outputs have been dropped. *)
Definition clean (c : coins) : Prop := Cleanup c = c.

Record state `{AnchorTree} := State {
  s_coins : uint256 -> option coins;
  s_nullifier : uint256 -> bool;
  s_anchor : uint256 -> option atree;
  s_best : uint256;
  s_best_anchor : uint256
}.
Arguments State {_} _ _ _ _ _ : assert.

(** Equality of states, pointwise. *)
Definition state_eq `{AnchorTree} (s t : state) : Prop :=
  (forall k, s_coins s k = s_coins t k) /\ (forall k, s_nullifier s k = s_nullifier t k) /\
  (forall k, s_anchor s k = s_anchor t k) /\ s_best s = s_best t /\ s_best_anchor s = s_best_anchor t.

#[export] Instance state_eq_equiv `{AnchorTree} : Equivalence state_eq.
Proof.
  split.
  - by repeat split.
  - intros s t (? & ? & ? & ? & ?). by repeat split.
  - intros s t u (H1 & H2 & H3 & H4 & H5) (K1 & K2 & K3 & K4 & K5).
    repeat split; intros; etransitivity; eauto.
Qed.

(** What a batch means: its dirty entries replace those of the state. *)
Definition apply_batch `{AnchorTree} (b : batch) (s : state) : state :=
  State
    (fun k => match b_coins b !! k with
              | Some e => if e_dirty e then norm (Some (e_coins e)) else s_coins s k
              | None => s_coins s k
              end)
    (fun k => match b_nullifiers b !! k with
              | Some e => if n_dirty e then n_entered e else s_nullifier s k
              | None => s_nullifier s k
              end)
    (fun k => match b_anchors b !! k with
              | Some e => if a_dirty e then (if a_entered e then Some (a_tree e) else None) else s_anchor s k
              | None => s_anchor s k
              end)
    (b_block b) (b_anchor b).

(** ** What a view promises *)

Section Laws.
Context `{AnchorTree} {V : Type} `{!View V}.

(** [inv], [abs] and [holds] are chosen by the implementation: its invariant,
    the state it stands for, and the entries it has at hand. *)
Record model := Model {
  inv : V -> Prop;
  abs : V -> state;
  holds : V -> uint256 -> Prop
}.

(** A read leaves the state as it is and forgets no entry. *)
Definition reads (M : model) (v v' : V) : Prop :=
  inv M v' /\ state_eq (abs M v') (abs M v) /\ (forall k, holds M v k -> holds M v' k).

(** What a view may be asked to write: a dirty entry that is not fresh was read
    from it before, a fresh one is not in it; a tree is stored under its root,
    the empty root stays; and the two hashes are set. *)
Record batch_ok (M : model) (v : V) (b : batch) : Prop := {
  bo_coins k e : b_coins b !! k = Some e -> e_dirty e = true ->
    clean (e_coins e) /\ (if e_fresh e then s_coins (abs M v) k = None else holds M v k);
  bo_anchors k e : b_anchors b !! k = Some e -> a_dirty e = true ->
    aroot (a_tree e) = k /\ (k = aroot aempty -> a_entered e = true);
  bo_block : IsNull256 (b_block b) = false;
  bo_anchor : IsNull256 (b_anchor b) = false
}.

Record lawful (M : model) : Prop := {
  law_coins v k : inv M v ->
    let '(r, v') := GetCoins v k in
    reads M v v' /\ norm r = s_coins (abs M v) k /\
    (forall c, r = Some c -> clean c /\ holds M v' k);
  law_nullifier v k : inv M v ->
    let '(r, v') := GetNullifier v k in reads M v v' /\ r = s_nullifier (abs M v) k;
  law_anchor v k : inv M v ->
    let '(r, v') := GetSaplingAnchorAt v k in
    reads M v v' /\ r = s_anchor (abs M v) k;
  law_anchor_root v k t : inv M v -> s_anchor (abs M v) k = Some t -> aroot t = k;
  law_anchor_empty v : inv M v -> s_anchor (abs M v) (aroot aempty) = Some aempty;
  law_best v : inv M v -> let '(r, v') := GetBestBlock v in reads M v v' /\ r = s_best (abs M v);
  law_best_anchor v : inv M v ->
    let '(r, v') := GetBestAnchor v in reads M v v' /\ r = s_best_anchor (abs M v);
  law_batch v b : inv M v -> batch_ok M v b ->
    exists v', BatchWrite v b = Some v' /\ inv M v' /\ state_eq (abs M v') (apply_batch b (abs M v))
}.
End Laws.
Arguments model {_} _ : assert.

(** ** Loops over maps *)

Lemma batch_loop_list {E F} (upd : option F -> uint256 -> E -> option (option F)) (g : uint256 -> E -> option F -> option F) (l : list (uint256 * E)) (m : gmap uint256 F) :
  NoDup l.*1 -> (forall k e, (k, e) ∈ l -> upd (m !! k) k e = Some (g k e (m !! k))) ->
  exists m', batch_loop upd l m = Some m' /\
    (forall k e, (k, e) ∈ l -> m' !! k = g k e (m !! k)) /\ (forall k, k ∉ l.*1 -> m' !! k = m !! k).
Proof.
  revert m. induction l as [| [k e] l IH]; intros m Hnd Hu; cbn [batch_loop].
  - exists m. split; [done |]. split; [| done]. intros k e Hk. by apply not_elem_of_nil in Hk.
  - cbn [fmap list_fmap fst] in *. apply NoDup_cons in Hnd as [Hk Hnd].
    rewrite (Hu k e) by (by left). cbn [mbind option_bind].
    destruct (IH (partial_alter (fun _ => g k e (m !! k)) k m) Hnd) as (m' & E1 & H1 & H2).
    { intros j d Hj. assert (j <> k).
      { intros ->. apply Hk. apply list_elem_of_fmap. by exists (k, d). }
      rewrite lookup_partial_alter_ne by done. apply Hu. by right. }
    exists m'. split; [done |]. split.
    + intros j d [[= -> ->] | Hj]%elem_of_cons.
      * rewrite H2 by done. by rewrite lookup_partial_alter_eq.
      * rewrite (H1 j d) by done. rewrite lookup_partial_alter_ne; [done |].
        intros ->. apply Hk. apply list_elem_of_fmap. by exists (j, d).
    + intros j [Hj1 Hj2]%not_elem_of_cons. rewrite H2 by done. by rewrite lookup_partial_alter_ne.
Qed.

(** The loop does to every key what its body does to one. *)
Lemma batch_loop_map {E F} (upd : option F -> uint256 -> E -> option (option F)) (g : uint256 -> E -> option F -> option F) (b : gmap uint256 E) (m : gmap uint256 F) :
  (forall k e, b !! k = Some e -> upd (m !! k) k e = Some (g k e (m !! k))) ->
  exists m', batch_loop upd (map_to_list b) m = Some m' /\
    forall k, m' !! k = match b !! k with Some e => g k e (m !! k) | None => m !! k end.
Proof.
  intros Hu. destruct (batch_loop_list upd g (map_to_list b) m) as (m' & E1 & H1 & H2).
  - apply NoDup_fst_map_to_list.
  - intros k e Hk%elem_of_map_to_list. by apply Hu.
  - exists m'. split; [done |]. intros k. destruct (b !! k) as [e |] eqn:Eb.
    + apply H1. by apply elem_of_map_to_list.
    + apply H2. intros Hk. apply list_elem_of_fmap in Hk as ([k' e] & -> & Hk%elem_of_map_to_list).
      cbn [fst] in Eb. congruence.
Qed.

(** ** Clean coins *)

Lemma pop_nulls_idem l : pop_nulls (pop_nulls l) = pop_nulls l.
Proof. induction l as [| o l IH]; [done |]. cbn [pop_nulls]. destruct (IsNull o) eqn:E; [done |]. cbn [pop_nulls]. by rewrite E. Qed.

Lemma Cleanup_clean c : clean (Cleanup c).
Proof.
  unfold clean, Cleanup, set_vout. cbn [vout fCoinBase nHeight nVersion].
  by rewrite rev_involutive, pop_nulls_idem.
Qed.

Lemma Clear_clean : clean Clear.
Proof. done. Qed.

Lemma forallb_pop_nulls l : forallb IsNull (pop_nulls l) = forallb IsNull l.
Proof. induction l as [| o l IH]; [done |]. cbn [pop_nulls forallb]. destruct (IsNull o) eqn:E; [done |]. cbn [forallb]. by rewrite E. Qed.

Lemma forallb_rev {A} (f : A -> bool) l : forallb f (rev l) = forallb f l.
Proof.
  induction l as [| x l IH]; [done |]. cbn [rev]. rewrite forallb_app, IH. cbn [forallb].
  destruct (f x); cbn; [apply andb_true_r | apply andb_false_r].
Qed.

Lemma pop_nulls_split l : exists k, pop_nulls l = drop k l /\ Forall (fun o => IsNull o = true) (take k l).
Proof.
  induction l as [| o l (k & E & HF)]; [by exists 0%nat; split; [| constructor] |]. cbn [pop_nulls].
  destruct (IsNull o) eqn:Eo; [| by exists 0%nat; split; [| constructor]].
  exists (S k). split; [done |]. by constructor.
Qed.

(** [Cleanup] takes away null outputs only. *)
Lemma IsAvailable_Cleanup c n : IsAvailable (Cleanup c) n = IsAvailable c n.
Proof.
  unfold IsAvailable, Cleanup, set_vout. cbn [vout]. destruct (pop_nulls_split (rev (vout c))) as (k & E & HF). rewrite E.
  assert (vout c = rev (drop k (rev (vout c))) ++ rev (take k (rev (vout c)))) as Ev.
  { by rewrite <-rev_app_distr, take_drop, rev_involutive. }
  apply Forall_rev in HF. set (a := rev (drop k _)) in *. set (b := rev (take k _)) in *. clearbody a b. rewrite Ev.
  destruct (decide (n < length a)%nat) as [Hn | Hn]; [by rewrite lookup_app_l |].
  rewrite lookup_app_r, (lookup_ge_None_2 a n) by lia. destruct (b !! (n - length a)%nat) as [o |] eqn:Eb; [| done].
  by rewrite (Forall_lookup_1 _ _ _ _ HF Eb).
Qed.

Lemma IsPruned_Cleanup c : IsPruned (Cleanup c) = IsPruned c.
Proof.
  unfold IsPruned, Cleanup, set_vout. cbn [vout].
  by rewrite forallb_rev, forallb_pop_nulls, forallb_rev.
Qed.

(** Clean coins without available outputs have no outputs at all. *)
Lemma clean_pruned c : clean c -> IsPruned c = bool_decide (vout c = []).
Proof.
  intros Hc. apply eq_true_iff_eq. rewrite bool_decide_eq_true. split; [| by intros E; unfold IsPruned; rewrite E].
  unfold clean in Hc. intros Hp. rewrite <-Hc. unfold Cleanup, set_vout. cbn [vout].
  assert (forallb IsNull (rev (vout c)) = true) as Hr by (rewrite forallb_rev; exact Hp).
  assert (pop_nulls (rev (vout c)) = []) as ->; [| done].
  revert Hr. generalize (rev (vout c)). induction l as [| o l IH]; [done |]. cbn [forallb pop_nulls].
  intros [E ?]%andb_prop. rewrite E. auto.
Qed.

Lemma norm_Some c k : norm (Some c) = Some k -> k = c /\ IsPruned c = false.
Proof. cbn [norm]. destruct (IsPruned c); naive_solver. Qed.

(** ** The database is a lawful view *)

Section DBLaws.
Context `{AnchorTree}.

Record db_inv (d : db) : Prop := {
  di_coins k c : d_coins d !! k = Some c -> clean c /\ IsPruned c = false;
  di_anchors k t : d_anchors d !! k = Some t -> aroot t = k
}.

Definition db_abs (d : db) : state :=
  State (fun k => d_coins d !! k) (fun k => bool_decide (is_Some (d_nullifiers d !! k)))
    (fun k => if bool_decide (k = aroot aempty) then Some aempty else d_anchors d !! k)
    (default (replicate 32 0) (d_best d)) (default (aroot aempty) (d_best_anchor d)).

Definition db_model : model db := Model db_inv db_abs (fun _ _ => True).

Lemma db_reads d : db_inv d -> reads db_model d d.
Proof. by split. Qed.

(** Trees are told apart by their roots. *)
Context (aroot_inj : forall s t : atree, aroot s = aroot t -> s = t).

Lemma db_batch d b :
  db_inv d -> batch_ok db_model d b ->
  exists d', db_BatchWrite d b = Some d' /\ db_inv d' /\ state_eq (db_abs d') (apply_batch b (db_abs d)).
Proof using aroot_inj.
  intros Hi Hb. unfold db_BatchWrite.
  destruct (batch_loop_map db_write_coins
    (fun k e o => if e_dirty e then norm (Some (e_coins e)) else o) (b_coins b) (d_coins d)) as (mc & -> & Hc).
  { intros k e _. unfold db_write_coins, norm. by destruct (e_dirty e), (IsPruned (e_coins e)). }
  destruct (batch_loop_map db_write_anchor
    (fun k e o => if a_dirty e then if a_entered e then
       (if bool_decide (k = aroot aempty) then o else Some (a_tree e)) else None else o)
    (b_anchors b) (d_anchors d)) as (ma & -> & Ha).
  { intros k e _. unfold db_write_anchor. by destruct (a_dirty e), (a_entered e); cbn; try case_bool_decide. }
  destruct (batch_loop_map db_write_nullifier
    (fun k e o => if n_dirty e then if n_entered e then Some true else None else o)
    (b_nullifiers b) (d_nullifiers d)) as (mn & -> & Hn).
  { intros k e _. unfold db_write_nullifier. by destruct (n_dirty e), (n_entered e). }
  cbn [mbind option_bind]. rewrite (bo_block _ _ _ Hb), (bo_anchor _ _ _ Hb). cbn [negb].
  eexists. split; [reflexivity |]. split.
  - split; cbn [d_coins d_anchors].
    + intros k c. rewrite Hc. destruct (b_coins b !! k) as [e |] eqn:E; [| by apply (di_coins _ Hi)].
      destruct (e_dirty e) eqn:Ed; [| by apply (di_coins _ Hi)].
      intros [-> Hp]%norm_Some. split; [| done]. by apply (bo_coins _ _ _ Hb k).
    + intros k t. rewrite Ha. destruct (b_anchors b !! k) as [e |] eqn:E; [| by apply (di_anchors _ Hi)].
      destruct (a_dirty e) eqn:Ed; [| by apply (di_anchors _ Hi)].
      destruct (a_entered e); [| done]. case_bool_decide; [by apply (di_anchors _ Hi) |].
      intros [= <-]. by apply (bo_anchors _ _ _ Hb k).
  - repeat split; cbn [db_abs apply_batch s_coins s_nullifier s_anchor d_coins d_anchors d_nullifiers].
    + intros k. by rewrite Hc.
    + intros k. rewrite Hn. destruct (b_nullifiers b !! k) as [e |]; [| done].
      by destruct (n_dirty e), (n_entered e).
    + intros k. rewrite Ha. destruct (b_anchors b !! k) as [e |] eqn:E; [| done].
      destruct (a_dirty e) eqn:Ed; [| done].
      destruct (bo_anchors _ _ _ Hb k e E Ed) as [Hr He]. case_bool_decide as Hk.
      * rewrite He by done. f_equal. apply aroot_inj. congruence.
      * by destruct (a_entered e).
Qed.

Lemma db_lawful : lawful db_model.
Proof using aroot_inj.
  split.
  - intros d k Hi. cbn [GetCoins db_view]. split; [by apply db_reads |].
    cbn [db_model abs db_abs s_coins]. split.
    + destruct (d_coins d !! k) as [c |] eqn:E; [| done]. cbn [norm].
      by rewrite (proj2 (di_coins _ Hi k c E)).
    + intros c E. split; [by apply (di_coins _ Hi k) | done].
  - intros d k Hi. cbn [GetNullifier db_view]. split; [by apply db_reads | done].
  - intros d k Hi. cbn [GetSaplingAnchorAt db_view]. split; [by apply db_reads | done].
  - intros d k t Hi. cbn [db_model abs db_abs s_anchor]. case_bool_decide; [by intros [= <-] |].
    by apply (di_anchors _ Hi).
  - intros d _. cbn [db_model abs db_abs s_anchor]. by rewrite bool_decide_eq_true_2.
  - intros d Hi. cbn [GetBestBlock db_view]. split; [by apply db_reads | done].
  - intros d Hi. cbn [GetBestAnchor db_view]. split; [by apply db_reads | done].
  - apply db_batch.
Qed.
End DBLaws.

(** ** A cache over a lawful view is a lawful view *)

Section CacheLaws.
Context `{AnchorTree} (aroot_inj : forall s t : atree, aroot s = aroot t -> s = t).
Context {V : Type} `{!View V} (M : model V) (HM : lawful M).

Record cache_inv (c : cache V) : Prop := {
  ci_base : inv M (c_base c);
  ci_coins k e : c_coins c !! k = Some e ->
    clean (e_coins e) /\
    (if e_fresh e then s_coins (abs M (c_base c)) k = None else holds M (c_base c) k) /\
    (e_dirty e = false -> norm (Some (e_coins e)) = s_coins (abs M (c_base c)) k);
  ci_anchors k e : c_anchors c !! k = Some e ->
    aroot (a_tree e) = k /\ (k = aroot aempty -> a_entered e = true) /\
    (a_dirty e = false -> s_anchor (abs M (c_base c)) k = if a_entered e then Some (a_tree e) else None);
  ci_nullifiers k e : c_nullifiers c !! k = Some e -> n_dirty e = false ->
    n_entered e = s_nullifier (abs M (c_base c)) k
}.

Definition cache_abs (c : cache V) : state :=
  let s := abs M (c_base c) in
  State
    (fun k => match c_coins c !! k with Some e => norm (Some (e_coins e)) | None => s_coins s k end)
    (fun k => match c_nullifiers c !! k with Some e => n_entered e | None => s_nullifier s k end)
    (fun k => match c_anchors c !! k with
              | Some e => if a_entered e then Some (a_tree e) else None
              | None => s_anchor s k
              end)
    (if IsNull256 (c_hashBlock c) then s_best s else c_hashBlock c)
    (if IsNull256 (c_hashAnchor c) then s_best_anchor s else c_hashAnchor c).

Definition cache_model : model (cache V) :=
  Model cache_inv cache_abs (fun c k => is_Some (c_coins c !! k)).

Lemma new_cache_inv v : inv M v -> cache_inv (new_cache v) /\ state_eq (cache_abs (new_cache v)) (abs M v).
Proof. intros Hv. split; [| by repeat split]. split; cbn; intros *; try rewrite lookup_empty; done. Qed.

(** Reading from the base. *)
Lemma base_reads c v :
  cache_inv c -> reads M (c_base c) v -> cache_inv (set_base c v) /\ state_eq (cache_abs (set_base c v)) (cache_abs c).
Proof using.
  intros Hi (Hv & (Hc & Hn & Ha & Hb & Hba) & Hh). split.
  - split; cbn [set_base c_base c_coins c_anchors c_nullifiers].
    + done.
    + intros k e E. destruct (ci_coins _ Hi k e E) as (H1 & H2 & H3). rewrite Hc.
      split; [done |]. split; [destruct (e_fresh e); auto | done].
    + intros k e E. rewrite Ha. by apply (ci_anchors _ Hi).
    + intros k e E. rewrite Hn. by apply (ci_nullifiers _ Hi).
  - unfold state_eq, cache_abs, set_base.
    cbn [s_coins s_nullifier s_anchor s_best s_best_anchor c_base c_coins c_anchors c_nullifiers c_hashBlock c_hashAnchor].
    rewrite Hb, Hba. repeat split; intros k.
    + by destruct (c_coins c !! k).
    + by destruct (c_nullifiers c !! k).
    + by destruct (c_anchors c !! k).
Qed.

(** An entry put over a state that already agrees with it changes nothing. *)
Lemma set_coins_eq c k e :
  norm (Some (e_coins e)) = s_coins (cache_abs c) k ->
  state_eq (cache_abs (set_coins c (<[k := e]> (c_coins c)))) (cache_abs c).
Proof using.
  intros He. repeat split. intros j. cbn [cache_abs set_coins s_coins c_coins c_base].
  destruct (decide (j = k)) as [-> | Hne]; [rewrite lookup_insert_eq; exact He | by rewrite lookup_insert_ne].
Qed.

Lemma cache_inv_set_coins c k e :
  cache_inv c -> clean (e_coins e) ->
  (if e_fresh e then s_coins (abs M (c_base c)) k = None else holds M (c_base c) k) ->
  (e_dirty e = false -> norm (Some (e_coins e)) = s_coins (abs M (c_base c)) k) ->
  cache_inv (set_coins c (<[k := e]> (c_coins c))).
Proof using.
  intros Hi H1 H2 H3. split; cbn [set_coins c_base c_coins c_anchors c_nullifiers]; try apply Hi.
  intros j d. destruct (decide (j = k)) as [-> | Hne].
  - rewrite lookup_insert_eq. by intros [= <-].
  - rewrite lookup_insert_ne by done. apply Hi.
Qed.

Lemma FetchCoins_spec c k :
  cache_inv c ->
  let '(r, c') := FetchCoins c k in
  reads cache_model c c' /\ norm (e_coins <$> r) = s_coins (cache_abs c) k /\
  (forall e, r = Some e -> clean (e_coins e) /\ c_coins c' !! k = Some e) /\
  (c_hashBlock c' = c_hashBlock c /\ c_hashAnchor c' = c_hashAnchor c /\ c_anchors c' = c_anchors c).
Proof using HM.
  intros Hi. unfold FetchCoins. destruct (c_coins c !! k) as [e |] eqn:E.
  - split; [by split |]. cbn [fmap option_fmap option_map]. split; [cbn [cache_abs s_coins]; by rewrite E |].
    split; [| done]. intros e' [= <-]. split; [by apply (ci_coins _ Hi k) | done].
  - pose proof (law_coins _ HM (c_base c) k (ci_base _ Hi)) as HL.
    destruct (GetCoins (c_base c) k) as [r v]. destruct HL as (Hr & Hn & Hs).
    destruct (base_reads c v Hi Hr) as [Hi2 He2]. destruct r as [tmp |].
    + destruct (Hs tmp eq_refl) as [Hcl Hh].
      assert (norm (Some tmp) = s_coins (abs M v) k) as Hn2.
      { destruct Hr as (_ & (Hrc & _) & _). by rewrite Hrc. }
      assert (norm (Some tmp) = s_coins (cache_abs (set_base c v)) k) as Hn3.
      { cbn [cache_abs s_coins set_base c_coins c_base]. by rewrite E. }
      split; [split; [| split] |].
      * apply cache_inv_set_coins; [done | done | | done]. cbn [e_fresh e_coins set_base c_base].
        destruct (IsPruned tmp) eqn:Ep; [| done]. rewrite <-Hn2. cbn [norm]. by rewrite Ep.
      * etransitivity; [apply (set_coins_eq (set_base c v)); exact Hn3 | exact He2].
      * intros j [d Hd]. cbn. destruct (decide (j = k)) as [-> | Hne];
          [rewrite lookup_insert_eq; eauto | rewrite lookup_insert_ne by done; eauto].
      * cbn [fmap option_fmap option_map e_coins]. split; [cbn [cache_abs s_coins]; by rewrite E |].
        split; [| done]. intros e [= <-]. split; [done | apply lookup_insert_eq].
    + split; [split; [done | split; [done |]] |].
      * intros j Hj. exact Hj.
      * split; [cbn [cache_abs s_coins]; by rewrite E | done].
Qed.

Lemma cache_GetNullifier_spec c k :
  cache_inv c ->
  let '(r, c') := cache_GetNullifier c k in reads cache_model c c' /\ r = s_nullifier (cache_abs c) k.
Proof using HM.
  intros Hi. unfold cache_GetNullifier. destruct (c_nullifiers c !! k) as [e |] eqn:E.
  - split; [by split |]. cbn [cache_abs s_nullifier]. by rewrite E.
  - pose proof (law_nullifier _ HM (c_base c) k (ci_base _ Hi)) as HL.
    destruct (GetNullifier (c_base c) k) as [r v]. destruct HL as [Hr Hn].
    destruct (base_reads c v Hi Hr) as [Hi2 He2].
    assert (r = s_nullifier (abs M v) k) as Hn2.
    { destruct Hr as (_ & (_ & Hrn & _) & _). by rewrite Hrn. }
    split; [| cbn [cache_abs s_nullifier]; by rewrite E].
    split; [| split; [| done]].
    + split; cbn; try apply Hi2. intros j d. destruct (decide (j = k)) as [-> | Hne].
      * rewrite lookup_insert_eq. by intros [= <-].
      * rewrite lookup_insert_ne by done. apply (ci_nullifiers _ Hi2).
    + etransitivity; [| exact He2]. repeat split. intros j. cbn. destruct (decide (j = k)) as [-> | Hne].
      * by rewrite lookup_insert_eq, E.
      * by rewrite lookup_insert_ne.
Qed.

Lemma cache_GetSaplingAnchorAt_spec c k :
  cache_inv c ->
  let '(r, c') := cache_GetSaplingAnchorAt c k in
  reads cache_model c c' /\ r = s_anchor (cache_abs c) k /\
  (is_Some r -> is_Some (c_anchors c' !! k)) /\
  c_hashBlock c' = c_hashBlock c /\ c_hashAnchor c' = c_hashAnchor c.
Proof using HM.
  intros Hi. unfold cache_GetSaplingAnchorAt. destruct (c_anchors c !! k) as [e |] eqn:E.
  - split; [by split |]. cbn [cache_abs s_anchor]. rewrite E. split; [done |]. split; [by eauto | done].
  - pose proof (law_anchor _ HM (c_base c) k (ci_base _ Hi)) as HL.
    destruct (GetSaplingAnchorAt (c_base c) k) as [r v]. destruct HL as [Hr Hn].
    destruct (base_reads c v Hi Hr) as [Hi2 He2].
    assert (r = s_anchor (abs M v) k) as Hn2.
    { destruct Hr as (_ & (_ & _ & Hra & _) & _). by rewrite Hra. }
    destruct r as [t |].
    + pose proof (law_anchor_root _ HM v k t (ci_base _ Hi2) (eq_sym Hn2)) as Hroot.
      split; [split; [| split; [| done]] |].
      * split; cbn; try apply Hi2. intros j d. destruct (decide (j = k)) as [-> | Hne].
        -- rewrite lookup_insert_eq. by intros [= <-].
        -- rewrite lookup_insert_ne by done. apply (ci_anchors _ Hi2).
      * etransitivity; [| exact He2]. repeat split. intros j. cbn. destruct (decide (j = k)) as [-> | Hne].
        -- by rewrite lookup_insert_eq, E.
        -- by rewrite lookup_insert_ne.
      * split; [cbn [cache_abs s_anchor]; by rewrite E |]. split; [| done].
        intros _. cbn. rewrite lookup_insert_eq. eauto.
    + split; [by split; [| split] |]. split; [cbn [cache_abs s_anchor]; by rewrite E |].
      split; [by intros [? ?] | done].
Qed.

Lemma cache_GetBestBlock_spec c :
  cache_inv c ->
  let '(r, c') := cache_GetBestBlock c in reads cache_model c c' /\ r = s_best (cache_abs c).
Proof using HM.
  intros Hi. unfold cache_GetBestBlock. destruct (IsNull256 (c_hashBlock c)) eqn:E.
  - pose proof (law_best _ HM (c_base c) (ci_base _ Hi)) as HL.
    destruct (GetBestBlock (c_base c)) as [r v]. destruct HL as [Hr Hn].
    destruct (base_reads c v Hi Hr) as [Hi2 He2].
    split; [| cbn [cache_abs s_best]; by rewrite E].
    split; [split; apply Hi2 |]. split; [| done]. etransitivity; [| exact He2].
    repeat split. cbn [abs cache_model cache_abs s_best set_hashBlock set_base c_hashBlock c_base]. rewrite E.
    destruct Hr as (_ & (_ & _ & _ & Hb & _) & _).
    destruct (IsNull256 r); congruence.
  - split; [by split |]. cbn [cache_abs s_best]. by rewrite E.
Qed.

Lemma cache_GetBestAnchor_spec c :
  cache_inv c ->
  let '(r, c') := cache_GetBestAnchor c in
  reads cache_model c c' /\ r = s_best_anchor (cache_abs c) /\
  c_anchors c' = c_anchors c /\ c_hashBlock c' = c_hashBlock c.
Proof using HM.
  intros Hi. unfold cache_GetBestAnchor. destruct (IsNull256 (c_hashAnchor c)) eqn:E.
  - pose proof (law_best_anchor _ HM (c_base c) (ci_base _ Hi)) as HL.
    destruct (GetBestAnchor (c_base c)) as [r v]. destruct HL as [Hr Hn].
    destruct (base_reads c v Hi Hr) as [Hi2 He2].
    split; [| split; [cbn [cache_abs s_best_anchor]; by rewrite E | done]].
    split; [split; apply Hi2 |]. split; [| done]. etransitivity; [| exact He2].
    repeat split. cbn [abs cache_model cache_abs s_best_anchor set_hashAnchor set_base c_hashAnchor c_base]. rewrite E.
    destruct Hr as (_ & (_ & _ & _ & _ & Hb) & _).
    destruct (IsNull256 r); congruence.
  - split; [by split |]. cbn [cache_abs s_best_anchor]. by rewrite E.
Qed.

(** What [BatchWrite] does to one coin entry. *)
Definition merged_coins (e : centry) (o : option centry) : option centry :=
  if e_dirty e then
    match o with
    | None => if IsPruned (e_coins e) then None else Some (CEntry (e_coins e) true true)
    | Some us => if e_fresh us && IsPruned (e_coins e) then None
                 else Some (CEntry (e_coins e) true (e_fresh us))
    end
  else o.

Definition merged_anchor (e : aentry) (o : option aentry) : option aentry :=
  if a_dirty e then
    match o with
    | None => Some (AEntry (a_entered e) (a_tree e) true)
    | Some p => if Bool.eqb (a_entered p) (a_entered e) then Some p
                else Some (AEntry (a_entered e) (a_tree p) true)
    end
  else o.

Definition merged_nullifier (e : nentry) (o : option nentry) : option nentry :=
  if n_dirty e then
    match o with
    | None => Some (NEntry (n_entered e) true)
    | Some p => if Bool.eqb (n_entered p) (n_entered e) then Some p else Some (NEntry (n_entered e) true)
    end
  else o.

(** [BatchWrite] runs without a failed assertion; it merges every entry. *)
Lemma cache_BatchWrite_eq c b :
  batch_ok cache_model c b ->
  exists mc ma mn, cache_BatchWrite c b = Some (Cache (c_base c) (b_block b) (b_anchor b) mc ma mn) /\
    (forall k, mc !! k = match b_coins b !! k with Some e => merged_coins e (c_coins c !! k) | None => c_coins c !! k end) /\
    (forall k, ma !! k = match b_anchors b !! k with Some e => merged_anchor e (c_anchors c !! k) | None => c_anchors c !! k end) /\
    (forall k, mn !! k = match b_nullifiers b !! k with Some e => merged_nullifier e (c_nullifiers c !! k) | None => c_nullifiers c !! k end).
Proof using.
  intros Hb. unfold cache_BatchWrite.
  destruct (batch_loop_map cache_write_coins (fun _ => merged_coins) (b_coins b) (c_coins c)) as (mc & -> & Hc).
  { intros k e E. unfold cache_write_coins, merged_coins. destruct (e_dirty e) eqn:Ed; [| done].
    destruct (bo_coins _ _ _ Hb k e E Ed) as [_ Hf].
    destruct (c_coins c !! k) as [us |] eqn:Ek; [by destruct (e_fresh us && _) |].
    destruct (IsPruned (e_coins e)); [done |]. cbn [negb].
    destruct (e_fresh e); [done |]. cbn in Hf. rewrite Ek in Hf. by destruct Hf. }
  destruct (batch_loop_map cache_write_anchor (fun _ => merged_anchor) (b_anchors b) (c_anchors c)) as (ma & -> & Ha).
  { intros k e _. unfold cache_write_anchor, merged_anchor. destruct (a_dirty e); [| done].
    destruct (c_anchors c !! k) as [p |]; [| done]. by destruct (Bool.eqb _ _). }
  destruct (batch_loop_map cache_write_nullifier (fun _ => merged_nullifier) (b_nullifiers b) (c_nullifiers c)) as (mn & -> & Hn).
  { intros k e _. unfold cache_write_nullifier, merged_nullifier. destruct (n_dirty e); [| done].
    destruct (c_nullifiers c !! k) as [p |]; [| done]. by destruct (Bool.eqb _ _). }
  by exists mc, ma, mn.
Qed.

Lemma merged_coins_inv c b k e d :
  cache_inv c -> batch_ok cache_model c b -> b_coins b !! k = Some e ->
  merged_coins e (c_coins c !! k) = Some d ->
  clean (e_coins d) /\
  (if e_fresh d then s_coins (abs M (c_base c)) k = None else holds M (c_base c) k) /\
  (e_dirty d = false -> norm (Some (e_coins d)) = s_coins (abs M (c_base c)) k).
Proof using.
  intros Hi Hb Eb. unfold merged_coins. destruct (e_dirty e) eqn:Ed; [| by apply Hi].
  destruct (bo_coins _ _ _ Hb k e Eb Ed) as [Hcl Hf]. cbn [abs holds cache_model cache_abs s_coins] in Hf.
  destruct (c_coins c !! k) as [us |] eqn:Ek.
  - destruct (e_fresh us && _); [done |]. intros [= <-]. cbn [e_coins e_fresh e_dirty].
    split; [done |]. split; [apply (ci_coins _ Hi k us Ek) | done].
  - destruct (IsPruned (e_coins e)); [done |]. intros [= <-]. cbn [e_coins e_fresh e_dirty].
    split; [done |]. split; [| done]. destruct (e_fresh e); [done |]. by destruct Hf.
Qed.

Lemma merged_coins_abs c b k e :
  cache_inv c -> batch_ok cache_model c b -> b_coins b !! k = Some e -> e_dirty e = true ->
  match merged_coins e (c_coins c !! k) with
  | Some d => norm (Some (e_coins d))
  | None => s_coins (abs M (c_base c)) k
  end = norm (Some (e_coins e)).
Proof using.
  intros Hi Hb Eb Ed. unfold merged_coins. rewrite Ed.
  destruct (bo_coins _ _ _ Hb k e Eb Ed) as [_ Hf]. cbn [abs holds cache_model cache_abs s_coins] in Hf.
  destruct (c_coins c !! k) as [us |] eqn:Ek.
  - destruct (e_fresh us) eqn:Ef; [| done]. destruct (IsPruned (e_coins e)) eqn:Ep; cbn [andb]; [| done].
    destruct (ci_coins _ Hi k us Ek) as (_ & Hu & _). rewrite Ef in Hu. rewrite Hu. cbn [norm]. by rewrite Ep.
  - destruct (IsPruned (e_coins e)) eqn:Ep; [| done]. cbn [norm]. rewrite Ep.
    destruct (e_fresh e); [done |]. by destruct Hf.
Qed.

Lemma cache_batch c b :
  cache_inv c -> batch_ok cache_model c b ->
  exists c', cache_BatchWrite c b = Some c' /\ cache_inv c' /\ state_eq (cache_abs c') (apply_batch b (cache_abs c)).
Proof using aroot_inj.
  intros Hi Hb. destruct (cache_BatchWrite_eq c b Hb) as (mc & ma & mn & -> & Hc & Ha & Hn).
  eexists. split; [reflexivity |]. split.
  - split; cbn [c_base c_coins c_anchors c_nullifiers].
    + apply Hi.
    + intros k d. rewrite Hc. destruct (b_coins b !! k) as [e |] eqn:Eb; [| apply Hi].
      by apply merged_coins_inv with b.
    + intros k d. rewrite Ha. destruct (b_anchors b !! k) as [e |] eqn:Eb; [| apply Hi].
      unfold merged_anchor. destruct (a_dirty e) eqn:Ed; [| apply Hi].
      destruct (bo_anchors _ _ _ Hb k e Eb Ed) as [Hr He].
      destruct (c_anchors c !! k) as [p |] eqn:Ek; [| by intros [= <-]].
      destruct (Bool.eqb _ _); intros [= <-]; [by apply Hi |]. cbn.
      split; [by apply (ci_anchors _ Hi k p) | done].
    + intros k d. rewrite Hn. destruct (b_nullifiers b !! k) as [e |] eqn:Eb; [| apply Hi].
      unfold merged_nullifier. destruct (n_dirty e) eqn:Ed; [| apply Hi].
      destruct (c_nullifiers c !! k) as [p |] eqn:Ek; [| by intros [= <-]].
      destruct (Bool.eqb _ _); intros [= <-]; [by apply Hi | done].
  - repeat split; cbn [cache_abs apply_batch s_coins s_nullifier s_anchor s_best s_best_anchor
      c_base c_coins c_anchors c_nullifiers c_hashBlock c_hashAnchor];
      rewrite ?(bo_block _ _ _ Hb), ?(bo_anchor _ _ _ Hb); try done.
    + intros k. rewrite Hc. destruct (b_coins b !! k) as [e |] eqn:Eb; [| done].
      destruct (e_dirty e) eqn:Ed; [by apply merged_coins_abs with b |].
      unfold merged_coins. by rewrite Ed.
    + intros k. rewrite Hn. destruct (b_nullifiers b !! k) as [e |]; [| done].
      unfold merged_nullifier. destruct (n_dirty e); [| done].
      destruct (c_nullifiers c !! k) as [p |]; [| done].
      destruct (Bool.eqb _ _) eqn:E; [by apply eqb_prop in E | done].
    + intros k. rewrite Ha. destruct (b_anchors b !! k) as [e |] eqn:Eb; [| done].
      unfold merged_anchor. destruct (a_dirty e) eqn:Ed; [| done].
      destruct (bo_anchors _ _ _ Hb k e Eb Ed) as [Hr He].
      destruct (c_anchors c !! k) as [p |] eqn:Ek; [| done].
      assert (a_tree p = a_tree e) as Et.
      { apply aroot_inj. rewrite Hr. by apply (ci_anchors _ Hi k p). }
      destruct (Bool.eqb _ _) eqn:E; cbn [a_entered a_tree]; [apply eqb_prop in E; by rewrite E, Et | by rewrite Et].
Qed.

Lemma cache_lawful : lawful cache_model.
Proof using HM aroot_inj.
  split.
  - intros c k Hi. pose proof (FetchCoins_spec c k Hi) as Hs.
    cbn [GetCoins cache_view]. unfold cache_GetCoins. destruct (FetchCoins c k) as [r c'].
    destruct Hs as (Hr & Hn & Hs & _). split; [done |]. split; [done |].
    intros cs Ec. destruct r as [e |]; [| done]. injection Ec as <-.
    destruct (Hs e eq_refl) as [Hcl Hk]. split; [done |]. cbn. by rewrite Hk.
  - intros c k Hi. exact (cache_GetNullifier_spec c k Hi).
  - intros c k Hi. pose proof (cache_GetSaplingAnchorAt_spec c k Hi) as Hs.
    cbn [GetSaplingAnchorAt cache_view]. destruct (cache_GetSaplingAnchorAt c k). by destruct Hs as (? & ? & _).
  - intros c k t Hi. cbn [cache_model abs cache_abs s_anchor]. destruct (c_anchors c !! k) as [e |] eqn:E.
    + destruct (a_entered e); [| done]. intros [= <-]. by apply (ci_anchors _ Hi).
    + apply HM, Hi.
  - intros c Hi. cbn [cache_model abs cache_abs s_anchor]. destruct (c_anchors c !! aroot aempty) as [e |] eqn:E.
    + destruct (ci_anchors _ Hi _ e E) as (Hr & He & _). rewrite He by done. f_equal. by apply aroot_inj.
    + apply HM, Hi.
  - intros c Hi. exact (cache_GetBestBlock_spec c Hi).
  - intros c Hi. pose proof (cache_GetBestAnchor_spec c Hi) as Hs. cbn [GetBestAnchor cache_view].
    destruct (cache_GetBestAnchor c). by destruct Hs as (? & ? & _).
  - apply cache_batch.
Qed.

(** *** Modifying operations *)

(** A modification does not look at the metadata of spent coins. *)
Definition respects {R} (f : coins -> coins * R) : Prop :=
  forall c c', clean c -> clean c' -> IsPruned c = true -> IsPruned c' = true ->
    norm (Some (Cleanup (f c).1)) = norm (Some (Cleanup (f c').1)) /\ (f c).2 = (f c').2.

Definition s_modify {R} (s : state) (k : uint256) (f : coins -> coins * R) : state :=
  State (fun j => if decide (j = k) then norm (Some (Cleanup (f (default Clear (s_coins s k))).1)) else s_coins s j)
    (s_nullifier s) (s_anchor s) (s_best s) (s_best_anchor s).

Lemma s_modify_coins {R} s k (f : coins -> coins * R) j :
  s_coins (s_modify s k f) j =
  if decide (j = k) then norm (Some (Cleanup (f (default Clear (s_coins s k))).1)) else s_coins s j.
Proof. done. Qed.

Lemma cache_abs_coins c m j :
  s_coins (cache_abs (set_coins c m)) j =
  match m !! j with Some e => norm (Some (e_coins e)) | None => s_coins (abs M (c_base c)) j end.
Proof. done. Qed.

Lemma modify_begin_spec c k :
  cache_inv c ->
  let '(e, c') := modify_begin c k in
  cache_inv c' /\ state_eq (cache_abs c') (cache_abs c) /\
  c_hashBlock c' = c_hashBlock c /\ c_hashAnchor c' = c_hashAnchor c /\
  clean (e_coins e) /\ norm (Some (e_coins e)) = s_coins (cache_abs c) k /\ e_dirty e = true /\
  (if e_fresh e then s_coins (abs M (c_base c')) k = None else holds M (c_base c') k).
Proof using HM.
  intros Hi. unfold modify_begin. destruct (c_coins c !! k) as [e |] eqn:E.
  - destruct (ci_coins _ Hi k e E) as (H1 & H2 & _). cbn [e_coins e_dirty e_fresh].
    split; [done |]. split; [done |]. do 2 (split; [done |]). split; [done |].
    split; [cbn [cache_abs s_coins]; by rewrite E |]. by split.
  - pose proof (law_coins _ HM (c_base c) k (ci_base _ Hi)) as HL.
    destruct (GetCoins (c_base c) k) as [r v]. destruct HL as (Hr & Hn & Hs).
    destruct (base_reads c v Hi Hr) as [Hi2 He2].
    assert (s_coins (abs M v) k = norm r) as Hn2.
    { destruct Hr as (_ & (Hrc & _) & _). by rewrite Hrc. }
    assert (s_coins (cache_abs c) k = norm r) as Hn3 by (cbn [cache_abs s_coins]; by rewrite E).
    destruct r as [cs |]; cbn [e_coins e_dirty e_fresh]; do 4 (split; [done |]).
    + destruct (Hs cs eq_refl) as [Hcl Hh]. split; [done |]. split; [done |]. split; [done |].
      cbn [set_base c_base]. destruct (IsPruned cs) eqn:Ep; [| done]. rewrite Hn2. cbn [norm]. by rewrite Ep.
    + split; [apply Clear_clean |]. by rewrite Hn3.
Qed.

Lemma ModifyCoins_spec {R} c k (f : coins -> coins * R) :
  cache_inv c -> (s_coins (cache_abs c) k = None -> respects f) ->
  let '(r, c') := ModifyCoins c k f in
  cache_inv c' /\ state_eq (cache_abs c') (s_modify (cache_abs c) k f) /\
  r = (f (default Clear (s_coins (cache_abs c) k))).2 /\
  c_hashBlock c' = c_hashBlock c /\ c_hashAnchor c' = c_hashAnchor c.
Proof using HM.
  intros Hi Hf. unfold ModifyCoins. pose proof (modify_begin_spec c k Hi) as Hb.
  destruct (modify_begin c k) as [e c1]. destruct Hb as (Hi1 & He1 & Hh1 & Hh2 & Hcl & Hn & Hd & Hfr).
  set (c0 := default Clear (s_coins (cache_abs c) k)).
  assert (norm (Some (Cleanup (f (e_coins e)).1)) = norm (Some (Cleanup (f c0).1)) /\ (f (e_coins e)).2 = (f c0).2)
    as [Hnf Hrf].
  { destruct (s_coins (cache_abs c) k) as [ck |] eqn:Ek; cbn [default] in c0.
    - apply norm_Some in Hn as [-> _]. done.
    - apply (Hf eq_refl); [done | apply Clear_clean | | done]. cbn [norm] in Hn. by destruct (IsPruned (e_coins e)). }
  destruct (f (e_coins e)) as [cs r] eqn:Ef. cbn [fst snd] in *. unfold modify_end. cbn [e_coins e_dirty e_fresh].
  assert (forall m, state_eq (cache_abs (set_coins c1 m)) (s_modify (cache_abs c) k f) <->
    forall j, s_coins (cache_abs (set_coins c1 m)) j = s_coins (s_modify (cache_abs c) k f) j) as Hst.
  { intros m. split; [by intros (? & _) |]. intros Hm. destruct He1 as (_ & K2 & K3 & K4 & K5).
    split; [done |]. split; [exact K2 |]. split; [exact K3 |]. split; [exact K4 | exact K5]. }
  assert (forall j, j <> k -> s_coins (cache_abs c1) j = s_coins (cache_abs c) j) as Hj by (intros; apply He1).
  destruct (e_fresh e && IsPruned (Cleanup cs)) eqn:E; (split; [| split; [apply Hst; intros j | by split]]).
  - split; cbn [set_coins c_base c_coins c_anchors c_nullifiers]; try apply Hi1.
    intros j d. rewrite lookup_delete_Some. intros [_ Hd']. by apply Hi1.
  - apply andb_prop in E as [Efr Ep]. rewrite Efr in Hfr.
    rewrite cache_abs_coins, s_modify_coins. fold c0. rewrite <-Hnf. case_decide as Hjk.
    + subst j. rewrite lookup_delete_eq, Hfr. cbn [norm]. by rewrite Ep.
    + rewrite lookup_delete_ne by done. by apply Hj.
  - apply cache_inv_set_coins; cbn [e_coins e_dirty e_fresh]; auto using Cleanup_clean. congruence.
  - rewrite cache_abs_coins, s_modify_coins. fold c0. rewrite <-Hnf. case_decide as Hjk.
    + subst j. by rewrite lookup_insert_eq.
    + rewrite lookup_insert_ne by done. by apply Hj.
Qed.

Definition s_push (s : state) (t : atree) : state :=
  if decide (s_best_anchor s = aroot t) then s
  else State (s_coins s) (s_nullifier s)
    (fun k => if decide (k = aroot t) then Some t else s_anchor s k) (s_best s) (aroot t).

Definition s_pop (s : state) (rt : uint256) : state :=
  if decide (s_best_anchor s = rt) then s
  else State (s_coins s) (s_nullifier s)
    (fun k => if decide (k = s_best_anchor s) then None else s_anchor s k) (s_best s) rt.

Definition s_set_nullifiers (s : state) (nfs : list uint256) (spent : bool) : state :=
  State (s_coins s) (fun k => if decide (k ∈ nfs) then spent else s_nullifier s k)
    (s_anchor s) (s_best s) (s_best_anchor s).

Definition s_set_best (s : state) (h : uint256) : state :=
  State (s_coins s) (s_nullifier s) (s_anchor s) h (s_best_anchor s).

Lemma cache_inv_set_anchor c k e h :
  cache_inv c -> aroot (a_tree e) = k -> (k = aroot aempty -> a_entered e = true) -> a_dirty e = true ->
  cache_inv (set_hashAnchor (set_anchors c (<[k := e]> (c_anchors c))) h).
Proof using.
  intros Hi H1 H2 H3. split; cbn; try apply Hi. intros j d. destruct (decide (j = k)) as [-> | Hne].
  - rewrite lookup_insert_eq. intros [= <-]. split; [done |]. split; [done | congruence].
  - rewrite lookup_insert_ne by done. apply Hi.
Qed.

Lemma PushAnchor_spec c t :
  cache_inv c -> IsNull256 (aroot t) = false ->
  cache_inv (PushAnchor c t) /\ state_eq (cache_abs (PushAnchor c t)) (s_push (cache_abs c) t) /\
  c_hashBlock (PushAnchor c t) = c_hashBlock c.
Proof using HM.
  intros Hi Ht. unfold PushAnchor. pose proof (cache_GetBestAnchor_spec c Hi) as Hs.
  destruct (cache_GetBestAnchor c) as [r c1]. destruct Hs as ((Hi1 & He1 & _) & -> & Ha & Hb).
  cbn [abs cache_model] in He1. unfold s_push.
  case_bool_decide as Hne; case_decide as Hne'; [done | | | done].
  - split; [apply cache_inv_set_anchor; done |]. split; [| done].
    destruct He1 as (K1 & K2 & K3 & K4 & K5). split; [exact K1 |]. split; [exact K2 |].
    split; [| split; [exact K4 | cbn [cache_abs set_hashAnchor set_anchors c_hashAnchor s_best_anchor]; by rewrite Ht]].
    intros k. cbn [cache_abs set_hashAnchor set_anchors c_anchors c_base s_anchor].
    case_decide as Hk; [subst k; by rewrite lookup_insert_eq |]. rewrite lookup_insert_ne by done. apply K3.
  - by destruct Hne.
Qed.

Lemma PopAnchor_spec c rt t :
  cache_inv c -> IsNull256 rt = false ->
  (s_best_anchor (cache_abs c) <> rt ->
     s_best_anchor (cache_abs c) <> aroot aempty /\ s_anchor (cache_abs c) (s_best_anchor (cache_abs c)) = Some t) ->
  exists c', PopAnchor c rt = Some c' /\ cache_inv c' /\ state_eq (cache_abs c') (s_pop (cache_abs c) rt) /\
    c_hashBlock c' = c_hashBlock c.
Proof using HM.
  intros Hi Hrt Hpre. unfold PopAnchor. pose proof (cache_GetBestAnchor_spec c Hi) as Hs.
  destruct (cache_GetBestAnchor c) as [r c1]. destruct Hs as ((Hi1 & He1 & _) & -> & Ha & Hb).
  cbn [abs cache_model] in He1. unfold s_pop.
  case_bool_decide as Hne; case_decide as Hne'; [done | | | done].
  - destruct (Hpre Hne) as [Hemp Htree].
    pose proof (cache_GetSaplingAnchorAt_spec c1 (s_best_anchor (cache_abs c)) Hi1) as Hs.
    destruct (cache_GetSaplingAnchorAt c1 _) as [r2 c2].
    destruct Hs as ((Hi2 & He2 & _) & Hr2 & Hin & Hb2 & _). cbn [abs cache_model] in He2.
    assert (r2 = Some t) as -> by (rewrite Hr2; destruct He1 as (_ & _ & K3 & _); by rewrite K3).
    destruct Hin as [e Ee]; [by eauto |]. rewrite Ee.
    eexists. split; [reflexivity |]. split; [| split; [| exact (eq_trans Hb2 Hb)]].
    + apply cache_inv_set_anchor; [done | apply (ci_anchors _ Hi2 _ e Ee) | by intros E%Hemp | done].
    + pose proof (transitivity He2 He1) as (K1 & K2 & K3 & K4 & K5).
      split; [exact K1 |]. split; [exact K2 |].
      split; [| split; [exact K4 | cbn [cache_abs set_hashAnchor set_anchors c_hashAnchor s_best_anchor]; by rewrite Hrt]].
      intros k. cbn [cache_abs set_hashAnchor set_anchors c_anchors c_base s_anchor].
      case_decide as Hk; [subst k; by rewrite lookup_insert_eq |]. rewrite lookup_insert_ne by done. apply K3.
  - exists c1. by split.
Qed.

Lemma SetNullifiers_spec c nfs spent :
  cache_inv c ->
  cache_inv (SetNullifiers c nfs spent) /\
  state_eq (cache_abs (SetNullifiers c nfs spent)) (s_set_nullifiers (cache_abs c) nfs spent) /\
  c_hashBlock (SetNullifiers c nfs spent) = c_hashBlock c /\ c_hashAnchor (SetNullifiers c nfs spent) = c_hashAnchor c.
Proof using.
  revert c. induction nfs as [| nf nfs IH]; intros c Hi; cbn [SetNullifiers].
  - split; [done |]. split; [| done]. repeat split.
  - destruct (IH (set_nullifiers c (<[nf := NEntry spent true]> (c_nullifiers c)))) as (Hi2 & He2 & Hh).
    { split; cbn; try apply Hi. intros k e. destruct (decide (k = nf)) as [-> | Hne].
      - rewrite lookup_insert_eq. by intros [= <-].
      - rewrite lookup_insert_ne by done. apply Hi. }
    split; [done |]. split; [| done]. etransitivity; [exact He2 |]. repeat split. intros k.
    cbn [s_set_nullifiers s_nullifier cache_abs set_nullifiers c_nullifiers c_base].
    destruct (decide (k ∈ nfs)) as [Hk | Hk]; [by rewrite decide_True by (by right) |].
    destruct (decide (k = nf)) as [-> | Hne].
    + rewrite lookup_insert_eq, decide_True by (by left). done.
    + rewrite lookup_insert_ne, decide_False; [done | | done]. by intros [?|?]%elem_of_cons.
Qed.

Lemma SetBestBlock_spec c h :
  cache_inv c -> IsNull256 h = false ->
  cache_inv (SetBestBlock c h) /\ state_eq (cache_abs (SetBestBlock c h)) (s_set_best (cache_abs c) h).
Proof using.
  intros Hi Hh. split; [split; apply Hi |]. repeat split.
  cbn [cache_abs SetBestBlock set_hashBlock c_hashBlock s_best s_set_best]. by rewrite Hh.
Qed.

Lemma HaveCoins_spec c k :
  cache_inv c ->
  let '(r, c') := HaveCoins c k in
  reads cache_model c c' /\ r = bool_decide (is_Some (s_coins (cache_abs c) k)) /\
  c_hashBlock c' = c_hashBlock c /\ c_hashAnchor c' = c_hashAnchor c.
Proof using HM.
  intros Hi. unfold HaveCoins. pose proof (FetchCoins_spec c k Hi) as Hs.
  destruct (FetchCoins c k) as [r c']. destruct Hs as (Hr & Hn & Hs & ? & ? & _).
  split; [done |]. split; [| done]. rewrite <-Hn. destruct r as [e |]; [| done].
  destruct (Hs e eq_refl) as [Hcl _]. rewrite <-(clean_pruned _ Hcl). cbn [fmap option_fmap option_map norm].
  destruct (IsPruned (e_coins e)); [| by rewrite bool_decide_eq_true_2 by eauto].
  by rewrite bool_decide_eq_false_2 by (by intros [? ?]).
Qed.

(** [Flush] moves the state to the base and leaves the cache empty. *)
Lemma Flush_spec c :
  cache_inv c -> IsNull256 (c_hashBlock c) = false -> IsNull256 (c_hashAnchor c) = false ->
  exists c', Flush c = Some c' /\ cache_inv c' /\ state_eq (cache_abs c') (cache_abs c) /\
    state_eq (abs M (c_base c')) (cache_abs c) /\
    c_hashBlock c' = c_hashBlock c /\ c_hashAnchor c' = c_hashAnchor c.
Proof using HM.
  intros Hi Hb Ha. unfold Flush.
  destruct (law_batch _ HM (c_base c)
    (Batch (c_coins c) (c_hashBlock c) (c_hashAnchor c) (c_anchors c) (c_nullifiers c)))
    as (v & Ev & Hv & Hs); [apply Hi | |].
  { split; cbn [b_coins b_anchors b_block b_anchor]; [| | done | done].
    - intros k e E _. split; [by apply (ci_coins _ Hi k) |]. apply (ci_coins _ Hi k e E).
    - intros k e E _. destruct (ci_anchors _ Hi k e E) as (? & ? & _). done. }
  rewrite Ev. cbn [mbind option_bind]. eexists. split; [reflexivity |].
  assert (state_eq (abs M v) (cache_abs c)) as Heq.
  { etransitivity; [exact Hs |]. unfold apply_batch. 
    repeat split; cbn [cache_abs b_coins b_anchors b_nullifiers b_block b_anchor
      s_coins s_nullifier s_anchor s_best s_best_anchor]; rewrite ?Hb, ?Ha; try done.
    - intros k. destruct (c_coins c !! k) as [e |] eqn:E; [| done].
      destruct (e_dirty e) eqn:Ed; [done |]. symmetry. by apply (ci_coins _ Hi k e E).
    - intros k. destruct (c_nullifiers c !! k) as [e |] eqn:E; [| done].
      destruct (n_dirty e) eqn:Ed; [done |]. symmetry. by apply (ci_nullifiers _ Hi k e E).
    - intros k. destruct (c_anchors c !! k) as [e |] eqn:E; [| done].
      destruct (a_dirty e) eqn:Ed; [done |]. by apply (ci_anchors _ Hi k e E). }
  split; [| split; [| by split]].
  - split; cbn [c_base c_coins c_anchors c_nullifiers]; [done | ..]; intros k e; by rewrite lookup_empty.
  - destruct Heq as (K1 & K2 & K3 & _). unfold state_eq.
    cbn [cache_abs c_base c_coins c_anchors c_nullifiers c_hashBlock c_hashAnchor s_coins s_nullifier s_anchor s_best s_best_anchor].
    rewrite Hb, Ha. repeat split; intros k; rewrite lookup_empty; [apply K1 | apply K2 | apply K3].
Qed.

(** *** Sequences of operations *)

Inductive op :=
| OpGetCoins (txid : uint256)
| OpHaveCoins (txid : uint256)
| OpGetNullifier (nf : uint256)
| OpGetAnchor (rt : uint256)
| OpBestBlock
| OpBestAnchor
| OpModify (txid : uint256) (f : coins -> coins * unit)
| OpPushAnchor (t : atree)
| OpPopAnchor (rt : uint256)
| OpSetNullifiers (nfs : list uint256) (spent : bool)
| OpSetBestBlock (h : uint256).

(** What an operation returns; spent coins are no coins. *)
Inductive out :=
| OutCoins (c : option coins)
| OutBool (b : bool)
| OutAnchor (t : option atree)
| OutHash (h : uint256)
| OutNone.

Definition run_op (c : cache V) (o : op) : option (out * cache V) :=
  match o with
  | OpGetCoins k => let '(r, c) := cache_GetCoins c k in Some (OutCoins (norm r), c)
  | OpHaveCoins k => let '(r, c) := HaveCoins c k in Some (OutBool r, c)
  | OpGetNullifier k => let '(r, c) := cache_GetNullifier c k in Some (OutBool r, c)
  | OpGetAnchor k => let '(r, c) := cache_GetSaplingAnchorAt c k in Some (OutAnchor r, c)
  | OpBestBlock => let '(r, c) := cache_GetBestBlock c in Some (OutHash r, c)
  | OpBestAnchor => let '(r, c) := cache_GetBestAnchor c in Some (OutHash r, c)
  | OpModify k f => Some (OutNone, (ModifyCoins c k f).2)
  | OpPushAnchor t => Some (OutNone, PushAnchor c t)
  | OpPopAnchor rt => c ← PopAnchor c rt; Some (OutNone, c)
  | OpSetNullifiers nfs b => Some (OutNone, SetNullifiers c nfs b)
  | OpSetBestBlock h => Some (OutNone, SetBestBlock c h)
  end.

Fixpoint run_ops (c : cache V) (l : list op) : option (list out * cache V) :=
  match l with
  | [] => Some ([], c)
  | o :: l =>
    '(r, c) ← run_op c o;
    '(rs, c) ← run_ops c l;
    Some (r :: rs, c)
  end.

(** The same on the plain state. *)
Definition spec_op (s : state) (o : op) : out * state :=
  match o with
  | OpGetCoins k => (OutCoins (s_coins s k), s)
  | OpHaveCoins k => (OutBool (bool_decide (is_Some (s_coins s k))), s)
  | OpGetNullifier k => (OutBool (s_nullifier s k), s)
  | OpGetAnchor k => (OutAnchor (s_anchor s k), s)
  | OpBestBlock => (OutHash (s_best s), s)
  | OpBestAnchor => (OutHash (s_best_anchor s), s)
  | OpModify k f => (OutNone, s_modify s k f)
  | OpPushAnchor t => (OutNone, s_push s t)
  | OpPopAnchor rt => (OutNone, s_pop s rt)
  | OpSetNullifiers nfs b => (OutNone, s_set_nullifiers s nfs b)
  | OpSetBestBlock h => (OutNone, s_set_best s h)
  end.

Fixpoint spec_ops (s : state) (l : list op) : list out * state :=
  match l with
  | [] => ([], s)
  | o :: l => let '(r, s) := spec_op s o in let '(rs, s) := spec_ops s l in (r :: rs, s)
  end.

(** What the callers guarantee: hashes are not zero, a popped anchor is there
    and is not the empty root. *)
Definition op_ok (s : state) (o : op) : Prop :=
  match o with
  | OpModify _ f => respects f
  | OpPushAnchor t => IsNull256 (aroot t) = false
  | OpPopAnchor rt => IsNull256 rt = false /\
      (s_best_anchor s <> rt -> s_best_anchor s <> aroot aempty /\ is_Some (s_anchor s (s_best_anchor s)))
  | OpSetBestBlock h => IsNull256 h = false
  | _ => True
  end.

Fixpoint ops_ok (s : state) (l : list op) : Prop :=
  match l with
  | [] => True
  | o :: l => op_ok s o /\ ops_ok (spec_op s o).2 l
  end.

Lemma spec_op_proper s t o :
  state_eq s t -> (spec_op s o).1 = (spec_op t o).1 /\ state_eq (spec_op s o).2 (spec_op t o).2.
Proof using.
  intros (K1 & K2 & K3 & K4 & K5). destruct o; cbn [spec_op fst snd];
    try (split; [by rewrite ?K1, ?K2, ?K3, ?K4, ?K5 | by repeat split]).
  - split; [done |]. repeat split; try done. intros j. rewrite !s_modify_coins, !K1. done.
  - split; [done |]. unfold s_push. rewrite K5. case_decide; [by repeat split |].
    repeat split; try done. intros j. cbn. by rewrite K3.
  - split; [done |]. unfold s_pop. rewrite K5. case_decide; [by repeat split |].
    repeat split; try done. intros j. cbn. by rewrite K3.
  - split; [done |]. repeat split; try done. intros j. cbn. by rewrite K2.
Qed.

Lemma op_ok_proper s t o : state_eq s t -> op_ok s o -> op_ok t o.
Proof using.
  intros (_ & _ & K3 & _ & K5). destruct o; cbn [op_ok]; try done. by rewrite K5, K3.
Qed.

Lemma ops_ok_proper s t l : state_eq s t -> ops_ok s l -> ops_ok t l.
Proof using.
  revert s t. induction l as [| o l IH]; intros s t E; cbn [ops_ok]; [done |]. intros [Ho Hl].
  split; [by apply op_ok_proper with s |]. eapply IH; [| exact Hl]. by apply spec_op_proper.
Qed.

Lemma spec_ops_proper s t l :
  state_eq s t -> (spec_ops s l).1 = (spec_ops t l).1 /\ state_eq (spec_ops s l).2 (spec_ops t l).2.
Proof using.
  revert s t. induction l as [| o l IH]; intros s t E; cbn [spec_ops]; [done |].
  destruct (spec_op_proper s t o E) as [E1 E2].
  destruct (spec_op s o) as [r s1], (spec_op t o) as [r' t1]. cbn [fst snd] in *. subst r'.
  destruct (IH s1 t1 E2) as [E3 E4]. destruct (spec_ops s1 l), (spec_ops t1 l). cbn [fst snd] in *. by subst.
Qed.

(** One operation on the cache is one operation on the state. *)
Lemma run_op_spec c o :
  cache_inv c -> op_ok (cache_abs c) o ->
  exists c', run_op c o = Some ((spec_op (cache_abs c) o).1, c') /\ cache_inv c' /\
    state_eq (cache_abs c') (spec_op (cache_abs c) o).2.
Proof using HM.
  intros Hi Ho. destruct o; cbn [run_op spec_op fst snd op_ok] in *.
  - pose proof (FetchCoins_spec c txid Hi) as Hs. unfold cache_GetCoins. destruct (FetchCoins c txid) as [r c'].
    destruct Hs as ((? & ? & _) & Hn & _). exists c'. by rewrite Hn.
  - pose proof (HaveCoins_spec c txid Hi) as Hs. destruct (HaveCoins c txid) as [r c'].
    destruct Hs as ((? & ? & _) & -> & _). by exists c'.
  - pose proof (cache_GetNullifier_spec c nf Hi) as Hs. destruct (cache_GetNullifier c nf) as [r c'].
    destruct Hs as ((? & ? & _) & ->). by exists c'.
  - pose proof (cache_GetSaplingAnchorAt_spec c rt Hi) as Hs. destruct (cache_GetSaplingAnchorAt c rt) as [r c'].
    destruct Hs as ((? & ? & _) & -> & _). by exists c'.
  - pose proof (cache_GetBestBlock_spec c Hi) as Hs. destruct (cache_GetBestBlock c) as [r c'].
    destruct Hs as ((? & ? & _) & ->). by exists c'.
  - pose proof (cache_GetBestAnchor_spec c Hi) as Hs. destruct (cache_GetBestAnchor c) as [r c'].
    destruct Hs as ((? & ? & _) & -> & _). by exists c'.
  - pose proof (ModifyCoins_spec c txid f Hi (fun _ => Ho)) as Hs. destruct (ModifyCoins c txid f) as [r c'].
    destruct Hs as (? & ? & _). by exists c'.
  - destruct (PushAnchor_spec c t Hi Ho) as (? & ? & _). by eexists.
  - destruct Ho as [Hrt Hpre].
    destruct (decide (s_best_anchor (cache_abs c) = rt)) as [E | E].
    + destruct (PopAnchor_spec c rt aempty Hi Hrt) as (c' & -> & ? & ? & _); [done |]. by exists c'.
    + destruct (Hpre E) as [H1 [t H2]].
      destruct (PopAnchor_spec c rt t Hi Hrt) as (c' & -> & ? & ? & _); [done |]. by exists c'.
  - destruct (SetNullifiers_spec c nfs spent Hi) as (? & ? & _). by eexists.
  - destruct (SetBestBlock_spec c h Hi Ho). by eexists.
Qed.

Lemma run_ops_spec c l :
  cache_inv c -> ops_ok (cache_abs c) l ->
  exists c', run_ops c l = Some ((spec_ops (cache_abs c) l).1, c') /\ cache_inv c' /\
    state_eq (cache_abs c') (spec_ops (cache_abs c) l).2.
Proof using HM.
  revert c. induction l as [| o l IH]; intros c Hi Hl; cbn [run_ops spec_ops].
  - by exists c.
  - cbn [ops_ok] in Hl. destruct Hl as [Ho Hl].
    destruct (run_op_spec c o Hi Ho) as (c1 & -> & Hi1 & He1). cbn [mbind option_bind].
    destruct (spec_op (cache_abs c) o) as [r s1]. cbn [fst snd] in *.
    destruct (IH c1 Hi1) as (c2 & -> & Hi2 & He2).
    { eapply ops_ok_proper; [| exact Hl]. by symmetry. }
    cbn [mbind option_bind]. exists c2. destruct (spec_ops_proper _ _ l He1) as [E1 E2].
    destruct (spec_ops s1 l) as [rs s2]. cbn [fst snd] in *. rewrite E1.
    split; [done |]. split; [done |]. by etransitivity.
Qed.
End CacheLaws.

(** [C10] A cache over a cache over the database is a plain set of unspent
    outputs, nullifiers and anchors: any sequence of reads and modifications
    returns what the plain state returns and never fails an assertion, and once
    the best block and the best anchor have been set, flushing both caches
    leaves exactly the resulting state in the database. *)
Theorem coins_stack_refines `{AnchorTree} (aroot_inj : forall s t : atree, aroot s = aroot t -> s = t)
    (d : db) (l : list op) :
  db_inv d -> ops_ok (db_abs d) l ->
  exists c, run_ops (new_cache (new_cache d)) l = Some ((spec_ops (db_abs d) l).1, c) /\
    (IsNull256 (c_hashBlock c) = false -> IsNull256 (c_hashAnchor c) = false ->
     exists c' mid, Flush c = Some c' /\ Flush (c_base c') = Some mid /\
       state_eq (db_abs (c_base mid)) (spec_ops (db_abs d) l).2).
Proof.
  intros Hd Hl.
  pose proof (db_lawful aroot_inj) as L0. pose proof (cache_lawful aroot_inj db_model L0) as L1.
  destruct (new_cache_inv db_model d Hd) as [I0 E0].
  destruct (new_cache_inv (cache_model db_model) (new_cache d) I0) as [I1 E1].
  pose proof (transitivity E1 E0) as E. cbn [abs db_model] in E.
  destruct (run_ops_spec (cache_model db_model) L1 _ l I1) as (c & Ec & Ic & Sc).
  { eapply ops_ok_proper; [| exact Hl]. by symmetry. }
  destruct (spec_ops_proper _ _ l E) as [Eo Es]. exists c. rewrite Ec, Eo. split; [done |].
  intros Hb Ha.
  destruct (Flush_spec (cache_model db_model) L1 c Ic Hb Ha) as (c' & Ec' & Ic' & _ & Eb & _ & _).
  assert (exists v, BatchWrite (c_base c) (Batch (c_coins c) (c_hashBlock c) (c_hashAnchor c) (c_anchors c) (c_nullifiers c)) = Some v
    /\ c' = Cache v (c_hashBlock c) (c_hashAnchor c) ∅ ∅ ∅) as (v & Ev & ->).
  { unfold Flush in Ec'. destruct (BatchWrite (c_base c) _) as [v |]; [| done]. cbn [mbind option_bind] in Ec'.
    injection Ec' as <-. by exists v. }
  assert (c_hashBlock v = c_hashBlock c /\ c_hashAnchor v = c_hashAnchor c) as [Hb' Ha'].
  { cbn [BatchWrite cache_view] in Ev. unfold cache_BatchWrite in Ev. cbn [b_coins b_anchors b_nullifiers b_block b_anchor] in Ev.
    destruct (batch_loop cache_write_coins _ _); [| done]. cbn [mbind option_bind] in Ev.
    destruct (batch_loop cache_write_anchor _ _); [| done]. cbn [mbind option_bind] in Ev.
    destruct (batch_loop cache_write_nullifier _ _); [| done]. cbn [mbind option_bind] in Ev.
    by injection Ev as <-. }
  destruct (Flush_spec db_model L0 v) as (mid & Em & _ & _ & Emb & _ & _).
  { apply Ic'. }
  { by rewrite Hb'. }
  { by rewrite Ha'. }
  eexists _, mid. split; [exact Ec' |]. split; [exact Em |].
  cbn [abs db_model] in Emb. etransitivity; [exact Emb |].
  etransitivity; [exact Eb |]. etransitivity; [exact Sc | exact Es].
Qed.

(** A concrete tree type: a tree is its root's tail. *)
Definition toy_tree : AnchorTree := {| atree := Z; aroot n := [1; n]; aempty := 0 |}.

Definition toy_coin (n : Z) : coins := Coins false [TxOut n [1]] 5 1.

Definition toy_ops : list (@op toy_tree) :=
  [@OpModify toy_tree [7] (fun _ => (toy_coin 10, tt)); @OpSetNullifiers toy_tree [[3]] true;
   @OpPushAnchor toy_tree (9 : @atree toy_tree); @OpSetBestBlock toy_tree [8]; @OpGetCoins toy_tree [7];
   @OpModify toy_tree [7] (fun c => ((Spend c 0).2, tt)); @OpHaveCoins toy_tree [7]; @OpGetNullifier toy_tree [3]].

Lemma respects_const {R} (x : coins * R) : respects (fun _ => x).
Proof. by split. Qed.

Lemma respects_spend n : respects (fun c => ((Spend c n).2, tt)).
Proof.
  intros c c' Hc Hc' Hp Hp'. rewrite (clean_pruned _ Hc) in Hp. rewrite (clean_pruned _ Hc') in Hp'.
  apply bool_decide_eq_true in Hp, Hp'. unfold Spend. rewrite Hp, Hp'. rewrite lookup_nil. cbn [fst snd].
  rewrite Hc, Hc'. unfold norm, IsPruned. by rewrite Hp, Hp'.
Qed.

Lemma coins_stack_refines_witness :
  exists c, run_ops (H := toy_tree) (new_cache (new_cache (Db (H := toy_tree) ∅ ∅ ∅ None None))) toy_ops =
    Some ([OutNone; OutNone; OutNone; OutNone; OutCoins (Some (toy_coin 10)); OutNone; OutBool false; OutBool true], c) /\
    (IsNull256 (c_hashBlock c) = false -> IsNull256 (c_hashAnchor c) = false ->
     exists c' mid, Flush c = Some c' /\ Flush (c_base c') = Some mid /\
       state_eq (db_abs (c_base mid)) (spec_ops (db_abs (Db (H := toy_tree) ∅ ∅ ∅ None None)) toy_ops).2).
Proof.
  apply (@coins_stack_refines toy_tree) with (d := Db (H := toy_tree) ∅ ∅ ∅ None None) (l := toy_ops).
  - intros s t [= E]. exact E.
  - split; intros k x; cbn; by rewrite lookup_empty.
  - unfold toy_ops. cbn [ops_ok op_ok].
    repeat first [exact I | reflexivity | apply respects_const | apply respects_spend | apply conj].
Defined.
