(* ===== verification/Utxo.v ===== *)
(** * Connecting and disconnecting the outputs of a block
    (src/src/main.cpp, undo.h, coins.cpp, importcoin.cpp)

    [UpdateCoins] spends the inputs of a transaction and adds its outputs;
    [ApplyTxInUndo] and the loop of [DisconnectBlock] take that back from the
    undo data.  They are written over the interface [Store] of what they use of a
    coin cache; [store_lawful] states its operations against the plain state of
    Coins.v, and a cache over any lawful view satisfies it.  The proofs are
    against the interface, the theorems at the end are about caches.  The address
    and spent indexes, the Sprout pool and the undo files are left out. *)
From S2P Require Import Prelude Coins.
Local Open Scope Z_scope.

Module Utxo.

(** ** Transactions and undo data *)

Record spend := Spend_ { sp_nullifier : uint256; sp_anchor : uint256 }.

(** The fields of [CTransaction] that are read; [tx_cms] are the note
    commitments of the shielded outputs. *)
Record ctx := Ctx {
  tx_hash : uint256;
  tx_vin : list (uint256 * Z);
  tx_vout : list txout;
  tx_nVersion : Z;
  tx_spends : list spend;
  tx_cms : list uint256
}.

(** [10e8], the output number of imports. *)
Definition import_n : Z := 1000000000.

Definition prevout_null (p : uint256 * Z) : bool := IsNull256 p.1 && (p.2 =? 2 ^ 32 - 1).

Definition IsCoinBase (tx : ctx) : bool :=
  match tx_vin tx with [p] => prevout_null p | _ => false end.
Definition IsCoinImport (tx : ctx) : bool :=
  match tx_vin tx with [p] => p.2 =? import_n | _ => false end.
Definition IsMint (tx : ctx) : bool := IsCoinImport tx || IsCoinBase tx.

(** [pegs]: [ASSETCHAINS_SELFIMPORT=="PEGSCC"].  The code reads [vin[0]] also
    when there is none. *)
Definition IsPegsImport (pegs : bool) (tx : ctx) : bool :=
  pegs && match tx_vin tx with p :: _ => p.2 =? import_n | [] => false end.

Record txinundo := TxInUndo { u_txout : txout; u_fCoinBase : bool; u_nHeight : Z; u_nVersion : Z }.
Definition txinundo0 : txinundo := TxInUndo SetNull false 0 0.

(** ** The store *)

(** The methods of [CCoinsViewCache] that connecting and disconnecting use;
    [None] for [pop_anchor] is a failed assertion. *)
Class Store `{AnchorTree} (S : Type) := {
  modify {R} : S -> uint256 -> (coins -> coins * R) -> R * S;
  set_nulls : S -> list uint256 -> bool -> S;
  access : S -> uint256 -> option coins * S;
  nullifier_at : S -> uint256 -> bool * S;
  anchor_at : S -> uint256 -> option atree * S;
  best_block : S -> uint256 * S;
  best_anchor : S -> uint256 * S;
  push_anchor : S -> atree -> S;
  pop_anchor : S -> uint256 -> option S;
  set_best : S -> uint256 -> S
}.

(** [state.DoS(...)]; a failed assertion or an exception; success. *)
Inductive result (A : Type) :=
| Rejected
| Aborted
| Connected (a : A).
Arguments Rejected {_}.
Arguments Aborted {_}.
Arguments Connected {_} _.

Section Code.
Context `{AnchorTree} {S : Type} `{!Store S} (pegs : bool).

(** The modification of one spent output; [None] is [assert(false)]. *)
Definition spend_coin (nPos : nat) (c : coins) : coins * option txinundo :=
  match vout c !! nPos with
  | None => (c, None)
  | Some o =>
    if IsNull o then (c, None)
    else
      let undo := TxInUndo o false 0 0 in
      let c := (Spend c nPos).2 in
      (c, Some (if (length (vout c) =? 0)%nat
                then TxInUndo o (fCoinBase c) (u32 (nHeight c)) (nVersion c) else undo))
  end.

(** The loop over the inputs. *)
Fixpoint spend_inputs (s : S) (tx : ctx) (vin : list (uint256 * Z)) : option (list txinundo * S) :=
  match vin with
  | [] => Some ([], s)
  | (hash, n) :: vin =>
    if IsPegsImport pegs tx && (n =? import_n) then spend_inputs s tx vin
    else
      let '(r, s) := modify s hash (spend_coin (Z.to_nat n)) in
      undo ← r;
      '(undos, s) ← spend_inputs s tx vin;
      Some (undo :: undos, s)
  end.

Definition tombstone (height : Z) (c : coins) : coins * unit :=
  (Coins (fCoinBase c) (vout c ++ [TxOut 0 [0]]) height 4, tt).

Definition AddImportTombstone (s : S) (tx : ctx) (height : Z) : S :=
  match tx_vin tx with
  | (burnHash, _) :: _ => (modify s burnHash (tombstone height)).2
  | [] => s
  end.

Definition RemoveImportTombstone (s : S) (tx : ctx) : S :=
  match tx_vin tx with
  | (burnHash, _) :: _ => (modify s burnHash (fun _ => (Clear, tt))).2
  | [] => s
  end.

(** [UpdateCoins(tx, inputs, txundo, nHeight)]. *)
Definition UpdateCoins (s : S) (tx : ctx) (height : Z) : option (list txinundo * S) :=
  '(undos, s) ← (if negb (IsMint tx) then spend_inputs s tx (tx_vin tx) else Some ([], s));
  let s := set_nulls s (map sp_nullifier (tx_spends tx)) true in
  let s := (modify s (tx_hash tx)
              (fun _ => (FromTx (IsCoinBase tx) (tx_vout tx) (tx_nVersion tx) height, tt))).2 in
  let s := if IsCoinImport tx || IsPegsImport pegs tx then AddImportTombstone s tx height else s in
  Some (undos, s).

(** [vout.resize(n)]. *)
Definition resize (v : list txout) (n : nat) : list txout := take n v ++ replicate (n - length v) SetNull.

(** [ApplyTxInUndo(undo, view, out)]: the result is [fClean]. *)
Definition undo_coin (undo : txinundo) (n : nat) (c : coins) : coins * bool :=
  let '(c, fClean) :=
    if negb (u_nHeight undo =? 0) then
      (Coins (u_fCoinBase undo) [] (u_nHeight undo) (u_nVersion undo), IsPruned c)
    else (c, negb (IsPruned c)) in
  let fClean := fClean && negb (IsAvailable c n) in
  let v := if (length (vout c) <? n + 1)%nat then resize (vout c) (n + 1) else vout c in
  (set_vout c (<[n := u_txout undo]> v), fClean).

Definition ApplyTxInUndo (undo : txinundo) (s : S) (out : uint256 * Z) : bool * S :=
  modify s out.1 (undo_coin undo (Z.to_nat out.2)).

(** The outputs of a disconnected transaction: compared with what the block
    says, then removed. *)
Definition remove_outputs (tx : ctx) (height : Z) (c : coins) : coins * bool :=
  let outs := ClearUnspendable c in
  let outsBlock := FromTx (IsCoinBase tx) (tx_vout tx) (tx_nVersion tx) height in
  let outs := if nVersion outsBlock <? 0
              then Coins (fCoinBase outs) (vout outs) (nHeight outs) (nVersion outsBlock) else outs in
  (Clear, coins_eqb outs outsBlock).

(** The inputs, last first: [l] pairs each input with its undo data in reverse
    order. *)
Fixpoint restore_inputs (s : S) (l : list ((uint256 * Z) * txinundo)) (fClean : bool) : bool * S :=
  match l with
  | [] => (fClean, s)
  | (out, undo) :: l =>
    let '(ok, s) := ApplyTxInUndo undo s out in
    restore_inputs s l (fClean && ok)
  end.

(** One iteration of the loop of [DisconnectBlock]; [None] is the error of
    inconsistent undo data. *)
Definition disconnect_tx (s : S) (tx : ctx) (txundo : list txinundo) (height : Z) (fClean : bool) : option (bool * S) :=
  let '(ok, s) := modify s (tx_hash tx) (remove_outputs tx height) in
  let fClean := fClean && ok in
  let s := set_nulls s (map sp_nullifier (tx_spends tx)) false in
  if negb (IsMint tx) then
    let txundo := if IsPegsImport pegs tx then txinundo0 :: txundo else txundo in
    if negb (length txundo =? length (tx_vin tx))%nat then None
    else
      let l := zip (tx_vin tx) txundo in
      let l := if IsPegsImport pegs tx then drop 1 l else l in
      Some (restore_inputs s (rev l) fClean)
  else if IsCoinImport tx || IsPegsImport pegs tx then Some (fClean, RemoveImportTombstone s tx)
  else Some (fClean, s).

(** [HaveInputs(tx)]: [i] is the number of the input. *)
Fixpoint have_inputs (s : S) (tx : ctx) (vin : list (uint256 * Z)) (i : nat) : bool * S :=
  match vin with
  | [] => (true, s)
  | (hash, n) :: vin =>
    if IsPegsImport pegs tx && (i =? 0)%nat then have_inputs s tx vin (i + 1)
    else
      let '(r, s) := access s hash in
      match r with
      | None => (false, s)
      | Some c => if negb (IsAvailable c (Z.to_nat n)) then (false, s) else have_inputs s tx vin (i + 1)
      end
  end.
Definition HaveInputs (s : S) (tx : ctx) : bool * S :=
  if negb (IsMint tx) then have_inputs s tx (tx_vin tx) 0 else (true, s).

(** [HaveShieldedRequirements(tx)]. *)
Fixpoint have_shielded (s : S) (spends : list spend) : bool * S :=
  match spends with
  | [] => (true, s)
  | d :: spends =>
    let '(spent, s) := nullifier_at s (sp_nullifier d) in
    if spent then (false, s)
    else
      let '(r, s) := anchor_at s (sp_anchor d) in
      match r with
      | None => (false, s)
      | Some _ => have_shielded s spends
      end
  end.
Definition HaveShieldedRequirements (s : S) (tx : ctx) : bool * S := have_shielded s (tx_spends tx).

(** ** Blocks *)

(** What a block and its index entry contribute: [bl_sapling] tells whether
    Sapling is active at the height of the block. *)
Record block := Block {
  bl_hash : uint256;
  bl_prev : uint256;
  bl_height : Z;
  bl_txs : list ctx;
  bl_sapling : bool;
  bl_root : uint256      (* hashFinalSaplingRoot *)
}.

(** The appended tree, [None] when it is full. *)
Context (tree_append : atree -> uint256 -> option atree).

Fixpoint append_cms (t : atree) (cms : list uint256) : option atree :=
  match cms with
  | [] => Some t
  | cm :: cms => t ← tree_append t cm; append_cms t cms
  end.

(** The check for transactions that would overwrite older ones. *)
Fixpoint bip30 (s : S) (txs : list ctx) : bool * S :=
  match txs with
  | [] => (true, s)
  | tx :: txs =>
    let '(r, s) := access s (tx_hash tx) in
    match r with
    | Some c => if negb (IsPruned c) then (false, s) else bip30 s txs
    | None => bip30 s txs
    end
  end.

(** The checks of a transaction against the view. *)
Definition check_tx (s : S) (tx : ctx) : bool * S :=
  if negb (IsMint tx) then
    let '(ok, s) := HaveInputs s tx in
    if ok then HaveShieldedRequirements s tx else (false, s)
  else (true, s).

(** The loop over the transactions, as far as it touches the view; [first] is
    [i == 0], whose undo data is dropped. *)
Fixpoint connect_txs (s : S) (t : atree) (first : bool) (txs : list ctx) (height : Z)
    : result (list (list txinundo) * atree * S) :=
  match txs with
  | [] => Connected ([], t, s)
  | tx :: txs =>
    let '(ok, s) := check_tx s tx in
    if negb ok then Rejected
    else
      match UpdateCoins s tx height with
      | None => Aborted
      | Some (undo, s) =>
        match append_cms t (tx_cms tx) with
        | None => Aborted
        | Some t =>
          match connect_txs s t false txs height with
          | Connected (vtxundo, t, s) => Connected (if first then vtxundo else undo :: vtxundo, t, s)
          | r => r
          end
        end
      end
  end.

(** [ConnectBlock]: what it does to the view.  The checks that are left out only
    reject blocks. *)
Definition connect_block (s : S) (b : block) : result (list (list txinundo) * S) :=
  let '(best, s) := best_block s in
  if negb (bool_decide (bl_prev b = best)) then Rejected
  else
    let '(ok, s) := bip30 s (bl_txs b) in
    if negb ok then Rejected
    else
      let '(rt, s) := best_anchor s in
      let '(r, s) := anchor_at s rt in
      match r with
      | None => Aborted
      | Some t =>
        match connect_txs s t true (bl_txs b) (bl_height b) with
        | Connected (vtxundo, t, s) =>
          let s := push_anchor s t in
          if bl_sapling b && negb (bool_decide (bl_root b = aroot t)) then Rejected
          else Connected (vtxundo, set_best s (bl_hash b))
        | Rejected => Rejected
        | Aborted => Aborted
        end
      end.

(** In reverse order: [l] pairs each transaction with its undo data. *)
Fixpoint disconnect_txs (s : S) (l : list (ctx * list txinundo)) (height : Z) (fClean : bool) : option (bool * S) :=
  match l with
  | [] => Some (fClean, s)
  | (tx, undo) :: l =>
    '(fClean, s) ← disconnect_tx s tx undo height fClean;
    disconnect_txs s l height fClean
  end.

(** [DisconnectBlock]: [prev_root] is the Sapling root before the block.  [None]
    is an error or a failed assertion. *)
Definition disconnect_block (s : S) (b : block) (vtxundo : list (list txinundo)) (prev_root : uint256)
    : option (bool * S) :=
  let '(best, s) := best_block s in
  if negb (bool_decide (bl_hash b = best)) then None
  else if negb (length vtxundo + 1 =? length (bl_txs b))%nat then None
  else
    '(fClean, s) ← disconnect_txs s (rev (zip (bl_txs b) ([] :: vtxundo))) (bl_height b) true;
    s ← pop_anchor s prev_root;
    Some (fClean, set_best s (bl_prev b)).
End Code.

(** The coin cache as a store. *)
#[export] Instance cache_store `{AnchorTree} {V} `{!View V} : Store (cache V) := {|
  modify R := ModifyCoins;
  set_nulls := SetNullifiers;
  access := cache_GetCoins;
  nullifier_at := cache_GetNullifier;
  anchor_at := cache_GetSaplingAnchorAt;
  best_block := cache_GetBestBlock;
  best_anchor := cache_GetBestAnchor;
  push_anchor := PushAnchor;
  pop_anchor := PopAnchor;
  set_best := SetBestBlock
|}.

(** ** What a store promises *)

Section Laws.
Context `{AnchorTree} {S : Type} `{!Store S}.

Record store_lawful (sinv : S -> Prop) (sabs : S -> state) : Prop := {
  sl_modify {R} s k (f : coins -> coins * R) :
    sinv s -> (s_coins (sabs s) k = None -> respects f) ->
    let '(r, s') := modify s k f in
    sinv s' /\ state_eq (sabs s') (s_modify (sabs s) k f) /\ r = (f (default Clear (s_coins (sabs s) k))).2;
  sl_nulls s l b : sinv s ->
    sinv (set_nulls s l b) /\ state_eq (sabs (set_nulls s l b)) (s_set_nullifiers (sabs s) l b);
  sl_access s k : sinv s ->
    let '(r, s') := access s k in sinv s' /\ state_eq (sabs s') (sabs s) /\ norm r = s_coins (sabs s) k;
  sl_nullifier s k : sinv s ->
    let '(r, s') := nullifier_at s k in sinv s' /\ state_eq (sabs s') (sabs s) /\ r = s_nullifier (sabs s) k;
  sl_anchor s k : sinv s ->
    let '(r, s') := anchor_at s k in sinv s' /\ state_eq (sabs s') (sabs s) /\ r = s_anchor (sabs s) k;
  sl_best s : sinv s ->
    let '(r, s') := best_block s in sinv s' /\ state_eq (sabs s') (sabs s) /\ r = s_best (sabs s);
  sl_best_anchor s : sinv s ->
    let '(r, s') := best_anchor s in sinv s' /\ state_eq (sabs s') (sabs s) /\ r = s_best_anchor (sabs s);
  sl_push s t : sinv s -> IsNull256 (aroot t) = false ->
    sinv (push_anchor s t) /\ state_eq (sabs (push_anchor s t)) (s_push (sabs s) t);
  sl_pop s rt : sinv s -> IsNull256 rt = false ->
    (s_best_anchor (sabs s) <> rt ->
       s_best_anchor (sabs s) <> aroot aempty /\ is_Some (s_anchor (sabs s) (s_best_anchor (sabs s)))) ->
    exists s', pop_anchor s rt = Some s' /\ sinv s' /\ state_eq (sabs s') (s_pop (sabs s) rt);
  sl_set_best s h : sinv s -> IsNull256 h = false ->
    sinv (set_best s h) /\ state_eq (sabs (set_best s h)) (s_set_best (sabs s) h);
  sl_empty s : sinv s -> s_anchor (sabs s) (aroot aempty) = Some aempty
}.
End Laws.

Lemma cache_store_lawful `{AnchorTree} (aroot_inj : forall s t : atree, aroot s = aroot t -> s = t)
    {V} `{!View V} (M : model V) :
  lawful M -> store_lawful (cache_inv M) (cache_abs M).
Proof.
  intros HM. split.
  - intros R c k f Hi Hf. pose proof (ModifyCoins_spec M HM c k f Hi Hf) as Hs. cbn [modify cache_store].
    destruct (ModifyCoins c k f). by destruct Hs as (? & ? & ? & _).
  - intros c l b Hi. by destruct (SetNullifiers_spec M c l b Hi) as (? & ? & _).
  - intros c k Hi. pose proof (FetchCoins_spec M HM c k Hi) as Hs. cbn [access cache_store]. unfold cache_GetCoins.
    destruct (FetchCoins c k). by destruct Hs as ((? & ? & _) & ? & _).
  - intros c k Hi. pose proof (cache_GetNullifier_spec M HM c k Hi) as Hs. cbn [nullifier_at cache_store].
    destruct (cache_GetNullifier c k). by destruct Hs as ((? & ? & _) & ?).
  - intros c k Hi. pose proof (cache_GetSaplingAnchorAt_spec M HM c k Hi) as Hs. cbn [anchor_at cache_store].
    destruct (cache_GetSaplingAnchorAt c k). by destruct Hs as ((? & ? & _) & ? & _).
  - intros c Hi. pose proof (cache_GetBestBlock_spec M HM c Hi) as Hs. cbn [best_block cache_store].
    destruct (cache_GetBestBlock c). by destruct Hs as ((? & ? & _) & ?).
  - intros c Hi. pose proof (cache_GetBestAnchor_spec M HM c Hi) as Hs. cbn [best_anchor cache_store].
    destruct (cache_GetBestAnchor c). by destruct Hs as ((? & ? & _) & ? & _).
  - intros c t Hi Ht. by destruct (PushAnchor_spec M HM c t Hi Ht) as (? & ? & _).
  - intros c rt Hi Hrt Hpre. destruct (decide (s_best_anchor (cache_abs M c) = rt)) as [E | E].
    + destruct (PopAnchor_spec M HM c rt aempty Hi Hrt) as (c' & ? & ? & ? & _); [done |]. by exists c'.
    + destruct (Hpre E) as [H1 [t H2]].
      destruct (PopAnchor_spec M HM c rt t Hi Hrt) as (c' & ? & ? & ? & _); [done |]. by exists c'.
  - intros c h Hi Hh. by apply SetBestBlock_spec.
  - intros c Hi. by apply (law_anchor_empty _ (cache_lawful aroot_inj M HM)).
Qed.

(** ** Spending one output and taking it back *)

(** A spent output is the cleared one, as [SetNull] leaves it. *)
Definition nulls_cleared (v : list txout) : Prop := Forall (fun o => IsNull o = true -> o = SetNull) v.

Definition wf_coins (c : coins) : Prop :=
  clean c /\ nulls_cleared (vout c) /\ 0 < nHeight c < 2 ^ 32.

Lemma strip_split back :
  nulls_cleared back -> exists k, back = replicate k SetNull ++ pop_nulls back.
Proof.
  induction 1 as [| o l Ho _ [k IH]]; cbn [pop_nulls].
  - by exists O.
  - destruct (IsNull o) eqn:E; [| by exists O]. exists (S k). cbn [replicate app].
    by rewrite (Ho eq_refl), <-IH.
Qed.

(** Cleaning up only drops cleared outputs. *)
Lemma Cleanup_split c :
  nulls_cleared (vout c) -> exists k, vout c = vout (Cleanup c) ++ replicate k SetNull.
Proof.
  intros Hn. destruct (strip_split (rev (vout c))) as [k Hk].
  { unfold nulls_cleared. by apply Forall_rev. }
  exists k. cbn [Cleanup set_vout vout]. apply (f_equal (@rev _)) in Hk.
  by rewrite rev_involutive, rev_app_distr, rev_replicate in Hk.
Qed.

Lemma clean_last c : clean c -> vout c <> [] -> exists v o, vout c = v ++ [o] /\ IsNull o = false.
Proof.
  intros Hc Hne. destruct (vout c) as [| o v _] eqn:E using rev_ind; [done |].
  exists v, o. split; [done |]. unfold clean in Hc. apply (f_equal vout) in Hc.
  cbn [Cleanup set_vout vout] in Hc. rewrite E, rev_app_distr in Hc. cbn [rev app pop_nulls] in Hc.
  destruct (IsNull o); [| done]. exfalso. apply (f_equal length) in Hc. rewrite length_rev, length_app in Hc.
  assert (forall l, (length (pop_nulls l) <= length l)%nat) as Hle.
  { intros l. induction l as [| x l IH]; cbn [pop_nulls length]; [lia |]. destruct (IsNull x); cbn [length]; lia. }
  specialize (Hle (rev v)). rewrite length_rev in Hle. cbn [length] in Hc. lia.
Qed.

Lemma clean_of_last c v o : vout c = v ++ [o] -> IsNull o = false -> clean c.
Proof.
  intros E Ho. unfold clean, Cleanup, set_vout. rewrite E, rev_app_distr. cbn [rev app pop_nulls]. rewrite Ho.
  cbn [rev]. rewrite rev_involutive, <-E. by destruct c.
Qed.

Lemma nulls_cleared_null v n : nulls_cleared v -> nulls_cleared (<[n := SetNull]> v).
Proof. intros H. apply Forall_insert; [done | done]. Qed.

(** The vector without output [n], extended again and filled, is the old one. *)
Lemma respend_vout c n o :
  clean c -> nulls_cleared (vout c) -> vout c !! n = Some o -> IsNull o = false ->
  let v := vout (Cleanup (set_vout c (<[n := SetNull]> (vout c)))) in
  <[n := o]> (if (length v <? n + 1)%nat then resize v (n + 1) else v) = vout c.
Proof.
  intros Hc Hn Hl Ho. set (w := <[n := SetNull]> (vout c)).
  pose proof (lookup_lt_Some _ _ _ Hl) as Hlt.
  assert (length w = length (vout c)) as Hlw by apply length_insert.
  assert (<[n := o]> w = vout c) as Hw.
  { unfold w. rewrite list_insert_insert_eq. by apply list_insert_id. }
  destruct (Cleanup_split (set_vout c w)) as [k Hk]; [by apply nulls_cleared_null |].
  cbn [set_vout vout] in Hk. cbv zeta. set (v := vout (Cleanup (set_vout c w))) in *.
  assert (length w = length v + k)%nat as Hlk by (rewrite Hk, length_app, length_replicate; done).
  destruct (clean_last c Hc) as (u & x & Ex & Hx); [by destruct (vout c) |].
  destruct (decide (n = length u)) as [-> | Hne].
  - assert (length (vout c) = length u + 1)%nat as Hlu by (rewrite Ex, length_app; done).
    assert (v ++ replicate (length u + 1 - length v) SetNull = w) as Ev.
    { rewrite Hk. f_equal. f_equal. lia. }
    destruct (Nat.ltb_spec (length v) (length u + 1)) as [H | H].
    + unfold resize. rewrite take_ge by lia. by rewrite Ev.
    + replace (length u + 1 - length v)%nat with O in Ev by lia. rewrite app_nil_r in Ev. by rewrite Ev.
  - assert (k = 0)%nat as ->.
    { destruct k as [| k]; [done |]. exfalso.
      assert (w !! length u = Some x) as H1.
      { unfold w. rewrite list_lookup_insert_ne by done. rewrite Ex. by rewrite list_lookup_middle. }
      assert (length (vout c) = length u + 1)%nat as Hlu by (rewrite Ex, length_app; done).
      rewrite Hk, lookup_app_r in H1 by lia. apply lookup_replicate in H1 as [-> _]. done. }
    rewrite app_nil_r in Hk. rewrite <-Hk.
    rewrite (proj2 (Nat.ltb_ge _ _)) by lia. done.
Qed.

Lemma spend_coin_inv n c c1 u :
  spend_coin n c = (c1, Some u) ->
  exists o, vout c !! n = Some o /\ IsNull o = false /\
    c1 = Cleanup (set_vout c (<[n := SetNull]> (vout c))) /\
    u = if (length (vout c1) =? 0)%nat then TxInUndo o (fCoinBase c) (u32 (nHeight c)) (nVersion c)
        else TxInUndo o false 0 0.
Proof.
  unfold spend_coin, Spend. destruct (vout c !! n) as [o |] eqn:E; [| done].
  destruct (IsNull o) eqn:Eo; [done |]. cbn [snd]. intros [= <- <-]. by exists o.
Qed.

(** Undoing the spending of an output gives the coins back. *)
Lemma undo_spend n c c1 u :
  wf_coins c -> spend_coin n c = (c1, Some u) ->
  let d := default Clear (norm (Some (Cleanup c1))) in
  (undo_coin u n d).2 = true /\ Cleanup (undo_coin u n d).1 = c /\
  (norm (Some (Cleanup c1)) = None -> respects (undo_coin u n)).
Proof.
  intros (Hcl & Hnc & Hh) Hs. apply spend_coin_inv in Hs as (o & Hl & Ho & -> & ->).
  set (w := set_vout c (<[n := SetNull]> (vout c))).
  rewrite (Cleanup_clean w : Cleanup (Cleanup w) = Cleanup w).
  pose proof (respend_vout c n o Hcl Hnc Hl Ho) as Hv. cbv zeta in Hv. fold w in Hv.
  assert (IsPruned (Cleanup w) = bool_decide (vout (Cleanup w) = [])) as Hp by apply clean_pruned, Cleanup_clean.
  destruct (vout (Cleanup w)) as [| o1 v1] eqn:Ev; cbn [length Nat.eqb].
  - cbn [norm]. rewrite Hp. cbn [bool_decide decide_rel default from_option]. rewrite bool_decide_eq_true_2 by done.
    unfold undo_coin. cbn [u_nHeight u_fCoinBase u_nVersion u_txout].
    rewrite u32_id by (unfold is_u; lia). rewrite (proj2 (Z.eqb_neq _ 0)) by lia. cbn [negb from_option default].
    split; [done |]. split.
    + cbn [fst set_vout fCoinBase nHeight nVersion vout]. rewrite Hv.
      destruct c. exact Hcl.
    + intros _ a b _ _ Ha Hb. by rewrite Ha, Hb.
  - cbn [norm]. rewrite Hp. rewrite bool_decide_eq_false_2 by done. cbn [default from_option id].
    unfold undo_coin. cbn [u_nHeight u_fCoinBase u_nVersion u_txout Z.eqb negb].
    rewrite Hp, bool_decide_eq_false_2 by done. cbn [negb andb fst snd].
    split; [| split; [| done]].
    + apply negb_true_iff. unfold IsAvailable. destruct (vout (Cleanup w) !! n) as [x |] eqn:Ex; [| done].
      destruct (Cleanup_split w) as [k Hk]; [by apply nulls_cleared_null |].
      assert (vout w !! n = Some x) as Hx by (rewrite Hk; by apply lookup_app_l_Some).
      cbn [w set_vout vout] in Hx. rewrite list_lookup_insert_eq in Hx by (by apply lookup_lt_Some in Hl).
      injection Hx as <-. done.
    + rewrite Ev, Hv. cbn [set_vout Cleanup fCoinBase nHeight nVersion w]. destruct c. exact Hcl.
Qed.

Lemma respects_spend_coin n : respects (spend_coin n).
Proof.
  intros a b Ha Hb Pa Pb. rewrite (clean_pruned _ Ha) in Pa. rewrite (clean_pruned _ Hb) in Pb.
  apply bool_decide_eq_true in Pa, Pb. unfold spend_coin. rewrite Pa, Pb, !lookup_nil. cbn [fst snd].
  rewrite Ha, Hb. unfold norm, IsPruned. by rewrite Pa, Pb.
Qed.

Lemma nulls_cleared_Cleanup c : nulls_cleared (vout c) -> nulls_cleared (vout (Cleanup c)).
Proof. intros Hn. destruct (Cleanup_split c Hn) as [k Hk]. rewrite Hk in Hn. by apply Forall_app in Hn as [? _]. Qed.

(** ** Blocks are taken back *)

Section Roundtrip.
Context `{AnchorTree} {S : Type} `{!Store S} {sinv : S -> Prop} {sabs : S -> state}.
Context (HL : store_lawful sinv sabs).

(** The two halves of a state. *)
Definition utxo_eq (s t : state) : Prop :=
  (forall k, s_coins s k = s_coins t k) /\ (forall k, s_nullifier s k = s_nullifier t k).
Definition rest_eq (s t : state) : Prop :=
  (forall k, s_anchor s k = s_anchor t k) /\ s_best s = s_best t /\ s_best_anchor s = s_best_anchor t.

Lemma state_eq_halves s t : state_eq s t <-> utxo_eq s t /\ rest_eq s t.
Proof using. unfold state_eq, utxo_eq, rest_eq. naive_solver. Qed.

#[local] Instance utxo_eq_equiv : Equivalence utxo_eq.
Proof using.
  split; [by split | intros s t [? ?]; by split |].
  intros s t u [A1 A2] [B1 B2]. split; intros k; [by rewrite A1 | by rewrite A2].
Qed.

#[local] Instance rest_eq_equiv : Equivalence rest_eq.
Proof using.
  split; [by repeat split | intros s t (? & ? & ?); by repeat split |].
  intros s t u (A1 & A2 & A3) (B1 & B2 & B3). repeat split; [| congruence | congruence].
  intros k. by rewrite A1.
Qed.

(** Every entry has outputs, and is as the code leaves it. *)
Definition utxo_inv (s : state) : Prop :=
  forall k c, s_coins s k = Some c -> wf_coins c /\ IsPruned c = false.

Lemma utxo_inv_eq s t : utxo_eq s t -> utxo_inv t -> utxo_inv s.
Proof using. intros [E _] Ht k c. rewrite E. apply Ht. Qed.

Lemma modify_other {R} s k (f : coins -> coins * R) :
  rest_eq (s_modify s k f) s /\ (forall j, s_nullifier (s_modify s k f) j = s_nullifier s j).
Proof using. by repeat split. Qed.

(** Spending one output. *)
Lemma spend_one s h n u s0 :
  sinv s -> utxo_inv (sabs s) -> modify s h (spend_coin n) = (Some u, s0) ->
  sinv s0 /\ utxo_inv (sabs s0) /\ rest_eq (sabs s0) (sabs s) /\
  (forall k, s_nullifier (sabs s0) k = s_nullifier (sabs s) k) /\
  (forall k, s_coins (sabs s) k = None -> s_coins (sabs s0) k = None) /\
  exists c c1, s_coins (sabs s) h = Some c /\ spend_coin n c = (c1, Some u) /\
    forall k, s_coins (sabs s0) k = if decide (k = h) then norm (Some (Cleanup c1)) else s_coins (sabs s) k.
Proof using HL.
  intros Hs Hu E. pose proof (sl_modify _ _ HL s h (spend_coin n) Hs (fun _ => respects_spend_coin n)) as HM.
  rewrite E in HM. destruct HM as (Hs0 & He & Hr). apply state_eq_halves in He as [[He Hn] Hre].
  destruct (s_coins (sabs s) h) as [c |] eqn:Ec; cbn [default from_option id] in Hr; [| done].
  destruct (spend_coin n c) as [c1 r1] eqn:Esp. cbn [snd] in Hr. subst r1.
  assert (forall k, s_coins (sabs s0) k = if decide (k = h) then norm (Some (Cleanup c1)) else s_coins (sabs s) k) as Hc.
  { intros k. rewrite He, s_modify_coins, Ec. cbn [default from_option id]. by rewrite Esp. }
  split; [done |]. split; [| split; [exact Hre | split; [exact Hn | split]]].
  - intros k d. rewrite Hc. case_decide as Hk; [| apply Hu]. subst k.
    intros [-> Hp]%norm_Some. split; [| done]. destruct (Hu h c Ec) as [(Hcl & Hnc & Hh) _].
    apply spend_coin_inv in Esp as (o & _ & _ & -> & _).
    split; [apply Cleanup_clean |]. split; [| done].
    by apply nulls_cleared_Cleanup, nulls_cleared_Cleanup, nulls_cleared_null.
  - intros k Hk. rewrite Hc. case_decide; [congruence | done].
  - exists c, c1. done.
Qed.

(** Taking it back, later, in a state with the same coins. *)
Lemma restore_one s h n u s0 s2 :
  sinv s -> utxo_inv (sabs s) -> modify s h (spend_coin n) = (Some u, s0) ->
  sinv s2 -> utxo_eq (sabs s2) (sabs s0) ->
  exists s3, modify s2 h (undo_coin u n) = (true, s3) /\ sinv s3 /\
    utxo_eq (sabs s3) (sabs s) /\ rest_eq (sabs s3) (sabs s2).
Proof using HL.
  intros Hs Hu E Hs2 [E2 N2].
  destruct (spend_one s h n u s0 Hs Hu E) as (_ & _ & _ & Hn & _ & c & c1 & Ec & Esp & Hc).
  destruct (Hu h c Ec) as [Hwf Hpr]. destruct (undo_spend n c c1 u Hwf Esp) as (Hok & Hcu & Hresp).
  assert (s_coins (sabs s2) h = norm (Some (Cleanup c1))) as Eh by (rewrite E2, Hc; by rewrite decide_True).
  pose proof (sl_modify _ _ HL s2 h (undo_coin u n) Hs2) as HM. rewrite Eh in HM. specialize (HM Hresp).
  destruct (modify s2 h (undo_coin u n)) as [ok s3]. destruct HM as (Hs3 & He & Hr).
  apply state_eq_halves in He as [[He Hn3] Hre]. exists s3. rewrite Hr, Hok.
  split; [done |]. split; [done |]. split; [split | exact Hre].
  - intros k. rewrite He, s_modify_coins, Eh, Hcu. case_decide as Hk.
    + subst k. cbn [norm]. by rewrite Hpr, Ec.
    + rewrite E2, Hc. by rewrite decide_False.
  - intros k. rewrite Hn3. cbn [s_modify s_nullifier]. by rewrite N2, Hn.
Qed.

Lemma restore_inputs_app s l1 l2 b :
  restore_inputs s (l1 ++ l2) b =
  let '(b, s) := restore_inputs s l1 b in restore_inputs s l2 b.
Proof using.
  revert s b. induction l1 as [| [out undo] l1 IH]; intros s b; [done |]. cbn [app restore_inputs].
  destruct (ApplyTxInUndo undo s out) as [ok s']. apply IH.
Qed.

(** All inputs of a transaction that is not an import. *)
Lemma spend_restore s tx vin undos s1 :
  IsPegsImport false tx = false -> sinv s -> utxo_inv (sabs s) ->
  spend_inputs false s tx vin = Some (undos, s1) ->
  (sinv s1 /\ utxo_inv (sabs s1) /\ rest_eq (sabs s1) (sabs s) /\
   (forall k, s_nullifier (sabs s1) k = s_nullifier (sabs s) k) /\
   (forall k, s_coins (sabs s) k = None -> s_coins (sabs s1) k = None)) /\
  length undos = length vin /\
  forall s2, sinv s2 -> utxo_eq (sabs s2) (sabs s1) ->
    exists s3, restore_inputs s2 (rev (zip vin undos)) true = (true, s3) /\ sinv s3 /\
      utxo_eq (sabs s3) (sabs s) /\ rest_eq (sabs s3) (sabs s2).
Proof using HL.
  intros Hp. revert s undos. induction vin as [| [h n] vin IH]; intros s undos Hs Hu E; cbn [spend_inputs] in E.
  - injection E as <- <-. repeat (split; [by eauto |]). intros s2 Hs2 He2. exists s2. by repeat split; try apply He2.
  - rewrite Hp in E. cbn [andb] in E.
    destruct (modify s h (spend_coin (Z.to_nat n))) as [r s0] eqn:Em. destruct r as [u |]; [| done].
    cbn [mbind option_bind] in E.
    destruct (spend_inputs false s0 tx vin) as [[us s1'] |] eqn:E1; [| done].
    cbn [mbind option_bind] in E. injection E as <- <-.
    destruct (spend_one s h _ u s0 Hs Hu Em) as (Hs0 & Hu0 & Hr0 & Hn0 & Hz0 & _).
    destruct (IH s0 us Hs0 Hu0 E1) as ((Hs1 & Hu1 & Hr1 & Hn1 & Hz1) & Hlen & Hback).
    split; [| split; [cbn [length]; lia |]].
    + split; [done |]. split; [done |]. split; [by etransitivity |].
      split; [intros k; by rewrite Hn1 | auto].
    + intros s2 Hs2 He2. destruct (Hback s2 Hs2 He2) as (s3 & E3 & Hs3 & He3 & Hr3).
      destruct (restore_one s h _ u s0 s3 Hs Hu Em Hs3 He3) as (s4 & E4 & Hs4 & He4 & Hr4).
      exists s4. change (zip ((h, n) :: vin) (u :: us)) with (((h, n), u) :: zip vin us). cbn [rev].
      rewrite restore_inputs_app, E3. cbn [restore_inputs]. unfold ApplyTxInUndo. cbn [fst snd].
      rewrite E4. cbn [andb]. split; [done |]. split; [done |]. split; [done |]. by etransitivity.
Qed.

(** *** One transaction *)

(** Neither an import nor a coinbase with shielded spends; its outputs carry
    values. *)
Definition tx_plain (tx : ctx) : Prop :=
  IsCoinImport tx = false /\ (IsMint tx = true -> tx_spends tx = []) /\
  Forall (fun o => 0 <= nValue o) (tx_vout tx).

Lemma plain_pegs tx : IsPegsImport false tx = false.
Proof using. done. Qed.

Lemma FromTx_wf cb v ver h :
  Forall (fun o => 0 <= nValue o) v -> 0 < h < 2 ^ 32 -> wf_coins (FromTx cb v ver h).
Proof using.
  intros Hv Hh. split; [apply Cleanup_clean |]. split; [| done].
  apply nulls_cleared_Cleanup. cbn [set_vout vout]. unfold nulls_cleared. apply Forall_map.
  eapply Forall_impl; [exact Hv |]. intros o Ho. cbn beta. destruct (IsUnspendable _); [done |].
  unfold IsNull. intros E%Z.eqb_eq. cbn beta in Ho. lia.
Qed.

Lemma map_null_idem v :
  map (fun o => if IsUnspendable (scriptPubKey o) then SetNull else o)
    (map (fun o => if IsUnspendable (scriptPubKey o) then SetNull else o) v) =
  map (fun o => if IsUnspendable (scriptPubKey o) then SetNull else o) v.
Proof using.
  rewrite map_map. apply map_ext. intros o. destruct (IsUnspendable (scriptPubKey o)) eqn:E; [done |]. by rewrite E.
Qed.

(** Clearing unspendable outputs twice is clearing them once. *)
Lemma FromTx_cleared cb v ver h :
  Forall (fun o => 0 <= nValue o) v -> ClearUnspendable (FromTx cb v ver h) = FromTx cb v ver h.
Proof using.
  intros Hv. unfold FromTx, ClearUnspendable at 1. set (c := Coins cb v h ver).
  destruct (Cleanup_split (set_vout c (map (fun o => if IsUnspendable (scriptPubKey o) then SetNull else o) (vout c))))
    as [k Hk].
  { cbn [set_vout vout]. unfold nulls_cleared. apply Forall_map. eapply Forall_impl; [exact Hv |].
    intros o Ho. cbn beta. destruct (IsUnspendable _); [done |]. unfold IsNull. intros E%Z.eqb_eq. cbn beta in Ho. lia. }
  fold (ClearUnspendable c) in Hk. cbn [set_vout vout] in Hk.
  assert (map (fun o => if IsUnspendable (scriptPubKey o) then SetNull else o) (vout (ClearUnspendable c)) =
          vout (ClearUnspendable c)) as ->.
  { apply (app_inj_1 _ _ (map (fun o => if IsUnspendable (scriptPubKey o) then SetNull else o) (replicate k SetNull))
      (replicate k SetNull)); [by rewrite length_map |].
    rewrite <-map_app, <-Hk. apply map_null_idem. }
  replace (set_vout (ClearUnspendable c) (vout (ClearUnspendable c))) with (ClearUnspendable c)
    by (by destruct (ClearUnspendable c)).
  apply Cleanup_clean.
Qed.

(** The comparison of [DisconnectBlock] succeeds on the outputs the block added. *)
Lemma remove_outputs_ok tx h :
  Forall (fun o => 0 <= nValue o) (tx_vout tx) ->
  (remove_outputs tx h (default Clear (norm (Some (Cleanup
     (FromTx (IsCoinBase tx) (tx_vout tx) (tx_nVersion tx) h)))))).2 = true.
Proof using.
  intros Hv. unfold remove_outputs. cbn [snd]. set (fx := FromTx _ _ _ _).
  assert (Cleanup fx = fx) as -> by apply Cleanup_clean.
  cbn [norm]. destruct (IsPruned fx) eqn:Ep; cbn [default from_option id].
  - unfold coins_eqb. rewrite Ep, andb_true_r. by destruct (nVersion fx <? 0).
  - assert (ClearUnspendable fx = fx) as -> by (by apply FromTx_cleared).
    assert ((if nVersion fx <? 0 then Coins (fCoinBase fx) (vout fx) (nHeight fx) (nVersion fx) else fx) = fx) as ->
      by (destruct fx; by destruct (_ <? _)).
    unfold coins_eqb. rewrite Ep. cbn [andb]. by apply bool_decide_eq_true_2.
Qed.

Lemma ClearUnspendable_pruned c : clean c -> IsPruned c = true -> ClearUnspendable c = c.
Proof using.
  intros Hc Hp. rewrite (clean_pruned _ Hc) in Hp. apply bool_decide_eq_true in Hp.
  unfold ClearUnspendable. rewrite Hp. cbn [map]. rewrite <-Hp.
  replace (set_vout c (vout c)) with c by (by destruct c). exact Hc.
Qed.

Lemma respects_remove_outputs tx h : respects (remove_outputs tx h).
Proof using.
  intros a b Ha Hb Pa Pb. split; [done |]. unfold remove_outputs. cbn [snd].
  rewrite !ClearUnspendable_pruned by done. set (fx := FromTx _ _ _ _).
  assert (forall x, IsPruned x = true ->
    coins_eqb (if nVersion fx <? 0 then Coins (fCoinBase x) (vout x) (nHeight x) (nVersion fx) else x) fx = IsPruned fx) as Hx.
  { intros x Px. unfold coins_eqb.
    assert (IsPruned (if nVersion fx <? 0 then Coins (fCoinBase x) (vout x) (nHeight x) (nVersion fx) else x) = true) as Px'
      by (by destruct (_ <? _)).
    rewrite Px'. cbn [andb]. destruct (IsPruned fx) eqn:Ef; [done |].
    apply bool_decide_eq_false_2. intros E. rewrite E in Px'. congruence. }
  by rewrite !Hx.
Qed.

(** [UpdateCoins], and what undoes it. *)
Lemma update_restore s tx height undos s1 :
  tx_plain tx -> 0 < height < 2 ^ 32 -> sinv s -> utxo_inv (sabs s) ->
  s_coins (sabs s) (tx_hash tx) = None ->
  Forall (fun d => s_nullifier (sabs s) (sp_nullifier d) = false) (tx_spends tx) ->
  UpdateCoins false s tx height = Some (undos, s1) ->
  (sinv s1 /\ utxo_inv (sabs s1) /\ rest_eq (sabs s1) (sabs s) /\
   (forall k, k <> tx_hash tx -> s_coins (sabs s) k = None -> s_coins (sabs s1) k = None)) /\
  forall s2, sinv s2 -> utxo_eq (sabs s2) (sabs s1) ->
    exists s3, disconnect_tx false s2 tx undos height true = Some (true, s3) /\ sinv s3 /\
      utxo_eq (sabs s3) (sabs s) /\ rest_eq (sabs s3) (sabs s2).
Proof using HL.
  intros (Hni & Hmint & Hvals) Hh Hs Hu Hnone Hnf E. unfold UpdateCoins in E.
  rewrite Hni, plain_pegs in E. cbn [orb] in E.
  assert (exists sa, (if negb (IsMint tx) then spend_inputs false s tx (tx_vin tx) else Some ([], s)) = Some (undos, sa) /\
    (sinv sa /\ utxo_inv (sabs sa) /\ rest_eq (sabs sa) (sabs s) /\
     (forall k, s_nullifier (sabs sa) k = s_nullifier (sabs s) k) /\
     (forall k, s_coins (sabs s) k = None -> s_coins (sabs sa) k = None)) /\
    (negb (IsMint tx) = true -> length undos = length (tx_vin tx) /\
      forall s2, sinv s2 -> utxo_eq (sabs s2) (sabs sa) ->
      exists s3, restore_inputs s2 (rev (zip (tx_vin tx) undos)) true = (true, s3) /\ sinv s3 /\
        utxo_eq (sabs s3) (sabs s) /\ rest_eq (sabs s3) (sabs s2)) /\
    (negb (IsMint tx) = false -> sa = s))
    as (sa & Ea & (Hsa & Hua & Hra & Hna & Hza) & Hback & Hsame).
  { destruct (negb (IsMint tx)).
    - destruct (spend_inputs false s tx (tx_vin tx)) as [[us sa] |] eqn:Ei; [| done]. cbn [mbind option_bind] in E.
      injection E as <- _. destruct (spend_restore s tx _ us sa (plain_pegs tx) Hs Hu Ei) as (H1 & H2 & H3).
      exists sa. split; [done |]. split; [done |]. split; [by split | done].
    - cbn [mbind option_bind] in E. injection E as <- _. exists s. split; [done |].
      split; [do 2 (split; [done |]); split; [reflexivity | done] |]. split; [done | done]. }
  rewrite Ea in E. cbn [mbind option_bind] in E. clear Ea.
  set (nfs := map sp_nullifier (tx_spends tx)) in *.
  destruct (sl_nulls _ _ HL sa nfs true Hsa) as [Hsb Heb].
  set (sb := set_nulls sa nfs true) in *. set (fx := FromTx (IsCoinBase tx) (tx_vout tx) (tx_nVersion tx) height) in *.
  pose proof (sl_modify _ _ HL sb (tx_hash tx) (fun _ => (fx, tt)) Hsb (fun _ => respects_const (fx, tt))) as HM.
  destruct (modify sb (tx_hash tx) (fun _ => (fx, tt))) as [r s1']. destruct HM as (Hs1 & He1 & _).
  cbn [snd] in E. injection E as <-. apply state_eq_halves in Heb as [[Hcb Hnb] Hrb].
  apply state_eq_halves in He1 as [[Hc1 Hn1] Hr1].
  assert (Cleanup fx = fx) as Hfx by apply Cleanup_clean.
  assert (forall k, s_coins (sabs s1') k = if decide (k = tx_hash tx) then norm (Some fx) else s_coins (sabs sa) k) as Hc.
  { intros k. rewrite Hc1, s_modify_coins. cbn [fst]. rewrite Hfx. case_decide; [done |]. by rewrite Hcb. }
  split; [split; [done | split; [| split]] |].
  - intros k c. rewrite Hc. case_decide; [| apply Hua]. intros [-> Hp]%norm_Some. split; [| done].
    by apply FromTx_wf.
  - etransitivity; [exact Hr1 |]. etransitivity; [exact Hrb | exact Hra].
  - intros k Hk Hz. rewrite Hc, decide_False by done. by apply Hza.
  - intros s2 Hs2 [Hc2 Hn2]. unfold disconnect_tx.
    pose proof (sl_modify _ _ HL s2 (tx_hash tx) (remove_outputs tx height) Hs2
      (fun _ => respects_remove_outputs tx height)) as HM.
    destruct (modify s2 (tx_hash tx) (remove_outputs tx height)) as [ok s2a].
    destruct HM as (Hs2a & He2a & Hok). apply state_eq_halves in He2a as [[Hc2a Hn2a] Hr2a].
    assert (ok = true) as ->.
    { rewrite Hok, Hc2, Hc, decide_True by done. rewrite <-Hfx. by apply remove_outputs_ok. }
    cbn [andb]. fold nfs. destruct (sl_nulls _ _ HL s2a nfs false Hs2a) as [Hs2b He2b].
    set (s2b := set_nulls s2a nfs false) in *. apply state_eq_halves in He2b as [[Hc2b Hn2b] Hr2b].
    assert (utxo_eq (sabs s2b) (sabs sa)) as Heq.
    { split; intros k.
      - rewrite Hc2b. cbn [s_set_nullifiers s_coins]. rewrite Hc2a, s_modify_coins. case_decide as Hk.
        + subst k. rewrite (Hza _ Hnone). done.
        + by rewrite Hc2, Hc, decide_False.
      - rewrite Hn2b. cbn [s_set_nullifiers s_nullifier]. case_decide as Hk.
        + unfold nfs in Hk. apply list_elem_of_fmap in Hk as (d & -> & Hd). rewrite Forall_forall in Hnf.
          by rewrite Hna, Hnf.
        + rewrite Hn2a. cbn [s_modify s_nullifier]. rewrite Hn2, Hn1. cbn [s_modify s_nullifier].
          rewrite Hnb. cbn [s_set_nullifiers s_nullifier]. by rewrite decide_False. }
    assert (rest_eq (sabs s2b) (sabs s2)) as Hrest by (etransitivity; [exact Hr2b | exact Hr2a]).
    destruct (negb (IsMint tx)) eqn:Em.
    + destruct (Hback eq_refl) as [Hlen Hres]. rewrite plain_pegs, Hlen, Nat.eqb_refl. cbn [negb].
      destruct (Hres s2b Hs2b Heq) as (s3 & -> & Hs3 & He3 & Hr3). exists s3.
      split; [done |]. split; [done |]. split; [done |]. by etransitivity.
    + rewrite Hni, plain_pegs. cbn [orb]. rewrite (Hsame eq_refl) in *. exists s2b. done.
Qed.

(** *** The checks only read *)

Definition available (s : state) (p : uint256 * Z) : bool :=
  match s_coins s p.1 with Some c => IsAvailable c (Z.to_nat p.2) | None => false end.

Lemma available_norm r s p :
  norm r = s_coins s p.1 ->
  available s p = match r with Some c => IsAvailable c (Z.to_nat p.2) | None => false end.
Proof using.
  intros Hn. unfold available. rewrite <-Hn. destruct r as [c |]; [| done]. cbn [norm].
  destruct (IsPruned c) eqn:Ep; [| done]. unfold IsAvailable. destruct (vout c !! _) as [o |] eqn:Eo; [| done].
  unfold IsPruned in Ep. rewrite forallb_forall in Ep. rewrite (Ep o); [done |].
  apply list_elem_of_In. by eapply list_elem_of_lookup_2.
Qed.

Lemma available_eq s t p : utxo_eq s t -> available s p = available t p.
Proof using. intros [E _]. unfold available. by rewrite E. Qed.

Lemma forallb_ext {A} (f g : A -> bool) l : (forall x, f x = g x) -> forallb f l = forallb g l.
Proof using. intros E. induction l as [| x l IH]; [done |]. cbn [forallb]. by rewrite E, IH. Qed.

Lemma have_inputs_spec s tx vin i :
  sinv s ->
  let '(b, s') := have_inputs false s tx vin i in
  sinv s' /\ state_eq (sabs s') (sabs s) /\ b = forallb (available (sabs s)) vin.
Proof using HL.
  revert s i. induction vin as [| [h n] vin IH]; intros s i Hs; cbn [have_inputs forallb]; [done |].
  rewrite plain_pegs. cbn [andb]. pose proof (sl_access _ _ HL s h Hs) as Ha.
  destruct (access s h) as [r s1]. destruct Ha as (Hs1 & He1 & Hn).
  rewrite (available_norm r (sabs s) (h, n) Hn). cbn [fst snd].
  destruct r as [c |]; [| done]. destruct (IsAvailable c (Z.to_nat n)); cbn [negb andb]; [| done].
  specialize (IH s1 (i + 1)%nat Hs1). destruct (have_inputs false s1 tx vin (i + 1)) as [b s2].
  destruct IH as (Hs2 & He2 & ->). split; [done |]. split; [by etransitivity |].
  apply forallb_ext. intros p. apply available_eq. by apply state_eq_halves.
Qed.

Lemma have_shielded_spec s spends :
  sinv s ->
  let '(b, s') := have_shielded s spends in
  sinv s' /\ state_eq (sabs s') (sabs s) /\
  b = forallb (fun d => negb (s_nullifier (sabs s) (sp_nullifier d)) &&
                        bool_decide (is_Some (s_anchor (sabs s) (sp_anchor d)))) spends.
Proof using HL.
  revert s. induction spends as [| d spends IH]; intros s Hs; cbn [have_shielded forallb]; [done |].
  pose proof (sl_nullifier _ _ HL s (sp_nullifier d) Hs) as Hn. destruct (nullifier_at s _) as [spent s1].
  destruct Hn as (Hs1 & He1 & ->). destruct (s_nullifier (sabs s) (sp_nullifier d)); cbn [negb andb]; [done |].
  pose proof (sl_anchor _ _ HL s1 (sp_anchor d) Hs1) as Ha. destruct (anchor_at s1 _) as [r s2].
  destruct Ha as (Hs2 & He2 & ->). pose proof (transitivity He2 He1) as He.
  assert (s_anchor (sabs s1) (sp_anchor d) = s_anchor (sabs s) (sp_anchor d)) as Ea by apply He1. rewrite Ea.
  destruct (s_anchor (sabs s) (sp_anchor d)) as [t |].
  - rewrite bool_decide_eq_true_2 by eauto. cbn [andb]. specialize (IH s2 Hs2).
    destruct (have_shielded s2 spends) as [b s3]. destruct IH as (Hs3 & He3 & ->).
    split; [done |]. split; [by etransitivity |]. destruct He as (_ & Hn & Ha & _).
    apply forallb_ext. intros e. by rewrite Hn, Ha.
  - rewrite bool_decide_eq_false_2 by (by intros [? ?]). done.
Qed.

Lemma bip30_spec s txs :
  sinv s ->
  let '(b, s') := bip30 s txs in
  sinv s' /\ state_eq (sabs s') (sabs s) /\
  (b = true -> Forall (fun tx => s_coins (sabs s) (tx_hash tx) = None) txs).
Proof using HL.
  revert s. induction txs as [| tx txs IH]; intros s Hs; cbn [bip30]; [done |].
  pose proof (sl_access _ _ HL s (tx_hash tx) Hs) as Ha. destruct (access s _) as [r s1].
  destruct Ha as (Hs1 & He1 & Hn). specialize (IH s1 Hs1).
  assert (forall b s', bip30 s1 txs = (b, s') -> norm r = None ->
    sinv s' /\ state_eq (sabs s') (sabs s) /\
    (b = true -> Forall (fun tx => s_coins (sabs s) (tx_hash tx) = None) (tx :: txs))) as Hrest.
  { intros b s' E Hr. rewrite E in IH. destruct IH as (Hs2 & He2 & Hf).
    split; [done |]. split; [by etransitivity |]. intros Hb. constructor; [congruence |].
    eapply Forall_impl; [by apply Hf |]. cbn beta. intros tx' Htx. destruct He1 as (K & _). by rewrite <-K. }
  destruct r as [c |].
  - destruct (IsPruned c) eqn:Ep; cbn [negb].
    + destruct (bip30 s1 txs) as [b s']. apply Hrest; [done |]. cbn [norm]. by rewrite Ep.
    + by split.
  - destruct (bip30 s1 txs) as [b s']. by apply Hrest.
Qed.

Context (tree_append : atree -> uint256 -> option atree).

(** *** The transactions of a block *)

Definition fresh_hashes (s : state) (txs : list ctx) : Prop :=
  Forall (fun tx => s_coins s (tx_hash tx) = None) txs.

(** The checks of one iteration only read the view. *)
Lemma checks_read s tx s' :
  check_tx false s tx = (true, s') ->
  tx_plain tx -> sinv s ->
  sinv s' /\ state_eq (sabs s') (sabs s) /\
  Forall (fun d => s_nullifier (sabs s) (sp_nullifier d) = false) (tx_spends tx).
Proof using HL.
  intros E Hp Hs. unfold check_tx in E. destruct (IsMint tx) eqn:Em; cbn [negb] in E.
  - injection E as <-. destruct Hp as (_ & Hm & _). rewrite (Hm Em). done.
  - unfold HaveInputs in E. rewrite Em in E. cbn [negb] in E.
    pose proof (have_inputs_spec s tx (tx_vin tx) 0 Hs) as Hi.
    destruct (have_inputs false s tx (tx_vin tx) 0) as [b sa]. destruct Hi as (Hsa & Hea & _).
    destruct b; [| done]. unfold HaveShieldedRequirements in E.
    pose proof (have_shielded_spec sa (tx_spends tx) Hsa) as Hsh. rewrite E in Hsh.
    destruct Hsh as (Hs' & He' & Hb). split; [done |]. split; [by etransitivity |].
    apply List.Forall_forall. intros d Hd. symmetry in Hb. rewrite forallb_forall in Hb. specialize (Hb d Hd).
    apply andb_prop in Hb as [Hb%negb_true_iff _]. destruct Hea as (_ & Hn & _). by rewrite <-Hn.
Qed.

(** One iteration of the loop: the checks and [UpdateCoins]. *)
Lemma connect_step s tx (height : Z) ok s' undo s1 :
  check_tx false s tx = (ok, s') ->
  ok = true -> tx_plain tx -> 0 < height < 2 ^ 32 -> sinv s -> utxo_inv (sabs s) ->
  s_coins (sabs s) (tx_hash tx) = None ->
  UpdateCoins false s' tx height = Some (undo, s1) ->
  (sinv s1 /\ utxo_inv (sabs s1) /\ rest_eq (sabs s1) (sabs s) /\
   (forall k, k <> tx_hash tx -> s_coins (sabs s) k = None -> s_coins (sabs s1) k = None)) /\
  forall s2, sinv s2 -> utxo_eq (sabs s2) (sabs s1) ->
    exists s3, disconnect_tx false s2 tx undo height true = Some (true, s3) /\ sinv s3 /\
      utxo_eq (sabs s3) (sabs s) /\ rest_eq (sabs s3) (sabs s2).
Proof using HL.
  intros E -> Hp Hh Hs Hu Hz EU. destruct (checks_read s tx s' E Hp Hs) as (Hs' & He' & Hnf).
  pose proof He' as [[Hc' Hn'] Hr']%state_eq_halves.
  destruct (update_restore s' tx height undo s1 Hp Hh Hs') as ((Hs1 & Hu1 & Hr1 & Hz1) & Hback); [| | | exact EU |].
  - by apply utxo_inv_eq with (sabs s).
  - by rewrite Hc'.
  - eapply Forall_impl; [exact Hnf |]. intros d Hd. by rewrite Hn'.
  - split.
    + split; [done |]. split; [done |]. split; [by etransitivity |].
      intros k Hk Hkz. apply Hz1; [done |]. by rewrite Hc'.
    + intros s2 Hs2 He2. destruct (Hback s2 Hs2 He2) as (s3 & E3 & Hs3 & He3 & Hr3).
      exists s3. split; [done |]. split; [done |]. split; [| done]. etransitivity; [exact He3 | by split].
Qed.

Lemma disconnect_txs_app s l1 l2 height b :
  disconnect_txs false s (l1 ++ l2) height b =
  ('(b, s) ← disconnect_txs false s l1 height b; disconnect_txs false s l2 height b).
Proof using.
  revert s b. induction l1 as [| [tx undo] l1 IH]; intros s b; [done |]. cbn [app disconnect_txs].
  destruct (disconnect_tx false s tx undo height b) as [[b1 s1] |]; [| done]. cbn [mbind option_bind]. apply IH.
Qed.

Lemma connect_restore s t first txs height vu t' s1 :
  Forall tx_plain txs -> NoDup (map tx_hash txs) -> 0 < height < 2 ^ 32 ->
  sinv s -> utxo_inv (sabs s) -> fresh_hashes (sabs s) txs ->
  (first = true -> exists cb rest, txs = cb :: rest /\ IsMint cb = true) ->
  connect_txs false tree_append s t first txs height = Connected (vu, t', s1) ->
  (sinv s1 /\ utxo_inv (sabs s1) /\ rest_eq (sabs s1) (sabs s)) /\
  (length (if first then [] :: vu else vu) = length txs) /\
  forall s2, sinv s2 -> utxo_eq (sabs s2) (sabs s1) ->
    exists s3, disconnect_txs false s2 (rev (zip txs (if first then [] :: vu else vu))) height true = Some (true, s3) /\
      sinv s3 /\ utxo_eq (sabs s3) (sabs s) /\ rest_eq (sabs s3) (sabs s2).
Proof using HL.
  intros Hplain. revert s t first vu t' s1.
  induction Hplain as [| tx txs Hp Hplain IH]; intros s t first vu t' s1 Hnd Hh Hs Hu Hf Hfirst E; cbn [connect_txs] in E.
  - destruct first; [by destruct Hfirst as (? & ? & ? & _) |]. injection E as <- <- <-.
    split; [split; [done | split; [done | reflexivity]] |]. split; [done |].
    intros s2 Hs2 He2. exists s2. split; [done |]. split; [done |]. split; [done | reflexivity].
  - cbn [map] in Hnd. apply NoDup_cons in Hnd as [Hh1 Hnd]. inversion Hf as [| ? ? Hz Hzs]. subst.
    destruct (check_tx false s tx) as [ok s'] eqn:Ec.
    destruct ok; cbn [negb] in E; [| done].
    destruct (UpdateCoins false s' tx height) as [[undo sa] |] eqn:EU; [| done].
    destruct (append_cms tree_append t (tx_cms tx)) as [ta |]; [| done].
    destruct (connect_txs false tree_append sa ta false txs height) as [| | [[vu1 t1] sb]] eqn:E1; [done | done |].
    injection E as <- <- <-.
    destruct (connect_step s tx height true s' undo sa Ec eq_refl Hp Hh Hs Hu Hz EU)
      as ((Hsa & Hua & Hra & Hza) & Hback).
    destruct (IH sa ta false vu1 t1 sb) as ((Hsb & Hub & Hrb) & Hlen & Hback2); try done.
    { apply List.Forall_forall. intros x Hx. apply Hza.
      - intros E. apply Hh1. rewrite <-E. apply list_elem_of_In, in_map, Hx.
      - unfold fresh_hashes in Hzs. rewrite List.Forall_forall in Hzs. by apply Hzs. }
    split; [split; [done | split; [done | by etransitivity]] |]. split.
    { destruct first; cbn [length] in *; lia. }
    intros s2 Hs2 He2. destruct (Hback2 s2 Hs2 He2) as (s3 & E3 & Hs3 & He3 & Hr3).
    destruct (Hback s3 Hs3 He3) as (s4 & E4 & Hs4 & He4 & Hr4).
    assert (disconnect_tx false s3 tx (if first then [] else undo) height true = Some (true, s4)) as E4'.
    { destruct first; [| done]. destruct (Hfirst eq_refl) as (cb & rest & [= <- <-] & Hm).
      rewrite <-E4. unfold disconnect_tx. by rewrite Hm. }
    exists s4. replace (zip (tx :: txs) (if first then [] :: (if first then vu1 else undo :: vu1)
        else (if first then vu1 else undo :: vu1))) with ((tx, if first then [] else undo) :: zip txs vu1)
      by (by destruct first).
    cbn [rev]. rewrite disconnect_txs_app, E3. cbn [mbind option_bind disconnect_txs]. rewrite E4'.
    cbn [mbind option_bind]. split; [done |]. split; [done |]. split; [done |]. by etransitivity.
Qed.

Context (aroot_set : forall t : atree, IsNull256 (aroot t) = false).

(** A block the other checks of the node let through. *)
Record block_plain (b : block) : Prop := {
  bp_txs : Forall tx_plain (bl_txs b);
  bp_hashes : NoDup (map tx_hash (bl_txs b));
  bp_coinbase : exists cb rest, bl_txs b = cb :: rest /\ IsMint cb = true;
  bp_height : 0 < bl_height b < 2 ^ 32;
  bp_hash : IsNull256 (bl_hash b) = false;
  bp_prev : IsNull256 (bl_prev b) = false
}.

(** Up to the loop over the transactions the view is only read. *)
Lemma connect_block_inv s b vu s' :
  sinv s -> connect_block false tree_append s b = Connected (vu, s') ->
  exists s0 t t' s1, sinv s0 /\ state_eq (sabs s0) (sabs s) /\ bl_prev b = s_best (sabs s) /\
    fresh_hashes (sabs s0) (bl_txs b) /\
    connect_txs false tree_append s0 t true (bl_txs b) (bl_height b) = Connected (vu, t', s1) /\
    s' = set_best (push_anchor s1 t') (bl_hash b).
Proof using HL.
  intros Hs E. unfold connect_block in E.
  pose proof (sl_best _ _ HL s Hs) as H1. destruct (best_block s) as [best sa]. destruct H1 as (Hsa & Hea & ->).
  case_bool_decide as Hprev; cbn [negb] in E; [| done].
  pose proof (bip30_spec sa (bl_txs b) Hsa) as H2. destruct (bip30 sa (bl_txs b)) as [ok sb].
  destruct H2 as (Hsb & Heb & Hf). destruct ok; cbn [negb] in E; [| done].
  pose proof (sl_best_anchor _ _ HL sb Hsb) as H3. destruct (best_anchor sb) as [rt sc]. destruct H3 as (Hsc & Hec & ->).
  pose proof (sl_anchor _ _ HL sc (s_best_anchor (sabs sb)) Hsc) as H4. destruct (anchor_at sc _) as [r sd].
  destruct H4 as (Hsd & Hed & _). destruct r as [t |]; [| done].
  destruct (connect_txs false tree_append sd t true (bl_txs b) (bl_height b)) as [| | [[vu1 t'] s1]] eqn:Et; [done | done |].
  destruct (bl_sapling b && _); [done |]. injection E as <- <-.
  pose proof (transitivity Hed (transitivity Hec Heb)) as Hde. pose proof (transitivity Hde Hea) as He.
  exists sd, t, t', s1. split; [done |]. split; [done |]. split; [done |]. split; [| done].
  unfold fresh_hashes. eapply Forall_impl; [by apply Hf |]. cbn beta. intros tx Htx.
  destruct Hde as (K & _). by rewrite K.
Qed.

Lemma s_pop_cases (s : state) rt :
  (s_best_anchor s = rt /\ s_pop s rt = s) \/
  (s_best_anchor s <> rt /\ s_pop s rt = State (s_coins s) (s_nullifier s)
     (fun k => if decide (k = s_best_anchor s) then None else s_anchor s k) (s_best s) rt).
Proof using. unfold s_pop. match goal with |- context [decide ?P] => destruct (decide P) end; [by left | by right]. Qed.

(** Connecting and disconnecting a block on any lawful store. *)
Lemma block_restore s b vu s' :
  block_plain b -> sinv s -> utxo_inv (sabs s) ->
  (s_best_anchor (sabs s') <> s_best_anchor (sabs s) ->
     s_anchor (sabs s) (s_best_anchor (sabs s')) = None) ->
  IsNull256 (s_best_anchor (sabs s)) = false ->
  connect_block false tree_append s b = Connected (vu, s') ->
  (sinv s' /\ utxo_inv (sabs s') /\ s_best (sabs s') = bl_hash b) /\
  exists s2, disconnect_block false s' b vu (s_best_anchor (sabs s)) = Some (true, s2) /\
    sinv s2 /\ state_eq (sabs s2) (sabs s).
Proof using HL aroot_set.
  intros Hb Hs Hu Hanch Hroot E.
  destruct (connect_block_inv s b vu s' Hs E) as (s0 & t & t' & s1 & Hs0 & He0 & Hprev & Hf & Et & ->).
  destruct Hb as [Hplain Hnd Hcb Hh Hhash Hpn]. pose proof He0 as [Heu0 Her0]%state_eq_halves.
  destruct (connect_restore s0 t true (bl_txs b) (bl_height b) vu t' s1 Hplain Hnd Hh Hs0) as
    ((Hs1 & Hu1 & Hr1) & Hlen & Hback); [by apply utxo_inv_eq with (sabs s) | done | done | exact Et |].
  destruct (sl_push _ _ HL s1 t' Hs1 (aroot_set t')) as [Hsp Hep].
  destruct (sl_set_best _ _ HL (push_anchor s1 t') (bl_hash b) Hsp Hhash) as [Hsc Hec].
  set (sp := push_anchor s1 t') in *. set (sc := set_best sp (bl_hash b)) in *.
  assert (utxo_eq (sabs sp) (sabs s1)) as Hup.
  { apply state_eq_halves in Hep as [Hep _]. etransitivity; [exact Hep |]. unfold s_push. by case_decide. }
  assert (utxo_eq (sabs sc) (sabs s1)) as Huc.
  { apply state_eq_halves in Hec as [Hec' _]. etransitivity; [exact Hec' |]. exact Hup. }
  assert (s_best (sabs sc) = bl_hash b) as Hbest by apply Hec.
  assert (s_best_anchor (sabs s1) = s_best_anchor (sabs s)) as Hba.
  { destruct Hr1 as (_ & _ & ->). apply Her0. }
  assert (forall k, s_anchor (sabs s1) k = s_anchor (sabs s) k) as Han.
  { intros k. destruct Hr1 as (-> & _). apply Her0. }
  assert (s_best_anchor (sabs sc) = aroot t') as Hcb'.
  { destruct Hec as (_ & _ & _ & _ & ->). cbn [s_set_best s_best_anchor]. destruct Hep as (_ & _ & _ & _ & ->).
    unfold s_push. case_decide; [done | reflexivity]. }
  assert (forall k, s_anchor (sabs sc) k =
    if decide (s_best_anchor (sabs s) = aroot t') then s_anchor (sabs s) k
    else if decide (k = aroot t') then Some t' else s_anchor (sabs s) k) as Hca.
  { intros k. destruct Hec as (_ & _ & K & _). rewrite K. cbn [s_set_best s_anchor].
    destruct Hep as (_ & _ & K2 & _). rewrite K2. unfold s_push. rewrite Hba.
    case_decide; [apply Han |]. cbn [s_anchor]. case_decide; [done | apply Han]. }
  split; [split; [done | split; [by apply utxo_inv_eq with (sabs s1) | done]] |].
  unfold disconnect_block.
  pose proof (sl_best _ _ HL sc Hsc) as H1. destruct (best_block sc) as [best sd]. destruct H1 as (Hsd & Hed & ->).
  rewrite Hbest, bool_decide_eq_true_2 by done. cbn [negb length] in *.
  rewrite (proj2 (Nat.eqb_eq _ _)) by lia. cbn [negb].
  pose proof Hed as [Hud Hrd]%state_eq_halves.
  destruct (Hback sd Hsd) as (se & Ee & Hse & Hue & Hre); [by etransitivity |].
  rewrite Ee. cbn [mbind option_bind]. pose proof (transitivity Hre Hrd) as (Ka & Kb & Kc).
  destruct (sl_pop _ _ HL se (s_best_anchor (sabs s)) Hse Hroot) as (sf & Ef & Hsf & Hef).
  { rewrite Kc, Hcb'. intros Hne. rewrite Hcb' in Hanch. specialize (Hanch Hne). split.
    - intros Eemp. rewrite Eemp, (sl_empty _ _ HL s Hs) in Hanch. done.
    - rewrite Ka, Hca, decide_False, decide_True by congruence. eauto. }
  rewrite Ef. cbn [mbind option_bind].
  destruct (sl_set_best _ _ HL sf (bl_prev b) Hsf Hpn) as [Hsg Heg].
  eexists. split; [reflexivity |]. split; [done |]. apply state_eq_halves. split.
  - apply state_eq_halves in Heg as [Heg _]. etransitivity; [exact Heg |].
    apply state_eq_halves in Hef as [Hef _].
    assert (utxo_eq (sabs sf) (sabs se)) as Hfe.
    { etransitivity; [exact Hef |]. destruct (s_pop_cases (sabs se) (s_best_anchor (sabs s))) as [[_ ->] | [_ ->]]; by split. }
    etransitivity; [exact Hfe |]. etransitivity; [exact Hue | exact Heu0].
  - destruct Heg as (_ & _ & G1 & G2 & G3). destruct Hef as (_ & _ & F1 & F2 & F3).
    cbn [s_set_best s_anchor s_best s_best_anchor] in *. split; [| split; [congruence |]].
    + intros k. rewrite G1, F1. destruct (s_pop_cases (sabs se) (s_best_anchor (sabs s))) as [[Hd ->] | [Hd ->]];
        rewrite Kc, Hcb' in Hd.
      * rewrite Ka, Hca. by rewrite decide_True.
      * cbn [s_anchor]. rewrite Kc, Hcb', Ka, Hca. rewrite (decide_False (P := s_best_anchor (sabs s) = aroot t')) by congruence.
        destruct (decide (k = aroot t')) as [-> | Hk]; [| done]. symmetry. rewrite Hcb' in Hanch. by apply Hanch.
    + rewrite G3, F3. by destruct (s_pop_cases (sabs se) (s_best_anchor (sabs s))) as [[Hd ->] | [Hd ->]].
Qed.

(** *** Nothing is spent twice *)

Definition outpoint (p : uint256 * Z) : uint256 * nat := (p.1, Z.to_nat p.2).
Definition unspent (s : state) (p : uint256 * nat) : bool :=
  match s_coins s p.1 with Some c => IsAvailable c p.2 | None => false end.

(** The outputs a transaction spends, and the nullifiers it reveals. *)
Definition spent_by (tx : ctx) : list (uint256 * nat) :=
  if IsMint tx then [] else map outpoint (tx_vin tx).
Definition nullifiers_of (tx : ctx) : list uint256 := map sp_nullifier (tx_spends tx).

Lemma unspent_norm c n :
  match norm (Some c) with Some c => IsAvailable c n | None => false end = IsAvailable c n.
Proof using.
  cbn [norm]. destruct (IsPruned c) eqn:Ep; [| done]. unfold IsAvailable.
  destruct (vout c !! n) as [o |] eqn:Eo; [| done]. unfold IsPruned in Ep. rewrite forallb_forall in Ep.
  rewrite (Ep o); [done |]. apply list_elem_of_In. by eapply list_elem_of_lookup_2.
Qed.

(** Spending an output makes exactly this output unavailable. *)
Lemma spend_one_unspent s h n u s0 :
  sinv s -> utxo_inv (sabs s) -> modify s h (spend_coin n) = (Some u, s0) ->
  unspent (sabs s) (h, n) = true /\
  forall p, unspent (sabs s0) p = unspent (sabs s) p && negb (bool_decide (p = (h, n))).
Proof using HL.
  intros Hs Hu E. destruct (spend_one s h n u s0 Hs Hu E) as (_ & _ & _ & _ & _ & c & c1 & Ec & Esp & Hc).
  apply spend_coin_inv in Esp as (o & Hl & Ho & -> & _). destruct (Hu h c Ec) as [(Hcl & Hnc & _) _].
  split; [unfold unspent; cbn [fst snd]; rewrite Ec; unfold IsAvailable; by rewrite Hl, Ho |].
  intros [k m]. unfold unspent. cbn [fst snd]. rewrite Hc. case_decide as Hk.
  - subst k. rewrite unspent_norm, Ec. rewrite !IsAvailable_Cleanup.
    unfold IsAvailable. cbn [set_vout vout]. destruct (decide (m = n)) as [-> | Hm].
    + rewrite list_lookup_insert_eq by (by eapply lookup_lt_Some). rewrite bool_decide_eq_true_2 by done.
      by rewrite andb_false_r.
    + rewrite list_lookup_insert_ne by done. rewrite bool_decide_eq_false_2 by congruence. by rewrite andb_true_r.
  - rewrite bool_decide_eq_false_2 by congruence. by rewrite andb_true_r.
Qed.

(** The inputs of a transaction are distinct outputs that were unspent. *)
Lemma spend_inputs_once s tx vin undos s1 :
  sinv s -> utxo_inv (sabs s) -> spend_inputs false s tx vin = Some (undos, s1) ->
  NoDup (map outpoint vin) /\ (forall p, p ∈ map outpoint vin -> unspent (sabs s) p = true) /\
  (forall p, unspent (sabs s1) p = unspent (sabs s) p && negb (bool_decide (p ∈ map outpoint vin))).
Proof using HL.
  revert s undos. induction vin as [| [h n] vin IH]; intros s undos Hs Hu E; cbn [spend_inputs] in E.
  - injection E as <- <-. split; [constructor |]. split; [by intros p Hp%elem_of_nil |].
    intros p. rewrite bool_decide_eq_false_2 by apply not_elem_of_nil. by rewrite andb_true_r.
  - rewrite plain_pegs in E. cbn [andb] in E.
    destruct (modify s h (spend_coin (Z.to_nat n))) as [[u |] s0] eqn:Em; [| done].
    cbn [mbind option_bind] in E. destruct (spend_inputs false s0 tx vin) as [[us s1'] |] eqn:E1; [| done].
    cbn [mbind option_bind] in E. injection E as <- <-.
    destruct (spend_one s h _ u s0 Hs Hu Em) as (Hs0 & Hu0 & _).
    destruct (spend_one_unspent s h _ u s0 Hs Hu Em) as [Hav Hafter].
    destruct (IH s0 us Hs0 Hu0 E1) as (Hnd & Hall & Hafter1). cbn [map].
    change (outpoint (h, n)) with (h, Z.to_nat n). set (q := (h, Z.to_nat n)) in *.
    assert (unspent (sabs s0) q = false) as Hq by (rewrite Hafter, bool_decide_eq_true_2, andb_false_r; done).
    split; [| split].
    + constructor; [| done]. intros Hin%Hall. congruence.
    + intros p [-> | Hp]%elem_of_cons; [done |]. apply Hall in Hp. rewrite Hafter in Hp.
      by apply andb_prop in Hp as [? _].
    + intros p. rewrite Hafter1, Hafter, <-andb_assoc, <-negb_orb. f_equal. f_equal.
      rewrite <-bool_decide_or. apply bool_decide_ext. by rewrite elem_of_cons.
Qed.

(** What [UpdateCoins] does after the inputs: the nullifiers are recorded, then
    the entry of the transaction is replaced. *)
Lemma update_inv s tx height undos s1 :
  IsCoinImport tx = false -> sinv s -> utxo_inv (sabs s) -> UpdateCoins false s tx height = Some (undos, s1) ->
  exists sa, (if negb (IsMint tx) then spend_inputs false s tx (tx_vin tx) else Some ([], s)) = Some (undos, sa) /\
    sinv sa /\ utxo_inv (sabs sa) /\
    (forall k, s_coins (sabs s1) k = if decide (k = tx_hash tx)
       then norm (Some (FromTx (IsCoinBase tx) (tx_vout tx) (tx_nVersion tx) height)) else s_coins (sabs sa) k) /\
    (forall k, s_nullifier (sabs s1) k = if decide (k ∈ nullifiers_of tx) then true else s_nullifier (sabs s) k).
Proof using HL.
  intros Hni Hs Hu E. unfold UpdateCoins in E. rewrite Hni, plain_pegs in E. cbn [orb] in E.
  destruct (if negb (IsMint tx) then _ else _) as [[us sa] |] eqn:Ea; [| done]. cbn [mbind option_bind] in E.
  assert (sinv sa /\ utxo_inv (sabs sa) /\ (forall k, s_nullifier (sabs sa) k = s_nullifier (sabs s) k)) as (Hsa & Hua & Hna).
  { destruct (IsMint tx); cbn [negb] in Ea; [by injection Ea as _ <- |].
    by destruct (spend_restore s tx _ us sa (plain_pegs tx) Hs Hu Ea) as ((? & ? & _ & ? & _) & _). }
  destruct (sl_nulls _ _ HL sa (nullifiers_of tx) true Hsa) as [Hsb (Hcb & Hnb & _)].
  change (map sp_nullifier (tx_spends tx)) with (nullifiers_of tx) in E.
  set (sb := set_nulls sa (nullifiers_of tx) true) in *.
  set (fx := FromTx (IsCoinBase tx) (tx_vout tx) (tx_nVersion tx) height) in *.
  pose proof (sl_modify _ _ HL sb (tx_hash tx) (fun _ => (fx, tt)) Hsb (fun _ => respects_const (fx, tt))) as HM.
  destruct (modify sb (tx_hash tx) (fun _ => (fx, tt))) as [r s1']. destruct HM as (_ & (Hc1 & Hn1 & _) & _).
  cbn [snd] in E. injection E as <- <-. exists sa. do 3 (split; [done |]).
  assert (Cleanup fx = fx) as Hfx by apply Cleanup_clean. split; intros k.
  - rewrite Hc1, s_modify_coins. cbn [fst]. rewrite Hfx. case_decide; [done |]. by rewrite Hcb.
  - rewrite Hn1. cbn [s_modify s_nullifier]. rewrite Hnb. cbn [s_set_nullifiers s_nullifier].
    destruct (decide (k ∈ nullifiers_of tx)); [done |]. by rewrite Hna.
Qed.

(** [UpdateCoins] spends the inputs, records the nullifiers and replaces the
    entry of the transaction. *)
Lemma update_once s tx height undos s1 :
  tx_plain tx -> sinv s -> utxo_inv (sabs s) -> s_coins (sabs s) (tx_hash tx) = None ->
  UpdateCoins false s tx height = Some (undos, s1) ->
  NoDup (spent_by tx) /\
  (forall p, p ∈ spent_by tx -> unspent (sabs s) p = true /\ unspent (sabs s1) p = false) /\
  (forall p, p.1 <> tx_hash tx -> unspent (sabs s1) p = true -> unspent (sabs s) p = true) /\
  (forall k, s_nullifier (sabs s1) k = true <-> s_nullifier (sabs s) k = true \/ k ∈ nullifiers_of tx).
Proof using HL.
  intros (Hni & _ & _) Hs Hu Hnone E. destruct (update_inv s tx height undos s1 Hni Hs Hu E) as (sa & Ea & _ & _ & Hc & Hn).
  assert (NoDup (spent_by tx) /\ (forall p, p ∈ spent_by tx -> unspent (sabs s) p = true) /\
    (forall p, unspent (sabs sa) p = unspent (sabs s) p && negb (bool_decide (p ∈ spent_by tx)))) as (Hnd & Hall & Hafter).
  { unfold spent_by. destruct (IsMint tx); cbn [negb] in Ea.
    - injection Ea as <- <-. split; [constructor |]. split; [by intros p Hp%elem_of_nil |].
      intros p. rewrite bool_decide_eq_false_2 by apply not_elem_of_nil. by rewrite andb_true_r.
    - by apply (spend_inputs_once s tx _ undos sa). }
  assert (forall p, p.1 <> tx_hash tx -> unspent (sabs s1) p = unspent (sabs sa) p) as Hother.
  { intros p Hp. unfold unspent. by rewrite Hc, decide_False. }
  split; [done |]. split; [| split].
  - intros p Hp. split; [by apply Hall |]. rewrite Hother, Hafter.
    + by rewrite (bool_decide_eq_true_2 (p ∈ _)), andb_false_r.
    + intros Ep. specialize (Hall p Hp). unfold unspent in Hall. rewrite Ep, Hnone in Hall. done.
  - intros p Hp. rewrite Hother, Hafter by done. by intros [? _]%andb_prop.
  - intros k. rewrite Hn. destruct (decide (k ∈ nullifiers_of tx)); naive_solver.
Qed.

(** What connecting a list of transactions does to the spent outputs and the
    nullifiers. *)
Record spends_once (s s1 : state) (txs : list ctx) : Prop := {
  so_distinct : NoDup (flat_map spent_by txs);
  so_spent p : p ∈ flat_map spent_by txs ->
    (unspent s p = true \/ p.1 ∈ map tx_hash txs) /\ unspent s1 p = false;
  so_other p : p.1 ∉ map tx_hash txs -> unspent s1 p = true -> unspent s p = true;
  so_nullifiers : NoDup (flat_map nullifiers_of txs);
  so_fresh k : k ∈ flat_map nullifiers_of txs -> s_nullifier s k = false;
  so_revealed k : s_nullifier s1 k = true <-> s_nullifier s k = true \/ k ∈ flat_map nullifiers_of txs
}.

Lemma spends_once_nil s : spends_once s s [].
Proof using.
  split; cbn [flat_map map]; [constructor | by intros p Hp%elem_of_nil | done | constructor
    | by intros p Hp%elem_of_nil | intros k; rewrite elem_of_nil; tauto].
Qed.

Lemma spends_once_cons s sa s1 tx txs :
  fresh_hashes s (tx :: txs) -> NoDup (nullifiers_of tx) ->
  (forall k, k ∈ nullifiers_of tx -> s_nullifier s k = false) ->
  NoDup (spent_by tx) ->
  (forall p, p ∈ spent_by tx -> unspent s p = true /\ unspent sa p = false) ->
  (forall p, p.1 <> tx_hash tx -> unspent sa p = true -> unspent s p = true) ->
  (forall k, s_nullifier sa k = true <-> s_nullifier s k = true \/ k ∈ nullifiers_of tx) ->
  spends_once sa s1 txs -> spends_once s s1 (tx :: txs).
Proof using.
  intros Hf Hnn1 Hnf Hnd1 Hsp1 Hmono1 Hnull1 [Hnd2 Hsp2 Hmono2 Hnn2 Hfr2 Hnull2].
  assert (forall p, p ∈ spent_by tx -> p.1 ∉ map tx_hash (tx :: txs)) as Hout.
  { intros p [Hq _]%Hsp1 Hin. apply list_elem_of_In, in_map_iff in Hin as (x & Ex & Hx).
    unfold fresh_hashes in Hf. rewrite List.Forall_forall in Hf. specialize (Hf x Hx).
    unfold unspent in Hq. rewrite Ex in Hf. by rewrite Hf in Hq. }
  assert (forall p, p ∈ spent_by tx -> unspent s1 p = false) as Hdead.
  { intros p Hq. apply not_true_iff_false. intros Hb.
    pose proof (Hout p Hq) as [_ Hp]%not_elem_of_cons. apply (Hmono2 p Hp) in Hb.
    destruct (Hsp1 p Hq). congruence. }
  split; cbn [flat_map map].
  - apply NoDup_app. split; [done |]. split; [| done]. intros p Hq Hin. destruct (Hsp2 p Hin) as [[Ha | Ha] _].
    + destruct (Hsp1 p Hq). congruence.
    + apply (Hout p Hq). by apply elem_of_cons; right.
  - intros p [Hq | Hq]%elem_of_app; [split; [left; by apply Hsp1 | by apply Hdead] |].
    destruct (Hsp2 p Hq) as [Ha Hb]. split; [| done]. rewrite elem_of_cons.
    destruct (decide (p.1 = tx_hash tx)) as [Ep | Ep]; [by right; left |].
    destruct Ha as [Ha | Ha]; [left; by apply Hmono1 | by right; right].
  - intros p [Hp1 Hp2]%not_elem_of_cons Hb. apply Hmono1; [done |]. by apply Hmono2.
  - apply NoDup_app. split; [done |]. split; [| done]. intros k Hk1 Hk2. apply Hfr2 in Hk2.
    assert (s_nullifier sa k = true) by (apply Hnull1; by right). congruence.
  - intros k [Hk | Hk]%elem_of_app; [by apply Hnf |]. apply Hfr2 in Hk. apply not_true_iff_false.
    apply not_true_iff_false in Hk. intros Ht. apply Hk, Hnull1. by left.
  - intros k. rewrite Hnull2, Hnull1, elem_of_app. tauto.
Qed.

(** The whole loop. *)
Lemma connect_once s t first txs height vu t' s1 :
  Forall tx_plain txs -> NoDup (map tx_hash txs) -> Forall (fun tx => NoDup (nullifiers_of tx)) txs ->
  0 < height < 2 ^ 32 -> sinv s -> utxo_inv (sabs s) -> fresh_hashes (sabs s) txs ->
  connect_txs false tree_append s t first txs height = Connected (vu, t', s1) ->
  spends_once (sabs s) (sabs s1) txs.
Proof using HL.
  intros Hplain. revert s t first vu t' s1.
  induction Hplain as [| tx txs Hp Hplain IH]; intros s t first vu t' s1 Hnd Hnn Hh Hs Hu Hf E; cbn [connect_txs] in E.
  - injection E as <- <- <-. apply spends_once_nil.
  - cbn [map] in Hnd. apply NoDup_cons in Hnd as [Hh1 Hnd]. pose proof Hf as [Hz Hzs]%Forall_cons.
    apply Forall_cons in Hnn as [Hnn1 Hnn2].
    destruct (check_tx false s tx) as [ok s'] eqn:Ec.
    destruct ok; cbn [negb] in E; [| done].
    destruct (UpdateCoins false s' tx height) as [[undo sa] |] eqn:EU; [| done].
    destruct (append_cms tree_append t (tx_cms tx)) as [ta |]; [| done].
    destruct (connect_txs false tree_append sa ta false txs height) as [| | [[vu1 t1] sb]] eqn:E1; [done | done |].
    injection E as <- <- <-.
    destruct (connect_step s tx height true s' undo sa Ec eq_refl Hp Hh Hs Hu Hz EU) as ((Hsa & Hua & _ & Hza) & _).
    destruct (checks_read s tx s' Ec Hp Hs) as (Hs' & He' & Hnf). pose proof He' as [[Hc' Hn'] _]%state_eq_halves.
    assert (forall p, unspent (sabs s') p = unspent (sabs s) p) as Hus by (intros p; unfold unspent; by rewrite Hc').
    destruct (update_once s' tx height undo sa Hp Hs') as (Hnd1 & Hsp1 & Hmono1 & Hnull1);
      [by apply utxo_inv_eq with (sabs s) | by rewrite Hc' | exact EU |].
    apply spends_once_cons with (sabs sa); try done.
    + intros k Hk. apply list_elem_of_In, in_map_iff in Hk as (d & <- & Hd).
      rewrite List.Forall_forall in Hnf. by apply Hnf.
    + intros p Hq. rewrite <-Hus. by apply Hsp1.
    + intros p Hq. rewrite <-Hus. by apply Hmono1.
    + intros k. rewrite Hnull1. by rewrite Hn'.
    + apply (IH sa ta false vu1 t1 sb); try done. apply Forall_forall. intros x Hx. apply Hza.
      * intros Ex. apply Hh1. rewrite <-Ex. apply list_elem_of_In, in_map. by apply list_elem_of_In.
      * by apply (proj1 (Forall_forall _ _) Hzs).
Qed.

(** [PushAnchor] and [SetBestBlock] leave outputs and nullifiers. *)
Lemma block_once s b vu s' :
  block_plain b -> Forall (fun tx => NoDup (nullifiers_of tx)) (bl_txs b) -> sinv s -> utxo_inv (sabs s) ->
  connect_block false tree_append s b = Connected (vu, s') ->
  spends_once (sabs s) (sabs s') (bl_txs b).
Proof using HL aroot_set.
  intros Hb Hnn Hs Hu E.
  destruct (connect_block_inv s b vu s' Hs E) as (s0 & t & t' & s1 & Hs0 & He0 & _ & Hf & Et & ->).
  pose proof He0 as [Heu0 _]%state_eq_halves. destruct Hb as [Hplain Hnd Hcb Hh Hhash _].
  pose proof (utxo_inv_eq _ _ Heu0 Hu) as Hu0.
  destruct (connect_restore s0 t true (bl_txs b) (bl_height b) vu t' s1 Hplain Hnd Hh Hs0 Hu0 Hf (fun _ => Hcb) Et)
    as ((Hs1 & _) & _).
  pose proof (connect_once s0 t true _ _ vu t' s1 Hplain Hnd Hnn Hh Hs0 Hu0 Hf Et) as Ho.
  destruct (sl_push _ _ HL s1 t' Hs1 (aroot_set t')) as [Hsp Hep].
  destruct (sl_set_best _ _ HL (push_anchor s1 t') (bl_hash b) Hsp Hhash) as [_ Hec].
  assert (utxo_eq (sabs (set_best (push_anchor s1 t') (bl_hash b))) (sabs s1)) as [K1 K2].
  { apply state_eq_halves in Hec as [Hec _], Hep as [Hep _]. etransitivity; [exact Hec |].
    etransitivity; [exact Hep |]. unfold s_push. by case_decide. }
  destruct Heu0 as [L1 L2]. destruct Ho as [A1 A2 A3 A4 A5 A6].
  assert (forall p, unspent (sabs (set_best (push_anchor s1 t') (bl_hash b))) p = unspent (sabs s1) p) as U1
    by (intros p; unfold unspent; by rewrite K1).
  assert (forall p, unspent (sabs s0) p = unspent (sabs s) p) as U0 by (intros p; unfold unspent; by rewrite L1).
  split; [done | | | done | |].
  - intros p Hp. rewrite U1, <-U0. by apply A2.
  - intros p Hp. rewrite U1, <-U0. by apply A3.
  - intros k Hk. rewrite <-L2. by apply A5.
  - intros k. rewrite K2, <-L2. apply A6.
Qed.

(** *** The assertion of [UpdateCoins] *)

Lemma spend_one_total s h n :
  sinv s -> unspent (sabs s) (h, n) = true -> exists u s0, modify s h (spend_coin n) = (Some u, s0).
Proof using HL.
  intros Hs Hav. pose proof (sl_modify _ _ HL s h (spend_coin n) Hs (fun _ => respects_spend_coin n)) as HM.
  destruct (modify s h (spend_coin n)) as [r s0]. destruct HM as (_ & _ & ->).
  unfold unspent in Hav. cbn [fst snd] in Hav. destruct (s_coins (sabs s) h) as [c |]; [| done].
  cbn [default from_option id]. unfold IsAvailable in Hav. unfold spend_coin.
  destruct (vout c !! n) as [o |]; [| done]. apply negb_true_iff in Hav. rewrite Hav. cbn [snd]. eauto.
Qed.

Lemma spend_inputs_total s tx vin :
  sinv s -> utxo_inv (sabs s) -> NoDup (map outpoint vin) ->
  (forall p, p ∈ map outpoint vin -> unspent (sabs s) p = true) ->
  exists undos s1, spend_inputs false s tx vin = Some (undos, s1).
Proof using HL.
  revert s. induction vin as [| [h n] vin IH]; intros s Hs Hu Hnd Hav; cbn [spend_inputs]; [by eauto |].
  rewrite plain_pegs. cbn [andb map] in *. apply NoDup_cons in Hnd as [Hn Hnd].
  destruct (spend_one_total s h (Z.to_nat n) Hs) as (u & s0 & Em); [apply Hav; by left |].
  rewrite Em. cbn [mbind option_bind].
  destruct (spend_one s h _ u s0 Hs Hu Em) as (Hs0 & Hu0 & _).
  destruct (spend_one_unspent s h _ u s0 Hs Hu Em) as [_ Hafter].
  destruct (IH s0 Hs0 Hu0 Hnd) as (us & s1 & ->); [| cbn [mbind option_bind]; by eauto].
  intros p Hp. rewrite Hafter, Hav by (by right). cbn [andb]. rewrite bool_decide_eq_false_2; [done |].
  intros ->. done.
Qed.

Lemma update_total s tx height s' :
  sinv s -> utxo_inv (sabs s) -> NoDup (spent_by tx) -> HaveInputs false s tx = (true, s') ->
  exists undos s1, UpdateCoins false s' tx height = Some (undos, s1).
Proof using HL.
  intros Hs Hu Hnd E. unfold UpdateCoins, HaveInputs, spent_by in *. destruct (IsMint tx); cbn [negb] in *.
  - cbn [mbind option_bind]. eauto.
  - pose proof (have_inputs_spec s tx (tx_vin tx) 0 Hs) as Hi. rewrite E in Hi. destruct Hi as (Hs' & He' & Hb).
    apply state_eq_halves in He' as [He' _]. symmetry in Hb. rewrite forallb_forall in Hb.
    destruct (spend_inputs_total s' tx (tx_vin tx) Hs') as (us & s1 & ->); [| done | |].
    + by apply utxo_inv_eq with (sabs s).
    + intros p Hp. apply list_elem_of_In, in_map_iff in Hp as (q & <- & Hq). specialize (Hb q Hq).
      unfold available in Hb. unfold unspent, outpoint. cbn [fst snd]. by rewrite (proj1 He').
    + cbn [mbind option_bind]. eauto.
Qed.
End Roundtrip.

(** ** The theorems, for a cache over any view *)

(** [C11] Connecting a block on a coin cache and disconnecting it again with the
    undo data it produced succeeds, reports a clean result, and leaves exactly
    the unspent outputs, nullifiers, anchors, best block and best anchor there
    were before; whatever the cache stands on. *)
Theorem connect_disconnect_restores `{AnchorTree} {V : Type} `{!View V} (M : model V)
    (tree_append : atree -> uint256 -> option atree) (c c' : cache V) (b : block) (vtxundo : list (list txinundo)) :
  (forall s t : atree, aroot s = aroot t -> s = t) -> (forall t : atree, IsNull256 (aroot t) = false) ->
  lawful M -> cache_inv M c -> utxo_inv (cache_abs M c) -> block_plain b ->
  IsNull256 (s_best_anchor (cache_abs M c)) = false ->
  (s_best_anchor (cache_abs M c') <> s_best_anchor (cache_abs M c) ->
     s_anchor (cache_abs M c) (s_best_anchor (cache_abs M c')) = None) ->
  connect_block false tree_append c b = Connected (vtxundo, c') ->
  s_best (cache_abs M c') = bl_hash b /\
  exists c2, disconnect_block false c' b vtxundo (s_best_anchor (cache_abs M c)) = Some (true, c2) /\
    cache_inv M c2 /\ state_eq (cache_abs M c2) (cache_abs M c).
Proof.
  intros aroot_inj aroot_set HM Hi Hu Hb Hba Hanch E.
  destruct (block_restore (cache_store_lawful aroot_inj M HM) tree_append aroot_set c b vtxundo c' Hb Hi Hu Hanch Hba E)
    as ((_ & _ & Hbest) & Hback).
  by split.
Qed.

(** [C12] A block that connects spends no output twice and reveals no nullifier
    twice, neither within the block nor against the chain: the outputs it spends
    are distinct, each was unspent before or was created by the block, and none
    is left unspent; the nullifiers are distinct, none was known before, and all
    are known afterwards. *)
Theorem block_spends_once `{AnchorTree} {V : Type} `{!View V} (M : model V)
    (tree_append : atree -> uint256 -> option atree) (c c' : cache V) (b : block) (vtxundo : list (list txinundo)) :
  (forall s t : atree, aroot s = aroot t -> s = t) -> (forall t : atree, IsNull256 (aroot t) = false) ->
  lawful M -> cache_inv M c -> utxo_inv (cache_abs M c) -> block_plain b ->
  Forall (fun tx => NoDup (nullifiers_of tx)) (bl_txs b) ->
  connect_block false tree_append c b = Connected (vtxundo, c') ->
  spends_once (cache_abs M c) (cache_abs M c') (bl_txs b).
Proof.
  intros aroot_inj aroot_set HM Hi Hu Hb Hnn E.
  exact (block_once (cache_store_lawful aroot_inj M HM) tree_append aroot_set c b vtxundo c' Hb Hnn Hi Hu E).
Qed.

(** The assertion of [UpdateCoins] cannot fail once [HaveInputs] has
    answered yes for a transaction that does not name an output twice. *)
Theorem update_coins_never_asserts `{AnchorTree} {V : Type} `{!View V} (M : model V)
    (c c' : cache V) (tx : ctx) (height : Z) :
  (forall s t : atree, aroot s = aroot t -> s = t) -> lawful M -> cache_inv M c -> utxo_inv (cache_abs M c) ->
  NoDup (spent_by tx) -> HaveInputs false c tx = (true, c') ->
  is_Some (UpdateCoins false c' tx height).
Proof.
  intros aroot_inj HM Hi Hu Hnd E.
  destruct (update_total (cache_store_lawful aroot_inj M HM) c tx height c' Hi Hu Hnd E) as (us & s1 & ->). done.
Qed.

(** *** A concrete block *)

#[local] Existing Instance toy_tree.

Definition toy_append (t : atree) (cm : uint256) : option atree := Some (Z.add t 1).

Definition toy_db : db := Db {[ [7] := toy_coin 10 ]} ∅ ∅ (Some [8]) None.

Definition toy_coinbase : ctx := Ctx [20] [(replicate 32 0, 2 ^ 32 - 1)] [TxOut 50 [1]] 4 [] [].
Definition toy_payment : ctx := Ctx [21] [([7], 0)] [TxOut 9 [2]; TxOut 0 [0x6a]] 4 [Spend_ [3] [1; 0]] [[4]].
Definition toy_chained : ctx := Ctx [22] [([21], 0)] [TxOut 8 [2]] 4 [] [].
Definition toy_block : block := Block [9] [8] 100 [toy_coinbase; toy_payment; toy_chained] true [1; 1].

Definition toy_cache : cache db := new_cache toy_db.
Definition toy_connected : list (list txinundo) * cache db :=
  match connect_block false toy_append toy_cache toy_block with
  | Connected r => r
  | _ => ([], toy_cache)
  end.

Lemma toy_connects : connect_block false toy_append toy_cache toy_block = Connected (toy_connected.1, toy_connected.2).
Proof. vm_compute. reflexivity. Qed.

Lemma toy_plain : block_plain toy_block.
Proof.
  split.
  - unfold toy_block. cbn [bl_txs]. repeat constructor; try done; cbn; lia.
  - vm_compute. repeat constructor; set_solver.
  - by eexists _, _.
  - vm_compute. done.
  - reflexivity.
  - reflexivity.
Qed.

Lemma toy_inv : cache_inv db_model toy_cache /\ utxo_inv (cache_abs db_model toy_cache).
Proof.
  split.
  - apply (new_cache_inv db_model toy_db). split.
    + intros k x. cbn. intros [_ <-]%lookup_singleton_Some. done.
    + intros k x. cbn. by rewrite lookup_empty.
  - intros k x. cbn. rewrite lookup_empty. intros [_ <-]%lookup_singleton_Some.
    split; [| reflexivity]. split; [reflexivity |]. split; [by repeat constructor | cbn; lia].
Qed.

Lemma toy_anchors :
  (forall s t : atree, aroot s = aroot t -> s = t) /\ (forall t : atree, IsNull256 (aroot t) = false).
Proof. split; [by intros s t [= ->] | by intros t]. Qed.

Lemma connect_disconnect_restores_witness :
  s_best (cache_abs db_model toy_connected.2) = bl_hash toy_block /\
  exists c2, disconnect_block false toy_connected.2 toy_block toy_connected.1 [1; 0] = Some (true, c2) /\
    cache_inv db_model c2 /\ state_eq (cache_abs db_model c2) (cache_abs db_model toy_cache).
Proof.
  apply (connect_disconnect_restores db_model toy_append toy_cache toy_connected.2 toy_block toy_connected.1).
  - apply toy_anchors.
  - apply toy_anchors.
  - apply db_lawful, toy_anchors.
  - apply toy_inv.
  - apply toy_inv.
  - exact toy_plain.
  - reflexivity.
  - intros _. vm_compute. reflexivity.
  - exact toy_connects.
Defined.

Lemma block_spends_once_witness :
  spends_once (cache_abs db_model toy_cache) (cache_abs db_model toy_connected.2) (bl_txs toy_block).
Proof.
  apply (block_spends_once db_model toy_append toy_cache toy_connected.2 toy_block toy_connected.1).
  - apply toy_anchors.
  - apply toy_anchors.
  - apply db_lawful, toy_anchors.
  - apply toy_inv.
  - apply toy_inv.
  - exact toy_plain.
  - vm_compute. repeat constructor; set_solver.
  - exact toy_connects.
Defined.

Lemma update_coins_never_asserts_witness :
  is_Some (UpdateCoins false (HaveInputs false toy_cache toy_payment).2 toy_payment 100).
Proof.
  apply (update_coins_never_asserts db_model toy_cache (HaveInputs false toy_cache toy_payment).2 toy_payment 100).
  - apply toy_anchors.
  - apply db_lawful, toy_anchors.
  - apply toy_inv.
  - apply toy_inv.
  - vm_compute. repeat constructor; set_solver.
  - vm_compute. reflexivity.
Defined.

(** Where imports are enabled the tombstone of an import with further inputs is
    added when its block is connected and stays when it is disconnected. *)
Definition toy_import : ctx := Ctx [23] [([30], import_n); ([7], 0)] [TxOut 9 [2]] 4 [] [].

Example pegs_tombstone_stays :
  match UpdateCoins true toy_cache toy_import 100 with
  | Some (undo, c) =>
    match disconnect_tx true c toy_import undo 100 true with
    | Some (fClean, c) =>
      fClean = true /\ (HaveCoins toy_cache [30]).1 = false /\ (HaveCoins c [30]).1 = true
    | None => False
    end
  | None => False
  end.
Proof. vm_compute. done. Qed.
End Utxo.
