(* ===== verification/Compact.v ===== *)
(** * Compact encodings (src/src/serialize.h, compressor.h, compressor.cpp)

    Bytes are written to the end of a stream and read from its front; a reader
    fails when the stream ends early or when the source throws.  The file has the
    two encodings of integers, the compression of amounts and scripts, and the
    compressed form of an output. *)
From S2P Require Import Prelude Coins.
Local Open Scope Z_scope.

(** ** Readers *)

(** What is read and the rest of the stream; [None] is an exception. *)
Definition reader (A : Type) : Type := list Z -> option (A * list Z).

#[export] Instance reader_ret : MRet reader := fun A x s => Some (x, s).
#[export] Instance reader_bind : MBind reader := fun A B f r s => '(x, s) ← r s; f x s.

Definition throw {A} : reader A := fun _ => None.

(** [ser_readdata8]. *)
Definition read_byte : reader Z := fun s => match s with b :: s => Some (b, s) | [] => None end.
(** [s.read(p, n)] and [s.ignore(n)]. *)
Definition read_bytes (n : nat) : reader (list Z) :=
  fun s => if (n <=? length s)%nat then Some (take n s, drop n s) else None.
Definition ignore (n : nat) : reader unit :=
  fun s => if (n <=? length s)%nat then Some (tt, drop n s) else None.

(** Reading [bytes] gives [a], whatever follows. *)
Definition reads_as {A} (r : reader A) (bytes : list Z) (a : A) : Prop :=
  forall rest, r (bytes ++ rest) = Some (a, rest).

Lemma reads_as_ret {A} (a : A) : reads_as (mret a) [] a.
Proof. by intros rest. Qed.

Lemma reads_as_bind {A B} (r : reader A) (k : A -> reader B) b1 b2 a c :
  reads_as r b1 a -> reads_as (k a) b2 c -> reads_as (r ≫= k) (b1 ++ b2) c.
Proof.
  intros H1 H2 rest. rewrite <-app_assoc. unfold mbind at 1, reader_bind. rewrite H1. cbn [mbind option_bind].
  apply H2.
Qed.

(** The last reader of a sequence, followed by a pure step. *)
Lemma reads_as_map {A B} (r : reader A) (k : A -> reader B) b a c :
  reads_as r b a -> (forall s, k a s = Some (c, s)) -> reads_as (r ≫= k) b c.
Proof. intros H1 H2 rest. unfold mbind, reader_bind. rewrite H1. cbn [mbind option_bind]. apply H2. Qed.

Lemma reads_as_byte b : reads_as read_byte [b] b.
Proof. by intros rest. Qed.

Lemma reads_as_bytes l n : n = length l -> reads_as (read_bytes n) l l.
Proof.
  intros -> rest. unfold read_bytes. rewrite (proj2 (Nat.leb_le _ _)) by (rewrite length_app; lia).
  by rewrite take_app_length, drop_app_length.
Qed.

Create HintDb codec.
#[export] Hint Resolve reads_as_ret reads_as_byte reads_as_bytes : codec.

(** ** Compact sizes *)

Definition MAX_SIZE : Z := 0x02000000.

Definition WriteCompactSize (nSize : Z) : list Z :=
  if nSize <? 253 then [u8 nSize]
  else if nSize <=? 0xFFFF then 253 :: le_bytes 2 nSize
  else if nSize <=? 0xFFFFFFFF then 254 :: le_bytes 4 nSize
  else 255 :: le_bytes 8 nSize.

(** The bytes after the first one. *)
Definition read_size (chSize : Z) : reader Z :=
  if chSize <? 253 then mret chSize
  else if chSize =? 253 then
    l ← read_bytes 2; (if le_num l <? 253 then throw else mret (le_num l))
  else if chSize =? 254 then
    l ← read_bytes 4; (if le_num l <? 0x10000 then throw else mret (le_num l))
  else
    l ← read_bytes 8; (if le_num l <? 0x100000000 then throw else mret (le_num l)).

Definition ReadCompactSize (range_check : bool) : reader Z :=
  chSize ← read_byte;
  nSizeRet ← read_size chSize;
  if range_check && (MAX_SIZE <? nSizeRet) then throw else mret nSizeRet.

Lemma compact_size_reads n :
  0 <= n < 2 ^ 64 -> reads_as (ReadCompactSize false) (WriteCompactSize n) n.
Proof.
  intros Hn rest. unfold ReadCompactSize, read_size, WriteCompactSize.
  assert (forall k, 8 * Z.of_nat k < 65 -> n < 2 ^ (8 * Z.of_nat k) -> le_num (le_bytes k n) = n) as Hle.
  { intros k Hk Hlt. rewrite le_num_le_bytes. apply Z.mod_small. lia. }
  assert (forall k, read_bytes k (le_bytes k n ++ rest) = Some (le_bytes k n, rest)) as Hrd.
  { intros k. apply reads_as_bytes. by rewrite length_le_bytes. }
  destruct (Z.ltb_spec n 253) as [H1 | H1].
  - rewrite u8_id by (unfold byte_ok; lia). unfold mbind, reader_bind. cbn [read_byte app mbind option_bind].
    by rewrite (proj2 (Z.ltb_lt n 253)).
  - unfold mbind, reader_bind.
    destruct (Z.leb_spec n 0xFFFF) as [H2 | H2]; [| destruct (Z.leb_spec n 0xFFFFFFFF) as [H3 | H3]];
      cbn [read_byte app mbind option_bind Z.ltb Z.compare Pos.compare Pos.compare_cont Z.eqb Pos.eqb];
      rewrite Hrd; cbn [mbind option_bind]; rewrite Hle by lia;
      match goal with |- context [n <? ?k] => rewrite (proj2 (Z.ltb_ge n k)) by lia end; done.
Qed.

(** Only one sequence of bytes is read as a given size. *)
Lemma compact_size_unique s n rest :
  bytes_ok s -> ReadCompactSize false s = Some (n, rest) -> s = WriteCompactSize n ++ rest /\ 0 <= n < 2 ^ 64.
Proof.
  intros Hs. unfold ReadCompactSize, read_size, mbind, reader_bind. destruct s as [| ch s]; [done |].
  apply Forall_cons in Hs as [Hch Hs]. unfold byte_ok in Hch. cbn [read_byte mbind option_bind].
  assert (forall k lo, (k = 2 \/ k = 4 \/ k = 8)%nat ->
    ('(x, s0) ← read_bytes k s; (if le_num x <? lo then throw else mret (le_num x)) s0) = Some (n, rest) ->
    s = le_bytes k n ++ rest /\ lo <= n < 2 ^ (8 * Z.of_nat k)) as Hrd.
  { intros k lo Hk. unfold read_bytes. destruct (Nat.leb_spec k (length s)) as [Hle | Hle]; [| done].
    cbn [mbind option_bind]. destruct (Z.ltb_spec (le_num (take k s)) lo) as [Hlo | Hlo]; [done |].
    intros [= <- <-]. pose proof (bytes_ok_take k s Hs) as Hok.
    assert (length (take k s) = k) as Hlen by (rewrite length_take; lia).
    pose proof (le_bytes_le_num (take k s) Hok) as E. rewrite Hlen in E. rewrite E, take_drop.
    pose proof (le_num_bounds (take k s) Hok) as B. unfold Zlen in B. rewrite Hlen in B. split; [done | lia]. }
  assert (forall o : option (Z * list Z), ('(x, s0) ← o; (if false && (MAX_SIZE <? x) then throw else mret x) s0) = o) as Hid.
  { by intros [[x s0] |]. }
  destruct (Z.ltb_spec ch 253) as [H1 | H1]; [| destruct (Z.eqb_spec ch 253) as [-> | H2]; [| destruct (Z.eqb_spec ch 254) as [-> | H3]]];
    rewrite Hid.
  - intros [= <- <-]. unfold WriteCompactSize. rewrite (proj2 (Z.ltb_lt ch 253)) by lia.
    rewrite u8_id by done. split; [done | lia].
  - intros [-> B]%Hrd; [| tauto]. unfold WriteCompactSize. rewrite (proj2 (Z.ltb_ge n 253)), (proj2 (Z.leb_le n 0xFFFF)) by lia.
    split; [done | lia].
  - intros [-> B]%Hrd; [| tauto]. unfold WriteCompactSize.
    rewrite (proj2 (Z.ltb_ge n 253)), (proj2 (Z.leb_gt n 0xFFFF)), (proj2 (Z.leb_le n 0xFFFFFFFF)) by lia.
    split; [done | lia].
  - intros [-> B]%Hrd; [| tauto]. unfold WriteCompactSize.
    rewrite (proj2 (Z.ltb_ge n 253)), (proj2 (Z.leb_gt n 0xFFFF)), (proj2 (Z.leb_gt n 0xFFFFFFFF)) by lia.
    replace ch with 255 by lia. split; [done | lia].
Qed.

(** With the range check the same, up to [MAX_SIZE]. *)
Lemma compact_size_checked s :
  ReadCompactSize true s =
  ('(n, rest) ← ReadCompactSize false s; if MAX_SIZE <? n then None else Some (n, rest)).
Proof.
  unfold ReadCompactSize, mbind, reader_bind. destruct (read_byte s) as [[ch s1] |]; [| done]. cbn [mbind option_bind].
  destruct (read_size ch s1) as [[n s2] |]; [| done]. cbn [mbind option_bind andb].
  destruct (MAX_SIZE <? n) eqn:E; cbn [mret reader_ret mbind option_bind]; by rewrite ?E.
Qed.

(** ** Variable-length integers *)

(** The integer type [I] of the templates: its width and what a computation is
    reduced to. *)
Record int_type := IntType { it_width : Z; it_red : Z -> Z; it_max : Z }.
Definition uint32_t : int_type := IntType 32 u32 (2 ^ 32).
Definition uint64_t : int_type := IntType 64 u64 (2 ^ 64).
Definition int_t : int_type := IntType 32 s32 (2 ^ 31).

(** [unsigned char tmp[(sizeof(n)*8+6)/7]]. *)
Definition tmp_size (I : int_type) : nat := Z.to_nat ((it_width I + 6) / 7).

(** The loop that fills [tmp]; [room] is what is left of it, [None] a write
    behind its end.  The result is [tmp[len..]] in order. *)
Fixpoint varint_loop (room : nat) (first : bool) (n : Z) : option (list Z) :=
  match room with
  | O => None
  | S room =>
    let b := Z.lor (Z.land n 0x7F) (if first then 0x00 else 0x80) in
    if n <=? 0x7F then Some [b]
    else
      tmp ← varint_loop room false (Z.shiftr n 7 - 1);
      Some (b :: tmp)
  end.

(** The bytes are written last first. *)
Definition WriteVarInt (I : int_type) (n : Z) : option (list Z) :=
  tmp ← varint_loop (tmp_size I) true n;
  Some (rev tmp).

Fixpoint read_varint_loop (I : int_type) (n : Z) (s : list Z) : option (Z * list Z) :=
  match s with
  | [] => None
  | chData :: s =>
    let n := it_red I (Z.lor (Z.shiftl n 7) (Z.land chData 0x7F)) in
    if negb (Z.land chData 0x80 =? 0) then read_varint_loop I (it_red I (n + 1)) s
    else Some (n, s)
  end.
Definition ReadVarInt (I : int_type) : reader Z := read_varint_loop I 0.

(** Values of the type are not changed by the reduction. *)
Definition it_ok (I : int_type) : Prop :=
  0 <= it_width I /\ it_max I <= 2 ^ it_width I /\ forall x, 0 <= x < it_max I -> it_red I x = x.

Lemma uint32_ok : it_ok uint32_t.
Proof. split; [done |]. split; [done |]. intros x Hx. by apply u32_id. Qed.
Lemma uint64_ok : it_ok uint64_t.
Proof. split; [done |]. split; [done |]. intros x Hx. by apply u64_id. Qed.
Lemma int_ok : it_ok int_t.
Proof. split; [done |]. split; [done |]. cbn [it_max int_t it_red]. intros x Hx. apply s32_id. unfold is_s32. lia. Qed.

Lemma land_7F n : Z.land n 0x7F = n mod 128.
Proof. change 0x7F with (Z.ones 7). by rewrite Z.land_ones. Qed.

(** The flag bit does not disturb the digit. *)
Lemma digit_first d : 0 <= d < 128 -> Z.land (Z.lor d 0) 0x7F = d /\ Z.land (Z.lor d 0) 0x80 = 0.
Proof.
  intros Hd. rewrite Z.lor_0_r, land_7F, Z.mod_small by lia. split; [done |].
  apply Z.bits_inj'. intros i Hi. rewrite Z.land_spec, Z.bits_0.
  destruct (decide (i = 7)) as [-> | Hne].
  - rewrite (is_u_testbit 7 d 7); [done | lia | unfold is_u; lia | lia].
  - change 0x80 with (2 ^ 7). rewrite Z.pow2_bits_false by lia. by rewrite andb_false_r.
Qed.

Lemma digit_more d : 0 <= d < 128 -> Z.land (Z.lor d 0x80) 0x7F = d /\ Z.land (Z.lor d 0x80) 0x80 = 0x80.
Proof.
  intros Hd. rewrite !Z.land_lor_distr_l. change (Z.land 0x80 0x7F) with 0. rewrite Z.lor_0_r.
  destruct (digit_first d Hd) as [H1 H2]. rewrite Z.lor_0_r in H1, H2. rewrite H1, H2. done.
Qed.

Lemma shiftr_7 n : Z.shiftr n 7 = n / 128.
Proof. by rewrite Z.shiftr_div_pow2. Qed.

(** A digit joins the number read so far. *)
Lemma join_digit m d : 0 <= m -> 0 <= d < 128 -> Z.lor (Z.shiftl m 7) d = m * 128 + d.
Proof. intros Hm Hd. rewrite Z.shiftl_mul_pow2 by lia. change 128 with (2 ^ 7). by apply lor_add. Qed.

Section VarInt.
Context (I : int_type) (HI : it_ok I).

(** The digits in front of the last one. *)
Lemma varint_more room m tmp s :
  0 <= m -> m + 1 < it_max I -> varint_loop room false m = Some tmp ->
  read_varint_loop I 0 (rev tmp ++ s) = read_varint_loop I (m + 1) s.
Proof using HI.
  destruct HI as (_ & _ & Hred). revert m tmp s. induction room as [| room IH]; intros m tmp s Hm Hmax E; [done |].
  cbn [varint_loop] in E. rewrite land_7F in E. pose proof (Z.mod_pos_bound m 128 eq_refl) as Hd.
  destruct (digit_more _ Hd) as [D1 D2]. destruct (Z.leb_spec m 0x7F) as [Hle | Hgt].
  - injection E as <-. cbn [rev app read_varint_loop]. rewrite D1, D2. cbn [Z.eqb negb]. rewrite Z.shiftl_0_l, Z.lor_0_l.
    rewrite Z.mod_small by lia. rewrite (Hred m) by lia. by rewrite Hred by lia.
  - destruct (varint_loop room false (Z.shiftr m 7 - 1)) as [tmp' |] eqn:Et; [| done].
    cbn [mbind option_bind] in E. injection E as <-. cbn [rev]. rewrite <-app_assoc.
    rewrite shiftr_7 in Et. pose proof (Z.div_mod m 128 ltac:(lia)) as Hdm.
    assert (1 <= m / 128) by (apply Z.div_le_lower_bound; lia).
    rewrite (IH (m / 128 - 1) tmp') by (done || lia). cbn [app read_varint_loop].
    rewrite D1, D2. cbn [Z.eqb negb]. rewrite join_digit by lia.
    replace ((m / 128 - 1 + 1) * 128 + m mod 128) with m by lia. rewrite (Hred m) by lia. by rewrite Hred by lia.
Qed.

Lemma varint_reads n bytes :
  0 <= n < it_max I -> WriteVarInt I n = Some bytes -> reads_as (ReadVarInt I) bytes n.
Proof using HI.
  intros Hn E rest. unfold WriteVarInt in E. destruct (tmp_size I) as [| room]; [done |]. cbn [varint_loop] in E.
  rewrite land_7F in E. pose proof (Z.mod_pos_bound n 128 eq_refl) as Hd. destruct (digit_first _ Hd) as [D1 D2].
  unfold ReadVarInt. destruct HI as (_ & _ & Hred). destruct (Z.leb_spec n 0x7F) as [Hle | Hgt].
  - cbn [mbind option_bind rev app] in E. injection E as <-. cbn [app read_varint_loop]. rewrite D1, D2.
    cbn [Z.eqb negb]. rewrite Z.shiftl_0_l, Z.lor_0_l. rewrite Z.mod_small by lia. by rewrite Hred by lia.
  - destruct (varint_loop room false (Z.shiftr n 7 - 1)) as [tmp |] eqn:Et; [| done].
    cbn [mbind option_bind rev] in E. injection E as <-. rewrite shiftr_7 in Et.
    pose proof (Z.div_mod n 128 ltac:(lia)) as Hdm. assert (1 <= n / 128) by (apply Z.div_le_lower_bound; lia).
    rewrite <-app_assoc, (varint_more room (n / 128 - 1) tmp) by (done || lia). cbn [app read_varint_loop].
    rewrite D1, D2. cbn [Z.eqb negb]. rewrite join_digit by lia.
    replace ((n / 128 - 1 + 1) * 128 + n mod 128) with n by lia. by rewrite Hred by lia.
Qed.

(** The array is large enough. *)
Lemma varint_fits room first n :
  n < 128 ^ Z.of_nat room -> (0 < room)%nat -> exists tmp, varint_loop room first n = Some tmp /\ (length tmp <= room)%nat.
Proof using.
  revert first n. induction room as [| room IH]; intros first n Hn Hr; [lia |]. cbn [varint_loop].
  destruct (Z.leb_spec n 0x7F) as [Hle | Hgt]; [eexists; split; [done | cbn [length]; lia] |].
  rewrite shiftr_7. destruct room as [| room]; [change (128 ^ Z.of_nat 1) with 128 in Hn; lia |].
  assert (n / 128 < 128 ^ Z.of_nat (S room)) as Hlt.
  { apply Z.div_lt_upper_bound; [lia |]. rewrite (Nat2Z.inj_succ (S room)), Z.pow_succ_r in Hn by lia. lia. }
  destruct (IH false (n / 128 - 1) ltac:(lia) ltac:(lia)) as (tmp & -> & Hl). cbn [mbind option_bind].
  eexists. split; [done |]. cbn [length]. lia.
Qed.

Lemma WriteVarInt_total n :
  0 <= n < it_max I -> 0 < it_width I -> exists bytes, WriteVarInt I n = Some bytes /\ (length bytes <= tmp_size I)%nat.
Proof using HI.
  intros Hn Hw. destruct HI as (_ & Hmax & _). unfold WriteVarInt.
  pose proof (Z.div_mod (it_width I + 6) 7 ltac:(lia)) as Hdm.
  pose proof (Z.mod_pos_bound (it_width I + 6) 7 ltac:(lia)) as Hmb.
  assert (1 <= (it_width I + 6) / 7) by (apply Z.div_le_lower_bound; lia).
  destruct (varint_fits (tmp_size I) true n) as (tmp & -> & Hl).
  - unfold tmp_size. rewrite Z2Nat.id by lia. change 128 with (2 ^ 7). rewrite <-Z.pow_mul_r by lia.
    eapply Z.lt_le_trans; [| apply (Z.pow_le_mono_r 2 (it_width I)); lia]. lia.
  - unfold tmp_size. lia.
  - cbn [mbind option_bind]. eexists. split; [done |]. by rewrite length_rev.
Qed.
End VarInt.

(** ** Amounts *)

(** [while (((n % 10) == 0) && e < 9)]: [k] is [9 - e]. *)
Fixpoint amount_loop (k : nat) (n e : Z) : Z * Z :=
  match k with
  | O => (n, e)
  | S k => if n mod 10 =? 0 then amount_loop k (n / 10) (e + 1) else (n, e)
  end.

(** [None] is the failed assertion. *)
Definition CompressAmount (n : Z) : option Z :=
  if n =? 0 then Some 0
  else
    let '(n, e) := amount_loop 9 n 0 in
    if e <? 9 then
      let d := n mod 10 in
      if (1 <=? d) && (d <=? 9) then Some (u64 (1 + (n / 10 * 9 + d - 1) * 10 + e)) else None
    else Some (u64 (1 + (n - 1) * 10 + 9)).

(** [while (e)]. *)
Fixpoint scale (e : nat) (n : Z) : Z :=
  match e with
  | O => n
  | S e => scale e (u64 (n * 10))
  end.

Definition DecompressAmount (x : Z) : Z :=
  if x =? 0 then 0
  else
    let x := x - 1 in
    let e := x mod 10 in
    let x := x / 10 in
    let n := if e <? 9 then u64 (x / 9 * 10 + (x mod 9 + 1)) else u64 (x + 1) in
    scale (Z.to_nat e) n.

Lemma amount_loop_spec k n e n' e' :
  0 < n -> amount_loop k n e = (n', e') ->
  e <= e' <= e + Z.of_nat k /\ 0 < n' /\ n = n' * 10 ^ (e' - e) /\ (e' < e + Z.of_nat k -> n' mod 10 <> 0).
Proof.
  revert n e. induction k as [| k IH]; intros n e Hn E; cbn [amount_loop] in E.
  - injection E as <- <-. rewrite Z.sub_diag. lia.
  - pose proof (Z.div_mod n 10 ltac:(lia)) as Hdm. destruct (Z.eqb_spec (n mod 10) 0) as [Hz | Hz].
    + apply IH in E as (H1 & H2 & H3 & H4); [| lia]. split; [lia |]. split; [done |]. split; [| intros; apply H4; lia].
      replace (e' - e) with (Z.succ (e' - (e + 1))) by lia. rewrite Z.pow_succ_r by lia. lia.
    + injection E as <- <-. rewrite Z.sub_diag. lia.
Qed.

Lemma scale_spec e n : 0 <= n -> n * 10 ^ Z.of_nat e < 2 ^ 64 -> scale e n = n * 10 ^ Z.of_nat e.
Proof.
  revert n. induction e as [| e IH]; intros n Hn Hb; cbn [scale]; [lia |].
  rewrite Nat2Z.inj_succ, Z.pow_succ_r in * by lia. pose proof (Z.pow_pos_nonneg 10 (Z.of_nat e) ltac:(lia) ltac:(lia)).
  rewrite u64_id by (unfold is_u; nia). rewrite IH by nia. lia.
Qed.

(** Amounts below 2^60 come back; the money supply is far below. *)
Lemma amount_reads n :
  0 <= n < 2 ^ 60 -> exists c, CompressAmount n = Some c /\ 0 <= c < 2 ^ 64 /\ DecompressAmount c = n.
Proof.
  intros Hn. unfold CompressAmount. destruct (Z.eqb_spec n 0) as [-> | Hnz]; [by exists 0 |].
  destruct (amount_loop 9 n 0) as [n' e] eqn:E. apply amount_loop_spec in E as (He & Hn' & En & Hmod); [| lia].
  rewrite Z.sub_0_r in En. pose proof (Z.pow_pos_nonneg 10 e ltac:(lia) ltac:(lia)) as Hp.
  assert (n' <= n) as Hle by nia. pose proof (Z.div_mod n' 10 ltac:(lia)) as Hdm.
  pose proof (Z.mod_pos_bound n' 10 ltac:(lia)) as Hmb.
  destruct (Z.ltb_spec e 9) as [Hlt | Hge].
  - specialize (Hmod ltac:(lia)). rewrite (proj2 (Z.leb_le 1 _)), (proj2 (Z.leb_le _ 9)) by lia. cbn [andb].
    set (q := n' / 10) in *. set (d := n' mod 10) in *. rewrite u64_id by (unfold is_u; lia).
    eexists. split; [reflexivity |]. split; [lia |]. unfold DecompressAmount.
    rewrite (proj2 (Z.eqb_neq _ 0)) by lia. replace (1 + (q * 9 + d - 1) * 10 + e - 1) with (e + (q * 9 + d - 1) * 10) by lia.
    rewrite Z_mod_plus_full, (Z.mod_small e 10) by lia. rewrite Z.div_add, (Z.div_small e 10) by lia.
    rewrite (proj2 (Z.ltb_lt e 9)) by lia. replace (0 + (q * 9 + d - 1)) with ((d - 1) + q * 9) by lia.
    rewrite Z_mod_plus_full, (Z.mod_small (d - 1) 9) by lia. rewrite Z.div_add, (Z.div_small (d - 1) 9) by lia.
    replace ((0 + q) * 10 + (d - 1 + 1)) with n' by lia. rewrite u64_id by (unfold is_u; lia).
    rewrite scale_spec; rewrite ?Z2Nat.id by lia; lia.
  - assert (e = 9) as -> by lia. rewrite u64_id by (unfold is_u; lia).
    eexists. split; [reflexivity |]. split; [lia |]. unfold DecompressAmount.
    rewrite (proj2 (Z.eqb_neq _ 0)) by lia. replace (1 + (n' - 1) * 10 + 9 - 1) with (9 + (n' - 1) * 10) by lia.
    rewrite Z_mod_plus_full. change (9 mod 10) with 9. rewrite Z.div_add by lia. change (9 / 10) with 0.
    cbn [Z.ltb Z.compare Pos.compare Pos.compare_cont]. replace (0 + (n' - 1) + 1) with n' by lia.
    rewrite u64_id by (unfold is_u; lia). rewrite scale_spec; rewrite ?Z2Nat.id by lia; lia.
Qed.

(** ** Scripts *)

(** Public keys: [CPubKey::IsFullyValid] and [CPubKey::Decompress] ask the
    library secp256k1. *)
Class PubKeys := {
  IsFullyValid : list Z -> bool;
  PubKeyDecompress : list Z -> option (list Z)
}.

(** The point of a valid key is found again from its abscissa and the parity of
    its ordinate. *)
Class LawfulPubKeys `{PubKeys} : Prop :=
  decompress_valid (xy : list Z) : length xy = 64%nat -> IsFullyValid (4 :: xy) = true ->
    PubKeyDecompress ((2 + Z.land (rd xy 63) 1) :: take 32 xy) = Some (4 :: xy).

Definition nSpecialScripts : Z := 6.
Definition OP_DUP : Z := 0x76.
Definition OP_EQUAL : Z := 0x87.
Definition OP_EQUALVERIFY : Z := 0x88.
Definition OP_HASH160 : Z := 0xa9.
Definition OP_CHECKSIG : Z := 0xac.

Section Scripts.
Context `{PubKeys}.

(** The hash or key of the template, if the script matches. *)
Definition IsToKeyID (script : list Z) : option (list Z) :=
  if (length script =? 25)%nat && (rd script 0 =? OP_DUP) && (rd script 1 =? OP_HASH160) && (rd script 2 =? 20)
     && (rd script 23 =? OP_EQUALVERIFY) && (rd script 24 =? OP_CHECKSIG)
  then Some (take 20 (drop 3 script)) else None.

Definition IsToScriptID (script : list Z) : option (list Z) :=
  if (length script =? 23)%nat && (rd script 0 =? OP_HASH160) && (rd script 1 =? 20) && (rd script 22 =? OP_EQUAL)
  then Some (take 20 (drop 2 script)) else None.

Definition IsToPubKey (script : list Z) : option (list Z) :=
  if (length script =? 35)%nat && (rd script 0 =? 33) && (rd script 34 =? OP_CHECKSIG)
     && ((rd script 1 =? 2) || (rd script 1 =? 3))
  then Some (take 33 (drop 1 script))
  else if (length script =? 67)%nat && (rd script 0 =? 65) && (rd script 66 =? OP_CHECKSIG) && (rd script 1 =? 4)
  then
    let pubkey := take 65 (drop 1 script) in
    if IsFullyValid pubkey then Some pubkey else None
  else None.

Definition Compress (script : list Z) : option (list Z) :=
  match IsToKeyID script with
  | Some keyID => Some (0 :: keyID)
  | None =>
    match IsToScriptID script with
    | Some scriptID => Some (1 :: scriptID)
    | None =>
      match IsToPubKey script with
      | Some pubkey =>
        let body := take 32 (drop 1 pubkey) in
        if (rd pubkey 0 =? 2) || (rd pubkey 0 =? 3) then Some (rd pubkey 0 :: body)
        else if rd pubkey 0 =? 4 then Some (Z.lor 4 (Z.land (rd pubkey 64) 1) :: body)
        else None
      | None => None
      end
    end
  end.

Definition GetSpecialSize (nSize : Z) : nat :=
  if (nSize =? 0) || (nSize =? 1) then 20
  else if (nSize =? 2) || (nSize =? 3) || (nSize =? 4) || (nSize =? 5) then 32
  else 0.

(** [None]: the script is left as it was. *)
Definition Decompress (nSize : Z) (l : list Z) : option (list Z) :=
  if nSize =? 0 then Some ([OP_DUP; OP_HASH160; 20] ++ take 20 l ++ [OP_EQUALVERIFY; OP_CHECKSIG])
  else if nSize =? 1 then Some ([OP_HASH160; 20] ++ take 20 l ++ [OP_EQUAL])
  else if (nSize =? 2) || (nSize =? 3) then Some ([33; nSize] ++ take 32 l ++ [OP_CHECKSIG])
  else if (nSize =? 4) || (nSize =? 5) then
    pubkey ← PubKeyDecompress ((nSize - 2) :: take 32 l);
    Some ([65] ++ pubkey ++ [OP_CHECKSIG])
  else None.

(** [CScriptCompressor::Serialize]. *)
Definition write_script (script : list Z) : option (list Z) :=
  match Compress script with
  | Some compr => Some compr
  | None =>
    size ← WriteVarInt uint32_t (u32 (Zlen script + nSpecialScripts));
    Some (size ++ script)
  end.

(** [CScriptCompressor::Unserialize] into an empty script. *)
Definition read_script : reader (list Z) :=
  nSize ← ReadVarInt uint32_t;
  if nSize <? nSpecialScripts then
    vch ← read_bytes (GetSpecialSize nSize);
    mret (default [] (Decompress nSize vch))
  else
    let nSize := nSize - nSpecialScripts in
    if MAX_SCRIPT_SIZE <? nSize then
      _ ← ignore (Z.to_nat nSize);
      mret [OP_RETURN]
    else read_bytes (Z.to_nat nSize).

Lemma head_rd (l : list Z) k : (0 < length l)%nat -> rd l 0 = k -> l = k :: drop 1 l.
Proof using. destruct l as [| x l]; cbn [length]; [lia |]. by intros _ <-. Qed.

Lemma last_rd (l : list Z) n k : length l = (n + 1)%nat -> rd l n = k -> l = take n l ++ [k].
Proof using.
  intros Hl Hk. rewrite <-(take_drop n l) at 1. f_equal. destruct (drop n l) as [| x r] eqn:E.
  - apply (f_equal length) in E. rewrite length_drop in E. cbn [length] in E. lia.
  - assert (r = []) as ->.
    { apply (f_equal length) in E. rewrite length_drop in E. cbn [length] in E. destruct r; [done | cbn [length] in E; lia]. }
    rewrite <-Hk. unfold rd. rewrite <-(take_drop n l), E, app_nth2 by (rewrite length_take; lia).
    by rewrite length_take, Nat.min_l, Nat.sub_diag by lia.
Qed.

Lemma IsToKeyID_inv script h :
  IsToKeyID script = Some h -> length h = 20%nat /\ script = [OP_DUP; OP_HASH160; 20] ++ h ++ [OP_EQUALVERIFY; OP_CHECKSIG].
Proof using.
  unfold IsToKeyID. destruct (_ && _) eqn:E; [| done]. intros [= <-]. split_andb.
  do 25 (destruct script as [| ? script]; [done |]). destruct script; [| done].
  cbn [rd nth] in *. subst. done.
Qed.

Lemma IsToScriptID_inv script h :
  IsToScriptID script = Some h -> length h = 20%nat /\ script = [OP_HASH160; 20] ++ h ++ [OP_EQUAL].
Proof using.
  unfold IsToScriptID. destruct (_ && _) eqn:E; [| done]. intros [= <-]. split_andb.
  do 23 (destruct script as [| ? script]; [done |]). destruct script; [| done].
  cbn [rd nth] in *. subst. done.
Qed.

Lemma IsToPubKey_inv script pk :
  IsToPubKey script = Some pk ->
  (exists k x, (k = 2 \/ k = 3) /\ length x = 32%nat /\ pk = k :: x /\ script = [33; k] ++ x ++ [OP_CHECKSIG]) \/
  (exists xy, length xy = 64%nat /\ pk = 4 :: xy /\ IsFullyValid pk = true /\ script = [65] ++ pk ++ [OP_CHECKSIG]).
Proof using.
  unfold IsToPubKey. destruct (_ && _) eqn:E.
  - intros [= <-]. left. split_andb.
    destruct script as [| a [| b script]]; [done | done |]. cbn [rd nth length] in *. subst a.
    cbn [drop take] in *. change (take 33 (b :: script)) with (b :: take 32 script).
    exists b, (take 32 script). split; [| split; [rewrite length_take; lia | split; [done |]]].
    + match goal with E : _ || _ = true |- _ => apply orb_prop in E as [E%Z.eqb_eq | E%Z.eqb_eq] end; [by left | by right].
    + cbn [app]. do 2 f_equal. apply last_rd; [lia |]. done.
  - clear E. destruct (_ && _) eqn:E; [| done]. destruct (IsFullyValid _) eqn:Ev; [| done]. intros [= <-].
    right. split_andb. destruct script as [| a [| b script]]; [done | done |]. cbn [rd nth length] in *. subst a b.
    cbn [drop take] in *. change (take 65 (4 :: script)) with (4 :: take 64 script) in *.
    exists (take 64 script). split; [rewrite length_take; lia |]. split; [done |]. split; [done |].
    cbn [app]. do 2 f_equal. apply last_rd; [lia |]. done.
Qed.

Lemma Decompress_key b xy pk :
  b = 0 \/ b = 1 -> PubKeyDecompress ((2 + b) :: take 32 xy) = Some pk ->
  Decompress (Z.lor 4 b) (take 32 xy) = Some ([65] ++ pk ++ [OP_CHECKSIG]).
Proof using.
  intros [-> | ->] E; unfold Decompress.
  - change (Z.lor 4 0) with 4. cbn [Z.eqb Pos.eqb orb]. change (4 - 2) with (2 + 0).
    rewrite take_take. cbn [Nat.min]. by rewrite E.
  - change (Z.lor 4 1) with 5. cbn [Z.eqb Pos.eqb orb]. change (5 - 2) with (2 + 1).
    rewrite take_take. cbn [Nat.min]. by rewrite E.
Qed.

Lemma land_1 x : Z.land x 1 = 0 \/ Z.land x 1 = 1.
Proof using.
  pose proof (Z.land_ones x 1 ltac:(lia)) as E. change (Z.ones 1) with 1 in E. rewrite E.
  pose proof (Z.mod_pos_bound x (2 ^ 1) eq_refl). lia.
Qed.

Context {HP : LawfulPubKeys}.

Lemma script_reads script bytes :
  Zlen script <= MAX_SCRIPT_SIZE -> write_script script = Some bytes -> reads_as read_script bytes script.
Proof using HP.
  intros Hl E. unfold write_script in E. unfold read_script. destruct (Compress script) as [compr |] eqn:Ec.
  - injection E as <-.
    assert (exists k body, compr = k :: body /\ 0 <= k < 6 /\ length body = GetSpecialSize k /\
      default [] (Decompress k body) = script) as (k & body & -> & Hk & Hb & Hd).
    { unfold Compress in Ec. destruct (IsToKeyID script) as [h |] eqn:E1; [| destruct (IsToScriptID script) as [h |] eqn:E2;
        [| destruct (IsToPubKey script) as [pk |] eqn:E3; [| done]]].
      - injection Ec as <-. apply IsToKeyID_inv in E1 as [H1 ->]. exists 0, h. do 3 (split; [done |]).
        cbn [Decompress Z.eqb default from_option id]. by rewrite take_ge by lia.
      - injection Ec as <-. apply IsToScriptID_inv in E2 as [H1 ->]. exists 1, h. do 3 (split; [done |]).
        cbn [Decompress Z.eqb default from_option id]. by rewrite take_ge by lia.
      - apply IsToPubKey_inv in E3 as [(k & x & Hh & Hx & -> & ->) | (xy & Hxy & -> & Hv & ->)];
          cbn [rd nth drop] in Ec; change (drop 0 ?l) with l in Ec.
        + rewrite take_ge in Ec by lia. exists k, x. destruct Hh as [-> | ->]; cbn [Z.eqb Pos.eqb orb] in Ec;
            injection Ec as <-; do 3 (split; [done |]); cbn [Decompress Z.eqb Pos.eqb orb default from_option id];
            by rewrite take_ge by lia.
        + cbn [Z.eqb Pos.eqb orb] in Ec. injection Ec as <-. pose proof (decompress_valid xy Hxy Hv) as Hdec.
          change (nth 63 xy 0) with (rd xy 63).
          exists (Z.lor 4 (Z.land (rd xy 63) 1)), (take 32 xy). split; [done |].
          rewrite (Decompress_key _ xy _ (land_1 _) Hdec). cbn [default from_option id].
          split; [by destruct (land_1 (rd xy 63)) as [-> | ->] |]. split; [| done].
          rewrite length_take, Nat.min_l by lia. by destruct (land_1 (rd xy 63)) as [-> | ->]. }
    rewrite <-Hd. intros rest. unfold mbind, reader_bind. cbn [app].
    assert (ReadVarInt uint32_t (k :: body ++ rest) = Some (k, body ++ rest)) as ->.
    { apply (varint_reads uint32_t uint32_ok k [k]); [cbn [it_max uint32_t]; lia |].
      unfold WriteVarInt. change (tmp_size uint32_t) with 5%nat. cbn [varint_loop]. rewrite land_7F.
      rewrite (proj2 (Z.leb_le k 0x7F)), Z.mod_small, Z.lor_0_r by lia. done. }
    cbn [mbind option_bind]. rewrite (proj2 (Z.ltb_lt k nSpecialScripts)) by (unfold nSpecialScripts; lia).
    rewrite (reads_as_bytes body _ (eq_sym Hb) rest). done.
  - pose proof (Zlen_nonneg script) as Hnn. unfold MAX_SCRIPT_SIZE in Hl. unfold nSpecialScripts in E.
    rewrite u32_id in E by (unfold is_u; lia).
    destruct (WriteVarInt uint32_t (Zlen script + 6)) as [size |] eqn:Es; [| done]. cbn [mbind option_bind] in E.
    injection E as <-. eapply reads_as_bind.
    { apply (varint_reads uint32_t uint32_ok (Zlen script + 6)); [cbn [it_max uint32_t]; lia | done]. }
    unfold nSpecialScripts, MAX_SCRIPT_SIZE. rewrite (proj2 (Z.ltb_ge _ 6)) by lia.
    replace (Zlen script + 6 - 6) with (Zlen script) by lia. rewrite (proj2 (Z.ltb_ge _ (Zlen script))) by lia.
    apply reads_as_bytes. unfold Zlen. lia.
Qed.

(** Every script of the allowed length can be written. *)
Lemma write_script_total script :
  Zlen script <= MAX_SCRIPT_SIZE -> exists bytes, write_script script = Some bytes.
Proof using.
  intros Hl. unfold write_script. destruct (Compress script); [by eauto |]. pose proof (Zlen_nonneg script).
  unfold MAX_SCRIPT_SIZE, nSpecialScripts in *. rewrite u32_id by (unfold is_u; lia).
  destruct (WriteVarInt_total uint32_t uint32_ok (Zlen script + 6)) as (bytes & -> & _);
    [cbn [it_max uint32_t]; lia | done |]. cbn [mbind option_bind]. eauto.
Qed.

(** ** Outputs *)

(** [CTxOutCompressor]. *)
Definition write_txout (o : txout) : option (list Z) :=
  nVal ← CompressAmount (u64 (nValue o));
  amount ← WriteVarInt uint64_t nVal;
  script ← write_script (scriptPubKey o);
  Some (amount ++ script).

Definition read_txout : reader txout :=
  nVal ← ReadVarInt uint64_t;
  script ← read_script;
  mret (TxOut (s64 (DecompressAmount nVal)) script).

Definition txout_ok (o : txout) : Prop :=
  0 <= nValue o < 2 ^ 60 /\ Zlen (scriptPubKey o) <= MAX_SCRIPT_SIZE.

Lemma txout_reads o :
  txout_ok o -> exists bytes, write_txout o = Some bytes /\ reads_as read_txout bytes o.
Proof using HP.
  intros [Hv Hs]. unfold write_txout. rewrite u64_id by (unfold is_u; lia).
  destruct (amount_reads (nValue o) Hv) as (c & -> & Hc & Hd). cbn [mbind option_bind].
  destruct (WriteVarInt_total uint64_t uint64_ok c) as (amount & Ea & _); [done | done |].
  destruct (write_script_total (scriptPubKey o) Hs) as (script & Es). rewrite Ea, Es. cbn [mbind option_bind].
  eexists. split; [done |]. eapply reads_as_bind; [by apply (varint_reads uint64_t uint64_ok c) |].
  eapply reads_as_map; [by apply script_reads |]. intros s. rewrite Hd, s64_id by (unfold is_s64; lia).
  by destruct o.
Qed.
End Scripts.

(** ** The theorems *)

(** A compact size has exactly one encoding: the reader accepts a sequence
    of bytes as the number [n] if and only if it starts with what the writer
    produces for [n] and [n] is at most [MAX_SIZE]; every longer form is
    refused. *)
Theorem compact_size_canonical (s rest : list Z) (n : Z) :
  bytes_ok s ->
  ReadCompactSize true s = Some (n, rest) <-> s = WriteCompactSize n ++ rest /\ 0 <= n <= MAX_SIZE.
Proof.
  intros Hs. rewrite compact_size_checked. unfold MAX_SIZE. split.
  - destruct (ReadCompactSize false s) as [[m r] |] eqn:E; [| done]. cbn [mbind option_bind].
    destruct (Z.ltb_spec 0x02000000 m) as [Hm | Hm]; [done |]. intros [= <- <-].
    destruct (compact_size_unique s m r Hs E) as [-> Hr]. split; [done | lia].
  - intros [-> Hn]. rewrite (compact_size_reads n) by lia. cbn [mbind option_bind].
    by rewrite (proj2 (Z.ltb_ge _ n)) by lia.
Qed.

Lemma compact_size_canonical_witness :
  ReadCompactSize true [253; 0; 1; 7] = Some (256, [7]) /\ ReadCompactSize true [253; 5; 0] <> Some (5, []).
Proof.
  split.
  - apply (compact_size_canonical [253; 0; 1; 7] [7] 256); [repeat (constructor; [unfold byte_ok; lia |]); constructor |].
    split; [reflexivity | unfold MAX_SIZE; lia].
  - intros E. apply (compact_size_canonical [253; 5; 0] [] 5) in E as [E _]; [discriminate E |].
    repeat (constructor; [unfold byte_ok; lia |]); constructor.
Defined.

(** Variable-length integers round trip for each integer type that is
    written this way: the bytes fit into the local array, and reading them gives
    the number back, whatever follows. *)
Theorem varint_round_trip (I : int_type) (n : Z) :
  I ∈ [uint32_t; uint64_t; int_t] -> 0 <= n < it_max I ->
  exists bytes, WriteVarInt I n = Some bytes /\ (length bytes <= tmp_size I)%nat /\ reads_as (ReadVarInt I) bytes n.
Proof.
  intros HI Hn. assert (it_ok I /\ 0 < it_width I) as [Hok Hw].
  { rewrite !elem_of_cons, elem_of_nil in HI. destruct HI as [-> | [-> | [-> | []]]]; (split; [| done]);
      [exact uint32_ok | exact uint64_ok | exact int_ok]. }
  destruct (WriteVarInt_total I Hok n Hn Hw) as (bytes & E & Hl). exists bytes. split; [done |]. split; [done |].
  by apply varint_reads.
Qed.

Lemma varint_round_trip_witness :
  exists bytes, WriteVarInt uint32_t 65535 = Some bytes /\ (length bytes <= 5)%nat /\
    reads_as (ReadVarInt uint32_t) bytes 65535.
Proof. apply (varint_round_trip uint32_t 65535); [by left | cbn; lia]. Defined.

(** The comment on the format says that every integer has exactly one encoding.
    The reader does not check for overflow, so it has more. *)
Example varint_two_encodings :
  ReadVarInt uint32_t [0x05] = Some (5, []) /\ ReadVarInt uint32_t [0x8E; 0xFE; 0xFE; 0xFF; 0x05] = Some (5, []).
Proof. done. Qed.

(** A negative [int] is cut to its low seven bits. *)
Example varint_negative : WriteVarInt int_t (-1) = Some [0x7F] /\ ReadVarInt int_t [0x7F] = Some (127, []).
Proof. done. Qed.
