(* ===== verification/CoinsCodec.v ===== *)
(** * Coins and undo data on disk (src/src/coins.h, coins.cpp, undo.h)

    [CCoins] writes which outputs are unspent as a bit mask, then those outputs
    in compressed form; [CTxInUndo], [CTxUndo] and [CBlockUndo] are the undo
    files. *)
From S2P Require Import Prelude Coins Utxo Compact.
Local Open Scope Z_scope.
Import Utxo.

(** ** [class CCoins] *)

(** [i < vout.size() && !vout[i].IsNull()]. *)
Definition avail_at (v : list txout) (i : nat) : bool :=
  match v !! i with Some o => negb (IsNull o) | None => false end.

Definition mask_used (v : list txout) (b : nat) : bool :=
  existsb (fun i => avail_at v (2 + b * 8 + i)) (seq 0 8).

(** The number of [b] with [2+b*8 < vout.size()]. *)
Definition mask_count (v : list txout) : nat := ((length v + 5) / 8)%nat.

(** [CalcMaskSize]: [nBytes] and [nNonzeroBytes]. *)
Definition CalcMaskSize (v : list txout) : nat * nat :=
  foldl (fun '(nLastUsedByte, nNonzeroBytes) b =>
           if mask_used v b then ((b + 1)%nat, (nNonzeroBytes + 1)%nat) else (nLastUsedByte, nNonzeroBytes))
    (0%nat, 0%nat) (seq 0 (mask_count v)).

Definition mask_byte (v : list txout) (b : nat) : Z :=
  foldl (fun chAvail i => if avail_at v (2 + b * 8 + i) then Z.lor chAvail (Z.shiftl 1 (Z.of_nat i)) else chAvail)
    0 (seq 0 8).

Definition nCode_of (c : coins) (nMaskCode : nat) : Z :=
  let fFirst := avail_at (vout c) 0 in
  let fSecond := avail_at (vout c) 1 in
  u32 (8 * (Z.of_nat nMaskCode - (if fFirst || fSecond then 0 else 1)) + (if fCoinBase c then 1 else 0)
       + (if fFirst then 2 else 0) + (if fSecond then 4 else 0)).

Section Codec.
Context `{PubKeys}.

Fixpoint write_outs (v : list txout) : option (list Z) :=
  match v with
  | [] => Some []
  | o :: v =>
    if IsNull o then write_outs v
    else
      out ← write_txout o;
      outs ← write_outs v;
      Some (out ++ outs)
  end.

(** [CCoins::Serialize]; [None] is the assertion that some output is left. *)
Definition write_coins (c : coins) : option (list Z) :=
  let '(nMaskSize, nMaskCode) := CalcMaskSize (vout c) in
  if negb (avail_at (vout c) 0 || avail_at (vout c) 1 || negb (nMaskCode =? 0)%nat) then None
  else
    version ← WriteVarInt int_t (nVersion c);
    code ← WriteVarInt uint32_t (nCode_of c nMaskCode);
    let mask := map (mask_byte (vout c)) (seq 0 nMaskSize) in
    outs ← write_outs (vout c);
    height ← WriteVarInt int_t (nHeight c);
    Some (version ++ code ++ mask ++ outs ++ height).

Definition mask_bits (chAvail : Z) : list bool :=
  map (fun p => negb (Z.land chAvail (Z.shiftl 1 (Z.of_nat p)) =? 0)) (seq 0 8).

(** [while (nMaskCode > 0)]: what is pushed to [vAvail]. *)
Fixpoint read_mask_loop (s : list Z) (nMaskCode : Z) : option (list bool * list Z) :=
  if nMaskCode =? 0 then Some ([], s)
  else
    match s with
    | [] => None
    | chAvail :: s =>
      '(l, s) ← read_mask_loop s (if negb (chAvail =? 0) then nMaskCode - 1 else nMaskCode);
      Some (mask_bits chAvail ++ l, s)
    end.
Definition read_mask (nMaskCode : Z) : reader (list bool) := fun s => read_mask_loop s nMaskCode.

Fixpoint read_outs (vAvail : list bool) : reader (list txout) :=
  match vAvail with
  | [] => mret []
  | a :: vAvail =>
    o ← (if a then read_txout else mret SetNull);
    outs ← read_outs vAvail;
    mret (o :: outs)
  end.

(** [CCoins::Unserialize]. *)
Definition read_coins : reader coins :=
  version ← ReadVarInt int_t;
  nCode ← ReadVarInt uint32_t;
  let fCoinBase := negb (Z.land nCode 1 =? 0) in
  let vAvail := [negb (Z.land nCode 2 =? 0); negb (Z.land nCode 4 =? 0)] in
  let nMaskCode := nCode / 8 + (if negb (Z.land nCode 6 =? 0) then 0 else 1) in
  mask ← read_mask nMaskCode;
  outs ← read_outs (vAvail ++ mask);
  height ← ReadVarInt int_t;
  mret (Cleanup (Coins fCoinBase outs height version)).

(** ** Undo data *)

(** [CTxInUndo]. *)
Definition write_txinundo (u : txinundo) : option (list Z) :=
  code ← WriteVarInt uint32_t (u32 (u_nHeight u * 2 + (if u_fCoinBase u then 1 else 0)));
  version ← (if 0 <? u_nHeight u then WriteVarInt int_t (u_nVersion u) else Some []);
  out ← write_txout (u_txout u);
  Some (code ++ version ++ out).

Definition read_txinundo : reader txinundo :=
  nCode ← ReadVarInt uint32_t;
  let height := nCode / 2 in
  let cb := negb (Z.land nCode 1 =? 0) in
  version ← (if 0 <? height then ReadVarInt int_t else mret 0);
  out ← read_txout;
  mret (TxInUndo out cb height version).

(** Vectors: the number of elements, then the elements. *)
Fixpoint write_all {A} (w : A -> option (list Z)) (l : list A) : option (list Z) :=
  match l with
  | [] => Some []
  | x :: l =>
    b ← w x;
    bs ← write_all w l;
    Some (b ++ bs)
  end.
Definition write_vector {A} (w : A -> option (list Z)) (v : list A) : option (list Z) :=
  body ← write_all w v;
  Some (WriteCompactSize (Zlen v) ++ body).

Fixpoint read_n {A} (r : reader A) (n : nat) : reader (list A) :=
  match n with
  | O => mret []
  | S n => x ← r; l ← read_n r n; mret (x :: l)
  end.
Definition read_vector {A} (r : reader A) : reader (list A) :=
  nSize ← ReadCompactSize true;
  read_n r (Z.to_nat nSize).

(** [CTxUndo] is a vector of [CTxInUndo]; [CBlockUndo] a vector of those and the
    Sprout root. *)
Definition write_blockundo (b : list (list txinundo) * list Z) : option (list Z) :=
  body ← write_vector (write_vector write_txinundo) b.1;
  Some (body ++ b.2).
Definition read_blockundo : reader (list (list txinundo) * list Z) :=
  vtxundo ← read_vector (read_vector read_txinundo);
  root ← read_bytes 32;
  mret (vtxundo, root).
End Codec.

(** ** The mask *)

Lemma mask_bits_byte v b : mask_bits (mask_byte v b) = map (fun i => avail_at v (2 + b * 8 + i)) (seq 0 8).
Proof.
  unfold mask_bits, mask_byte. cbn [seq foldl map].
  generalize (avail_at v (2 + b * 8 + 0)) (avail_at v (2 + b * 8 + 1)) (avail_at v (2 + b * 8 + 2))
    (avail_at v (2 + b * 8 + 3)) (avail_at v (2 + b * 8 + 4)) (avail_at v (2 + b * 8 + 5))
    (avail_at v (2 + b * 8 + 6)) (avail_at v (2 + b * 8 + 7)).
  intros [] [] [] [] [] [] [] []; reflexivity.
Qed.

Lemma mask_byte_used v b : negb (mask_byte v b =? 0) = mask_used v b.
Proof.
  unfold mask_used, mask_byte. cbn [seq foldl existsb].
  generalize (avail_at v (2 + b * 8 + 0)) (avail_at v (2 + b * 8 + 1)) (avail_at v (2 + b * 8 + 2))
    (avail_at v (2 + b * 8 + 3)) (avail_at v (2 + b * 8 + 4)) (avail_at v (2 + b * 8 + 5))
    (avail_at v (2 + b * 8 + 6)) (avail_at v (2 + b * 8 + 7)).
  intros [] [] [] [] [] [] [] []; reflexivity.
Qed.

(** How many of the first bytes are used. *)
Definition used_count (v : list txout) (n : nat) : nat := length (List.filter (mask_used v) (seq 0 n)).

Lemma used_count_S v n : used_count v (S n) = (used_count v n + (if mask_used v n then 1 else 0))%nat.
Proof.
  unfold used_count. rewrite seq_S, List.filter_app, length_app. cbn [List.filter Nat.add].
  by destruct (mask_used v n).
Qed.

Record mask_spec (v : list txout) (m last nz : nat) : Prop := {
  ms_le : (last <= m)%nat;
  ms_count : nz = used_count v last;
  ms_last : last = 0%nat \/ mask_used v (last - 1) = true;
  ms_rest b : (last <= b < m)%nat -> mask_used v b = false
}.

Lemma used_count_rest v last k : (forall b, (last <= b < last + k)%nat -> mask_used v b = false) ->
  used_count v (last + k) = used_count v last.
Proof.
  induction k as [| k IH]; intros Hb; [by rewrite Nat.add_0_r |]. rewrite Nat.add_succ_r, used_count_S.
  rewrite Hb by lia. rewrite IH; [lia |]. intros b ?. apply Hb. lia.
Qed.

Lemma mask_loop_spec v m :
  let '(last, nz) := foldl (fun '(nLastUsedByte, nNonzeroBytes) b =>
      if mask_used v b then ((b + 1)%nat, (nNonzeroBytes + 1)%nat) else (nLastUsedByte, nNonzeroBytes))
    (0%nat, 0%nat) (seq 0 m) in mask_spec v m last nz.
Proof.
  induction m as [| m IH]; [split; [done | done | by left | lia] |].
  rewrite seq_S, foldl_app. destruct (foldl _ _ (seq 0 m)) as [last nz]. destruct IH as [H1 H2 H3 H4].
  cbn [foldl Nat.add]. destruct (mask_used v m) eqn:E.
  - split; [lia | | right; by replace (m + 1 - 1)%nat with m by lia | lia].
    rewrite (Nat.add_1_r m), used_count_S, E. f_equal. rewrite H2. symmetry.
    replace m with (last + (m - last))%nat at 1 by lia. apply used_count_rest. intros b ?. apply H4. lia.
  - split; [lia | done | done |]. intros b Hb. destruct (decide (b = m)) as [-> | ?]; [done |]. apply H4. lia.
Qed.

Lemma CalcMaskSize_spec v : let '(last, nz) := CalcMaskSize v in mask_spec v (mask_count v) last nz.
Proof. apply mask_loop_spec. Qed.

(** *** Reading the mask back *)

Definition nonzero_count (l : list Z) : Z := Zlen (List.filter (fun ch => negb (ch =? 0)) l).

Lemma nonzero_count_cons ch l : nonzero_count (ch :: l) = nonzero_count l + (if negb (ch =? 0) then 1 else 0).
Proof. unfold nonzero_count, Zlen. cbn [List.filter]. destruct (negb (ch =? 0)); cbn [length]; lia. Qed.

Lemma nonzero_count_pos l x : last l = Some x -> x <> 0 -> 0 < nonzero_count l.
Proof.
  intros Hl Hx. induction l as [| ch l IH]; [done |]. rewrite nonzero_count_cons.
  destruct l as [| ch' l].
  - injection Hl as ->. rewrite (proj2 (Z.eqb_neq x 0)) by done. by vm_compute.
  - specialize (IH Hl). destruct (negb (ch =? 0)); lia.
Qed.

Lemma read_mask_reads l :
  (forall x, last l = Some x -> x <> 0) -> reads_as (read_mask (nonzero_count l)) l (concat (map mask_bits l)).
Proof.
  induction l as [| ch l IH]; intros Hl rest; unfold read_mask; cbn [app map concat].
  - by destruct rest.
  - assert (0 < nonzero_count (ch :: l)) as Hpos.
    { destruct (last (ch :: l)) as [x |] eqn:E; [by eapply nonzero_count_pos, Hl |]. by apply last_None in E. }
    cbn [read_mask_loop]. rewrite (proj2 (Z.eqb_neq _ 0)) by lia. rewrite nonzero_count_cons.
    replace (if negb (ch =? 0) then _ else _) with (nonzero_count l) by (destruct (negb (ch =? 0)); lia).
    unfold reads_as, read_mask in IH. rewrite IH; [done |].
    intros x Hx. apply Hl. by destruct l.
Qed.

Lemma concat_mask v n :
  concat (map mask_bits (map (mask_byte v) (seq 0 n))) = map (fun i => avail_at v (2 + i)) (seq 0 (8 * n)).
Proof.
  induction n as [| n IH]; [done |]. rewrite seq_S, !map_app, concat_app, IH.
  replace (8 * S n)%nat with (8 * n + 8)%nat by lia. rewrite seq_app, map_app. f_equal.
  cbn [map concat Nat.add]. rewrite app_nil_r, mask_bits_byte. cbn [seq map].
  repeat (apply (f_equal2 cons); [apply (f_equal (avail_at v)); lia |]). reflexivity.
Qed.

Lemma count_mask v n :
  nonzero_count (map (mask_byte v) (seq 0 n)) = Z.of_nat (used_count v n).
Proof.
  unfold nonzero_count, used_count, Zlen. f_equal. induction n as [| n IH]; [done |].
  rewrite seq_S, map_app, !List.filter_app, !length_app, IH. f_equal. cbn [map List.filter Nat.add].
  rewrite mask_byte_used. by destruct (mask_used v n).
Qed.

(** ** Round trips *)

Lemma land_low k c m : 0 <= c < 8 -> Z.land 7 m = m -> Z.land (8 * k + c) m = Z.land c m.
Proof.
  intros Hc Hm. rewrite <-Hm, !Z.land_assoc. change 7 with (Z.ones 3). rewrite !Z.land_ones by lia.
  change (2 ^ 3) with 8. rewrite Z.add_comm, Z.mul_comm, Z_mod_plus_full. done.
Qed.

(** The header code and its fields. *)
Lemma code_fields k (cb a b : bool) :
  let n := 8 * k + (if cb then 1 else 0) + (if a then 2 else 0) + (if b then 4 else 0) in
  negb (Z.land n 1 =? 0) = cb /\ negb (Z.land n 2 =? 0) = a /\ negb (Z.land n 4 =? 0) = b /\
  negb (Z.land n 6 =? 0) = a || b /\ n / 8 = k.
Proof.
  intros n. set (c := (if cb then 1 else 0) + (if a then 2 else 0) + (if b then 4 else 0)).
  assert (0 <= c < 8) as Hc by (unfold c; destruct cb, a, b; lia).
  assert (n = 8 * k + c) as -> by (unfold n, c; lia).
  rewrite !land_low by (done || lia). replace ((8 * k + c) / 8) with k.
  - unfold c. by destruct cb, a, b.
  - rewrite Z.add_comm, Z.mul_comm, Z.div_add, Z.div_small by lia. done.
Qed.

Section RoundTrip.
Context `{PubKeys} {HP : LawfulPubKeys}.

(** The outputs that are not null are written, the others are cleared ones. *)
Definition outs_ok (v : list txout) : Prop :=
  nulls_cleared v /\ Forall (fun o => IsNull o = false -> txout_ok o) v.

Lemma outs_reads v k :
  outs_ok v -> exists bytes, write_outs v = Some bytes /\
    reads_as (read_outs (map (fun o => negb (IsNull o)) v ++ replicate k false)) bytes (v ++ replicate k SetNull).
Proof using HP.
  intros [Hn Hok]. induction v as [| o v IH]; cbn [write_outs map app].
  - exists []. split; [done |]. clear. induction k as [| k IH]; cbn [replicate read_outs]; [apply reads_as_ret |].
    eapply (reads_as_bind (mret SetNull) _ [] []); [apply reads_as_ret |].
    eapply reads_as_map; [exact IH |]. done.
  - unfold nulls_cleared in Hn. apply Forall_cons in Hn as [Hn1 Hn], Hok as [Hok1 Hok].
    destruct (IH Hn Hok) as (bytes & -> & Hr). cbn [read_outs]. destruct (IsNull o) eqn:Eo; cbn [negb].
    + exists bytes. split; [done |]. rewrite (Hn1 eq_refl).
      eapply (reads_as_bind (mret SetNull) _ [] bytes); [apply reads_as_ret |].
      eapply reads_as_map; [exact Hr |]. done.
    + destruct (txout_reads o (Hok1 eq_refl)) as (b & -> & Hb). cbn [mbind option_bind].
      eexists. split; [done |]. eapply reads_as_bind; [exact Hb |]. eapply reads_as_map; [exact Hr |]. done.
Qed.

(** The availability bits of a vector that ends in an unspent output. *)
Lemma avail_bits v L :
  (length v <= L)%nat ->
  map (avail_at v) (seq 0 L) = map (fun o => negb (IsNull o)) v ++ replicate (L - length v) false.
Proof using.
  intros HL. replace L with (length v + (L - length v))%nat at 1 by lia. rewrite seq_app, map_app. f_equal.
  - clear HL. induction v as [| o v IH]; [done |]. cbn [length seq map]. f_equal.
    rewrite <-seq_shift, map_map, <-IH. done.
  - rewrite Nat.add_0_l. generalize (L - length v)%nat as k. intros k.
    assert (forall j, (length v <= j)%nat -> map (avail_at v) (seq j k) = replicate k false) as Hk; [| by apply Hk].
    induction k as [| k IH]; intros j Hj; [done |]. cbn [seq map replicate]. rewrite IH by lia. f_equal.
    unfold avail_at. by rewrite lookup_ge_None_2.
Qed.

Record coins_ok (c : coins) : Prop := {
  co_clean : clean c;
  co_unspent : vout c <> [];
  co_outs : outs_ok (vout c);
  co_size : Zlen (vout c) < 2 ^ 28;
  co_version : 0 <= nVersion c < 2 ^ 31;
  co_height : 0 <= nHeight c < 2 ^ 31
}.

(** The mask covers the last output. *)
Lemma mask_covers c last nz :
  clean c -> vout c <> [] -> mask_spec (vout c) (mask_count (vout c)) last nz ->
  (length (vout c) <= 2 + 8 * last)%nat /\ (nz <= mask_count (vout c))%nat /\
  (avail_at (vout c) 0 || avail_at (vout c) 1 || negb (nz =? 0)%nat) = true.
Proof using.
  intros Hc Hne [H1 H2 H3 H4]. destruct (clean_last c Hc Hne) as (u & o & E & Ho).
  assert (avail_at (vout c) (length u) = true) as Hav.
  { unfold avail_at. rewrite E, list_lookup_middle by done. by rewrite Ho. }
  assert (length (vout c) = length u + 1)%nat as Hl by (rewrite E, length_app; done).
  assert (used_count (vout c) last <= last)%nat as Hcnt.
  { unfold used_count. etransitivity; [apply List.filter_length_le |]. by rewrite length_seq. }
  assert (length (vout c) <= 2 + 8 * last)%nat as Hcov.
  { destruct (decide (length u < 2)%nat) as [? | Hge]; [lia |].
    set (b := ((length u - 2) / 8)%nat). pose proof (Nat.div_mod (length u - 2) 8 ltac:(lia)) as Hdm. fold b in Hdm.
    pose proof (Nat.mod_upper_bound (length u - 2) 8 ltac:(lia)) as Hmb.
    destruct (decide (b < last)%nat) as [? | Hb]; [lia |]. exfalso.
    assert (b < mask_count (vout c))%nat as Hbm.
    { unfold mask_count. rewrite Hl. apply Nat.div_le_lower_bound; lia. }
    specialize (H4 b ltac:(lia)). unfold mask_used in H4. apply not_true_iff_false in H4. apply H4.
    apply existsb_exists. exists ((length u - 2) mod 8)%nat. split; [apply in_seq; lia |].
    replace (2 + b * 8 + (length u - 2) mod 8)%nat with (length u) by lia. done. }
  split; [done |]. split; [lia |]. destruct (decide (length u < 2)%nat) as [Hlt | Hge].
  - assert (length u = 0 \/ length u = 1)%nat as [E0 | E1] by lia.
    + rewrite E0 in Hav. by rewrite Hav.
    + rewrite E1 in Hav. by rewrite Hav, orb_true_r.
  - assert (0 < nz)%nat as Hnz.
    { rewrite H2. destruct H3 as [-> | H3]; [lia |]. replace last with (S (last - 1)) by lia.
      rewrite used_count_S, H3. lia. }
    rewrite (proj2 (Nat.eqb_neq nz 0)) by lia. by rewrite orb_true_r.
Qed.

(** Cleared outputs at the end are dropped again. *)
Lemma Cleanup_padded c k :
  clean c -> Cleanup (Coins (fCoinBase c) (vout c ++ replicate k SetNull) (nHeight c) (nVersion c)) = c.
Proof using.
  intros Hc. transitivity (Cleanup c); [| exact Hc]. unfold Cleanup, set_vout. cbn [fCoinBase vout nHeight nVersion].
  do 2 f_equal. rewrite rev_app_distr, rev_replicate. induction k as [| k IH]; [done |]. exact IH.
Qed.

Lemma last_mask v n :
  n = 0%nat \/ mask_used v (n - 1) = true -> forall x, last (map (mask_byte v) (seq 0 n)) = Some x -> x <> 0.
Proof using.
  intros Hn x. destruct n as [| n]; [done |]. rewrite seq_S, map_app, last_app. cbn [map last Nat.add].
  intros [= <-]. destruct Hn as [? | Hn]; [done |]. replace (S n - 1)%nat with n in Hn by lia.
  rewrite <-mask_byte_used in Hn. apply negb_true_iff in Hn. by apply Z.eqb_neq.
Qed.

Lemma first_two v m :
  [avail_at v 0; avail_at v 1] ++ map (fun i => avail_at v (2 + i)) (seq 0 m) = map (avail_at v) (seq 0 (2 + m)).
Proof using. cbn [seq Nat.add map app]. by rewrite <-!seq_shift, !map_map. Qed.

Lemma coins_reads c :
  coins_ok c -> exists bytes, write_coins c = Some bytes /\ reads_as read_coins bytes c.
Proof using HP.
  intros [Hcl Hne Ho Hsz Hver Hht]. unfold write_coins.
  pose proof (CalcMaskSize_spec (vout c)) as Hm. destruct (CalcMaskSize (vout c)) as [n k].
  destruct (mask_covers c n k Hcl Hne Hm) as (Hcov & Hk & Hany). rewrite Hany. cbn [negb]. destruct Hm as [Hle Hcount Hlast _].
  set (v := vout c) in *. set (a := avail_at v 0). set (b := avail_at v 1).
  set (code := 8 * (Z.of_nat k - (if a || b then 0 else 1)) + (if fCoinBase c then 1 else 0) + (if a then 2 else 0) + (if b then 4 else 0)).
  assert (0 <= code < 2 ^ 32) as Hcode.
  { fold a b in Hany. assert (8 * k <= length v + 5)%nat as H8.
    { unfold mask_count in Hk. fold v in Hk. pose proof (Nat.Div0.mul_div_le (length v + 5) 8). lia. }
    unfold Zlen in Hsz. fold v in Hsz. unfold code. destruct (a || b) eqn:Eab.
    - destruct (fCoinBase c), a, b; lia.
    - cbn [orb] in Hany. apply negb_true_iff, Nat.eqb_neq in Hany. destruct (fCoinBase c), a, b; lia. }
  assert (nCode_of c k = code) as -> by (unfold nCode_of; fold v a b; by rewrite u32_id).
  destruct (WriteVarInt_total int_t int_ok (nVersion c)) as (bver & Ever & _); [done | done |].
  destruct (WriteVarInt_total uint32_t uint32_ok code) as (bcode & Ecode & _); [done | done |].
  destruct (WriteVarInt_total int_t int_ok (nHeight c)) as (bht & Eht & _); [done | done |].
  destruct (outs_reads v (2 + 8 * n - length v) Ho) as (bouts & Eouts & Houts).
  rewrite Ever, Ecode, Eouts, Eht. cbn [mbind option_bind]. eexists. split; [reflexivity |]. unfold read_coins.
  eapply reads_as_bind; [by apply (varint_reads int_t int_ok (nVersion c)) |].
  eapply reads_as_bind; [by apply (varint_reads uint32_t uint32_ok code) |].
  destruct (code_fields (Z.of_nat k - (if a || b then 0 else 1)) (fCoinBase c) a b) as (F1 & F2 & F3 & F4 & F5).
  fold code in F1, F2, F3, F4, F5. rewrite F1, F2, F3, F4, F5.
  replace (Z.of_nat k - (if a || b then 0 else 1) + (if a || b then 0 else 1)) with (Z.of_nat k) by lia.
  eapply reads_as_bind.
  { rewrite Hcount, <-count_mask. apply read_mask_reads. by apply last_mask. }
  rewrite concat_mask. unfold a, b. rewrite first_two, avail_bits by done.
  eapply reads_as_bind; [exact Houts |].
  eapply reads_as_map; [by apply (varint_reads int_t int_ok (nHeight c)) |].
  intros s. unfold mret, reader_ret, v. by rewrite Cleanup_padded by done.
Qed.

(** *** Undo data *)

Record undo_ok (u : txinundo) : Prop := {
  uo_txout : txout_ok (u_txout u);
  uo_height : 0 <= u_nHeight u < 2 ^ 31;
  uo_version : 0 <= u_nVersion u < 2 ^ 31;
  uo_partial : u_nHeight u = 0 -> u_nVersion u = 0
}.

Lemma undo_reads u : undo_ok u -> exists bytes, write_txinundo u = Some bytes /\ reads_as read_txinundo bytes u.
Proof using HP.
  intros [Ho Hh Hv Hp]. unfold write_txinundo. set (code := u_nHeight u * 2 + (if u_fCoinBase u then 1 else 0)).
  assert (0 <= code < 2 ^ 32) as Hc by (unfold code; destruct (u_fCoinBase u); lia).
  assert (code / 2 = u_nHeight u /\ negb (Z.land code 1 =? 0) = u_fCoinBase u) as [Hdiv Hbit].
  { pose proof (Z.land_ones code 1 ltac:(lia)) as E. change (Z.ones 1) with 1 in E. rewrite E. change (2 ^ 1) with 2.
    unfold code. rewrite Z.add_comm, Z_mod_plus_full, Z.div_add by lia. by destruct (u_fCoinBase u). }
  rewrite u32_id by done.
  destruct (WriteVarInt_total uint32_t uint32_ok code) as (bcode & Ec & _); [done | done |].
  destruct (txout_reads (u_txout u) Ho) as (bout & Eo & Ro). rewrite Ec, Eo. cbn [mbind option_bind].
  assert (exists bver, (if 0 <? u_nHeight u then WriteVarInt int_t (u_nVersion u) else Some []) = Some bver /\
    reads_as (if 0 <? u_nHeight u then ReadVarInt int_t else mret 0) bver (u_nVersion u)) as (bver & -> & Rv).
  { destruct (Z.ltb_spec 0 (u_nHeight u)) as [Hpos | Hz].
    - destruct (WriteVarInt_total int_t int_ok (u_nVersion u)) as (bver & E & _); [done | done |]. exists bver.
      split; [done |]. by apply varint_reads; [apply int_ok | |].
    - exists []. split; [done |]. rewrite Hp by lia. apply reads_as_ret. }
  cbn [mbind option_bind]. eexists. split; [reflexivity |]. unfold read_txinundo.
  eapply reads_as_bind; [by apply (varint_reads uint32_t uint32_ok code) |]. rewrite Hdiv, Hbit.
  eapply reads_as_bind; [exact Rv |]. eapply reads_as_map; [exact Ro |]. intros s. by destruct u.
Qed.

Lemma read_n_reads {A} (w : A -> option (list Z)) (r : reader A) (ok : A -> Prop) l :
  (forall x, ok x -> exists bytes, w x = Some bytes /\ reads_as r bytes x) -> Forall ok l ->
  exists bytes, write_all w l = Some bytes /\ reads_as (read_n r (length l)) bytes l.
Proof using.
  intros Hw. induction 1 as [| x l Hx _ (bs & Eb & Rb)]; cbn [write_all length read_n].
  - exists []. split; [done | apply reads_as_ret].
  - destruct (Hw x Hx) as (b & -> & Rx). rewrite Eb. cbn [mbind option_bind]. eexists. split; [reflexivity |].
    eapply reads_as_bind; [exact Rx |]. by eapply reads_as_map; [exact Rb |].
Qed.

Lemma vector_reads {A} (w : A -> option (list Z)) (r : reader A) (ok : A -> Prop) l :
  (forall x, ok x -> exists bytes, w x = Some bytes /\ reads_as r bytes x) -> Forall ok l -> Zlen l <= MAX_SIZE ->
  exists bytes, write_vector w l = Some bytes /\ reads_as (read_vector r) bytes l.
Proof using.
  intros Hw Hl Hlen. unfold write_vector. destruct (read_n_reads w r ok l Hw Hl) as (bytes & -> & Rb).
  cbn [mbind option_bind]. eexists. split; [reflexivity |]. pose proof (Zlen_nonneg l). unfold MAX_SIZE in Hlen.
  eapply reads_as_bind; [| replace (Z.to_nat (Zlen l)) with (length l) by (unfold Zlen; lia); exact Rb].
  intros rest. rewrite compact_size_checked, (compact_size_reads (Zlen l)) by lia. cbn [mbind option_bind].
  unfold MAX_SIZE. by rewrite (proj2 (Z.ltb_ge _ (Zlen l))) by lia.
Qed.
End RoundTrip.

(** ** Undo files of connected blocks *)

(** What the node can store of an entry. *)
Definition storable (c : coins) : Prop :=
  Forall (fun o => IsNull o = false -> txout_ok o) (vout c) /\ 0 <= nVersion c < 2 ^ 31 /\ nHeight c < 2 ^ 31.

(** Values and numbers of inputs within the limits of [CheckTransaction]. *)
Definition tx_storable (tx : ctx) : Prop :=
  Forall (fun o => 0 <= nValue o < 2 ^ 60) (tx_vout tx) /\ 0 <= tx_nVersion tx < 2 ^ 31 /\ Zlen (tx_vin tx) <= MAX_SIZE.

Lemma Forall_Cleanup (P : txout -> Prop) c : Forall P (vout c) -> Forall P (vout (Cleanup c)).
Proof.
  intros Hf. cbn [Cleanup set_vout vout]. apply Forall_rev. apply Forall_rev in Hf.
  induction Hf as [| o l Ho Hl IH]; cbn [pop_nulls]; [done |]. destruct (IsNull o); [done | by constructor].
Qed.

Lemma storable_Cleanup c : storable c -> storable (Cleanup c).
Proof. intros (? & ? & ?). split; [by apply Forall_Cleanup | done]. Qed.

Lemma spendable_short script : IsUnspendable script = false -> Zlen script <= MAX_SCRIPT_SIZE.
Proof. unfold IsUnspendable. destruct script; [| intros [_ E]%orb_false_elim; revert E]; intros E%Z.ltb_ge; done. Qed.

Lemma FromTx_storable tx height :
  tx_storable tx -> height < 2 ^ 31 -> storable (FromTx (IsCoinBase tx) (tx_vout tx) (tx_nVersion tx) height).
Proof.
  intros (Hv & Hver & _) Hh. split; [| done]. apply Forall_Cleanup. cbn [set_vout vout]. apply Forall_map.
  eapply Forall_impl; [exact Hv |]. cbn beta. intros o Ho. destruct (IsUnspendable _) eqn:E; [done |].
  intros _. split; [done |]. by apply spendable_short.
Qed.

Lemma spend_storable n c c1 u :
  wf_coins c -> storable c -> spend_coin n c = (c1, Some u) -> storable c1 /\ undo_ok u.
Proof.
  intros (_ & _ & Hh) (Hf & Hver & Hht) E. apply spend_coin_inv in E as (o & Hl & Ho & -> & ->).
  assert (txout_ok o) as Hok by (by apply (proj1 (Forall_lookup _ _) Hf n o Hl)).
  split.
  - apply storable_Cleanup. split; [| done]. cbn [set_vout vout]. by apply Forall_insert.
  - destruct (_ =? _)%nat; split; cbn [u_txout u_nHeight u_nVersion]; try done; rewrite u32_id by (unfold is_u; lia); lia.
Qed.

Section UndoFile.
Context `{AnchorTree} {S : Type} `{!Store S} {sinv : S -> Prop} {sabs : S -> state}.
Context (HL : store_lawful sinv sabs).

Definition all_storable (s : state) : Prop := forall k c, s_coins s k = Some c -> storable c.

Definition undos_ok (l : list txinundo) : Prop := Forall undo_ok l /\ Zlen l <= MAX_SIZE.

Lemma spend_inputs_storable s tx vin undos s1 :
  sinv s -> utxo_inv (sabs s) -> all_storable (sabs s) -> spend_inputs false s tx vin = Some (undos, s1) ->
  all_storable (sabs s1) /\ Forall undo_ok undos.
Proof using HL.
  revert s undos. induction vin as [| [h n] vin IH]; intros s undos Hs Hu Ha E; cbn [spend_inputs] in E.
  - injection E as <- <-. by split.
  - rewrite plain_pegs in E. cbn [andb] in E.
    destruct (modify s h (spend_coin (Z.to_nat n))) as [[u |] s0] eqn:Em; [| done].
    cbn [mbind option_bind] in E. destruct (spend_inputs false s0 tx vin) as [[us s1'] |] eqn:E1; [| done].
    cbn [mbind option_bind] in E. injection E as <- <-.
    destruct (spend_one HL s h _ u s0 Hs Hu Em) as (Hs0 & Hu0 & _ & _ & _ & c & c1 & Ec & Esp & Hc).
    destruct (spend_storable _ c c1 u (proj1 (Hu h c Ec)) (Ha h c Ec) Esp) as [Hc1 Huo].
    destruct (IH s0 us Hs0 Hu0) as [Ha1 Hus]; [| done |].
    + intros k d. rewrite Hc. case_decide; [| apply Ha]. intros [-> _]%norm_Some. by apply storable_Cleanup.
    + split; [done |]. by constructor.
Qed.

Lemma update_storable s tx height undos s1 :
  tx_plain tx -> tx_storable tx -> height < 2 ^ 31 -> sinv s -> utxo_inv (sabs s) -> all_storable (sabs s) ->
  UpdateCoins false s tx height = Some (undos, s1) -> all_storable (sabs s1) /\ undos_ok undos.
Proof using HL.
  intros (Hni & _ & _) Htx Hh Hs Hu Ha E. destruct (update_inv HL s tx height undos s1 Hni Hs Hu E) as (sa & Ea & _ & _ & Hc & _).
  assert (all_storable (sabs sa) /\ undos_ok undos) as [Haa Hus].
  { destruct (IsMint tx); cbn [negb] in Ea.
    - injection Ea as <- <-. split; [done |]. by split; [constructor |].
    - destruct (spend_inputs_storable s tx _ undos sa Hs Hu Ha Ea) as [? ?]. split; [done |]. split; [done |].
      destruct (spend_restore HL s tx _ undos sa (plain_pegs tx) Hs Hu Ea) as (_ & Hlen & _).
      unfold Zlen. rewrite Hlen. apply Htx. }
  split; [| done]. intros k c. rewrite Hc. case_decide; [| apply Haa]. intros [-> _]%norm_Some.
  by apply FromTx_storable.
Qed.

Context (tree_append : atree -> list Z -> option atree).

Lemma connect_storable s t first txs height vu t' s1 :
  Forall tx_plain txs -> Forall tx_storable txs -> NoDup (map tx_hash txs) -> 0 < height < 2 ^ 31 ->
  sinv s -> utxo_inv (sabs s) -> all_storable (sabs s) -> fresh_hashes (sabs s) txs ->
  connect_txs false tree_append s t first txs height = Connected (vu, t', s1) -> Forall undos_ok vu.
Proof using HL.
  intros Hplain. revert s t first vu t' s1.
  induction Hplain as [| tx txs Hp Hplain IH]; intros s t first vu t' s1 Hst Hnd Hh Hs Hu Ha Hf E; cbn [connect_txs] in E.
  - by injection E as <- <- <-.
  - cbn [map] in Hnd. apply NoDup_cons in Hnd as [Hh1 Hnd]. pose proof Hf as [Hz Hzs]%Forall_cons.
    apply Forall_cons in Hst as [Hst1 Hst].
    destruct (check_tx false s tx) as [ok s'] eqn:Ec. destruct ok; cbn [negb] in E; [| done].
    destruct (UpdateCoins false s' tx height) as [[undo sa] |] eqn:EU; [| done].
    destruct (append_cms tree_append t (tx_cms tx)) as [ta |]; [| done].
    destruct (connect_txs false tree_append sa ta false txs height) as [| | [[vu1 t1] sb]] eqn:E1; [done | done |].
    destruct (connect_step HL s tx height true s' undo sa Ec eq_refl Hp ltac:(lia) Hs Hu Hz EU) as ((Hsa & Hua & _ & Hza) & _).
    destruct (checks_read HL s tx s' Ec Hp Hs) as (Hs' & He' & _). pose proof He' as [Hcn' _]%state_eq_halves.
    destruct (update_storable s' tx height undo sa Hp Hst1 ltac:(lia) Hs') as [Haa Hun];
      [by apply utxo_inv_eq with (sabs s) | intros k c; rewrite (proj1 Hcn'); apply Ha | exact EU |].
    assert (Forall undos_ok vu1) as Hvu1.
    { apply (IH sa ta false vu1 t1 sb); try done. apply Forall_forall. intros x Hx. apply Hza.
      - intros Ex. apply Hh1. rewrite <-Ex. apply list_elem_of_In, in_map. by apply list_elem_of_In.
      - by apply (proj1 (Forall_forall _ _) Hzs). }
    injection E as <- <- <-. destruct first; [done | by constructor].
Qed.

Lemma block_undos_ok s b vu s' :
  block_plain b -> Forall tx_storable (bl_txs b) -> bl_height b < 2 ^ 31 ->
  sinv s -> utxo_inv (sabs s) -> all_storable (sabs s) ->
  connect_block false tree_append s b = Connected (vu, s') -> Forall undos_ok vu /\ Zlen vu <= Zlen (bl_txs b).
Proof using HL.
  intros Hb Hst Hh Hs Hu Ha E.
  destruct (connect_block_inv HL tree_append s b vu s' Hs E) as (s0 & t & t' & s1 & Hs0 & He0 & _ & Hf & Et & _).
  pose proof He0 as [Heu0 _]%state_eq_halves. destruct Hb as [Hplain Hnd Hcb Hh0 _ _].
  pose proof (utxo_inv_eq _ _ Heu0 Hu) as Hu0. split.
  - apply (connect_storable s0 t true (bl_txs b) (bl_height b) vu t' s1); try done; [lia |].
    intros k c. rewrite (proj1 Heu0). apply Ha.
  - destruct (connect_restore HL tree_append s0 t true (bl_txs b) (bl_height b) vu t' s1 Hplain Hnd Hh0 Hs0 Hu0 Hf (fun _ => Hcb) Et)
      as (_ & Hlen & _). cbn [length] in Hlen. unfold Zlen. lia.
Qed.
End UndoFile.

(** ** The theorems *)

Lemma blockundo_reads `{PubKeys} {HP : LawfulPubKeys} vtxundo root :
  Forall undos_ok vtxundo -> Zlen vtxundo <= MAX_SIZE -> length root = 32%nat ->
  exists bytes, write_blockundo (vtxundo, root) = Some bytes /\ reads_as read_blockundo bytes (vtxundo, root).
Proof.
  intros Hv Hl Hr. unfold write_blockundo. cbn [fst snd].
  destruct (vector_reads (write_vector write_txinundo) (read_vector read_txinundo) undos_ok vtxundo) as (bytes & -> & Rb);
    [| done | done |].
  - intros l [Hok Hlen]. apply vector_reads with (ok := undo_ok); [apply undo_reads | done | done].
  - cbn [mbind option_bind]. eexists. split; [reflexivity |]. eapply reads_as_bind; [exact Rb |].
    eapply reads_as_map; [by apply reads_as_bytes |]. done.
Qed.

(** Coins round trip: the entry of the chain state database that is written
    for the unspent outputs of a transaction is read back as the same outputs
    with the same height, version and coinbase flag, whatever bytes follow. *)
Theorem coins_round_trip `{PubKeys} {HP : LawfulPubKeys} (c : coins) :
  coins_ok c -> exists bytes, write_coins c = Some bytes /\ reads_as read_coins bytes c.
Proof. apply coins_reads. Qed.

(** [C30] Undo files work: the undo data of a block that was connected can be
    written, what is read back from those bytes lets the block be disconnected
    with a clean result, and the coin cache then stands for exactly the state
    before the block. *)
Theorem undo_file_restores `{PubKeys} {HP : LawfulPubKeys} `{AnchorTree} {V : Type} `{!View V} (M : model V)
    (tree_append : atree -> list Z -> option atree) (c c' : cache V) (b : block)
    (vtxundo : list (list txinundo)) (old_sprout_tree_root : list Z) :
  (forall s t : atree, aroot s = aroot t -> s = t) -> (forall t : atree, IsNull256 (aroot t) = false) ->
  lawful M -> cache_inv M c -> utxo_inv (cache_abs M c) -> all_storable (cache_abs M c) ->
  block_plain b -> Forall tx_storable (bl_txs b) -> Zlen (bl_txs b) <= MAX_SIZE -> bl_height b < 2 ^ 31 ->
  IsNull256 (s_best_anchor (cache_abs M c)) = false -> length old_sprout_tree_root = 32%nat ->
  (s_best_anchor (cache_abs M c') <> s_best_anchor (cache_abs M c) ->
     s_anchor (cache_abs M c) (s_best_anchor (cache_abs M c')) = None) ->
  connect_block false tree_append c b = Connected (vtxundo, c') ->
  exists file, write_blockundo (vtxundo, old_sprout_tree_root) = Some file /\
  exists c2, ('(blockUndo, _) ← read_blockundo file;
              disconnect_block false c' b blockUndo.1 (s_best_anchor (cache_abs M c))) = Some (true, c2) /\
    state_eq (cache_abs M c2) (cache_abs M c).
Proof.
  intros aroot_inj aroot_set HM Hi Hu Ha Hb Hst Hlen Hh Hba Hroot Hanch E.
  pose proof (cache_store_lawful aroot_inj M HM) as HL.
  destruct (block_undos_ok HL tree_append c b vtxundo c' Hb Hst Hh Hi Hu Ha E) as [Hvu Hle].
  destruct (blockundo_reads vtxundo old_sprout_tree_root Hvu ltac:(lia) Hroot) as (file & Ew & Rf).
  exists file. split; [done |]. specialize (Rf []). rewrite app_nil_r in Rf. rewrite Rf. cbn [mbind option_bind fst].
  destruct (block_restore HL tree_append aroot_set c b vtxundo c' Hb Hi Hu Hanch Hba E) as (_ & c2 & E2 & _ & Hs).
  by exists c2.
Qed.

(** *** A concrete curve and block *)

(** Ordinates are 0 or 1. *)
Definition toy_ordinate (y : Z) : list Z := replicate 31 0 ++ [y].
#[local] Instance toy_keys : PubKeys := {|
  IsFullyValid pk := bool_decide (drop 33 pk = toy_ordinate 0) || bool_decide (drop 33 pk = toy_ordinate 1);
  PubKeyDecompress pk := match pk with p :: x => Some (4 :: x ++ toy_ordinate (p - 2)) | [] => None end
|}.

#[local] Instance toy_keys_lawful : LawfulPubKeys.
Proof.
  intros xy Hl Hv. cbn [IsFullyValid PubKeyDecompress toy_keys] in *. change (drop 33 (4 :: xy)) with (drop 32 xy) in Hv.
  assert (exists y, (y = 0 \/ y = 1) /\ drop 32 xy = toy_ordinate y) as (y & Hy & E).
  { apply orb_prop in Hv as [Hv%bool_decide_eq_true | Hv%bool_decide_eq_true]; eauto. }
  assert (rd xy 63 = y) as Ey.
  { unfold rd. rewrite <-(take_drop 32 xy), E, app_nth2 by (rewrite length_take; lia).
    by rewrite length_take, Nat.min_l by lia. }
  assert (xy = take 32 xy ++ toy_ordinate y) as Exy by (by rewrite <-E, take_drop).
  rewrite Ey. replace (2 + Z.land y 1 - 2) with y by (by destruct Hy as [-> | ->]). by rewrite <-Exy.
Qed.

#[local] Existing Instance toy_tree.

Definition toy_coins : coins :=
  Coins true [SetNull; TxOut 5000000000 [OP_RETURN; 1]; SetNull; TxOut 12 ([65; 4] ++ replicate 32 9 ++ toy_ordinate 1 ++ [OP_CHECKSIG])] 77 4.

Lemma coins_round_trip_witness :
  exists bytes, write_coins toy_coins = Some bytes /\ reads_as read_coins bytes toy_coins.
Proof.
  apply (coins_round_trip toy_coins). split; [reflexivity | done | | by vm_compute | by vm_compute | by vm_compute].
  split; repeat (constructor; [try done; intros _; split; vm_compute; (split; done) || done |]); constructor.
Defined.

Lemma undo_file_restores_witness :
  exists file, write_blockundo (toy_connected.1, replicate 32 0) = Some file /\
  exists c2, ('(blockUndo, _) ← read_blockundo file;
              disconnect_block false toy_connected.2 toy_block blockUndo.1 [1; 0]) = Some (true, c2) /\
    state_eq (cache_abs db_model c2) (cache_abs db_model toy_cache).
Proof.
  apply (undo_file_restores db_model toy_append toy_cache toy_connected.2 toy_block toy_connected.1 (replicate 32 0)).
  - apply toy_anchors.
  - apply toy_anchors.
  - apply db_lawful, toy_anchors.
  - apply toy_inv.
  - apply toy_inv.
  - intros k x. cbn. rewrite lookup_empty. intros [_ <-]%lookup_singleton_Some.
    split; [| by vm_compute]. constructor; [| constructor]. intros _. split; vm_compute; (split; done) || done.
  - exact toy_plain.
  - repeat (constructor; [split; [| by vm_compute]; repeat (constructor; [vm_compute; by split |]); constructor |]). constructor.
  - by vm_compute.
  - by vm_compute.
  - reflexivity.
  - reflexivity.
  - intros _. vm_compute. reflexivity.
  - exact toy_connects.
Defined.
