(* ===== verification/Script.v ===== *)
(** * Scripts (src/src/script/script.h, script.cpp)

    A script is the list of its bytes, and an iterator into it is the suffix it
    points at.  The file has the opcodes, the numbers of the script language, the
    operators that append to a script, the reader of instructions, and the
    functions that recognise scripts. *)
From S2P Require Import Prelude Coins Compact.
Local Open Scope Z_scope.

(** ** Outcomes of code that can fail *)

(** [script_error.h]. *)
Inductive ScriptError : Type :=
  | SCRIPT_ERR_OK | SCRIPT_ERR_UNKNOWN_ERROR | SCRIPT_ERR_EVAL_FALSE | SCRIPT_ERR_OP_RETURN
  | SCRIPT_ERR_SCRIPT_SIZE | SCRIPT_ERR_PUSH_SIZE | SCRIPT_ERR_OP_COUNT | SCRIPT_ERR_STACK_SIZE
  | SCRIPT_ERR_SIG_COUNT | SCRIPT_ERR_PUBKEY_COUNT
  | SCRIPT_ERR_VERIFY | SCRIPT_ERR_EQUALVERIFY | SCRIPT_ERR_CHECKMULTISIGVERIFY
  | SCRIPT_ERR_CHECKSIGVERIFY | SCRIPT_ERR_NUMEQUALVERIFY
  | SCRIPT_ERR_BAD_OPCODE | SCRIPT_ERR_DISABLED_OPCODE | SCRIPT_ERR_INVALID_STACK_OPERATION
  | SCRIPT_ERR_INVALID_ALTSTACK_OPERATION | SCRIPT_ERR_UNBALANCED_CONDITIONAL
  | SCRIPT_ERR_NEGATIVE_LOCKTIME | SCRIPT_ERR_UNSATISFIED_LOCKTIME
  | SCRIPT_ERR_SIG_HASHTYPE | SCRIPT_ERR_SIG_DER | SCRIPT_ERR_MINIMALDATA | SCRIPT_ERR_SIG_PUSHONLY
  | SCRIPT_ERR_SIG_HIGH_S | SCRIPT_ERR_SIG_NULLDUMMY | SCRIPT_ERR_PUBKEYTYPE | SCRIPT_ERR_CLEANSTACK
  | SCRIPT_ERR_DISCOURAGE_UPGRADABLE_NOPS | SCRIPT_ERR_ERROR_COUNT
  | SCRIPT_ERR_CRYPTOCONDITION_VERIFY | SCRIPT_ERR_CRYPTOCONDITION_INVALID_FULFILLMENT.

#[export] Instance ScriptError_eq_dec : EqDecision ScriptError.
Proof. solve_decision. Defined.

(** The exceptions the interpreter's code can throw: [scriptnum_error], the
    [runtime_error] of [popstack], the [out_of_range] of [vector::at]. *)
Inductive exn : Type := scriptnum_error | popstack_error | at_error.

(** [Fail e] is [return set_error(serror, e)]; [Assert] is a failed assertion;
    [Undefined] is an access or a shift the language leaves undefined. *)
Inductive outcome (A : Type) : Type :=
  | Ret (a : A)
  | Fail (e : ScriptError)
  | Throw (x : exn)
  | Assert
  | Undefined.
Arguments Ret {A} a.
Arguments Fail {A} e.
Arguments Throw {A} x.
Arguments Assert {A}.
Arguments Undefined {A}.

#[export] Instance outcome_ret : MRet outcome := @Ret.
#[export] Instance outcome_bind : MBind outcome := fun A B f m =>
  match m with
  | Ret a => f a
  | Fail e => Fail e
  | Throw x => Throw x
  | Assert => Assert
  | Undefined => Undefined
  end.

(** [if (c) return set_error(serror, e);] *)
Definition fail_if (c : bool) (e : ScriptError) : outcome unit := if c then Fail e else Ret tt.
(** A step the language defines only when it has a value. *)
Definition defined {A} (o : option A) : outcome A := match o with Some a => Ret a | None => Undefined end.

(** ** Opcodes *)

Module Op.

(** [enum opcodetype]; [OP_byte b] is a byte without a name of its own, cast to
    the enumeration. *)
Inductive opcodetype : Type :=
  | OP_0 | OP_PUSHDATA1 | OP_PUSHDATA2 | OP_PUSHDATA4 | OP_1NEGATE | OP_RESERVED | OP_1 | OP_2 | OP_3
  | OP_4 | OP_5 | OP_6 | OP_7 | OP_8 | OP_9 | OP_10 | OP_11 | OP_12 | OP_13 | OP_14 | OP_15 | OP_16
  | OP_NOP | OP_VER | OP_IF | OP_NOTIF | OP_VERIF | OP_VERNOTIF | OP_ELSE | OP_ENDIF | OP_VERIFY
  | OP_RETURN | OP_TOALTSTACK | OP_FROMALTSTACK | OP_2DROP | OP_2DUP | OP_3DUP | OP_2OVER | OP_2ROT
  | OP_2SWAP | OP_IFDUP | OP_DEPTH | OP_DROP | OP_DUP | OP_NIP | OP_OVER | OP_PICK | OP_ROLL | OP_ROT
  | OP_SWAP | OP_TUCK | OP_CAT | OP_SUBSTR | OP_LEFT | OP_RIGHT | OP_SIZE | OP_INVERT | OP_AND | OP_OR
  | OP_XOR | OP_EQUAL | OP_EQUALVERIFY | OP_RESERVED1 | OP_RESERVED2 | OP_1ADD | OP_1SUB | OP_2MUL
  | OP_2DIV | OP_NEGATE | OP_ABS | OP_NOT | OP_0NOTEQUAL | OP_ADD | OP_SUB | OP_MUL | OP_DIV | OP_MOD
  | OP_LSHIFT | OP_RSHIFT | OP_BOOLAND | OP_BOOLOR | OP_NUMEQUAL | OP_NUMEQUALVERIFY | OP_NUMNOTEQUAL
  | OP_LESSTHAN | OP_GREATERTHAN | OP_LESSTHANOREQUAL | OP_GREATERTHANOREQUAL | OP_MIN | OP_MAX | OP_WITHIN
  | OP_RIPEMD160 | OP_SHA1 | OP_SHA256 | OP_HASH160 | OP_HASH256 | OP_CODESEPARATOR | OP_CHECKSIG
  | OP_CHECKSIGVERIFY | OP_CHECKMULTISIG | OP_CHECKMULTISIGVERIFY | OP_CHECKCRYPTOCONDITION
  | OP_CHECKCRYPTOCONDITIONVERIFY | OP_NOP1 | OP_CHECKLOCKTIMEVERIFY | OP_NOP3 | OP_NOP4 | OP_NOP5
  | OP_NOP6 | OP_NOP7 | OP_NOP8 | OP_NOP9 | OP_NOP10 | OP_SMALLDATA | OP_SMALLINTEGER | OP_PUBKEYS
  | OP_PUBKEYHASH | OP_PUBKEY | OP_CRYPTOCONDITION | OP_INVALIDOPCODE
  | OP_byte (b : Z).

(** The numeric value of an opcode. *)
Definition code (op : opcodetype) : Z :=
  match op with
  | OP_0 => 0x00 | OP_PUSHDATA1 => 0x4c | OP_PUSHDATA2 => 0x4d | OP_PUSHDATA4 => 0x4e | OP_1NEGATE => 0x4f
  | OP_RESERVED => 0x50 | OP_1 => 0x51 | OP_2 => 0x52 | OP_3 => 0x53 | OP_4 => 0x54 | OP_5 => 0x55
  | OP_6 => 0x56 | OP_7 => 0x57 | OP_8 => 0x58 | OP_9 => 0x59 | OP_10 => 0x5a | OP_11 => 0x5b
  | OP_12 => 0x5c | OP_13 => 0x5d | OP_14 => 0x5e | OP_15 => 0x5f | OP_16 => 0x60 | OP_NOP => 0x61
  | OP_VER => 0x62 | OP_IF => 0x63 | OP_NOTIF => 0x64 | OP_VERIF => 0x65 | OP_VERNOTIF => 0x66
  | OP_ELSE => 0x67 | OP_ENDIF => 0x68 | OP_VERIFY => 0x69 | OP_RETURN => 0x6a | OP_TOALTSTACK => 0x6b
  | OP_FROMALTSTACK => 0x6c | OP_2DROP => 0x6d | OP_2DUP => 0x6e | OP_3DUP => 0x6f | OP_2OVER => 0x70
  | OP_2ROT => 0x71 | OP_2SWAP => 0x72 | OP_IFDUP => 0x73 | OP_DEPTH => 0x74 | OP_DROP => 0x75
  | OP_DUP => 0x76 | OP_NIP => 0x77 | OP_OVER => 0x78 | OP_PICK => 0x79 | OP_ROLL => 0x7a | OP_ROT => 0x7b
  | OP_SWAP => 0x7c | OP_TUCK => 0x7d | OP_CAT => 0x7e | OP_SUBSTR => 0x7f | OP_LEFT => 0x80
  | OP_RIGHT => 0x81 | OP_SIZE => 0x82 | OP_INVERT => 0x83 | OP_AND => 0x84 | OP_OR => 0x85
  | OP_XOR => 0x86 | OP_EQUAL => 0x87 | OP_EQUALVERIFY => 0x88 | OP_RESERVED1 => 0x89
  | OP_RESERVED2 => 0x8a | OP_1ADD => 0x8b | OP_1SUB => 0x8c | OP_2MUL => 0x8d | OP_2DIV => 0x8e
  | OP_NEGATE => 0x8f | OP_ABS => 0x90 | OP_NOT => 0x91 | OP_0NOTEQUAL => 0x92 | OP_ADD => 0x93
  | OP_SUB => 0x94 | OP_MUL => 0x95 | OP_DIV => 0x96 | OP_MOD => 0x97 | OP_LSHIFT => 0x98
  | OP_RSHIFT => 0x99 | OP_BOOLAND => 0x9a | OP_BOOLOR => 0x9b | OP_NUMEQUAL => 0x9c
  | OP_NUMEQUALVERIFY => 0x9d | OP_NUMNOTEQUAL => 0x9e | OP_LESSTHAN => 0x9f | OP_GREATERTHAN => 0xa0
  | OP_LESSTHANOREQUAL => 0xa1 | OP_GREATERTHANOREQUAL => 0xa2 | OP_MIN => 0xa3 | OP_MAX => 0xa4
  | OP_WITHIN => 0xa5 | OP_RIPEMD160 => 0xa6 | OP_SHA1 => 0xa7 | OP_SHA256 => 0xa8 | OP_HASH160 => 0xa9
  | OP_HASH256 => 0xaa | OP_CODESEPARATOR => 0xab | OP_CHECKSIG => 0xac | OP_CHECKSIGVERIFY => 0xad
  | OP_CHECKMULTISIG => 0xae | OP_CHECKMULTISIGVERIFY => 0xaf | OP_CHECKCRYPTOCONDITION => 0xcc
  | OP_CHECKCRYPTOCONDITIONVERIFY => 0xcd | OP_NOP1 => 0xb0 | OP_CHECKLOCKTIMEVERIFY => 0xb1
  | OP_NOP3 => 0xb2 | OP_NOP4 => 0xb3 | OP_NOP5 => 0xb4 | OP_NOP6 => 0xb5 | OP_NOP7 => 0xb6
  | OP_NOP8 => 0xb7 | OP_NOP9 => 0xb8 | OP_NOP10 => 0xb9 | OP_SMALLDATA => 0xf9 | OP_SMALLINTEGER => 0xfa
  | OP_PUBKEYS => 0xfb | OP_PUBKEYHASH => 0xfd | OP_PUBKEY => 0xfe | OP_CRYPTOCONDITION => 0xfc
  | OP_INVALIDOPCODE => 0xff
  | OP_byte b => b
  end.

Definition named : list opcodetype :=
  [OP_0; OP_PUSHDATA1; OP_PUSHDATA2; OP_PUSHDATA4; OP_1NEGATE; OP_RESERVED; OP_1; OP_2; OP_3; OP_4; OP_5;
  OP_6; OP_7; OP_8; OP_9; OP_10; OP_11; OP_12; OP_13; OP_14; OP_15; OP_16; OP_NOP; OP_VER; OP_IF; OP_NOTIF;
  OP_VERIF; OP_VERNOTIF; OP_ELSE; OP_ENDIF; OP_VERIFY; OP_RETURN; OP_TOALTSTACK; OP_FROMALTSTACK; OP_2DROP;
  OP_2DUP; OP_3DUP; OP_2OVER; OP_2ROT; OP_2SWAP; OP_IFDUP; OP_DEPTH; OP_DROP; OP_DUP; OP_NIP; OP_OVER;
  OP_PICK; OP_ROLL; OP_ROT; OP_SWAP; OP_TUCK; OP_CAT; OP_SUBSTR; OP_LEFT; OP_RIGHT; OP_SIZE; OP_INVERT;
  OP_AND; OP_OR; OP_XOR; OP_EQUAL; OP_EQUALVERIFY; OP_RESERVED1; OP_RESERVED2; OP_1ADD; OP_1SUB; OP_2MUL;
  OP_2DIV; OP_NEGATE; OP_ABS; OP_NOT; OP_0NOTEQUAL; OP_ADD; OP_SUB; OP_MUL; OP_DIV; OP_MOD; OP_LSHIFT;
  OP_RSHIFT; OP_BOOLAND; OP_BOOLOR; OP_NUMEQUAL; OP_NUMEQUALVERIFY; OP_NUMNOTEQUAL; OP_LESSTHAN;
  OP_GREATERTHAN; OP_LESSTHANOREQUAL; OP_GREATERTHANOREQUAL; OP_MIN; OP_MAX; OP_WITHIN; OP_RIPEMD160;
  OP_SHA1; OP_SHA256; OP_HASH160; OP_HASH256; OP_CODESEPARATOR; OP_CHECKSIG; OP_CHECKSIGVERIFY;
  OP_CHECKMULTISIG; OP_CHECKMULTISIGVERIFY; OP_CHECKCRYPTOCONDITION; OP_CHECKCRYPTOCONDITIONVERIFY;
  OP_NOP1; OP_CHECKLOCKTIMEVERIFY; OP_NOP3; OP_NOP4; OP_NOP5; OP_NOP6; OP_NOP7; OP_NOP8; OP_NOP9; OP_NOP10;
  OP_SMALLDATA; OP_SMALLINTEGER; OP_PUBKEYS; OP_PUBKEYHASH; OP_PUBKEY; OP_CRYPTOCONDITION;
  OP_INVALIDOPCODE].

(** [(opcodetype)b]. *)
Definition opcode_of (b : Z) : opcodetype :=
  match List.find (fun op => code op =? b) named with Some op => op | None => OP_byte b end.

(** Comparisons of opcodes are comparisons of their values. *)
Definition op_eq (a b : opcodetype) : bool := code a =? code b.
Definition op_le (a b : opcodetype) : bool := code a <=? code b.

Lemma code_opcode_of b : code (opcode_of b) = b.
Proof.
  unfold opcode_of. destruct (List.find _ named) as [op |] eqn:E; [| done].
  apply List.find_some in E as [_ E]. by apply Z.eqb_eq.
Qed.

End Op.
Import Op.
#[warning="-uniform-inheritance"] Coercion code : opcodetype >-> Z.

(** ** Script numbers *)

Definition INT_MAX : Z := 2 ^ 31 - 1.
Definition INT_MIN : Z := - 2 ^ 31.
Definition nDefaultMaxNumSize : nat := 4.

(** The bytes of [absvalue], least significant first; a 64-bit value has eight. *)
Fixpoint abs_bytes (n : nat) (absvalue : Z) : list Z :=
  match n with
  | O => []
  | S n => if absvalue =? 0 then [] else Z.land absvalue 0xff :: abs_bytes n (Z.shiftr absvalue 8)
  end.

Definition back (l : list Z) : Z := rd l (length l - 1).
Definition set_back (l : list Z) (b : Z) : list Z := take (length l - 1) l ++ [b].

(** [CScriptNum::serialize]; [-value] is undefined for the least [int64_t]. *)
Definition serialize (value : Z) : option (list Z) :=
  if value =? 0 then Some []
  else
    let neg := value <? 0 in
    absvalue ← (if neg then i64 (- value) else Some value);
    let result := abs_bytes 8 (u64 absvalue) in
    Some (if negb (Z.land (back result) 0x80 =? 0) then result ++ [if neg then 0x80 else 0]
          else if neg then set_back result (Z.lor (back result) 0x80) else result).

(** The loop [result |= static_cast<int64_t>(vch[i]) << 8*i]. *)
Fixpoint set_vch_loop (i : nat) (vch : list Z) (result : Z) : option Z :=
  match vch with
  | [] => Some result
  | b :: vch =>
      if (i <? 8)%nat then set_vch_loop (S i) vch (Z.lor result (s64 (Z.shiftl b (8 * Z.of_nat i)))) else None
  end.

(** [CScriptNum::set_vch]. *)
Definition set_vch (vch : list Z) : option Z :=
  match vch with
  | [] => Some 0
  | _ =>
      result ← set_vch_loop 0 vch 0;
      Some (if negb (Z.land (back vch) 0x80 =? 0)
            then - s64 (Z.land (u64 result) (Z.lnot (Z.shiftl 0x80 (8 * (Zlen vch - 1)))))
            else result)
  end.

(** The test for a minimal encoding. *)
Definition num_minimal (vch : list Z) : bool :=
  negb ((0 <? Zlen vch) && (Z.land (back vch) 0x7f =? 0)
        && ((Zlen vch <=? 1) || (Z.land (rd vch (length vch - 2)) 0x80 =? 0))).

(** The constructor [CScriptNum(vch, fRequireMinimal, nMaxNumSize)]. *)
Definition CScriptNum (vch : list Z) (fRequireMinimal : bool) (nMaxNumSize : nat) : outcome Z :=
  if (nMaxNumSize <? length vch)%nat then Throw scriptnum_error
  else if fRequireMinimal && negb (num_minimal vch) then Throw scriptnum_error
  else defined (set_vch vch).

Definition getint (m_value : Z) : Z :=
  if INT_MAX <? m_value then INT_MAX else if m_value <? INT_MIN then INT_MIN else m_value.

(** [operator-], [operator+=] and [operator-=] assert that they do not overflow. *)
Definition num_neg (m_value : Z) : outcome Z :=
  if m_value =? - 2 ^ 63 then Assert else Ret (- m_value).
Definition num_add_assign (m_value rhs : Z) : outcome Z :=
  if (rhs =? 0) || ((0 <? rhs) && (m_value <=? 2 ^ 63 - 1 - rhs)) || ((rhs <? 0) && (- 2 ^ 63 - rhs <=? m_value))
  then Ret (m_value + rhs) else Assert.
Definition num_sub_assign (m_value rhs : Z) : outcome Z :=
  if (rhs =? 0) || ((0 <? rhs) && (- 2 ^ 63 + rhs <=? m_value)) || ((rhs <? 0) && (m_value <=? 2 ^ 63 - 1 + rhs))
  then Ret (m_value - rhs) else Assert.
(** [operator+] and [operator-] of two numbers. *)
Definition num_add (a b : Z) : outcome Z := defined (i64 (a + b)).
Definition num_sub (a b : Z) : outcome Z := defined (i64 (a - b)).
Definition getvch (m_value : Z) : outcome (list Z) := defined (serialize m_value).

(** ** Appending to a script *)

(** [operator<<(const std::vector<unsigned char>&)]: what is appended. *)
Definition push_data (b : list Z) : list Z :=
  (if Zlen b <? OP_PUSHDATA1 then [Zlen b]
   else if Zlen b <=? 0xff then [code OP_PUSHDATA1; Zlen b]
   else if Zlen b <=? 0xffff then code OP_PUSHDATA2 :: le_bytes 2 (Zlen b)
   else code OP_PUSHDATA4 :: le_bytes 4 (Zlen b)) ++ b.

(** [push_int64]. *)
Definition push_int64 (n : Z) : option (list Z) :=
  if (n =? -1) || ((1 <=? n) && (n <=? 16)) then Some [u8 (n + (OP_1 - 1))]
  else if n =? 0 then Some [code OP_0]
  else v ← serialize n; Some (push_data v).

(** [DecodeOP_N] and [EncodeOP_N]; [None] is the assertion. *)
Definition DecodeOP_N (opcode : opcodetype) : option Z :=
  if op_eq opcode OP_0 then Some 0
  else if op_le OP_1 opcode && op_le opcode OP_16 then Some (opcode - (OP_1 - 1)) else None.
Definition EncodeOP_N (n : Z) : option opcodetype :=
  if (0 <=? n) && (n <=? 16) then Some (if n =? 0 then OP_0 else opcode_of (OP_1 + n - 1)) else None.

(** ** Reading instructions *)

(** What [GetOp2] leaves: its result, the iterator, the opcode and the operand. *)
Record op_read := OpRead { or_ok : bool; or_pc : list Z; or_op : opcodetype; or_data : list Z }.

Definition op_fail (pc : list Z) : op_read := OpRead false pc OP_INVALIDOPCODE [].

(** The operand of [nSize] bytes. *)
Definition GetOperand (opcode : Z) (nSize : Z) (pc : list Z) : op_read :=
  if Zlen pc <? nSize then op_fail pc
  else OpRead true (drop (Z.to_nat nSize) pc) (opcode_of opcode) (take (Z.to_nat nSize) pc).

(** [GetOp2]; the iterator moves over what was read, also when the rest is missing. *)
Definition GetOp2 (pc : list Z) : op_read :=
  match pc with
  | [] => op_fail pc
  | opcode :: pc =>
      if opcode <=? OP_PUSHDATA4 then
        if opcode <? OP_PUSHDATA1 then GetOperand opcode opcode pc
        else if opcode =? OP_PUSHDATA1 then
          match pc with
          | nSize :: pc => GetOperand opcode nSize pc
          | [] => op_fail pc
          end
        else if opcode =? OP_PUSHDATA2 then
          if Zlen pc <? 2 then op_fail pc else GetOperand opcode (le_num (take 2 pc)) (drop 2 pc)
        else
          if Zlen pc <? 4 then op_fail pc else GetOperand opcode (le_num (take 4 pc)) (drop 4 pc)
      else OpRead true pc (opcode_of opcode) []
  end.

(** [while (pc < end()) { GetOp(pc, ...); ... }]: the body goes on with a new
    state or returns.  One turn reads at least one byte, so the length of the
    script is enough turns ([scan_eq]). *)
Section Scan.
Context {S R : Type} (body : S -> op_read -> S + R) (finish : S -> R).

Fixpoint scan_turns (turns : nat) (s : S) (pc : list Z) : R :=
  match pc, turns with
  | _ :: _, Datatypes.S turns =>
      let r := GetOp2 pc in
      match body s r with inl s' => scan_turns turns s' (or_pc r) | inr x => x end
  | _, _ => finish s
  end.
Definition scan (s : S) (pc : list Z) : R := scan_turns (length pc) s pc.

End Scan.

(** ** Functions on scripts (script.cpp) *)

Definition MAX_SCRIPT_ELEMENT_SIZE : Z := 520.
Definition MAX_SCRIPT_CRYPTOCONDITION_FULFILLMENT_SIZE : Z := 2048.
Definition LOCKTIME_THRESHOLD : Z := 500000000.
Definition EVAL_IMPORTCOIN : Z := 0xe2.

(** The body of the loop of [GetSigOpCount(bool)], on [n] and [lastOpcode];
    [None] is the assertion of [DecodeOP_N]. *)
Definition sigop_body (fAccurate : bool) (st : Z * opcodetype) (r : op_read) : (Z * opcodetype) + option Z :=
  let '(n, lastOpcode) := st in
  if negb (or_ok r) then inr (Some n)
  else
    let opcode := or_op r in
    if op_eq opcode OP_CHECKSIG || op_eq opcode OP_CHECKSIGVERIFY then inl (u32 (n + 1), opcode)
    else if op_eq opcode OP_CHECKMULTISIG || op_eq opcode OP_CHECKMULTISIGVERIFY then
      if fAccurate && op_le OP_1 lastOpcode && op_le lastOpcode OP_16 then
        match DecodeOP_N lastOpcode with
        | Some k => inl (u32 (n + k), opcode)
        | None => inr None
        end
      else inl (u32 (n + 20), opcode)
    else inl (n, opcode).

Definition GetSigOpCount (script : list Z) (fAccurate : bool) : option Z :=
  scan (sigop_body fAccurate) (fun st => Some st.1) (0, OP_INVALIDOPCODE) script.

Definition IsPayToPublicKeyHash (script : list Z) : bool :=
  (Zlen script =? 25) && (rd script 0 =? OP_DUP) && (rd script 1 =? OP_HASH160) && (rd script 2 =? 0x14)
  && (rd script 23 =? OP_EQUALVERIFY) && (rd script 24 =? OP_CHECKSIG).

Definition IsPayToPublicKey (script : list Z) : bool :=
  (Zlen script =? 35) && (rd script 0 =? 33) && (rd script 34 =? OP_CHECKSIG).

Definition IsPayToScriptHash (script : list Z) : bool :=
  (Zlen script =? 23) && (rd script 0 =? OP_HASH160) && (rd script 1 =? 0x14) && (rd script 22 =? OP_EQUAL).

(** [GetSigOpCount(const CScript& scriptSig)]: the last operand read is the script
    a pay-to-script-hash output is spent with. *)
Definition last_data_body (data : list Z) (r : op_read) : list Z + option (list Z) :=
  if negb (or_ok r) then inr None else if negb (op_le (or_op r) OP_16) then inr None else inl (or_data r).
Definition GetSigOpCountP2SH (script scriptSig : list Z) : option Z :=
  if negb (IsPayToScriptHash script) then GetSigOpCount script true
  else match scan last_data_body Some [] scriptSig with
       | None => Some 0
       | Some subscript => GetSigOpCount subscript true
       end.

(** The value a push instruction is listed with. *)
Definition listed_data (r : op_read) : option (list Z) :=
  if op_eq (or_op r) OP_0 then Some [0]
  else if op_le OP_1 (or_op r) && op_le (or_op r) OP_16 then Some [u8 (or_op r - OP_1 + 1)]
  else if (0 <? or_op r) && op_le (or_op r) OP_PUSHDATA4 && (0 <? Zlen (or_data r)) then Some (or_data r)
  else None.

(** The body of [GetBalancedData], on [netPushes] and [vSolutions]. *)
Definition balanced_body (st : Z * list (list Z)) (r : op_read) : (Z * list (list Z)) + option (list (list Z)) :=
  let '(netPushes, vSolutions) := st in
  if negb (or_ok r) then inr None
  else if op_eq (or_op r) OP_DROP then
    if netPushes - 1 <? 0 then inr None else inl (netPushes - 1, vSolutions)
  else match listed_data r with
       | Some data => inl (netPushes + 1, vSolutions ++ [data])
       | None => inr None
       end.
(** [GetBalancedData]: [vSolutions] when it returns true. *)
Definition GetBalancedData (pc : list Z) : option (list (list Z)) :=
  scan balanced_body (fun st => if st.1 =? 0 then Some st.2 else None) (0, []) pc.

(** The body of [GetPushedData]; a failing [GetOp] is passed over. *)
Definition pushed_body (vData : list (list Z)) (r : op_read) : list (list Z) + (bool * list (list Z)) :=
  if or_ok r then
    match listed_data r with
    | Some data => inl (vData ++ [data])
    | None => inr (false, vData)
    end
  else inl vData.
(** [GetPushedData]: the result and [vData]. *)
Definition GetPushedData (pc : list Z) : bool * list (list Z) :=
  scan pushed_body (fun vData => (negb (Zlen vData =? 0), vData)) [] pc.

(** [GetOpretData]; [vData] is left alone when the script is not an [OP_RETURN]. *)
Definition GetOpretData (script : list Z) (vData : list (list Z)) : bool * list (list Z) :=
  let r := GetOp2 script in
  if or_ok r && op_eq (or_op r) OP_RETURN then GetPushedData (or_pc r) else (false, vData).

Definition IsOpReturn (script : list Z) : bool := (0 <? Zlen script) && (rd script 0 =? OP_RETURN).

(** [IsPayToCryptoCondition]: [*ccSubScript] and [vParams] when it returns true. *)
Definition IsPayToCryptoCondition (script : list Z) : option (list Z * list (list Z)) :=
  let r := GetOp2 script in
  if or_ok r && (negb (op_le (or_op r) OP_0) && (or_op r <? OP_PUSHDATA1)) then
    let r2 := GetOp2 (or_pc r) in
    if or_ok r2 && op_eq (or_op r2) OP_CHECKCRYPTOCONDITION then
      vParams ← GetBalancedData (or_pc r2);
      Some (take (length script - length (or_pc r2)) script, vParams)
    else None
  else None.

(** [IsCoinImport]; [None] is the access to the first byte of an empty operand. *)
Definition IsCoinImport (script : list Z) : option bool :=
  let r := GetOp2 script in
  if or_ok r && (negb (op_le (or_op r) OP_0) && op_le (or_op r) OP_PUSHDATA4) then
    b ← or_data r !! 0%nat; Some (b =? EVAL_IMPORTCOIN)
  else Some false.

(** [IsPushOnly]. *)
Definition push_only_body (_ : unit) (r : op_read) : unit + bool :=
  if negb (or_ok r) then inr false else if negb (op_le (or_op r) OP_16) then inr false else inl tt.
Definition IsPushOnly (script : list Z) : bool := scan push_only_body (fun _ => true) tt script.

(** The loop that reads the lock time, most significant byte first. *)
Definition unlock_time (param : list Z) : Z :=
  foldr (fun b acc => Z.lor (Z.shiftl acc 8) b) 0 param.
(** [IsCheckLockTimeVerify]: [*unlockTime] when it returns true; [None] is the
    access past the end of the script. *)
Definition IsCheckLockTimeVerify (script : list Z) : option (option Z) :=
  let r := GetOp2 script in
  if or_ok r && (Zlen (or_data r) <? 6) then
    b ← script !! (length (or_data r) + 1)%nat;
    Some (if b =? OP_CHECKLOCKTIMEVERIFY then Some (unlock_time (or_data r)) else None)
  else Some None.

(** ** Reading moves forward *)

Lemma GetOperand_pc opcode nSize pc : (length (or_pc (GetOperand opcode nSize pc)) <= length pc)%nat.
Proof. unfold GetOperand. destruct (_ <? _); cbn [or_pc op_fail]; [done |]. rewrite length_drop. lia. Qed.

Lemma GetOp2_shorter b pc : (length (or_pc (GetOp2 (b :: pc))) <= length pc)%nat.
Proof.
  unfold GetOp2. destruct (_ <=? _); [| done]. destruct (_ <? _); [apply GetOperand_pc |].
  destruct (_ =? _).
  { destruct pc as [| n pc]; [done |]. pose proof (GetOperand_pc b n pc). cbn [length]. lia. }
  destruct (_ =? _); (destruct (_ <? _); [done |]).
  - pose proof (GetOperand_pc b (le_num (take 2 pc)) (drop 2 pc)) as H. rewrite length_drop in H. lia.
  - pose proof (GetOperand_pc b (le_num (take 4 pc)) (drop 4 pc)) as H. rewrite length_drop in H. lia.
Qed.

Section ScanLemmas.
Context {S R : Type} (body : S -> op_read -> S + R) (finish : S -> R).

Lemma scan_turns_enough n m s pc :
  (length pc <= n)%nat -> (length pc <= m)%nat ->
  scan_turns body finish n s pc = scan_turns body finish m s pc.
Proof.
  revert m s pc. induction n as [| n IH]; intros m s [| b pc] Hn Hm; cbn [length] in *; try lia.
  - by destruct m.
  - by destruct m.
  - destruct m as [| m]; [lia |]. cbn [scan_turns]. destruct (body s _); [| done].
    pose proof (GetOp2_shorter b pc). apply IH; lia.
Qed.

(** The loop as the source writes it: no bound on the turns is felt. *)
Lemma scan_eq s pc :
  scan body finish s pc =
  match pc with
  | [] => finish s
  | _ :: _ => match body s (GetOp2 pc) with inl s' => scan body finish s' (or_pc (GetOp2 pc)) | inr x => x end
  end.
Proof.
  unfold scan. destruct pc as [| b pc]; [done |]. cbn [length scan_turns].
  destruct (body s _); [| done]. apply scan_turns_enough; [apply GetOp2_shorter | done].
Qed.

(** Reasoning about a loop: [P] holds at every turn, [Q] of every result. *)
Lemma scan_ind (P : S -> list Z -> Prop) (Q : R -> Prop) s pc :
  (forall s b pc, P s (b :: pc) ->
     match body s (GetOp2 (b :: pc)) with inl s' => P s' (or_pc (GetOp2 (b :: pc))) | inr x => Q x end) ->
  (forall s, P s [] -> Q (finish s)) ->
  P s pc -> Q (scan body finish s pc).
Proof.
  intros Hbody Hend. remember (length pc) as n eqn:E. assert (length pc <= n)%nat as Hn by lia. clear E.
  revert s pc Hn. induction n as [| n IH]; intros s [| b pc] Hn Hs; cbn [length] in Hn; try lia;
    rewrite scan_eq; [by apply Hend | by apply Hend |].
  specialize (Hbody s b pc Hs). destruct (body s _); [| done].
  apply IH; [| done]. pose proof (GetOp2_shorter b pc). lia.
Qed.

End ScanLemmas.

(** ** Script numbers: lemmas *)

Lemma byte_sign b : byte_ok b -> (Z.land b 0x80 =? 0) = (b <? 0x80).
Proof.
  intros Hb. apply (Zrange_check 256 (fun b => (Z.land b 0x80 =? 0) = (b <? 0x80))); [by vm_compute | exact Hb].
Qed.

Lemma byte_rest b : byte_ok b -> Z.land b 0x7f = b mod 128.
Proof. intros _. change 0x7f with (Z.ones 7). by rewrite Z.land_ones. Qed.

Lemma byte_set_sign b : 0 <= b < 128 -> Z.lor b 0x80 = b + 128.
Proof.
  intros Hb. apply (Zrange_check 128 (fun b => Z.lor b 0x80 = b + 128)); [by vm_compute | exact Hb].
Qed.

Lemma back_snoc l b : back (l ++ [b]) = b.
Proof.
  unfold back, rd. rewrite length_app. cbn [length]. rewrite app_nth2 by lia.
  by replace (length l + 1 - 1 - length l)%nat with O by lia.
Qed.

Lemma set_back_snoc l b c : set_back (l ++ [b]) c = l ++ [c].
Proof.
  unfold set_back. rewrite length_app. cbn [length]. rewrite Nat.add_sub, take_app_length. done.
Qed.

Lemma Zlen_snoc (l : list Z) b : Zlen (l ++ [b]) = Zlen l + 1.
Proof. rewrite Zlen_app. by unfold Zlen at 2. Qed.

Lemma le_num_snoc l b : le_num (l ++ [b]) = le_num l + 2 ^ (8 * Zlen l) * b.
Proof. rewrite le_num_app. cbn [le_num]. lia. Qed.

(** Without leading zeros a number has one list of bytes. *)
Lemma abs_bytes_le_num n l b :
  bytes_ok (l ++ [b]) -> b <> 0 -> (length l < n)%nat -> abs_bytes n (le_num (l ++ [b])) = l ++ [b].
Proof.
  revert n. induction l as [| c l IH]; intros [| n] Hok Hb Hn; cbn [length] in Hn; try lia; cbn [app] in *.
  - pose proof (Forall_inv Hok) as Hb'. unfold byte_ok in Hb'. cbn [le_num abs_bytes].
    rewrite (proj2 (Z.eqb_neq _ 0)) by lia. rewrite land_255, Z.shiftr_div_pow2 by lia.
    replace (b + 256 * 0) with b by lia. rewrite Z.mod_small by lia.
    rewrite (Z.div_small b (2 ^ 8)) by lia. by destruct n.
  - inversion_clear Hok as [| ? ? Hc Hl]. unfold byte_ok in Hc.
    assert (0 < le_num (l ++ [b])) as Hpos.
    { apply bytes_ok_app in Hl as [Hl1 Hl2%Forall_inv]. unfold byte_ok in Hl2. rewrite le_num_snoc.
      pose proof (le_num_bounds l Hl1). pose proof (Zlen_nonneg l).
      pose proof (Z.pow_pos_nonneg 2 (8 * Zlen l) ltac:(lia) ltac:(lia)). nia. }
    cbn [le_num abs_bytes]. rewrite (proj2 (Z.eqb_neq _ 0)) by lia.
    rewrite land_255, Z.shiftr_div_pow2 by lia. change (2 ^ 8) with 256.
    rewrite <-(Z.mod_unique (c + 256 * le_num (l ++ [b])) 256 (le_num (l ++ [b])) c) by lia.
    replace ((c + 256 * le_num (l ++ [b])) / 256) with (le_num (l ++ [b])) by (apply (Z.div_unique _ _ _ c); lia).
    rewrite IH; [done | done | done | lia].
Qed.

(** Every positive number of [n] bytes is one without leading zeros. *)
Lemma abs_bytes_snoc n x :
  0 < x < 2 ^ (8 * Z.of_nat n) ->
  exists l b, x = le_num (l ++ [b]) /\ bytes_ok (l ++ [b]) /\ b <> 0 /\ (length l < n)%nat.
Proof.
  revert x. induction n as [| n IH]; intros x Hx; [cbn in Hx; lia |].
  destruct (Z.eq_dec (x / 256) 0) as [E | E].
  - exists [], x. cbn [app le_num length]. assert (0 < x < 256) by mlia.
    split; [lia |]. split; [constructor; [unfold byte_ok; lia | constructor] |]. lia.
  - replace (8 * Z.of_nat (S n)) with (8 + 8 * Z.of_nat n) in Hx by lia. rewrite Z.pow_add_r in Hx by lia.
    destruct (IH (x / 256)) as (l & b & Hx' & Hok & Hb & Hl).
    { split; [mlia |]. apply Z.div_lt_upper_bound; lia. }
    exists (x mod 256 :: l), b. cbn [app le_num length]. rewrite <-Hx'. split; [mlia |].
    split; [constructor; [unfold byte_ok; mlia | done] |]. split; [done | lia].
Qed.

Lemma clear_top_bit j r : 0 <= j -> 0 <= r < 2 ^ j -> Z.ldiff (2 ^ j + r) (2 ^ j) = r.
Proof.
  intros Hj Hr. rewrite <-(Z.mul_1_l (2 ^ j)) at 1. rewrite <-lor_add by lia. rewrite Z.mul_1_l.
  apply Z.bits_inj'. intros i Hi. rewrite Z.ldiff_spec, Z.lor_spec, Z.pow2_bits_eqb by lia.
  destruct (Z.eqb_spec j i) as [<- | _]; cbn; [| by rewrite andb_true_r].
  symmetry. by apply (is_u_testbit j); [| done | lia].
Qed.

Lemma or_byte i result b :
  (i < 8)%nat -> byte_ok b -> 0 <= result < 2 ^ (8 * Z.of_nat i) ->
  Z.lor result (s64 (Z.shiftl b (8 * Z.of_nat i))) = s64 (result + 2 ^ (8 * Z.of_nat i) * b).
Proof.
  intros Hi Hb Hr. unfold byte_ok in Hb. rewrite Z.shiftl_mul_pow2, Z.lor_comm by lia.
  set (k := 8 * Z.of_nat i) in *.
  pose proof (Z.pow_pos_nonneg 2 k ltac:(lia) ltac:(lia)) as Hp.
  assert (256 * 2 ^ k <= 2 ^ 64) as H64.
  { change 256 with (2 ^ 8). rewrite <-Z.pow_add_r by lia. apply Z.pow_le_mono_r; lia. }
  assert (2 ^ 64 = 2 ^ (64 - k) * 2 ^ k) as E64 by (rewrite <-Z.pow_add_r by lia; f_equal; lia).
  assert (2 ^ 63 = 2 ^ (63 - k) * 2 ^ k) as E63 by (rewrite <-Z.pow_add_r by lia; f_equal; lia).
  destruct (Z.lt_ge_cases b (2 ^ (63 - k))) as [H | H].
  - assert (b * 2 ^ k + 2 ^ k <= 2 ^ 63) by nia.
    rewrite (s64_id (b * 2 ^ k)), (s64_id (result + _)); unfold is_s64; [| nia | nia].
    rewrite lor_add by lia. lia.
  - assert (forall x, 2 ^ 63 <= x < 2 ^ 64 -> s64 x = x - 2 ^ 64) as Hs.
    { intros x Hx. unfold s64.
      assert ((x + 2 ^ 63) mod 2 ^ 64 = x - 2 ^ 63) as -> by (symmetry; apply (Z.mod_unique_pos _ _ 1); lia). lia. }
    assert (2 ^ 63 <= b * 2 ^ k) by (rewrite E63; apply Z.mul_le_mono_nonneg_r; lia).
    assert (b * 2 ^ k + result < 2 ^ 64) by nia.
    rewrite !Hs by lia. rewrite E64, <-Z.mul_sub_distr_r, lor_add by lia. lia.
Qed.

Lemma set_vch_loop_spec vch b i result :
  bytes_ok (vch ++ [b]) -> (i + length vch < 8)%nat -> 0 <= result < 2 ^ (8 * Z.of_nat i) ->
  set_vch_loop i (vch ++ [b]) result = Some (s64 (result + 2 ^ (8 * Z.of_nat i) * le_num (vch ++ [b]))).
Proof.
  revert i result. induction vch as [| c vch IH]; intros i result Hok Hi Hr;
    cbn [set_vch_loop length le_num app] in *; rewrite (proj2 (Nat.ltb_lt i 8)) by lia;
    (rewrite or_byte; [| lia | by eapply Forall_inv | done]).
  - do 2 f_equal. lia.
  - inversion_clear Hok as [| ? ? Hc Hl]. unfold byte_ok in Hc.
    assert (2 ^ (8 * Z.of_nat (S i)) = 2 ^ (8 * Z.of_nat i) * 256) as E.
    { replace (8 * Z.of_nat (S i)) with (8 * Z.of_nat i + 8) by lia. by rewrite Z.pow_add_r by lia. }
    pose proof (Z.pow_le_mono_r 2 (8 * Z.of_nat (S i)) 56 ltac:(lia) ltac:(lia)).
    rewrite (s64_id (result + _)) by (unfold is_s64; nia).
    rewrite IH; [| done | lia | nia]. do 2 f_equal. nia.
Qed.

(** What the bytes of a number stand for: sign and magnitude. *)
Lemma set_vch_snoc l b :
  bytes_ok (l ++ [b]) -> (length l < 8)%nat ->
  set_vch (l ++ [b]) = Some (if b <? 128 then le_num (l ++ [b]) else - le_num (l ++ [b - 128])).
Proof.
  intros Hok Hl. pose proof Hok as [Hok1 Hb%Forall_inv]%bytes_ok_app. unfold byte_ok in Hb.
  assert (set_vch (l ++ [b]) = (result ← set_vch_loop 0 (l ++ [b]) 0;
      Some (if negb (Z.land (back (l ++ [b])) 0x80 =? 0)
            then - s64 (Z.land (u64 result) (Z.lnot (Z.shiftl 0x80 (8 * (Zlen (l ++ [b]) - 1)))))
            else result))) as -> by (unfold set_vch; by destruct l).
  rewrite (set_vch_loop_spec l b 0 0) by (try done; cbn; lia). cbn [mbind option_bind].
  rewrite back_snoc, (byte_sign b) by done. rewrite Zlen_snoc. f_equal.
  replace (0 + 2 ^ (8 * Z.of_nat 0) * le_num (l ++ [b])) with (le_num (l ++ [b])) by lia.
  replace (8 * (Zlen l + 1 - 1)) with (8 * Zlen l) by lia. rewrite !le_num_snoc.
  pose proof (le_num_bounds l Hok1) as Hn. set (k := 8 * Zlen l) in *.
  assert (0 <= k <= 56) as Hk by (subst k; unfold Zlen; lia).
  pose proof (Z.pow_pos_nonneg 2 k ltac:(lia) ltac:(lia)) as Hp.
  assert (128 * 2 ^ k <= 2 ^ 63) as H63.
  { change 128 with (2 ^ 7). rewrite <-Z.pow_add_r by lia. apply Z.pow_le_mono_r; lia. }
  destruct (Z.ltb_spec b 128) as [H | H]; cbn [negb].
  - rewrite s64_id; [lia | unfold is_s64; nia].
  - assert (u64 (s64 (le_num l + 2 ^ k * b)) = le_num l + 2 ^ k * b) as ->.
    { unfold u64, s64. rewrite Zminus_mod_idemp_l, Z.add_simpl_r. apply Z.mod_small. nia. }
    rewrite Z.shiftl_mul_pow2, <-Z.ldiff_land by lia.
    replace (le_num l + 2 ^ k * b) with (128 * 2 ^ k + (le_num l + 2 ^ k * (b - 128))) by lia.
    change 128 with (2 ^ 7) at 1 3. rewrite <-!Z.pow_add_r by lia.
    rewrite clear_top_bit; [| lia |].
    + rewrite s64_id; [lia | unfold is_s64; nia].
    + rewrite Z.pow_add_r by lia. change (2 ^ 7) with 128. nia.
Qed.

(** Encoding a number, by its magnitude without leading zeros. *)
Lemma serialize_snoc (neg : bool) l b :
  bytes_ok (l ++ [b]) -> b <> 0 -> (length l < 8)%nat -> le_num (l ++ [b]) < 2 ^ 63 ->
  serialize (if neg then - le_num (l ++ [b]) else le_num (l ++ [b])) =
  Some (if b <? 128 then l ++ [if neg then b + 128 else b] else (l ++ [b]) ++ [if neg then 128 else 0]).
Proof.
  intros Hok Hb Hl Hv. pose proof Hok as [Hok1 Hb'%Forall_inv]%bytes_ok_app. unfold byte_ok in Hb'.
  assert (0 < le_num (l ++ [b])) as Hpos.
  { rewrite le_num_snoc. pose proof (le_num_bounds l Hok1). pose proof (Zlen_nonneg l).
    pose proof (Z.pow_pos_nonneg 2 (8 * Zlen l) ltac:(lia) ltac:(lia)). nia. }
  pose proof (abs_bytes_le_num 8 l b Hok Hb Hl) as Habs. set (v := le_num (l ++ [b])) in *.
  assert (u64 v = v) as Hu by (apply u64_id; unfold is_u; lia).
  unfold serialize. destruct neg.
  - rewrite (proj2 (Z.eqb_neq (- v) 0)), (proj2 (Z.ltb_lt (- v) 0)) by lia. rewrite Z.opp_involutive.
    unfold i64. rewrite decide_True by (unfold is_s64; lia). cbn [mbind option_bind].
    rewrite Hu, Habs, back_snoc, byte_sign, negb_if by done.
    destruct (Z.ltb_spec b 128); [| done]. by rewrite set_back_snoc, byte_set_sign by lia.
  - rewrite (proj2 (Z.eqb_neq v 0)), (proj2 (Z.ltb_ge v 0)) by lia. cbn [mbind option_bind].
    rewrite Hu, Habs, back_snoc, byte_sign, negb_if by done. by destruct (b <? 128).
Qed.

Lemma num_minimal_snoc l b :
  bytes_ok (l ++ [b]) ->
  num_minimal (l ++ [b]) = negb ((b mod 128 =? 0) && ((Zlen l =? 0) || (back l <? 128))).
Proof.
  intros Hok. pose proof Hok as [Hok1 Hb%Forall_inv]%bytes_ok_app. unfold num_minimal.
  rewrite back_snoc, byte_rest by done. rewrite Zlen_snoc. pose proof (Zlen_nonneg l) as Hnn.
  rewrite (proj2 (Z.ltb_lt 0 _)) by lia. cbn [andb]. do 2 f_equal.
  destruct (Z.eqb_spec (Zlen l) 0) as [E | E]; [by rewrite E |].
  rewrite (proj2 (Z.leb_gt _ 1)) by lia. cbn [orb].
  rewrite length_app. cbn [length]. rewrite rd_app_l by (unfold Zlen in E; lia).
  replace (length l + 1 - 2)%nat with (length l - 1)%nat by lia. fold (back l).
  apply byte_sign. by apply rd_ok.
Qed.

(** A byte below 128 ends a magnitude that leaves room for the sign. *)
Lemma magnitude_room l b :
  bytes_ok (l ++ [b]) -> 128 <= b -> (length l < 8)%nat -> le_num (l ++ [b]) < 2 ^ 63 -> (length l < 7)%nat.
Proof.
  intros [Hok Hb%Forall_inv]%bytes_ok_app H Hl Hv. rewrite le_num_snoc in Hv.
  pose proof (le_num_bounds l Hok). destruct (decide (length l = 7%nat)) as [E |]; [| lia].
  exfalso. unfold Zlen in *. rewrite E in *. change (2 ^ (8 * Z.of_nat 7)) with (2 ^ 56) in *. lia.
Qed.

Lemma magnitude_small l b :
  bytes_ok (l ++ [b]) -> b < 128 -> (length l < 8)%nat -> le_num (l ++ [b]) < 2 ^ 63.
Proof.
  intros [Hok Hb%Forall_inv]%bytes_ok_app H Hl. rewrite le_num_snoc. unfold byte_ok in Hb.
  pose proof (le_num_bounds l Hok) as Hn. pose proof (Zlen_nonneg l).
  pose proof (Z.pow_pos_nonneg 2 (8 * Zlen l) ltac:(lia) ltac:(lia)).
  assert (128 * 2 ^ (8 * Zlen l) <= 2 ^ 63).
  { change 128 with (2 ^ 7). rewrite <-Z.pow_add_r by lia. apply Z.pow_le_mono_r; unfold Zlen; lia. }
  nia.
Qed.

Lemma bytes_ok_snoc l b : bytes_ok l -> byte_ok b -> bytes_ok (l ++ [b]).
Proof. intros Hl Hb. apply bytes_ok_app. split; [done | by constructor]. Qed.

(** A number and the bytes of its encoding determine each other. *)
Lemma serialize_set_vch n :
  - 2 ^ 63 < n < 2 ^ 63 ->
  exists vch, serialize n = Some vch /\ set_vch vch = Some n /\ num_minimal vch = true
              /\ bytes_ok vch /\ (length vch <= 8)%nat.
Proof.
  intros Hn. destruct (Z.eq_dec n 0) as [-> | Hnz].
  { exists []. repeat split; [constructor | cbn; lia]. }
  destruct (abs_bytes_snoc 8 (Z.abs n)) as (l & b & Hv & Hok & Hb & Hl).
  { change (8 * Z.of_nat 8) with 64. lia. }
  assert (n = if n <? 0 then - le_num (l ++ [b]) else le_num (l ++ [b])) as En by (destruct (Z.ltb_spec n 0); lia).
  assert (le_num (l ++ [b]) < 2 ^ 63) as Hlt by lia.
  pose proof (serialize_snoc (n <? 0) l b Hok Hb Hl Hlt) as Hs. rewrite <-En in Hs.
  pose proof Hok as [Hok1 Hb'%Forall_inv]%bytes_ok_app. unfold byte_ok in Hb'.
  eexists. split; [exact Hs |]. destruct (Z.ltb_spec b 128) as [H | H].
  - assert (bytes_ok (l ++ [if n <? 0 then b + 128 else b])) as Hok2.
    { apply bytes_ok_snoc; [done |]. unfold byte_ok. destruct (n <? 0); lia. }
    rewrite set_vch_snoc, num_minimal_snoc by done. rewrite length_app. cbn [length]. repeat split; [| | done | lia].
    + rewrite En at 4. destruct (n <? 0); [rewrite (proj2 (Z.ltb_ge (b + 128) 128)) by lia | by rewrite (proj2 (Z.ltb_lt b 128)) by lia].
      by rewrite Z.add_simpl_r.
    + replace ((if n <? 0 then b + 128 else b) mod 128) with b by (destruct (n <? 0); mlia).
      by rewrite (proj2 (Z.eqb_neq b 0)) by done.
  - pose proof (magnitude_room l b Hok H Hl Hlt) as Hl7.
    assert (bytes_ok ((l ++ [b]) ++ [if n <? 0 then 128 else 0])) as Hok2.
    { apply bytes_ok_snoc; [done |]. unfold byte_ok. destruct (n <? 0); lia. }
    rewrite set_vch_snoc, num_minimal_snoc by (try done; rewrite length_app; cbn; lia).
    rewrite !length_app. cbn [length]. repeat split; [| | done | lia].
    + rewrite En at 4. rewrite (le_num_snoc (l ++ [b])). destruct (n <? 0); cbn [Z.ltb Z.compare Pos.compare Pos.compare_cont].
      * rewrite le_num_snoc. f_equal. lia.
      * f_equal. lia.
    + rewrite back_snoc, (proj2 (Z.ltb_ge b 128)), Zlen_snoc by lia. pose proof (Zlen_nonneg l).
      rewrite (proj2 (Z.eqb_neq (Zlen l + 1) 0)) by lia. by rewrite andb_false_r.
Qed.

Lemma set_vch_serialize vch n :
  bytes_ok vch -> (length vch <= 8)%nat -> num_minimal vch = true -> set_vch vch = Some n ->
  serialize n = Some vch.
Proof.
  intros Hok Hl Hm Hn. destruct vch as [| b l _] using rev_ind; [by injection Hn as <- |].
  rewrite length_app in Hl. cbn [length] in Hl. pose proof Hok as [Hok1 Hb%Forall_inv]%bytes_ok_app. unfold byte_ok in Hb.
  rewrite set_vch_snoc in Hn by (try done; lia). rewrite num_minimal_snoc in Hm by done.
  destruct (Z.eqb_spec (b mod 128) 0) as [E | E].
  - (* an extra byte holds the sign *)
    destruct l as [| c l _] using rev_ind; [done |]. rewrite back_snoc, Zlen_snoc in Hm. pose proof (Zlen_nonneg l).
    rewrite (proj2 (Z.eqb_neq (Zlen l + 1) 0)) in Hm by lia. cbn [orb andb] in Hm. apply negb_true_iff, Z.ltb_ge in Hm.
    rewrite length_app in Hl. cbn [length] in Hl.
    assert (bytes_ok ((l ++ [c]) ++ [0])) as Hok0 by (apply bytes_ok_snoc; [done | unfold byte_ok; lia]).
    pose proof (magnitude_small (l ++ [c]) 0 Hok0 ltac:(lia) ltac:(rewrite length_app; cbn; lia)) as Hlt.
    rewrite le_num_snoc, Z.mul_0_r, Z.add_0_r in Hlt.
    pose proof (fun neg => serialize_snoc neg l c Hok1 ltac:(lia) ltac:(lia) Hlt) as Hs.
    rewrite (proj2 (Z.ltb_ge c 128)) in Hs by done. rewrite !(le_num_snoc (l ++ [c])) in Hn.
    assert (b = 0 \/ b = 128) as [-> | ->] by mlia; cbn [Z.ltb Z.compare Pos.compare Pos.compare_cont] in Hn;
      apply (inj Some) in Hn; subst n.
    + rewrite Z.mul_0_r, Z.add_0_r. exact (Hs false).
    + rewrite Z.mul_0_r, Z.add_0_r. exact (Hs true).
  - apply (inj Some) in Hn. subst n. destruct (Z.ltb_spec b 128) as [H | H].
    + assert (b <> 0) by (intros ->; done).
      rewrite (serialize_snoc false l b) by (try done; try lia; by apply magnitude_small; [| | lia]).
      by rewrite (proj2 (Z.ltb_lt b 128)).
    + assert (b - 128 <> 0) by (intros ?; apply E; by replace b with 128 by lia).
      assert (bytes_ok (l ++ [b - 128])) as Hok' by (apply bytes_ok_snoc; [done | unfold byte_ok; lia]).
      rewrite (serialize_snoc true l (b - 128)) by (try done; try lia; by apply magnitude_small; [| lia | lia]).
      rewrite (proj2 (Z.ltb_lt (b - 128) 128)) by lia. by rewrite Z.sub_add.
Qed.

(** ** Reading what was appended *)

(** The opcode of the instruction that pushes [b]. *)
Definition push_opcode (b : list Z) : opcodetype :=
  if Zlen b <? OP_PUSHDATA1 then opcode_of (Zlen b)
  else if Zlen b <=? 0xff then OP_PUSHDATA1
  else if Zlen b <=? 0xffff then OP_PUSHDATA2
  else OP_PUSHDATA4.

Lemma GetOperand_app opcode nSize b rest :
  nSize = Zlen b -> GetOperand opcode nSize (b ++ rest) = OpRead true rest (opcode_of opcode) b.
Proof.
  intros ->. unfold GetOperand. rewrite Zlen_app. pose proof (Zlen_nonneg rest).
  rewrite (proj2 (Z.ltb_ge _ _)) by lia. unfold Zlen. by rewrite Nat2Z.id, take_app_length, drop_app_length.
Qed.

Lemma le_size n (b : list Z) : Zlen b < 2 ^ (8 * Z.of_nat n) -> le_num (le_bytes n (Zlen b)) = Zlen b.
Proof. intros H. rewrite le_num_le_bytes. pose proof (Zlen_nonneg b). by apply Z.mod_small. Qed.

Lemma GetOp2_push b rest :
  Zlen b < 2 ^ 32 -> GetOp2 (push_data b ++ rest) = OpRead true rest (push_opcode b) b.
Proof.
  intros Hb. pose proof (Zlen_nonneg b) as Hnn. unfold push_data, push_opcode.
  change (code OP_PUSHDATA1) with 76. change (code OP_PUSHDATA2) with 77. change (code OP_PUSHDATA4) with 78.
  destruct (Z.ltb_spec (Zlen b) 76) as [H | H].
  { cbn [app]. unfold GetOp2. change (code OP_PUSHDATA4) with 78. change (code OP_PUSHDATA1) with 76.
    rewrite (proj2 (Z.leb_le _ 78)), (proj2 (Z.ltb_lt _ 76)) by lia. by apply GetOperand_app. }
  destruct (Z.leb_spec (Zlen b) 0xff) as [H1 | H1].
  { cbn [app GetOp2 code Z.leb Z.ltb Z.eqb Z.compare Pos.compare Pos.compare_cont Pos.eqb].
    by rewrite GetOperand_app. }
  destruct (Z.leb_spec (Zlen b) 0xffff) as [H2 | H2]; rewrite <-!app_assoc, <-?app_comm_cons;
    unfold GetOp2; cbn [code Z.leb Z.ltb Z.eqb Z.compare Pos.compare Pos.compare_cont Pos.eqb].
  - set (sz := le_bytes 2 (Zlen b)). assert (length sz = 2%nat) as El by apply length_le_bytes.
    rewrite Zlen_app. unfold Zlen at 1. rewrite El. pose proof (Zlen_nonneg (b ++ rest)).
    rewrite (proj2 (Z.ltb_ge _ 2)) by lia. rewrite <-El, take_app_length, drop_app_length.
    rewrite GetOperand_app; [done |]. by apply (le_size 2); cbn; lia.
  - set (sz := le_bytes 4 (Zlen b)). assert (length sz = 4%nat) as El by apply length_le_bytes.
    rewrite Zlen_app. unfold Zlen at 1. rewrite El. pose proof (Zlen_nonneg (b ++ rest)).
    rewrite (proj2 (Z.ltb_ge _ 4)) by lia. rewrite <-El, take_app_length, drop_app_length.
    rewrite GetOperand_app; [done |]. by apply (le_size 4).
Qed.

Lemma push_data_cons b : exists x l, push_data b = x :: l.
Proof. unfold push_data. repeat destruct (_ <? _); repeat destruct (_ <=? _); eauto. Qed.

Lemma push_opcode_range b : 0 <= code (push_opcode b) <= OP_PUSHDATA4 /\ (b <> [] -> 0 < code (push_opcode b)).
Proof.
  pose proof (Zlen_nonneg b). unfold push_opcode. destruct (Z.ltb_spec (Zlen b) OP_PUSHDATA1) as [Hl | _].
  - rewrite code_opcode_of. cbn [code] in *. split; [lia |]. intros Hb. destruct b; [done |]. unfold Zlen in *. cbn [length]. lia.
  - repeat destruct (_ <=? _); cbn [code]; lia.
Qed.

(** A loop over a script that begins with a push. *)
Lemma scan_push {S R} (body : S -> op_read -> S + R) (finish : S -> R) s b rest :
  Zlen b < 2 ^ 32 ->
  scan body finish s (push_data b ++ rest) =
  match body s (OpRead true rest (push_opcode b) b) with inl s' => scan body finish s' rest | inr x => x end.
Proof.
  intros Hb. pose proof (GetOp2_push b rest Hb) as Hg. destruct (push_data_cons b) as (x & l & E).
  rewrite E in *. rewrite <-app_comm_cons in *. by rewrite scan_eq, Hg.
Qed.

Lemma listed_push b rest : b <> [] -> listed_data (OpRead true rest (push_opcode b) b) = Some b.
Proof.
  intros Hb. pose proof (push_opcode_range b) as [Hr Hp]. specialize (Hp Hb). unfold listed_data, op_eq, op_le.
  cbn [or_op or_data] in *. cbn [code] in *. rewrite (proj2 (Z.eqb_neq _ 0)) by lia.
  rewrite (proj2 (Z.leb_gt 81 _)) by lia. cbn [andb]. rewrite (proj2 (Z.ltb_lt 0 _)), (proj2 (Z.leb_le _ 78)) by lia.
  assert ((0 <? Zlen b) = true) as ->; [| done]. apply Z.ltb_lt. destruct b; [done |]. unfold Zlen. cbn [length]. lia.
Qed.

(** A script of pushes. *)
Definition push_all (vData : list (list Z)) : list Z := concat (map push_data vData).

Lemma pushed_all vData acc :
  Forall (fun v => v <> [] /\ Zlen v < 2 ^ 32) vData ->
  scan pushed_body (fun vData => (negb (Zlen vData =? 0), vData)) acc (push_all vData) =
  (negb (Zlen (acc ++ vData) =? 0), acc ++ vData).
Proof.
  intros H. revert acc. induction H as [| v vData [Hv Hl] _ IH]; intros acc; unfold push_all; cbn [map concat].
  - by rewrite app_nil_r, scan_eq.
  - rewrite scan_push by done. unfold pushed_body at 1. cbn [or_ok]. rewrite listed_push by done.
    fold (push_all vData). rewrite IH. by rewrite <-app_assoc.
Qed.

Lemma push_only_all vData :
  Forall (fun v => Zlen v < 2 ^ 32) vData -> IsPushOnly (push_all vData) = true.
Proof.
  induction 1 as [| v vData Hl _ IH]; [done |]. unfold IsPushOnly, push_all. cbn [map concat].
  rewrite scan_push by done. unfold push_only_body at 1. cbn [or_ok negb or_op].
  pose proof (push_opcode_range v) as [Hr _]. unfold op_le. cbn [code] in *. by rewrite (proj2 (Z.leb_le _ 96)) by lia.
Qed.

(** The assertion of [DecodeOP_N] is never reached. *)
Lemma GetSigOpCount_total script fAccurate : exists n, GetSigOpCount script fAccurate = Some n.
Proof.
  unfold GetSigOpCount. apply (scan_ind _ _ (fun _ _ => True) (fun x => exists n, x = Some n)); [| by eauto | done].
  intros [n lastOpcode] b pc _. unfold sigop_body. destruct (negb _); [by eauto |].
  destruct (op_eq _ OP_CHECKSIG || _); [done |]. destruct (_ || _); [| done].
  destruct (fAccurate && _ && _) eqn:E; [| done]. apply andb_prop in E as [[_ E1]%andb_prop E2].
  unfold DecodeOP_N. rewrite E1, E2. by destruct (op_eq _ _).
Qed.

Lemma IsPayToScriptHash_inv script :
  IsPayToScriptHash script = true ->
  exists h, length h = 20%nat /\ script = [code OP_HASH160; 20] ++ h ++ [code OP_EQUAL].
Proof.
  unfold IsPayToScriptHash. intros E. split_andb. cbn [code] in *.
  assert (length script = 23%nat) as El by (unfold Zlen in *; lia).
  do 23 (destruct script as [| ? script]; [done |]). destruct script; [| done]. cbn [rd nth] in *. subst.
  eexists (_ :: _ :: _ :: _ :: _ :: _ :: _ :: _ :: _ :: _ :: _ :: _ :: _ :: _ :: _ :: _ :: _ :: _ :: _ :: _ :: []).
  split; [| cbn [app]; reflexivity]. done.
Qed.

Lemma IsPayToPublicKeyHash_inv script :
  IsPayToPublicKeyHash script = true ->
  exists h, length h = 20%nat
    /\ script = [code OP_DUP; code OP_HASH160; 20] ++ h ++ [code OP_EQUALVERIFY; code OP_CHECKSIG].
Proof.
  unfold IsPayToPublicKeyHash. intros E. split_andb. cbn [code] in *.
  assert (length script = 25%nat) as El by (unfold Zlen in *; lia).
  do 25 (destruct script as [| ? script]; [done |]). destruct script; [| done]. cbn [rd nth] in *. subst.
  eexists (_ :: _ :: _ :: _ :: _ :: _ :: _ :: _ :: _ :: _ :: _ :: _ :: _ :: _ :: _ :: _ :: _ :: _ :: _ :: _ :: []).
  split; [| cbn [app]; reflexivity]. done.
Qed.

(** ** Theorems *)

(** Script numbers have one encoding: every [int64_t] but the least is
    serialized to at most eight bytes that read back as the same number and pass
    the test for a minimal encoding, and bytes that pass the test are what the
    number they stand for is serialized to. *)
Theorem script_number_canonical :
  (forall n, - 2 ^ 63 < n < 2 ^ 63 ->
     exists vch, serialize n = Some vch /\ bytes_ok vch /\ (length vch <= 8)%nat
                 /\ CScriptNum vch true 8 = Ret n) /\
  (forall vch n, bytes_ok vch -> CScriptNum vch true 8 = Ret n -> serialize n = Some vch).
Proof.
  split.
  - intros n Hn. destruct (serialize_set_vch n Hn) as (vch & H1 & H2 & H3 & H4 & H5). exists vch. repeat split; try done.
    unfold CScriptNum. rewrite (proj2 (Nat.ltb_ge 8 _)), H3, H2 by lia. done.
  - intros vch n Hok H. unfold CScriptNum in H. destruct (Nat.ltb_spec 8 (length vch)); [done |].
    destruct (num_minimal vch) eqn:Em; [| done]. cbn [andb negb] in H. destruct (set_vch vch) eqn:E; [| done].
    injection H as ->. by apply set_vch_serialize.
Qed.

Lemma script_number_canonical_witness :
  serialize (-255) = Some [255; 128] /\ CScriptNum [255; 128] true 8 = Ret (-255) /\ serialize (-255) = Some [255; 128].
Proof.
  split; [reflexivity |]. split; [reflexivity |].
  apply (proj2 script_number_canonical); [| reflexivity].
  repeat (constructor; [unfold byte_ok; lia |]); constructor.
Defined.

(** The data of an [OP_RETURN] output is read back: after [OP_RETURN] and the
    pushes of non-empty values, [GetOpretData] returns those values in order. *)
Theorem opret_round_trip (vData old : list (list Z)) :
  vData <> [] -> Forall (fun v => v <> [] /\ Zlen v < 2 ^ 32) vData ->
  GetOpretData (code OP_RETURN :: push_all vData) old = (true, vData).
Proof.
  intros Hne H. unfold GetOpretData. change (GetOp2 (code OP_RETURN :: push_all vData)) with (OpRead true (push_all vData) OP_RETURN []).
  cbn [or_ok or_op or_pc andb]. change (op_eq OP_RETURN OP_RETURN) with true. cbv iota. unfold GetPushedData.
  rewrite pushed_all by done. cbn [app]. destruct vData; [done |]. done.
Qed.

Lemma opret_round_trip_witness :
  GetOpretData (code OP_RETURN :: push_all [[1; 2]; replicate 300 7]) [] = (true, [[1; 2]; replicate 300 7]).
Proof.
  apply opret_round_trip; [done |]. repeat (constructor; [split; [done | vm_compute; reflexivity] |]). constructor.
Defined.

(** An empty value comes back as the byte 0. *)
Lemma opret_empty_value : GetOpretData (code OP_RETURN :: push_data []) [] = (true, [[0]]).
Proof. reflexivity. Qed.

(** After a push that is cut off, [GetPushedData] goes on with the bytes that
    follow the instruction: the truncated push of 0x51 0x52 is read as the
    numbers 1 and 2, and the result is true. *)
Lemma truncated_push_read_as_data :
  GetOpretData [code OP_RETURN; 5; 0x51; 0x52] [] = (true, [[1]; [2]]).
Proof. reflexivity. Qed.

(** A push that fills the script makes [IsCheckLockTimeVerify] read past its end,
    and an empty push makes [IsCoinImport] read the first byte of nothing. *)
Lemma script_reads_past_end :
  IsCheckLockTimeVerify [4; 1; 2; 3; 4] = None /\ IsCheckLockTimeVerify [code OP_DUP] = None
  /\ IsCoinImport [code OP_PUSHDATA1; 0] = None.
Proof. repeat split. Qed.
