(* ===== verification/Interp.v ===== *)
(** * The script interpreter (src/src/script/interpreter.cpp)

    The stack is a list whose head is the back of the vector.  A handler of an
    instruction takes the state of the loop and returns the next one, or fails
    with the error the source sets; an exception is kept apart until [EvalScript]
    catches it, so that the theorems can say which ones occur.

    Signatures, lock times and crypto-conditions are checked by the class
    [Checker] (the source's [BaseSignatureChecker], and [CPubKey::CheckLowS]);
    the hash functions are the class [Hashes]. *)
From S2P Require Import Prelude Coins Compact Script.
Import Script.Op.
Local Open Scope Z_scope.

(** [BaseSignatureChecker]; [CheckCryptoCondition] returns -1, 0 or 1. *)
Class Checker := {
  CheckSig : list Z -> list Z -> list Z -> Z -> bool;
  CheckLockTime : Z -> bool;
  CheckCryptoCondition : list Z -> list Z -> list Z -> Z -> Z;
  CheckLowS : list Z -> bool;
}.

(** The digests of the hashers: [CRIPEMD160], [CSHA1], [CSHA256]. *)
Class Hashes := { ripemd160 : list Z -> list Z; sha1 : list Z -> list Z; sha256 : list Z -> list Z }.
Class LawfulHashes `{Hashes} : Prop := {
  length_ripemd160 msg : length (ripemd160 msg) = 20%nat;
  length_sha1 msg : length (sha1 msg) = 20%nat;
  length_sha256 msg : length (sha256 msg) = 32%nat;
  ripemd160_ok msg : bytes_ok (ripemd160 msg);
  sha1_ok msg : bytes_ok (sha1 msg);
  sha256_ok msg : bytes_ok (sha256 msg);
}.

(** [hash.h]. *)
Definition CHash160 `{Hashes} (msg : list Z) : list Z := ripemd160 (sha256 msg).
Definition CHash256 `{Hashes} (msg : list Z) : list Z := sha256 (sha256 msg).

Abbreviation valtype := (list Z).

(** ** Flags and encodings *)

Definition SCRIPT_VERIFY_P2SH : Z := 2 ^ 0.
Definition SCRIPT_VERIFY_STRICTENC : Z := 2 ^ 1.
Definition SCRIPT_VERIFY_LOW_S : Z := 2 ^ 3.
Definition SCRIPT_VERIFY_NULLDUMMY : Z := 2 ^ 4.
Definition SCRIPT_VERIFY_SIGPUSHONLY : Z := 2 ^ 5.
Definition SCRIPT_VERIFY_MINIMALDATA : Z := 2 ^ 6.
Definition SCRIPT_VERIFY_DISCOURAGE_UPGRADABLE_NOPS : Z := 2 ^ 7.
Definition SCRIPT_VERIFY_CLEANSTACK : Z := 2 ^ 8.
Definition SCRIPT_VERIFY_CHECKLOCKTIMEVERIFY : Z := 2 ^ 9.

(** [(flags & f) != 0]. *)
Definition has (flags f : Z) : bool := negb (Z.land flags f =? 0).

Definition SIGHASH_ALL : Z := 1.
Definition SIGHASH_SINGLE : Z := 3.
Definition SIGHASH_ANYONECANPAY : Z := 0x80.

(** [CastToBool]. *)
Fixpoint CastToBool (vch : valtype) : bool :=
  match vch with
  | [] => false
  | b :: vch =>
      if b =? 0 then CastToBool vch
      else match vch with [] => negb (b =? 0x80) | _ => true end
  end.

Definition IsCompressedOrUncompressedPubKey (vchPubKey : valtype) : bool :=
  if Zlen vchPubKey <? 33 then false
  else if rd vchPubKey 0 =? 0x04 then Zlen vchPubKey =? 65
  else if (rd vchPubKey 0 =? 0x02) || (rd vchPubKey 0 =? 0x03) then Zlen vchPubKey =? 33
  else false.

(** [IsValidSignatureEncoding]; [sig[i]] is [rd sig i]. *)
Definition IsValidSignatureEncoding (sig : valtype) : bool :=
  if Zlen sig <? 9 then false
  else if 73 <? Zlen sig then false
  else if negb (rd sig 0 =? 0x30) then false
  else if negb (rd sig 1 =? Zlen sig - 3) then false
  else
    let lenR := rd sig 3 in
    if Zlen sig <=? 5 + lenR then false
    else
      let lenS := rd sig (Z.to_nat (5 + lenR)) in
      if negb (lenR + lenS + 7 =? Zlen sig) then false
      else if negb (rd sig 2 =? 0x02) then false
      else if lenR =? 0 then false
      else if negb (Z.land (rd sig 4) 0x80 =? 0) then false
      else if (1 <? lenR) && (rd sig 4 =? 0x00) && (Z.land (rd sig 5) 0x80 =? 0) then false
      else if negb (rd sig (Z.to_nat (lenR + 4)) =? 0x02) then false
      else if lenS =? 0 then false
      else if negb (Z.land (rd sig (Z.to_nat (lenR + 6))) 0x80 =? 0) then false
      else if (1 <? lenS) && (rd sig (Z.to_nat (lenR + 6)) =? 0x00)
              && (Z.land (rd sig (Z.to_nat (lenR + 7))) 0x80 =? 0) then false
      else true.

Definition IsDefinedHashtypeSignature (vchSig : valtype) : bool :=
  if Zlen vchSig =? 0 then false
  else
    let nHashType := Z.land (back vchSig) (Z.lnot SIGHASH_ANYONECANPAY) in
    negb ((nHashType <? SIGHASH_ALL) || (SIGHASH_SINGLE <? nHashType)).

(** [CheckMinimalPush]. *)
Definition CheckMinimalPush (data : valtype) (opcode : opcodetype) : bool :=
  if Zlen data =? 0 then op_eq opcode OP_0
  else if (Zlen data =? 1) && (1 <=? rd data 0) && (rd data 0 <=? 16) then opcode =? OP_1 + (rd data 0 - 1)
  else if (Zlen data =? 1) && (rd data 0 =? 0x81) then op_eq opcode OP_1NEGATE
  else if Zlen data <=? 75 then opcode =? Zlen data
  else if Zlen data <=? 255 then op_eq opcode OP_PUSHDATA1
  else if Zlen data <=? 65535 then op_eq opcode OP_PUSHDATA2
  else true.

Section Encodings.
Context {CK : Checker}.

(** The result of a check and what it writes to [*serror], if anything. *)
Definition IsLowDERSignature (vchSig : valtype) : bool * option ScriptError :=
  if negb (IsValidSignatureEncoding vchSig) then (false, Some SCRIPT_ERR_SIG_DER)
  else (CheckLowS (take (length vchSig - 1) vchSig), None).

Definition CheckSignatureEncoding (flags : Z) (vchSig : valtype) : bool * option ScriptError :=
  if Zlen vchSig =? 0 then (true, None)
  else if negb (IsValidSignatureEncoding vchSig) then (false, Some SCRIPT_ERR_SIG_DER)
  else if has flags SCRIPT_VERIFY_LOW_S && negb (IsLowDERSignature vchSig).1 then
    (false, (IsLowDERSignature vchSig).2)
  else if has flags SCRIPT_VERIFY_STRICTENC && negb (IsDefinedHashtypeSignature vchSig) then
    (false, Some SCRIPT_ERR_SIG_HASHTYPE)
  else (true, None).

Definition CheckPubKeyEncoding (flags : Z) (vchSig : valtype) : bool * option ScriptError :=
  if has flags SCRIPT_VERIFY_STRICTENC && negb (IsCompressedOrUncompressedPubKey vchSig)
  then (false, Some SCRIPT_ERR_PUBKEYTYPE) else (true, None).

(** [if (!check) return false;], where [*serror] holds [SCRIPT_ERR_UNKNOWN_ERROR]
    unless the check wrote it. *)
Definition check_encoding (c : bool * option ScriptError) : outcome unit :=
  if c.1 then Ret tt else Fail (default SCRIPT_ERR_UNKNOWN_ERROR c.2).

End Encodings.

(** ** The state of the loop *)

Record estate := EState {
  stack : list valtype;
  altstack : list valtype;
  vfExec : list bool;
  nOpCount : Z;
}.

Definition set_stack (s : estate) (st : list valtype) : estate := EState st (altstack s) (vfExec s) (nOpCount s).
Definition set_vfExec (s : estate) (v : list bool) : estate := EState (stack s) (altstack s) v (nOpCount s).

Definition vchTrue : valtype := [1].
Definition vchFalse : valtype := [].
Definition vch_bool (b : bool) : valtype := if b then vchTrue else vchFalse.
Definition num_bool (b : bool) : Z := if b then 1 else 0.

(** [stacktop(-k)], which is [stack.at(stack.size() - k)]. *)
Definition stacktop (st : list valtype) (k : nat) : outcome valtype :=
  match k with
  | O => Throw at_error
  | S k => match st !! k with Some v => Ret v | None => Throw at_error end
  end.
Definition popstack (st : list valtype) : outcome (list valtype) :=
  match st with [] => Throw popstack_error | _ :: st => Ret st end.
(** [n] times [popstack]. *)
Fixpoint popstack_n (n : nat) (st : list valtype) : outcome (list valtype) :=
  match n with O => Ret st | S n => st ← popstack st; popstack_n n st end.

(** [stack.erase(stack.end()-i, stack.end()-j)] and [stack.insert(stack.end()-k, v)]. *)
Definition erase (i j : nat) (st : list valtype) : outcome (list valtype) :=
  if ((j <=? i) && (i <=? length st))%nat then Ret (take j st ++ drop i st) else Undefined.
Definition insert_at (k : nat) (v : valtype) (st : list valtype) : outcome (list valtype) :=
  if (k <=? length st)%nat then Ret (take k st ++ v :: drop k st) else Undefined.
(** [swap(stacktop(-i), stacktop(-j))]. *)
Definition swap_top (i j : nat) (st : list valtype) : outcome (list valtype) :=
  a ← stacktop st i; b ← stacktop st j; Ret (<[(j - 1)%nat := a]> (<[(i - 1)%nat := b]> st)).

(** [if (stack.size() < n) return set_error(serror, SCRIPT_ERR_INVALID_STACK_OPERATION);] *)
Definition need (n : nat) (st : list valtype) : outcome unit :=
  fail_if (length st <? n)%nat SCRIPT_ERR_INVALID_STACK_OPERATION.

(** ** The instructions *)

Section Eval.
Context {CK : Checker} {HS : Hashes}.
(** The arguments of [EvalScript] the instructions read, and
    [IsCryptoConditionsEnabled()]. *)
Context (flags consensusBranchId : Z) (cc_enabled : bool) (script : list Z).

Definition fRequireMinimal : bool := has flags SCRIPT_VERIFY_MINIMALDATA.

(** [CScriptNum(v, fRequireMinimal)]. *)
Definition num (v : valtype) : outcome Z := CScriptNum v fRequireMinimal nDefaultMaxNumSize.

(** *** Push value: [OP_1NEGATE], [OP_1] .. [OP_16] *)
Definition op_small_int (opcode : opcodetype) (st : list valtype) : outcome (list valtype) :=
  v ← getvch (opcode - (OP_1 - 1)); Ret (v :: st).

(** *** Control *)
Definition op_checklocktimeverify (st : list valtype) : outcome (list valtype) :=
  if negb (has flags SCRIPT_VERIFY_CHECKLOCKTIMEVERIFY) then
    _ ← fail_if (has flags SCRIPT_VERIFY_DISCOURAGE_UPGRADABLE_NOPS) SCRIPT_ERR_DISCOURAGE_UPGRADABLE_NOPS;
    Ret st
  else
    _ ← need 1 st;
    top ← stacktop st 1;
    nLockTime ← CScriptNum top fRequireMinimal 5;
    _ ← fail_if (nLockTime <? 0) SCRIPT_ERR_NEGATIVE_LOCKTIME;
    _ ← fail_if (negb (CheckLockTime nLockTime)) SCRIPT_ERR_UNSATISFIED_LOCKTIME;
    Ret st.

Definition op_nop_upgradable (st : list valtype) : outcome (list valtype) :=
  _ ← fail_if (has flags SCRIPT_VERIFY_DISCOURAGE_UPGRADABLE_NOPS) SCRIPT_ERR_DISCOURAGE_UPGRADABLE_NOPS;
  Ret st.

Definition op_if (opcode : opcodetype) (fExec : bool) (s : estate) : outcome estate :=
  if fExec then
    _ ← fail_if (length (stack s) <? 1)%nat SCRIPT_ERR_UNBALANCED_CONDITIONAL;
    vch ← stacktop (stack s) 1;
    let fValue := CastToBool vch in
    let fValue := if op_eq opcode OP_NOTIF then negb fValue else fValue in
    st ← popstack (stack s);
    Ret (set_vfExec (set_stack s st) (fValue :: vfExec s))
  else Ret (set_vfExec s (false :: vfExec s)).

Definition op_else (s : estate) : outcome estate :=
  match vfExec s with
  | [] => Fail SCRIPT_ERR_UNBALANCED_CONDITIONAL
  | b :: v => Ret (set_vfExec s (negb b :: v))
  end.
Definition op_endif (s : estate) : outcome estate :=
  match vfExec s with
  | [] => Fail SCRIPT_ERR_UNBALANCED_CONDITIONAL
  | _ :: v => Ret (set_vfExec s v)
  end.

Definition op_verify (st : list valtype) : outcome (list valtype) :=
  _ ← need 1 st;
  top ← stacktop st 1;
  if CastToBool top then popstack st else Fail SCRIPT_ERR_VERIFY.

(** *** Stack *)
Definition op_toaltstack (s : estate) : outcome estate :=
  _ ← need 1 (stack s);
  top ← stacktop (stack s) 1;
  st ← popstack (stack s);
  Ret (EState st (top :: altstack s) (vfExec s) (nOpCount s)).
Definition op_fromaltstack (s : estate) : outcome estate :=
  _ ← fail_if (length (altstack s) <? 1)%nat SCRIPT_ERR_INVALID_ALTSTACK_OPERATION;
  top ← stacktop (altstack s) 1;
  alt ← popstack (altstack s);
  Ret (EState (top :: stack s) alt (vfExec s) (nOpCount s)).

Definition op_2drop (st : list valtype) : outcome (list valtype) :=
  _ ← need 2 st; st ← popstack st; popstack st.
Definition op_2dup (st : list valtype) : outcome (list valtype) :=
  _ ← need 2 st; vch1 ← stacktop st 2; vch2 ← stacktop st 1; Ret (vch2 :: vch1 :: st).
Definition op_3dup (st : list valtype) : outcome (list valtype) :=
  _ ← need 3 st; vch1 ← stacktop st 3; vch2 ← stacktop st 2; vch3 ← stacktop st 1;
  Ret (vch3 :: vch2 :: vch1 :: st).
Definition op_2over (st : list valtype) : outcome (list valtype) :=
  _ ← need 4 st; vch1 ← stacktop st 4; vch2 ← stacktop st 3; Ret (vch2 :: vch1 :: st).
Definition op_2rot (st : list valtype) : outcome (list valtype) :=
  _ ← need 6 st; vch1 ← stacktop st 6; vch2 ← stacktop st 5;
  st ← erase 6 4 st; Ret (vch2 :: vch1 :: st).
Definition op_2swap (st : list valtype) : outcome (list valtype) :=
  _ ← need 4 st; st ← swap_top 4 2 st; swap_top 3 1 st.
Definition op_ifdup (st : list valtype) : outcome (list valtype) :=
  _ ← need 1 st; vch ← stacktop st 1; Ret (if CastToBool vch then vch :: st else st).
Definition op_depth (st : list valtype) : outcome (list valtype) :=
  v ← getvch (Zlen st); Ret (v :: st).
Definition op_drop (st : list valtype) : outcome (list valtype) :=
  _ ← need 1 st; popstack st.
Definition op_dup (st : list valtype) : outcome (list valtype) :=
  _ ← need 1 st; vch ← stacktop st 1; Ret (vch :: st).
Definition op_nip (st : list valtype) : outcome (list valtype) :=
  _ ← need 2 st; erase 2 1 st.
Definition op_over (st : list valtype) : outcome (list valtype) :=
  _ ← need 2 st; vch ← stacktop st 2; Ret (vch :: st).
(** [OP_PICK] and [OP_ROLL]. *)
Definition op_pick_roll (opcode : opcodetype) (st : list valtype) : outcome (list valtype) :=
  _ ← need 2 st;
  top ← stacktop st 1;
  bn ← num top;
  let n := getint bn in
  st ← popstack st;
  _ ← fail_if ((n <? 0) || (Zlen st <=? n)) SCRIPT_ERR_INVALID_STACK_OPERATION;
  let k := Z.to_nat (n + 1) in
  vch ← stacktop st k;
  st ← (if op_eq opcode OP_ROLL then erase k (k - 1) st else Ret st);
  Ret (vch :: st).
Definition op_rot (st : list valtype) : outcome (list valtype) :=
  _ ← need 3 st; st ← swap_top 3 2 st; swap_top 2 1 st.
Definition op_swap (st : list valtype) : outcome (list valtype) :=
  _ ← need 2 st; swap_top 2 1 st.
Definition op_tuck (st : list valtype) : outcome (list valtype) :=
  _ ← need 2 st; vch ← stacktop st 1; insert_at 2 vch st.
Definition op_size (st : list valtype) : outcome (list valtype) :=
  _ ← need 1 st; top ← stacktop st 1; v ← getvch (Zlen top); Ret (v :: st).

(** The end of the instructions with a [VERIFY] form: the result is pushed, and
    popped again when it must be true. *)
Definition push_result (verify : bool) (e : ScriptError) (fSuccess : bool) (st : list valtype)
  : outcome (list valtype) :=
  let st := vch_bool fSuccess :: st in
  if verify then if fSuccess then popstack st else Fail e else Ret st.

(** *** Bitwise logic *)
Definition op_equal (opcode : opcodetype) (st : list valtype) : outcome (list valtype) :=
  _ ← need 2 st;
  vch1 ← stacktop st 2;
  vch2 ← stacktop st 1;
  st ← popstack_n 2 st;
  push_result (op_eq opcode OP_EQUALVERIFY) SCRIPT_ERR_EQUALVERIFY (bool_decide (vch1 = vch2)) st.

(** *** Numeric *)
Definition op_unary (opcode : opcodetype) (st : list valtype) : outcome (list valtype) :=
  _ ← need 1 st;
  top ← stacktop st 1;
  bn ← num top;
  bn ← match opcode with
       | OP_1ADD => num_add_assign bn 1
       | OP_1SUB => num_sub_assign bn 1
       | OP_NEGATE => num_neg bn
       | OP_ABS => if bn <? 0 then num_neg bn else Ret bn
       | OP_NOT => Ret (num_bool (bn =? 0))
       | OP_0NOTEQUAL => Ret (num_bool (negb (bn =? 0)))
       | _ => Assert
       end;
  st ← popstack st;
  v ← getvch bn;
  Ret (v :: st).

Definition op_binary (opcode : opcodetype) (st : list valtype) : outcome (list valtype) :=
  _ ← need 2 st;
  v1 ← stacktop st 2;
  bn1 ← num v1;
  v2 ← stacktop st 1;
  bn2 ← num v2;
  bn ← match opcode with
       | OP_ADD => num_add bn1 bn2
       | OP_SUB => num_sub bn1 bn2
       | OP_BOOLAND => Ret (num_bool (negb (bn1 =? 0) && negb (bn2 =? 0)))
       | OP_BOOLOR => Ret (num_bool (negb (bn1 =? 0) || negb (bn2 =? 0)))
       | OP_NUMEQUAL => Ret (num_bool (bn1 =? bn2))
       | OP_NUMEQUALVERIFY => Ret (num_bool (bn1 =? bn2))
       | OP_NUMNOTEQUAL => Ret (num_bool (negb (bn1 =? bn2)))
       | OP_LESSTHAN => Ret (num_bool (bn1 <? bn2))
       | OP_GREATERTHAN => Ret (num_bool (bn2 <? bn1))
       | OP_LESSTHANOREQUAL => Ret (num_bool (bn1 <=? bn2))
       | OP_GREATERTHANOREQUAL => Ret (num_bool (bn2 <=? bn1))
       | OP_MIN => Ret (if bn1 <? bn2 then bn1 else bn2)
       | OP_MAX => Ret (if bn2 <? bn1 then bn1 else bn2)
       | _ => Assert
       end;
  st ← popstack_n 2 st;
  v ← getvch bn;
  let st := v :: st in
  if op_eq opcode OP_NUMEQUALVERIFY then
    top ← stacktop st 1;
    if CastToBool top then popstack st else Fail SCRIPT_ERR_NUMEQUALVERIFY
  else Ret st.

Definition op_within (st : list valtype) : outcome (list valtype) :=
  _ ← need 3 st;
  v1 ← stacktop st 3; bn1 ← num v1;
  v2 ← stacktop st 2; bn2 ← num v2;
  v3 ← stacktop st 1; bn3 ← num v3;
  st ← popstack_n 3 st;
  Ret (vch_bool ((bn2 <=? bn1) && (bn1 <? bn3)) :: st).

(** *** Crypto *)
Definition op_hash (opcode : opcodetype) (st : list valtype) : outcome (list valtype) :=
  _ ← need 1 st;
  vch ← stacktop st 1;
  let vchHash :=
    match opcode with
    | OP_RIPEMD160 => ripemd160 vch
    | OP_SHA1 => sha1 vch
    | OP_SHA256 => sha256 vch
    | OP_HASH160 => CHash160 vch
    | OP_HASH256 => CHash256 vch
    | _ => replicate 32 0
    end in
  st ← popstack st;
  Ret (vchHash :: st).

(** The two encodings, checked before a signature. *)
Definition check_encodings (vchSig vchPubKey : valtype) : outcome unit :=
  _ ← check_encoding (CheckSignatureEncoding flags vchSig);
  check_encoding (CheckPubKeyEncoding flags vchPubKey).

Definition op_checksig (opcode : opcodetype) (st : list valtype) : outcome (list valtype) :=
  _ ← need 2 st;
  vchSig ← stacktop st 2;
  vchPubKey ← stacktop st 1;
  _ ← check_encodings vchSig vchPubKey;
  let fSuccess := CheckSig vchSig vchPubKey script consensusBranchId in
  st ← popstack_n 2 st;
  push_result (op_eq opcode OP_CHECKSIGVERIFY) SCRIPT_ERR_CHECKSIGVERIFY fSuccess st.

(** [while (fSuccess && nSigsCount > 0)]: the value of [fSuccess] at its end.  A
    turn uses up a key, so the number of keys is enough turns. *)
Fixpoint multisig_loop (turns : nat) (st : list valtype) (isig ikey : nat) (nSigsCount nKeysCount : Z)
  : outcome bool :=
  if 0 <? nSigsCount then
    match turns with
    | O => Undefined
    | S turns =>
        vchSig ← stacktop st isig;
        vchPubKey ← stacktop st ikey;
        _ ← check_encodings vchSig vchPubKey;
        let fOk := CheckSig vchSig vchPubKey script consensusBranchId in
        let isig := if fOk then S isig else isig in
        let nSigsCount := if fOk then nSigsCount - 1 else nSigsCount in
        let ikey := S ikey in
        let nKeysCount := nKeysCount - 1 in
        if nKeysCount <? nSigsCount then Ret false
        else multisig_loop turns st isig ikey nSigsCount nKeysCount
    end
  else Ret true.

Definition op_checkmultisig (opcode : opcodetype) (s : estate) : outcome estate :=
  let st := stack s in
  _ ← need 1 st;
  top ← stacktop st 1;
  bn ← num top;
  let nKeysCount := getint bn in
  _ ← fail_if ((nKeysCount <? 0) || (20 <? nKeysCount)) SCRIPT_ERR_PUBKEY_COUNT;
  let nOpCount := nOpCount s + nKeysCount in
  _ ← fail_if (201 <? nOpCount) SCRIPT_ERR_OP_COUNT;
  let ikey := 2%nat in
  let i := (2 + Z.to_nat nKeysCount)%nat in
  _ ← need i st;
  top ← stacktop st i;
  bn ← num top;
  let nSigsCount := getint bn in
  _ ← fail_if ((nSigsCount <? 0) || (nKeysCount <? nSigsCount)) SCRIPT_ERR_SIG_COUNT;
  let isig := S i in
  let i := (S i + Z.to_nat nSigsCount)%nat in
  _ ← need i st;
  fSuccess ← multisig_loop (Z.to_nat nKeysCount) st isig ikey nSigsCount nKeysCount;
  st ← popstack_n (i - 1) st;
  _ ← need 1 st;
  top ← stacktop st 1;
  _ ← fail_if (has flags SCRIPT_VERIFY_NULLDUMMY && negb (Zlen top =? 0)) SCRIPT_ERR_SIG_NULLDUMMY;
  st ← popstack st;
  st ← push_result (op_eq opcode OP_CHECKMULTISIGVERIFY) SCRIPT_ERR_CHECKMULTISIGVERIFY fSuccess st;
  Ret (EState st (altstack s) (vfExec s) nOpCount).

Definition op_checkcryptocondition (opcode : opcodetype) (st : list valtype) : outcome (list valtype) :=
  if negb cc_enabled then Fail SCRIPT_ERR_BAD_OPCODE
  else
    _ ← need 2 st;
    condBin ← stacktop st 1;
    ffillBin ← stacktop st 2;
    let fResult := CheckCryptoCondition condBin ffillBin script consensusBranchId in
    _ ← fail_if (fResult =? -1) SCRIPT_ERR_CRYPTOCONDITION_INVALID_FULFILLMENT;
    st ← popstack_n 2 st;
    push_result (op_eq opcode OP_CHECKCRYPTOCONDITIONVERIFY) SCRIPT_ERR_CRYPTOCONDITION_VERIFY (fResult =? 1) st.

(** ** The switch and the loop *)

(** An instruction that touches the main stack only. *)
Definition on_stack (f : list valtype -> outcome (list valtype)) (s : estate) : outcome estate :=
  st ← f (stack s); Ret (set_stack s st).

Definition exec (opcode : opcodetype) (fExec : bool) (s : estate) : outcome estate :=
  match opcode with
  | OP_1NEGATE | OP_1 | OP_2 | OP_3 | OP_4 | OP_5 | OP_6 | OP_7 | OP_8 | OP_9 | OP_10 | OP_11 | OP_12
  | OP_13 | OP_14 | OP_15 | OP_16 => on_stack (op_small_int opcode) s
  | OP_NOP => Ret s
  | OP_CHECKLOCKTIMEVERIFY => on_stack op_checklocktimeverify s
  | OP_NOP1 | OP_NOP3 | OP_NOP4 | OP_NOP5 | OP_NOP6 | OP_NOP7 | OP_NOP8 | OP_NOP9 | OP_NOP10 =>
      on_stack op_nop_upgradable s
  | OP_IF | OP_NOTIF => op_if opcode fExec s
  | OP_ELSE => op_else s
  | OP_ENDIF => op_endif s
  | OP_VERIFY => on_stack op_verify s
  | OP_RETURN => Fail SCRIPT_ERR_OP_RETURN
  | OP_TOALTSTACK => op_toaltstack s
  | OP_FROMALTSTACK => op_fromaltstack s
  | OP_2DROP => on_stack op_2drop s
  | OP_2DUP => on_stack op_2dup s
  | OP_3DUP => on_stack op_3dup s
  | OP_2OVER => on_stack op_2over s
  | OP_2ROT => on_stack op_2rot s
  | OP_2SWAP => on_stack op_2swap s
  | OP_IFDUP => on_stack op_ifdup s
  | OP_DEPTH => on_stack op_depth s
  | OP_DROP => on_stack op_drop s
  | OP_DUP => on_stack op_dup s
  | OP_NIP => on_stack op_nip s
  | OP_OVER => on_stack op_over s
  | OP_PICK | OP_ROLL => on_stack (op_pick_roll opcode) s
  | OP_ROT => on_stack op_rot s
  | OP_SWAP => on_stack op_swap s
  | OP_TUCK => on_stack op_tuck s
  | OP_SIZE => on_stack op_size s
  | OP_EQUAL | OP_EQUALVERIFY => on_stack (op_equal opcode) s
  | OP_1ADD | OP_1SUB | OP_NEGATE | OP_ABS | OP_NOT | OP_0NOTEQUAL => on_stack (op_unary opcode) s
  | OP_ADD | OP_SUB | OP_BOOLAND | OP_BOOLOR | OP_NUMEQUAL | OP_NUMEQUALVERIFY | OP_NUMNOTEQUAL
  | OP_LESSTHAN | OP_GREATERTHAN | OP_LESSTHANOREQUAL | OP_GREATERTHANOREQUAL | OP_MIN | OP_MAX =>
      on_stack (op_binary opcode) s
  | OP_WITHIN => on_stack op_within s
  | OP_RIPEMD160 | OP_SHA1 | OP_SHA256 | OP_HASH160 | OP_HASH256 => on_stack (op_hash opcode) s
  | OP_CHECKSIG | OP_CHECKSIGVERIFY => on_stack (op_checksig opcode) s
  | OP_CHECKMULTISIG | OP_CHECKMULTISIGVERIFY => op_checkmultisig opcode s
  | OP_CHECKCRYPTOCONDITION | OP_CHECKCRYPTOCONDITIONVERIFY => on_stack (op_checkcryptocondition opcode) s
  | _ => Fail SCRIPT_ERR_BAD_OPCODE
  end.

Definition is_disabled (opcode : opcodetype) : bool :=
  existsb (op_eq opcode)
    [OP_CAT; OP_SUBSTR; OP_LEFT; OP_RIGHT; OP_INVERT; OP_AND; OP_OR; OP_XOR; OP_2MUL; OP_2DIV; OP_MUL; OP_DIV;
     OP_MOD; OP_LSHIFT; OP_RSHIFT; OP_CODESEPARATOR].

(** The opcode limit counts what is above [OP_16]. *)
Definition count_op (opcode : opcodetype) (s : estate) : outcome estate :=
  if negb (op_le opcode OP_16) then
    let s := EState (stack s) (altstack s) (vfExec s) (nOpCount s + 1) in
    _ ← fail_if (201 <? nOpCount s) SCRIPT_ERR_OP_COUNT;
    Ret s
  else Ret s.

(** One turn of the loop, the instruction having been read. *)
Definition turn (s : estate) (r : op_read) : outcome estate :=
  let opcode := or_op r in
  let vchPushValue := or_data r in
  let fExec := negb (existsb negb (vfExec s)) in
  _ ← fail_if (negb (or_ok r)) SCRIPT_ERR_BAD_OPCODE;
  _ ← fail_if (MAX_SCRIPT_ELEMENT_SIZE <? Zlen vchPushValue) SCRIPT_ERR_PUSH_SIZE;
  s ← count_op opcode s;
  _ ← fail_if (is_disabled opcode) SCRIPT_ERR_DISABLED_OPCODE;
  s ← (if fExec && (0 <=? opcode) && op_le opcode OP_PUSHDATA4 then
         _ ← fail_if (fRequireMinimal && negb (CheckMinimalPush vchPushValue opcode)) SCRIPT_ERR_MINIMALDATA;
         Ret (set_stack s (vchPushValue :: stack s))
       else if fExec || (op_le OP_IF opcode && op_le opcode OP_ENDIF) then exec opcode fExec s
       else Ret s);
  _ ← fail_if (1000 <? Zlen (stack s) + Zlen (altstack s)) SCRIPT_ERR_STACK_SIZE;
  Ret s.

Definition eval_body (s : estate) (r : op_read) : estate + outcome (list valtype) :=
  match turn s r with
  | Ret s => inl s
  | Fail e => inr (Fail e)
  | Throw x => inr (Throw x)
  | Assert => inr Assert
  | Undefined => inr Undefined
  end.
Definition eval_end (s : estate) : outcome (list valtype) :=
  match vfExec s with [] => Ret (stack s) | _ => Fail SCRIPT_ERR_UNBALANCED_CONDITIONAL end.
(** The loop, with its exceptions. *)
Definition eval_loop (st : list valtype) : outcome (list valtype) :=
  scan eval_body eval_end (EState st [] [] 0) script.

(** [catch (...)]. *)
Definition catch_all {A} (o : outcome A) : outcome A :=
  match o with Throw _ => Fail SCRIPT_ERR_UNKNOWN_ERROR | _ => o end.

(** [EvalScript]: the stack it leaves when it returns true. *)
Definition EvalScript (st : list valtype) : outcome (list valtype) :=
  if MAX_SCRIPT_SIZE <? Zlen script then Fail SCRIPT_ERR_SCRIPT_SIZE else catch_all (eval_loop st).

End Eval.

(** ** Verifying an input *)

(** [EvalCryptoConditionSig]. *)
Definition EvalCryptoConditionSig (st : list valtype) (scriptSig : list Z) : outcome (list valtype) :=
  let r := GetOp2 scriptSig in
  _ ← fail_if (negb (or_ok r)) SCRIPT_ERR_BAD_OPCODE;
  _ ← fail_if ((or_op r =? 0) || negb (op_le (or_op r) OP_PUSHDATA4)) SCRIPT_ERR_INVALID_STACK_OPERATION;
  _ ← fail_if (negb (Zlen (or_pc r) =? 0)) SCRIPT_ERR_INVALID_STACK_OPERATION;
  _ ← fail_if (MAX_SCRIPT_CRYPTOCONDITION_FULFILLMENT_SIZE <? Zlen (or_data r)) SCRIPT_ERR_PUSH_SIZE;
  Ret (or_data r :: st).

Section Verify.
Context {CK : Checker} {HS : Hashes}.
Context (flags consensusBranchId : Z) (cc_enabled : bool).

(** [if (stack.empty()) return false; if (!CastToBool(stack.back())) return false;] *)
Definition eval_true (st : list valtype) : outcome unit :=
  match st with
  | [] => Fail SCRIPT_ERR_EVAL_FALSE
  | top :: _ => fail_if (negb (CastToBool top)) SCRIPT_ERR_EVAL_FALSE
  end.

(** The evaluation of the script a pay-to-script-hash output commits to, on the
    stack the scriptSig left. *)
Definition verify_p2sh (scriptSig : list Z) (stackCopy : list valtype) : outcome (list valtype) :=
  _ ← fail_if (negb (IsPushOnly scriptSig)) SCRIPT_ERR_SIG_PUSHONLY;
  match stackCopy with
  | [] => Assert
  | pubKeySerialized :: st =>
      st ← EvalScript flags consensusBranchId cc_enabled pubKeySerialized st;
      _ ← eval_true st;
      Ret st
  end.

(** [VerifyScript]; [Ret tt] is [return set_success(serror)]. *)
Definition VerifyScript (scriptSig scriptPubKey : list Z) : outcome unit :=
  _ ← fail_if (has flags SCRIPT_VERIFY_SIGPUSHONLY && negb (IsPushOnly scriptSig)) SCRIPT_ERR_SIG_PUSHONLY;
  st ← (if cc_enabled && bool_decide (is_Some (IsPayToCryptoCondition scriptPubKey))
        then EvalCryptoConditionSig [] scriptSig
        else EvalScript flags consensusBranchId cc_enabled scriptSig []);
  let stackCopy := if has flags SCRIPT_VERIFY_P2SH then st else [] in
  st ← EvalScript flags consensusBranchId cc_enabled scriptPubKey st;
  _ ← eval_true st;
  st ← (if has flags SCRIPT_VERIFY_P2SH && IsPayToScriptHash scriptPubKey
        then verify_p2sh scriptSig stackCopy else Ret st);
  if has flags SCRIPT_VERIFY_CLEANSTACK then
    if negb (has flags SCRIPT_VERIFY_P2SH) then Assert
    else fail_if (negb (Zlen st =? 1)) SCRIPT_ERR_CLEANSTACK
  else Ret tt.

End Verify.

(** [TransactionSignatureChecker::CheckLockTime] on the transaction's [nLockTime]
    and the [nSequence] of the input. *)
Definition tx_CheckLockTime (tx_nLockTime nSequence : Z) (nLockTime : Z) : bool :=
  if negb (((tx_nLockTime <? LOCKTIME_THRESHOLD) && (nLockTime <? LOCKTIME_THRESHOLD))
           || ((LOCKTIME_THRESHOLD <=? tx_nLockTime) && (LOCKTIME_THRESHOLD <=? nLockTime))) then false
  else if tx_nLockTime <? nLockTime then false
  else negb (nSequence =? 2 ^ 32 - 1).

(** ** What an evaluation can do *)

(** [o] returns a value with [P], fails with an error, or throws a
    [scriptnum_error]: no other exception, no failed assertion, nothing undefined. *)
Definition yields {A} (P : A -> Prop) (o : outcome A) : Prop :=
  match o with
  | Ret a => P a
  | Fail _ | Throw scriptnum_error => True
  | _ => False
  end.

Lemma yields_bind {A B} (P : A -> Prop) (Q : B -> Prop) (o : outcome A) (k : A -> outcome B) :
  yields P o -> (forall a, P a -> yields Q (k a)) -> yields Q (o ≫= k).
Proof. destruct o; cbn; auto. Qed.

Lemma yields_mono {A} (P Q : A -> Prop) (o : outcome A) : yields P o -> (forall a, P a -> Q a) -> yields Q o.
Proof. destruct o; cbn; auto. Qed.

Lemma yields_fail_if c e : yields (fun _ => c = false) (fail_if c e).
Proof. by destruct c. Qed.

Lemma yields_check c : yields (fun _ => True) (check_encoding c).
Proof. unfold check_encoding. by destruct c.1. Qed.

(** A value of at most [M] bytes. *)
Definition val_ok (M : Z) (v : valtype) : Prop := bytes_ok v /\ Zlen v <= M.

(** What holds between two turns: the sizes of the values, of the stacks and of
    the count of instructions. *)
Record in_limits (M : Z) (s : estate) : Prop := {
  lim_stack : Forall (val_ok M) (stack s);
  lim_altstack : Forall (val_ok M) (altstack s);
  lim_sizes : Zlen (stack s) + Zlen (altstack s) <= 1000;
  lim_ops : 0 <= nOpCount s <= 201;
}.

(** What an instruction leaves, before the test of the sizes. *)
Definition step_ok (M : Z) (s : estate) : Prop :=
  Forall (val_ok M) (stack s) /\ Forall (val_ok M) (altstack s) /\ 0 <= nOpCount s <= 201.

Section Limits.
Context {CK : Checker} {HS : Hashes} {HL : LawfulHashes}.
Context (flags consensusBranchId : Z) (cc_enabled : bool) (script : list Z).
Context (M : Z) (HM : MAX_SCRIPT_ELEMENT_SIZE <= M) (HM63 : M < 2 ^ 63).

Lemma yields_CScriptNum v b k :
  bytes_ok v -> (k <= 5)%nat -> yields (fun n => - 2 ^ 39 < n < 2 ^ 39) (CScriptNum v b k).
Proof using.
  intros Hv Hk. unfold CScriptNum. destruct (Nat.ltb_spec k (length v)) as [| Hl]; [done |]. destruct (_ && _); [done |].
  destruct v as [| c v _] using rev_ind; [cbn; lia |].
  rewrite length_app in Hl. cbn [length] in Hl. rewrite set_vch_snoc by (try done; lia). cbn [defined yields].
  pose proof Hv as [Hv1 Hc%Forall_inv]%bytes_ok_app. unfold byte_ok in Hc. rewrite !le_num_snoc.
  pose proof (le_num_bounds v Hv1) as Hn.
  pose proof (Z.pow_le_mono_r 2 (8 * Zlen v) 32 ltac:(lia) ltac:(unfold Zlen; lia)) as Hp.
  pose proof (Z.pow_pos_nonneg 2 (8 * Zlen v) ltac:(lia) ltac:(unfold Zlen; lia)).
  destruct (Z.ltb_spec c 128); nia.
Qed.

Lemma yields_num v : bytes_ok v -> yields (fun n => - 2 ^ 39 < n < 2 ^ 39) (num flags v).
Proof using. intros Hv. apply yields_CScriptNum; [done | unfold nDefaultMaxNumSize; lia]. Qed.

Lemma yields_getvch n : - 2 ^ 63 < n < 2 ^ 63 -> yields (val_ok M) (getvch n).
Proof using HM.
  intros Hn. unfold getvch. destruct (serialize_set_vch n Hn) as (v & -> & _ & _ & Hv & Hl).
  cbn [defined yields]. split; [done |]. unfold MAX_SCRIPT_ELEMENT_SIZE in HM. unfold Zlen. lia.
Qed.

Lemma yields_need n (st : list valtype) : yields (fun _ => (n <= length st)%nat) (need n st).
Proof using.
  unfold need, fail_if. destruct (Nat.ltb_spec (length st) n); [done |]. done.
Qed.

Lemma yields_stacktop (P : valtype -> Prop) st k :
  Forall P st -> (1 <= k <= length st)%nat -> yields P (stacktop st k).
Proof using.
  intros Hst Hk. destruct k as [| k]; [lia |]. cbn [stacktop].
  destruct (lookup_lt_is_Some_2 st k ltac:(lia)) as [v E]. rewrite E. cbn [yields]. by eapply Forall_lookup_1.
Qed.

(** The stack keeps good values. *)
Definition keeps (n : nat) (st : list valtype) : Prop := Forall (val_ok M) st /\ length st = n.

Lemma yields_popstack st :
  Forall (val_ok M) st -> (1 <= length st)%nat -> yields (keeps (length st - 1)) (popstack st).
Proof using. intros H Hl. destruct st as [| v st]; [cbn in Hl; lia |]. inversion_clear H. cbn. split; [done | lia]. Qed.

Lemma yields_popstack_n k st :
  Forall (val_ok M) st -> (k <= length st)%nat -> yields (keeps (length st - k)) (popstack_n k st).
Proof using.
  revert st. induction k as [| k IH]; intros st Hst Hk; cbn [popstack_n yields].
  - split; [done | lia].
  - eapply yields_bind; [apply yields_popstack; [done | lia] |]. intros st' [Hst' Hl].
    eapply yields_mono; [apply IH; [done | lia] |]. intros st2 [H2 Hl2]. split; [done | lia].
Qed.

Lemma yields_swap i j st :
  Forall (val_ok M) st -> (1 <= i <= length st)%nat -> (1 <= j <= length st)%nat ->
  yields (keeps (length st)) (swap_top i j st).
Proof using.
  intros H Hi Hj. unfold swap_top. eapply yields_bind; [by apply yields_stacktop |]. intros a Ha.
  eapply yields_bind; [by apply yields_stacktop |]. intros b Hb. cbn [yields]. split.
  - by apply Forall_insert, Ha; apply Forall_insert.
  - by rewrite !length_insert.
Qed.

Lemma yields_erase i j st :
  Forall (val_ok M) st -> (j <= i <= length st)%nat -> yields (keeps (length st - (i - j))) (erase i j st).
Proof using.
  intros H Hij. unfold erase. rewrite (proj2 (Nat.leb_le j i)), (proj2 (Nat.leb_le i _)) by lia. cbn [andb yields].
  split; [apply Forall_app; split; [by apply Forall_take | by apply Forall_drop] |].
  rewrite length_app, length_take, length_drop. lia.
Qed.

Lemma yields_insert k v st :
  Forall (val_ok M) st -> val_ok M v -> (k <= length st)%nat -> yields (keeps (S (length st))) (insert_at k v st).
Proof using.
  intros H Hv Hk. unfold insert_at. rewrite (proj2 (Nat.leb_le k _)) by lia. cbn [yields]. split.
  - apply Forall_app. split; [by apply Forall_take |]. constructor; [done | by apply Forall_drop].
  - rewrite length_app. cbn [length]. rewrite length_take, length_drop. lia.
Qed.

Lemma keeps_values n st : keeps n st -> Forall (val_ok M) st.
Proof using. by intros []. Qed.

Lemma val_ok_bool b : val_ok M (vch_bool b).
Proof using HM.
  unfold MAX_SCRIPT_ELEMENT_SIZE in HM. destruct b; (split; [| unfold Zlen; cbn [length vch_bool vchTrue vchFalse]; lia]).
  - constructor; [unfold byte_ok; lia | constructor].
  - constructor.
Qed.

Lemma val_ok_bytes v : val_ok M v -> bytes_ok v.
Proof using. by intros []. Qed.

Lemma val_ok_hash v : bytes_ok v -> (length v <= 32)%nat -> val_ok M v.
Proof using HM. intros Hv Hl. split; [done |]. unfold MAX_SCRIPT_ELEMENT_SIZE in HM. unfold Zlen. lia. Qed.

Lemma yields_push_result verify e b st :
  Forall (val_ok M) st -> yields (Forall (val_ok M)) (push_result verify e b st).
Proof using HM.
  intros Hst. pose proof (val_ok_bool b). unfold push_result.
  destruct verify, b; cbn [popstack yields]; by try constructor.
Qed.

(** One primitive step of a handler. *)
Ltac yprim :=
  first
    [ apply yields_fail_if | apply yields_need | apply yields_check
    | apply yields_stacktop; [eassumption | lia]
    | apply yields_num; by eapply val_ok_bytes
    | apply yields_popstack_n; [eassumption | lia] | apply yields_popstack; [eassumption | lia]
    | apply yields_swap; [eassumption | lia | lia] | apply yields_erase; [eassumption | lia]
    | apply yields_insert; [eassumption | eassumption | lia]
    | apply yields_getvch; lia ].
Ltac ysplit :=
  cbn beta in *;
  repeat match goal with
         | H : keeps _ _ |- _ => destruct H as [? ?]
         | H : (_ <? _)%nat = false |- _ => apply Nat.ltb_ge in H
         end.
Ltac ystep := lazymatch goal with |- yields _ (mbind _ _) => eapply yields_bind; [yprim | intros; ysplit] end.
Ltac yend :=
  first
    [ done
    | eapply yields_mono; [yprim | exact (keeps_values _)]
    | apply yields_push_result; eassumption
    | cbn [yields]; repeat (apply Forall_cons_2; [eassumption |]); assumption ].
Ltac ysolve := repeat ystep; yend.

(** Handlers of the main stack. *)
Abbreviation stack_op f := (forall st, Forall (val_ok M) st -> yields (Forall (val_ok M)) (f st)).

Lemma ok_cltv : stack_op (op_checklocktimeverify flags).
Proof using HM.
  intros st Hst. unfold op_checklocktimeverify. destruct (negb _); [ysolve |].
  do 2 ystep. eapply yields_bind; [apply yields_CScriptNum; [by eapply val_ok_bytes | lia] |]. intros ? _. ysolve.
Qed.
Lemma ok_nop : stack_op (op_nop_upgradable flags).
Proof using. intros st Hst. unfold op_nop_upgradable. ysolve. Qed.
Lemma ok_verify : stack_op op_verify.
Proof using. intros st Hst. unfold op_verify. repeat ystep. destruct (CastToBool _); yend. Qed.
Lemma ok_2drop : stack_op op_2drop.
Proof using. intros st Hst. unfold op_2drop. ysolve. Qed.
Lemma ok_2dup : stack_op op_2dup.
Proof using. intros st Hst. unfold op_2dup. ysolve. Qed.
Lemma ok_3dup : stack_op op_3dup.
Proof using. intros st Hst. unfold op_3dup. ysolve. Qed.
Lemma ok_2over : stack_op op_2over.
Proof using. intros st Hst. unfold op_2over. ysolve. Qed.
Lemma ok_2rot : stack_op op_2rot.
Proof using. intros st Hst. unfold op_2rot. ysolve. Qed.
Lemma ok_2swap : stack_op op_2swap.
Proof using. intros st Hst. unfold op_2swap. ysolve. Qed.
Lemma ok_ifdup : stack_op op_ifdup.
Proof using. intros st Hst. unfold op_ifdup. repeat ystep. destruct (CastToBool _); yend. Qed.
Lemma ok_drop : stack_op op_drop.
Proof using. intros st Hst. unfold op_drop. ysolve. Qed.
Lemma ok_dup : stack_op op_dup.
Proof using. intros st Hst. unfold op_dup. ysolve. Qed.
Lemma ok_nip : stack_op op_nip.
Proof using. intros st Hst. unfold op_nip. ysolve. Qed.
Lemma ok_over : stack_op op_over.
Proof using. intros st Hst. unfold op_over. ysolve. Qed.
Lemma ok_rot : stack_op op_rot.
Proof using. intros st Hst. unfold op_rot. ysolve. Qed.
Lemma ok_swap : stack_op op_swap.
Proof using. intros st Hst. unfold op_swap. ysolve. Qed.
Lemma ok_tuck : stack_op op_tuck.
Proof using. intros st Hst. unfold op_tuck. ysolve. Qed.
Lemma ok_equal op : stack_op (op_equal op).
Proof using HM. intros st Hst. unfold op_equal. ysolve. Qed.
Lemma ok_within : stack_op (op_within flags).
Proof using HM.
  intros st Hst. unfold op_within. repeat ystep. cbn [yields]. constructor; [apply val_ok_bool | done].
Qed.

Lemma ok_small_int op : - 2 ^ 62 < code op < 2 ^ 62 -> stack_op (op_small_int op).
Proof using HM. intros Hop st Hst. unfold op_small_int. cbn [code] in *. ysolve. Qed.
Lemma ok_depth st : Zlen st < 2 ^ 63 -> Forall (val_ok M) st -> yields (Forall (val_ok M)) (op_depth st).
Proof using HM. intros Hl Hst. pose proof (Zlen_nonneg st). unfold op_depth. ysolve. Qed.
Lemma ok_size : stack_op op_size.
Proof using HM HM63.
  intros st Hst. unfold op_size. do 2 ystep.
  match goal with H : val_ok M ?v |- _ => pose proof (Zlen_nonneg v); pose proof (proj2 H) end. ysolve.
Qed.

Lemma getint_range n : INT_MIN <= getint n <= INT_MAX.
Proof using. unfold getint, INT_MIN, INT_MAX. bdestruct_all. Qed.

Lemma ok_pick_roll op : stack_op (op_pick_roll flags op).
Proof using.
  intros st Hst. unfold op_pick_roll. do 4 ystep. eapply yields_bind; [yprim |]. intros ? Hn.
  apply orb_false_elim in Hn as [Hn1%Z.ltb_ge Hn2%Z.leb_gt]. unfold Zlen in Hn2. ystep.
  destruct (op_eq _ _); [ysolve |]. cbn [mbind outcome_bind]. yend.
Qed.

Lemma ok_unary op :
  In op [OP_1ADD; OP_1SUB; OP_NEGATE; OP_ABS; OP_NOT; OP_0NOTEQUAL] -> stack_op (op_unary flags op).
Proof using HM.
  intros Hop st Hst. unfold op_unary. do 3 ystep.
  eapply (yields_bind (fun n => - 2 ^ 63 < n < 2 ^ 63)); [| intros; ysolve].
  cbn [In] in Hop. destruct_or! Hop; subst op; try done; unfold num_add_assign, num_sub_assign, num_neg, num_bool;
    bdestruct_all; cbn [orb andb negb yields]; bdestruct_all; cbn [orb andb negb yields]; try lia.
Qed.

Lemma ok_binary op :
  In op [OP_ADD; OP_SUB; OP_BOOLAND; OP_BOOLOR; OP_NUMEQUAL; OP_NUMEQUALVERIFY; OP_NUMNOTEQUAL; OP_LESSTHAN;
         OP_GREATERTHAN; OP_LESSTHANOREQUAL; OP_GREATERTHANOREQUAL; OP_MIN; OP_MAX] ->
  stack_op (op_binary flags op).
Proof using HM.
  intros Hop st Hst. unfold op_binary. do 5 ystep.
  eapply (yields_bind (fun n => - 2 ^ 63 < n < 2 ^ 63)).
  - cbn [In] in Hop. destruct_or! Hop; subst op; try done; unfold num_add, num_sub, num_bool, i64;
      try (rewrite decide_True by (unfold is_s64; lia)); cbn [defined yields];
      try lia; repeat case_match; lia.
  - intros bn Hbn. do 2 ystep. cbn zeta. destruct (op_eq _ _); [| yend].
    cbn [stacktop lookup list_lookup mbind outcome_bind popstack]. destruct (CastToBool _); yend.
Qed.

Lemma ok_hash op : stack_op (op_hash op).
Proof using HM HL.
  intros st Hst. unfold op_hash. do 2 ystep. cbn zeta. ystep. cbn [yields].
  constructor; [| done]. apply val_ok_hash; unfold CHash160, CHash256.
  - destruct op; auto using ripemd160_ok, sha1_ok, sha256_ok; apply bytes_ok_replicate; unfold byte_ok; lia.
  - destruct op; rewrite ?length_ripemd160, ?length_sha1, ?length_sha256, ?length_replicate; lia.
Qed.

Lemma yields_encodings sig pk : yields (fun _ => True) (check_encodings flags sig pk).
Proof using. unfold check_encodings. ystep. apply yields_check. Qed.

Lemma ok_checksig op : stack_op (op_checksig flags consensusBranchId script op).
Proof using HM.
  intros st Hst. unfold op_checksig. do 3 ystep. eapply yields_bind; [apply yields_encodings |]. intros _ _. ysolve.
Qed.

Lemma ok_cc op : stack_op (op_checkcryptocondition consensusBranchId cc_enabled script op).
Proof using HM.
  intros st Hst. unfold op_checkcryptocondition. destruct (negb _); [done |]. cbn zeta. ysolve.
Qed.

Lemma yields_multisig turns st isig ikey nSigs nKeys :
  Forall (val_ok M) st -> Z.of_nat turns = nKeys -> 0 <= nSigs <= nKeys ->
  (1 <= isig)%nat -> Z.of_nat isig + nSigs <= Zlen st + 1 ->
  (1 <= ikey)%nat -> Z.of_nat ikey + nKeys <= Zlen st + 1 ->
  yields (fun _ => True) (multisig_loop flags consensusBranchId script turns st isig ikey nSigs nKeys).
Proof using.
  intros Hst. revert isig ikey nSigs nKeys. induction turns as [| turns IH]; intros isig ikey nSigs nKeys Ht Hn Hi Hi2 Hk Hk2;
    cbn [multisig_loop]; (destruct (Z.ltb_spec 0 nSigs); [| done]); [lia |]. unfold Zlen in *.
  do 2 ystep. eapply yields_bind; [apply yields_encodings |]. intros _ _.
  destruct (CheckSig _ _ _ _); cbn zeta;
    (match goal with |- context [?a <? ?b] => destruct (Z.ltb_spec a b) end; [done | apply IH; lia]).
Qed.

Ltac done_step := (split; [done |]); (split; [done |]); cbn [nOpCount set_stack set_vfExec]; lia.

Lemma ok_checkmultisig op s :
  step_ok M s -> yields (step_ok M) (op_checkmultisig flags consensusBranchId script op s).
Proof using HM.
  intros (Hst & Halt & Hops). unfold op_checkmultisig. do 3 ystep. cbn zeta.
  eapply yields_bind; [yprim |]. intros ? [Hk1%Z.ltb_ge Hk2%Z.ltb_ge]%orb_false_elim.
  eapply yields_bind; [yprim |]. intros ? Ho%Z.ltb_ge. do 3 ystep.
  eapply yields_bind; [yprim |]. intros ? [Hs1%Z.ltb_ge Hs2%Z.ltb_ge]%orb_false_elim. ystep.
  eapply yields_bind; [apply yields_multisig; try done; unfold Zlen; lia |]. intros fSuccess _.
  ystep. ystep. ystep. ystep. ystep. eapply yields_bind; [by apply yields_push_result |]. intros st' Hst'.
  cbn [yields]. done_step.
Qed.

Lemma ok_on_stack f s :
  yields (Forall (val_ok M)) (f (stack s)) -> step_ok M s -> yields (step_ok M) (on_stack f s).
Proof using.
  intros Hf (_ & Halt & Hops). unfold on_stack. eapply yields_bind; [exact Hf |]. intros st Hst. cbn [yields]. done_step.
Qed.

Lemma ok_if op fExec s : step_ok M s -> yields (step_ok M) (op_if op fExec s).
Proof using.
  intros (Hst & Halt & Hops). unfold op_if. destruct fExec; [| cbn [yields]; done_step].
  do 2 ystep. cbn zeta. ystep. cbn [yields]. done_step.
Qed.
Lemma ok_else s : step_ok M s -> yields (step_ok M) (op_else s).
Proof using. unfold op_else. by destruct (vfExec s). Qed.
Lemma ok_endif s : step_ok M s -> yields (step_ok M) (op_endif s).
Proof using. unfold op_endif. by destruct (vfExec s). Qed.
Lemma ok_toaltstack s : step_ok M s -> yields (step_ok M) (op_toaltstack s).
Proof using.
  intros (Hst & Halt & Hops). unfold op_toaltstack. do 3 ystep. cbn [yields].
  split; [done |]. split; [by constructor | done].
Qed.
Lemma ok_fromaltstack s : step_ok M s -> yields (step_ok M) (op_fromaltstack s).
Proof using.
  intros (Hst & Halt & Hops). unfold op_fromaltstack. ystep. do 2 ystep. cbn [yields].
  split; [by constructor |]. done.
Qed.

Create HintDb handlers.
#[local] Hint Resolve ok_cltv ok_nop ok_verify ok_2drop ok_2dup ok_3dup ok_2over ok_2rot ok_2swap ok_ifdup ok_drop
  ok_dup ok_nip ok_over ok_rot ok_swap ok_tuck ok_equal ok_within ok_small_int ok_depth ok_size ok_pick_roll ok_unary
  ok_binary ok_hash ok_checksig ok_cc : handlers.

Lemma ok_exec op fExec s :
  step_ok M s -> Zlen (stack s) < 2 ^ 63 -> yields (step_ok M) (exec flags consensusBranchId cc_enabled script op fExec s).
Proof using HM HM63 HL.
  intros Hs Hl. pose proof (proj1 Hs) as Hst. destruct op; cbn [exec];
    first [ done | by apply ok_if | by apply ok_else | by apply ok_endif | by apply ok_toaltstack
          | by apply ok_fromaltstack | by apply ok_checkmultisig
          | apply ok_on_stack; [| done];
            first [ solve [auto with handlers]
                  | apply ok_small_int; [cbn [code]; lia | done]
                  | apply ok_unary; [cbn [In]; tauto | done]
                  | apply ok_binary; [cbn [In]; tauto | done] ] ].
Qed.

(** A read instruction gives bytes of the script. *)
Lemma GetOp2_ok pc : bytes_ok pc -> bytes_ok (or_data (GetOp2 pc)) /\ bytes_ok (or_pc (GetOp2 pc)).
Proof using.
  intros Hpc. assert (forall o n pc, bytes_ok pc -> bytes_ok (or_data (GetOperand o n pc)) /\ bytes_ok (or_pc (GetOperand o n pc))) as Hop.
  { intros o n p Hp. unfold GetOperand. destruct (_ <? _); cbn [op_fail or_data or_pc]; [split; [constructor | done] |].
    split; [by apply bytes_ok_take | by apply bytes_ok_drop]. }
  destruct pc as [| b pc]; [split; constructor |]. inversion_clear Hpc as [| ? ? Hb Hpc'].
  assert (bytes_ok []) as Hnil by constructor. unfold GetOp2.
  repeat match goal with
         | |- context [if ?c then _ else _] => destruct c
         | |- context [match pc with _ => _ end] => destruct pc; [| inversion_clear Hpc']
         end; cbn [op_fail or_data or_pc]; auto using bytes_ok_drop.
Qed.

Lemma ok_turn s r :
  in_limits M s -> bytes_ok (or_data r) -> yields (in_limits M) (turn flags consensusBranchId cc_enabled script s r).
Proof using HM HM63 HL.
  intros [Hst Halt Hsz Hops] Hd. unfold turn. cbn zeta. ystep. eapply yields_bind; [yprim |]. intros ? Hlen%Z.ltb_ge.
  pose proof (Zlen_nonneg (altstack s)) as Hnn.
  assert (step_ok M s /\ Zlen (stack s) < 2 ^ 63) as Hs0 by (split; [done_step | lia]).
  eapply (yields_bind (fun s => step_ok M s /\ Zlen (stack s) < 2 ^ 63)).
  { unfold count_op. destruct (negb (op_le _ _)); [| exact Hs0]. cbn zeta.
    eapply yields_bind; [yprim |]. intros ? Ho%Z.ltb_ge. cbn [nOpCount] in Ho. cbn [yields]. split; [done_step | exact (proj2 Hs0)]. }
  intros s' [Hs' Hl']. ystep. eapply (yields_bind (step_ok M)).
  - destruct (_ && _ && _).
    + ystep. destruct Hs' as (? & ? & ?). cbn [yields]. split; [| done]. constructor; [split; [done | lia] | done].
    + destruct (_ || _); [by apply ok_exec | exact Hs'].
  - intros s2 (H1 & H2 & H3). eapply yields_bind; [yprim |]. intros ? Hsz2%Z.ltb_ge. cbn [yields]. by constructor.
Qed.

(** The loop, from a state within the limits. *)
Lemma ok_eval_loop st :
  bytes_ok script -> Forall (val_ok M) st -> Zlen st <= 1000 ->
  yields (fun st' => Forall (val_ok M) st' /\ Zlen st' <= 1000)
         (eval_loop flags consensusBranchId cc_enabled script st).
Proof using HM HM63 HL.
  intros Hsc Hst Hl. unfold eval_loop. apply (scan_ind _ _ (fun s pc => in_limits M s /\ bytes_ok pc)).
  - intros s b pc [Hs Hpc]. pose proof (proj2 (GetOp2_ok _ Hpc)). unfold eval_body.
    pose proof (ok_turn s (GetOp2 (b :: pc)) Hs (proj1 (GetOp2_ok _ Hpc))) as Ht. by destruct (turn _ _ _ _ _ _).
  - intros s [[H1 _ H3 _] _]. unfold eval_end. pose proof (Zlen_nonneg (altstack s)). destruct (vfExec s); cbn [yields]; [split; [done | lia] | done].
  - split; [| done]. constructor; cbn [stack altstack nOpCount]; [done | constructor | unfold Zlen in *; cbn [length]; lia | lia].
Qed.

Lemma ok_EvalScript st :
  bytes_ok script -> Forall (val_ok M) st -> Zlen st <= 1000 ->
  match EvalScript flags consensusBranchId cc_enabled script st with
  | Ret st' => Forall (val_ok M) st' /\ Zlen st' <= 1000
  | Fail _ => True
  | _ => False
  end.
Proof using HM HM63 HL.
  intros Hsc Hst Hl. unfold EvalScript. destruct (_ <? _); [done |].
  pose proof (ok_eval_loop st Hsc Hst Hl) as H. destruct (eval_loop _ _ _ _ _); cbn [catch_all]; try done.
Qed.

End Limits.

(** ** Verification always answers *)

(** The outcomes of a call that catches its exceptions. *)
Definition answers {A} (P : A -> Prop) (o : outcome A) : Prop :=
  match o with Ret a => P a | Fail _ => True | _ => False end.

Lemma answers_bind {A B} (P : A -> Prop) (Q : B -> Prop) (o : outcome A) (k : A -> outcome B) :
  answers P o -> (forall a, o = Ret a -> P a -> answers Q (k a)) -> answers Q (o ≫= k).
Proof. destruct o; cbn; auto. Qed.

Lemma answers_fail_if c e : answers (fun _ => c = false) (fail_if c e).
Proof. by destruct c. Qed.

(** The stacks [VerifyScript] passes on: a fulfillment can have 2048 bytes. *)
Definition stack_ok (st : list valtype) : Prop :=
  Forall (val_ok MAX_SCRIPT_CRYPTOCONDITION_FULFILLMENT_SIZE) st /\ Zlen st <= 1000.

Section Answers.
Context {CK : Checker} {HS : Hashes} {HL : LawfulHashes}.
Context (flags consensusBranchId : Z) (cc_enabled : bool).

Lemma EvalScript_answers script st :
  bytes_ok script -> stack_ok st -> answers stack_ok (EvalScript flags consensusBranchId cc_enabled script st).
Proof using HL.
  intros Hsc [Hst Hl]. eapply ok_EvalScript; try done.
Qed.

Lemma EvalCryptoConditionSig_answers scriptSig :
  bytes_ok scriptSig -> answers stack_ok (EvalCryptoConditionSig [] scriptSig).
Proof using.
  intros Hsc. pose proof (proj1 (GetOp2_ok scriptSig Hsc)) as Hd. unfold EvalCryptoConditionSig. cbv zeta.
  do 3 (eapply answers_bind; [apply answers_fail_if | intros ? _ _]).
  eapply answers_bind; [apply answers_fail_if |]. intros _ _ Hl%Z.ltb_ge. cbn [answers].
  split; [| unfold Zlen; cbn; lia]. constructor; [by split | constructor].
Qed.

Lemma eval_true_answers st : answers (fun _ => True) (eval_true st).
Proof using. destruct st as [| v st]; [done |]. cbn [eval_true]. by destruct (negb _). Qed.

(** A pay-to-script-hash script takes its operand off the stack. *)
Lemma p2sh_needs_operand script :
  IsPayToScriptHash script = true ->
  exists e, EvalScript flags consensusBranchId cc_enabled script [] = Fail e.
Proof using.
  intros (h & Hh & ->)%IsPayToScriptHash_inv. unfold EvalScript. destruct (_ <? _); [by eauto |].
  exists SCRIPT_ERR_INVALID_STACK_OPERATION. unfold eval_loop. cbn [app]. rewrite scan_eq. reflexivity.
Qed.

End Answers.

(** [C19] Verification answers.  Whatever the two scripts are, [VerifyScript]
    returns true or sets an error: the loop ends, [popstack] and [stack.at] never
    throw, no assertion of the interpreter or of [CScriptNum] fails, and nothing
    undefined is evaluated.  The only exception that is ever thrown is the
    [scriptnum_error] of a malformed number, which [EvalScript] catches.  The
    caller must not ask for [CLEANSTACK] without [P2SH]. *)
Theorem verify_script_answers `{LawfulHashes} {CK : Checker} (flags consensusBranchId : Z) (cc_enabled : bool)
    (scriptSig scriptPubKey : list Z) :
  bytes_ok scriptSig -> bytes_ok scriptPubKey ->
  (has flags SCRIPT_VERIFY_CLEANSTACK = true -> has flags SCRIPT_VERIFY_P2SH = true) ->
  (VerifyScript flags consensusBranchId cc_enabled scriptSig scriptPubKey = Ret tt \/
   exists e, VerifyScript flags consensusBranchId cc_enabled scriptSig scriptPubKey = Fail e).
Proof.
  intros Hsig Hpk Hclean.
  assert (answers (fun _ => True) (VerifyScript flags consensusBranchId cc_enabled scriptSig scriptPubKey)) as Ha.
  2: { destruct (VerifyScript _ _ _ _ _) as [[] | | | |]; try done; eauto. }
  unfold VerifyScript. eapply answers_bind; [apply answers_fail_if |]. intros _ _ _.
  eapply (answers_bind stack_ok).
  { destruct (_ && _); [by apply EvalCryptoConditionSig_answers |].
    apply EvalScript_answers; [done |]. split; [constructor | unfold Zlen; cbn; lia]. }
  intros st _ Hst. cbv zeta. eapply answers_bind; [by apply EvalScript_answers |]. intros st1 E1 Hst1.
  eapply answers_bind; [apply eval_true_answers |]. intros _ _ _.
  eapply (answers_bind (fun _ => True)).
  - destruct (has flags SCRIPT_VERIFY_P2SH); [cbn [andb] | done].
    destruct (IsPayToScriptHash scriptPubKey) eqn:Ep; [| done]. unfold verify_p2sh.
    eapply answers_bind; [apply answers_fail_if |]. intros _ _ _.
    destruct st as [| v st].
    { destruct (p2sh_needs_operand flags consensusBranchId cc_enabled scriptPubKey Ep) as [e Ee]. by rewrite Ee in E1. }
    destruct Hst as [Hst Hl]. inversion_clear Hst as [| ? ? [Hv _] Hst'].
    eapply answers_bind; [apply EvalScript_answers; [done |] |].
    { split; [done |]. unfold Zlen in *. cbn [length] in Hl. lia. }
    intros st2 _ _. eapply answers_bind; [apply eval_true_answers |]. done.
  - intros st2 _ _. destruct (has flags SCRIPT_VERIFY_CLEANSTACK); [| done]. rewrite Hclean by done. cbn [negb].
    by destruct (negb _).
Qed.

(** ** Reachable states *)

(** [P] of the result, if there is one. *)
Definition if_ret {A} (P : A -> Prop) (o : outcome A) : Prop := match o with Ret a => P a | _ => True end.

Lemma if_ret_bind {A B} (Q : B -> Prop) (o : outcome A) (k : A -> outcome B) :
  (forall a, o = Ret a -> if_ret Q (k a)) -> if_ret Q (o ≫= k).
Proof. destruct o; cbn; auto. Qed.

Section Reach.
Context {CK : Checker} {HS : Hashes} {HL : LawfulHashes}.
Context (flags consensusBranchId : Z) (cc_enabled : bool) (script : list Z).

(** The states of the loop of [EvalScript] and the iterator they come with. *)
Inductive reached (st0 : list valtype) : estate -> list Z -> Prop :=
  | reached_start : reached st0 (EState st0 [] [] 0) script
  | reached_turn s b pc s' :
      reached st0 s (b :: pc) ->
      turn flags consensusBranchId cc_enabled script s (GetOp2 (b :: pc)) = Ret s' ->
      reached st0 s' (or_pc (GetOp2 (b :: pc))).

(** An instruction opens at most one conditional, and only when it is counted. *)
Definition nesting (extra : Z) (s s' : estate) : Prop :=
  Zlen (vfExec s') - nOpCount s' <= Zlen (vfExec s) - nOpCount s + extra.

Lemma nesting_multisig op s :
  if_ret (nesting 0 s) (op_checkmultisig flags consensusBranchId script op s).
Proof using.
  unfold op_checkmultisig. cbv zeta. do 3 (apply if_ret_bind; intros ? _). apply if_ret_bind. intros ? E.
  assert (0 <= getint a1) as Hn.
  { unfold fail_if in E. destruct (_ || _) eqn:Eo; [done |]. apply orb_false_elim in Eo as [Eo%Z.ltb_ge _]. done. }
  repeat (apply if_ret_bind; intros ? _). unfold if_ret, nesting. cbn [vfExec nOpCount]. lia.
Qed.

Lemma nesting_exec op fExec s :
  if_ret (nesting (if op_le op OP_16 then 0 else 1) s) (exec flags consensusBranchId cc_enabled script op fExec s).
Proof using.
  assert (forall f, if_ret (nesting 0 s) (on_stack f s)) as Hf.
  { intros f. unfold on_stack. apply if_ret_bind. intros st _. unfold if_ret, nesting. cbn [set_stack vfExec nOpCount]. lia. }
  assert (forall o, if_ret (nesting 0 s) o -> if_ret (nesting 1 s) o) as Hmono.
  { intros [] H; cbn [if_ret] in *; unfold nesting in *; (done || lia). }
  assert (forall o, if_ret (nesting 1 s) (op_if o fExec s)) as Hif.
  { intros o. unfold op_if. destruct fExec; repeat (apply if_ret_bind; intros ? _);
      unfold if_ret, nesting, Zlen; cbn [set_vfExec set_stack vfExec nOpCount length]; lia. }
  assert (if_ret (nesting 0 s) (op_else s) /\ if_ret (nesting 0 s) (op_endif s)) as [Helse Hendif].
  { unfold op_else, op_endif, if_ret, nesting, Zlen. destruct (vfExec s) as [| b v] eqn:E; [done |].
    cbn [set_vfExec vfExec nOpCount length]. lia. }
  assert (if_ret (nesting 0 s) (op_toaltstack s) /\ if_ret (nesting 0 s) (op_fromaltstack s)) as [Hta Hfa].
  { unfold op_toaltstack, op_fromaltstack. split; repeat (apply if_ret_bind; intros ? _);
      unfold if_ret, nesting; cbn [vfExec nOpCount]; lia. }
  pose proof (fun o => nesting_multisig o s) as Hms.
  assert (if_ret (nesting 0 s) (Ret s)) by (unfold if_ret, nesting; lia).
  destruct op; cbn [exec]; unfold op_le; cbn [code Z.leb Z.compare Pos.compare Pos.compare_cont];
    first [exact I | solve [auto] | by destruct (_ <=? _)].
Qed.

Lemma nesting_turn s r s' :
  turn flags consensusBranchId cc_enabled script s r = Ret s' -> nesting 0 s s'.
Proof using.
  intros Ht. assert (if_ret (nesting 0 s) (turn flags consensusBranchId cc_enabled script s r)) as H; [| by rewrite Ht in H].
  clear Ht s'. unfold turn. cbv zeta. do 2 (apply if_ret_bind; intros ? _). apply if_ret_bind. intros s1 E1.
  assert (nesting (if op_le (or_op r) OP_16 then 0 else -1) s s1) as H1.
  { unfold count_op in E1. destruct (op_le _ _); cbn [negb] in E1; [injection E1 as <-; unfold nesting; lia |].
    destruct (201 <? _); cbn [fail_if mbind outcome_bind] in E1; [done |]. injection E1 as <-.
    unfold nesting. cbn [vfExec nOpCount]. lia. }
  apply if_ret_bind. intros ? _. apply if_ret_bind. intros s2 E2.
  assert (nesting (if op_le (or_op r) OP_16 then 0 else 1) s1 s2) as H2.
  { destruct (_ && _ && _).
    - destruct (_ && _); [done |]. injection E2 as <-. unfold nesting. cbn [set_stack vfExec nOpCount]. destruct (op_le _ _); lia.
    - destruct (_ || _).
      + match type of E2 with exec _ _ _ _ ?o ?f ?s = _ => pose proof (nesting_exec o f s) as H2 end. by rewrite E2 in H2.
      + injection E2 as <-. unfold nesting. destruct (op_le _ _); lia. }
  apply if_ret_bind. intros ? _. unfold if_ret, nesting in *. destruct (op_le _ _); lia.
Qed.

End Reach.

(** [C20] The limits of the interpreter hold at every turn.  In every state the
    loop of [EvalScript] reaches, the stacks hold at most 1000 values of at most
    [M] bytes (520, or what the caller put on the stack), at most 201 instructions
    were counted, and the conditionals are nested no deeper than that count. *)
Theorem reached_in_limits `{LawfulHashes} {CK : Checker} (flags consensusBranchId : Z) (cc_enabled : bool)
    (script : list Z) (M : Z) (st0 : list valtype) (s : estate) (pc : list Z) :
  MAX_SCRIPT_ELEMENT_SIZE <= M < 2 ^ 63 -> bytes_ok script -> Forall (val_ok M) st0 -> Zlen st0 <= 1000 ->
  reached flags consensusBranchId cc_enabled script st0 s pc ->
  in_limits M s /\ Zlen (vfExec s) <= nOpCount s /\ (length pc <= length script)%nat.
Proof.
  intros [HM HM63] Hsc Hst Hl Hr.
  assert (in_limits M s /\ Zlen (vfExec s) <= nOpCount s /\ (length pc <= length script)%nat /\ bytes_ok pc) as Hi; [| tauto].
  induction Hr as [| s b pc s' Hr IH Ht].
  - repeat split; cbn [stack altstack vfExec nOpCount]; try done; try constructor; unfold Zlen in *; cbn [length]; try lia.
  - destruct IH as (IH1 & IH2 & IH3 & IH4). pose proof (GetOp2_ok _ IH4) as [Hd Hpc].
    pose proof (ok_turn flags consensusBranchId cc_enabled script M HM HM63 s (GetOp2 (b :: pc)) IH1 Hd) as Hy.
    rewrite Ht in Hy. cbn [yields] in Hy. apply nesting_turn in Ht. unfold nesting in Ht.
    pose proof (GetOp2_shorter b pc). cbn [length] in IH3. split; [done |]. split; [lia |]. split; [lia | done].
Qed.

(** *** Witnesses *)

(** A checker that accepts a signature equal to its key, and hashes that keep the
    first byte. *)
#[local] Instance toy_checker : Checker := {|
  CheckSig sig pk _ _ := bool_decide (sig = pk);
  CheckLockTime n := tx_CheckLockTime 100 0 n;
  CheckCryptoCondition _ _ _ _ := 1;
  CheckLowS _ := true;
|}.
#[local] Instance toy_hashes : Hashes := {|
  ripemd160 msg := u8 (rd msg 0) :: replicate 19 0;
  sha1 msg := u8 (rd msg 0) :: replicate 19 1;
  sha256 msg := u8 (rd msg 0) :: replicate 31 2;
|}.
#[local] Instance toy_hashes_lawful : LawfulHashes.
Proof.
  split; try done; intros msg; constructor; try apply u8_range; apply bytes_ok_replicate; unfold byte_ok; lia.
Qed.

Lemma verify_script_answers_witness :
  VerifyScript 1 0 false [code OP_1; code OP_VERIFY] [code OP_1] = Ret tt /\
  (VerifyScript 1 0 false [code OP_1; code OP_VERIFY] [code OP_1] = Ret tt \/
   exists e, VerifyScript 1 0 false [code OP_1; code OP_VERIFY] [code OP_1] = Fail e).
Proof.
  split; [vm_compute; reflexivity |].
  apply verify_script_answers; [| | vm_compute; done]; repeat (constructor; [unfold byte_ok; cbn; lia |]); constructor.
Defined.

Lemma reached_in_limits_witness :
  let s := EState [[1]] [] [true] 1 in
  in_limits 520 s /\ Zlen (vfExec s) <= nOpCount s /\ (length [code OP_ENDIF] <= 4)%nat.
Proof.
  apply (reached_in_limits 0 0 false [code OP_1; code OP_IF; code OP_1; code OP_ENDIF] 520 []).
  - unfold MAX_SCRIPT_ELEMENT_SIZE. lia.
  - repeat (constructor; [unfold byte_ok; cbn; lia |]); constructor.
  - constructor.
  - vm_compute. done.
  - apply (reached_turn _ _ _ _ _ (EState [] [] [true] 1) (code OP_1) [code OP_ENDIF]); [| vm_compute; reflexivity].
    apply (reached_turn _ _ _ _ _ (EState [[1]] [] [] 0) (code OP_IF) [code OP_1; code OP_ENDIF]); [| vm_compute; reflexivity].
    apply (reached_turn _ _ _ _ _ (EState [] [] [] 0) (code OP_1) [code OP_IF; code OP_1; code OP_ENDIF]); [| vm_compute; reflexivity].
    apply reached_start.
Defined.
