(* ===== verification/ScriptSpec.v ===== *)
(** * What scripts accept (src/src/script/interpreter.cpp)

    Theorems about the interpreter of [Interp]: what [OP_CHECKMULTISIG] accepts,
    which signature encodings pass, when the standard scripts are spent, and that
    the outputs the coin database drops can never be spent. *)
From S2P Require Import Prelude Coins Compact Script Interp.
Import Script.Op.
Local Open Scope Z_scope.

(** ** Multisignatures *)

Section Multisig.
Context {CK : Checker} {HS : Hashes}.
Context (flags consensusBranchId : Z) (script : list Z).

(** Each signature matches a key, the keys taken in order. *)
Definition signed_in_order (sigs keys : list valtype) : Prop :=
  exists chosen, chosen `sublist_of` keys
    /\ Forall2 (fun sig key => CheckSig sig key script consensusBranchId = true) sigs chosen.

(** The choice the loop makes: the first key that fits. *)
Fixpoint take_first (sigs keys : list valtype) : bool :=
  match sigs, keys with
  | [], _ => true
  | _ :: _, [] => false
  | sig :: sigs', key :: keys =>
      if CheckSig sig key script consensusBranchId then take_first sigs' keys else take_first sigs keys
  end.

Lemma take_first_short sigs keys : (length keys < length sigs)%nat -> take_first sigs keys = false.
Proof using.
  revert sigs. induction keys as [| key keys IH]; intros [| sig sigs] Hl; cbn [length take_first] in *; try lia.
  destruct (CheckSig _ _ _ _); apply IH; cbn [length]; lia.
Qed.

(** Taking the first key that fits never loses a solution. *)
Lemma take_first_complete sigs keys : take_first sigs keys = true <-> signed_in_order sigs keys.
Proof using.
  revert sigs. induction keys as [| key keys IH]; intros [| sig sigs]; cbn [take_first].
  - split; [intros _ | done]. by exists [].
  - split; [done |]. intros (chosen & Hs & HF). apply sublist_nil_r in Hs. subst. inversion HF.
  - split; [intros _ | done]. exists []. split; [apply sublist_nil_l | constructor].
  - destruct (CheckSig sig key _ _) eqn:E; rewrite IH; split; intros (chosen & Hs & HF).
    + exists (key :: chosen). split; [by apply sublist_skip | by constructor].
    + inversion HF as [| ? k ? chosen' Hk HF']; subst. exists chosen'. split; [| done].
      apply sublist_cons_l in Hs as (k1 & k2 & E2 & Hs).
      destruct k1 as [| k0 k1]; injection E2 as -> ->; [done |].
      apply sublist_inserts_l. by apply sublist_cons.
    + exists chosen. split; [by apply sublist_cons | done].
    + inversion HF as [| ? k ? chosen' Hk HF']; subst. exists (k :: chosen'). split; [| done].
      apply sublist_cons_r in Hs as [Hs | (c & [= <- <-] & Hs)]; [done |]. by rewrite E in Hk.
Qed.

Lemma stacktop_app (pre : list valtype) v post k :
  k = S (length pre) -> stacktop (pre ++ v :: post) k = Ret v.
Proof using. intros ->. cbn [stacktop]. by rewrite list_lookup_middle. Qed.

(** The loop on a stack that holds the keys and the signatures. *)
Lemma multisig_loop_spec turns st isig ikey sigs keys presig postsig prekey postkey :
  st = presig ++ sigs ++ postsig -> isig = S (length presig) ->
  st = prekey ++ keys ++ postkey -> ikey = S (length prekey) ->
  turns = length keys -> (length sigs <= length keys)%nat ->
  (forall sig key, In sig sigs -> In key keys -> check_encodings flags sig key = Ret tt) ->
  multisig_loop flags consensusBranchId script turns st isig ikey (Zlen sigs) (Zlen keys) =
  Ret (take_first sigs keys).
Proof using.
  intros Hst1 Hi Hst2 Hk Ht Hl Henc.
  revert keys isig ikey sigs presig prekey Hst1 Hi Hst2 Hk Ht Hl Henc.
  induction turns as [| turns IH]; intros keys isig ikey sigs presig prekey Hst1 Hi Hst2 Hk Ht Hl Henc.
  { destruct keys; [| done]. destruct sigs; [done | cbn in Hl; lia]. }
  destruct keys as [| key keys]; [done |]. destruct sigs as [| sig sigs]; [done |].
  cbn [multisig_loop]. rewrite (proj2 (Z.ltb_lt 0 _)) by (unfold Zlen; cbn [length]; lia).
  assert (stacktop st isig = Ret sig) as -> by (rewrite Hst1; by apply stacktop_app).
  assert (stacktop st ikey = Ret key) as -> by (rewrite Hst2; by apply stacktop_app).
  cbn [mbind outcome_bind]. rewrite Henc by (by left). cbn [take_first].
  cbn [length] in Ht, Hl. cbn zeta.
  replace (Zlen (key :: keys) - 1) with (Zlen keys) by (unfold Zlen; cbn [length]; lia).
  assert (st = (prekey ++ [key]) ++ keys ++ postkey) as Hst2' by (rewrite Hst2, <-app_assoc; done).
  assert (S ikey = S (length (prekey ++ [key]))) as Hk' by (rewrite length_app; cbn [length]; lia).
  destruct (CheckSig sig key _ _).
  - replace (Zlen (sig :: sigs) - 1) with (Zlen sigs) by (unfold Zlen; cbn [length]; lia).
    rewrite (proj2 (Z.ltb_ge _ _)) by (unfold Zlen; lia).
    apply (IH keys (S isig) (S ikey) sigs (presig ++ [sig]) (prekey ++ [key])); try done; try lia.
    + by rewrite Hst1, <-app_assoc.
    + rewrite length_app. cbn [length]. lia.
    + intros. apply Henc; by right.
  - destruct (Z.ltb_spec (Zlen keys) (Zlen (sig :: sigs))) as [Hs | Hs].
    + rewrite take_first_short; [done |]. unfold Zlen in Hs. lia.
    + apply (IH keys isig (S ikey) (sig :: sigs) presig (prekey ++ [key])); try done; try lia.
      * unfold Zlen in Hs. lia.
      * intros. apply Henc; [done | by right].
Qed.

Lemma popstack_n_app (pre post : list valtype) n : n = length pre -> popstack_n n (pre ++ post) = Ret post.
Proof using. intros ->. induction pre as [| v pre IH]; [done |]. exact IH. Qed.

Lemma need_enough n (st : list valtype) : (n <= length st)%nat -> need n st = Ret tt.
Proof using. intros H. unfold need, fail_if. by rewrite (proj2 (Nat.ltb_ge _ _)). Qed.

End Multisig.

(** ** Running a script, instruction by instruction *)

Section Run.
Context {CK : Checker} {HS : Hashes}.
Context (flags consensusBranchId : Z) (cc_enabled : bool) (script : list Z).

Abbreviation run := (scan (eval_body flags consensusBranchId cc_enabled script) eval_end).
Abbreviation exec := (exec flags consensusBranchId cc_enabled script).

(** The state after an instruction was counted. *)
Definition counted (s : estate) : estate := EState (stack s) (altstack s) (vfExec s) (nOpCount s + 1).

(** A push that is executed. *)
Lemma run_push_any s b rest :
  vfExec s = [] -> Zlen b <= MAX_SCRIPT_ELEMENT_SIZE ->
  fRequireMinimal flags && negb (CheckMinimalPush b (push_opcode b)) = false ->
  run s (push_data b ++ rest) =
  if 1000 <? Zlen (b :: stack s) + Zlen (altstack s) then Fail SCRIPT_ERR_STACK_SIZE else run (set_stack s (b :: stack s)) rest.
Proof using.
  intros Hv Hb Hmin. pose proof (push_opcode_range b) as [Hr _]. unfold MAX_SCRIPT_ELEMENT_SIZE in Hb.
  rewrite scan_push by lia. unfold eval_body at 1, turn. cbn [or_ok or_op or_data]. rewrite Hv. cbn [existsb negb].
  unfold fail_if at 1 2. rewrite (proj2 (Z.ltb_ge MAX_SCRIPT_ELEMENT_SIZE _)) by done. cbn [mbind outcome_bind].
  unfold count_op, op_le. cbn [code] in Hr |- *. rewrite (proj2 (Z.leb_le _ 96)) by lia. cbn [negb mbind outcome_bind].
  assert (is_disabled (push_opcode b) = false) as ->.
  { unfold is_disabled, op_eq. cbn [existsb code]. rewrite !(fun k H => proj2 (Z.eqb_neq (code (push_opcode b)) k) H) by lia. done. }
  cbn [fail_if mbind outcome_bind]. rewrite (proj2 (Z.leb_le 0 _)), (proj2 (Z.leb_le _ 78)) by lia. cbn [andb].
  rewrite Hmin. cbn [fail_if mbind outcome_bind set_stack stack altstack].
  by destruct (1000 <? _).
Qed.

Lemma run_push s b rest :
  vfExec s = [] -> Zlen b <= MAX_SCRIPT_ELEMENT_SIZE ->
  fRequireMinimal flags && negb (CheckMinimalPush b (push_opcode b)) = false ->
  Zlen (stack s) + 1 + Zlen (altstack s) <= 1000 ->
  run s (push_data b ++ rest) = run (set_stack s (b :: stack s)) rest.
Proof using.
  intros Hv Hb Hmin Hsz. rewrite run_push_any by done.
  by rewrite (proj2 (Z.ltb_ge 1000 _)) by (unfold Zlen in *; cbn [length]; lia).
Qed.

(** An instruction above [OP_16] that is executed. *)
Lemma run_op op s rest :
  In op named -> OP_16 < code op -> vfExec s = [] -> is_disabled op = false ->
  run s (code op :: rest) =
  if 200 <? nOpCount s then Fail SCRIPT_ERR_OP_COUNT
  else match exec op true (counted s) with
       | Ret s' => if 1000 <? Zlen (stack s') + Zlen (altstack s') then Fail SCRIPT_ERR_STACK_SIZE else run s' rest
       | Fail e => Fail e
       | Throw x => Throw x
       | Assert => Assert
       | Undefined => Undefined
       end.
Proof using.
  intros Hn Hop Hv Hd.
  assert (opcode_of (code op) = op) as Eop.
  { clear -Hn. unfold named in Hn. cbn [In] in Hn. destruct_or! Hn; subst; try done; by destruct Hn. }
  assert (GetOp2 (code op :: rest) = OpRead true rest op []) as Eg.
  { unfold GetOp2. cbn [code] in Hop |- *. rewrite (proj2 (Z.leb_gt _ 78)), Eop by lia. done. }
  rewrite scan_eq, Eg. unfold eval_body at 1, turn. cbn [or_ok or_op or_data or_pc]. rewrite Hv. cbn [existsb negb].
  unfold fail_if at 1 2. change (MAX_SCRIPT_ELEMENT_SIZE <? Zlen (@nil Z)) with false. cbn [mbind outcome_bind].
  unfold count_op, op_le. cbn [code] in Hop |- *. rewrite (proj2 (Z.leb_gt _ 96)) by lia. cbn [negb]. cbn [nOpCount].
  destruct (Z.ltb_spec 200 (nOpCount s)) as [Hc | Hc].
  { rewrite (proj2 (Z.ltb_lt 201 _)) by lia. done. }
  rewrite (proj2 (Z.ltb_ge 201 _)) by lia. cbn [fail_if mbind outcome_bind]. rewrite Hd. cbn [fail_if mbind outcome_bind].
  rewrite (proj2 (Z.leb_gt _ 78)) by lia. rewrite andb_false_r. cbn [orb]. fold (counted s).
  destruct (exec op true (counted s)) as [s' | | | |]; cbn [mbind outcome_bind]; try done.
  destruct (1000 <? _); done.
Qed.

(** The same, when the handler returns or fails. *)
Lemma run_ret op s s' rest :
  In op named -> OP_16 < code op -> vfExec s = [] -> is_disabled op = false -> nOpCount s <= 200 ->
  exec op true (counted s) = Ret s' -> Zlen (stack s') + Zlen (altstack s') <= 1000 ->
  run s (code op :: rest) = run s' rest.
Proof using.
  intros Hn Hop Hv Hd Hc He Hsz. rewrite run_op by done. rewrite (proj2 (Z.ltb_ge 200 _)), He by lia.
  by rewrite (proj2 (Z.ltb_ge 1000 _)).
Qed.

Lemma run_fail op s e rest :
  In op named -> OP_16 < code op -> vfExec s = [] -> is_disabled op = false -> nOpCount s <= 200 ->
  exec op true (counted s) = Fail e -> run s (code op :: rest) = Fail e.
Proof using.
  intros Hn Hop Hv Hd Hc He. rewrite run_op by done. by rewrite (proj2 (Z.ltb_ge 200 _)), He by lia.
Qed.

End Run.

Section Standard.
Context {CK : Checker} {HS : Hashes}.
Context (flags consensusBranchId : Z) (cc_enabled : bool).

Abbreviation EvalScript := (EvalScript flags consensusBranchId cc_enabled).

Ltac named_op := vm_compute; tauto.
Ltac run_step op s := rewrite (run_ret _ _ _ _ op _ s); [| named_op | reflexivity | reflexivity | reflexivity | cbn; lia | |].

(** [OP_DUP OP_HASH160 <h> OP_EQUALVERIFY OP_CHECKSIG]. *)
Definition p2pkh (h : list Z) : list Z :=
  [code OP_DUP; code OP_HASH160; 20] ++ h ++ [code OP_EQUALVERIFY; code OP_CHECKSIG].
(** [OP_HASH160 <h> OP_EQUAL]. *)
Definition p2sh (h : list Z) : list Z := [code OP_HASH160; 20] ++ h ++ [code OP_EQUAL].

Lemma push_hash (h rest : list Z) : length h = 20%nat -> 20 :: h ++ rest = push_data h ++ rest.
Proof using.
  intros Hh. unfold push_data. assert (Zlen h = 20) as -> by (unfold Zlen; lia).
  reflexivity.
Qed.

Lemma minimal_hash (h : list Z) :
  length h = 20%nat -> fRequireMinimal flags && negb (CheckMinimalPush h (push_opcode h)) = false.
Proof using.
  intros Hh. assert (CheckMinimalPush h (push_opcode h) = true) as ->; [| by rewrite andb_false_r].
  unfold CheckMinimalPush, push_opcode. assert (Zlen h = 20) as -> by (unfold Zlen; lia). reflexivity.
Qed.

Lemma minimal_push b : Zlen b <> 1 -> Zlen b <= MAX_SCRIPT_ELEMENT_SIZE -> CheckMinimalPush b (push_opcode b) = true.
Proof using.
  intros H1 H. pose proof (Zlen_nonneg b). unfold CheckMinimalPush, push_opcode, op_eq, MAX_SCRIPT_ELEMENT_SIZE in *.
  rewrite (proj2 (Z.eqb_neq _ 1)) by done. cbn [andb].
  destruct (Z.eqb_spec (Zlen b) 0) as [-> |]; [done |]. change (code OP_PUSHDATA1) with 76.
  destruct (Z.leb_spec (Zlen b) 75).
  { rewrite (proj2 (Z.ltb_lt _ 76)), code_opcode_of by lia. apply Z.eqb_refl. }
  rewrite (proj2 (Z.ltb_ge _ 76)) by lia. destruct (Z.leb_spec (Zlen b) 255); [done |].
  by rewrite (proj2 (Z.leb_le _ 65535)) by lia.
Qed.

Lemma EvalScript_short script st :
  Zlen script <= MAX_SCRIPT_SIZE ->
  EvalScript script st = catch_all (scan (eval_body flags consensusBranchId cc_enabled script) eval_end (EState st [] [] 0) script).
Proof using. intros H. unfold Interp.EvalScript, eval_loop. by rewrite (proj2 (Z.ltb_ge _ _)). Qed.

Lemma eval_p2pkh h sig pk :
  length h = 20%nat ->
  EvalScript (p2pkh h) [pk; sig] =
  if bool_decide (CHash160 pk = h) then
    catch_all (_ ← check_encodings flags sig pk;
               Ret [vch_bool (CheckSig sig pk (p2pkh h) consensusBranchId)])
  else Fail SCRIPT_ERR_EQUALVERIFY.
Proof using.
  intros Hh. rewrite EvalScript_short.
  2: { unfold p2pkh, Zlen. rewrite !length_app. cbn [length]. rewrite Hh. vm_compute. done. }
  set (script := p2pkh h) at 1 3. unfold p2pkh. cbn [app].
  run_step OP_DUP (EState [pk; pk; sig] [] [] 1); [| reflexivity | done].
  run_step OP_HASH160 (EState [CHash160 pk; pk; sig] [] [] 2); [| reflexivity | done].
  rewrite push_hash by done.
  rewrite run_push; [| done | unfold Zlen; rewrite Hh; done | by apply minimal_hash | done].
  cbn [set_stack stack altstack vfExec nOpCount]. case_bool_decide as E.
  - run_step OP_EQUALVERIFY (EState [pk; sig] [] [] 3); [| | done].
    2: { cbn. by rewrite bool_decide_true. }
    rewrite run_op; [| named_op | reflexivity | reflexivity | reflexivity].
    change (200 <? nOpCount _) with false. cbv iota.
    cbn [exec]. unfold on_stack, counted. cbn [stack].
    assert (op_checksig flags consensusBranchId script OP_CHECKSIG [pk; sig] =
            (_ ← check_encodings flags sig pk; Ret [vch_bool (CheckSig sig pk script consensusBranchId)])) as -> by done.
    destruct (check_encodings flags sig pk) as [[] | | | |]; done.
  - erewrite (run_fail _ _ _ _ OP_EQUALVERIFY); [done | named_op | reflexivity | reflexivity | reflexivity | cbn; lia |].
    cbn. by rewrite bool_decide_false.
Qed.

(** Whatever the scriptSig leaves, a pay-to-public-key-hash script ends in true only
    with a key of that hash and a signature that the checker accepts. *)
Lemma eval_p2pkh_needs h st st' :
  length h = 20%nat -> EvalScript (p2pkh h) st = Ret st' -> eval_true st' = Ret tt ->
  exists sig pk rest, st = pk :: sig :: rest /\ CHash160 pk = h /\ CheckSig sig pk (p2pkh h) consensusBranchId = true.
Proof using.
  intros Hh. rewrite EvalScript_short.
  2: { unfold p2pkh, Zlen. rewrite !length_app. cbn [length]. rewrite Hh. vm_compute. done. }
  set (script := p2pkh h) at 1. unfold p2pkh at 1. cbn [app].
  destruct st as [| pk st].
  { erewrite (run_fail _ _ _ _ OP_DUP); [done | named_op | reflexivity | reflexivity | reflexivity | cbn; lia | reflexivity]. }
  rewrite run_op by (try reflexivity; named_op). change (200 <? nOpCount _) with false. cbv iota.
  change (exec _ _ _ _ OP_DUP true (counted (EState (pk :: st) [] [] 0))) with (Ret (EState (pk :: pk :: st) [] [] 1)).
  cbv iota. destruct (1000 <? _); [done |].
  rewrite run_op by (try reflexivity; named_op). change (200 <? nOpCount _) with false. cbv iota.
  change (exec _ _ _ _ OP_HASH160 true (counted (EState (pk :: pk :: st) [] [] 1))) with (Ret (EState (CHash160 pk :: pk :: st) [] [] 2)).
  cbv iota. destruct (1000 <? _); [done |].
  rewrite push_hash by done. rewrite run_push_any; [| done | unfold Zlen; rewrite Hh; done | by apply minimal_hash].
  destruct (1000 <? _); [done |]. cbn [set_stack stack altstack vfExec nOpCount].
  rewrite run_op by (try reflexivity; named_op). change (200 <? nOpCount _) with false. cbv iota.
  cbn [exec]. unfold on_stack, counted, set_stack. cbn [stack altstack vfExec nOpCount].
  assert (op_equal OP_EQUALVERIFY (h :: CHash160 pk :: pk :: st) =
          (if bool_decide (CHash160 pk = h) then Ret (pk :: st) else Fail SCRIPT_ERR_EQUALVERIFY)) as ->.
  { cbn. by destruct (bool_decide (CHash160 pk = h)). }
  case_bool_decide as E; [| done]. cbn [mbind outcome_bind]. destruct (1000 <? _); [done |].
  rewrite run_op by (try reflexivity; named_op). change (200 <? nOpCount _) with false. cbv iota.
  cbn [exec]. unfold on_stack, counted, set_stack. cbn [stack altstack vfExec nOpCount].
  destruct st as [| sig st]; [done |].
  assert (op_checksig flags consensusBranchId script OP_CHECKSIG (pk :: sig :: st) =
          (_ ← check_encodings flags sig pk; Ret (vch_bool (CheckSig sig pk script consensusBranchId) :: st))) as -> by done.
  destruct (check_encodings flags sig pk) as [[] | | | |]; cbn [mbind outcome_bind]; try done.
  destruct (1000 <? _); [done |]. intros Er Ht. exists sig, pk, st. split; [done |]. split; [done |].
  fold script. destruct (CheckSig sig pk script consensusBranchId); [done |]. cbn in Er. injection Er as <-. done.
Qed.

Lemma verify_p2pkh_needs h scriptSig :
  length h = 20%nat -> VerifyScript flags consensusBranchId cc_enabled scriptSig (p2pkh h) = Ret tt ->
  exists sig pk, CHash160 pk = h /\ CheckSig sig pk (p2pkh h) consensusBranchId = true.
Proof using.
  intros Hh. unfold VerifyScript. destruct (fail_if _ _) as [[] | | | |]; cbn [mbind outcome_bind]; try done.
  match goal with |- context [if ?b then EvalCryptoConditionSig ?x ?y else ?z] =>
    destruct (if b then EvalCryptoConditionSig x y else z) as [st | | | |] end; cbn [mbind outcome_bind]; try done. cbv zeta.
  destruct (EvalScript (p2pkh h) st) as [st' | | | |] eqn:E; cbn [mbind outcome_bind]; try done.
  destruct (eval_true st') as [[] | | | |] eqn:Et; cbn [mbind outcome_bind]; try done. intros _.
  destruct (eval_p2pkh_needs h st st' Hh E Et) as (sig & pk & rest & _ & ? & ?). by exists sig, pk.
Qed.

Lemma eval_p2sh h v st :
  length h = 20%nat -> Zlen st <= 998 ->
  EvalScript (p2sh h) (v :: st) = Ret (vch_bool (bool_decide (CHash160 v = h)) :: st).
Proof using.
  intros Hh Hst. rewrite EvalScript_short.
  2: { unfold p2sh, Zlen. rewrite !length_app. cbn [length]. rewrite Hh. vm_compute. done. }
  set (script := p2sh h) at 1. unfold p2sh. cbn [app].
  run_step OP_HASH160 (EState (CHash160 v :: st) [] [] 1); [| reflexivity | unfold Zlen in *; cbn [length stack altstack]; lia].
  rewrite push_hash by done.
  rewrite run_push; [| done | unfold Zlen; rewrite Hh; done | by apply minimal_hash | unfold Zlen in *; cbn [length stack altstack]; lia].
  cbn [set_stack stack altstack vfExec nOpCount].
  run_step OP_EQUAL (EState (vch_bool (bool_decide (CHash160 v = h)) :: st) [] [] 2);
    [done | reflexivity | unfold Zlen in *; cbn [length stack altstack]; lia].
Qed.

(** Nothing spends a pay-to-script-hash output from an empty stack. *)
Lemma eval_p2sh_empty h : length h = 20%nat -> EvalScript (p2sh h) [] = Fail SCRIPT_ERR_INVALID_STACK_OPERATION.
Proof using.
  intros Hh. rewrite EvalScript_short.
  2: { unfold p2sh, Zlen. rewrite !length_app. cbn [length]. rewrite Hh. vm_compute. done. }
  set (script := p2sh h) at 1. unfold p2sh. cbn [app].
  erewrite (run_fail _ _ _ _ OP_HASH160); [done | named_op | reflexivity | reflexivity | reflexivity | cbn; lia | reflexivity].
Qed.

(** A script of two pushes. *)
Lemma eval_two_pushes a b :
  Zlen a <= MAX_SCRIPT_ELEMENT_SIZE -> Zlen b <= MAX_SCRIPT_ELEMENT_SIZE ->
  fRequireMinimal flags && negb (CheckMinimalPush a (push_opcode a)) = false ->
  fRequireMinimal flags && negb (CheckMinimalPush b (push_opcode b)) = false ->
  EvalScript (push_data a ++ push_data b) [] = Ret [b; a].
Proof using.
  intros Ha Hb Hma Hmb.
  assert (forall v, Zlen v <= MAX_SCRIPT_ELEMENT_SIZE -> Zlen (push_data v) <= 525) as Hp.
  { intros v Hv. unfold push_data, MAX_SCRIPT_ELEMENT_SIZE in *. rewrite Zlen_app.
    repeat case_match; unfold Zlen in *; cbn [length]; rewrite ?length_le_bytes; lia. }
  pose proof (Hp a Ha). pose proof (Hp b Hb).
  rewrite EvalScript_short by (rewrite Zlen_app; unfold MAX_SCRIPT_SIZE; lia).
  rewrite run_push by (try done; cbn; lia). cbn [set_stack stack altstack vfExec nOpCount].
  rewrite <-(app_nil_r (push_data b)) at 2. rewrite run_push by (try done; cbn; lia). done.
Qed.

(** A script that cannot be spent fails on every stack. *)
Lemma eval_unspendable script st :
  IsUnspendable script = true -> exists e, EvalScript script st = Fail e.
Proof using.
  intros H. unfold Interp.EvalScript. destruct (Z.ltb_spec MAX_SCRIPT_SIZE (Zlen script)) as [Hl | Hl]; [by eauto |].
  unfold IsUnspendable in H. destruct script as [| op script]; [by apply Z.ltb_lt in H; lia |].
  rewrite (proj2 (Z.ltb_ge _ _)), orb_false_r in H by done. apply Z.eqb_eq in H. subst op.
  exists SCRIPT_ERR_OP_RETURN. unfold eval_loop. change Coins.OP_RETURN with (code OP_RETURN).
  erewrite run_fail; [done | named_op | reflexivity | reflexivity | reflexivity | cbn; lia | reflexivity].
Qed.

End Standard.

(** ** Signature encodings *)

(** A positive integer in the shortest form: no sign bit, and no zero in front
    unless the next byte has the sign bit. *)
Definition der_int (X : list Z) : Prop :=
  0 < Zlen X /\ rd X 0 < 128 /\ (1 < Zlen X -> rd X 0 = 0 -> 128 <= rd X 1).

(** The encoding the comment of [IsValidSignatureEncoding] describes. *)
Definition der_signature (sig : list Z) : Prop :=
  exists R S hashtype,
    sig = [0x30; Zlen R + Zlen S + 4; 0x02; Zlen R] ++ R ++ [0x02; Zlen S] ++ S ++ [hashtype]
    /\ der_int R /\ der_int S /\ Zlen R + Zlen S <= 66.

Lemma rd_app_r (l1 l2 : list Z) i k : i = (length l1 + k)%nat -> rd (l1 ++ l2) i = rd l2 k.
Proof. intros ->. unfold rd. rewrite app_nth2 by lia. f_equal. lia. Qed.

(** The tests of one integer, on its first two bytes. *)
Lemma der_int_tests X v0 v1 :
  bytes_ok X -> (0 < Zlen X -> v0 = rd X 0) -> (1 < Zlen X -> v1 = rd X 1) ->
  der_int X <-> (Zlen X =? 0) = false /\ (Z.land v0 0x80 =? 0) = true
                /\ ((1 <? Zlen X) && (v0 =? 0) && (Z.land v1 0x80 =? 0)) = false.
Proof.
  intros HX H0 H1. pose proof (Zlen_nonneg X) as Hn. unfold der_int.
  rewrite Z.eqb_neq. destruct (Z.eq_dec (Zlen X) 0) as [E | E]; [split; [lia | tauto] |].
  rewrite H0, byte_sign, Z.ltb_lt by (lia || by apply rd_ok). destruct (Z.ltb_spec 1 (Zlen X)) as [Hl | Hl].
  - rewrite H1, byte_sign by (lia || by apply rd_ok). cbn [andb].
    destruct (Z.eqb_spec (rd X 0) 0) as [Ez | Ez]; cbn [andb]; rewrite ?Z.ltb_ge; [| intuition lia].
    split; [| intuition lia]. intros (H2 & H3 & H4). repeat split; auto.
  - cbn [andb]. split; [intuition lia |]. intros (H2 & H3 & _). repeat split; [lia | done | lia].
Qed.

(** The tests, on bytes cut at the lengths they contain. *)
Lemma der_tests a b c R x S hashtype :
  bytes_ok R -> bytes_ok S ->
  IsValidSignatureEncoding ([a; b; c; Zlen R] ++ R ++ [x; Zlen S] ++ S ++ [hashtype]) = true <->
  a = 0x30 /\ b = Zlen R + Zlen S + 4 /\ c = 0x02 /\ x = 0x02 /\ der_int R /\ der_int S /\ Zlen R + Zlen S <= 66.
Proof.
  intros HR HS. set (sig := [a; b; c; Zlen R] ++ _). pose proof (Zlen_nonneg R) as HRn. pose proof (Zlen_nonneg S) as HSn.
  assert (Zlen sig = Zlen R + Zlen S + 7) as Hlen.
  { subst sig. rewrite !Zlen_app. unfold Zlen. cbn [length]. lia. }
  assert (forall k, rd sig (Z.to_nat (Zlen R + 4 + Z.of_nat k)) = rd ([x; Zlen S] ++ S ++ [hashtype]) k) as Hmid.
  { intros k. subst sig. rewrite (rd_app_r _ _ _ (length R + k)) by (unfold Zlen; cbn [length]; lia). by apply rd_app_r. }
  assert (forall k, rd sig (Z.to_nat (Zlen R + 6 + Z.of_nat k)) = rd (S ++ [hashtype]) k) as HS'.
  { intros k. rewrite <-(rd_app_r [x; Zlen S] _ (2 + k) k) by done. rewrite <-Hmid. do 2 f_equal. lia. }
  assert (forall k, (k < length R)%nat -> rd sig (4 + k) = rd R k) as HR'.
  { intros k Hk. subst sig. rewrite (rd_app_r [a; b; c; Zlen R] _ (4 + k) k) by done. by apply rd_app_l. }
  pose proof (Hmid 0%nat) as E4. pose proof (Hmid 1%nat) as E5. pose proof (HS' 0%nat) as E6. pose proof (HS' 1%nat) as E7.
  cbn [app rd nth] in E4, E5. fold (rd (S ++ [hashtype]) 0) in E6. fold (rd (S ++ [hashtype]) 1) in E7.
  replace (Zlen R + 4 + Z.of_nat 0) with (Zlen R + 4) in E4 by lia.
  replace (Zlen R + 4 + Z.of_nat 1) with (5 + Zlen R) in E5 by lia.
  replace (Zlen R + 6 + Z.of_nat 0) with (Zlen R + 6) in E6 by lia.
  replace (Zlen R + 6 + Z.of_nat 1) with (Zlen R + 7) in E7 by lia.
  assert (0 < Zlen R -> rd sig 4 = rd R 0) as H4 by (intros; apply (HR' 0%nat); unfold Zlen in *; lia).
  assert (1 < Zlen R -> rd sig 5 = rd R 1) as H5 by (intros; apply (HR' 1%nat); unfold Zlen in *; lia).
  assert (0 < Zlen S -> rd (S ++ [hashtype]) 0 = rd S 0) as H6 by (intros; apply rd_app_l; unfold Zlen in *; lia).
  assert (1 < Zlen S -> rd (S ++ [hashtype]) 1 = rd S 1) as H7 by (intros; apply rd_app_l; unfold Zlen in *; lia).
  rewrite (der_int_tests R (rd sig 4) (rd sig 5)), (der_int_tests S (rd (S ++ [hashtype]) 0) (rd (S ++ [hashtype]) 1)) by done.
  unfold IsValidSignatureEncoding. rewrite Hlen.
  change (rd sig 0) with a. change (rd sig 1) with b. change (rd sig 2) with c. change (rd sig 3) with (Zlen R).
  cbv zeta. rewrite E4, E5, E6, E7. clear E4 E5 E6 E7 Hmid HS' HR'. split.
  - intros H.
    repeat match type of H with (if ?c then false else _) = true => destruct c eqn:?; [done |] end. clear H.
    repeat match goal with
           | E : negb _ = false |- _ => apply negb_false_iff in E
           | E : (?p =? ?q) = true |- _ => first [is_var p | is_var q]; apply Z.eqb_eq in E
           | E : (_ <? _) = false |- _ => apply Z.ltb_ge in E
           end.
    repeat split; (done || lia).
  - intros (-> & -> & -> & -> & (HR1 & HR2 & HR3) & (HS1 & HS2 & HS3) & Hsum).
    rewrite HR1, HR2, HR3, HS1, HS2, HS3. apply Z.eqb_neq in HR1, HS1. bdestruct_all; reflexivity.
Qed.

(** Bytes that pass the length tests can be cut. *)
Lemma der_cut sig :
  bytes_ok sig -> IsValidSignatureEncoding sig = true ->
  exists a b c R x S hashtype, sig = [a; b; c; Zlen R] ++ R ++ [x; Zlen S] ++ S ++ [hashtype].
Proof.
  intros Hok H. unfold IsValidSignatureEncoding in H. cbv zeta in H.
  do 6 (match type of H with (if ?c then false else _) = true => destruct c eqn:?; [done |] end). clear H.
  repeat match goal with
         | E : negb _ = false |- _ => apply negb_false_iff, Z.eqb_eq in E
         | E : (_ <? _) = false |- _ => apply Z.ltb_ge in E
         | E : (_ <=? _) = false |- _ => apply Z.leb_gt in E
         end.
  pose proof (rd_ok sig 3 Hok) as HR. pose proof (rd_ok sig (Z.to_nat (5 + rd sig 3)) Hok) as HS. unfold byte_ok in HR, HS.
  set (lenR := rd sig 3) in *. set (lenS := rd sig (Z.to_nat (5 + lenR))) in *.
  do 4 (destruct sig as [| ? sig]; [unfold Zlen in *; cbn [length] in *; lia |]).
  unfold Zlen in *. cbn [length] in *.
  set (R := take (Z.to_nat lenR) sig). destruct (drop (Z.to_nat lenR) sig) as [| x [| y t]] eqn:Ed;
    try (apply (f_equal length) in Ed; rewrite length_drop in Ed; cbn [length] in Ed; lia).
  assert (length R = Z.to_nat lenR) as ER by (subst R; rewrite length_take; lia).
  assert (sig = R ++ x :: y :: t) as Esig by (subst R; by rewrite <-Ed, take_drop).
  assert (lenS = y) as Ey.
  { subst lenS. rewrite Esig. apply (rd_app_r (_ :: _ :: _ :: _ :: R) (x :: y :: t) _ 1). cbn [length]. lia. }
  destruct t as [| hashtype S _] using rev_ind.
  { apply (f_equal length) in Esig. rewrite length_app in Esig. cbn [length] in Esig. lia. }
  exists z, z0, z1, R, x, S, hashtype. cbn [app]. do 3 f_equal.
  apply (f_equal length) in Esig as El. rewrite length_app in El. cbn [length] in El. rewrite length_app in El. cbn [length] in El.
  f_equal; [change z2 with lenR; unfold Zlen; lia |]. rewrite Esig. do 3 f_equal. unfold Zlen. lia.
Qed.

Lemma IsValidSignatureEncoding_der sig :
  bytes_ok sig -> IsValidSignatureEncoding sig = true <-> der_signature sig.
Proof.
  intros Hok. split.
  - intros H. destruct (der_cut sig Hok H) as (a & b & c & R & x & S & hashtype & ->).
    pose proof Hok as [_ [HR [_ [HS _]%bytes_ok_app]%bytes_ok_app]%bytes_ok_app]%bytes_ok_app.
    apply der_tests in H as (-> & -> & -> & -> & H1 & H2 & H3); [| done | done]. by exists R, S, hashtype.
  - intros (R & S & hashtype & -> & H1 & H2 & H3).
    pose proof Hok as [_ [HR [_ [HS _]%bytes_ok_app]%bytes_ok_app]%bytes_ok_app]%bytes_ok_app.
    by apply der_tests.
Qed.

(** ** Spendable scripts *)

(** Some scriptSig spends an output with this script. *)
Definition spendable {CK : Checker} {HS : Hashes} (flags consensusBranchId : Z) (cc_enabled : bool)
    (scriptPubKey : list Z) : Prop :=
  exists scriptSig, VerifyScript flags consensusBranchId cc_enabled scriptSig scriptPubKey = Ret tt.

(** ** Theorems *)

(** [C21] [OP_CHECKMULTISIG] accepts exactly the signatures that can be matched to
    keys in order.  On a stack with [n] keys and [m] signatures whose encodings
    pass, the instruction leaves true when some [m] of the keys, in the order of
    the stack, each verify the signature at their place, and false otherwise; it
    removes its operands and the extra value below them, and counts the keys as
    instructions.  The early exit of the loop changes nothing. *)
Theorem checkmultisig_in_order {CK : Checker} (flags consensusBranchId : Z) (script : list Z)
    (vn vm dummy : valtype) (keys sigs rest altstack : list valtype) (vfExec : list bool) (nOpCount : Z) :
  num flags vn = Ret (Zlen keys) -> num flags vm = Ret (Zlen sigs) ->
  Zlen keys <= 20 -> (length sigs <= length keys)%nat -> nOpCount + Zlen keys <= 201 ->
  (has flags SCRIPT_VERIFY_NULLDUMMY = true -> dummy = []) ->
  (forall sig key, In sig sigs -> In key keys -> check_encodings flags sig key = Ret tt) ->
  exists accepted,
    op_checkmultisig flags consensusBranchId script OP_CHECKMULTISIG
      (EState (vn :: keys ++ vm :: sigs ++ dummy :: rest) altstack vfExec nOpCount) =
    Ret (EState (vch_bool accepted :: rest) altstack vfExec (nOpCount + Zlen keys))
    /\ (accepted = true <-> signed_in_order consensusBranchId script sigs keys).
Proof.
  intros Hvn Hvm Hk Hle Hops Hdummy Henc. exists (take_first consensusBranchId script sigs keys).
  split; [| apply take_first_complete].
  pose proof (Zlen_nonneg keys). pose proof (Zlen_nonneg sigs).
  assert (forall (l : list valtype), 0 <= Zlen l <= 20 -> getint (Zlen l) = Zlen l) as Hgi.
  { intros l Hl. unfold getint, INT_MAX, INT_MIN. by bdestruct_all. }
  set (st := vn :: keys ++ vm :: sigs ++ dummy :: rest).
  assert (length st = length keys + length sigs + length rest + 3)%nat as Hst.
  { subst st. cbn [length]. rewrite !length_app. cbn [length]. rewrite length_app. cbn [length]. lia. }
  assert (Zlen sigs <= Zlen keys) as Hle' by (unfold Zlen; lia).
  assert (length keys = Z.to_nat (Zlen keys) /\ length sigs = Z.to_nat (Zlen sigs)) as [El1 El2] by (unfold Zlen; lia).
  unfold op_checkmultisig. cbn [stack Interp.nOpCount Interp.altstack Interp.vfExec]. fold st. cbv zeta.
  rewrite need_enough by lia. cbn [mbind outcome_bind].
  change (stacktop st 1) with (Ret vn). cbn [mbind outcome_bind]. rewrite Hvn. cbn [mbind outcome_bind]. rewrite Hgi by lia.
  rewrite (proj2 (Z.ltb_ge _ 0)), (proj2 (Z.ltb_ge 20 _)), (proj2 (Z.ltb_ge 201 _)) by lia.
  cbn [orb fail_if mbind outcome_bind]. rewrite need_enough by lia. cbn [mbind outcome_bind].
  assert (stacktop st (2 + Z.to_nat (Zlen keys)) = Ret vm) as ->.
  { subst st. rewrite app_comm_cons. apply stacktop_app. cbn [length]. lia. }
  cbn [mbind outcome_bind]. rewrite Hvm. cbn [mbind outcome_bind]. rewrite (Hgi sigs) by lia.
  rewrite (proj2 (Z.ltb_ge _ 0)), (proj2 (Z.ltb_ge _ (Zlen sigs))) by lia. cbn [orb fail_if mbind outcome_bind].
  rewrite need_enough by lia. cbn [mbind outcome_bind].
  rewrite (multisig_loop_spec flags consensusBranchId script _ st _ _ sigs keys
             (vn :: keys ++ [vm]) (dummy :: rest) [vn] (vm :: sigs ++ dummy :: rest)).
  2: { subst st. cbn [app]. by rewrite <-app_assoc. }
  2: { cbn [length]. rewrite length_app. cbn [length]. lia. }
  2-6: (done || lia).
  cbn [mbind outcome_bind].
  assert (st = (vn :: keys ++ vm :: sigs) ++ dummy :: rest) as Hst' by (subst st; cbn [app]; by rewrite <-app_assoc).
  rewrite Hst', popstack_n_app by (cbn [length]; rewrite length_app; cbn [length]; lia).
  cbn [mbind outcome_bind need stacktop lookup list_lookup length]. change (need 1 (dummy :: rest)) with (Ret tt).
  cbn [mbind outcome_bind].
  assert (has flags SCRIPT_VERIFY_NULLDUMMY && negb (Zlen dummy =? 0) = false) as ->.
  { destruct (has _ _); [| done]. by rewrite Hdummy. }
  cbn [fail_if mbind outcome_bind popstack push_result]. change (op_eq OP_CHECKMULTISIG OP_CHECKMULTISIGVERIFY) with false. done.
Qed.

(** The encoding test accepts exactly the signatures its comment describes: a
    compound of two positive integers in shortest form, of at most 66 bytes
    together, and a hash type. *)
Theorem signature_encoding_exact (sig : list Z) :
  bytes_ok sig -> (IsValidSignatureEncoding sig = true <-> der_signature sig).
Proof. apply IsValidSignatureEncoding_der. Qed.

(** [C22] A pay-to-public-key-hash output is spent exactly with a key of that hash
    and a signature it verifies.  For a scriptSig that pushes a signature and a
    key, [VerifyScript] succeeds if and only if the key has the hash, both
    encodings pass, and the checker accepts the signature on the output's script. *)
Theorem p2pkh_spent_iff {CK : Checker} {HS : Hashes} (flags consensusBranchId : Z) (cc_enabled : bool)
    (h sig pk : list Z) :
  length h = 20%nat -> Zlen sig <= MAX_SCRIPT_ELEMENT_SIZE -> Zlen pk <= MAX_SCRIPT_ELEMENT_SIZE ->
  Zlen sig <> 1 -> Zlen pk <> 1 ->
  (has flags SCRIPT_VERIFY_CLEANSTACK = true -> has flags SCRIPT_VERIFY_P2SH = true) ->
  VerifyScript flags consensusBranchId cc_enabled (push_data sig ++ push_data pk) (p2pkh h) = Ret tt <->
  CHash160 pk = h /\ check_encodings flags sig pk = Ret tt /\ CheckSig sig pk (p2pkh h) consensusBranchId = true.
Proof.
  intros Hh Hsig Hpk Hsig1 Hpk1 Hclean. unfold VerifyScript.
  assert (IsPushOnly (push_data sig ++ push_data pk) = true) as ->.
  { rewrite <-(app_nil_r (push_data pk)). apply (push_only_all [sig; pk]).
    unfold MAX_SCRIPT_ELEMENT_SIZE in *. repeat constructor; lia. }
  assert (IsPayToCryptoCondition (p2pkh h) = None) as -> by done.
  rewrite (bool_decide_false (is_Some None)) by (intros [? ?]; done). cbn [negb].
  rewrite !andb_false_r. cbn [fail_if mbind outcome_bind].
  rewrite eval_two_pushes by (try done; by rewrite minimal_push, andb_false_r). cbn [mbind outcome_bind]. cbv zeta.
  rewrite eval_p2pkh by done. case_bool_decide as E; [| by split; [| tauto]].
  destruct (check_encodings flags sig pk) as [[] | | | |]; cbn [mbind outcome_bind catch_all]; try (split; [done |]; by intros (_ & ? & _)).
  destruct (CheckSig _ _ _ _); cbn [mbind outcome_bind vch_bool eval_true vchTrue vchFalse]; [| by split; [| intros (_ & _ & ?)]].
  cbn [CastToBool Z.eqb Pos.eqb negb fail_if mbind outcome_bind].
  assert (IsPayToScriptHash (p2pkh h) = false) as ->.
  { unfold IsPayToScriptHash, p2pkh, Zlen. rewrite !length_app. cbn [length]. by rewrite Hh. }
  rewrite andb_false_r. cbn [mbind outcome_bind]. split; [done |]. intros _.
  destruct (has flags SCRIPT_VERIFY_CLEANSTACK); [| done]. by rewrite Hclean.
Qed.

(** [C23] A pay-to-script-hash output is spent exactly by running a script of that
    hash.  When the scriptSig leaves [redeem] on top of [st], [VerifyScript]
    succeeds if and only if the scriptSig only pushes, [redeem] has the hash, and
    running it on [st] leaves true (alone on the stack, if that is asked for). *)
Theorem p2sh_spent_iff {CK : Checker} {HS : Hashes} (flags consensusBranchId : Z) (cc_enabled : bool)
    (h scriptSig redeem : list Z) (st : list valtype) :
  length h = 20%nat -> has flags SCRIPT_VERIFY_P2SH = true ->
  EvalScript flags consensusBranchId cc_enabled scriptSig [] = Ret (redeem :: st) -> Zlen st <= 998 ->
  VerifyScript flags consensusBranchId cc_enabled scriptSig (p2sh h) = Ret tt <->
  IsPushOnly scriptSig = true /\ CHash160 redeem = h /\
  exists st', EvalScript flags consensusBranchId cc_enabled redeem st = Ret st' /\ eval_true st' = Ret tt /\
    (has flags SCRIPT_VERIFY_CLEANSTACK = true -> Zlen st' = 1).
Proof.
  intros Hh Hp2sh Hev Hst. unfold VerifyScript.
  assert (IsPayToCryptoCondition (p2sh h) = None) as -> by done.
  rewrite (bool_decide_false (is_Some None)) by (intros [? ?]; done). rewrite (andb_false_r cc_enabled), Hev, Hp2sh.
  assert (IsPayToScriptHash (p2sh h) = true) as ->.
  { unfold IsPayToScriptHash, p2sh, Zlen. rewrite !length_app. cbn [length]. rewrite Hh. cbn [app rd nth].
    change (rd (169 :: 20 :: h ++ [135]) 22 =? OP_EQUAL) with (nth 20 (h ++ [135]) 0 =? 135).
    rewrite app_nth2 by lia. rewrite Hh. done. }
  destruct (IsPushOnly scriptSig) eqn:Epo; cbn [negb].
  2: { rewrite andb_true_r. split; [| by intros (? & _)].
       destruct (has flags SCRIPT_VERIFY_SIGPUSHONLY); cbn [fail_if mbind outcome_bind]; [done |].
       rewrite eval_p2sh by done. cbn [mbind outcome_bind eval_true]. destruct (CastToBool _); [| done].
       unfold verify_p2sh. by rewrite Epo. }
  rewrite andb_false_r. cbn [fail_if mbind outcome_bind]. rewrite eval_p2sh by done. cbn [mbind outcome_bind eval_true].
  case_bool_decide as Eh; [| split; [done | by intros (_ & ? & _)]].
  cbn [vch_bool vchTrue CastToBool Z.eqb Pos.eqb negb fail_if mbind outcome_bind andb]. unfold verify_p2sh. rewrite Epo.
  cbn [negb fail_if mbind outcome_bind].
  destruct (EvalScript _ _ _ redeem st) as [st' | | | |]; cbn [mbind outcome_bind]; try (split; [done |]; by intros (_ & _ & ? & ? & _)).
  destruct (eval_true st') as [[] | | | |] eqn:Et; cbn [mbind outcome_bind]; try (split; [done |]; intros (_ & _ & ? & [= <-] & E & _); by rewrite Et in E).
  destruct (has flags SCRIPT_VERIFY_CLEANSTACK); cbn [fail_if].
  - destruct (Z.eqb_spec (Zlen st') 1) as [E1 | E1]; cbn [negb fail_if].
    + split; [intros _ | done]. split; [done |]. split; [done |]. by exists st'.
    + split; [done |]. intros (_ & _ & ? & [= <-] & _ & E). by specialize (E eq_refl).
  - split; [intros _ | done]. split; [done |]. split; [done |]. by exists st'.
Qed.

(** An output the coin database drops can never be spent: when
    [ClearUnspendable] makes an available output unavailable, every scriptSig fails
    against its script, whatever the flags, the checker and the hashes. *)
Theorem dropped_output_unspendable {CK : Checker} {HS : Hashes} (flags consensusBranchId : Z) (cc_enabled : bool)
    (c : coins) (n : nat) (o : txout) :
  vout c !! n = Some o -> IsAvailable c n = true -> IsAvailable (ClearUnspendable c) n = false ->
  ~ spendable flags consensusBranchId cc_enabled (scriptPubKey o).
Proof.
  intros Ho Ha Hc [scriptSig Hv]. revert Hv. change (VerifyScript flags consensusBranchId cc_enabled scriptSig (scriptPubKey o) <> Ret tt). assert (IsUnspendable (scriptPubKey o) = true) as Hu.
  { unfold ClearUnspendable in Hc. rewrite IsAvailable_Cleanup in Hc. unfold IsAvailable in *. cbn [set_vout vout] in Hc.
    rewrite Ho in Ha. rewrite list_lookup_fmap, Ho in Hc. cbn [fmap option_fmap option_map] in Hc.
    destruct (IsUnspendable (scriptPubKey o)); [done |]. by rewrite Ha in Hc. }
  unfold VerifyScript. destruct (has _ _ && negb _); [done |]. cbn [fail_if mbind outcome_bind].
  destruct (if cc_enabled && _ then _ else _) as [st | | | |]; try done. cbn [mbind outcome_bind].
  destruct (eval_unspendable flags consensusBranchId cc_enabled (scriptPubKey o) st Hu) as [e ->]. done.
Qed.

(** *** Witnesses *)

#[local] Existing Instance Interp.toy_checker.
#[local] Existing Instance Interp.toy_hashes.

Definition sig_example : list Z := [0x30; 6; 2; 1; 5; 2; 1; 7; 1].

Lemma checkmultisig_in_order_witness :
  exists accepted,
    op_checkmultisig 0 0 [] OP_CHECKMULTISIG
      (EState ([2] :: [[4]; sig_example] ++ [1] :: [sig_example] ++ [] :: [[9]]) [] [] 7) =
    Ret (EState (vch_bool accepted :: [[9]]) [] [] (7 + Zlen [[4]; sig_example]))
    /\ (accepted = true <-> signed_in_order 0 [] [sig_example] [[4]; sig_example]).
Proof.
  apply checkmultisig_in_order; try reflexivity; try (vm_compute; done); try (cbn; lia).
  intros sig key [<- | []] _. reflexivity.
Defined.

Lemma signature_encoding_exact_witness : IsValidSignatureEncoding sig_example = true <-> der_signature sig_example.
Proof.
  apply signature_encoding_exact. repeat (constructor; [unfold byte_ok; lia |]); constructor.
Defined.

Lemma p2pkh_spent_iff_witness :
  VerifyScript 1 0 true (push_data sig_example ++ push_data sig_example) (p2pkh (CHash160 sig_example)) = Ret tt.
Proof.
  apply p2pkh_spent_iff; try reflexivity; try (vm_compute; done).
Defined.

Lemma p2sh_spent_iff_witness :
  VerifyScript 1 0 true (push_data [code OP_1]) (p2sh (CHash160 [code OP_1])) = Ret tt.
Proof.
  apply (p2sh_spent_iff 1 0 true _ _ [code OP_1] []); try reflexivity; try (vm_compute; done).
  split; [reflexivity |]. split; [reflexivity |]. exists [[1]]. repeat split; vm_compute; reflexivity.
Defined.

Lemma dropped_output_unspendable_witness :
  ~ spendable 0 0 true (scriptPubKey (TxOut 5 [Coins.OP_RETURN; 1; 7])).
Proof.
  apply (dropped_output_unspendable 0 0 true (Coins false [TxOut 5 [Coins.OP_RETURN; 1; 7]] 1 1) 0); reflexivity.
Defined.

(** The comment in [CheckSignatureEncoding] says that [serror] is set when a
    signature has a high S; the check leaves it alone, and the caller reports
    [SCRIPT_ERR_UNKNOWN_ERROR] instead of [SCRIPT_ERR_SIG_HIGH_S]. *)
Lemma high_s_reported_unknown {CK : Checker} (flags : Z) (sig : valtype) :
  IsValidSignatureEncoding sig = true -> has flags SCRIPT_VERIFY_LOW_S = true ->
  CheckLowS (take (length sig - 1) sig) = false ->
  check_encoding (CheckSignatureEncoding flags sig) = Fail SCRIPT_ERR_UNKNOWN_ERROR.
Proof.
  intros Hv Hf Hs. assert ((Zlen sig =? 0) = false) as Hl.
  { destruct sig; [done |]. apply Z.eqb_neq. unfold Zlen. cbn [length]. lia. }
  unfold CheckSignatureEncoding, IsLowDERSignature. by rewrite Hl, Hv, Hf, Hs.
Qed.
