(* ===== verification/Tx.v ===== *)
(** * Transactions and their encoding (src/src/primitives/transaction.h, zcash/Proof.hpp)

    The source writes one function per class, [SerializationOp], which both
    directions of the encoding run.  Here it is a [codec]: a writer and a reader
    built together from the same sequence of [READWRITE]s, with the values that
    can be encoded.  [lawful] says that the two agree: a valid value is read back,
    and bytes are read only as the value they are the encoding of. *)
From S2P Require Import Prelude Coins Compact.
Local Open Scope Z_scope.

(** ** Codecs *)

Record codec (A : Type) := Codec {
  valid : A -> Prop;
  (** [Serialize]; [None] is an exception. *)
  ser : A -> option (list Z);
  (** [Unserialize]. *)
  unser : reader A;
}.
Arguments Codec {A} _ _ _.
Arguments valid {A} _ _.
Arguments ser {A} _ _.
Arguments unser {A} _.

Record lawful {A} (c : codec A) : Prop := {
  law_read a : valid c a -> exists bytes, ser c a = Some bytes /\ reads_as (unser c) bytes a;
  law_only s a rest :
    bytes_ok s -> unser c s = Some (a, rest) -> valid c a /\ exists bytes, ser c a = Some bytes /\ s = bytes ++ rest;
}.

(** Nothing is written; the value is the one the constructor sets. *)
Definition fixed {A} (d : A) : codec A := Codec (fun x => x = d) (fun _ => Some []) (mret d).
(** An exception. *)
Definition fail_codec {A} : codec A := Codec (fun _ => False) (fun _ => None) throw.
(** [READWRITE] of the part [f] of a value, then the rest. *)
Definition readwrite {A B} (c : codec A) (f : B -> A) (k : A -> codec B) : codec B :=
  Codec (fun b => valid c (f b) /\ valid (k (f b)) b)
        (fun b => b1 ← ser c (f b); b2 ← ser (k (f b)) b; Some (b1 ++ b2))
        (a ← unser c; unser (k a)).

Notation "'rw' x '←' c 'of' f ; k" := (readwrite c f (fun x => k))
  (at level 20, x binder, c at level 100, f at level 100, k at level 200, right associativity).

(** *** Basic types *)

(** Arrays of bytes of a fixed size, [uint256] among them. *)
Definition blob (n : nat) : codec (list Z) :=
  Codec (fun l => bytes_ok l /\ length l = n) Some (read_bytes n).
Definition hash256 : codec (list Z) := blob 32.
Definition uint32 : codec Z :=
  Codec (is_u 32) (fun x => Some (le_bytes 4 x)) (l ← read_bytes 4; mret (le_num l)).
Definition int64 : codec Z :=
  Codec is_s64 (fun x => Some (le_bytes 8 x)) (l ← read_bytes 8; mret (s64 (le_num l))).

(** Vectors of bytes. *)
Definition bytevec : codec (list Z) :=
  Codec (fun l => bytes_ok l /\ Zlen l <= MAX_SIZE)
        (fun l => Some (WriteCompactSize (Zlen l) ++ l))
        (nSize ← ReadCompactSize true; read_bytes (Z.to_nat nSize)).

Fixpoint read_list {A} (r : reader A) (n : nat) : reader (list A) :=
  match n with O => mret [] | S n => a ← r; l ← read_list r n; mret (a :: l) end.
Fixpoint write_list {A} (w : A -> option (list Z)) (l : list A) : option (list Z) :=
  match l with [] => Some [] | a :: l => b1 ← w a; b2 ← write_list w l; Some (b1 ++ b2) end.
(** Vectors, and arrays of [n] elements. *)
Definition vec {A} (c : codec A) : codec (list A) :=
  Codec (fun l => Forall (valid c) l /\ Zlen l <= MAX_SIZE)
        (fun l => b ← write_list (ser c) l; Some (WriteCompactSize (Zlen l) ++ b))
        (nSize ← ReadCompactSize true; read_list (unser c) (Z.to_nat nSize)).
Definition array {A} (n : nat) (c : codec A) : codec (list A) :=
  Codec (fun l => Forall (valid c) l /\ length l = n) (write_list (ser c)) (read_list (unser c) n).

(** ** The laws of the combinators *)

Lemma reader_bind_inv {A B} (r : reader A) (k : A -> reader B) s b rest :
  (r ≫= k) s = Some (b, rest) -> exists a s1, r s = Some (a, s1) /\ k a s1 = Some (b, rest).
Proof. unfold mbind, reader_bind. destruct (r s) as [[a s1] |]; [| done]. cbn [mbind option_bind]. eauto. Qed.

Lemma read_bytes_inv n s l rest :
  bytes_ok s -> read_bytes n s = Some (l, rest) -> s = l ++ rest /\ length l = n /\ bytes_ok l /\ bytes_ok rest.
Proof.
  unfold read_bytes. intros Hs. destruct (Nat.leb_spec n (length s)) as [Hn | Hn]; [| done]. intros [= <- <-].
  rewrite take_drop, length_take, Nat.min_l by done. auto using bytes_ok_take, bytes_ok_drop.
Qed.

Lemma lawful_fixed {A} (d : A) : lawful (fixed d).
Proof.
  split; cbn [fixed valid ser unser].
  - intros a ->. exists []. by split.
  - intros s a rest _ [= <- <-]. split; [done |]. by exists [].
Qed.

Lemma lawful_fail {A} : lawful (@fail_codec A).
Proof. split; [done | by intros]. Qed.

Lemma lawful_readwrite {A B} (c : codec A) (f : B -> A) (k : A -> codec B) :
  lawful c -> (forall a, lawful (k a)) -> (forall a b, valid (k a) b -> f b = a) -> lawful (readwrite c f k).
Proof.
  intros Hc Hk Hf. split; cbn [readwrite valid ser unser].
  - intros b [Hv1 Hv2]. destruct (law_read c Hc _ Hv1) as (b1 & E1 & R1).
    destruct (law_read _ (Hk (f b)) _ Hv2) as (b2 & E2 & R2). exists (b1 ++ b2).
    rewrite E1. cbn [mbind option_bind]. rewrite E2. split; [done |]. by eapply reads_as_bind.
  - intros s b rest Hs (a & s1 & H1 & H2)%reader_bind_inv.
    destruct (law_only c Hc _ _ _ Hs H1) as (Hv1 & b1 & E1 & ->). apply bytes_ok_app in Hs as [_ Hs].
    destruct (law_only _ (Hk a) _ _ _ Hs H2) as (Hv2 & b2 & E2 & ->). rewrite (Hf _ _ Hv2).
    split; [done |]. exists (b1 ++ b2). rewrite E1. cbn [mbind option_bind]. rewrite E2. by rewrite <-app_assoc.
Qed.

Lemma lawful_blob n : lawful (blob n).
Proof.
  split; cbn [blob valid ser unser].
  - intros l [_ Hl]. exists l. split; [done |]. by apply reads_as_bytes.
  - intros s l rest Hs (-> & Hl & Hok & _)%read_bytes_inv; [| done]. split; [done |]. by exists l.
Qed.

Lemma lawful_uint32 : lawful uint32.
Proof.
  split; cbn [uint32 valid ser unser].
  - intros x Hx. eexists. split; [done |]. eapply reads_as_map; [by apply reads_as_bytes; rewrite length_le_bytes |].
    intros s. rewrite le_num_le_bytes, Z.mod_small by done. done.
  - intros s x rest Hs (l & s1 & H1 & [= <- <-])%reader_bind_inv. apply read_bytes_inv in H1 as (-> & Hl & Hok & _); [| done].
    pose proof (le_num_bounds l Hok) as B. unfold Zlen in B. rewrite Hl in B. split; [done |].
    eexists. split; [done |]. by rewrite <-Hl, le_bytes_le_num.
Qed.

Lemma lawful_int64 : lawful int64.
Proof.
  split; cbn [int64 valid ser unser].
  - intros x Hx. eexists. split; [done |]. eapply reads_as_map; [by apply reads_as_bytes; rewrite length_le_bytes |].
    intros s. rewrite le_num_le_bytes. change (8 * Z.of_nat 8) with 64.
    assert (s64 (x mod 2 ^ 64) = x) as ->; [| done].
    unfold is_s64 in Hx. unfold s64. rewrite Zplus_mod_idemp_l. rewrite (Z.mod_small (x + 2 ^ 63)) by lia. lia.
  - intros s x rest Hs (l & s1 & H1 & [= <- <-])%reader_bind_inv. apply read_bytes_inv in H1 as (-> & Hl & Hok & _); [| done].
    split; [unfold is_s64, s64; pose proof (Z.mod_pos_bound (le_num l + 2 ^ 63) (2 ^ 64) ltac:(lia)); lia |].
    eexists. split; [done |]. f_equal. rewrite <-(le_bytes_mod 8). change (8 * Z.of_nat 8) with 64.
    unfold s64. rewrite Zminus_mod_idemp_l, Z.add_simpl_r. pose proof (le_bytes_le_num l Hok) as E. rewrite Hl in E.
    rewrite (le_bytes_mod 8). done.
Qed.

(** Reading a size of at most [MAX_SIZE]. *)
Lemma size_reads n : 0 <= n <= MAX_SIZE -> reads_as (ReadCompactSize true) (WriteCompactSize n) n.
Proof.
  intros Hn rest. rewrite compact_size_checked. unfold MAX_SIZE in *. rewrite compact_size_reads by lia.
  cbn [mbind option_bind]. by rewrite (proj2 (Z.ltb_ge _ _)) by (unfold MAX_SIZE; lia).
Qed.

Lemma size_only s n rest :
  bytes_ok s -> ReadCompactSize true s = Some (n, rest) -> s = WriteCompactSize n ++ rest /\ 0 <= n <= MAX_SIZE.
Proof.
  intros Hs. rewrite compact_size_checked. destruct (ReadCompactSize false s) as [[m r] |] eqn:E; [| done].
  cbn [mbind option_bind]. destruct (Z.ltb_spec MAX_SIZE m); [done |]. intros [= <- <-].
  apply compact_size_unique in E as [-> B]; [| done]. split; [done | lia].
Qed.

Lemma lawful_bytevec : lawful bytevec.
Proof.
  split; cbn [bytevec valid ser unser].
  - intros l [_ Hl]. eexists. split; [done |]. eapply reads_as_bind; [apply size_reads; pose proof (Zlen_nonneg l); lia |].
    apply reads_as_bytes. unfold Zlen. lia.
  - intros s l rest Hs (n & s1 & H1 & H2)%reader_bind_inv. apply size_only in H1 as [-> Hn]; [| done].
    apply bytes_ok_app in Hs as [_ Hs]. apply read_bytes_inv in H2 as (-> & Hl & Hok & _); [| done].
    assert (Zlen l = n) as El by (unfold Zlen; lia). split; [split; [done | lia] |].
    eexists. split; [done |]. by rewrite El, app_assoc.
Qed.

Section Lists.
Context {A : Type} (c : codec A) (Hc : lawful c).

Lemma list_reads l :
  Forall (valid c) l -> exists bytes, write_list (ser c) l = Some bytes /\ reads_as (read_list (unser c) (length l)) bytes l.
Proof using Hc.
  induction 1 as [| a l Ha _ (b2 & E2 & R2)]; cbn [write_list read_list length]; [by exists []; split; [| apply reads_as_ret] |].
  destruct (law_read c Hc a Ha) as (b1 & E1 & R1). rewrite E1, E2. exists (b1 ++ b2). split; [done |].
  eapply reads_as_bind; [done |]. eapply reads_as_map; [done |]. done.
Qed.

Lemma list_only n s l rest :
  bytes_ok s -> read_list (unser c) n s = Some (l, rest) ->
  Forall (valid c) l /\ length l = n /\ exists bytes, write_list (ser c) l = Some bytes /\ s = bytes ++ rest.
Proof using Hc.
  revert s l. induction n as [| n IH]; intros s l Hs; cbn [read_list].
  - intros [= <- <-]. repeat split; [constructor |]. by exists [].
  - intros (a & s1 & H1 & (l' & s2 & H2 & [= <- <-])%reader_bind_inv)%reader_bind_inv.
    destruct (law_only c Hc _ _ _ Hs H1) as (Hv & b1 & E1 & ->). apply bytes_ok_app in Hs as [_ Hs].
    destruct (IH _ _ Hs H2) as (Hf & Hl & b2 & E2 & ->). split; [by constructor |]. split; [cbn [length]; lia |].
    exists (b1 ++ b2). cbn [write_list]. rewrite E1, E2. by rewrite <-app_assoc.
Qed.

Lemma lawful_vec : lawful (vec c).
Proof using Hc.
  split; cbn [vec valid ser unser].
  - intros l [Hf Hl]. destruct (list_reads l Hf) as (b & E & R). rewrite E. eexists. split; [done |].
    eapply reads_as_bind; [apply size_reads; pose proof (Zlen_nonneg l); lia |]. unfold Zlen. by rewrite Nat2Z.id.
  - intros s l rest Hs (n & s1 & H1 & H2)%reader_bind_inv. apply size_only in H1 as [-> Hn]; [| done].
    apply bytes_ok_app in Hs as [_ Hs]. destruct (list_only _ _ _ _ Hs H2) as (Hf & Hl & b & E & ->).
    assert (Zlen l = n) as El by (unfold Zlen; lia). split; [split; [done | lia] |].
    rewrite E. eexists. split; [done |]. by rewrite El, app_assoc.
Qed.

Lemma lawful_array n : lawful (array n c).
Proof using Hc.
  split; cbn [array valid ser unser].
  - intros l [Hf <-]. by apply list_reads.
  - intros s l rest Hs H. destruct (list_only _ _ _ _ Hs H) as (Hf & Hl & b & E & ->). split; [done |]. by exists b.
Qed.

End Lists.

Create HintDb lawful.
#[export] Hint Resolve lawful_fixed lawful_fail lawful_blob lawful_uint32 lawful_int64 lawful_bytevec lawful_vec
  lawful_array : lawful.

Module Tx.

(** ** Data *)

Record COutPoint := OutPoint { hash : list Z; n : Z }.
Record CTxIn := TxIn { prevout : COutPoint; scriptSig : list Z; nSequence : Z }.

Record SpendDescription := Spend {
  sp_cv : list Z; sp_anchor : list Z; sp_nullifier : list Z; sp_rk : list Z; sp_zkproof : list Z; sp_spendAuthSig : list Z }.
Record OutputDescription := Output {
  out_cv : list Z; out_cm : list Z; out_ephemeralKey : list Z; out_encCiphertext : list Z; out_outCiphertext : list Z;
  out_zkproof : list Z }.

(** A compressed point: the lowest bit of y and x. *)
Record point := Point { y_bit : bool; x_coord : list Z }.
Record PHGRProof := PHGR {
  g_A : point; g_A_prime : point; g_B : point; g_B_prime : point; g_C : point; g_C_prime : point; g_K : point; g_H : point }.
(** [boost::variant<PHGRProof, GrothProof>]. *)
Inductive SproutProof := PHGR_proof (p : PHGRProof) | Groth_proof (p : list Z).

Record JSDescription := JS {
  vpub_old : Z; vpub_new : Z; js_anchor : list Z; nullifiers : list (list Z); commitments : list (list Z);
  js_ephemeralKey : list Z; randomSeed : list Z; macs : list (list Z); js_proof : SproutProof;
  ciphertexts : list (list Z) }.

Record CTransaction := Tx {
  fOverwintered : bool; nVersion : Z; nVersionGroupId : Z; vin : list CTxIn; vout : list txout; nLockTime : Z;
  nExpiryHeight : Z; valueBalance : Z; vShieldedSpend : list SpendDescription;
  vShieldedOutput : list OutputDescription; vjoinsplit : list JSDescription; joinSplitPubKey : list Z;
  joinSplitSig : list Z; bindingSig : list Z }.

Definition OVERWINTER_VERSION_GROUP_ID : Z := 0x03C48270.
Definition SAPLING_VERSION_GROUP_ID : Z := 0x892F2085.
Definition OVERWINTER_TX_VERSION : Z := 3.
Definition SAPLING_TX_VERSION : Z := 4.

(** The constructor [CMutableTransaction()]. *)
Definition CMutableTransaction : CTransaction :=
  Tx false 1 0 [] [] 0 0 0 [] [] [] (replicate 32 0) (replicate 64 0) (replicate 64 0).

(** [CTransaction(const CMutableTransaction&)] copies every field;
    [CTransaction(CMutableTransaction&&)] does not take [bindingSig]. *)
Definition copy_tx (tx : CTransaction) : CTransaction :=
  Tx (fOverwintered tx) (nVersion tx) (nVersionGroupId tx) (vin tx) (vout tx) (nLockTime tx) (nExpiryHeight tx)
     (valueBalance tx) (vShieldedSpend tx) (vShieldedOutput tx) (vjoinsplit tx) (joinSplitPubKey tx) (joinSplitSig tx)
     (bindingSig tx).
Definition move_tx (tx : CTransaction) : CTransaction :=
  Tx (fOverwintered tx) (nVersion tx) (nVersionGroupId tx) (vin tx) (vout tx) (nLockTime tx) (nExpiryHeight tx)
     (valueBalance tx) (vShieldedSpend tx) (vShieldedOutput tx) (vjoinsplit tx) (joinSplitPubKey tx) (joinSplitSig tx)
     (replicate 64 0).

(** ** Serialisation *)

Definition outpoint : codec COutPoint :=
  rw h ← hash256 of hash;
  rw i ← uint32 of n;
  fixed (OutPoint h i).

Definition txin : codec CTxIn :=
  rw p ← outpoint of prevout;
  rw s ← bytevec of scriptSig;
  rw q ← uint32 of nSequence;
  fixed (TxIn p s q).

Definition txout_codec : codec txout :=
  rw v ← int64 of nValue;
  rw s ← bytevec of scriptPubKey;
  fixed (TxOut v s).

Definition GROTH_PROOF_SIZE : nat := 48 + 96 + 48.

Definition spend : codec SpendDescription :=
  rw cv ← hash256 of sp_cv;
  rw anchor ← hash256 of sp_anchor;
  rw nullifier ← hash256 of sp_nullifier;
  rw rk ← hash256 of sp_rk;
  rw zkproof ← blob GROTH_PROOF_SIZE of sp_zkproof;
  rw sig ← blob 64 of sp_spendAuthSig;
  fixed (Spend cv anchor nullifier rk zkproof sig).

(** [ZC_SAPLING_ENCCIPHERTEXT_SIZE], [ZC_SAPLING_OUTCIPHERTEXT_SIZE], [ZCNoteEncryption::CLEN]. *)
Definition SAPLING_ENCCIPHERTEXT_SIZE : nat := 1 + 11 + 8 + 32 + 512 + 16.
Definition SAPLING_OUTCIPHERTEXT_SIZE : nat := 32 + 32 + 16.
Definition NOTE_CIPHERTEXT_SIZE : nat := 1 + 8 + 32 + 32 + 512 + 16.

Definition output : codec OutputDescription :=
  rw cv ← hash256 of out_cv;
  rw cm ← hash256 of out_cm;
  rw key ← hash256 of out_ephemeralKey;
  rw enc ← blob SAPLING_ENCCIPHERTEXT_SIZE of out_encCiphertext;
  rw out ← blob SAPLING_OUTCIPHERTEXT_SIZE of out_outCiphertext;
  rw zkproof ← blob GROTH_PROOF_SIZE of out_zkproof;
  fixed (Output cv cm key enc out zkproof).

(** The leading byte of a compressed point: the prefix and the bit of y. *)
Definition lead (mask : Z) : codec bool :=
  Codec (fun _ => True) (fun y : bool => Some [if y then Z.lor mask 1 else mask])
        (b ← read_byte; if negb (Z.land b (Z.lnot 1) =? mask) then throw else mret (negb (Z.land b 1 =? 0))).
Definition compressed (mask : Z) (size : nat) : codec point :=
  rw y ← lead mask of y_bit;
  rw x ← blob size of x_coord;
  fixed (Point y x).
Definition G1_PREFIX_MASK : Z := 0x02.
Definition G2_PREFIX_MASK : Z := 0x0a.
Definition CompressedG1 : codec point := compressed G1_PREFIX_MASK 32.
Definition CompressedG2 : codec point := compressed G2_PREFIX_MASK 64.

Definition phgr : codec PHGRProof :=
  rw a ← CompressedG1 of g_A;
  rw a' ← CompressedG1 of g_A_prime;
  rw b ← CompressedG2 of g_B;
  rw b' ← CompressedG1 of g_B_prime;
  rw c ← CompressedG1 of g_C;
  rw c' ← CompressedG1 of g_C_prime;
  rw k ← CompressedG1 of g_K;
  rw h ← CompressedG1 of g_H;
  fixed (PHGR a a' b b' c c' k h).

(** [SerReadWriteSproutProof]: a proof of the other kind is an exception. *)
Definition sprout_proof (useGroth : bool) : codec SproutProof :=
  if useGroth then
    Codec (fun p => match p with Groth_proof g => valid (blob GROTH_PROOF_SIZE) g | _ => False end)
          (fun p => match p with Groth_proof g => ser (blob GROTH_PROOF_SIZE) g | _ => None end)
          (g ← unser (blob GROTH_PROOF_SIZE); mret (Groth_proof g))
  else
    Codec (fun p => match p with PHGR_proof g => valid phgr g | _ => False end)
          (fun p => match p with PHGR_proof g => ser phgr g | _ => None end)
          (g ← unser phgr; mret (PHGR_proof g)).

(** [GetHeader]. *)
Definition GetHeader (fOverwintered : bool) (nVersion : Z) : Z :=
  if fOverwintered then Z.lor (u32 nVersion) (Z.shiftl 1 31) else u32 nVersion.

(** The header is unpacked into the flag and the version. *)
Definition header : codec (bool * Z) :=
  Codec (fun h => 0 <= h.2 < 2 ^ 31) (fun h => Some (le_bytes 4 (GetHeader h.1 h.2)))
        (l ← read_bytes 4;
         let header := le_num l in
         mret (negb (Z.shiftr header 31 =? 0), Z.land header 0x7FFFFFFF)).

(** [useGroth], from the version of the stream. *)
Definition useGroth (fOverwintered : bool) (nVersion : Z) : bool :=
  let h := GetHeader fOverwintered nVersion in
  negb (Z.shiftr h 31 =? 0) && (SAPLING_TX_VERSION <=? Z.land h 0x7FFFFFFF).

Definition joinsplit (groth : bool) : codec JSDescription :=
  rw old ← int64 of vpub_old;
  rw new ← int64 of vpub_new;
  rw anchor ← hash256 of js_anchor;
  rw nfs ← array 2 hash256 of nullifiers;
  rw cms ← array 2 hash256 of commitments;
  rw key ← hash256 of js_ephemeralKey;
  rw seed ← hash256 of randomSeed;
  rw ms ← array 2 hash256 of macs;
  rw proof ← sprout_proof groth of js_proof;
  rw cts ← array 2 (blob NOTE_CIPHERTEXT_SIZE) of ciphertexts;
  fixed (JS old new anchor nfs cms key seed ms proof cts).

Definition isOverwinterV3 (fOverwintered : bool) (nVersionGroupId nVersion : Z) : bool :=
  fOverwintered && (nVersionGroupId =? OVERWINTER_VERSION_GROUP_ID) && (nVersion =? OVERWINTER_TX_VERSION).
Definition isSaplingV4 (fOverwintered : bool) (nVersionGroupId nVersion : Z) : bool :=
  fOverwintered && (nVersionGroupId =? SAPLING_VERSION_GROUP_ID) && (nVersion =? SAPLING_TX_VERSION).

(** A field that is written under a condition and has its initial value otherwise. *)
Definition when {A} (b : bool) (c : codec A) (d : A) : codec A := if b then c else fixed d.

(** [CTransaction::SerializationOp]. *)
Definition transaction : codec CTransaction :=
  rw h ← header of (fun tx : CTransaction => (fOverwintered tx, nVersion tx));
  rw group ← when h.1 uint32 0 of nVersionGroupId;
  let v3 := isOverwinterV3 h.1 group h.2 in
  let v4 := isSaplingV4 h.1 group h.2 in
  if h.1 && negb (v3 || v4) then fail_codec
  else
    rw ins ← vec txin of vin;
    rw outs ← vec txout_codec of vout;
    rw lock ← uint32 of nLockTime;
    rw expiry ← when (v3 || v4) uint32 0 of nExpiryHeight;
    rw balance ← when v4 int64 0 of valueBalance;
    rw spends ← when v4 (vec spend) [] of vShieldedSpend;
    rw outputs ← when v4 (vec output) [] of vShieldedOutput;
    rw js ← when (2 <=? h.2) (vec (joinsplit (useGroth h.1 h.2))) [] of vjoinsplit;
    rw key ← when ((2 <=? h.2) && (0 <? Zlen js)) hash256 (replicate 32 0) of joinSplitPubKey;
    rw jsig ← when ((2 <=? h.2) && (0 <? Zlen js)) (blob 64) (replicate 64 0) of joinSplitSig;
    rw bsig ← when (v4 && negb ((Zlen spends =? 0) && (Zlen outputs =? 0))) (blob 64) (replicate 64 0) of bindingSig;
    fixed (Tx h.1 h.2 group ins outs lock expiry balance spends outputs js key jsig bsig).

(** The constructor that reads: [CTransaction(CMutableTransaction(deserialize, s))],
    by the move constructor. *)
Definition deserialize_tx : reader CTransaction := tx ← unser transaction; mret (move_tx tx).

(** ** The laws *)

(** The part that was read first is the part of the result. *)
Ltac part_valid Hv :=
  lazymatch type of Hv with
  | valid (readwrite _ _ _) _ => destruct Hv as [_ Hv]; part_valid Hv
  | valid (fixed _) _ => cbn [fixed valid] in Hv; by rewrite Hv
  | valid (if ?c then _ else _) _ => destruct c; part_valid Hv
  | valid fail_codec _ => destruct Hv
  end.
Ltac part := intros ? ? Hv; cbv zeta in Hv; part_valid Hv.
Ltac lawful_seq :=
  repeat (apply lawful_readwrite; [solve [eauto with lawful] | intros ?; cbv zeta | part]); solve [eauto with lawful].

Lemma lawful_outpoint : lawful outpoint.
Proof. unfold outpoint, hash256. lawful_seq. Qed.
#[export] Hint Resolve lawful_outpoint : lawful.
Lemma lawful_txin : lawful txin.
Proof. unfold txin. lawful_seq. Qed.
Lemma lawful_txout : lawful txout_codec.
Proof. unfold txout_codec. lawful_seq. Qed.
Lemma lawful_spend : lawful spend.
Proof. unfold spend, hash256. lawful_seq. Qed.
Lemma lawful_output : lawful output.
Proof. unfold output, hash256. lawful_seq. Qed.

#[export] Hint Resolve lawful_txin lawful_txout lawful_spend lawful_output : lawful.

Lemma lawful_lead mask : byte_ok mask -> Z.land mask 1 = 0 -> lawful (lead mask).
Proof.
  intros Hm Hm0.
  assert (forall b, byte_ok b -> Z.land b (Z.lnot 1) = mask -> b = if negb (Z.land b 1 =? 0) then Z.lor mask 1 else mask) as Hb.
  { intros b Hb <-. apply (Zrange_check 256 (fun b => b = if negb (Z.land b 1 =? 0) then Z.lor (Z.land b (Z.lnot 1)) 1 else Z.land b (Z.lnot 1)));
      [by vm_compute | exact Hb]. }
  assert (Z.land mask (Z.lnot 1) = mask /\ Z.land (Z.lor mask 1) (Z.lnot 1) = mask /\ Z.land (Z.lor mask 1) 1 = 1) as (H1 & H2 & H3).
  { revert Hm0. apply (Zrange_check 256 (fun mask => Z.land mask 1 = 0 -> Z.land mask (Z.lnot 1) = mask /\ Z.land (Z.lor mask 1) (Z.lnot 1) = mask /\ Z.land (Z.lor mask 1) 1 = 1));
      [by vm_compute | exact Hm]. }
  split; cbn [lead valid ser unser].
  - intros y _. eexists. split; [done |]. eapply reads_as_map; [apply reads_as_byte |]. intros s. destruct y.
    + rewrite H2, H3, Z.eqb_refl. done.
    + rewrite H1, Hm0, Z.eqb_refl. done.
  - intros s y rest Hs (b & s1 & E1 & E2)%reader_bind_inv. destruct s as [| b' s]; [done |]. injection E1 as -> ->.
    destruct (Z.eqb_spec (Z.land b (Z.lnot 1)) mask) as [E | E]; [| done]. injection E2 as <- <-.
    split; [done |]. eexists. split; [done |]. cbn [app]. by rewrite <-(Hb b) by (try done; by eapply Forall_inv).
Qed.

Lemma lawful_compressed mask size : byte_ok mask -> Z.land mask 1 = 0 -> lawful (compressed mask size).
Proof. intros Hm Hm0. pose proof (lawful_lead mask Hm Hm0). unfold compressed. lawful_seq. Qed.

Lemma lawful_phgr : lawful phgr.
Proof.
  assert (lawful CompressedG1) by (apply lawful_compressed; [unfold byte_ok, G1_PREFIX_MASK; lia | done]).
  assert (lawful CompressedG2) by (apply lawful_compressed; [unfold byte_ok, G2_PREFIX_MASK; lia | done]).
  unfold phgr. lawful_seq.
Qed.

(** A codec under a constructor. *)
Lemma lawful_sprout_proof groth : lawful (sprout_proof groth).
Proof.
  destruct groth; (split; cbn [sprout_proof valid ser unser]).
  - intros [| g]; [done |]. intros (b & E & R)%(law_read _ (lawful_blob _)). exists b. split; [done |].
    by eapply reads_as_map.
  - intros s p rest Hs (g & s1 & H1 & [= <- <-])%reader_bind_inv. by apply (law_only _ (lawful_blob _)) in H1.
  - intros [g |]; [| done]. intros (b & E & R)%(law_read _ lawful_phgr). exists b. split; [done |].
    by eapply reads_as_map.
  - intros s p rest Hs (g & s1 & H1 & [= <- <-])%reader_bind_inv. by apply (law_only _ lawful_phgr) in H1.
Qed.
#[export] Hint Resolve lawful_sprout_proof : lawful.

Lemma lawful_joinsplit groth : lawful (joinsplit groth).
Proof. unfold joinsplit, hash256. lawful_seq. Qed.
#[export] Hint Resolve lawful_joinsplit : lawful.

Lemma header_parts f v : 0 <= v < 2 ^ 31 ->
  is_u 32 (GetHeader f v) /\ negb (Z.shiftr (GetHeader f v) 31 =? 0) = f /\ Z.land (GetHeader f v) 0x7FFFFFFF = v.
Proof.
  intros Hv. unfold GetHeader. rewrite u32_id by (unfold is_u; lia). change 0x7FFFFFFF with (Z.ones 31).
  rewrite Z.land_ones, Z.shiftr_div_pow2 by lia. destruct f.
  - rewrite Z.lor_comm, Z.shiftl_mul_pow2, lor_add by lia. rewrite Z.mul_1_l.
    split; [unfold is_u; lia |]. replace ((2 ^ 31 + v) / 2 ^ 31) with 1 by (apply (Z.div_unique _ _ _ v); lia).
    split; [done |]. symmetry. apply (Z.mod_unique _ _ 1); lia.
  - rewrite Z.div_small, Z.mod_small by lia. unfold is_u. split; [lia | done].
Qed.

Lemma lawful_header : lawful header.
Proof.
  split; cbn [header valid ser unser].
  - intros [f v] Hv. cbn [fst snd] in *. destruct (header_parts f v Hv) as (Hu & H1 & H2).
    eexists. split; [done |]. eapply reads_as_map; [by apply reads_as_bytes; rewrite length_le_bytes |].
    intros s. rewrite le_num_le_bytes, Z.mod_small by exact Hu. cbv zeta. by rewrite H1, H2.
  - intros s [f v] rest Hs (l & s1 & H1 & E)%reader_bind_inv. apply read_bytes_inv in H1 as (-> & Hl & Hok & _); [| done].
    unfold mret, reader_ret in E. cbv zeta in E. apply (inj Some), pair_equal_spec in E as [E <-].
    apply pair_equal_spec in E as [<- <-]. pose proof (le_num_bounds l Hok) as B. unfold Zlen in B. rewrite Hl in B. cbn [fst snd].
    change 0x7FFFFFFF with (Z.ones 31). rewrite Z.land_ones by lia.
    pose proof (Z.mod_pos_bound (le_num l) (2 ^ 31) ltac:(lia)) as Hm. split; [done |].
    eexists. split; [done |]. f_equal. transitivity (le_bytes 4 (le_num l)); [by rewrite <-Hl, le_bytes_le_num |]. f_equal.
    unfold GetHeader. rewrite u32_id by (unfold is_u; lia). rewrite Z.shiftr_div_pow2 by lia.
    pose proof (Z.div_mod (le_num l) (2 ^ 31) ltac:(lia)) as Hd.
    assert (0 <= le_num l / 2 ^ 31 < 2) by (split; [apply Z.div_pos; lia | apply Z.div_lt_upper_bound; lia]).
    destruct (Z.eqb_spec (le_num l / 2 ^ 31) 0) as [E | E]; cbn [negb]; [lia |].
    rewrite Z.lor_comm, Z.shiftl_mul_pow2, lor_add by lia. lia.
Qed.
#[export] Hint Resolve lawful_header : lawful.

Lemma lawful_when {A} b (c : codec A) d : lawful c -> lawful (when b c d).
Proof. intros Hc. destruct b; [done | apply lawful_fixed]. Qed.
#[export] Hint Resolve lawful_when : lawful.

Lemma lawful_transaction : lawful transaction.
Proof.
  unfold transaction, hash256. apply lawful_readwrite; [solve [eauto with lawful] | |].
  - intros [f v]. apply lawful_readwrite; [solve [eauto with lawful] | | part]. intros group. cbv zeta.
    destruct (_ && _); [apply lawful_fail | lawful_seq].
  - intros [f v] tx Hv. cbv zeta in Hv. part_valid Hv.
Qed.


(** ** Theorems *)

(** The encoding and the reading determine each other: [tx] stands for [bytes]. *)
Definition encodes (bytes : list Z) (tx : CTransaction) : Prop :=
  valid transaction tx /\ ser transaction tx = Some bytes.

(** [C26] A transaction has one encoding.  A valid transaction (fields in range, and
    those its version does not carry at their initial values) is serialised without
    an exception and read back whatever follows; bytes that are read as a
    transaction are its serialisation, so no other bytes stand for it; and two
    transactions with the same bytes are the same. *)
Theorem transaction_encoding_unique :
  (forall tx, valid transaction tx -> exists bytes, encodes bytes tx /\ reads_as (unser transaction) bytes tx) /\
  (forall s tx rest, bytes_ok s -> unser transaction s = Some (tx, rest) ->
     exists bytes, encodes bytes tx /\ s = bytes ++ rest) /\
  (forall bytes tx1 tx2, encodes bytes tx1 -> encodes bytes tx2 -> tx1 = tx2).
Proof.
  assert (forall tx, valid transaction tx -> exists bytes, encodes bytes tx /\ reads_as (unser transaction) bytes tx) as Hrt.
  { intros tx Hv. destruct (law_read _ lawful_transaction tx Hv) as (bytes & E & R). by exists bytes. }
  split; [done |]. split.
  - intros s tx rest Hs H. destruct (law_only _ lawful_transaction _ _ _ Hs H) as (Hv & bytes & E & ->). by exists bytes.
  - intros bytes tx1 tx2 [Hv1 E1] [Hv2 E2]. destruct (Hrt _ Hv1) as (b1 & [_ E1'] & R1), (Hrt _ Hv2) as (b2 & [_ E2'] & R2).
    rewrite E1' in E1. rewrite E2' in E2. injection E1 as ->. injection E2 as ->.
    specialize (R1 []). specialize (R2 []). congruence.
Qed.

(** A shielded transaction with one spend. *)
Definition tx_example : CTransaction :=
  Tx true 4 SAPLING_VERSION_GROUP_ID [TxIn (OutPoint (replicate 32 7) 3) [0x51] 9] [TxOut 1000 [0x6a]] 5 60 (-1000)
     [Spend (replicate 32 1) (replicate 32 2) (replicate 32 3) (replicate 32 4) (replicate 192 5) (replicate 64 6)] []
     [] (replicate 32 0) (replicate 64 0) (replicate 64 8).

(** The fields of a concrete transaction are in range. *)
Ltac solve_tx_valid :=
  cbn; repeat split;
    try (apply bytes_ok_replicate; unfold byte_ok; lia); try lia; try done;
    repeat (apply Forall_cons_2; [cbn; repeat split; try (apply bytes_ok_replicate; unfold byte_ok; lia); try lia; try done;
      try (repeat (constructor; [unfold byte_ok; lia |]); constructor) |]);
    try apply Forall_nil_2; try (repeat (constructor; [unfold byte_ok; lia |]); constructor).

Lemma tx_example_valid : valid transaction tx_example.
Proof. solve_tx_valid. Qed.

Lemma transaction_encoding_unique_witness :
  exists bytes, encodes bytes tx_example /\ reads_as (unser transaction) bytes tx_example.
Proof. apply (proj1 transaction_encoding_unique). exact tx_example_valid. Defined.

(** The move constructor leaves [bindingSig] at zero, so the transaction it makes
    is not the one it was made from, it has other bytes and another hash; and
    reading by the constructor gives that one. *)
Lemma move_loses_binding_sig :
  (forall tx bytes rest, encodes bytes tx -> deserialize_tx (bytes ++ rest) = Some (move_tx tx, rest)) /\
  valid transaction tx_example /\ copy_tx tx_example = tx_example /\
  ser transaction (move_tx tx_example) <> ser transaction tx_example.
Proof.
  split.
  { intros tx bytes rest [Hv E]. destruct (law_read _ lawful_transaction tx Hv) as (b & E' & R).
    assert (b = bytes) as -> by congruence. unfold deserialize_tx, mbind, reader_bind. by rewrite R. }
  split; [apply tx_example_valid |]. split; [reflexivity |].
  intros H. apply (f_equal (fun o => match o with Some l => rd l 500 | None => 0 end)) in H. vm_compute in H. discriminate H.
Qed.
End Tx.
