(* ===== verification/SigHash.v ===== *)
(** * Signature hashes (src/src/script/interpreter.cpp)

    What a signature commits to: the bytes that [SignatureHash] feeds to the hash
    functions, for the three versions of the algorithm.  BLAKE2b with a
    personalization is the class [Blake2b]; the double SHA-256 of [CHashWriter] is
    [CHash256] of [Interp]. *)
From S2P Require Import Prelude Coins Compact Tx Script Interp.
Import Tx.Tx.
Local Open Scope Z_scope.

Class Blake2b := { blake2b : list Z -> list Z -> list Z }.
Class LawfulBlake2b `{Blake2b} : Prop := {
  length_blake2b p msg : length (blake2b p msg) = 32%nat;
  blake2b_ok p msg : bytes_ok (blake2b p msg);
}.

(** [SignatureHash] returns a hash, throws a [logic_error], or fails otherwise: an
    exception of a serialiser, a failed assertion, an access past a vector. *)
Inductive result (A : Type) : Type := Value (a : A) | Logic_error | Failure.
Arguments Value {A} a.
Arguments Logic_error {A}.
Arguments Failure {A}.

#[export] Instance result_ret : MRet result := @Value.
#[export] Instance result_bind : MBind result := fun A B f m =>
  match m with Value a => f a | Logic_error => Logic_error | Failure => Failure end.
Definition from_option {A} (o : option A) : result A := match o with Some a => Value a | None => Failure end.

Module SigHash.

Definition SIGHASH_NONE : Z := 2.
Definition NOT_AN_INPUT : Z := 0xFFFFFFFF.

(** The characters of the personalizations. *)
Definition ZCASH_PREVOUTS_HASH_PERSONALIZATION : list Z :=
  [90; 99; 97; 115; 104; 80; 114; 101; 118; 111; 117; 116; 72; 97; 115; 104].
Definition ZCASH_SEQUENCE_HASH_PERSONALIZATION : list Z :=
  [90; 99; 97; 115; 104; 83; 101; 113; 117; 101; 110; 99; 72; 97; 115; 104].
Definition ZCASH_OUTPUTS_HASH_PERSONALIZATION : list Z :=
  [90; 99; 97; 115; 104; 79; 117; 116; 112; 117; 116; 115; 72; 97; 115; 104].
Definition ZCASH_JOINSPLITS_HASH_PERSONALIZATION : list Z :=
  [90; 99; 97; 115; 104; 74; 83; 112; 108; 105; 116; 115; 72; 97; 115; 104].
Definition ZCASH_SHIELDED_SPENDS_HASH_PERSONALIZATION : list Z :=
  [90; 99; 97; 115; 104; 83; 83; 112; 101; 110; 100; 115; 72; 97; 115; 104].
Definition ZCASH_SHIELDED_OUTPUTS_HASH_PERSONALIZATION : list Z :=
  [90; 99; 97; 115; 104; 83; 79; 117; 116; 112; 117; 116; 72; 97; 115; 104].
(** ["ZcashSigHash"] and the branch id. *)
Definition sighash_personalization (consensusBranchId : Z) : list Z :=
  [90; 99; 97; 115; 104; 83; 105; 103; 72; 97; 115; 104] ++ le_bytes 4 consensusBranchId.

(** The fields of a spend that are hashed: all but [spendAuthSig]. *)
Definition spend_signed : codec SpendDescription :=
  rw cv ← hash256 of sp_cv;
  rw anchor ← hash256 of sp_anchor;
  rw nullifier ← hash256 of sp_nullifier;
  rw rk ← hash256 of sp_rk;
  rw zkproof ← blob GROTH_PROOF_SIZE of sp_zkproof;
  fixed (Spend cv anchor nullifier rk zkproof []).

(** [uint256()]. *)
Definition zero256 : list Z := replicate 32 0.

(** What is fed to the hash before the input that is signed, [spends],
    [shielded_outputs] and [balance] for Sapling only, *)
Record Message_parts := Message {
  m_header : Z; m_group : Z; m_prevouts : list Z; m_sequence : list Z; m_outputs : list Z; m_joinsplits : list Z;
  m_spends : list Z; m_shielded_outputs : list Z; m_lock : Z; m_expiry : Z; m_balance : Z; m_type : Z }.
Definition message : codec Message_parts :=
  rw header ← uint32 of m_header;
  rw group ← uint32 of m_group;
  rw prevouts ← hash256 of m_prevouts;
  rw sequence ← hash256 of m_sequence;
  rw outputs ← hash256 of m_outputs;
  rw joinsplits ← hash256 of m_joinsplits;
  let sapling := group =? SAPLING_VERSION_GROUP_ID in
  rw spends ← when sapling hash256 zero256 of m_spends;
  rw shielded_outputs ← when sapling hash256 zero256 of m_shielded_outputs;
  rw lock ← uint32 of m_lock;
  rw expiry ← uint32 of m_expiry;
  rw balance ← when sapling int64 0 of m_balance;
  rw type ← uint32 of m_type;
  fixed (Message header group prevouts sequence outputs joinsplits spends shielded_outputs lock expiry balance type).

(** and the input, with the script and the amount of the output it spends. *)
Record Signed_input := SignedInput { si_prevout : COutPoint; si_scriptCode : list Z; si_amount : Z; si_nSequence : Z }.
Definition signed_input : codec Signed_input :=
  rw p ← outpoint of si_prevout;
  rw c ← bytevec of si_scriptCode;
  rw a ← int64 of si_amount;
  rw q ← uint32 of si_nSequence;
  fixed (SignedInput p c a q).

Section Hash.
Context {BL : Blake2b} {HS : Hashes}.

Definition GetPrevoutHash (txTo : CTransaction) : result (list Z) :=
  b ← from_option (write_list (ser outpoint) (map prevout (vin txTo)));
  Value (blake2b ZCASH_PREVOUTS_HASH_PERSONALIZATION b).
Definition GetSequenceHash (txTo : CTransaction) : result (list Z) :=
  b ← from_option (write_list (ser uint32) (map nSequence (vin txTo)));
  Value (blake2b ZCASH_SEQUENCE_HASH_PERSONALIZATION b).
Definition GetOutputsHash (txTo : CTransaction) : result (list Z) :=
  b ← from_option (write_list (ser txout_codec) (vout txTo));
  Value (blake2b ZCASH_OUTPUTS_HASH_PERSONALIZATION b).
Definition GetJoinSplitsHash (txTo : CTransaction) : result (list Z) :=
  b ← from_option (write_list (ser (joinsplit (useGroth (fOverwintered txTo) (nVersion txTo)))) (vjoinsplit txTo));
  Value (blake2b ZCASH_JOINSPLITS_HASH_PERSONALIZATION (b ++ joinSplitPubKey txTo)).
Definition GetShieldedSpendsHash (txTo : CTransaction) : result (list Z) :=
  b ← from_option (write_list (ser spend_signed) (vShieldedSpend txTo));
  Value (blake2b ZCASH_SHIELDED_SPENDS_HASH_PERSONALIZATION b).
Definition GetShieldedOutputsHash (txTo : CTransaction) : result (list Z) :=
  b ← from_option (write_list (ser output) (vShieldedOutput txTo));
  Value (blake2b ZCASH_SHIELDED_OUTPUTS_HASH_PERSONALIZATION b).

Record PrecomputedTransactionData := Precomputed {
  hashPrevouts : list Z; hashSequence : list Z; hashOutputs : list Z; hashJoinSplits : list Z;
  hashShieldedSpends : list Z; hashShieldedOutputs : list Z }.

(** The constructor of [PrecomputedTransactionData]. *)
Definition precompute (txTo : CTransaction) : result PrecomputedTransactionData :=
  p ← GetPrevoutHash txTo;
  q ← GetSequenceHash txTo;
  o ← GetOutputsHash txTo;
  j ← GetJoinSplitsHash txTo;
  s ← GetShieldedSpendsHash txTo;
  t ← GetShieldedOutputsHash txTo;
  Value (Precomputed p q o j s t).

(** [cache ? cache->field : Get...(txTo)]. *)
Definition cached (cache : option PrecomputedTransactionData) (f : PrecomputedTransactionData -> list Z)
    (get : result (list Z)) : result (list Z) :=
  match cache with Some c => Value (f c) | None => get end.

Inductive SigVersion := SIGVERSION_SPROUT | SIGVERSION_OVERWINTER | SIGVERSION_SAPLING.

Definition SignatureHashVersion (txTo : CTransaction) : SigVersion :=
  if fOverwintered txTo then
    if nVersionGroupId txTo =? SAPLING_VERSION_GROUP_ID then SIGVERSION_SAPLING else SIGVERSION_OVERWINTER
  else SIGVERSION_SPROUT.

Definition anyone_can_pay (nHashType : Z) : bool := negb (Z.land nHashType SIGHASH_ANYONECANPAY =? 0).
Definition hash_single (nHashType : Z) : bool := Z.land nHashType 0x1f =? SIGHASH_SINGLE.
Definition hash_none (nHashType : Z) : bool := Z.land nHashType 0x1f =? SIGHASH_NONE.

Definition when_hash (b : bool) (h : result (list Z)) : result (list Z) := if b then h else Value zero256.

(** [hashOutputs]: all of the outputs, the one at the index of the input, or none. *)
Definition signed_outputs (cache : option PrecomputedTransactionData) (txTo : CTransaction) (nIn nHashType : Z) :
    result (list Z) :=
  if negb (hash_single nHashType) && negb (hash_none nHashType) then cached cache hashOutputs (GetOutputsHash txTo)
  else if hash_single nHashType && (nIn <? Zlen (vout txTo)) then
    match vout txTo !! Z.to_nat nIn with
    | Some o =>
        b ← from_option (ser txout_codec o);
        Value (blake2b ZCASH_OUTPUTS_HASH_PERSONALIZATION b)
    | None => Failure
    end
  else Value zero256.

Definition input_part (scriptCode : list Z) (txTo : CTransaction) (nIn amount : Z) : result (list Z) :=
  if nIn =? NOT_AN_INPUT then Value []
  else match vin txTo !! Z.to_nat nIn with
       | Some inp => from_option (ser signed_input (SignedInput (prevout inp) scriptCode amount (nSequence inp)))
       | None => Failure
       end.

(** The message of the Overwinter and Sapling algorithms. *)
Definition preimage (cache : option PrecomputedTransactionData) (scriptCode : list Z) (txTo : CTransaction)
    (nIn nHashType amount : Z) : result (list Z) :=
  hashPrevouts ← when_hash (negb (anyone_can_pay nHashType)) (cached cache hashPrevouts (GetPrevoutHash txTo));
  hashSequence ← when_hash (negb (anyone_can_pay nHashType) && negb (hash_single nHashType) && negb (hash_none nHashType))
                   (cached cache hashSequence (GetSequenceHash txTo));
  hashOutputs ← signed_outputs cache txTo nIn nHashType;
  hashJoinSplits ← when_hash (negb (Zlen (vjoinsplit txTo) =? 0)) (cached cache hashJoinSplits (GetJoinSplitsHash txTo));
  hashShieldedSpends ← when_hash (negb (Zlen (vShieldedSpend txTo) =? 0))
                         (cached cache hashShieldedSpends (GetShieldedSpendsHash txTo));
  hashShieldedOutputs ← when_hash (negb (Zlen (vShieldedOutput txTo) =? 0))
                          (cached cache hashShieldedOutputs (GetShieldedOutputsHash txTo));
  msg ← from_option (ser message
          (Message (GetHeader (fOverwintered txTo) (nVersion txTo)) (nVersionGroupId txTo) hashPrevouts hashSequence
             hashOutputs hashJoinSplits hashShieldedSpends hashShieldedOutputs (nLockTime txTo) (nExpiryHeight txTo)
             (valueBalance txTo) nHashType));
  input ← input_part scriptCode txTo nIn amount;
  Value (msg ++ input).

(** *** [CTransactionSignatureSerializer], for Sprout *)

Section Sprout.
Context (scriptCode : list Z) (txTo : CTransaction) (nIn nHashType : Z).

Definition SerializeScriptCode : list Z := WriteCompactSize (Zlen scriptCode) ++ scriptCode.

Definition SerializeInput (nInput : Z) : result (list Z) :=
  let nInput := if anyone_can_pay nHashType then nIn else nInput in
  match vin txTo !! Z.to_nat nInput with
  | None => Failure
  | Some inp =>
      p ← from_option (ser outpoint (prevout inp));
      if nInput =? NOT_AN_INPUT then Failure
      else
        c ← (if negb (nInput =? nIn) then from_option (ser bytevec []) else Value SerializeScriptCode);
        let seq := if negb (nInput =? nIn) && (hash_single nHashType || hash_none nHashType)
                   then le_bytes 4 0 else le_bytes 4 (nSequence inp) in
        Value (p ++ c ++ seq)
  end.

Definition SerializeOutput (nOutput : Z) : result (list Z) :=
  if hash_single nHashType && negb (nOutput =? nIn) then from_option (ser txout_codec SetNull)
  else match vout txTo !! Z.to_nat nOutput with
       | Some o => from_option (ser txout_codec o)
       | None => Failure
       end.

(** [for (unsigned int i = first; i < first + count; i++)]. *)
Fixpoint serialize_from (f : Z -> result (list Z)) (first : Z) (count : nat) : result (list Z) :=
  match count with
  | O => Value []
  | S count => a ← f first; b ← serialize_from f (first + 1) count; Value (a ++ b)
  end.

Definition SerializeSprout : result (list Z) :=
  let nInputs := if anyone_can_pay nHashType then 1 else Zlen (vin txTo) in
  ins ← serialize_from SerializeInput 0 (Z.to_nat nInputs);
  let nOutputs := if hash_none nHashType then 0 else if hash_single nHashType then u32 (nIn + 1) else Zlen (vout txTo) in
  outs ← serialize_from SerializeOutput 0 (Z.to_nat nOutputs);
  js ← (if 2 <=? nVersion txTo then
          b ← from_option (ser (vec (joinsplit false)) (vjoinsplit txTo));
          Value (b ++ (if 0 <? Zlen (vjoinsplit txTo) then joinSplitPubKey txTo ++ replicate 64 0 else []))
        else Value []);
  Value (le_bytes 4 (nVersion txTo) ++ WriteCompactSize nInputs ++ ins ++ WriteCompactSize nOutputs ++ outs
         ++ le_bytes 4 (nLockTime txTo) ++ js).

End Sprout.

(** [SignatureHash]. *)
Definition SignatureHash (scriptCode : list Z) (txTo : CTransaction) (nIn nHashType amount consensusBranchId : Z)
    (cache : option PrecomputedTransactionData) : result (list Z) :=
  if (Zlen (vin txTo) <=? nIn) && negb (nIn =? NOT_AN_INPUT) then Logic_error
  else
    match SignatureHashVersion txTo with
    | SIGVERSION_OVERWINTER | SIGVERSION_SAPLING =>
        msg ← preimage cache scriptCode txTo nIn nHashType amount;
        Value (blake2b (sighash_personalization consensusBranchId) msg)
    | SIGVERSION_SPROUT =>
        if hash_single nHashType && (Zlen (vout txTo) <=? nIn) then Logic_error
        else
          msg ← SerializeSprout scriptCode txTo nIn nHashType;
          Value (CHash256 (msg ++ le_bytes 4 nHashType))
    end.

End Hash.
End SigHash.

(** ** Lemmas *)

(** A valid value is not encoded by nothing. *)
Definition nonempty {A} (c : codec A) : Prop := forall a b, valid c a -> ser c a = Some b -> b <> [].

Lemma write_list_inj {A} (c : codec A) l1 l2 b :
  lawful c -> nonempty c -> Forall (valid c) l1 -> Forall (valid c) l2 ->
  write_list (ser c) l1 = Some b -> write_list (ser c) l2 = Some b -> l1 = l2.
Proof.
  intros Hc Hne Hv1 Hv2. revert b l2 Hv2. induction Hv1 as [| a1 l1 Ha1 _ IH]; intros b l2 Hv2 E1 E2.
  - destruct Hv2 as [| a2 l2 Ha2 _]; [done |]. cbn [write_list] in *. injection E1 as <-.
    destruct (ser c a2) as [b1 |] eqn:Es; [| done]. cbn [mbind option_bind] in E2.
    destruct (write_list _ l2) as [b2 |]; [| done]. cbn [mbind option_bind] in E2. injection E2 as E2.
    apply app_nil in E2 as [-> _]. by apply Hne in Es.
  - destruct (law_read c Hc a1 Ha1) as (b1 & Es1 & R1). cbn [write_list] in E1. rewrite Es1 in E1. cbn [mbind option_bind] in E1.
    destruct (write_list (ser c) l1) as [r1 |] eqn:Er1; [| done]. cbn [mbind option_bind] in E1. injection E1 as <-.
    destruct Hv2 as [| a2 l2 Ha2 Hv2].
    { cbn [write_list] in E2. injection E2 as E2. symmetry in E2. apply app_nil in E2 as [-> _]. by apply Hne in Es1. }
    destruct (law_read c Hc a2 Ha2) as (b2 & Es2 & R2). cbn [write_list] in E2. rewrite Es2 in E2. cbn [mbind option_bind] in E2.
    destruct (write_list (ser c) l2) as [r2 |] eqn:Er2; [| done]. cbn [mbind option_bind] in E2. injection E2 as E2.
    pose proof (R1 r1) as H1. rewrite <-E2, R2 in H1. injection H1 as -> ->. f_equal. by eapply IH.
Qed.

Lemma nonempty_readwrite {A B} (c : codec A) (f : B -> A) k : nonempty c -> nonempty (readwrite c f k).
Proof.
  intros Hne x b [Hv _]. cbn [readwrite ser]. destruct (ser c (f x)) as [b1 |] eqn:E; [| done]. cbn [mbind option_bind].
  destruct (ser (k (f x)) x) as [b2 |]; [| done]. cbn [mbind option_bind]. intros [= <-] [-> _]%app_nil.
  by apply (Hne _ _ Hv) in E.
Qed.
Lemma nonempty_blob n : nonempty (blob (S n)).
Proof. intros l b [_ Hl] [= <-] ->. done. Qed.
Lemma nonempty_uint32 : nonempty uint32.
Proof. intros x b _ [= <-]. done. Qed.
Lemma nonempty_int64 : nonempty int64.
Proof. intros x b _ [= <-]. done. Qed.
#[export] Hint Resolve nonempty_readwrite nonempty_blob nonempty_uint32 nonempty_int64 : lawful.


Lemma list_writes {A} (c : codec A) l : lawful c -> Forall (valid c) l -> exists b, write_list (ser c) l = Some b.
Proof. intros Hc Hl. destruct (list_reads c Hc l Hl) as (b & E & _). by exists b. Qed.

Lemma ser_inj {A} (c : codec A) a1 a2 b :
  lawful c -> valid c a1 -> valid c a2 -> ser c a1 = Some b -> ser c a2 = Some b -> a1 = a2.
Proof.
  intros Hc H1 H2 E1 E2. destruct (law_read c Hc _ H1) as (b1 & E1' & R1), (law_read c Hc _ H2) as (b2 & E2' & R2).
  specialize (R1 []). specialize (R2 []). congruence.
Qed.

Module Commit.
Import SigHash.

Lemma lawful_spend_signed : lawful spend_signed.
Proof. unfold spend_signed, hash256. lawful_seq. Qed.
Lemma lawful_message : lawful message.
Proof. unfold message, hash256. lawful_seq. Qed.
Lemma lawful_signed_input : lawful signed_input.
Proof. unfold signed_input. pose proof lawful_outpoint. lawful_seq. Qed.

(** A spend without its signature. *)
Definition unsigned (s : SpendDescription) : SpendDescription :=
  Spend (sp_cv s) (sp_anchor s) (sp_nullifier s) (sp_rk s) (sp_zkproof s) [].

Lemma ser_unsigned s : ser spend_signed s = ser spend_signed (unsigned s).
Proof. reflexivity. Qed.

Lemma write_unsigned l : write_list (ser spend_signed) l = write_list (ser spend_signed) (map unsigned l).
Proof. induction l as [| s l IH]; [done |]. cbn [map write_list]. by rewrite IH, <-ser_unsigned. Qed.

Lemma valid_unsigned s : valid spend s -> valid spend_signed (unsigned s).
Proof. intros Hv. cbn in *. tauto. Qed.

(** The lists of a valid transaction are valid. *)
Record lists_valid (tx : CTransaction) : Prop := {
  lv_vin : Forall (valid txin) (vin tx);
  lv_vout : Forall (valid txout_codec) (vout tx);
  lv_js : Forall (valid (joinsplit (useGroth (fOverwintered tx) (nVersion tx)))) (vjoinsplit tx);
  lv_spends : Forall (valid spend) (vShieldedSpend tx);
  lv_outputs : Forall (valid output) (vShieldedOutput tx);
  lv_version : 0 <= nVersion tx < 2 ^ 31;
  lv_group : is_u 32 (nVersionGroupId tx);
  lv_lock : is_u 32 (nLockTime tx);
  lv_expiry : is_u 32 (nExpiryHeight tx);
  lv_balance : is_s64 (valueBalance tx);
  lv_key : length (joinSplitPubKey tx) = 32%nat;
  lv_v3 : (nVersionGroupId tx =? SAPLING_VERSION_GROUP_ID) = false ->
          valueBalance tx = 0 /\ vShieldedSpend tx = [] /\ vShieldedOutput tx = [];
}.

Lemma valid_when {A} (P : A -> Prop) b (c : codec A) d a :
  (forall a, valid c a -> P a) -> P d -> valid (when b c d) a -> P a.
Proof. intros Hc Hd. destruct b; cbn [when fixed valid]; [auto | by intros ->]. Qed.

Lemma valid_lists tx : valid transaction tx -> lists_valid tx.
Proof.
  intros Hv. unfold transaction in Hv. destruct Hv as [Hh [Hg Hv]]. cbn [fst snd] in *. cbv zeta in Hv.
  destruct (_ && _); [done |]. destruct Hv as (H1 & H2 & H3 & H4 & H5 & H6 & H7 & H8 & H9 & _).
  split.
  - apply H1.
  - apply H2.
  - refine (valid_when (Forall _) _ _ _ _ _ _ H8); [by intros a [? _] | constructor].
  - refine (valid_when (Forall _) _ _ _ _ _ _ H6); [by intros a [? _] | constructor].
  - refine (valid_when (Forall _) _ _ _ _ _ _ H7); [by intros a [? _] | constructor].
  - apply Hh.
  - refine (valid_when (is_u 32) _ _ _ _ _ _ Hg); [done | unfold is_u; lia].
  - apply H3.
  - refine (valid_when (is_u 32) _ _ _ _ _ _ H4); [done | unfold is_u; lia].
  - refine (valid_when is_s64 _ _ _ _ _ _ H5); [done | unfold is_s64; lia].
  - refine (valid_when (fun k => length k = 32%nat) _ _ _ _ _ _ H9); [by intros a [_ ?] | apply length_replicate].
  - intros Hg'. unfold isSaplingV4 in *. rewrite Hg', andb_false_r in H5, H6, H7. done.
Qed.


Section Commits.
Context {BL : Blake2b} {HS : Hashes} {HB : LawfulBlake2b}.

(** A personalization and a message. *)
Definition query : Type := list Z * list Z.
Definition digest (q : query) : list Z := blake2b q.1 q.2.

(** Among these messages two different ones have one digest, or one has the digest zero. *)
Definition broken_among (Q : list query) : Prop :=
  (exists a b, a ∈ Q /\ b ∈ Q /\ a <> b /\ digest a = digest b) \/ (exists a, a ∈ Q /\ digest a = zero256).

(** *** What one call hashes *)

(** The encoding of a list and the bytes [k] after it, *)
Definition list_query {A} (c : codec A) (p k : list Z) (l : list A) : list query :=
  match write_list (ser c) l with Some b => [(p, b ++ k)] | None => [] end.
(** where a condition holds, *)
Definition query_if (b : bool) (q : list query) : list query := if b then q else [].
(** and one output. *)
Definition output_query (o : option txout) : list query :=
  match o ≫= ser txout_codec with Some b => [(ZCASH_OUTPUTS_HASH_PERSONALIZATION, b)] | None => [] end.

(** The outputs that are hashed: all of them, the one at the index of the input, or none. *)
Definition output_queries (tx : CTransaction) (nIn ht : Z) : list query :=
  query_if (negb (hash_single ht) && negb (hash_none ht))
    (list_query txout_codec ZCASH_OUTPUTS_HASH_PERSONALIZATION [] (vout tx))
  ++ query_if (hash_single ht) (output_query (vout tx !! Z.to_nat nIn)).

(** Every message that [SignatureHash] gives to BLAKE2b for these arguments. *)
Definition hashed (sc : list Z) (tx : CTransaction) (nIn ht am br : Z) : list query :=
  query_if (negb (anyone_can_pay ht))
    (list_query outpoint ZCASH_PREVOUTS_HASH_PERSONALIZATION [] (map prevout (vin tx)))
  ++ query_if (negb (anyone_can_pay ht) && negb (hash_single ht) && negb (hash_none ht))
       (list_query uint32 ZCASH_SEQUENCE_HASH_PERSONALIZATION [] (map nSequence (vin tx)))
  ++ output_queries tx nIn ht
  ++ query_if (negb (Zlen (vjoinsplit tx) =? 0))
       (list_query (joinsplit (useGroth (fOverwintered tx) (nVersion tx))) ZCASH_JOINSPLITS_HASH_PERSONALIZATION
          (joinSplitPubKey tx) (vjoinsplit tx))
  ++ query_if (negb (Zlen (vShieldedSpend tx) =? 0))
       (list_query spend_signed ZCASH_SHIELDED_SPENDS_HASH_PERSONALIZATION [] (map unsigned (vShieldedSpend tx)))
  ++ query_if (negb (Zlen (vShieldedOutput tx) =? 0))
       (list_query output ZCASH_SHIELDED_OUTPUTS_HASH_PERSONALIZATION [] (vShieldedOutput tx))
  ++ match preimage None sc tx nIn ht am with
     | Value msg => [(sighash_personalization br, msg)]
     | _ => []
     end.

Section Among.
(** The messages in question. *)
Context (Q : list query).

Lemma blake2b_eq p x q y :
  (p, x) ∈ Q -> (q, y) ∈ Q -> blake2b p x = blake2b q y -> (p = q /\ x = y) \/ broken_among Q.
Proof using.
  intros Hx Hy E. destruct (decide ((p, x) = (q, y))) as [Eq | Hne]; [left; by injection Eq |].
  right. left. by exists (p, x), (q, y).
Qed.
Lemma blake2b_zero p x : (p, x) ∈ Q -> blake2b p x = zero256 -> broken_among Q.
Proof using. intros Hx E. right. by exists (p, x). Qed.

(** *** Digests of lists *)

Lemma valid_digest p msg : valid hash256 (blake2b p msg).
Proof using HB. split; [apply blake2b_ok | apply length_blake2b]. Qed.
Lemma valid_zero : valid hash256 zero256.
Proof using. split; [apply bytes_ok_replicate; unfold byte_ok; lia | done]. Qed.

(** A step of the message that fails or gives a digest. *)
Definition gives_digest (r : result (list Z)) : Prop := exists h, r = Value h /\ valid hash256 h.

Lemma gives_when b r : gives_digest r -> gives_digest (when_hash b r).
Proof using. destruct b; [done |]. intros _. exists zero256. split; [done | apply valid_zero]. Qed.

(** The hash of the encoding of a valid list. *)
Lemma gives_list {A} (c : codec A) p k l :
  lawful c -> Forall (valid c) l -> gives_digest (b ← from_option (write_list (ser c) l); Value (blake2b p (b ++ k))).
Proof using HB.
  intros Hc Hl. destruct (list_writes c l Hc Hl) as [b ->]. cbn [from_option mbind result_bind].
  eexists. split; [done | apply valid_digest].
Qed.

(** The digests are the same for the same lists only. *)
Lemma list_digest {A} (c : codec A) p k1 k2 l1 l2 h :
  lawful c -> nonempty c -> Forall (valid c) l1 -> Forall (valid c) l2 ->
  length k1 = length k2 -> list_query c p k1 l1 ⊆ Q -> list_query c p k2 l2 ⊆ Q ->
  (b ← from_option (write_list (ser c) l1); Value (blake2b p (b ++ k1))) = Value h ->
  (b ← from_option (write_list (ser c) l2); Value (blake2b p (b ++ k2))) = Value h ->
  (l1 = l2 /\ k1 = k2) \/ broken_among Q.
Proof using.
  intros Hc Hne Hv1 Hv2 Hk. destruct (list_writes c l1 Hc Hv1) as [b1 E1], (list_writes c l2 Hc Hv2) as [b2 E2].
  unfold list_query. rewrite E1, E2. cbn [from_option mbind result_bind]. intros Q1 Q2 [= <-] [= E].
  destruct (blake2b_eq _ _ _ _ (Q2 _ (list_elem_of_here _ _)) (Q1 _ (list_elem_of_here _ _)) E) as [[_ Em] |]; [left | by right].
  apply app_inj_2 in Em as [-> ->]; [| done]. split; [| done]. by eapply write_list_inj.
Qed.

(** The same for a list that is hashed when it is not empty. *)
Lemma list_digest_when {A} (c : codec A) p k1 k2 l1 l2 h :
  lawful c -> nonempty c -> Forall (valid c) l1 -> Forall (valid c) l2 ->
  length k1 = length k2 ->
  query_if (negb (Zlen l1 =? 0)) (list_query c p k1 l1) ⊆ Q -> query_if (negb (Zlen l2 =? 0)) (list_query c p k2 l2) ⊆ Q ->
  when_hash (negb (Zlen l1 =? 0)) (b ← from_option (write_list (ser c) l1); Value (blake2b p (b ++ k1))) = Value h ->
  when_hash (negb (Zlen l2 =? 0)) (b ← from_option (write_list (ser c) l2); Value (blake2b p (b ++ k2))) = Value h ->
  (l1 = l2 /\ (l1 <> [] -> k1 = k2)) \/ broken_among Q.
Proof using.
  assert (forall l : list A, (Zlen l =? 0) = match l with [] => true | _ => false end) as Hz by (by intros []).
  intros Hc Hne Hv1 Hv2 Hk. rewrite !Hz. destruct l1 as [| a1 l1], l2 as [| a2 l2]; cbn [negb when_hash query_if]; intros Q1 Q2.
  - by left.
  - intros [= <-]. unfold list_query in Q2. destruct (list_writes c _ Hc Hv2) as [b Eb]. rewrite Eb in *.
    cbn. intros [= E]. right. exact (blake2b_zero _ _ (Q2 _ (list_elem_of_here _ _)) E).
  - intros E [= <-]. revert E. unfold list_query in Q1. destruct (list_writes c _ Hc Hv1) as [b Eb]. rewrite Eb in *.
    cbn. intros [= E]. right. exact (blake2b_zero _ _ (Q1 _ (list_elem_of_here _ _)) E).
  - intros E1 E2. destruct (list_digest c p k1 k2 _ _ h Hc Hne Hv1 Hv2 Hk Q1 Q2 E1 E2) as [[-> ->] |]; [by left | by right].
Qed.

(** *** The message *)

(** The arguments of [SignatureHash] at their types, the index that of an input or
    [NOT_AN_INPUT]. *)
Record call_ok (sc : list Z) (tx : CTransaction) (nIn ht am br : Z) : Prop := {
  co_tx : valid transaction tx;
  co_code : valid bytevec sc;
  co_index : 0 <= nIn < Zlen (vin tx) \/ nIn = NOT_AN_INPUT;
  co_type : is_u 32 ht;
  co_amount : is_s64 am;
  co_branch : is_u 32 br;
}.

(** The parts of the message for these arguments. *)
Record shape (sc : list Z) (tx : CTransaction) (nIn ht am : Z) (M : Message_parts) (input : list Z) : Prop := {
  sh_prevouts : when_hash (negb (anyone_can_pay ht)) (GetPrevoutHash tx) = Value (m_prevouts M);
  sh_sequence : when_hash (negb (anyone_can_pay ht) && negb (hash_single ht) && negb (hash_none ht)) (GetSequenceHash tx)
                = Value (m_sequence M);
  sh_outputs : signed_outputs None tx nIn ht = Value (m_outputs M);
  sh_joinsplits : when_hash (negb (Zlen (vjoinsplit tx) =? 0)) (GetJoinSplitsHash tx) = Value (m_joinsplits M);
  sh_spends : when_hash (negb (Zlen (vShieldedSpend tx) =? 0)) (GetShieldedSpendsHash tx) = Value (m_spends M);
  sh_shielded : when_hash (negb (Zlen (vShieldedOutput tx) =? 0)) (GetShieldedOutputsHash tx)
                = Value (m_shielded_outputs M);
  sh_header : m_header M = GetHeader (fOverwintered tx) (nVersion tx);
  sh_group : m_group M = nVersionGroupId tx;
  sh_lock : m_lock M = nLockTime tx;
  sh_expiry : m_expiry M = nExpiryHeight tx;
  sh_balance : m_balance M = valueBalance tx;
  sh_type : m_type M = ht;
  sh_input : input_part sc tx nIn am = Value input;
  sh_valid : valid message M;
}.

Lemma digest_nil (o : option (list Z)) p :
  (b ← from_option o; Value (blake2b p b)) = (b ← from_option o; Value (blake2b p (b ++ []))).
Proof using. destruct o; cbn; [by rewrite app_nil_r | done]. Qed.
Lemma gives_list_nil {A} (c : codec A) p l :
  lawful c -> Forall (valid c) l -> gives_digest (b ← from_option (write_list (ser c) l); Value (blake2b p b)).
Proof using HB. rewrite digest_nil. apply gives_list. Qed.

Lemma prevouts_valid l : Forall (valid txin) l -> Forall (valid outpoint) (map prevout l).
Proof using. rewrite Forall_fmap. intros Hl. eapply Forall_impl; [exact Hl |]. by intros x [H _]. Qed.
Lemma sequences_valid l : Forall (valid txin) l -> Forall (valid uint32) (map nSequence l).
Proof using. rewrite Forall_fmap. intros Hl. eapply Forall_impl; [exact Hl |]. by intros x (_ & _ & H & _). Qed.
Lemma unsigned_valid l : Forall (valid spend) l -> Forall (valid spend_signed) (map unsigned l).
Proof using. rewrite Forall_fmap. intros Hl. eapply Forall_impl; [exact Hl |]. intros x. apply valid_unsigned. Qed.

Lemma outputs_digest tx nIn ht :
  Forall (valid txout_codec) (vout tx) -> 0 <= nIn -> gives_digest (signed_outputs None tx nIn ht).
Proof using HB.
  intros Hv Hn. unfold signed_outputs. destruct (negb _ && negb _); [by apply gives_list_nil; [apply lawful_txout |] |].
  destruct (_ && _) eqn:Es; [| exists zero256; split; [done | apply valid_zero]].
  apply andb_true_iff in Es as [_ Hlt%Z.ltb_lt]. destruct (lookup_lt_is_Some_2 (vout tx) (Z.to_nat nIn)) as [o Ho].
  { unfold Zlen in Hlt. lia. }
  rewrite Ho. destruct (law_read _ lawful_txout o (Forall_lookup_1 _ _ _ _ Hv Ho)) as (b & E & _). rewrite E.
  cbn [from_option mbind result_bind]. eexists. split; [done | apply valid_digest].
Qed.

Lemma input_valid sc tx nIn ht am br inp :
  call_ok sc tx nIn ht am br -> vin tx !! Z.to_nat nIn = Some inp ->
  valid signed_input (SignedInput (prevout inp) sc am (nSequence inp)).
Proof using.
  intros Hc Hi. pose proof (valid_lists tx (co_tx _ _ _ _ _ _ Hc)) as Hl.
  destruct (Forall_lookup_1 _ _ _ _ (lv_vin _ Hl) Hi) as (Hp & _ & Hq & _).
  unfold signed_input. split; [exact Hp |]. split; [apply Hc |]. split; [apply Hc |]. by split.
Qed.

Lemma input_part_value sc tx nIn ht am br : call_ok sc tx nIn ht am br -> exists input, input_part sc tx nIn am = Value input.
Proof using.
  intros Hc. unfold input_part. destruct (Z.eqb_spec nIn NOT_AN_INPUT) as [-> | Hne]; [by eexists |].
  destruct (co_index _ _ _ _ _ _ Hc) as [Hi |]; [| done].
  destruct (lookup_lt_is_Some_2 (vin tx) (Z.to_nat nIn)) as [inp Ho]; [unfold Zlen in Hi; lia |]. rewrite Ho.
  destruct (law_read _ lawful_signed_input _ (input_valid _ _ _ _ _ _ _ Hc Ho)) as (b & -> & _). by exists b.
Qed.

Lemma index_nonneg sc tx nIn ht am br : call_ok sc tx nIn ht am br -> 0 <= nIn.
Proof using. intros Hc. destruct (co_index _ _ _ _ _ _ Hc) as [| ->]; unfold NOT_AN_INPUT; lia. Qed.

Lemma hash_of_message sc tx nIn ht am br :
  call_ok sc tx nIn ht am br -> fOverwintered tx = true ->
  SignatureHash sc tx nIn ht am br None =
  (msg ← preimage None sc tx nIn ht am; Value (blake2b (sighash_personalization br) msg)).
Proof using.
  intros Hc Ho. unfold SignatureHash, SignatureHashVersion. rewrite Ho.
  assert ((Zlen (vin tx) <=? nIn) && negb (nIn =? NOT_AN_INPUT) = false) as ->.
  { destruct (co_index _ _ _ _ _ _ Hc) as [Hi | ->]; [by rewrite (proj2 (Z.leb_gt (Zlen (vin tx)) nIn)) by lia | by rewrite Z.eqb_refl, andb_false_r]. }
  by destruct (nVersionGroupId tx =? _).
Qed.

Lemma message_valid tx hp hq ho hj hs ht' ht :
  lists_valid tx -> valid hash256 hp -> valid hash256 hq -> valid hash256 ho -> valid hash256 hj -> valid hash256 hs ->
  valid hash256 ht' -> is_u 32 ht ->
  ((nVersionGroupId tx =? SAPLING_VERSION_GROUP_ID) = false -> hs = zero256 /\ ht' = zero256 /\ valueBalance tx = 0) ->
  valid message (Message (GetHeader (fOverwintered tx) (nVersion tx)) (nVersionGroupId tx) hp hq ho hj hs ht'
                   (nLockTime tx) (nExpiryHeight tx) (valueBalance tx) ht).
Proof using.
  intros Hl Vp Vq Vo Vj Vs Vt Hht Hv3. destruct (header_parts (fOverwintered tx) (nVersion tx) (lv_version _ Hl)) as [Hh _].
  refine (conj Hh (conj (lv_group _ Hl) (conj Vp (conj Vq (conj Vo (conj Vj _)))))). cbn [m_group].
  destruct (nVersionGroupId tx =? SAPLING_VERSION_GROUP_ID) eqn:Hg; cbn [when].
  - exact (conj Vs (conj Vt (conj (lv_lock _ Hl) (conj (lv_expiry _ Hl) (conj (lv_balance _ Hl) (conj Hht eq_refl)))))).
  - destruct (Hv3 eq_refl) as (Es & Et & Eb).
    exact (conj Es (conj Et (conj (lv_lock _ Hl) (conj (lv_expiry _ Hl) (conj Eb (conj Hht eq_refl)))))).
Qed.

Lemma preimage_shape sc tx nIn ht am br :
  call_ok sc tx nIn ht am br ->
  exists M msg input, shape sc tx nIn ht am M input /\ ser message M = Some msg /\
    preimage None sc tx nIn ht am = Value (msg ++ input).
Proof using HB.
  intros Hc. pose proof (valid_lists tx (co_tx _ _ _ _ _ _ Hc)) as Hl.
  destruct (gives_when (negb (anyone_can_pay ht)) (GetPrevoutHash tx)) as (hp & Ep & Vp).
  { apply gives_list_nil; [apply lawful_outpoint | apply prevouts_valid, Hl]. }
  destruct (gives_when (negb (anyone_can_pay ht) && negb (hash_single ht) && negb (hash_none ht)) (GetSequenceHash tx))
    as (hq & Eq & Vq).
  { apply gives_list_nil; [apply lawful_uint32 | apply sequences_valid, Hl]. }
  destruct (outputs_digest tx nIn ht (lv_vout _ Hl) (index_nonneg _ _ _ _ _ _ Hc)) as (ho & Eo & Vo).
  destruct (gives_when (negb (Zlen (vjoinsplit tx) =? 0)) (GetJoinSplitsHash tx)) as (hj & Ej & Vj).
  { apply gives_list; [apply lawful_joinsplit | apply Hl]. }
  destruct (gives_when (negb (Zlen (vShieldedSpend tx) =? 0)) (GetShieldedSpendsHash tx)) as (hs & Es & Vs).
  { unfold GetShieldedSpendsHash. rewrite write_unsigned.
    apply gives_list_nil; [apply lawful_spend_signed | apply unsigned_valid, Hl]. }
  destruct (gives_when (negb (Zlen (vShieldedOutput tx) =? 0)) (GetShieldedOutputsHash tx)) as (ht' & Et & Vt).
  { apply gives_list_nil; [apply lawful_output | apply Hl]. }
  destruct (input_part_value _ _ _ _ _ _ Hc) as [input Ei].
  set (M := Message (GetHeader (fOverwintered tx) (nVersion tx)) (nVersionGroupId tx) hp hq ho hj hs ht' (nLockTime tx)
              (nExpiryHeight tx) (valueBalance tx) ht).
  assert (valid message M) as HM.
  { apply message_valid; try done; try apply Hc. intros Hg. destruct (lv_v3 tx Hl Hg) as (Eb & Esp & Eso).
    rewrite Esp in Es. rewrite Eso in Et. injection Es as <-. by injection Et as <-. }
  destruct (law_read _ lawful_message M HM) as (msg & Em & _).
  exists M, msg, input. split; [by split |]. split; [done |].
  unfold preimage. cbn [cached]. rewrite Ep. cbn [mbind result_bind]. rewrite Eq. cbn [mbind result_bind].
  rewrite Eo. cbn [mbind result_bind]. rewrite Ej. cbn [mbind result_bind]. rewrite Es. cbn [mbind result_bind].
  rewrite Et. cbn [mbind result_bind]. fold M. rewrite Em. cbn [from_option mbind result_bind]. rewrite Ei. done.
Qed.

(** *** What is the same when the messages are *)

Record signs_same (nIn1 nIn2 ht : Z) (tx1 tx2 : CTransaction) : Prop := {
  ss_version : fOverwintered tx1 = fOverwintered tx2 /\ nVersion tx1 = nVersion tx2;
  ss_group : nVersionGroupId tx1 = nVersionGroupId tx2;
  ss_prevouts : anyone_can_pay ht = false -> map prevout (vin tx1) = map prevout (vin tx2);
  ss_sequence : anyone_can_pay ht = false -> hash_single ht = false -> hash_none ht = false ->
                map nSequence (vin tx1) = map nSequence (vin tx2);
  ss_outputs : hash_single ht = false -> hash_none ht = false -> vout tx1 = vout tx2;
  ss_output : hash_single ht = true -> vout tx1 !! Z.to_nat nIn1 = vout tx2 !! Z.to_nat nIn2;
  ss_joinsplits : vjoinsplit tx1 = vjoinsplit tx2 /\ (vjoinsplit tx1 <> [] -> joinSplitPubKey tx1 = joinSplitPubKey tx2);
  ss_spends : map unsigned (vShieldedSpend tx1) = map unsigned (vShieldedSpend tx2);
  ss_shielded : vShieldedOutput tx1 = vShieldedOutput tx2;
  ss_lock : nLockTime tx1 = nLockTime tx2;
  ss_expiry : nExpiryHeight tx1 = nExpiryHeight tx2;
  ss_balance : valueBalance tx1 = valueBalance tx2;
}.

(** The same input, script and amount, or no input. *)
Definition signs_same_input (sc1 sc2 : list Z) (nIn1 nIn2 am1 am2 : Z) (tx1 tx2 : CTransaction) : Prop :=
  (nIn1 = NOT_AN_INPUT /\ nIn2 = NOT_AN_INPUT) \/
  (sc1 = sc2 /\ am1 = am2 /\ exists in1 in2,
     vin tx1 !! Z.to_nat nIn1 = Some in1 /\ vin tx2 !! Z.to_nat nIn2 = Some in2 /\
     prevout in1 = prevout in2 /\ nSequence in1 = nSequence in2).

Lemma header_inj f1 v1 f2 v2 :
  0 <= v1 < 2 ^ 31 -> 0 <= v2 < 2 ^ 31 -> GetHeader f1 v1 = GetHeader f2 v2 -> f1 = f2 /\ v1 = v2.
Proof using.
  intros (_ & H1 & H2)%(header_parts f1) (_ & H3 & H4)%(header_parts f2) E. rewrite E in H1, H2. split; congruence.
Qed.

Lemma same_input sc1 tx1 nIn1 ht1 am1 br1 sc2 tx2 nIn2 ht2 am2 br2 input :
  call_ok sc1 tx1 nIn1 ht1 am1 br1 -> call_ok sc2 tx2 nIn2 ht2 am2 br2 ->
  input_part sc1 tx1 nIn1 am1 = Value input -> input_part sc2 tx2 nIn2 am2 = Value input ->
  signs_same_input sc1 sc2 nIn1 nIn2 am1 am2 tx1 tx2.
Proof using.
  intros H1 H2. unfold input_part.
  assert (nonempty signed_input) as Hne by (unfold signed_input, outpoint, hash256; auto with lawful).
  assert (forall (o : option (list Z)) b, from_option o = Value b -> o = Some b) as Hf by (intros [a |] b E; [by injection E as -> | done]).
  destruct (Z.eqb_spec nIn1 NOT_AN_INPUT) as [E1 | E1], (Z.eqb_spec nIn2 NOT_AN_INPUT) as [E2 | E2]; [by left | ..].
  - destruct (vin tx2 !! _) as [in2 |] eqn:Ei2; [| done]. intros [= <-] E%Hf.
    by destruct (Hne _ _ (input_valid _ _ _ _ _ _ _ H2 Ei2) E).
  - destruct (vin tx1 !! _) as [in1 |] eqn:Ei1; [| done]. intros E%Hf [= <-].
    by destruct (Hne _ _ (input_valid _ _ _ _ _ _ _ H1 Ei1) E).
  - destruct (vin tx1 !! _) as [in1 |] eqn:Ei1; [| done]. destruct (vin tx2 !! _) as [in2 |] eqn:Ei2; [| done].
    intros F1%Hf F2%Hf. right.
    pose proof (ser_inj _ _ _ _ lawful_signed_input (input_valid _ _ _ _ _ _ _ H1 Ei1) (input_valid _ _ _ _ _ _ _ H2 Ei2) F1 F2) as E.
    injection E as Ep Es Ea Eq. split; [done |]. split; [done |]. by exists in1, in2.
Qed.

(** [hashOutputs] determines the output that is signed with SIGHASH_SINGLE. *)
Lemma single_output tx nIn ht h :
  Forall (valid txout_codec) (vout tx) -> 0 <= nIn -> hash_single ht = true -> signed_outputs None tx nIn ht = Value h ->
  (vout tx !! Z.to_nat nIn = None /\ h = zero256) \/
  (exists o b, vout tx !! Z.to_nat nIn = Some o /\ valid txout_codec o /\ ser txout_codec o = Some b /\
     h = blake2b ZCASH_OUTPUTS_HASH_PERSONALIZATION b).
Proof using.
  intros Hv Hn Hs. unfold signed_outputs. rewrite Hs. cbn [negb andb].
  destruct (Z.ltb_spec nIn (Zlen (vout tx))) as [Hlt | Hge]; unfold Zlen in *.
  - destruct (vout tx !! _) as [o |] eqn:Ho; [| done]. pose proof (Forall_lookup_1 _ _ _ _ Hv Ho) as Hvo.
    destruct (law_read _ lawful_txout o Hvo) as (b & E & _). rewrite E. intros [= <-]. right. by exists o, b.
  - intros [= <-]. left. split; [apply lookup_ge_None_2; lia | done].
Qed.

Lemma output_queried v o b :
  v = Some o -> ser txout_codec o = Some b -> (ZCASH_OUTPUTS_HASH_PERSONALIZATION, b) ∈ output_query v.
Proof using. intros -> E. unfold output_query. cbn [mbind option_bind]. rewrite E. left. Qed.

Lemma same_outputs tx1 tx2 nIn1 nIn2 ht h :
  Forall (valid txout_codec) (vout tx1) -> Forall (valid txout_codec) (vout tx2) -> 0 <= nIn1 -> 0 <= nIn2 ->
  output_queries tx1 nIn1 ht ⊆ Q -> output_queries tx2 nIn2 ht ⊆ Q ->
  signed_outputs None tx1 nIn1 ht = Value h -> signed_outputs None tx2 nIn2 ht = Value h ->
  ((hash_single ht = false -> hash_none ht = false -> vout tx1 = vout tx2) /\
   (hash_single ht = true -> vout tx1 !! Z.to_nat nIn1 = vout tx2 !! Z.to_nat nIn2)) \/ broken_among Q.
Proof using.
  intros Hv1 Hv2 Hn1 Hn2. unfold output_queries. intros Q1 Q2 E1 E2. destruct (hash_single ht) eqn:Hs; cbn [negb andb query_if app] in Q1, Q2.
  - destruct (single_output _ _ _ _ Hv1 Hn1 Hs E1) as [[L1 ->] | (o1 & b1 & L1 & V1 & S1 & ->)],
      (single_output _ _ _ _ Hv2 Hn2 Hs E2) as [[L2 F] | (o2 & b2 & L2 & V2 & S2 & F)].
    + left. split; [done |]. by rewrite L1, L2.
    + right. symmetry in F. exact (blake2b_zero _ _ (Q2 _ (output_queried _ _ _ L2 S2)) F).
    + right. exact (blake2b_zero _ _ (Q1 _ (output_queried _ _ _ L1 S1)) F).
    + destruct (blake2b_eq _ _ _ _ (Q1 _ (output_queried _ _ _ L1 S1)) (Q2 _ (output_queried _ _ _ L2 S2)) F)
        as [[_ ->] |]; [left | by right].
      split; [done |]. intros _.
      rewrite L1, L2. f_equal. exact (ser_inj _ _ _ _ lawful_txout V1 V2 S1 S2).
  - destruct (hash_none ht) eqn:Hno; [by left |]. unfold signed_outputs in E1, E2. rewrite Hs, Hno in E1, E2.
    cbn [negb andb query_if app] in Q1, Q2. rewrite app_nil_r in Q1. rewrite app_nil_r in Q2.
    cbn [negb andb cached] in E1, E2. unfold GetOutputsHash in E1, E2. rewrite digest_nil in E1, E2.
    destruct (list_digest txout_codec _ [] [] _ _ _ lawful_txout ltac:(unfold txout_codec; auto with lawful) Hv1 Hv2 eq_refl Q1 Q2 E1 E2)
      as [[Ev _] |]; [by left | by right].
Qed.

Lemma when_same b (P : Prop) q1 q2 g1 g2 h :
  (q1 ⊆ Q -> q2 ⊆ Q -> g1 = Value h -> g2 = Value h -> P \/ broken_among Q) ->
  query_if b q1 ⊆ Q -> query_if b q2 ⊆ Q ->
  when_hash b g1 = Value h -> when_hash b g2 = Value h -> (b = true -> P) \/ broken_among Q.
Proof using. destruct b; cbn [when_hash query_if]; intros H Q1 Q2 E1 E2; [destruct (H Q1 Q2 E1 E2); auto | by left]. Qed.

Section Fields.
Context (tx1 tx2 : CTransaction) (L1 : lists_valid tx1) (L2 : lists_valid tx2) (h : list Z).

Lemma same_prevouts :
  list_query outpoint ZCASH_PREVOUTS_HASH_PERSONALIZATION [] (map prevout (vin tx1)) ⊆ Q ->
  list_query outpoint ZCASH_PREVOUTS_HASH_PERSONALIZATION [] (map prevout (vin tx2)) ⊆ Q ->
  GetPrevoutHash tx1 = Value h -> GetPrevoutHash tx2 = Value h ->
  map prevout (vin tx1) = map prevout (vin tx2) \/ broken_among Q.
Proof using L1 L2.
  intros Q1 Q2. unfold GetPrevoutHash. rewrite !digest_nil. intros F1 F2.
  destruct (list_digest outpoint _ [] [] _ _ _ lawful_outpoint ltac:(unfold outpoint, hash256; auto with lawful)
    (prevouts_valid _ (lv_vin _ L1)) (prevouts_valid _ (lv_vin _ L2)) eq_refl Q1 Q2 F1 F2) as [[] |]; auto.
Qed.

Lemma same_sequences :
  list_query uint32 ZCASH_SEQUENCE_HASH_PERSONALIZATION [] (map nSequence (vin tx1)) ⊆ Q ->
  list_query uint32 ZCASH_SEQUENCE_HASH_PERSONALIZATION [] (map nSequence (vin tx2)) ⊆ Q ->
  GetSequenceHash tx1 = Value h -> GetSequenceHash tx2 = Value h ->
  map nSequence (vin tx1) = map nSequence (vin tx2) \/ broken_among Q.
Proof using L1 L2.
  intros Q1 Q2. unfold GetSequenceHash. rewrite !digest_nil. intros F1 F2.
  destruct (list_digest uint32 _ [] [] _ _ _ lawful_uint32 nonempty_uint32
    (sequences_valid _ (lv_vin _ L1)) (sequences_valid _ (lv_vin _ L2)) eq_refl Q1 Q2 F1 F2) as [[] |]; auto.
Qed.

Lemma same_joinsplits :
  fOverwintered tx1 = fOverwintered tx2 -> nVersion tx1 = nVersion tx2 ->
  query_if (negb (Zlen (vjoinsplit tx1) =? 0))
    (list_query (joinsplit (useGroth (fOverwintered tx1) (nVersion tx1))) ZCASH_JOINSPLITS_HASH_PERSONALIZATION
       (joinSplitPubKey tx1) (vjoinsplit tx1)) ⊆ Q ->
  query_if (negb (Zlen (vjoinsplit tx2) =? 0))
    (list_query (joinsplit (useGroth (fOverwintered tx2) (nVersion tx2))) ZCASH_JOINSPLITS_HASH_PERSONALIZATION
       (joinSplitPubKey tx2) (vjoinsplit tx2)) ⊆ Q ->
  when_hash (negb (Zlen (vjoinsplit tx1) =? 0)) (GetJoinSplitsHash tx1) = Value h ->
  when_hash (negb (Zlen (vjoinsplit tx2) =? 0)) (GetJoinSplitsHash tx2) = Value h ->
  (vjoinsplit tx1 = vjoinsplit tx2 /\ (vjoinsplit tx1 <> [] -> joinSplitPubKey tx1 = joinSplitPubKey tx2)) \/ broken_among Q.
Proof using L1 L2.
  intros Ef Ev. pose proof (lv_js _ L2) as V2. rewrite <-Ef, <-Ev in V2. unfold GetJoinSplitsHash. rewrite <-Ef, <-Ev.
  apply list_digest_when; [apply lawful_joinsplit | unfold joinsplit; auto with lawful | apply L1 | exact V2 |].
  by rewrite (lv_key _ L1), (lv_key _ L2).
Qed.

Lemma same_spends :
  query_if (negb (Zlen (vShieldedSpend tx1) =? 0))
    (list_query spend_signed ZCASH_SHIELDED_SPENDS_HASH_PERSONALIZATION [] (map unsigned (vShieldedSpend tx1))) ⊆ Q ->
  query_if (negb (Zlen (vShieldedSpend tx2) =? 0))
    (list_query spend_signed ZCASH_SHIELDED_SPENDS_HASH_PERSONALIZATION [] (map unsigned (vShieldedSpend tx2))) ⊆ Q ->
  when_hash (negb (Zlen (vShieldedSpend tx1) =? 0)) (GetShieldedSpendsHash tx1) = Value h ->
  when_hash (negb (Zlen (vShieldedSpend tx2) =? 0)) (GetShieldedSpendsHash tx2) = Value h ->
  map unsigned (vShieldedSpend tx1) = map unsigned (vShieldedSpend tx2) \/ broken_among Q.
Proof using L1 L2.
  assert (forall l, Zlen l = Zlen (map unsigned l)) as Hz by (intros l; unfold Zlen; by rewrite length_map).
  rewrite (Hz (vShieldedSpend tx1)), (Hz (vShieldedSpend tx2)). intros Q1 Q2. unfold GetShieldedSpendsHash. rewrite !digest_nil, (write_unsigned (vShieldedSpend tx1)), (write_unsigned (vShieldedSpend tx2)).
  intros F1 F2.
  destruct (list_digest_when spend_signed _ [] [] _ _ _ lawful_spend_signed
    ltac:(unfold spend_signed, hash256; auto with lawful)
    (unsigned_valid _ (lv_spends _ L1)) (unsigned_valid _ (lv_spends _ L2)) eq_refl Q1 Q2 F1 F2) as [[] |]; auto.
Qed.

Lemma same_shielded :
  query_if (negb (Zlen (vShieldedOutput tx1) =? 0))
    (list_query output ZCASH_SHIELDED_OUTPUTS_HASH_PERSONALIZATION [] (vShieldedOutput tx1)) ⊆ Q ->
  query_if (negb (Zlen (vShieldedOutput tx2) =? 0))
    (list_query output ZCASH_SHIELDED_OUTPUTS_HASH_PERSONALIZATION [] (vShieldedOutput tx2)) ⊆ Q ->
  when_hash (negb (Zlen (vShieldedOutput tx1) =? 0)) (GetShieldedOutputsHash tx1) = Value h ->
  when_hash (negb (Zlen (vShieldedOutput tx2) =? 0)) (GetShieldedOutputsHash tx2) = Value h ->
  vShieldedOutput tx1 = vShieldedOutput tx2 \/ broken_among Q.
Proof using L1 L2.
  intros Q1 Q2. unfold GetShieldedOutputsHash. rewrite !digest_nil. intros F1 F2.
  destruct (list_digest_when output _ [] [] _ _ _ lawful_output ltac:(unfold output, hash256; auto with lawful)
    (lv_outputs _ L1) (lv_outputs _ L2) eq_refl Q1 Q2 F1 F2) as [[] |]; auto.
Qed.

End Fields.

Lemma subseteq_seven (a b c d e f g : list query) :
  a ++ b ++ c ++ d ++ e ++ f ++ g ⊆ Q -> a ⊆ Q /\ b ⊆ Q /\ c ⊆ Q /\ d ⊆ Q /\ e ⊆ Q /\ f ⊆ Q /\ g ⊆ Q.
Proof using. intros H. repeat split; intros x Hx; apply H; rewrite !elem_of_app; tauto. Qed.

(** The same parts stand for the same contents. *)
Lemma same_shapes sc1 tx1 nIn1 am1 sc2 tx2 nIn2 am2 ht br1 br2 M in1 in2 :
  lists_valid tx1 -> lists_valid tx2 -> 0 <= nIn1 -> 0 <= nIn2 ->
  hashed sc1 tx1 nIn1 ht am1 br1 ⊆ Q -> hashed sc2 tx2 nIn2 ht am2 br2 ⊆ Q ->
  shape sc1 tx1 nIn1 ht am1 M in1 -> shape sc2 tx2 nIn2 ht am2 M in2 -> signs_same nIn1 nIn2 ht tx1 tx2 \/ broken_among Q.
Proof using.
  unfold hashed. intros L1 L2 Hn1 Hn2 (QP1 & QQ1 & QO1 & QJ1 & QD1 & QT1 & _)%subseteq_seven (QP2 & QQ2 & QO2 & QJ2 & QD2 & QT2 & _)%subseteq_seven [P1 Q1 O1 J1 D1 T1 H1 G1 K1 X1 B1 _ _ _] [P2 Q2 O2 J2 D2 T2 H2 G2 K2 X2 B2 _ _ _].
  rewrite H1 in H2. destruct (header_inj _ _ _ _ (lv_version _ L1) (lv_version _ L2) H2) as [Ef Ev].
  destruct (when_same _ _ _ _ _ _ _ (same_prevouts _ _ L1 L2 _) QP1 QP2 P1 P2) as [Hp |]; [| by right].
  destruct (when_same _ _ _ _ _ _ _ (same_sequences _ _ L1 L2 _) QQ1 QQ2 Q1 Q2) as [Hq |]; [| by right].
  destruct (same_outputs tx1 tx2 nIn1 nIn2 ht _ (lv_vout _ L1) (lv_vout _ L2) Hn1 Hn2 QO1 QO2 O1 O2) as [[Ho1 Ho2] |]; [| by right].
  destruct (same_joinsplits _ _ L1 L2 _ Ef Ev QJ1 QJ2 J1 J2) as [Hj |]; [| by right].
  destruct (same_spends _ _ L1 L2 _ QD1 QD2 D1 D2) as [Hs |]; [| by right].
  destruct (same_shielded _ _ L1 L2 _ QT1 QT2 T1 T2) as [Ht |]; [| by right].
  left. split; try done; try congruence.
  - intros E. apply Hp. by rewrite E.
  - intros E1 E2 E3. apply Hq. by rewrite E1, E2, E3.
Qed.

End Among.

(** [C24] What a signature commits to.  For two calls of [SignatureHash] on
    transactions in the Overwinter or Sapling format, with any hash types and
    indices: if the hashes are equal, then the messages that these two calls give to
    BLAKE2b, listed by [hashed], hold two different ones with one digest or one
    with the digest zero, or the calls have the same branch id and hash type and everything
    that the hash type covers is the same: always the version, the lock time, the
    expiry height, the value balance, the join splits, the shielded outputs and
    the shielded spends but for their signatures, and the input with its script and amount;
    the inputs unless ANYONECANPAY; their sequence numbers, and all of the outputs, unless
    SINGLE or NONE; the output at the same index with SINGLE. *)
Theorem signature_hash_commits sc1 tx1 nIn1 ht1 am1 br1 sc2 tx2 nIn2 ht2 am2 br2 h :
  call_ok sc1 tx1 nIn1 ht1 am1 br1 -> call_ok sc2 tx2 nIn2 ht2 am2 br2 ->
  fOverwintered tx1 = true -> fOverwintered tx2 = true ->
  SignatureHash sc1 tx1 nIn1 ht1 am1 br1 None = Value h -> SignatureHash sc2 tx2 nIn2 ht2 am2 br2 None = Value h ->
  (br1 = br2 /\ ht1 = ht2 /\ signs_same nIn1 nIn2 ht1 tx1 tx2 /\ signs_same_input sc1 sc2 nIn1 nIn2 am1 am2 tx1 tx2) \/
  broken_among (hashed sc1 tx1 nIn1 ht1 am1 br1 ++ hashed sc2 tx2 nIn2 ht2 am2 br2).
Proof using HB.
  intros C1 C2 O1 O2. rewrite (hash_of_message _ _ _ _ _ _ C1 O1), (hash_of_message _ _ _ _ _ _ C2 O2).
  destruct (preimage_shape _ _ _ _ _ _ C1) as (M1 & msg1 & in1 & S1 & E1 & P1).
  destruct (preimage_shape _ _ _ _ _ _ C2) as (M2 & msg2 & in2 & S2 & E2 & P2).
  set (Q := hashed sc1 tx1 nIn1 ht1 am1 br1 ++ hashed sc2 tx2 nIn2 ht2 am2 br2).
  assert (hashed sc1 tx1 nIn1 ht1 am1 br1 ⊆ Q) as Q1 by apply list_subseteq_app_l, (reflexivity _).
  assert (hashed sc2 tx2 nIn2 ht2 am2 br2 ⊆ Q) as Q2 by apply list_subseteq_app_r, (reflexivity _).
  pose proof Q1 as (_ & _ & _ & _ & _ & _ & QM1)%subseteq_seven. pose proof Q2 as (_ & _ & _ & _ & _ & _ & QM2)%subseteq_seven.
  rewrite P1 in *. rewrite P2 in *. cbn [mbind result_bind]. intros F1 F2. rewrite <-F2 in F1. injection F1 as F. clear F2 h.
  destruct (blake2b_eq Q _ _ _ _ (QM1 _ (list_elem_of_here _ _)) (QM2 _ (list_elem_of_here _ _)) F) as [[Eb Em] |]; [| by right].
  assert (br1 = br2) as <-.
  { apply app_inv_head in Eb. refine (ser_inj uint32 _ _ _ lawful_uint32 (co_branch _ _ _ _ _ _ C1) (co_branch _ _ _ _ _ _ C2) eq_refl _).
    cbn [uint32 ser]. by rewrite Eb. }
  destruct (law_read _ lawful_message M1 (sh_valid _ _ _ _ _ _ _ S1)) as (b1 & E1' & R1).
  destruct (law_read _ lawful_message M2 (sh_valid _ _ _ _ _ _ _ S2)) as (b2 & E2' & R2).
  assert (b1 = msg1) as -> by congruence. assert (b2 = msg2) as -> by congruence.
  specialize (R1 in1). rewrite Em, R2 in R1. injection R1 as -> ->.
  assert (ht1 = ht2) as <- by (rewrite <-(sh_type _ _ _ _ _ _ _ S1); apply S2).
  destruct (same_shapes Q _ _ _ _ _ _ _ _ _ _ _ _ _ _ (valid_lists _ (co_tx _ _ _ _ _ _ C1)) (valid_lists _ (co_tx _ _ _ _ _ _ C2))
    (index_nonneg _ _ _ _ _ _ C1) (index_nonneg _ _ _ _ _ _ C2) Q1 Q2 S1 S2) as [Hs |]; [left | by right].
  split; [done |]. split; [done |]. split; [done |].
  exact (same_input _ _ _ _ _ _ _ _ _ _ _ _ _ C1 C2 (sh_input _ _ _ _ _ _ _ S1) (sh_input _ _ _ _ _ _ _ S2)).
Qed.

End Commits.
End Commit.

(** ** The cache, and the checker of a transaction *)

Module Checks.
Import SigHash Commit.

(** [CPubKey::GetLen]. *)
Definition GetLen (chHeader : Z) : Z :=
  if (chHeader =? 2) || (chHeader =? 3) then 33
  else if (chHeader =? 4) || (chHeader =? 6) || (chHeader =? 7) then 65
  else 0.
(** The bytes of a key from [begin] to [end], none for an invalid one. *)
Definition CPubKey (vch : list Z) : list Z :=
  let len := match vch with [] => 0 | b :: _ => GetLen b end in
  if negb (len =? 0) && (len =? Zlen vch) then vch else [].
Definition IsValid (pubkey : list Z) : bool := 0 <? Zlen pubkey.

Section Checks.
Context {BL : Blake2b} {HS : Hashes} {HB : LawfulBlake2b}.
(** [CPubKey::Verify] on a key, a hash and a signature. *)
Context (Verify : list Z -> list Z -> list Z -> bool).

(** [TransactionSignatureChecker::CheckSig]. *)
Definition tx_CheckSig (txTo : CTransaction) (nIn amount : Z) (txdata : option PrecomputedTransactionData)
    (vchSigIn vchPubKey scriptCode : list Z) (consensusBranchId : Z) : result bool :=
  let pubkey := CPubKey vchPubKey in
  if negb (IsValid pubkey) then Value false
  else
    match last vchSigIn with
    | None => Value false
    | Some nHashType =>
        match SignatureHash scriptCode txTo nIn nHashType amount consensusBranchId txdata with
        | Value sighash => Value (Verify pubkey sighash (removelast vchSigIn))
        | Logic_error => Value false
        | Failure => Failure
        end
    end.

(** *** The cache *)

Lemma bind_value {A B} (r : result A) (k : A -> result B) b :
  r ≫= k = Value b -> exists a, r = Value a /\ k a = Value b.
Proof using. destruct r; [eauto | done | done]. Qed.

Lemma preimage_cached tx c sc nIn ht am :
  precompute tx = Value c -> preimage (Some c) sc tx nIn ht am = preimage None sc tx nIn ht am.
Proof using.
  unfold precompute. intros (p & Ep & (q & Eq & (o & Eo & (j & Ej & (s & Es & (t & Et & [= <-])%bind_value)%bind_value)%bind_value)%bind_value)%bind_value)%bind_value.
  unfold preimage, signed_outputs. cbn [cached hashPrevouts hashSequence hashOutputs hashJoinSplits hashShieldedSpends hashShieldedOutputs].
  by rewrite Ep, Eq, Eo, Ej, Es, Et.
Qed.

Lemma hash_cached tx c sc nIn ht am br :
  precompute tx = Value c -> SignatureHash sc tx nIn ht am br (Some c) = SignatureHash sc tx nIn ht am br None.
Proof using. intros Hp. unfold SignatureHash. by rewrite (preimage_cached tx c) by done. Qed.

Lemma precompute_value tx : valid transaction tx -> exists c, precompute tx = Value c.
Proof using HB.
  intros Hl%valid_lists. unfold precompute.
  destruct (gives_list_nil outpoint ZCASH_PREVOUTS_HASH_PERSONALIZATION _ lawful_outpoint (prevouts_valid _ (lv_vin _ Hl))) as (p & Ep & _).
  destruct (gives_list_nil uint32 ZCASH_SEQUENCE_HASH_PERSONALIZATION _ lawful_uint32 (sequences_valid _ (lv_vin _ Hl))) as (q & Eq & _).
  destruct (gives_list_nil _ ZCASH_OUTPUTS_HASH_PERSONALIZATION _ lawful_txout (lv_vout _ Hl)) as (o & Eo & _).
  destruct (gives_list _ ZCASH_JOINSPLITS_HASH_PERSONALIZATION (joinSplitPubKey tx) _ (lawful_joinsplit _) (lv_js _ Hl)) as (j & Ej & _).
  destruct (gives_list_nil _ ZCASH_SHIELDED_SPENDS_HASH_PERSONALIZATION _ lawful_spend_signed (unsigned_valid _ (lv_spends _ Hl))) as (s & Es & _).
  destruct (gives_list_nil _ ZCASH_SHIELDED_OUTPUTS_HASH_PERSONALIZATION _ lawful_output (lv_outputs _ Hl)) as (t & Et & _).
  rewrite <-write_unsigned in Es. exists (Precomputed p q o j s t).
  unfold GetPrevoutHash, GetSequenceHash, GetOutputsHash, GetJoinSplitsHash, GetShieldedSpendsHash, GetShieldedOutputsHash.
  rewrite Ep, Eq. cbn [mbind result_bind]. by rewrite Eo, Ej, Es, Et.
Qed.

(** *** The Sprout serializer *)

Lemma serialize_from_value f first count :
  (forall i, first <= i < first + Z.of_nat count -> exists b, f i = Value b) -> exists b, serialize_from f first count = Value b.
Proof using.
  revert first. induction count as [| count IH]; intros first Hf; [by exists [] |]. cbn [serialize_from].
  destruct (Hf first ltac:(lia)) as [a ->], (IH (first + 1)) as [b Eb]; [intros i Hi; apply Hf; lia |].
  cbn [mbind result_bind]. rewrite Eb. by exists (a ++ b).
Qed.

Lemma input_value sc tx nIn ht i :
  Forall (valid txin) (vin tx) -> Zlen (vin tx) <= MAX_SIZE -> 0 <= nIn < Zlen (vin tx) -> 0 <= i < Zlen (vin tx) ->
  exists b, SerializeInput sc tx nIn ht i = Value b.
Proof using.
  intros Hv Hm Hn Hi. unfold SerializeInput. set (k := if anyone_can_pay ht then nIn else i).
  assert (0 <= k < Zlen (vin tx)) as Hk by (unfold k; destruct (anyone_can_pay ht); lia).
  destruct (lookup_lt_is_Some_2 (vin tx) (Z.to_nat k)) as [inp Ho]; [unfold Zlen in Hk; lia |]. rewrite Ho.
  destruct (Forall_lookup_1 _ _ _ _ Hv Ho) as [Hp _]. destruct (law_read _ lawful_outpoint _ Hp) as (b & -> & _).
  cbn [from_option mbind result_bind]. rewrite (proj2 (Z.eqb_neq k NOT_AN_INPUT)) by (unfold NOT_AN_INPUT, MAX_SIZE in *; lia).
  destruct (k =? nIn); cbn [negb]; eexists; reflexivity.
Qed.

Lemma output_value tx nIn ht i :
  Forall (valid txout_codec) (vout tx) -> 0 <= i -> (hash_single ht = true -> i <> nIn \/ i < Zlen (vout tx)) ->
  (hash_single ht = false -> i < Zlen (vout tx)) -> exists b, SerializeOutput tx nIn ht i = Value b.
Proof using.
  intros Hv Hi Hs Hns. unfold SerializeOutput. destruct (hash_single ht && negb (i =? nIn)) eqn:E; [by eexists |].
  assert (i < Zlen (vout tx)) as Hlt.
  { destruct (hash_single ht); [| by apply Hns]. destruct (Z.eqb_spec i nIn); [| done]. by destruct (Hs eq_refl). }
  destruct (lookup_lt_is_Some_2 (vout tx) (Z.to_nat i)) as [o Ho]; [unfold Zlen in Hlt; lia |]. rewrite Ho.
  destruct (law_read _ lawful_txout o (Forall_lookup_1 _ _ _ _ Hv Ho)) as (b & -> & _). by exists b.
Qed.

Lemma valid_sizes tx : valid transaction tx -> Zlen (vin tx) <= MAX_SIZE /\ Zlen (vout tx) <= MAX_SIZE /\ Zlen (vjoinsplit tx) <= MAX_SIZE.
Proof using.
  intros Hv. unfold transaction in Hv. destruct Hv as [Hh [Hg Hv]]. cbn [fst snd] in *. cbv zeta in Hv.
  destruct (_ && _); [done |]. destruct Hv as (H1 & H2 & H3 & H4 & H5 & H6 & H7 & H8 & _).
  split; [apply H1 |]. split; [apply H2 |]. refine (valid_when (fun l => Zlen l <= MAX_SIZE) _ _ _ _ _ _ H8); [by intros a [_ ?] | done].
Qed.

Lemma sprout_value sc tx nIn ht :
  valid transaction tx -> fOverwintered tx = false -> 0 <= nIn < Zlen (vin tx) ->
  (hash_single ht = true -> nIn < Zlen (vout tx)) -> exists b, SerializeSprout sc tx nIn ht = Value b.
Proof using.
  intros Hv Ho Hn Hs. pose proof (valid_lists tx Hv) as Hl. destruct (valid_sizes tx Hv) as (M1 & M2 & M3). unfold SerializeSprout.
  destruct (serialize_from_value (SerializeInput sc tx nIn ht) 0 (Z.to_nat (if anyone_can_pay ht then 1 else Zlen (vin tx)))) as [ins Ei].
  { intros i Hi. apply input_value; [apply Hl | done | done |]. destruct (anyone_can_pay ht); lia. }
  rewrite Ei. cbn [mbind result_bind].
  match goal with |- context [serialize_from (SerializeOutput tx nIn ht) 0 ?k] =>
    destruct (serialize_from_value (SerializeOutput tx nIn ht) 0 k) as [outs Eo] end.
  { intros i Hi. apply output_value; [apply Hl | lia | |].
    - intros Hsg. pose proof (Hs Hsg). right. rewrite Hsg in Hi. unfold MAX_SIZE in *.
      rewrite u32_id in Hi by (unfold is_u; lia). destruct (hash_none ht); lia.
    - intros Hsg. rewrite Hsg in Hi. destruct (hash_none ht); lia. }
  rewrite Eo. cbn [mbind result_bind]. destruct (2 <=? nVersion tx); [| by eexists].
  destruct (law_read _ (lawful_vec _ (lawful_joinsplit false)) (vjoinsplit tx)) as (b & -> & _); [| by eexists].
  split; [| done]. replace false with (useGroth (fOverwintered tx) (nVersion tx)); [apply Hl |].
  unfold useGroth. rewrite Ho. by rewrite (proj1 (proj2 (header_parts false _ (lv_version _ Hl)))).
Qed.

(** *** The checker answers *)

(** The hash of a call for an input is defined, but for a Sprout transaction signed
    with SIGHASH_SINGLE at an index with no output. *)
Lemma hash_defined sc tx nIn ht am br :
  call_ok sc tx nIn ht am br -> nIn <> NOT_AN_INPUT ->
  (exists h, SignatureHash sc tx nIn ht am br None = Value h) \/
  (SignatureHash sc tx nIn ht am br None = Logic_error /\ fOverwintered tx = false /\ hash_single ht = true /\ Zlen (vout tx) <= nIn).
Proof using HB.
  intros Hc Hne. destruct (co_index _ _ _ _ _ _ Hc) as [Hi |]; [| done]. destruct (fOverwintered tx) eqn:Ho.
  - left. rewrite (hash_of_message _ _ _ _ _ _ Hc Ho). destruct (preimage_shape _ _ _ _ _ _ Hc) as (M & msg & inp & _ & _ & ->). by eexists.
  - unfold SignatureHash, SignatureHashVersion. rewrite Ho, (proj2 (Z.leb_gt (Zlen (vin tx)) nIn)) by lia. cbn [andb].
    destruct (hash_single ht && (Zlen (vout tx) <=? nIn)) eqn:Hs.
    + right. apply andb_true_iff in Hs as [? ?%Z.leb_le]. done.
    + left. destruct (sprout_value sc tx nIn ht (co_tx _ _ _ _ _ _ Hc) Ho Hi) as [b ->]; [| by eexists].
      intros Hsg. rewrite Hsg in Hs. cbn [andb] in Hs. by apply Z.leb_gt in Hs.
Qed.

(** A signature that is accepted. *)
Definition signed_by (tx : CTransaction) (nIn am : Z) (vchSigIn vchPubKey sc : list Z) (br : Z) : Prop :=
  exists sig ht h, vchSigIn = sig ++ [ht] /\ Zlen vchPubKey = GetLen (rd vchPubKey 0) /\ vchPubKey <> [] /\
    SignatureHash sc tx nIn ht am br None = Value h /\ Verify vchPubKey h sig = true.

Lemma key_bytes pk : IsValid (CPubKey pk) = true <-> Zlen pk = GetLen (rd pk 0) /\ pk <> [].
Proof using.
  unfold IsValid, CPubKey. destruct pk as [| b pk]; [by vm_compute; split; [| intros []] |].
  assert (rd (b :: pk) 0 = b) as -> by done. set (k := b :: pk).
  assert (0 < Zlen k) as Hk by (unfold k, Zlen; cbn [length]; lia). rewrite Z.ltb_lt.
  destruct (Z.eqb_spec (GetLen b) 0) as [E | E], (Z.eqb_spec (GetLen b) (Zlen k)) as [E' | E']; cbn [negb andb].
  3:{ split; [intros _; by split | done]. }
  all: split; [unfold Zlen; cbn [length]; lia | intros [? _]; lia].
Qed.

Lemma key_valid pk : IsValid (CPubKey pk) = true -> CPubKey pk = pk.
Proof using. unfold IsValid, CPubKey. by destruct (_ && _). Qed.

(** [C25] The check of a signature on a transaction answers: for an input of a valid
    transaction it returns, no access or assertion failing, and the same with the
    hashes that were computed once for the transaction as without.  The answer
    is yes exactly when the key has the length its first byte says, and the
    signature without its last byte verifies, with it, the hash of the
    transaction of the type that the last byte is. *)
Theorem check_sig_exact tx nIn am sig pk sc br :
  valid transaction tx -> 0 <= nIn < Zlen (vin tx) -> valid bytevec sc -> is_s64 am -> is_u 32 br -> bytes_ok sig ->
  exists c b, precompute tx = Value c /\
    tx_CheckSig tx nIn am None sig pk sc br = Value b /\ tx_CheckSig tx nIn am (Some c) sig pk sc br = Value b /\
    (b = true <-> signed_by tx nIn am sig pk sc br).
Proof using HB.
  intros Hv Hn Hsc Ham Hbr Hsig. destruct (precompute_value tx Hv) as [c Hc].
  assert (tx_CheckSig tx nIn am (Some c) sig pk sc br = tx_CheckSig tx nIn am None sig pk sc br) as Ec.
  { unfold tx_CheckSig. destruct (negb _), (last sig); try done. by rewrite (hash_cached tx c). }
  exists c. enough (exists b, tx_CheckSig tx nIn am None sig pk sc br = Value b /\ (b = true <-> signed_by tx nIn am sig pk sc br)) as (b & Eb & Hb).
  { exists b. by rewrite Ec. }
  clear c Hc Ec. unfold tx_CheckSig, signed_by. destruct (IsValid (CPubKey pk)) eqn:Hk; cbn [negb].
  2:{ exists false. split; [done |]. split; [done |]. intros (s & ht & h & _ & Hl & Hne & _).
      by rewrite (proj2 (key_bytes pk) (conj Hl Hne)) in Hk. }
  rewrite (key_valid pk Hk). apply key_bytes in Hk as [Hk1 Hk2].
  destruct (decide (sig = [])) as [-> | Hne].
  { exists false. split; [done |]. split; [done |]. intros (s & ht & h & E & _). by destruct s. }
  destruct (exists_last Hne) as (s & ht & ->). rewrite last_snoc, removelast_last.
  assert (call_ok sc tx nIn ht am br) as Hcall.
  { split; try done; [by left |]. apply bytes_ok_app in Hsig as [_ Hb%Forall_inv]. unfold byte_ok in Hb. unfold is_u. lia. }
  assert (nIn <> NOT_AN_INPUT) as Hnot by (pose proof (valid_sizes tx Hv); unfold MAX_SIZE, NOT_AN_INPUT in *; lia).
  destruct (hash_defined _ _ _ _ _ _ Hcall Hnot) as [[h Eh] | [Eh _]]; rewrite Eh; eexists; (split; [reflexivity |]).
  - split; [intros Hver; by exists s, ht, h |]. intros (s' & ht' & h' & [-> [= ->]]%app_inj_tail & _ & _ & Eh' & Hver). congruence.
  - split; [done |]. intros (s' & ht' & h' & [-> [= ->]]%app_inj_tail & _ & _ & Eh' & Hver). congruence.
Qed.

End Checks.

(** *** Witnesses *)

(** A digest that keeps the last byte of the message. *)
#[local] Instance toy_blake2b : Blake2b := {| blake2b p msg := u8 (default 0 (last msg)) :: replicate 31 1 |}.
#[local] Instance toy_blake2b_lawful : LawfulBlake2b.
Proof. split; [done |]. intros p msg. constructor; [apply u8_range | apply bytes_ok_replicate; unfold byte_ok; lia]. Qed.
#[local] Instance toy_sha : Hashes := {| ripemd160 msg := msg; sha1 msg := msg; sha256 msg := msg |}.

Lemma call_example : call_ok [0x51] tx_example 0 1 1000 0x76b809bb.
Proof.
  split; [apply tx_example_valid | | by left | unfold is_u; lia | unfold is_s64; lia | unfold is_u; lia].
  split; [repeat (constructor; [unfold byte_ok; lia |]); constructor | done].
Qed.

Lemma signature_hash_commits_witness :
  signs_same 0 0 1 tx_example tx_example \/
  let q := hashed [0x51] tx_example 0 1 1000 0x76b809bb in broken_among (q ++ q).
Proof.
  destruct (hash_defined [0x51] tx_example 0 1 1000 0x76b809bb call_example ltac:(done)) as [[h E] | (_ & E & _)]; [| discriminate E].
  destruct (signature_hash_commits [0x51] tx_example 0 1 1000 0x76b809bb [0x51] tx_example 0 1 1000 0x76b809bb h
    call_example call_example eq_refl eq_refl E E) as [(_ & _ & H & _) | H]; [by left | by right].
Defined.

Lemma check_sig_exact_witness :
  let V := fun pk h sig => bool_decide (sig = [rd h 0]) in
  exists c b, precompute tx_example = Value c /\
    tx_CheckSig V tx_example 0 1000 None [9; 1] (2 :: replicate 32 0) [0x51] 0x76b809bb = Value b /\
    tx_CheckSig V tx_example 0 1000 (Some c) [9; 1] (2 :: replicate 32 0) [0x51] 0x76b809bb = Value b /\
    (b = true <-> signed_by V tx_example 0 1000 [9; 1] (2 :: replicate 32 0) [0x51] 0x76b809bb).
Proof.
  intros V. destruct call_example. apply (check_sig_exact V); try done.
  repeat (constructor; [unfold byte_ok; lia |]); constructor.
Defined.

End Checks.
