(* ===== verification/Upgrades.v ===== *)
(** * Network upgrades (src/src/consensus/upgrades.cpp, consensus/params.h)

    Which rules apply at a height, and the branch id that signatures commit to.
    A failed assertion is [None]. *)
From S2P Require Import Prelude.
Local Open Scope Z_scope.

(** [Consensus::UpgradeIndex]. *)
Definition BASE_SPROUT : Z := 0.
Definition UPGRADE_TESTDUMMY : Z := 1.
Definition UPGRADE_OVERWINTER : Z := 2.
Definition UPGRADE_SAPLING : Z := 3.
Definition MAX_NETWORK_UPGRADES : Z := 4.
Definition NO_ACTIVATION_HEIGHT : Z := -1.

Inductive UpgradeState := UPGRADE_DISABLED | UPGRADE_PENDING | UPGRADE_ACTIVE.
#[export] Instance UpgradeState_eq_dec : EqDecision UpgradeState.
Proof. solve_decision. Defined.

(** [NetworkUpgradeInfo[idx].nBranchId]. *)
Definition branch_ids : list Z := [0; 0x74736554; 0x5ba81b19; 0x76b809bb].
Definition NSPV_BRANCHID : Z := 0x76b809bb.

Section Params.
(** [params.vUpgrades[idx].nActivationHeight]. *)
Context (activation : Z -> Z).

Definition NetworkUpgradeState (nHeight idx : Z) : option UpgradeState :=
  if negb (0 <=? nHeight) || negb ((BASE_SPROUT <=? idx) && (idx <? MAX_NETWORK_UPGRADES)) then None
  else
    let nActivationHeight := activation idx in
    Some (if nActivationHeight =? NO_ACTIVATION_HEIGHT then UPGRADE_DISABLED
          else if nActivationHeight <=? nHeight then UPGRADE_ACTIVE
          else UPGRADE_PENDING).

Definition NetworkUpgradeActive (nHeight idx : Z) : option bool :=
  s ← NetworkUpgradeState nHeight idx; Some (bool_decide (s = UPGRADE_ACTIVE)).

(** The loop of [CurrentEpoch], downwards from [idx]. *)
Fixpoint epoch_from (nHeight : Z) (k : nat) : option Z :=
  match k with
  | O => Some BASE_SPROUT
  | S k => active ← NetworkUpgradeActive nHeight (Z.of_nat k); if (active : bool) then Some (Z.of_nat k) else epoch_from nHeight k
  end.
Definition CurrentEpoch (nHeight : Z) : option Z := epoch_from nHeight (Z.to_nat MAX_NETWORK_UPGRADES).

Definition CurrentEpochBranchId (superlite : bool) (nHeight : Z) : option Z :=
  if superlite then Some NSPV_BRANCHID else e ← CurrentEpoch nHeight; Some (rd branch_ids (Z.to_nat e)).

Definition IsConsensusBranchId (branchId : Z) : bool := existsb (Z.eqb (u32 branchId)) branch_ids.

Definition IsActivationHeight (nHeight idx : Z) : option bool :=
  if negb ((BASE_SPROUT <=? idx) && (idx <? MAX_NETWORK_UPGRADES)) then None
  else Some (if idx =? BASE_SPROUT then false else (0 <=? nHeight) && (nHeight =? activation idx)).

Definition IsActivationHeightForAnyUpgrade (nHeight : Z) : bool :=
  if nHeight <? 0 then false
  else existsb (fun idx => nHeight =? activation idx) [UPGRADE_TESTDUMMY; UPGRADE_OVERWINTER; UPGRADE_SAPLING].

(** The loop of [NextEpoch]. *)
Fixpoint pending_from (nHeight : Z) (l : list Z) : option Z :=
  match l with
  | [] => None
  | idx :: l =>
      if bool_decide (NetworkUpgradeState nHeight idx = Some UPGRADE_PENDING) then Some idx else pending_from nHeight l
  end.
Definition NextEpoch (nHeight : Z) : option Z :=
  if nHeight <? 0 then None else pending_from nHeight [UPGRADE_TESTDUMMY; UPGRADE_OVERWINTER; UPGRADE_SAPLING].
Definition NextActivationHeight (nHeight : Z) : option Z := idx ← NextEpoch nHeight; Some (activation idx).

(** ** Theorems *)

Lemma upgrade_active nHeight idx :
  0 <= nHeight -> 0 <= idx < MAX_NETWORK_UPGRADES ->
  NetworkUpgradeActive nHeight idx = Some (bool_decide (activation idx <> NO_ACTIVATION_HEIGHT /\ activation idx <= nHeight)).
Proof using.
  intros Hn Hi. unfold NetworkUpgradeActive, NetworkUpgradeState, BASE_SPROUT.
  rewrite (proj2 (Z.leb_le 0 nHeight)), (proj2 (Z.leb_le 0 idx)), (proj2 (Z.ltb_lt idx MAX_NETWORK_UPGRADES)) by lia.
  cbn [negb andb orb mbind option_bind]. f_equal. apply bool_decide_ext.
  destruct (Z.eqb_spec (activation idx) NO_ACTIVATION_HEIGHT); [split; [done | by intros []] |].
  destruct (Z.leb_spec (activation idx) nHeight); split; try done. intros [_ ?]. lia.
Qed.

Definition active_at (nHeight idx : Z) : Prop := activation idx <> NO_ACTIVATION_HEIGHT /\ activation idx <= nHeight.

Lemma epoch_from_spec nHeight k :
  0 <= nHeight -> Z.of_nat k <= MAX_NETWORK_UPGRADES ->
  exists e, epoch_from nHeight k = Some e /\ 0 <= e < Z.max 1 (Z.of_nat k) /\
    (e <> BASE_SPROUT -> active_at nHeight e) /\ forall i, e < i < Z.of_nat k -> ~ active_at nHeight i.
Proof using.
  intros Hn. induction k as [| k IH]; intros Hk; cbn [epoch_from].
  - exists BASE_SPROUT. unfold BASE_SPROUT. split; [done |]. split; [lia |]. split; [done | lia].
  - rewrite upgrade_active by lia. cbn [mbind option_bind]. destruct (decide (active_at nHeight (Z.of_nat k))) as [Ha | Ha].
    + rewrite bool_decide_eq_true_2 by exact Ha. exists (Z.of_nat k). split; [done |]. split; [lia |]. split; [done | lia].
    + rewrite bool_decide_eq_false_2 by exact Ha. destruct IH as (e & -> & He & H1 & H2); [lia |]. exists e.
      split; [done |]. split; [lia |]. split; [done |]. intros i Hi.
      destruct (decide (i = Z.of_nat k)) as [-> | Hne]; [done |]. apply H2. lia.
Qed.

(** The epoch of a height is the last upgrade that is active there. *)
Lemma current_epoch_latest nHeight :
  0 <= nHeight ->
  exists e, CurrentEpoch nHeight = Some e /\ 0 <= e < MAX_NETWORK_UPGRADES /\
    (e <> BASE_SPROUT -> active_at nHeight e) /\ forall i, e < i < MAX_NETWORK_UPGRADES -> ~ active_at nHeight i.
Proof using. intros Hn. by apply (epoch_from_spec nHeight 4). Qed.

(** Epochs do not go back as the chain grows. *)
Lemma epoch_mono n1 n2 e1 e2 :
  0 <= n1 <= n2 -> CurrentEpoch n1 = Some e1 -> CurrentEpoch n2 = Some e2 -> e1 <= e2.
Proof using.
  intros Hn E1 E2. destruct (current_epoch_latest n1 ltac:(lia)) as (e & E & B1 & A1 & _). simplify_eq.
  destruct (current_epoch_latest n2 ltac:(lia)) as (e & E & B2 & _ & L2). simplify_eq.
  destruct (decide (e1 = BASE_SPROUT)) as [-> | Hne]; [unfold BASE_SPROUT; lia |].
  destruct (decide (e1 <= e2)) as [| Hgt]; [done |]. exfalso. apply (L2 e1); [lia |].
  destruct (A1 Hne) as [? ?]. split; [done | lia].
Qed.

(** The next activation is in the future, and nothing is pending when there is none. *)
Lemma next_activation nHeight :
  0 <= nHeight ->
  match NextActivationHeight nHeight with
  | Some h => nHeight < h
  | None => forall i, 0 < i < MAX_NETWORK_UPGRADES -> activation i <= nHeight
  end.
Proof using.
  intros Hn. unfold NextActivationHeight, NextEpoch. rewrite (proj2 (Z.ltb_ge nHeight 0)) by lia.
  assert (forall idx, 0 <= idx < MAX_NETWORK_UPGRADES -> NetworkUpgradeState nHeight idx = Some UPGRADE_PENDING <-> nHeight < activation idx) as Hs.
  { intros idx Hi. unfold NetworkUpgradeState, BASE_SPROUT, NO_ACTIVATION_HEIGHT.
    rewrite (proj2 (Z.leb_le 0 nHeight)), (proj2 (Z.leb_le 0 idx)), (proj2 (Z.ltb_lt idx MAX_NETWORK_UPGRADES)) by lia. cbn [negb andb orb].
    destruct (Z.eqb_spec (activation idx) (-1)); [split; [done | lia] |].
    destruct (Z.leb_spec (activation idx) nHeight); split; try done; lia. }
  unfold MAX_NETWORK_UPGRADES, UPGRADE_TESTDUMMY, UPGRADE_OVERWINTER, UPGRADE_SAPLING in *. cbn [pending_from].
  repeat case_bool_decide; cbn [mbind option_bind]; try (apply Hs; [lia | done]).
  intros i Hi. assert (i = 1 \/ i = 2 \/ i = 3) as [-> | [-> | ->]] by lia;
    apply Z.nlt_ge; rewrite <-Hs by lia; done.
Qed.

End Params.
