(* ===== verification/TxCheck.v ===== *)
(** * Rules on a transaction (src/src/main.cpp, primitives/transaction.h)

    [CheckTransactionWithoutProofVerification], the rules that need no view of the
    unspent outputs, and the rules of [ContextualCheckTransaction] that depend on
    the height; lock times and expiry. *)
From Stdlib Require Import String.
From S2P Require Import Prelude Coins Utxo Compact CoinsCodec Script Interp Tx SigHash Upgrades.
Import Tx.Tx.
Local Open Scope string_scope.
Local Open Scope list_scope.
Local Open Scope Z_scope.

(** The answer of a check: [state.DoS(dos, ..., reason)] ([state.Invalid] is a [DoS]
    of level 0), or an exception or failed assertion. *)
Inductive check (A : Type) : Type := Pass (a : A) | Reject (dos : Z) (reason : string) | Threw.
Arguments Pass {A} a.
Arguments Reject {A} dos reason.
Arguments Threw {A}.
#[export] Instance check_ret : MRet check := @Pass.
#[export] Instance check_bind : MBind check := fun A B f m =>
  match m with Pass a => f a | Reject d r => Reject d r | Threw => Threw end.
Definition reject_if (b : bool) (dos : Z) (reason : string) : check unit := if b then Reject dos reason else Pass tt.
Definition no_throw {A} (o : option A) : check A := match o with Some a => Pass a | None => Threw end.

Definition isnil {A} (l : list A) : bool := match l with [] => true | _ => false end.

Module TxCheck.

Definition SPROUT_MIN_TX_VERSION : Z := 1.
Definition OVERWINTER_MIN_TX_VERSION : Z := 3.
Definition OVERWINTER_MAX_TX_VERSION : Z := 3.
Definition SAPLING_MIN_TX_VERSION : Z := 4.
Definition SAPLING_MAX_TX_VERSION : Z := 4.
Definition MAX_TX_SIZE_BEFORE_SAPLING : Z := 100000.
Definition MAX_TX_SIZE_AFTER_SAPLING : Z := 2 * MAX_TX_SIZE_BEFORE_SAPLING.
Definition TX_EXPIRY_HEIGHT_THRESHOLD : Z := 500000000.
Definition DRAGON_MAXSCRIPTSIZE : Z := 10001.
Definition NUM_HUSH_NOTARIES : nat := 64.

(** The settings of the chain that the rules read. *)
Record settings := Settings {
  MAX_MONEY : Z;
  ASSETCHAINS_PRIVATE : Z;
  ASSETCHAINS_TXPOW : Z;
  (** [Getscriptaddress]; [CRYPTO555_HUSHADDR], and the row of [NOTARY_ADDRESSES] of the
      season at a time, as [hush_notaries] fills it. *)
  script_address : list Z -> list Z;
  crypto555_address : list Z;
  notary_addresses : Z -> list (list Z);
}.

(** The verification of Sapling proofs by librustzcash: a context is threaded
    through the checks of the spends, the outputs and the balance. *)
Class SaplingVerifier := {
  vctx : Type;
  verification_ctx_init : vctx;
  check_spend : vctx -> list Z -> list Z -> list Z -> list Z -> list Z -> list Z -> list Z -> bool * vctx;
  check_output : vctx -> list Z -> list Z -> list Z -> list Z -> bool * vctx;
  final_check : vctx -> Z -> list Z -> list Z -> bool;
}.

(** What [ContextualCheckTransaction] reads: the activation heights, whether the node is a light
    client or in its initial download, the last checkpoint if checkpoints are on, and
    the validation of price data in coinbases with the flags that enable it. *)
Record context := Context_ {
  activation : Z -> Z;
  superlite : bool;
  initial_download : bool;
  checkpoint : option Z;
  slowflag : Z;
  ASSETCHAINS_CBOPRET : Z;
  validateprices : Z;
  hush_opretvalidate : Z -> list Z -> Z;
}.

Section Rules.
Context {HS : Hashes} (cfg : settings).

Definition MoneyRange (nValue : Z) : bool := (0 <=? nValue) && (nValue <=? MAX_MONEY cfg).

(** *** The transaction as the view of the outputs sees it *)

(** [GetHash]: the hash of the serialisation, computed when the transaction is made. *)
Definition GetHash (tx : CTransaction) : list Z := CHash256 (default [] (ser transaction tx)).
Definition prevout_key (p : COutPoint) : list Z * Z := (hash p, n p).
Definition ctx_of (tx : CTransaction) : Utxo.ctx :=
  Utxo.Ctx (GetHash tx) (map (fun i => prevout_key (prevout i)) (vin tx)) (vout tx) (nVersion tx)
    (map (fun s => Utxo.Spend_ (sp_nullifier s) (sp_anchor s)) (vShieldedSpend tx)) (map out_cm (vShieldedOutput tx)).

Definition IsCoinBase (tx : CTransaction) : bool := Utxo.IsCoinBase (ctx_of tx).
Definition IsCoinImport (tx : CTransaction) : bool := Utxo.IsCoinImport (ctx_of tx).
Definition IsMint (tx : CTransaction) : bool := IsCoinImport tx || IsCoinBase tx.

(** *** [CheckTransactionWithoutProofVerification] *)

Definition hush_scpublic : Z := 0.

Definition hush_isnotaryvout (coinaddr : list Z) (tiptime : Z) : bool :=
  bool_decide (coinaddr = crypto555_address cfg) ||
  existsb (fun a => bool_decide (coinaddr = a)) (take NUM_HUSH_NOTARIES (notary_addresses cfg tiptime)).

Definition check_version (tx : CTransaction) : check unit :=
  if negb (fOverwintered tx) && (nVersion tx <? SPROUT_MIN_TX_VERSION) then Reject 100 "bad-txns-version-too-low"
  else if fOverwintered tx then
    _ ← reject_if (nVersion tx <? OVERWINTER_MIN_TX_VERSION) 100 "bad-tx-overwinter-version-too-low";
    _ ← reject_if (negb (nVersionGroupId tx =? OVERWINTER_VERSION_GROUP_ID)
                   && negb (nVersionGroupId tx =? SAPLING_VERSION_GROUP_ID)) 100 "bad-tx-version-group-id";
    reject_if (TX_EXPIRY_HEIGHT_THRESHOLD <=? nExpiryHeight tx) 100 "bad-tx-expiry-height-too-high"
  else Pass tt.

(** [GetSerializeSize]. *)
Definition GetSerializeSize (tx : CTransaction) : check Z := b ← no_throw (ser transaction tx); Pass (Zlen b).

(** The loop over the outputs, with [nValueOut] and [invalid_private_taddr]. *)
Fixpoint check_outputs (tiptime : Z) (iscoinbase : bool) (l : list txout) (nValueOut : Z) (invalid : bool) : check (Z * bool) :=
  match l with
  | [] => Pass (nValueOut, invalid)
  | o :: l =>
      _ ← reject_if (nValue o <? 0) 100 "bad-txns-vout-negative";
      _ ← reject_if (MAX_MONEY cfg <? nValue o) 100 "bad-txns-vout-toolarge";
      let invalid :=
        if negb (ASSETCHAINS_PRIVATE cfg =? 0) && negb iscoinbase && (0 <? nValue o)
           && negb (hush_isnotaryvout (script_address cfg (scriptPubKey o)) tiptime) then true else invalid in
      _ ← reject_if (DRAGON_MAXSCRIPTSIZE <? Zlen (scriptPubKey o)) 100 "bad-txns-opret-too-big";
      let nValueOut := s64 (nValueOut + nValue o) in
      _ ← reject_if (negb (MoneyRange nValueOut)) 100 "bad-txns-txouttotal-toolarge";
      check_outputs tiptime iscoinbase l nValueOut invalid
  end.

(** The hash of the genesis coinbase of Bitcoin, the first byte last as it is printed. *)
Definition genesistxid : list Z :=
  rev [0x4a; 0x5e; 0x1e; 0x4b; 0xaa; 0xb8; 0x9f; 0x3a; 0x32; 0x51; 0x8a; 0x88; 0xc3; 0x1b; 0xc8; 0x7f;
       0x61; 0x8f; 0x76; 0x67; 0x3e; 0x2c; 0xc7; 0x7a; 0xb2; 0x12; 0x7b; 0x7a; 0xfd; 0xed; 0xa3; 0x3b].

Definition check_txpow (tx : CTransaction) (iscoinbase : bool) : check unit :=
  if negb (ASSETCHAINS_TXPOW cfg =? 0) then
    let txid := GetHash tx in
    reject_if ((negb (Z.land (ASSETCHAINS_TXPOW cfg) 2 =? 0) && iscoinbase
                || negb (Z.land (ASSETCHAINS_TXPOW cfg) 1 =? 0) && negb iscoinbase)
               && (negb (rd txid 0 =? 0) || negb (rd txid 31 =? 0))
               && negb (bool_decide (txid = genesistxid))) 100 "bad-txns-actxpow-chain"
  else Pass tt.

(** A loop that inserts into a [std::set] and rejects what is in it. *)
Fixpoint check_distinct {A} `{Countable A} (seen : gset A) (l : list A) (reason : string) : check unit :=
  match l with
  | [] => Pass tt
  | a :: l => _ ← reject_if (bool_decide (a ∈ seen)) 100 reason; check_distinct ({[a]} ∪ seen) l reason
  end.

Definition check_mint (tx : CTransaction) : check unit :=
  if IsMint tx then
    _ ← reject_if (0 <? Zlen (vjoinsplit tx)) 100 "bad-cb-has-joinsplits";
    _ ← reject_if (0 <? Zlen (vShieldedSpend tx)) 100 "bad-cb-has-spend-description";
    _ ← reject_if (0 <? Zlen (vShieldedOutput tx)) 100 "bad-cb-has-output-description";
    match vin tx with
    | i :: _ => reject_if ((Zlen (scriptSig i) <? 2) || (100 <? Zlen (scriptSig i))) 100 "bad-cb-length"
    | [] => Threw
    end
  else reject_if (existsb (fun i => Utxo.prevout_null (prevout_key (prevout i))) (vin tx)) 10 "bad-txns-prevout-null".

Definition CheckTransactionWithoutProofVerification (tiptime : Z) (tx : CTransaction) : check unit :=
  let acpublic := hush_scpublic in
  _ ← check_version tx;
  _ ← reject_if (isnil (vin tx) && isnil (vShieldedSpend tx)) 10 "bad-txns-vin-empty";
  _ ← reject_if (isnil (vout tx) && isnil (vShieldedOutput tx)) 10 "bad-txns-vout-empty";
  size ← GetSerializeSize tx;
  _ ← reject_if (MAX_TX_SIZE_AFTER_SAPLING <? size) 100 "bad-txns-oversize";
  let iscoinbase := IsCoinBase tx in
  '(nValueOut, invalid_private_taddr) ← check_outputs tiptime iscoinbase (vout tx) 0 false;
  _ ← reject_if (isnil (vShieldedSpend tx) && isnil (vShieldedOutput tx) && negb (valueBalance tx =? 0)) 100
        "bad-txns-valuebalance-nonzero";
  _ ← reject_if (negb (acpublic =? 0) && (negb (isnil (vShieldedSpend tx)) || negb (isnil (vShieldedOutput tx)))) 100
        "bad-txns-acpublic-chain";
  _ ← reject_if (negb (ASSETCHAINS_PRIVATE cfg =? 0) && invalid_private_taddr && negb (isnil (vShieldedSpend tx))) 100
        "bad-txns-acprivate-chain";
  _ ← reject_if ((MAX_MONEY cfg <? valueBalance tx) || (valueBalance tx <? - MAX_MONEY cfg)) 100
        "bad-txns-valuebalance-toolarge";
  _ ← (if valueBalance tx <=? 0
       then reject_if (negb (MoneyRange (s64 (nValueOut + - valueBalance tx)))) 100 "bad-txns-txouttotal-toolarge"
       else Pass tt);
  (* z_t, z_z and t_z are never set, so [z_t == 0] holds *)
  _ ← reject_if (negb (ASSETCHAINS_PRIVATE cfg =? 0) && invalid_private_taddr) 100 "bad-txns-acprivacy-chain";
  _ ← check_txpow tx iscoinbase;
  _ ← (if 0 <=? valueBalance tx then reject_if (negb (MoneyRange (valueBalance tx))) 100 "bad-txns-txintotal-toolarge"
       else Pass tt);
  _ ← check_distinct ∅ (map (fun i => prevout_key (prevout i)) (vin tx)) "bad-txns-inputs-duplicate";
  _ ← check_distinct ∅ (map sp_nullifier (vShieldedSpend tx)) "bad-spend-description-nullifiers-duplicate";
  check_mint tx.

(** *** Lock times and expiry *)

(** [hush_hardfork_active] is [fork]. *)
Definition IsFinalTx (fork : bool) (tx : CTransaction) (nBlockHeight nBlockTime : Z) : bool :=
  let lock := nLockTime tx in
  if lock =? 0 then true
  else if lock <? (if lock <? LOCKTIME_THRESHOLD then nBlockHeight else nBlockTime) then true
  else
    forallb (fun i =>
      if negb fork && (nSequence i =? 0xfffffffe)
         && ((LOCKTIME_THRESHOLD <=? lock) && (nBlockTime <? lock) || (lock <? LOCKTIME_THRESHOLD) && (nBlockHeight <? lock))
      then true
      else if fork && (nSequence i =? 0xfffffffe)
         && ((LOCKTIME_THRESHOLD <=? lock) && (lock <=? nBlockTime) || (lock <? LOCKTIME_THRESHOLD) && (lock <=? nBlockHeight))
      then true
      else nSequence i =? 0xffffffff) (vin tx).

Definition IsExpiredTx (tx : CTransaction) (nBlockHeight : Z) : bool :=
  if (nExpiryHeight tx =? 0) || IsCoinBase tx then false else nExpiryHeight tx <? u32 nBlockHeight.

(** *** [CheckBlock], from the size limits on *)

Fixpoint sigops (l : list (list Z)) : option Z :=
  match l with [] => Some 0 | script :: l => a ← GetSigOpCount script false; b ← sigops l; Some (u32 (a + b)) end.
Definition GetLegacySigOpCount (tx : CTransaction) : option Z :=
  sigops (map scriptSig (vin tx) ++ map scriptPubKey (vout tx)).

Fixpoint check_transactions (tiptime : Z) (l : list CTransaction) : check unit :=
  match l with
  | [] => Pass tt
  | tx :: l => _ ← CheckTransactionWithoutProofVerification tiptime tx; check_transactions tiptime l
  end.

Fixpoint block_sigops (l : list CTransaction) : option Z :=
  match l with [] => Some 0 | tx :: l => a ← GetLegacySigOpCount tx; b ← block_sigops l; Some (u32 (a + b)) end.

(** [size] is the size of the serialised block, and the limits are those of its
    height; [skip] is [ASSETCHAINS_CC != 0 && !fCheckPOW]. *)
Definition check_block_body (MAX_BLOCK_SIZE MAX_BLOCK_SIGOPS size tiptime : Z) (skip : bool) (vtx : list CTransaction) : check unit :=
  _ ← reject_if (isnil vtx || (MAX_BLOCK_SIZE <? Zlen vtx) || (MAX_BLOCK_SIZE <? size)) 100 "bad-blk-length";
  match vtx with
  | [] => Reject 100 "bad-cb-missing"
  | cb :: rest =>
      _ ← reject_if (negb (IsCoinBase cb)) 100 "bad-cb-missing";
      _ ← reject_if (existsb IsCoinBase rest) 100 "bad-cb-multiple";
      if skip then Pass tt
      else
        _ ← check_transactions tiptime vtx;
        nSigOps ← no_throw (block_sigops vtx);
        reject_if (MAX_BLOCK_SIGOPS <? nSigOps) 100 "bad-blk-sigops"
  end.

(** *** [ContextualCheckTransaction] *)

Context {SV : SaplingVerifier} {BL : Blake2b}.

Context (cx : context).

Definition ContextualCheckCoinbaseTransaction (tx : CTransaction) (nHeight : Z) : bool :=
  if negb (slowflag cx =? 0) && negb (ASSETCHAINS_CBOPRET cx =? 0) && negb (validateprices cx =? 0) && (0 <? nHeight)
  then match last (vout tx) with
       | Some o => negb (hush_opretvalidate cx nHeight (scriptPubKey o) <? 0)
       | None => true
       end
  else true.

Definition version_rules (overwinterActive saplingActive : bool) (tx : CTransaction) (nHeight dosLevel : Z) : check unit :=
  let ibd_level := if initial_download cx then 0 else dosLevel in
  let ht := activation cx UPGRADE_OVERWINTER in
  _ ← reject_if (negb overwinterActive && fOverwintered tx) (if (ht <? 0) || (nHeight <? ht) then 0 else dosLevel)
        "tx-overwinter-not-active";
  if saplingActive then
    _ ← reject_if ((SAPLING_MIN_TX_VERSION <=? nVersion tx) && negb (fOverwintered tx)) dosLevel "tx-overwintered-flag-not-set";
    _ ← reject_if (fOverwintered tx && negb (nVersionGroupId tx =? SAPLING_VERSION_GROUP_ID)) ibd_level
          "bad-sapling-tx-version-group-id";
    _ ← reject_if (fOverwintered tx && (nVersion tx <? SAPLING_MIN_TX_VERSION)) 100 "bad-tx-sapling-version-too-low";
    reject_if (fOverwintered tx && (SAPLING_MAX_TX_VERSION <? nVersion tx)) 100 "bad-tx-sapling-version-too-high"
  else if overwinterActive then
    _ ← reject_if ((OVERWINTER_MIN_TX_VERSION <=? nVersion tx) && negb (fOverwintered tx)) dosLevel "tx-overwinter-flag-not-set";
    _ ← reject_if (fOverwintered tx && negb (nVersionGroupId tx =? OVERWINTER_VERSION_GROUP_ID)) ibd_level
          "bad-overwinter-tx-version-group-id";
    reject_if (fOverwintered tx && (OVERWINTER_MAX_TX_VERSION <? nVersion tx)) 100 "bad-tx-overwinter-version-too-high"
  else Pass tt.

(** [dataToBeSigned], zero when it is not computed. *)
Definition data_to_be_signed (tx : CTransaction) (nHeight : Z) : check (list Z) :=
  if negb (IsMint tx) && (negb (isnil (vjoinsplit tx)) || negb (isnil (vShieldedSpend tx)) || negb (isnil (vShieldedOutput tx)))
  then
    consensusBranchId ← no_throw (CurrentEpochBranchId (activation cx) (superlite cx) nHeight);
    match SigHash.SignatureHash [] tx SigHash.NOT_AN_INPUT SIGHASH_ALL 0 consensusBranchId None with
    | Value h => Pass h
    | Logic_error => Reject 100 "error-computing-signature-hash"
    | Failure => Threw
    end
  else Pass SigHash.zero256.

Fixpoint check_spends (c : vctx) (dataToBeSigned : list Z) (l : list SpendDescription) : check vctx :=
  match l with
  | [] => Pass c
  | s :: l =>
      let '(ok, c) := check_spend c (sp_cv s) (sp_anchor s) (sp_nullifier s) (sp_rk s) (sp_zkproof s) (sp_spendAuthSig s)
                        dataToBeSigned in
      _ ← reject_if (negb ok) 100 "bad-txns-sapling-spend-description-invalid";
      check_spends c dataToBeSigned l
  end.
Fixpoint check_shielded_outputs (c : vctx) (l : list OutputDescription) : check vctx :=
  match l with
  | [] => Pass c
  | o :: l =>
      let '(ok, c) := check_output c (out_cv o) (out_cm o) (out_ephemeralKey o) (out_zkproof o) in
      _ ← reject_if (negb ok) 100 "bad-txns-sapling-output-description-invalid";
      check_shielded_outputs c l
  end.

Definition sapling_rules (tx : CTransaction) (dataToBeSigned : list Z) : check unit :=
  if negb (isnil (vShieldedSpend tx)) || negb (isnil (vShieldedOutput tx)) then
    c ← check_spends verification_ctx_init dataToBeSigned (vShieldedSpend tx);
    c ← check_shielded_outputs c (vShieldedOutput tx);
    reject_if (negb (final_check c (valueBalance tx) (bindingSig tx) dataToBeSigned)) 100
      "bad-txns-sapling-binding-signature-invalid"
  else Pass tt.

Definition ContextualCheckTransaction (tx : CTransaction) (nHeight dosLevel : Z) : check unit :=
  overwinterActive ← no_throw (NetworkUpgradeActive (activation cx) nHeight UPGRADE_OVERWINTER);
  saplingActive ← no_throw (NetworkUpgradeActive (activation cx) nHeight UPGRADE_SAPLING);
  _ ← version_rules overwinterActive saplingActive tx nHeight dosLevel;
  let ht := activation cx UPGRADE_OVERWINTER in
  _ ← (if (overwinterActive : bool) then
         _ ← reject_if (negb (fOverwintered tx))
               (if negb (ASSETCHAINS_PRIVATE cfg =? 0) || (ht <? 0) || (nHeight <? ht) then 0 else dosLevel)
               "tx-overwinter-active";
         reject_if (IsExpiredTx tx nHeight) 0 "tx-overwinter-expired"
       else Pass tt);
  _ ← (if negb saplingActive then
         size ← GetSerializeSize tx; reject_if (MAX_TX_SIZE_BEFORE_SAPLING <? size) 100 "bad-txns-oversize"
       else Pass tt);
  dataToBeSigned ← data_to_be_signed tx nHeight;
  _ ← reject_if (IsCoinBase tx && negb (ContextualCheckCoinbaseTransaction tx nHeight)) 100
        "bad-txns-invalid-script-data-for-coinbase-time-lock";
  if match checkpoint cx with Some h => nHeight <? h | None => false end then Pass tt
  else sapling_rules tx dataToBeSigned.

End Rules.
End TxCheck.

(** ** Lemmas *)

Lemma pass_bind {A B} (m : check A) (k : A -> check B) b :
  m ≫= k = Pass b <-> exists a, m = Pass a /\ k a = Pass b.
Proof. destruct m; (split; [by eauto | by intros (? & [= <-] & ?)]). Qed.
Lemma pass_reject b dos r : reject_if b dos r = Pass tt <-> b = false.
Proof. by destruct b. Qed.
Lemma pass_reject_bind {B} b dos r (k : unit -> check B) x :
  reject_if b dos r ≫= k = Pass x <-> b = false /\ k tt = Pass x.
Proof. destruct b; (split; [try done | by intros []]). Qed.
Lemma pass_no_throw {A} (o : option A) a : no_throw o = Pass a <-> o = Some a.
Proof. destruct o; cbn; split; intros E; by simplify_eq. Qed.
Lemma isnil_spec {A} (l : list A) : isnil l = true <-> l = [].
Proof. by destruct l. Qed.
Lemma isnil_false {A} (l : list A) : isnil l = false <-> l <> [].
Proof. by destruct l. Qed.

Module TxFacts.
Import TxCheck.

Lemma distinct_pass {A} `{Countable A} (seen : gset A) l r :
  check_distinct seen l r = Pass tt <-> NoDup l /\ forall a, a ∈ l -> a ∉ seen.
Proof.
  revert seen. induction l as [| a l IH]; intros seen; cbn [check_distinct].
  - split; [intros _; split; [constructor | intros a; by rewrite elem_of_nil] | done].
  - rewrite pass_reject_bind, bool_decide_eq_false, IH, NoDup_cons. split.
    + intros (Ha & Hl & Hd). split; [split; [intros Hin; apply (Hd a Hin), elem_of_union; left; by apply elem_of_singleton | done] |].
      intros b [-> | Hb]%elem_of_cons; [done |]. intros Hs. apply (Hd b Hb), elem_of_union. by right.
    + intros ([Ha Hl] & Hd). split; [apply Hd; left |]. split; [done |]. intros b Hb.
      assert (b <> a) by congruence. rewrite elem_of_union, elem_of_singleton.
      intros [? | Hs]; [done |]. by apply (Hd b (list_elem_of_further _ _ _ Hb)).
Qed.

Lemma version_pass tx :
  check_version tx = Pass tt <->
  if fOverwintered tx
  then 3 <= nVersion tx /\ nExpiryHeight tx < 500000000 /\
       (nVersionGroupId tx = OVERWINTER_VERSION_GROUP_ID \/ nVersionGroupId tx = SAPLING_VERSION_GROUP_ID)
  else 1 <= nVersion tx.
Proof.
  unfold check_version, SPROUT_MIN_TX_VERSION, OVERWINTER_MIN_TX_VERSION, TX_EXPIRY_HEIGHT_THRESHOLD.
  destruct (fOverwintered tx); cbn [negb andb].
  - rewrite !pass_reject_bind, pass_reject, andb_false_iff, !negb_false_iff, !Z.eqb_eq, Z.ltb_ge, Z.leb_gt. tauto.
  - destruct (Z.ltb_spec (nVersion tx) 1); split; try done; lia.
Qed.

Lemma Zlen_pos_nil {A} (l : list A) : (0 <? Zlen l) = false <-> l = [].
Proof. destruct l; unfold Zlen; cbn [length]; rewrite Z.ltb_ge; split; try done; lia. Qed.

Lemma mint_pass {HS : Hashes} tx :
  check_mint tx = Pass tt <->
  if IsMint tx
  then vjoinsplit tx = [] /\ vShieldedSpend tx = [] /\ vShieldedOutput tx = [] /\
       exists i rest, vin tx = i :: rest /\ 2 <= Zlen (scriptSig i) <= 100
  else Forall (fun i => Utxo.prevout_null (prevout_key (prevout i)) = false) (vin tx).
Proof.
  unfold check_mint. destruct (IsMint tx).
  - rewrite !pass_reject_bind, !Zlen_pos_nil. destruct (vin tx) as [| i rest].
    + split; [by intros (_ & _ & _ & ?) | by intros (_ & _ & _ & ? & ? & ? & _)].
    + rewrite pass_reject, orb_false_iff, !Z.ltb_ge. split.
      * intros (? & ? & ? & ?). split; [done |]. split; [done |]. split; [done |]. by exists i, rest.
      * intros (? & ? & ? & ? & ? & [= <- <-] & ?). done.
  - rewrite pass_reject. rewrite <-not_true_iff_false, existsb_exists, Forall_forall. split.
    + intros Hn i Hi. apply not_true_iff_false. intros E. apply Hn. exists i. split; [by apply list_elem_of_In | done].
    + intros Hf (i & Hi%list_elem_of_In & E). by rewrite (Hf i Hi) in E.
Qed.

Section Facts.
Context {HS : Hashes} (cfg : settings).
Hypothesis money : 0 <= MAX_MONEY cfg < 2 ^ 62.

Fixpoint total (l : list txout) : Z := match l with [] => 0 | o :: l => nValue o + total l end.

Lemma total_nonneg l : Forall (fun o => 0 <= nValue o <= MAX_MONEY cfg) l -> 0 <= total l.
Proof using. induction 1; cbn [total]; lia. Qed.

Lemma MoneyRange_spec v : MoneyRange cfg v = true <-> 0 <= v <= MAX_MONEY cfg.
Proof using. unfold MoneyRange. rewrite andb_true_iff, !Z.leb_le. done. Qed.

(** An output of a private chain that does not go to a notary. *)
Definition public_output (tiptime : Z) (iscoinbase : bool) (o : txout) : bool :=
  negb (ASSETCHAINS_PRIVATE cfg =? 0) && negb iscoinbase && (0 <? nValue o)
  && negb (hush_isnotaryvout cfg (script_address cfg (scriptPubKey o)) tiptime).

Lemma outputs_pass tiptime cb l v inv r :
  0 <= v <= MAX_MONEY cfg ->
  check_outputs cfg tiptime cb l v inv = Pass r <->
  r = (v + total l, inv || existsb (public_output tiptime cb) l) /\
  Forall (fun o => 0 <= nValue o <= MAX_MONEY cfg /\ Zlen (scriptPubKey o) <= DRAGON_MAXSCRIPTSIZE) l /\
  v + total l <= MAX_MONEY cfg.
Proof using money.
  revert v inv. induction l as [| o l IH]; intros v inv Hv; cbn [check_outputs existsb total].
  - rewrite Z.add_0_r, orb_false_r. split; [intros [= <-]; split; [done |]; split; [constructor | lia] | by intros [-> _]].
  - rewrite !pass_reject_bind, Z.ltb_ge, Z.ltb_ge, Forall_cons.
    fold (public_output tiptime cb o). split.
    + intros (H0 & Hm & Hs & Hr & Hk). apply Z.ltb_ge in Hs. apply negb_false_iff, MoneyRange_spec in Hr.
      rewrite s64_id in * by (unfold is_s64; lia).
      apply IH in Hk as (-> & Hf & Ht); [| done]. rewrite <-Z.add_assoc in *.
      split; [| split; [split; [lia | done] | lia]]. f_equal. destruct (public_output tiptime cb o), inv; done.
    + intros (-> & [[Ho Hs] Hf] & Ht). split; [lia |]. split; [lia |]. split; [by apply Z.ltb_ge |].
      assert (0 <= total l) by (apply total_nonneg; eapply Forall_impl; [exact Hf |]; by intros ? []).
      rewrite s64_id by (unfold is_s64; lia). split; [apply negb_false_iff, MoneyRange_spec; lia |].
      apply IH; [lia |]. rewrite <-Z.add_assoc. split; [| split; [done | lia]]. f_equal.
      destruct (public_output tiptime cb o), inv; done.
Qed.

(** What [CheckTransactionWithoutProofVerification] asks, as one sees it. *)
Record tx_ok (tiptime : Z) (tx : CTransaction) : Prop := {
  ok_version :
    if fOverwintered tx
    then 3 <= nVersion tx /\ nExpiryHeight tx < 500000000 /\
         (nVersionGroupId tx = OVERWINTER_VERSION_GROUP_ID \/ nVersionGroupId tx = SAPLING_VERSION_GROUP_ID)
    else 1 <= nVersion tx;
  ok_source : vin tx <> [] \/ vShieldedSpend tx <> [];
  ok_sink : vout tx <> [] \/ vShieldedOutput tx <> [];
  ok_size : exists b, ser transaction tx = Some b /\ Zlen b <= 200000;
  ok_outputs : Forall (fun o => 0 <= nValue o <= MAX_MONEY cfg /\ Zlen (scriptPubKey o) <= 10001) (vout tx);
  ok_total : total (vout tx) + Z.max 0 (- valueBalance tx) <= MAX_MONEY cfg;
  ok_balance : - MAX_MONEY cfg <= valueBalance tx <= MAX_MONEY cfg;
  ok_balance_zero : vShieldedSpend tx = [] -> vShieldedOutput tx = [] -> valueBalance tx = 0;
  ok_private : existsb (public_output tiptime (IsCoinBase tx)) (vout tx) = false;
  ok_txpow : check_txpow cfg tx (IsCoinBase tx) = Pass tt;
  ok_inputs : NoDup (map (fun i => prevout_key (prevout i)) (vin tx));
  ok_nullifiers : NoDup (map sp_nullifier (vShieldedSpend tx));
  ok_mint :
    if IsMint tx
    then vjoinsplit tx = [] /\ vShieldedSpend tx = [] /\ vShieldedOutput tx = [] /\
         exists i rest, vin tx = i :: rest /\ 2 <= Zlen (scriptSig i) <= 100
    else Forall (fun i => Utxo.prevout_null (prevout_key (prevout i)) = false) (vin tx);
}.

Lemma accepted_ok tiptime tx : CheckTransactionWithoutProofVerification cfg tiptime tx = Pass tt -> tx_ok tiptime tx.
Proof using money.
  unfold CheckTransactionWithoutProofVerification, GetSerializeSize. cbv zeta.
  change (hush_scpublic =? 0) with true. cbn [negb andb].
  intros ([] & Hv%version_pass & [Hi [Ho H]%pass_reject_bind]%pass_reject_bind)%pass_bind.
  apply pass_bind in H as (size & (b & Hb%pass_no_throw & [= <-])%pass_bind & [Hs%Z.ltb_ge H]%pass_reject_bind).
  apply pass_bind in H as ([v inv] & Hout & H). apply outputs_pass in Hout as ([= -> ->] & Hf & Ht); [| lia].
  rewrite ?Z.add_0_l in *. cbn [orb] in H. apply pass_reject_bind in H as [Hz H]. apply pass_reject_bind in H as [_ H].
  apply pass_reject_bind in H as [_ H]. apply pass_reject_bind in H as [[Hb1%Z.ltb_ge Hb2%Z.ltb_ge]%orb_false_iff H].
  apply pass_bind in H as ([] & Hneg & H). apply pass_reject_bind in H as [Hpriv H].
  apply pass_bind in H as ([] & Hpow & H). apply pass_bind in H as ([] & _ & H).
  apply pass_bind in H as ([] & [Hd1 _]%distinct_pass & H). apply pass_bind in H as ([] & [Hd2 _]%distinct_pass & Hmint%mint_pass).
  split; try done.
  + apply andb_false_iff in Hi as [Hi%isnil_false | Hi%isnil_false]; auto.
  + apply andb_false_iff in Ho as [Ho%isnil_false | Ho%isnil_false]; auto.
  + by exists b.
  + assert (0 <= total (vout tx)) by (apply total_nonneg; eapply Forall_impl; [exact Hf |]; by intros ? []).
    destruct (Z.leb_spec (valueBalance tx) 0); [| lia]. rewrite pass_reject, negb_false_iff, MoneyRange_spec in Hneg.
    rewrite s64_id in Hneg by (unfold is_s64; lia). lia.
  + intros Hsp Hso. rewrite Hsp, Hso in Hz. cbn [isnil andb] in Hz. by apply negb_false_iff, Z.eqb_eq in Hz.
  + destruct (ASSETCHAINS_PRIVATE cfg =? 0) eqn:Hp; [| done].
    apply not_true_iff_false. intros (o & _ & E)%existsb_exists. unfold public_output in E. by rewrite Hp in E.
Qed.

Lemma ok_accepted tiptime tx : tx_ok tiptime tx -> CheckTransactionWithoutProofVerification cfg tiptime tx = Pass tt.
Proof using money.
  unfold CheckTransactionWithoutProofVerification, GetSerializeSize. cbv zeta.
  change (hush_scpublic =? 0) with true. cbn [negb andb].
  intros [Hv Hi Ho (b & Hb & Hs) Hf Ht Hbal Hz Hpriv Hpow Hd1 Hd2 Hmint].
  assert (0 <= total (vout tx)) by (apply total_nonneg; eapply Forall_impl; [exact Hf |]; by intros ? []).
  apply pass_bind. exists tt. split; [by apply version_pass |].
  apply pass_reject_bind. split; [apply andb_false_iff; rewrite !isnil_false; tauto |].
  apply pass_reject_bind. split; [apply andb_false_iff; rewrite !isnil_false; tauto |].
  rewrite Hb. cbn [no_throw mbind check_bind]. apply pass_reject_bind. split; [by apply Z.ltb_ge |].
  apply pass_bind. exists (0 + total (vout tx), false || false). split.
  { apply outputs_pass; [lia |]. rewrite Hpriv. split; [done |]. split; [done | lia]. }
  cbn [orb]. rewrite Z.add_0_l, andb_false_r. cbn [andb].
  apply pass_reject_bind. split.
  { destruct (isnil (vShieldedSpend tx)) eqn:E1, (isnil (vShieldedOutput tx)) eqn:E2; try done.
    apply isnil_spec in E1, E2. by rewrite (Hz E1 E2). }
  do 2 (apply pass_reject_bind; split; [done |]).
  apply pass_reject_bind. split; [apply orb_false_iff; rewrite !Z.ltb_ge; lia |].
  apply pass_bind. exists tt. split.
  { destruct (Z.leb_spec (valueBalance tx) 0); [| done]. rewrite pass_reject, negb_false_iff, MoneyRange_spec, s64_id by (unfold is_s64; lia). lia. }
  apply pass_reject_bind. split; [done |]. apply pass_bind. exists tt. split; [done |].
  apply pass_bind. exists tt. split.
  { destruct (Z.leb_spec 0 (valueBalance tx)); [| done]. rewrite pass_reject, negb_false_iff, MoneyRange_spec. lia. }
  apply pass_bind. exists tt. split; [apply distinct_pass; split; [done | set_solver] |].
  apply pass_bind. exists tt. split; [apply distinct_pass; split; [done | set_solver] |]. by apply mint_pass.
Qed.

(** [C16] [CheckTransactionWithoutProofVerification] accepts a transaction exactly when
    it has a known version, inputs and outputs, at most 200000 bytes, outputs
    in the money range whose sum with the value taken into the shielded pool is
    in it, a value balance in the range and zero without shielded parts,
    no output to the public of a private chain, distinct inputs and
    nullifiers, and the form of a coinbase or no null input.  No addition of amounts overflows on the
    way. *)
Theorem check_transaction_exact tiptime tx :
  CheckTransactionWithoutProofVerification cfg tiptime tx = Pass tt <-> tx_ok tiptime tx.
Proof using money. split; [apply accepted_ok | apply ok_accepted]. Qed.

End Facts.
End TxFacts.

(** ** What accepted transactions give to the view of the unspent outputs *)

Module TxCompose.
Import TxCheck TxFacts.

(** *** Lock times *)

(** After the hard fork a transaction is final at a height and time when its lock time has
    passed, or every input has the last sequence number, or the number before the last
    and the lock time is the very height or time. *)
Lemma final_after_fork tx nBlockHeight nBlockTime :
  let cutoff := if nLockTime tx <? LOCKTIME_THRESHOLD then nBlockHeight else nBlockTime in
  IsFinalTx true tx nBlockHeight nBlockTime = true <->
  nLockTime tx = 0 \/ nLockTime tx < cutoff \/
  Forall (fun i => nSequence i = 2 ^ 32 - 1 \/ (nSequence i = 2 ^ 32 - 2 /\ nLockTime tx = cutoff)) (vin tx).
Proof.
  intros cutoff. unfold IsFinalTx. cbv zeta. fold cutoff. destruct (Z.eqb_spec (nLockTime tx) 0) as [E0 | E0]; [tauto |].
  destruct (Z.ltb_spec (nLockTime tx) cutoff) as [Hl | Hl]; [tauto |]. cbn [negb andb].
  assert (forall i, (if (nSequence i =? 0xfffffffe) && ((LOCKTIME_THRESHOLD <=? nLockTime tx) && (nLockTime tx <=? nBlockTime)
     || (nLockTime tx <? LOCKTIME_THRESHOLD) && (nLockTime tx <=? nBlockHeight)) then true else nSequence i =? 0xffffffff) = true <->
     (nSequence i = 2 ^ 32 - 1 \/ (nSequence i = 2 ^ 32 - 2 /\ nLockTime tx = cutoff))) as Hi.
  { intros i. unfold cutoff in *. destruct (Z.eqb_spec (nSequence i) 0xfffffffe) as [E | E]; cbn [andb].
    - rewrite E. destruct (Z.ltb_spec (nLockTime tx) LOCKTIME_THRESHOLD), (Z.leb_spec LOCKTIME_THRESHOLD (nLockTime tx)); try lia; cbn [andb orb].
      + destruct (Z.leb_spec (nLockTime tx) nBlockHeight); split; try done; try (intros [? | [_ ?]]; lia). intros _. right. split; lia.
      + rewrite orb_false_r. destruct (Z.leb_spec (nLockTime tx) nBlockTime); split; try done; try (intros [? | [_ ?]]; lia). intros _. right. split; lia.
    - rewrite Z.eqb_eq. split; [left; lia | intros [? | [? _]]; lia]. }
  rewrite forallb_forall, Forall_forall. split.
  - intros H. right. right. intros i Hin. apply Hi, H. by apply list_elem_of_In.
  - intros [? | [? | H]]; [done | lia |]. intros i Hin. apply Hi, H. by apply list_elem_of_In.
Qed.

(** Before it a transaction whose lock time lies in the future is final when its
    inputs have the number before the last, the case in which the lock time is enabled. *)
Lemma future_lock_final_before_fork tx nBlockHeight nBlockTime :
  nBlockHeight < nLockTime tx < LOCKTIME_THRESHOLD -> Forall (fun i => nSequence i = 2 ^ 32 - 2) (vin tx) ->
  IsFinalTx false tx nBlockHeight nBlockTime = true.
Proof.
  intros Hl Hs. unfold IsFinalTx. cbv zeta. destruct (nLockTime tx =? 0); [done |]. match goal with |- context [if nLockTime tx <? ?c then _ else _] => destruct (nLockTime tx <? c); [done |] end.
  apply forallb_forall. intros i Hi%list_elem_of_In. rewrite (proj1 (Forall_forall _ _) Hs i Hi).
  rewrite (proj2 (Z.ltb_lt (nLockTime tx) LOCKTIME_THRESHOLD)), (proj2 (Z.ltb_lt nBlockHeight (nLockTime tx))) by lia.
  cbn [negb andb]. by rewrite orb_true_r.
Qed.

Section Compose.
Context {HS : Hashes} (cfg : settings).
Hypothesis money : 0 <= MAX_MONEY cfg < 2 ^ 60.

Lemma mint_ctx tx : Utxo.IsMint (ctx_of tx) = IsMint tx.
Proof using. done. Qed.

Lemma outpoint_inj l :
  Forall (fun p : list Z * Z => 0 <= p.2) l -> NoDup l -> NoDup (map Utxo.outpoint l).
Proof using.
  intros Hf Hn. induction Hn as [| p l Hp Hn IH]; cbn [map]; [constructor |]. apply Forall_cons in Hf as [Hp0 Hf].
  constructor; [| by apply IH]. intros ([h k] & E & Hin)%list_elem_of_fmap. apply Hp.
  pose proof (proj1 (Forall_forall _ _) Hf _ Hin) as Hk. destruct p as [h' k']. unfold Utxo.outpoint in E.
  cbn [fst snd] in *. injection E as -> E. by replace k' with k by lia.
Qed.

Lemma prevouts_nonneg tx : valid transaction tx -> Forall (fun p : list Z * Z => 0 <= p.2) (Utxo.tx_vin (ctx_of tx)).
Proof using.
  intros Hv. cbn [ctx_of Utxo.tx_vin]. rewrite Forall_fmap. eapply Forall_impl; [exact (Commit.lv_vin _ (Commit.valid_lists tx Hv)) |].
  intros i ((_ & [H _] & _) & _). done.
Qed.

(** What the theorems on connecting blocks ask of a transaction. *)
Record fits_view (tx : Utxo.ctx) : Prop := {
  fv_plain : Utxo.tx_plain tx;
  fv_storable : tx_storable tx;
  fv_spent : NoDup (Utxo.spent_by tx);
  fv_nullifiers : NoDup (Utxo.nullifiers_of tx);
}.

Lemma accepted_fits tiptime tx :
  valid transaction tx -> IsCoinImport tx = false ->
  CheckTransactionWithoutProofVerification cfg tiptime tx = Pass tt -> fits_view (ctx_of tx).
Proof using money.
  intros Hv Himp Ha%accepted_ok; [| lia]. destruct Ha as [_ _ _ _ Hout _ _ _ _ _ Hin Hnf Hmint].
  destruct (Checks.valid_sizes tx Hv) as (Hs & _). split.
  - split; [done |]. split.
    + rewrite mint_ctx. intros Em. rewrite Em in Hmint. destruct Hmint as (_ & Hsp & _). cbn [ctx_of Utxo.tx_spends]. by rewrite Hsp.
    + cbn [ctx_of Utxo.tx_vout]. eapply Forall_impl; [exact Hout |]. by intros o [[? _] _].
  - split; [| split].
    + cbn [ctx_of Utxo.tx_vout]. eapply Forall_impl; [exact Hout |]. intros o [? _]. cbn beta. lia.
    + exact (Commit.lv_version _ (Commit.valid_lists tx Hv)).
    + cbn [ctx_of Utxo.tx_vin]. unfold Zlen. rewrite length_map. exact Hs.
  - unfold Utxo.spent_by. destruct (Utxo.IsMint _); [constructor |]. apply outpoint_inj; [by apply prevouts_nonneg | exact Hin].
  - unfold Utxo.nullifiers_of. cbn [ctx_of Utxo.tx_spends]. rewrite map_map. exact Hnf.
Qed.

Lemma checked_all tiptime vtx :
  Forall (valid transaction) vtx -> Forall (fun tx => IsCoinImport tx = false) vtx ->
  check_transactions cfg tiptime vtx = Pass tt -> Forall fits_view (map ctx_of vtx).
Proof using money.
  induction 1 as [| tx vtx Hv _ IH]; intros Himp; cbn [check_transactions map]; [constructor |].
  apply Forall_cons in Himp as [Hi Himp]. intros ([] & Hc & Hr)%pass_bind.
  constructor; [by eapply accepted_fits | by apply IH].
Qed.

(** [CheckBlock] on the transactions. *)
Lemma block_body_facts max_size max_sigops size tiptime vtx :
  Forall (valid transaction) vtx -> Forall (fun tx => IsCoinImport tx = false) vtx ->
  check_block_body cfg max_size max_sigops size tiptime false vtx = Pass tt ->
  Forall fits_view (map ctx_of vtx) /\
  exists cb rest, vtx = cb :: rest /\ Utxo.IsMint (ctx_of cb) = true /\ Forall (fun tx => Utxo.IsMint (ctx_of tx) = false) rest.
Proof using money.
  intros Hv Himp. unfold check_block_body. intros [_ H]%pass_reject_bind. destruct vtx as [| cb rest]; [done |].
  apply pass_reject_bind in H as [Hcb%negb_false_iff H]. apply pass_reject_bind in H as [Hrest H].
  apply pass_bind in H as ([] & Hc & _). split; [by eapply checked_all |]. exists cb, rest. split; [done |].
  split; [rewrite mint_ctx; unfold IsMint; by rewrite Hcb, orb_true_r |].
  apply Forall_cons in Himp as [_ Himp]. apply Forall_forall. intros tx Htx. rewrite mint_ctx. unfold IsMint.
  rewrite (proj1 (Forall_forall _ _) Himp tx Htx). cbn [orb]. apply not_true_iff_false. intros E.
  apply not_true_iff_false in Hrest. apply Hrest, existsb_exists. exists tx. split; [by apply list_elem_of_In | done].
Qed.

(** [C17] What [CheckBlock] lets through is what the rest of the node relies on.  If the
    rules on the transactions of a block accept it, no transaction of it being an import, then
    the first transaction and no other is a coinbase, and every transaction
    satisfies the assumptions of the theorems on connecting, disconnecting and
    storing blocks: its outputs carry values that can be stored, it spends no
    output and reveals no nullifier twice, and a coinbase has no shielded spends. *)
Theorem checked_block_fits max_size max_sigops size tiptime vtx :
  Forall (valid transaction) vtx -> Forall (fun tx => IsCoinImport tx = false) vtx ->
  check_block_body cfg max_size max_sigops size tiptime false vtx = Pass tt ->
  Forall fits_view (map ctx_of vtx) /\
  exists cb rest, vtx = cb :: rest /\ Utxo.IsMint (ctx_of cb) = true /\ Forall (fun tx => Utxo.IsMint (ctx_of tx) = false) rest.
Proof using money. apply block_body_facts. Qed.

(** ** Rules that depend on the height *)

Context {SV : SaplingVerifier} {BL : Blake2b} (cx : context).

Lemma version_rules_pass ow sap tx nHeight dos :
  version_rules cx ow sap tx nHeight dos = Pass tt -> (ow = true -> fOverwintered tx = true) ->
  (ow = false -> fOverwintered tx = false) /\
  (ow = true -> sap = true -> nVersionGroupId tx = SAPLING_VERSION_GROUP_ID /\ nVersion tx = 4) /\
  (ow = true -> sap = false -> nVersionGroupId tx = OVERWINTER_VERSION_GROUP_ID /\ nVersion tx <= 3).
Proof using.
  unfold version_rules, SAPLING_MIN_TX_VERSION, SAPLING_MAX_TX_VERSION, OVERWINTER_MAX_TX_VERSION. cbv zeta.
  intros [H0 H]%pass_reject_bind Hf. split; [intros ->; cbn [negb andb] in H0; done |].
  destruct ow; [| by split]. specialize (Hf eq_refl). rewrite Hf in H. cbn [negb andb] in H. destruct sap.
  - apply pass_reject_bind in H as [_ H]. apply pass_reject_bind in H as [Hg%negb_false_iff%Z.eqb_eq H].
    apply pass_reject_bind in H as [H1%Z.ltb_ge H2%pass_reject]. apply Z.ltb_ge in H2. split; [intros _ _; split; [done | lia] | done].
  - apply pass_reject_bind in H as [_ H]. apply pass_reject_bind in H as [Hg%negb_false_iff%Z.eqb_eq H%pass_reject].
    apply Z.ltb_ge in H. split; [done |]. done.
Qed.

(** The shielded parts were verified against the hash of the transaction. *)
Definition shielded_verified (tx : CTransaction) (nHeight : Z) : Prop :=
  vShieldedSpend tx <> [] \/ vShieldedOutput tx <> [] ->
  exists br h, CurrentEpochBranchId (activation cx) (superlite cx) nHeight = Some br /\
    SigHash.SignatureHash [] tx SigHash.NOT_AN_INPUT SIGHASH_ALL 0 br None = Value h /\ sapling_rules tx h = Pass tt.

(** [C18] A transaction that both checks accept at a height has the format of the epoch:
    version 4 of the Sapling group once Sapling is active, version 3 of the Overwinter
    group before, not the Overwinter header before that.  It is not
    expired once Overwinter is active, has at most 100000 bytes before Sapling,
    and, from the last checkpoint on, the proofs and signatures of
    its shielded parts were verified against its signature hash for the branch of
    the height. *)
Theorem accepted_in_epoch tiptime tx nHeight dos ow sap :
  CheckTransactionWithoutProofVerification cfg tiptime tx = Pass tt ->
  ContextualCheckTransaction cfg cx tx nHeight dos = Pass tt ->
  NetworkUpgradeActive (activation cx) nHeight UPGRADE_OVERWINTER = Some ow ->
  NetworkUpgradeActive (activation cx) nHeight UPGRADE_SAPLING = Some sap ->
  (if ow : bool
   then (if sap : bool then isSaplingV4 else isOverwinterV3) (fOverwintered tx) (nVersionGroupId tx) (nVersion tx) = true /\
        IsExpiredTx tx nHeight = false
   else fOverwintered tx = false) /\
  (sap = false -> exists b, ser transaction tx = Some b /\ Zlen b <= 100000) /\
  (match checkpoint cx with Some h => h <= nHeight | None => True end -> shielded_verified tx nHeight).
Proof using money.
  intros Hok%accepted_ok Hc Eow Esap; [| lia]. unfold ContextualCheckTransaction in Hc. cbv zeta in Hc.
  rewrite Eow, Esap in Hc. cbn [no_throw mbind check_bind] in Hc.
  apply pass_bind in Hc as ([] & Hver & Hc). apply pass_bind in Hc as ([] & How & Hc).
  apply pass_bind in Hc as ([] & Hsize & Hc). apply pass_bind in Hc as (h & Hdata & Hc).
  apply pass_reject_bind in Hc as [_ Hc].
  assert (ow = true -> fOverwintered tx = true /\ IsExpiredTx tx nHeight = false) as Hexp.
  { intros ->. by apply pass_reject_bind in How as [?%negb_false_iff ?%pass_reject]. }
  destruct (version_rules_pass _ _ _ _ _ Hver (fun E => proj1 (Hexp E))) as (H1 & H2 & H3).
  pose proof (ok_version _ _ _ Hok) as Hv. split; [| split].
  - destruct ow; [| by apply H1]. destruct (Hexp eq_refl) as [Hf He]. split; [| done]. rewrite Hf in *. destruct sap.
    + destruct (H2 eq_refl eq_refl) as [-> ->]. done.
    + destruct (H3 eq_refl eq_refl) as [-> Hle]. by replace (nVersion tx) with 3 by lia.
  - intros ->. cbn [negb] in Hsize. unfold GetSerializeSize in Hsize.
    apply pass_bind in Hsize as (size & (b & Hb%pass_no_throw & [= <-])%pass_bind & Hs%pass_reject). apply Z.ltb_ge in Hs. by exists b.
  - intros Hcp Hsh. assert (match checkpoint cx with Some h => nHeight <? h | None => false end = false) as E
      by (destruct (checkpoint cx); [by apply Z.ltb_ge | done]).
    rewrite E in Hc. clear E.
    unfold data_to_be_signed in Hdata.
    assert (IsMint tx = false) as Hm.
    { destruct (IsMint tx) eqn:Em; [| done]. pose proof (ok_mint _ _ _ Hok) as Hmint. rewrite Em in Hmint.
      destruct Hmint as (_ & ? & ? & _). destruct Hsh; congruence. }
    rewrite Hm in Hdata. cbn [negb andb] in Hdata.
    assert (negb (isnil (vjoinsplit tx)) || negb (isnil (vShieldedSpend tx)) || negb (isnil (vShieldedOutput tx)) = true) as E.
    { destruct (vShieldedSpend tx), (vShieldedOutput tx); cbn; rewrite ?orb_true_r; try done. by destruct Hsh. }
    rewrite E in Hdata. apply pass_bind in Hdata as (br & Hbr%pass_no_throw & Hd). exists br, h. split; [done |].
    destruct (SigHash.SignatureHash _ _ _ _ _ _ _) as [h' | |]; try done. by injection Hd as ->.
Qed.

End Compose.
End TxCompose.

(** ** Witnesses *)

Module TxWitness.
Import TxCheck TxFacts TxCompose.

Definition open_settings : settings := Settings 2100000000000000 0 0 (fun s => s) [] (fun _ => []).
#[local] Instance toy_hash : Hashes := {| ripemd160 msg := msg; sha1 msg := msg; sha256 msg := msg |}.
#[local] Instance toy_digest : Blake2b := {| blake2b p msg := u8 (default 0 (last msg)) :: replicate 31 1 |}.
(** A verifier that counts what it accepts. *)
#[local] Instance toy_verifier : SaplingVerifier := {|
  vctx := Z; verification_ctx_init := 0;
  check_spend c _ _ _ _ _ _ _ := (true, c + 1); check_output c _ _ _ _ := (true, c + 1);
  final_check c _ _ _ := 0 <? c |}.
Definition open_context : context := Context_ (fun _ => 10) false false None 0 0 0 (fun _ _ => 0).

Lemma open_money : 0 <= MAX_MONEY open_settings < 2 ^ 60.
Proof. cbn [open_settings MAX_MONEY]. lia. Qed.

Definition coinbase_example : CTransaction :=
  Tx true 4 SAPLING_VERSION_GROUP_ID [TxIn (OutPoint (replicate 32 0) 0xffffffff) [1; 2] 0xffffffff] [TxOut 5000 [0x51]] 0 0 0
     [] [] [] (replicate 32 0) (replicate 64 0) (replicate 64 0).

Lemma coinbase_example_valid : valid transaction coinbase_example.
Proof. solve_tx_valid. Qed.

Lemma check_transaction_exact_witness :
  CheckTransactionWithoutProofVerification open_settings 0 tx_example = Pass tt /\ tx_ok open_settings 0 tx_example.
Proof.
  split; [by vm_compute |]. apply (check_transaction_exact open_settings); [pose proof open_money; lia | by vm_compute].
Defined.

Lemma checked_block_fits_witness :
  Forall fits_view (map ctx_of [coinbase_example; tx_example]) /\
  exists cb rest, [coinbase_example; tx_example] = cb :: rest /\ Utxo.IsMint (ctx_of cb) = true /\
    Forall (fun tx => Utxo.IsMint (ctx_of tx) = false) rest.
Proof.
  apply (checked_block_fits open_settings open_money 2000000 20000 1000 0 [coinbase_example; tx_example]).
  - constructor; [apply coinbase_example_valid |]. constructor; [apply tx_example_valid | constructor].
  - by repeat constructor.
  - by vm_compute.
Defined.

Lemma accepted_in_epoch_witness :
  isSaplingV4 true SAPLING_VERSION_GROUP_ID 4 = true /\ IsExpiredTx tx_example 20 = false /\
  shielded_verified open_context tx_example 20.
Proof.
  destruct (accepted_in_epoch open_settings open_money open_context 0 tx_example 20 100 true true) as ([H1 H2] & _ & H3);
    [by vm_compute | by vm_compute | by vm_compute | by vm_compute |].
  split; [exact H1 |]. split; [exact H2 |]. by apply H3.
Defined.

End TxWitness.
