(* ===== verification/Ledger.v ===== *)
(** * The ledger: unspent outputs as a map (src/src/coins.h, main.cpp)

    An abstract specification of the coin database: the unspent outputs by
    outpoint.  [UpdateCoins] on the caches removes the outputs a transaction
    spends and adds those it creates, but for the unspendable ones; from this the
    value of the unspent outputs is bounded. *)
From S2P Require Import Prelude Coins Utxo.
Import Utxo.
Local Open Scope Z_scope.

(** The unspent output of an entry, and of the database at a point. *)
Definition live (v : list txout) (i : nat) : option txout := o ← v !! i; if IsNull o then None else Some o.
Definition utxo `{AnchorTree} (s : state) (p : uint256 * nat) : option txout := c ← s_coins s p.1; live (vout c) p.2.

(** The output a transaction creates at a point of its own. *)
Definition created (tx : ctx) (i : nat) : option txout :=
  o ← tx_vout tx !! i; if IsUnspendable (scriptPubKey o) then None else Some o.

Definition value (o : option txout) : Z := match o with Some o => nValue o | None => 0 end.
Fixpoint zsum (l : list Z) : Z := match l with [] => 0 | x :: l => x + zsum l end.

(** The unspent outputs are worth at most [X]. *)
Definition worth_at_most `{AnchorTree} (s : state) (X : Z) : Prop := forall P, NoDup P -> zsum (map (fun p => value (utxo s p)) P) <= X.

(** ** Sums *)

Lemma zsum_app l1 l2 : zsum (l1 ++ l2) = zsum l1 + zsum l2.
Proof. induction l1 as [| x l1 IH]; cbn [app zsum]; lia. Qed.

Lemma zsum_nonneg l : Forall (fun x => 0 <= x) l -> 0 <= zsum l.
Proof. induction 1; cbn [zsum]; lia. Qed.

Lemma zsum_Permutation l1 l2 : Permutation l1 l2 -> zsum l1 = zsum l2.
Proof. induction 1; cbn [zsum]; lia. Qed.

(** A sum over distinct points is at most the sum over points that cover those that count. *)
Lemma zsum_cover {A} `{EqDecision A} (f : A -> Z) (I J : list A) :
  NoDup I -> (forall a, 0 <= f a) -> (forall a, a ∈ I -> a ∈ J \/ f a = 0) -> zsum (map f I) <= zsum (map f J).
Proof.
  intros HI Hf. revert J. induction HI as [| a I Ha HI IH]; intros J Hc.
  - apply zsum_nonneg, Forall_forall. intros x (a & -> & _)%list_elem_of_fmap. apply Hf.
  - cbn [map zsum]. destruct (decide (a ∈ J)) as [Hin | Hout].
    + apply list_elem_of_split in Hin as (J1 & J2 & ->).
      rewrite (zsum_Permutation (map f (J1 ++ a :: J2)) (map f (a :: J1 ++ J2))) by (apply Permutation_map; symmetry; apply Permutation_middle).
      cbn [map zsum]. enough (zsum (map f I) <= zsum (map f (J1 ++ J2))) by lia. apply IH.
      intros b Hb. destruct (Hc b (list_elem_of_further _ _ _ Hb)) as [Hj | Hz]; [| by right]. left.
      assert (b <> a) by congruence. rewrite !elem_of_app, elem_of_cons in *. tauto.
    + destruct (Hc a (list_elem_of_here _ _)) as [? | ->]; [done |]. apply IH.
      intros b Hb. apply Hc. by right.
Qed.

(** ** Spending and creating *)

Lemma utxo_available `{AnchorTree} s p : unspent s p = bool_decide (is_Some (utxo s p)).
Proof.
  assert (forall o : txout, bool_decide (is_Some (Some o)) = true) as Ht by (intros o; apply bool_decide_eq_true_2; eauto).
  assert (bool_decide (is_Some (@None txout)) = false) as Hf by (apply bool_decide_eq_false_2; by intros [? ?]).
  unfold unspent, utxo, live, IsAvailable. destruct (s_coins s p.1) as [c |]; cbn [mbind option_bind]; [| by rewrite Hf].
  destruct (vout c !! p.2) as [o |]; cbn [mbind option_bind]; [| by rewrite Hf].
  destruct (IsNull o); [by rewrite Hf | by rewrite Ht].
Qed.

(** Cleaning up, and dropping an entry that is pruned, leave the unspent outputs. *)
Lemma live_Cleanup c i : live (vout (Cleanup c)) i = live (vout c) i.
Proof.
  cbn [Cleanup set_vout vout]. set (v := vout c). unfold live. destruct (pop_nulls_split (rev v)) as (k & -> & Hk).
  assert (v = rev (drop k (rev v)) ++ rev (take k (rev v))) as E by (by rewrite <-rev_app_distr, take_drop, rev_involutive).
  rewrite E at 2. set (w := rev (drop k (rev v))). destruct (decide (i < length w)%nat) as [Hl | Hl]; [by rewrite lookup_app_l |].
  rewrite lookup_app_r, lookup_ge_None_2 by lia. cbn [mbind option_bind].
  destruct (rev (take k (rev v)) !! _) as [o |] eqn:Eo; [| done]. cbn [mbind option_bind].
  apply list_elem_of_lookup_2, list_elem_of_In, in_rev, list_elem_of_In in Eo.
  by rewrite (proj1 (Forall_forall _ _) Hk o Eo).
Qed.

Lemma live_norm c i : (c ← norm (Some c); live (vout c) i) = live (vout c) i.
Proof.
  unfold norm. destruct (IsPruned c) eqn:Ep; cbn [mbind option_bind]; [| done]. unfold live.
  destruct (vout c !! i) as [o |] eqn:Eo; [| done]. cbn [mbind option_bind].
  unfold IsPruned in Ep. rewrite forallb_forall in Ep. rewrite (Ep o); [done |]. apply list_elem_of_In. by eapply list_elem_of_lookup_2.
Qed.

Lemma live_created tx height i :
  Forall (fun o => 0 <= nValue o) (tx_vout tx) ->
  live (vout (FromTx (IsCoinBase tx) (tx_vout tx) (tx_nVersion tx) height)) i = created tx i.
Proof.
  intros Hv. unfold FromTx, ClearUnspendable. rewrite live_Cleanup. unfold live, created. cbn [set_vout vout].
  change (map ?f ?l) with (f <$> l). rewrite list_lookup_fmap.
  destruct (tx_vout tx !! i) as [o |] eqn:Eo; [| done]. cbn [fmap option_fmap option_map mbind option_bind].
  destruct (IsUnspendable (scriptPubKey o)); [done |]. apply (Forall_lookup_1 _ _ _ _ Hv) in Eo.
  unfold IsNull. by rewrite (proj2 (Z.eqb_neq (nValue o) (-1))) by lia.
Qed.

(** The created outputs are worth at most all outputs. *)
Lemma created_sum tx (f : nat -> Z) :
  Forall (fun o => 0 <= nValue o) (tx_vout tx) -> (forall i, f i = value (created tx i)) ->
  zsum (map f (seq 0 (length (tx_vout tx)))) <= zsum (map nValue (tx_vout tx)).
Proof.
  intros Hv Hf. rewrite (map_ext _ (fun i => value (created tx i))) by done. clear f Hf. unfold created.
  set (g := fun (l : list txout) i => value (o ← l !! i; if IsUnspendable (scriptPubKey o) then None else Some o)).
  change (zsum (map (g (tx_vout tx)) (seq 0 (length (tx_vout tx)))) <= zsum (map nValue (tx_vout tx))).
  induction Hv as [| o l Ho _ IH]; [done |]. cbn [length seq map zsum]. rewrite <-fmap_S_seq. change (?f <$> ?l) with (map f l).
  rewrite map_map. change (map (fun x => g (o :: l) (S x)) ?k) with (map (g l) k).
  assert (g (o :: l) 0%nat <= nValue o); [| lia]. unfold g. cbn [lookup list_lookup mbind option_bind].
  destruct (IsUnspendable (scriptPubKey o)); cbn [value]; lia.
Qed.

Section Ledger.
Context `{AnchorTree} {S : Type} `{!Store S} {sinv : S -> Prop} {sabs : S -> state}.
Context (HL : store_lawful sinv sabs).

Lemma spend_one_utxo s h n u s0 :
  sinv s -> utxo_inv (sabs s) -> modify s h (spend_coin n) = (Some u, s0) ->
  utxo (sabs s) (h, n) = Some (u_txout u) /\
  forall p, utxo (sabs s0) p = if decide (p = (h, n)) then None else utxo (sabs s) p.
Proof using HL.
  intros Hs Hu E. destruct (spend_one HL s h n u s0 Hs Hu E) as (_ & _ & _ & _ & _ & c & c1 & Ec & Esp & Hc).
  apply spend_coin_inv in Esp as (o & Hl & Ho & Hc1 & Hu1). split.
  - unfold utxo, live. cbn [fst snd]. rewrite Ec. cbn [mbind option_bind]. rewrite Hl. cbn [mbind option_bind].
    rewrite Ho, Hu1. by destruct (_ =? _)%nat.
  - intros [k m]. unfold utxo. cbn [fst snd]. rewrite Hc. destruct (decide (k = h)) as [-> | Hk].
    2:{ by rewrite decide_False by congruence. }
    rewrite live_norm, live_Cleanup, Hc1, live_Cleanup, Ec. cbn [mbind option_bind set_vout vout]. unfold live.
    destruct (decide ((h, m) = (h, n))) as [[= ->] | Hne].
    + rewrite list_lookup_insert_eq by (by eapply lookup_lt_Some). done.
    + rewrite list_lookup_insert_ne by congruence. done.
Qed.

(** The loop over the inputs removes them. *)
Lemma spend_inputs_utxo s tx vin undos s1 :
  sinv s -> utxo_inv (sabs s) -> spend_inputs false s tx vin = Some (undos, s1) ->
  (forall p, p ∈ map outpoint vin -> is_Some (utxo (sabs s) p)) /\
  forall p, utxo (sabs s1) p = if decide (p ∈ map outpoint vin) then None else utxo (sabs s) p.
Proof using HL.
  revert s undos. induction vin as [| [h n] vin IH]; intros s undos Hs Hu E; cbn [spend_inputs] in E.
  - injection E as <- <-. split; [by intros p Hp%elem_of_nil |]. intros p. by rewrite decide_False by apply not_elem_of_nil.
  - rewrite plain_pegs in E. cbn [andb] in E.
    destruct (modify s h (spend_coin (Z.to_nat n))) as [[u |] s0] eqn:Em; [| done].
    cbn [mbind option_bind] in E. destruct (spend_inputs false s0 tx vin) as [[us s1'] |] eqn:E1; [| done].
    cbn [mbind option_bind] in E. injection E as <- <-.
    destruct (spend_one HL s h _ u s0 Hs Hu Em) as (Hs0 & Hu0 & _).
    destruct (spend_one_utxo s h _ u s0 Hs Hu Em) as [Hav Hafter].
    destruct (IH s0 us Hs0 Hu0 E1) as (Hall & Hafter1). cbn [map]. change (outpoint (h, n)) with (h, Z.to_nat n). split.
    + intros p [-> | Hp]%elem_of_cons; [by rewrite Hav |]. specialize (Hall p Hp). rewrite Hafter in Hall.
      destruct (decide _); [by destruct Hall | done].
    + intros p. rewrite Hafter1, Hafter. destruct (decide (p ∈ map outpoint vin)) as [Hin | Hin].
      * by rewrite decide_True by (by right).
      * destruct (decide (p = (h, Z.to_nat n))) as [-> | Hne]; [by rewrite decide_True by left |].
        rewrite decide_False; [done |]. by intros [? | ?]%elem_of_cons.
Qed.

(** [UpdateCoins] on the ledger. *)
Record ledger_step (s s1 : state) (tx : ctx) : Prop := {
  ls_spent p : p ∈ spent_by tx -> is_Some (utxo s p);
  ls_distinct : NoDup (spent_by tx);
  ls_own p : p.1 = tx_hash tx -> utxo s1 p = created tx p.2;
  ls_other p : p.1 <> tx_hash tx -> utxo s1 p = if decide (p ∈ spent_by tx) then None else utxo s p;
}.

Lemma update_ledger s tx height undos s1 :
  tx_plain tx -> sinv s -> utxo_inv (sabs s) -> UpdateCoins false s tx height = Some (undos, s1) ->
  ledger_step (sabs s) (sabs s1) tx.
Proof using HL.
  intros (Hni & _ & Hv) Hs Hu E. destruct (update_inv HL s tx height undos s1 Hni Hs Hu E) as (sa & Ea & _ & _ & Hc & _).
  assert ((forall p, p ∈ spent_by tx -> is_Some (utxo (sabs s) p)) /\ NoDup (spent_by tx) /\
    forall p, utxo (sabs sa) p = if decide (p ∈ spent_by tx) then None else utxo (sabs s) p) as (H1 & H2 & H3).
  { unfold spent_by. destruct (IsMint tx); cbn [negb] in Ea.
    - injection Ea as <- <-. split; [by intros p Hp%elem_of_nil |]. split; [constructor |].
      intros p. by rewrite decide_False by apply not_elem_of_nil.
    - destruct (spend_inputs_utxo s tx _ undos sa Hs Hu Ea). by destruct (spend_inputs_once HL s tx _ undos sa Hs Hu Ea). }
  split; [done | done | |]; intros p Hp; unfold utxo at 1; rewrite Hc.
  - rewrite decide_True, live_norm, live_created by done. done.
  - rewrite decide_False by done. apply H3.
Qed.

(** A step moves the bound by what is created and spent. *)
Lemma worth_step s s1 tx X :
  ledger_step s s1 tx -> Forall (fun o => 0 <= nValue o) (tx_vout tx) -> (forall p, 0 <= value (utxo s p)) ->
  worth_at_most s X ->
  worth_at_most s1 (X - zsum (map (fun p => value (utxo s p)) (spent_by tx)) + zsum (map nValue (tx_vout tx))) /\
  (forall p, 0 <= value (utxo s1 p)).
Proof using.
  intros [Hsp Hd Hown Hoth] Hv Hpos HX.
  assert (forall i, 0 <= value (created tx i)) as Hcp.
  { intros i. unfold created. destruct (tx_vout tx !! i) as [o |] eqn:Eo; [| done]. cbn [mbind option_bind].
    destruct (IsUnspendable _); [done |]. by apply (Forall_lookup_1 _ _ _ _ Hv) in Eo. }
  assert (forall p, 0 <= value (utxo s1 p)) as Hpos1.
  { intros p. destruct (decide (p.1 = tx_hash tx)) as [E | E]; [rewrite Hown by done; apply Hcp |].
    rewrite Hoth by done. destruct (decide _); [done | apply Hpos]. }
  split; [| done]. intros P HP. set (f := fun p => value (utxo s p)). set (f1 := fun p => value (utxo s1 p)).
  set (own := map (pair (tx_hash tx)) (seq 0 (length (tx_vout tx)))).
  set (rest := filter (fun p => p.1 <> tx_hash tx /\ p ∉ spent_by tx) P).
  assert (zsum (map f1 P) <= zsum (map f1 (own ++ rest))) as H1.
  { apply zsum_cover; [done | done |]. intros p Hp. unfold f1. destruct (decide (p.1 = tx_hash tx)) as [E | E].
    - rewrite Hown by done. destruct (tx_vout tx !! p.2) as [o |] eqn:Eo.
      + left. apply elem_of_app. left. apply list_elem_of_fmap. exists p.2. split; [by destruct p; cbn in *; subst |].
        apply elem_of_seq. apply lookup_lt_Some in Eo. lia.
      + right. unfold created. by rewrite Eo.
    - rewrite Hoth by done. destruct (decide (p ∈ spent_by tx)) as [Hs | Hs]; [by right |].
      left. apply elem_of_app. right. by apply list_elem_of_filter. }
  assert (zsum (map f1 own) <= zsum (map nValue (tx_vout tx))) as H2.
  { unfold own. rewrite map_map. apply created_sum; [done |]. intros i. unfold f1. by rewrite Hown. }
  assert (zsum (map f1 rest) + zsum (map f (spent_by tx)) <= X) as H3.
  { assert (map f1 rest = map f rest) as ->.
    { apply map_ext_in. intros p [[E Hs] Hp]%list_elem_of_In%list_elem_of_filter. unfold f1, f. rewrite Hoth by done. by rewrite decide_False. }
    rewrite <-zsum_app, <-map_app. apply HX. apply NoDup_app. split; [by apply NoDup_filter |]. split; [| done].
    intros p [[_ Hs] _]%list_elem_of_filter. done. }
  rewrite map_app, zsum_app in H1. fold f1 f. lia.
Qed.

End Ledger.
