(* ===== verification/Inputs.v ===== *)
(** * The inputs of a transaction (src/src/main.cpp, coins.cpp, primitives/transaction.cpp)

    The values a transaction takes and gives, [Consensus::CheckTxInputs], the check
    of the scripts of its inputs by [ContextualCheckInputs], and the cache of
    verified signatures of script/serverchecker.cpp. *)
From Stdlib Require Import String.
From S2P Require Import Prelude HashStream Sha256 Coins Utxo Compact CoinsCodec Script Interp ScriptSpec Tx SigHash Upgrades TxCheck Ledger.
Import Tx.Tx TxCheck.TxCheck.
Local Open Scope string_scope.
Local Open Scope list_scope.
Local Open Scope Z_scope.

(** ** The cache of signatures *)

Section SigCache.
Context (Verify : list Z -> list Z -> list Z -> bool).

(** [setValid]: triples of a hash, a signature and a key. *)
Definition sigcache : Type := gset (list Z * list Z * list Z).
Definition cache_Get (c : sigcache) (sighash vchSig pubkey : list Z) : bool := bool_decide ((sighash, vchSig, pubkey) ∈ c).
(** [Set]; [evict] is the loop that erases random entries while there are too many. *)
Definition cache_Set (evict : sigcache -> sigcache) (nMaxCacheSize : Z) (c : sigcache) (sighash vchSig pubkey : list Z) : sigcache :=
  if nMaxCacheSize <=? 0 then c else {[ (sighash, vchSig, pubkey) ]} ∪ evict c.

(** [ServerTransactionSignatureChecker::VerifySignature]. *)
Definition server_VerifySignature (evict : sigcache -> sigcache) (nMaxCacheSize : Z) (store : bool) (c : sigcache)
    (vchSig pubkey sighash : list Z) : bool * sigcache :=
  if cache_Get c sighash vchSig pubkey then (true, c)
  else if negb (Verify pubkey sighash vchSig) then (false, c)
  else (true, if store then cache_Set evict nMaxCacheSize c sighash vchSig pubkey else c).

(** Every entry was verified. *)
Definition cache_sound (c : sigcache) : Prop := forall h sig pk, (h, sig, pk) ∈ c -> Verify pk h sig = true.

(** The cache does not change the answers, whatever is evicted. *)
Lemma cache_transparent evict nMax store c sig pk h :
  (forall c, evict c ⊆ c) -> cache_sound c ->
  (server_VerifySignature evict nMax store c sig pk h).1 = Verify pk h sig /\
  cache_sound (server_VerifySignature evict nMax store c sig pk h).2.
Proof using.
  intros He Hc. unfold server_VerifySignature, cache_Get. case_bool_decide as Hin; [by rewrite (Hc _ _ _ Hin) |].
  destruct (Verify pk h sig) eqn:Ev; cbn [negb fst snd]; [| done]. split; [done |]. destruct store; [| done].
  unfold cache_Set. destruct (_ <=? _); [done |]. intros h' sig' pk' [[= -> -> ->]%elem_of_singleton | H]%elem_of_union; [done |].
  apply Hc. by apply He.
Qed.

End SigCache.

Module Inputs.

(** ** Coinbase outputs *)

Record maturity := Maturity {
  COINBASE_MATURITY : Z;
  ASSETCHAINS_TIMELOCKGTE : Z;
  ASSETCHAINS_TIMEUNLOCKFROM : Z;
  ASSETCHAINS_TIMEUNLOCKTO : Z;
  ASSETCHAINS_MAGIC : Z;
  md_stack : vstate;   (* what [vcalc_sha256] finds on its stack *)
}.

Section Maturity.
Context (mt : maturity).

(** [(uint64_t)ASSETCHAINS_MAGIC << 32 + nHeight]: the shift is by [32 + nHeight],
    which is undefined from 64 on. *)
Definition prg_source (nHeight : Z) : option Z :=
  let k := u32 (32 + nHeight) in if 64 <=? k then None else Some (u64 (Z.shiftl (ASSETCHAINS_MAGIC mt) k)).
Definition hush_block_prg (nHeight : Z) : option Z :=
  hashSrc64 ← prg_source nHeight;
  h ← Sha256.vcalc_sha256 (md_stack mt) (le_bytes 8 hashSrc64);
  Some (fold_left (fun result b => u64 (u64 (Z.shiftl result 8) + b)) (take 8 h) 0).

Definition hush_block_unlocktime (nHeight : Z) : option Z :=
  let from := ASSETCHAINS_TIMEUNLOCKFROM mt in
  let to := ASSETCHAINS_TIMEUNLOCKTO mt in
  if from =? to then Some (s64 to)
  else
    prg ← hush_block_prg nHeight;
    let range := u64 (u64 (to - from) + 1) in
    if (range =? 0) || (0xffffffffffffffff / range =? 0) then None
    else
      let unlocktime := u64 (prg / (0xffffffffffffffff / range) + from) in
      Some (s64 (if to <? unlocktime then u64 (unlocktime - 1) else unlocktime)).

Definition TotalTxValue (c : coins) : Z := fold_left (fun total o => s64 (total + nValue o)) (Coins.vout c) 0.

(** The rules on spending an output of a coinbase. *)
Definition check_maturity (c : coins) (nSpendHeight : Z) : check unit :=
  if fCoinBase c then
    _ ← (if ASSETCHAINS_TIMELOCKGTE mt <=? u64 (TotalTxValue c) then
           unlockTime ← no_throw (hush_block_unlocktime (u32 (nHeight c)));
           reject_if (u64 nSpendHeight <? u64 unlockTime) 10 "bad-txns-premature-spend-of-coinbase"
         else Pass tt);
    reject_if (nSpendHeight - nHeight c <? COINBASE_MATURITY mt) 0 "bad-txns-premature-spend-of-coinbase"
  else Pass tt.
End Maturity.

(** ** Values *)

Section Values.
Context {HS : Hashes} (cfg : settings).

(** [x += v; if (!MoneyRange(v) || !MoneyRange(x)) throw]. *)
Definition add_value (x v : Z) : option Z :=
  let x := s64 (x + v) in
  if negb (MoneyRange cfg v) || negb (MoneyRange cfg x) then None else Some x.
Fixpoint add_values (x : Z) (l : list Z) : option Z :=
  match l with [] => Some x | v :: l => x ← add_value x v; add_values x l end.

Definition GetValueOut (tx : CTransaction) : option Z :=
  nValueOut ← add_values 0 (map nValue (vout tx));
  nValueOut ← (if valueBalance tx <=? 0 then add_value nValueOut (s64 (- valueBalance tx)) else Some nValueOut);
  add_values nValueOut (map vpub_old (vjoinsplit tx)).

Definition GetShieldedValueIn (tx : CTransaction) : option Z :=
  nValue ← (if 0 <=? valueBalance tx then add_value 0 (valueBalance tx) else Some 0);
  add_values nValue (map vpub_new (vjoinsplit tx)).

Context `{AnchorTree} {S : Type} `{!Utxo.Store S} (pegs : bool).
(** [GetCoinImportValue] and [VerifyCoinImport]. *)
Context (GetCoinImportValue : CTransaction -> Z) (VerifyCoinImport : CTransaction -> check unit).
Context (mt : maturity).

Definition IsPegsImport (tx : CTransaction) : bool := Utxo.IsPegsImport pegs (ctx_of tx).

(** [GetOutputFor]; [None] is a failed assertion. *)
Definition GetOutputFor (s : S) (p : COutPoint) : option txout * S :=
  let '(r, s) := Utxo.access s (hash p) in
  (match r with
   | Some c => if IsAvailable c (Z.to_nat (n p)) then Coins.vout c !! Z.to_nat (n p) else None
   | None => None
   end, s).

(** The loop of [GetValueIn]. *)
Fixpoint value_in_loop (s : S) (tx : CTransaction) (l : list CTxIn) (i : nat) (nResult : Z) : option Z * S :=
  match l with
  | [] => (Some nResult, s)
  | inp :: l =>
      if IsPegsImport tx && (i =? 0)%nat then value_in_loop s tx l (i + 1) (GetCoinImportValue tx)
      else
        let '(r, s) := GetOutputFor s (prevout inp) in
        match r with
        | Some o => value_in_loop s tx l (i + 1) (s64 (nResult + nValue o))
        | None => (None, s)
        end
  end.
Definition GetValueIn (s : S) (tx : CTransaction) : option Z * S :=
  if IsCoinImport tx then (Some (GetCoinImportValue tx), s)
  else if IsCoinBase tx then (Some 0, s)
  else
    let '(r, s) := value_in_loop s tx (vin tx) 0 0 in
    (nResult ← r; shielded ← GetShieldedValueIn tx; Some (s64 (nResult + shielded)), s).

(** The loop of [CheckTxInputs]. *)
Fixpoint check_inputs_loop (s : S) (tx : CTransaction) (nSpendHeight : Z) (l : list CTxIn) (i : nat) (nValueIn : Z) :
    check Z * S :=
  match l with
  | [] => (Pass nValueIn, s)
  | inp :: l =>
      if IsPegsImport tx && (i =? 0)%nat then check_inputs_loop s tx nSpendHeight l (i + 1) (GetCoinImportValue tx)
      else
        let '(r, s) := Utxo.access s (hash (prevout inp)) in
        match r with
        | None => (Threw, s)
        | Some c =>
            match check_maturity mt c nSpendHeight with
            | Pass _ =>
                match Coins.vout c !! Z.to_nat (n (prevout inp)) with
                | None => (Threw, s)
                | Some o =>
                    let nValueIn := s64 (nValueIn + nValue o) in
                    if negb (MoneyRange cfg (nValue o)) || negb (MoneyRange cfg nValueIn)
                    then (Reject 100 "bad-txns-inputvalues-outofrange", s)
                    else check_inputs_loop s tx nSpendHeight l (i + 1) nValueIn
                end
            | Reject d r => (Reject d r, s)
            | Threw => (Threw, s)
            end
        end
  end.

(** What follows the loop. *)
Definition check_values (tx : CTransaction) (nValueIn : Z) : check unit :=
  shielded ← no_throw (GetShieldedValueIn tx);
  let nValueIn := s64 (nValueIn + shielded) in
  _ ← reject_if (negb (MoneyRange cfg nValueIn)) 100 "bad-txns-inputvalues-outofrange";
  out ← no_throw (GetValueOut tx);
  _ ← reject_if (nValueIn <? out) 100 "bad-txns-in-belowout";
  let nTxFee := s64 (nValueIn - out) in
  _ ← reject_if (nTxFee <? 0) 100 "bad-txns-fee-negative";
  reject_if (negb (MoneyRange cfg nTxFee)) 100 "bad-txns-fee-outofrange".

(** [Consensus::CheckTxInputs]. *)
Definition CheckTxInputs (s : S) (tx : CTransaction) (nSpendHeight : Z) : check unit * S :=
  let '(ok, s) := Utxo.HaveInputs pegs s (ctx_of tx) in
  if negb ok then (Reject 0 "", s)
  else
    let '(ok, s) := Utxo.HaveShieldedRequirements s (ctx_of tx) in
    if negb ok then (Reject 0 "", s)
    else
      let '(r, s) := check_inputs_loop s tx nSpendHeight (vin tx) 0 0 in
      (nValueIn ← r; check_values tx nValueIn, s).

(** ** Scripts *)

Context {BL : Blake2b} (Verify : list Z -> list Z -> list Z -> bool).
(** [CheckCryptoCondition] of the checker, [CPubKey::CheckLowS], and the switch of crypto-conditions. *)
Context (check_cc : CTransaction -> Z -> Z -> list Z -> list Z -> list Z -> Z -> Z) (check_low_s : list Z -> bool) (cc_enabled : bool).

(** The checker of input [nIn]: [TransactionSignatureChecker] with the precomputed hashes. *)
Definition tx_checker (txTo : CTransaction) (nIn amount : Z) (txdata : SigHash.PrecomputedTransactionData) : Checker := {|
  CheckSig vchSig vchPubKey scriptCode branch :=
    match Checks.tx_CheckSig Verify txTo nIn amount (Some txdata) vchSig vchPubKey scriptCode branch with Value b => b | _ => false end;
  CheckLockTime nLock :=
    match vin txTo !! Z.to_nat nIn with Some inp => tx_CheckLockTime (nLockTime txTo) (nSequence inp) nLock | None => false end;
  CheckCryptoCondition := check_cc txTo nIn amount;
  CheckLowS := check_low_s;
|}.

(** [CScriptCheck::operator()]. *)
Definition script_check (tx : CTransaction) (txdata : SigHash.PrecomputedTransactionData) (nIn flags branch : Z) (inp : CTxIn) (o : txout) : bool :=
  match @VerifyScript (tx_checker tx nIn (nValue o) txdata) HS flags branch cc_enabled (scriptSig inp) (scriptPubKey o) with
  | Ret _ => true
  | _ => false
  end.

Definition MANDATORY_SCRIPT_VERIFY_FLAGS : Z := SCRIPT_VERIFY_P2SH.
Definition STANDARD_SCRIPT_VERIFY_FLAGS : Z :=
  fold_left Z.lor [SCRIPT_VERIFY_STRICTENC; SCRIPT_VERIFY_MINIMALDATA; SCRIPT_VERIFY_NULLDUMMY; SCRIPT_VERIFY_DISCOURAGE_UPGRADABLE_NOPS;
                   SCRIPT_VERIFY_CLEANSTACK; SCRIPT_VERIFY_CHECKLOCKTIMEVERIFY; SCRIPT_VERIFY_LOW_S] MANDATORY_SCRIPT_VERIFY_FLAGS.
Definition STANDARD_NOT_MANDATORY_VERIFY_FLAGS : Z := Z.land STANDARD_SCRIPT_VERIFY_FLAGS (Z.lnot MANDATORY_SCRIPT_VERIFY_FLAGS).

(** The loop over the scripts, when there are no threads to check them. *)
Fixpoint check_scripts (s : S) (tx : CTransaction) (txdata : SigHash.PrecomputedTransactionData) (flags branch : Z) (l : list CTxIn) (i : nat) :
    check unit * S :=
  match l with
  | [] => (Pass tt, s)
  | inp :: l =>
      if IsPegsImport tx && (i =? 0)%nat then check_scripts s tx txdata flags branch l (i + 1)
      else
        let '(r, s) := Utxo.access s (hash (prevout inp)) in
        match r ≫= (fun c => Coins.vout c !! Z.to_nat (n (prevout inp))) with
        | None => (Threw, s)
        | Some o =>
            if script_check tx txdata (Z.of_nat i) flags branch inp o then check_scripts s tx txdata flags branch l (i + 1)
            else if negb (Z.land flags STANDARD_NOT_MANDATORY_VERIFY_FLAGS =? 0)
                    && script_check tx txdata (Z.of_nat i) (Z.land flags (Z.lnot STANDARD_NOT_MANDATORY_VERIFY_FLAGS)) branch inp o
                 then (Reject 0 "non-mandatory-script-verify-flag", s)
                 else (Reject 100 "mandatory-script-verify-flag-failed", s)
        end
  end.

(** [ContextualCheckInputs]. *)
Definition ContextualCheckInputs (s : S) (tx : CTransaction) (fScriptChecks : bool) (flags branch nSpendHeight : Z)
    (txdata : SigHash.PrecomputedTransactionData) : check unit * S :=
  let '(r, s) :=
    if negb (IsMint tx) then
      let '(r, s) := CheckTxInputs s tx nSpendHeight in
      match r with
      | Pass _ => if fScriptChecks then check_scripts s tx txdata flags branch (vin tx) 0 else (Pass tt, s)
      | _ => (r, s)
      end
    else (Pass tt, s) in
  match r with
  | Pass _ => (if IsCoinImport tx || IsPegsImport tx then VerifyCoinImport tx else Pass tt, s)
  | _ => (r, s)
  end.

End Values.
End Inputs.

(** ** Lemmas *)

Module InputFacts.
Import Inputs TxFacts.

Lemma total_zsum l : total l = zsum (map nValue l).
Proof. induction l as [| o l IH]; cbn [total map zsum]; [done | by rewrite IH]. Qed.

Section Money.
Context {HS : Hashes} (cfg : settings).
Hypothesis money : 0 <= MAX_MONEY cfg < 2 ^ 62.

Lemma add_value_spec x v y :
  0 <= x <= MAX_MONEY cfg -> is_s64 v ->
  add_value cfg x v = Some y <-> y = x + v /\ 0 <= v <= MAX_MONEY cfg /\ y <= MAX_MONEY cfg.
Proof using money.
  intros Hx Hv. unfold add_value. destruct (MoneyRange cfg v) eqn:E1; cbn [negb orb].
  - apply MoneyRange_spec in E1. rewrite s64_id by (unfold is_s64; lia).
    destruct (MoneyRange cfg (x + v)) eqn:E2; cbn [negb].
    + apply MoneyRange_spec in E2. split; [intros [= <-]; lia | by intros [-> _]].
    + split; [done |]. intros (-> & _ & Hy). rewrite (proj2 (MoneyRange_spec cfg (x + v))) in E2 by lia. done.
  - split; [done |]. intros (_ & Hr & _). by rewrite (proj2 (MoneyRange_spec cfg v)) in E1.
Qed.

Lemma add_values_spec x l y :
  0 <= x <= MAX_MONEY cfg -> Forall is_s64 l -> add_values cfg x l = Some y ->
  y = x + zsum l /\ Forall (fun v => 0 <= v <= MAX_MONEY cfg) l /\ 0 <= y <= MAX_MONEY cfg.
Proof using money.
  intros Hx Hl. revert x Hx. induction Hl as [| v l Hv _ IH]; intros x Hx; cbn [add_values zsum].
  - intros [= <-]. split; [lia |]. split; [constructor | done].
  - destruct (add_value cfg x v) as [x1 |] eqn:E1; [| done]. cbn [mbind option_bind].
    apply add_value_spec in E1 as (-> & Hr & Hm); [| done | done]. intros (-> & Hf & Hy)%IH; [| lia].
    split; [lia |]. split; [by constructor | done].
Qed.

(** The amounts of a valid transaction are 64-bit. *)
Lemma amounts_s64 tx : valid transaction tx ->
  Forall is_s64 (map nValue (vout tx)) /\ is_s64 (valueBalance tx) /\ Forall is_s64 (map vpub_old (vjoinsplit tx)) /\
  Forall is_s64 (map vpub_new (vjoinsplit tx)).
Proof using.
  intros Hv%Commit.valid_lists. split; [| split; [apply Hv | split]]; rewrite Forall_fmap; (eapply Forall_impl; [apply Hv |]).
  - by intros o [? _].
  - by intros j [? _].
  - by intros j (_ & ? & _).
Qed.

Definition joinsplit_out (tx : CTransaction) : Z := zsum (map vpub_old (vjoinsplit tx)).
Definition joinsplit_in (tx : CTransaction) : Z := zsum (map vpub_new (vjoinsplit tx)).
Definition transparent_out (tx : CTransaction) : Z := zsum (map nValue (vout tx)).

Lemma amounts_nonneg l : Forall (fun v => 0 <= v <= MAX_MONEY cfg) l -> 0 <= zsum l.
Proof using. intros Hl. apply zsum_nonneg. eapply Forall_impl; [exact Hl |]. by intros v [? _]. Qed.

Lemma value_out_spec tx v :
  valid transaction tx -> GetValueOut cfg tx = Some v ->
  v = transparent_out tx + Z.max 0 (- valueBalance tx) + joinsplit_out tx /\ 0 <= v <= MAX_MONEY cfg /\ 0 <= joinsplit_out tx.
Proof using money.
  intros (H1 & H2 & H3 & _)%amounts_s64. unfold GetValueOut. destruct (add_values cfg 0 _) as [a |] eqn:Ea; [| done].
  cbn [mbind option_bind]. apply add_values_spec in Ea as (-> & _ & Ha); [| lia | done]. rewrite Z.add_0_l in *.
  fold (transparent_out tx) in *. unfold is_s64 in H2. destruct (Z.leb_spec (valueBalance tx) 0) as [Hb | Hb].
  - destruct (add_value cfg _ _) as [b |] eqn:Eb; [| done]. cbn [mbind option_bind].
    apply add_value_spec in Eb as (-> & Hr & Hm); [| done | unfold is_s64, s64; pose proof (Z.mod_pos_bound (- valueBalance tx + 2 ^ 63) (2 ^ 64) ltac:(lia)); lia].
    assert (s64 (- valueBalance tx) = - valueBalance tx) as Es.
    { destruct (decide (valueBalance tx = - 2 ^ 63)) as [E | E]; [rewrite E in Hr; vm_compute in Hr; destruct Hr as [[] _]; done |].
      apply s64_id. unfold is_s64. lia. }
    rewrite Es in *. intros (-> & Hf & Hy)%add_values_spec; [| lia | done]. apply amounts_nonneg in Hf. fold (joinsplit_out tx) in *. lia.
  - cbn [mbind option_bind]. intros (-> & Hf & Hy)%add_values_spec; [| lia | done]. apply amounts_nonneg in Hf. fold (joinsplit_out tx) in *. lia.
Qed.

Lemma shielded_in_spec tx v :
  valid transaction tx -> GetShieldedValueIn cfg tx = Some v ->
  v = Z.max 0 (valueBalance tx) + joinsplit_in tx /\ 0 <= v <= MAX_MONEY cfg.
Proof using money.
  intros (_ & H2 & _ & H4)%amounts_s64. unfold GetShieldedValueIn. destruct (Z.leb_spec 0 (valueBalance tx)) as [Hb | Hb].
  - destruct (add_value cfg _ _) as [b |] eqn:Eb; [| done]. cbn [mbind option_bind].
    apply add_value_spec in Eb as (-> & Hr & Hm); [| lia | done].
    intros (-> & _ & Hy)%add_values_spec; [| lia | done]. fold (joinsplit_in tx) in *. lia.
  - cbn [mbind option_bind]. intros (-> & _ & Hy)%add_values_spec; [| lia | done]. fold (joinsplit_in tx) in *. lia.
Qed.

Lemma check_values_spec tx v :
  valid transaction tx -> 0 <= v <= MAX_MONEY cfg -> check_values cfg tx v = Pass tt ->
  exists sh out, GetShieldedValueIn cfg tx = Some sh /\ GetValueOut cfg tx = Some out /\
    0 <= out <= v + sh /\ v + sh <= MAX_MONEY cfg.
Proof using money.
  intros Hv Hr. unfold check_values. intros (sh & Hsh%pass_no_throw & [Hm H]%pass_reject_bind)%pass_bind.
  pose proof (shielded_in_spec tx sh Hv Hsh) as [_ Bs]. rewrite s64_id in * by (unfold is_s64; lia).
  apply negb_false_iff, MoneyRange_spec in Hm. apply pass_bind in H as (out & Hout%pass_no_throw & [Hle%Z.ltb_ge _]%pass_reject_bind).
  pose proof (value_out_spec tx out Hv Hout) as [_ Bo]. exists sh, out. split; [done |]. split; [done |]. lia.
Qed.

End Money.
Section Reads.
Context {HS : Hashes} (cfg : settings).
Hypothesis money : 0 <= MAX_MONEY cfg < 2 ^ 62.
Context `{AnchorTree} {S : Type} `{!Utxo.Store S} {sinv : S -> Prop} {sabs : S -> state}.
Context (HL : Utxo.store_lawful sinv sabs).
Context (GetCoinImportValue : CTransaction -> Z) (VerifyCoinImport : CTransaction -> check unit) (mt : maturity).

(** The point an input spends. *)
Definition point_of (i : CTxIn) : list Z * nat := Utxo.outpoint (prevout_key (prevout i)).
Definition input_value (s : state) (i : CTxIn) : Z := value (utxo s (point_of i)).

(** The view was read and answers as before. *)
Definition only_read (s s' : S) : Prop := sinv s' /\ state_eq (sabs s') (sabs s).

Lemma only_read_refl s : sinv s -> only_read s s.
Proof using. done. Qed.
Lemma only_read_trans s1 s2 s3 : only_read s1 s2 -> only_read s2 s3 -> only_read s1 s3.
Proof using. intros [_ E1] [H2 E2]. split; [done | by etransitivity]. Qed.
Lemma only_read_utxo s s' p : only_read s s' -> utxo (sabs s') p = utxo (sabs s) p.
Proof using. intros [_ (E & _)]. unfold utxo. by rewrite E. Qed.

(** Reading the entry of an available output. *)
Lemma access_utxo s p r s' :
  sinv s -> Utxo.access s p.1 = (r, s') -> is_Some (utxo (sabs s) p) ->
  only_read s s' /\ exists c o, r = Some c /\ Coins.vout c !! p.2 = Some o /\ IsNull o = false /\ utxo (sabs s) p = Some o.
Proof using HL.
  intros Hs E Hp. pose proof (Utxo.sl_access _ _ HL s p.1 Hs) as Ha. rewrite E in Ha. destruct Ha as (Hs' & He & Hn).
  split; [done |]. unfold utxo in Hp |- *. rewrite <-Hn in Hp |- *. destruct r as [c |]; [| by destruct Hp].
  rewrite live_norm in Hp |- *. unfold live in *. destruct (Coins.vout c !! p.2) as [o |] eqn:Eo; [| by destruct Hp].
  cbn [mbind option_bind] in *. destruct (IsNull o) eqn:En; [by destruct Hp |]. exists c, o. rewrite En. done.
Qed.

Lemma pegs_false tx : IsPegsImport false tx = false.
Proof using. done. Qed.

(** The loop of [CheckTxInputs] adds up the values of the outputs. *)
Lemma check_loop_spec tx nSpend l :
  forall s i v v' s', sinv s -> 0 <= v <= MAX_MONEY cfg -> Forall (fun inp => is_Some (utxo (sabs s) (point_of inp))) l ->
  Forall (fun inp => is_s64 (input_value (sabs s) inp)) l ->
  check_inputs_loop cfg false GetCoinImportValue mt s tx nSpend l i v = (Pass v', s') ->
  only_read s s' /\ v' = v + zsum (map (input_value (sabs s)) l) /\ 0 <= v' <= MAX_MONEY cfg.
Proof using HL money.
  induction l as [| inp l IH]; intros s i v v' s' Hs Hv Hav H64; cbn [check_inputs_loop map zsum].
  - intros [= <- <-]. split; [by apply only_read_refl |]. lia.
  - apply Forall_cons in Hav as [Hp Hav]. apply Forall_cons in H64 as [H64i H64]. rewrite pegs_false. cbn [andb].
    destruct (Utxo.access s (hash (prevout inp))) as [r s1] eqn:Ea.
    destruct (access_utxo s (point_of inp) r s1 Hs Ea Hp) as (Hr & c & o & -> & Ho & _ & Eo).
    destruct (check_maturity mt c nSpend) as [[] | |]; [| done | done].
    change (Z.to_nat (n (prevout inp))) with (point_of inp).2. rewrite Ho.
    assert (input_value (sabs s) inp = nValue o) as Ev by (unfold input_value; by rewrite Eo). rewrite Ev in H64i.
    destruct (MoneyRange cfg (nValue o)) eqn:E1; cbn [negb orb]; [| done]. apply MoneyRange_spec in E1.
    rewrite s64_id by (unfold is_s64; lia).
    destruct (MoneyRange cfg (v + nValue o)) eqn:E2; cbn [negb]; [| done]. apply MoneyRange_spec in E2.
    intros E. assert (forall q, utxo (sabs s1) q = utxo (sabs s) q) as Hu by (intros q; by apply only_read_utxo).
    assert (map (input_value (sabs s1)) l = map (input_value (sabs s)) l) as Em
      by (apply map_ext; intros q; unfold input_value; by rewrite Hu).
    apply IH in E as (Hr' & -> & Hb); [| apply Hr | done | |].
    + rewrite Em, Ev. split; [by eapply only_read_trans |]. rewrite Em in Hb. lia.
    + eapply Forall_impl; [exact Hav |]. intros q. cbn beta. by rewrite Hu.
    + eapply Forall_impl; [exact H64 |]. intros q. unfold input_value. cbn beta. by rewrite Hu.
Qed.

(** The loop of [GetValueIn] does too. *)
Lemma value_in_loop_spec tx l :
  forall s i v, sinv s -> Forall (fun inp => is_Some (utxo (sabs s) (point_of inp))) l ->
  Forall (fun inp => 0 <= input_value (sabs s) inp) l -> 0 <= v -> v + zsum (map (input_value (sabs s)) l) < 2 ^ 63 ->
  exists s', value_in_loop false GetCoinImportValue s tx l i v = (Some (v + zsum (map (input_value (sabs s)) l)), s') /\ only_read s s'.
Proof using HL.
  induction l as [| inp l IH]; intros s i v Hs Hav Hpos Hv Hlt; cbn [value_in_loop map zsum] in *.
  - exists s. rewrite Z.add_0_r. split; [done | by apply only_read_refl].
  - apply Forall_cons in Hav as [Hp Hav]. apply Forall_cons in Hpos as [Hpi Hpos]. rewrite pegs_false. cbn [andb]. unfold GetOutputFor.
    destruct (Utxo.access s (hash (prevout inp))) as [r s1] eqn:Ea.
    destruct (access_utxo s (point_of inp) r s1 Hs Ea Hp) as (Hr & c & o & -> & Ho & Hn & Eo).
    change (Z.to_nat (n (prevout inp))) with (point_of inp).2. unfold IsAvailable. rewrite Ho, Hn. cbn [negb].
    assert (input_value (sabs s) inp = nValue o) as Ev by (unfold input_value; by rewrite Eo). rewrite Ev in *.
    assert (forall q, utxo (sabs s1) q = utxo (sabs s) q) as Hu by (intros q; by apply only_read_utxo).
    assert (map (input_value (sabs s1)) l = map (input_value (sabs s)) l) as Em
      by (apply map_ext; intros q; unfold input_value; by rewrite Hu).
    assert (0 <= zsum (map (input_value (sabs s)) l)) by (apply zsum_nonneg; by rewrite Forall_fmap).
    rewrite s64_id by (unfold is_s64; lia).
    destruct (IH s1 (i + 1)%nat (v + nValue o)) as (s' & E & Hr').
    + apply Hr.
    + eapply Forall_impl; [exact Hav |]. intros q. cbn beta. by rewrite Hu.
    + eapply Forall_impl; [exact Hpos |]. intros q. unfold input_value. cbn beta. by rewrite Hu.
    + lia.
    + rewrite Em. lia.
    + exists s'. rewrite E, Em. split; [do 2 f_equal; lia | by eapply only_read_trans].
Qed.

Lemma have_inputs_utxo s tx s' :
  sinv s -> IsMint tx = false -> Utxo.HaveInputs false s (ctx_of tx) = (true, s') ->
  only_read s s' /\ Forall (fun inp => is_Some (utxo (sabs s) (point_of inp))) (vin tx).
Proof using HL.
  intros Hs Hm E. unfold Utxo.HaveInputs in E. change (Utxo.IsMint (ctx_of tx)) with (IsMint tx) in E. rewrite Hm in E. cbn [negb] in E.
  pose proof (Utxo.have_inputs_spec HL s (ctx_of tx) (Utxo.tx_vin (ctx_of tx)) 0 Hs) as Hi. rewrite E in Hi.
  destruct Hi as (Hs' & He & Hb). split; [done |]. symmetry in Hb. rewrite forallb_forall in Hb. apply Forall_forall. intros inp Hin.
  specialize (Hb (prevout_key (prevout inp))). change (Utxo.available (sabs s) (prevout_key (prevout inp))) with (Utxo.unspent (sabs s) (point_of inp)) in Hb.
  rewrite utxo_available in Hb. apply bool_decide_eq_true in Hb; [done |]. apply list_elem_of_In. cbn [ctx_of Utxo.tx_vin].
  apply list_elem_of_fmap. by exists inp.
Qed.

(** What [CheckTxInputs] ensures: the inputs are unspent, and together with the shielded
    value they cover the outputs, all in the money range. *)
Record inputs_cover (s : state) (tx : CTransaction) (sh out : Z) : Prop := {
  ic_unspent : Forall (fun inp => is_Some (utxo s (point_of inp))) (vin tx);
  ic_shielded : GetShieldedValueIn cfg tx = Some sh;
  ic_out : GetValueOut cfg tx = Some out;
  ic_cover : 0 <= out <= zsum (map (input_value s) (vin tx)) + sh;
  ic_range : 0 <= zsum (map (input_value s) (vin tx)) <= MAX_MONEY cfg /\ zsum (map (input_value s) (vin tx)) + sh <= MAX_MONEY cfg;
}.

Lemma check_tx_inputs_spec s tx nSpend s' :
  sinv s -> valid transaction tx -> IsMint tx = false -> (forall p, is_s64 (value (utxo (sabs s) p))) ->
  CheckTxInputs cfg false GetCoinImportValue mt s tx nSpend = (Pass tt, s') ->
  only_read s s' /\ exists sh out, inputs_cover (sabs s) tx sh out.
Proof using HL money.
  intros Hs Hv Hm H64 E. unfold CheckTxInputs in E.
  destruct (Utxo.HaveInputs false s (ctx_of tx)) as [ok s1] eqn:E1. destruct ok; [| done]. cbn [negb] in E.
  destruct (have_inputs_utxo s tx s1 Hs Hm E1) as [R1 Hav]. pose proof R1 as [Hs1 He1].
  pose proof (Utxo.have_shielded_spec HL s1 (Utxo.tx_spends (ctx_of tx)) Hs1) as Hsh. unfold Utxo.HaveShieldedRequirements in E.
  destruct (Utxo.have_shielded s1 _) as [ok s2]. destruct Hsh as (Hs2 & He2 & _). destruct ok; [| done]. cbn [negb] in E.
  assert (only_read s s2) as R2 by (eapply only_read_trans; [exact R1 | by split]).
  destruct (check_inputs_loop cfg false GetCoinImportValue mt s2 tx nSpend (vin tx) 0 0) as [r s3] eqn:E3.
  injection E as E <-. destruct r as [v | |]; [| done | done]. cbn [mbind check_bind] in E.
  assert (forall q, utxo (sabs s2) q = utxo (sabs s) q) as Hu by (intros q; by apply only_read_utxo).
  apply check_loop_spec in E3 as (R3 & -> & Hb); [| done | lia | |].
  - rewrite (map_ext _ (input_value (sabs s))) in E, Hb by (intros q; unfold input_value; by rewrite Hu). rewrite Z.add_0_l in *.
    split; [by eapply only_read_trans |]. destruct (check_values_spec cfg money tx _ Hv Hb E) as (sh & out & ? & ? & ? & ?).
    exists sh, out. by split.
  - eapply Forall_impl; [exact Hav |]. intros q. cbn beta. by rewrite Hu.
  - apply Forall_forall. intros q _. unfold input_value. rewrite Hu. apply H64.
Qed.

Context {BL : Blake2b} (Verify : list Z -> list Z -> list Z -> bool).
Context (check_cc : CTransaction -> Z -> Z -> list Z -> list Z -> list Z -> Z -> Z) (check_low_s : list Z -> bool) (cc_enabled : bool).

(** The loop over the scripts runs each one against the output it spends. *)
Lemma check_scripts_spec tx txdata flags br l :
  forall s i s', sinv s -> Forall (fun inp => is_Some (utxo (sabs s) (point_of inp))) l ->
  check_scripts false Verify check_cc check_low_s cc_enabled s tx txdata flags br l i = (Pass tt, s') ->
  only_read s s' /\ forall k inp, l !! k = Some inp -> exists o, utxo (sabs s) (point_of inp) = Some o /\
    script_check Verify check_cc check_low_s cc_enabled tx txdata (Z.of_nat (i + k)) flags br inp o = true.
Proof using HL.
  induction l as [| inp l IH]; intros s i s' Hs Hav; cbn [check_scripts].
  - intros [= <-]. split; [by apply only_read_refl |]. intros k inp Hl. by rewrite lookup_nil in Hl.
  - apply Forall_cons in Hav as [Hp Hav]. rewrite pegs_false. cbn [andb].
    destruct (Utxo.access s (hash (prevout inp))) as [r s1] eqn:Ea.
    destruct (access_utxo s (point_of inp) r s1 Hs Ea Hp) as (Hr & c & o & -> & Ho & _ & Eo). cbn [mbind option_bind].
    change (Z.to_nat (n (prevout inp))) with (point_of inp).2. rewrite Ho.
    destruct (script_check _ _ _ _ _ _ _ _ _ _ _) eqn:Esc; [| by destruct (_ && _)]. intros E.
    assert (forall q, utxo (sabs s1) q = utxo (sabs s) q) as Hu by (intros q; by apply only_read_utxo).
    apply IH in E as [Hr' Hall]; [| apply Hr | eapply Forall_impl; [exact Hav |]; intros q; cbn beta; by rewrite Hu].
    split; [by eapply only_read_trans |]. intros [| k] inp' Hl.
    + injection Hl as <-. exists o. split; [done |]. by rewrite Nat.add_0_r.
    + destruct (Hall k inp' Hl) as (o' & Ho' & Hsc). exists o'. rewrite <-Hu. split; [done |].
      by replace (i + Datatypes.S k)%nat with (i + 1 + k)%nat by lia.
Qed.

(** What [ContextualCheckInputs] ensures of a transaction that is not a coinbase or an import. *)
Lemma contextual_inputs_spec s tx scripts flags br nSpend txdata s' :
  sinv s -> valid transaction tx -> IsMint tx = false -> (forall p, is_s64 (value (utxo (sabs s) p))) ->
  ContextualCheckInputs cfg false GetCoinImportValue VerifyCoinImport mt Verify check_cc check_low_s cc_enabled
    s tx scripts flags br nSpend txdata = (Pass tt, s') ->
  only_read s s' /\ (exists sh out, inputs_cover (sabs s) tx sh out) /\
  (scripts = true -> forall k inp, vin tx !! k = Some inp -> exists o, utxo (sabs s) (point_of inp) = Some o /\
     script_check Verify check_cc check_low_s cc_enabled tx txdata (Z.of_nat k) flags br inp o = true).
Proof using HL money.
  intros Hs Hv Hm H64 E. unfold ContextualCheckInputs in E. rewrite Hm in E. cbn [negb] in E.
  destruct (CheckTxInputs _ _ _ _ s tx nSpend) as [r s1] eqn:E1. destruct r as [[] | |]; [| by injection E | by injection E].
  destruct (check_tx_inputs_spec s tx nSpend s1 Hs Hv Hm H64 E1) as (R1 & sh & out & Hic).
  assert (forall q, utxo (sabs s1) q = utxo (sabs s) q) as Hu by (intros q; by apply only_read_utxo).
  destruct scripts.
  - destruct (check_scripts _ _ _ _ _ s1 tx txdata flags br (vin tx) 0) as [r s2] eqn:E2.
    destruct r as [[] | |]; [| by injection E | by injection E].
    assert (Forall (fun inp => is_Some (utxo (sabs s1) (point_of inp))) (vin tx)) as Hav1
      by (eapply Forall_impl; [exact (ic_unspent _ _ _ _ Hic) |]; intros q; cbn beta; by rewrite Hu).
    apply check_scripts_spec in E2 as [R2 Hall]; [| apply R1 | done].
    injection E as _ <-. split; [by eapply only_read_trans |]. split; [by exists sh, out |]. intros _ k inp Hl.
    destruct (Hall k inp Hl) as (o & Ho & Hsc). exists o. rewrite <-Hu. done.
  - injection E as _ <-. split; [done |]. split; [by exists sh, out | done].
Qed.

End Reads.
End InputFacts.
