(* ===== verification/Money.v ===== *)
(** * Connecting a block: scripts and money (src/src/main.cpp, [ConnectBlock])

    The whole loop over the transactions of a block with the checks that [Utxo]
    leaves out: signature operations, values and fees, scripts; and the limit on
    what the coinbase pays.  Every transaction is checked against the view that
    the ones before it left. *)
From Stdlib Require Import String.
From S2P Require Import Prelude HashStream Coins Utxo Compact CoinsCodec Script Interp ScriptSpec Tx SigHash Upgrades TxCheck Ledger Inputs.
Import Tx.Tx TxCheck.TxCheck Inputs.Inputs.
Local Open Scope string_scope.
Local Open Scope list_scope.
Local Open Scope Z_scope.

(** ** Checks that change the view *)

Definition viewing (S A : Type) : Type := S -> check A * S.
#[export] Instance viewing_ret {S} : MRet (viewing S) := fun A a s => (Pass a, s).
#[export] Instance viewing_bind {S} : MBind (viewing S) := fun A B f m s =>
  match m s with (Pass a, s) => f a s | (Reject d r, s) => (Reject d r, s) | (Threw, s) => (Threw, s) end.
Definition pure {S A} (c : check A) : viewing S A := fun s => (c, s).
Definition look {S A} (f : S -> A * S) : viewing S A := fun s => let '(a, s) := f s in (Pass a, s).
Definition update {S A} (f : S -> option (A * S)) : viewing S A :=
  fun s => match f s with Some (a, s) => (Pass a, s) | None => (Threw, s) end.
Definition set {S} (f : S -> S) : viewing S unit := fun s => (Pass tt, f s).

Lemma viewing_bind_pass {S A B} (m : viewing S A) (k : A -> viewing S B) s b s' :
  (m ≫= k) s = (Pass b, s') -> exists a s1, m s = (Pass a, s1) /\ k a s1 = (Pass b, s').
Proof. unfold mbind, viewing_bind. destruct (m s) as [[a | |] s1]; [by eauto | done | done]. Qed.
Lemma pure_pass {S A} (c : check A) (s : S) a s' : pure c s = (Pass a, s') -> c = Pass a /\ s' = s.
Proof. by intros [= -> ->]. Qed.
Lemma look_pass {S A} (f : S -> A * S) s a s' : look f s = (Pass a, s') -> f s = (a, s').
Proof. unfold look. destruct (f s). by intros [= -> ->]. Qed.
Lemma update_pass {S A} (f : S -> option (A * S)) s a s' : update f s = (Pass a, s') -> f s = Some (a, s').
Proof. unfold update. destruct (f s) as [[] |]; [by intros [= -> ->] | done]. Qed.
Lemma set_pass {S} (f : S -> S) s a s' : set f s = (Pass a, s') -> s' = f s.
Proof. by intros [= _ <-]. Qed.

Module Money.

Definition COIN : Z := 100000000.
Definition HUSH_VALUETOOBIG (x : Z) : bool := u64 (10000000001 * COIN) <? x.
Definition HUSH_NOTARIES_HEIGHT1 : Z := 814000.

(** The settings that the loop reads, and those of the rewards. *)
Record chain := Chain {
  ch_cfg : settings;
  ch_maturity : maturity;
  ch_max_size : Z;
  ch_max_sigops : Z;
  ch_symbol_set : bool;       (* SMART_CHAIN_SYMBOL[0] != 0 *)
  ch_genesis : list Z;
  ch_cc_enabled : bool;
}.

(** A block with what its height fixes: the branch id, the reward
    ([GetBlockSubsidy], and [notarypaycheque] when the block pays notaries) and
    [the_commission]. *)
Record fullblock := FullBlock {
  fb_hash : list Z; fb_prev : list Z; fb_height : Z; fb_size : Z; fb_tiptime : Z; fb_vtx : list CTransaction;
  fb_sapling : bool; fb_root : list Z; fb_branch : Z; fb_reward : Z; fb_commission : Z;
}.

Section Connect.
Context {HS : Hashes} {BL : Blake2b} `{AnchorTree} {S : Type} `{!Utxo.Store S}.
Context (ch : chain) (pegs : bool) (tree_append : atree -> list Z -> option atree).
Context (GetCoinImportValue : CTransaction -> Z) (VerifyCoinImport : CTransaction -> check unit).
Context (Verify : list Z -> list Z -> list Z -> bool).
Context (check_cc : CTransaction -> Z -> Z -> list Z -> list Z -> list Z -> Z -> Z) (check_low_s : list Z -> bool).

(** The loop of [GetP2SHSigOpCount]. *)
Fixpoint p2sh_sigops (tx : CTransaction) (l : list CTxIn) (i : nat) (nSigOps : Z) : viewing S Z :=
  match l with
  | [] => mret nSigOps
  | inp :: l =>
      if IsPegsImport pegs tx && (i =? 0)%nat then p2sh_sigops tx l (i + 1) nSigOps
      else
        r ← look (fun s => GetOutputFor s (prevout inp));
        o ← pure (no_throw r);
        if IsPayToScriptHash (scriptPubKey o) then
          k ← pure (no_throw (GetSigOpCountP2SH (scriptPubKey o) (scriptSig inp)));
          p2sh_sigops tx l (i + 1) (u32 (nSigOps + k))
        else p2sh_sigops tx l (i + 1) nSigOps
  end.
Definition GetP2SHSigOpCount (tx : CTransaction) : viewing S Z :=
  if IsCoinBase tx || IsCoinImport tx then mret 0 else p2sh_sigops tx (vin tx) 0 0.

Definition block_flags : Z := Z.lor SCRIPT_VERIFY_P2SH SCRIPT_VERIFY_CHECKLOCKTIMEVERIFY.

(** The checks of the inputs that come first in an iteration: the new [nSigOps]. *)
Definition check_present (tx : CTransaction) (nSigOps : Z) : viewing S Z :=
  ok ← look (fun s => Utxo.HaveInputs pegs s (ctx_of tx));
  _ ← pure (reject_if (negb ok) 100 "bad-txns-inputs-missingorspent");
  ok ← look (fun s => Utxo.HaveShieldedRequirements s (ctx_of tx));
  _ ← pure (reject_if (negb ok) 100 "bad-txns-joinsplit-requirements-not-met");
  k ← GetP2SHSigOpCount tx;
  let nSigOps := u32 (nSigOps + k) in
  _ ← pure (reject_if (ch_max_sigops ch <? nSigOps) 100 "bad-blk-sigops");
  mret nSigOps.

(** The values and the scripts of a transaction that is not the coinbase: the new [nFees].
    [fExpensiveChecks] is off below a checkpoint. *)
Definition check_paid (fExpensiveChecks : bool) (b : fullblock) (tx : CTransaction) (txdata : SigHash.PrecomputedTransactionData)
    (nFees valueout : Z) : viewing S Z :=
  r ← look (fun s => GetValueIn (ch_cfg ch) pegs GetCoinImportValue s tx);
  valuein ← pure (no_throw r);
  _ ← ((fun s => ContextualCheckInputs (ch_cfg ch) pegs GetCoinImportValue VerifyCoinImport (ch_maturity ch) Verify check_cc
                  check_low_s (ch_cc_enabled ch) s tx fExpensiveChecks block_flags (fb_branch b) (fb_height b) txdata) : viewing S unit);
  mret (s64 (nFees + (valuein - valueout))).

(** One iteration up to [UpdateCoins]: the new [nFees] and [nSigOps]. *)
Definition check_step (fExpensiveChecks : bool) (b : fullblock) (tx : CTransaction) (nFees nSigOps : Z) : viewing S (Z * Z) :=
  k ← pure (no_throw (GetLegacySigOpCount tx));
  let nSigOps := u32 (nSigOps + k) in
  _ ← pure (reject_if (ch_max_sigops ch <? nSigOps) 100 "bad-blk-sigops");
  nSigOps ← (if negb (IsMint tx) then check_present tx nSigOps else mret nSigOps);
  txdata ← pure (match SigHash.precompute tx with Value d => Pass d | _ => Threw end);
  valueout ← pure (no_throw (GetValueOut (ch_cfg ch) tx));
  _ ← pure (reject_if (HUSH_VALUETOOBIG (u64 valueout)) 100 "tx valueout is too big");
  nFees ← (if negb (IsCoinBase tx) then check_paid fExpensiveChecks b tx txdata nFees valueout else mret nFees);
  mret (nFees, nSigOps).

(** The loop; [first] is [i == 0], whose undo data is dropped. *)
Fixpoint connect_loop (fExpensiveChecks : bool) (b : fullblock) (first : bool) (txs : list CTransaction) (t : atree) (nFees nSigOps : Z) :
    viewing S (list (list Utxo.txinundo) * atree * Z) :=
  match txs with
  | [] => mret ([], t, nFees)
  | tx :: txs =>
      '(nFees, nSigOps) ← check_step fExpensiveChecks b tx nFees nSigOps;
      undo ← update (fun s => Utxo.UpdateCoins pegs s (ctx_of tx) (fb_height b));
      t ← pure (no_throw (Utxo.append_cms tree_append t (Utxo.tx_cms (ctx_of tx))));
      '(vtxundo, t, nFees) ← connect_loop fExpensiveChecks b false txs t nFees nSigOps;
      mret (if first then vtxundo else undo :: vtxundo, t, nFees)
  end.

(** The limit on the coinbase. [dstr(block.vtx[0].vout[1].nValue)] of the message reads the
    second output, also when there is none. *)
Definition check_reward (b : fullblock) (cb : CTransaction) (nFees : Z) : check unit :=
  let blockReward := s64 (fb_reward b + nFees) in
  blockReward ← (if fb_commission b =? 0 then Pass blockReward
                 else if (2 <=? Zlen (vout cb)) && bool_decide ((nValue <$> vout cb !! 1%nat) = Some (fb_commission b))
                 then Pass (s64 (blockReward + fb_commission b))
                 else if (1 <? fb_height b) && (Zlen (vout cb) <? 2) then Threw
                 else Pass blockReward);
  out ← no_throw (GetValueOut (ch_cfg ch) cb);
  _ ← reject_if (ch_symbol_set ch && (fb_height b =? 1) && negb (out =? blockReward)) 100 "bad-cb-amount";
  if blockReward <? out then
    match vout cb with
    | [] => if ch_symbol_set ch || (HUSH_NOTARIES_HEIGHT1 <=? fb_height b) then Reject 100 "bad-cb-amount" else Threw
    | o :: _ => reject_if (ch_symbol_set ch || (HUSH_NOTARIES_HEIGHT1 <=? fb_height b) || (blockReward <? nValue o)) 100 "bad-cb-amount"
    end
  else Pass tt.

(** [ConnectBlock], [fJustCheck] false: the undo data. *)
Definition ConnectBlock (fExpensiveChecks skip : bool) (b : fullblock) : viewing S (list (list Utxo.txinundo)) :=
  _ ← pure (check_block_body (ch_cfg ch) (ch_max_size ch) (ch_max_sigops ch) (fb_size b) (fb_tiptime b) skip (fb_vtx b));
  best ← look Utxo.best_block;
  _ ← pure (reject_if (negb (bool_decide (fb_prev b = best))) 1 "hashPrevBlock-not-bestblock");
  if bool_decide (fb_hash b = ch_genesis ch) then _ ← set (fun s => Utxo.set_best s (fb_hash b)); mret []
  else
    ok ← look (fun s => Utxo.bip30 s (map ctx_of (fb_vtx b)));
    _ ← pure (reject_if (negb ok) 100 "bad-txns-BIP30");
    rt ← look Utxo.best_anchor;
    r ← look (fun s => Utxo.anchor_at s rt);
    t ← pure (no_throw r);
    '(vtxundo, t, nFees) ← connect_loop fExpensiveChecks b true (fb_vtx b) t 0 0;
    _ ← set (fun s => Utxo.push_anchor s t);
    _ ← pure (reject_if (fb_sapling b && negb (bool_decide (fb_root b = aroot t))) 100 "bad-sapling-root-in-block");
    _ ← pure (match fb_vtx b with cb :: _ => check_reward b cb nFees | [] => Threw end);
    _ ← set (fun s => Utxo.set_best s (fb_hash b));
    mret vtxundo.

End Connect.
End Money.

(** ** What a connected block went through *)

Module MoneyFacts.
Import Money TxFacts TxCompose InputFacts.

Lemma pure_reject_pass {S} b d r (s : S) u s' : pure (reject_if b d r) s = (Pass u, s') -> b = false /\ s' = s.
Proof. destruct b; [done | by intros [= _ <-]]. Qed.

Section Facts.
Context {HS : Hashes} {BL : Blake2b} `{AnchorTree} {S : Type} `{!Utxo.Store S} {sinv : S -> Prop} {sabs : S -> state}.
Context (HL : Utxo.store_lawful sinv sabs).
Context (ch : chain) (tree_append : atree -> list Z -> option atree).
Context (GetCoinImportValue : CTransaction -> Z) (VerifyCoinImport : CTransaction -> check unit).
Context (Verify : list Z -> list Z -> list Z -> bool).
Context (check_cc : CTransaction -> Z -> Z -> list Z -> list Z -> list Z -> Z -> Z) (check_low_s : list Z -> bool).
Hypothesis money : 0 <= MAX_MONEY (ch_cfg ch) < 2 ^ 60.

Abbreviation only_read := (only_read (sinv := sinv) (sabs := sabs)).
Abbreviation check_step := (check_step ch false GetCoinImportValue VerifyCoinImport Verify check_cc check_low_s).
Abbreviation connect_loop := (connect_loop ch false tree_append GetCoinImportValue VerifyCoinImport Verify check_cc check_low_s).

Lemma access_reads s h r s' : sinv s -> Utxo.access s h = (r, s') -> only_read s s'.
Proof using HL. intros Hs E. pose proof (Utxo.sl_access _ _ HL s h Hs) as Ha. rewrite E in Ha. by destruct Ha as (? & ? & _). Qed.

Lemma p2sh_reads tx l i k s k' s' : sinv s -> p2sh_sigops false tx l i k s = (Pass k', s') -> only_read s s'.
Proof using HL.
  revert i k s. induction l as [| inp l IH]; intros i k s Hs; cbn [p2sh_sigops].
  - intros [= _ <-]. by apply only_read_refl.
  - rewrite pegs_false. cbn [andb]. intros (r & s1 & E1%look_pass & E)%viewing_bind_pass.
    apply viewing_bind_pass in E as (o & s2 & [_ ->]%pure_pass & E).
    assert (only_read s s1) as R1.
    { unfold GetOutputFor in E1. destruct (Utxo.access s (hash (prevout inp))) as [r' s''] eqn:Ea. injection E1 as _ ->. by eapply access_reads. }
    assert (sinv s1) as Hs1 by apply R1.
    destruct (IsPayToScriptHash _).
    + apply viewing_bind_pass in E as (k1 & s3 & [_ ->]%pure_pass & E). eapply only_read_trans; [exact R1 |]. by eapply IH.
    + eapply only_read_trans; [exact R1 |]. by eapply IH.
Qed.

Lemma value_in_reads tx l i v s r s' : sinv s -> value_in_loop false GetCoinImportValue s tx l i v = (r, s') -> only_read s s'.
Proof using HL.
  revert i v s. induction l as [| inp l IH]; intros i v s Hs; cbn [value_in_loop]; [intros [= _ <-]; by apply only_read_refl |].
  rewrite pegs_false. cbn [andb]. unfold GetOutputFor. destruct (Utxo.access s (hash (prevout inp))) as [c s1] eqn:Ea.
  pose proof (access_reads s _ c s1 Hs Ea) as R. intros E. destruct (match c with Some _ => _ | None => None end) as [o |].
  - eapply only_read_trans; [exact R |]. eapply IH; [apply R | exact E].
  - by injection E as _ <-.
Qed.

Lemma inputs_cover_eq s s' tx sh out :
  (forall p, utxo s' p = utxo s p) -> inputs_cover (ch_cfg ch) s' tx sh out -> inputs_cover (ch_cfg ch) s tx sh out.
Proof using.
  intros E [H1 H2 H3 H4 H5]. assert (map (input_value s') (vin tx) = map (input_value s) (vin tx)) as Em.
  { apply map_ext. intros i. unfold input_value. by rewrite E. }
  rewrite Em in *. split; [| done | done | done | done]. eapply Forall_impl; [exact H1 |]. intros i. cbn beta. by rewrite E.
Qed.

(** The inputs a transaction that is not a mint takes, the scripts that allow it, and
    its fee. *)
Record paid (fx : bool) (br : Z) (s : state) (tx : CTransaction) (fee : Z) : Prop := {
  pd_cover : exists sh out, inputs_cover (ch_cfg ch) s tx sh out /\ fee = zsum (map (input_value s) (vin tx)) + sh - out;
  pd_scripts : fx = true -> exists d, SigHash.precompute tx = Value d /\ forall k inp, vin tx !! k = Some inp ->
    exists o, utxo s (point_of inp) = Some o /\
      script_check Verify check_cc check_low_s (ch_cc_enabled ch) tx d (Z.of_nat k) block_flags br inp o = true;
}.

Lemma paid_eq fx br s s' tx fee : (forall p, utxo s' p = utxo s p) -> paid fx br s' tx fee -> paid fx br s tx fee.
Proof using.
  intros E [(sh & out & Hic & ->) Hsc]. split.
  - exists sh, out. split; [by apply (inputs_cover_eq s s') |]. f_equal. f_equal. f_equal. apply map_ext. intros i.
    unfold input_value. by rewrite E.
  - intros Hfx. destruct (Hsc Hfx) as (d & Hd & Hall). exists d. split; [done |]. intros k inp Hk.
    destruct (Hall k inp Hk) as (o & Ho & Hok). exists o. by rewrite <-E.
Qed.

Lemma present_facts tx k s k' s' :
  sinv s -> IsMint tx = false -> check_present ch false tx k s = (Pass k', s') ->
  only_read s s' /\ Forall (fun d => s_nullifier (sabs s) (Utxo.sp_nullifier d) = false) (Utxo.tx_spends (ctx_of tx)).
Proof using HL.
  intros Hs Em E. unfold check_present in E.
  apply viewing_bind_pass in E as (ok & sa & Ea%look_pass & E). apply viewing_bind_pass in E as (u1 & s0 & [Hok ->]%pure_reject_pass & E).
  destruct ok; [| done]. destruct (have_inputs_utxo HL s tx sa Hs Em Ea) as [Ra _].
  apply viewing_bind_pass in E as (ok & sb & Eb%look_pass & E). apply viewing_bind_pass in E as (u2 & s0 & [Hok' ->]%pure_reject_pass & E).
  destruct ok; [| done]. pose proof Ra as [Hsa Hea].
  pose proof (Utxo.have_shielded_spec HL sa (Utxo.tx_spends (ctx_of tx)) Hsa) as Hsh. unfold Utxo.HaveShieldedRequirements in Eb.
  rewrite Eb in Hsh. destruct Hsh as (Hsb & Heb & Hb).
  apply viewing_bind_pass in E as (k3 & sc & Ec & E). apply viewing_bind_pass in E as (u3 & s0 & [_ ->]%pure_pass & [= _ <-]).
  assert (only_read sb sc) as Rc.
  { unfold GetP2SHSigOpCount in Ec. destruct (_ || _); [injection Ec as _ <-; by apply only_read_refl | by eapply p2sh_reads]. }
  split; [eapply only_read_trans; [exact Ra |]; eapply only_read_trans; [by split | exact Rc] |].
  symmetry in Hb. rewrite forallb_forall in Hb. apply List.Forall_forall. intros d Hd. specialize (Hb d Hd).
  apply andb_prop in Hb as [Hb%negb_true_iff _]. destruct Hea as (_ & Hn & _). by rewrite <-Hn.
Qed.

Lemma paid_facts fx b tx d f out s f1 s1 :
  valid transaction tx -> IsMint tx = false -> SigHash.precompute tx = Value d -> GetValueOut (ch_cfg ch) tx = Some out ->
  sinv s -> (forall p, 0 <= value (utxo (sabs s) p) < 2 ^ 62) ->
  check_paid ch false GetCoinImportValue VerifyCoinImport Verify check_cc check_low_s fx b tx d f out s = (Pass f1, s1) ->
  only_read s s1 /\ exists fee, paid fx (fb_branch b) (sabs s) tx fee /\ f1 = s64 (f + fee).
Proof using HL money.
  intros Hv Hm Hd Hout Hs Hval E. unfold check_paid in E. unfold IsMint in Hm. apply orb_false_iff in Hm as [Himp Hcb].
  apply viewing_bind_pass in E as (r & sa & Ea%look_pass & E). apply viewing_bind_pass in E as (vi & s0 & [Hvi%pass_no_throw ->]%pure_pass & E).
  apply viewing_bind_pass in E as (u & sb & Eb & [= <- <-]). destruct u. unfold GetValueIn in Ea. rewrite Himp, Hcb in Ea.
  destruct (value_in_loop false GetCoinImportValue s tx (vin tx) 0 0) as [rl sl] eqn:El. injection Ea as Er ->.
  pose proof (value_in_reads _ _ _ _ s rl sa Hs El) as Ra. pose proof (fun p => only_read_utxo s sa p Ra) as Hu.
  apply (contextual_inputs_spec (ch_cfg ch) ltac:(lia) HL) in Eb as (Rb & (sh & out' & Hic) & Hsc);
    [| apply Ra | done | unfold IsMint; by rewrite Himp, Hcb | intros p; rewrite Hu; specialize (Hval p); unfold is_s64; lia].
  apply (inputs_cover_eq (sabs s)) in Hic; [| done]. split; [by eapply only_read_trans |].
  pose proof (ic_out _ _ _ _ _ Hic) as Ho. rewrite Hout in Ho. injection Ho as <-.
  pose proof (ic_range _ _ _ _ _ Hic) as [Hr1 Hr2]. pose proof (ic_shielded _ _ _ _ _ Hic) as Hsh.
  pose proof (shielded_in_spec (ch_cfg ch) ltac:(lia) tx sh Hv Hsh) as [_ Hb].
  destruct (value_in_loop_spec HL GetCoinImportValue tx (vin tx) s 0 0 Hs (ic_unspent _ _ _ _ _ Hic)) as (s2 & E2 & _);
    [apply Forall_forall; intros; apply Hval | done | lia |].
  rewrite El in E2. injection E2 as -> ->. rewrite <-Er in Hvi. cbn [mbind option_bind] in Hvi. rewrite Hsh in Hvi.
  cbn [mbind option_bind] in Hvi. injection Hvi as <-. rewrite Z.add_0_l.
  rewrite (s64_id (zsum _ + sh)) by (unfold is_s64; lia).
  exists (zsum (map (input_value (sabs s)) (vin tx)) + sh - out). split; [| done].
  split; [by exists sh, out |]. intros ->. exists d. split; [done |]. intros j inp Hj.
  destruct (Hsc eq_refl j inp Hj) as (o & Ho & Hok). exists o. by rewrite <-Hu.
Qed.

Lemma check_step_facts fx b tx f k s f1 k1 s1 :
  valid transaction tx -> IsCoinImport tx = false -> sinv s -> (forall p, 0 <= value (utxo (sabs s) p) < 2 ^ 62) ->
  check_step fx b tx f k s = (Pass (f1, k1), s1) ->
  only_read s s1 /\ (exists out, GetValueOut (ch_cfg ch) tx = Some out) /\
  (IsMint tx = true -> f1 = f) /\
  (IsMint tx = false ->
     (exists fee, paid fx (fb_branch b) (sabs s) tx fee /\ f1 = s64 (f + fee)) /\
     Forall (fun d => s_nullifier (sabs s) (Utxo.sp_nullifier d) = false) (Utxo.tx_spends (ctx_of tx))).
Proof using HL money.
  intros Hv Himp Hs Hval E. unfold check_step in E.
  apply viewing_bind_pass in E as (k0 & s0 & [_ ->]%pure_pass & E). cbv zeta in E.
  apply viewing_bind_pass in E as (u0 & s0 & [_ ->]%pure_pass & E).
  apply viewing_bind_pass in E as (k2 & s2 & E2 & E).
  apply viewing_bind_pass in E as (d & s0 & [Hd ->]%pure_pass & E).
  apply viewing_bind_pass in E as (out & s0 & [Hout%pass_no_throw ->]%pure_pass & E).
  apply viewing_bind_pass in E as (u4 & s0 & [_ ->]%pure_pass & E).
  apply viewing_bind_pass in E as (f2 & s3 & E3 & [= <- <- <-]).
  assert (IsMint tx = IsCoinBase tx) as Emc by (unfold IsMint; by rewrite Himp).
  destruct (IsMint tx) eqn:Em; rewrite <-Emc in E3; cbn [negb] in E2, E3.
  { injection E2 as _ ->. injection E3 as <- <-. split; [by apply only_read_refl |]. split; [by exists out | done]. }
  destruct (present_facts tx _ s k2 s2 Hs Em E2) as [R2 Hnf]. pose proof (fun p => only_read_utxo s s2 p R2) as Hu.
  assert (SigHash.precompute tx = Value d) as Hd' by (destruct (SigHash.precompute tx); [by injection Hd as -> | done..]).
  destruct (paid_facts fx b tx d f out s2 f2 s3 Hv Em Hd' Hout) as (R3 & fee & Hp & ->);
    [apply R2 | intros p; by rewrite Hu | exact E3 |].
  split; [by eapply only_read_trans |]. split; [by exists out |]. split; [done |]. intros _. split; [| done].
  exists fee. split; [by eapply paid_eq |]. done.
Qed.

(** *** The run over the transactions *)

(** What leaves the shielded pools, less what enters them. *)
Definition flow (tx : CTransaction) : Z := valueBalance tx + joinsplit_in tx - joinsplit_out tx.

(** One transaction, with its fee, between the states of the outputs. *)
Definition step (fx : bool) (br : Z) (s : state) (tx : CTransaction) (fee : Z) (s1 : state) : Prop :=
  ledger_step s s1 (ctx_of tx) /\ if IsMint tx then fee = 0 else paid fx br s tx fee.

Inductive run (fx : bool) (br : Z) : state -> list CTransaction -> Z -> state -> Prop :=
| run_nil s : run fx br s [] 0 s
| run_cons s tx fee s1 txs fees s' : step fx br s tx fee s1 -> run fx br s1 txs fees s' -> run fx br s (tx :: txs) (fee + fees) s'.

(** What a transaction adds to the outputs, its fee aside; and a bound on what it may add. *)
Definition gain (tx : CTransaction) : Z := if IsMint tx then transparent_out tx else flow tx.
Definition budget (tx : CTransaction) : Z := if IsMint tx then MAX_MONEY (ch_cfg ch) else Z.max 0 (flow tx).

Lemma spent_points tx : IsMint tx = false -> Utxo.spent_by (ctx_of tx) = map point_of (vin tx).
Proof using.
  intros Hm. unfold Utxo.spent_by. change (Utxo.IsMint (ctx_of tx)) with (IsMint tx). rewrite Hm. cbn [ctx_of Utxo.tx_vin].
  rewrite map_map. done.
Qed.

Lemma worth_nonneg s X : worth_at_most s X -> 0 <= X.
Proof using. intros HX. apply (HX []). constructor. Qed.
Lemma worth_each s X p : worth_at_most s X -> value (utxo s p) <= X.
Proof using. intros HX. specialize (HX [p] (NoDup_singleton p)). cbn [map zsum] in HX. lia. Qed.

Lemma paid_amounts fx br s tx fee :
  valid transaction tx -> paid fx br s tx fee ->
  0 <= fee /\ transparent_out tx = zsum (map (input_value s) (vin tx)) + flow tx - fee.
Proof using money.
  intros Hv [(sh & out & Hic & ->) _].
  pose proof (shielded_in_spec (ch_cfg ch) ltac:(lia) tx sh Hv (ic_shielded _ _ _ _ _ Hic)) as [Es _].
  pose proof (value_out_spec (ch_cfg ch) ltac:(lia) tx out Hv (ic_out _ _ _ _ _ Hic)) as [Eo _].
  pose proof (ic_cover _ _ _ _ _ Hic). unfold flow. lia.
Qed.

(** The worth after a transaction. *)
Lemma step_worth fx br s tx fee s1 X :
  valid transaction tx -> Utxo.tx_plain (ctx_of tx) -> step fx br s tx fee s1 -> (forall p, 0 <= value (utxo s p)) ->
  worth_at_most s X -> 0 <= fee /\ worth_at_most s1 (X + gain tx - fee) /\ (forall p, 0 <= value (utxo s1 p)).
Proof using money.
  intros Hv (_ & _ & Hout) [Hl Hp] Hpos HX. destruct (worth_step s s1 (ctx_of tx) X Hl Hout Hpos HX) as [HW Hpos1].
  change (zsum (map nValue (Utxo.tx_vout (ctx_of tx)))) with (transparent_out tx) in HW. unfold gain.
  destruct (IsMint tx) eqn:Em.
  - subst fee. unfold Utxo.spent_by in HW. change (Utxo.IsMint (ctx_of tx)) with (IsMint tx) in HW. rewrite Em in HW.
    cbn [map zsum] in HW. split; [done |]. split; [| done]. by replace (X + transparent_out tx - 0) with (X - 0 + transparent_out tx) by lia.
  - rewrite (spent_points tx Em), map_map in HW. change (map (fun x => value (utxo s (point_of x))) (vin tx)) with (map (input_value s) (vin tx)) in HW.
    destruct (paid_amounts fx br s tx fee Hv Hp) as [Hf Ht]. rewrite Ht in HW. split; [done |]. split; [| done].
    match type of HW with worth_at_most _ ?a => replace (X + flow tx - fee) with a by lia end. done.
Qed.

Lemma gain_budget tx out : valid transaction tx -> GetValueOut (ch_cfg ch) tx = Some out -> gain tx <= budget tx.
Proof using money.
  intros Hv Ho. apply (value_out_spec (ch_cfg ch) ltac:(lia)) in Ho as [Eo Bo]; [| done]. unfold gain, budget.
  destruct (IsMint tx); lia.
Qed.
Lemma worth_mono s X Y : worth_at_most s X -> X <= Y -> worth_at_most s Y.
Proof using. intros HX Hle P HP. specialize (HX P HP). lia. Qed.

(** The worth after a run. *)
Lemma run_worth fx br s txs fees s' :
  run fx br s txs fees s' -> Forall (valid transaction) txs -> Forall (fun tx => Utxo.tx_plain (ctx_of tx)) txs ->
  forall X, (forall p, 0 <= value (utxo s p)) -> worth_at_most s X ->
  0 <= fees /\ worth_at_most s' (X + zsum (map gain txs) - fees) /\ (forall p, 0 <= value (utxo s' p)).
Proof using money.
  induction 1 as [s | s tx fee s1 txs fees s' Hst _ IH]; intros Hv Hp X Hpos HX; cbn [map zsum].
  - split; [done |]. split; [| done]. by replace (X + 0 - 0) with X by lia.
  - apply Forall_cons in Hv as [Hv1 Hv], Hp as [Hp1 Hp].
    destruct (step_worth fx br s tx fee s1 X Hv1 Hp1 Hst Hpos HX) as (Hf & HW & Hpos1).
    destruct (IH Hv Hp _ Hpos1 HW) as (Hfs & HW' & Hpos'). split; [lia |]. split; [| done].
    eapply worth_mono; [exact HW' | lia].
Qed.

Lemma ledger_step_eq s s' s1 tx : (forall p, utxo s' p = utxo s p) -> ledger_step s' s1 tx -> ledger_step s s1 tx.
Proof using.
  intros E [H1 H2 H3 H4]. split; [| done | done |].
  - intros p Hp. rewrite <-E. by apply H1.
  - intros p Hp. rewrite <-E. by apply H4.
Qed.

(** One iteration of the loop. *)
Lemma iteration fx b tx f k s f1 k1 s1 undo s2 :
  valid transaction tx -> Utxo.tx_plain (ctx_of tx) -> 0 < fb_height b < 2 ^ 32 -> sinv s -> Utxo.utxo_inv (sabs s) ->
  s_coins (sabs s) (GetHash tx) = None -> (forall p, 0 <= value (utxo (sabs s) p) < 2 ^ 62) -> is_s64 f ->
  check_step fx b tx f k s = (Pass (f1, k1), s1) -> Utxo.UpdateCoins false s1 (ctx_of tx) (fb_height b) = Some (undo, s2) ->
  (sinv s2 /\ Utxo.utxo_inv (sabs s2) /\ forall k, k <> GetHash tx -> s_coins (sabs s) k = None -> s_coins (sabs s2) k = None) /\
  (exists fee, step fx (fb_branch b) (sabs s) tx fee (sabs s2) /\ f1 = s64 (f + fee)) /\ gain tx <= budget tx.
Proof using HL money.
  intros Hv Hp Hh Hs Hu Hfr Hval Hf E EU. pose proof Hp as (Himp & Hmint & _).
  destruct (check_step_facts fx b tx f k s f1 k1 s1 Hv Himp Hs Hval E) as (R & (out & Hout) & Hm1 & Hm2).
  pose proof R as [Hs1 He]. pose proof (fun p => only_read_utxo s s1 p R) as Hut. pose proof He as [Hue _]%Utxo.state_eq_halves.
  assert (Utxo.utxo_inv (sabs s1)) as Hu1 by (eapply Utxo.utxo_inv_eq; [exact Hue | done]). destruct Hue as [Hc Hn].
  assert (Forall (fun d => s_nullifier (sabs s1) (Utxo.sp_nullifier d) = false) (Utxo.tx_spends (ctx_of tx))) as Hnf.
  { destruct (IsMint tx) eqn:Em; [by rewrite (Hmint Em) |]. destruct (Hm2 eq_refl) as [_ Hnf].
    eapply Forall_impl; [exact Hnf |]. intros d Hd. cbn beta. by rewrite Hn. }
  destruct (Utxo.update_restore HL s1 (ctx_of tx) (fb_height b) undo s2 Hp Hh Hs1 Hu1) as [(Hs2 & Hu2 & _ & Hk) _];
    [by rewrite Hc | done | done |].
  split; [split; [done |]; split; [done |]; intros q Hq Hqn; apply Hk; [done | by rewrite Hc] |].
  pose proof (ledger_step_eq _ _ _ _ Hut (update_ledger HL s1 (ctx_of tx) (fb_height b) undo s2 Hp Hs1 Hu1 EU)) as Hl.
  split; [| by eapply gain_budget]. unfold step. destruct (IsMint tx) eqn:Em.
  - exists 0. split; [done |]. rewrite (Hm1 eq_refl), Z.add_0_r. symmetry. by apply s64_id.
  - destruct (Hm2 eq_refl) as [(fee & Hpd & ->) _]. by exists fee.
Qed.

Lemma s64_add_l x y : s64 (s64 x + y) = s64 (x + y).
Proof using. unfold s64. replace ((x + 2 ^ 63) mod 2 ^ 64 - 2 ^ 63 + y + 2 ^ 63) with ((x + 2 ^ 63) mod 2 ^ 64 + y) by lia.
  rewrite Zplus_mod_idemp_l. do 2 f_equal. lia. Qed.
Lemma s64_range x : is_s64 (s64 x).
Proof using. unfold is_s64, s64. pose proof (Z.mod_pos_bound (x + 2 ^ 63) (2 ^ 64) ltac:(lia)). lia. Qed.

(** The whole loop is a run, and [nFees] the sum of its fees. *)
Lemma loop_runs fx b txs :
  forall first t f k s vu t' f' s' X,
  Forall (valid transaction) txs -> Forall (fun tx => Utxo.tx_plain (ctx_of tx)) txs -> NoDup (map GetHash txs) ->
  0 < fb_height b < 2 ^ 32 -> sinv s -> Utxo.utxo_inv (sabs s) -> Utxo.fresh_hashes (sabs s) (map ctx_of txs) ->
  (forall p, 0 <= value (utxo (sabs s) p)) -> worth_at_most (sabs s) X -> X + zsum (map budget txs) < 2 ^ 62 -> is_s64 f ->
  connect_loop fx b first txs t f k s = (Pass (vu, t', f'), s') ->
  sinv s' /\ Utxo.utxo_inv (sabs s') /\ exists fees, run fx (fb_branch b) (sabs s) txs fees (sabs s') /\ f' = s64 (f + fees).
Proof using HL money.
  induction txs as [| tx txs IH]; intros first t f k s vu t' f' s' X Hv Hp Hnd Hh Hs Hu Hfr Hpos HX Hb Hf E; cbn [connect_loop] in E.
  - injection E as <- <- <- <-. split; [done |]. split; [done |]. exists 0. split; [constructor |]. rewrite Z.add_0_r. symmetry. by apply s64_id.
  - apply Forall_cons in Hv as [Hv1 Hv], Hp as [Hp1 Hp]. cbn [map] in Hnd, Hfr, Hb. apply NoDup_cons in Hnd as [Hh1 Hnd].
    apply Forall_cons in Hfr as [Hf1 Hfr]. cbn [zsum] in Hb.
    assert (forall l, 0 <= zsum (map budget l)) as Hbn.
    { intros l. apply zsum_nonneg, Forall_fmap, Forall_forall. intros x _. cbn. unfold budget. destruct (IsMint x); lia. }
    pose proof (Hbn txs). assert (0 <= budget tx) by (unfold budget; destruct (IsMint tx); lia).
    apply viewing_bind_pass in E as ([f1 k1] & s1 & Ec & E). apply viewing_bind_pass in E as (undo & s2 & EU%update_pass & E).
    apply viewing_bind_pass in E as (ta & s0 & [_ ->]%pure_pass & E). apply viewing_bind_pass in E as ([[vu1 t1] f2] & s3 & El & [= _ <- <- <-]).
    destruct (iteration fx b tx f k s f1 k1 s1 undo s2 Hv1 Hp1 Hh Hs Hu Hf1) as ((Hs2 & Hu2 & Hk) & (fee & Hst & ->) & Hg);
      [intros p; split; [done |]; pose proof (worth_each _ _ p HX); lia | done | done | done |].
    destruct (step_worth _ _ _ tx fee _ X Hv1 Hp1 Hst Hpos HX) as (Hfee & HW & Hpos2).
    apply (worth_mono _ _ (X + budget tx)) in HW; [| lia].
    apply (IH _ _ _ _ _ _ _ _ _ (X + budget tx)) in El as (Hs3 & Hu3 & fees & Hr & ->); try done; [| | lia | apply s64_range].
    + split; [done |]. split; [done |]. exists (fee + fees). split; [by econstructor |]. rewrite s64_add_l. f_equal. lia.
    + apply Forall_forall. intros c Hc. apply Hk; [| by apply (proj1 (Forall_forall _ _) Hfr)].
      apply list_elem_of_fmap in Hc as (x & -> & Hx). intros Ex. apply Hh1. apply list_elem_of_fmap. by exists x.
Qed.

(** *** Connecting a block *)

Context (aroot_set : forall t : atree, Coins.IsNull256 (aroot t) = false).
Abbreviation ConnectBlock := (ConnectBlock ch false tree_append GetCoinImportValue VerifyCoinImport Verify check_cc check_low_s).

(** A block whose parts have the form the network gives them: decoded transactions with
    distinct hashes and no imports, above the genesis block, with a reward that fits. *)
Record block_fine (b : fullblock) : Prop := {
  bf_valid : Forall (valid transaction) (fb_vtx b);
  bf_imports : Forall (fun tx => IsCoinImport tx = false) (fb_vtx b);
  bf_hashes : NoDup (map GetHash (fb_vtx b));
  bf_height : 0 < fb_height b < 2 ^ 32;
  bf_hash : Coins.IsNull256 (fb_hash b) = false /\ fb_hash b <> ch_genesis ch;
  bf_pay : 0 <= fb_reward b /\ 0 <= fb_commission b /\ fb_reward b + fb_commission b < 2 ^ 62;
}.

(** The state of the view between blocks. *)
Record view_fine (s : S) (X : Z) : Prop := {
  vf_inv : sinv s;
  vf_utxo : Utxo.utxo_inv (sabs s);
  vf_nonneg p : 0 <= value (utxo (sabs s) p);
  vf_worth : worth_at_most (sabs s) X;
}.

(** What [ConnectBlock] went through. *)
Record connected (fx : bool) (b : fullblock) (s s' : state) (cb : CTransaction) (rest : list CTransaction) (fees : Z) : Prop := {
  cn_vtx : fb_vtx b = cb :: rest;
  cn_coinbase : IsMint cb = true;
  cn_rest : Forall (fun tx => IsMint tx = false) rest;
  cn_plain : Forall (fun tx => Utxo.tx_plain (ctx_of tx)) (fb_vtx b);
  cn_fresh : Utxo.fresh_hashes s (map ctx_of (fb_vtx b));
  cn_run : exists s0 s1, (forall p, utxo s0 p = utxo s p) /\ run fx (fb_branch b) s0 (fb_vtx b) fees s1 /\ (forall p, utxo s' p = utxo s1 p);
  cn_reward : check_reward ch b cb (s64 fees) = Pass tt;
}.

Lemma connect_inv fx b s vu s' :
  sinv s -> fb_hash b <> ch_genesis ch -> ConnectBlock fx false b s = (Pass vu, s') ->
  check_block_body (ch_cfg ch) (ch_max_size ch) (ch_max_sigops ch) (fb_size b) (fb_tiptime b) false (fb_vtx b) = Pass tt /\
  exists s0 t t' f s1, only_read s s0 /\ Utxo.fresh_hashes (sabs s) (map ctx_of (fb_vtx b)) /\
    connect_loop fx b true (fb_vtx b) t 0 0 s0 = (Pass (vu, t', f), s1) /\
    match fb_vtx b with cb :: _ => check_reward ch b cb f = Pass tt | [] => False end /\
    s' = Utxo.set_best (Utxo.push_anchor s1 t') (fb_hash b).
Proof using HL.
  intros Hs Hg E. unfold ConnectBlock in E.
  apply viewing_bind_pass in E as (u & s0 & [Hbody ->]%pure_pass & E). destruct u. split; [done |].
  apply viewing_bind_pass in E as (best & sa & Ea%look_pass & E). pose proof (Utxo.sl_best _ _ HL s Hs) as H1. rewrite Ea in H1.
  destruct H1 as (Hsa & Hea & _). apply viewing_bind_pass in E as (u & s0 & [_ ->]%pure_pass & E).
  rewrite bool_decide_eq_false_2 in E by done.
  apply viewing_bind_pass in E as (ok & sb & Eb%look_pass & E). pose proof (Utxo.bip30_spec HL sa (map ctx_of (fb_vtx b)) Hsa) as H2. rewrite Eb in H2.
  destruct H2 as (Hsb & Heb & Hf). apply viewing_bind_pass in E as (u1 & s0 & [Hok%negb_false_iff ->]%pure_reject_pass & E). subst ok.
  apply viewing_bind_pass in E as (rt & sc & Ec%look_pass & E). pose proof (Utxo.sl_best_anchor _ _ HL sb Hsb) as H3. rewrite Ec in H3.
  destruct H3 as (Hsc & Hec & _).
  apply viewing_bind_pass in E as (r & sd & Ed%look_pass & E). pose proof (Utxo.sl_anchor _ _ HL sc rt Hsc) as H4. rewrite Ed in H4.
  destruct H4 as (Hsd & Hed & _). apply viewing_bind_pass in E as (t & s0 & [_ ->]%pure_pass & E).
  apply viewing_bind_pass in E as ([[vu1 t'] f] & s1 & El & E).
  apply viewing_bind_pass in E as (u2 & s2 & ->%set_pass & E). apply viewing_bind_pass in E as (u3 & s0 & [_ ->]%pure_pass & E).
  apply viewing_bind_pass in E as (u4 & s0 & [Hrw ->]%pure_pass & E). apply viewing_bind_pass in E as (u5 & s3 & ->%set_pass & [= <- <-]).
  pose proof (transitivity Hed (transitivity Hec (transitivity Heb Hea))) as He.
  exists sd, t, t', f, s1. split; [by split |]. split.
  - eapply Forall_impl; [by apply Hf |]. intros tx. cbn beta. destruct Hea as (K & _). by rewrite K.
  - split; [done |]. destruct u4. split; [by destruct (fb_vtx b) | done].
Qed.

Lemma connect_facts fx b s vu s' X :
  block_fine b -> view_fine s X -> X + zsum (map budget (fb_vtx b)) < 2 ^ 62 -> ConnectBlock fx false b s = (Pass vu, s') ->
  (sinv s' /\ Utxo.utxo_inv (sabs s')) /\ exists cb rest fees, connected fx b (sabs s) (sabs s') cb rest fees.
Proof using HL money aroot_set.
  intros [Hv Himp Hnd Hh [Hnull Hg] _] [Hs Hu Hpos HX] Hb E.
  destruct (connect_inv fx b s vu s' Hs Hg E) as (Hbody & s0 & t & t' & f & s1 & R & Hfr & El & Hrw & ->).
  destruct (block_body_facts (ch_cfg ch) money _ _ _ _ _ Hv Himp Hbody) as (Hfits & cb & rest & Evtx & Hcb & Hrest).
  assert (Forall (fun tx => Utxo.tx_plain (ctx_of tx)) (fb_vtx b)) as Hplain.
  { rewrite Forall_fmap in Hfits. eapply Forall_impl; [exact Hfits |]. intros tx Ht. apply Ht. }
  pose proof (fun p => only_read_utxo s s0 p R) as Hut. pose proof R as [Hs0 [He [Hn _]]].
  destruct (loop_runs fx b (fb_vtx b) true t 0 0 s0 vu t' f s1 X) as (Hs1 & Hu1 & fees & Hrun & Ef); try done.
  { by apply Utxo.utxo_inv_eq with (sabs s). }
  { eapply Forall_impl; [exact Hfr |]. intros tx. cbn beta. by rewrite He. }
  { intros p. by rewrite Hut. }
  { intros P HP. rewrite (map_ext _ (fun p => value (utxo (sabs s) p))) by (intros p; by rewrite Hut). by apply HX. }
  destruct (Utxo.sl_push _ _ HL s1 t' Hs1 (aroot_set t')) as [Hsp Hep].
  destruct (Utxo.sl_set_best _ _ HL (Utxo.push_anchor s1 t') (fb_hash b) Hsp Hnull) as [Hsf Hec].
  assert (Utxo.utxo_eq (sabs (Utxo.set_best (Utxo.push_anchor s1 t') (fb_hash b))) (sabs s1)) as K.
  { apply Utxo.state_eq_halves in Hec as [[A1 A2] _], Hep as [[B1 B2] _]. split; intros k.
    - rewrite A1. cbn [s_set_best s_coins]. rewrite B1. unfold s_push. by case_decide.
    - rewrite A2. cbn [s_set_best s_nullifier]. rewrite B2. unfold s_push. by case_decide. }
  split; [split; [done | by apply Utxo.utxo_inv_eq with (sabs s1)] |]. exists cb, rest, fees. rewrite Evtx in Hrw. split; try done.
  - exists (sabs s0), (sabs s1). split; [done |]. split; [done |]. intros p. unfold utxo. destruct K as [K _]. by rewrite K.
  - by rewrite Ef, Z.add_0_l in Hrw.
Qed.

(** The commission that the coinbase pays, if it does. *)
Definition paid_commission (b : fullblock) : Z :=
  if bool_decide ((cb ← head (fb_vtx b); nValue <$> vout cb !! 1%nat) = Some (fb_commission b)) then fb_commission b else 0.

Lemma reward_bound b cb rest out fees :
  fb_vtx b = cb :: rest -> 0 <= fees -> 0 <= fb_reward b -> 0 <= fb_commission b -> fees + fb_reward b + fb_commission b < 2 ^ 63 ->
  (ch_symbol_set ch || (HUSH_NOTARIES_HEIGHT1 <=? fb_height b) = true) ->
  GetValueOut (ch_cfg ch) cb = Some out -> check_reward ch b cb (s64 fees) = Pass tt ->
  out <= fb_reward b + fees + paid_commission b.
Proof using.
  intros Ev Hf Hr Hc Hb Hsym Hout. unfold check_reward, paid_commission. rewrite Ev. cbn [head mbind option_bind].
  rewrite (s64_id fees) by (unfold is_s64; lia). rewrite (s64_id (fb_reward b + fees)) by (unfold is_s64; lia).
  rewrite Hout. cbn [no_throw].
  assert (forall bonus r, (out ← (Pass out : check Z); _ ← reject_if r 100 "bad-cb-amount"; if bonus <? out then
    match vout cb with
    | [] => if ch_symbol_set ch || (HUSH_NOTARIES_HEIGHT1 <=? fb_height b) then Reject 100 "bad-cb-amount" else Threw
    | o :: _ => reject_if (ch_symbol_set ch || (HUSH_NOTARIES_HEIGHT1 <=? fb_height b) || (bonus <? nValue o)) 100 "bad-cb-amount"
    end else Pass tt) = Pass tt -> out <= bonus) as Hlim.
  { intros bonus r. cbn [mbind check_bind]. intros [_ Hq]%pass_reject_bind. destruct (Z.ltb_spec bonus out); [| done].
    rewrite Hsym in Hq. cbn [orb] in Hq. by destruct (vout cb). }
  destruct (Z.eqb_spec (fb_commission b) 0) as [E0 | E0].
  { intros Hle%Hlim. rewrite E0. by destruct (bool_decide _); lia. }
  case_bool_decide as Hm.
  - destruct (2 <=? Zlen (vout cb)) eqn:E2; cbn [andb].
    + rewrite s64_id by (unfold is_s64; lia). intros Hle%Hlim. lia.
    + apply fmap_Some in Hm as (o & Ho%lookup_lt_Some & _). apply Z.leb_gt in E2. unfold Zlen in E2. lia.
  - rewrite andb_false_r. destruct ((1 <? fb_height b) && _); [by cbn [mbind check_bind] |]. intros Hle%Hlim. lia.
Qed.

(** What a block may add to the unspent outputs: the reward, the commission if it is paid,
    and what leaves the shielded pools. *)
Definition issued (b : fullblock) : Z := fb_reward b + paid_commission b + zsum (map flow (tail (fb_vtx b))).

Lemma reward_value b cb fees : check_reward ch b cb fees = Pass tt -> exists out, GetValueOut (ch_cfg ch) cb = Some out.
Proof using. unfold check_reward. intros (bonus & _ & (out & Hout%pass_no_throw & _)%pass_bind)%pass_bind. by exists out. Qed.

Lemma gain_rest rest : Forall (fun tx => IsMint tx = false) rest -> zsum (map gain rest) = zsum (map flow rest).
Proof using. induction 1 as [| tx rest Hm _ IH]; [done |]. cbn [map zsum]. unfold gain at 1. rewrite Hm. lia. Qed.

Lemma worth_eq s s' X : (forall p, utxo s' p = utxo s p) -> worth_at_most s X -> worth_at_most s' X.
Proof using. intros E HX P HP. rewrite (map_ext _ (fun p => value (utxo s p))) by (intros p; by rewrite E). by apply HX. Qed.

(** A connected block. *)
Lemma block_worth fx b s vu s' X :
  block_fine b -> ch_symbol_set ch || (HUSH_NOTARIES_HEIGHT1 <=? fb_height b) = true ->
  view_fine s X -> X + zsum (map budget (fb_vtx b)) < 2 ^ 62 ->
  ConnectBlock fx false b s = (Pass vu, s') -> view_fine s' (X + issued b).
Proof using HL money aroot_set.
  intros Hb Hsym Hs Hfit E. destruct (connect_facts fx b s vu s' X Hb Hs Hfit E) as ([Hs' Hu'] & cb & rest & fees & Hc).
  destruct Hc as [Ev Hcb Hrest Hplain _ (s0 & s1 & E0 & Hrun & E1) Hrw]. destruct Hs as [_ _ Hpos HX].
  destruct (run_worth _ _ _ _ _ _ Hrun (bf_valid _ Hb) Hplain X) as (Hf & HW & Hpos1).
  { intros p. by rewrite E0. } { by eapply worth_eq. }
  pose proof (worth_nonneg _ _ HW) as H0'. destruct (reward_value _ _ _ Hrw) as [out Hout].
  pose proof (bf_valid _ Hb) as Hv. rewrite Ev in HW, H0', Hfit, Hv. apply Forall_cons in Hv as [Hv Hvr]. cbn [map zsum] in *.
  pose proof (value_out_spec (ch_cfg ch) ltac:(lia) cb out Hv Hout) as [Eo Bo].
  rewrite (gain_rest rest Hrest) in HW, H0'. unfold gain in HW, H0'. unfold budget at 1 in Hfit. rewrite Hcb in HW, H0', Hfit.
  assert (zsum (map flow rest) <= zsum (map budget rest)) as Hfb.
  { clear -Hrest. induction Hrest as [| tx rest Hm _ IH]; cbn [map zsum]; [lia |]. unfold budget at 1. rewrite Hm. lia. }
  destruct (bf_pay _ Hb) as (Hr & Hcm & Hpay).
  pose proof (reward_bound b cb rest out fees Ev Hf Hr Hcm ltac:(lia) Hsym Hout Hrw) as Hle.
  split; [done | done | intros p; by rewrite E1 |]. apply (worth_eq s1); [done |].
  eapply worth_mono; [exact HW |]. unfold issued. rewrite Ev. cbn [tail]. lia.
Qed.

(** Blocks connected one after the other, each with its scripts checked or not. *)
Inductive extends : S -> list fullblock -> S -> Prop :=
| extends_nil s : extends s [] s
| extends_cons fx s b vu s1 bs s' : ConnectBlock fx false b s = (Pass vu, s1) -> extends s1 bs s' -> extends s (b :: bs) s'.

(** The amounts stay below 2^62. *)
Fixpoint room (X : Z) (bs : list fullblock) : Prop :=
  match bs with [] => True | b :: bs => X + zsum (map budget (fb_vtx b)) < 2 ^ 62 /\ room (X + issued b) bs end.

(** [C1] The money supply.  Connecting blocks, of which each passes all the checks of
    [ConnectBlock] on a chain whose symbol is set (or past the height from which the
    limit holds everywhere), raises the worth of the unspent outputs at
    most by the rewards, the commissions that are paid, and the value that the shielded parts
    of the transactions release: no other transaction creates value, fees
    are paid once, and no addition of 64-bit amounts overflows. *)
Theorem connected_supply s bs s' X :
  extends s bs s' -> Forall block_fine bs ->
  Forall (fun b => ch_symbol_set ch || (HUSH_NOTARIES_HEIGHT1 <=? fb_height b) = true) bs ->
  view_fine s X -> room X bs -> view_fine s' (X + zsum (map issued bs)).
Proof using HL money aroot_set.
  intros He. revert X. induction He as [s | fx s b vu s1 bs s' E _ IH]; intros X Hb Hsym Hs Hr; cbn [map zsum].
  - by rewrite Z.add_0_r.
  - apply Forall_cons in Hb as [Hb1 Hb], Hsym as [Hs1 Hsym]. destruct Hr as [Hr1 Hr].
    rewrite Z.add_assoc. apply IH; try done. by eapply block_worth.
Qed.

(** *** Who spends an output *)

(** An output that a run removes was an input whose script was checked. *)
Lemma run_spends br s txs fees s' p o :
  run true br s txs fees s' -> utxo s p = Some o -> utxo s' p <> Some o -> Forall (fun tx => p.1 <> GetHash tx) txs ->
  exists tx d k inp, tx ∈ txs /\ SigHash.precompute tx = Value d /\ vin tx !! k = Some inp /\ point_of inp = p /\
    script_check Verify check_cc check_low_s (ch_cc_enabled ch) tx d (Z.of_nat k) block_flags br inp o = true.
Proof using.
  induction 1 as [s | s tx fee s1 txs fees s' [Hl Hp] _ IH]; intros Ho Hne Hf; [done |].
  apply Forall_cons in Hf as [Hf1 Hf]. destruct (decide (p ∈ Utxo.spent_by (ctx_of tx))) as [Hin | Hout].
  - destruct (IsMint tx) eqn:Em.
    { unfold Utxo.spent_by in Hin. change (Utxo.IsMint (ctx_of tx)) with (IsMint tx) in Hin. rewrite Em in Hin. by apply elem_of_nil in Hin. }
    rewrite (spent_points tx Em) in Hin. apply list_elem_of_fmap in Hin as (inp & -> & [k Hk]%list_elem_of_lookup).
    destruct (pd_scripts _ _ _ _ _ Hp eq_refl) as (d & Hd & Hall). destruct (Hall k inp Hk) as (o' & Ho' & Hsc).
    rewrite Ho in Ho'. injection Ho' as <-. exists tx, d, k, inp. split; [by left | done].
  - assert (utxo s1 p = Some o) as Ho1 by (rewrite (ls_other _ _ _ Hl) by done; by rewrite decide_False).
    destruct (IH Ho1 Hne Hf) as (tx' & d & k & inp & Hin & Hrest). exists tx', d, k, inp. split; [by right | done].
Qed.

(** [C2] Only the owner spends.  When a connected block, its scripts checked, spends an
    output that pays to the hash of a key, then one of its transactions has an
    input for this output and the owner signed it: there are a
    key with this hash and a signature which the verifier accepts for this key and
    the signature hash of this transaction, at this input, for the amount of the
    output and the branch of the block. *)
Theorem spent_only_with_signature b s vu s' X p o h :
  block_fine b -> view_fine s X -> X + zsum (map budget (fb_vtx b)) < 2 ^ 62 ->
  ConnectBlock true false b s = (Pass vu, s') ->
  length h = 20%nat -> utxo (sabs s) p = Some o -> scriptPubKey o = p2pkh h -> utxo (sabs s') p <> Some o ->
  exists tx k inp pk sig ht hash, tx ∈ fb_vtx b /\ vin tx !! k = Some inp /\ point_of inp = p /\ CHash160 pk = h /\
    SigHash.SignatureHash (p2pkh h) tx (Z.of_nat k) ht (nValue o) (fb_branch b) None = Value hash /\
    Verify pk hash sig = true.
Proof using HL money aroot_set.
  intros Hb Hs Hfit E Hh Ho Hsp Hne. destruct (connect_facts true b s vu s' X Hb Hs Hfit E) as (_ & cb & rest & fees & Hc).
  destruct Hc as [_ _ _ _ Hfr (s0 & s1 & E0 & Hrun & E1) _]. rewrite <-E0 in Ho. rewrite E1 in Hne.
  assert (Forall (fun tx => p.1 <> GetHash tx) (fb_vtx b)) as Hp.
  { rewrite E0 in Ho. unfold Utxo.fresh_hashes in Hfr. rewrite Forall_fmap in Hfr. eapply Forall_impl; [exact Hfr |].
    intros tx Hn Ep. unfold utxo in Ho. rewrite Ep in Ho. cbn in Hn. change (Utxo.tx_hash (ctx_of tx)) with (GetHash tx) in Hn. by rewrite Hn in Ho. }
  destruct (run_spends _ _ _ _ _ p o Hrun Ho Hne Hp) as (tx & d & k & inp & Hin & Hd & Hk & Hpt & Hsc).
  unfold script_check in Hsc. rewrite Hsp in Hsc. destruct (VerifyScript _ _ _ _ _) as [[] | | | |] eqn:Ev; try done.
  apply verify_p2pkh_needs in Ev as (sig & pk & Hpk & Hcs); [| done].
  cbn [CheckSig tx_checker] in Hcs. unfold Checks.tx_CheckSig in Hcs. destruct (Checks.IsValid (Checks.CPubKey pk)) eqn:Hv; cbn [negb] in Hcs; [| done].
  rewrite (Checks.key_valid pk Hv) in Hcs. destruct (last sig) as [ht |]; [| done]. rewrite (Checks.hash_cached tx d) in Hcs by done.
  destruct (SigHash.SignatureHash _ _ _ _ _ _ _) as [hash | |] eqn:Eh; [| done | done].
  by exists tx, k, inp, pk, (removelast sig), ht, hash.
Qed.
End Facts.
End MoneyFacts.

(** ** A concrete block *)

Module MoneyWitness.
Import Money TxFacts InputFacts MoneyFacts TxWitness.

#[local] Existing Instance toy_tree.
#[local] Instance short_hash : Hashes := {| ripemd160 msg := take 20 msg; sha1 msg := take 20 msg; sha256 msg := take 32 (rev msg) |}.
#[local] Existing Instance toy_digest.
#[local] Existing Instance Utxo.cache_store.

Definition the_key : list Z := 2 :: replicate 32 3.
Definition the_owner : list Z := replicate 20 3.
Definition the_sig : list Z := [0x30; 6; 2; 1; 1; 2; 1; 1].
Definition only_the_sig (pk h sig : list Z) : bool := bool_decide (pk = the_key /\ sig = the_sig).

(** An output of 1000 to the owner, spent with a fee of 100, and a coinbase that takes the
    reward of 5000 and the fee. *)
Definition owned : txout := TxOut 1000 (p2pkh the_owner).
Definition money_db : db := Db {[ replicate 32 7 := Coins false [owned] 5 1 ]} ∅ ∅ (Some [8]) None.
Definition money_view : cache db := new_cache money_db.

Definition pay (value fee : Z) (shielded : list JSDescription) : CTransaction :=
  Tx true 4 SAPLING_VERSION_GROUP_ID
     [TxIn (OutPoint (replicate 32 7) 0) ([9] ++ the_sig ++ [1; 33] ++ the_key) 0xffffffff] [TxOut (value - fee) [0x51]] 0 0 0
     [] [] shielded (replicate 32 0) (replicate 64 0) (replicate 64 0).
Definition coinbase_of (value : Z) : CTransaction :=
  Tx true 4 SAPLING_VERSION_GROUP_ID [TxIn (OutPoint (replicate 32 0) 0xffffffff) [1; 2] 0xffffffff] [TxOut value [0x51]] 0 0 0
     [] [] [] (replicate 32 0) (replicate 64 0) (replicate 64 0).

Definition open_chain : chain := Chain open_settings (Maturity 100 (2 ^ 63) 0 0 0 (VState 0 [] 0%nat [])) 2000000 20000 true [1] false.
Definition money_block : fullblock :=
  FullBlock [9] [8] 100 1000 0 [coinbase_of 5100; pay 1000 100 []] false [] 0x76b809bb 5000 0.

Definition no_cc (_ : CTransaction) (_ _ : Z) (_ _ _ : list Z) (_ : Z) : Z := 0.
Definition connect (b : fullblock) : check (list (list Utxo.txinundo)) * cache db :=
  ConnectBlock open_chain false Utxo.toy_append (fun _ => 0) (fun _ => Threw) only_the_sig no_cc (fun _ => true) true false b money_view.

Definition money_after : cache db := (connect money_block).2.

Lemma money_connects :
  connect money_block = (Pass [[Utxo.TxInUndo owned false 5 1]], money_after).
Proof. vm_compute. reflexivity. Qed.

Lemma open_anchors (t : atree) : Coins.IsNull256 (aroot t) = false.
Proof. apply Utxo.toy_anchors. Qed.
Lemma money_lawful : Utxo.store_lawful (cache_inv db_model) (cache_abs db_model).
Proof. apply Utxo.cache_store_lawful; [apply Utxo.toy_anchors |]. apply db_lawful, Utxo.toy_anchors. Qed.

Lemma money_block_fine : block_fine open_chain money_block.
Proof.
  split; cbn [money_block fb_vtx fb_height fb_hash fb_reward fb_commission].
  - constructor; [solve_tx_valid |]. constructor; [solve_tx_valid | constructor].
  - by repeat constructor.
  - apply (bool_decide_unpack (NoDup _)). by vm_compute.
  - lia.
  - done.
  - lia.
Qed.

Lemma money_utxo p : utxo (cache_abs db_model money_view) p = if decide (p = (replicate 32 7, 0%nat)) then Some owned else None.
Proof.
  destruct p as [k i]. unfold utxo. cbn [fst snd]. change (s_coins (cache_abs db_model money_view) k)
    with (({[ replicate 32 7 := Coins false [owned] 5 1 ]} : gmap (list Z) coins) !! k).
  destruct (decide (k = replicate 32 7)) as [-> | Hk].
  - rewrite lookup_singleton_eq. cbn [mbind option_bind Coins.vout]. destruct i as [| i]; [by rewrite decide_True |].
    by rewrite decide_False by congruence.
  - rewrite lookup_singleton_ne by done. by rewrite decide_False by congruence.
Qed.

Lemma money_view_fine : view_fine (sinv := cache_inv db_model) (sabs := cache_abs db_model) money_view 1000.
Proof.
  assert (forall p, 0 <= value (utxo (cache_abs db_model money_view) p)) as Hpos
    by (intros p; rewrite money_utxo; destruct (decide _); cbn [value owned nValue]; lia).
  split; [| | done |].
  - apply (new_cache_inv db_model money_db). split.
    + intros k x. cbn. intros [_ <-]%lookup_singleton_Some. done.
    + intros k x. cbn. by rewrite lookup_empty.
  - intros k x. cbn. rewrite lookup_empty. intros [_ <-]%lookup_singleton_Some.
    split; [| reflexivity]. split; [reflexivity |]. split; [by repeat constructor | cbn; lia].
  - intros P HP. etransitivity; [apply (zsum_cover _ P [(replicate 32 7, 0%nat)] HP) |].
    + done.
    + intros p _. rewrite money_utxo. destruct (decide _) as [-> |]; [left; by left | by right].
    + cbn [map zsum]. rewrite money_utxo, decide_True by done. done.
Qed.

Lemma connected_supply_witness :
  view_fine (sinv := cache_inv db_model) (sabs := cache_abs db_model) money_after (1000 + zsum [5000]).
Proof.
  apply (connected_supply money_lawful open_chain Utxo.toy_append (fun _ => 0) (fun _ => Threw) only_the_sig no_cc (fun _ => true)
           open_money open_anchors money_view [money_block] money_after 1000).
  - eapply extends_cons; [exact money_connects | constructor].
  - constructor; [exact money_block_fine | constructor].
  - by repeat constructor.
  - exact money_view_fine.
  - split; [by vm_compute | exact I].
Defined.

Lemma spent_only_with_signature_witness :
  exists tx k inp pk sig ht hash, tx ∈ fb_vtx money_block /\ vin tx !! k = Some inp /\ point_of inp = (replicate 32 7, 0%nat) /\
    CHash160 pk = the_owner /\
    SigHash.SignatureHash (p2pkh the_owner) tx (Z.of_nat k) ht 1000 0x76b809bb None = Value hash /\ only_the_sig pk hash sig = true.
Proof.
  apply (spent_only_with_signature money_lawful open_chain Utxo.toy_append (fun _ => 0) (fun _ => Threw) only_the_sig no_cc (fun _ => true)
           open_money open_anchors money_block money_view [[Utxo.TxInUndo owned false 5 1]] money_after 1000 (replicate 32 7, 0%nat) owned the_owner).
  - exact money_block_fine.
  - exact money_view_fine.
  - by vm_compute.
  - exact money_connects.
  - reflexivity.
  - apply money_utxo.
  - reflexivity.
  - vm_compute. discriminate.
Defined.

(** ** What the code lets through *)

#[local] Existing Instance toy_verifier.

(** A join split that claims to release a million: all zero, nothing proves it. *)
Definition empty_joinsplit : JSDescription :=
  JS 0 1000000 (replicate 32 0) [replicate 32 0; replicate 32 0] [replicate 32 0; replicate 32 0] (replicate 32 0) (replicate 32 0)
     [replicate 32 0; replicate 32 0] (Groth_proof (replicate 192 0)) [replicate 601 0; replicate 601 0].
Definition minting : CTransaction := pay 1000 (-1000000) [empty_joinsplit].

Lemma minting_valid : valid transaction minting.
Proof.
  solve_tx_valid.
  all: first [reflexivity | apply (bytes_ok_replicate 32 0); unfold byte_ok; lia | apply (bytes_ok_replicate 601 0); unfold byte_ok; lia].
Qed.

(** The code that would verify join splits is gone, but [GetShieldedValueIn] counts what they claim:
    the transaction passes every check, also when it is mined, and turns an
    output of 1000 into one of 1001000. *)
Lemma joinsplit_mints :
  valid transaction minting /\ CheckTransactionWithoutProofVerification open_settings 0 minting = Pass tt /\
  ContextualCheckTransaction open_settings open_context minting 20 100 = Pass tt /\
  (let b := FullBlock [9] [8] 100 1000 0 [coinbase_of 5000; minting] false [] 0x76b809bb 5000 0 in
   (connect b).1 = Pass [[Utxo.TxInUndo owned false 5 1]] /\
   utxo (cache_abs db_model (connect b).2) (GetHash minting, 0%nat) = Some (TxOut 1001000 [0x51])).
Proof. split; [exact minting_valid |]. split; [by vm_compute |]. split; [by vm_compute |]. vm_compute. split; reflexivity. Qed.

(** A coinbase without the commission that is due, and with one output, makes the
    message about it read an output that is not there. *)
Lemma commission_message_reads_missing_output :
  check_reward open_chain (FullBlock [9] [8] 100 1000 0 [coinbase_of 5000] false [] 0x76b809bb 5000 50) (coinbase_of 5000) 0 = Threw.
Proof. reflexivity. Qed.
End MoneyWitness.
