(* ===== verification/PartialMerkle.v ===== *)
(** * Partial Merkle trees (src/src/merkleblock.h, merkleblock.cpp)

    A node proves to a light client, or to the caller of [verifytxoutproof], that
    transactions are in a block by a part of its Merkle tree: a depth-first list
    of flags and hashes.  Modelled are the construction, the extraction, the
    serialisation and the check of a proof against a header. *)
From S2P Require Import Prelude Notarized Compact Tx Merkle.
Local Open Scope Z_scope.

Module PartialMerkle.

(** [CPartialMerkleTree]. *)
Record pmt := Pmt { nTransactions : Z; vBits : list bool; vHash : list uint256; fBad : bool }.

Section Code.
Context (Hash : uint256 -> uint256 -> uint256).

(** [(nTransactions+(1 << height)-1) >> height] on 32-bit words. *)
Definition CalcTreeWidth (nTx : Z) (height : nat) : Z := Z.shiftr (u32 (nTx + Z.shiftl 1 (Z.of_nat height) - 1)) (Z.of_nat height).

(** [while (CalcTreeWidth(nHeight) > 1) nHeight++]; a shift by 32 or more is undefined. *)
Fixpoint height_from (fuel : nat) (nTx : Z) (nHeight : nat) : option nat :=
  match fuel with
  | O => None
  | S fuel => if 1 <? CalcTreeWidth nTx nHeight then height_from fuel nTx (S nHeight) else Some nHeight
  end.
Definition tree_height (nTx : Z) : option nat := height_from 32 nTx 0.

(** The right child of a node at [height + 1] is inside the tree. *)
Definition has_right (nTx : Z) (height pos : nat) : bool := Z.of_nat (2 * pos + 1) <? CalcTreeWidth nTx height.

(** [None] is a read past the end of the vector. *)
Fixpoint CalcHash (nTx : Z) (height pos : nat) (vTxid : list uint256) : option uint256 :=
  match height with
  | O => vTxid !! pos
  | S height =>
      lh ← CalcHash nTx height (2 * pos) vTxid;
      rh ← (if has_right nTx height pos then CalcHash nTx height (2 * pos + 1) vTxid else Some lh);
      Some (Hash lh rh)
  end.

(** The loop for [fParentOfMatch]. *)
Fixpoint any_match (vMatch : list bool) (l : list nat) : option bool :=
  match l with [] => Some false | p :: l => b ← vMatch !! p; r ← any_match vMatch l; Some (b || r) end.
Definition parent_of_match (nTx : Z) (height pos : nat) (vMatch : list bool) : option bool :=
  let from := (pos * 2 ^ height)%nat in
  any_match vMatch (seq from (Nat.min ((pos + 1) * 2 ^ height) (Z.to_nat nTx) - from)).

(** The bits and hashes that are appended. *)
Fixpoint TraverseAndBuild (nTx : Z) (height pos : nat) (vTxid : list uint256) (vMatch : list bool) :
    option (list bool * list uint256) :=
  parent_of_match nTx height pos vMatch ≫= fun fParentOfMatch : bool =>
  match height with
  | S height' =>
      if fParentOfMatch then
        '(b1, h1) ← TraverseAndBuild nTx height' (2 * pos) vTxid vMatch;
        '(b2, h2) ← (if has_right nTx height' pos then TraverseAndBuild nTx height' (2 * pos + 1) vTxid vMatch else Some (@nil bool, @nil uint256));
        Some (fParentOfMatch :: b1 ++ b2, h1 ++ h2)
      else hash ← CalcHash nTx height pos vTxid; Some ([fParentOfMatch], [hash])
  | O => hash ← CalcHash nTx height pos vTxid; Some ([fParentOfMatch], [hash])
  end.

(** The constructor. *)
Definition CPartialMerkleTree (vTxid : list uint256) (vMatch : list bool) : option pmt :=
  let nTx := u32 (Zlen vTxid) in
  nHeight ← tree_height nTx;
  '(bits, hashes) ← TraverseAndBuild nTx nHeight 0 vTxid vMatch;
  Some (Pmt nTx bits hashes false).

(** [nBitsUsed], [nHashUsed], [vMatch] and [fBad] as the extraction changes them. *)
Record extraction := Ext { nBitsUsed : nat; nHashUsed : nat; matches : list uint256; bad : bool }.

Fixpoint TraverseAndExtract (t : pmt) (height pos : nat) (e : extraction) : uint256 * extraction :=
  match vBits t !! nBitsUsed e with
  | None => (zero256, Ext (nBitsUsed e) (nHashUsed e) (matches e) true)
  | Some fParentOfMatch =>
      let e := Ext (nBitsUsed e + 1) (nHashUsed e) (matches e) (bad e) in
      let use_hash :=
        match vHash t !! nHashUsed e with
        | None => (zero256, Ext (nBitsUsed e) (nHashUsed e) (matches e) true)
        | Some hash =>
            (hash, Ext (nBitsUsed e) (nHashUsed e + 1)
                     (if (height =? 0)%nat && fParentOfMatch then matches e ++ [hash] else matches e) (bad e))
        end in
      match height with
      | O => use_hash
      | S height' =>
          if fParentOfMatch then
            let '(lh, e) := TraverseAndExtract t height' (2 * pos) e in
            if has_right (nTransactions t) height' pos then
              let '(rh, e) := TraverseAndExtract t height' (2 * pos + 1) e in
              (Hash lh rh, Ext (nBitsUsed e) (nHashUsed e) (matches e) (bad e || bool_decide (rh = lh)))
            else (Hash lh lh, e)
          else use_hash
      end
  end.

(** The nodes whose hash [TraverseAndExtract] computes: the left child and, where there is one, the right. *)
Fixpoint nodes_extracted (t : pmt) (height pos : nat) (e : extraction) : list (uint256 * option uint256) :=
  match height with
  | O => []
  | S height' =>
      match vBits t !! nBitsUsed e with
      | Some true =>
          let e := Ext (nBitsUsed e + 1) (nHashUsed e) (matches e) (bad e) in
          let '(lh, e1) := TraverseAndExtract t height' (2 * pos) e in
          nodes_extracted t height' (2 * pos) e ++
          (if has_right (nTransactions t) height' pos then
             nodes_extracted t height' (2 * pos + 1) e1 ++ [(lh, Some (TraverseAndExtract t height' (2 * pos + 1) e1).1)]
           else [(lh, None)])
      | _ => []
      end
  end.
Definition proof_nodes (t : pmt) : list (uint256 * option uint256) :=
  match tree_height (nTransactions t) with
  | Some nHeight => nodes_extracted t nHeight 0 (Ext 0 0 [] (fBad t))
  | None => []
  end.
(** A left child that is alone is hashed with itself. *)
Definition node_pair (n : uint256 * option uint256) : uint256 * uint256 := (n.1, default n.1 n.2).
Definition proof_pairs (t : pmt) : list (uint256 * uint256) := map node_pair (proof_nodes t).

(** [ExtractMatches]: the root, or zero, with the matches and [fBad] as they are left;
    [None] if the height is undefined. *)
Definition ExtractMatches (max_block_size : Z) (t : pmt) : option (uint256 * list uint256 * bool) :=
  let fail := Some (zero256, [], fBad t) in
  if nTransactions t =? 0 then fail
  else if max_block_size / 60 <? nTransactions t then fail
  else if nTransactions t <? Zlen (vHash t) then fail
  else if Zlen (vBits t) <? Zlen (vHash t) then fail
  else
    nHeight ← tree_height (nTransactions t);
    let '(hashMerkleRoot, e) := TraverseAndExtract t nHeight 0 (Ext 0 0 [] (fBad t)) in
    let ok := negb (bad e) && ((nBitsUsed e + 7) / 8 =? (length (vBits t) + 7) / 8)%nat && (nHashUsed e =? length (vHash t))%nat in
    Some (if ok then hashMerkleRoot else zero256, matches e, bad e).

(** *** Serialisation *)

(** [vBytes[p / 8] |= vBits[p] << (p % 8)]. *)
Fixpoint byte_of (l : list bool) : Z := match l with [] => 0 | b :: l => Z.b2z b + 2 * byte_of l end.
Fixpoint pack_bits (fuel : nat) (l : list bool) : list Z :=
  match fuel, l with S fuel, _ :: _ => byte_of (take 8 l) :: pack_bits fuel (drop 8 l) | _, _ => [] end.
Definition bits_of (b : Z) : list bool := map (fun i => Z.testbit b (Z.of_nat i)) (seq 0 8).
Definition unpack_bits (l : list Z) : list bool := flat_map bits_of l.

Definition write_pmt (t : pmt) : option (list Z) :=
  b1 ← ser uint32 (nTransactions t);
  b2 ← ser (vec (blob 32)) (vHash t);
  b3 ← ser bytevec (pack_bits (length (vBits t)) (vBits t));
  Some (b1 ++ b2 ++ b3).
Definition read_pmt : reader pmt :=
  n ← unser uint32;
  h ← unser (vec (blob 32));
  b ← unser bytevec;
  mret (Pmt n (unpack_bits b) h false).

(** [CMerkleBlock(block, txids)]: the part of the tree. *)
Definition merkle_block (vHashes : list uint256) (txids : gset uint256) : option pmt :=
  CPartialMerkleTree vHashes (map (fun h => bool_decide (h ∈ txids)) vHashes).

(** [verifytxoutproof] on a decoded proof and the root of its header: the transaction ids. *)
Definition verify_proof (max_block_size : Z) (hashMerkleRoot : uint256) (t : pmt) : option (list uint256) :=
  '(root, vMatch, _) ← ExtractMatches max_block_size t;
  Some (if bool_decide (root = hashMerkleRoot) then vMatch else []).

End Code.
End PartialMerkle.

(** ** The levels of the tree *)

Module PartialFacts.
Import PartialMerkle.

Section Facts.
Context (Hash : uint256 -> uint256 -> uint256).

Definition level (h : nat) (l : list uint256) : list uint256 := Nat.iter h (next_level Hash) l.

Lemma level_S h l : level (S h) l = next_level Hash (level h l).
Proof using. done. Qed.
Lemma level_S' h l : level (S h) l = level h (next_level Hash l).
Proof using. induction h as [| h IH]; [done |]. rewrite level_S, IH. done. Qed.

(** The number of nodes at a height: the leaves divided by [2^h], rounded up. *)
Lemma ceil_half n h : ((n + 2 ^ Z.of_nat h - 1) / 2 ^ Z.of_nat h + 1) / 2 = (n + 2 ^ Z.of_nat (S h) - 1) / 2 ^ Z.of_nat (S h).
Proof using.
  assert (0 < 2 ^ Z.of_nat h) by (apply Z.pow_pos_nonneg; lia). rewrite Nat2Z.inj_succ, Z.pow_succ_r by lia.
  set (p := 2 ^ Z.of_nat h) in *. replace ((n + p - 1) / p + 1) with ((n + p - 1 + 1 * p) / p) by (rewrite Z.div_add by lia; lia).
  rewrite Z.div_div by lia. f_equal; lia.
Qed.

Lemma length_level h l : l <> [] -> Zlen (level h l) = (Zlen l + 2 ^ Z.of_nat h - 1) / 2 ^ Z.of_nat h.
Proof using.
  intros Hl. induction h as [| h IH].
  - change (2 ^ Z.of_nat 0) with 1. rewrite Z.div_1_r. change (level 0 l) with l. lia.
  - rewrite level_S. unfold Zlen at 1. rewrite length_next_level, Nat2Z.inj_div, Nat2Z.inj_add. change (Z.of_nat 1) with 1. change (Z.of_nat 2) with 2.
    fold (Zlen (level h l)). rewrite IH. apply ceil_half.
Qed.

Context (l : list uint256).
Hypothesis (nonempty : l <> []) (few : Zlen l < 2 ^ 31).

Lemma width_level h : (h <= 31)%nat -> CalcTreeWidth (Zlen l) h = Zlen (level h l).
Proof using nonempty few.
  intros Hh. rewrite length_level by done. unfold CalcTreeWidth, u32.
  assert (0 < Zlen l) by (unfold Zlen; destruct l; [done | cbn [length]; lia]).
  assert (0 < 2 ^ Z.of_nat h <= 2 ^ 31) by (split; [apply Z.pow_pos_nonneg; lia |]; apply Z.pow_le_mono_r; lia).
  rewrite Z.shiftl_mul_pow2, Z.mul_1_l by lia. rewrite Z.mod_small by lia. by rewrite Z.shiftr_div_pow2 by lia.
Qed.

Lemma has_right_level h pos : (h <= 31)%nat -> has_right (Zlen l) h pos = (2 * pos + 1 <? length (level h l))%nat.
Proof using nonempty few.
  intros Hh. unfold has_right. rewrite width_level by done. unfold Zlen.
  destruct (Nat.ltb_spec (2 * pos + 1) (length (level h l))), (Z.ltb_spec (Z.of_nat (2 * pos + 1)) (Z.of_nat (length (level h l)))); lia || done.
Qed.

Lemma child_inside h pos : (pos < length (level (S h) l))%nat -> (2 * pos < length (level h l))%nat.
Proof using.
  rewrite level_S, length_next_level. intros Hp.
  pose proof (Nat.Div0.mul_div_le (length (level h l) + 1) 2). lia.
Qed.

(** A node combines its children, the left one twice if it is alone. *)
Lemma level_at h pos :
  (pos < length (level (S h) l))%nat ->
  at_ (level (S h) l) pos =
    Hash (at_ (level h l) (2 * pos)) (if (2 * pos + 1 <? length (level h l))%nat then at_ (level h l) (2 * pos + 1) else at_ (level h l) (2 * pos)).
Proof using.
  intros Hp%child_inside. rewrite level_S, next_level_at by done. f_equal.
  destruct (Nat.ltb_spec (2 * pos + 1) (length (level h l))); f_equal; lia.
Qed.

Lemma calc_hash h pos :
  (h <= 32)%nat -> (pos < length (level h l))%nat -> CalcHash Hash (Zlen l) h pos l = Some (at_ (level h l) pos).
Proof using nonempty few.
  revert pos. induction h as [| h IH]; intros pos Hh Hp.
  - change (level 0 l) with l in *. cbn [CalcHash]. unfold at_. rewrite nth_lookup.
    destruct (l !! pos) eqn:E; [done |]. apply lookup_ge_None in E. lia.
  - cbn [CalcHash]. pose proof (child_inside h pos Hp) as Hc. rewrite (IH (2 * pos)%nat) by lia. cbn [mbind option_bind].
    rewrite has_right_level by lia. rewrite level_at by done. destruct (Nat.ltb_spec (2 * pos + 1) (length (level h l))); [| done].
    rewrite (IH (2 * pos + 1)%nat) by lia. done.
Qed.

(** The height. *)
Definition is_height (H : nat) : Prop := length (level H l) = 1%nat /\ forall h, (h < H)%nat -> (1 < length (level h l))%nat.

Lemma height_unique H1 H2 : is_height H1 -> is_height H2 -> H1 = H2.
Proof using.
  intros [A1 B1] [A2 B2]. destruct (Nat.lt_trichotomy H1 H2) as [Hl | [? | Hl]]; [| done |].
  - apply B2 in Hl. lia.
  - apply B1 in Hl. lia.
Qed.

Lemma height_from_ok fuel h :
  (fuel + h = 32)%nat -> (forall k, (k < h)%nat -> (1 < length (level k l))%nat) ->
  exists H, height_from fuel (Zlen l) h = Some H /\ is_height H /\ (H <= 31)%nat.
Proof using nonempty few.
  revert h. induction fuel as [| fuel IH]; intros h Hf Hk.
  - exfalso. cut (length (level 31 l) < 2)%nat; [intros Hw; specialize (Hk 31%nat ltac:(lia)); lia |].
    clear Hf Hk. generalize (length_level 31 l nonempty). generalize (level 31 l). intros k. unfold Zlen at 1. intros E.
    assert ((Zlen l + 2 ^ Z.of_nat 31 - 1) / 2 ^ Z.of_nat 31 < 2); [| lia].
    apply Z.div_lt_upper_bound; lia.
  - cbn [height_from]. rewrite width_level by lia. destruct (Z.ltb_spec 1 (Zlen (level h l))) as [Hw | Hw].
    + apply IH; [lia |]. intros k Hkl. destruct (decide (k = h)) as [-> |]; [unfold Zlen in Hw; lia | apply Hk; lia].
    + exists h. split; [done |]. split; [| lia]. split; [| done].
      assert (0 < Zlen (level h l)); [| unfold Zlen in *; lia]. rewrite length_level by done.
      assert (0 < Zlen l) by (unfold Zlen; destruct l; [done | cbn [length]; lia]).
      apply Z.div_str_pos. lia.
Qed.

Lemma tree_height_ok : exists H, tree_height (Zlen l) = Some H /\ is_height H /\ (H <= 31)%nat.
Proof using nonempty few. apply (height_from_ok 32 0); [done |]. lia. Qed.

End Facts.

(** ** The Merkle root *)

Section Root.
Context (Hash : uint256 -> uint256 -> uint256).

Lemma levels_top fuel l :
  (0 < length l <= fuel)%nat -> exists H, List.last (levels Hash fuel l) l = level Hash H l /\ is_height Hash l H.
Proof using.
  revert l. induction fuel as [| fuel IH]; intros l Hl; [lia |]. cbn [levels]. destruct (Nat.ltb_spec 1 (length l)) as [H1 | H1].
  - pose proof (half_lt (length l) H1) as Hh. rewrite <-(length_next_level Hash) in Hh.
    destruct (IH (next_level Hash l)) as (H & E & [A B]); [lia |]. exists (S H). rewrite last_cons_default, E, level_S'. split; [done |].
    split; [by rewrite level_S' |]. intros [| h] Hh'; [done |]. rewrite level_S'. apply B. lia.
  - exists 0%nat. split; [done |]. split; [change (level Hash 0 l) with l; lia |]. lia.
Qed.

Lemma root_level l H : l <> [] -> is_height Hash l H -> merkle_root Hash l = at_ (level Hash H l) 0.
Proof using.
  intros Hne HH. destruct (levels_top (length l) l) as (H' & E & HH'); [destruct l; [done | cbn [length]; lia] |].
  rewrite (height_unique Hash l H H') by done. unfold merkle_root. rewrite E. unfold at_. by destruct (level Hash H' l).
Qed.
End Root.

(** ** The leaves below a node *)

Definition seg {A} (l : list A) (h pos : nat) : list A := take (2 ^ h) (drop (pos * 2 ^ h) l).

Lemma seg_split {A} (l : list A) h pos : seg l (S h) pos = seg l h (2 * pos) ++ seg l h (2 * pos + 1).
Proof.
  unfold seg. replace (2 ^ S h)%nat with (2 ^ h + 2 ^ h)%nat by (cbn [Nat.pow]; lia).
  replace (pos * (2 ^ h + 2 ^ h))%nat with (2 * pos * 2 ^ h)%nat by lia.
  rewrite <-take_take_drop, drop_drop. do 3 f_equal. lia.
Qed.

Lemma seg_whole {A} (l : list A) h : (length l <= 2 ^ h)%nat -> seg l h 0 = l.
Proof. intros Hl. unfold seg. rewrite Nat.mul_0_l, drop_0. by apply take_ge. Qed.

Section Below.
Context (Hash : uint256 -> uint256 -> uint256) (l : list uint256).
Hypothesis (nonempty : l <> []).

(** A node is inside the tree exactly when it has leaves. *)
Lemma inside_leaf h pos : (pos < length (level Hash h l))%nat <-> (pos * 2 ^ h < length l)%nat.
Proof using nonempty.
  pose proof (length_level Hash h l nonempty) as E. unfold Zlen in E. assert (0 < length l)%nat by (destruct l; [done | cbn [length]; lia]).
  assert (Z.of_nat (2 ^ h) = 2 ^ Z.of_nat h) as Ep by (rewrite Nat2Z.inj_pow; done).
  assert (0 < 2 ^ Z.of_nat h) by (apply Z.pow_pos_nonneg; lia).
  assert (Z.of_nat pos < Z.of_nat (length (level Hash h l)) <-> Z.of_nat pos * 2 ^ Z.of_nat h < Z.of_nat (length l)); [| nia].
  rewrite E. set (p := 2 ^ Z.of_nat h) in *. set (n := Z.of_nat (length l)) in *. split.
  - intros Hp. assert (Z.of_nat pos + 1 <= (n + p - 1) / p) as Hq by lia.
    pose proof (Z.mul_div_le (n + p - 1) p ltac:(lia)). nia.
  - intros Hp. apply Z.lt_le_trans with (Z.of_nat pos + 1); [lia |]. apply Z.div_le_lower_bound; lia || nia.
Qed.

Lemma seg_outside h pos : (length (level Hash h l) <= pos)%nat -> seg l h pos = [].
Proof using nonempty.
  intros Hp. unfold seg. rewrite drop_ge; [by destruct (2 ^ h)%nat |].
  apply Nat.nlt_ge. intros Hlt%inside_leaf. lia.
Qed.

Lemma seg_children h pos :
  (pos < length (level Hash (S h) l))%nat ->
  seg l (S h) pos = seg l h (2 * pos) ++ (if (2 * pos + 1 <? length (level Hash h l))%nat then seg l h (2 * pos + 1) else []).
Proof using nonempty.
  intros Hp. rewrite seg_split. f_equal. destruct (Nat.ltb_spec (2 * pos + 1) (length (level Hash h l))); [done |]. by apply seg_outside.
Qed.

Lemma seg_leaf pos : (pos < length l)%nat -> seg l 0 pos = [at_ l pos].
Proof using.
  intros Hp. unfold seg, at_. cbn [Nat.pow]. rewrite Nat.mul_1_r. rewrite nth_lookup.
  destruct (l !! pos) as [x |] eqn:E; [| apply lookup_ge_None in E; lia]. cbn [default]. erewrite drop_S by done. done.
Qed.

Lemma height_covers H : is_height Hash l H -> (length l <= 2 ^ H)%nat.
Proof using nonempty.
  intros [E _]. apply Nat.nlt_ge. intros Hlt. assert (1 < length (level Hash H l))%nat by (apply inside_leaf; lia). lia.
Qed.

(** The children of a node are among the pairs that were hashed. *)
Lemma children_hashed h pos :
  (1 < length (level Hash h l))%nat -> (pos < length (level Hash (S h) l))%nat ->
  (at_ (level Hash h l) (2 * pos), if (2 * pos + 1 <? length (level Hash h l))%nat then at_ (level Hash h l) (2 * pos + 1) else at_ (level Hash h l) (2 * pos))
    ∈ merkle_pairs Hash l.
Proof using.
  intros H1 Hp. assert (forall fuel k, (length k <= fuel)%nat -> (1 < length (level Hash h k))%nat ->
    level_pairs (level Hash h k) ⊆ pairs_from Hash fuel k) as Hin.
  { clear. intros fuel. revert h. induction fuel as [| fuel IH]; intros h k Hf H1.
    - exfalso. destruct k; [| cbn in Hf; lia]. assert (level Hash h [] = []) as E; [| rewrite E in H1; cbn in H1; lia].
      clear. induction h as [| h IH]; [done |]. rewrite level_S, IH. done.
    - assert (1 < length k)%nat as Hk.
      { apply Nat.nle_gt. intros Hk. assert (length (level Hash h k) <= 1)%nat; [| lia]. clear -Hk. induction h as [| h IH]; [done |].
        rewrite level_S, length_next_level. apply Nat.lt_succ_r, Nat.Div0.div_lt_upper_bound. lia. }
      cbn [pairs_from]. rewrite (proj2 (Nat.ltb_lt _ _) Hk). destruct h as [| h].
      + apply list_subseteq_app_l, (reflexivity _).
      + apply list_subseteq_app_r. rewrite level_S' in *. apply IH; [| done].
        rewrite length_next_level. pose proof (half_lt (length k) Hk). lia. }
  apply (Hin (length l) l); [done | done |]. apply list_elem_of_fmap. exists pos. rewrite level_S, length_next_level in Hp. split.
  - pose proof (Nat.Div0.mul_div_le (length (level Hash h l) + 1) 2). f_equal.
    destruct (Nat.ltb_spec (2 * pos + 1) (length (level Hash h l))); f_equal; lia.
  - apply elem_of_seq. lia.
Qed.

(** Equal nodes have equal first leaves, unless hashes of the tree collide. *)
Lemma equal_nodes h p q :
  (p < length (level Hash h l))%nat -> (q < length (level Hash h l))%nat -> at_ (level Hash h l) p = at_ (level Hash h l) q ->
  at_ l (p * 2 ^ h) = at_ l (q * 2 ^ h) \/ collides Hash (merkle_pairs Hash l) (merkle_pairs Hash l).
Proof using nonempty.
  revert p q. induction h as [| h IH]; intros p q Hp Hq E.
  - left. cbn [Nat.pow]. by rewrite !Nat.mul_1_r.
  - destruct (decide (p = q)) as [-> | Hpq]; [by left |].
    pose proof (child_inside Hash l h p Hp) as Cp. pose proof (child_inside Hash l h q Hq) as Cq.
    pose proof (children_hashed h p ltac:(lia) Hp) as Ip. pose proof (children_hashed h q ltac:(lia) Hq) as Iq.
    rewrite !level_at in E by done.
    match type of E with Hash ?a ?b = Hash ?c ?d => destruct (decide ((a, b) = (c, d))) as [Ep | Ep] end.
    + injection Ep as Ea _. apply IH in Ea; [| done | done].
      cbn [Nat.pow]. replace (p * (2 * 2 ^ h))%nat with (2 * p * 2 ^ h)%nat by lia.
      by replace (q * (2 * 2 ^ h))%nat with (2 * q * 2 ^ h)%nat by lia.
    + right. eexists _, _. split; [exact Ip |]. split; [exact Iq |]. by split.
Qed.

Lemma siblings_differ h pos :
  NoDup l -> (2 * pos + 1 < length (level Hash h l))%nat -> at_ (level Hash h l) (2 * pos + 1) = at_ (level Hash h l) (2 * pos) ->
  collides Hash (merkle_pairs Hash l) (merkle_pairs Hash l).
Proof using nonempty.
  intros Hd Hp E. destruct (equal_nodes h (2 * pos + 1) (2 * pos) ltac:(lia) ltac:(lia) E) as [El |]; [| done]. exfalso.
  assert (forall p, (p < length (level Hash h l))%nat -> exists x, l !! (p * 2 ^ h)%nat = Some x /\ at_ l (p * 2 ^ h) = x) as Hat.
  { intros p Hl%inside_leaf. apply lookup_lt_is_Some_2 in Hl as [x Hx]. exists x. split; [done |]. unfold at_. by rewrite nth_lookup, Hx. }
  destruct (Hat (2 * pos + 1)%nat ltac:(lia)) as (x & Hx & Ex). destruct (Hat (2 * pos)%nat ltac:(lia)) as (y & Hy & Ey).
  rewrite Ex, Ey in El. subst y. pose proof (NoDup_lookup _ _ _ _ Hd Hx Hy) as En.
  assert (0 < 2 ^ h)%nat by (apply Nat.neq_0_lt_0, Nat.pow_nonzero; lia). nia.
Qed.

End Below.

(** ** What an extraction proves *)

Section Sound.
Context (Hash : uint256 -> uint256 -> uint256) (l : list uint256).
Hypothesis (nonempty : l <> []) (few : Zlen l < 2 ^ 31).

Lemma extract_bad t h pos e : bad e = true -> bad (TraverseAndExtract Hash t h pos e).2 = true.
Proof using.
  revert pos e. induction h as [| h IH]; intros pos e He; cbn [TraverseAndExtract].
  - destruct (vBits t !! _); [| done]. cbn [nHashUsed]. destruct (vHash t !! _); done.
  - destruct (vBits t !! _) as [[] |]; [| cbn [nHashUsed]; destruct (vHash t !! _); done | done].
    specialize (IH (2 * pos)%nat (Ext (nBitsUsed e + 1) (nHashUsed e) (matches e) (bad e)) He) as H1.
    destruct (TraverseAndExtract Hash t h (2 * pos) _) as [lh e1]. cbn [snd] in H1.
    destruct (has_right _ _ _); [| done]. pose proof (IH (2 * pos + 1)%nat e1 H1) as H2.
    destruct (TraverseAndExtract Hash t h (2 * pos + 1) e1) as [rh e2]. cbn [snd bad] in *. by rewrite H2.
Qed.

(** If the hash that was computed is that of the node, then the matches are leaves below it. *)
Lemma extract_sound Q t h pos e e' :
  nTransactions t = Zlen l -> (h <= 31)%nat -> (forall k, (k < h)%nat -> (1 < length (level Hash k l))%nat) ->
  (pos < length (level Hash h l))%nat -> map node_pair (nodes_extracted Hash t h pos e) ⊆ Q ->
  TraverseAndExtract Hash t h pos e = (at_ (level Hash h l) pos, e') -> bad e' = false ->
  collides Hash (merkle_pairs Hash l) Q \/ exists ms, matches e' = matches e ++ ms /\ ms `sublist_of` seg l h pos.
Proof using nonempty few.
  intros Hn. revert pos e e'. induction h as [| h IH]; intros pos e e' Hh Hlow Hp HQ E He; cbn [TraverseAndExtract] in E.
  - right. destruct (vBits t !! _) as [b |]; [| injection E as _ <-; done]. cbn [nHashUsed nBitsUsed matches bad] in E.
    destruct (vHash t !! _) as [x |]; [| injection E as _ <-; done]. injection E as -> <-. cbn [matches Nat.eqb andb].
    change (level Hash 0 l) with l in *. rewrite seg_leaf by done. destruct b.
    + by exists [at_ l pos].
    + exists []. rewrite app_nil_r. split; [done | apply sublist_nil_l].
  - cbn [nodes_extracted] in HQ. destruct (vBits t !! _) as [b |]; [| injection E as _ <-; done].
    cbn [nHashUsed nBitsUsed matches bad] in E. destruct b.
    2:{ right. exists []. rewrite app_nil_r. split; [| apply sublist_nil_l]. destruct (vHash t !! _); injection E as _ <-; done. }
    pose proof (child_inside Hash l h pos Hp) as Hc. pose proof (children_hashed Hash l h pos (Hlow h ltac:(lia)) Hp) as Hin.
    cbv zeta in HQ. destruct (TraverseAndExtract Hash t h (2 * pos) _) as [lh e1] eqn:E1.
    rewrite Hn, (has_right_level Hash l nonempty few) in E, HQ by lia.
    rewrite level_at in E by done. rewrite (seg_children Hash) by done. rewrite map_app in HQ.
    apply list_subseteq_app_iff_l in HQ as [HQ1 HQ2].
    assert (forall k, (k < h)%nat -> (1 < length (level Hash k l))%nat) as Hlow' by (intros k Hk; apply Hlow; lia).
    destruct (Nat.ltb_spec (2 * pos + 1) (length (level Hash h l))) as [Hr | Hr].
    + rewrite map_app in HQ2. apply list_subseteq_app_iff_l in HQ2 as [HQ2 HQ3].
      destruct (TraverseAndExtract Hash t h (2 * pos + 1) e1) as [rh e2] eqn:E2. injection E as Eh <-. cbn [matches bad] in *.
      apply orb_false_iff in He as [He _].
      assert (bad e1 = false) as He1.
      { destruct (bad e1) eqn:Eb; [| done]. pose proof (extract_bad t h (2 * pos + 1) e1 Eb) as Hb. rewrite E2 in Hb. cbn [snd] in Hb. congruence. }
      destruct (decide ((lh, rh) = (at_ (level Hash h l) (2 * pos), at_ (level Hash h l) (2 * pos + 1)))) as [[= -> ->] | Hne].
      2:{ left. eexists _, (lh, rh). split; [exact Hin |]. split; [apply HQ3; left |]. split; [congruence | done]. }
      apply IH in E1 as [? | (m1 & M1 & S1)]; [by left | | lia | done | done | done | done].
      apply IH in E2 as [? | (m2 & M2 & S2)]; [by left | | lia | done | done | done | done].
      right. exists (m1 ++ m2). rewrite M2, M1. cbn [matches]. rewrite app_assoc. split; [done | by apply sublist_app].
    + injection E as Eh <-. destruct (decide (lh = at_ (level Hash h l) (2 * pos))) as [-> | Hne].
      2:{ left. eexists _, (lh, lh). split; [exact Hin |]. split; [apply HQ2; left |]. split; [congruence | done]. }
      apply IH in E1 as [? | (m1 & M1 & S1)]; [by left | | lia | done | done | done | done].
      right. exists m1. by rewrite app_nil_r.
Qed.

(** No two children of a node are the same, unless [fBad] is set. *)
Lemma extract_distinct t h pos e x :
  bad (TraverseAndExtract Hash t h pos e).2 = false -> (x, Some x) ∉ nodes_extracted Hash t h pos e.
Proof using.
  revert pos e. induction h as [| h IH]; intros pos e; cbn [TraverseAndExtract nodes_extracted]; [by intros _ ?%not_elem_of_nil |].
  destruct (vBits t !! _) as [[] |]; [| by intros _ ?%not_elem_of_nil | by intros _ ?%not_elem_of_nil].
  cbv zeta. destruct (TraverseAndExtract Hash t h (2 * pos) _) as [lh e1] eqn:E1.
  pose proof (IH (2 * pos)%nat (Ext (nBitsUsed e + 1) (nHashUsed e) (matches e) (bad e))) as IH1. rewrite E1 in IH1. cbn [snd] in IH1.
  destruct (has_right _ _ _).
  - pose proof (IH (2 * pos + 1)%nat e1) as IH2. pose proof (extract_bad t h (2 * pos + 1) e1) as Hb.
    destruct (TraverseAndExtract Hash t h (2 * pos + 1) e1) as [rh e2]. cbn [fst snd bad] in *.
    intros [He Hne%bool_decide_eq_false]%orb_false_iff. rewrite !elem_of_app, list_elem_of_singleton.
    intros [Hin | [Hin | [= -> ->]]]; [| by apply IH2 | done]. apply IH1 in Hin; [done |].
    destruct (bad e1); [| done]. by rewrite Hb in He.
  - intros He. rewrite elem_of_app, list_elem_of_singleton. intros [Hin | ?]; [by apply IH1 in Hin | done].
Qed.

End Sound.

(** ** What a construction gives *)

(** The transactions that a mask selects. *)
Fixpoint chosen {A} (l : list A) (m : list bool) : list A :=
  match l, m with x :: l, b :: m => if b then x :: chosen l m else chosen l m | _, _ => [] end.

Lemma chosen_app {A} (l1 l2 : list A) m1 m2 : length l1 = length m1 -> chosen (l1 ++ l2) (m1 ++ m2) = chosen l1 m1 ++ chosen l2 m2.
Proof.
  revert m1. induction l1 as [| x l1 IH]; intros [| b m1] E; [done | done | done |]. cbn [app chosen]. rewrite IH by (cbn in E; lia).
  by destruct b.
Qed.
Lemma chosen_sublist {A} (l : list A) m : chosen l m `sublist_of` l.
Proof.
  revert m. induction l as [| x l IH]; intros [| b m]; cbn [chosen]; [done | done | apply sublist_nil_l |].
  destruct b; [by apply sublist_skip | by apply sublist_cons].
Qed.
Lemma chosen_none {A} (l : list A) m : existsb (fun b => b) m = false -> chosen l m = [].
Proof. revert l. induction m as [| b m IH]; intros [| x l] E; [done | done | done |]. cbn in *. destruct b; [done | by apply IH]. Qed.
Lemma chosen_set `{EqDecision A, Countable A} (s : gset A) (l : list A) :
  chosen l (map (fun h => bool_decide (h ∈ s)) l) = filter (fun h => h ∈ s) l.
Proof.
  induction l as [| x l IH]; [done |]. cbn [map chosen]. rewrite filter_cons, IH. case_bool_decide; [by rewrite decide_True | by rewrite decide_False].
Qed.

Lemma any_match_seq m a k : (a + k <= length m)%nat -> any_match m (seq a k) = Some (existsb (fun b => b) (take k (drop a m))).
Proof.
  revert a. induction k as [| k IH]; intros a Hk; [by rewrite take_0 |]. cbn [seq any_match].
  destruct (m !! a) as [b |] eqn:E; [| apply lookup_ge_None in E; lia]. cbn [mbind option_bind]. rewrite IH by lia.
  erewrite (drop_S m b a) by done. done.
Qed.

Section Complete.
Context (Hash : uint256 -> uint256 -> uint256) (l : list uint256) (m : list bool).
Hypothesis (nonempty : l <> []) (few : Zlen l < 2 ^ 31) (mask : length m = length l) (distinct : NoDup l).
Context (P : uint256 -> Prop) (HP : forall a b, P (Hash a b)) (Hl : Forall P l).

Lemma parent_seg h pos : (pos < length (level Hash h l))%nat -> parent_of_match (Zlen l) h pos m = Some (existsb (fun b => b) (seg m h pos)).
Proof using nonempty mask.
  intros Hp%(inside_leaf Hash l nonempty). unfold parent_of_match, seg. unfold Zlen. rewrite Nat2Z.id. rewrite any_match_seq by lia. do 2 f_equal.
  destruct (Nat.le_ge_cases ((pos + 1) * 2 ^ h) (length l)) as [Hle | Hle].
  - f_equal. lia.
  - rewrite !take_ge; [done | |]; rewrite length_drop; lia.
Qed.

Lemma seg_lengths h pos : length (seg m h pos) = length (seg l h pos).
Proof using mask. unfold seg. rewrite !length_take, !length_drop. lia. Qed.

Lemma level_P h pos : (pos < length (level Hash h l))%nat -> P (at_ (level Hash h l) pos).
Proof using HP Hl mask.
  destruct h as [| h]; intros Hp.
  - change (level Hash 0 l) with l in *. unfold at_. rewrite nth_lookup. destruct (l !! pos) as [x |] eqn:E; [by eapply Forall_lookup_1 |].
    apply lookup_ge_None in E. lia.
  - rewrite level_at by done. apply HP.
Qed.

(** The extraction of what was built for a node, wherever it stands in the vectors. *)
Definition extracts (h pos : nat) (bits : list bool) (hashes : list uint256) : Prop :=
  forall t B1 B2 H1 H2 e, vBits t = B1 ++ bits ++ B2 -> vHash t = H1 ++ hashes ++ H2 -> nTransactions t = Zlen l ->
    nBitsUsed e = length B1 -> nHashUsed e = length H1 ->
    TraverseAndExtract Hash t h pos e =
      (at_ (level Hash h l) pos, Ext (length B1 + length bits) (length H1 + length hashes) (matches e ++ chosen (seg l h pos) (seg m h pos)) (bad e)).

Record built (h pos : nat) (bits : list bool) (hashes : list uint256) : Prop := {
  bt_build : TraverseAndBuild Hash (Zlen l) h pos l m = Some (bits, hashes);
  bt_hashes : (length hashes <= length (seg l h pos))%nat;
  bt_bits : (length hashes <= length bits < 2 ^ (h + 1))%nat;
  bt_P : Forall P hashes;
  bt_extracts : collides Hash (merkle_pairs Hash l) (merkle_pairs Hash l) \/ extracts h pos bits hashes;
}.

Lemma seg_pos h pos : (pos < length (level Hash h l))%nat -> (0 < length (seg l h pos))%nat.
Proof using nonempty mask.
  intros Hp%(inside_leaf Hash l nonempty). unfold seg. rewrite length_take, length_drop.
  assert (0 < 2 ^ h)%nat by (apply Nat.neq_0_lt_0, Nat.pow_nonzero; lia). lia.
Qed.

(** A node that is stored as its hash. *)
Lemma built_hash h pos b :
  (h <= 31)%nat -> (pos < length (level Hash h l))%nat -> existsb (fun b => b) (seg m h pos) = b -> (h = 0%nat \/ b = false) ->
  built h pos [b] [at_ (level Hash h l) pos].
Proof using nonempty few mask HP Hl.
  intros Hh Hp Hb Hc. pose proof (parent_seg h pos Hp) as Hpar. rewrite Hb in Hpar.
  assert (1 < 2 ^ (h + 1))%nat by (apply Nat.pow_gt_1; lia). pose proof (seg_pos h pos Hp). split.
  - pose proof (calc_hash Hash l nonempty few h pos ltac:(lia) Hp) as Ec.
    destruct h as [| h]; cbn [TraverseAndBuild]; rewrite Hpar; cbn [mbind option_bind].
    + by rewrite Ec.
    + destruct Hc as [? | ->]; [done |]. by rewrite Ec.
  - cbn [length]. lia.
  - cbn [length]. lia.
  - constructor; [by apply level_P | constructor].
  - right. intros t B1 B2 H1 H2 e EB EH Hn Hu1 Hu2.
    assert (vBits t !! nBitsUsed e = Some b) as Eb by (rewrite EB, Hu1; by apply list_lookup_middle).
    assert (vHash t !! nHashUsed e = Some (at_ (level Hash h l) pos)) as Ehh by (rewrite EH, Hu2; by apply list_lookup_middle).
    cbn [length]. destruct h as [| h]; cbn [TraverseAndExtract]; rewrite Eb; cbn [nHashUsed nBitsUsed matches bad]; rewrite Ehh.
    + cbn [Nat.eqb andb]. rewrite Hu1, Hu2. change (level Hash 0 l) with l in *. rewrite seg_leaf in * by done.
      pose proof (seg_lengths 0 pos) as Es. rewrite seg_leaf in Es by done. destruct (seg m 0 pos) as [| b' [| ? ?]]; [done | | done].
      cbn [existsb orb] in Hb. rewrite orb_false_r in Hb. subst b'. cbn [chosen]. destruct b; [done | by rewrite app_nil_r].
    + destruct Hc as [? | ->]; [done |]. rewrite andb_false_r, chosen_none, app_nil_r by done. by rewrite Hu1, Hu2.
Qed.

(** An inner node above matches, from its children. *)
Lemma built_one h pos b1 h1 :
  (h <= 30)%nat -> (pos < length (level Hash (S h) l))%nat -> existsb (fun b => b) (seg m (S h) pos) = true ->
  (length (level Hash h l) <= 2 * pos + 1)%nat -> built h (2 * pos) b1 h1 -> built (S h) pos (true :: b1) h1.
Proof using nonempty few mask.
  intros Hh Hp Eb Hr [E1 L1 N1 P1 X1]. pose proof (parent_seg (S h) pos Hp) as Hpar. rewrite Eb in Hpar.
  pose proof (has_right_level Hash l nonempty few h pos ltac:(lia)) as Hright. rewrite (proj2 (Nat.ltb_ge _ _) Hr) in Hright.
  assert (seg l h (2 * pos + 1) = []) as El by (by apply (seg_outside Hash)).
  assert (seg m h (2 * pos + 1) = []) as Em by (apply length_zero_iff_nil; by rewrite seg_lengths, El).
  split.
  - cbn [TraverseAndBuild]. rewrite Hpar. cbn [mbind option_bind]. rewrite E1. cbn [mbind option_bind]. rewrite Hright.
    cbn [mbind option_bind]. by rewrite !app_nil_r.
  - rewrite seg_split, El, app_nil_r. done.
  - cbn [length]. replace (S h + 1)%nat with (S (h + 1)) by lia. cbn [Nat.pow]. lia.
  - done.
  - destruct X1 as [? | X1]; [by left |]. right. intros t B1 B2 H1 H2 e EB EH Hn Hu1 Hu2.
    cbn [TraverseAndExtract]. rewrite EB, Hu1. cbn [app]. rewrite list_lookup_middle by done. rewrite Hn.
    rewrite (X1 t (B1 ++ [true]) B2 H1 H2) by (cbn [nBitsUsed nHashUsed]; rewrite ?length_app, <-?app_assoc; done).
    rewrite Hright, level_at, (proj2 (Nat.ltb_ge _ _) Hr) by done. cbn [matches bad length].
    rewrite !seg_split, El, Em, !app_nil_r. rewrite length_app. cbn [length]. do 2 f_equal. lia.
Qed.

Lemma built_two h pos b1 h1 b2 h2 :
  (h <= 30)%nat -> (pos < length (level Hash (S h) l))%nat -> existsb (fun b => b) (seg m (S h) pos) = true ->
  (2 * pos + 1 < length (level Hash h l))%nat -> built h (2 * pos) b1 h1 -> built h (2 * pos + 1) b2 h2 ->
  built (S h) pos (true :: b1 ++ b2) (h1 ++ h2).
Proof using nonempty few mask distinct.
  intros Hh Hp Eb Hr [E1 L1 N1 P1 X1] [E2 L2 N2 P2 X2]. pose proof (parent_seg (S h) pos Hp) as Hpar. rewrite Eb in Hpar.
  pose proof (has_right_level Hash l nonempty few h pos ltac:(lia)) as Hright. rewrite (proj2 (Nat.ltb_lt _ _) Hr) in Hright.
  split.
  - cbn [TraverseAndBuild]. rewrite Hpar. cbn [mbind option_bind]. rewrite E1. cbn [mbind option_bind]. rewrite Hright, E2. done.
  - rewrite seg_split, !length_app. lia.
  - cbn [length]. rewrite !length_app. replace (S h + 1)%nat with (S (h + 1)) by lia. cbn [Nat.pow]. lia.
  - by apply Forall_app.
  - destruct X1 as [? | X1]; [by left |]. destruct X2 as [? | X2]; [by left |].
    destruct (decide (at_ (level Hash h l) (2 * pos + 1) = at_ (level Hash h l) (2 * pos))) as [Ee | Hne];
      [left; by eapply siblings_differ |].
    right. intros t B1 B2 H1 H2 e EB EH Hn Hu1 Hu2.
    cbn [TraverseAndExtract]. rewrite EB, Hu1. cbn [app]. rewrite list_lookup_middle by done. rewrite Hn.
    assert (vBits t = (B1 ++ [true]) ++ b1 ++ b2 ++ B2) as EB1 by (rewrite EB; cbn [app]; by rewrite <-!app_assoc).
    assert (vBits t = (B1 ++ true :: b1) ++ b2 ++ B2) as EB2 by (rewrite EB; cbn [app]; by rewrite <-!app_assoc).
    assert (vHash t = H1 ++ h1 ++ h2 ++ H2) as EH1 by (rewrite EH; by rewrite <-!app_assoc).
    assert (vHash t = (H1 ++ h1) ++ h2 ++ H2) as EH2 by (rewrite EH; by rewrite <-!app_assoc).
    rewrite (X1 t _ _ _ _ _ EB1 EH1 Hn) by (cbn [nBitsUsed nHashUsed]; rewrite ?length_app; done).
    rewrite Hright.
    rewrite (X2 t _ _ _ _ _ EB2 EH2 Hn) by (cbn [nBitsUsed nHashUsed]; rewrite ?length_app; cbn [length]; lia).
    rewrite level_at, (proj2 (Nat.ltb_lt _ _) Hr) by done. cbn [matches bad length nBitsUsed nHashUsed].
    rewrite bool_decide_eq_false_2, orb_false_r by done. rewrite !seg_split, chosen_app by (by rewrite seg_lengths).
    rewrite !length_app, app_assoc. cbn [length]. do 2 f_equal; lia.
Qed.

Lemma built_all h pos : (h <= 31)%nat -> (pos < length (level Hash h l))%nat -> exists bits hashes, built h pos bits hashes.
Proof using nonempty few mask distinct HP Hl.
  revert pos. induction h as [| h IH]; intros pos Hh Hp; [by eexists _, _; apply built_hash; auto |].
  destruct (existsb (fun b => b) (seg m (S h) pos)) eqn:Eb; [| by eexists _, _; apply built_hash; auto].
  pose proof (child_inside Hash l h pos Hp) as Hc. destruct (IH (2 * pos)%nat ltac:(lia) Hc) as (b1 & h1 & X1).
  destruct (Nat.le_gt_cases (length (level Hash h l)) (2 * pos + 1)) as [Hr | Hr].
  - eexists _, _. apply built_one; (done || lia).
  - destruct (IH (2 * pos + 1)%nat ltac:(lia) Hr) as (b2 & h2 & X2). eexists _, _. apply built_two; (done || lia).
Qed.

End Complete.

(** ** Flags as bytes *)

Lemma byte_of_bit bl i : Z.testbit (byte_of bl) (Z.of_nat i) = nth i bl false.
Proof.
  revert i. induction bl as [| b bl IH]; intros i; cbn [byte_of]; [by rewrite Z.testbit_0_l; destruct i |].
  destruct i as [| i]; [apply Z.add_b2z_double_bit0 |]. rewrite Nat2Z.inj_succ, <-Z.div2_bits by lia.
  rewrite Z.add_b2z_double_div2. apply IH.
Qed.

Lemma byte_of_bound bl : 0 <= byte_of bl < 2 ^ Zlen bl.
Proof.
  induction bl as [| b bl IH]; cbn [byte_of]; [done |]. unfold Zlen in *. cbn [length]. rewrite Nat2Z.inj_succ, Z.pow_succ_r by lia.
  destruct b; cbn [Z.b2z]; lia.
Qed.

Lemma bits_of_byte bl : (length bl <= 8)%nat -> bits_of (byte_of bl) = bl ++ replicate (8 - length bl) false.
Proof.
  intros Hl. unfold bits_of. rewrite (map_ext _ (fun i => nth i bl false)) by apply byte_of_bit.
  do 9 (destruct bl as [| ? bl]; [done |]). cbn [length] in Hl. lia.
Qed.

Lemma one_byte n : (1 <= n <= 8)%nat -> ((n + (8 - n) + 7) / 8 = (n + 7) / 8)%nat.
Proof. intros Hn. do 9 (destruct n as [| n]; [lia || reflexivity |]). lia. Qed.

Lemma unpack_pack fuel bl :
  (length bl <= fuel)%nat ->
  exists k, unpack_bits (pack_bits fuel bl) = bl ++ replicate k false /\ ((length bl + k + 7) / 8 = (length bl + 7) / 8)%nat.
Proof.
  revert bl. induction fuel as [| fuel IH]; intros bl Hl.
  - destruct bl; [| cbn [length] in Hl; lia]. by exists 0%nat.
  - destruct bl as [| b bl]; [by exists 0%nat |]. set (w := b :: bl) in *. cbn [pack_bits]. unfold w at 1. fold w.
    change (unpack_bits (?x :: ?y)) with (bits_of x ++ unpack_bits y).
    rewrite bits_of_byte by (rewrite length_take; lia). destruct (Nat.le_gt_cases (length w) 8) as [H8 | H8].
    + rewrite take_ge, drop_ge by done. exists (8 - length w)%nat. split; [destruct fuel; cbn [pack_bits unpack_bits flat_map]; by rewrite app_nil_r |].
      apply one_byte. split; [unfold w; cbn [length]; lia | exact H8].
    + destruct (IH (drop 8 w)) as (k & E & Ek); [rewrite length_drop; lia |]. rewrite length_drop in Ek. rewrite E, length_take, Nat.min_l by lia.
      change (replicate (8 - 8) false) with (@nil bool). rewrite app_nil_r, app_assoc, take_drop. exists k. split; [done |].
      replace (length w + k + 7)%nat with (length w - 8 + k + 7 + 1 * 8)%nat by lia.
      replace (length w + 7)%nat with (length w - 8 + 7 + 1 * 8)%nat by lia. rewrite !Nat.div_add by lia. by rewrite Ek.
Qed.

Lemma pack_bytes fuel bl : bytes_ok (pack_bits fuel bl) /\ (length (pack_bits fuel bl) <= length bl)%nat.
Proof.
  revert bl. induction fuel as [| fuel IH]; intros bl; cbn [pack_bits]; [split; [constructor | cbn [length]; lia] |].
  destruct bl as [| b bl]; [split; [constructor | done] |]. set (w := b :: bl). destruct (IH (drop 8 w)) as [H1 H2]. split.
  - constructor; [| done]. pose proof (byte_of_bound (take 8 w)) as B. unfold byte_ok.
    assert (2 ^ Zlen (take 8 w) <= 2 ^ 8); [apply Z.pow_le_mono_r; [lia |]; unfold Zlen; rewrite length_take; lia | lia].
  - rewrite length_drop in H2. assert (1 <= length w)%nat by (unfold w; cbn [length]; lia). cbn [length]. fold w. lia.
Qed.

Lemma len_pos {A} (l : list A) : l <> [] -> (0 < length l)%nat.
Proof. destruct l; [done | cbn [length]; lia]. Qed.

(** ** Building, sending and extracting *)

Section Whole.
Context (Hash : uint256 -> uint256 -> uint256) (l : list uint256) (m : list bool) (max : Z).
Hypothesis (nonempty : l <> []) (mask : length m = length l) (distinct : NoDup l) (small : Zlen l <= max / 60) (max_small : max <= 2 ^ 28).
Hypothesis (hash_bytes : forall a b, valid (blob 32) (Hash a b)) (ids : Forall (valid (blob 32)) l).

Lemma l_few : 0 < Zlen l < 2 ^ 23.
Proof using nonempty small max_small.
  pose proof (len_pos l nonempty). clear mask distinct ids. split; [unfold Zlen; lia |]. pose proof (Z.mul_div_le max 60 ltac:(lia)). lia.
Qed.

Lemma extract_built H bits hashes k :
  tree_height (Zlen l) = Some H -> is_height Hash l H -> (H <= 31)%nat -> built Hash l m (valid (blob 32)) H 0 bits hashes ->
  ((length bits + k + 7) / 8 = (length bits + 7) / 8)%nat ->
  collides Hash (merkle_pairs Hash l) (merkle_pairs Hash l) \/
  ExtractMatches Hash max (Pmt (Zlen l) (bits ++ replicate k false) hashes false) = Some (merkle_root Hash l, chosen l m, false).
Proof using nonempty mask small max_small.
  intros EH HH Hle [_ Lh Lb _ X] Hk. destruct X as [? | X]; [by left |]. right. pose proof l_few as Hfew.
  pose proof (height_covers Hash l nonempty H HH) as Hcov. rewrite seg_whole in Lh by done.
  unfold ExtractMatches. cbn [nTransactions vHash vBits fBad].
  rewrite (proj2 (Z.eqb_neq _ _)), (proj2 (Z.ltb_ge _ _)), (proj2 (Z.ltb_ge _ _)), (proj2 (Z.ltb_ge _ _));
    [| unfold Zlen; rewrite length_app; lia | unfold Zlen; lia | lia | lia].
  rewrite EH. cbn [mbind option_bind].
  rewrite (X (Pmt (Zlen l) (bits ++ replicate k false) hashes false) [] (replicate k false) [] [] (Ext 0 0 [] false)) by (cbn [app]; rewrite ?app_nil_r; done).
  cbn [bad nBitsUsed nHashUsed matches length app Nat.add negb andb vBits vHash]. rewrite length_app, length_replicate, Hk, !Nat.eqb_refl. cbn [andb].
  rewrite !seg_whole by lia. by rewrite (root_level Hash l H).
Qed.

Lemma height_pow H : is_height Hash l H -> (2 ^ H <= 2 * length l)%nat.
Proof using nonempty.
  intros [_ Hb]. pose proof (len_pos l nonempty). clear mask distinct ids small. destruct H as [| H]; [cbn [Nat.pow]; lia |]. specialize (Hb H ltac:(lia)).
  apply (inside_leaf Hash l nonempty) in Hb. cbn [Nat.pow]. lia.
Qed.

(** The result of the extraction, before and after the proof is sent. *)
Lemma proof_extracts :
  exists t bytes t', CPartialMerkleTree Hash l m = Some t /\ write_pmt t = Some bytes /\ read_pmt bytes = Some (t', []) /\
    (collides Hash (merkle_pairs Hash l) (merkle_pairs Hash l) \/
       ExtractMatches Hash max t = Some (merkle_root Hash l, chosen l m, false) /\
       ExtractMatches Hash max t' = Some (merkle_root Hash l, chosen l m, false)).
Proof using nonempty mask distinct small max_small hash_bytes ids.
  pose proof l_few as Hfew. destruct (tree_height_ok Hash l nonempty ltac:(lia)) as (H & EH & HH & Hle).
  assert (0 < length (level Hash H l))%nat as Hp by (destruct HH as [-> _]; lia).
  destruct (built_all Hash l m nonempty ltac:(lia) mask distinct (valid (blob 32)) hash_bytes ids H 0 Hle Hp) as (bits & hashes & Hb).
  pose proof (height_covers Hash l nonempty H HH) as Hcov. pose proof (bt_hashes _ _ _ _ _ _ _ _ Hb) as Lh. rewrite seg_whole in Lh by done.
  exists (Pmt (Zlen l) bits hashes false).
  assert (CPartialMerkleTree Hash l m = Some (Pmt (Zlen l) bits hashes false)) as Ec.
  { unfold CPartialMerkleTree, u32. rewrite Z.mod_small by lia. rewrite EH. cbn [mbind option_bind]. by rewrite (bt_build _ _ _ _ _ _ _ _ Hb). }
  assert (Zlen bits <= 4 * Zlen l) as Lb.
  { pose proof (bt_bits _ _ _ _ _ _ _ _ Hb) as [_ Hbits]. pose proof (height_pow H HH). unfold Zlen. rewrite Nat.add_1_r in Hbits. cbn [Nat.pow] in Hbits. lia. }
  destruct (pack_bytes (length bits) bits) as [Hpk1 Hpk2]. destruct (unpack_pack (length bits) bits ltac:(lia)) as (k & Ek & Hk).
  destruct (law_read uint32 lawful_uint32 (Zlen l)) as (w1 & E1 & R1); [cbn; unfold is_u; lia |].
  destruct (law_read (vec (blob 32)) (lawful_vec _ (lawful_blob 32)) hashes) as (w2 & E2 & R2).
  { split; [apply (bt_P _ _ _ _ _ _ _ _ Hb) |]. unfold MAX_SIZE, Zlen in *. lia. }
  destruct (law_read bytevec lawful_bytevec (pack_bits (length bits) bits)) as (w3 & E3 & R3); [split; [done |]; unfold MAX_SIZE, Zlen in *; lia |].
  exists (w1 ++ w2 ++ w3), (Pmt (Zlen l) (unpack_bits (pack_bits (length bits) bits)) hashes false). split; [done |]. split.
  { unfold write_pmt. cbn [nTransactions vHash vBits]. rewrite E1. cbn [mbind option_bind]. rewrite E2. cbn [mbind option_bind]. by rewrite E3. }
  split.
  { unfold read_pmt. rewrite <-(app_nil_r (w1 ++ w2 ++ w3)).
    assert (reads_as read_pmt (w1 ++ w2 ++ w3) (Pmt (Zlen l) (unpack_bits (pack_bits (length bits) bits)) hashes false)) as R; [| apply R].
    eapply reads_as_bind; [exact R1 |]. eapply reads_as_bind; [exact R2 |]. eapply reads_as_map; [exact R3 |]. done. }
  destruct (extract_built H bits hashes 0 EH HH Hle Hb) as [? | X0]; [by rewrite Nat.add_0_r | by left |]. rewrite app_nil_r in X0.
  destruct (extract_built H bits hashes k EH HH Hle Hb Hk) as [? | Xk]; [by left |]. right. by rewrite Ek.
Qed.

End Whole.

(** An answer other than no ids comes from an extraction of the root that did not fail. *)
Lemma verify_inv Hash max root t ms :
  root <> zero256 -> verify_proof Hash max root t = Some ms ->
  ms = [] \/ exists H e, tree_height (nTransactions t) = Some H /\
    TraverseAndExtract Hash t H 0 (Ext 0 0 [] (fBad t)) = (root, e) /\ bad e = false /\ matches e = ms.
Proof.
  intros Hroot. unfold verify_proof, ExtractMatches.
  assert (forall (ids : list uint256) (b : bool) (P : Prop), (('(r, vMatch, _) ← Some (zero256, ids, b); Some (if bool_decide (r = root) then vMatch else []))
    : option (list uint256)) = Some ms -> ms = [] \/ P) as Hfail.
  { intros ids b P. cbn [mbind option_bind]. rewrite bool_decide_eq_false_2 by congruence. intros [= <-]. by left. }
  destruct (_ =? 0); [by apply Hfail |].
  destruct (_ <? nTransactions t); [by apply Hfail |].
  destruct (nTransactions t <? _); [by apply Hfail |].
  destruct (Zlen (vBits t) <? _); [by apply Hfail |].
  destruct (tree_height (nTransactions t)) as [H |]; [| done]. cbn [mbind option_bind].
  destruct (TraverseAndExtract Hash t H 0 _) as [r e] eqn:E. cbn [mbind option_bind].
  case_bool_decide as Er; [| intros [= <-]; by left]. intros [= <-].
  destruct (negb (bad e) && _ && _) eqn:Eok; [| congruence]. apply andb_prop in Eok as [[Eb%negb_true_iff _]%andb_prop _].
  right. subst r. by exists H, e.
Qed.

(** Any tree with the number of transactions of the block whose extraction gives the root of the block. *)
Lemma proof_sound Hash l max t ms :
  l <> [] -> Zlen l < 2 ^ 31 -> merkle_root Hash l <> zero256 -> nTransactions t = Zlen l ->
  verify_proof Hash max (merkle_root Hash l) t = Some ms ->
  collides Hash (merkle_pairs Hash l) (proof_pairs Hash t) \/ ms `sublist_of` l.
Proof.
  intros Hne Hfew Hroot Hn [-> | (H & e & EH & E & Eb & <-)]%verify_inv; [right; apply sublist_nil_l | | done].
  unfold proof_pairs, proof_nodes. rewrite EH. rewrite Hn in EH.
  destruct (tree_height_ok Hash l Hne Hfew) as (H' & EH' & HH & Hle). rewrite EH in EH'. injection EH' as <-.
  rewrite (root_level Hash l H Hne HH) in E.
  destruct (extract_sound Hash l Hne Hfew (map node_pair (nodes_extracted Hash t H 0 (Ext 0 0 [] (fBad t)))) t H 0 (Ext 0 0 [] (fBad t)) e Hn Hle)
    as [? | (m1 & M1 & S1)]; [apply HH | destruct HH as [-> _]; lia | done | done | done | by left |].
  right. rewrite M1. cbn [matches app]. by rewrite (seg_whole l H (height_covers Hash l Hne H HH)) in S1.
Qed.

(** In a tree for which [verifytxoutproof] answers with ids no node has two equal children. *)
Lemma proof_distinct Hash max root t ms x :
  root <> zero256 -> verify_proof Hash max root t = Some ms -> ms <> [] -> (x, Some x) ∉ proof_nodes Hash t.
Proof.
  intros Hroot [-> | (H & e & EH & E & Eb & _)]%verify_inv Hms; [done | | done]. unfold proof_nodes. rewrite EH.
  apply extract_distinct. by rewrite E.
Qed.

End PartialFacts.

Module PartialTheorems.
Import PartialMerkle PartialFacts.

(** [C28] Partial Merkle trees prove what they should.  For distinct transaction ids and any choice of
    them, the tree that is built is serialised and read back, and from it, sent or
    not, [ExtractMatches] gives the Merkle root of the block and exactly the chosen
    ids in their order, unless two different pairs that are hashed for the Merkle
    root of this block have one hash.  Conversely a tree from anybody, for the
    number of transactions of the block, for which [verifytxoutproof] answers with
    ids because the roots agree, names only transactions of the block, in their
    order, unless a pair that is hashed for the Merkle root of the block and a
    different one that is hashed in the extraction from this tree have one hash; and in a tree for which
    [verifytxoutproof] answers with ids no node has two equal children, whatever the
    hash. *)
Theorem partial_trees_prove (Hash : uint256 -> uint256 -> uint256) (vTxid : list uint256) (max : Z) :
  vTxid <> [] -> NoDup vTxid -> Zlen vTxid <= max / 60 -> max <= 2 ^ 28 ->
  (forall a b, valid (blob 32) (Hash a b)) -> Forall (valid (blob 32)) vTxid -> merkle_root Hash vTxid <> zero256 ->
  (forall vMatch, length vMatch = length vTxid ->
     exists t bytes t', CPartialMerkleTree Hash vTxid vMatch = Some t /\ write_pmt t = Some bytes /\ read_pmt bytes = Some (t', []) /\
       (collides Hash (merkle_pairs Hash vTxid) (merkle_pairs Hash vTxid) \/
          ExtractMatches Hash max t = Some (merkle_root Hash vTxid, chosen vTxid vMatch, false) /\
          ExtractMatches Hash max t' = Some (merkle_root Hash vTxid, chosen vTxid vMatch, false))) /\
  (forall t ids, nTransactions t = Zlen vTxid -> verify_proof Hash max (merkle_root Hash vTxid) t = Some ids ->
     collides Hash (merkle_pairs Hash vTxid) (proof_pairs Hash t) \/ ids `sublist_of` vTxid) /\
  (forall t ids x, verify_proof Hash max (merkle_root Hash vTxid) t = Some ids -> ids <> [] -> (x, Some x) ∉ proof_nodes Hash t).
Proof.
  intros Hne Hd Hs Hm Hh Hids Hroot. split; [| split].
  - intros vMatch Hlen. by apply proof_extracts.
  - intros t ids Hn Hv. eapply proof_sound; [done | | done | done | exact Hv].
    pose proof (Z.mul_div_le max 60 ltac:(lia)). lia.
  - intros t ids x. by apply proof_distinct.
Qed.

(** *** A concrete block *)

Definition pad32 (x : Z) : uint256 := le_bytes 32 x.
Definition toy_hash2 (a b : uint256) : uint256 := pad32 (17 * le_num a + 31 * le_num b + 1).
Definition toy_ids : list uint256 := map pad32 [3; 5; 7; 11; 13].

(** Without collisions in this block. *)
Lemma toy_distinct : ~ collides toy_hash2 (merkle_pairs toy_hash2 toy_ids) (merkle_pairs toy_hash2 toy_ids).
Proof. apply no_collision. by vm_compute. Qed.

Lemma partial_trees_prove_witness :
  (exists t bytes t', CPartialMerkleTree toy_hash2 toy_ids [false; true; false; false; true] = Some t /\ write_pmt t = Some bytes /\
     read_pmt bytes = Some (t', []) /\
     ExtractMatches toy_hash2 4194304 t = Some (merkle_root toy_hash2 toy_ids, [pad32 5; pad32 13], false) /\
     ExtractMatches toy_hash2 4194304 t' = Some (merkle_root toy_hash2 toy_ids, [pad32 5; pad32 13], false)) /\
  (forall t ids, nTransactions t = 5 -> verify_proof toy_hash2 4194304 (merkle_root toy_hash2 toy_ids) t = Some ids ->
     collides toy_hash2 (merkle_pairs toy_hash2 toy_ids) (proof_pairs toy_hash2 t) \/ ids `sublist_of` toy_ids) /\
  (forall t ids x, verify_proof toy_hash2 4194304 (merkle_root toy_hash2 toy_ids) t = Some ids -> ids <> [] ->
     (x, Some x) ∉ proof_nodes toy_hash2 t).
Proof.
  destruct (partial_trees_prove toy_hash2 toy_ids 4194304) as (H1 & H2 & H3).
  - done.
  - apply (bool_decide_unpack (NoDup _)). by vm_compute.
  - by vm_compute.
  - by vm_compute.
  - intros a b. split; [apply le_bytes_ok | apply length_le_bytes].
  - repeat (constructor; [split; [apply le_bytes_ok | apply length_le_bytes] |]). constructor.
  - by vm_compute.
  - split; [| split; [exact H2 | exact H3]].
    destruct (H1 [false; true; false; false; true] eq_refl) as (t & bytes & t' & E1 & E2 & E3 & [Hc | [E4 E5]]); [by destruct (toy_distinct Hc) |].
    exists t, bytes, t'. exact (conj E1 (conj E2 (conj E3 (conj E4 E5)))).
Defined.

(** The number of transactions comes with the proof and is not compared with that of the
    block: for half the number the inner nodes pass for transactions. *)
Lemma inner_node_passes :
  let l := take 4 toy_ids in
  let t := Pmt 2 [true; true; false] [toy_hash2 (pad32 3) (pad32 5); toy_hash2 (pad32 7) (pad32 11)] false in
  verify_proof toy_hash2 4194304 (merkle_root toy_hash2 l) t = Some [toy_hash2 (pad32 3) (pad32 5)] /\
  toy_hash2 (pad32 3) (pad32 5) ∉ l.
Proof. split; [by vm_compute |]. apply (bool_decide_unpack (_ ∉ _)). by vm_compute. Qed.

(** A proof for a set of ids names the transactions of the block that are in it. *)
Lemma merkle_block_proves (Hash : uint256 -> uint256 -> uint256) (l : list uint256) (txids : gset uint256) max :
  l <> [] -> NoDup l -> Zlen l <= max / 60 -> max <= 2 ^ 28 -> (forall a b, valid (blob 32) (Hash a b)) -> Forall (valid (blob 32)) l ->
  exists t, merkle_block Hash l txids = Some t /\
    (collides Hash (merkle_pairs Hash l) (merkle_pairs Hash l) \/ ExtractMatches Hash max t = Some (merkle_root Hash l, filter (fun h => h ∈ txids) l, false)).
Proof.
  intros Hne Hd Hs Hm Hh Hids.
  destruct (proof_extracts Hash l (map (fun h => bool_decide (h ∈ txids)) l) max Hne (length_map _ _) Hd Hs Hm Hh Hids)
    as (t & bytes & t1 & Et & _ & _ & Hr).
  exists t. split; [done |]. rewrite chosen_set in Hr. tauto.
Qed.

End PartialTheorems.
