(* ===== verification/Standard.v ===== *)
(** * Script templates and destinations (src/src/script/standard.h, standard.cpp)

    The scripts that the node, the wallet and the indexes recognise, the addresses
    they pay to, and the scripts that are made for an address. *)
From Stdlib Require Import String.
From S2P Require Import Prelude Script Interp ScriptSpec SigHash.
Import Op.
Local Open Scope string_scope.
Local Open Scope list_scope.
Local Open Scope Z_scope.

Module Standard.

Inductive txnouttype : Type :=
  TX_NONSTANDARD | TX_PUBKEY | TX_PUBKEYHASH | TX_SCRIPTHASH | TX_MULTISIG | TX_CRYPTOCONDITION | TX_NULL_DATA.
#[export] Instance txnouttype_eq : EqDecision txnouttype.
Proof. solve_decision. Defined.

Definition GetTxnOutputType (t : txnouttype) : string :=
  match t with
  | TX_NONSTANDARD => "nonstandard" | TX_PUBKEY => "pubkey" | TX_PUBKEYHASH => "pubkeyhash" | TX_SCRIPTHASH => "scripthash"
  | TX_MULTISIG => "multisig" | TX_NULL_DATA => "nulldata" | TX_CRYPTOCONDITION => "cryptocondition"
  end.

(** [CTxDestination]: a variant. *)
Inductive CTxDestination : Type := CNoDestination | DestPubKey (key : list Z) | CKeyID (id : list Z) | CScriptID (id : list Z).
Definition IsValidDestination (dest : CTxDestination) : bool := match dest with CNoDestination => false | _ => true end.

(** *** Parameters of crypto-conditions *)

(** [COptCCParams]; [version] is [None] when the constructor leaves it unset. *)
Record COptCCParams := OptCC {
  cp_version : option Z; cp_evalCode : Z; cp_m : Z; cp_n : Z; cp_vKeys : list (list Z); cp_vData : list (list Z) }.
Definition cp_VERSION : Z := 1.

(** The loop over the script: the values it pushes, if there is nothing else. *)
Definition params_body (data : list (list Z)) (r : op_read) : list (list Z) + option (list (list Z)) :=
  if or_ok r then match listed_data r with Some d => inl (data ++ [d]) | None => inr None end else inl data.

(** The keys up to the first that is not valid. *)
Fixpoint load_keys (l : list (list Z)) : list (list Z) * bool :=
  match l with
  | [] => ([], true)
  | d :: l => let k := Checks.CPubKey d in
              if Checks.IsValid k then let '(ks, ok) := load_keys l in (k :: ks, ok) else ([k], false)
  end.

Definition params_of (vch : list Z) : COptCCParams :=
  let unset := OptCC None 0 0 0 [] [] in
  if 1 <? Zlen vch then
    match scan params_body Some [] vch with
    | Some (param :: rest) =>
        let set_ v := OptCC (Some v) (rd param 1) (rd param 2) (rd param 3) [] [] in
        if (length param =? 4)%nat then
          let version := rd param 0 in
          let m := rd param 2 in
          let n := rd param 3 in
          if negb (version =? cp_VERSION) || negb (m =? 1) || (negb (n =? 1) && negb (n =? 2)) || (Zlen rest + 1 <=? n) then set_ 0
          else
            let '(keys, ok) := load_keys (take (Z.to_nat n) rest) in
            OptCC (Some (if ok then version else 0)) (rd param 1) m n keys (if ok then drop (Z.to_nat n) rest else [])
        else OptCC (Some 0) 0 0 0 [] []
    | _ => unset
    end
  else unset.

(** [AsVector]. *)
Definition AsVector (cp : COptCCParams) : list Z :=
  push_data [default 0 (cp_version cp); cp_evalCode cp; cp_n cp; cp_m cp] ++ push_all (cp_vKeys cp) ++ push_all (cp_vData cp).

(** *** Templates *)

Definition MAX_OP_RETURN_RELAY : Z := 8192.

Section Solver.
(** [-datacarrier], [nMaxDatacarrierBytes], the switch of crypto-conditions and
    [MayAcceptCryptoCondition], which asks the crypto-conditions library. *)
Context {HS : Hashes} (datacarrier : bool) (nMaxDatacarrierBytes : Z) (cc_enabled : bool) (MayAcceptCryptoCondition : list Z -> bool).

(** [mTemplates], in the order of its keys. *)
Definition mTemplates : list (txnouttype * list opcodetype) :=
  [(TX_PUBKEY, [OP_PUBKEY; OP_CHECKSIG]);
   (TX_PUBKEYHASH, [OP_DUP; OP_HASH160; OP_PUBKEYHASH; OP_EQUALVERIFY; OP_CHECKSIG]);
   (TX_MULTISIG, [OP_SMALLINTEGER; OP_PUBKEYS; OP_SMALLINTEGER; OP_CHECKMULTISIG])]
  ++ (if datacarrier then [(TX_NULL_DATA, [OP_RETURN; OP_SMALLDATA])] else []) ++ [(TX_NULL_DATA, [OP_RETURN])].

Definition is_key (vch : list Z) : bool := (33 <=? Zlen vch) && (Zlen vch <=? 65).

(** The inner loop for [OP_PUBKEYS]: the next instruction and the keys. *)
Fixpoint pubkeys_loop (fuel : nat) (r : op_read) (sol : list (list Z)) : op_read * list (list Z) :=
  match fuel with
  | O => (r, sol)
  | S fuel =>
      if is_key (or_data r) then
        let r' := GetOp2 (or_pc r) in
        if or_ok r' then pubkeys_loop fuel r' (sol ++ [or_data r]) else (r', sol ++ [or_data r])
      else (r, sol)
  end.

(** One template opcode against an instruction. *)
Definition match_element (opcode2 : opcodetype) (r : op_read) (sol : list (list Z)) : option (list (list Z)) :=
  if op_eq opcode2 OP_PUBKEY then if is_key (or_data r) then Some (sol ++ [or_data r]) else None
  else if op_eq opcode2 OP_PUBKEYHASH then if Zlen (or_data r) =? 20 then Some (sol ++ [or_data r]) else None
  else if op_eq opcode2 OP_SMALLINTEGER then
    if op_eq (or_op r) OP_0 || (op_le OP_1 (or_op r) && op_le (or_op r) OP_16) then
      n ← DecodeOP_N (or_op r); Some (sol ++ [[u8 n]])
    else None
  else if op_eq opcode2 OP_SMALLDATA then if nMaxDatacarrierBytes <? Zlen (or_data r) then None else Some sol
  else if negb (op_eq (or_op r) opcode2) || negb (bool_decide (or_data r = [])) then None
  else Some sol.

(** The comparison with one template, whose opcodes carry no data: the solutions if it matches. *)
Fixpoint match_template (tpl : list opcodetype) (pc1 : list Z) (sol : list (list Z)) : option (list (list Z)) :=
  match tpl with
  | [] => match pc1 with [] => Some sol | _ => None end
  | opcode2 :: tpl =>
      let r := GetOp2 pc1 in
      if negb (or_ok r) then None
      else if op_eq opcode2 OP_PUBKEYS then
        let '(r, sol) := pubkeys_loop (length pc1) r sol in
        match tpl with
        | [] => None
        | opcode2 :: tpl => sol ← match_element opcode2 r sol; match_template tpl (or_pc r) sol
        end
      else sol ← match_element opcode2 r sol; match_template tpl (or_pc r) sol
  end.

(** The checks on a multisignature script. *)
Definition multisig_ok (sol : list (list Z)) : bool :=
  let m := rd (default [] (head sol)) 0 in
  let n := rd (default [] (last sol)) 0 in
  negb ((m <? 1) || (n <? 1) || (n <? m) || negb (u64 (Zlen sol - 2) =? n)).

(** What [Solver] leaves: its result, [typeRet] if it is set, and [vSolutionsRet]. *)
Definition solved : Type := bool * option txnouttype * list (list Z).

Fixpoint try_templates (l : list (txnouttype * list opcodetype)) (script : list Z) : solved :=
  match l with
  | [] => (false, Some TX_NONSTANDARD, [])
  | (t, tpl) :: l =>
      match match_template tpl script [] with
      | Some sol => (if bool_decide (t = TX_MULTISIG) then multisig_ok sol else true, Some t, sol)
      | None => try_templates l script
      end
  end.

Definition Solver (script : list Z) : solved :=
  if IsPayToScriptHash script then (true, Some TX_SCRIPTHASH, [take 20 (drop 2 script)])
  else match (if cc_enabled then IsPayToCryptoCondition script else None) with
       | Some (ccSubScript, vParams) =>
           if MayAcceptCryptoCondition script then
             let keys := match vParams with
                         | p :: _ => let cp := params_of p in if default 0 (cp_version cp) =? 0 then [] else cp_vKeys cp
                         | [] => []
                         end in
             (true, Some TX_CRYPTOCONDITION, CHash160 ccSubScript :: keys)
           else (false, None, [])
       | None => try_templates mTemplates script
       end.

Definition ScriptSigArgsExpected (t : txnouttype) (vSolutions : list (list Z)) : Z :=
  match t with
  | TX_NONSTANDARD | TX_NULL_DATA => -1
  | TX_PUBKEY => 1
  | TX_PUBKEYHASH => 2
  | TX_MULTISIG => match vSolutions with (b :: _) :: _ => b + 1 | _ => -1 end
  | TX_SCRIPTHASH => 1
  | TX_CRYPTOCONDITION => 1
  end.

Definition IsStandard (script : list Z) : bool :=
  match Solver script with
  | (true, Some t, sol) =>
      let m := rd (default [] (head sol)) 0 in
      let n := rd (default [] (last sol)) 0 in
      if bool_decide (t = TX_MULTISIG) && ((n <? 1) || (9 <? n) || (m <? 1) || (n <? m)) then false
      else negb (bool_decide (t = TX_NONSTANDARD))
  | _ => false
  end.

(** The script behind a lock time. *)
Definition after_cltv (script : list Z) : list Z :=
  let scriptStart := Z.to_nat (u32 (rd script 0 + 3)) in
  if (scriptStart <? length script)%nat then drop scriptStart script else [].

Definition destination_of (returnPubKey : bool) (script : list Z) : option CTxDestination :=
  match Solver script with
  | (true, Some TX_PUBKEY, k :: _) =>
      let pubKey := Checks.CPubKey k in
      if negb (Checks.IsValid pubKey) then None
      else Some (if returnPubKey then DestPubKey pubKey else CKeyID (CHash160 pubKey))
  | (true, Some TX_PUBKEYHASH, h :: _) => Some (CKeyID h)
  | (true, Some TX_SCRIPTHASH, h :: _) => Some (CScriptID h)
  | (true, Some TX_CRYPTOCONDITION, h :: keys) =>
      if cc_enabled then
        match keys with
        | k :: _ => let pk := Checks.CPubKey k in if Checks.IsValid pk then Some (DestPubKey pk) else None
        | [] => Some (CKeyID h)
        end
      else None
  | _ => None
  end.

(** [ExtractDestination]: the destination when it returns true; the outer [None] is a read
    past the end of the script. *)
Definition ExtractDestination (returnPubKey : bool) (script : list Z) : option (option CTxDestination) :=
  lock ← IsCheckLockTimeVerify script;
  Some (destination_of returnPubKey (match lock with Some _ => after_cltv script | None => script end)).

(** [ExtractDestinations]: the type, the destinations and the number required when it returns true. *)
Definition destinations_of (script : list Z) : option (option (txnouttype * list CTxDestination * Z)) :=
  match Solver script with
  | (true, Some TX_MULTISIG, sol) =>
      let keys := filter (fun k => Checks.IsValid k = true) (map Checks.CPubKey (take (length sol - 2) (drop 1 sol))) in
      Some (match keys with
            | [] => None
            | _ => Some (TX_MULTISIG, map (fun k => CKeyID (CHash160 k)) keys, rd (default [] (head sol)) 0)
            end)
  | (true, Some TX_NULL_DATA, _) => Some None
  | (true, Some t, _) =>
      d ← ExtractDestination false script;
      Some (d ← d; Some (t, [d], 1))
  | _ => Some None
  end.
Fixpoint extract_destinations (fuel : nat) (script : list Z) : option (option (txnouttype * list CTxDestination * Z)) :=
  lock ← IsCheckLockTimeVerify script;
  match lock, fuel with
  | None, _ => destinations_of script
  | Some _, S fuel => extract_destinations fuel (after_cltv script)
  | Some _, O => None
  end.
Definition ExtractDestinations (script : list Z) : option (option (txnouttype * list CTxDestination * Z)) :=
  extract_destinations (length script) script.

(** *** Scripts for destinations *)

Definition GetScriptForDestination (dest : CTxDestination) : list Z :=
  match dest with
  | CNoDestination => []
  | DestPubKey key => push_data key ++ [code OP_CHECKSIG]
  | CKeyID id => [code OP_DUP; code OP_HASH160] ++ push_data id ++ [code OP_EQUALVERIFY; code OP_CHECKSIG]
  | CScriptID id => [code OP_HASH160] ++ push_data id ++ [code OP_EQUAL]
  end.

(** [None] is the assertion of [EncodeOP_N]. *)
Definition GetScriptForMultisig (nRequired : Z) (keys : list (list Z)) : option (list Z) :=
  m ← EncodeOP_N nRequired;
  n ← EncodeOP_N (Zlen keys);
  Some ([code m] ++ push_all keys ++ [code n; code OP_CHECKMULTISIG]).

End Solver.
End Standard.

(** ** Reading a script as instructions *)

Module StandardFacts.
Import Standard.

(** An instruction: the value of its opcode and its operand. *)
Abbreviation instr := (Z * list Z)%type.

(** The first instruction of a script and the rest of it. *)
Definition reads (pc : list Z) (i : instr) (pc' : list Z) : Prop :=
  exists op, GetOp2 pc = OpRead true pc' op i.2 /\ code op = i.1.

Inductive instrs : list Z -> list instr -> Prop :=
  | instrs_nil : instrs [] []
  | instrs_cons pc i pc' l : reads pc i pc' -> instrs pc' l -> instrs pc (i :: l).

Lemma reads_ok pc : or_ok (GetOp2 pc) = true -> reads pc (code (or_op (GetOp2 pc)), or_data (GetOp2 pc)) (or_pc (GetOp2 pc)).
Proof. intros E. exists (or_op (GetOp2 pc)). split; [| done]. destruct (GetOp2 pc). cbn in *. by subst. Qed.

Lemma reads_det pc i1 i2 p1 p2 : reads pc i1 p1 -> reads pc i2 p2 -> i1 = i2 /\ p1 = p2.
Proof. destruct i1, i2. intros (op & E & C) (op' & E' & C'). cbn in *. rewrite E in E'. injection E' as -> -> ->. by subst. Qed.

Lemma instrs_det pc l1 l2 : instrs pc l1 -> instrs pc l2 -> l1 = l2.
Proof.
  intros H. revert l2. induction H as [| pc i pc' l R _ IH]; intros l2 H2; inversion H2 as [| ? ? ? ? R2 H2' ]; subst; try done.
  - by destruct R2 as (op & E & _).
  - by destruct R as (op & E & _).
  - destruct (reads_det _ _ _ _ _ R R2) as [-> <-]. f_equal. by apply IH.
Qed.

(** A failed read has the invalid opcode and no operand; only pushes have one. *)
Lemma failed_read pc : or_ok (GetOp2 pc) = false -> or_op (GetOp2 pc) = OP_INVALIDOPCODE /\ or_data (GetOp2 pc) = [].
Proof.
  unfold GetOp2, GetOperand. destruct pc as [| b pc]; [done |]. destruct (_ <=? _); [| done].
  destruct (_ <? _); [by destruct (_ <? _) |]. destruct (_ =? _); [destruct pc; [done | by destruct (_ <? _)] |].
  destruct (_ =? _); (destruct (_ <? _); [done |]); by destruct (_ <? _).
Qed.

Lemma operand_ok opcode nSize pc :
  or_ok (GetOperand opcode nSize pc) = true -> or_op (GetOperand opcode nSize pc) = opcode_of opcode
    /\ or_data (GetOperand opcode nSize pc) = take (Z.to_nat nSize) pc.
Proof. unfold GetOperand. by destruct (_ <? _). Qed.

Lemma no_operand pc i pc' : reads pc i pc' -> i.1 = 0 \/ 78 < i.1 -> i.2 = [].
Proof.
  intros (op & E & C) Hc. destruct i as [c d]. cbn [fst snd] in *. subst c.
  assert (or_op (GetOp2 pc) = op /\ or_data (GetOp2 pc) = d /\ or_ok (GetOp2 pc) = true) as (<- & <- & Hok) by by rewrite E.
  clear E. revert Hc Hok. unfold GetOp2. destruct pc as [| b pc]; [done |]. change (code OP_PUSHDATA4) with 78.
  change (code OP_PUSHDATA1) with 76. change (code OP_PUSHDATA2) with 77.
  destruct (Z.leb_spec b 78); [| done]. destruct (Z.ltb_spec b 76).
  { intros Hc Hok. destruct (operand_ok _ _ _ Hok) as [Eo ->]. rewrite Eo, code_opcode_of in Hc.
    by replace (Z.to_nat b) with 0%nat by lia. }
  destruct (Z.eqb_spec b 76); [destruct pc; [done |] | destruct (Z.eqb_spec b 77); (destruct (_ <? _); [done |])];
    intros Hc Hok; destruct (operand_ok _ _ _ Hok) as [Eo ->]; rewrite Eo, code_opcode_of in Hc; lia.
Qed.

Lemma reads_op op pc : 78 < code op -> reads (code op :: pc) (code op, []) pc.
Proof.
  intros H. exists (opcode_of (code op)). cbn [fst snd]. split; [| apply code_opcode_of].
  unfold GetOp2. change (code OP_PUSHDATA4) with 78. by rewrite (proj2 (Z.leb_gt _ 78)) by done.
Qed.

Lemma reads_push b pc : Zlen b < 2 ^ 32 -> reads (push_data b ++ pc) (code (push_opcode b), b) pc.
Proof. intros H. exists (push_opcode b). by rewrite GetOp2_push. Qed.

Lemma reads_shorter pc i pc' : reads pc i pc' -> (length pc' < length pc)%nat.
Proof.
  intros (op & E & _). destruct pc as [| b pc]; [done |]. pose proof (GetOp2_shorter b pc) as H. rewrite E in H. cbn in *. lia.
Qed.

(** A list of instructions read from a place to another. *)
Inductive run : list Z -> list instr -> list Z -> Prop :=
  | run_nil pc : run pc [] pc
  | run_cons pc i pc' l pc'' : reads pc i pc' -> run pc' l pc'' -> run pc (i :: l) pc''.

Lemma run_instrs pc l pc' l' : run pc l pc' -> instrs pc' l' -> instrs pc (l ++ l').
Proof. induction 1; intros; [done |]. cbn [app]. econstructor; eauto. Qed.

Lemma instrs_app_inv pc l l' : instrs pc (l ++ l') -> exists pc', run pc l pc' /\ instrs pc' l'.
Proof.
  revert pc. induction l as [| i l IH]; intros pc H; [eexists; split; [constructor | done] |].
  inversion H as [| ? ? ? ? R H']; subst. destruct (IH _ H') as (pc2 & ? & ?). exists pc2. split; [econstructor |]; eauto.
Qed.

Lemma run_push_all ds pc :
  Forall (fun d => Zlen d < 2 ^ 32) ds -> run (push_all ds ++ pc) (map (fun d => (code (push_opcode d), d)) ds) pc.
Proof.
  induction 1 as [| d ds Hd _ IH]; [constructor |]. unfold push_all. cbn [map concat]. rewrite <-app_assoc.
  econstructor; [by apply reads_push | exact IH].
Qed.

(** ** The forms of standard scripts *)

Section Forms.
Context (datacarrier : bool) (nMaxDatacarrierBytes : Z).

(** What a standard script is, as a list of instructions, with its type and its solutions. *)
Inductive standard_form : list instr -> txnouttype -> list (list Z) -> Prop :=
  | form_pubkey c k : is_key k = true -> standard_form [(c, k); (code OP_CHECKSIG, [])] TX_PUBKEY [k]
  | form_pubkeyhash c h :
      length h = 20%nat ->
      standard_form [(code OP_DUP, []); (code OP_HASH160, []); (c, h); (code OP_EQUALVERIFY, []); (code OP_CHECKSIG, [])]
        TX_PUBKEYHASH [h]
  | form_scripthash h :
      length h = 20%nat -> standard_form [(code OP_HASH160, []); (20, h); (code OP_EQUAL, [])] TX_SCRIPTHASH [h]
  | form_multisig m ks :
      1 <= m <= Zlen ks -> Zlen ks <= 16 -> Forall (fun i => is_key i.2 = true) ks ->
      standard_form ((80 + m, []) :: ks ++ [(80 + Zlen ks, []); (code OP_CHECKMULTISIG, [])]) TX_MULTISIG
        ([m] :: map snd ks ++ [[Zlen ks]])
  | form_data c d :
      datacarrier = true -> Zlen d <= nMaxDatacarrierBytes -> standard_form [(code OP_RETURN, []); (c, d)] TX_NULL_DATA []
  | form_return : standard_form [(code OP_RETURN, [])] TX_NULL_DATA [].

End Forms.

Section Match.
Context (nMaxDatacarrierBytes : Z).
Abbreviation match_element := (match_element nMaxDatacarrierBytes).
Abbreviation match_template := (match_template nMaxDatacarrierBytes).

(** One step of the comparison. *)
Lemma match_step op2 tpl pc sol res :
  op_eq op2 OP_PUBKEYS = false ->
  match_template (op2 :: tpl) pc sol = Some res <->
  exists op d pc' sol', GetOp2 pc = OpRead true pc' op d /\ match_element op2 (OpRead true pc' op d) sol = Some sol'
    /\ match_template tpl pc' sol' = Some res.
Proof.
  intros Hk. cbn [Standard.match_template]. rewrite Hk. destruct (GetOp2 pc) as [[|] pc' op d] eqn:E; cbn [or_ok negb].
  - rewrite bind_Some. cbn [or_pc]. split.
    + intros (sol' & ? & ?). by exists op, d, pc', sol'.
    + intros (op' & d' & pc'' & sol' & [= <- <- <-] & ? & ?). by exists sol'.
  - split; [done |]. by intros (? & ? & ? & ? & [=] & _).
Qed.

Lemma match_nil pc sol res : match_template [] pc sol = Some res <-> pc = [] /\ sol = res.
Proof. cbn. destruct pc; split; [intros [=]; done | by intros [_ ->] | done | by intros []]. Qed.

(** An opcode that is not a placeholder. *)
Lemma match_plain op2 pc' op d sol sol' :
  op_eq op2 OP_PUBKEY = false -> op_eq op2 OP_PUBKEYHASH = false -> op_eq op2 OP_SMALLINTEGER = false -> op_eq op2 OP_SMALLDATA = false ->
  match_element op2 (OpRead true pc' op d) sol = Some sol' <-> code op = code op2 /\ d = [] /\ sol' = sol.
Proof.
  intros H1 H2 H3 H4. unfold Standard.match_element. rewrite H1, H2, H3, H4. cbn [or_op or_data]. unfold op_eq.
  destruct (Z.eqb_spec (code op) (code op2)); cbn [negb orb].
  - destruct (decide (d = [])) as [-> |].
    + rewrite bool_decide_true by done. cbn. naive_solver.
    + rewrite bool_decide_false by done. cbn. naive_solver.
  - naive_solver.
Qed.

Lemma match_small pc' op d sol sol' :
  match_element OP_SMALLINTEGER (OpRead true pc' op d) sol = Some sol' <->
  exists n, 0 <= n <= 16 /\ code op = (if n =? 0 then 0 else 80 + n) /\ sol' = sol ++ [[n]].
Proof.
  unfold Standard.match_element, DecodeOP_N, op_eq, op_le. cbn [or_op or_data].
  change (code OP_SMALLINTEGER) with 250. change (code OP_PUBKEY) with 254. change (code OP_PUBKEYHASH) with 253.
  change (code OP_0) with 0. change (code OP_1) with 81. change (code OP_16) with 96. cbn [Z.eqb Pos.eqb].
  destruct (Z.eqb_spec (code op) 0) as [E0 | E0]; cbn [orb].
  { cbn. split; [intros [= <-]; by exists 0 |]. intros (n & Hn & En & ->).
    destruct (Z.eqb_spec n 0) as [-> |]; [done | lia]. }
  destruct (Z.leb_spec 81 (code op)) as [E1 | E1], (Z.leb_spec (code op) 96) as [E2 | E2]; cbn [andb].
  - rewrite bind_Some. assert (u8 (code op - (81 - 1)) = code op - 80) as Eu by (unfold u8; rewrite Z.mod_small; lia). split.
    + intros (n & [= <-] & [= <-]). exists (code op - 80). rewrite Eu. split; [lia |]. split; [| done].
      destruct (Z.eqb_spec (code op - 80) 0); lia.
    + intros (n & Hn & En & ->). exists (code op - (81 - 1)). split; [done |]. rewrite Eu.
      destruct (Z.eqb_spec n 0); [lia |]. rewrite En. by replace (80 + n - 80) with n by lia.
  - split; [done |]. intros (n & Hn & En & _). destruct (Z.eqb_spec n 0); lia.
  - split; [done |]. intros (n & Hn & En & _). destruct (Z.eqb_spec n 0); lia.
  - lia.
Qed.

(** The run of keys: it stops at the first instruction that is not one. *)
Lemma pubkeys_loop_spec fuel pc op d sol r sol' :
  pubkeys_loop fuel (OpRead true pc op d) sol = (r, sol') -> or_ok r = true ->
  exists ks, Forall (fun i => is_key i.2 = true) ks /\ sol' = sol ++ map snd ks
    /\ forall pc0, GetOp2 pc0 = OpRead true pc op d -> exists pc1, run pc0 ks pc1 /\ GetOp2 pc1 = r.
Proof.
  revert pc op d sol. induction fuel as [| fuel IH]; intros pc op d sol; cbn [pubkeys_loop].
  { intros [= <- <-] _. exists []. rewrite app_nil_r. repeat split; [done |]. intros pc0 E. exists pc0. split; [constructor | done]. }
  cbn [or_data or_pc]. destruct (is_key d) eqn:Hk.
  - destruct (GetOp2 pc) as [[|] pc' op' d'] eqn:E; cbn [or_ok]; [| by intros [= <- <-]].
    intros H Hr. destruct (IH _ _ _ _ H Hr) as (ks & Hks & -> & Hrun). exists ((code op, d) :: ks).
    split; [by constructor |]. split; [cbn; by rewrite <-app_assoc |]. intros pc0 E0.
    destruct (Hrun pc E) as (pc1 & R1 & E1). exists pc1. split; [| done]. econstructor; [| done]. by exists op.
  - intros [= <- <-] _. exists []. rewrite app_nil_r. repeat split; [done |]. intros pc0 E. exists pc0. split; [constructor | done].
Qed.

Lemma pubkeys_loop_complete fuel pc0 pc op d sol ks pc1 pc2 op2 d2 :
  (length pc0 <= fuel)%nat -> GetOp2 pc0 = OpRead true pc op d ->
  run pc0 ks pc1 -> GetOp2 pc1 = OpRead true pc2 op2 d2 ->
  Forall (fun i => is_key i.2 = true) ks -> is_key d2 = false ->
  pubkeys_loop fuel (OpRead true pc op d) sol = (OpRead true pc2 op2 d2, sol ++ map snd ks).
Proof.
  intros Hf E H E2 Hks H2. revert fuel pc op d sol Hf E. induction H as [pc0 | pc0 i pc' l pc1 R H IH]; intros fuel pc op d sol Hf E.
  - rewrite E in E2. injection E2 as -> -> ->. rewrite app_nil_r. destruct fuel; cbn; [done |]. by rewrite H2.
  - pose proof (reads_shorter _ _ _ R) as Hl. destruct R as (op' & E' & C). rewrite E in E'. injection E' as -> -> ->.
    apply Forall_cons in Hks as [Hk Hks]. destruct fuel as [| fuel]; [lia |]. cbn [pubkeys_loop or_data or_pc]. rewrite Hk.
    assert (exists pc3 op3 d3, GetOp2 pc' = OpRead true pc3 op3 d3) as (pc3 & op3 & d3 & E3).
    { inversion H as [| ? [] ? ? ? (op3 & E3 & _)]; subst; eauto 10. }
    rewrite E3. cbn [or_ok]. cbn [map]. rewrite (IH E2 Hks fuel pc3 op3 d3) by (done || lia). by rewrite <-app_assoc.
Qed.

End Match.

Section Templates.
Context (nMaxDatacarrierBytes : Z).
Abbreviation match_element := (match_element nMaxDatacarrierBytes).
Abbreviation match_template := (match_template nMaxDatacarrierBytes).

Definition placeholder (op : opcodetype) : bool :=
  op_eq op OP_PUBKEYS || op_eq op OP_PUBKEY || op_eq op OP_PUBKEYHASH || op_eq op OP_SMALLINTEGER || op_eq op OP_SMALLDATA.

(** The step of the comparison for each kind of template opcode. *)
Lemma plain_step op2 tpl pc sol res :
  placeholder op2 = false ->
  match_template (op2 :: tpl) pc sol = Some res <->
  exists pc', reads pc (code op2, []) pc' /\ match_template tpl pc' sol = Some res.
Proof.
  unfold placeholder. intros H. apply orb_false_elim in H as [[[[H1 H2]%orb_false_elim H3]%orb_false_elim H4]%orb_false_elim H5].
  rewrite match_step by done. split.
  - intros (op & d & pc' & sol' & E & (C & -> & ->)%match_plain & Hm); [| done..]. exists pc'. split; [| done]. by exists op.
  - intros (pc' & (op & E & C) & Hm). exists op, [], pc', sol. rewrite match_plain by done. by split_and!.
Qed.

Lemma data_step (p : list Z -> bool) op2 tpl pc sol res :
  op_eq op2 OP_PUBKEYS = false ->
  (forall pc' op d, match_element op2 (OpRead true pc' op d) sol = if p d then Some (sol ++ [d]) else None) ->
  match_template (op2 :: tpl) pc sol = Some res <->
  exists c d pc', reads pc (c, d) pc' /\ p d = true /\ match_template tpl pc' (sol ++ [d]) = Some res.
Proof.
  intros Hk He. rewrite match_step by done. split.
  - intros (op & d & pc' & sol' & E & Hm & H). rewrite He in Hm. destruct (p d) eqn:Hp; [| done]. injection Hm as <-.
    exists (code op), d, pc'. split; [by exists op | done].
  - intros (c & d & pc' & (op & E & C) & Hp & H). exists op, d, pc', (sol ++ [d]). by rewrite He, Hp.
Qed.

Definition key_step := data_step is_key OP_PUBKEY.
Definition hash_step := data_step (fun d => Zlen d =? 20) OP_PUBKEYHASH.

Lemma small_step tpl pc sol res :
  match_template (OP_SMALLINTEGER :: tpl) pc sol = Some res <->
  exists n pc', 0 <= n <= 16 /\ reads pc ((if n =? 0 then 0 else 80 + n), []) pc'
    /\ match_template tpl pc' (sol ++ [[n]]) = Some res.
Proof.
  rewrite match_step by done. split.
  - intros (op & d & pc' & sol' & E & (n & Hn & C & ->)%match_small & H). exists n, pc'. split; [done |]. split; [| done].
    assert (reads pc (code op, d) pc') as R by by exists op. rewrite <-C.
    assert (d = []) as ->; [| done]. apply (no_operand _ _ _ R). cbn [fst]. rewrite C. destruct (Z.eqb_spec n 0); lia.
  - intros (n & pc' & Hn & (op & E & C) & H). exists op, [], pc', (sol ++ [[n]]). split; [done |]. split; [| done].
    apply match_small. by exists n.
Qed.

Lemma smalldata_step tpl pc sol res :
  match_template (OP_SMALLDATA :: tpl) pc sol = Some res <->
  exists c d pc', reads pc (c, d) pc' /\ Zlen d <= nMaxDatacarrierBytes /\ match_template tpl pc' sol = Some res.
Proof.
  rewrite match_step by done. split.
  - intros (op & d & pc' & sol' & E & Hm & H). unfold Standard.match_element in Hm. cbn in Hm.
    destruct (Z.ltb_spec nMaxDatacarrierBytes (Zlen d)); [done |]. injection Hm as <-. exists (code op), d, pc'. split; [by exists op | done].
  - intros (c & d & pc' & (op & E & C) & Hp & H). exists op, d, pc', sol. split; [done |]. split; [| done].
    unfold Standard.match_element. cbn. by rewrite (proj2 (Z.ltb_ge _ _)).
Qed.

(** The keys and the number of them. *)
Lemma keys_step tpl pc sol res :
  match_template (OP_PUBKEYS :: OP_SMALLINTEGER :: tpl) pc sol = Some res <->
  exists ks n pc1 pc2, Forall (fun i => is_key i.2 = true) ks /\ 0 <= n <= 16 /\ run pc ks pc1
    /\ reads pc1 ((if n =? 0 then 0 else 80 + n), []) pc2
    /\ match_template tpl pc2 (sol ++ map snd ks ++ [[n]]) = Some res.
Proof.
  cbn [Standard.match_template]. change (op_eq OP_PUBKEYS OP_PUBKEYS) with true. split.
  - destruct (GetOp2 pc) as [[|] pc' op d] eqn:E; cbn [or_ok negb]; [| done].
    destruct (pubkeys_loop _ _ sol) as [r sol1] eqn:El. rewrite bind_Some. intros (sol2 & He & Hm).
    destruct (or_ok r) eqn:Hr.
    + destruct (pubkeys_loop_spec _ _ _ _ _ _ _ El Hr) as (ks & Hks & -> & Hrun). destruct (Hrun pc E) as (pc1 & R1 & E1).
      destruct r as [[|] pc2 op2 d2]; [| done]. apply match_small in He as (n & Hn & C & ->).
      exists ks, n, pc1, pc2. split_and!; [done | lia | lia | done | | by rewrite app_assoc].
      assert (reads pc1 (code op2, d2) pc2) as R by by exists op2. rewrite <-C.
      assert (d2 = []) as ->; [| done]. apply (no_operand _ _ _ R). cbn [fst]. rewrite C. destruct (Z.eqb_spec n 0); lia.
    + exfalso. assert (or_op r = OP_INVALIDOPCODE) as Ei.
      { clear He Hm. revert pc' op d sol E El. generalize (length pc) as fuel. intros fuel. revert pc.
        induction fuel as [| fuel IH]; intros pc pc' op d sol E El; cbn [pubkeys_loop] in El; [by injection El as <- <- |].
        cbn [or_data or_pc] in El. destruct (is_key d); [| by injection El as <- <-].
        destruct (or_ok (GetOp2 pc')) eqn:E'.
        - destruct (GetOp2 pc') as [[|] pc2 op2 d2] eqn:E2; [| done]. by apply (IH pc' pc2 op2 d2 _ E2 El).
        - injection El as <- <-. by apply failed_read. }
      revert He. unfold Standard.match_element, op_eq, op_le. rewrite Ei. by cbn.
  - intros (ks & n & pc1 & pc2 & Hks & Hn & R & (op2 & E2 & C) & Hm). cbn [fst snd] in *.
    assert (exists pc3 op3 d3, GetOp2 pc = OpRead true pc3 op3 d3) as (pc3 & op3 & d3 & E3).
    { inversion R as [| ? [] ? ? ? (op3 & E3 & _)]; subst; eauto 10. }
    rewrite E3. cbn [or_ok negb].
    rewrite (pubkeys_loop_complete (length pc) pc pc3 op3 d3 sol ks pc1 pc2 op2 []) by done. rewrite bind_Some.
    exists ((sol ++ map snd ks) ++ [[n]]). split; [apply match_small; by exists n | by rewrite <-app_assoc].
Qed.

(** The lists of instructions the templates match. *)
Ltac down := repeat match goal with
  | H : Standard.match_template _ _ _ _ = Some _ |- _ =>
      first [ apply match_nil in H as [-> <-]
            | apply keys_step in H as (? & ? & ? & ? & ? & ? & ? & ? & H)
            | apply small_step in H as (? & ? & ? & ? & H)
            | apply smalldata_step in H as (? & ? & ? & ? & ? & H)
            | apply key_step in H as (? & ? & ? & ? & ? & H); [| done | done]
            | apply hash_step in H as (? & ? & ? & ? & ? & H); [| done | done]
            | apply plain_step in H as (? & ? & H); [| done] ]
  end.

Ltac split_instrs := repeat match goal with
  | H : instrs _ [] |- _ => inversion H; subst; clear H
  | H : instrs _ (_ :: _) |- _ => inversion H; subst; clear H
  end.

#[local] Hint Constructors instrs : core.

Lemma match_pubkey pc sol :
  match_template [OP_PUBKEY; OP_CHECKSIG] pc [] = Some sol <->
  exists c k, instrs pc [(c, k); (code OP_CHECKSIG, [])] /\ is_key k = true /\ sol = [k].
Proof.
  split.
  - intros H. down. eauto 10.
  - intros (c & k & H & Hk & ->). split_instrs. apply key_step; [done | done |]. exists c, k. eexists. split_and!; [eassumption | done |].
    apply plain_step; [done |]. eexists. split; [eassumption |]. by apply match_nil.
Qed.

Lemma match_pubkeyhash pc sol :
  match_template [OP_DUP; OP_HASH160; OP_PUBKEYHASH; OP_EQUALVERIFY; OP_CHECKSIG] pc [] = Some sol <->
  exists c h, instrs pc [(code OP_DUP, []); (code OP_HASH160, []); (c, h); (code OP_EQUALVERIFY, []); (code OP_CHECKSIG, [])]
    /\ length h = 20%nat /\ sol = [h].
Proof.
  split.
  - intros H. down. eexists _, _. split; [eauto 20 |]. split; [| done]. unfold Zlen in *. lia.
  - intros (c & h & H & Hh & ->). split_instrs.
    do 2 (apply plain_step; [done |]; eexists; split; [eassumption |]). apply hash_step; [done | done |].
    exists c, h. eexists. split; [eassumption |]. split; [unfold Zlen; by rewrite Hh |].
    do 2 (apply plain_step; [done |]; eexists; split; [eassumption |]). by apply match_nil.
Qed.

Lemma match_multisig pc sol :
  match_template [OP_SMALLINTEGER; OP_PUBKEYS; OP_SMALLINTEGER; OP_CHECKMULTISIG] pc [] = Some sol <->
  exists m n ks, 0 <= m <= 16 /\ 0 <= n <= 16 /\ Forall (fun i => is_key i.2 = true) ks
    /\ instrs pc (((if m =? 0 then 0 else 80 + m), []) :: ks ++ [((if n =? 0 then 0 else 80 + n), []); (code OP_CHECKMULTISIG, [])])
    /\ sol = [m] :: map snd ks ++ [[n]].
Proof.
  split.
  - intros H. apply small_step in H as (m & pc1 & Hm & R1 & H). apply keys_step in H as (ks & n & pc2 & pc3 & Hks & Hn & Hr & R3 & H).
    down. exists m, n, ks. do 3 (split; [done |]). split; [| done]. econstructor; [done |]. eapply run_instrs; [done |]. eauto.
  - intros (m & n & ks & Hm & Hn & Hks & H & ->). inversion H as [| ? ? ? ? R H']; subst. clear H.
    apply instrs_app_inv in H' as (pc2 & R' & H). split_instrs. apply small_step. exists m. eexists. split; [eassumption |]. split; [done |].
    apply keys_step. eexists ks, n, _, _. split; [done |]. split; [done |]. split; [done |]. split; [done |].
    apply plain_step; [done |]. eexists. split; [eassumption |]. by apply match_nil.
Qed.

Lemma match_data pc sol :
  match_template [OP_RETURN; OP_SMALLDATA] pc [] = Some sol <->
  exists c d, instrs pc [(code OP_RETURN, []); (c, d)] /\ Zlen d <= nMaxDatacarrierBytes /\ sol = [].
Proof.
  split.
  - intros H. down. eauto 10.
  - intros (c & d & H & Hd & ->). split_instrs. apply plain_step; [done |]. eexists. split; [eassumption |].
    apply smalldata_step. exists c, d. eexists. split_and!; [eassumption | done |]. by apply match_nil.
Qed.

Lemma match_return pc sol :
  match_template [OP_RETURN] pc [] = Some sol <-> instrs pc [(code OP_RETURN, [])] /\ sol = [].
Proof.
  split.
  - intros H. down. eauto 10.
  - intros (H & ->). split_instrs. apply plain_step; [done |]. eexists. split; [eassumption |]. by apply match_nil.
Qed.

End Templates.

(** ** What the solver recognises *)

Lemma reads_op_inv c pc pc' : reads pc (c, []) pc' -> 78 < c -> pc = c :: pc'.
Proof.
  intros (op & E & C) Hc. cbn [fst snd] in *. destruct pc as [| b pc]; [done |].
  assert (or_ok (GetOp2 (b :: pc)) = true /\ code (or_op (GetOp2 (b :: pc))) = c) as [Hok Eo] by by rewrite E.
  revert E Hok Eo. unfold GetOp2. change (code OP_PUSHDATA4) with 78. change (code OP_PUSHDATA1) with 76.
  change (code OP_PUSHDATA2) with 77. destruct (Z.leb_spec b 78).
  - intros _. destruct (Z.ltb_spec b 76).
    { intros Hok. destruct (operand_ok _ _ _ Hok) as [-> _]. rewrite code_opcode_of. lia. }
    destruct (Z.eqb_spec b 76); [destruct pc; [done |] | destruct (Z.eqb_spec b 77); (destruct (_ <? _); [done |])];
      intros Hok; destruct (operand_ok _ _ _ Hok) as [-> _]; rewrite code_opcode_of; lia.
  - intros [= -> Eo] _. cbn [or_op]. rewrite code_opcode_of. by intros ->.
Qed.

Lemma reads_short_inv c d pc pc' : reads pc (c, d) pc' -> 0 <= c < 76 -> pc = c :: d ++ pc' /\ Zlen d = c.
Proof.
  intros (op & E & C) Hc. cbn [fst snd] in *. destruct pc as [| b pc]; [done |].
  assert (or_ok (GetOp2 (b :: pc)) = true /\ code (or_op (GetOp2 (b :: pc))) = c) as [Hok Eo] by by rewrite E.
  revert E Hok Eo. unfold GetOp2. change (code OP_PUSHDATA4) with 78. change (code OP_PUSHDATA1) with 76.
  change (code OP_PUSHDATA2) with 77. destruct (Z.leb_spec b 78); [| intros _ _; cbn [or_op]; rewrite code_opcode_of; lia].
  destruct (Z.ltb_spec b 76).
  { intros E Hok. destruct (operand_ok _ _ _ Hok) as [-> _]. rewrite code_opcode_of. intros ->. revert E. unfold GetOperand.
    destruct (Z.ltb_spec (Zlen pc) c); [done |]. intros [= <- _ <-]. rewrite take_drop. split; [done |].
    unfold Zlen in *. rewrite length_take. lia. }
  destruct (Z.eqb_spec b 76); [destruct pc; [done |] | destruct (Z.eqb_spec b 77); (destruct (_ <? _); [done |])];
    intros _ Hok; destruct (operand_ok _ _ _ Hok) as [-> _]; rewrite code_opcode_of; lia.
Qed.

(** Pay to script hash is a form of bytes: the hash is pushed by its length. *)
Lemma scripthash_form script h :
  length h = 20%nat ->
  instrs script [(code OP_HASH160, []); (20, h); (code OP_EQUAL, [])] <-> script = p2sh h.
Proof.
  intros Hh. split.
  - intros H. inversion H as [| ? ? p1 ? R1 H1]; subst. inversion H1 as [| ? ? p2 ? R2 H2]; subst.
    inversion H2 as [| ? ? p3 ? R3 H3]; subst. inversion H3; subst. apply reads_op_inv in R1 as ->; [| done].
    apply reads_short_inv in R2 as [-> _]; [| done]. by apply reads_op_inv in R3 as ->.
  - intros ->. unfold p2sh. cbn [app]. econstructor; [by apply (reads_op OP_HASH160) |]. econstructor.
    { rewrite push_hash by done. replace 20 with (code (push_opcode h)); [apply reads_push |].
      - unfold Zlen. by rewrite Hh.
      - unfold push_opcode, Zlen. rewrite Hh. done. }
    econstructor; [by apply (reads_op OP_EQUAL) |]. constructor.
Qed.

Lemma IsPayToScriptHash_p2sh h : length h = 20%nat -> IsPayToScriptHash (p2sh h) = true.
Proof.
  intros Hh. unfold p2sh. do 20 (destruct h as [| ? h]; [done |]). by destruct h.
Qed.

Section Exact.
Context {HS : Hashes} (datacarrier : bool) (nMaxDatacarrierBytes : Z) (cc_enabled : bool) (MayAcceptCryptoCondition : list Z -> bool).
Abbreviation Solver := (Solver datacarrier nMaxDatacarrierBytes cc_enabled MayAcceptCryptoCondition).
Abbreviation standard_form := (standard_form datacarrier nMaxDatacarrierBytes).

(** The checks on a multisignature script. *)
Lemma multisig_ok_spec m n (ks : list (list Z)) :
  Zlen ks < 2 ^ 64 -> multisig_ok ([m] :: ks ++ [[n]]) = true <-> 1 <= m <= n /\ n = Zlen ks.
Proof.
  intros Hl. unfold multisig_ok. cbn [head default]. rewrite (app_comm_cons ks [[n]] [m]), last_snoc. cbn [default].
  change (rd (id [m]) 0) with m. change (rd (id [n]) 0) with n.
  assert (u64 (Zlen (([m] :: ks) ++ [[n]]) - 2) = Zlen ks) as ->.
  { unfold u64, Zlen in *. rewrite length_app. cbn [length]. rewrite Z.mod_small; lia. }
  destruct (Z.ltb_spec m 1); cbn [orb negb]; [split; [done | lia] |].
  destruct (Z.ltb_spec n 1); cbn [orb negb]; [split; [done | lia] |].
  destruct (Z.ltb_spec n m); cbn [orb negb]; [split; [done | lia] |].
  destruct (Z.eqb_spec (Zlen ks) n); cbn [orb negb]; split; try done; lia.
Qed.

Lemma instrs_length pc l : instrs pc l -> (length l <= length pc)%nat.
Proof. induction 1 as [| ? ? ? ? R _ IH]; [done |]. apply reads_shorter in R. cbn. lia. Qed.

Lemma small_code m : 1 <= m -> (if m =? 0 then 0 else 80 + m) = 80 + m.
Proof. intros H. destruct (Z.eqb_spec m 0); lia. Qed.

(** A script that has the instructions of a form matches no earlier template. *)
Ltac clash := exfalso; match goal with
  | E : match_template _ _ ?pc [] = Some _, Hi : instrs ?pc _ |- _ =>
      first [ apply match_pubkey in E as (? & ? & E & ? & ->)
            | apply match_pubkeyhash in E as (? & ? & E & ? & ->)
            | apply match_multisig in E as (? & ? & ? & ? & ? & ? & E & ->)
            | apply match_data in E as (? & ? & E & ? & ->) ];
      pose proof (instrs_det _ _ _ E Hi) as Eq; clear E Hi
  end; cbn [code] in *; simplify_eq;
  repeat match goal with
  | H : _ ++ _ = _ |- _ => apply (f_equal length) in H; rewrite length_app in H; cbn in H; lia
  | H : context [if ?b then _ else _] |- _ => destruct b
  end; done || lia.

Lemma try_templates_form script l t sol :
  Zlen script < 2 ^ 32 -> instrs script l -> standard_form l t sol -> t <> TX_SCRIPTHASH ->
  try_templates nMaxDatacarrierBytes (mTemplates datacarrier) script = (true, Some t, sol).
Proof.
  intros Hl Hi Hf Ht. unfold mTemplates. cbn [app try_templates]. destruct Hf as [c k Hk | c h Hh | h Hh | m ks Hm Hn Hks | c d Hd Hs |].
  - assert (match_template nMaxDatacarrierBytes [OP_PUBKEY; OP_CHECKSIG] script [] = Some [k]) as -> by (apply match_pubkey; eauto). done.
  - destruct (match_template _ [OP_PUBKEY; _] _ _) eqn:E; [clash |].
    assert (match_template nMaxDatacarrierBytes [OP_DUP; OP_HASH160; OP_PUBKEYHASH; OP_EQUALVERIFY; OP_CHECKSIG] script [] = Some [h]) as ->
      by (apply match_pubkeyhash; eauto). done.
  - done.
  - destruct (match_template _ [OP_PUBKEY; _] _ _) eqn:E; [clash |]. clear E.
    destruct (match_template _ [OP_DUP; _; _; _; _] _ _) eqn:E; [clash |]. clear E.
    assert (match_template nMaxDatacarrierBytes [OP_SMALLINTEGER; OP_PUBKEYS; OP_SMALLINTEGER; OP_CHECKMULTISIG] script []
            = Some ([m] :: map snd ks ++ [[Zlen ks]])) as ->.
    { apply match_multisig. exists m, (Zlen ks), ks. rewrite !small_code by lia. split_and!; try done; lia. }
    rewrite bool_decide_true by done. f_equal. f_equal. apply multisig_ok_spec; unfold Zlen in *; rewrite length_map; lia.
  - subst. destruct (match_template _ [OP_PUBKEY; _] _ _) eqn:E; [clash |]. clear E.
    destruct (match_template _ [OP_DUP; _; _; _; _] _ _) eqn:E; [clash |]. clear E.
    destruct (match_template _ [OP_SMALLINTEGER; _; _; _] _ _) eqn:E; [clash |]. clear E. cbn [app try_templates].
    assert (match_template nMaxDatacarrierBytes [OP_RETURN; OP_SMALLDATA] script [] = Some []) as -> by (apply match_data; eauto). done.
  - destruct (match_template _ [OP_PUBKEY; _] _ _) eqn:E; [clash |]. clear E.
    destruct (match_template _ [OP_DUP; _; _; _; _] _ _) eqn:E; [clash |]. clear E.
    destruct (match_template _ [OP_SMALLINTEGER; _; _; _] _ _) eqn:E; [clash |]. clear E.
    destruct datacarrier; cbn [app try_templates].
    + destruct (match_template _ [OP_RETURN; OP_SMALLDATA] _ _) eqn:E; [clash |].
      assert (match_template nMaxDatacarrierBytes [OP_RETURN] script [] = Some []) as -> by by apply match_return. done.
    + assert (match_template nMaxDatacarrierBytes [OP_RETURN] script [] = Some []) as -> by by apply match_return. done.
Qed.

Lemma try_templates_sound script t sol :
  Zlen script < 2 ^ 32 -> try_templates nMaxDatacarrierBytes (mTemplates datacarrier) script = (true, Some t, sol) ->
  exists l, instrs script l /\ standard_form l t sol.
Proof.
  intros Hl. unfold mTemplates. cbn [app try_templates].
  destruct (match_template _ [OP_PUBKEY; _] _ _) as [s |] eqn:E.
  { cbn. intros [= <- <-]. apply match_pubkey in E as (c & k & Hi & Hk & ->). eexists. split; [done | by constructor]. }
  clear E. destruct (match_template _ [OP_DUP; _; _; _; _] _ _) as [s |] eqn:E.
  { cbn. intros [= <- <-]. apply match_pubkeyhash in E as (c & k & Hi & Hk & ->). eexists. split; [done | by constructor]. }
  clear E. destruct (match_template _ [OP_SMALLINTEGER; _; _; _] _ _) as [s |] eqn:E.
  { rewrite bool_decide_true by done. intros [= Hok <- <-]. apply match_multisig in E as (m & n & ks & Hm & Hn & Hks & Hi & ->).
    pose proof (instrs_length _ _ Hi) as Hlen. cbn [length] in Hlen. rewrite length_app in Hlen.
    apply multisig_ok_spec in Hok as [Hmn ->]; [| unfold Zlen in *; rewrite length_map; lia].
    assert (Zlen (map snd ks) = Zlen ks) as El by (unfold Zlen; by rewrite length_map). rewrite El in *.
    rewrite !small_code in Hi by lia. eexists. split; [done |]. constructor; [lia | lia | done]. }
  clear E. destruct datacarrier; cbn [app try_templates].
  - destruct (match_template _ [OP_RETURN; _] _ _) as [s |] eqn:E.
    { cbn. intros [= <- <-]. apply match_data in E as (c & d & Hi & Hd & ->). eexists. split; [done | by constructor]. }
    clear E. destruct (match_template _ [OP_RETURN] _ _) as [s |] eqn:E; [| done].
    cbn. intros [= <- <-]. apply match_return in E as [Hi ->]. eexists. split; [done | by constructor].
  - destruct (match_template _ [OP_RETURN] _ _) as [s |] eqn:E; [| done].
    cbn. intros [= <- <-]. apply match_return in E as [Hi ->]. eexists. split; [done | by constructor].
Qed.

(** A pay-to-script-hash script is recognised as such and as nothing else. *)
Lemma scripthash_only script l t sol :
  IsPayToScriptHash script = true -> instrs script l -> standard_form l t sol -> t = TX_SCRIPTHASH /\ sol = [take 20 (drop 2 script)].
Proof.
  intros Hp Hi Hf. apply IsPayToScriptHash_inv in Hp as (h & Hh & E).
  assert (instrs script [(code OP_HASH160, []); (20, h); (code OP_EQUAL, [])]) as Hi' by by apply scripthash_form.
  pose proof (instrs_det _ _ _ Hi Hi') as ->. inversion Hf as [| | h' | m ks | |]; subst.
  - split; [done |]. f_equal. symmetry. by apply take_app_length'.
  - exfalso. match goal with H : 80 + m = _ |- _ => cbn in H; lia end.
Qed.

Lemma Solver_form script l t sol :
  Zlen script < 2 ^ 32 -> (if cc_enabled then IsPayToCryptoCondition script else None) = None ->
  instrs script l -> standard_form l t sol -> Solver script = (true, Some t, sol).
Proof.
  intros Hl Hcc Hi Hf. unfold Standard.Solver. destruct (IsPayToScriptHash script) eqn:Ep.
  - by destruct (scripthash_only _ _ _ _ Ep Hi Hf) as [-> ->].
  - rewrite Hcc. apply (try_templates_form script l); try done. intros ->. inversion Hf; subst.
    apply scripthash_form in Hi as ->; [| done]. by rewrite IsPayToScriptHash_p2sh in Ep.
Qed.

End Exact.

(** ** Scripts for destinations *)

Lemma no_cc script c d l :
  instrs script ((c, d) :: l) -> 76 <= c \/ (exists c' d' l', l = (c', d') :: l' /\ c' <> code OP_CHECKCRYPTOCONDITION) ->
  IsPayToCryptoCondition script = None.
Proof.
  intros Hi Hc. inversion Hi as [| ? ? pc ? (op & E & C) H1]; subst. cbn [fst snd] in *. unfold IsPayToCryptoCondition. rewrite E.
  cbn [or_ok or_op or_pc]. change (code OP_PUSHDATA1) with 76. rewrite C. cbn [andb]. destruct Hc as [Hc | (c' & d' & l' & -> & Hc)].
  - rewrite (proj2 (Z.ltb_ge c 76)) by done. by rewrite andb_false_r.
  - destruct (_ && _); [| done]. inversion H1 as [| ? ? pc2 ? (op' & E' & C') _]; subst. rewrite E'. cbn [or_ok or_op or_pc fst] in *.
    unfold op_eq. by rewrite C', (proj2 (Z.eqb_neq _ _)).
Qed.

(** A script whose first operand is long, or whose second byte is not the opcode, has no lock time. *)
Lemma no_lock script op d pc :
  GetOp2 script = OpRead true pc op d ->
  6 <= Zlen d \/ (exists b, script !! (length d + 1)%nat = Some b /\ b <> code OP_CHECKLOCKTIMEVERIFY) ->
  IsCheckLockTimeVerify script = Some None.
Proof.
  intros E H. unfold IsCheckLockTimeVerify. rewrite E. cbn [or_ok or_data andb].
  destruct (Z.ltb_spec (Zlen d) 6) as [Hd |]; [| done]. destruct H as [H | (b & -> & Hb)]; [lia |]. cbn.
  by rewrite (proj2 (Z.eqb_neq _ _)).
Qed.

(** A key of the size its first byte says. *)
Definition key_ok (k : list Z) : Prop := Checks.IsValid (Checks.CPubKey k) = true.

Lemma key_ok_size k : key_ok k -> (Zlen k = 33 \/ Zlen k = 65) /\ Checks.CPubKey k = k.
Proof.
  intros Hk. split; [| by apply Checks.key_valid]. apply Checks.key_bytes in Hk as [E Hne]. revert E. unfold Checks.GetLen.
  pose proof (Zlen_nonneg k). destruct (_ || _); [by left |]. destruct (_ || _); [by right |]. destruct k; [done |]. intros. unfold Zlen in *. cbn [length] in *. lia.
Qed.

Lemma key_ok_is_key k : key_ok k -> is_key k = true.
Proof. intros [Hk _]%key_ok_size. unfold is_key. destruct Hk as [-> | ->]; done. Qed.

Lemma key_push k : key_ok k -> push_data k = Zlen k :: k /\ code (push_opcode k) = Zlen k.
Proof.
  intros [Hk _]%key_ok_size. unfold push_data, push_opcode. change (code OP_PUSHDATA1) with 76.
  rewrite (proj2 (Z.ltb_lt _ 76)) by lia. split; [done | apply code_opcode_of].
Qed.

Section Destinations.
Context {HS : Hashes} (datacarrier : bool) (nMaxDatacarrierBytes : Z) (cc_enabled : bool) (MayAcceptCryptoCondition : list Z -> bool).
Abbreviation Solver := (Solver datacarrier nMaxDatacarrierBytes cc_enabled MayAcceptCryptoCondition).
Abbreviation ExtractDestination := (ExtractDestination datacarrier nMaxDatacarrierBytes cc_enabled MayAcceptCryptoCondition).
Abbreviation destination_of := (destination_of datacarrier nMaxDatacarrierBytes cc_enabled MayAcceptCryptoCondition).
Abbreviation ExtractDestinations := (ExtractDestinations datacarrier nMaxDatacarrierBytes cc_enabled MayAcceptCryptoCondition).
Abbreviation extract_destinations := (extract_destinations datacarrier nMaxDatacarrierBytes cc_enabled MayAcceptCryptoCondition).
Abbreviation destinations_of := (destinations_of datacarrier nMaxDatacarrierBytes cc_enabled MayAcceptCryptoCondition).

Definition dest_ok (dest : CTxDestination) : Prop :=
  match dest with
  | CNoDestination => False
  | DestPubKey k => key_ok k
  | CKeyID id | CScriptID id => length id = 20%nat
  end.

(** The scripts of addresses are the ones whose spending conditions are known. *)
Lemma script_of_keyid h : length h = 20%nat -> GetScriptForDestination (CKeyID h) = p2pkh h.
Proof. intros Hh. unfold GetScriptForDestination, p2pkh. cbn [app]. f_equal. f_equal. by rewrite push_hash. Qed.
Lemma script_of_scriptid h : length h = 20%nat -> GetScriptForDestination (CScriptID h) = p2sh h.
Proof. intros Hh. unfold GetScriptForDestination, p2sh. cbn [app]. f_equal. by rewrite push_hash. Qed.

Lemma hash_reads h pc : length h = 20%nat -> reads (push_data h ++ pc) (20, h) pc.
Proof.
  intros Hh. assert (Zlen h = 20) as E by (unfold Zlen; lia). replace 20 with (code (push_opcode h)); [by apply reads_push; rewrite E |].
  unfold push_opcode. by rewrite E.
Qed.

Lemma keyid_instrs h : length h = 20%nat ->
  instrs (GetScriptForDestination (CKeyID h))
    [(code OP_DUP, []); (code OP_HASH160, []); (20, h); (code OP_EQUALVERIFY, []); (code OP_CHECKSIG, [])].
Proof.
  intros Hh. cbn [GetScriptForDestination app]. econstructor; [by apply (reads_op OP_DUP) |].
  econstructor; [by apply (reads_op OP_HASH160) |]. econstructor; [by apply hash_reads |].
  econstructor; [by apply (reads_op OP_EQUALVERIFY) |]. econstructor; [by apply (reads_op OP_CHECKSIG) |]. constructor.
Qed.

Lemma pubkey_instrs k : key_ok k -> instrs (GetScriptForDestination (DestPubKey k)) [(Zlen k, k); (code OP_CHECKSIG, [])].
Proof.
  intros Hk. destruct (key_push k Hk) as [_ Ec]. cbn [GetScriptForDestination]. econstructor.
  - rewrite <-Ec. apply reads_push. apply key_ok_size in Hk as [[-> | ->] _]; done.
  - econstructor; [by apply (reads_op OP_CHECKSIG) | constructor].
Qed.

Lemma solver_key k : key_ok k -> Solver (GetScriptForDestination (DestPubKey k)) = (true, Some TX_PUBKEY, [k]).
Proof.
  intros Hk. pose proof (pubkey_instrs k Hk) as Hi. eapply Solver_form; [| | exact Hi |].
  - destruct (key_push k Hk) as [E _]. cbn [GetScriptForDestination]. rewrite E. apply key_ok_size in Hk as [Hk _].
    unfold Zlen in *. rewrite length_app. cbn [length]. lia.
  - destruct cc_enabled; [| done]. apply (no_cc _ _ _ _ Hi). right. by eexists _, _, _.
  - constructor. by apply key_ok_is_key.
Qed.

Lemma solver_keyid h : length h = 20%nat -> Solver (GetScriptForDestination (CKeyID h)) = (true, Some TX_PUBKEYHASH, [h]).
Proof.
  intros Hh. pose proof (keyid_instrs h Hh) as Hi. eapply Solver_form; [| | exact Hi |].
  - rewrite script_of_keyid by done. unfold p2pkh, Zlen. rewrite !length_app, Hh. done.
  - destruct cc_enabled; [| done]. by apply (no_cc _ _ _ _ Hi); left.
  - by constructor.
Qed.

Lemma solver_scriptid h : length h = 20%nat -> Solver (GetScriptForDestination (CScriptID h)) = (true, Some TX_SCRIPTHASH, [h]).
Proof.
  intros Hh. rewrite script_of_scriptid by done. unfold Standard.Solver. rewrite IsPayToScriptHash_p2sh by done.
  f_equal. f_equal. by apply take_app_length'.
Qed.

Lemma destination_lock dest : dest_ok dest -> IsCheckLockTimeVerify (GetScriptForDestination dest) = Some None.
Proof.
  destruct dest as [| k | h | h]; cbn [dest_ok]; intros Hd; [done | | |].
  - destruct (key_push k Hd) as [_ Ec]. apply key_ok_size in Hd as [Hk _]. cbn [GetScriptForDestination].
    eapply no_lock; [apply GetOp2_push; lia |]. left. lia.
  - eapply no_lock; [reflexivity |]. right. by eexists.
  - rewrite script_of_scriptid by done. eapply no_lock; [reflexivity |]. right. by eexists.
Qed.

(** [ExtractDestinations] calls itself on what is behind a lock time, which is shorter. *)
Lemma after_cltv_shorter b script : byte_ok b -> (length (after_cltv (b :: script)) <= length script)%nat.
Proof.
  intros Hb. unfold after_cltv. change (rd (b :: script) 0) with b. unfold byte_ok in Hb.
  assert (u32 (b + 3) = b + 3) as -> by (unfold u32; rewrite Z.mod_small; lia).
  destruct (_ <? _)%nat; [| cbn; lia]. rewrite length_drop. cbn [length]. lia.
Qed.

Lemma lock_nonempty script t : IsCheckLockTimeVerify script = Some (Some t) -> script <> [].
Proof. by intros E ->. Qed.

Lemma extract_fuel n m script :
  bytes_ok script -> (length script <= n)%nat -> (length script <= m)%nat ->
  extract_destinations n script = extract_destinations m script.
Proof.
  revert m script. induction n as [| n IH]; intros m script Hb Hn Hm.
  - destruct script; [| cbn in Hn; lia]. by destruct m.
  - destruct script as [| b script]; [by destruct m |]. cbn [length] in *. destruct m as [| m]; [lia |]. cbn [Standard.extract_destinations].
    destruct (IsCheckLockTimeVerify (b :: script)) as [[t |] |] eqn:E; [| done | done]. cbn [mbind option_bind].
    pose proof (Forall_inv Hb) as Hb0. pose proof (after_cltv_shorter b script Hb0). apply IH; [| lia | lia].
    unfold after_cltv. destruct (_ <? _)%nat; [by apply bytes_ok_drop | constructor].
Qed.

(** The recursion as the source writes it. *)
Lemma ExtractDestinations_eq script :
  bytes_ok script ->
  ExtractDestinations script = match IsCheckLockTimeVerify script with
                               | None => None
                               | Some None => destinations_of script
                               | Some (Some _) => ExtractDestinations (after_cltv script)
                               end.
Proof.
  intros Hb. unfold Standard.ExtractDestinations. destruct script as [| b script]; [done |].
  cbn [length Standard.extract_destinations]. destruct (IsCheckLockTimeVerify (b :: script)) as [[t |] |] eqn:E; [| done | done].
  cbn [mbind option_bind]. pose proof (Forall_inv Hb) as Hb0. pose proof (after_cltv_shorter b script Hb0).
  apply extract_fuel; [| lia | lia]. unfold after_cltv. destruct (_ <? _)%nat; [by apply bytes_ok_drop | constructor].
Qed.

(** *** Multisignature scripts *)

Lemma encode_small m : 1 <= m <= 16 -> exists op, EncodeOP_N m = Some op /\ code op = 80 + m.
Proof.
  intros Hm. unfold EncodeOP_N. rewrite (proj2 (Z.leb_le 0 m)), (proj2 (Z.leb_le m 16)), (proj2 (Z.eqb_neq m 0)) by lia. cbn [andb].
  eexists. split; [reflexivity |]. rewrite code_opcode_of. cbn [code]. lia.
Qed.

Lemma multisig_instrs m keys script :
  1 <= m <= Zlen keys -> Zlen keys <= 16 -> Forall key_ok keys -> GetScriptForMultisig m keys = Some script ->
  instrs script ((80 + m, []) :: map (fun k => (code (push_opcode k), k)) keys ++ [(80 + Zlen keys, []); (code OP_CHECKMULTISIG, [])])
  /\ Zlen script < 2 ^ 32 /\ IsCheckLockTimeVerify script = Some None.
Proof.
  intros Hm Hn Hk. destruct (encode_small m ltac:(lia)) as (opm & Em & Cm). destruct (encode_small (Zlen keys) ltac:(lia)) as (opn & En & Cn).
  unfold GetScriptForMultisig. rewrite Em. cbn [mbind option_bind]. rewrite En. cbn [mbind option_bind]. intros [= <-].
  assert (Forall (fun d => Zlen d < 2 ^ 32) keys) as Hl.
  { apply (Forall_impl _ _ _ Hk). intros k [Hs _]%key_ok_size. lia. }
  split; [| split].
  - cbn [app]. rewrite <-Cm, <-Cn. econstructor; [apply reads_op; lia |]. eapply run_instrs; [by apply run_push_all |].
    econstructor; [apply reads_op; lia |]. econstructor; [by apply (reads_op OP_CHECKMULTISIG) |]. constructor.
  - assert (forall l, Forall key_ok l -> Zlen (push_all l) <= 66 * Zlen l) as Hp.
    { clear. induction 1 as [| k l Hk _ IH]; [done |]. unfold push_all in *. cbn [map concat]. rewrite Zlen_app.
      destruct (key_push k Hk) as [-> _]. apply key_ok_size in Hk as [Hk _]. unfold Zlen in *. cbn [length]. lia. }
    specialize (Hp keys Hk). unfold Zlen in *. cbn [app length]. rewrite length_app. cbn [length]. lia.
  - destruct keys as [| k keys]; [unfold Zlen in Hm; cbn in Hm; lia |]. apply Forall_cons in Hk as [Hk _].
    destruct (reads_op opm (push_all (k :: keys) ++ [code opn; code OP_CHECKMULTISIG]) ltac:(lia)) as (op & E & _).
    eapply no_lock; [exact E |]. right. exists (Zlen k). unfold push_all. cbn [map concat].
    destruct (key_push k Hk) as [-> _]. split; [done |]. apply key_ok_size in Hk as [Hk _]. cbn [code]. lia.
Qed.

Lemma solver_multisig m keys script :
  1 <= m <= Zlen keys -> Zlen keys <= 16 -> Forall key_ok keys -> GetScriptForMultisig m keys = Some script ->
  Solver script = (true, Some TX_MULTISIG, [m] :: keys ++ [[Zlen keys]]).
Proof.
  intros Hm Hn Hk E. destruct (multisig_instrs m keys script Hm Hn Hk E) as (Hi & Hl & _).
  eapply Solver_form; [done | | exact Hi |].
  - destruct cc_enabled; [| done]. apply (no_cc _ _ _ _ Hi). left. lia.
  - set (ks := map (fun k => (code (push_opcode k), k)) keys).
    assert (Zlen ks = Zlen keys) as El by (unfold ks, Zlen; by rewrite length_map).
    assert (map snd ks = keys) as Em by (unfold ks; rewrite map_map; cbn; apply map_id).
    pose proof (form_multisig datacarrier nMaxDatacarrierBytes m ks) as F. rewrite El, Em in F. apply F; [done | done |].
    unfold ks. apply Forall_map. apply (Forall_impl _ _ _ Hk). intros k. cbn. apply key_ok_is_key.
Qed.

Lemma destination_extracted dest :
  dest_ok dest -> ExtractDestination true (GetScriptForDestination dest) = Some (Some dest).
Proof.
  intros Hd. unfold Standard.ExtractDestination. rewrite destination_lock by done. cbn [mbind option_bind]. f_equal. unfold Standard.destination_of.
  destruct dest as [| k | h | h]; cbn [dest_ok] in Hd; [done | | |].
  + rewrite solver_key by done. unfold key_ok in Hd. rewrite Hd. cbn [negb]. by rewrite Checks.key_valid.
  + by rewrite solver_keyid.
  + by rewrite solver_scriptid.
Qed.

Lemma valid_keys keys :
  Forall key_ok keys -> filter (fun k => Checks.IsValid k = true) (map Checks.CPubKey keys) = keys.
Proof.
  induction 1 as [| k l Hk _ IH]; [done |]. cbn [map]. rewrite filter_cons_True by done. by rewrite IH, Checks.key_valid.
Qed.

Lemma multisig_extracted m keys :
  1 <= m <= Zlen keys -> Zlen keys <= 16 -> Forall key_ok keys ->
  exists script, GetScriptForMultisig m keys = Some script
    /\ ExtractDestinations script = Some (Some (TX_MULTISIG, map (fun k => CKeyID (CHash160 k)) keys, m)).
Proof.
  intros Hm Hn Hk. destruct (encode_small m ltac:(lia)) as (opm & Em & Cm). destruct (encode_small (Zlen keys) ltac:(lia)) as (opn & En & Cn).
  assert (GetScriptForMultisig m keys = Some ([code opm] ++ push_all keys ++ [code opn; code OP_CHECKMULTISIG])) as Es.
  { unfold GetScriptForMultisig. rewrite Em. cbn [mbind option_bind]. by rewrite En. }
  eexists. split; [exact Es |]. destruct (multisig_instrs _ _ _ Hm Hn Hk Es) as (_ & _ & Hlock).
  pose proof (solver_multisig _ _ _ Hm Hn Hk Es) as Hs.
  set (script := _ ++ _) in *. unfold Standard.ExtractDestinations.
  assert (forall n, extract_destinations n script = destinations_of script) as ->.
  { intros [| f]; cbn [Standard.extract_destinations]; by rewrite Hlock. }
  unfold Standard.destinations_of. rewrite Hs. f_equal. cbn [drop length]. rewrite length_app. cbn [length].
  replace (S (length keys + 1) - 2)%nat with (length keys) by lia. rewrite drop_0, take_app_length.
  rewrite valid_keys by done.
  destruct keys; [unfold Zlen in Hm; cbn in Hm; lia | done].
Qed.

End Destinations.
End StandardFacts.

(** ** Theorems *)

Module StandardTheorems.
Import Standard StandardFacts.

(** [C27] [Solver] recognises exactly the standard scripts: on a script that is not
    a crypto-condition it returns true with a type and solutions if and only if
    the script reads as a list of instructions of one of the forms, and the form
    gives the type and the solutions; so a script has one type, a multisignature
    script has [m] of [n] with [1 <= m <= n <= 16] and exactly [n] keys, and the
    loop over the keys never runs past the script. *)
Theorem solver_exact {HS : Hashes} (datacarrier : bool) (nMaxDatacarrierBytes : Z) (cc_enabled : bool)
    (MayAcceptCryptoCondition : list Z -> bool) (script : list Z) (t : txnouttype) (sol : list (list Z)) :
  Zlen script < 2 ^ 32 -> (if cc_enabled then IsPayToCryptoCondition script else None) = None ->
  Solver datacarrier nMaxDatacarrierBytes cc_enabled MayAcceptCryptoCondition script = (true, Some t, sol) <->
  exists l, instrs script l /\ standard_form datacarrier nMaxDatacarrierBytes l t sol.
Proof.
  intros Hl Hcc. split; [| intros (l & Hi & Hf); by apply (Solver_form _ _ _ _ _ l)].
  unfold Solver. destruct (IsPayToScriptHash script) eqn:Ep.
  - intros [= <- <-]. apply IsPayToScriptHash_inv in Ep as (h & Hh & ->). exists [(code OP_HASH160, []); (20, h); (code OP_EQUAL, [])].
    split; [by apply scripthash_form |].
    replace (take 20 (drop 2 ([code OP_HASH160; 20] ++ h ++ [code OP_EQUAL]))) with h by (symmetry; by apply take_app_length').
    by constructor.
  - rewrite Hcc. by apply try_templates_sound.
Qed.

(** The scripts made for destinations are read back: [ExtractDestination]
    finds in the script of a key, of a key hash or of a script hash the destination
    it was made for, and [ExtractDestinations] finds in a multisignature script the
    number of signatures and, in order, the hashes of its keys; neither reads past
    the end of the script. *)
Theorem destinations_round_trip {HS : Hashes} (datacarrier : bool) (nMaxDatacarrierBytes : Z) (cc_enabled : bool)
    (MayAcceptCryptoCondition : list Z -> bool) (dest : CTxDestination) (m : Z) (keys : list (list Z)) :
  dest_ok dest -> 1 <= m <= Zlen keys -> Zlen keys <= 16 -> Forall key_ok keys ->
  ExtractDestination datacarrier nMaxDatacarrierBytes cc_enabled MayAcceptCryptoCondition true (GetScriptForDestination dest) =
    Some (Some dest)
  /\ exists script, GetScriptForMultisig m keys = Some script
     /\ ExtractDestinations datacarrier nMaxDatacarrierBytes cc_enabled MayAcceptCryptoCondition script =
        Some (Some (TX_MULTISIG, map (fun k => CKeyID (CHash160 k)) keys, m)).
Proof.
  intros Hd Hm Hn Hk. split; [by apply destination_extracted | by apply multisig_extracted].
Qed.

(** ** Instances of the theorems *)

#[local] Existing Instance Interp.toy_hashes.
Definition key_example (b : Z) : list Z := 2 :: replicate 32 b.
Definition id_example : list Z := replicate 20 9.

Lemma solver_exact_witness :
  Solver true 80 true (fun _ => true) (p2pkh id_example) = (true, Some TX_PUBKEYHASH, [id_example]) <->
  exists l, instrs (p2pkh id_example) l /\ standard_form true 80 l TX_PUBKEYHASH [id_example].
Proof. apply solver_exact; vm_compute; reflexivity. Defined.

Lemma destinations_round_trip_witness :
  ExtractDestination true 80 true (fun _ => true) true (GetScriptForDestination (CScriptID id_example)) = Some (Some (CScriptID id_example))
  /\ exists script, GetScriptForMultisig 1 [key_example 5; key_example 6] = Some script
     /\ ExtractDestinations true 80 true (fun _ => true) script =
        Some (Some (TX_MULTISIG, map (fun k => CKeyID (CHash160 k)) [key_example 5; key_example 6], 1)).
Proof.
  apply destinations_round_trip; [reflexivity | vm_compute; split; discriminate | vm_compute; discriminate |].
  repeat constructor.
Defined.

(** ** Where the code and its intent differ *)

(** [AsVector] writes [n] before [m] and the constructor reads [m] before [n]: the
    parameters of one key of one are read back, those of one key of two are not. *)
Definition cc_one : COptCCParams := OptCC (Some 1) 7 1 1 [key_example 5] [[8]].
Definition cc_two : COptCCParams := OptCC (Some 1) 7 1 2 [key_example 5; key_example 6] [[8]].
Lemma cc_params_swapped :
  params_of (AsVector cc_one) = cc_one /\ cp_version (params_of (AsVector cc_two)) = Some 0.
Proof. split; vm_compute; reflexivity. Qed.

(** The test of [OP_SMALLDATA] looks at the size of the operand only: an opcode
    that pushes nothing passes for data behind [OP_RETURN]. *)
Lemma null_data_any_opcode :
  IsStandard true 80 false (fun _ => true) [code OP_RETURN; code OP_CHECKSIG] = true.
Proof. vm_compute; reflexivity. Qed.

(** A lock time from 1 to 16 is pushed by [OP_1] to [OP_16], which
    [IsCheckLockTimeVerify] accepts, but the script behind it is looked for at the
    value of the opcode: the address is not found. *)
Lemma small_lock_address_lost (h : list Z) :
  length h = 20%nat ->
  push_int64 1 = Some [code OP_1]
  /\ IsCheckLockTimeVerify ([code OP_1; code OP_CHECKLOCKTIMEVERIFY; code OP_DROP] ++ p2pkh h) = Some (Some 0)
  /\ ExtractDestination true 80 false (fun _ => true) false
       ([code OP_1; code OP_CHECKLOCKTIMEVERIFY; code OP_DROP] ++ p2pkh h) = Some None
  /\ ExtractDestination true 80 false (fun _ => true) false
       (push_data [17] ++ [code OP_CHECKLOCKTIMEVERIFY; code OP_DROP] ++ p2pkh h) = Some (Some (CKeyID h)).
Proof.
  intros Hh. do 20 (destruct h as [| ? h]; [done |]). destruct h; [| done]. split_and!; reflexivity.
Qed.

End StandardTheorems.
