(* ===== verification/Bloom.v ===== *)
(** * Bloom filters and filtered blocks (src/src/bloom.h, bloom.cpp, hash.cpp, merkleblock.cpp, main.cpp)

    A light client sends a filter of the keys it looks for; the node answers with
    the transactions that match and with blocks reduced to them.  Modelled are
    MurmurHash3, the filter, the rolling filter of recent items, the messages that
    load and extend a filter, and the reduced block. *)
From S2P Require Import Prelude Coins Notarized Compact Script Interp Tx TxCheck Merkle PartialMerkle Standard.
Import Tx Op.
Local Open Scope Z_scope.

Module Bloom.

(** ** MurmurHash3 *)

Definition ROTL32 (x r : Z) : Z := u32 (Z.lor (Z.shiftl x r) (Z.shiftr x (32 - r))).
Definition c1 : Z := 0xcc9e2d51.
Definition c2 : Z := 0x1b873593.
Definition mix_k (k1 : Z) : Z := u32 (ROTL32 (u32 (k1 * c1)) 15 * c2).

(** The loop over the blocks of four bytes: the hash and the tail. *)
Fixpoint murmur_body (nblocks : nat) (data : list Z) (h1 : Z) : Z * list Z :=
  match nblocks with
  | O => (h1, data)
  | S nblocks =>
      murmur_body nblocks (drop 4 data) (u32 (ROTL32 (Z.lxor h1 (mix_k (le_num (take 4 data)))) 13 * 5 + 0xe6546b64))
  end.

(** The switch, whose cases fall through. *)
Definition murmur_tail (tail : list Z) (h1 : Z) : Z :=
  match tail with
  | [] => h1
  | _ =>
      let k1 := if (3 <=? length tail)%nat then Z.shiftl (rd tail 2) 16 else 0 in
      let k1 := if (2 <=? length tail)%nat then Z.lxor k1 (Z.shiftl (rd tail 1) 8) else k1 in
      Z.lxor h1 (mix_k (Z.lxor k1 (rd tail 0)))
  end.

Definition MurmurHash3 (nHashSeed : Z) (vDataToHash : list Z) : Z :=
  let '(h1, tail) := murmur_body (length vDataToHash / 4) vDataToHash nHashSeed in
  let h1 := murmur_tail tail h1 in
  let h1 := Z.lxor h1 (u32 (Zlen vDataToHash)) in
  let h1 := u32 (Z.lxor h1 (Z.shiftr h1 16) * 0x85ebca6b) in
  let h1 := u32 (Z.lxor h1 (Z.shiftr h1 13) * 0xc2b2ae35) in
  Z.lxor h1 (Z.shiftr h1 16).

(** ** The filter *)

Definition MAX_BLOOM_FILTER_SIZE : Z := 36000.
Definition MAX_HASH_FUNCS : Z := 50.
Definition BLOOM_UPDATE_NONE : Z := 0.
Definition BLOOM_UPDATE_ALL : Z := 1.
Definition BLOOM_UPDATE_P2PUBKEY_ONLY : Z := 2.
Definition BLOOM_UPDATE_MASK : Z := 3.

Record CBloomFilter := Filter {
  vData : list Z; isFull : bool; isEmpty : bool; nHashFuncs : Z; nTweak : Z; nFlags : Z }.

(** The constructor without arguments. *)
Definition new_filter : CBloomFilter := Filter [] true false 0 0 0.
(** The constructor [CBloomFilter(nElements, nFPRate, nTweakIn)] of the rolling filter; the size of
    the filter and the number of hash functions, which it computes with logarithms, are arguments. *)
Definition private_filter (size funcs nTweakIn : Z) : CBloomFilter :=
  Filter (replicate (Z.to_nat size) 0) false true funcs nTweakIn BLOOM_UPDATE_NONE.

(** [Hash]; [None] is the division by zero for a filter without bytes. *)
Definition Hash (f : CBloomFilter) (nHashNum : Z) (vDataToHash : list Z) : option Z :=
  let n := 8 * Zlen (vData f) in
  if n =? 0 then None else Some (MurmurHash3 (u32 (nHashNum * 0xFBA4C795 + nTweak f)) vDataToHash mod n).

(** [vData[nIndex >> 3] |= (1 << (7 & nIndex))], and the test of the bit. *)
Definition set_bit (data : list Z) (nIndex : Z) : list Z :=
  alter (fun b => Z.lor b (Z.shiftl 1 (Z.land 7 nIndex))) (Z.to_nat (Z.shiftr nIndex 3)) data.
Definition get_bit (data : list Z) (nIndex : Z) : bool :=
  negb (Z.land (rd data (Z.to_nat (Z.shiftr nIndex 3))) (Z.shiftl 1 (Z.land 7 nIndex)) =? 0).

Definition with_data (f : CBloomFilter) (data : list Z) : CBloomFilter :=
  Filter data (isFull f) (isEmpty f) (nHashFuncs f) (nTweak f) (nFlags f).

(** The loops over the hash functions, which are given by their numbers. *)
Fixpoint insert_loop (f : CBloomFilter) (vKey : list Z) (l : list nat) : option CBloomFilter :=
  match l with
  | [] => Some f
  | i :: l => nIndex ← Hash f (Z.of_nat i) vKey; insert_loop (with_data f (set_bit (vData f) nIndex)) vKey l
  end.
Fixpoint contains_loop (f : CBloomFilter) (vKey : list Z) (l : list nat) : option bool :=
  match l with
  | [] => Some true
  | i :: l => nIndex ← Hash f (Z.of_nat i) vKey; if get_bit (vData f) nIndex then contains_loop f vKey l else Some false
  end.
Definition hash_numbers (f : CBloomFilter) : list nat := seq 0 (Z.to_nat (nHashFuncs f)).

Definition insert (f : CBloomFilter) (vKey : list Z) : option CBloomFilter :=
  if isFull f then Some f
  else
    f ← insert_loop f vKey (hash_numbers f);
    Some (Filter (vData f) (isFull f) false (nHashFuncs f) (nTweak f) (nFlags f)).
Definition contains (f : CBloomFilter) (vKey : list Z) : option bool :=
  if isFull f then Some true else if isEmpty f then Some false else contains_loop f vKey (hash_numbers f).

(** The bytes an outpoint is streamed as. *)
Definition outpoint_bytes (p : COutPoint) : list Z := default [] (ser outpoint p).

Definition clear (f : CBloomFilter) : CBloomFilter :=
  Filter (replicate (length (vData f)) 0) false true (nHashFuncs f) (nTweak f) (nFlags f).
Definition reset (f : CBloomFilter) (nNewTweak : Z) : CBloomFilter :=
  let f := clear f in Filter (vData f) (isFull f) (isEmpty f) (nHashFuncs f) nNewTweak (nFlags f).
Definition IsWithinSizeConstraints (f : CBloomFilter) : bool :=
  (Zlen (vData f) <=? MAX_BLOOM_FILTER_SIZE) && (nHashFuncs f <=? MAX_HASH_FUNCS).
Definition UpdateEmptyFull (f : CBloomFilter) : CBloomFilter :=
  let full := fold_left (fun full b => full && (b =? 0xff)) (vData f) true in
  let empty_ := fold_left (fun empty_ b => empty_ && (b =? 0)) (vData f) true in
  Filter (vData f) full empty_ (nHashFuncs f) (nTweak f) (nFlags f).

(** [unsigned char]. *)
Definition uint8 : codec Z := Codec byte_ok (fun x => Some [x]) (l ← read_bytes 1; mret (rd l 0)).
(** [SerializationOp]; what is read goes into a filter made without arguments. *)
Definition filter_codec : codec CBloomFilter :=
  rw d ← bytevec of vData;
  rw h ← uint32 of nHashFuncs;
  rw t ← uint32 of nTweak;
  rw fl ← uint8 of nFlags;
  fixed (Filter d (isFull new_filter) (isEmpty new_filter) h t fl).

(** ** Transactions against a filter *)

(** The loop over the instructions of a script: is some operand in the filter? *)
Definition script_body (f : CBloomFilter) (_ : unit) (r : op_read) : unit + option bool :=
  if negb (or_ok r) then inr (Some false)
  else if Zlen (or_data r) =? 0 then inl tt
  else match contains f (or_data r) with
       | Some true => inr (Some true)
       | Some false => inl tt
       | None => inr None
       end.
Definition script_matches (f : CBloomFilter) (script : list Z) : option bool :=
  scan (script_body f) (fun _ => Some false) tt script.

Section Relevant.
Context {HS : Hashes} (datacarrier : bool) (nMaxDatacarrierBytes : Z) (cc_enabled : bool) (MayAcceptCryptoCondition : list Z -> bool).

(** Is the output that matched added to the filter? *)
Definition adds_output (f : CBloomFilter) (script : list Z) : bool :=
  let flags := Z.land (nFlags f) BLOOM_UPDATE_MASK in
  if flags =? BLOOM_UPDATE_ALL then true
  else if flags =? BLOOM_UPDATE_P2PUBKEY_ONLY then
    match Standard.Solver datacarrier nMaxDatacarrierBytes cc_enabled MayAcceptCryptoCondition script with
    | (true, Some Standard.TX_PUBKEY, _) | (true, Some Standard.TX_MULTISIG, _) => true
    | _ => false
    end
  else false.

(** The loop over the outputs: [fFound] and the filter. *)
Fixpoint match_outputs (f : CBloomFilter) (hash : list Z) (l : list txout) (i : nat) (fFound : bool) : option (bool * CBloomFilter) :=
  match l with
  | [] => Some (fFound, f)
  | o :: l =>
      found ← script_matches f (scriptPubKey o);
      if found : bool then
        f ← (if adds_output f (scriptPubKey o) then insert f (outpoint_bytes (OutPoint hash (Z.of_nat i))) else Some f);
        match_outputs f hash l (i + 1) true
      else match_outputs f hash l (i + 1) fFound
  end.

Fixpoint match_inputs (f : CBloomFilter) (l : list CTxIn) : option bool :=
  match l with
  | [] => Some false
  | txin :: l =>
      spends ← contains f (outpoint_bytes (prevout txin));
      if spends : bool then Some true
      else
        found ← script_matches f (scriptSig txin);
        if found : bool then Some true else match_inputs f l
  end.

Definition IsRelevantAndUpdate (f : CBloomFilter) (tx : CTransaction) : option (bool * CBloomFilter) :=
  if isFull f then Some (true, f)
  else if isEmpty f then Some (false, f)
  else
    let hash := TxCheck.GetHash tx in
    fFound ← contains f hash;
    '(fFound, f) ← match_outputs f hash (vout tx) 0 fFound;
    if fFound : bool then Some (true, f)
    else found ← match_inputs f (vin tx); Some (found, f).

(** [CMerkleBlock(block, filter)]: the part of the tree and the filter; [Hash2] combines two nodes. *)
Fixpoint match_block (f : CBloomFilter) (vtx : list CTransaction) : option (list bool * CBloomFilter) :=
  match vtx with
  | [] => Some ([], f)
  | tx :: vtx =>
      '(relevant, f) ← IsRelevantAndUpdate f tx;
      '(vMatch, f) ← match_block f vtx;
      Some (relevant :: vMatch, f)
  end.
Definition filtered_block (Hash2 : list Z -> list Z -> list Z) (f : CBloomFilter) (vtx : list CTransaction) :
    option (PartialMerkle.pmt * CBloomFilter) :=
  '(vMatch, f) ← match_block f vtx;
  t ← PartialMerkle.CPartialMerkleTree Hash2 (map TxCheck.GetHash vtx) vMatch;
  Some (t, f).

End Relevant.

(** ** The messages of a peer *)

(** What [filterload], [filteradd] and [filterclear] do to the filter of a peer (the node offers
    [NODE_BLOOM]); the number is the misbehaviour that is reported. *)
Inductive message : Type := filterload (vRecv : list Z) | filteradd (vRecv : list Z) | filterclear.
(** [None] is a division by zero; a message that cannot be read throws and changes nothing. *)
Definition receive (pfilter : CBloomFilter) (msg : message) : option (CBloomFilter * Z) :=
  match msg with
  | filterload vRecv =>
      match unser filter_codec vRecv with
      | None => Some (pfilter, 0)
      | Some (f, _) => Some (if IsWithinSizeConstraints f then (UpdateEmptyFull f, 0) else (pfilter, 100))
      end
  | filteradd vRecv =>
      match unser bytevec vRecv with
      | None => Some (pfilter, 0)
      | Some (data, _) =>
          if MAX_SCRIPT_ELEMENT_SIZE <? Zlen data then Some (pfilter, 100)
          else f ← insert pfilter data; Some (f, 0)
      end
  | filterclear => Some (new_filter, 0)
  end.

(** ** The rolling filter *)

Record CRollingBloomFilter := Rolling { nBloomSize : Z; nInsertions : Z; b1 : CBloomFilter; b2 : CBloomFilter }.

Definition rolling_reset (r : CRollingBloomFilter) (nNewTweak : Z) : CRollingBloomFilter :=
  Rolling (nBloomSize r) 0 (reset (b1 r) nNewTweak) (reset (b2 r) nNewTweak).
Definition new_rolling (nElements size funcs nNewTweak : Z) : CRollingBloomFilter :=
  rolling_reset (Rolling (u32 (nElements * 2)) 0 (private_filter size funcs 0) (private_filter size funcs 0)) nNewTweak.
Definition rolling_insert (r : CRollingBloomFilter) (vKey : list Z) : option CRollingBloomFilter :=
  let f1 := if nInsertions r =? 0 then clear (b1 r) else b1 r in
  let f2 := if negb (nInsertions r =? 0) && (nInsertions r =? nBloomSize r / 2) then clear (b2 r) else b2 r in
  f1 ← insert f1 vKey;
  f2 ← insert f2 vKey;
  let n := u32 (nInsertions r + 1) in
  Some (Rolling (nBloomSize r) (if n =? nBloomSize r then 0 else n) f1 f2).
Definition rolling_contains (r : CRollingBloomFilter) (vKey : list Z) : option bool :=
  if nInsertions r <? nBloomSize r / 2 then contains (b2 r) vKey else contains (b1 r) vKey.
Fixpoint rolling_insert_all (r : CRollingBloomFilter) (l : list (list Z)) : option CRollingBloomFilter :=
  match l with [] => Some r | k :: l => r ← rolling_insert r k; rolling_insert_all r l end.

End Bloom.

(** ** Facts about filters *)

Module BloomFacts.
Import Bloom StandardFacts.

(** *** Bits *)

Lemma index_parts n : 0 <= n -> Z.shiftr n 3 = n / 8 /\ Z.land 7 n = n mod 8.
Proof.
  intros Hn. split; [by rewrite Z.shiftr_div_pow2 |]. rewrite Z.land_comm. change 7 with (Z.ones 3). by rewrite Z.land_ones.
Qed.

Lemma get_bit_testbit data n : 0 <= n -> get_bit data n = Z.testbit (rd data (Z.to_nat (n / 8))) (n mod 8).
Proof.
  intros Hn. unfold get_bit. destruct (index_parts n Hn) as [-> ->]. pose proof (Z.mod_pos_bound n 8 ltac:(lia)) as Hm.
  rewrite Z.shiftl_1_l. set (b := rd data _). destruct (Z.testbit b (n mod 8)) eqn:E.
  - apply negb_true_iff, Z.eqb_neq. intros E0. apply (f_equal (fun z => Z.testbit z (n mod 8))) in E0.
    by rewrite Z.land_spec, E, Z.pow2_bits_true, Z.bits_0 in E0 by lia.
  - apply negb_false_iff, Z.eqb_eq. apply Z.bits_inj'. intros i Hi. rewrite Z.land_spec, Z.bits_0.
    destruct (decide (i = n mod 8)) as [-> |]; [by rewrite E |]. by rewrite Z.pow2_bits_false, andb_false_r by lia.
Qed.

Lemma rd_alter (g : Z -> Z) i j (l : list Z) :
  (i < length l)%nat -> rd (alter g i l) j = if decide (i = j) then g (rd l j) else rd l j.
Proof.
  unfold rd. revert i j. induction l as [| b l IH]; intros [| i] [| j]; cbn [length]; intros Hi; try lia; [done | done | done |].
  change (alter g (S i) (b :: l)) with (b :: alter g i l). cbn [nth]. rewrite IH by lia.
  destruct (decide (i = j)), (decide (S i = S j)); try done; lia.
Qed.

Lemma length_set_bit data n : length (set_bit data n) = length data.
Proof. apply length_alter. Qed.

Lemma get_set_bit data n m :
  0 <= n < 8 * Zlen data -> 0 <= m -> get_bit (set_bit data n) m = get_bit data m || (n =? m).
Proof.
  intros Hn Hm. rewrite !get_bit_testbit by done. unfold set_bit. destruct (index_parts n ltac:(lia)) as [-> ->].
  pose proof (Z.mod_pos_bound n 8 ltac:(lia)). pose proof (Z.mod_pos_bound m 8 ltac:(lia)).
  assert (n / 8 < Zlen data) by (apply Z.div_lt_upper_bound; lia). pose proof (Z.div_pos n 8 ltac:(lia) ltac:(lia)).
  pose proof (Z.div_pos m 8 ltac:(lia) ltac:(lia)). pose proof (Z.div_mod n 8 ltac:(lia)). pose proof (Z.div_mod m 8 ltac:(lia)).
  rewrite Z.shiftl_1_l, rd_alter by (unfold Zlen in *; lia). destruct (decide (_ = _)) as [E | E].
  - rewrite Z.lor_spec. f_equal. destruct (Z.eqb_spec n m) as [-> | Hne]; [by apply Z.pow2_bits_true; lia |].
    apply Z.pow2_bits_false. lia.
  - destruct (Z.eqb_spec n m) as [-> | Hne]; [done |]. by rewrite orb_false_r.
Qed.

(** *** What a filter contains *)

(** A filter is in order if it has bytes or is never looked into. *)
Definition wf (f : CBloomFilter) : Prop := isFull f = true \/ 0 < Zlen (vData f).

Definition index (f : CBloomFilter) (k : list Z) (i : nat) : Z :=
  MurmurHash3 (u32 (Z.of_nat i * 0xFBA4C795 + nTweak f)) k mod (8 * Zlen (vData f)).

Lemma Hash_index f i k :
  0 < Zlen (vData f) -> Hash f (Z.of_nat i) k = Some (index f k i) /\ 0 <= index f k i < 8 * Zlen (vData f).
Proof.
  intros Hl. unfold Hash. rewrite (proj2 (Z.eqb_neq _ 0)) by lia. split; [done |]. apply Z.mod_pos_bound. lia.
Qed.

Definition has_bits (f : CBloomFilter) (k : list Z) : bool := forallb (fun i => get_bit (vData f) (index f k i)) (hash_numbers f).
(** The answer of [contains]. *)
Definition has (f : CBloomFilter) (k : list Z) : bool := isFull f || negb (isEmpty f) && has_bits f k.

Lemma contains_loop_spec f k l :
  0 < Zlen (vData f) -> contains_loop f k l = Some (forallb (fun i => get_bit (vData f) (index f k i)) l).
Proof.
  intros Hl. induction l as [| i l IH]; [done |]. cbn [contains_loop forallb]. destruct (Hash_index f i k Hl) as [-> _].
  cbn [mbind option_bind]. by destruct (get_bit _ _).
Qed.

Lemma contains_has f k : wf f -> contains f k = Some (has f k).
Proof.
  unfold contains, has. intros [-> | Hl]; [done |]. destruct (isFull f); [done |]. destruct (isEmpty f); [done |].
  by apply contains_loop_spec.
Qed.

(** [f'] is [f] with more in it. *)
Record grows (f f' : CBloomFilter) : Prop := {
  gr_wf : wf f';
  gr_full : isFull f' = isFull f;
  gr_flags : nFlags f' = nFlags f;
  gr_has k : has f k = true -> has f' k = true;
}.

Lemma grows_refl f : wf f -> grows f f.
Proof. by constructor. Qed.
Lemma grows_trans f1 f2 f3 : grows f1 f2 -> grows f2 f3 -> grows f1 f3.
Proof. intros [] []. constructor; [done | congruence | congruence | eauto]. Qed.

(** The bits after an insertion are the bits before and those of the key. *)
Lemma insert_loop_spec f k l :
  0 < Zlen (vData f) ->
  exists data, insert_loop f k l = Some (with_data f data) /\ length data = length (vData f)
    /\ forall m, 0 <= m -> get_bit data m = get_bit (vData f) m || existsb (fun i => index f k i =? m) l.
Proof.
  revert f. induction l as [| i l IH]; intros f Hl; cbn [insert_loop existsb].
  { exists (vData f). destruct f. split; [done |]. split; [done |]. intros m _. by rewrite orb_false_r. }
  destruct (Hash_index f i k Hl) as [-> Hr]. cbn [mbind option_bind].
  set (n0 := index f k i) in *.
  assert (Zlen (set_bit (vData f) n0) = Zlen (vData f)) as El by (unfold Zlen; by rewrite length_set_bit).
  destruct (IH (with_data f (set_bit (vData f) n0))) as (data & E & Hd & Hb); [by cbn [with_data vData]; rewrite El |].
  exists data. split; [exact E |]. cbn [with_data vData] in Hd, Hb. rewrite length_set_bit in Hd. split; [done |].
  intros m Hm. rewrite Hb, get_set_bit by done. rewrite <-orb_assoc. f_equal. f_equal.
  clearbody n0. unfold index. cbn [with_data vData nTweak]. by rewrite El.
Qed.

Lemma insert_has f k :
  wf f -> exists f', insert f k = Some f' /\ grows f f' /\ has f' k = true.
Proof.
  intros Hw. unfold insert. destruct (isFull f) eqn:Ef.
  { exists f. split; [done |]. split; [by apply grows_refl | unfold has; by rewrite Ef]. }
  destruct Hw as [| Hl]; [congruence |]. destruct (insert_loop_spec f k (hash_numbers f) Hl) as (data & -> & Hd & Hb).
  cbn [mbind option_bind with_data]. eexists. split; [reflexivity |].
  set (f' := Filter _ _ _ _ _ _).
  assert (Zlen (vData f') = Zlen (vData f)) as El by (unfold Zlen; cbn; by rewrite Hd).
  assert (forall x i, index f' x i = index f x i) as Ei by (intros; unfold index; by rewrite El).
  assert (forall x i, get_bit (vData f') (index f' x i) = get_bit (vData f) (index f x i) || existsb (fun j => index f k j =? index f x i) (hash_numbers f)) as Hget.
  { intros x i. rewrite Ei. apply Hb. by apply Hash_index. }
  assert (forall x, has_bits f' x = true <-> forall i, i ∈ hash_numbers f -> get_bit (vData f') (index f' x i) = true) as Hall.
  { intros x. unfold has_bits. change (hash_numbers f') with (hash_numbers f). rewrite forallb_forall. setoid_rewrite list_elem_of_In. done. }
  split.
  - constructor; [right; by rewrite El | done | done |]. intros x Hx. unfold has in *. cbn [isFull isEmpty f'] in *. rewrite Ef in *.
    cbn [orb negb andb] in *. apply andb_prop in Hx as [_ Hx]. apply orb_true_iff. right. apply Hall. intros i Hi. rewrite Hget.
    unfold has_bits in Hx. rewrite forallb_forall in Hx. rewrite Hx; [done |]. by apply list_elem_of_In.
  - unfold has. cbn [isFull isEmpty f']. apply orb_true_iff. right. cbn [negb andb]. apply Hall. intros i Hi. rewrite Hget.
    apply orb_true_iff. right. apply existsb_exists. exists i. split; [by apply list_elem_of_In | apply Z.eqb_refl].
Qed.

(** A filter that was cleared and not filled contains nothing; what was inserted is found again. *)
Lemma clear_wf f : 0 < Zlen (vData f) -> wf (clear f) /\ isFull (clear f) = false.
Proof. intros H. split; [| done]. right. unfold Zlen in *. cbn. by rewrite length_replicate. Qed.

(** Loading computes the flags from the bytes: no bytes is full. *)
Lemma UpdateEmptyFull_wf f : wf (UpdateEmptyFull f).
Proof.
  unfold wf, UpdateEmptyFull. cbn [isFull vData]. destruct (vData f) as [| b l]; [by left |]. right. unfold Zlen. cbn. lia.
Qed.


(** *** Scripts and transactions against a filter *)

(** [d] is an operand of the script, before anything that cannot be read. *)
Definition pushes (script d : list Z) : Prop := exists l c pc, run script (l ++ [(c, d)]) pc.
(** What the loop over a script looks for. *)
Definition names (f : CBloomFilter) (script : list Z) : Prop := exists d, pushes script d /\ d <> [] /\ has f d = true.

Lemma pushes_step b pc d r :
  r = GetOp2 (b :: pc) -> or_ok r = true -> pushes (b :: pc) d <-> d = or_data r \/ pushes (or_pc r) d.
Proof.
  intros -> Hok. pose proof (reads_ok _ Hok) as R. split.
  - intros (l & c & pc' & H). destruct l as [| i l]; cbn [app] in H; inversion H as [| ? ? ? ? ? R' H']; subst;
      destruct (reads_det _ _ _ _ _ R R') as [E <-]; [left; by injection E | right; by exists l, c, pc'].
  - intros [-> | (l & c & pc' & H)].
    + eexists [], _, _. cbn [app]. econstructor; [exact R | constructor].
    + eexists (_ :: l), c, pc'. cbn [app]. econstructor; [exact R | exact H].
Qed.

Lemma pushes_fail b pc d : or_ok (GetOp2 (b :: pc)) = false -> ~ pushes (b :: pc) d.
Proof.
  intros Hok (l & c & pc' & H). destruct l; cbn [app] in H; inversion H as [| ? ? ? ? ? (op & E & _) _]; subst; by rewrite E in Hok.
Qed.

Lemma script_matches_spec f script :
  wf f -> exists b, script_matches f script = Some b /\ (b = true <-> names f script).
Proof.
  intros Hw. remember (length script) as n eqn:En. assert (length script <= n)%nat as Hn by lia. clear En.
  revert script Hn. induction n as [| n IH]; intros [| b script] Hn; cbn [length] in Hn; try lia.
  1-2: exists false; split; [done |]; split; [done |]; intros (d & (l & c & pc & H) & _);
    destruct l; inversion H as [| ? ? ? ? ? (op & E & _) _]; done.
  unfold script_matches. rewrite scan_eq. fold (script_matches f (or_pc (GetOp2 (b :: script)))). unfold script_body at 1.
  destruct (or_ok (GetOp2 (b :: script))) eqn:Hok; cbn [negb].
  2: { exists false. split; [done |]. split; [done |]. intros (d & Hd & _). by destruct (pushes_fail b script d Hok). }
  pose proof (GetOp2_shorter b script) as Hs. destruct (IH (or_pc (GetOp2 (b :: script))) ltac:(lia)) as (b' & E & Hb).
  set (r := GetOp2 (b :: script)) in *. pose proof (fun d => pushes_step b script d r eq_refl Hok) as Hp.
  destruct (Z.eqb_spec (Zlen (or_data r)) 0) as [E0 | E0].
  - exists b'. split; [done |]. rewrite Hb. unfold names. setoid_rewrite Hp. assert (or_data r = []) as ->; [| naive_solver].
    destruct (or_data r); [done |]. unfold Zlen in E0. cbn in E0. lia.
  - rewrite contains_has by done. destruct (has f (or_data r)) eqn:Eh.
    + exists true. split; [done |]. split; [| done]. intros _. exists (or_data r). split; [apply Hp; by left |]. split; [| done].
      intros E1. by rewrite E1 in E0.
    + exists b'. split; [done |]. rewrite Hb. unfold names. setoid_rewrite Hp. naive_solver congruence.
Qed.

Lemma names_grows f f' script : grows f f' -> names f script -> names f' script.
Proof. intros G (d & Hd & Hne & Hh). exists d. split_and!; [done | done |]. by apply (gr_has _ _ G). Qed.

Section Relevant.
Context {HS : Hashes} (datacarrier : bool) (nMaxDatacarrierBytes : Z) (cc_enabled : bool) (MayAcceptCryptoCondition : list Z -> bool).
Abbreviation adds_output := (adds_output datacarrier nMaxDatacarrierBytes cc_enabled MayAcceptCryptoCondition).
Abbreviation match_outputs := (match_outputs datacarrier nMaxDatacarrierBytes cc_enabled MayAcceptCryptoCondition).
Abbreviation IsRelevantAndUpdate := (IsRelevantAndUpdate datacarrier nMaxDatacarrierBytes cc_enabled MayAcceptCryptoCondition).
Abbreviation match_block := (match_block datacarrier nMaxDatacarrierBytes cc_enabled MayAcceptCryptoCondition).
Abbreviation filtered_block := (filtered_block datacarrier nMaxDatacarrierBytes cc_enabled MayAcceptCryptoCondition).

(** The transaction has something the filter contains. *)
Definition touches (f : CBloomFilter) (tx : CTransaction) : Prop :=
  has f (TxCheck.GetHash tx) = true
  \/ (exists o, o ∈ vout tx /\ names f (scriptPubKey o))
  \/ (exists i, i ∈ vin tx /\ (has f (outpoint_bytes (prevout i)) = true \/ names f (scriptSig i))).

(** The output is one the filter is extended with. *)
Definition follows (f : CBloomFilter) (script : list Z) : Prop := names f script /\ adds_output f script = true.

Lemma follows_grows f f' script : grows f f' -> follows f script -> follows f' script.
Proof.
  intros G [Hn Ha]. split; [by apply (names_grows f) |]. unfold Bloom.adds_output in *. by rewrite (gr_flags _ _ G).
Qed.

Lemma match_outputs_spec f hash l i found :
  wf f -> exists b f', match_outputs f hash l i found = Some (b, f') /\ grows f f'
    /\ (found = true -> b = true)
    /\ (forall o, o ∈ l -> names f (scriptPubKey o) -> b = true)
    /\ (forall j o, l !! j = Some o -> follows f (scriptPubKey o) -> has f' (outpoint_bytes (OutPoint hash (Z.of_nat (i + j)))) = true)
    /\ (b = true -> found = true \/ exists o, o ∈ l /\ names f' (scriptPubKey o)).
Proof.
  revert f i found. induction l as [| o l IH]; intros f i found Hw; cbn [Bloom.match_outputs].
  { exists found, f. split; [done |]. split; [by apply grows_refl |]. split_and!; try done; [set_solver | by left]. }
  destruct (script_matches_spec f (scriptPubKey o) Hw) as (m & -> & Hm). cbn [mbind option_bind]. destruct m.
  - assert (exists f1, (if adds_output f (scriptPubKey o) then insert f (outpoint_bytes (OutPoint hash (Z.of_nat i))) else Some f) = Some f1
      /\ grows f f1 /\ (adds_output f (scriptPubKey o) = true -> has f1 (outpoint_bytes (OutPoint hash (Z.of_nat i))) = true)) as (f1 & -> & G1 & H1).
    { destruct (adds_output f (scriptPubKey o)).
      - destruct (insert_has f (outpoint_bytes (OutPoint hash (Z.of_nat i))) Hw) as (f1 & E & G & H). by exists f1.
      - exists f. split_and!; [done | by apply grows_refl | done]. }
    cbn [mbind option_bind]. destruct (IH f1 (i + 1)%nat true (gr_wf _ _ G1)) as (b & f' & E & G & Hf & Ho & Hj & Hs).
    exists b, f'. split; [done |]. split; [by apply (grows_trans _ f1) |]. split; [by intros _; apply Hf |]. split; [by intros; apply Hf |]. split.
    + intros [| j] o' Ej Hfo.
      * injection Ej as <-. rewrite Nat.add_0_r. apply (gr_has _ _ G), H1, Hfo.
      * replace (i + S j)%nat with (i + 1 + j)%nat by lia. apply (Hj j o' Ej). by apply (follows_grows f).
    + intros _. right. exists o. split; [set_solver |]. apply (names_grows f); [by apply (grows_trans _ f1) |]. by apply Hm.
  - destruct (IH f (i + 1)%nat found Hw) as (b & f' & E & G & Hf & Ho & Hj & Hs).
    assert (~ names f (scriptPubKey o)) as Hno by (intros Hn; by apply Hm in Hn).
    exists b, f'. split_and!; [done | done | done | | |].
    + intros o' [-> | Hin]%elem_of_cons Hn; [done | by apply (Ho o')].
    + intros [| j] o' Ej Hfo; [injection Ej as <-; by destruct Hfo |].
      replace (i + S j)%nat with (i + 1 + j)%nat by lia. by apply (Hj j o').
    + intros Hb. destruct (Hs Hb) as [| (o' & Hin & Hn)]; [by left | right; exists o'; split; [set_solver | done]].
Qed.

Lemma match_inputs_spec f l :
  wf f -> exists b, match_inputs f l = Some b
    /\ (b = true <-> exists i, i ∈ l /\ (has f (outpoint_bytes (prevout i)) = true \/ names f (scriptSig i))).
Proof.
  intros Hw. induction l as [| i l (b & E & Hb)]; cbn [match_inputs]; [exists false; set_solver |].
  rewrite contains_has by done. cbn [mbind option_bind]. destruct (has f (outpoint_bytes (prevout i))) eqn:Eh.
  { exists true. split; [done |]. split; [| done]. intros _. exists i. split; [set_solver | by left]. }
  destruct (script_matches_spec f (scriptSig i) Hw) as (m & -> & Hm). cbn [mbind option_bind]. destruct m.
  { exists true. split; [done |]. split; [| done]. intros _. exists i. split; [set_solver | right; by apply Hm]. }
  exists b. split; [done |]. rewrite Hb. split.
  - intros (i' & Hin & H). exists i'. split; [set_solver | done].
  - intros (i' & [-> | Hin]%elem_of_cons & H); [| by exists i']. exfalso. destruct H as [H | H]; [congruence |]. by apply Hm in H.
Qed.

(** What [IsRelevantAndUpdate] answers and does. *)
Lemma relevant_spec f tx :
  wf f -> exists b f', IsRelevantAndUpdate f tx = Some (b, f') /\ grows f f'
    /\ (touches f tx -> b = true)
    /\ (b = true -> isFull f = true \/ touches f' tx)
    /\ (forall j o, vout tx !! j = Some o -> follows f (scriptPubKey o) ->
          has f' (outpoint_bytes (OutPoint (TxCheck.GetHash tx) (Z.of_nat j))) = true).
Proof.
  intros Hw. unfold Bloom.IsRelevantAndUpdate. destruct (isFull f) eqn:Ef.
  { exists true, f. split_and!; [done | by apply grows_refl | done | by left | intros; unfold has; by rewrite Ef]. }
  destruct (isEmpty f) eqn:Ee.
  { assert (forall k, has f k = false) as Hnone by (intros; unfold has; by rewrite Ef, Ee).
    exists false, f. split; [done |]. split; [by apply grows_refl |]. unfold touches, follows, names. setoid_rewrite Hnone.
    split_and!; naive_solver. }
  rewrite contains_has by done. cbn [mbind option_bind].
  destruct (match_outputs_spec f (TxCheck.GetHash tx) (vout tx) 0 (has f (TxCheck.GetHash tx)) Hw) as (b & f' & -> & G & Hf & Ho & Hj & Hs).
  cbn [mbind option_bind]. destruct b.
  - exists true, f'. split_and!; [done | done | done | | done]. intros _. right.
    destruct (Hs eq_refl) as [H | H]; [left; by apply (gr_has _ _ G) | right; by left].
  - destruct (match_inputs_spec f' (vin tx) (gr_wf _ _ G)) as (b & -> & Hb). cbn [mbind option_bind]. exists b, f'.
    split; [done |]. split; [done |]. split; [| split; [| done]].
    + intros [H | [(o & Hin & H) | (i & Hin & H)]]; [by discriminate (Hf H) | by discriminate (Ho o Hin H) |]. apply Hb. exists i. split; [done |].
      destruct H as [H | H]; [left; by apply (gr_has _ _ G) | right; by apply (names_grows f)].
    + intros H. right. right. right. by apply Hb.
Qed.

(** *** Blocks *)

(** A transaction that the client of filter [f] has to see: it touches the filter, or it spends an
    output the filter follows of an earlier transaction of the block. *)
Definition wanted (f : CBloomFilter) (earlier : list CTransaction) (tx : CTransaction) : Prop :=
  touches f tx \/
  exists tx0 j o i, tx0 ∈ earlier /\ vout tx0 !! j = Some o /\ follows f (scriptPubKey o) /\ i ∈ vin tx
    /\ prevout i = OutPoint (TxCheck.GetHash tx0) (Z.of_nat j).

Lemma touches_grows f f' tx : grows f f' -> touches f tx -> touches f' tx.
Proof.
  intros G [H | [(o & Hin & H) | (i & Hin & H)]].
  - left. by apply (gr_has _ _ G).
  - right. left. exists o. split; [done |]. by apply (names_grows f).
  - right. right. exists i. split; [done |]. destruct H as [H | H]; [left; by apply (gr_has _ _ G) | right; by apply (names_grows f)].
Qed.

Lemma match_block_spec f vtx :
  wf f -> exists vMatch f', match_block f vtx = Some (vMatch, f') /\ length vMatch = length vtx /\ grows f f'
    /\ forall i tx, vtx !! i = Some tx -> wanted f (take i vtx) tx -> vMatch !! i = Some true.
Proof.
  revert f. induction vtx as [| tx vtx IH]; intros f Hw; cbn [Bloom.match_block].
  { exists [], f. split_and!; [done | done | by apply grows_refl | done]. }
  destruct (relevant_spec f tx Hw) as (b & f1 & -> & G1 & Ht & _ & Hfo). cbn [mbind option_bind].
  destruct (IH f1 (gr_wf _ _ G1)) as (vMatch & f2 & -> & Hl & G2 & Hm). cbn [mbind option_bind].
  exists (b :: vMatch), f2. split; [done |]. split; [cbn; by rewrite Hl |]. split; [by apply (grows_trans _ f1) |].
  intros [| i] tx' Ei Hwant; cbn in Ei.
  - injection Ei as <-. cbn. f_equal. destruct Hwant as [| (? & ? & ? & ? & Hin & _)]; [by apply Ht |]. by apply not_elem_of_nil in Hin.
  - cbn. apply (Hm i tx' Ei). destruct Hwant as [H | (tx0 & j & o & inp & Hin & Ej & Hf & Hinp & Ep)]; [left; by apply (touches_grows f) |].
    cbn [take] in Hin. apply elem_of_cons in Hin as [-> | Hin].
    + left. right. right. exists inp. split; [done |]. left. rewrite Ep. by apply (Hfo j o).
    + right. exists tx0, j, o, inp. split_and!; try done. by apply (follows_grows f).
Qed.

End Relevant.

Lemma chosen_true {A} (l : list A) m i x : l !! i = Some x -> m !! i = Some true -> x ∈ PartialFacts.chosen l m.
Proof.
  revert m i. induction l as [| y l IH]; intros [| b m] [| i] E1 E2; try done; cbn in E1, E2.
  - injection E1 as <-. injection E2 as ->. cbn. set_solver.
  - cbn. destruct b; [right |]; by apply (IH m i).
Qed.

(** *** The filter of a peer *)

Section Peer.
Context {HS : Hashes} (datacarrier : bool) (nMaxDatacarrierBytes : Z) (cc_enabled : bool) (MayAcceptCryptoCondition : list Z -> bool).
Abbreviation IsRelevantAndUpdate := (IsRelevantAndUpdate datacarrier nMaxDatacarrierBytes cc_enabled MayAcceptCryptoCondition).
Abbreviation filtered_block := (filtered_block datacarrier nMaxDatacarrierBytes cc_enabled MayAcceptCryptoCondition).

(** The filters a connection can have: a new one, changed by the messages of the peer, by the
    transactions that are relayed to it and by the blocks it asks for. *)
Inductive peer_filter : CBloomFilter -> Prop :=
  | peer_new : peer_filter new_filter
  | peer_message f msg f' misbehaving : peer_filter f -> receive f msg = Some (f', misbehaving) -> peer_filter f'
  | peer_relay f tx b f' : peer_filter f -> IsRelevantAndUpdate f tx = Some (b, f') -> peer_filter f'
  | peer_block Hash2 f vtx t f' : peer_filter f -> filtered_block Hash2 f vtx = Some (t, f') -> peer_filter f'.

Lemma receive_wf f msg : wf f -> exists f' misbehaving, receive f msg = Some (f', misbehaving) /\ wf f'.
Proof.
  intros Hw. destruct msg as [vRecv | vRecv |]; cbn [receive].
  - destruct (unser filter_codec vRecv) as [[g rest] |]; [| by eauto]. destruct (IsWithinSizeConstraints g); eauto using UpdateEmptyFull_wf.
  - destruct (unser bytevec vRecv) as [[d rest] |]; [| by eauto]. destruct (_ <? _); [by eauto |].
    destruct (insert_has f d Hw) as (f' & -> & G & _). cbn. eauto using gr_wf.
  - exists new_filter, 0. split; [done | by left].
Qed.

Lemma peer_filter_wf f : peer_filter f -> wf f.
Proof.
  induction 1 as [| f msg f' n _ IH E | f tx b f' _ IH E | Hash2 f vtx t f' _ IH E]; [by left | | |].
  - destruct (receive_wf f msg IH) as (g & m & E' & Hg). congruence.
  - destruct (relevant_spec datacarrier nMaxDatacarrierBytes cc_enabled MayAcceptCryptoCondition f tx IH) as (b' & g & E' & G & _).
    rewrite E in E'. injection E' as -> ->. apply G.
  - unfold Bloom.filtered_block in E.
    destruct (match_block_spec datacarrier nMaxDatacarrierBytes cc_enabled MayAcceptCryptoCondition f vtx IH) as (v & g & E' & _ & G & _).
    rewrite E' in E. cbn [mbind option_bind] in E. destruct (PartialMerkle.CPartialMerkleTree _ _ _); [| done]. injection E as <- <-. apply G.
Qed.

End Peer.

(** *** The rolling filter *)

Section Rolling.
Context (N size funcs tweak : Z) (HN : 0 < N < 2 ^ 31) (Hsize : 0 < size).

(** The filter contains the last [n] keys of a list that begins with the newest. *)
Definition recent (f : CBloomFilter) (newest : list (list Z)) (n : Z) : Prop :=
  Forall (fun k => has f k = true) (take (Z.to_nat n) newest).

(** A filter with bytes that never claims to be full. *)
Definition looked_into (f : CBloomFilter) : Prop := 0 < Zlen (vData f) /\ isFull f = false.

Record rolling_ok (r : CRollingBloomFilter) (newest : list (list Z)) : Prop := {
  ro_size : nBloomSize r = 2 * N;
  ro_count : 0 <= nInsertions r < 2 * N;
  ro_b1 : looked_into (b1 r);
  ro_b2 : looked_into (b2 r);
  ro_recent1 : recent (b1 r) newest (nInsertions r);
  ro_recent2 : recent (b2 r) newest (if nInsertions r <? N then nInsertions r + N else nInsertions r - N);
}.

Lemma recent_less f newest n m : m <= n -> recent f newest n -> recent f newest m.
Proof.
  intros Hm. unfold recent. replace (Z.to_nat m) with (Nat.min (Z.to_nat m) (Z.to_nat n)) by lia.
  rewrite <-take_take. by apply Forall_take.
Qed.

Lemma recent_insert f k newest n :
  looked_into f -> 0 <= n -> recent f newest n ->
  exists f', insert f k = Some f' /\ looked_into f' /\ recent f' (k :: newest) (n + 1).
Proof.
  intros [Hl Hf] Hn H. destruct (insert_has f k (or_intror Hl)) as (f' & E & [Gw Gf _ Gh] & Hk). exists f'. split; [done |].
  split; [split; [destruct Gw as [Gw |]; [congruence | done] | congruence] |].
  unfold recent. replace (Z.to_nat (n + 1)) with (S (Z.to_nat n)) by lia. cbn [take]. constructor; [done |].
  apply (Forall_impl _ _ _ H). intros x. apply Gh.
Qed.

Lemma clear_looked_into f : looked_into f -> looked_into (clear f).
Proof. intros [Hl _]. split; [| done]. unfold Zlen in *. cbn. by rewrite length_replicate. Qed.

Lemma recent_none f newest : recent f newest 0.
Proof. constructor. Qed.

Lemma rolling_insert_ok r newest k :
  rolling_ok r newest -> exists r', rolling_insert r k = Some r' /\ rolling_ok r' (k :: newest).
Proof using HN.
  intros [Es Hc H1 H2 R1 R2]. unfold rolling_insert. rewrite Es. replace (2 * N / 2) with N by (rewrite Z.mul_comm, Z.div_mul; lia).
  set (c := nInsertions r) in *. set (f1 := if c =? 0 then clear (b1 r) else b1 r).
  set (f2 := if negb (c =? 0) && (c =? N) then clear (b2 r) else b2 r).
  assert (looked_into f1 /\ recent f1 newest c) as [L1 Q1].
  { unfold f1. destruct (Z.eqb_spec c 0) as [-> |]; [| done]. split; [by apply clear_looked_into | apply recent_none]. }
  assert (looked_into f2 /\ recent f2 newest (if c <? N then c + N else c - N)) as [L2 Q2].
  { unfold f2. destruct (Z.eqb_spec c 0) as [-> |]; cbn [negb andb]; [done |]. destruct (Z.eqb_spec c N) as [-> |]; [| done].
    split; [by apply clear_looked_into |]. rewrite Z.ltb_irrefl, Z.sub_diag. apply recent_none. }
  destruct (recent_insert f1 k newest c L1 ltac:(lia) Q1) as (g1 & -> & M1 & S1). cbn [mbind option_bind].
  destruct (recent_insert f2 k newest (if c <? N then c + N else c - N) L2 ltac:(destruct (Z.ltb_spec c N); lia) Q2) as (g2 & -> & M2 & S2). cbn [mbind option_bind].
  eexists. split; [reflexivity |]. assert (u32 (c + 1) = c + 1) as -> by (unfold u32; rewrite Z.mod_small; lia).
  clear R1 R2 Q1 Q2. destruct (Z.eqb_spec (c + 1) (2 * N)) as [E | E].
  - constructor; cbn; [done | lia | done | done | apply recent_none |]. rewrite (proj2 (Z.ltb_lt 0 N)) by lia.
    revert S2. apply recent_less. destruct (Z.ltb_spec c N); lia.
  - constructor; cbn; [done | lia | done | done | done |]. revert S2. apply recent_less.
    destruct (Z.ltb_spec c N), (Z.ltb_spec (c + 1) N); lia.
Qed.

Lemma new_rolling_ok : rolling_ok (new_rolling N size funcs tweak) [].
Proof using HN Hsize.
  assert (u32 (N * 2) = 2 * N) as E by (unfold u32; rewrite Z.mod_small; lia).
  assert (looked_into (reset (private_filter size funcs 0) tweak)) as L.
  { split; [| done]. unfold Zlen. cbn. rewrite !length_replicate. lia. }
  constructor; cbn; [done | lia | done | done | apply recent_none |].
  unfold recent. by rewrite take_nil.
Qed.

Lemma rolling_insert_all_ok l r newest :
  rolling_ok r newest -> exists r', rolling_insert_all r l = Some r' /\ rolling_ok r' (reverse l ++ newest).
Proof using HN.
  revert r newest. induction l as [| k l IH]; intros r newest Hr; cbn [rolling_insert_all]; [by exists r |].
  destruct (rolling_insert_ok r newest k Hr) as (r1 & -> & H1). cbn [mbind option_bind].
  destruct (IH r1 _ H1) as (r' & E & H'). exists r'. split; [done |]. by rewrite reverse_cons, <-app_assoc.
Qed.

Lemma rolling_contains_ok r newest k :
  rolling_ok r newest -> k ∈ take (Z.to_nat N) newest -> rolling_contains r k = Some true.
Proof using HN.
  intros [Es Hc H1 H2 R1 R2] Hk. unfold rolling_contains. rewrite Es.
  replace (2 * N / 2) with N by (rewrite Z.mul_comm, Z.div_mul; lia).
  destruct (Z.ltb_spec (nInsertions r) N) as [Hlt | Hge].
  - rewrite contains_has by (right; apply H2). f_equal. apply (recent_less _ _ _ N) in R2; [| lia].
    unfold recent in R2. rewrite Forall_forall in R2. by apply R2.
  - rewrite contains_has by (right; apply H1). f_equal. apply (recent_less _ _ _ N) in R1; [| lia].
    unfold recent in R1. rewrite Forall_forall in R1. by apply R1.
Qed.

End Rolling.
End BloomFacts.

(** ** Theorems *)

Module BloomTheorems.
Import Bloom StandardFacts BloomFacts.

(** [C29] A light client is served: whatever its peer made of its filter by messages,
    relayed transactions and blocks, reducing a block of distinct transactions to the
    filter never divides by zero, and from the partial Merkle tree of the reduced
    block the client extracts the Merkle root and ids of the block, in their order, that include every transaction
    with something in the filter and, when the filter is updated, every transaction
    that spends an output which matched earlier in the block; unless two different pairs
    that are hashed for the Merkle root of this block have one hash. *)
Theorem filtered_block_serves {HS : Hashes} {LH : LawfulHashes} (datacarrier : bool) (nMaxDatacarrierBytes : Z) (cc_enabled : bool)
    (MayAcceptCryptoCondition : list Z -> bool) (Hash2 : list Z -> list Z -> list Z) (max : Z) (f : CBloomFilter) (vtx : list CTransaction) :
  peer_filter datacarrier nMaxDatacarrierBytes cc_enabled MayAcceptCryptoCondition f ->
  vtx <> [] -> NoDup (map TxCheck.GetHash vtx) -> Zlen vtx <= max / 60 -> max <= 2 ^ 28 -> (forall a b, valid (blob 32) (Hash2 a b)) ->
  exists t f', filtered_block datacarrier nMaxDatacarrierBytes cc_enabled MayAcceptCryptoCondition Hash2 f vtx = Some (t, f')
    /\ (collides Hash2 (merkle_pairs Hash2 (map TxCheck.GetHash vtx)) (merkle_pairs Hash2 (map TxCheck.GetHash vtx))
        \/ exists ids, PartialMerkle.ExtractMatches Hash2 max t = Some (merkle_root Hash2 (map TxCheck.GetHash vtx), ids, false)
        /\ ids `sublist_of` map TxCheck.GetHash vtx
        /\ forall i tx, vtx !! i = Some tx ->
             wanted datacarrier nMaxDatacarrierBytes cc_enabled MayAcceptCryptoCondition f (take i vtx) tx -> TxCheck.GetHash tx ∈ ids).
Proof.
  intros Hp Hne Hnd Hs Hm Hh. unfold filtered_block.
  destruct (match_block_spec datacarrier nMaxDatacarrierBytes cc_enabled MayAcceptCryptoCondition f vtx) as (vMatch & f' & -> & Hl & _ & Hw);
    [by apply peer_filter_wf in Hp |]. cbn [mbind option_bind].
  destruct (PartialFacts.proof_extracts Hash2 (map TxCheck.GetHash vtx) vMatch max) as (t & bytes & t1 & -> & _ & _ & Hr); try done.
  - by destruct vtx.
  - by rewrite length_map.
  - unfold Zlen in *. by rewrite length_map.
  - apply Forall_map, Forall_forall. intros tx _. split; [apply sha256_ok | apply length_sha256].
  - exists t, f'. split; [done |]. destruct Hr as [Hc | [E _]]; [by left | right]. eexists. split; [exact E |].
    split; [apply PartialFacts.chosen_sublist |]. intros i tx Ei Hi. apply (chosen_true _ _ i); [rewrite list_lookup_fmap, Ei; done | by apply (Hw i tx)].
Qed.

(** The rolling filter remembers: a filter made for [nElements] contains, after
    any sequence of insertions, each of the last [nElements] keys that were inserted,
    although its two halves are cleared in turn; no insertion divides by zero. *)
Theorem rolling_remembers (nElements size funcs tweak : Z) (l : list (list Z)) :
  0 < nElements < 2 ^ 31 -> 0 < size ->
  exists r, rolling_insert_all (new_rolling nElements size funcs tweak) l = Some r
    /\ forall k, k ∈ take (Z.to_nat nElements) (reverse l) -> rolling_contains r k = Some true.
Proof.
  intros HN Hs. destruct (rolling_insert_all_ok nElements HN l _ [] (new_rolling_ok nElements size funcs tweak HN Hs)) as (r & E & Hr).
  exists r. split; [done |]. rewrite app_nil_r in Hr. intros k. by apply (rolling_contains_ok nElements HN).
Qed.

(** *** Messages *)

Lemma lawful_uint8 : lawful uint8.
Proof.
  split; cbn [uint8 valid ser unser].
  - intros x Hx. exists [x]. split; [done |]. intros rest. done.
  - intros s x rest Hs H. apply reader_bind_inv in H as (l & s1 & H1 & H2). injection H2 as <- <-.
    destruct (law_only _ (lawful_blob 1) s l s1 Hs H1) as [[Hl Hn] (bytes & [= <-] & ->)].
    destruct l as [| b [|]]; try done. split; [by apply Forall_inv in Hl | by exists [b]].
Qed.
#[local] Hint Resolve lawful_uint8 : lawful.

(** A filter has one encoding. *)
Lemma lawful_filter : lawful filter_codec.
Proof. unfold filter_codec. lawful_seq. Qed.

(** A key that the peer adds is found, and what was found before still is. *)
Lemma filteradd_found (f : CBloomFilter) (d bytes : list Z) :
  wf f -> valid bytevec d -> Zlen d <= MAX_SCRIPT_ELEMENT_SIZE -> ser bytevec d = Some bytes ->
  exists f', receive f (filteradd bytes) = Some (f', 0) /\ contains f' d = Some true
    /\ forall k, contains f k = Some true -> contains f' k = Some true.
Proof.
  intros Hw Hv Hl Hs. destruct (law_read _ lawful_bytevec d Hv) as (b & Eb & Hr). assert (b = bytes) as -> by congruence.
  specialize (Hr []). rewrite app_nil_r in Hr. cbn [receive]. rewrite Hr. rewrite (proj2 (Z.ltb_ge _ _)) by done.
  destruct (insert_has f d Hw) as (f' & -> & G & H). cbn [mbind option_bind]. exists f'. split; [done |].
  rewrite !contains_has by apply G. rewrite H. split; [done |]. intros k. rewrite !contains_has by (done || apply G).
  intros [= Hk]. f_equal. by apply (gr_has _ _ G).
Qed.

(** The vectors of the unit test of MurmurHash3 ([hash_tests.cpp]). *)
Lemma murmur_vectors :
  MurmurHash3 0 [] = 0 /\ MurmurHash3 0xFBA4C795 [] = 0x6a396f08 /\ MurmurHash3 0xffffffff [] = 0x81f16f39
  /\ MurmurHash3 0 [0] = 0x514e28b7 /\ MurmurHash3 0xFBA4C795 [0] = 0xea3f0b17 /\ MurmurHash3 0 [0xff] = 0xfd6cf10d
  /\ MurmurHash3 0 [0; 0x11] = 0x16c6b7ab /\ MurmurHash3 0 [0; 0x11; 0x22] = 0x8eb51c3d
  /\ MurmurHash3 0 [0; 0x11; 0x22; 0x33] = 0xb4471bf8 /\ MurmurHash3 0 [0; 0x11; 0x22; 0x33; 0x44] = 0xe2301fa8
  /\ MurmurHash3 0 [0; 0x11; 0x22; 0x33; 0x44; 0x55; 0x66; 0x77; 0x88] = 0xb4698def.
Proof. split_and!; vm_compute; reflexivity. Qed.

(** *** A client that follows an output *)

#[local] Instance sum_hashes : Hashes := {|
  ripemd160 msg := le_bytes 20 (le_num msg); sha1 msg := le_bytes 20 (le_num msg); sha256 msg := le_bytes 32 (3 * le_num msg + 1) |}.
#[local] Instance sum_hashes_lawful : LawfulHashes.
Proof. split; intros msg; first [apply length_le_bytes | apply le_bytes_ok]. Qed.

Definition id9 : list Z := replicate 20 9.
Definition paying : CTransaction :=
  Tx true 4 SAPLING_VERSION_GROUP_ID [TxIn (OutPoint (replicate 32 1) 0) [] 0] [TxOut 70 (ScriptSpec.p2pkh id9)] 0 0 0
     [] [] [] (replicate 32 0) (replicate 64 0) (replicate 64 0).
Definition spending : CTransaction :=
  Tx true 4 SAPLING_VERSION_GROUP_ID [TxIn (OutPoint (TxCheck.GetHash paying) 0) [] 0] [TxOut 60 [code OP_1]] 0 0 0
     [] [] [] (replicate 32 0) (replicate 64 0) (replicate 64 0).
Definition loaded : CBloomFilter := Filter (replicate 8 0) false true 3 5 BLOOM_UPDATE_ALL.
Definition client : CBloomFilter := default new_filter (insert loaded id9).

Lemma client_peer : peer_filter true 80 false (fun _ => true) client.
Proof.
  apply (peer_message _ _ _ _ loaded (filteradd (20 :: id9)) _ 0); [| by vm_compute].
  by apply (peer_message _ _ _ _ new_filter (filterload (8 :: replicate 8 0 ++ le_bytes 4 3 ++ le_bytes 4 5 ++ [1])) _ 0); [constructor |].
Qed.

Lemma block_distinct :
  let l := map TxCheck.GetHash [paying; spending] in
  ~ collides PartialTheorems.toy_hash2 (merkle_pairs PartialTheorems.toy_hash2 l) (merkle_pairs PartialTheorems.toy_hash2 l).
Proof. apply no_collision. by vm_compute. Qed.

Lemma filtered_block_serves_witness :
  exists t f', filtered_block true 80 false (fun _ => true) PartialTheorems.toy_hash2 client [paying; spending] = Some (t, f')
    /\ (exists ids,
          PartialMerkle.ExtractMatches PartialTheorems.toy_hash2 4194304 t =
            Some (merkle_root PartialTheorems.toy_hash2 (map TxCheck.GetHash [paying; spending]), ids, false)
          /\ ids `sublist_of` map TxCheck.GetHash [paying; spending]
          /\ forall i tx, [paying; spending] !! i = Some tx ->
               wanted true 80 false (fun _ => true) client (take i [paying; spending]) tx -> TxCheck.GetHash tx ∈ ids).
Proof.
  destruct (filtered_block_serves true 80 false (fun _ => true) PartialTheorems.toy_hash2 4194304 client [paying; spending])
    as (t & f' & E & [Hc | H]);
    [apply client_peer | done | apply (bool_decide_unpack (NoDup _)); by vm_compute | by vm_compute | by vm_compute
    | intros a b; split; [apply le_bytes_ok | apply length_le_bytes] | |].
  - by destruct (block_distinct Hc).
  - exists t, f'. exact (conj E H).
Defined.

Lemma rolling_remembers_witness :
  exists r, rolling_insert_all (new_rolling 2 4 3 7) [[1]; [2]; [3]; [4]; [5]; [6]; [7]] = Some r
    /\ forall k, k ∈ take 2 (reverse [[1]; [2]; [3]; [4]; [5]; [6]; [7]]) -> rolling_contains r k = Some true.
Proof. apply (rolling_remembers 2 4 3 7); lia. Defined.

(** The spending transaction is wanted, and it is found. *)
Lemma spending_followed :
  match_block true 80 false (fun _ => true) client [paying; spending; paying] = Some ([true; true; true], default new_filter (insert client (outpoint_bytes (OutPoint (TxCheck.GetHash paying) 0))))
  /\ (match_block true 80 false (fun _ => true) client [spending]) ≫= (fun r => Some r.1) = Some [false].
Proof. split; vm_compute; reflexivity. Qed.

End BloomTheorems.
