(* ===== verification/Mempool.v ===== *)
(** * The memory pool (src/src/txmempool.h, txmempool.cpp, main.cpp)

    The transactions that wait for a block, with the indexes from the outputs they
    spend and the nullifiers they reveal back to them.  Modelled are the entries,
    the maps, adding and removing transactions one by one, with their descendants,
    for a block, for a reorganisation, for an anchor and for a branch, the checks
    that [AcceptToMemoryPool] makes against the pool, and the view of coins through
    the pool. *)
From S2P Require Import Prelude Coins Script Interp Tx TxCheck Utxo Inputs.
Import Tx.
Local Open Scope Z_scope.

Module Mempool.

Definition MEMPOOL_HEIGHT : Z := 0x7FFFFFFF.

(** [CTxMemPoolEntry], without the priority (a floating-point number). *)
Record CTxMemPoolEntry := Entry {
  e_tx : CTransaction; nFee : Z; nTxSize : Z; nUsageSize : Z; nTime : Z; nEntryHeight : Z;
  hadNoDependencies : bool; spendsCoinbase : bool; nBranchId : Z }.

(** [CInPoint].  A pointer to a transaction of the pool is the hash that finds it in [mapTx]. *)
Record CInPoint := InPoint { ptx : list Z; in_n : Z }.

(** A [COutPoint] as a key. *)
Abbreviation outpoint_key := (list Z * Z)%type.

Record CTxMemPool := Pool {
  mapTx : gmap (list Z) CTxMemPoolEntry;
  mapNextTx : gmap outpoint_key CInPoint;
  mapSaplingNullifiers : gmap (list Z) (list Z);
  mapRecentlyAddedTx : gset (list Z);
  mapDeltas : gmap (list Z) Z;
  totalTxSize : Z;
  cachedInnerUsage : Z;
  nTransactionsUpdated : Z;
  nRecentlyAddedSequence : Z;
  nNotifiedSequence : Z;
}.

Definition new_pool : CTxMemPool := Pool ∅ ∅ ∅ ∅ ∅ 0 0 0 0 0.

Section Pool.
Context {HS : Hashes} (pegs : bool).

Abbreviation GetHash := TxCheck.GetHash.
Definition pool_IsPegsImport (tx : CTransaction) : bool := Utxo.IsPegsImport pegs (TxCheck.ctx_of tx).

(** *** Looking up *)

Definition exists_ (p : CTxMemPool) (hash : list Z) : bool := bool_decide (is_Some (mapTx p !! hash)).
Definition lookup_tx (p : CTxMemPool) (hash : list Z) : option CTransaction := e_tx <$> mapTx p !! hash.
Definition nullifierExists (p : CTxMemPool) (nullifier : list Z) : bool := bool_decide (is_Some (mapSaplingNullifiers p !! nullifier)).
Definition HasNoInputsOf (p : CTxMemPool) (tx : CTransaction) : bool := forallb (fun i => negb (exists_ p (hash (prevout i)))) (vin tx).

(** *** Adding *)

(** The inputs that are entered into [mapNextTx], with their positions. *)
Fixpoint number_inputs (i : Z) (l : list CTxIn) : list (outpoint_key * Z) :=
  match l with [] => [] | inp :: l => (TxCheck.prevout_key (prevout inp), i) :: number_inputs (i + 1) l end.
Definition spent_inputs (tx : CTransaction) : list (outpoint_key * Z) :=
  if TxCheck.IsCoinImport tx then []
  else let l := number_inputs 0 (vin tx) in if pool_IsPegsImport tx then drop 1 l else l.

(** [addUnchecked]; [None] is a hash that is not that of the entry, and not in the pool. *)
Definition addUnchecked (p : CTxMemPool) (hash : list Z) (entry : CTxMemPoolEntry) : option CTxMemPool :=
  let h := GetHash (e_tx entry) in
  let mapTx := match mapTx p !! h with Some _ => mapTx p | None => <[h := entry]> (mapTx p) end in
  e ← mapTx !! hash;
  let tx := e_tx e in
  Some (Pool mapTx
    (fold_left (fun m oi => <[oi.1 := InPoint hash oi.2]> m) (spent_inputs tx) (mapNextTx p))
    (fold_left (fun m s => <[sp_nullifier s := hash]> m) (vShieldedSpend tx) (mapSaplingNullifiers p))
    ({[GetHash tx]} ∪ mapRecentlyAddedTx p)
    (mapDeltas p)
    (u64 (totalTxSize p + nTxSize entry))
    (u64 (cachedInnerUsage p + nUsageSize entry))
    (u32 (nTransactionsUpdated p + 1))
    (u64 (nRecentlyAddedSequence p + 1))
    (nNotifiedSequence p)).

(** *** Removing *)

(** The transactions of the pool that spend an output [0 .. n-1] of [hash]: one loop over the outputs. *)
Definition spenders (p : CTxMemPool) (hash : list Z) (n : nat) : list (list Z) :=
  omap (fun i => ptx <$> mapNextTx p !! (hash, Z.of_nat i)) (seq 0 n).

(** One transaction is taken out of the maps. *)
Definition remove_entry (p : CTxMemPool) (hash : list Z) (e : CTxMemPoolEntry) : CTxMemPool :=
  let tx := e_tx e in
  Pool (delete hash (mapTx p))
    (fold_left (fun m i => delete (TxCheck.prevout_key (prevout i)) m) (vin tx) (mapNextTx p))
    (fold_left (fun m s => delete (sp_nullifier s) m) (vShieldedSpend tx) (mapSaplingNullifiers p))
    (mapRecentlyAddedTx p ∖ {[hash]})
    (mapDeltas p)
    (u64 (totalTxSize p - nTxSize e))
    (u64 (cachedInnerUsage p - nUsageSize e))
    (u32 (nTransactionsUpdated p + 1))
    (nRecentlyAddedSequence p)
    (nNotifiedSequence p).

(** [while (!txToRemove.empty())]: the pool and [removed]; [None] when the turns are used up. *)
Fixpoint remove_loop (turns : nat) (fRecursive : bool) (txToRemove : list (list Z)) (p : CTxMemPool) (removed : list CTransaction) :
    option (CTxMemPool * list CTransaction) :=
  match txToRemove, turns with
  | [], _ => Some (p, removed)
  | _ :: _, O => None
  | hash :: txToRemove, S turns =>
      match mapTx p !! hash with
      | None => remove_loop turns fRecursive txToRemove p removed
      | Some e =>
          let txToRemove := if fRecursive then txToRemove ++ spenders p hash (length (vout (e_tx e))) else txToRemove in
          remove_loop turns fRecursive txToRemove (remove_entry p hash e) (removed ++ [e_tx e])
      end
  end.

(** The outputs of the transactions of the pool. *)
Definition pool_outputs (p : CTxMemPool) : nat := map_fold (fun _ e n => length (vout (e_tx e)) + n)%nat 0%nat (mapTx p).

Definition remove_roots (p : CTxMemPool) (origTx : CTransaction) (fRecursive : bool) : list (list Z) :=
  let h := GetHash origTx in
  h :: (if fRecursive && negb (exists_ p h) then spenders p h (length (vout origTx)) else []).

(** [remove].  Every turn takes a hash from the list, and puts there at most one for each output of a
    transaction that leaves the pool: this many turns are enough ([remove_ends]). *)
Definition remove (p : CTxMemPool) (origTx : CTransaction) (removed : list CTransaction) (fRecursive : bool) :
    option (CTxMemPool * list CTransaction) :=
  let txToRemove := remove_roots p origTx fRecursive in
  remove_loop (length txToRemove + pool_outputs p) fRecursive txToRemove p removed.

(** [remove(tx, removed, true)] for each of a list. *)
Fixpoint remove_all (p : CTxMemPool) (l : list CTransaction) : option CTxMemPool :=
  match l with [] => Some p | tx :: l => '(p, _) ← remove p tx [] true; remove_all p l end.

(** The transactions of the pool that satisfy a test (in an order that does not matter, [remove_all_exact]). *)
Definition select (p : CTxMemPool) (test : CTxMemPoolEntry -> bool) : list CTransaction :=
  map e_tx (List.filter test (map snd (map_to_list (mapTx p)))).

Definition removeWithAnchor (p : CTxMemPool) (invalidRoot : list Z) : option CTxMemPool :=
  remove_all p (select p (fun e => existsb (fun s => bool_decide (sp_anchor s = invalidRoot)) (vShieldedSpend (e_tx e)))).
Definition removeWithoutBranchId (p : CTxMemPool) (nMemPoolBranchId : Z) : option CTxMemPool :=
  remove_all p (select p (fun e => negb (nBranchId e =? nMemPoolBranchId))).

(** The input loop of [removeForReorg]: does an input spend a coin that is gone or not mature? *)
Section Reorg.
(** [CheckFinalTx], [pcoins->AccessCoins], [hush_block_unlocktime], [COINBASE_MATURITY], [ASSETCHAINS_TIMELOCKGTE]. *)
Context (CheckFinalTx : CTransaction -> bool) (AccessCoins : list Z -> option coins) (unlocktime : Z -> Z) (maturity_ TIMELOCKGTE : Z).
Definition immature (nMemPoolHeight : Z) (c : option coins) : bool :=
  match c with
  | None => true
  | Some c =>
      fCoinBase c && (nMemPoolHeight - nHeight c <? maturity_)
      && ((nMemPoolHeight <? unlocktime (nHeight c)) && IsAvailable c 0
          && (TIMELOCKGTE <=? u64 (nValue (default SetNull (Coins.vout c !! 0%nat)))))
  end.
Definition reorg_test (p : CTxMemPool) (nMemPoolHeight : Z) (e : CTxMemPoolEntry) : bool :=
  if negb (CheckFinalTx (e_tx e)) then true
  else spendsCoinbase e
       && existsb (fun i => negb (exists_ p (hash (prevout i))) && immature nMemPoolHeight (AccessCoins (hash (prevout i)))) (vin (e_tx e)).
Definition removeForReorg (p : CTxMemPool) (nMemPoolHeight : Z) : option CTxMemPool :=
  remove_all p (select p (reorg_test p nMemPoolHeight)).
End Reorg.

(** [removeExpired]: the list it goes through is always empty. *)
Definition removeExpired (p : CTxMemPool) (nBlockHeight : Z) : option (CTxMemPool * list (list Z)) :=
  p ← remove_all p []; Some (p, []).

(** The two loops of [removeConflicts]; [None] is also a pointer to a transaction that is not in the pool. *)
Definition remove_conflict (p : CTxMemPool) (tx : CTransaction) (conflict : option (list Z)) (removed : list CTransaction) :
    option (CTxMemPool * list CTransaction) :=
  match conflict with
  | None => Some (p, removed)
  | Some h =>
      e ← mapTx p !! h;
      if bool_decide (GetHash (e_tx e) = GetHash tx) then Some (p, removed) else remove p (e_tx e) removed true
  end.
Fixpoint conflict_inputs (p : CTxMemPool) (tx : CTransaction) (l : list CTxIn) (removed : list CTransaction) :
    option (CTxMemPool * list CTransaction) :=
  match l with
  | [] => Some (p, removed)
  | i :: l =>
      '(p, removed) ← remove_conflict p tx (ptx <$> mapNextTx p !! TxCheck.prevout_key (prevout i)) removed;
      conflict_inputs p tx l removed
  end.
Fixpoint conflict_spends (p : CTxMemPool) (tx : CTransaction) (l : list SpendDescription) (removed : list CTransaction) :
    option (CTxMemPool * list CTransaction) :=
  match l with
  | [] => Some (p, removed)
  | s :: l =>
      '(p, removed) ← remove_conflict p tx (mapSaplingNullifiers p !! sp_nullifier s) removed;
      conflict_spends p tx l removed
  end.
Definition removeConflicts (p : CTxMemPool) (tx : CTransaction) (removed : list CTransaction) : option (CTxMemPool * list CTransaction) :=
  '(p, removed) ← conflict_inputs p tx (vin tx) removed; conflict_spends p tx (vShieldedSpend tx) removed.

Definition with_deltas (p : CTxMemPool) (d : gmap (list Z) Z) : CTxMemPool :=
  Pool (mapTx p) (mapNextTx p) (mapSaplingNullifiers p) (mapRecentlyAddedTx p) d (totalTxSize p) (cachedInnerUsage p)
    (nTransactionsUpdated p) (nRecentlyAddedSequence p) (nNotifiedSequence p).
Definition ClearPrioritisation (p : CTxMemPool) (hash : list Z) : CTxMemPool := with_deltas p (delete hash (mapDeltas p)).
(** [PrioritiseTransaction] and [ApplyDeltas], the part on fees. *)
Definition PrioritiseTransaction (p : CTxMemPool) (hash : list Z) (nFeeDelta : Z) : CTxMemPool :=
  with_deltas p (<[hash := s64 (default 0 (mapDeltas p !! hash) + nFeeDelta)]> (mapDeltas p)).
Definition ApplyDeltas (p : CTxMemPool) (hash : list Z) (nFeeDelta : Z) : Z :=
  match mapDeltas p !! hash with None => nFeeDelta | Some d => s64 (nFeeDelta + d) end.

(** [removeForBlock]: the pool and [conflicts]. *)
Fixpoint removeForBlock (p : CTxMemPool) (vtx : list CTransaction) (conflicts : list CTransaction) : option (CTxMemPool * list CTransaction) :=
  match vtx with
  | [] => Some (p, conflicts)
  | tx :: vtx =>
      '(p, _) ← remove p tx [] false;
      '(p, conflicts) ← removeConflicts p tx conflicts;
      removeForBlock (ClearPrioritisation p (GetHash tx)) vtx conflicts
  end.

Definition clear (p : CTxMemPool) : CTxMemPool :=
  Pool ∅ ∅ (mapSaplingNullifiers p) (mapRecentlyAddedTx p) (mapDeltas p) 0 0 (u32 (nTransactionsUpdated p + 1))
    (nRecentlyAddedSequence p) (nNotifiedSequence p).

(** [DrainRecentlyAdded]; [None] is a pointer to a transaction that is not in the pool. *)
Definition DrainRecentlyAdded (p : CTxMemPool) : option (list CTransaction * Z * CTxMemPool) :=
  txs ← mapM (fun h => e_tx <$> mapTx p !! h) (elements (mapRecentlyAddedTx p));
  Some (txs, nRecentlyAddedSequence p,
        Pool (mapTx p) (mapNextTx p) (mapSaplingNullifiers p) ∅ (mapDeltas p) (totalTxSize p) (cachedInnerUsage p)
          (nTransactionsUpdated p) (nRecentlyAddedSequence p) (nNotifiedSequence p)).
Definition SetNotifiedSequence (p : CTxMemPool) (recentlyAddedSequence : Z) : CTxMemPool :=
  Pool (mapTx p) (mapNextTx p) (mapSaplingNullifiers p) (mapRecentlyAddedTx p) (mapDeltas p) (totalTxSize p) (cachedInnerUsage p)
    (nTransactionsUpdated p) (nRecentlyAddedSequence p) recentlyAddedSequence.
Definition IsFullyNotified (p : CTxMemPool) : bool := nRecentlyAddedSequence p =? nNotifiedSequence p.

(** *** [AcceptToMemoryPool]: the checks against the pool *)

Definition pool_admits (p : CTxMemPool) (tx : CTransaction) : bool :=
  negb (exists_ p (GetHash tx))
  && forallb (fun i => negb (bool_decide (is_Some (mapNextTx p !! TxCheck.prevout_key (prevout i))))) (vin tx)
  && forallb (fun s => negb (nullifierExists p (sp_nullifier s))) (vShieldedSpend tx).

(** *** The view of coins through the pool *)

(** [pruneSpent]: the outputs of [hashTx] that the pool spends are removed from [coins]. *)
Definition pruneSpent (p : CTxMemPool) (hashTx : list Z) (c : coins) : coins :=
  foldr (fun o c => if bool_decide (o.1 = hashTx) then (Coins.Spend c (Z.to_nat o.2)).2 else c) c (elements (dom (mapNextTx p))).
Definition view_GetCoins (p : CTxMemPool) (base : list Z -> option coins) (txid : list Z) : option coins :=
  match lookup_tx p txid with
  | Some tx => Some (FromTx (TxCheck.IsCoinBase tx) (vout tx) (nVersion tx) MEMPOOL_HEIGHT)
  | None => c ← base txid; if IsPruned c then None else Some c
  end.
Definition view_HaveCoins (p : CTxMemPool) (base : list Z -> bool) (txid : list Z) : bool := exists_ p txid || base txid.
Definition view_GetNullifier (p : CTxMemPool) (base : list Z -> bool) (nf : list Z) : bool := nullifierExists p nf || base nf.

(** *** [check]: the assertions about the maps *)

Fixpoint check_marked (p : CTxMemPool) (h : list Z) (l : list (outpoint_key * Z)) : bool :=
  match l with
  | [] => true
  | (o, i) :: l => match mapNextTx p !! o with Some x => bool_decide (ptx x = h) && (in_n x =? i) | None => false end && check_marked p h l
  end.
Definition check_next (p : CTxMemPool) : bool :=
  forallb (fun '(o, x) => match mapTx p !! ptx x with
                          | None => false
                          | Some e => match vin (e_tx e) !! Z.to_nat (in_n x) with
                                      | Some i => bool_decide (TxCheck.prevout_key (prevout i) = o)
                                      | None => false
                                      end
                          end) (map_to_list (mapNextTx p)).
Definition checkNullifiers (p : CTxMemPool) : bool :=
  forallb (fun '(_, h) => exists_ p h) (map_to_list (mapSaplingNullifiers p)).
Definition check_maps (p : CTxMemPool) : bool :=
  forallb (fun '(h, e) => check_marked p h (number_inputs 0 (vin (e_tx e)))) (map_to_list (mapTx p))
  && check_next p && checkNullifiers p
  && (totalTxSize p =? fold_left (fun n he => u64 (n + nTxSize he.2)) (map_to_list (mapTx p)) 0)
  && (cachedInnerUsage p =? fold_left (fun n he => u64 (n + nUsageSize he.2)) (map_to_list (mapTx p)) 0).

End Pool.
End Mempool.

(** ** The pool and its indexes *)

Module MempoolFacts.
Import Mempool.

(** *** Maps *)

Section Maps.
Context {K : Type} `{Countable K} {A B : Type}.
Implicit Types m : gmap K A.

Lemma fold_delete_lookup (key : B -> K) (l : list B) m k :
  fold_left (fun m b => delete (key b) m) l m !! k = if bool_decide (k ∈ map key l) then None else m !! k.
Proof.
  revert m. induction l as [| b l IH]; intros m; cbn [fold_left map]; [by rewrite bool_decide_false by apply not_elem_of_nil |].
  rewrite IH. destruct (decide (k ∈ map key l)) as [Hin | Hin].
  - rewrite !bool_decide_true; [done | by right | done].
  - rewrite (bool_decide_false (k ∈ map key l)) by done. destruct (decide (k = key b)) as [-> | Hne].
    + rewrite bool_decide_true by left. by rewrite lookup_delete_eq.
    + rewrite bool_decide_false by (intros [? | ?]%elem_of_cons; done). by rewrite lookup_delete_ne.
Qed.

Lemma fold_insert_out (key : B -> K) (val : B -> A) (l : list B) m k :
  k ∉ map key l -> fold_left (fun m b => <[key b := val b]> m) l m !! k = m !! k.
Proof.
  revert m. induction l as [| b l IH]; intros m Hk; cbn [fold_left map] in *; [done |]. apply not_elem_of_cons in Hk as [Hne Hk].
  rewrite IH by done. by rewrite lookup_insert_ne.
Qed.

Lemma fold_insert_in (key : B -> K) (val : B -> A) (l : list B) m b :
  NoDup (map key l) -> b ∈ l -> fold_left (fun m b => <[key b := val b]> m) l m !! key b = Some (val b).
Proof.
  revert m. induction l as [| b' l IH]; intros m Hnd Hin; cbn [fold_left map] in *; [by apply elem_of_nil in Hin |].
  apply NoDup_cons in Hnd as [Hno Hnd]. apply elem_of_cons in Hin as [-> | Hin]; [| by apply IH].
  rewrite fold_insert_out by done. by rewrite lookup_insert_eq.
Qed.
End Maps.

(** Sums over a map. *)
Section Sums.
Context {A : Type} (g : A -> Z).
Definition msum (m : gmap (list Z) A) : Z := map_fold (fun _ a n => g a + n) 0 m.

Lemma msum_empty : msum ∅ = 0.
Proof. apply map_fold_empty. Qed.
Lemma msum_insert m k a : m !! k = None -> msum (<[k := a]> m) = g a + msum m.
Proof. intros Hk. unfold msum. apply (map_fold_insert_L (fun _ a n => g a + n)); [intros; lia | done]. Qed.
Lemma msum_delete m k a : m !! k = Some a -> msum (delete k m) = msum m - g a.
Proof.
  intros Hk. rewrite <-(insert_delete_id m k a Hk) at 2. rewrite msum_insert by apply lookup_delete_eq. lia.
Qed.
End Sums.

Lemma u64_sub_l a b : u64 (u64 a - b) = u64 (a - b).
Proof. unfold u64. by rewrite Zminus_mod_idemp_l. Qed.

Section Facts.
Context {HS : Hashes} (pegs : bool).
Abbreviation spent_inputs := (spent_inputs pegs).
Abbreviation addUnchecked := (addUnchecked pegs).

Definition input_keys (tx : CTransaction) : list outpoint_key := map (fun i => TxCheck.prevout_key (prevout i)) (vin tx).
Definition nullifiers (tx : CTransaction) : list (list Z) := map sp_nullifier (vShieldedSpend tx).

(** The transaction spends the output [o] by its input [i]. *)
Definition spends (tx : CTransaction) (o : outpoint_key) (i : Z) : Prop := (o, i) ∈ spent_inputs tx.

(** Distinct inputs and nullifiers, and no input, but the first of an import, with the position that marks imports. *)
Record fits (tx : CTransaction) : Prop := {
  fit_inputs : NoDup (input_keys tx);
  fit_nullifiers : NoDup (nullifiers tx);
  fit_usual o i : spends tx o i -> o.2 <> Utxo.import_n;
}.

Record pool_ok (p : CTxMemPool) : Prop := {
  po_tx h e : mapTx p !! h = Some e -> TxCheck.GetHash (e_tx e) = h /\ fits (e_tx e);
  po_next o x : mapNextTx p !! o = Some x <-> exists e, mapTx p !! ptx x = Some e /\ spends (e_tx e) o (in_n x);
  po_nullifier nf h : mapSaplingNullifiers p !! nf = Some h <-> exists e, mapTx p !! h = Some e /\ nf ∈ nullifiers (e_tx e);
  po_recent h : h ∈ mapRecentlyAddedTx p -> is_Some (mapTx p !! h);
  po_size : totalTxSize p = u64 (msum nTxSize (mapTx p));
  po_usage : cachedInnerUsage p = u64 (msum nUsageSize (mapTx p));
}.

(** *** Inputs *)

Lemma number_keys i l : map fst (number_inputs i l) = map (fun i => TxCheck.prevout_key (prevout i)) l.
Proof. revert i. induction l as [| inp l IH]; intros i; cbn; [done |]. by rewrite IH. Qed.

Lemma spent_keys tx : map fst (spent_inputs tx) `sublist_of` input_keys tx.
Proof.
  unfold Mempool.spent_inputs, input_keys. destruct (TxCheck.IsCoinImport tx); [apply sublist_nil_l |].
  rewrite <-(number_keys 0). destruct (pool_IsPegsImport pegs tx); [| done]. rewrite <-skipn_map. apply sublist_drop.
Qed.

Lemma spent_nodup tx : fits tx -> NoDup (map fst (spent_inputs tx)).
Proof. intros Hf. eapply sublist_NoDup; [apply Hf | apply spent_keys]. Qed.

Lemma spends_input tx o i : spends tx o i -> o ∈ input_keys tx.
Proof. intros Hs. eapply sublist_subseteq; [apply spent_keys |]. apply list_elem_of_fmap. by exists (o, i). Qed.

(** An input is entered or it is the marker of an import. *)
Lemma input_spent tx o : o ∈ input_keys tx -> (exists i, spends tx o i) \/ o.2 = Utxo.import_n.
Proof.
  intros Ho. unfold spends, Mempool.spent_inputs. destruct (TxCheck.IsCoinImport tx) eqn:Ei.
  { right. unfold TxCheck.IsCoinImport, Utxo.IsCoinImport in Ei. cbn [TxCheck.ctx_of Utxo.tx_vin] in Ei. fold (input_keys tx) in Ei.
    destruct (input_keys tx) as [| q [|]]; try done. apply list_elem_of_singleton in Ho as ->. by apply Z.eqb_eq. }
  unfold input_keys in Ho. rewrite <-(number_keys 0) in Ho. destruct (pool_IsPegsImport pegs tx) eqn:Ep.
  - unfold pool_IsPegsImport, Utxo.IsPegsImport in Ep. cbn [TxCheck.ctx_of Utxo.tx_vin] in Ep.
    rewrite <-(number_keys 0) in Ep. destruct (number_inputs 0 (vin tx)) as [| [o0 i0] l]; cbn in *; [by apply elem_of_nil in Ho |].
    apply andb_prop in Ep as [_ Ep]. apply elem_of_cons in Ho as [-> | Ho]; [right; by apply Z.eqb_eq |].
    left. apply list_elem_of_fmap in Ho as ([o' i] & -> & Hin). exists i. by rewrite drop_0.
  - left. apply list_elem_of_fmap in Ho as ([o' i] & -> & Hin). by exists i.
Qed.

(** *** Adding and taking out *)

Lemma new_pool_ok : pool_ok new_pool.
Proof.
  constructor; cbn; try done.
  - intros o x. rewrite lookup_empty. split; [done |]. intros (e & E & _). by rewrite lookup_empty in E.
  - intros nf h. rewrite lookup_empty. split; [done |]. intros (e & E & _). by rewrite lookup_empty in E.
Qed.

Lemma admits_spec p tx :
  pool_admits p tx = true <->
  mapTx p !! TxCheck.GetHash tx = None /\ (forall o, o ∈ input_keys tx -> mapNextTx p !! o = None)
  /\ (forall nf, nf ∈ nullifiers tx -> mapSaplingNullifiers p !! nf = None).
Proof.
  unfold pool_admits, exists_, nullifierExists, input_keys, nullifiers.
  rewrite !andb_true_iff, negb_true_iff, bool_decide_eq_false, !forallb_forall. setoid_rewrite negb_true_iff. setoid_rewrite bool_decide_eq_false.
  setoid_rewrite list_elem_of_fmap. setoid_rewrite <-eq_None_not_Some. setoid_rewrite <-list_elem_of_In. naive_solver.
Qed.

Lemma add_ok p entry :
  pool_ok p -> fits (e_tx entry) -> pool_admits p (e_tx entry) = true ->
  exists p', addUnchecked p (TxCheck.GetHash (e_tx entry)) entry = Some p' /\ pool_ok p'
    /\ mapTx p' = <[TxCheck.GetHash (e_tx entry) := entry]> (mapTx p).
Proof.
  intros [Htx Hnext Hnull Hrec Hsize Husage] Hf (Hnone & Hin & Hnf)%admits_spec.
  set (tx := e_tx entry) in *. set (h := TxCheck.GetHash tx) in *.
  unfold Mempool.addUnchecked. fold tx. fold h. rewrite Hnone, lookup_insert_eq. cbn [mbind option_bind]. fold tx. fold h.
  eexists. split; [reflexivity |]. split; [| done].
  assert (forall h' e', mapTx p !! h' = Some e' -> h' <> h) as Hne by (intros h' e' E ->; congruence).
  constructor; cbn [mapTx mapNextTx mapSaplingNullifiers mapRecentlyAddedTx totalTxSize cachedInnerUsage].
  - intros h' e' [[<- <-] | [_ E]]%lookup_insert_Some; [done | by apply Htx].
  - intros o x.
    split.
    + intros E. destruct (decide (o ∈ map fst (spent_inputs tx))) as [Ho | Ho].
      * apply list_elem_of_fmap in Ho as ([o' i] & -> & Hs). cbn [fst] in E.
        rewrite (fold_insert_in fst (fun b => InPoint h b.2) _ _ (o', i)) in E by (done || by apply spent_nodup).
        injection E as <-. exists entry. cbn [ptx in_n]. split; [apply lookup_insert_eq | done].
      * rewrite (fold_insert_out fst (fun b => InPoint h b.2)) in E by done. apply Hnext in E as (e' & E & Hs). exists e'.
        split; [| done]. rewrite lookup_insert_ne by (by apply not_eq_sym, (Hne _ e')). done.
    + intros (e' & [[Eh <-] | [Hh E]]%lookup_insert_Some & Hs).
      * fold tx in Hs. rewrite (fold_insert_in fst (fun b => InPoint h b.2) _ _ (o, in_n x)) by (done || by apply spent_nodup).
        destruct x. cbn in *. by subst.
      * assert (mapNextTx p !! o = Some x) as E' by (apply Hnext; by exists e').
        rewrite (fold_insert_out fst (fun b => InPoint h b.2)); [done |]. intros Ho. eapply sublist_subseteq in Ho; [| apply spent_keys].
        by rewrite Hin in E'.
  - intros nf h'. split.
    + intros E. destruct (decide (nf ∈ nullifiers tx)) as [Ho | Ho].
      * pose proof Ho as Ho'. apply list_elem_of_fmap in Ho as (s & -> & Hs).
        rewrite (fold_insert_in sp_nullifier (fun _ => h)) in E by (done || apply Hf). injection E as <-. exists entry.
        split; [apply lookup_insert_eq | done].
      * rewrite (fold_insert_out sp_nullifier (fun _ => h)) in E by done. apply Hnull in E as (e' & E & Hs). exists e'.
        split; [| done]. rewrite lookup_insert_ne by (by apply not_eq_sym, (Hne _ e')). done.
    + intros (e' & [[Eh <-] | [Hh E]]%lookup_insert_Some & Hs).
      * apply list_elem_of_fmap in Hs as (s & -> & Hs). rewrite (fold_insert_in sp_nullifier (fun _ => h)) by (done || apply Hf). by subst.
      * assert (mapSaplingNullifiers p !! nf = Some h') as E' by (apply Hnull; by exists e').
        rewrite (fold_insert_out sp_nullifier (fun _ => h)); [done |]. intros Ho. by rewrite Hnf in E'.
  - intros h' [-> %elem_of_singleton | Hr]%elem_of_union; [rewrite lookup_insert_eq; by eexists |].
    rewrite lookup_insert_is_Some'. right. by apply Hrec.
  - rewrite Hsize, msum_insert by done. rewrite u64_add_l. f_equal. lia.
  - rewrite Husage, msum_insert by done. rewrite u64_add_l. f_equal. lia.
Qed.

Lemma remove_entry_ok p h e : pool_ok p -> mapTx p !! h = Some e -> pool_ok (remove_entry p h e).
Proof.
  intros [Htx Hnext Hnull Hrec Hsize Husage] He. pose proof (Htx h e He) as [Hh Hf].
  constructor; cbn [remove_entry mapTx mapNextTx mapSaplingNullifiers mapRecentlyAddedTx totalTxSize cachedInnerUsage].
  - intros h' e' [_ E]%lookup_delete_Some. by apply Htx.
  - intros o x. rewrite fold_delete_lookup. fold (input_keys (e_tx e)). destruct (decide (o ∈ input_keys (e_tx e))) as [Ho | Ho].
    + rewrite bool_decide_true by done. split; [done |]. intros (e' & [Hne E]%lookup_delete_Some & Hs). exfalso.
      destruct (input_spent _ _ Ho) as [[i Hi] | Hi].
      * assert (mapNextTx p !! o = Some x) as E1 by (apply Hnext; by exists e').
        assert (mapNextTx p !! o = Some (InPoint h i)) as E2 by (apply Hnext; by exists e). rewrite E1 in E2. by injection E2 as ->.
      * by apply (fit_usual _ (proj2 (Htx _ _ E)) o (in_n x) Hs).
    + rewrite bool_decide_false by done. rewrite Hnext. split; intros (e' & E & Hs); exists e'; (split; [| done]).
      * apply lookup_delete_Some. split; [| done]. intros Eh. rewrite <-Eh in E. assert (e' = e) as -> by congruence. by apply Ho, (spends_input _ _ (in_n x)).
      * by apply lookup_delete_Some in E as [_ E].
  - intros nf h'. rewrite fold_delete_lookup. fold (nullifiers (e_tx e)). destruct (decide (nf ∈ nullifiers (e_tx e))) as [Ho | Ho].
    + rewrite bool_decide_true by done. split; [done |]. intros (e' & [Hne E]%lookup_delete_Some & Hs). exfalso.
      assert (mapSaplingNullifiers p !! nf = Some h') as E1 by (apply Hnull; by exists e').
      assert (mapSaplingNullifiers p !! nf = Some h) as E2 by (apply Hnull; by exists e). congruence.
    + rewrite bool_decide_false by done. rewrite Hnull. split; intros (e' & E & Hs); exists e'; (split; [| done]).
      * apply lookup_delete_Some. split; [| done]. intros <-. assert (e' = e) as -> by congruence. done.
      * by apply lookup_delete_Some in E as [_ E].
  - intros h' [Hr Hn%not_elem_of_singleton]%elem_of_difference. rewrite lookup_delete_ne by done. by apply Hrec.
  - rewrite Hsize, (msum_delete _ _ h e) by done. by rewrite u64_sub_l.
  - rewrite Husage, (msum_delete _ _ h e) by done. by rewrite u64_sub_l.
Qed.

End Facts.

(** *** The loop of [remove] *)

Section Remove.
Context {HS : Hashes} (pegs : bool).
Abbreviation spends := (spends pegs).
Abbreviation pool_ok := (pool_ok pegs).

Lemma pool_outputs_delete p h e :
  mapTx p !! h = Some e -> (pool_outputs (remove_entry p h e) + length (vout (e_tx e)) = pool_outputs p)%nat.
Proof.
  intros He. unfold pool_outputs. cbn [remove_entry mapTx]. rewrite <-(insert_delete_id (mapTx p) h e He) at 2.
  rewrite (map_fold_insert_L (fun _ e n => length (vout (e_tx e)) + n)%nat); [lia | intros; lia | apply lookup_delete_eq].
Qed.

Lemma spenders_length p h n : (length (spenders p h n) <= n)%nat.
Proof. unfold spenders. rewrite <-(length_seq n 0) at 2. generalize (seq 0 n). intros l. induction l as [| i l IH]; cbn; [done |]. destruct (_ <$> _); cbn; lia. Qed.

(** The loop ends. *)
Lemma remove_loop_ends turns rec q p removed :
  (length q + pool_outputs p <= turns)%nat -> is_Some (remove_loop turns rec q p removed).
Proof.
  revert q p removed. induction turns as [| turns IH]; intros [| h q] p removed Hn; cbn [length] in Hn; try (by eexists); [lia |].
  cbn [remove_loop]. destruct (mapTx p !! h) as [e |] eqn:He; [| apply IH; lia].
  apply IH. pose proof (pool_outputs_delete p h e He). destruct rec; [| lia].
  rewrite length_app. pose proof (spenders_length p h (length (vout (e_tx e)))). lia.
Qed.

(** [c] spends an output of [h], both in the pool. *)
Definition child (p : CTxMemPool) (h c : list Z) : Prop :=
  exists e e' i k, mapTx p !! h = Some e /\ mapTx p !! c = Some e' /\ (i < length (vout (e_tx e)))%nat /\ spends (e_tx e') (h, Z.of_nat i) k.

(** The transactions in a list, and those that depend on them. *)
Inductive dependent (p : CTxMemPool) (roots : list (list Z)) : list Z -> Prop :=
  | dep_root h : h ∈ roots -> is_Some (mapTx p !! h) -> dependent p roots h
  | dep_child h c : dependent p roots h -> child p h c -> dependent p roots c.

Lemma spenders_spec p h n c :
  pool_ok p ->
  c ∈ spenders p h n <-> exists i e' k, (i < n)%nat /\ mapTx p !! c = Some e' /\ spends (e_tx e') (h, Z.of_nat i) k.
Proof.
  intros Hp. unfold spenders. rewrite list_elem_of_omap. split.
  - intros (i & Hi%elem_of_seq & (x & Hx & Ex)%fmap_Some). apply (po_next _ _ Hp) in Hx as (e' & He & Hs). subst c.
    exists i, e', (in_n x). split; [lia | done].
  - intros (i & e' & k & Hi & He & Hs). exists i. split; [apply elem_of_seq; lia |].
    assert (mapNextTx p !! (h, Z.of_nat i) = Some (InPoint c k)) as -> by (apply (po_next _ _ Hp); by exists e'). done.
Qed.

(** What holds after each turn, of the pool [p0] at the start, the pool, and the list. *)
Record removing (p0 : CTxMemPool) (roots q : list (list Z)) (p : CTxMemPool) : Prop := {
  rm_ok : pool_ok p;
  rm_sub : mapTx p ⊆ mapTx p0;
  rm_gone h : is_Some (mapTx p0 !! h) -> mapTx p !! h = None -> dependent p0 roots h;
  rm_list h : h ∈ q -> is_Some (mapTx p0 !! h) -> dependent p0 roots h;
  rm_roots h : h ∈ roots -> is_Some (mapTx p !! h) -> h ∈ q;
  rm_closed h c : is_Some (mapTx p0 !! h) -> mapTx p !! h = None -> child p0 h c -> is_Some (mapTx p !! c) -> c ∈ q;
}.

Lemma removing_turn p0 roots h q p e :
  removing p0 roots (h :: q) p -> mapTx p !! h = Some e ->
  removing p0 roots (q ++ spenders p h (length (vout (e_tx e)))) (remove_entry p h e).
Proof.
  intros [Hok Hsub Hgone Hlist Hroots Hclosed] He.
  assert (mapTx p0 !! h = Some e) as He0 by (by eapply lookup_weaken).
  assert (dependent p0 roots h) as Hh by (apply Hlist; [left | by eexists]).
  constructor.
  - by apply remove_entry_ok.
  - etrans; [apply delete_subseteq | done].
  - intros h' Hs E. cbn in E. destruct (decide (h' = h)) as [-> | Hne]; [done |]. rewrite lookup_delete_ne in E by done. by apply Hgone.
  - intros h' [Hin | Hin]%elem_of_app Hs; [apply Hlist; [by right | done] |].
    apply (spenders_spec p h _ h' Hok) in Hin as (i & e' & k & Hi & He' & Hsp). apply (dep_child _ _ h); [done |].
    exists e, e', i, k. split_and!; try done. by eapply lookup_weaken.
  - intros h' Hin Hs. cbn in Hs. apply lookup_delete_is_Some in Hs as [Hne Hs]. apply elem_of_app. left.
    pose proof (Hroots h' Hin Hs) as [| Hq]%elem_of_cons; [done |]. done.
  - intros h' c Hs E (e1 & e2 & i & k & E1 & E2 & Hi & Hsp) Hc. cbn in E, Hc. apply lookup_delete_is_Some in Hc as [Hne [e2' Hc]].
    assert (e2' = e2) as -> by (eapply lookup_weaken in Hc; [| exact Hsub]; congruence). apply elem_of_app.
    destruct (decide (h' = h)) as [-> | Hne'].
    + right. assert (e1 = e) as -> by congruence. apply (spenders_spec p h _ c Hok). by exists i, e2, k.
    + left. rewrite lookup_delete_ne in E by done. assert (child p0 h' c) as Hch by (by exists e1, e2, i, k).
      pose proof (Hclosed h' c Hs E Hch ltac:(by eexists)) as [| Hq]%elem_of_cons; done.
Qed.

Lemma removing_skip p0 roots h q p : removing p0 roots (h :: q) p -> mapTx p !! h = None -> removing p0 roots q p.
Proof.
  intros [Hok Hsub Hgone Hlist Hroots Hclosed] He. constructor; try done.
  - intros h' Hin. apply Hlist. by right.
  - intros h' Hin Hs. pose proof (Hroots h' Hin Hs) as [-> | Hq]%elem_of_cons; [rewrite He in Hs; by destruct Hs | done].
  - intros h' c Hs E Hch Hc. pose proof (Hclosed h' c Hs E Hch Hc) as [-> | Hq]%elem_of_cons; [rewrite He in Hc; by destruct Hc | done].
Qed.

Lemma removing_loop p0 roots turns q p removed p' removed' :
  removing p0 roots q p -> remove_loop turns true q p removed = Some (p', removed') -> removing p0 roots [] p'.
Proof.
  revert q p removed. induction turns as [| turns IH]; intros [| h q] p removed Hr; cbn [remove_loop]; try (by intros [= <- <-]).
  destruct (mapTx p !! h) as [e |] eqn:He.
  - apply IH. by apply removing_turn.
  - apply IH. by apply (removing_skip _ _ h).
Qed.

Lemma removing_start p roots : pool_ok p -> removing p roots roots p.
Proof.
  intros Hp. constructor; try done.
  - intros h [e E] E'. congruence.
  - intros h Hin Hs. by apply dep_root.
  - intros h c [e E] E'. congruence.
Qed.

Lemma removing_done p0 roots p h :
  removing p0 roots [] p -> mapTx p !! h = None <-> mapTx p0 !! h = None \/ dependent p0 roots h.
Proof.
  intros [Hok Hsub Hgone Hlist Hroots Hclosed]. split.
  - intros E. destruct (mapTx p0 !! h) as [e |] eqn:E0; [right | by left]. apply Hgone; [by eexists | done].
  - intros [E | Hd]; [by eapply lookup_weaken_None |].
    induction Hd as [h Hin Hs | h c Hd IH Hch]; apply eq_None_not_Some; intros Hs'.
    + by apply (not_elem_of_nil h), Hroots.
    + apply (not_elem_of_nil c), (Hclosed h c); [| done | done | done]. destruct Hch as (e & _ & _ & _ & E & _). by exists e.
Qed.

(** [remove] with the descendants ends, and takes out exactly the transaction and what depends on it. *)
Lemma remove_recursive p tx removed :
  pool_ok p -> exists p' removed', remove p tx removed true = Some (p', removed') /\ removing p (remove_roots p tx true) [] p'.
Proof.
  intros Hp. unfold remove. destruct (remove_loop_ends (length (remove_roots p tx true) + pool_outputs p) true (remove_roots p tx true) p removed)
    as [[p' removed'] E]; [done |]. exists p', removed'. split; [done |]. eapply removing_loop; [by apply removing_start | exact E].
Qed.

(** Without the descendants it is the one transaction. *)
Lemma remove_single p tx removed :
  pool_ok p -> exists p' removed', remove p tx removed false = Some (p', removed') /\ pool_ok p' /\ mapTx p' = delete (TxCheck.GetHash tx) (mapTx p).
Proof.
  intros Hp. unfold remove, remove_roots. cbn [andb length plus remove_loop]. set (h := TxCheck.GetHash tx).
  assert (forall t r, remove_loop t false [] p r = Some (p, r)) as Hend by (by intros []).
  destruct (mapTx p !! h) as [e |] eqn:He.
  - exists (remove_entry p h e), (removed ++ [e_tx e]). split; [by destruct (pool_outputs p) |]. split; [by apply remove_entry_ok | done].
  - exists p, removed. rewrite Hend. split; [done |]. split; [done |]. by rewrite delete_id.
Qed.

End Remove.

(** *** Removing for a reason *)

Section Reasons.
Context {HS : Hashes} (pegs : bool).
Abbreviation spends := (spends pegs).
Abbreviation pool_ok := (pool_ok pegs).
Abbreviation child := (child pegs).
Abbreviation dependent := (dependent pegs).
Abbreviation removing := (removing pegs).

Lemma dependent_mono p roots roots' h : (forall x, x ∈ roots -> x ∈ roots') -> dependent p roots h -> dependent p roots' h.
Proof. intros Hr. induction 1 as [h Hin Hs | h c _ IH Hc]; [apply dep_root; auto | by apply (dep_child _ _ _ h)]. Qed.

(** One removal after others, of a transaction the pool had at the start. *)
Lemma remove_again p0 roots p e removed :
  pool_ok p0 -> removing p0 roots [] p -> mapTx p0 !! TxCheck.GetHash (e_tx e) = Some e ->
  exists p' removed', remove p (e_tx e) removed true = Some (p', removed') /\ removing p0 (TxCheck.GetHash (e_tx e) :: roots) [] p'.
Proof.
  intros Hp0 Hr He. set (h := TxCheck.GetHash (e_tx e)) in *. pose proof Hr as [Hok Hsub Hgone Hlist Hroots Hclosed]. unfold remove.
  set (q := remove_roots p (e_tx e) true). destruct (remove_loop_ends (length q + pool_outputs p) true q p removed) as [[p' removed'] E]; [done |].
  exists p', removed'. split; [done |]. eapply removing_loop; [| exact E].
  assert (dependent p0 (h :: roots) h) as Hh by (apply dep_root; [left | by eexists]).
  constructor.
  - done.
  - done.
  - intros h' Hs E'. apply (dependent_mono _ roots); [by right | by apply Hgone].
  - intros h' [-> | Hin]%elem_of_cons Hs; [done |]. destruct (true && _); [| by apply elem_of_nil in Hin].
    apply (spenders_spec pegs p h _ h' Hok) in Hin as (i & e' & k & Hi & He' & Hsp). apply (dep_child _ _ _ h); [done |].
    exists e, e', i, k. split_and!; try done. by eapply lookup_weaken.
  - intros h' [-> | Hin]%elem_of_cons Hs; [left |]. by destruct (not_elem_of_nil h' (Hroots h' Hin Hs)).
  - intros h' c Hs E' Hch Hc. by destruct (not_elem_of_nil c (Hclosed h' c Hs E' Hch Hc)).
Qed.

Lemma remove_all_removing p0 roots p l :
  pool_ok p0 -> removing p0 roots [] p -> Forall (fun tx => exists e, e_tx e = tx /\ mapTx p0 !! TxCheck.GetHash tx = Some e) l ->
  exists p', remove_all p l = Some p' /\ removing p0 (rev (map TxCheck.GetHash l) ++ roots) [] p'.
Proof.
  intros Hp0. revert roots p. induction l as [| tx l IH]; intros roots p Hr Hl; cbn [remove_all]; [by exists p |].
  apply Forall_cons in Hl as [(e & <- & He) Hl]. destruct (remove_again p0 roots p e [] Hp0 Hr He) as (p1 & r1 & -> & H1).
  cbn [mbind option_bind]. destruct (IH _ p1 H1 Hl) as (p' & E & H'). exists p'. split; [done |]. cbn [map rev]. by rewrite <-app_assoc.
Qed.

Lemma select_spec p test tx :
  pool_ok p -> tx ∈ select p test <-> exists e, e_tx e = tx /\ mapTx p !! TxCheck.GetHash tx = Some e /\ test e = true.
Proof.
  intros Hp. unfold select. rewrite list_elem_of_fmap. setoid_rewrite list_elem_of_In. setoid_rewrite List.filter_In.
  setoid_rewrite <-list_elem_of_In. setoid_rewrite list_elem_of_fmap. split.
  - intros (e & -> & ([h e'] & -> & Hin%elem_of_map_to_list) & Ht). exists e'. cbn [snd] in *. split; [done |].
    by rewrite (proj1 (po_tx _ _ Hp _ _ Hin)).
  - intros (e & <- & He & Ht). exists e. split; [done |]. split; [| done]. exists (TxCheck.GetHash (e_tx e), e). split; [done |].
    by apply elem_of_map_to_list.
Qed.

(** Removing the transactions that satisfy a test takes out them and what depends on them; the order
    in which they are found does not matter. *)
Lemma remove_all_exact p test :
  pool_ok p ->
  exists p', remove_all p (select p test) = Some p' /\ pool_ok p' /\ mapTx p' ⊆ mapTx p
    /\ forall h, mapTx p' !! h = None <-> mapTx p !! h = None \/
         exists roots, (forall r, r ∈ roots -> exists e, mapTx p !! r = Some e /\ test e = true) /\ dependent p roots h.
Proof.
  intros Hp. destruct (remove_all_removing p [] p (select p test)) as (p' & E & Hr); [done | by apply removing_start | |].
  { apply Forall_forall. intros tx Hin. apply (select_spec p test tx Hp) in Hin as (e & ? & ? & _). by exists e. }
  assert (forall r, r ∈ rev (map TxCheck.GetHash (select p test)) ++ [] <-> exists e, mapTx p !! r = Some e /\ test e = true) as Hroots.
  { intros r. rewrite app_nil_r, list_elem_of_In, <-in_rev, <-list_elem_of_In, list_elem_of_fmap. setoid_rewrite (select_spec p test _ Hp). split.
    - intros (tx & -> & e & _ & He & Ht). by exists e.
    - intros (e & He & Ht). exists (e_tx e). rewrite (proj1 (po_tx _ _ Hp _ _ He)). split; [done |]. by exists e. }
  exists p'. split; [done |]. split; [apply Hr |]. split; [apply Hr |]. intros h. rewrite (removing_done pegs _ _ _ _ Hr).
  split; (intros [H | H]; [by left | right]).
  - eexists. split; [| exact H]. intros r. apply Hroots.
  - destruct H as (roots & H1 & H2). apply (dependent_mono _ roots); [| done]. intros r Hin. by apply Hroots, H1.
Qed.

(** *** Blocks *)

(** Of two pools in order the one with fewer transactions has fewer spent outputs and nullifiers. *)
Lemma next_sub p p' o : pool_ok p -> pool_ok p' -> mapTx p' ⊆ mapTx p -> mapNextTx p !! o = None -> mapNextTx p' !! o = None.
Proof.
  intros Hp Hp' Hsub E. apply eq_None_not_Some. intros [x (e & He & Hs)%(po_next _ _ Hp')].
  assert (mapNextTx p !! o = Some x) by (apply (po_next _ _ Hp); exists e; split; [by eapply lookup_weaken | done]). congruence.
Qed.
Lemma nullifier_sub p p' nf :
  pool_ok p -> pool_ok p' -> mapTx p' ⊆ mapTx p -> mapSaplingNullifiers p !! nf = None -> mapSaplingNullifiers p' !! nf = None.
Proof.
  intros Hp Hp' Hsub E. apply eq_None_not_Some. intros [h (e & He & Hs)%(po_nullifier _ _ Hp')].
  assert (mapSaplingNullifiers p !! nf = Some h) by (apply (po_nullifier _ _ Hp); exists e; split; [by eapply lookup_weaken | done]). congruence.
Qed.

(** The two transactions cannot both be in a chain. *)
Definition conflicts_with (tx tx' : CTransaction) : Prop :=
  (exists o i, o ∈ input_keys tx /\ spends tx' o i) \/ (exists nf, nf ∈ nullifiers tx /\ nf ∈ nullifiers tx').

(** The transactions of the pool that a block rules out: those in conflict with it, and what depends on them. *)
Inductive ruled_out (p : CTxMemPool) (vtx : list CTransaction) : list Z -> Prop :=
  | ruled_conflict tx h e : tx ∈ vtx -> mapTx p !! h = Some e -> conflicts_with tx (e_tx e) -> ruled_out p vtx h
  | ruled_child h c : ruled_out p vtx h -> child p h c -> ruled_out p vtx c.

(** What a step leaves of the pool [p0] at the start. *)
Record shrinks (p0 : CTxMemPool) (vtx : list CTransaction) (p p' : CTxMemPool) : Prop := {
  sh_ok : pool_ok p';
  sh_sub : mapTx p' ⊆ mapTx p;
  sh_gone h : is_Some (mapTx p !! h) -> mapTx p' !! h = None -> h ∈ map TxCheck.GetHash vtx \/ ruled_out p0 vtx h;
}.

Lemma shrinks_refl p0 vtx p : pool_ok p -> shrinks p0 vtx p p.
Proof. intros Hp. constructor; [done | done |]. intros h [e E] E'. congruence. Qed.
Lemma shrinks_trans p0 vtx p1 p2 p3 : shrinks p0 vtx p1 p2 -> shrinks p0 vtx p2 p3 -> shrinks p0 vtx p1 p3.
Proof.
  intros [A1 A2 A3] [B1 B2 B3]. constructor; [done | by etrans |]. intros h Hs E.
  destruct (mapTx p2 !! h) eqn:E2; [apply B3; [by eexists | done] | by apply A3].
Qed.

Lemma child_sub p p0 h c : mapTx p ⊆ mapTx p0 -> child p h c -> child p0 h c.
Proof. intros Hs (e & e' & i & k & E1 & E2 & Hi & Hsp). exists e, e', i, k. split_and!; try done; by eapply lookup_weaken. Qed.

(** Removing one conflict. *)
Lemma remove_conflict_ok p0 vtx p tx h removed :
  pool_ok p -> mapTx p ⊆ mapTx p0 -> tx ∈ vtx -> mapTx p !! TxCheck.GetHash tx = None ->
  (forall e, mapTx p !! h = Some e -> conflicts_with tx (e_tx e)) -> is_Some (mapTx p !! h) ->
  exists p' removed', remove_conflict p tx (Some h) removed = Some (p', removed') /\ shrinks p0 vtx p p' /\ mapTx p' !! h = None.
Proof.
  intros Hp Hsub Htx Hno Hc [e He]. destruct (po_tx _ _ Hp _ _ He) as [Eh _]. unfold remove_conflict. rewrite He. cbn [mbind option_bind].
  rewrite bool_decide_false by (intros E; rewrite <-E, Eh in Hno; congruence).
  destruct (remove_recursive pegs p (e_tx e) removed Hp) as (p' & removed' & E & Hr). exists p', removed'. split; [done |].
  assert (remove_roots p (e_tx e) true = [h]) as Er.
  { unfold remove_roots, exists_. rewrite Eh, bool_decide_true by (by eexists). done. }
  rewrite Er in Hr. split.
  - constructor; [apply Hr | apply Hr |]. intros h' Hs E'. right. apply (removing_done pegs _ _ _ _ Hr) in E' as [E' | Hd]; [by destruct Hs; congruence |].
    clear Hs. induction Hd as [h' ->%list_elem_of_singleton _ | h' c _ IH Hch].
    + eapply ruled_conflict; [done | by eapply lookup_weaken | by apply Hc].
    + apply (ruled_child _ _ h'); [done | by apply (child_sub p)].
  - apply (removing_done pegs _ _ _ _ Hr). right. apply dep_root; [by apply list_elem_of_singleton | by eexists].
Qed.

Lemma conflict_inputs_ok p0 vtx p tx l removed :
  pool_ok p -> mapTx p ⊆ mapTx p0 -> tx ∈ vtx -> mapTx p !! TxCheck.GetHash tx = None ->
  (forall i, i ∈ l -> TxCheck.prevout_key (prevout i) ∈ input_keys tx) ->
  exists p' removed', conflict_inputs p tx l removed = Some (p', removed') /\ shrinks p0 vtx p p'
    /\ forall i, i ∈ l -> mapNextTx p' !! TxCheck.prevout_key (prevout i) = None.
Proof.
  revert p removed. induction l as [| i l IH]; intros p removed Hp Hsub Htx Hno Hin; cbn [conflict_inputs].
  { exists p, removed. split; [done |]. split; [by apply shrinks_refl |]. intros i Hi. by apply elem_of_nil in Hi. }
  set (o := TxCheck.prevout_key (prevout i)).
  assert (exists p1 r1, remove_conflict p tx (ptx <$> mapNextTx p !! o) removed = Some (p1, r1) /\ shrinks p0 vtx p p1 /\ mapNextTx p1 !! o = None)
    as (p1 & r1 & -> & S1 & H1).
  { destruct (mapNextTx p !! o) as [x |] eqn:Ex; [| exists p, removed; split; [done |]; split; [by apply shrinks_refl | done]].
    pose proof (proj1 (po_next _ _ Hp o x) Ex) as (e & He & Hs).
    destruct (remove_conflict_ok p0 vtx p tx (ptx x) removed) as (p1 & r1 & E1 & S1 & G1); try done.
    - intros e' He'. left. exists o, (in_n x). split; [apply Hin; left |]. congruence.
    - exists p1, r1. split; [done |]. split; [done |]. apply eq_None_not_Some. intros [y (e2 & He2 & Hs2)%(po_next _ _ (sh_ok _ _ _ _ S1))].
      assert (mapNextTx p !! o = Some y) as Ey by (apply (po_next _ _ Hp); exists e2; split; [by eapply lookup_weaken; [| apply S1] | done]).
      rewrite Ex in Ey. injection Ey as <-. congruence. }
  cbn [mbind option_bind]. destruct (IH p1 r1) as (p' & r' & E' & S' & H'); [apply S1 | by etrans; [apply S1 |] | done | | |].
  { by eapply lookup_weaken_None; [| apply S1]. }
  { intros j Hj. apply Hin. by right. }
  exists p', r'. split; [done |]. split; [by apply (shrinks_trans _ _ _ p1) |]. intros j [-> | Hj]%elem_of_cons; [| by apply H'].
  apply (next_sub p1); [apply S1 | apply S' | apply S' | done].
Qed.

Lemma conflict_spends_ok p0 vtx p tx l removed :
  pool_ok p -> mapTx p ⊆ mapTx p0 -> tx ∈ vtx -> mapTx p !! TxCheck.GetHash tx = None -> (forall s, s ∈ l -> sp_nullifier s ∈ nullifiers tx) ->
  exists p' removed', conflict_spends p tx l removed = Some (p', removed') /\ shrinks p0 vtx p p'
    /\ forall s, s ∈ l -> mapSaplingNullifiers p' !! sp_nullifier s = None.
Proof.
  revert p removed. induction l as [| s l IH]; intros p removed Hp Hsub Htx Hno Hin; cbn [conflict_spends].
  { exists p, removed. split; [done |]. split; [by apply shrinks_refl |]. intros s Hi. by apply elem_of_nil in Hi. }
  set (nf := sp_nullifier s).
  assert (exists p1 r1, remove_conflict p tx (mapSaplingNullifiers p !! nf) removed = Some (p1, r1) /\ shrinks p0 vtx p p1
    /\ mapSaplingNullifiers p1 !! nf = None) as (p1 & r1 & -> & S1 & H1).
  { destruct (mapSaplingNullifiers p !! nf) as [h |] eqn:Ex; [| exists p, removed; split; [done |]; split; [by apply shrinks_refl | done]].
    pose proof (proj1 (po_nullifier _ _ Hp nf h) Ex) as (e & He & Hs).
    destruct (remove_conflict_ok p0 vtx p tx h removed) as (p1 & r1 & E1 & S1 & G1); try done.
    - intros e' He'. right. exists nf. split; [apply Hin; left |]. congruence.
    - exists p1, r1. split; [done |]. split; [done |]. apply eq_None_not_Some. intros [y (e2 & He2 & Hs2)%(po_nullifier _ _ (sh_ok _ _ _ _ S1))].
      assert (mapSaplingNullifiers p !! nf = Some y) as Ey by (apply (po_nullifier _ _ Hp); exists e2; split; [by eapply lookup_weaken; [| apply S1] | done]).
      rewrite Ex in Ey. injection Ey as <-. congruence. }
  cbn [mbind option_bind]. destruct (IH p1 r1) as (p' & r' & E' & S' & H'); [apply S1 | by etrans; [apply S1 |] | done | | |].
  { by eapply lookup_weaken_None; [| apply S1]. }
  { intros j Hj. apply Hin. by right. }
  exists p', r'. split; [done |]. split; [by apply (shrinks_trans _ _ _ p1) |]. intros j [-> | Hj]%elem_of_cons; [| by apply H'].
  apply (nullifier_sub p1); [apply S1 | apply S' | apply S' | done].
Qed.

(** No transaction of the pool is the transaction or conflicts with it. *)
Definition clear_of (p : CTxMemPool) (tx : CTransaction) : Prop :=
  mapTx p !! TxCheck.GetHash tx = None /\ forall h e, mapTx p !! h = Some e -> ~ conflicts_with tx (e_tx e).

Lemma clear_sub p p' tx : mapTx p' ⊆ mapTx p -> clear_of p tx -> clear_of p' tx.
Proof.
  intros Hs [H1 H2]. split; [by eapply lookup_weaken_None |]. intros h e He. apply (H2 h). by eapply lookup_weaken.
Qed.

Lemma deltas_ok p d : pool_ok p -> pool_ok (with_deltas p d).
Proof. intros []. by constructor. Qed.

Lemma block_tx_ok p0 vtx p tx removed :
  pool_ok p -> mapTx p ⊆ mapTx p0 -> tx ∈ vtx ->
  exists p1 r1 p' removed', remove p tx [] false = Some (p1, r1) /\ removeConflicts p1 tx removed = Some (p', removed')
    /\ shrinks p0 vtx p (ClearPrioritisation p' (TxCheck.GetHash tx)) /\ clear_of p' tx.
Proof.
  intros Hp Hsub Htx. destruct (remove_single pegs p tx [] Hp) as (p1 & r1 & E1 & Hp1 & M1).
  assert (mapTx p1 ⊆ mapTx p) as Hs1 by (rewrite M1; apply delete_subseteq).
  assert (mapTx p1 !! TxCheck.GetHash tx = None) as Hno by (rewrite M1; apply lookup_delete_eq).
  unfold removeConflicts.
  destruct (conflict_inputs_ok p0 vtx p1 tx (vin tx) removed Hp1 ltac:(by etrans) Htx Hno) as (p2 & r2 & E2 & S2 & H2).
  { intros i Hi. apply list_elem_of_fmap. by exists i. }
  destruct (conflict_spends_ok p0 vtx p2 tx (vShieldedSpend tx) r2 (sh_ok _ _ _ _ S2)) as (p' & r' & E' & S' & H').
  { etrans; [apply S2 |]. by etrans. } { done. } { by eapply lookup_weaken_None; [| apply S2]. }
  { intros s Hi. apply list_elem_of_fmap. by exists s. }
  exists p1, r1, p', r'. split; [done |]. rewrite E2. cbn [mbind option_bind]. split; [done |].
  assert (shrinks p0 vtx p p1) as S1.
  { constructor; [done | done |]. intros h [e E] E0. left. apply list_elem_of_fmap. exists tx. split; [| done]. rewrite M1 in E0.
    destruct (decide (TxCheck.GetHash tx = h)) as [-> | Hne]; [done |]. rewrite lookup_delete_ne in E0 by done. congruence. }
  split.
  - pose proof (shrinks_trans _ _ _ _ _ S1 (shrinks_trans _ _ _ _ _ S2 S')) as [A B C]. constructor; [by apply deltas_ok | done | done].
  - split; [eapply lookup_weaken_None; [exact Hno |]; etrans; [apply S' | apply S2] |].
    intros h e He [(o & i & Ho & Hs) | (nf & Hn & Hs)].
    + apply list_elem_of_fmap in Ho as (inp & -> & Hi).
      pose proof (next_sub p2 p' _ (sh_ok _ _ _ _ S2) (sh_ok _ _ _ _ S') (sh_sub _ _ _ _ S') (H2 inp Hi)) as Hnone.
      assert (mapNextTx p' !! TxCheck.prevout_key (prevout inp) = Some (InPoint h i)) by (apply (po_next _ _ (sh_ok _ _ _ _ S')); by exists e). congruence.
    + apply list_elem_of_fmap in Hn as (s & -> & Hi). pose proof (H' s Hi).
      assert (mapSaplingNullifiers p' !! sp_nullifier s = Some h) by (apply (po_nullifier _ _ (sh_ok _ _ _ _ S')); by exists e). congruence.
Qed.

Lemma removeForBlock_ok p0 all p vtx conflicts :
  pool_ok p -> mapTx p ⊆ mapTx p0 -> (forall tx, tx ∈ vtx -> tx ∈ all) ->
  exists p' conflicts', removeForBlock p vtx conflicts = Some (p', conflicts') /\ shrinks p0 all p p' /\ forall tx, tx ∈ vtx -> clear_of p' tx.
Proof.
  revert p conflicts. induction vtx as [| tx vtx IH]; intros p conflicts Hp Hsub Hall; cbn [removeForBlock].
  { exists p, conflicts. split; [done |]. split; [by apply shrinks_refl |]. intros tx Hi. by apply elem_of_nil in Hi. }
  destruct (block_tx_ok p0 all p tx conflicts Hp Hsub ltac:(apply Hall; left)) as (p1 & r1 & p2 & c2 & -> & E2 & S2 & C2).
  cbn [mbind option_bind]. rewrite E2. cbn [mbind option_bind].
  destruct (IH (ClearPrioritisation p2 (TxCheck.GetHash tx)) c2) as (p' & c' & E' & S' & C'); [apply S2 | etrans; [apply S2 | done] | |].
  { intros t Ht. apply Hall. by right. }
  exists p', c'. split; [done |]. split; [by eapply shrinks_trans |]. intros t [-> | Ht]%elem_of_cons; [| by apply C'].
  apply (clear_sub p2); [apply S' | done].
Qed.

End Reasons.

(** *** The assertions of [check] *)

Section Check.
Context {HS : Hashes} (pegs : bool).

Lemma check_marked_spec p h l :
  check_marked p h l = true <-> forall o i, (o, i) ∈ l -> mapNextTx p !! o = Some (InPoint h i).
Proof.
  induction l as [| [o i] l IH]; cbn [check_marked]; [split; [intros _ o i Hin; by apply elem_of_nil in Hin | done] |].
  rewrite andb_true_iff, IH. split.
  - intros [H1 H2] o' i' [[= -> ->] | Hin]%elem_of_cons; [| by apply H2]. destruct (mapNextTx p !! o) as [[h' i'] |]; [| done].
    apply andb_prop in H1 as [H1%bool_decide_eq_true H3%Z.eqb_eq]. cbn in H1, H3. by subst.
  - intros H. split; [| intros; apply H; by right]. rewrite (H o i) by left. cbn. by rewrite bool_decide_true, Z.eqb_refl.
Qed.

Lemma number_lookup i l o k : (o, k) ∈ number_inputs i l -> exists inp, l !! Z.to_nat (k - i) = Some inp /\ TxCheck.prevout_key (prevout inp) = o /\ i <= k.
Proof.
  revert i. induction l as [| inp l IH]; intros i; cbn [number_inputs]; [by intros ?%elem_of_nil |].
  intros [[= -> ->] | Hin]%elem_of_cons.
  - exists inp. by rewrite Z.sub_diag.
  - destruct (IH _ Hin) as (inp' & E & Hk & Hle). exists inp'. split; [| split; [done | lia]].
    replace (Z.to_nat (k - i)) with (S (Z.to_nat (k - (i + 1)))) by lia. done.
Qed.

Lemma fold_total (g : CTxMemPoolEntry -> Z) m :
  fold_left (fun n he => u64 (n + g he.2)) (map_to_list m) 0 = u64 (msum g m).
Proof.
  unfold msum. rewrite map_fold_foldr. generalize (map_to_list m) as l. change 0 with (u64 0) at 1.
  assert (forall l a, fold_left (fun n (he : list Z * CTxMemPoolEntry) => u64 (n + g he.2)) l (u64 a) = u64 (a + foldr (uncurry (fun _ a n => g a + n)) 0 l)) as H.
  { induction l as [| [h e] l IH]; intros a; cbn [fold_left foldr uncurry snd]; [by rewrite Z.add_0_r |].
    rewrite u64_add_l, IH. f_equal. lia. }
  intros l. rewrite H. done.
Qed.

(** In a pool in order the assertions about the maps hold, if no transaction of it is an import. *)
Lemma check_maps_ok p :
  pool_ok pegs p -> (forall h e, mapTx p !! h = Some e -> spent_inputs pegs (e_tx e) = number_inputs 0 (vin (e_tx e))) ->
  check_maps p = true.
Proof.
  intros Hp Hi. unfold check_maps, check_next, checkNullifiers. rewrite !andb_true_iff, !forallb_forall, !fold_total, !Z.eqb_eq.
  split_and!.
  - intros [h e] He%list_elem_of_In%elem_of_map_to_list. apply check_marked_spec. intros o i Hin.
    apply (po_next _ _ Hp). exists e. split; [done |]. unfold spends. by rewrite (Hi h e He).
  - intros [o x] Hx%list_elem_of_In%elem_of_map_to_list. apply (po_next _ _ Hp) in Hx as (e & He & Hs). rewrite He.
    unfold spends in Hs. rewrite (Hi _ e He) in Hs. destruct (number_lookup _ _ _ _ Hs) as (inp & El & Ek & _).
    rewrite Z.sub_0_r in El. rewrite El. by apply bool_decide_eq_true.
  - intros [nf h] Hx%list_elem_of_In%elem_of_map_to_list. apply (po_nullifier _ _ Hp) in Hx as (e & He & _).
    unfold exists_. apply bool_decide_eq_true. by eexists.
  - apply Hp.
  - apply Hp.
Qed.

End Check.

(** *** The pools a node can have *)

Section Reached.
Context {HS : Hashes} (pegs : bool) (cfg : TxCheck.settings).

(** The position of an output is small: only the first input of an import has the marker. *)
Definition usual_inputs (tx : CTransaction) : Prop := forall o i, spends pegs tx o i -> o.2 <> Utxo.import_n.

Inductive pool_reached : CTxMemPool -> Prop :=
  | reached_new : pool_reached new_pool
  | reached_accept p entry tiptime p' :
      pool_reached p -> TxCheck.CheckTransactionWithoutProofVerification cfg tiptime (e_tx entry) = Pass tt ->
      usual_inputs (e_tx entry) -> pool_admits p (e_tx entry) = true ->
      addUnchecked pegs p (TxCheck.GetHash (e_tx entry)) entry = Some p' -> pool_reached p'
  | reached_remove p tx removed fRecursive p' removed' :
      pool_reached p -> remove p tx removed fRecursive = Some (p', removed') -> pool_reached p'
  | reached_block p vtx conflicts p' conflicts' :
      pool_reached p -> removeForBlock p vtx conflicts = Some (p', conflicts') -> pool_reached p'
  | reached_reorg p CheckFinalTx AccessCoins unlocktime maturity_ TIMELOCKGTE nMemPoolHeight p' :
      pool_reached p -> removeForReorg CheckFinalTx AccessCoins unlocktime maturity_ TIMELOCKGTE p nMemPoolHeight = Some p' -> pool_reached p'
  | reached_anchor p invalidRoot p' : pool_reached p -> removeWithAnchor p invalidRoot = Some p' -> pool_reached p'
  | reached_branch p branch p' : pool_reached p -> removeWithoutBranchId p branch = Some p' -> pool_reached p'
  | reached_expired p nBlockHeight p' ids : pool_reached p -> removeExpired p nBlockHeight = Some (p', ids) -> pool_reached p'
  | reached_prioritise p hash delta : pool_reached p -> pool_reached (PrioritiseTransaction p hash delta)
  | reached_drain p txs n p' : pool_reached p -> DrainRecentlyAdded p = Some (txs, n, p') -> pool_reached p'
  | reached_notified p n : pool_reached p -> pool_reached (SetNotifiedSequence p n).

Lemma select_removed_ok p test p' : pool_ok pegs p -> remove_all p (select p test) = Some p' -> pool_ok pegs p'.
Proof. intros Hp E. destruct (remove_all_exact pegs p test Hp) as (p2 & E2 & H2 & _). congruence. Qed.

Lemma remove_ok p tx removed rec p' removed' : pool_ok pegs p -> remove p tx removed rec = Some (p', removed') -> pool_ok pegs p'.
Proof.
  intros Hp E. destruct rec.
  - destruct (remove_recursive pegs p tx removed Hp) as (p2 & r2 & E2 & H2). rewrite E in E2. injection E2 as -> ->. apply H2.
  - destruct (remove_single pegs p tx removed Hp) as (p2 & r2 & E2 & H2 & _). congruence.
Qed.

Lemma checked_fits tiptime tx :
  0 <= TxCheck.MAX_MONEY cfg < 2 ^ 62 -> TxCheck.CheckTransactionWithoutProofVerification cfg tiptime tx = Pass tt -> usual_inputs tx -> fits pegs tx.
Proof. intros Hm Hc Hu. destruct (TxFacts.accepted_ok cfg Hm tiptime tx Hc). by constructor. Qed.

Lemma reached_ok p : 0 <= TxCheck.MAX_MONEY cfg < 2 ^ 62 -> pool_reached p -> pool_ok pegs p.
Proof.
  intros Hm. induction 1 as [| p entry t p' _ IH Hc Hu Ha E | p tx r rec p' r' _ IH E | p vtx c p' c' _ IH E | p F A u mt G h p' _ IH E
    | p root p' _ IH E | p b p' _ IH E | p n p' ids _ IH E | p h d _ IH | p txs n p' _ IH E | p n _ IH].
  - apply new_pool_ok.
  - destruct (add_ok pegs p entry IH) as (p2 & E2 & H2 & _); [by apply (checked_fits t) | done | congruence].
  - by apply (remove_ok p tx r rec p' r').
  - destruct (removeForBlock_ok pegs p vtx p vtx c IH) as (p2 & c2 & E2 & S2 & _); [done | done |].
    rewrite E in E2. injection E2 as -> ->. apply S2.
  - eapply select_removed_ok; [exact IH | exact E].
  - eapply select_removed_ok; [exact IH | exact E].
  - eapply select_removed_ok; [exact IH | exact E].
  - unfold removeExpired in E. cbn in E. by injection E as <- <-.
  - by apply deltas_ok.
  - unfold DrainRecentlyAdded in E. destruct (mapM _ _); [| done]. injection E as _ _ <-. destruct IH. by constructor.
  - destruct IH. by constructor.
Qed.

End Reached.
End MempoolFacts.

(** ** Theorems *)

Module MempoolTheorems.
Import Mempool MempoolFacts.

(** [C13] The memory pool stays consistent: in every pool a node can reach by accepting
    checked transactions that the pool admits and by removing transactions in all the
    ways the code does, the index of spent outputs and the index of nullifiers hold
    exactly what the transactions of the pool spend and reveal, the recently added
    transactions are in the pool, and the total sizes are the sums over it; so no two
    transactions of the pool spend one output or reveal one nullifier. *)
Theorem mempool_consistent {HS : Hashes} (pegs : bool) (cfg : TxCheck.settings) (p : CTxMemPool) :
  0 <= TxCheck.MAX_MONEY cfg < 2 ^ 62 -> pool_reached pegs cfg p ->
  pool_ok pegs p
  /\ (forall h1 h2 e1 e2, mapTx p !! h1 = Some e1 -> mapTx p !! h2 = Some e2 -> h1 <> h2 ->
        (forall o i1 i2, spends pegs (e_tx e1) o i1 -> ~ spends pegs (e_tx e2) o i2)
        /\ (forall nf, nf ∈ nullifiers (e_tx e1) -> nf ∉ nullifiers (e_tx e2))).
Proof.
  intros Hm Hr. pose proof (reached_ok pegs cfg p Hm Hr) as Hp. split; [done |]. intros h1 h2 e1 e2 E1 E2 Hne. split.
  - intros o i1 i2 S1 S2. apply Hne. assert (mapNextTx p !! o = Some (InPoint h1 i1)) as N1 by (apply (po_next _ _ Hp); by exists e1).
    assert (mapNextTx p !! o = Some (InPoint h2 i2)) as N2 by (apply (po_next _ _ Hp); by exists e2). congruence.
  - intros nf S1 S2. apply Hne. assert (mapSaplingNullifiers p !! nf = Some h1) as N1 by (apply (po_nullifier _ _ Hp); by exists e1).
    assert (mapSaplingNullifiers p !! nf = Some h2) as N2 by (apply (po_nullifier _ _ Hp); by exists e2). congruence.
Qed.

(** [C14] Removing a transaction with its descendants ends: the loop over the list of
    hashes, to which each removal adds, runs out after at most as many turns as there
    are outputs in the pool besides the first hashes, and it has then taken out exactly
    the transaction and the transactions of the pool that depend on it, however
    indirectly, and kept the pool consistent. *)
Theorem remove_ends {HS : Hashes} (pegs : bool) (p : CTxMemPool) (tx : CTransaction) (removed : list CTransaction) :
  pool_ok pegs p ->
  exists p' removed', remove p tx removed true = Some (p', removed') /\ pool_ok pegs p' /\ mapTx p' ⊆ mapTx p
    /\ forall h, mapTx p' !! h = None <-> mapTx p !! h = None \/ dependent pegs p (remove_roots p tx true) h.
Proof.
  intros Hp. destruct (remove_recursive pegs p tx removed Hp) as (p' & removed' & E & Hr). exists p', removed'.
  split; [done |]. split; [apply Hr |]. split; [apply Hr |]. intros h. by apply removing_done.
Qed.

(** [C15] A connected block clears the pool of itself and of its conflicts, and of nothing
    else: after [removeForBlock] no transaction of the block is in the pool, none there
    spends an output or reveals a nullifier that a transaction of the block does, and a
    transaction that left the pool is in the block, conflicts with it or depends on one
    that does. *)
Theorem block_clears_conflicts {HS : Hashes} (pegs : bool) (p : CTxMemPool) (vtx : list CTransaction) :
  pool_ok pegs p ->
  exists p' conflicts, removeForBlock p vtx [] = Some (p', conflicts) /\ pool_ok pegs p' /\ mapTx p' ⊆ mapTx p
    /\ (forall tx, tx ∈ vtx -> mapTx p' !! TxCheck.GetHash tx = None /\ forall h e, mapTx p' !! h = Some e -> ~ conflicts_with pegs tx (e_tx e))
    /\ (forall h e, mapTx p !! h = Some e -> mapTx p' !! h = None -> h ∈ map TxCheck.GetHash vtx \/ ruled_out pegs p vtx h).
Proof.
  intros Hp. destruct (removeForBlock_ok pegs p vtx p vtx [] Hp) as (p' & c & E & [S1 S2 S3] & Hc); [done | done |].
  exists p', c. split_and!; [done | done | done | done |]. intros h e He. apply S3. by eexists.
Qed.

(** ** A pool *)

#[local] Instance pool_hashes : Hashes := {|
  ripemd160 msg := le_bytes 20 (le_num msg); sha1 msg := le_bytes 20 (le_num msg); sha256 msg := le_bytes 32 (foldr (fun b acc => (259 * acc + b + 1) mod (2 ^ 61 - 1)) 0 msg) |}.

Definition pool_tx (from : list Z) (n : Z) (spends_ : list SpendDescription) : CTransaction :=
  Tx true 4 SAPLING_VERSION_GROUP_ID [TxIn (OutPoint from n) [] 0] [TxOut 70 [81]] 0 0 0 spends_ [] [] (replicate 32 0) (replicate 64 0) (replicate 64 0).
Definition entry_of (tx : CTransaction) : CTxMemPoolEntry := Entry tx 10 200 300 0 0 true false 7.
Definition parent : CTransaction := pool_tx (replicate 32 1) 0 [].
Definition kid : CTransaction := pool_tx (TxCheck.GetHash parent) 0 [].
Definition rival : CTransaction := pool_tx (replicate 32 1) 0 [Spend (replicate 32 5) (replicate 32 6) (replicate 32 7) (replicate 32 8) [] []].
Definition add_tx (p : CTxMemPool) (tx : CTransaction) : CTxMemPool := default p (addUnchecked false p (TxCheck.GetHash tx) (entry_of tx)).
Definition family : CTxMemPool := add_tx (add_tx new_pool parent) kid.

Lemma usual_single from n s : n <> Utxo.import_n -> usual_inputs false (pool_tx from n s).
Proof.
  intros Hn o i. unfold spends, spent_inputs. destruct (TxCheck.IsCoinImport _); [by intros ?%elem_of_nil |].
  cbn. intros [[= -> ->] | ?%elem_of_nil]%elem_of_cons; done.
Qed.

Lemma add_tx_eq p tx : addUnchecked false p (TxCheck.GetHash tx) (entry_of tx) = Some (add_tx p tx).
Proof.
  unfold add_tx. assert (is_Some (addUnchecked false p (TxCheck.GetHash tx) (entry_of tx))) as [p' ->]; [| done].
  unfold addUnchecked. change (e_tx (entry_of tx)) with tx. destruct (mapTx p !! TxCheck.GetHash tx) eqn:E; [rewrite E | rewrite lookup_insert_eq]; by eexists.
Qed.

Lemma family_reached : pool_reached false TxWitness.open_settings family.
Proof.
  assert (pool_reached false TxWitness.open_settings (add_tx new_pool parent)) as H1.
  { eapply (reached_accept _ _ new_pool (entry_of parent) 0); [constructor | by vm_compute | by apply usual_single | by vm_compute | apply add_tx_eq]. }
  eapply (reached_accept _ _ _ (entry_of kid) 0); [exact H1 | by vm_compute | by apply usual_single | by vm_compute | apply add_tx_eq].
Qed.

Lemma mempool_consistent_witness :
  pool_ok false family
  /\ (forall h1 h2 e1 e2, mapTx family !! h1 = Some e1 -> mapTx family !! h2 = Some e2 -> h1 <> h2 ->
        (forall o i1 i2, spends false (e_tx e1) o i1 -> ~ spends false (e_tx e2) o i2)
        /\ (forall nf, nf ∈ nullifiers (e_tx e1) -> nf ∉ nullifiers (e_tx e2))).
Proof. apply (mempool_consistent false TxWitness.open_settings); [vm_compute; split; [discriminate | reflexivity] | apply family_reached]. Defined.

Lemma family_ok : pool_ok false family.
Proof. apply (reached_ok false TxWitness.open_settings); [vm_compute; split; [discriminate | reflexivity] | apply family_reached]. Qed.

Lemma remove_ends_witness :
  exists p' removed', remove family parent [] true = Some (p', removed') /\ pool_ok false p' /\ mapTx p' ⊆ mapTx family
    /\ forall h, mapTx p' !! h = None <-> mapTx family !! h = None \/ dependent false family (remove_roots family parent true) h.
Proof. apply remove_ends. apply family_ok. Defined.

Lemma block_clears_conflicts_witness :
  exists p' conflicts, removeForBlock family [rival] [] = Some (p', conflicts) /\ pool_ok false p' /\ mapTx p' ⊆ mapTx family
    /\ (forall tx, tx ∈ [rival] -> mapTx p' !! TxCheck.GetHash tx = None /\ forall h e, mapTx p' !! h = Some e -> ~ conflicts_with false tx (e_tx e))
    /\ (forall h e, mapTx family !! h = Some e -> mapTx p' !! h = None -> h ∈ map TxCheck.GetHash [rival] \/ ruled_out false family [rival] h).
Proof. apply block_clears_conflicts. apply family_ok. Defined.

(** The rival of the parent empties the pool; the parent alone leaves the kid in it. *)
Lemma family_after_blocks :
  (removeForBlock family [rival] [] ≫= fun r => Some (size (mapTx r.1), length r.2)) = Some (0%nat, 2%nat)
  /\ (removeForBlock family [parent] [] ≫= fun r => Some (size (mapTx r.1), length r.2)) = Some (1%nat, 0%nat).
Proof. split; vm_compute; reflexivity. Qed.

(** ** Where the code and its intent differ *)

(** [removeExpired] goes through a list that nothing was put on: no transaction ever expires. *)
Lemma removeExpired_keeps_all (p : CTxMemPool) (nBlockHeight : Z) : removeExpired p nBlockHeight = Some (p, []).
Proof. done. Qed.

(** [clear] leaves the nullifiers and the recently added transactions, which then point to
    transactions that are gone: the pool is empty, but it does not admit the transaction any more,
    [checkNullifiers] fails and [DrainRecentlyAdded] reads freed memory. *)
Lemma clear_leaves_pointers :
  let p := clear (add_tx new_pool rival) in
  mapTx p = ∅ /\ pool_admits p rival = false /\ checkNullifiers p = false /\ DrainRecentlyAdded p = None.
Proof. split; [done |]. split_and!; vm_compute; reflexivity. Qed.

(** [check] asserts that every input is marked, also the inputs of imports, which are never entered. *)
Lemma import_fails_check :
  check_maps (add_tx new_pool (pool_tx (replicate 32 1) Utxo.import_n [])) = false
  /\ check_maps family = true.
Proof. split; vm_compute; reflexivity. Qed.

(** With the lock of coinbases off, as it is by default, [removeForReorg] finds no coinbase
    immature, although it is called to remove the transactions that spend those. *)
Lemma reorg_keeps_immature (unlocktime : Z -> Z) (maturity_ nMemPoolHeight : Z) (c : coins) :
  (forall o, Coins.vout c !! 0%nat = Some o -> 0 <= nValue o < 2 ^ 63) -> immature unlocktime maturity_ (2 ^ 64 - 1) nMemPoolHeight (Some c) = false.
Proof.
  intros Hv. unfold immature. destruct (IsAvailable c 0) eqn:Ea; [| by rewrite andb_false_r, !andb_false_l, andb_false_r].
  destruct (Coins.vout c !! 0%nat) as [o |] eqn:Eo.
  - specialize (Hv o eq_refl). assert ((2 ^ 64 - 1 <=? u64 (nValue (default SetNull (Some o)))) = false) as ->; [| by rewrite !andb_false_r].
    apply Z.leb_gt. change (default SetNull (Some o)) with o. unfold u64. rewrite Z.mod_small; lia.
  - unfold IsAvailable in Ea. by rewrite Eo in Ea.
Qed.

End MempoolTheorems.
