(* ===== verification/AsMap.v ===== *)
(** * The map from addresses to autonomous systems (src/src/util/asmap.cpp)

    A map is a string of bits: a program for a small machine that reads the bits of
    an IP address and returns the number of an autonomous system.  [Interpret] runs
    it and asserts that it never runs off the program; [SanityCheckASMap] is the
    check at start-up that is to make this true.  An iterator over the program is
    the list of the bits from it to the end. *)
From S2P Require Import Prelude.
Local Open Scope Z_scope.

Module AsMap.

Abbreviation iterator := (list bool).

Definition INVALID : Z := 0xFFFFFFFF.

(** The inner loop of [DecodeBits]: [n] bits of the mantissa are left. *)
Fixpoint read_mantissa (n : nat) (val : Z) (bitpos : iterator) : Z * iterator :=
  match n with
  | O => (val, bitpos)
  | S n' =>
      match bitpos with
      | [] => (INVALID, [])
      | bit :: bitpos => read_mantissa n' (u32 (val + Z.shiftl (Z.b2z bit) (Z.of_nat n'))) bitpos
      end
  end.

Fixpoint DecodeBits (bitpos : iterator) (val : Z) (bit_sizes : list nat) {struct bit_sizes} :
    Z * iterator :=
  match bit_sizes with
  | [] => (INVALID, bitpos)
  | [size] => read_mantissa size val bitpos
  | size :: bit_sizes =>
      match bitpos with
      | [] => (INVALID, [])
      | true :: bitpos => DecodeBits bitpos (u32 (val + Z.shiftl 1 (Z.of_nat size))) bit_sizes
      | false :: bitpos => read_mantissa size val bitpos
      end
  end.

Inductive Instruction := RETURN | JUMP | MATCH | DEFAULT.

#[export] Instance Instruction_eq_dec : EqDecision Instruction.
Proof. solve_decision. Defined.

Definition TYPE_BIT_SIZES : list nat := [0; 0; 1]%nat.
Definition ASN_BIT_SIZES : list nat := [15; 16; 17; 18; 19; 20; 21; 22; 23; 24]%nat.
Definition MATCH_BIT_SIZES : list nat := [1; 2; 3; 4; 5; 6; 7; 8]%nat.
Definition JUMP_BIT_SIZES : list nat :=
  [5; 6; 7; 8; 9; 10; 11; 12; 13; 14; 15; 16; 17; 18; 19; 20; 21; 22; 23; 24; 25; 26; 27; 28;
   29; 30]%nat.

(** [None] is a value of the enumeration that no branch of the callers names. *)
Definition DecodeType (pos : iterator) : option Instruction * iterator :=
  let '(v, pos) := DecodeBits pos 0 TYPE_BIT_SIZES in
  (if v =? 0 then Some RETURN else if v =? 1 then Some JUMP
   else if v =? 2 then Some MATCH else if v =? 3 then Some DEFAULT else None, pos).

Definition DecodeASN (pos : iterator) : Z * iterator := DecodeBits pos 1 ASN_BIT_SIZES.
Definition DecodeMatch (pos : iterator) : Z * iterator := DecodeBits pos 2 MATCH_BIT_SIZES.
Definition DecodeJump (pos : iterator) : Z * iterator := DecodeBits pos 17 JUMP_BIT_SIZES.

(** [CountBits] of crypto/common.h, the loop over the 64 bits. *)
Fixpoint CountBits_loop (room : nat) (x ret : Z) : Z :=
  match room with
  | O => ret
  | S room => if x =? 0 then ret else CountBits_loop room (Z.shiftr x 1) (ret + 1)
  end.

Definition CountBits (x : Z) : Z := CountBits_loop 64 x 0.

(** ** The interpreter *)

(** [ip[ip.size() - bits]] *)
Definition ip_bit (ip : list bool) (bits : Z) : bool := nth (Z.to_nat (Zlen ip - bits)) ip false.

(** The loop of [MATCH]: [n] bits of the pattern are left; [None] when one differs. *)
Fixpoint match_loop (ip : list bool) (pattern : Z) (n : nat) (bits : Z) : option Z :=
  match n with
  | O => Some bits
  | S n' =>
      if Bool.eqb (ip_bit ip bits) (Z.testbit pattern (Z.of_nat n'))
      then match_loop ip pattern n' (u8 (bits - 1)) else None
  end.

(** One turn of the loop of [Interpret]: it ends with an answer, breaks, or goes on. *)
Inductive outcome := Answer (asn : Z) | Break | Continue (pos : iterator) (bits default_asn : Z).

Definition interpret_step (ip : list bool) (pos : iterator) (bits default_asn : Z) : outcome :=
  let '(opcode, pos) := DecodeType pos in
  match opcode with
  | Some RETURN =>
      let '(asn, pos) := DecodeASN pos in
      if asn =? INVALID then Break else Answer asn
  | Some JUMP =>
      let '(jump, pos) := DecodeJump pos in
      if jump =? INVALID then Break
      else if bits =? 0 then Break
      else if Zlen pos <=? jump then Break
      else Continue (if ip_bit ip bits then drop (Z.to_nat jump) pos else pos)
             (u8 (bits - 1)) default_asn
  | Some MATCH =>
      let '(pattern, pos) := DecodeMatch pos in
      if pattern =? INVALID then Break
      else
        let matchlen := u32 (CountBits pattern - 1) in
        if bits <? matchlen then Break
        else
          match match_loop ip pattern (Z.to_nat matchlen) bits with
          | None => Answer default_asn
          | Some bits => Continue pos bits default_asn
          end
  | Some DEFAULT =>
      let '(asn, pos) := DecodeASN pos in
      if asn =? INVALID then Break else Continue pos bits asn
  | None => Break
  end.

(** [None]: the assertion at the end fails. *)
Fixpoint interpret_loop (fuel : nat) (ip : list bool) (pos : iterator) (bits default_asn : Z) :
    option Z :=
  match fuel, pos with
  | O, _ | _, [] => None
  | S fuel, _ =>
      match interpret_step ip pos bits default_asn with
      | Answer asn => Some asn
      | Break => None
      | Continue pos bits default_asn => interpret_loop fuel ip pos bits default_asn
      end
  end.

Definition Interpret (asmap ip : list bool) : option Z :=
  interpret_loop (length asmap) ip asmap (u8 (Zlen ip)) 0.

(** ** The check at start-up *)

(** The locals of [SanityCheckASMap]; the last jump is at the head of [jumps]. *)
Record checker := Checker {
  pos : iterator; bits : Z; jumps : list (Z * Z); prevopcode : Instruction;
  had_incomplete_match : bool }.

Inductive verdict := Verdict (b : bool) | Go (c : checker).

(** [pos - begin], in 32 bits. *)
Definition offset_of (asmap : list bool) (pos : iterator) : Z := u32 (Zlen asmap - Zlen pos).

Definition into_jump (offset : Z) (js : list (Z * Z)) : bool :=
  match js with (target, _) :: _ => target <=? offset | [] => false end.

Definition sanity_step (asmap : list bool) (c : checker) : verdict :=
  if into_jump (offset_of asmap (pos c)) (jumps c) then Verdict false
  else
    let '(opcode, p) := DecodeType (pos c) in
    match opcode with
    | Some RETURN =>
        if decide (prevopcode c = DEFAULT) then Verdict false
        else
          let '(asn, p) := DecodeASN p in
          if asn =? INVALID then Verdict false
          else
            match jumps c with
            | [] =>
                if 7 <? Zlen p then Verdict false
                else Verdict (forallb negb p)
            | (target, bits') :: js =>
                if negb (offset_of asmap p =? target) then Verdict false
                else Go (Checker p bits' js JUMP (had_incomplete_match c))
            end
    | Some JUMP =>
        let '(jump, p) := DecodeJump p in
        if jump =? INVALID then Verdict false
        else if Zlen p <? jump then Verdict false
        else if bits c =? 0 then Verdict false
        else
          let bits' := bits c - 1 in
          let jump_offset := u32 (Zlen asmap - Zlen p + jump) in
          if into_jump jump_offset (jumps c) then Verdict false
          else Go (Checker p bits' ((jump_offset, bits') :: jumps c) JUMP (had_incomplete_match c))
    | Some MATCH =>
        let '(pattern, p) := DecodeMatch p in
        if pattern =? INVALID then Verdict false
        else
          let matchlen := CountBits pattern - 1 in
          let had := if decide (prevopcode c = MATCH) then had_incomplete_match c else false in
          if (matchlen <? 8) && had then Verdict false
          else if bits c <? matchlen then Verdict false
          else Go (Checker p (bits c - matchlen) (jumps c) MATCH (matchlen <? 8))
    | Some DEFAULT =>
        if decide (prevopcode c = DEFAULT) then Verdict false
        else
          let '(asn, p) := DecodeASN p in
          if asn =? INVALID then Verdict false
          else Go (Checker p (bits c) (jumps c) DEFAULT (had_incomplete_match c))
    | None => Verdict false
    end.

Fixpoint sanity_loop (fuel : nat) (asmap : list bool) (c : checker) : bool :=
  match fuel, pos c with
  | O, _ | _, [] => false
  | S fuel, _ =>
      match sanity_step asmap c with
      | Verdict b => b
      | Go c => sanity_loop fuel asmap c
      end
  end.

Definition SanityCheckASMap (asmap : list bool) (bits : Z) : bool :=
  sanity_loop (length asmap) asmap (Checker asmap bits [] JUMP false).

(** ** What a map means: a tree over the bits of an address *)

Inductive trie :=
  | TReturn (asn : Z)
  | TJump (zero one : trie)
  | TMatch (pattern : list bool) (t : trie)
  | TDefault (asn : Z) (t : trie).

Fixpoint matched (pattern ip : list bool) : option (list bool) :=
  match pattern, ip with
  | [], _ => Some ip
  | b :: pattern, c :: ip => if Bool.eqb c b then matched pattern ip else None
  | _, [] => None
  end.

(** The system of an address: the default in force when a pattern does not match. *)
Fixpoint system_of (t : trie) (default : Z) (ip : list bool) : Z :=
  match t with
  | TReturn asn => asn
  | TJump zero one =>
      match ip with
      | b :: ip => system_of (if b then one else zero) default ip
      | [] => default
      end
  | TMatch pattern t =>
      match matched pattern ip with
      | Some ip => system_of t default ip
      | None => default
      end
  | TDefault asn t => system_of t asn ip
  end.

(** The largest number that [DecodeASN] can read. *)
Definition asn_ok (asn : Z) : Prop := 1 <= asn <= 2 ^ 25 - 2 ^ 15.

(** A tree that reads at most [n] bits of the address, in which patterns have one to
    eight bits and no default is without effect. *)
Fixpoint fits (n : nat) (t : trie) : Prop :=
  match t with
  | TReturn asn => asn_ok asn
  | TJump zero one => match n with O => False | S n => fits n zero /\ fits n one end
  | TMatch pattern t =>
      (1 <= length pattern <= 8)%nat /\ (length pattern <= n)%nat /\ fits (n - length pattern) t
  | TDefault asn t =>
      asn_ok asn /\ fits n t /\
      match t with TReturn _ | TDefault _ _ => False | _ => True end
  end.

(** ** The bits of a tree *)

(** The [n] low bits of a number, the highest first, and a number from its bits after a one. *)
Fixpoint pattern_of (n : nat) (v : Z) : list bool :=
  match n with O => [] | S n => Z.testbit v (Z.of_nat n) :: pattern_of n v end.
Definition number_of (pattern : list bool) : Z := foldl (fun v b => 2 * v + Z.b2z b) 1 pattern.

(** A number of at least [base]: the classes of numbers follow each other, each named by
    ones and, but for the last, a zero, and a number is in its class by its position. *)
Fixpoint encode_num (v base : Z) (sizes : list nat) : list bool :=
  match sizes with
  | [] => []
  | [size] => pattern_of size (v - base)
  | size :: sizes =>
      if v <? base + 2 ^ Z.of_nat size then false :: pattern_of size (v - base)
      else true :: encode_num v (base + 2 ^ Z.of_nat size) sizes
  end.

Definition encode_op (i : Instruction) : list bool :=
  match i with
  | RETURN => [false]
  | JUMP => [true; false]
  | MATCH => [true; true; false]
  | DEFAULT => [true; true; true]
  end.

(** A jump names the length of the branch that it skips, which is the one for a zero. *)
Fixpoint encode (t : trie) : list bool :=
  match t with
  | TReturn asn => encode_op RETURN ++ encode_num asn 1 ASN_BIT_SIZES
  | TJump zero one =>
      encode_op JUMP ++ encode_num (Zlen (encode zero)) 17 JUMP_BIT_SIZES ++ encode zero ++ encode one
  | TMatch pattern t => encode_op MATCH ++ encode_num (number_of pattern) 2 MATCH_BIT_SIZES ++ encode t
  | TDefault asn t => encode_op DEFAULT ++ encode_num asn 1 ASN_BIT_SIZES ++ encode t
  end.
End AsMap.

Module AsMapFacts.
Import AsMap.

(** ** Reading numbers *)

Definition total (sizes : list nat) : Z := foldr (fun n s => 2 ^ Z.of_nat n + s) 0 sizes.

Lemma bits_total_nonneg sizes : 0 <= total sizes.
Proof. induction sizes as [|n l IH]; cbn; [done|]. pose proof (Z.pow_nonneg 2 (Z.of_nat n) ltac:(done)). fold (total l). lia. Qed.

Lemma total_pos n sizes : 0 < total (n :: sizes).
Proof.
  change (0 < 2 ^ Z.of_nat n + total sizes). pose proof (bits_total_nonneg sizes).
  pose proof (Z.pow_pos_nonneg 2 (Z.of_nat n) ltac:(done) ltac:(lia)). lia.
Qed.

Lemma read_mantissa_spec n val p v q :
  read_mantissa n val p = (v, q) -> 0 <= val -> val + 2 ^ Z.of_nat n <= 2 ^ 32 ->
  v = INVALID \/ (val <= v < val + 2 ^ Z.of_nat n /\ q `suffix_of` p).
Proof.
  revert val p. induction n as [|n IH]; intros val p E Hval Hb; cbn in E.
  { injection E as <- <-. right. change (2 ^ Z.of_nat 0) with 1. split; [lia|done]. }
  destruct p as [|b p]; [injection E as <- <-; by left|].
  rewrite Nat2Z.inj_succ, Z.pow_succ_r in * by lia.
  assert (Z.shiftl (Z.b2z b) (Z.of_nat n) = Z.b2z b * 2 ^ Z.of_nat n) as Es by (rewrite Z.shiftl_mul_pow2; lia).
  assert (0 < 2 ^ Z.of_nat n) by (apply Z.pow_pos_nonneg; lia).
  rewrite Es, u32_id in E by (unfold is_u; destruct b; cbn [Z.b2z]; lia).
  apply IH in E as [->|[Hv Hq]]; [by left| |destruct b; cbn [Z.b2z]; lia..].
  right. split; [destruct b; cbn [Z.b2z] in *; lia|by apply suffix_cons_r].
Qed.

Lemma DecodeBits_spec sizes val p v q :
  DecodeBits p val sizes = (v, q) -> 0 <= val -> val + total sizes <= 2 ^ 32 ->
  v = INVALID \/ (val <= v < val + total sizes /\ q `suffix_of` p /\
                  ((2 <= length sizes)%nat -> (length q < length p)%nat)).
Proof.
  revert val p. induction sizes as [|n [|m sizes] IH]; intros val p E Hval Hb.
  { cbn in E. injection E as <- <-. by left. }
  { cbn in E, Hb |- *. apply read_mantissa_spec in E as [->|[??]]; [by left| |lia..].
    right. split; [lia|]. split; [done|lia]. }
  pose proof (total_pos m sizes) as Ht.
  remember (m :: sizes) as rest eqn:Hrest.
  change (total (n :: rest)) with (2 ^ Z.of_nat n + total rest) in *.
  assert (0 < 2 ^ Z.of_nat n) by (apply Z.pow_pos_nonneg; lia).
  assert (exists p', p = [] \/ (p = true :: p' /\ DecodeBits p' (u32 (val + Z.shiftl 1 (Z.of_nat n))) rest = (v, q))
          \/ (p = false :: p' /\ read_mantissa n val p' = (v, q))) as [p' [->|[[-> E']|[-> E']]]].
  { subst rest. destruct p as [|[] p']; [by exists []; left|..];
      exists p'; [right; left|right; right]; by split. }
  - subst rest. cbn in E. injection E as <- <-. by left.
  - rewrite Z.shiftl_1_l, u32_id in E' by (unfold is_u; lia).
    apply IH in E' as [->|(Hv & Hq & Hlen)]; [by left| |lia..].
    right. split; [lia|]. pose proof (suffix_length _ _ Hq).
    split; [by apply suffix_cons_r|cbn; lia].
  - apply read_mantissa_spec in E' as [->|[Hv Hq]]; [by left| |lia..].
    right. split; [lia|]. pose proof (suffix_length _ _ Hq).
    split; [by apply suffix_cons_r|cbn; lia].
Qed.

(** ** What was read is the encoding *)

Lemma pattern_of_mod n m v : (n <= m)%nat -> pattern_of n (v mod 2 ^ Z.of_nat m) = pattern_of n v.
Proof. induction n as [|n IH]; intros Hn; [done|]. cbn. rewrite Z.mod_pow2_bits_low, IH by lia. done. Qed.

Lemma pattern_of_S n b r :
  0 <= r < 2 ^ Z.of_nat n -> pattern_of (S n) (Z.b2z b * 2 ^ Z.of_nat n + r) = b :: pattern_of n r.
Proof.
  intros Hr. cbn [pattern_of]. f_equal.
  - replace (Z.of_nat n) with (0 + Z.of_nat n) at 2 by lia. rewrite <-Z.div_pow2_bits by lia.
    rewrite Z.div_add_l, Z.div_small, Z.add_0_r by lia. by destruct b.
  - rewrite <-(pattern_of_mod n n) by done. rewrite Z.add_comm, Z.mod_add by lia. by rewrite Z.mod_small.
Qed.

Lemma read_mantissa_bits n val p v q :
  read_mantissa n val p = (v, q) -> v <> INVALID -> 0 <= val -> val + 2 ^ Z.of_nat n <= 2 ^ 32 ->
  p = pattern_of n (v - val) ++ q.
Proof.
  revert val p. induction n as [|n IH]; intros val p E Hv Hval Hb; [by injection E as <- <-|]. cbn [read_mantissa] in E.
  destruct p as [|b p]; [injection E as <- <-; done|].
  rewrite Nat2Z.inj_succ, Z.pow_succ_r in Hb by lia.
  assert (Z.shiftl (Z.b2z b) (Z.of_nat n) = Z.b2z b * 2 ^ Z.of_nat n) as Es by (rewrite Z.shiftl_mul_pow2; lia).
  assert (0 < 2 ^ Z.of_nat n) by (apply Z.pow_pos_nonneg; lia).
  rewrite Es, u32_id in E by (unfold is_u; destruct b; cbn [Z.b2z]; lia).
  assert (0 <= val + Z.b2z b * 2 ^ Z.of_nat n /\ val + Z.b2z b * 2 ^ Z.of_nat n + 2 ^ Z.of_nat n <= 2 ^ 32) as [H1 H2]
    by (destruct b; cbn [Z.b2z]; lia).
  destruct (read_mantissa_spec _ _ _ _ _ E H1 H2) as [?|[Hr _]]; [done|].
  rewrite (IH _ _ E Hv H1 H2) at 1.
  replace (v - val) with (Z.b2z b * 2 ^ Z.of_nat n + (v - (val + Z.b2z b * 2 ^ Z.of_nat n))) by lia.
  rewrite pattern_of_S by lia. done.
Qed.

Lemma DecodeBits_bits sizes val p v q :
  DecodeBits p val sizes = (v, q) -> v <> INVALID -> 0 <= val -> val + total sizes <= 2 ^ 32 ->
  p = encode_num v val sizes ++ q.
Proof.
  revert val p. induction sizes as [|n [|m sizes] IH]; intros val p E Hv Hval Hb.
  { injection E as <- <-. done. }
  { cbn in E, Hb |- *. apply read_mantissa_bits; (done || lia). }
  pose proof (total_pos m sizes) as Ht.
  change (total (n :: m :: sizes)) with (2 ^ Z.of_nat n + total (m :: sizes)) in Hb.
  assert (0 < 2 ^ Z.of_nat n) by (apply Z.pow_pos_nonneg; lia).
  change (DecodeBits p val (n :: m :: sizes)) with
    (match p with
     | [] => (INVALID, [])
     | true :: p => DecodeBits p (u32 (val + Z.shiftl 1 (Z.of_nat n))) (m :: sizes)
     | false :: p => read_mantissa n val p
     end) in E.
  change (encode_num v val (n :: m :: sizes)) with
    (if v <? val + 2 ^ Z.of_nat n then false :: pattern_of n (v - val)
     else true :: encode_num v (val + 2 ^ Z.of_nat n) (m :: sizes)).
  destruct p as [|[] p]; [injection E as <- <-; done|..].
  - rewrite Z.shiftl_1_l, u32_id in E by (unfold is_u; lia).
    destruct (DecodeBits_spec _ _ _ _ _ E) as [?|[Hr _]]; [lia|lia|done|].
    rewrite (proj2 (Z.ltb_ge _ _)) by lia. cbn [app]. f_equal. apply IH; (done || lia).
  - destruct (read_mantissa_spec _ _ _ _ _ E) as [?|[Hr _]]; [lia|lia|done|].
    rewrite (proj2 (Z.ltb_lt _ _)) by lia. cbn [app]. f_equal. apply read_mantissa_bits; (done || lia).
Qed.

Lemma DecodeType_bits p op q : DecodeType p = (Some op, q) -> p = encode_op op ++ q.
Proof.
  unfold DecodeType. destruct (DecodeBits p 0 TYPE_BIT_SIZES) as [v q'] eqn:E. intros [= Hop ->].
  assert (v <> INVALID) as Hv by (intros ->; discriminate Hop).
  rewrite (DecodeBits_bits _ _ _ _ _ E Hv) at 1 by done.
  destruct (Z.eqb_spec v 0) as [->|]; [by injection Hop as <-|].
  destruct (Z.eqb_spec v 1) as [->|]; [by injection Hop as <-|].
  destruct (Z.eqb_spec v 2) as [->|]; [by injection Hop as <-|].
  destruct (Z.eqb_spec v 3) as [->|]; [by injection Hop as <-|done].
Qed.

Lemma DecodeASN_bits p v q : DecodeASN p = (v, q) -> v <> INVALID -> p = encode_num v 1 ASN_BIT_SIZES ++ q.
Proof. intros E Hv. by apply DecodeBits_bits. Qed.
Lemma DecodeJump_bits p v q : DecodeJump p = (v, q) -> v <> INVALID -> p = encode_num v 17 JUMP_BIT_SIZES ++ q.
Proof. intros E Hv. by apply DecodeBits_bits. Qed.

(** The pattern of a number is what follows its highest one. *)
Lemma number_of_pattern v : 2 <= v < 512 -> number_of (pattern_of (Z.to_nat (CountBits v - 1)) v) = v.
Proof.
  intros Hv. refine (Zrange_check 512 (fun v => 2 <= v -> number_of (pattern_of (Z.to_nat (CountBits v - 1)) v) = v) _ v _ _); [|lia..].
  vm_compute. done.
Qed.

Lemma DecodeMatch_bits p v q :
  DecodeMatch p = (v, q) -> v <> INVALID ->
  p = encode_num (number_of (pattern_of (Z.to_nat (CountBits v - 1)) v)) 2 MATCH_BIT_SIZES ++ q.
Proof.
  intros E Hv. rewrite number_of_pattern; [by apply DecodeBits_bits|].
  destruct (DecodeBits_spec _ _ _ _ _ E) as [?|[Hr _]]; [lia|done|done|].
  change (total MATCH_BIT_SIZES) with 510 in Hr. lia.
Qed.

Definition shorter (q p : iterator) : Prop := q `suffix_of` p /\ (length q < length p)%nat.

Lemma shorter_trans r q p : shorter r q -> shorter q p -> shorter r p.
Proof. intros [H1 L1] [H2 L2]. split; [by etrans|lia]. Qed.

Lemma DecodeType_spec p op q : DecodeType p = (Some op, q) -> shorter q p.
Proof.
  unfold DecodeType. destruct (DecodeBits p 0 TYPE_BIT_SIZES) as [v q'] eqn:E. intros [= Hop ->].
  apply DecodeBits_spec in E as [->|(_ & Hq & Hlen)]; [discriminate Hop|split; [done|apply Hlen; cbn; lia]|lia|done].
Qed.

Lemma DecodeASN_spec p v q : DecodeASN p = (v, q) -> v <> INVALID -> asn_ok v /\ shorter q p.
Proof.
  intros E Hv. apply DecodeBits_spec in E as [?|(Hr & Hq & Hlen)]; [done| |lia|done].
  split; [split; [lia|]|split; [done|apply Hlen; cbn; lia]].
  change (total ASN_BIT_SIZES) with (2 ^ 25 - 2 ^ 15) in Hr. lia.
Qed.

Lemma DecodeJump_spec p v q : DecodeJump p = (v, q) -> v <> INVALID -> 17 <= v < 2 ^ 32 /\ shorter q p.
Proof.
  intros E Hv. apply DecodeBits_spec in E as [?|(Hr & Hq & Hlen)]; [done| |lia|done].
  split; [|split; [done|apply Hlen; cbn; lia]].
  change (total JUMP_BIT_SIZES) with (2 ^ 31 - 2 ^ 5) in Hr. lia.
Qed.

Lemma CountBits_match v : 2 <= v < 512 -> 1 <= CountBits v - 1 <= 8.
Proof.
  intros Hv. refine (Zrange_check 512 (fun v => 2 <= v -> 1 <= CountBits v - 1 <= 8) _ v _ _); [|lia..].
  vm_compute. done.
Qed.

Lemma DecodeMatch_spec p v q :
  DecodeMatch p = (v, q) -> v <> INVALID -> 1 <= CountBits v - 1 <= 8 /\ shorter q p.
Proof.
  intros E Hv. apply DecodeBits_spec in E as [?|(Hr & Hq & Hlen)]; [done| |lia|done].
  split; [apply CountBits_match|split; [done|apply Hlen; cbn; lia]].
  change (total MATCH_BIT_SIZES) with 510 in Hr. lia.
Qed.

(** ** Running a program *)

(** The bits of the address that are left. *)
Definition left_bits (ip : list bool) (n : nat) : list bool := drop (length ip - n) ip.

Lemma left_bits_S ip n :
  (S n <= length ip)%nat -> left_bits ip (S n) = ip_bit ip (Z.of_nat (S n)) :: left_bits ip n.
Proof.
  intros Hn. unfold left_bits, ip_bit, Zlen.
  replace (Z.to_nat (Z.of_nat (length ip) - Z.of_nat (S n))) with (length ip - S n)%nat by lia.
  replace (length ip - n)%nat with (S (length ip - S n)) by lia.
  apply drop_S. rewrite nth_lookup.
  destruct (ip !! (length ip - S n)%nat) eqn:E; [done|].
  apply lookup_ge_None in E. lia.
Qed.

Lemma length_pattern_of n v : length (pattern_of n v) = n.
Proof. induction n; cbn; congruence. Qed.

Lemma match_loop_spec ip v n : forall k,
  (n <= k <= length ip)%nat -> (length ip <= 255)%nat ->
  match_loop ip v n (Z.of_nat k) =
    match matched (pattern_of n v) (left_bits ip k) with Some _ => Some (Z.of_nat (k - n)) | None => None end /\
  (forall r, matched (pattern_of n v) (left_bits ip k) = Some r -> r = left_bits ip (k - n)).
Proof.
  induction n as [|n IH]; intros k Hk Hip.
  { cbn. rewrite Nat.sub_0_r. split; [done|congruence]. }
  destruct k as [|k]; [lia|]. cbn [pattern_of matched match_loop].
  rewrite left_bits_S by lia. cbn [matched].
  destruct (Bool.eqb _ _); [|done].
  replace (u8 (Z.of_nat (S k) - 1)) with (Z.of_nat k)
    by (replace (Z.of_nat (S k) - 1) with (Z.of_nat k) by lia;
        symmetry; apply u8_id; unfold byte_ok; lia).
  apply (IH k); lia.
Qed.

(** From [p] on, with [n] bits left, the interpreter answers like the tree. *)
Definition runs (p : iterator) (n : nat) (t : trie) : Prop :=
  forall ip default fuel,
    (n <= length ip <= 255)%nat -> (length p <= fuel)%nat ->
    interpret_loop fuel ip p (Z.of_nat n) default =
      Some (system_of t default (left_bits ip n)).

Lemma runs_unfold p n t :
  p <> [] ->
  (forall ip default, (n <= length ip <= 255)%nat ->
     match interpret_step ip p (Z.of_nat n) default with
     | Answer asn => system_of t default (left_bits ip n) = asn
     | Break => False
     | Continue q m d => exists k t', m = Z.of_nat k /\ (k <= n)%nat /\ runs q k t' /\
         (length q < length p)%nat /\
         system_of t default (left_bits ip n) = system_of t' d (left_bits ip k)
     end) -> runs p n t.
Proof.
  intros Hp Hstep ip default fuel Hip Hfuel. specialize (Hstep ip default Hip).
  destruct p as [|b p]; [done|]. destruct fuel as [|fuel]; [cbn in Hfuel; lia|].
  cbn [interpret_loop]. destruct (interpret_step ip (b :: p) (Z.of_nat n) default) as [asn| |q m d]; [congruence|done|].
  destruct Hstep as (k & t' & -> & Hk & Hr & Hlen & ->).
  apply Hr; [lia|cbn in *; lia].
Qed.

Lemma runs_nonempty p n t : (n <= 255)%nat -> runs p n t -> p <> [].
Proof.
  intros Hn Hr ->. specialize (Hr (replicate n false) 0 0%nat). rewrite length_replicate in Hr.
  cbn in Hr. discriminate Hr; cbn; lia.
Qed.

Lemma shorter_nonempty q p : shorter q p -> p <> [].
Proof. intros [_ Hl] ->. cbn in Hl. lia. Qed.

Section Steps.
Context (p q : iterator) (n : nat).

Lemma runs_return v r :
  DecodeType p = (Some RETURN, q) -> DecodeASN q = (v, r) -> v <> INVALID ->
  runs p n (TReturn v).
Proof.
  intros Ht Ha Hv. apply runs_unfold; [by eapply shorter_nonempty, DecodeType_spec|].
  intros ip d _. unfold interpret_step. rewrite Ht, Ha, (proj2 (Z.eqb_neq _ _) Hv). done.
Qed.

Lemma runs_default v r t :
  DecodeType p = (Some DEFAULT, q) -> DecodeASN q = (v, r) -> v <> INVALID ->
  runs r n t -> runs p n (TDefault v t).
Proof.
  intros Ht Ha Hv Hr. pose proof (DecodeType_spec _ _ _ Ht) as Hq.
  destruct (DecodeASN_spec _ _ _ Ha Hv) as [_ Hs].
  apply runs_unfold; [by eapply shorter_nonempty|].
  intros ip d _. unfold interpret_step. rewrite Ht, Ha, (proj2 (Z.eqb_neq _ _) Hv).
  exists n, t. repeat split; auto. apply (shorter_trans _ _ _ Hs Hq).
Qed.

Lemma runs_jump v r zero one :
  DecodeType p = (Some JUMP, q) -> DecodeJump q = (v, r) -> v <> INVALID -> v < Zlen r ->
  (n < 255)%nat ->
  runs r n zero -> runs (drop (Z.to_nat v) r) n one -> runs p (S n) (TJump zero one).
Proof.
  intros Ht Ha Hv Hlen Hn H0 H1. pose proof (DecodeType_spec _ _ _ Ht) as Hq.
  destruct (DecodeJump_spec _ _ _ Ha Hv) as [Hvr Hs].
  pose proof (shorter_trans _ _ _ Hs Hq) as [_ Hl].
  apply runs_unfold; [by eapply shorter_nonempty|].
  intros ip d Hip. unfold interpret_step. rewrite Ht, Ha, (proj2 (Z.eqb_neq _ _) Hv).
  rewrite (proj2 (Z.eqb_neq (Z.of_nat (S n)) 0)), (proj2 (Z.leb_gt _ _) Hlen) by lia.
  replace (u8 (Z.of_nat (S n) - 1)) with (Z.of_nat n)
    by (replace (Z.of_nat (S n) - 1) with (Z.of_nat n) by lia; symmetry; apply u8_id; unfold byte_ok; lia).
  exists n, (if ip_bit ip (Z.of_nat (S n)) then one else zero).
  rewrite left_bits_S by lia. cbn [system_of].
  repeat split; [lia|by destruct (ip_bit _ _)|].
  destruct (ip_bit _ _); [rewrite length_drop|]; lia.
Qed.

Lemma runs_match v r t :
  DecodeType p = (Some MATCH, q) -> DecodeMatch q = (v, r) -> v <> INVALID ->
  let len := Z.to_nat (CountBits v - 1) in
  (len <= n)%nat -> runs r (n - len) t -> runs p n (TMatch (pattern_of len v) t).
Proof.
  intros Ht Ha Hv len Hlen Hr. pose proof (DecodeType_spec _ _ _ Ht) as Hq.
  destruct (DecodeMatch_spec _ _ _ Ha Hv) as [Hc Hs].
  pose proof (shorter_trans _ _ _ Hs Hq) as [_ Hl].
  apply runs_unfold; [by eapply shorter_nonempty|].
  intros ip d Hip. unfold interpret_step. rewrite Ht, Ha, (proj2 (Z.eqb_neq _ _) Hv).
  rewrite u32_id by (unfold is_u; lia). fold len.
  rewrite (proj2 (Z.ltb_ge _ _)) by lia.
  destruct (match_loop_spec ip v len n) as [-> Hm]; [lia..|].
  cbn [system_of]. destruct (matched _ _) as [rest|] eqn:E; [|done].
  exists (n - len)%nat, t. rewrite (Hm rest eq_refl). repeat split; [lia|done|lia].
Qed.
End Steps.
End AsMapFacts.

Module AsMapTheorems.
Import AsMap AsMapFacts.

Section Sanity.
Context (asmap : list bool) (Hsize : Zlen asmap < 2 ^ 32).

(** From [p] on there is the encoding of a tree that fits in [n] bits and that the
    interpreter follows. *)
Definition entry (p : iterator) (n : Z) (t : trie) (tail : iterator) : Prop :=
  p = encode t ++ tail /\ fits (Z.to_nat n) t /\ runs p (Z.to_nat n) t.

(** What follows the tree: those that the open jumps lead to, one after the other, and at
    the end less than a byte of padding. *)
Fixpoint rest_ok (js : list (Z * Z)) (p : iterator) : Prop :=
  match js with
  | [] => (length p <= 7)%nat /\ Forall (fun b => b = false) p
  | (target, n) :: js =>
      p = drop (Z.to_nat target) asmap /\ exists t tail, entry p n t tail /\ rest_ok js tail
  end.

Lemma drop_suffix (p : iterator) : p `suffix_of` asmap -> drop (length asmap - length p) asmap = p.
Proof.
  intros [k ->]. rewrite length_app.
  replace (length k + length p - length p)%nat with (length k) by lia. apply drop_app_length.
Qed.

Lemma offset_exact p : p `suffix_of` asmap -> offset_of asmap p = Z.of_nat (length asmap - length p).
Proof.
  intros Hs. pose proof (suffix_length _ _ Hs) as Hl. unfold offset_of, Zlen in *.
  rewrite u32_id by (unfold is_u; lia). lia.
Qed.

Lemma suffix_of_shorter q p : shorter q p -> p `suffix_of` asmap -> q `suffix_of` asmap.
Proof. intros [? _] ?. by etrans. Qed.

(** A jump that the check lets pass leads to where it continues later. *)
Lemma jump_target p jump :
  p `suffix_of` asmap -> 0 <= jump <= Zlen p ->
  drop (Z.to_nat (u32 (Zlen asmap - Zlen p + jump))) asmap = drop (Z.to_nat jump) p.
Proof using Hsize.
  intros Hs Hj. pose proof (suffix_length _ _ Hs) as Hl. unfold Zlen in *.
  rewrite u32_id by (unfold is_u; lia).
  replace (Z.to_nat _) with (length asmap - length p + Z.to_nat jump)%nat by lia.
  by rewrite <-drop_drop, drop_suffix.
Qed.

Definition flat (t : trie) : Prop := match t with TReturn _ | TDefault _ _ => True | _ => False end.

Definition checked (c : checker) : Prop :=
  exists t tail, entry (pos c) (bits c) t tail /\ (prevopcode c = DEFAULT -> ~ flat t) /\ rest_ok (jumps c) tail.

Definition in_bounds (c : checker) : Prop :=
  pos c `suffix_of` asmap /\ 0 <= bits c <= 255 /\ Forall (fun j => 0 <= j.2 <= 255) (jumps c).

(** One turn of the check, by instruction: what it goes on to check is enough for
    what it is at. *)
Section Turn.
Context (c c' : checker) (p : iterator) (E : sanity_step asmap c = Go c') (Hc : in_bounds c).

Lemma turn_return : DecodeType (pos c) = (Some RETURN, p) -> in_bounds c' /\ (checked c' -> checked c).
Proof using Hsize E Hc.
  intros Et. destruct Hc as (Hs & Hb & Hj). pose proof (DecodeType_spec _ _ _ Et) as Hp.
  pose proof (suffix_of_shorter _ _ Hp Hs) as Hps.
  unfold sanity_step in E. rewrite Et in E. destruct (into_jump _ _); [done|].
  destruct (decide _) as [|Hprev]; [done|]. destruct (DecodeASN p) as [v q] eqn:Ea.
  destruct (Z.eqb_spec v INVALID) as [|Hv]; [done|]. destruct (DecodeASN_spec _ _ _ Ea Hv) as [Hok Hq].
  pose proof (suffix_of_shorter _ _ Hq Hps) as Hqs.
  destruct (jumps c) as [|[target b] js] eqn:Ejs; [by destruct (7 <? _)|].
  rewrite offset_exact in E by done.
  destruct (Z.eqb_spec (Z.of_nat (length asmap - length q)) target) as [<-|]; [|done]. injection E as <-.
  inversion Hj as [|?? Hb' Hjs]; subst. split; [split; [done|by split]|].
  intros (t & tail & (Hp' & Hf & Hr) & _ & Hts). exists (TReturn v), q. rewrite Ejs. cbn [pos bits jumps] in *.
  split; [|split; [done|]].
  - split; [|split; [done|by eapply runs_return]].
    rewrite (DecodeType_bits _ _ _ Et), (DecodeASN_bits _ _ _ Ea Hv) at 1. cbn [encode]. by rewrite app_assoc.
  - cbn [rest_ok]. rewrite Nat2Z.id, drop_suffix by done. split; [done|]. by exists t, tail.
Qed.

Lemma turn_jump : DecodeType (pos c) = (Some JUMP, p) -> in_bounds c' /\ (checked c' -> checked c).
Proof using Hsize E Hc.
  intros Et. destruct Hc as (Hs & Hb & Hj). pose proof (DecodeType_spec _ _ _ Et) as Hp.
  pose proof (suffix_of_shorter _ _ Hp Hs) as Hps.
  unfold sanity_step in E. rewrite Et in E. destruct (into_jump _ _); [done|].
  destruct (DecodeJump p) as [v q] eqn:Ea.
  destruct (Z.eqb_spec v INVALID) as [|Hv]; [done|]. destruct (DecodeJump_spec _ _ _ Ea Hv) as [Hvr Hq].
  pose proof (suffix_of_shorter _ _ Hq Hps) as Hqs.
  destruct (Z.ltb_spec (Zlen q) v) as [|Hlen]; [done|].
  destruct (Z.eqb_spec (bits c) 0) as [|Hb0]; [done|]. destruct (into_jump _ _); [done|]. injection E as <-.
  assert (exists n, bits c = Z.of_nat (S n)) as [n En] by (exists (Z.to_nat (bits c - 1)); lia).
  rewrite En in *. replace (Z.of_nat (S n) - 1) with (Z.of_nat n) in * by lia.
  split; [repeat split; cbn; [done|lia|lia|constructor; [cbn; lia|done]]|].
  intros (t0 & tail & (Hp0 & Hf0 & Hr0) & _ & (Etail & t1 & tail1 & (Hp1 & Hf1 & Hr1) & Hts)).
  cbn [fst snd bits pos jumps] in *. rewrite jump_target in Etail by (done || lia). rewrite !Nat2Z.id in *.
  assert (Zlen (encode t0) = v) as El.
  { apply (f_equal length) in Etail. rewrite length_drop, Hp0, length_app in Etail. unfold Zlen in *.
    rewrite Hp0, length_app in Hlen. lia. }
  exists (TJump t0 t1), tail1. split; [|split; [by cbn; auto|done]].
  rewrite En. split; [|rewrite Nat2Z.id; split; [done|]].
  { rewrite (DecodeType_bits _ _ _ Et), (DecodeJump_bits _ _ _ Ea Hv), Hp0, Hp1 at 1. cbn [encode]. rewrite El. by rewrite <-!app_assoc. }
  rewrite Etail in Hr1. assert (drop (Z.to_nat v) q <> []) as Hne by (eapply runs_nonempty; [|exact Hr1]; lia).
  apply (runs_jump (pos c) p n v q); [done..| |lia|done|done].
  destruct (decide (v < Zlen q)); [done|]. destruct Hne. apply drop_ge. unfold Zlen in *. lia.
Qed.

Lemma turn_match : DecodeType (pos c) = (Some MATCH, p) -> in_bounds c' /\ (checked c' -> checked c).
Proof using Hsize E Hc.
  intros Et. destruct Hc as (Hs & Hb & Hj). pose proof (DecodeType_spec _ _ _ Et) as Hp.
  pose proof (suffix_of_shorter _ _ Hp Hs) as Hps.
  unfold sanity_step in E. rewrite Et in E. destruct (into_jump _ _); [done|].
  destruct (DecodeMatch p) as [v q] eqn:Ea.
  destruct (Z.eqb_spec v INVALID) as [|Hv]; [done|]. destruct (DecodeMatch_spec _ _ _ Ea Hv) as [Hcb Hq].
  pose proof (suffix_of_shorter _ _ Hq Hps) as Hqs. destruct (_ && _); [done|].
  destruct (Z.ltb_spec (bits c) (CountBits v - 1)) as [|Hlen]; [done|]. injection E as <-.
  split; [repeat split; cbn [pos bits jumps]; (done || lia)|].
  intros (t & tail & (Hp' & Hf & Hr) & _ & Hts). cbn [bits pos jumps] in *.
  replace (Z.to_nat (bits c - (CountBits v - 1))) with (Z.to_nat (bits c) - Z.to_nat (CountBits v - 1))%nat in * by lia.
  exists (TMatch (pattern_of (Z.to_nat (CountBits v - 1)) v) t), tail. split; [|split; [by intros _ []|done]].
  split; [|split].
  - rewrite (DecodeType_bits _ _ _ Et), (DecodeMatch_bits _ _ _ Ea Hv), Hp' at 1. cbn [encode]. by rewrite <-!app_assoc.
  - cbn [fits]. rewrite length_pattern_of. repeat split; [lia..|done].
  - apply (runs_match (pos c) p _ v q); [done..|lia|done].
Qed.

Lemma turn_default : DecodeType (pos c) = (Some DEFAULT, p) -> in_bounds c' /\ (checked c' -> checked c).
Proof using Hsize E Hc.
  intros Et. destruct Hc as (Hs & Hb & Hj). pose proof (DecodeType_spec _ _ _ Et) as Hp.
  pose proof (suffix_of_shorter _ _ Hp Hs) as Hps.
  unfold sanity_step in E. rewrite Et in E. destruct (into_jump _ _); [done|].
  destruct (decide _) as [|Hprev]; [done|]. destruct (DecodeASN p) as [v q] eqn:Ea.
  destruct (Z.eqb_spec v INVALID) as [|Hv]; [done|]. destruct (DecodeASN_spec _ _ _ Ea Hv) as [Hok Hq].
  pose proof (suffix_of_shorter _ _ Hq Hps) as Hqs. injection E as <-.
  split; [split; [done|by split]|]. intros (t & tail & (Hp' & Hf & Hr) & Ht & Hts). cbn [bits pos jumps prevopcode] in *.
  exists (TDefault v t), tail. split; [|done]. split; [|split].
  - rewrite (DecodeType_bits _ _ _ Et), (DecodeASN_bits _ _ _ Ea Hv), Hp' at 1. cbn [encode]. by rewrite <-!app_assoc.
  - split; [done|split; [done|by destruct t; auto; apply Ht]].
  - by eapply runs_default.
Qed.

End Turn.

Lemma sanity_step_sound c c' :
  sanity_step asmap c = Go c' -> in_bounds c -> in_bounds c' /\ (checked c' -> checked c).
Proof using Hsize.
  intros E Hc. destruct (DecodeType (pos c)) as [[op|] p] eqn:Et.
  - destruct op; [by eapply turn_return|by eapply turn_jump|by eapply turn_match|by eapply turn_default].
  - unfold sanity_step in E. rewrite Et in E. by destruct (into_jump _ _).
Qed.

Lemma sanity_end c : sanity_step asmap c = Verdict true -> checked c.
Proof.
  unfold sanity_step. destruct (into_jump _ _); [done|].
  destruct (DecodeType (pos c)) as [[op|] p] eqn:Et; [|done]. destruct op.
  - destruct (decide _) as [|Hprev]; [done|]. destruct (DecodeASN p) as [v q] eqn:Ea.
    destruct (Z.eqb_spec v INVALID) as [|Hv]; [done|]. destruct (DecodeASN_spec _ _ _ Ea Hv) as [Hok Hq].
    destruct (jumps c) as [|[target b] js] eqn:Ejs; [|by destruct (negb _)].
    destruct (Z.ltb_spec 7 (Zlen q)) as [|Hlen]; [done|]. intros [= Hpad].
    exists (TReturn v), q. rewrite Ejs. split; [|split; [done|]].
    + split; [|split; [done|by eapply runs_return]].
      rewrite (DecodeType_bits _ _ _ Et), (DecodeASN_bits _ _ _ Ea Hv) at 1. cbn [encode]. by rewrite app_assoc.
    + split; [unfold Zlen in Hlen; lia|]. rewrite forallb_forall in Hpad. apply List.Forall_forall. intros x Hx.
      by apply negb_true_iff, Hpad.
  - destruct (DecodeJump p) as [v q]. by repeat case_match.
  - destruct (DecodeMatch p) as [v q]. by repeat case_match.
  - destruct (decide _); [done|]. destruct (DecodeASN p) as [v q]. by repeat case_match.
Qed.

Lemma sanity_loop_sound fuel c : sanity_loop fuel asmap c = true -> in_bounds c -> checked c.
Proof using Hsize.
  revert c. induction fuel as [|fuel IH]; intros c E Hc; [done|]. cbn [sanity_loop] in E.
  destruct (pos c) as [|b p] eqn:Ep; [done|]. destruct (sanity_step asmap c) as [v|c'] eqn:Es.
  - subst v. by apply sanity_end.
  - destruct (sanity_step_sound c c' Es Hc) as [Hc' Hback]. apply Hback, IH; done.
Qed.
End Sanity.

(** [C38] A map that [SanityCheckASMap] accepts is the encoding of a decision tree over
    the bits of an address, and [Interpret] follows it.  The bits of the map are
    those of a tree, instruction by instruction as [encode] writes them: the
    branch for a zero right after its jump, the one for a one after it, and at the end at most
    seven zero bits.  The tree reads no more bits than an address has, no default in
    it is without effect and every system has a number from 1 to 2^25 - 2^15; and on every
    address [Interpret] returns the system that the tree gives it.  In particular the
    assertion at its end cannot fail, whatever the bits of the map are. *)
Theorem checked_map_interprets asmap bits :
  Zlen asmap < 2 ^ 32 -> 0 <= bits <= 255 -> SanityCheckASMap asmap bits = true ->
  exists t pad, asmap = encode t ++ pad /\ (length pad <= 7)%nat /\ Forall (fun b => b = false) pad /\
    fits (Z.to_nat bits) t /\
    forall ip, Zlen ip = bits -> Interpret asmap ip = Some (system_of t 0 ip).
Proof.
  intros Hsize Hb E. destruct (sanity_loop_sound asmap Hsize _ _ E) as (t & pad & (Hp & Hf & Hr) & _ & Hl & Hz);
    [split; [done|split; [cbn; lia|constructor]]|].
  exists t, pad. cbn in *. split; [done|]. split; [done|]. split; [done|]. split; [done|].
  intros ip <-. unfold Interpret, Zlen in *.
  rewrite u8_id by (unfold byte_ok; lia). rewrite Nat2Z.id in *.
  rewrite (Hr ip 0 (length asmap)) by lia. unfold left_bits. by rewrite Nat.sub_diag.
Qed.

(** A map that jumps on the first bit: system 3 for addresses that begin with 0, the
    default 5 for those that begin with 1, unless the pattern 01 follows (system 7). *)
Definition asn_bits (asn : Z) : list bool :=
  false :: map (fun i => Z.testbit (asn - 1) (14 - Z.of_nat i)) (seq 0 15).
Definition sample : list bool :=
  [true; false] ++ [false; false; false; false; false; false] ++
  [false] ++ asn_bits 3 ++
  [true; true; true] ++ asn_bits 5 ++ [true; true; false] ++ [true; false; false; true] ++
  [false] ++ asn_bits 7.

Example sample_encodes :
  sample = encode (TJump (TReturn 3) (TDefault 5 (TMatch [false; true] (TReturn 7)))).
Proof. vm_compute. done. Qed.

Lemma checked_map_interprets_witness :
  SanityCheckASMap sample 128 = true /\ Interpret sample (true :: false :: true :: replicate 125 false) = Some 7 /\
  exists t pad, sample = encode t ++ pad /\ (length pad <= 7)%nat /\ Forall (fun b => b = false) pad /\
    fits (Z.to_nat 128) t /\
    forall ip, Zlen ip = 128 -> Interpret sample ip = Some (system_of t 0 ip).
Proof.
  split; [vm_compute; done|]. split; [vm_compute; done|].
  apply (checked_map_interprets sample 128); [vm_compute; done|lia|vm_compute; done].
Defined.
End AsMapTheorems.
