(* ===== verification/Text.v ===== *)
(** * Text encodings of bytes (src/src/util/strencodings.h, strencodings.cpp, bech32.cpp)

    Base 32, base 64 and bech32: conversion between groups of bits, the alphabets, the
    padding and the checksum.  A string is the list of its characters. *)
From S2P Require Import Prelude.
Local Open Scope Z_scope.

Module Text.

(** ** ConvertBits *)

(** The inner loop.  It turns fewer times than [bits]. *)
Fixpoint emit (fuel : nat) (tobits acc bits : Z) : list Z * Z :=
  match fuel with
  | O => ([], bits)
  | S fuel =>
      if tobits <=? bits then
        let bits := bits - tobits in
        let v := Z.land (Z.shiftr acc bits) (Z.shiftl 1 tobits - 1) in
        let '(out, bits) := emit fuel tobits acc bits in (v :: out, bits)
      else ([], bits)
  end.

(** The loop over the input: the output so far is given to [outfn] in order. *)
Fixpoint convert_loop (frombits tobits : Z) (input : list Z) (acc bits : Z) : list Z * Z * Z :=
  match input with
  | [] => ([], acc, bits)
  | x :: input =>
      let max_acc := Z.shiftl 1 (frombits + tobits - 1) - 1 in
      let acc := Z.land (Z.lor (u64 (Z.shiftl acc frombits)) x) max_acc in
      let '(out1, bits) := emit (Z.to_nat (bits + frombits)) tobits acc (bits + frombits) in
      let '(out2, acc, bits) := convert_loop frombits tobits input acc bits in
      (out1 ++ out2, acc, bits)
  end.

(** The result and what was given to [outfn]. *)
Definition ConvertBits (frombits tobits : Z) (pad : bool) (input : list Z) : bool * list Z :=
  let '(out, acc, bits) := convert_loop frombits tobits input 0 0 in
  let maxv := Z.shiftl 1 tobits - 1 in
  let last := Z.land (Z.shiftl acc (tobits - bits)) maxv in
  if pad then (true, if negb (bits =? 0) then out ++ [last] else out)
  else (negb ((frombits <=? bits) || negb (last =? 0)), out).

(** ** Base 32 and base 64 *)

Definition pbase64 : list Z := (* ABCDEFGHIJKLMNOPQRSTUVWXYZabcdefghijklmnopqrstuvwxyz0123456789+/ *)
  [65; 66; 67; 68; 69; 70; 71; 72; 73; 74; 75; 76; 77; 78; 79; 80; 81; 82; 83; 84; 85; 86; 87; 88;
   89; 90; 97; 98; 99; 100; 101; 102; 103; 104; 105; 106; 107; 108; 109; 110; 111; 112; 113; 114;
   115; 116; 117; 118; 119; 120; 121; 122; 48; 49; 50; 51; 52; 53; 54; 55; 56; 57; 43; 47].
Definition pbase32 : list Z := (* abcdefghijklmnopqrstuvwxyz234567 *)
  [97; 98; 99; 100; 101; 102; 103; 104; 105; 106; 107; 108; 109; 110; 111; 112; 113; 114; 115;
   116; 117; 118; 119; 120; 121; 122; 50; 51; 52; 53; 54; 55].
Definition decode64_table : list Z :=
  [-1; -1; -1; -1; -1; -1; -1; -1; -1; -1; -1; -1; -1; -1; -1; -1; -1; -1; -1; -1; -1; -1; -1; -1;
   -1; -1; -1; -1; -1; -1; -1; -1; -1; -1; -1; -1; -1; -1; -1; -1; -1; -1; -1; 62; -1; -1; -1; 63;
   52; 53; 54; 55; 56; 57; 58; 59; 60; 61; -1; -1; -1; -1; -1; -1; -1; 0; 1; 2; 3; 4; 5; 6; 7; 8;
   9; 10; 11; 12; 13; 14; 15; 16; 17; 18; 19; 20; 21; 22; 23; 24; 25; -1; -1; -1; -1; -1; -1; 26;
   27; 28; 29; 30; 31; 32; 33; 34; 35; 36; 37; 38; 39; 40; 41; 42; 43; 44; 45; 46; 47; 48; 49; 50;
   51; -1; -1; -1; -1; -1; -1; -1; -1; -1; -1; -1; -1; -1; -1; -1; -1; -1; -1; -1; -1; -1; -1; -1;
   -1; -1; -1; -1; -1; -1; -1; -1; -1; -1; -1; -1; -1; -1; -1; -1; -1; -1; -1; -1; -1; -1; -1; -1;
   -1; -1; -1; -1; -1; -1; -1; -1; -1; -1; -1; -1; -1; -1; -1; -1; -1; -1; -1; -1; -1; -1; -1; -1;
   -1; -1; -1; -1; -1; -1; -1; -1; -1; -1; -1; -1; -1; -1; -1; -1; -1; -1; -1; -1; -1; -1; -1; -1;
   -1; -1; -1; -1; -1; -1; -1; -1; -1; -1; -1; -1; -1; -1; -1; -1; -1; -1; -1; -1; -1; -1; -1; -1;
   -1; -1; -1; -1; -1; -1; -1; -1; -1; -1; -1; -1; -1; -1].
Definition decode32_table : list Z :=
  [-1; -1; -1; -1; -1; -1; -1; -1; -1; -1; -1; -1; -1; -1; -1; -1; -1; -1; -1; -1; -1; -1; -1; -1;
   -1; -1; -1; -1; -1; -1; -1; -1; -1; -1; -1; -1; -1; -1; -1; -1; -1; -1; -1; -1; -1; -1; -1; -1;
   -1; -1; 26; 27; 28; 29; 30; 31; -1; -1; -1; -1; -1; -1; -1; -1; -1; 0; 1; 2; 3; 4; 5; 6; 7; 8;
   9; 10; 11; 12; 13; 14; 15; 16; 17; 18; 19; 20; 21; 22; 23; 24; 25; -1; -1; -1; -1; -1; -1; 0; 1;
   2; 3; 4; 5; 6; 7; 8; 9; 10; 11; 12; 13; 14; 15; 16; 17; 18; 19; 20; 21; 22; 23; 24; 25; -1; -1;
   -1; -1; -1; -1; -1; -1; -1; -1; -1; -1; -1; -1; -1; -1; -1; -1; -1; -1; -1; -1; -1; -1; -1; -1;
   -1; -1; -1; -1; -1; -1; -1; -1; -1; -1; -1; -1; -1; -1; -1; -1; -1; -1; -1; -1; -1; -1; -1; -1;
   -1; -1; -1; -1; -1; -1; -1; -1; -1; -1; -1; -1; -1; -1; -1; -1; -1; -1; -1; -1; -1; -1; -1; -1;
   -1; -1; -1; -1; -1; -1; -1; -1; -1; -1; -1; -1; -1; -1; -1; -1; -1; -1; -1; -1; -1; -1; -1; -1;
   -1; -1; -1; -1; -1; -1; -1; -1; -1; -1; -1; -1; -1; -1; -1; -1; -1; -1; -1; -1; -1; -1; -1; -1;
   -1; -1; -1; -1; -1; -1; -1; -1; -1; -1; -1].

(** The two families differ in the width of a digit, the length of a group and the
    tables. *)
Record base := Base { width : Z; group : Z; alphabet : list Z; table : list Z }.
Definition base64 : base := Base 6 4 pbase64 decode64_table.
Definition base32 : base := Base 5 8 pbase32 decode32_table.

Definition equals_sign : Z := 61.

(** [while (str.size() % group) str += '=';] *)
Fixpoint pad_loop (fuel : nat) (group : Z) (str : list Z) : list Z :=
  match fuel with
  | O => str
  | S fuel => if Zlen str mod group =? 0 then str else pad_loop fuel group (str ++ [equals_sign])
  end.

Definition EncodeBase (B : base) (pad : bool) (input : list Z) : list Z :=
  let str := map (fun v => rd (alphabet B) (Z.to_nat v)) (ConvertBits 8 (width B) true input).2 in
  if pad then pad_loop (Z.to_nat (group B)) (group B) str else str.

Definition EncodeBase64 (input : list Z) : list Z := EncodeBase base64 true input.
Definition EncodeBase32 (input : list Z) (pad : bool) : list Z := EncodeBase base32 pad input.

(** The digits up to the first character that is none, and the rest. *)
Fixpoint digits (B : base) (p : list Z) : list Z * list Z :=
  match p with
  | [] => ([], [])
  | c :: p' =>
      let x := nth (Z.to_nat c) (table B) (-1) in
      if (c =? 0) || (x =? -1) then ([], p)
      else let '(val, rest) := digits B p' in (x :: val, rest)
  end.

(** The string up to its first NUL. *)
Fixpoint c_str (s : list Z) : list Z :=
  match s with c :: s => if c =? 0 then [] else c :: c_str s | [] => [] end.

Definition ValidAsCString (str : list Z) : bool := Zlen str =? Zlen (c_str str).

(** The bytes and whether the text was valid. *)
Definition DecodeBase (B : base) (s : list Z) : list Z * bool :=
  let '(val, q) := digits B (c_str s) in
  let '(valid, ret) := ConvertBits (width B) 8 false val in
  let valid := valid && forallb (fun c => c =? equals_sign) q in
  (ret, valid && ((Zlen val + Zlen q) mod group B =? 0) && (Zlen q <? group B)).

Definition DecodeBase64 (s : list Z) : list Z * bool := DecodeBase base64 s.
Definition DecodeBase32 (s : list Z) : list Z * bool := DecodeBase base32 s.

(** The overloads on strings. *)
Definition DecodeBase64_string (s : list Z) : list Z * bool :=
  if ValidAsCString s then DecodeBase64 s else ([], false).
Definition DecodeBase32_string (s : list Z) : list Z * bool :=
  if ValidAsCString s then DecodeBase32 s else ([], false).

Definition char_to_lower (c : Z) : Z := if (65 <=? c) && (c <=? 90) then c - 65 + 97 else c.
Definition ToLower (str : list Z) : list Z := map char_to_lower str.

(** ** Bech32 *)

Definition CHARSET : list Z := (* qpzry9x8gf2tvdw0s3jn54khce6mua7l *)
  [113; 112; 122; 114; 121; 57; 120; 56; 103; 102; 50; 116; 118; 100; 119; 48; 115; 51; 106; 110;
   53; 52; 107; 104; 99; 101; 54; 109; 117; 97; 55; 108].
Definition CHARSET_REV : list Z :=
  [-1; -1; -1; -1; -1; -1; -1; -1; -1; -1; -1; -1; -1; -1; -1; -1; -1; -1; -1; -1; -1; -1; -1; -1;
   -1; -1; -1; -1; -1; -1; -1; -1; -1; -1; -1; -1; -1; -1; -1; -1; -1; -1; -1; -1; -1; -1; -1; -1;
   15; -1; 10; 17; 21; 20; 26; 30; 7; 5; -1; -1; -1; -1; -1; -1; -1; 29; -1; 24; 13; 25; 9; 8; 23;
   -1; 18; 22; 31; 27; 19; -1; 1; 0; 3; 16; 11; 28; 12; 14; 6; 4; 2; -1; -1; -1; -1; -1; -1; 29;
   -1; 24; 13; 25; 9; 8; 23; -1; 18; 22; 31; 27; 19; -1; 1; 0; 3; 16; 11; 28; 12; 14; 6; 4; 2; -1;
   -1; -1; -1; -1].

Definition xor_if (b : bool) (k c : Z) : Z := if b then Z.lxor c k else c.

Definition PolyMod_step (c v_i : Z) : Z :=
  let c0 := u8 (Z.shiftr c 25) in
  let c := Z.lxor (Z.shiftl (Z.land c 0x1ffffff) 5) v_i in
  xor_if (Z.testbit c0 4) 0x2a1462b3
    (xor_if (Z.testbit c0 3) 0x3d4233dd
      (xor_if (Z.testbit c0 2) 0x1ea119fa
        (xor_if (Z.testbit c0 1) 0x26508e6d
          (xor_if (Z.testbit c0 0) 0x3b6a57b2 c)))).

Definition PolyMod (v : list Z) : Z := foldl PolyMod_step 1 v.

Definition LowerCase (c : Z) : Z := if (65 <=? c) && (c <=? 90) then c - 65 + 97 else c.

Definition ExpandHRP (hrp : list Z) : list Z :=
  map (fun c => Z.shiftr c 5) hrp ++ [0] ++ map (fun c => Z.land c 0x1f) hrp.

Definition VerifyChecksum (hrp values : list Z) : bool := PolyMod (ExpandHRP hrp ++ values) =? 1.

Definition CreateChecksum (hrp values : list Z) : list Z :=
  let enc := ExpandHRP hrp ++ values ++ replicate 6 0 in
  let mod_ := Z.lxor (PolyMod enc) 1 in
  map (fun i => Z.land (Z.shiftr mod_ (5 * (5 - Z.of_nat i))) 31) (seq 0 6).

(** [None]: a character outside of the alphabet. *)
Fixpoint charset_loop (l : list Z) : option (list Z) :=
  match l with
  | [] => Some []
  | c :: l => if 32 <=? c then None else s ← charset_loop l; Some (rd CHARSET (Z.to_nat c) :: s)
  end.

Definition one_sign : Z := 49.

Definition Encode (hrp values : list Z) : list Z :=
  match charset_loop (values ++ CreateChecksum hrp values) with
  | Some s => hrp ++ [one_sign] ++ s
  | None => []
  end.

(** [str.rfind('1')]: the string before and after the last one. *)
Fixpoint rfind_one (str : list Z) : option (list Z * list Z) :=
  match str with
  | [] => None
  | c :: s =>
      match rfind_one s with
      | Some (a, b) => Some (c :: a, b)
      | None => if c =? one_sign then Some ([], s) else None
      end
  end.

Definition char_rev (c : Z) : Z := if (c <? 33) || (126 <? c) then -1 else nth (Z.to_nat c) CHARSET_REV (-1).

Fixpoint rev_loop (s : list Z) : option (list Z) :=
  match s with
  | [] => Some []
  | c :: s => if char_rev c =? -1 then None else l ← rev_loop s; Some (char_rev c :: l)
  end.

Definition is_lower (c : Z) : bool := (97 <=? c) && (c <=? 122).
Definition is_upper (c : Z) : bool := (65 <=? c) && (c <=? 90).

(** The pair of empty vectors is the failure of [Decode]. *)
Definition Decode (str : list Z) : list Z * list Z :=
  if existsb (fun c => (c <? 33) || (126 <? c)) str then ([], [])
  else if existsb is_lower str && existsb is_upper str then ([], [])
  else
    match rfind_one str with
    | None => ([], [])
    | Some (before, after) =>
        let pos := Zlen before in
        if (1023 <? Zlen str) || (pos =? 0) || (Zlen str <? pos + 7) then ([], [])
        else
          match rev_loop after with
          | None => ([], [])
          | Some values =>
              let hrp := map LowerCase before in
              if VerifyChecksum hrp values then (hrp, take (length values - 6) values) else ([], [])
          end
    end.
End Text.

Module TextFacts.
Import Text.

(** ** Numbers of digits in base [2 ^ w] *)

Definition digit_ok (w x : Z) : Prop := 0 <= x < 2 ^ w.

Fixpoint value (w : Z) (l : list Z) : Z :=
  match l with [] => 0 | x :: l => x * 2 ^ (w * Zlen l) + value w l end.

Lemma Zlen_cons {A} (x : A) l : Zlen (x :: l) = Zlen l + 1.
Proof. unfold Zlen. cbn. lia. Qed.

Lemma value_app w l1 l2 : 0 <= w -> value w (l1 ++ l2) = value w l1 * 2 ^ (w * Zlen l2) + value w l2.
Proof.
  intros Hw. induction l1 as [|x l1 IH]; cbn [value app]; [lia|].
  rewrite IH, Zlen_app, Z.mul_add_distr_l, Z.pow_add_r by (pose proof (Zlen_nonneg l1); pose proof (Zlen_nonneg l2); nia).
  ring.
Qed.

Lemma value_bound w l : 0 <= w -> Forall (digit_ok w) l -> 0 <= value w l < 2 ^ (w * Zlen l).
Proof.
  intros Hw. induction 1 as [|x l Hx Hl IH]; cbn [value].
  { unfold Zlen. cbn. rewrite Z.mul_0_r. lia. }
  rewrite Zlen_cons, Z.mul_add_distr_l, Z.mul_1_r, Z.pow_add_r by (pose proof (Zlen_nonneg l); nia).
  unfold digit_ok in Hx. nia.
Qed.

Lemma value_inj w l1 l2 :
  0 <= w -> Forall (digit_ok w) l1 -> Forall (digit_ok w) l2 -> Zlen l1 = Zlen l2 ->
  value w l1 = value w l2 -> l1 = l2.
Proof.
  intros Hw H1. revert l2. induction H1 as [|x l1 Hx H1 IH]; intros [|y l2] H2 Hlen Hv;
    [done|by rewrite Zlen_cons in Hlen; unfold Zlen in Hlen; cbn in Hlen; lia
    |by rewrite Zlen_cons in Hlen; unfold Zlen in Hlen; cbn in Hlen; lia|].
  inversion H2 as [|?? Hy H2']; subst. rewrite !Zlen_cons in Hlen. cbn [value] in Hv.
  pose proof (value_bound w l1 Hw H1) as B1. pose proof (value_bound w l2 Hw H2') as B2.
  assert (Zlen l1 = Zlen l2) as El by lia. rewrite El in *.
  assert (x = y) by nia. subst. f_equal. apply IH; [done|done|nia].
Qed.

Lemma pow_pos_z a : 0 <= a -> 0 < 2 ^ a.
Proof. intros. by apply Z.pow_pos_nonneg. Qed.

Lemma mod_join acc a b :
  0 <= a -> 0 <= b -> acc mod 2 ^ (a + b) = (acc / 2 ^ b) mod 2 ^ a * 2 ^ b + acc mod 2 ^ b.
Proof.
  intros Ha Hb. rewrite Z.pow_add_r by lia. pose proof (pow_pos_z a Ha). pose proof (pow_pos_z b Hb).
  rewrite (Z.mul_comm (2 ^ a)), Z.rem_mul_r by lia. lia.
Qed.

Lemma land_maxv x w : 0 <= w -> Z.land x (Z.shiftl 1 w - 1) = x mod 2 ^ w.
Proof. intros Hw. rewrite Z.shiftl_1_l, <-Z.land_ones by done. by rewrite Z.ones_equiv. Qed.

(** ** What [ConvertBits] computes *)

Lemma emit_spec fuel to acc bits out b :
  0 < to -> 0 <= bits -> (Z.to_nat bits <= fuel)%nat -> emit fuel to acc bits = (out, b) ->
  0 <= b < to /\ bits = to * Zlen out + b /\ Forall (digit_ok to) out /\
  value to out * 2 ^ b + acc mod 2 ^ b = acc mod 2 ^ bits.
Proof.
  intros Hto. revert bits out b. induction fuel as [|fuel IH]; intros bits out b Hb Hf E; cbn [emit] in E.
  { injection E as <- <-. unfold Zlen. cbn. repeat split; [lia..|constructor]. }
  destruct (Z.leb_spec to bits) as [Hle|Hlt].
  2: { injection E as <- <-. unfold Zlen. cbn. repeat split; [lia..|constructor]. }
  destruct (emit fuel to acc (bits - to)) as [out' b'] eqn:E'. injection E as <- <-.
  apply IH in E' as (Hb' & Hlen & Hok & Hv); [|lia..].
  rewrite land_maxv, Z.shiftr_div_pow2, Zlen_cons by lia.
  split; [lia|]. split; [lia|]. split; [constructor; [apply Z.mod_pos_bound, pow_pos_z; lia|done]|].
  cbn [value]. replace bits with (to + (bits - to)) at 2 by lia. rewrite mod_join, <-Hv by lia.
  set (v := (acc / 2 ^ (bits - to)) mod 2 ^ to). rewrite Hlen, Z.pow_add_r by (pose proof (Zlen_nonneg out'); nia).
  ring.
Qed.

Definition widths_ok (from to : Z) : Prop := 0 < from <= 8 /\ 0 < to <= 8.

Lemma acc_step from to acc bits x :
  widths_ok from to -> 0 <= acc < 2 ^ (from + to - 1) -> 0 <= bits < to -> digit_ok from x ->
  let acc' := Z.land (Z.lor (u64 (Z.shiftl acc from)) x) (Z.shiftl 1 (from + to - 1) - 1) in
  0 <= acc' < 2 ^ (from + to - 1) /\
  acc' mod 2 ^ (bits + from) = acc mod 2 ^ bits * 2 ^ from + x.
Proof.
  intros [Hf Ht] Hacc Hb Hx acc'. unfold digit_ok in Hx.
  pose proof (pow_pos_z from ltac:(lia)) as Pf.
  assert (2 ^ (from + to - 1) * 2 ^ from <= 2 ^ 23) as Hm
    by (rewrite <-Z.pow_add_r by lia; apply Z.pow_le_mono_r; lia).
  assert (acc' = (acc * 2 ^ from + x) mod 2 ^ (from + to - 1)) as ->.
  { unfold acc'. rewrite land_maxv, Z.shiftl_mul_pow2, u64_id, lor_add by (unfold is_u; lia || nia). done. }
  split; [apply Z.mod_pos_bound, pow_pos_z; lia|].
  rewrite <-Znumtheory.Zmod_div_mod; [|apply pow_pos_z; lia..|].
  2: { exists (2 ^ (to - 1 - bits)). rewrite <-Z.pow_add_r by lia. f_equal. lia. }
  rewrite mod_join, Z.div_add_l, Z.add_comm, (Z.div_small x), Z.add_0_r by lia.
  rewrite (Z.add_comm _ x), Z.mod_add, Z.mod_small by lia. lia.
Qed.

Lemma convert_loop_spec from to input : forall acc bits out acc' b,
  widths_ok from to -> 0 <= acc < 2 ^ (from + to - 1) -> 0 <= bits < to -> Forall (digit_ok from) input ->
  convert_loop from to input acc bits = (out, acc', b) ->
  0 <= b < to /\ bits + from * Zlen input = to * Zlen out + b /\ Forall (digit_ok to) out /\
  value to out * 2 ^ b + acc' mod 2 ^ b = acc mod 2 ^ bits * 2 ^ (from * Zlen input) + value from input.
Proof.
  induction input as [|x input IH]; intros acc bits out acc' b Hw Hacc Hb Hin E; cbn [convert_loop] in E.
  { injection E as <- <- <-. unfold Zlen. cbn. rewrite !Z.mul_0_r. repeat split; [lia..|constructor|cbn; lia]. }
  inversion Hin as [|?? Hx Hin']; subst.
  destruct (acc_step from to acc bits x Hw Hacc Hb Hx) as [Hacc' Hmod].
  set (a := Z.land _ _) in *. destruct Hw as [Hf Ht].
  destruct (emit _ to a _) as [out1 b1] eqn:E1. destruct (convert_loop from to input a b1) as [[out2 a2] b2] eqn:E2.
  injection E as <- <- <-.
  apply emit_spec in E1 as (Hb1 & Hl1 & Ho1 & Hv1); [|lia..].
  apply IH in E2 as (Hb2 & Hl2 & Ho2 & Hv2); [|done..].
  rewrite Zlen_cons, Zlen_app. split; [lia|]. split; [lia|]. split; [by apply Forall_app|].
  rewrite value_app by lia. cbn [value].
  pose proof (Zlen_nonneg input). pose proof (Zlen_nonneg out2).
  rewrite Z.mul_add_distr_l, Z.mul_1_r, Z.pow_add_r by nia.
  assert (value to out1 * 2 ^ (to * Zlen out2) * 2 ^ b2 = value to out1 * 2 ^ b1 * 2 ^ (from * Zlen input)) as Hs.
  { rewrite <-!Z.mul_assoc, <-!Z.pow_add_r by nia. do 2 f_equal. lia. }
  rewrite Hmod in Hv1. nia.
Qed.

(** The digit that the bits left over fill from above. *)
Lemma last_digit acc to b :
  0 <= b <= to ->
  Z.land (Z.shiftl acc (to - b)) (Z.shiftl 1 to - 1) = acc mod 2 ^ b * 2 ^ (to - b).
Proof.
  intros Hb. rewrite land_maxv, Z.shiftl_mul_pow2 by lia. replace to with (b + (to - b)) at 2 by lia.
  pose proof (pow_pos_z b). pose proof (pow_pos_z (to - b)).
  rewrite Z.pow_add_r, Z.mul_mod_distr_r by lia. done.
Qed.

Lemma convert_pad_spec from to input :
  widths_ok from to -> Forall (digit_ok from) input ->
  exists p out, ConvertBits from to true input = (true, out) /\ 0 <= p < to /\
    from * Zlen input + p = to * Zlen out /\ Forall (digit_ok to) out /\
    value to out = value from input * 2 ^ p.
Proof.
  intros Hw Hin. unfold ConvertBits. destruct (convert_loop from to input 0 0) as [[out acc] b] eqn:E.
  apply convert_loop_spec in E as (Hb & Hl & Ho & Hv);
    [|done|split; [done|apply pow_pos_z; destruct Hw; lia]|destruct Hw; lia|done].
  rewrite Zmod_0_l, Z.mul_0_l, !Z.add_0_l in *. destruct Hw as [Hf Ht]. cbn [negb].
  destruct (Z.eqb_spec b 0) as [->|Hb0]; cbn [negb].
  - exists 0, out. change (2 ^ 0) with 1 in *. rewrite Z.mod_1_r in Hv. repeat split; [lia..|done|lia].
  - eexists (to - b), _. split; [done|]. split; [lia|]. rewrite Zlen_app. change (Zlen [_]) with 1.
    rewrite last_digit by lia.
    pose proof (Z.mod_pos_bound acc (2 ^ b) (pow_pos_z b ltac:(lia))) as Hm.
    assert (2 ^ to = 2 ^ b * 2 ^ (to - b)) as Et by (rewrite <-Z.pow_add_r by lia; f_equal; lia).
    pose proof (pow_pos_z (to - b) ltac:(lia)).
    split; [lia|]. split; [apply Forall_app; split; [done|constructor; [unfold digit_ok; nia|constructor]]|].
    rewrite value_app by lia. cbn [value]. change (Zlen [_]) with 1. unfold Zlen at 1. cbn [length Z.of_nat].
    rewrite Z.mul_1_r, Z.mul_0_r, Et. change (2 ^ 0) with 1. nia.
Qed.

Lemma convert_exact_spec from to input :
  widths_ok from to -> Forall (digit_ok from) input ->
  exists b r out, ConvertBits from to false input = (bool_decide (b < from /\ r = 0), out) /\
    0 <= b < to /\ 0 <= r < 2 ^ b /\ from * Zlen input = to * Zlen out + b /\
    Forall (digit_ok to) out /\ value to out * 2 ^ b + r = value from input.
Proof.
  intros Hw Hin. unfold ConvertBits. destruct (convert_loop from to input 0 0) as [[out acc] b] eqn:E.
  apply convert_loop_spec in E as (Hb & Hl & Ho & Hv);
    [|done|split; [done|apply pow_pos_z; destruct Hw; lia]|destruct Hw; lia|done].
  rewrite Zmod_0_l, Z.mul_0_l, !Z.add_0_l in *. destruct Hw as [Hf Ht].
  exists b, (acc mod 2 ^ b), out. split.
  2: { split; [done|]. split; [apply Z.mod_pos_bound, pow_pos_z; lia|done]. }
  f_equal.
  rewrite last_digit by lia.
  pose proof (pow_pos_z (to - b) ltac:(lia)).
  destruct (Z.leb_spec from b), (Z.eqb_spec (acc mod 2 ^ b * 2 ^ (to - b)) 0) as [E0|E0]; cbn [orb negb];
    symmetry; (apply bool_decide_eq_true || apply bool_decide_eq_false); nia.
Qed.

Lemma exact_multiple a b r k : 0 <= r < k -> a * k + r = b * k -> r = 0 /\ a = b.
Proof. intros Hr E. assert (a = b) by nia. lia. Qed.

(** Padding on the way out is dropped on the way in, and digits that leave no bits
    over are those of the bytes they give. *)
Lemma convert_round_trip w input :
  0 < w <= 8 -> bytes_ok input ->
  exists out, ConvertBits 8 w true input = (true, out) /\ Forall (digit_ok w) out /\
    ConvertBits w 8 false out = (true, input).
Proof.
  intros Hw Hin. destruct (convert_pad_spec 8 w input) as (p & out & E & Hp & Hlen & Hok & Hv);
    [by split|exact Hin|]. exists out. split; [done|]. split; [done|].
  destruct (convert_exact_spec w 8 out) as (b & r & out' & E' & Hb & Hr & Hlen' & Hok' & Hv');
    [by split|done|].
  assert (p = b /\ Zlen input = Zlen out') as [<- Hl] by lia.
  pose proof (pow_pos_z p ltac:(lia)). destruct (exact_multiple (value 8 out') (value 8 input) r (2 ^ p)) as [-> Hvv]; [lia|lia|].
  rewrite E', bool_decide_eq_true_2 by lia. f_equal. by apply (value_inj 8).
Qed.

Lemma convert_canonical w digits out :
  0 < w <= 8 -> Forall (digit_ok w) digits -> ConvertBits w 8 false digits = (true, out) ->
  bytes_ok out /\ ConvertBits 8 w true out = (true, digits).
Proof.
  intros Hw Hd E. destruct (convert_exact_spec w 8 digits) as (b & r & out' & E' & Hb & Hr & Hlen & Hok & Hv);
    [by split|done|].
  rewrite E in E'. injection E' as Hbd <-. symmetry in Hbd. apply bool_decide_eq_true in Hbd as [Hbw ->].
  split; [exact Hok|].
  destruct (convert_pad_spec 8 w out) as (p & out' & E' & Hp & Hlen' & Hok' & Hv'); [by split|exact Hok|].
  rewrite E'. f_equal. assert (Zlen out' = Zlen digits) as Hl by nia. assert (p = b) as -> by nia.
  apply (value_inj w); [lia|done..|lia].
Qed.
End TextFacts.

Module BaseFacts.
Import Text TextFacts.

(** What the tables of a base have to do with each other; [norm] identifies the
    characters that stand for the same digit. *)
Record lawful_base (B : base) (norm : Z -> Z) : Prop := {
  base_width : 0 < width B <= 8;
  base_group : 0 < group B;
  base_char : forall v, digit_ok (width B) v ->
    let c := rd (alphabet B) (Z.to_nat v) in
    byte_ok c /\ c <> 0 /\ nth (Z.to_nat c) (table B) (-1) = v;
  base_digit : forall c, byte_ok c ->
    let x := nth (Z.to_nat c) (table B) (-1) in
    x = -1 \/ (digit_ok (width B) x /\ rd (alphabet B) (Z.to_nat x) = norm c);
  base_equals : nth (Z.to_nat equals_sign) (table B) (-1) = -1;
  norm_equals : norm equals_sign = equals_sign }.

Lemma pad_loop_spec fuel g str :
  0 < g -> g - 1 - (Zlen str - 1) mod g <= Z.of_nat fuel ->
  exists k, pad_loop fuel g str = str ++ replicate k equals_sign /\ Z.of_nat k < g /\
    (Zlen str + Z.of_nat k) mod g = 0.
Proof.
  intros Hg. revert str. induction fuel as [|fuel IH]; intros str Hf; cbn [pad_loop].
  { exists 0%nat. rewrite app_nil_r. repeat split; [lia|].
    pose proof (Z.mod_pos_bound (Zlen str - 1) g Hg).
    replace (Zlen str + Z.of_nat 0) with (Zlen str - 1 + 1) by lia.
    rewrite <-Zplus_mod_idemp_l. replace ((Zlen str - 1) mod g + 1) with g by lia. apply Z_mod_same_full. }
  destruct (Z.eqb_spec (Zlen str mod g) 0) as [E|E].
  { exists 0%nat. rewrite app_nil_r. repeat split; [lia|]. by rewrite Z.add_0_r. }
  assert (Zlen (str ++ [equals_sign]) - 1 = Zlen str) as El by (rewrite Zlen_app; unfold Zlen; cbn; lia).
  assert ((Zlen str - 1) mod g = Zlen str mod g - 1) as Em.
  { pose proof (Z.mod_pos_bound (Zlen str) g Hg). rewrite <-Zminus_mod_idemp_l. apply Z.mod_small. lia. }
  destruct (IH (str ++ [equals_sign])) as (k & -> & Hk & Hm); [rewrite El; lia|].
  destruct (decide (Z.of_nat (S k) < g)) as [Hk'|Hk'].
  - exists (S k). rewrite <-app_assoc. split; [done|]. split; [done|]. rewrite <-Hm, Zlen_app. f_equal. unfold Zlen. cbn. lia.
  - exfalso. apply E. rewrite <-Hm, Zlen_app. change (Zlen [equals_sign]) with 1.
    replace (Zlen str + 1 + Z.of_nat k) with (Zlen str + 1 * g) by lia. by rewrite Z.mod_add by lia.
Qed.

Lemma c_str_id s : 0 ∉ s -> c_str s = s.
Proof.
  induction s as [|c s IH]; intros Hs; [done|]. cbn [c_str]. rewrite not_elem_of_cons in Hs. destruct Hs as [Hc Hs].
  destruct (Z.eqb_spec c 0); [congruence|]. by rewrite IH.
Qed.

Lemma c_str_idem s : c_str (c_str s) = c_str s.
Proof.
  induction s as [|c s IH]; [done|]. cbn [c_str]. destruct (c =? 0) eqn:E; [done|].
  cbn [c_str]. by rewrite E, IH.
Qed.

Section Base.
Context (B : base) (norm : Z -> Z) (Hlaw : lawful_base B norm).

Abbreviation char v := (rd (alphabet B) (Z.to_nat v)).

Lemma digits_chars val k :
  Forall (digit_ok (width B)) val ->
  digits B (map (fun v => char v) val ++ replicate k equals_sign) = (val, replicate k equals_sign).
Proof using Hlaw.
  induction 1 as [|v val Hv Hval IH]; cbn [map app digits].
  - destruct k as [|k]; [done|]. cbn [replicate digits]. by rewrite (base_equals _ _ Hlaw), orb_true_r.
  - destruct (base_char _ _ Hlaw v Hv) as (_ & Hc & Hx). rewrite Hx, IH.
    rewrite (proj2 (Z.eqb_neq _ _) Hc). destruct (Z.eqb_spec v (-1)) as [->|]; [destruct Hv; lia|done].
Qed.

Lemma chars_no_nul val k :
  Forall (digit_ok (width B)) val -> 0 ∉ map (fun v => char v) val ++ replicate k equals_sign.
Proof using Hlaw.
  intros Hval Hin. apply elem_of_app in Hin as [Hin|Hin].
  - apply list_elem_of_fmap in Hin as (v & Ev & Hv). rewrite Forall_forall in Hval.
    destruct (base_char _ _ Hlaw v (Hval v Hv)) as (_ & Hc & _). by apply Hc.
  - apply elem_of_replicate in Hin as [Hin _]. done.
Qed.

Lemma digits_only s val rest :
  bytes_ok s -> digits B s = (val, rest) ->
  Forall (digit_ok (width B)) val /\ exists pre, s = pre ++ rest /\ map norm pre = map (fun v => char v) val.
Proof using Hlaw.
  intros Hs. revert val rest. induction Hs as [|c s Hc Hs IH]; intros val rest E; cbn [digits] in E.
  { injection E as <- <-. split; [constructor|]. by exists []. }
  destruct (base_digit _ _ Hlaw c Hc) as [Hx|[Hx Hn]].
  { rewrite Hx, orb_true_r in E. injection E as <- <-. split; [constructor|]. by exists []. }
  destruct ((c =? 0) || _); [injection E as <- <-; split; [constructor|]; by exists []|].
  destruct (digits B s) as [val' rest'] eqn:E'. injection E as <- <-.
  destruct (IH _ _ eq_refl) as (Hval & pre & -> & Hpre). split; [by constructor|].
  exists (c :: pre). split; [done|]. cbn. by rewrite Hpre, Hn.
Qed.

Lemma encode_form l :
  bytes_ok l ->
  exists val k, EncodeBase B true l = map (fun v => char v) val ++ replicate k equals_sign /\
    Forall (digit_ok (width B)) val /\ ConvertBits (width B) 8 false val = (true, l) /\
    ConvertBits 8 (width B) true l = (true, val) /\
    Z.of_nat k < group B /\ (Zlen val + Z.of_nat k) mod group B = 0.
Proof using Hlaw.
  intros Hl. destruct (convert_round_trip (width B) l (base_width _ _ Hlaw) Hl) as (val & E & Hval & E').
  pose proof (base_group _ _ Hlaw) as Hg. unfold EncodeBase. rewrite E. cbn [snd].
  destruct (pad_loop_spec (Z.to_nat (group B)) (group B) (map (fun v => char v) val)) as (k & -> & Hk & Hm); [done| |].
  { pose proof (Z.mod_pos_bound (Zlen (map (fun v => char v) val) - 1) (group B) Hg). lia. }
  exists val, k. unfold Zlen in *. rewrite length_map in Hm. done.
Qed.

Lemma encode_decode l : bytes_ok l -> DecodeBase B (EncodeBase B true l) = (l, true).
Proof using Hlaw.
  intros Hl. destruct (encode_form l Hl) as (val & k & -> & Hval & E & _ & Hk & Hm).
  unfold DecodeBase. rewrite c_str_id, digits_chars, E by auto using chars_no_nul.
  replace (forallb _ (replicate k equals_sign)) with true
    by (symmetry; apply forallb_forall; intros x Hx; apply list_elem_of_In, elem_of_replicate in Hx as [-> _]; done).
  f_equal. unfold Zlen in *. rewrite length_replicate, Hm, (proj2 (Z.ltb_lt _ _) Hk). done.
Qed.

Lemma all_equals q : forallb (fun c => c =? equals_sign) q = true -> q = replicate (length q) equals_sign.
Proof.
  induction q as [|c q IH]; [done|]. cbn. rewrite andb_true_iff, Z.eqb_eq. intros [-> Hq]. by rewrite <-IH.
Qed.

Lemma decode_encode s l :
  bytes_ok (c_str s) -> DecodeBase B s = (l, true) ->
  bytes_ok l /\ map norm (c_str s) = EncodeBase B true l.
Proof using Hlaw.
  intros Hs E. unfold DecodeBase in E. destruct (digits B (c_str s)) as [val q] eqn:Ed.
  destruct (digits_only _ _ _ Hs Ed) as (Hval & pre & -> & Hpre).
  destruct (ConvertBits (width B) 8 false val) as [valid ret] eqn:Ec. injection E as -> E.
  rewrite !andb_true_iff, Z.eqb_eq, Z.ltb_lt in E. destruct E as [[[-> Hq] Hm] Hlt].
  destruct (convert_canonical _ _ _ (base_width _ _ Hlaw) Hval Ec) as [Hl Ec']. split; [done|].
  destruct (encode_form l Hl) as (val' & k & -> & _ & _ & Ev & Hk & Hm').
  rewrite Ec' in Ev. injection Ev as <-. rewrite map_app, Hpre. f_equal.
  rewrite (all_equals q Hq). rewrite (fmap_replicate norm : forall n x, map norm (replicate n x) = _), (norm_equals _ _ Hlaw). f_equal.
  pose proof (base_group _ _ Hlaw). unfold Zlen in *.
  apply Nat2Z.inj. apply Zmod_divides in Hm as [a Ha]; [|lia]. apply Zmod_divides in Hm' as [b Hb]; [|lia].
  assert (a = b) by nia. nia.
Qed.
End Base.

Lemma lawful_base64 : lawful_base base64 (fun c => c).
Proof.
  split; [cbn; lia|done| | |done|done].
  - intros v Hv. refine (Zrange_check 64 (fun v => let c := rd (alphabet base64) (Z.to_nat v) in
      byte_ok c /\ c <> 0 /\ nth (Z.to_nat c) (table base64) (-1) = v) _ v Hv). vm_compute. done.
  - intros c Hc. refine (Zrange_check 256 (fun c => let x := nth (Z.to_nat c) (table base64) (-1) in
      x = -1 \/ (0 <= x < 2 ^ 6 /\ rd (alphabet base64) (Z.to_nat x) = c)) _ c Hc). vm_compute. done.
Qed.

Lemma lawful_base32 : lawful_base base32 char_to_lower.
Proof.
  split; [cbn; lia|done| | |done|done].
  - intros v Hv. refine (Zrange_check 32 (fun v => let c := rd (alphabet base32) (Z.to_nat v) in
      byte_ok c /\ c <> 0 /\ nth (Z.to_nat c) (table base32) (-1) = v) _ v Hv). vm_compute. done.
  - intros c Hc. refine (Zrange_check 256 (fun c => let x := nth (Z.to_nat c) (table base32) (-1) in
      x = -1 \/ (0 <= x < 2 ^ 5 /\ rd (alphabet base32) (Z.to_nat x) = char_to_lower c)) _ c Hc). vm_compute. done.
Qed.
End BaseFacts.

Module Bech32Facts.
Import Text TextFacts.

(** ** The checksum is linear *)

Definition word30 (c : Z) : Prop := is_u 30 c.
Abbreviation value5 := (digit_ok 5).

Lemma xor_if_linear b1 b2 k x y :
  Z.lxor (xor_if b1 k x) (xor_if b2 k y) = xor_if (xorb b1 b2) k (Z.lxor x y).
Proof. destruct b1, b2; cbn; apply Z.bits_inj'; intros i _; rewrite !Z.lxor_spec; by repeat destruct (Z.testbit _ _). Qed.

Lemma top_bit c i : 0 <= i < 5 -> Z.testbit (u8 (Z.shiftr c 25)) i = Z.testbit c (25 + i).
Proof. intros Hi. unfold u8. rewrite Z.mod_pow2_bits_low, Z.shiftr_spec by lia. f_equal. lia. Qed.

Lemma PolyMod_step_linear c d v w :
  PolyMod_step (Z.lxor c d) (Z.lxor v w) = Z.lxor (PolyMod_step c v) (PolyMod_step d w).
Proof.
  unfold PolyMod_step. rewrite !top_bit by lia. rewrite !xor_if_linear, !Z.lxor_spec.
  do 5 f_equal. apply Z.bits_inj'; intros i Hi. rewrite !Z.lxor_spec, !Z.shiftl_spec, !Z.land_spec, !Z.lxor_spec by lia.
  by repeat destruct (Z.testbit _ _).
Qed.

Lemma xor_if_30 b k x : is_u 30 k -> is_u 30 x -> is_u 30 (xor_if b k x).
Proof. intros. destruct b; cbn; [apply is_u_lxor; (lia || done)|done]. Qed.

Lemma digit_30 v : value5 v -> is_u 30 v.
Proof. unfold digit_ok, is_u. lia. Qed.

Lemma shifted_30 c : is_u 30 (Z.shiftl (Z.land c 0x1ffffff) 5).
Proof.
  change 0x1ffffff with (Z.ones 25). rewrite Z.land_ones, Z.shiftl_mul_pow2 by lia.
  pose proof (Z.mod_pos_bound c (2 ^ 25) ltac:(lia)). unfold is_u. lia.
Qed.

Lemma PolyMod_step_30 c v : value5 v -> word30 (PolyMod_step c v).
Proof.
  intros Hv. unfold PolyMod_step. repeat (apply xor_if_30; [by unfold is_u|]).
  apply is_u_lxor; [lia|apply shifted_30|by apply digit_30].
Qed.

Lemma PolyMod_step_small d w : 0 <= d < 2 ^ 25 -> value5 w -> PolyMod_step d w = d * 2 ^ 5 + w.
Proof.
  intros Hd Hw. unfold digit_ok in Hw. unfold PolyMod_step. rewrite Z.shiftr_div_pow2, Z.div_small by lia.
  change (u8 0) with 0. rewrite !Z.testbit_0_l. cbn [xor_if]. change 0x1ffffff with (Z.ones 25).
  rewrite Z.land_ones, Z.mod_small, Z.shiftl_mul_pow2 by lia.
  transitivity (Z.lor (d * 2 ^ 5) w); [|by apply lor_add; lia]. apply Z.bits_inj'. intros i Hi. rewrite Z.lxor_spec, Z.lor_spec.
  destruct (decide (i < 5)).
  - by rewrite Z.mul_pow2_bits_low, xorb_false_l, orb_false_l by lia.
  - rewrite (is_u_testbit 5 w) by (unfold is_u; lia). by rewrite xorb_false_r, orb_false_r.
Qed.

Lemma PolyMod_word30 v c : Forall value5 v -> word30 c -> word30 (foldl PolyMod_step c v).
Proof. intros Hv. revert c. induction Hv; intros c' Hc; cbn; [done|]. apply IHHv. by apply PolyMod_step_30. Qed.

Lemma fold_split n : forall y c d, length y = n ->
  foldl PolyMod_step (Z.lxor c d) y = Z.lxor (foldl PolyMod_step c (replicate n 0)) (foldl PolyMod_step d y).
Proof.
  induction n as [|n IH]; intros [|v y] c d Hlen; try done. cbn [foldl replicate].
  rewrite <-IH by (cbn in Hlen; lia). f_equal. by rewrite <-PolyMod_step_linear, Z.lxor_0_l.
Qed.

Lemma fold_value y : forall d, Forall value5 y -> 0 <= d -> d < 2 ^ (30 - 5 * Zlen y) -> Zlen y <= 6 ->
  foldl PolyMod_step d y = d * 2 ^ (5 * Zlen y) + value 5 y.
Proof.
  induction y as [|v y IH]; intros d Hy Hd Hb Hlen; cbn [foldl value].
  { unfold Zlen. cbn. lia. }
  inversion Hy as [|?? Hv Hy']; subst. rewrite Zlen_cons in *. pose proof (Zlen_nonneg y).
  assert (2 ^ (30 - 5 * (Zlen y + 1)) <= 2 ^ 25) by (apply Z.pow_le_mono_r; lia).
  assert (2 ^ (30 - 5 * Zlen y) = 2 ^ (30 - 5 * (Zlen y + 1)) * 32) as Ep.
  { change 32 with (2 ^ 5). rewrite <-Z.pow_add_r by lia. f_equal. lia. }
  rewrite PolyMod_step_small by (done || lia). unfold digit_ok in Hv. rewrite IH; [|done|lia|lia|lia].
  replace (5 * (Zlen y + 1)) with (5 + 5 * Zlen y) by lia. rewrite Z.pow_add_r by lia. lia.
Qed.

(** Six values at the end are added to the remainder. *)
Lemma PolyMod_append c y :
  length y = 6%nat -> Forall value5 y ->
  foldl PolyMod_step c y = Z.lxor (foldl PolyMod_step c (replicate 6 0)) (value 5 y).
Proof.
  intros Hlen Hy. rewrite <-(Z.lxor_0_r c) at 1. rewrite (fold_split 6 y c 0 Hlen).
  rewrite (fold_value y 0); [by rewrite Z.mul_0_l, Z.add_0_l|done|lia|unfold Zlen; rewrite Hlen; done|unfold Zlen; rewrite Hlen; done].
Qed.

(** ** The checksum that is created is the one that is accepted *)

Definition six_digits (m : Z) : list Z :=
  map (fun i => Z.land (Z.shiftr m (5 * (5 - Z.of_nat i))) 31) (seq 0 6).

Lemma six_digits_ok m : Forall value5 (six_digits m).
Proof.
  apply List.Forall_forall. intros x Hx. apply in_map_iff in Hx as (i & <- & _).
  change 31 with (Z.ones 5). rewrite Z.land_ones by lia. apply Z.mod_pos_bound. lia.
Qed.

Lemma six_digits_value m : word30 m -> value 5 (six_digits m) = m.
Proof.
  intros Hm. unfold word30, is_u in Hm. unfold six_digits. cbn [seq map value].
  change 31 with (Z.ones 5). rewrite !Z.land_ones, !Z.shiftr_div_pow2 by lia. unfold Zlen. cbn -[Z.div Z.modulo Z.mul Z.add].
  Z.to_euclidean_division_equations. lia.
Qed.

Lemma expand_ok hrp : bytes_ok hrp -> Forall value5 (ExpandHRP hrp).
Proof.
  intros Hh. unfold ExpandHRP. rewrite !Forall_app. split; [|split].
  - apply Forall_map, (Forall_impl _ _ _ Hh). intros c Hc. cbn. unfold byte_ok in Hc.
    rewrite Z.shiftr_div_pow2 by lia. split; [apply Z.div_pos; lia|apply Z.div_lt_upper_bound; lia].
  - constructor; [unfold digit_ok; lia|constructor].
  - apply Forall_map, Forall_true. intros c. cbn. change 31 with (Z.ones 5).
    rewrite Z.land_ones by lia. apply Z.mod_pos_bound. lia.
Qed.

Lemma checksum_unique hrp values y :
  bytes_ok hrp -> Forall value5 values -> length y = 6%nat -> Forall value5 y ->
  VerifyChecksum hrp (values ++ y) = true <-> y = CreateChecksum hrp values.
Proof.
  intros Hh Hv Hlen Hy. unfold VerifyChecksum, CreateChecksum, PolyMod. fold (six_digits (Z.lxor (foldl PolyMod_step 1 (ExpandHRP hrp ++ values ++ replicate 6 0)) 1)).
  rewrite !app_assoc, Z.eqb_eq, !foldl_app. set (c := foldl PolyMod_step _ values).
  rewrite (PolyMod_append c y) by done. set (M := foldl PolyMod_step c (replicate 6 0)).
  assert (word30 M) as HM by (apply PolyMod_word30; [by apply Forall_replicate; unfold digit_ok|]; apply PolyMod_word30; [done|];
    apply PolyMod_word30; [by apply expand_ok|by unfold word30, is_u]).
  assert (word30 (Z.lxor M 1)) as HM1 by (apply is_u_lxor; [lia|done|by unfold is_u]).
  split.
  - intros E. apply (value_inj 5); [lia|done|apply six_digits_ok|unfold Zlen; by rewrite Hlen|].
    rewrite six_digits_value by done. rewrite <-E, <-Z.lxor_assoc, Z.lxor_nilpotent. by rewrite Z.lxor_0_l.
  - intros ->. rewrite six_digits_value by done. by rewrite <-Z.lxor_assoc, Z.lxor_nilpotent.
Qed.

(** ** One changed value is noticed *)

(** What the five top bits add. *)
Definition feedback (t : Z) : Z :=
  xor_if (Z.testbit t 4) 0x2a1462b3 (xor_if (Z.testbit t 3) 0x3d4233dd (xor_if (Z.testbit t 2) 0x1ea119fa
    (xor_if (Z.testbit t 1) 0x26508e6d (xor_if (Z.testbit t 0) 0x3b6a57b2 0)))).

Lemma step_feedback c v :
  PolyMod_step c v = Z.lxor (Z.lxor (Z.shiftl (Z.land c 0x1ffffff) 5) v) (feedback (u8 (Z.shiftr c 25))).
Proof.
  unfold PolyMod_step, feedback. set (t := u8 _). set (x := Z.lxor _ v).
  rewrite <-(Z.lxor_0_r x) at 1. unfold xor_if. by repeat destruct (Z.testbit t _); rewrite ?Z.lxor_assoc.
Qed.

Lemma feedback_low t : 0 <= t < 32 -> feedback t mod 32 = 0 -> t = 0.
Proof.
  intros Ht E. refine (Zrange_check 32 (fun t => feedback t mod 32 = 0 -> t = 0) _ t Ht E). vm_compute. done.
Qed.

Lemma step_zero d : word30 d -> PolyMod_step d 0 = 0 -> d = 0.
Proof.
  intros Hd E. unfold word30, is_u in Hd. rewrite step_feedback, Z.lxor_0_r in E.
  apply (proj1 (Z.lxor_eq_0_iff _ _)) in E. change 0x1ffffff with (Z.ones 25) in E.
  rewrite Z.land_ones, Z.shiftl_mul_pow2, Z.shiftr_div_pow2, u8_id in E
    by first [lia|split; [apply Z.div_pos; lia|apply Z.div_lt_upper_bound; lia]].
  assert (d / 2 ^ 25 = 0) as Ht.
  { apply feedback_low; [split; [apply Z.div_pos|apply Z.div_lt_upper_bound]; lia|]. rewrite <-E.
    by apply Z.mod_mul. }
  rewrite Ht in E. change (feedback 0) with 0 in E. pose proof (Z.div_mod d (2 ^ 25) ltac:(lia)). lia.
Qed.

Lemma zeros_keep n d : word30 d -> d <> 0 -> foldl PolyMod_step d (replicate n 0) <> 0.
Proof.
  revert d. induction n as [|n IH]; intros d Hd Hn; [done|]. cbn. apply IH.
  - by apply PolyMod_step_30.
  - intros E. apply Hn, step_zero; done.
Qed.

Lemma one_change_changes c l v w :
  Forall value5 l -> value5 v -> value5 w -> v <> w ->
  foldl PolyMod_step c (v :: l) <> foldl PolyMod_step c (w :: l).
Proof.
  intros Hl Hv Hw Hne E. cbn [foldl] in E.
  replace (PolyMod_step c w) with (Z.lxor (Z.lxor v w) (PolyMod_step c v)) in E.
  2: { assert (PolyMod_step c w = Z.lxor (PolyMod_step 0 (Z.lxor v w)) (PolyMod_step c v)) as ->.
       { rewrite <-PolyMod_step_linear, Z.lxor_0_l. f_equal. rewrite Z.lxor_comm, <-Z.lxor_assoc, Z.lxor_nilpotent. by rewrite Z.lxor_0_l. }
       rewrite (PolyMod_step_small 0 (Z.lxor v w)); [done|lia|]. apply (is_u_lxor 5); [lia|done|done]. }
  rewrite (fold_split (length l)) in E by done. symmetry in E.
  set (x := foldl PolyMod_step (Z.lxor v w) (replicate (length l) 0)) in E.
  assert (x = 0) as Ex.
  { set (f := foldl PolyMod_step (PolyMod_step c v) l) in E. transitivity (Z.lxor (Z.lxor x f) f).
    - by rewrite Z.lxor_assoc, Z.lxor_nilpotent, Z.lxor_0_r.
    - rewrite E. apply Z.lxor_nilpotent. }
  revert Ex. apply zeros_keep.
  - apply is_u_lxor; [lia|by apply digit_30..].
  - intros E0. apply (proj1 (Z.lxor_eq_0_iff _ _)) in E0. done.
Qed.
End Bech32Facts.

Module TextTheorems.
Import Text TextFacts BaseFacts Bech32Facts.

(** ** Characters of bech32 *)

Abbreviation bchar v := (rd CHARSET (Z.to_nat v)).

(** A printable character that is not an upper-case letter. *)
Definition plain (c : Z) : Prop := 33 <= c <= 126 /\ is_upper c = false.

Lemma bchar_ok v : value5 v -> plain (bchar v) /\ bchar v <> one_sign /\ char_rev (bchar v) = v.
Proof.
  intros Hv. refine (Zrange_check 32 (fun v => (33 <= bchar v <= 126 /\ is_upper (bchar v) = false) /\
    bchar v <> one_sign /\ char_rev (bchar v) = v) _ v Hv). vm_compute. done.
Qed.

Lemma char_rev_ok c : 33 <= c <= 126 -> char_rev c <> -1 -> value5 (char_rev c) /\ LowerCase c = bchar (char_rev c).
Proof.
  intros Hc. refine (Zrange_check 127 (fun c => 33 <= c <= 126 -> char_rev c <> -1 ->
    0 <= char_rev c < 2 ^ 5 /\ LowerCase c = bchar (char_rev c)) _ c _ Hc); [vm_compute; done|lia].
Qed.

Lemma plain_lower c : plain c -> LowerCase c = c.
Proof. intros [_ Hc]. unfold LowerCase. unfold is_upper in Hc. by rewrite Hc. Qed.

Lemma lower_plain c : 33 <= c <= 126 -> plain (LowerCase c).
Proof.
  intros Hc. unfold plain, LowerCase, is_upper. destruct (Z.leb_spec 65 c), (Z.leb_spec c 90); cbn [andb];
    (split; [lia|]); bdestruct_all; done.
Qed.

Lemma charset_chars l : Forall value5 l -> charset_loop l = Some (map (fun v => bchar v) l).
Proof.
  induction 1 as [|v l Hv Hl IH]; [done|]. cbn [charset_loop map]. rewrite IH.
  destruct (Z.leb_spec 32 v); [unfold digit_ok in Hv; lia|done].
Qed.

Lemma rev_chars l : Forall value5 l -> rev_loop (map (fun v => bchar v) l) = Some l.
Proof.
  induction 1 as [|v l Hv Hl IH]; [done|]. cbn [rev_loop map]. rewrite IH.
  destruct (bchar_ok v Hv) as (_ & _ & ->). destruct (Z.eqb_spec v (-1)); [unfold digit_ok in Hv; lia|done].
Qed.

Lemma rev_only s l :
  Forall (fun c => 33 <= c <= 126) s -> rev_loop s = Some l ->
  Forall value5 l /\ map LowerCase s = map (fun v => bchar v) l.
Proof.
  intros Hs. revert l. induction Hs as [|c s Hc Hs IH]; intros l E; cbn [rev_loop] in E.
  { injection E as <-. done. }
  destruct (Z.eqb_spec (char_rev c) (-1)) as [|Hr]; [done|]. destruct (rev_loop s) as [l'|]; [|done].
  injection E as <-. destruct (IH l' eq_refl) as [Hl Hm]. destruct (char_rev_ok c Hc Hr) as [Hv Hlow].
  split; [by constructor|]. cbn. by rewrite Hm, Hlow.
Qed.

Lemma rfind_last a b : one_sign ∉ b -> rfind_one (a ++ one_sign :: b) = Some (a, b).
Proof.
  intros Hb. induction a as [|c a IH]; cbn [app rfind_one]; [|by rewrite IH].
  assert (rfind_one b = None) as ->; [|done].
  induction b as [|c b IHb]; [done|]. rewrite not_elem_of_cons in Hb. destruct Hb as [Hc Hb].
  cbn [rfind_one]. rewrite IHb by done. by rewrite (proj2 (Z.eqb_neq c one_sign)) by congruence.
Qed.

Lemma rfind_only s a b : rfind_one s = Some (a, b) -> s = a ++ one_sign :: b.
Proof.
  revert a. induction s as [|c s IH]; intros a E; cbn [rfind_one] in E; [done|].
  destruct (rfind_one s) as [[a' b']|].
  - injection E as <- <-. by rewrite (IH a' eq_refl).
  - destruct (Z.eqb_spec c one_sign) as [->|]; [|done]. injection E as <- <-. done.
Qed.

Lemma existsb_none {A} (f : A -> bool) l : Forall (fun x => f x = false) l -> existsb f l = false.
Proof. induction 1 as [|x l Hx Hl IH]; [done|]. cbn. by rewrite Hx, IH. Qed.

Lemma existsb_false {A} (f : A -> bool) l : existsb f l = false -> Forall (fun x => f x = false) l.
Proof. induction l as [|x l IH]; [constructor|]. cbn. intros [Hx Hl]%orb_false_iff. constructor; auto. Qed.

Lemma unprintable c : 33 <= c <= 126 <-> (c <? 33) || (126 <? c) = false.
Proof. rewrite orb_false_iff, Z.ltb_ge, Z.ltb_ge. lia. Qed.

Lemma plain_bytes l : Forall plain l -> bytes_ok l.
Proof. intros H. apply (Forall_impl _ _ _ H). intros c [Hc _]. unfold byte_ok. lia. Qed.

Lemma checksum_digits hrp values : Forall value5 (CreateChecksum hrp values) /\ length (CreateChecksum hrp values) = 6%nat.
Proof. split; [apply six_digits_ok|done]. Qed.

Lemma Encode_form hrp values :
  Forall value5 values ->
  Encode hrp values = hrp ++ one_sign :: map (fun v => bchar v) (values ++ CreateChecksum hrp values).
Proof. intros Hv. unfold Encode. rewrite charset_chars; [done|]. apply Forall_app. split; [done|apply checksum_digits]. Qed.

Lemma Encode_plain hrp values : Forall plain hrp -> Forall value5 values -> Forall plain (Encode hrp values).
Proof.
  intros Hh Hv. rewrite Encode_form by done. apply Forall_app. split; [done|]. constructor; [split; [unfold one_sign; lia|done]|].
  apply Forall_map. apply Forall_impl with (P := value5).
  - apply Forall_app. split; [done|apply checksum_digits].
  - intros v Hv'. apply bchar_ok, Hv'.
Qed.

Lemma Decode_Encode hrp values :
  hrp <> [] -> Forall plain hrp -> Forall value5 values -> Zlen hrp + Zlen values <= 1016 ->
  Decode (Encode hrp values) = (hrp, values).
Proof.
  intros Hne Hh Hv Hlen. pose proof (Encode_plain _ _ Hh Hv) as Hp. unfold Decode.
  rewrite existsb_none by (apply (Forall_impl _ _ _ Hp); intros c [Hc _]; by apply unprintable).
  rewrite (existsb_none is_upper) by (apply (Forall_impl _ _ _ Hp); by intros c [_ Hc]). rewrite andb_false_r.
  destruct (checksum_digits hrp values) as [Hc Hc6].
  assert (Forall value5 (values ++ CreateChecksum hrp values)) as Hall by (by apply Forall_app).
  rewrite Encode_form by done. rewrite rfind_last.
  2: { intros Hin. apply list_elem_of_fmap in Hin as (v & Ev & Hin). rewrite Forall_forall in Hall.
       destruct (bchar_ok v (Hall v Hin)) as (_ & Hn & _). by rewrite <-Ev in Hn. }
  rewrite rev_chars by done.
  replace (1023 <? _) with false by (symmetry; apply Z.ltb_ge; unfold Zlen in *;
    rewrite length_app; cbn [length]; rewrite length_map, length_app, Hc6; lia).
  replace (Zlen hrp =? 0) with false by (symmetry; apply Z.eqb_neq; destruct hrp; [done|unfold Zlen; cbn; lia]).
  replace (_ <? Zlen hrp + 7) with false by (symmetry; apply Z.ltb_ge; unfold Zlen in *;
    rewrite length_app; cbn [length]; rewrite length_map, length_app, Hc6; lia).
  cbn [orb]. replace (map LowerCase hrp) with hrp.
  2: { clear - Hh. induction Hh as [|c l Hc Hl IH]; [done|]. cbn. by rewrite plain_lower, <-IH. }
  rewrite (proj2 (checksum_unique hrp values _ (plain_bytes _ Hh) Hv Hc6 Hc) eq_refl).
  by rewrite length_app, Hc6, Nat.add_sub, take_app_length.
Qed.

Lemma Decode_only s hrp values :
  Decode s = (hrp, values) -> hrp <> [] ->
  Forall plain hrp /\ Forall value5 values /\ Zlen hrp + Zlen values <= 1016 /\
  map LowerCase s = Encode hrp values.
Proof.
  intros E Hne. unfold Decode in E. destruct (existsb _ s) eqn:Hp; [by injection E as <-|].
  apply existsb_false in Hp. destruct (_ && _); [by injection E as <-|].
  destruct (rfind_one s) as [[before after]|] eqn:Er; [|by injection E as <-].
  apply rfind_only in Er. destruct (_ || _) eqn:Hb; [by injection E as <-|].
  rewrite !orb_false_iff, Z.ltb_ge, Z.ltb_ge in Hb. destruct Hb as [[Hlong _] Hshort].
  destruct (rev_loop after) as [l|] eqn:El; [|by injection E as <-].
  destruct (VerifyChecksum _ l) eqn:Hv; [|by injection E as <-]. injection E as <- <-.
  assert (Forall (fun c => 33 <= c <= 126) s) as Hps by (apply (Forall_impl _ _ _ Hp); intros c Hc; by apply unprintable).
  rewrite Er in Hps, Hlong, Hshort. apply Forall_app in Hps as [Hbef [_ Haft]%Forall_cons].
  destruct (rev_only _ _ Haft El) as [Hl Hm].
  assert (length after = length l) as Hll by (apply (f_equal length) in Hm; by rewrite !length_map in Hm).
  rewrite Zlen_app, Zlen_cons in Hlong, Hshort. unfold Zlen in Hlong, Hshort.
  assert (Forall plain (map LowerCase before)) as Hh.
  { apply Forall_map, (Forall_impl _ _ _ Hbef). intros c Hc. by apply lower_plain. }
  rewrite <-(take_drop (length l - 6) l), Forall_app in Hl. destruct Hl as [Ht Hd].
  rewrite <-(take_drop (length l - 6) l) in Hv.
  apply checksum_unique in Hv; [|by apply plain_bytes|done|rewrite length_drop; lia|done].
  split; [done|]. split; [done|]. split; [unfold Zlen; rewrite length_map, length_take; lia|].
  rewrite Encode_form, <-Hv, take_drop, <-Hm by done. rewrite Er, map_app. done.
Qed.

(** [C40] Bech32 texts: encoding values under a prefix of printable characters without
    capitals gives a text that decodes to that prefix and those values, up to the
    length limit; and a text that decodes at all is, up to the case of its letters,
    the encoding of what it decodes to.  So there is one text, in two cases, for each
    prefix and list of values. *)
Theorem bech32_exact s hrp values :
  (hrp <> [] -> Forall plain hrp -> Forall (digit_ok 5) values -> Zlen hrp + Zlen values <= 1016 ->
   Decode (Encode hrp values) = (hrp, values)) /\
  (Decode s = (hrp, values) -> hrp <> [] ->
   Forall plain hrp /\ Forall (digit_ok 5) values /\ Zlen hrp + Zlen values <= 1016 /\
   map LowerCase s = Encode hrp values).
Proof. split; [apply Decode_Encode|apply Decode_only]. Qed.

(** One changed value under a prefix does not go unnoticed. *)
Lemma bech32_detects_change hrp l1 v w l2 :
  bytes_ok hrp -> Forall value5 l1 -> Forall value5 l2 -> value5 v -> value5 w -> v <> w ->
  VerifyChecksum hrp (l1 ++ v :: l2) = true -> VerifyChecksum hrp (l1 ++ w :: l2) = false.
Proof.
  intros Hh H1 H2 Hv Hw Hne E. unfold VerifyChecksum, PolyMod in *. rewrite Z.eqb_eq in E.
  apply Z.eqb_neq. intros E'. rewrite app_assoc, foldl_app in E, E'.
  apply (one_change_changes (foldl PolyMod_step 1 (ExpandHRP hrp ++ l1)) l2 v w); congruence.
Qed.

(** Base 64 and base 32: decoding undoes encoding; and a text without NUL that is
    accepted is the encoding of the bytes it gives, in base 32 up to the case of its
    letters.  So no padding, stray bit or trailing character is let through. *)
Theorem base_texts_exact l s :
  (bytes_ok l -> DecodeBase64 (EncodeBase64 l) = (l, true) /\ DecodeBase32 (EncodeBase32 l true) = (l, true)) /\
  (bytes_ok s -> 0 ∉ s ->
   (DecodeBase64 s = (l, true) -> bytes_ok l /\ s = EncodeBase64 l) /\
   (DecodeBase32 s = (l, true) -> bytes_ok l /\ ToLower s = EncodeBase32 l true)).
Proof.
  split.
  - intros Hl. split; [by apply (encode_decode _ _ lawful_base64)|by apply (encode_decode _ _ lawful_base32)].
  - intros Hs Hn. split; intros E.
    + apply (decode_encode _ _ lawful_base64) in E as [Hl E]; [|by rewrite c_str_id].
      rewrite c_str_id, map_id in E by done. done.
    + apply (decode_encode _ _ lawful_base32) in E as [Hl E]; [|by rewrite c_str_id].
      rewrite c_str_id in E by done. done.
Qed.

(** "Man" and the zs prefix. *)
Lemma bech32_exact_witness :
  Decode (Encode [122; 115] [1; 2; 31]) = ([122; 115], [1; 2; 31]) /\
  map LowerCase (Encode [122; 115] [1; 2; 31]) = Encode [122; 115] [1; 2; 31].
Proof.
  destruct (bech32_exact (Encode [122; 115] [1; 2; 31]) [122; 115] [1; 2; 31]) as [H1 H2].
  assert (Decode (Encode [122; 115] [1; 2; 31]) = ([122; 115], [1; 2; 31])) as E.
  { apply H1; [done| | |vm_compute; discriminate].
    - repeat constructor; cbn; lia.
    - repeat constructor; cbn; lia. }
  split; [exact E|]. by apply H2.
Defined.

Lemma base_texts_exact_witness :
  DecodeBase64 (EncodeBase64 [77; 97]) = ([77; 97], true) /\
  (bytes_ok [77; 97] /\ [84; 87; 69; 61] = EncodeBase64 [77; 97]).
Proof.
  destruct (base_texts_exact [77; 97] [84; 87; 69; 61]) as [H1 H2].
  split; [apply H1; by repeat constructor|]. apply H2; [by repeat constructor| |vm_compute; done].
  rewrite !not_elem_of_cons. repeat split; try lia. apply not_elem_of_nil.
Defined.
End TextTheorems.
