(* ===== verification/Amounts.v ===== *)
(** * Amounts and bytes as texts (src/src/util/strencodings.cpp, utilmoneystr.cpp,
    rpc/server.cpp)

    The decimal numbers in which amounts of money enter and leave the node: the parser
    of fixed-point numbers of the RPC interface, the printer that goes with it, and the
    older pair of the command line; and the hexadecimal form of bytes.  A string is the
    list of its characters; of the argument of [ParseMoney] and [ParseHex], a C string,
    those before the NUL. *)
From S2P Require Import Prelude.
Local Open Scope Z_scope.

Module Amounts.

Definition COIN : Z := 100000000.
Definition CENT : Z := 1000000.

(** What a parser does: it overflows an integer, returns false, or gives a result. *)
Inductive answer (A : Type) := Undefined | Rejected | Accepted (a : A).
Arguments Undefined {A}.
Arguments Rejected {A}.
Arguments Accepted {A}.

#[export] Instance answer_bind : MBind answer := fun A B f m =>
  match m with Undefined => Undefined | Rejected => Rejected | Accepted a => f a end.

Definition fit (P : Z -> Prop) `{forall x, Decision (P x)} (x : Z) : answer Z :=
  if decide (P x) then Accepted x else Undefined.
Abbreviation fit32 := (fit is_s32).
Abbreviation fit64 := (fit is_s64).

Definition IsDigit (c : Z) : bool := (48 <=? c) && (c <=? 57).
Definition IsSpace (c : Z) : bool :=
  (c =? 32) || (c =? 12) || (c =? 10) || (c =? 13) || (c =? 9) || (c =? 11).

(** ** ParseFixedPoint *)

Definition UPPER_BOUND : Z := 1000000000000000000 - 1.

(** The loop of [ProcessMantissaDigit]. *)
Fixpoint scale (n : nat) (mantissa : Z) : answer Z :=
  match n with
  | O => Accepted mantissa
  | S n => if UPPER_BOUND / 10 <? mantissa then Rejected else mantissa ← fit64 (mantissa * 10); scale n mantissa
  end.

Definition ProcessMantissaDigit (ch mantissa mantissa_tzeros : Z) : answer (Z * Z) :=
  if ch =? 48 then tz ← fit32 (mantissa_tzeros + 1); Accepted (mantissa, tz)
  else
    mantissa ← scale (Z.to_nat (mantissa_tzeros + 1)) mantissa;
    mantissa ← fit64 (mantissa + (ch - 48));
    Accepted (mantissa, 0).

(** The loops over the digits before and behind the point: what is left of the string,
    the number of digits, the mantissa and its zeros. *)
Fixpoint mantissa_loop (val : list Z) (ofs mantissa tz : Z) : answer (list Z * Z * Z * Z) :=
  match val with
  | c :: val' =>
      if IsDigit c then
        '(mantissa, tz) ← ProcessMantissaDigit c mantissa tz;
        ofs ← fit32 (ofs + 1);
        mantissa_loop val' ofs mantissa tz
      else Accepted (val, ofs, mantissa, tz)
  | [] => Accepted ([], ofs, mantissa, tz)
  end.

Fixpoint exponent_loop (val : list Z) (exponent : Z) : answer (list Z * Z) :=
  match val with
  | c :: val' =>
      if IsDigit c then
        if UPPER_BOUND / 10 <? exponent then Rejected
        else exponent ← fit64 (exponent * 10 + c - 48); exponent_loop val' exponent
      else Accepted (val, exponent)
  | [] => Accepted ([], exponent)
  end.

(** The string behind the character [c], when it begins with it. *)
Definition strip (c : Z) (val : list Z) : option (list Z) :=
  match val with x :: val => if x =? c then Some val else None | [] => None end.

(** A loop that has to find a digit. *)
Definition expect_digit {A} (val : list Z) (m : answer A) : answer A :=
  match val with c :: _ => if IsDigit c then m else Rejected | [] => Rejected end.

Definition whole_part (val : list Z) : answer (list Z * Z * Z) :=
  match val with
  | c :: val' =>
      if c =? 48 then Accepted (val', 0, 0)
      else if (49 <=? c) && (c <=? 57) then
        '(val, _, mantissa, tz) ← mantissa_loop val 0 0 0; Accepted (val, mantissa, tz)
      else Rejected
  | [] => Rejected
  end.

Definition fraction_part (val : list Z) (mantissa tz : Z) : answer (list Z * Z * Z * Z) :=
  match strip 46 val with
  | Some val => expect_digit val (mantissa_loop val 0 mantissa tz)
  | None => Accepted (val, 0, mantissa, tz)
  end.

Definition exponent_part (val : list Z) : answer (list Z * Z) :=
  match val with
  | c :: val =>
      if (c =? 101) || (c =? 69) then
        let '(exponent_sign, val) :=
          match strip 43 val, strip 45 val with
          | Some val, _ => (false, val) | None, Some val => (true, val) | None, None => (false, val)
          end in
        '(val, exponent) ← expect_digit val (exponent_loop val 0);
        Accepted (val, if exponent_sign then - exponent else exponent)
      else Accepted (c :: val, 0)
  | [] => Accepted ([], 0)
  end.

(** The last loop. *)
Fixpoint raise (n : nat) (mantissa : Z) : answer Z :=
  match n with
  | O => Accepted mantissa
  | S n =>
      if (UPPER_BOUND / 10 <? mantissa) || (mantissa <? - (UPPER_BOUND / 10)) then Rejected
      else mantissa ← fit64 (mantissa * 10); raise n mantissa
  end.

(** Behind the number there must be nothing; then mantissa and exponent are put together. *)
Definition finish (mantissa_sign : bool) (decimals point_ofs mantissa tz : Z) (val : list Z) (exponent : Z) : answer Z :=
  match val with
  | _ :: _ => Rejected
  | [] =>
      exponent ← fit64 (exponent - point_ofs + tz + decimals);
      let mantissa := if mantissa_sign : bool then - mantissa else mantissa in
      if exponent <? 0 then Rejected
      else if 18 <=? exponent then Rejected
      else
        mantissa ← raise (Z.to_nat exponent) mantissa;
        if (UPPER_BOUND <? mantissa) || (mantissa <? - UPPER_BOUND) then Rejected else Accepted mantissa
  end.

Definition ParseFixedPoint (val : list Z) (decimals : Z) : answer Z :=
  let '(mantissa_sign, val) := match strip 45 val with Some val => (true, val) | None => (false, val) end in
  '(val, mantissa, tz) ← whole_part val;
  '(val, point_ofs, mantissa, tz) ← fraction_part val mantissa tz;
  '(val, exponent) ← exponent_part val;
  finish mantissa_sign decimals point_ofs mantissa tz val exponent.

(** ** Printing *)

(** [%d] of a number that is not negative; an [int64_t] has at most 19 digits. *)
Fixpoint dec (fuel : nat) (n : Z) : list Z :=
  match fuel with
  | O => []
  | S fuel => if n <? 10 then [48 + n] else dec fuel (n / 10) ++ [48 + n mod 10]
  end.

(** [%08d] of a number below [COIN]. *)
Definition dec8 (n : Z) : list Z := map (fun i => 48 + n / 10 ^ Z.of_nat i mod 10) [7; 6; 5; 4; 3; 2; 1; 0]%nat.

(** [%d.%08d] *)
Definition coin_text (n_abs : Z) : list Z := dec 19 (n_abs / COIN) ++ [46] ++ dec8 (n_abs mod COIN).

(** The text of the number that the RPC interface shows. *)
Definition ValueFromAmount (amount : Z) : answer (list Z) :=
  n_abs ← fit64 (Z.abs amount);
  Accepted ((if amount <? 0 then [45] else []) ++ coin_text n_abs).

(** [AmountFromValue] of a number or a string. *)
Definition AmountFromValue (max_money : Z) (val : list Z) : answer Z :=
  amount ← ParseFixedPoint val 8;
  if (0 <=? amount) && (amount <=? max_money) then Accepted amount else Rejected.

(** The loop that counts the zeros to trim, on the reversed string. *)
Fixpoint trim (str : list Z) : list Z :=
  match str with
  | c :: ((_ :: d :: _) as rest) => if (c =? 48) && IsDigit d then trim rest else str
  | _ => str
  end.

Definition FormatMoney (n : Z) : answer (list Z) :=
  n_abs ← fit64 (Z.abs n);
  Accepted ((if n <? 0 then [45] else []) ++ rev (trim (rev (coin_text n_abs)))).

(** ** ParseMoney *)

Fixpoint skip_spaces (p : list Z) : list Z :=
  match p with c :: p' => if IsSpace c then skip_spaces p' else p | [] => [] end.

(** The digits behind the point: the units and the rest. *)
Fixpoint units_loop (p : list Z) (nMult nUnits : Z) : Z * list Z :=
  match p with
  | c :: p' => if IsDigit c && (0 <? nMult) then units_loop p' (nMult / 10) (nUnits + nMult * (c - 48)) else (nUnits, p)
  | [] => (nUnits, [])
  end.

(** The loop over the string: the whole part, the units and the rest, or false. *)
Fixpoint money_loop (p : list Z) : option (list Z * Z * list Z) :=
  match p with
  | [] => Some ([], 0, [])
  | c :: p' =>
      if c =? 46 then let '(nUnits, rest) := units_loop p' (CENT * 10) 0 in Some ([], nUnits, rest)
      else if IsSpace c then Some ([], 0, p)
      else if negb (IsDigit c) then None
      else '(strWhole, nUnits, rest) ← money_loop p'; Some (c :: strWhole, nUnits, rest)
  end.

(** [atoi64] of digits. *)
Definition atoi64 (digits : list Z) : Z := fold_left (fun n c => n * 10 + (c - 48)) digits 0.

Definition ParseMoney (pszIn : list Z) : option Z :=
  '(strWhole, nUnits, rest) ← money_loop (skip_spaces pszIn);
  if negb (forallb IsSpace rest) then None
  else if 10 <? Zlen strWhole then None
  else if (nUnits <? 0) || (COIN <? nUnits) then None
  else Some (atoi64 strWhole * COIN + nUnits).

(** ** Hexadecimal *)

Definition p_util_hexdigit : list Z :=
  [-1; -1; -1; -1; -1; -1; -1; -1; -1; -1; -1; -1; -1; -1; -1; -1; -1; -1; -1; -1; -1; -1; -1; -1;
   -1; -1; -1; -1; -1; -1; -1; -1; -1; -1; -1; -1; -1; -1; -1; -1; -1; -1; -1; -1; -1; -1; -1; -1;
   0; 1; 2; 3; 4; 5; 6; 7; 8; 9; -1; -1; -1; -1; -1; -1; -1; 10; 11; 12; 13; 14; 15; -1; -1; -1;
   -1; -1; -1; -1; -1; -1; -1; -1; -1; -1; -1; -1; -1; -1; -1; -1; -1; -1; -1; -1; -1; -1; -1; 10;
   11; 12; 13; 14; 15; -1; -1; -1; -1; -1; -1; -1; -1; -1; -1; -1; -1; -1; -1; -1; -1; -1; -1; -1;
   -1; -1; -1; -1; -1; -1; -1; -1; -1; -1; -1; -1; -1; -1; -1; -1; -1; -1; -1; -1; -1; -1; -1; -1;
   -1; -1; -1; -1; -1; -1; -1; -1; -1; -1; -1; -1; -1; -1; -1; -1; -1; -1; -1; -1; -1; -1; -1; -1;
   -1; -1; -1; -1; -1; -1; -1; -1; -1; -1; -1; -1; -1; -1; -1; -1; -1; -1; -1; -1; -1; -1; -1; -1;
   -1; -1; -1; -1; -1; -1; -1; -1; -1; -1; -1; -1; -1; -1; -1; -1; -1; -1; -1; -1; -1; -1; -1; -1;
   -1; -1; -1; -1; -1; -1; -1; -1; -1; -1; -1; -1; -1; -1; -1; -1; -1; -1; -1; -1; -1; -1; -1; -1;
   -1; -1; -1; -1; -1; -1; -1; -1; -1; -1; -1; -1; -1; -1].

Definition HexDigit (c : Z) : Z := nth (Z.to_nat c) p_util_hexdigit (-1).

Definition IsHex (str : list Z) : bool :=
  negb (existsb (fun c => HexDigit c <? 0) str) && (0 <? Zlen str) && (Zlen str mod 2 =? 0).

Definition IsHexNumber (str : list Z) : bool :=
  let starting_location :=
    match str with a :: b :: _ => if (2 <? Zlen str) && (a =? 48) && (b =? 120) then 2%nat else 0%nat | _ => 0%nat end in
  negb (existsb (fun c => HexDigit c <? 0) (drop starting_location str)) && (Z.of_nat starting_location <? Zlen str).

Fixpoint ParseHex (psz : list Z) : list Z :=
  match psz with
  | [] => []
  | a :: rest =>
      if IsSpace a then ParseHex rest
      else if HexDigit a =? -1 then []
      else
        match rest with
        | b :: rest => if HexDigit b =? -1 then [] else Z.lor (u8 (Z.shiftl (HexDigit a) 4)) (HexDigit b) :: ParseHex rest
        | [] => []
        end
  end.

Definition hexmap : list Z := [48; 49; 50; 51; 52; 53; 54; 55; 56; 57; 97; 98; 99; 100; 101; 102].

Definition HexStr (s : list Z) : list Z :=
  flat_map (fun v => [rd hexmap (Z.to_nat (Z.shiftr v 4)); rd hexmap (Z.to_nat (Z.land v 15))]) s.
End Amounts.

Module AmountsFacts.
Import Amounts.

(** ** Decimal numbers *)

Definition digit (d : Z) : Prop := 0 <= d <= 9.
Abbreviation digits := (Forall digit).
Definition chars (ds : list Z) : list Z := map (fun d => 48 + d) ds.
Definition value (ds : list Z) : Z := fold_left (fun n d => n * 10 + d) ds 0.

Lemma pow_cons {A} (x : A) l : 10 ^ Zlen (x :: l) = 10 * 10 ^ Zlen l.
Proof. unfold Zlen. cbn [length]. rewrite Nat2Z.inj_succ, Z.pow_succ_r by lia. done. Qed.

Lemma value_from a ds : fold_left (fun n d => n * 10 + d) ds a = a * 10 ^ Zlen ds + value ds.
Proof.
  revert a. induction ds as [|d ds IH]; intros a; [unfold value, Zlen; cbn; lia|]. unfold value. cbn [fold_left].
  rewrite (IH (a * 10 + d)), (IH (0 * 10 + d)), pow_cons. lia.
Qed.

Lemma value_cons d ds : value (d :: ds) = d * 10 ^ Zlen ds + value ds.
Proof. unfold value at 1. cbn [fold_left]. rewrite value_from. lia. Qed.

Lemma decimal_app l1 l2 : value (l1 ++ l2) = value l1 * 10 ^ Zlen l2 + value l2.
Proof. unfold value at 1. rewrite fold_left_app. apply value_from. Qed.

Lemma value_bounds ds : digits ds -> 0 <= value ds < 10 ^ Zlen ds.
Proof.
  induction 1 as [|d ds Hd _ IH]; [done|]. rewrite value_cons, pow_cons. unfold digit in Hd. nia.
Qed.

Lemma pow10_pos k : 0 <= k -> 0 < 10 ^ k.
Proof. intros. by apply Z.pow_pos_nonneg. Qed.

Lemma IsDigit_char d : digit d -> IsDigit (48 + d) = true.
Proof. unfold digit, IsDigit. intros. apply andb_true_iff. rewrite !Z.leb_le. lia. Qed.

Lemma IsDigit_iff c : IsDigit c = true <-> exists d, digit d /\ c = 48 + d.
Proof.
  unfold IsDigit, digit. rewrite andb_true_iff, !Z.leb_le. split; [intros; exists (c - 48); lia|]. intros (d & ? & ->). lia.
Qed.

Lemma fit_ok P `{forall x, Decision (P x)} x : P x -> fit P x = Accepted x.
Proof. intros. unfold fit. by rewrite decide_True. Qed.

Lemma bind_accepted {A B} (f : A -> answer B) a : (Accepted a ≫= f) = f a.
Proof. done. Qed.

(** A string is its leading digits and a rest that does not begin with one. *)
Definition no_digit (s : list Z) : Prop := match s with c :: _ => IsDigit c = false | [] => True end.

Lemma split_digits s : exists ds rest, digits ds /\ s = chars ds ++ rest /\ no_digit rest.
Proof.
  induction s as [|c s (ds & rest & Hd & -> & Hr)]; [by exists [], []|]. destruct (IsDigit c) eqn:E.
  - apply IsDigit_iff in E as (d & Hd0 & ->). exists (d :: ds), rest. split; [by constructor|]. done.
  - exists [], (c :: chars ds ++ rest). done.
Qed.

(** ** The mantissa *)

Abbreviation limit := 1000000000000000000.

(** The state of the loop: a mantissa without zeros at its end. *)
Record mantissa_ok (m tz : Z) : Prop := {
  m_pos : 0 <= m < limit; m_zeros : 0 <= tz; m_reduced : m = 0 \/ m mod 10 <> 0 }.

Lemma scale_ok n : forall m,
  0 <= m -> scale n m = if m * 10 ^ Z.of_nat n <? limit then Accepted (m * 10 ^ Z.of_nat n) else
                         if decide (n = O) then Accepted m else Rejected.
Proof.
  induction n as [|n IH]; intros m Hm; cbn [scale].
  - rewrite Z.pow_0_r, Z.mul_1_r. by destruct (m <? limit).
  - rewrite Nat2Z.inj_succ, Z.pow_succ_r by lia. pose proof (pow10_pos (Z.of_nat n) ltac:(lia)).
    change (UPPER_BOUND / 10) with 99999999999999999. rewrite (decide_False (P := S n = O)) by done.
    destruct (Z.ltb_spec 99999999999999999 m).
    + destruct (Z.ltb_spec (m * (10 * 10 ^ Z.of_nat n)) limit); [nia|done].
    + rewrite fit_ok by (unfold is_s64; lia). rewrite bind_accepted, IH by lia.
      replace (m * 10 * 10 ^ Z.of_nat n) with (m * (10 * 10 ^ Z.of_nat n)) by lia.
      destruct (Z.ltb_spec (m * (10 * 10 ^ Z.of_nat n)) limit); [done|].
      destruct (decide (n = O)) as [->|]; [|done]. cbn in *. lia.
Qed.

(** No number below the limit, followed by zeros, is [total] behind [t]. *)
Definition too_long (total : Z) (t : list Z) : Prop :=
  forall x k, 0 <= k -> total * 10 ^ Zlen t + value t = x * 10 ^ k -> limit <= x.

Lemma too_long_base x t ds :
  limit <= x -> x mod 10 <> 0 -> digits ds -> digits t -> too_long (x * 10 ^ Zlen ds + value ds) t.
Proof.
  intros Hx Hr Hd Ht y k Hk E. pose proof (value_bounds _ Hd) as B1. pose proof (value_bounds _ Ht) as B2.
  pose proof (Zlen_nonneg ds) as N1. pose proof (Zlen_nonneg t) as N2. set (r := Zlen ds + Zlen t).
  assert (exists low, 0 <= low < 10 ^ r /\ x * 10 ^ r + low = y * 10 ^ k) as (low & Hl & E').
  { exists (value ds * 10 ^ Zlen t + value t). unfold r. rewrite Z.pow_add_r by lia. split; [nia|]. rewrite <-E. lia. }
  pose proof (pow10_pos r ltac:(lia)) as Pr. pose proof (pow10_pos k Hk) as Pk.
  destruct (Z.le_gt_cases k r) as [Hkr|Hkr].
  - assert (10 ^ k <= 10 ^ r) by (apply Z.pow_le_mono_r; lia). nia.
  - exfalso. apply Hr. assert (x = (x * 10 ^ r + low) / 10 ^ r) as ->.
    { rewrite Z.div_add_l, (Z.div_small low) by lia. lia. }
    rewrite E'. replace k with (1 + (k - r - 1) + r) by lia. rewrite !Z.pow_add_r by lia.
    rewrite !Z.mul_assoc, Z.div_mul by lia. rewrite Z.pow_1_r. replace (y * 10 * 10 ^ (k - r - 1)) with (y * 10 ^ (k - r - 1) * 10) by lia.
    by apply Z.mod_mul.
Qed.

Lemma process_digit d m tz :
  mantissa_ok m tz -> digit d -> tz + 1 < 2 ^ 31 ->
  ProcessMantissaDigit (48 + d) m tz =
    if d =? 0 then Accepted (m, tz + 1)
    else if m * 10 ^ (tz + 1) <? limit then Accepted (m * 10 ^ (tz + 1) + d, 0) else Rejected.
Proof.
  intros [Hm Htz _] Hd Hb. unfold ProcessMantissaDigit, digit in *. replace (48 + d =? 48) with (d =? 0) by lia.
  destruct (Z.eqb_spec d 0); [by rewrite fit_ok by (unfold is_s32; lia)|].
  rewrite scale_ok, Z2Nat.id by lia. destruct (Z.ltb_spec (m * 10 ^ (tz + 1)) limit).
  - rewrite bind_accepted. replace (48 + d - 48) with d by lia. pose proof (pow10_pos (tz + 1) ltac:(lia)).
    rewrite fit_ok by (unfold is_s64; nia). done.
  - rewrite decide_False by lia. done.
Qed.

(** What the loop made of the digits. *)
Record gathered (start tz : Z) (ds : list Z) (m' tz' : Z) : Prop := {
  g_ok : mantissa_ok m' tz';
  g_value : m' * 10 ^ tz' = start * 10 ^ Zlen ds + value ds;
  g_zeros : tz' <= tz + Zlen ds;
  g_zero : m' = 0 -> tz' = tz + Zlen ds }.

Lemma Zlen_more {A} (x : A) l : Zlen (x :: l) = 1 + Zlen l.
Proof. unfold Zlen. cbn [length]. lia. Qed.

Lemma mantissa_step d m tz :
  mantissa_ok m tz -> digit d -> tz + 1 < 2 ^ 31 ->
  (exists m' tz', ProcessMantissaDigit (48 + d) m tz = Accepted (m', tz') /\ mantissa_ok m' tz' /\
     m' * 10 ^ tz' = m * 10 ^ tz * 10 + d /\ tz' <= tz + 1 /\ (m' = 0 -> tz' = tz + 1)) \/
  (ProcessMantissaDigit (48 + d) m tz = Rejected /\ limit <= m * 10 ^ tz * 10 + d /\ (m * 10 ^ tz * 10 + d) mod 10 <> 0).
Proof.
  intros Hok Hd Hb. rewrite process_digit by done. destruct Hok as [Hm Htz Hr]. unfold digit in Hd.
  assert (10 ^ (tz + 1) = 10 ^ tz * 10) as E by (rewrite Z.pow_add_r by lia; done). pose proof (pow10_pos tz Htz).
  assert (d <> 0 -> (m * 10 ^ tz * 10 + d) mod 10 <> 0) as Hmod by (intros; rewrite Z.add_comm, Z.mod_add, Z.mod_small; lia).
  destruct (Z.eqb_spec d 0) as [->|Hd0].
  - left. exists m, (tz + 1). split; [done|]. split; [split; lia|]. rewrite E. lia.
  - rewrite E, Z.mul_assoc. destruct (Z.ltb_spec (m * 10 ^ tz * 10) limit); [left|right; split; [done|split; [lia|auto]]].
    exists (m * 10 ^ tz * 10 + d), 0. split; [done|]. rewrite Z.pow_0_r, Z.mul_1_r. split; [|nia].
    split; [split; [nia|]|lia|auto]. assert (exists q, limit = q * 10) as [q Eq] by (by exists 100000000000000000). lia.
Qed.

Lemma mantissa_loop_ok rest : no_digit rest -> forall ds ofs m tz,
  digits ds -> mantissa_ok m tz -> tz + Zlen ds < 2 ^ 31 -> 0 <= ofs -> ofs + Zlen ds < 2 ^ 31 ->
  (exists m' tz', mantissa_loop (chars ds ++ rest) ofs m tz = Accepted (rest, ofs + Zlen ds, m', tz') /\
     gathered (m * 10 ^ tz) tz ds m' tz') \/
  (mantissa_loop (chars ds ++ rest) ofs m tz = Rejected /\
     forall t, digits t -> too_long (m * 10 ^ tz * 10 ^ Zlen ds + value ds) t).
Proof.
  intros Hrest. induction ds as [|d ds IH]; intros ofs m tz Hd Hok Hb Ho Hob.
  - left. exists m, tz. change (Zlen []) with 0 in *. split.
    2: { split; [done|..]; change (Zlen (A := Z) []) with 0; change (value []) with 0; lia. }
    rewrite Z.add_0_r. cbn [chars map app].
    destruct rest as [|c rest]; [done|]. cbn [mantissa_loop]. cbn in Hrest. by rewrite Hrest.
  - inversion Hd as [|?? Hd0 Hds]; subst. rewrite Zlen_more in *. pose proof (Zlen_nonneg ds). cbn [chars map app mantissa_loop].
    rewrite IsDigit_char by done. fold (chars ds).
    rewrite value_cons, Z.pow_add_r, Z.pow_1_r by lia.
    replace (m * 10 ^ tz * (10 * 10 ^ Zlen ds) + (d * 10 ^ Zlen ds + value ds)) with ((m * 10 ^ tz * 10 + d) * 10 ^ Zlen ds + value ds) by lia.
    destruct (mantissa_step d m tz Hok Hd0 ltac:(lia)) as [(m1 & tz1 & -> & Hok1 & E1 & Hz1 & H01)|(-> & Hbig & Hmod)].
    + rewrite bind_accepted, fit_ok, bind_accepted by (unfold is_s32; lia). rewrite <-E1.
      destruct (IH (ofs + 1) m1 tz1 Hds Hok1 ltac:(lia) ltac:(lia) ltac:(lia)) as [(m' & tz' & -> & [G1 G2 G3 G4])|[-> Hno]]; [left|by right].
      exists m', tz'. split; [do 4 f_equal; lia|]. split; rewrite ?Zlen_more; [done| |lia|].
      * rewrite value_cons, Z.pow_add_r, Z.pow_1_r by lia. rewrite G2, E1. lia.
      * intros E0. specialize (G4 E0). assert (m1 = 0); [|lia].
        rewrite E0 in G2. pose proof (value_bounds _ Hds). pose proof (pow10_pos _ (m_zeros _ _ Hok1)).
        pose proof (pow10_pos (Zlen ds) ltac:(lia)). pose proof (m_pos _ _ Hok1). nia.
    + right. split; [done|]. intros t Ht. by apply too_long_base.
Qed.

(** ** The exponent *)

Lemma exponent_loop_ok rest : no_digit rest -> forall ds e,
  digits ds -> 0 <= e <= limit + 9 ->
  (exponent_loop (chars ds ++ rest) e = Accepted (rest, e * 10 ^ Zlen ds + value ds) /\ e * 10 ^ Zlen ds + value ds <= limit + 9) \/
  (exponent_loop (chars ds ++ rest) e = Rejected /\ limit <= e * 10 ^ Zlen ds + value ds).
Proof.
  intros Hrest. induction ds as [|d ds IH]; intros e Hd He.
  - left. change (Zlen []) with 0. change (value []) with 0. rewrite Z.pow_0_r, Z.mul_1_r, Z.add_0_r. split; [|lia]. cbn [chars map app].
    destruct rest as [|c rest]; [done|]. cbn [exponent_loop]. cbn in Hrest. by rewrite Hrest.
  - inversion Hd as [|?? Hd0 Hds]; subst. unfold digit in Hd0. cbn [chars map app exponent_loop]. rewrite IsDigit_char by done. fold (chars ds).
    rewrite value_cons, pow_cons. pose proof (pow10_pos (Zlen ds) (Zlen_nonneg ds)). pose proof (value_bounds _ Hds).
    replace (e * (10 * 10 ^ Zlen ds) + (d * 10 ^ Zlen ds + value ds)) with ((e * 10 + d) * 10 ^ Zlen ds + value ds) by lia.
    change (UPPER_BOUND / 10) with 99999999999999999. destruct (Z.ltb_spec 99999999999999999 e).
    + right. split; [done|]. nia.
    + rewrite fit_ok, bind_accepted by (unfold is_s64; lia). replace (e * 10 + (48 + d) - 48) with (e * 10 + d) by lia.
      apply IH; [done|lia].
Qed.

Lemma raise_ok n : forall m,
  Z.abs m < limit -> raise n m = if Z.abs m * 10 ^ Z.of_nat n <? limit then Accepted (m * 10 ^ Z.of_nat n) else Rejected.
Proof.
  induction n as [|n IH]; intros m Hm; cbn [raise].
  - rewrite Z.pow_0_r, !Z.mul_1_r. by rewrite (proj2 (Z.ltb_lt _ _)).
  - rewrite Nat2Z.inj_succ, Z.pow_succ_r by lia. pose proof (pow10_pos (Z.of_nat n) ltac:(lia)).
    change (UPPER_BOUND / 10) with 99999999999999999.
    destruct ((_ <? _) || (_ <? _)) eqn:E.
    + rewrite orb_true_iff, !Z.ltb_lt in E. assert (100000000000000000 <= Z.abs m) by lia.
      pose proof (Z.mul_le_mono_nonneg 100000000000000000 (Z.abs m) 1 (10 ^ Z.of_nat n) ltac:(lia) ltac:(lia) ltac:(lia) ltac:(lia)).
      rewrite (proj2 (Z.ltb_ge _ _)) by lia. done.
    + rewrite orb_false_iff, !Z.ltb_ge in E. rewrite fit_ok by (unfold is_s64; lia). rewrite bind_accepted, IH by lia.
      rewrite Z.abs_mul, <-!Z.mul_assoc. done.
Qed.

(** ** Numbers and their texts *)

(** A number of JSON: digits, without leading zeros, a fraction, an exponent with its
    letter and sign. *)
Record number := Number {
  neg : bool; whole : list Z; frac : list Z; expo : option (bool * option bool * list Z) }.

Definition number_ok (n : number) : Prop :=
  digits (whole n) /\ (whole n = [0] \/ exists d ds, whole n = d :: ds /\ d <> 0) /\ digits (frac n) /\
  match expo n with Some (_, _, ds) => digits ds /\ ds <> [] | None => True end.

Definition sign_text (sign : option bool) : list Z :=
  match sign with None => [] | Some false => [43] | Some true => [45] end.
Definition frac_text (f : list Z) : list Z := match f with [] => [] | _ => 46 :: chars f end.
Definition expo_text (e : option (bool * option bool * list Z)) : list Z :=
  match e with
  | None => []
  | Some (upper, sign, ds) => (if upper : bool then 69 else 101) :: sign_text sign ++ chars ds
  end.
Definition text (n : number) : list Z :=
  (if neg n then [45] else []) ++ chars (whole n) ++ frac_text (frac n) ++ expo_text (expo n).

(** The number is [mantissa n * 10 ^ exponent n]. *)
Definition mantissa (n : number) : Z := (if neg n then -1 else 1) * value (whole n ++ frac n).
Definition expo_value (e : option (bool * option bool * list Z)) : Z :=
  match e with None => 0 | Some (_, sign, ds) => (if sign is Some true then -1 else 1) * value ds end.
Definition exponent (n : number) : Z := expo_value (expo n) - Zlen (frac n).

(** [v] is the number times [10 ^ decimals]. *)
Definition denotes (n : number) (decimals v : Z) : Prop :=
  let k := exponent n + decimals in mantissa n * 10 ^ Z.max 0 k = v * 10 ^ Z.max 0 (- k).

Lemma denotes_unique n decimals v w : denotes n decimals v -> denotes n decimals w -> v = w.
Proof.
  unfold denotes. cbv zeta. set (k := exponent n + decimals). intros -> E. pose proof (pow10_pos (Z.max 0 (- k)) ltac:(lia)). nia.
Qed.

Lemma no_digit_expo e : no_digit (expo_text e).
Proof. destruct e as [[[[] s] ds]|]; done. Qed.
Lemma no_digit_frac f e : no_digit (frac_text f ++ expo_text e).
Proof. destruct f; [apply no_digit_expo|done]. Qed.

Lemma expect_digit_some {A} ds rest (m : answer A) : digits ds -> ds <> [] -> expect_digit (chars ds ++ rest) m = m.
Proof. intros Hd Hne. destruct ds as [|d ds]; [done|]. inversion Hd; subst. cbn. by rewrite IsDigit_char. Qed.
Lemma expect_digit_none {A} s (m : answer A) : no_digit s -> expect_digit s m = Rejected.
Proof. destruct s as [|c s]; [done|]. cbn. by intros ->. Qed.

(** *** The parts of a text *)

Lemma zero_ok : mantissa_ok 0 0.
Proof. split; [lia|lia|by left]. Qed.

Lemma whole_part_ok w rest :
  digits w -> (w = [0] \/ exists d ds, w = d :: ds /\ d <> 0) -> no_digit rest -> Zlen w < 2 ^ 31 ->
  (exists m tz, whole_part (chars w ++ rest) = Accepted (rest, m, tz) /\ mantissa_ok m tz /\ m * 10 ^ tz = value w /\
     tz <= Zlen w /\ (m = 0 -> w = [0] /\ tz = 0)) \/
  (whole_part (chars w ++ rest) = Rejected /\ forall t, digits t -> too_long (value w) t).
Proof.
  intros Hd [->|(d & ds & -> & Hne)] Hrest Hb; [left; exists 0, 0; do 2 (split; [done || apply zero_ok|]); done|].
  inversion Hd as [|?? Hd0 Hds]; subst. pose proof Hd0 as Hd0'. unfold digit in Hd0'.
  assert (whole_part (chars (d :: ds) ++ rest) =
    ('(val, _, mantissa, tz) ← mantissa_loop (chars (d :: ds) ++ rest) 0 0 0; Accepted (val, mantissa, tz))) as ->.
  { cbn [chars map app whole_part]. rewrite (proj2 (Z.eqb_neq (48 + d) 48)) by lia.
    rewrite (proj2 (Z.leb_le 49 _)), (proj2 (Z.leb_le _ 57)) by lia. done. }
  destruct (mantissa_loop_ok rest Hrest (d :: ds) 0 0 0 Hd zero_ok Hb ltac:(lia) Hb) as [(m & tz & -> & [G1 G2 G3 G4])|[-> Hno]]; [left|right].
  - exists m, tz. rewrite bind_accepted. assert (m * 10 ^ tz = value (d :: ds)) as G by lia. do 3 (split; [done|]). split; [lia|]. intros ->.
    exfalso. rewrite value_cons in G. pose proof (value_bounds _ Hds). pose proof (pow10_pos (Zlen ds) (Zlen_nonneg ds)). nia.
  - split; [done|]. intros t Ht. specialize (Hno t Ht). by rewrite Z.mul_0_l in Hno.
Qed.

Lemma fraction_part_ok f rest m tz :
  digits f -> no_digit rest -> strip 46 rest = None -> mantissa_ok m tz -> tz + Zlen f < 2 ^ 31 ->
  (exists m' tz', fraction_part (frac_text f ++ rest) m tz = Accepted (rest, Zlen f, m', tz') /\
     gathered (m * 10 ^ tz) tz f m' tz') \/
  (fraction_part (frac_text f ++ rest) m tz = Rejected /\ too_long (m * 10 ^ tz * 10 ^ Zlen f + value f) []).
Proof.
  intros Hd Hrest Hs Hok Hb. unfold fraction_part. destruct (decide (f = [])) as [->|Hne].
  - left. cbn [frac_text app]. rewrite Hs. exists m, tz. split; [done|].
    split; [done|..]; change (Zlen (A := Z) []) with 0; change (value []) with 0; lia.
  - assert (strip 46 (frac_text f ++ rest) = Some (chars f ++ rest)) as -> by (by destruct f).
    rewrite expect_digit_some by done.
    destruct (mantissa_loop_ok rest Hrest f 0 m tz Hd Hok Hb ltac:(lia)) as [(m' & tz' & -> & G)|[-> Hno]]; [pose proof (m_zeros _ _ Hok); lia|left|right].
    + exists m', tz'. done.
    + split; [done|]. by apply Hno, Forall_nil.
Qed.

Lemma exponent_part_ok e :
  match e with Some (_, _, ds) => digits ds /\ ds <> [] | None => True end ->
  (exponent_part (expo_text e) = Accepted ([], expo_value e) /\ Z.abs (expo_value e) <= limit + 9) \/
  (exponent_part (expo_text e) = Rejected /\ limit <= Z.abs (expo_value e)).
Proof.
  destruct e as [[[upper sign] ds]|]; [|by left]. intros [Hd Hne]. cbn [expo_text exponent_part].
  replace (((if upper then 69 else 101) =? 101) || ((if upper then 69 else 101) =? 69)) with true by (by destruct upper).
  assert (match strip 43 (sign_text sign ++ chars ds), strip 45 (sign_text sign ++ chars ds) with
    | Some val, _ => (false, val) | None, Some val => (true, val) | None, None => (false, sign_text sign ++ chars ds)
    end = (if sign is Some true then true else false, chars ds)) as ->.
  { destruct sign as [[]|]; [done..|]. destruct ds as [|d ds]; [done|]. inversion Hd as [|?? Hd0 _]; subst. unfold digit in Hd0.
    cbn. by rewrite (proj2 (Z.eqb_neq (48 + d) 43)), (proj2 (Z.eqb_neq (48 + d) 45)) by lia. }
  rewrite <-(app_nil_r (chars ds)), expect_digit_some by done. pose proof (value_bounds _ Hd).
  destruct (exponent_loop_ok [] I ds 0 Hd ltac:(lia)) as [[-> Hb]|[-> Hb]]; [left|right]; rewrite Z.mul_0_l, Z.add_0_l in *; cbn [expo_value].
  - rewrite bind_accepted. destruct sign as [[]|]; (split; [do 2 f_equal; lia|lia]).
  - destruct sign as [[]|]; (split; [done|lia]).
Qed.

(** *** What a text is parsed to *)

Definition plain_value (n : number) : Z := value (whole n ++ frac n).

(** A zero must have a small exponent. *)
Definition zero_ok_at (n : number) (decimals : Z) : Prop :=
  plain_value n = 0 -> 0 <= expo_value (expo n) + decimals < 18.

Definition representable (n : number) (decimals v : Z) : Prop :=
  denotes n decimals v /\ Z.abs v < limit /\ zero_ok_at n decimals.

Lemma plain_value_split n : plain_value n = value (whole n) * 10 ^ Zlen (frac n) + value (frac n).
Proof. apply decimal_app. Qed.

Lemma plain_value_bounds n : number_ok n -> 0 <= plain_value n < 10 ^ (Zlen (whole n) + Zlen (frac n)).
Proof.
  intros (Hw & _ & Hf & _). pose proof (value_bounds (whole n ++ frac n) ltac:(by apply Forall_app)) as H.
  unfold Zlen in *. by rewrite length_app, Nat2Z.inj_add in H.
Qed.

Lemma denotes_abs n decimals v :
  number_ok n -> denotes n decimals v ->
  (0 <= exponent n + decimals /\ Z.abs v = plain_value n * 10 ^ (exponent n + decimals)) \/
  (exponent n + decimals < 0 /\ plain_value n = Z.abs v * 10 ^ (- (exponent n + decimals))).
Proof.
  intros Hn. pose proof (plain_value_bounds n Hn) as HV. unfold denotes, mantissa. fold (plain_value n). cbv zeta.
  set (k := exponent n + decimals). intros E. apply (f_equal Z.abs) in E. rewrite !Z.abs_mul in E.
  assert (Z.abs (if neg n then -1 else 1) = 1) as E1 by (by destruct (neg n)). rewrite E1 in E.
  pose proof (pow10_pos (Z.max 0 k) ltac:(lia)). pose proof (pow10_pos (Z.max 0 (- k)) ltac:(lia)).
  rewrite (Z.abs_eq (plain_value n)), (Z.abs_eq (10 ^ Z.max 0 k)), (Z.abs_eq (10 ^ Z.max 0 (- k))) in E by lia.
  destruct (Z.le_gt_cases 0 k); [left|right]; (split; [done|]).
  - rewrite (Z.max_r 0 k), (Z.max_l 0 (- k)) in E by lia. lia.
  - rewrite (Z.max_l 0 k), (Z.max_r 0 (- k)) in E by lia. lia.
Qed.

(** The parser's mantissa and zeros stand for the digits. *)
Record parsed (n : number) (m tz : Z) : Prop := {
  p_ok : mantissa_ok m tz;
  p_value : m * 10 ^ tz = plain_value n;
  p_zeros : tz <= Zlen (whole n) + Zlen (frac n);
  p_zero : m = 0 -> tz = Zlen (frac n) }.

Lemma parsed_zero n m tz : parsed n m tz -> (m = 0 <-> plain_value n = 0).
Proof. intros [[? ? _] E _ _]. pose proof (pow10_pos tz ltac:(lia)). split; [intros ->; lia|nia]. Qed.

Lemma denotes_parsed n m tz decimals v :
  parsed n m tz -> 0 <= exponent n + decimals + tz ->
  denotes n decimals v <-> v = (if neg n then - m else m) * 10 ^ (exponent n + decimals + tz).
Proof.
  intros [[_ Htz _] E _ _] He. unfold denotes, mantissa. fold (plain_value n). rewrite <-E. cbv zeta. set (k := exponent n + decimals) in *.
  assert ((if neg n then -1 else 1) * (m * 10 ^ tz) * 10 ^ Z.max 0 k = (if neg n then - m else m) * 10 ^ (k + tz) * 10 ^ Z.max 0 (- k)) as ->.
  { replace ((if neg n then -1 else 1) * (m * 10 ^ tz) * 10 ^ Z.max 0 k) with ((if neg n then - m else m) * (10 ^ tz * 10 ^ Z.max 0 k)) by (destruct (neg n); lia).
    rewrite <-!Z.pow_add_r, <-Z.mul_assoc, <-Z.pow_add_r by lia. do 2 f_equal. lia. }
  pose proof (pow10_pos (Z.max 0 (- k)) ltac:(lia)). split; [intros H'; nia|by intros ->].
Qed.

Lemma parsed_below n m tz decimals v :
  number_ok n -> parsed n m tz -> exponent n + decimals + tz < 0 -> representable n decimals v -> False.
Proof.
  intros Hn P He (Hd & _ & Hz). destruct (decide (m = 0)) as [->|Hm].
  { unfold zero_ok_at in Hz. rewrite (p_zero _ _ _ P eq_refl) in He. unfold exponent in He.
    specialize (Hz (proj1 (parsed_zero _ _ _ P) eq_refl)). lia. }
  destruct P as [[Hm0 Htz [?|Hr]] E _ _]; [done|]. destruct (denotes_abs n decimals v Hn Hd) as [[? _]|[_ E2]]; [lia|].
  apply Hr. replace (- (exponent n + decimals)) with (1 + (- (exponent n + decimals) - tz - 1) + tz) in E2 by lia.
  rewrite !Z.pow_add_r, Z.pow_1_r in E2 by lia. set (q := 10 ^ (- (exponent n + decimals) - tz - 1)) in *.
  assert (m = Z.abs v * q * 10) as ->; [|by apply Z.mod_mul]. pose proof (pow10_pos tz Htz).
  apply (Z.mul_reg_r _ _ (10 ^ tz)); lia.
Qed.

Lemma parsed_above n m tz decimals v :
  number_ok n -> parsed n m tz -> 18 <= exponent n + decimals + tz -> representable n decimals v -> False.
Proof.
  intros Hn P He (Hd & Hv & Hz). destruct (decide (m = 0)) as [->|Hm].
  { unfold zero_ok_at in Hz. rewrite (p_zero _ _ _ P eq_refl) in He. unfold exponent in He.
    specialize (Hz (proj1 (parsed_zero _ _ _ P) eq_refl)). lia. }
  apply (denotes_parsed n m tz) in Hd; [|done|lia]. pose proof (m_pos _ _ (p_ok _ _ _ P)).
  assert (10 ^ 18 <= 10 ^ (exponent n + decimals + tz)) by (apply Z.pow_le_mono_r; lia).
  rewrite Hd, Z.abs_mul in Hv. rewrite (Z.abs_eq (10 ^ _)) in Hv by lia.
  assert (Z.abs (if neg n then - m else m) = m) as Em by (destruct (neg n); lia). rewrite Em in Hv. nia.
Qed.

(** An exponent that the parser gives up on is out of range. *)
Lemma exponent_too_large n decimals v :
  number_ok n -> Zlen (whole n) + Zlen (frac n) < 2 ^ 31 -> 0 <= decimals < 2 ^ 31 -> limit <= Z.abs (expo_value (expo n)) ->
  representable n decimals v -> False.
Proof.
  intros Hn Hlen Hdec Hbig (Hd & Hv & Hz). pose proof (plain_value_bounds n Hn) as HV. unfold zero_ok_at in Hz.
  assert (plain_value n <> 0) as Hne by (intros E; specialize (Hz E); lia).
  pose proof (Zlen_nonneg (whole n)). pose proof (Zlen_nonneg (frac n)).
  destruct (denotes_abs n decimals v Hn Hd) as [[Hk E]|[Hk E]]; unfold exponent in Hk.
  - assert (10 ^ 18 <= 10 ^ (exponent n + decimals)) by (apply Z.pow_le_mono_r; unfold exponent; lia). nia.
  - assert (10 ^ (Zlen (whole n) + Zlen (frac n)) <= 10 ^ (- (exponent n + decimals))) by (apply Z.pow_le_mono_r; unfold exponent; lia).
    destruct (decide (v = 0)) as [->|]; [by rewrite Z.mul_0_l in E|]. nia.
Qed.

Lemma too_long_rejects n decimals v :
  number_ok n -> too_long (value (whole n) * 10 ^ Zlen (frac n) + value (frac n)) [] -> representable n decimals v -> False.
Proof.
  intros Hn Hl (Hd & Hv & _). pose proof (plain_value_bounds n Hn) as HV. unfold too_long in Hl.
  change (Zlen (A := Z) []) with 0 in Hl. change (value []) with 0 in Hl. rewrite <-plain_value_split, Z.pow_0_r, Z.mul_1_r, Z.add_0_r in Hl.
  destruct (denotes_abs n decimals v Hn Hd) as [[Hk E]|[Hk E]].
  - specialize (Hl (plain_value n) 0 ltac:(lia) ltac:(lia)). pose proof (pow10_pos _ Hk). nia.
  - specialize (Hl (Z.abs v) (- (exponent n + decimals)) ltac:(lia) E). lia.
Qed.

(** The digits of a text, through both loops. *)
Lemma digits_parsed n :
  number_ok n -> Zlen (whole n) + Zlen (frac n) < 2 ^ 31 ->
  let read := '(val, m, tz) ← whole_part (chars (whole n) ++ frac_text (frac n) ++ expo_text (expo n)); fraction_part val m tz in
  (exists m tz, read = Accepted (expo_text (expo n), Zlen (frac n), m, tz) /\ parsed n m tz) \/
  (read = Rejected /\ too_long (value (whole n) * 10 ^ Zlen (frac n) + value (frac n)) []).
Proof.
  intros (Hw & Hlead & Hf & _) Hlen read. subst read. pose proof (Zlen_nonneg (whole n)). pose proof (Zlen_nonneg (frac n)).
  destruct (whole_part_ok (whole n) (frac_text (frac n) ++ expo_text (expo n)) Hw Hlead (no_digit_frac _ _) ltac:(lia))
    as [(m1 & tz1 & -> & Hok1 & E1 & Hz1 & H01)|[-> Hno]].
  - rewrite bind_accepted.
    destruct (fraction_part_ok (frac n) (expo_text (expo n)) m1 tz1 Hf (no_digit_expo _)) as [(m & tz & -> & [G1 G2 G3 G4])|[-> Hno]].
    + by destruct (expo n) as [[[[] ?] ?]|].
    + done.
    + lia.
    + left. exists m, tz. split; [done|]. split; [done| |lia|].
      * rewrite plain_value_split, G2, E1. done.
      * intros E0. rewrite (G4 E0). destruct H01 as [_ ->]; [|lia].
        rewrite E0 in G2. pose proof (value_bounds _ Hf). pose proof (m_pos _ _ Hok1). pose proof (pow10_pos _ (m_zeros _ _ Hok1)).
        pose proof (pow10_pos (Zlen (frac n)) ltac:(lia)). nia.
    + right. split; [done|]. by rewrite <-E1.
  - right. split; [done|]. specialize (Hno (frac n) Hf). unfold too_long in *. intros x k Hk E. apply (Hno x k Hk).
    change (Zlen (A := Z) []) with 0 in E. change (value []) with 0 in E. lia.
Qed.

Lemma text_lengths n : Zlen (whole n) + Zlen (frac n) <= Zlen (text n).
Proof.
  unfold text, Zlen, chars. rewrite !length_app, length_map. destruct (frac n); cbn [frac_text length]; [lia|]. unfold chars. rewrite length_map. cbn [length]. lia.
Qed.

Lemma strip_sign n : number_ok n ->
  match strip 45 (text n) with Some val => (true, val) | None => (false, text n) end =
  (neg n, chars (whole n) ++ frac_text (frac n) ++ expo_text (expo n)).
Proof.
  intros (Hw & Hlead & _). unfold text. destruct (neg n); [done|]. cbn [app].
  assert (exists d ds, whole n = d :: ds) as (d & ds & E) by (destruct Hlead as [->|(d & ds & -> & _)]; eauto).
  rewrite E in *. inversion Hw as [|?? Hd _]; subst. unfold digit in Hd. cbn. by rewrite (proj2 (Z.eqb_neq (48 + d) 45)) by lia.
Qed.

(** The text of a number: it is accepted exactly when it can be represented. *)
Lemma text_parsed n decimals :
  number_ok n -> Zlen (text n) < 2 ^ 31 -> 0 <= decimals < 2 ^ 31 ->
  (exists v, ParseFixedPoint (text n) decimals = Accepted v /\ representable n decimals v) \/
  (ParseFixedPoint (text n) decimals = Rejected /\ forall v, representable n decimals v -> False).
Proof.
  intros Hn Hlen Hdec. pose proof (text_lengths n) as Hl. unfold ParseFixedPoint. rewrite (strip_sign n Hn). cbv beta iota.
  pose proof (Zlen_nonneg (whole n)). pose proof (Zlen_nonneg (frac n)).
  destruct (digits_parsed n Hn ltac:(lia)) as [(m & tz & E & P)|[E Hno]]; cbv zeta in E.
  2: { right. split; [|intros v; by apply too_long_rejects].
       destruct (whole_part _) as [| |[[val m] tz]]; [done..|]. change (fraction_part val m tz = Rejected) in E. by rewrite bind_accepted, E. }
  destruct (whole_part _) as [| |[[val m0] tz0]]; [done..|].
  change (fraction_part val m0 tz0 = Accepted (expo_text (expo n), Zlen (frac n), m, tz)) in E. rewrite bind_accepted, E, bind_accepted.
  destruct (exponent_part_ok (expo n)) as [[-> He]|[-> He]]; [apply Hn| |].
  2: { right. split; [done|]. intros v. apply exponent_too_large; (done || lia). }
  rewrite bind_accepted. unfold finish. pose proof (p_zeros _ _ _ P). pose proof (m_zeros _ _ (p_ok _ _ _ P)).
  rewrite fit_ok, bind_accepted by (unfold is_s64; lia).
  replace (expo_value (expo n) - Zlen (frac n) + tz + decimals) with (exponent n + decimals + tz) by (unfold exponent; lia).
  set (e := exponent n + decimals + tz) in *. destruct (Z.ltb_spec e 0).
  { right. split; [done|]. intros v. by apply (parsed_below n m tz). }
  destruct (Z.leb_spec 18 e). { right. split; [done|]. intros v. by apply (parsed_above n m tz). }
  pose proof (m_pos _ _ (p_ok _ _ _ P)). set (sm := if neg n then - m else m).
  assert (Z.abs sm = m) as Em by (unfold sm; destruct (neg n); lia). pose proof (pow10_pos e ltac:(lia)).
  assert (Z.abs (sm * 10 ^ e) = m * 10 ^ e) as Ev by (rewrite Z.abs_mul, Em, (Z.abs_eq (10 ^ e)); lia).
  rewrite raise_ok, Em, Z2Nat.id by lia. destruct (Z.ltb_spec (m * 10 ^ e) limit).
  - left. exists (sm * 10 ^ e). rewrite bind_accepted. unfold UPPER_BOUND.
    rewrite (proj2 (Z.ltb_ge _ (sm * 10 ^ e))), (proj2 (Z.ltb_ge (sm * 10 ^ e) _)) by lia. split; [done|].
    split; [by apply (denotes_parsed n m tz)|]. split; [lia|]. intros E0. apply (parsed_zero _ _ _ P) in E0.
    pose proof (p_zero _ _ _ P E0). unfold e, exponent in *. lia.
  - right. split; [done|]. intros v (Hd & Hv & _). apply (denotes_parsed n m tz) in Hd; [|done..]. fold e sm in Hd. lia.
Qed.

(** *** Nothing but texts of numbers is accepted *)

Definition expo_ok (e : option (bool * option bool * list Z)) : Prop :=
  match e with Some (_, _, ds) => digits ds /\ ds <> [] | None => True end.

Lemma expo_shape s :
  exponent_part s = Rejected \/ (exists e, expo_ok e /\ s = expo_text e) \/
  (exists c rest x, exponent_part s = Accepted (c :: rest, x)).
Proof.
  destruct s as [|c s]; [right; left; by exists None|]. cbn [exponent_part].
  destruct ((c =? 101) || (c =? 69)) eqn:Ec; [|eauto 10].
  assert (exists sign val, s = sign_text sign ++ val /\
    match strip 43 s, strip 45 s with
    | Some val, _ => (false, val) | None, Some val => (true, val) | None, None => (false, s)
    end = (if sign is Some true then true else false, val)) as (sign & val & -> & ->).
  { destruct s as [|x s]; [by exists None, []|]. cbn [strip].
    destruct (Z.eqb_spec x 43) as [->|]; [by exists (Some false), s|].
    destruct (Z.eqb_spec x 45) as [->|]; [by exists (Some true), s|by exists None, (x :: s)]. }
  destruct (split_digits val) as (ds & rest & Hd & -> & Hr). destruct (decide (ds = [])) as [->|Hne].
  { left. by rewrite expect_digit_none. }
  rewrite expect_digit_some by done. destruct (exponent_loop_ok rest Hr ds 0 Hd ltac:(lia)) as [[-> _]|[-> _]]; [|by left].
  rewrite bind_accepted. destruct rest as [|x rest]; [|eauto 10]. right. left. exists (Some (c =? 69, sign, ds)). split; [done|].
  rewrite app_nil_r. cbn [expo_text]. f_equal. apply orb_true_iff in Ec. rewrite !Z.eqb_eq in Ec.
  destruct (Z.eqb_spec c 69); lia.
Qed.

Section Shapes.
Context (sg : bool) (decimals : Z).

(** The parser behind the digits, and behind the whole part. *)
Definition tail_of (ofs m tz : Z) (s : list Z) : answer Z :=
  '(val, x) ← exponent_part s; finish sg decimals ofs m tz val x.
Definition rest_of (m tz : Z) (s : list Z) : answer Z :=
  '(val, ofs, m, tz) ← fraction_part s m tz; tail_of ofs m tz val.

Lemma tail_shape ofs m tz s : tail_of ofs m tz s = Rejected \/ exists e, expo_ok e /\ s = expo_text e.
Proof.
  unfold tail_of. destruct (expo_shape s) as [->|[He|(c & rest & x & ->)]]; [by left|by right|by left].
Qed.

Lemma rest_shape m tz s :
  no_digit s -> mantissa_ok m tz -> tz + Zlen s < 2 ^ 31 ->
  rest_of m tz s = Rejected \/ exists f e, digits f /\ expo_ok e /\ s = frac_text f ++ expo_text e.
Proof.
  intros Hs Hok Hb. unfold rest_of, fraction_part. destruct (strip 46 s) as [s1|] eqn:Es.
  - assert (s = 46 :: s1) as ->.
    { destruct s as [|c s]; [done|]. cbn in Es. destruct (Z.eqb_spec c 46) as [->|]; [|done]. congruence. }
    destruct (split_digits s1) as (f & s2 & Hf & -> & Hs2). destruct (decide (f = [])) as [->|Hne].
    { left. cbn [chars map app]. by rewrite expect_digit_none. }
    rewrite expect_digit_some by done. assert (tz + Zlen f < 2 ^ 31) as Hb'.
    { unfold Zlen, chars in *. cbn [length] in Hb. rewrite length_app, length_map in Hb. lia. }
    destruct (mantissa_loop_ok s2 Hs2 f 0 m tz Hf Hok Hb' ltac:(lia)) as [(m' & tz' & -> & _)|[-> _]]; [pose proof (m_zeros _ _ Hok); lia| |by left].
    rewrite bind_accepted. destruct (tail_shape (0 + Zlen f) m' tz' s2) as [->|(e & He & ->)]; [by left|right].
    exists f, e. split; [done|]. split; [done|]. by destruct f.
  - rewrite bind_accepted. destruct (tail_shape 0 m tz s) as [->|(e & He & ->)]; [by left|right]. by exists [], e.
Qed.

(** A further digit behind a leading zero. *)
Lemma zero_lead d s : digit d -> rest_of 0 0 (48 + d :: s) = Rejected.
Proof.
  intros Hd. unfold digit in Hd. unfold rest_of, fraction_part. cbn [strip].
  rewrite (proj2 (Z.eqb_neq (48 + d) 46)) by lia. rewrite bind_accepted. unfold tail_of. cbn [exponent_part].
  by rewrite (proj2 (Z.eqb_neq (48 + d) 101)), (proj2 (Z.eqb_neq (48 + d) 69)) by lia.
Qed.

Lemma number_shape s :
  Zlen s < 2 ^ 31 ->
  ('(val, m, tz) ← whole_part s; rest_of m tz val) = Rejected \/
  exists n, number_ok n /\ neg n = sg /\ s = chars (whole n) ++ frac_text (frac n) ++ expo_text (expo n).
Proof.
  intros Hb. destruct (split_digits s) as (w & r & Hw & -> & Hr).
  assert (Zlen w + Zlen r < 2 ^ 31) as Hlen by (unfold Zlen, chars in *; rewrite length_app, length_map in Hb; lia).
  pose proof (Zlen_nonneg w). pose proof (Zlen_nonneg r). destruct w as [|d w].
  { left. destruct r as [|c r]; [done|]. cbn [chars map app whole_part]. cbn in Hr. unfold IsDigit in Hr. apply andb_false_iff in Hr.
    rewrite !Z.leb_gt in Hr. rewrite (proj2 (Z.eqb_neq c 48)) by lia. replace ((49 <=? c) && (c <=? 57)) with false by lia. done. }
  inversion Hw as [|?? Hd Hw']; subst. destruct (decide (d = 0 /\ w <> [])) as [[-> Hne]|Hlead].
  { left. destruct w as [|d' w]; [done|]. inversion Hw'; subst. cbn [chars map app whole_part]. apply zero_lead. done. }
  assert (d :: w = [0] \/ exists d' ds, d :: w = d' :: ds /\ d' <> 0) as Hl.
  { destruct (decide (d = 0)) as [->|]; [left|right; eauto]. destruct w; [done|]. exfalso. by apply Hlead. }
  destruct (whole_part_ok (d :: w) r Hw Hl Hr ltac:(lia)) as [(m & tz & -> & Hok & _ & Hz & _)|[-> _]]; [|by left].
  rewrite bind_accepted. destruct (rest_shape m tz r Hr Hok ltac:(lia)) as [->|(f & e & Hf & He & ->)]; [by left|right].
  exists (Number sg (d :: w) f e). split; [|done]. split; [done|]. split; [done|]. by split.
Qed.
End Shapes.

Lemma only_texts s decimals :
  Zlen s < 2 ^ 31 -> ParseFixedPoint s decimals = Rejected \/ exists n, number_ok n /\ s = text n.
Proof.
  intros Hb. unfold ParseFixedPoint. destruct (strip 45 s) as [s1|] eqn:Es.
  - assert (s = 45 :: s1) as ->.
    { destruct s as [|c s]; [done|]. cbn in Es. destruct (Z.eqb_spec c 45) as [->|]; [|done]. congruence. }
    rewrite Zlen_more in Hb. destruct (number_shape true decimals s1 ltac:(lia)) as [E|(n & Hn & Hneg & ->)]; [by left|right].
    exists n. split; [done|]. unfold text. by rewrite Hneg.
  - destruct (number_shape false decimals s Hb) as [E|(n & Hn & Hneg & ->)]; [by left|right].
    exists n. split; [done|]. unfold text. by rewrite Hneg.
Qed.

(** ** Printing *)

Definition lead_ok (ds : list Z) : Prop := ds = [0] \/ exists d r, ds = d :: r /\ d <> 0.

Lemma lead_snoc ds d : lead_ok ds -> 0 < value ds -> lead_ok (ds ++ [d]).
Proof. intros [->|(d' & r & -> & Hd)] Hv; [done|]. right. exists d', (r ++ [d]). done. Qed.

Lemma dec_ok fuel : forall n,
  0 <= n < 10 ^ Z.of_nat fuel -> (0 < fuel)%nat ->
  exists ds, dec fuel n = chars ds /\ digits ds /\ value ds = n /\ lead_ok ds /\
    forall k, 1 <= k -> n < 10 ^ k -> Zlen ds <= k.
Proof.
  induction fuel as [|fuel IH]; intros n Hn Hf; [lia|]. cbn [dec]. destruct (Z.ltb_spec n 10).
  - exists [n]. split; [done|]. split; [constructor; [unfold digit; lia|constructor]|]. split; [done|].
    split; [|intros k Hk _; unfold Zlen; cbn; lia]. destruct (decide (n = 0)) as [->|]; [by left|right; eauto].
  - rewrite Nat2Z.inj_succ, Z.pow_succ_r in Hn by lia.
    assert (0 <= n / 10 < 10 ^ Z.of_nat fuel) as Hq by (split; [apply Z.div_pos; lia|apply Z.div_lt_upper_bound; lia]).
    pose proof (Z.mod_pos_bound n 10 ltac:(lia)). pose proof (Z.div_mod n 10 ltac:(lia)).
    destruct (IH (n / 10) Hq) as (ds & -> & Hd & Hv & Hl & Hlen); [destruct fuel; [cbn in Hn; lia|lia]|].
    exists (ds ++ [n mod 10]). split; [unfold chars; by rewrite map_app|]. split; [apply Forall_app; split; [done|by repeat constructor; unfold digit; lia]|].
    split; [rewrite decimal_app, Hv; change (10 ^ Zlen [n mod 10]) with 10; change (value [n mod 10]) with (n mod 10); lia|].
    split; [apply lead_snoc; [done|lia]|]. intros k Hk Hnk. unfold Zlen. rewrite length_app, Nat2Z.inj_add. fold (Zlen ds). cbn [length].
    assert (1 < k) by (apply (Z.pow_lt_mono_r_iff 10); lia).
    specialize (Hlen (k - 1) ltac:(lia)). assert (n / 10 < 10 ^ (k - 1)); [|lia].
    apply Z.div_lt_upper_bound; [lia|]. replace k with (1 + (k - 1)) in Hnk by lia. by rewrite Z.pow_add_r, Z.pow_1_r in Hnk by lia.
Qed.

Lemma fixed_digits n k : value (map (fun i => n / 10 ^ Z.of_nat i mod 10) (rev (seq 0 k))) = n mod 10 ^ Z.of_nat k.
Proof.
  induction k as [|k IH]; [cbn; by rewrite Z.mod_1_r|]. rewrite seq_S, rev_app_distr. cbn [rev app map plus]. rewrite value_cons, IH.
  replace (Zlen _) with (Z.of_nat k) by (unfold Zlen; by rewrite length_map, length_rev, length_seq).
  rewrite Nat2Z.inj_succ, Z.pow_succ_r, Z.mul_comm, (Z.mul_comm 10), Z.rem_mul_r by lia. lia.
Qed.

Lemma dec8_ok n : 0 <= n < 10 ^ 8 -> exists f, dec8 n = chars f /\ digits f /\ value f = n /\ length f = 8%nat.
Proof.
  intros Hn. exists (map (fun i => n / 10 ^ Z.of_nat i mod 10) [7; 6; 5; 4; 3; 2; 1; 0]%nat). split; [done|].
  split; [|split; [|done]].
  - apply Forall_map, Forall_forall. intros i _. unfold digit. pose proof (Z.mod_pos_bound (n / 10 ^ Z.of_nat i) 10 ltac:(lia)). cbn. lia.
  - etransitivity; [apply (fixed_digits n 8)|]. by apply Z.mod_small.
Qed.

Lemma coin_text_ok n :
  0 <= n < 2 ^ 63 ->
  exists ds f, coin_text n = chars ds ++ 46 :: chars f /\ digits ds /\ digits f /\ lead_ok ds /\ length f = 8%nat /\
    value ds = n / COIN /\ value f = n mod COIN /\ value (ds ++ f) = n /\ Zlen ds <= 19 /\ (n < limit -> Zlen ds <= 10).
Proof.
  intros Hn. unfold coin_text. pose proof (Z.div_mod n COIN ltac:(done)). pose proof (Z.mod_pos_bound n COIN ltac:(done)). change COIN with 100000000 in *.
  assert (0 <= n / 100000000 < 10 ^ 11) as Hq by (split; [apply Z.div_pos; lia|apply Z.div_lt_upper_bound; lia]).
  destruct (dec_ok 19 (n / 100000000)) as (ds & -> & Hd & Hv & Hl & Hlen); [cbn; lia|lia|].
  destruct (dec8_ok (n mod 100000000)) as (f & -> & Hf & Hvf & Hlf); [lia|].
  exists ds, f. do 4 (split; [done|]). split; [done|]. split; [done|]. split; [done|]. split; [|split].
  - rewrite decimal_app, Hv, Hvf. unfold Zlen. rewrite Hlf. change (10 ^ Z.of_nat 8) with 100000000. lia.
  - specialize (Hlen 19). lia.
  - intros Hsmall. apply Hlen; [lia|]. apply Z.div_lt_upper_bound; lia.
Qed.

(** ** The texts of the command line *)

Lemma trim_zeros p f :
  (2 <= length f)%nat -> digits f ->
  exists f' k, f = f' ++ replicate k 0 /\ (2 <= length f')%nat /\ trim (rev (p ++ 46 :: chars f)) = rev (p ++ 46 :: chars f').
Proof.
  induction f as [|d f IH] using rev_ind; intros Hlen Hd; [cbn in Hlen; lia|]. apply Forall_app in Hd as [Hd _].
  assert (rev (p ++ 46 :: chars (f ++ [d])) = 48 + d :: rev (p ++ 46 :: chars f)) as E.
  { unfold chars. rewrite map_app. cbn [map]. change (46 :: map (λ d0 : Z, 48 + d0) f ++ [48 + d]) with ((46 :: map (λ d0 : Z, 48 + d0) f) ++ [48 + d]).
    by rewrite app_assoc, rev_app_distr. }
  rewrite E. rewrite length_app in Hlen. cbn [length] in Hlen.
  destruct (decide (d = 0 /\ (2 <= length f)%nat)) as [[-> H2]|Hno].
  - destruct (IH H2 Hd) as (f' & k & -> & H2' & Et). exists f', (k + 1)%nat. split; [by rewrite <-app_assoc, replicate_add|]. split; [done|].
    rewrite <-Et. clear - H2 Hd. destruct (f' ++ replicate k 0) as [|y g] using rev_ind; [cbn in H2; lia|].
    destruct g as [|x g] using rev_ind; [cbn in H2; lia|]. apply Forall_app in Hd as [Hd _]. apply Forall_app in Hd as [_ Hx].
    inversion Hx; subst. unfold chars. rewrite !map_app. cbn [map].
    change (46 :: (map (λ d : Z, 48 + d) g ++ [48 + x]) ++ [48 + y]) with (((46 :: map (λ d : Z, 48 + d) g) ++ [48 + x]) ++ [48 + y]).
    rewrite !app_assoc, !rev_app_distr. cbn [rev app trim]. by rewrite IsDigit_char.
  - exists (f ++ [d]), 0%nat. split; [by rewrite app_nil_r|]. split; [rewrite length_app; cbn; lia|]. rewrite E.
    destruct (decide (d = 0)) as [->|Hd0].
    + destruct f as [|x [|? ?]]; [cbn in Hlen; lia| |cbn in Hno; lia]. cbn [chars map].
      rewrite rev_app_distr. cbn [rev app]. done.
    + destruct (rev (p ++ 46 :: chars f)) as [|? [|? ?]]; [done..|]. cbn [trim]. by rewrite (proj2 (Z.eqb_neq (48 + d) 48)) by lia.
Qed.

Lemma pow10_div j : 0 <= j -> 10 ^ (j + 1) / 10 = 10 ^ j.
Proof. intros. rewrite Z.pow_add_r, Z.pow_1_r by lia. by apply Z.div_mul. Qed.

Lemma units_ok f : forall j u, digits f -> 0 <= j -> Zlen f <= j + 1 ->
  units_loop (chars f) (10 ^ j) u = (u + value f * 10 ^ (j + 1 - Zlen f), []).
Proof.
  induction f as [|d f IH]; intros j u Hd Hj Hl.
  - cbn. f_equal. change (value []) with 0. lia.
  - inversion Hd as [|?? Hd0 Hf]; subst. rewrite Zlen_more in *. cbn [chars map units_loop]. rewrite IsDigit_char by done.
    rewrite (proj2 (Z.ltb_lt 0 _)) by (by apply pow10_pos). cbn [andb]. fold (chars f). replace (48 + d - 48) with d by lia.
    rewrite value_cons. pose proof (Zlen_nonneg f). destruct (decide (j = 0)) as [->|].
    + destruct f as [|x f]; [|rewrite Zlen_more in Hl; pose proof (Zlen_nonneg f); lia]. cbn [units_loop chars map].
      change (value []) with 0. change (Zlen (A := Z) []) with 0. f_equal. cbn [Z.add Z.sub Z.opp]. lia.
    + replace (10 ^ j / 10) with (10 ^ (j - 1)) by (replace j with (j - 1 + 1) at 2 by lia; by rewrite pow10_div by lia).
      rewrite IH by (done || lia). f_equal. replace (j - 1 + 1 - Zlen f) with (j - Zlen f) by lia. replace (j + 1 - (1 + Zlen f)) with (j - Zlen f) by lia.
      rewrite Z.mul_add_distr_r, <-Z.mul_assoc, <-Z.pow_add_r by lia. replace (Zlen f + (j - Zlen f)) with j by lia. lia.
Qed.

Lemma money_loop_ok ds f :
  digits ds -> digits f -> Zlen f <= 8 ->
  money_loop (chars ds ++ 46 :: chars f) = Some (chars ds, value f * 10 ^ (8 - Zlen f), []).
Proof.
  intros Hd Hf Hl. induction Hd as [|d ds Hd _ IH]; cbn [chars map app money_loop].
  - change (CENT * 10) with (10 ^ 7). rewrite units_ok by (done || lia). done.
  - fold (chars ds). unfold digit in Hd. rewrite (proj2 (Z.eqb_neq (48 + d) 46)) by lia.
    replace (IsSpace (48 + d)) with false by (unfold IsSpace; lia). rewrite IsDigit_char by done. cbn [negb]. by rewrite IH.
Qed.

Lemma atoi_chars ds : atoi64 (chars ds) = value ds.
Proof.
  unfold atoi64, value. generalize 0. induction ds as [|d ds IH]; intros a; [done|]. cbn [chars map fold_left]. fold (chars ds).
  rewrite IH. f_equal. lia.
Qed.

Lemma value_zeros k : value (replicate k 0) = 0.
Proof. induction k as [|k IH]; [done|]. cbn [replicate]. rewrite value_cons, IH. lia. Qed.

(** ** Hexadecimal *)

Definition hex_pair_ok (v : Z) : bool :=
  let a := rd hexmap (Z.to_nat (Z.shiftr v 4)) in
  let b := rd hexmap (Z.to_nat (Z.land v 15)) in
  negb (IsSpace a) && (0 <=? HexDigit a) && (0 <=? HexDigit b) && (Z.lor (u8 (Z.shiftl (HexDigit a) 4)) (HexDigit b) =? v).

Lemma hex_pairs : forallb hex_pair_ok (map Z.of_nat (seq 0 256)) = true.
Proof. vm_compute. reflexivity. Qed.

Lemma hex_pair v : byte_ok v -> hex_pair_ok v = true.
Proof.
  intros Hv. unfold byte_ok in Hv. apply (proj1 (forallb_forall _ _) hex_pairs). apply in_map_iff. exists (Z.to_nat v). split; [lia|].
  apply in_seq. lia.
Qed.
End AmountsFacts.

Module AmountsTheorems.
Import Amounts AmountsFacts.

(** [C39] The parser of amounts accepts exactly the JSON numbers that are a whole number
    of units: a string is accepted with the result [v] exactly when it is the text of a
    number, with optional fraction and exponent and without leading zeros, that equals
    [v / 10 ^ decimals] exactly, and [v] is below 10^18 in absolute value (and, for a
    zero, the exponent is small).  Nothing is rounded, no integer overflows, nothing may
    follow the number. *)
Theorem parse_fixed_point_exact (val : list Z) (decimals : Z) :
  Zlen val < 2 ^ 31 -> 0 <= decimals < 2 ^ 31 ->
  ParseFixedPoint val decimals <> Undefined /\
  forall v, ParseFixedPoint val decimals = Accepted v <->
    exists n, number_ok n /\ val = text n /\ denotes n decimals v /\ Z.abs v < 10 ^ 18 /\
      (mantissa n = 0 -> 0 <= expo_value (expo n) + decimals < 18).
Proof.
  intros Hl Hd.
  assert (forall n v, representable n decimals v <-> denotes n decimals v /\ Z.abs v < 10 ^ 18 /\
    (mantissa n = 0 -> 0 <= expo_value (expo n) + decimals < 18)) as Hrep.
  { intros n v. unfold representable, zero_ok_at, mantissa. fold (plain_value n). split; (intros (H1 & H2 & H3); split; [done|split; [done|]]).
    - intros E. apply H3. destruct (neg n); lia.
    - intros E. apply H3. lia. }
  split.
  - destruct (only_texts val decimals Hl) as [->|(n & Hn & ->)]; [done|].
    destruct (text_parsed n decimals Hn Hl Hd) as [(v & -> & _)|[-> _]]; done.
  - intros v. split.
    + intros E. destruct (only_texts val decimals Hl) as [E'|(n & Hn & ->)]; [congruence|].
      destruct (text_parsed n decimals Hn Hl Hd) as [(v' & E' & Hr)|[E' _]]; [|congruence].
      assert (v' = v) as -> by congruence. exists n. do 2 (split; [done|]). by apply Hrep.
    + intros (n & Hn & -> & Hr). apply Hrep in Hr. destruct (text_parsed n decimals Hn Hl Hd) as [(v' & -> & Hr')|[_ Hno]]; [|by destruct (Hno v)].
      f_equal. by eapply denotes_unique; [apply Hr'|apply Hr].
Qed.

(** What the RPC interface shows for an amount below 10^18 units is parsed as that amount,
    whatever its sign; so amounts in the range of money are read back. *)
Theorem amount_round_trip (amount max_money : Z) :
  Z.abs amount < 10 ^ 18 ->
  exists s, ValueFromAmount amount = Accepted s /\ ParseFixedPoint s 8 = Accepted amount /\
    (0 <= amount <= max_money -> AmountFromValue max_money s = Accepted amount).
Proof.
  intros Ha. unfold ValueFromAmount. rewrite fit_ok by (unfold is_s64; lia). rewrite bind_accepted. eexists. split; [done|].
  destruct (coin_text_ok (Z.abs amount) ltac:(lia)) as (ds & f & -> & Hd & Hf & Hlead & Hlen & _ & _ & Hv & Hlds & _).
  set (n := Number (amount <? 0) ds f None). assert (number_ok n) as Hn by (split; [done|]; by split).
  assert ((if amount <? 0 then [45] else []) ++ chars ds ++ 46 :: chars f = text n) as ->.
  { unfold text, n. cbn [neg whole frac expo expo_text]. rewrite app_nil_r. by destruct f. }
  assert (Zlen (text n) < 2 ^ 31) as Hlt.
  { unfold text, Zlen in *. rewrite !length_app. cbn [neg whole frac expo n expo_text length]. destruct f as [|x f]; [done|]. cbn [frac_text length].
    unfold chars. rewrite !length_map, Hlen. destruct (amount <? 0); cbn [length]; lia. }
  assert (representable n 8 amount) as Hr.
  { split; [|split; [done|intros _; cbn; lia]]. unfold denotes, mantissa, exponent. cbn [neg whole frac expo n expo_value]. unfold Zlen.
    rewrite Hlen, Hv. change (0 - Z.of_nat 8 + 8) with 0. change (10 ^ Z.max 0 0) with 1. change (10 ^ Z.max 0 (- 0)) with 1.
    destruct (Z.ltb_spec amount 0); lia. }
  assert (ParseFixedPoint (text n) 8 = Accepted amount) as E.
  { destruct (text_parsed n 8 Hn Hlt ltac:(lia)) as [(v & -> & Hr')|[_ Hno]]; [|by destruct (Hno amount)].
    f_equal. by eapply denotes_unique; [apply Hr'|apply Hr]. }
  split; [done|]. intros Hm. unfold AmountFromValue. rewrite E, bind_accepted.
  by rewrite (proj2 (Z.leb_le 0 amount)), (proj2 (Z.leb_le amount max_money)) by lia.
Qed.

(** The other pair: what [FormatMoney] prints for an amount that is not negative,
    [ParseMoney] reads. *)
Theorem money_round_trip (n : Z) :
  0 <= n < 10 ^ 18 -> exists s, FormatMoney n = Accepted s /\ ParseMoney s = Some n.
Proof.
  intros Hn. unfold FormatMoney. rewrite fit_ok by (unfold is_s64; lia). rewrite bind_accepted, Z.abs_eq, (proj2 (Z.ltb_ge n 0)) by lia.
  eexists. split; [done|]. cbn [app].
  destruct (coin_text_ok n ltac:(lia)) as (ds & f & -> & Hd & Hf & Hlead & Hlen & Hq & Hr & _ & _ & H10).
  destruct (trim_zeros (chars ds) f ltac:(lia) Hf) as (f' & k & -> & H2 & ->). rewrite rev_involutive. apply Forall_app in Hf as [Hf' _].
  assert (Zlen f' + Z.of_nat k = 8) as H8 by (unfold Zlen; rewrite length_app, length_replicate in Hlen; lia).
  rewrite decimal_app, value_zeros in Hr. unfold Zlen in Hr at 1. rewrite length_replicate in Hr.
  unfold ParseMoney. replace (skip_spaces _) with (chars ds ++ 46 :: chars f').
  2: { destruct Hlead as [->|(d & r & -> & _)]; [done|]. inversion Hd as [|?? Hd0 _]; subst. unfold digit in Hd0. cbn [chars map app skip_spaces].
       by replace (IsSpace (48 + d)) with false by (unfold IsSpace; lia). }
  pose proof (Z.mod_pos_bound n COIN ltac:(done)). pose proof (Z.div_mod n COIN ltac:(done)).
  assert (value f' * 10 ^ (8 - Zlen f') = n mod COIN) as Eu by (replace (8 - Zlen f') with (Z.of_nat k) by lia; lia).
  rewrite (money_loop_ok ds f' Hd Hf' ltac:(lia)), Eu. cbn [mbind option_bind]. change (negb (forallb IsSpace [])) with false.
  assert (Zlen (chars ds) = Zlen ds) as -> by (unfold Zlen, chars; by rewrite length_map).
  rewrite (proj2 (Z.ltb_ge 10 _)) by (specialize (H10 ltac:(lia)); lia).
  rewrite (proj2 (Z.ltb_ge _ 0)), (proj2 (Z.ltb_ge COIN _)) by lia. cbn [orb]. rewrite atoi_chars, Hq. f_equal. lia.
Qed.

(** [ParseMoney] takes a string without any digit for zero, and does not read the negative
    amounts that [FormatMoney] prints. *)
Lemma no_digits_is_zero : ParseMoney [] = Some 0 /\ ParseMoney [46] = Some 0 /\ ParseMoney [32; 46; 32] = Some 0.
Proof. done. Qed.
Lemma negative_not_read : exists s, FormatMoney (-5) = Accepted s /\ ParseMoney s = None.
Proof. eexists. split; vm_compute; reflexivity. Qed.

Lemma HexStr_cons v l :
  HexStr (v :: l) = rd hexmap (Z.to_nat (Z.shiftr v 4)) :: rd hexmap (Z.to_nat (Z.land v 15)) :: HexStr l.
Proof. done. Qed.

(** The bytes of a hexadecimal dump are read back. *)
Theorem hex_dump_round_trip (l : list Z) :
  bytes_ok l -> ParseHex (HexStr l) = l /\ (l <> [] -> IsHex (HexStr l) = true).
Proof.
  intros Hl. split.
  - induction Hl as [|v l Hv _ IH]; [done|]. pose proof (hex_pair v Hv) as H. unfold hex_pair_ok in H. cbv zeta in H.
    rewrite !andb_true_iff, negb_true_iff, !Z.leb_le, Z.eqb_eq in H. destruct H as [[[H1 H2] H3] H4].
    rewrite HexStr_cons. cbn [ParseHex]. rewrite H1, (proj2 (Z.eqb_neq _ (-1))), (proj2 (Z.eqb_neq _ (-1))) by lia. by rewrite H4, IH.
  - intros Hne. unfold IsHex. assert (Zlen (HexStr l) = 2 * Zlen l) as ->.
    { clear. unfold Zlen. induction l as [|v l IH]; [done|]. rewrite HexStr_cons. cbn [length]. lia. }
    assert (0 < Zlen l) by (destruct l; [done|unfold Zlen; cbn; lia]). rewrite (proj2 (Z.ltb_lt _ _)) by lia.
    rewrite Z.mul_comm, Z.mod_mul by done. rewrite !andb_true_r. apply negb_true_iff.
    clear Hne H. induction Hl as [|v l Hv _ IH]; [done|]. pose proof (hex_pair v Hv) as H. unfold hex_pair_ok in H. cbv zeta in H.
    rewrite !andb_true_iff, !Z.leb_le in H. rewrite HexStr_cons. cbn [existsb]. rewrite !(proj2 (Z.ltb_ge _ 0)) by (apply H). exact IH.
Qed.

(** "-1.5e1" *)
Lemma parse_fixed_point_exact_witness :
  ParseFixedPoint [45; 49; 46; 53; 101; 49] 8 = Accepted (-1500000000) /\
  (exists n, number_ok n /\ [45; 49; 46; 53; 101; 49] = text n /\ denotes n 8 (-1500000000)).
Proof.
  assert (ParseFixedPoint [45; 49; 46; 53; 101; 49] 8 = Accepted (-1500000000)) as E by (vm_compute; reflexivity).
  split; [exact E|].
  destruct (parse_fixed_point_exact [45; 49; 46; 53; 101; 49] 8) as [_ H]; [vm_compute; reflexivity|lia|].
  destruct (proj1 (H _) E) as (n & Hn & Et & Hd & _). exists n. split; [exact Hn|]. split; [exact Et|exact Hd].
Defined.
End AmountsTheorems.
