(* ===== verification/NetAddr.v ===== *)
(** * Network addresses (src/src/netaddress.h, netaddress.cpp, protocol.h)

    The addresses of peers: the networks, the ranges of addresses that are not routed,
    the two encodings on the wire and on disk, the groups that the address manager
    keeps apart, services (an address with a port), subnets, and the texts of hidden
    services.  An assertion that fails is [None]; reads of an address at a fixed
    place are within its length for the addresses that [addr_ok] describes. *)
From Stdlib Require Import Ascii String.
From S2P Require Import Prelude Compact Interp Tx AsMap Text.
Import AsMap Text.
Local Open Scope Z_scope.

Module NetAddr.

Inductive Network :=
  | NET_UNROUTABLE | NET_IPV4 | NET_IPV6 | NET_ONION | NET_I2P | NET_CJDNS | NET_INTERNAL | NET_MAX.

#[export] Instance Network_eq_dec : EqDecision Network.
Proof. solve_decision. Defined.

(** The value of the enumeration. *)
Definition net_num (n : Network) : Z :=
  match n with
  | NET_UNROUTABLE => 0 | NET_IPV4 => 1 | NET_IPV6 => 2 | NET_ONION => 3 | NET_I2P => 4
  | NET_CJDNS => 5 | NET_INTERNAL => 6 | NET_MAX => 7
  end.

Definition IPV4_IN_IPV6_PREFIX : list Z := [0; 0; 0; 0; 0; 0; 0; 0; 0; 0; 0xFF; 0xFF].
Definition TORV2_IN_IPV6_PREFIX : list Z := [0xFD; 0x87; 0xD8; 0x7E; 0xEB; 0x43].
Definition INTERNAL_IN_IPV6_PREFIX : list Z := [0xFD; 0x6B; 0x88; 0xC0; 0x87; 0x24].

Definition ADDR_IPV4_SIZE : nat := 4.
Definition ADDR_IPV6_SIZE : nat := 16.
Definition ADDR_TORV2_SIZE : nat := 10.
Definition ADDR_TORV3_SIZE : nat := 32.
Definition ADDR_I2P_SIZE : nat := 32.
Definition ADDR_CJDNS_SIZE : nat := 16.
Definition ADDR_INTERNAL_SIZE : nat := 10.
Definition MAX_ADDRV2_SIZE : Z := 512.

Record CNetAddr := NetAddr { m_addr : list Z; m_net : Network; scopeId : Z }.

(** The default constructor: the unspecified IPv6 address. *)
Definition unspecified : CNetAddr := NetAddr (replicate ADDR_IPV6_SIZE 0) NET_IPV6 0.

Definition is_net (a : CNetAddr) (n : Network) : bool := bool_decide (m_net a = n).

Definition HasPrefix (obj prefix : list Z) : bool :=
  (length prefix <=? length obj)%nat && bool_decide (take (length prefix) obj = prefix).

(** [assert(b)] *)
Definition assert (b : bool) : option unit := if b then Some () else None.

(** ** Networks of BIP155 *)

Definition BIP155_IPV4 : Z := 1.
Definition BIP155_IPV6 : Z := 2.
Definition BIP155_TORV2 : Z := 3.
Definition BIP155_TORV3 : Z := 4.
Definition BIP155_I2P : Z := 5.
Definition BIP155_CJDNS : Z := 6.

Definition GetBIP155Network (a : CNetAddr) : option Z :=
  match m_net a with
  | NET_IPV4 => Some BIP155_IPV4
  | NET_IPV6 => Some BIP155_IPV6
  | NET_ONION =>
      if decide (length (m_addr a) = ADDR_TORV2_SIZE) then Some BIP155_TORV2
      else if decide (length (m_addr a) = ADDR_TORV3_SIZE) then Some BIP155_TORV3
      else None
  | NET_I2P => Some BIP155_I2P
  | NET_CJDNS => Some BIP155_CJDNS
  | NET_INTERNAL | NET_UNROUTABLE | NET_MAX => None
  end.

(** What [SetNetFromBIP155Network] does: it throws, sets the network and returns true,
    or returns false. *)
Inductive bip155 := Throws | Known (n : Network) | Unknown.

Definition SetNetFromBIP155Network (possible_bip155_net address_size : Z) : bip155 :=
  let founding n size := if address_size =? Z.of_nat size then Known n else Throws in
  if possible_bip155_net =? BIP155_IPV4 then founding NET_IPV4 ADDR_IPV4_SIZE
  else if possible_bip155_net =? BIP155_IPV6 then founding NET_IPV6 ADDR_IPV6_SIZE
  else if possible_bip155_net =? BIP155_TORV2 then founding NET_ONION ADDR_TORV2_SIZE
  else if possible_bip155_net =? BIP155_TORV3 then founding NET_ONION ADDR_TORV3_SIZE
  else if possible_bip155_net =? BIP155_I2P then founding NET_I2P ADDR_I2P_SIZE
  else if possible_bip155_net =? BIP155_CJDNS then founding NET_CJDNS ADDR_CJDNS_SIZE
  else Unknown.

(** ** Setting an address *)

(** The sizes that go with a network. *)
Definition size_ok (n : Network) (size : nat) : bool :=
  match n with
  | NET_IPV4 => bool_decide (size = ADDR_IPV4_SIZE)
  | NET_IPV6 => bool_decide (size = ADDR_IPV6_SIZE)
  | NET_ONION => bool_decide (size = ADDR_TORV2_SIZE) || bool_decide (size = ADDR_TORV3_SIZE)
  | NET_I2P => bool_decide (size = ADDR_I2P_SIZE)
  | NET_CJDNS => bool_decide (size = ADDR_CJDNS_SIZE)
  | NET_INTERNAL => bool_decide (size = ADDR_INTERNAL_SIZE)
  | NET_UNROUTABLE | NET_MAX => false
  end.

Definition SetIP (this ipIn : CNetAddr) : option CNetAddr :=
  assert (size_ok (m_net ipIn) (length (m_addr ipIn)));;
  Some (NetAddr (m_addr ipIn) (m_net ipIn) (scopeId this)).

Definition SetLegacyIPv6 (this : CNetAddr) (ipv6 : list Z) : option CNetAddr :=
  assert (bool_decide (length ipv6 = ADDR_IPV6_SIZE));;
  let '(net, skip) :=
    if HasPrefix ipv6 IPV4_IN_IPV6_PREFIX then (NET_IPV4, length IPV4_IN_IPV6_PREFIX)
    else if HasPrefix ipv6 TORV2_IN_IPV6_PREFIX then (NET_ONION, length TORV2_IN_IPV6_PREFIX)
    else if HasPrefix ipv6 INTERNAL_IN_IPV6_PREFIX then (NET_INTERNAL, length INTERNAL_IN_IPV6_PREFIX)
    else (NET_IPV6, 0%nat) in
  Some (NetAddr (drop skip ipv6) net (scopeId this)).

(** The constructors from socket addresses. *)
Definition from_in_addr (ipv4Addr : list Z) : CNetAddr := NetAddr (take ADDR_IPV4_SIZE ipv4Addr) NET_IPV4 0.
Definition from_in6_addr (ipv6Addr : list Z) (scope : Z) : option CNetAddr :=
  a ← SetLegacyIPv6 unspecified ipv6Addr; Some (NetAddr (m_addr a) (m_net a) scope).

Definition SetInternal `{Hashes} (this : CNetAddr) (name : list Z) : bool * CNetAddr :=
  if Zlen name =? 0 then (false, this)
  else (true, NetAddr (take ADDR_INTERNAL_SIZE (sha256 name)) NET_INTERNAL (scopeId this)).

(** ** Which addresses are special *)

Section Class.
Context (a : CNetAddr).

Definition IsIPv4 : bool := is_net a NET_IPV4.
Definition IsIPv6 : bool := is_net a NET_IPV6.
Definition IsTor : bool := is_net a NET_ONION.
Definition IsI2P : bool := is_net a NET_I2P.
Definition IsCJDNS : bool := is_net a NET_CJDNS.
Definition IsInternal : bool := is_net a NET_INTERNAL.

Definition IsBindAny : bool :=
  if negb IsIPv4 && negb IsIPv6 then false else forallb (fun b => b =? 0) (m_addr a).

Abbreviation byte i := (rd (m_addr a) i).

Definition IsRFC1918 : bool :=
  IsIPv4 && ((byte 0 =? 10) || ((byte 0 =? 192) && (byte 1 =? 168)) ||
             ((byte 0 =? 172) && (16 <=? byte 1) && (byte 1 <=? 31))).
Definition IsRFC2544 : bool := IsIPv4 && (byte 0 =? 198) && ((byte 1 =? 18) || (byte 1 =? 19)).
Definition IsRFC3927 : bool := IsIPv4 && HasPrefix (m_addr a) [169; 254].
Definition IsRFC6598 : bool := IsIPv4 && (byte 0 =? 100) && (64 <=? byte 1) && (byte 1 <=? 127).
Definition IsRFC5737 : bool :=
  IsIPv4 && (HasPrefix (m_addr a) [192; 0; 2] || HasPrefix (m_addr a) [198; 51; 100] ||
             HasPrefix (m_addr a) [203; 0; 113]).
Definition IsRFC3849 : bool := IsIPv6 && HasPrefix (m_addr a) [0x20; 0x01; 0x0D; 0xB8].
Definition IsRFC3964 : bool := IsIPv6 && HasPrefix (m_addr a) [0x20; 0x02].
Definition IsRFC6052 : bool :=
  IsIPv6 && HasPrefix (m_addr a) [0x00; 0x64; 0xFF; 0x9B; 0x00; 0x00; 0x00; 0x00; 0x00; 0x00; 0x00; 0x00].
Definition IsRFC4380 : bool := IsIPv6 && HasPrefix (m_addr a) [0x20; 0x01; 0x00; 0x00].
Definition IsRFC4862 : bool :=
  IsIPv6 && HasPrefix (m_addr a) [0xFE; 0x80; 0x00; 0x00; 0x00; 0x00; 0x00; 0x00].
Definition IsRFC4193 : bool := IsIPv6 && (Z.land (byte 0) 0xFE =? 0xFC).
Definition IsRFC6145 : bool :=
  IsIPv6 && HasPrefix (m_addr a) [0x00; 0x00; 0x00; 0x00; 0x00; 0x00; 0x00; 0x00; 0xFF; 0xFF; 0x00; 0x00].
Definition IsRFC4843 : bool :=
  IsIPv6 && HasPrefix (m_addr a) [0x20; 0x01; 0x00] && (Z.land (byte 3) 0xF0 =? 0x10).
Definition IsRFC7343 : bool :=
  IsIPv6 && HasPrefix (m_addr a) [0x20; 0x01; 0x00] && (Z.land (byte 3) 0xF0 =? 0x20).
Definition IsHeNet : bool := IsIPv6 && HasPrefix (m_addr a) [0x20; 0x01; 0x04; 0x70].

Definition IsLocal : bool :=
  (IsIPv4 && ((byte 0 =? 127) || (byte 0 =? 0))) ||
  (IsIPv6 && bool_decide (take 16 (m_addr a) = replicate 15 0 ++ [1])).

(** [ReadBE32] of the bytes at [i]. *)
Definition ReadBE32_at (i : nat) : Z := be_num (take 4 (drop i (m_addr a))).

Definition IsValid : bool :=
  if IsIPv6 && bool_decide (take 16 (m_addr a) = replicate 16 0) then false
  else if IsRFC3849 then false
  else if IsInternal then false
  else if IsIPv4 && ((ReadBE32_at 0 =? 0) || (ReadBE32_at 0 =? 0xFFFFFFFF)) then false
  else true.

Definition IsRoutable : bool :=
  IsValid &&
  negb (IsRFC1918 || IsRFC2544 || IsRFC3927 || IsRFC4862 || IsRFC6598 || IsRFC5737 ||
        (IsRFC4193 && negb IsTor) || IsRFC4843 || IsRFC7343 || IsLocal || IsInternal).

Definition IsAddrV1Compatible : option bool :=
  match m_net a with
  | NET_IPV4 | NET_IPV6 | NET_INTERNAL => Some true
  | NET_ONION => Some (bool_decide (length (m_addr a) = ADDR_TORV2_SIZE))
  | NET_I2P | NET_CJDNS => Some false
  | NET_UNROUTABLE | NET_MAX => None
  end.

Definition GetNetwork : Network :=
  if IsInternal then NET_INTERNAL else if negb IsRoutable then NET_UNROUTABLE else m_net a.

Definition HasLinkedIPv4 : bool :=
  IsRoutable && (IsIPv4 || IsRFC6145 || IsRFC6052 || IsRFC3964 || IsRFC4380).

(** The last four bytes. *)
Definition last_word : Z := ReadBE32_at (length (m_addr a) - 4).

Definition GetLinkedIPv4 : option Z :=
  if IsIPv4 then Some (ReadBE32_at 0)
  else if IsRFC6052 || IsRFC6145 then Some last_word
  else if IsRFC3964 then Some (ReadBE32_at 2)
  else if IsRFC4380 then Some (u32 (Z.lnot last_word))
  else None.

Definition GetNetClass : Network :=
  if IsInternal then NET_INTERNAL
  else if negb IsRoutable then NET_UNROUTABLE
  else if HasLinkedIPv4 then NET_IPV4
  else m_net a.

Definition byte_bits (b : Z) : list bool := map (fun i => Z.testbit b (7 - Z.of_nat i)) (seq 0 8).

(** The bits of the address that [Interpret] gets. *)
Definition ip_bits : option (list bool) :=
  if HasLinkedIPv4 then
    ipv4 ← GetLinkedIPv4;
    Some (flat_map byte_bits IPV4_IN_IPV6_PREFIX ++ map (fun i => Z.testbit ipv4 (31 - Z.of_nat i)) (seq 0 32))
  else
    assert IsIPv6;; Some (flat_map (fun i => byte_bits (byte i)) (seq 0 16)).

Definition GetMappedAS (asmap : list bool) : option Z :=
  let net_class := GetNetClass in
  if (Zlen asmap =? 0) || (negb (bool_decide (net_class = NET_IPV4)) && negb (bool_decide (net_class = NET_IPV6)))
  then Some 0
  else bits ← ip_bits; Interpret asmap bits.

(** The rest of [GetGroup]: the first [nBits] bits of the address. *)
Definition push_prefix (vchRet : list Z) (nBits : nat) : option (list Z) :=
  let num_bytes := (nBits / 8)%nat in
  let vchRet := vchRet ++ take num_bytes (m_addr a) in
  let nBits := (nBits mod 8)%nat in
  if (0 <? nBits)%nat then
    assert (num_bytes <? length (m_addr a))%nat;;
    Some (vchRet ++ [Z.lor (byte num_bytes) (Z.shiftl 1 (8 - Z.of_nat nBits) - 1)])
  else Some vchRet.

Definition GetGroup (asmap : list bool) : option (list Z) :=
  let net_class := GetNetClass in
  asn ← GetMappedAS asmap;
  if negb (asn =? 0) then
    Some (net_num NET_IPV6 :: map (fun i => Z.land (Z.shiftr asn (8 * Z.of_nat i)) 0xFF) (seq 0 4))
  else
    let vchRet := [net_num net_class] in
    if IsLocal then push_prefix vchRet 0
    else if IsInternal then push_prefix vchRet (ADDR_INTERNAL_SIZE * 8)
    else if negb IsRoutable then push_prefix vchRet 0
    else if HasLinkedIPv4 then
      ipv4 ← GetLinkedIPv4;
      Some (vchRet ++ [Z.land (Z.shiftr ipv4 24) 0xFF; Z.land (Z.shiftr ipv4 16) 0xFF])
    else if IsTor || IsI2P || IsCJDNS then push_prefix vchRet 4
    else if IsHeNet then push_prefix vchRet 36
    else push_prefix vchRet 32.
End Class.

(** ** Encodings *)

Definition SerializeV1Array (a : CNetAddr) : option (list Z) :=
  let embedded prefix :=
    assert (bool_decide (length prefix + length (m_addr a) = ADDR_IPV6_SIZE)%nat);; Some (prefix ++ m_addr a) in
  let zeros := replicate ADDR_IPV6_SIZE 0 in
  match m_net a with
  | NET_IPV6 => embedded []
  | NET_IPV4 => embedded IPV4_IN_IPV6_PREFIX
  | NET_ONION =>
      if decide (length (m_addr a) = ADDR_TORV3_SIZE) then Some zeros else embedded TORV2_IN_IPV6_PREFIX
  | NET_INTERNAL => embedded INTERNAL_IN_IPV6_PREFIX
  | NET_I2P | NET_CJDNS => Some zeros
  | NET_UNROUTABLE | NET_MAX => None
  end.

Definition SerializeV2 (a : CNetAddr) : option (list Z) :=
  if IsInternal a then
    arr ← SerializeV1Array a;
    Some ([BIP155_IPV6] ++ WriteCompactSize (Z.of_nat ADDR_IPV6_SIZE) ++ arr)
  else
    net ← GetBIP155Network a;
    Some ([net] ++ WriteCompactSize (Zlen (m_addr a)) ++ m_addr a).

(** [Serialize]: the flag is [ADDRV2_FORMAT] of the stream's version. *)
Definition Serialize (addrv2 : bool) (a : CNetAddr) : option (list Z) :=
  if addrv2 then SerializeV2 a else SerializeV1Array a.

Definition UnserializeV1 (this : CNetAddr) : reader CNetAddr := fun s =>
  '(arr, s) ← read_bytes ADDR_IPV6_SIZE s; a ← SetLegacyIPv6 this arr; Some (a, s).

Definition UnserializeV2 : reader CNetAddr :=
  bip155_net ← read_byte;
  address_size ← ReadCompactSize true;
  if MAX_ADDRV2_SIZE <? address_size then throw
  else
    match SetNetFromBIP155Network bip155_net address_size with
    | Throws => throw
    | Unknown => ignore (Z.to_nat address_size);; mret unspecified
    | Known net =>
        addr ← read_bytes (Z.to_nat address_size);
        mret (if negb (bool_decide (net = NET_IPV6)) then NetAddr addr net 0
              else if HasPrefix addr INTERNAL_IN_IPV6_PREFIX then
                NetAddr (take ADDR_INTERNAL_SIZE (drop (length INTERNAL_IN_IPV6_PREFIX) addr)) NET_INTERNAL 0
              else if negb (HasPrefix addr IPV4_IN_IPV6_PREFIX) && negb (HasPrefix addr TORV2_IN_IPV6_PREFIX)
              then NetAddr addr NET_IPV6 0
              else unspecified)
    end.

Definition Unserialize (addrv2 : bool) (this : CNetAddr) : reader CNetAddr :=
  if addrv2 then UnserializeV2 else UnserializeV1 this.

Definition GetAddrBytes (a : CNetAddr) : option (list Z) :=
  v1 ← IsAddrV1Compatible a;
  if v1 : bool then SerializeV1Array a else Some (m_addr a).

(** The hash is over the bytes before the last: the second pointer is past the end of
    the range. *)
Definition GetHash `{Hashes} (a : CNetAddr) : Z :=
  le_num (take 8 (CHash256 (take (length (m_addr a) - 1) (m_addr a)))).

(** [operator==] and [operator<], which do not look at the scope. *)
Definition net_key (a : CNetAddr) : Network * list Z := (m_net a, m_addr a).
Definition addr_eqb (a b : CNetAddr) : bool := bool_decide (net_key a = net_key b).

Fixpoint bytes_ltb (l1 l2 : list Z) : bool :=
  match l1, l2 with
  | _, [] => false
  | [], _ :: _ => true
  | x :: l1, y :: l2 => if x <? y then true else if y <? x then false else bytes_ltb l1 l2
  end.

Definition addr_ltb (a b : CNetAddr) : bool :=
  (net_num (m_net a) <? net_num (m_net b)) ||
  ((net_num (m_net a) =? net_num (m_net b)) && bytes_ltb (m_addr a) (m_addr b)).

(** ** Reachability *)

Definition NET_UNKNOWN : Z := 7.
Definition NET_TEREDO : Z := 8.

Definition GetExtNetwork (addr : option CNetAddr) : Z :=
  match addr with
  | None => NET_UNKNOWN
  | Some a => if IsRFC4380 a then NET_TEREDO else net_num (GetNetwork a)
  end.

Definition REACH_UNREACHABLE : Z := 0.
Definition REACH_DEFAULT : Z := 1.
Definition REACH_TEREDO : Z := 2.
Definition REACH_IPV6_WEAK : Z := 3.
Definition REACH_IPV4 : Z := 4.
Definition REACH_IPV6_STRONG : Z := 5.
Definition REACH_PRIVATE : Z := 6.

Definition GetReachabilityFrom (a : CNetAddr) (paddrPartner : option CNetAddr) : Z :=
  if negb (IsRoutable a) || IsInternal a then REACH_UNREACHABLE
  else
    let ourNet := GetExtNetwork (Some a) in
    let theirNet := GetExtNetwork paddrPartner in
    let fTunnel := IsRFC3964 a || IsRFC6052 a || IsRFC6145 a in
    let ours n := ourNet =? n in
    if theirNet =? net_num NET_IPV4 then
      if ours (net_num NET_IPV4) then REACH_IPV4 else REACH_DEFAULT
    else if theirNet =? net_num NET_IPV6 then
      if ours NET_TEREDO then REACH_TEREDO
      else if ours (net_num NET_IPV4) then REACH_IPV4
      else if ours (net_num NET_IPV6) then (if fTunnel then REACH_IPV6_WEAK else REACH_IPV6_STRONG)
      else REACH_DEFAULT
    else if theirNet =? net_num NET_ONION then
      if ours (net_num NET_IPV4) then REACH_IPV4
      else if ours (net_num NET_ONION) then REACH_PRIVATE else REACH_DEFAULT
    else if theirNet =? NET_TEREDO then
      if ours NET_TEREDO then REACH_TEREDO
      else if ours (net_num NET_IPV6) then REACH_IPV6_WEAK
      else if ours (net_num NET_IPV4) then REACH_IPV4 else REACH_DEFAULT
    else
      if ours NET_TEREDO then REACH_TEREDO
      else if ours (net_num NET_IPV6) then REACH_IPV6_WEAK
      else if ours (net_num NET_IPV4) then REACH_IPV4
      else if ours (net_num NET_ONION) then REACH_PRIVATE else REACH_DEFAULT.

(** ** Services *)

Record CService := Service { ip : CNetAddr; port : Z }.

Definition service_eqb (a b : CService) : bool := addr_eqb (ip a) (ip b) && (port a =? port b).
Definition service_ltb (a b : CService) : bool :=
  addr_ltb (ip a) (ip b) || (addr_eqb (ip a) (ip b) && (port a <? port b)).

Definition GetKey (s : CService) : option (list Z) :=
  key ← GetAddrBytes (ip s); Some (key ++ [u8 (port s / 0x100); Z.land (port s) 0xFF]).

Definition SerializeService (addrv2 : bool) (s : CService) : option (list Z) :=
  a ← Serialize addrv2 (ip s); Some (a ++ be_bytes 2 (port s)).
Definition UnserializeService (addrv2 : bool) (this : CService) : reader CService :=
  a ← Unserialize addrv2 (ip this);
  p ← read_bytes 2;
  mret (Service a (be_num p)).

(** ** Peers: [CAddress] *)

Record CAddress := Address { service : CService; nServices : Z; nTime : Z }.

Definition TIME_INIT : Z := 100000000.
Definition DISK_VERSION_INIT : Z := 220000.
Definition DISK_VERSION_IGNORE_MASK : Z := 0x7FFFF.
Definition DISK_VERSION_ADDRV2 : Z := 2 ^ 29.
Definition INIT_PROTO_VERSION : Z := 209.

(** The stream: on disk or to a peer, whether its version has [ADDRV2_FORMAT], and
    whether it is [INIT_PROTO_VERSION]. *)
Record stream_type := Stream { to_disk : bool; v2_flag : bool; init_proto : bool }.

Definition SerializeAddress (t : stream_type) (a : CAddress) : option (list Z) :=
  let version :=
    if to_disk t then
      le_bytes 4 (if v2_flag t then Z.lor DISK_VERSION_INIT DISK_VERSION_ADDRV2 else DISK_VERSION_INIT)
    else [] in
  let store_time := to_disk t || negb (init_proto t) in
  let time := if store_time then le_bytes 4 (nTime a) else [] in
  let services := if v2_flag t then WriteCompactSize (nServices a) else le_bytes 8 (nServices a) in
  s ← SerializeService (v2_flag t) (service a);
  Some (version ++ time ++ services ++ s).

Definition UnserializeAddress (t : stream_type) (this : CAddress) : reader CAddress :=
  use_v2 ← (if to_disk t then
              v ← read_bytes 4;
              let stored_format_version := Z.land (le_num v) (Z.lxor (2 ^ 32 - 1) DISK_VERSION_IGNORE_MASK) in
              if stored_format_version =? 0 then mret false
              else if (stored_format_version =? DISK_VERSION_ADDRV2) && v2_flag t then mret true
              else throw
            else mret (v2_flag t));
  time ← (if to_disk t || negb (init_proto t) then l ← read_bytes 4; mret (le_num l) else mret TIME_INIT);
  services ← (if use_v2 : bool then ReadCompactSize false else l ← read_bytes 8; mret (le_num l));
  s ← UnserializeService use_v2 (service this);
  mret (Address s services time).

(** ** Subnets *)

Record CSubNet := SubNet { network : CNetAddr; netmask : list Z; valid : bool }.

Definition no_subnet : CSubNet := SubNet unspecified (replicate 16 0) false.

(** The masks of the bytes of an address, [n] leading bits in all. *)
Fixpoint mask_loop (n : Z) (addr : list Z) : list Z :=
  match addr with
  | [] => []
  | _ :: addr =>
      let bits := if n <? 8 then n else 8 in
      u8 (Z.shiftl 0xFF (8 - bits)) :: mask_loop (n - bits) addr
  end.

Definition normalize (addr : CNetAddr) (mask : list Z) : CNetAddr :=
  NetAddr (zip_with Z.land (m_addr addr) mask) (m_net addr) (scopeId addr).

Definition CSubNet_bits (addr : CNetAddr) (mask : Z) : CSubNet :=
  if (IsIPv4 addr && (mask <=? Z.of_nat ADDR_IPV4_SIZE * 8)) || (IsIPv6 addr && (mask <=? Z.of_nat ADDR_IPV6_SIZE * 8))
  then
    let m := mask_loop mask (m_addr addr) in
    SubNet (normalize addr m) (memcpy_at (replicate 16 0) 0 m) true
  else no_subnet.

Definition NetmaskBits (x : Z) : Z :=
  if x =? 0x00 then 0 else if x =? 0x80 then 1 else if x =? 0xc0 then 2 else if x =? 0xe0 then 3
  else if x =? 0xf0 then 4 else if x =? 0xf8 then 5 else if x =? 0xfc then 6 else if x =? 0xfe then 7
  else if x =? 0xff then 8 else -1.

(** The loop over the bytes of a mask: whether it is accepted. *)
Fixpoint netmask_loop (zeros_found : bool) (mask : list Z) : bool :=
  match mask with
  | [] => true
  | b :: mask =>
      let num_bits := NetmaskBits b in
      if (num_bits =? -1) || (zeros_found && negb (num_bits =? 0)) then false
      else netmask_loop (zeros_found || (num_bits <? 8)) mask
  end.

Definition CSubNet_mask (addr mask : CNetAddr) : option CSubNet :=
  if (IsIPv4 addr || IsIPv6 addr) && bool_decide (m_net addr = m_net mask) then
    if netmask_loop false (m_addr mask) then
      assert (length (m_addr mask) <=? 16)%nat;;
      let m := memcpy_at (replicate 16 0) 0 (m_addr mask) in
      Some (SubNet (normalize addr m) m true)
    else Some no_subnet
  else Some no_subnet.

Definition CSubNet_single (addr : CNetAddr) : option CSubNet :=
  match m_net addr with
  | NET_IPV4 | NET_IPV6 =>
      assert (length (m_addr addr) <=? 16)%nat;;
      Some (SubNet addr (memcpy_at (replicate 16 0) 0 (replicate (length (m_addr addr)) 0xFF)) true)
  | NET_ONION | NET_I2P | NET_CJDNS => Some (SubNet addr (replicate 16 0) true)
  | NET_INTERNAL | NET_UNROUTABLE | NET_MAX => Some no_subnet
  end.

(** The loop of [Match]. *)
Fixpoint match_bytes (addr mask net : list Z) : bool :=
  match addr, mask, net with
  | x :: addr, m :: mask, n :: net => (Z.land x m =? n) && match_bytes addr mask net
  | _, _, _ => true
  end.

Definition Match (s : CSubNet) (addr : CNetAddr) : option bool :=
  if negb (valid s) || negb (IsValid addr) || negb (bool_decide (m_net (network s) = m_net addr))
  then Some false
  else
    match m_net (network s) with
    | NET_IPV4 | NET_IPV6 =>
        assert (bool_decide (length (m_addr (network s)) = length (m_addr addr)));;
        Some (match_bytes (m_addr addr) (netmask s) (m_addr (network s)))
    | NET_ONION | NET_I2P | NET_CJDNS | NET_INTERNAL => Some (addr_eqb addr (network s))
    | NET_UNROUTABLE | NET_MAX => Some false
    end.

Definition subnet_eqb (a b : CSubNet) : bool :=
  Bool.eqb (valid a) (valid b) && addr_eqb (network a) (network b) && bool_decide (netmask a = netmask b).

(** ** Texts of hidden services *)

Definition text (s : string) : list Z := map (fun c => Z.of_nat (nat_of_ascii c)) (list_ascii_of_string s).

Section Hidden.
Context (sha3_256 : list Z -> list Z).

Definition CHECKSUM_LEN : nat := 2.
Definition VERSION : list Z := [3].
Definition TOTAL_LEN : nat := ADDR_TORV3_SIZE + CHECKSUM_LEN + length VERSION.

Definition Checksum (addr_pubkey : list Z) : list Z :=
  take CHECKSUM_LEN (sha3_256 (text ".onion checksum" ++ addr_pubkey ++ VERSION)).

Definition SetTor (this : CNetAddr) (addr : list Z) : bool * CNetAddr :=
  let suffix := text ".onion" in
  let n := (length addr - 6)%nat in
  if (length addr <=? 6)%nat || negb (bool_decide (drop n addr = suffix)) then (false, this)
  else
    let '(input, ok) := DecodeBase32 (take n addr) in
    if negb ok then (false, this)
    else if negb (bool_decide (length input = TOTAL_LEN)) then (false, this)
    else
      let pubkey := take ADDR_TORV3_SIZE input in
      let checksum := take CHECKSUM_LEN (drop ADDR_TORV3_SIZE input) in
      let version := take 1 (drop (ADDR_TORV3_SIZE + CHECKSUM_LEN) input) in
      if negb (bool_decide (version = VERSION)) then (false, this)
      else if negb (bool_decide (checksum = Checksum pubkey)) then (false, this)
      else (true, NetAddr pubkey NET_ONION (scopeId this)).

Definition SetI2P (this : CNetAddr) (addr : list Z) : bool * CNetAddr :=
  if negb (bool_decide (length addr = 60)%nat) || negb (bool_decide (ToLower (drop 52 addr) = text ".b32.i2p"))
  then (false, this)
  else
    let '(address_bytes, ok) := DecodeBase32 (take 52 addr ++ text "====") in
    if negb ok || negb (bool_decide (length address_bytes = ADDR_I2P_SIZE)) then (false, this)
    else (true, NetAddr address_bytes NET_I2P (scopeId this)).

Definition SetSpecial (this : CNetAddr) (addr : list Z) : bool * CNetAddr :=
  if negb (ValidAsCString addr) then (false, this)
  else
    let '(ok, a) := SetTor this addr in
    if ok : bool then (true, a)
    else let '(ok, a) := SetI2P a addr in (ok, a).

(** [ToStringIP] for the networks whose texts it makes itself. *)
Definition ToStringIP_hidden (a : CNetAddr) : option (list Z) :=
  match m_net a with
  | NET_ONION =>
      if decide (length (m_addr a) = ADDR_TORV2_SIZE) then Some (EncodeBase32 (m_addr a) true ++ text ".onion")
      else if decide (length (m_addr a) = ADDR_TORV3_SIZE) then
        Some (EncodeBase32 (m_addr a ++ Checksum (m_addr a) ++ VERSION) true ++ text ".onion")
      else None
  | NET_I2P => Some (EncodeBase32 (m_addr a) false ++ text ".b32.i2p")
  | NET_INTERNAL => Some (EncodeBase32 (m_addr a) true ++ text ".internal")
  | _ => None
  end.
End Hidden.
End NetAddr.

Module NetAddrFacts.
Import NetAddr.

(** Goals about the sizes of addresses. *)
Ltac sizes := unfold ADDR_IPV4_SIZE, ADDR_IPV6_SIZE, ADDR_TORV2_SIZE, ADDR_TORV3_SIZE, ADDR_I2P_SIZE,
  ADDR_CJDNS_SIZE, ADDR_INTERNAL_SIZE in *; cbn [length IPV4_IN_IPV6_PREFIX TORV2_IN_IPV6_PREFIX INTERNAL_IN_IPV6_PREFIX] in *; lia.

(** ** Well-formed addresses *)

Definition addr_ok (a : CNetAddr) : Prop :=
  bytes_ok (m_addr a) /\ size_ok (m_net a) (length (m_addr a)) = true.

(** An IPv6 address that is not another address in disguise. *)
Definition clean (a : CNetAddr) : Prop :=
  m_net a = NET_IPV6 ->
  HasPrefix (m_addr a) IPV4_IN_IPV6_PREFIX = false /\
  HasPrefix (m_addr a) TORV2_IN_IPV6_PREFIX = false /\
  HasPrefix (m_addr a) INTERNAL_IN_IPV6_PREFIX = false.

Definition with_scope (s : Z) (a : CNetAddr) : CNetAddr := NetAddr (m_addr a) (m_net a) s.

(** The size of an address by its network. *)
Lemma size_cases a :
  addr_ok a ->
  match m_net a with
  | NET_IPV4 => length (m_addr a) = 4%nat
  | NET_IPV6 | NET_CJDNS => length (m_addr a) = 16%nat
  | NET_ONION => length (m_addr a) = 10%nat \/ length (m_addr a) = 32%nat
  | NET_I2P => length (m_addr a) = 32%nat
  | NET_INTERNAL => length (m_addr a) = 10%nat
  | NET_UNROUTABLE | NET_MAX => False
  end.
Proof.
  intros [_ H]. unfold size_ok in H. destruct (m_net a); try discriminate H;
    try (by apply bool_decide_eq_true in H).
  apply orb_true_iff in H as [H|H]; apply bool_decide_eq_true in H; [by left|by right].
Qed.

Lemma HasPrefix_app p l : HasPrefix (p ++ l) p = true.
Proof.
  unfold HasPrefix. rewrite length_app, take_app_length, bool_decide_eq_true_2 by done.
  rewrite (proj2 (Nat.leb_le _ _)) by lia. done.
Qed.

Lemma HasPrefix_split p l : HasPrefix l p = true -> l = p ++ drop (length p) l.
Proof.
  unfold HasPrefix. rewrite andb_true_iff. intros [_ H%bool_decide_eq_true].
  rewrite <-H at 1. by rewrite take_drop.
Qed.

(** Two of the prefixes are never of the same bytes. *)
Lemma prefix_disjoint p q l :
  (exists i, i < length p /\ i < length q /\ p !! i <> q !! i)%nat -> HasPrefix (p ++ l) q = false.
Proof.
  intros (i & Hp & Hq & Hne). destruct (HasPrefix (p ++ l) q) eqn:E; [|done].
  apply HasPrefix_split in E. exfalso. apply Hne.
  rewrite <-(lookup_app_l p l i Hp), E. by apply lookup_app_l.
Qed.

Lemma assert_true b : b = true -> assert b = Some ().
Proof. by intros ->. Qed.

(** ** The format before BIP155 *)

Definition v1_read (this : CNetAddr) (a : CNetAddr) : CNetAddr :=
  match IsAddrV1Compatible a with
  | Some true => with_scope (scopeId this) a
  | _ => with_scope (scopeId this) unspecified
  end.

Lemma SetLegacy_prefix this p net l :
  (p, net) ∈ [(IPV4_IN_IPV6_PREFIX, NET_IPV4); (TORV2_IN_IPV6_PREFIX, NET_ONION);
              (INTERNAL_IN_IPV6_PREFIX, NET_INTERNAL)] ->
  (length p + length l = 16)%nat ->
  SetLegacyIPv6 this (p ++ l) = Some (NetAddr l net (scopeId this)).
Proof.
  intros Hp Hl. unfold SetLegacyIPv6. rewrite assert_true by (apply bool_decide_eq_true; rewrite length_app; done).
  rewrite !elem_of_cons, elem_of_nil in Hp. cbn [mbind option_bind].
  destruct Hp as [[= -> ->]|[[= -> ->]|[[= -> ->]|[]]]].
  - by rewrite HasPrefix_app.
  - rewrite (prefix_disjoint _ IPV4_IN_IPV6_PREFIX) by (exists 0%nat; cbn; repeat split; [lia..|done]). by rewrite HasPrefix_app.
  - rewrite (prefix_disjoint _ IPV4_IN_IPV6_PREFIX) by (exists 0%nat; cbn; repeat split; [lia..|done]).
    rewrite (prefix_disjoint _ TORV2_IN_IPV6_PREFIX) by (exists 1%nat; cbn; repeat split; [lia..|done]). by rewrite HasPrefix_app.
Qed.

Lemma SetLegacy_plain this l :
  length l = 16%nat -> HasPrefix l IPV4_IN_IPV6_PREFIX = false -> HasPrefix l TORV2_IN_IPV6_PREFIX = false ->
  HasPrefix l INTERNAL_IN_IPV6_PREFIX = false ->
  SetLegacyIPv6 this l = Some (NetAddr l NET_IPV6 (scopeId this)).
Proof.
  intros Hl H1 H2 H3. unfold SetLegacyIPv6. rewrite assert_true by (by apply bool_decide_eq_true).
  cbn [mbind option_bind]. by rewrite H1, H2, H3.
Qed.

Lemma with_scope_unspecified s : with_scope s unspecified = NetAddr (replicate 16 0) NET_IPV6 s.
Proof. done. Qed.

Lemma zeros_read this : SetLegacyIPv6 this (replicate 16 0) = Some (with_scope (scopeId this) unspecified).
Proof. by apply SetLegacy_plain. Qed.

Lemma v1_round_trip this a :
  addr_ok a -> clean a ->
  exists arr, SerializeV1Array a = Some arr /\ length arr = 16%nat /\ bytes_ok arr /\
    SetLegacyIPv6 this arr = Some (v1_read this a).
Proof.
  intros Hok Hclean. pose proof (size_cases a Hok) as Hs. destruct Hok as [Hb _].
  destruct a as [l net sc]. unfold SerializeV1Array, v1_read, IsAddrV1Compatible, with_scope, clean in *.
  cbn [m_addr m_net scopeId] in *.
  assert (bytes_ok (replicate 16 0)) as Hz by (by apply bytes_ok_replicate).
  destruct net; try done.
  - exists (IPV4_IN_IPV6_PREFIX ++ l). rewrite assert_true by (apply bool_decide_eq_true; sizes).
    split; [done|]. split; [rewrite length_app; sizes|].
    split; [apply bytes_ok_app; split; [by repeat constructor|done]|].
    apply SetLegacy_prefix; [left|sizes].
  - exists l. rewrite assert_true by (apply bool_decide_eq_true; sizes). split; [done|]. split; [done|]. split; [done|].
    destruct (Hclean eq_refl) as (H1 & H2 & H3). by apply SetLegacy_plain.
  - destruct Hs as [Hs|Hs]; rewrite Hs; cbn -[replicate].
    + exists (TORV2_IN_IPV6_PREFIX ++ l). split; [done|]. split; [rewrite length_app; sizes|].
      split; [apply bytes_ok_app; split; [by repeat constructor|done]|].
      apply SetLegacy_prefix; [right; left|sizes].
    + exists (replicate 16 0). split; [done|]. split; [done|]. split; [done|apply zeros_read].
  - exists (replicate 16 0). split; [done|]. split; [done|]. split; [done|apply zeros_read].
  - exists (replicate 16 0). split; [done|]. split; [done|]. split; [done|apply zeros_read].
  - exists (INTERNAL_IN_IPV6_PREFIX ++ l). rewrite assert_true by (apply bool_decide_eq_true; sizes).
    split; [done|]. split; [rewrite length_app; sizes|].
    split; [apply bytes_ok_app; split; [by repeat constructor|done]|].
    apply SetLegacy_prefix; [right; right; left|sizes].
Qed.

(** Every sixteen bytes are an address, and written back they are the same. *)
Lemma v1_total this arr :
  bytes_ok arr -> length arr = 16%nat ->
  exists a, SetLegacyIPv6 this arr = Some a /\ addr_ok a /\ clean a /\ SerializeV1Array a = Some arr.
Proof.
  intros Hb Hl. unfold SetLegacyIPv6. rewrite assert_true by (by apply bool_decide_eq_true). cbn [mbind option_bind].
  assert (forall p net, HasPrefix arr p = true -> size_ok net (16 - length p) = true ->
    bytes_ok (drop (length p) arr) /\ size_ok net (length (drop (length p) arr)) = true) as Hpart.
  { intros p net _ Hn. split; [by apply bytes_ok_drop|by rewrite length_drop, Hl]. }
  assert (forall p, HasPrefix arr p = true -> (length p <= 16)%nat ->
    assert (bool_decide (length p + length (drop (length p) arr) = 16)%nat) = Some ()) as Hsz.
  { intros p _ Hp. apply assert_true, bool_decide_eq_true. rewrite length_drop. lia. }
  destruct (HasPrefix arr IPV4_IN_IPV6_PREFIX) eqn:E1; [|destruct (HasPrefix arr TORV2_IN_IPV6_PREFIX) eqn:E2;
    [|destruct (HasPrefix arr INTERNAL_IN_IPV6_PREFIX) eqn:E3]].
  - eexists. split; [done|]. split; [by apply (Hpart _ NET_IPV4)|]. split; [by intros ?|].
    unfold SerializeV1Array. cbn [m_net m_addr]. rewrite Hsz by (done || sizes). by rewrite <-HasPrefix_split.
  - eexists. split; [done|]. split; [by apply (Hpart _ NET_ONION)|]. split; [by intros ?|].
    unfold SerializeV1Array. cbn [m_net m_addr]. destruct (decide _) as [Hd|_]; [rewrite length_drop, Hl in Hd; done|].
    rewrite Hsz by (done || sizes). by rewrite <-HasPrefix_split.
  - eexists. split; [done|]. split; [by apply (Hpart _ NET_INTERNAL)|]. split; [by intros ?|].
    unfold SerializeV1Array. cbn [m_net m_addr]. rewrite Hsz by (done || sizes). by rewrite <-HasPrefix_split.
  - rewrite drop_0. eexists. split; [done|]. split; [split; cbn [m_addr m_net]; [done|by rewrite Hl]|]. split; [by intros _|].
    unfold SerializeV1Array. cbn [m_net m_addr app]. by rewrite assert_true by (apply bool_decide_eq_true; sizes).
Qed.

(** ** The format of BIP155 *)

Lemma clean_unspecified : addr_ok unspecified /\ clean unspecified.
Proof. split; [split; [by apply bytes_ok_replicate|done]|by intros _]. Qed.

Lemma founding_size a net :
  addr_ok a -> m_net a <> NET_INTERNAL -> GetBIP155Network a = Some net ->
  SetNetFromBIP155Network net (Zlen (m_addr a)) = Known (m_net a) /\ 1 <= net <= 6 /\
  0 <= Zlen (m_addr a) <= 32.
Proof.
  intros Hok Hi E. pose proof (size_cases a Hok) as Hs. unfold GetBIP155Network, Zlen in *.
  destruct (m_net a); try done; try (injection E as <-; rewrite Hs; split; [done|by unfold BIP155_IPV4; split; lia]).
  all: try (injection E as <-; rewrite Hs; done).
  destruct Hs as [Hs|Hs]; rewrite Hs in *; cbn in E; injection E as <-; split; try done; lia.
Qed.

Lemma GetBIP155Network_some a :
  addr_ok a -> m_net a <> NET_INTERNAL -> exists net, GetBIP155Network a = Some net.
Proof.
  intros Hok Hi. pose proof (size_cases a Hok) as Hs. unfold GetBIP155Network.
  destruct (m_net a); try done; eauto.
  destruct Hs as [Hs|Hs]; rewrite Hs; cbn; eauto.
Qed.

Lemma v2_round_trip a :
  addr_ok a -> clean a ->
  exists bytes, SerializeV2 a = Some bytes /\ bytes_ok bytes /\ reads_as UnserializeV2 bytes (with_scope 0 a).
Proof.
  intros Hok Hclean. unfold SerializeV2, IsInternal, is_net.
  destruct (decide (m_net a = NET_INTERNAL)) as [Hi|Hi].
  - rewrite bool_decide_eq_true_2 by done. destruct (v1_round_trip a a Hok Hclean) as (arr & E & Hl & Hb & _).
    rewrite E. cbn [mbind option_bind]. eexists. split; [done|]. split; [by repeat constructor|].
    pose proof (size_cases a Hok) as Hs. rewrite Hi in Hs. unfold SerializeV1Array in E. rewrite Hi in E.
    rewrite assert_true in E by (apply bool_decide_eq_true; sizes). injection E as <-.
    eapply reads_as_bind; [apply reads_as_byte|].
    eapply reads_as_bind; [apply size_reads; unfold Compact.MAX_SIZE; sizes|].
    eapply reads_as_map; [apply reads_as_bytes; by rewrite Hl|]. intros s. cbn [mret reader_ret].
    change (253 :: _) with (INTERNAL_IN_IPV6_PREFIX ++ m_addr a).
    rewrite HasPrefix_app. change (bool_decide (NET_IPV6 = NET_IPV6)) with true. cbn [negb].
    rewrite (drop_app_length' INTERNAL_IN_IPV6_PREFIX), (take_ge (m_addr a)) by (done || sizes).
    unfold with_scope. by rewrite Hi.
  - rewrite bool_decide_eq_false_2 by done. destruct (GetBIP155Network_some a Hok Hi) as [net E]. rewrite E.
    destruct (founding_size a net Hok Hi E) as (Hk & Hnet & Hlen).
    cbn [mbind option_bind]. eexists. split; [done|]. destruct Hok as [Hb Hs].
    assert (WriteCompactSize (Zlen (m_addr a)) = [Zlen (m_addr a)]) as Ew.
    { unfold WriteCompactSize. rewrite (proj2 (Z.ltb_lt _ _)) by lia. by rewrite u8_id by (unfold byte_ok; lia). }
    rewrite Ew. split; [constructor; [unfold byte_ok; lia|]; constructor; [unfold byte_ok; lia|done]|].
    rewrite <-Ew. eapply reads_as_bind; [apply reads_as_byte|].
    eapply reads_as_bind; [apply size_reads; unfold Compact.MAX_SIZE; lia|].
    rewrite (proj2 (Z.ltb_ge _ _)) by (unfold MAX_ADDRV2_SIZE; lia). rewrite Hk.
    eapply reads_as_map; [apply reads_as_bytes; unfold Zlen; lia|]. intros s. cbn [mret reader_ret].
    do 2 f_equal. unfold with_scope. destruct (decide (m_net a = NET_IPV6)) as [H6|H6].
    + rewrite bool_decide_eq_true_2 by done. destruct (Hclean H6) as (H1 & H2 & H3). rewrite H1, H2, H3, H6. done.
    + by rewrite bool_decide_eq_false_2 by done.
Qed.
End NetAddrFacts.

Module PrefixFacts.
Import NetAddr NetAddrFacts.

(** ** Leading bits of bytes *)

Definition bits (l : list Z) : list bool := flat_map byte_bits l.

Definition agree (k : nat) (x y : Z) : Prop :=
  forall i, (i < k)%nat -> Z.testbit x (7 - Z.of_nat i) = Z.testbit y (7 - Z.of_nat i).

Lemma length_byte_bits b : length (byte_bits b) = 8%nat.
Proof. done. Qed.

Lemma length_bits l : length (bits l) = (8 * length l)%nat.
Proof. unfold bits. induction l as [|b l IH]; [done|]. cbn [flat_map]. rewrite length_app, IH, length_byte_bits. cbn. lia. Qed.

Lemma agree_bits k x y : (k <= 8)%nat -> take k (byte_bits x) = take k (byte_bits y) <-> agree k x y.
Proof.
  intros Hk. unfold byte_bits. rewrite !firstn_map, !take_seq, Nat.min_l, map_ext_in_iff by lia.
  unfold agree. split; intros H i Hi; apply H; [apply in_seq|apply in_seq in Hi]; lia.
Qed.

Lemma agree_8 x y : byte_ok x -> byte_ok y -> agree 8 x y -> x = y.
Proof.
  intros Hx Hy Ha. apply Z.bits_inj'. intros j Hj. destruct (decide (j < 8)).
  - replace j with (7 - Z.of_nat (Z.to_nat (7 - j))) by lia. apply Ha. lia.
  - rewrite !(is_u_testbit 8) by (unfold byte_ok, is_u in *; lia). done.
Qed.

Lemma ones_bit n j : 0 <= n -> Z.testbit (Z.shiftl 1 n - 1) j = (0 <=? j) && (j <? n).
Proof.
  intros Hn. replace (Z.shiftl 1 n - 1) with (Z.ones n) by (rewrite Z.ones_equiv, Z.shiftl_1_l; lia).
  by apply Z.testbit_ones.
Qed.

(** Setting the other bits of a byte keeps its leading ones. *)
Lemma lor_agree k x y :
  (k <= 8)%nat -> byte_ok x -> byte_ok y ->
  let m := Z.shiftl 1 (8 - Z.of_nat k) - 1 in Z.lor x m = Z.lor y m <-> agree k x y.
Proof.
  intros Hk Hx Hy m. split.
  - intros E i Hi. apply (f_equal (fun z => Z.testbit z (7 - Z.of_nat i))) in E.
    rewrite !Z.lor_spec in E. unfold m in E. rewrite ones_bit in E by lia.
    rewrite (proj2 (Z.ltb_ge (7 - Z.of_nat i) _)), andb_false_r, !orb_false_r in E by lia. done.
  - intros Ha. apply Z.bits_inj'. intros j Hj. rewrite !Z.lor_spec. unfold m. rewrite ones_bit by lia.
    destruct (Z.ltb_spec j (8 - Z.of_nat k)).
    + rewrite (proj2 (Z.leb_le _ _)) by lia. by rewrite !orb_true_r.
    + f_equal. destruct (decide (j < 8)).
      * replace j with (7 - Z.of_nat (Z.to_nat (7 - j))) by lia. apply Ha. lia.
      * rewrite !(is_u_testbit 8) by (unfold byte_ok, is_u in *; lia). done.
Qed.

(** Clearing them does, too. *)
Lemma mask_bit k j :
  (k <= 8)%nat -> 0 <= j < 8 -> Z.testbit (u8 (Z.shiftl 0xFF (8 - Z.of_nat k))) j = (8 - Z.of_nat k <=? j).
Proof.
  intros Hk Hj. unfold u8. rewrite Z.mod_pow2_bits_low, Z.shiftl_spec by lia.
  change 255 with (Z.ones 8). destruct (Z.leb_spec (8 - Z.of_nat k) j).
  - apply Z.ones_spec_low. lia.
  - apply Z.testbit_neg_r. lia.
Qed.

Lemma land_agree k x y :
  (k <= 8)%nat -> let m := u8 (Z.shiftl 0xFF (8 - Z.of_nat k)) in
  Z.land x m = Z.land y m <-> agree k x y.
Proof.
  intros Hk m. split.
  - intros E i Hi. apply (f_equal (fun z => Z.testbit z (7 - Z.of_nat i))) in E.
    rewrite !Z.land_spec in E. unfold m in E. rewrite mask_bit, (proj2 (Z.leb_le _ _)), !andb_true_r in E by lia. done.
  - intros Ha. apply Z.bits_inj'. intros j Hj. rewrite !Z.land_spec. destruct (decide (j < 8)).
    + unfold m. rewrite mask_bit by lia. destruct (Z.leb_spec (8 - Z.of_nat k) j); [|by rewrite !andb_false_r].
      f_equal. replace j with (7 - Z.of_nat (Z.to_nat (7 - j))) by lia. apply Ha. lia.
    + replace (Z.testbit m j) with false; [by rewrite !andb_false_r|]. symmetry. apply (is_u_testbit 8); [lia| |lia].
      apply u8_range.
Qed.

(** ** Prefixes of addresses *)

Lemma bits_cons_split n x l :
  take n (bits (x :: l)) = take n (byte_bits x) ++ take (n - 8) (bits l).
Proof. cbn [bits flat_map]. by rewrite take_app, length_byte_bits. Qed.

Lemma take_bits_eq n x l1 y l2 :
  take n (bits (x :: l1)) = take n (bits (y :: l2)) <->
  take n (byte_bits x) = take n (byte_bits y) /\ take (n - 8) (bits l1) = take (n - 8) (bits l2).
Proof.
  rewrite !bits_cons_split. split; [|by intros [-> ->]].
  intros E. apply app_inj_1 in E; [done|]. rewrite !length_take, !length_byte_bits. done.
Qed.

(** What [push_prefix] appends. *)
Fixpoint pack (n : nat) (l : list Z) : list Z :=
  match l with
  | [] => []
  | b :: l =>
      if decide (n = 0)%nat then []
      else if decide (n < 8)%nat then [Z.lor b (Z.shiftl 1 (8 - Z.of_nat n) - 1)]
      else b :: pack (n - 8) l
  end.

Lemma pack_spec l : forall n, (n <= 8 * length l)%nat ->
  pack n l = take (n / 8) l ++
    (if (0 <? n mod 8)%nat then [Z.lor (rd l (n / 8)) (Z.shiftl 1 (8 - Z.of_nat (n mod 8)) - 1)] else []).
Proof.
  induction l as [|b l IH]; intros n Hn; cbn [length] in Hn.
  { replace n with 0%nat by lia. done. }
  cbn [pack]. destruct (decide (n = 0)%nat) as [->|Hn0]; [done|]. destruct (decide (n < 8)%nat).
  - rewrite Nat.div_small, Nat.mod_small by lia. by rewrite (proj2 (Nat.ltb_lt _ _)) by lia.
  - rewrite IH by lia.
    assert (n / 8 = S ((n - 8) / 8))%nat as -> by (replace n with (n - 8 + 1 * 8)%nat at 1 by lia; rewrite Nat.div_add by lia; lia).
    assert (n mod 8 = (n - 8) mod 8)%nat as -> by (replace n with (n - 8 + 1 * 8)%nat at 1 by lia; by rewrite Nat.Div0.mod_add).
    done.
Qed.

Lemma push_prefix_pack a v n :
  (n <= 8 * length (m_addr a))%nat -> push_prefix a v n = Some (v ++ pack n (m_addr a)).
Proof.
  intros Hn. unfold push_prefix. rewrite pack_spec by done. destruct (Nat.ltb_spec 0 (n mod 8)).
  - rewrite assert_true; [by rewrite app_assoc|]. apply Nat.ltb_lt.
    pose proof (Nat.div_mod_eq n 8). lia.
  - by rewrite app_nil_r.
Qed.

Lemma length_pack n l : (n <= 8 * length l)%nat -> length (pack n l) = ((n + 7) / 8)%nat.
Proof.
  revert n. induction l as [|b l IH]; intros n Hn; cbn [length] in Hn.
  { by replace n with 0%nat by lia. }
  cbn [pack]. destruct (decide (n = 0)%nat) as [->|Hn0]; [done|]. destruct (decide (n < 8)%nat).
  - replace (n + 7)%nat with (n - 1 + 1 * 8)%nat by lia. rewrite Nat.div_add, Nat.div_small by lia. done.
  - cbn [length]. rewrite IH by lia. replace (n + 7)%nat with (n - 8 + 7 + 1 * 8)%nat by lia.
    rewrite Nat.div_add by lia. lia.
Qed.

Lemma pack_bits l1 : forall l2 n,
  bytes_ok l1 -> bytes_ok l2 -> (n <= 8 * length l1)%nat -> (n <= 8 * length l2)%nat ->
  pack n l1 = pack n l2 <-> take n (bits l1) = take n (bits l2).
Proof.
  induction l1 as [|x l1 IH]; intros [|y l2] n H1 H2 Hn1 Hn2; cbn [length] in *;
    [done|by replace n with 0%nat by lia|by replace n with 0%nat by lia|].
  inversion H1 as [|?? Hx H1']; inversion H2 as [|?? Hy H2']; subst. cbn [pack].
  destruct (decide (n = 0)%nat) as [->|Hn0]; [by rewrite !take_0|]. rewrite take_bits_eq.
  destruct (decide (n < 8)%nat).
  - rewrite agree_bits, <-lor_agree by (done || lia). replace (n - 8)%nat with 0%nat by lia. rewrite !take_0.
    split; [by intros [= ->]|by intros [-> _]].
  - rewrite (take_ge (byte_bits x)), (take_ge (byte_bits y)) by (rewrite length_byte_bits; lia).
    rewrite <-IH by (done || lia). split.
    + by intros [= -> ->].
    + intros [E ->]. f_equal. apply agree_8; [done..|]. apply agree_bits; [lia|]. by rewrite E.
Qed.
End PrefixFacts.

Module NetAddrTheorems.
Import NetAddr NetAddrFacts PrefixFacts.

(** ** What is read is well-formed *)

Lemma founding_known net size n : SetNetFromBIP155Network net size = Known n -> size_ok n (Z.to_nat size) = true /\ n <> NET_INTERNAL.
Proof.
  unfold SetNetFromBIP155Network. cbv zeta.
  repeat (destruct (net =? _);
    [destruct (size =? Z.of_nat _) eqn:E; [|done]; apply Z.eqb_eq in E as ->; intros [= <-]; rewrite Nat2Z.id; done|]).
  done.
Qed.

Lemma v2_well_formed s a rest :
  bytes_ok s -> UnserializeV2 s = Some (a, rest) -> addr_ok a /\ clean a.
Proof.
  intros Hs E. unfold UnserializeV2 in E. apply reader_bind_inv in E as (net & s1 & E1 & E).
  destruct s as [|b s]; [done|]. injection E1 as -> <-. inversion Hs as [|?? _ Hs']; subst.
  apply reader_bind_inv in E as (size & s2 & E2 & E). apply size_only in E2 as [-> Hsize]; [|done].
  apply bytes_ok_app in Hs' as [_ Hs2].
  destruct (MAX_ADDRV2_SIZE <? size); [done|]. destruct (SetNetFromBIP155Network net size) as [|n|] eqn:En; [done| |].
  - apply reader_bind_inv in E as (addr & s3 & E3 & E). apply read_bytes_inv in E3 as (_ & Hl & Hb & _); [|done].
    apply founding_known in En as [Hsz Hint]. injection E as <- <-.
    destruct (bool_decide (n = NET_IPV6)) eqn:H6; cbn [negb].
    2: { split; [split; [done|cbn; by rewrite Hl]|]. intros H. cbn in H. by rewrite bool_decide_eq_true_2 in H6. }
    apply bool_decide_eq_true in H6 as ->.
    destruct (HasPrefix addr INTERNAL_IN_IPV6_PREFIX) eqn:P3.
    { split; [split; cbn [m_addr m_net]; [by apply bytes_ok_take, bytes_ok_drop|]|by intros ?].
      cbn in Hsz. apply bool_decide_eq_true in Hsz. cbn. rewrite length_take, length_drop.
      apply bool_decide_eq_true. sizes. }
    destruct (HasPrefix addr IPV4_IN_IPV6_PREFIX) eqn:P1; [apply clean_unspecified|].
    destruct (HasPrefix addr TORV2_IN_IPV6_PREFIX) eqn:P2; [apply clean_unspecified|].
    split; [split; [done|cbn; by rewrite Hl]|by intros _].
  - apply reader_bind_inv in E as (u & s3 & E3 & E). injection E as <- <-. apply clean_unspecified.
Qed.

Lemma read_well_formed v2 this s a rest :
  bytes_ok s -> Unserialize v2 this s = Some (a, rest) -> addr_ok a /\ clean a.
Proof.
  intros Hs E. destruct v2; [by eapply v2_well_formed|]. cbn in E. unfold UnserializeV1 in E.
  destruct (read_bytes ADDR_IPV6_SIZE s) as [[arr s']|] eqn:Er; [|done]. cbn [mbind option_bind] in E.
  apply read_bytes_inv in Er as (_ & Hl & Hb & _); [|done].
  destruct (v1_total this arr Hb Hl) as (a' & Ea & Hok & Hclean & _). rewrite Ea in E. by injection E as <- <-.
Qed.

(** ** No assertion fails *)

Lemma routable_linked a : HasLinkedIPv4 a = true -> exists ipv4, GetLinkedIPv4 a = Some ipv4.
Proof.
  unfold HasLinkedIPv4, GetLinkedIPv4. rewrite andb_true_iff, !orb_true_iff. intros [_ H].
  destruct (IsIPv4 a); [eauto|]. destruct (IsRFC6145 a), (IsRFC6052 a); cbn [orb]; eauto.
  destruct (IsRFC3964 a); eauto. destruct (IsRFC4380 a); eauto. naive_solver.
Qed.

Lemma ip_bits_some a :
  GetNetClass a = NET_IPV4 \/ GetNetClass a = NET_IPV6 -> exists b, ip_bits a = Some b /\ Zlen b = 128.
Proof.
  intros Hc. unfold ip_bits. destruct (HasLinkedIPv4 a) eqn:HL.
  - destruct (routable_linked a HL) as [ipv4 ->]. eexists. split; [done|]. done.
  - unfold GetNetClass in Hc. rewrite HL in Hc. destruct (IsInternal a); [naive_solver|].
    destruct (IsRoutable a) eqn:HR; [|naive_solver]. cbn [negb] in Hc.
    unfold HasLinkedIPv4 in HL. rewrite HR in HL. cbn [andb] in HL.
    rewrite !orb_false_iff in HL. destruct HL as [[[[H4 _] _] _] _].
    destruct Hc as [Hc|Hc]; [unfold IsIPv4, is_net in H4; by rewrite bool_decide_eq_true_2 in H4|].
    assert (IsIPv6 a = true) as -> by (by apply bool_decide_eq_true).
    eexists. split; [done|]. done.
Qed.

Definition map_checked (asmap : list bool) : Prop :=
  asmap = [] \/ (Zlen asmap < 2 ^ 32 /\ SanityCheckASMap asmap 128 = true).

Lemma GetMappedAS_some a asmap : map_checked asmap -> exists asn, GetMappedAS a asmap = Some asn.
Proof.
  intros Hm. unfold GetMappedAS. destruct (Zlen asmap =? 0) eqn:E; [eauto|]. cbn [orb].
  destruct Hm as [->|[Hl Hs]]; [done|].
  destruct (negb _ && negb _) eqn:Hc; [eauto|]. apply andb_false_iff in Hc. rewrite !negb_false_iff, !bool_decide_eq_true in Hc.
  destruct (ip_bits_some a Hc) as (b & -> & Hb). cbn [mbind option_bind].
  destruct (AsMapTheorems.sanity_loop_sound asmap Hl _ _ Hs) as (t & pad & (_ & _ & Hr) & _);
    [split; [done|split; [cbn; lia|constructor]]|].
  cbn in Hr. unfold Interpret, Zlen in *. rewrite Hb. change (u8 128) with (Z.of_nat (Z.to_nat 128)).
  rewrite (Hr b 0 (length asmap)) by lia. eauto.
Qed.

Lemma GetGroup_some a asmap : addr_ok a -> map_checked asmap -> exists g, GetGroup a asmap = Some g.
Proof.
  intros Hok Hm. pose proof (size_cases a Hok) as Hs. unfold GetGroup. destruct (GetMappedAS_some a asmap Hm) as [asn ->].
  cbn [mbind option_bind]. destruct (negb _); [eauto|].
  destruct (IsLocal a); [rewrite push_prefix_pack by lia; eauto|].
  destruct (IsInternal a) eqn:Hi.
  { apply bool_decide_eq_true in Hi. rewrite Hi in Hs. rewrite push_prefix_pack by sizes. eauto. }
  destruct (negb (IsRoutable a)); [rewrite push_prefix_pack by lia; eauto|].
  destruct (HasLinkedIPv4 a) eqn:HL; [destruct (routable_linked a HL) as [? ->]; eauto|].
  destruct (IsTor a || IsI2P a || IsCJDNS a).
  { rewrite push_prefix_pack; [eauto|]. destruct (m_net a); naive_solver lia. }
  assert (IsHeNet a = true -> m_net a = NET_IPV6) as HH
    by (unfold IsHeNet; rewrite andb_true_iff; intros [H _]; by apply bool_decide_eq_true in H).
  destruct (IsHeNet a); [rewrite push_prefix_pack by (rewrite HH in Hs by done; lia); eauto|].
  rewrite push_prefix_pack; [eauto|]. destruct (m_net a); naive_solver lia.
Qed.

Lemma GetAddrBytes_some a : addr_ok a -> clean a -> exists k, GetAddrBytes a = Some k.
Proof.
  intros Hok Hc. unfold GetAddrBytes. destruct (v1_round_trip a a Hok Hc) as (arr & -> & _).
  pose proof (size_cases a Hok) as Hs. unfold IsAddrV1Compatible. destruct (m_net a); try done; cbn [mbind option_bind]; try by eauto.
  destruct (bool_decide _); eauto.
Qed.

(** [C37] Any bytes that a peer sends or a file holds, read as an address in either
    format, give either an exception or a well-formed address: its length fits its
    network and it is no disguised IPv4, Tor or internal address.  With a map of
    systems that passed the check, or none, no assertion fails when such an address
    is grouped, keyed or written again in either format. *)
Theorem received_address_safe v2 this s a rest asmap p :
  bytes_ok s -> Unserialize v2 this s = Some (a, rest) -> map_checked asmap ->
  addr_ok a /\ clean a /\
  (exists b, Serialize true a = Some b) /\ (exists b, Serialize false a = Some b) /\
  (exists g, GetGroup a asmap = Some g) /\ (exists k, GetKey (Service a p) = Some k).
Proof.
  intros Hs E Hm. destruct (read_well_formed _ _ _ _ _ Hs E) as [Hok Hc].
  destruct (v2_round_trip a Hok Hc) as (b2 & E2 & _). destruct (v1_round_trip a a Hok Hc) as (b1 & E1 & _).
  destruct (GetGroup_some a asmap Hok Hm) as [g Eg]. destruct (GetAddrBytes_some a Hok Hc) as [k Ek].
  unfold GetKey. cbn [ip]. rewrite Ek. cbn [mbind option_bind]. split; [done|]. split; [done|]. eauto 10.
Qed.

(** ** Round trips *)

Lemma be_num_2 p : 0 <= p < 2 ^ 16 -> be_num (be_bytes 2 p) = p.
Proof. intros Hp. rewrite be_num_be_bytes. by apply Z.mod_small. Qed.

Definition service_ok (s : CService) : Prop := addr_ok (ip s) /\ clean (ip s) /\ 0 <= port s < 2 ^ 16.

(** What an address is after it went through a stream: the scope is lost, and a
    network that the old format does not know is read as the unspecified address. *)
Definition sent (v2 : bool) (this a : CNetAddr) : CNetAddr := if v2 then with_scope 0 a else v1_read this a.

Lemma service_reads v2 this s :
  service_ok s ->
  exists b, SerializeService v2 s = Some b /\
    reads_as (UnserializeService v2 this) b (Service (sent v2 (ip this) (ip s)) (port s)).
Proof.
  intros (Hok & Hc & Hp). unfold SerializeService, UnserializeService.
  assert (exists b, Serialize v2 (ip s) = Some b /\ reads_as (Unserialize v2 (ip this)) b (sent v2 (ip this) (ip s))) as (b & -> & Hr).
  { destruct v2; cbn [Serialize Unserialize sent].
    - destruct (v2_round_trip _ Hok Hc) as (b & E & _ & Hr). eauto.
    - destruct (v1_round_trip (ip this) _ Hok Hc) as (arr & E & Hl & _ & Hr). exists arr. split; [done|].
      intros rest. unfold UnserializeV1. rewrite (reads_as_bytes arr 16) by done. cbn [mbind option_bind]. by rewrite Hr. }
  cbn [mbind option_bind]. eexists. split; [done|]. eapply reads_as_bind; [done|].
  eapply reads_as_map; [apply reads_as_bytes; by rewrite length_be_bytes|].
  intros r. by rewrite be_num_2.
Qed.

Definition address_ok (a : CAddress) : Prop :=
  service_ok (service a) /\ is_u 64 (nServices a) /\ is_u 32 (nTime a).

Lemma le_reads n x : 0 <= x < 2 ^ (8 * Z.of_nat n) -> reads_as (l ← read_bytes n; mret (le_num l)) (le_bytes n x) x.
Proof.
  intros Hx. eapply reads_as_map; [apply reads_as_bytes; by rewrite length_le_bytes|].
  intros s. rewrite le_num_le_bytes, Z.mod_small by done. done.
Qed.

(** Peers on the wire and on disk: a peer whose address is well-formed is read
    back with its time, services and port, in the format that the stream asks for; the
    formats keep the address itself, except that the old one turns the networks it
    does not know into the unspecified address, which is not valid. *)
Theorem peer_round_trip t this a :
  address_ok a ->
  exists b, SerializeAddress t a = Some b /\
    reads_as (UnserializeAddress t this) b
      (Address (Service (sent (v2_flag t) (ip (service this)) (ip (service a))) (port (service a))) (nServices a)
         (if to_disk t || negb (init_proto t) then nTime a else TIME_INIT)).
Proof.
  intros (Hs & Hsv & Ht). unfold SerializeAddress, UnserializeAddress.
  destruct (service_reads (v2_flag t) (service this) (service a) Hs) as (b & -> & Hr). cbn [mbind option_bind].
  eexists. split; [done|]. unfold is_u in *.
  eapply (reads_as_bind _ _ _ _ (v2_flag t)).
  { destruct (to_disk t); [|apply reads_as_ret]. eapply reads_as_map; [apply reads_as_bytes; by rewrite length_le_bytes|].
    intros s. by destruct (v2_flag t). }
  eapply (reads_as_bind _ _ _ _ (if to_disk t || negb (init_proto t) then nTime a else TIME_INIT)).
  { destruct (to_disk t || negb (init_proto t)); [by apply le_reads|apply reads_as_ret]. }
  eapply (reads_as_bind _ _ _ _ (nServices a)).
  { destruct (v2_flag t); [by apply compact_size_reads|by apply le_reads]. }
  eapply reads_as_map; [exact Hr|]. done.
Qed.
End NetAddrTheorems.

Module GroupTheorems.
Import NetAddr NetAddrFacts PrefixFacts NetAddrTheorems.

(** ** Groups without a map of systems *)

(** How many bits of which bytes make the group of an address. *)
Definition group_source (a : CNetAddr) : nat * list Z :=
  if IsInternal a then (80%nat, m_addr a)
  else if negb (IsRoutable a) then (0%nat, m_addr a)
  else if HasLinkedIPv4 a then (16%nat, be_bytes 4 (default 0 (GetLinkedIPv4 a)))
  else if IsTor a || IsI2P a || IsCJDNS a then (4%nat, m_addr a)
  else if IsHeNet a then (36%nat, m_addr a)
  else (32%nat, m_addr a).

(** The class of the network and the leading bits. *)
Definition group_bits (a : CNetAddr) : Network * list bool :=
  (GetNetClass a, take (group_source a).1 (bits (group_source a).2)).

Lemma local_unroutable a : IsLocal a = true -> IsRoutable a = false /\ IsInternal a = false.
Proof.
  intros H. unfold IsRoutable. rewrite H, !orb_true_r, andb_false_r. split; [done|].
  unfold IsLocal in H. apply orb_true_iff in H as [H|H]; apply andb_true_iff in H as [H _];
    apply bool_decide_eq_true in H; apply bool_decide_eq_false; by rewrite H.
Qed.

Lemma linked_group ipv4 :
  [Z.land (Z.shiftr ipv4 24) 0xFF; Z.land (Z.shiftr ipv4 16) 0xFF] = pack 16 (be_bytes 4 ipv4).
Proof.
  rewrite !land_255, !Z.shiftr_div_pow2 by lia. cbn -[Z.div Z.modulo Z.pow].
  rewrite !Z.div_div by lia. done.
Qed.

Lemma he_ipv6 a : IsHeNet a = true -> m_net a = NET_IPV6.
Proof. unfold IsHeNet. rewrite andb_true_iff. intros [H _]. by apply bool_decide_eq_true in H. Qed.

(** The bytes suffice, and the class says how many bits there are. *)
Lemma source_fits a :
  addr_ok a ->
  bytes_ok (group_source a).2 /\ ((group_source a).1 <= 8 * length (group_source a).2)%nat /\
  match GetNetClass a with
  | NET_INTERNAL => (group_source a).1 = 80%nat
  | NET_UNROUTABLE => (group_source a).1 = 0%nat
  | NET_IPV4 => (group_source a).1 = 16%nat
  | NET_ONION | NET_I2P | NET_CJDNS => (group_source a).1 = 4%nat
  | NET_IPV6 => (group_source a).1 = 36%nat \/ (group_source a).1 = 32%nat
  | NET_MAX => False
  end.
Proof.
  intros Hok. pose proof (size_cases a Hok) as Hs. pose proof (proj1 Hok) as Hb. unfold group_source, GetNetClass.
  destruct (IsInternal a) eqn:Hi.
  { apply bool_decide_eq_true in Hi. rewrite Hi in Hs. cbn. rewrite Hs. repeat split; [done|lia]. }
  destruct (IsRoutable a) eqn:HR; cbn [negb]; [|cbn; repeat split; [done|lia]].
  destruct (HasLinkedIPv4 a) eqn:HL; [cbn [fst snd]; rewrite length_be_bytes; repeat split; [apply be_bytes_ok|lia]|].
  assert (m_net a <> NET_IPV4) as H4.
  { intros E. unfold HasLinkedIPv4 in HL. rewrite HR in HL. unfold IsIPv4, is_net in HL.
    rewrite bool_decide_eq_true_2 in HL by done. done. }
  unfold IsTor, IsI2P, IsCJDNS, IsInternal, is_net in *.
  pose proof (he_ipv6 a) as H6.
  destruct (m_net a); try done;
    repeat match goal with
    | |- context [bool_decide (?m = ?n)] =>
        let r := eval vm_compute in (bool_decide (m = n)) in change (bool_decide (m = n)) with r
    end; cbn [orb fst snd]; try (split; [done|split; [lia|done]]).
  destruct (IsHeNet a); cbn [fst snd]; (split; [done|split; [lia|auto]]).
Qed.

Lemma GetGroup_form a :
  addr_ok a -> GetGroup a [] = Some (net_num (GetNetClass a) :: pack (group_source a).1 (group_source a).2).
Proof.
  intros Hok. destruct (source_fits a Hok) as (_ & Hn & _). unfold GetGroup. cbn [GetMappedAS Zlen length Z.of_nat mbind option_bind].
  change (GetMappedAS a []) with (Some 0). cbn [mbind option_bind Z.eqb negb].
  unfold group_source in *. destruct (IsLocal a) eqn:HL.
  { destruct (local_unroutable a HL) as [HR HI]. rewrite HI, HR in *. cbn [negb fst snd] in *. by rewrite push_prefix_pack. }
  destruct (IsInternal a); [by rewrite push_prefix_pack|].
  destruct (negb (IsRoutable a)); [by rewrite push_prefix_pack|].
  destruct (HasLinkedIPv4 a) eqn:Hlk.
  { destruct (routable_linked a Hlk) as [ipv4 ->]. cbn [mbind option_bind fst snd]. rewrite linked_group. done. }
  destruct (_ || _ || _); [by rewrite push_prefix_pack|].
  destruct (IsHeNet a); by rewrite push_prefix_pack.
Qed.

Lemma net_num_inj m n : net_num m = net_num n -> m = n.
Proof. by destruct m, n. Qed.

(** Groups, when no map of systems is loaded: two well-formed addresses are in one
    group exactly when they are of one class (the network, or IPv4 for IPv6 addresses
    that embed an IPv4 address) and have the same leading bits: 16 of the IPv4
    address, 4 of a hidden service, 32 of an IPv6 address or 36 from one provider, all
    of an internal name; addresses that are not routed are all in one group. *)
Theorem same_group_exact a b :
  addr_ok a -> addr_ok b ->
  (exists g, GetGroup a [] = Some g) /\ (GetGroup a [] = GetGroup b [] <-> group_bits a = group_bits b).
Proof.
  intros Ha Hb. rewrite (GetGroup_form a Ha), (GetGroup_form b Hb). split; [eauto|].
  destruct (source_fits a Ha) as (Ba & Na & Ca). destruct (source_fits b Hb) as (Bb & Nb & Cb).
  unfold group_bits. set (na := (group_source a).1) in *. set (nb := (group_source b).1) in *.
  assert (GetNetClass a = GetNetClass b -> ((na + 7) / 8 = (nb + 7) / 8)%nat -> na = nb) as Hn.
  { intros Ec El. rewrite Ec in Ca. destruct (GetNetClass b); try (by rewrite Ca, Cb); try done.
    destruct Ca as [Ca|Ca], Cb as [Cb|Cb]; rewrite Ca, Cb in *; done. }
  split.
  - intros [= Ec Ep]. apply net_num_inj in Ec. pose proof (f_equal length Ep) as El.
    rewrite !length_pack in El by done. specialize (Hn Ec El). rewrite Ec, Hn in *. f_equal. by apply pack_bits.
  - intros [= Ec Ep]. assert (na = nb) as E.
    { apply Hn; [done|]. apply (f_equal length) in Ep. rewrite !length_take, !length_bits, !Nat.min_l in Ep by done. by rewrite Ep. }
    rewrite Ec, E in *. do 2 f_equal. by apply pack_bits.
Qed.
End GroupTheorems.

Module SubNetTheorems.
Import NetAddr NetAddrFacts PrefixFacts.

(** ** Subnets *)

Lemma length_mask_loop l : forall n, length (mask_loop n l) = length l.
Proof. induction l as [|b l IH]; intros n; cbn; [done|]. by rewrite IH. Qed.

Lemma match_masked l2 : forall l1 n z,
  length l1 = length l2 ->
  match_bytes l2 (mask_loop (Z.of_nat n) l1 ++ z) (zip_with Z.land l1 (mask_loop (Z.of_nat n) l1)) =
    bool_decide (take n (bits l2) = take n (bits l1)).
Proof.
  induction l2 as [|y l2 IH]; intros [|x l1] n z Hl; try done.
  { symmetry. by apply bool_decide_eq_true. }
  cbn [mask_loop app zip_with match_bytes]. injection Hl as Hl.
  set (k := if Z.of_nat n <? 8 then Z.of_nat n else 8).
  assert (k = Z.of_nat (Nat.min n 8) /\ Z.of_nat n - k = Z.of_nat (n - 8)) as [-> Ek].
  { unfold k. destruct (Z.ltb_spec (Z.of_nat n) 8); lia. }
  rewrite Ek, IH by done.
  assert (take n (byte_bits y) = take (Nat.min n 8) (byte_bits y) /\ take n (byte_bits x) = take (Nat.min n 8) (byte_bits x)) as [E1 E2].
  { destruct (decide (n <= 8)%nat); [by rewrite Nat.min_l|].
    rewrite Nat.min_r, !take_ge by (rewrite ?length_byte_bits; lia). done. }
  apply eq_true_iff_eq. rewrite andb_true_iff, Z.eqb_eq, !bool_decide_eq_true, take_bits_eq, E1, E2.
  rewrite agree_bits, land_agree by lia. done.
Qed.

Definition can_subnet (addr : CNetAddr) (mask : Z) : Prop :=
  (m_net addr = NET_IPV4 /\ mask <= 32) \/ (m_net addr = NET_IPV6 /\ mask <= 128).

#[export] Instance can_subnet_dec addr mask : Decision (can_subnet addr mask).
Proof. unfold can_subnet. apply _. Defined.

Lemma netmask_prefix m : (length m <= 16)%nat -> exists z, memcpy_at (replicate 16 0) 0 m = m ++ z.
Proof. intros Hm. unfold memcpy_at. cbn. eauto. Qed.

(** Subnets given by an address and a number of bits: the subnet matches exactly
    the valid addresses of the same network that agree with the address in that many
    leading bits; with more bits than the network has, or on another network, it
    matches nothing.  No assertion fails. *)
Theorem subnet_match_exact addr mask a :
  addr_ok addr -> addr_ok a -> 0 <= mask <= 255 ->
  Match (CSubNet_bits addr mask) a =
    Some (bool_decide (can_subnet addr mask /\ IsValid a = true /\ m_net a = m_net addr /\
                       take (Z.to_nat mask) (bits (m_addr a)) = take (Z.to_nat mask) (bits (m_addr addr)))).
Proof.
  intros Hok Hoka Hm. unfold CSubNet_bits.
  destruct (_ || _) eqn:Hv.
  2: { cbn. f_equal. symmetry. apply bool_decide_eq_false. intros [Hc _].
       unfold IsIPv4, IsIPv6, is_net, ADDR_IPV4_SIZE, ADDR_IPV6_SIZE in Hv. rewrite orb_false_iff, !andb_false_iff, !bool_decide_eq_false, !Z.leb_gt in Hv.
       destruct Hc as [[H1 H2]|[H1 H2]]; destruct Hv as [[|] [|]]; (done || lia). }
  assert (can_subnet addr mask) as Hc.
  { unfold IsIPv4, IsIPv6, is_net, ADDR_IPV4_SIZE, ADDR_IPV6_SIZE in Hv. rewrite orb_true_iff, !andb_true_iff, !bool_decide_eq_true, !Z.leb_le in Hv.
    destruct Hv as [[H1 H2]|[H1 H2]]; [left|right]; split; (done || lia). }
  unfold Match. cbn [valid network netmask normalize m_net m_addr negb orb].
  destruct (IsValid a) eqn:Hva; cbn [negb orb].
  2: { f_equal. symmetry. apply bool_decide_eq_false. intros (_ & ? & _). done. }
  destruct (decide (m_net addr = m_net a)) as [En|En].
  2: { rewrite (bool_decide_eq_false_2 (m_net addr = m_net a)) by done. cbn [negb]. f_equal. symmetry. apply bool_decide_eq_false.
       intros (_ & _ & ? & _). congruence. }
  rewrite (bool_decide_eq_true_2 (m_net addr = m_net a)) by done. cbn [negb].
  pose proof (size_cases addr Hok) as Hs. pose proof (size_cases a Hoka) as Hsa. rewrite <-En in Hsa.
  assert (length (m_addr addr) = length (m_addr a) /\ (length (m_addr addr) <= 16)%nat /\ (m_net addr = NET_IPV4 \/ m_net addr = NET_IPV6)) as (Hl & H16 & H46).
  { destruct Hc as [[H _]|[H _]]; rewrite H in *; repeat split; (lia || auto). }
  assert (match m_net addr with NET_IPV4 | NET_IPV6 => True | _ => False end) as Hcase by (by destruct H46 as [->| ->]).
  assert (length (zip_with Z.land (m_addr addr) (mask_loop mask (m_addr addr))) = length (m_addr a)) as Hz.
  { rewrite length_zip_with, length_mask_loop. lia. }
  rewrite (assert_true (bool_decide _)) by (by apply bool_decide_eq_true).
  destruct (netmask_prefix (mask_loop mask (m_addr addr))) as [z ->]; [rewrite length_mask_loop; lia|].
  pose proof (match_masked (m_addr a) (m_addr addr) (Z.to_nat mask) z Hl) as Hmm. rewrite Z2Nat.id in Hmm by lia.
  rewrite Hmm. cbn [mbind option_bind].
  assert (bool_decide (take (Z.to_nat mask) (bits (m_addr a)) = take (Z.to_nat mask) (bits (m_addr addr))) =
    bool_decide (can_subnet addr mask /\ true = true /\ m_net a = m_net addr /\
      take (Z.to_nat mask) (bits (m_addr a)) = take (Z.to_nat mask) (bits (m_addr addr)))) as Hb
    by (apply bool_decide_ext; naive_solver).
  destruct (m_net addr); try done; by rewrite <-Hb.
Qed.
End SubNetTheorems.

Module NetmaskTheorems.
Import NetAddr NetAddrFacts PrefixFacts SubNetTheorems.

(** ** Subnets given by a mask *)

Lemma NetmaskBits_ok b :
  byte_ok b -> NetmaskBits b = -1 \/ (0 <= NetmaskBits b <= 8 /\ b = u8 (Z.shiftl 0xFF (8 - NetmaskBits b))).
Proof.
  intros Hb. refine (Zrange_check 256 (fun b => NetmaskBits b = -1 \/
    (0 <= NetmaskBits b <= 8 /\ b = u8 (Z.shiftl 0xFF (8 - NetmaskBits b)))) _ b Hb). vm_compute. done.
Qed.

Lemma NetmaskBits_mask k : 0 <= k < 9 -> NetmaskBits (u8 (Z.shiftl 0xFF (8 - k))) = k.
Proof. intros Hk. refine (Zrange_check 9 (fun k => NetmaskBits (u8 (Z.shiftl 0xFF (8 - k))) = k) _ k Hk). vm_compute. done. Qed.

Lemma mask_loop_length l1 : forall l2 n, length l1 = length l2 -> mask_loop n l1 = mask_loop n l2.
Proof. induction l1 as [|x l1 IH]; intros [|y l2] n Hl; try done. cbn. f_equal. apply IH. by injection Hl. Qed.

(** The mask of the first byte. *)
Lemma mask_head n : 0 <= n -> let k := if n <? 8 then n else 8 in 0 <= k < 9 /\ (k = 8 -> 8 <= n) /\ (k <> 8 -> n = k).
Proof. intros Hn k. unfold k. destruct (Z.ltb_spec n 8); lia. Qed.

Lemma netmask_zeros l : bytes_ok l -> netmask_loop true l = true <-> l = mask_loop 0 l.
Proof.
  induction 1 as [|b l Hb Hl IH]; [done|]. cbn [netmask_loop mask_loop].
  change (u8 (Z.shiftl 255 (8 - (if 0 <? 8 then 0 else 8)))) with 0. cbn [andb orb Z.ltb Z.compare Z.sub].
  destruct (NetmaskBits_ok b Hb) as [E|[Hk Eb]].
  { rewrite E. cbn. split; [done|]. intros [= ->]. done. }
  rewrite (proj2 (Z.eqb_neq (NetmaskBits b) (-1))) by lia. cbn [orb].
  destruct (Z.eqb_spec (NetmaskBits b) 0) as [E0|E0]; cbn [negb].
  - change (0 - 0) with 0. rewrite IH. rewrite E0 in Eb. change (u8 _) with 0 in Eb. subst b. split; [intros El; by f_equal|by intros [= El]].
  - split; [done|]. intros [= -> _]. done.
Qed.

Lemma netmask_prefixes l :
  bytes_ok l -> netmask_loop false l = true <-> exists n, 0 <= n <= 8 * Zlen l /\ l = mask_loop n l.
Proof.
  induction 1 as [|b l Hb Hl IH].
  { split; [exists 0; by unfold Zlen|done]. }
  cbn [netmask_loop]. rewrite TextFacts.Zlen_cons. destruct (NetmaskBits_ok b Hb) as [E|[Hk Eb]].
  { rewrite E. cbn. split; [done|]. intros (n & Hn & [= Eb _]). exfalso.
    destruct (mask_head n ltac:(lia)) as [Hk _]. rewrite Eb, NetmaskBits_mask in E by done. lia. }
  rewrite (proj2 (Z.eqb_neq (NetmaskBits b) (-1))) by lia. cbn [orb andb].
  destruct (Z.ltb_spec (NetmaskBits b) 8) as [H8|H8].
  - rewrite netmask_zeros by done. split.
    + intros El. exists (NetmaskBits b). pose proof (Zlen_nonneg l). split; [lia|].
      cbn [mask_loop]. rewrite (proj2 (Z.ltb_lt _ _) H8), Z.sub_diag, <-El, <-Eb. done.
    + intros (n & Hn & [= Eb' El]). destruct (mask_head n ltac:(lia)) as (Hkk & _ & Hne).
      set (k := if n <? 8 then n else 8) in *. rewrite Eb', NetmaskBits_mask in H8 by done.
      rewrite (Hne ltac:(lia)), Z.sub_diag in El. done.
  - assert (NetmaskBits b = 8) as E8 by lia. rewrite IH. split.
    + intros (n & Hn & El). exists (n + 8). split; [lia|]. cbn [mask_loop].
      rewrite (proj2 (Z.ltb_ge _ _)) by lia. rewrite E8 in Eb. replace (n + 8 - 8) with n by lia. by rewrite <-El, <-Eb.
    + intros (n & Hn & [= Eb' El]). destruct (mask_head n ltac:(lia)) as (Hkk & Hge & _).
      set (k := if n <? 8 then n else 8) in *. rewrite Eb', NetmaskBits_mask in E8 by done. rewrite E8 in *.
      exists (n - 8). specialize (Hge eq_refl). split; [lia|done].
Qed.

(** A mask is accepted exactly when its one bits come first, and then it means the
    subnet with that number of bits. *)
Lemma netmask_exact addr mask :
  addr_ok addr -> addr_ok mask -> m_net mask = m_net addr -> m_net addr = NET_IPV4 \/ m_net addr = NET_IPV6 ->
  (exists n, 0 <= n <= 8 * Zlen (m_addr addr) /\ m_addr mask = mask_loop n (m_addr mask) /\
     CSubNet_mask addr mask = Some (CSubNet_bits addr n)) \/
  ((forall n, 0 <= n <= 8 * Zlen (m_addr addr) -> m_addr mask <> mask_loop n (m_addr mask)) /\
   CSubNet_mask addr mask = Some no_subnet).
Proof.
  intros Hok Hokm En Hnet. pose proof (size_cases addr Hok) as Hs. pose proof (size_cases mask Hokm) as Hsm. rewrite En in Hsm.
  assert (length (m_addr mask) = length (m_addr addr) /\ (length (m_addr addr) <= 16)%nat) as [Hl H16]
    by (destruct Hnet as [H|H]; rewrite H in *; lia).
  unfold CSubNet_mask.
  assert ((IsIPv4 addr || IsIPv6 addr) && bool_decide (m_net addr = m_net mask) = true) as ->.
  { unfold IsIPv4, IsIPv6, is_net. rewrite (bool_decide_eq_true_2 (m_net addr = m_net mask)), andb_true_r by done.
    apply orb_true_iff. rewrite !bool_decide_eq_true. done. }
  assert (Zlen (m_addr mask) = Zlen (m_addr addr)) as Hz by (unfold Zlen; lia).
  pose proof (netmask_prefixes (m_addr mask) (proj1 Hokm)) as Hn. rewrite Hz in Hn.
  destruct (netmask_loop false (m_addr mask)).
  - left. destruct (proj1 Hn eq_refl) as (n & Hr & Em). exists n. split; [done|]. split; [done|].
    rewrite assert_true by (apply Nat.leb_le; lia). cbn [mbind option_bind]. unfold CSubNet_bits.
    assert ((IsIPv4 addr && (n <=? Z.of_nat ADDR_IPV4_SIZE * 8)) || (IsIPv6 addr && (n <=? Z.of_nat ADDR_IPV6_SIZE * 8)) = true) as ->.
    { unfold IsIPv4, IsIPv6, is_net. unfold Zlen in Hr. rewrite orb_true_iff, !andb_true_iff, !bool_decide_eq_true, !Z.leb_le.
      destruct Hnet as [H|H]; [left|right]; rewrite H in *; split; (done || sizes). }
    rewrite <-(mask_loop_length (m_addr mask) (m_addr addr)), <-Em by done. do 2 f_equal. unfold normalize. f_equal.
    destruct (netmask_prefix (m_addr mask)) as [z ->]; [lia|].
    rewrite <-(zip_with_take_r' _ (length (m_addr addr)) (m_addr addr) (m_addr mask ++ z)) by lia.
    by rewrite take_app_length' by done.
  - right. split; [|done]. intros n Hr Em. assert (false = true) as H; [|done]. apply Hn. eauto.
Qed.
End NetmaskTheorems.

Module HiddenTheorems.
Import NetAddr NetAddrFacts PrefixFacts NetAddrTheorems GroupTheorems SubNetTheorems TextFacts BaseFacts.

(** ** Texts of hidden services *)

Lemma base32_lengths l :
  bytes_ok l -> exists k, EncodeBase32 l true = EncodeBase32 l false ++ replicate k equals_sign /\
    8 * Zlen l <= 5 * Zlen (EncodeBase32 l false) < 8 * Zlen l + 5 /\
    Z.of_nat k < 8 /\ (Zlen (EncodeBase32 l false) + Z.of_nat k) mod 8 = 0.
Proof.
  intros Hl. unfold EncodeBase32, EncodeBase.
  destruct (convert_pad_spec 8 5 l) as (p & out & E & Hp & Hlen & _); [by split|exact Hl|].
  change (width base32) with 5. rewrite E. cbn [snd]. change (group base32) with 8.
  set (str := map _ out).
  destruct (pad_loop_spec (Z.to_nat 8) 8 str) as (k & -> & Hk & Hm); [done| |].
  { pose proof (Z.mod_pos_bound (Zlen str - 1) 8). lia. }
  exists k. assert (Zlen str = Zlen out) as Es by (unfold str, Zlen; by rewrite length_map). rewrite Es in *.
  repeat split; (done || lia).
Qed.

Lemma base32_no_nul l : bytes_ok l -> 0 ∉ EncodeBase32 l true.
Proof.
  intros Hl. unfold EncodeBase32.
  destruct (encode_form base32 _ lawful_base32 l Hl) as (val & k & -> & Hval & _).
  by apply (chars_no_nul base32 _ lawful_base32).
Qed.

Lemma valid_c_string s : 0 ∉ s -> ValidAsCString s = true.
Proof. intros Hs. unfold ValidAsCString. rewrite c_str_id by done. apply Z.eqb_refl. Qed.

Lemma text_no_nul_app s t : 0 ∉ s -> 0 ∉ t -> 0 ∉ s ++ t.
Proof. rewrite elem_of_app. naive_solver. Qed.

Section Texts.
Context (sha3_256 : list Z -> list Z).
Context (Hsha3 : forall m, bytes_ok (sha3_256 m) /\ length (sha3_256 m) = 32%nat).

Lemma checksum_ok k : bytes_ok (Checksum sha3_256 k) /\ length (Checksum sha3_256 k) = 2%nat.
Proof using Hsha3.
  unfold Checksum. destruct (Hsha3 (text ".onion checksum" ++ k ++ VERSION)) as [Hb Hl].
  split; [by apply bytes_ok_take|by rewrite length_take, Hl].
Qed.

Lemma tor_text this a :
  addr_ok a -> m_net a = NET_ONION -> length (m_addr a) = 32%nat ->
  exists s, ToStringIP_hidden sha3_256 a = Some s /\ 0 ∉ s /\
    SetTor sha3_256 this s = (true, with_scope (scopeId this) a).
Proof using Hsha3.
  intros [Hb _] En Hl. unfold ToStringIP_hidden. rewrite En, Hl. rewrite decide_False, decide_True by done.
  destruct (checksum_ok (m_addr a)) as [Hcb Hcl]. set (c := Checksum sha3_256 (m_addr a)) in *.
  set (input := m_addr a ++ c ++ VERSION).
  assert (bytes_ok input) as Hin by (unfold input; rewrite !bytes_ok_app; split; [done|split; [done|by repeat constructor]]).
  assert (length input = TOTAL_LEN) as Hil by (unfold input; rewrite !length_app, Hl, Hcl; done).
  eexists. split; [done|]. split.
  { apply text_no_nul_app; [by apply base32_no_nul|]. by apply (bool_decide_eq_false_1 (0 ∈ text ".onion")); vm_compute. }
  unfold SetTor. rewrite length_app. change (length (text ".onion")) with 6%nat.
  set (E := EncodeBase32 input true). assert (0 < length E)%nat as HE.
  { destruct (base32_lengths input Hin) as (k & Ek & Hlen & _). unfold E. rewrite Ek, length_app.
    unfold Zlen in Hlen. rewrite Hil in Hlen. change (Z.of_nat TOTAL_LEN) with 35 in Hlen. lia. }
  rewrite (proj2 (Nat.leb_gt _ _)), Nat.add_sub, drop_app_length, take_app_length, bool_decide_eq_true_2 by (done || lia).
  cbn [negb orb]. assert (DecodeBase32 E = (input, true)) as -> by (by apply (encode_decode base32 _ lawful_base32)).
  cbn [negb]. rewrite (bool_decide_eq_true_2 (length input = TOTAL_LEN)) by done. cbn [negb].
  assert (take ADDR_TORV3_SIZE input = m_addr a) as -> by (apply take_app_length'; by rewrite Hl).
  assert (drop ADDR_TORV3_SIZE input = c ++ VERSION) as -> by (apply drop_app_length'; by rewrite Hl).
  assert (drop (ADDR_TORV3_SIZE + CHECKSUM_LEN) input = VERSION) as ->.
  { rewrite <-drop_drop.
    assert (drop ADDR_TORV3_SIZE input = c ++ VERSION) as -> by (apply drop_app_length'; by rewrite Hl).
    apply drop_app_length'. by rewrite Hcl. }
  rewrite take_app_length' by (by rewrite Hcl). fold c.
  rewrite (bool_decide_eq_true_2 (take 1 VERSION = VERSION)), (bool_decide_eq_true_2 (c = c)) by done.
  cbn [negb]. unfold with_scope. by rewrite En.
Qed.

Lemma i2p_text this a :
  addr_ok a -> m_net a = NET_I2P ->
  exists s, ToStringIP_hidden sha3_256 a = Some s /\ 0 ∉ s /\ SetTor sha3_256 this s = (false, this) /\
    SetI2P this s = (true, with_scope (scopeId this) a).
Proof.
  intros Hok En. pose proof (size_cases a Hok) as Hl. rewrite En in Hl. destruct Hok as [Hb _].
  unfold ToStringIP_hidden. rewrite En. destruct (base32_lengths _ Hb) as (k & Ek & Hlen & Hk & Hm).
  set (E := EncodeBase32 (m_addr a) false) in *. unfold Zlen in *. rewrite Hl in Hlen.
  assert (length E = 52)%nat as HE by lia. assert (k = 4%nat) as -> by (rewrite HE in Hm; Z.to_euclidean_division_equations; lia).
  eexists. split; [done|]. pose proof (base32_no_nul _ Hb) as Hn. rewrite Ek in Hn. split; [|split].
  - apply text_no_nul_app; [intros H; apply Hn, elem_of_app; by left|].
    by apply (bool_decide_eq_false_1 (0 ∈ text ".b32.i2p")); vm_compute.
  - unfold SetTor. rewrite length_app, HE. change (52 + length (text ".b32.i2p"))%nat with 60%nat.
    cbn [Nat.leb Nat.sub orb]. rewrite drop_app, HE, (drop_ge E) by lia. done.
  - unfold SetI2P. rewrite length_app, HE, (drop_app_length' E), (take_app_length' E) by done.
    rewrite !bool_decide_eq_true_2 by done. cbn [negb orb].
    change (text "====") with (replicate 4 equals_sign). rewrite <-Ek.
    assert (DecodeBase32 (EncodeBase32 (m_addr a) true) = (m_addr a, true)) as ->
      by (by apply (encode_decode base32 _ lawful_base32)).
    cbn [negb orb]. rewrite bool_decide_eq_true_2 by done. cbn [negb]. unfold with_scope. by rewrite En.
Qed.

(** The text that is shown for a Tor (version 3) or an I2P address is accepted as
    the name of a hidden service and gives that address back. *)
Theorem hidden_text_round_trip this a :
  addr_ok a -> (m_net a = NET_ONION /\ length (m_addr a) = 32%nat) \/ m_net a = NET_I2P ->
  exists s, ToStringIP_hidden sha3_256 a = Some s /\
    SetSpecial sha3_256 this s = (true, with_scope (scopeId this) a).
Proof using Hsha3.
  intros Hok [[En Hl]|En].
  - destruct (tor_text this a Hok En Hl) as (s & E & Hn & Et). exists s. split; [done|].
    unfold SetSpecial. by rewrite valid_c_string, Et by done.
  - destruct (i2p_text this a Hok En) as (s & E & Hn & Et & Ei). exists s. split; [done|].
    unfold SetSpecial. rewrite valid_c_string, Et by done. cbn [negb]. by rewrite Ei.
Qed.
End Texts.

(** ** Witnesses *)

Definition toy_sha3 (m : list Z) : list Z := le_bytes 32 (le_num m).
Definition toy_onion : CNetAddr := NetAddr (replicate 32 7) NET_ONION 0.
Definition toy_ip : CNetAddr := NetAddr [93; 184; 216; 34] NET_IPV4 0.
Definition toy_ip2 : CNetAddr := NetAddr [93; 184; 1; 1] NET_IPV4 0.

Lemma hidden_text_round_trip_witness :
  exists s, ToStringIP_hidden toy_sha3 toy_onion = Some s /\
    SetSpecial toy_sha3 unspecified s = (true, with_scope 0 toy_onion).
Proof.
  apply (hidden_text_round_trip toy_sha3).
  - intros m. unfold toy_sha3. split; [apply le_bytes_ok|apply length_le_bytes].
  - split; [by repeat constructor|done].
  - left. done.
Defined.

Lemma received_address_safe_witness :
  addr_ok toy_ip /\ clean toy_ip /\ (exists b, Serialize true toy_ip = Some b) /\ (exists b, Serialize false toy_ip = Some b) /\
  (exists g, GetGroup toy_ip [] = Some g) /\ (exists k, GetKey (Service toy_ip 8233) = Some k).
Proof.
  apply (received_address_safe true unspecified [1; 4; 93; 184; 216; 34; 9] toy_ip [9] [] 8233).
  - by repeat constructor.
  - vm_compute. done.
  - by left.
Defined.

Lemma peer_round_trip_witness :
  exists b, SerializeAddress (Stream true true false) (Address (Service toy_ip 8233) 1 1700000000) = Some b /\
    reads_as (UnserializeAddress (Stream true true false) (Address (Service unspecified 0) 0 0)) b
      (Address (Service (sent true unspecified toy_ip) 8233) 1 1700000000).
Proof.
  apply (peer_round_trip (Stream true true false) (Address (Service unspecified 0) 0 0) (Address (Service toy_ip 8233) 1 1700000000)).
  split; [|done]. split; [split; [by repeat constructor|done]|]. split; [by intros ?|cbn; lia].
Defined.

Lemma same_group_exact_witness :
  (exists g, GetGroup toy_ip [] = Some g) /\ (GetGroup toy_ip [] = GetGroup toy_ip2 [] <-> group_bits toy_ip = group_bits toy_ip2).
Proof.
  apply (same_group_exact toy_ip toy_ip2); (split; [by repeat constructor|done]).
Defined.

Lemma subnet_match_exact_witness :
  Match (CSubNet_bits toy_ip2 16) toy_ip = Some (bool_decide (can_subnet toy_ip2 16 /\ IsValid toy_ip = true /\
    m_net toy_ip = m_net toy_ip2 /\ take 16 (bits (m_addr toy_ip)) = take 16 (bits (m_addr toy_ip2)))).
Proof.
  apply (subnet_match_exact toy_ip2 16 toy_ip); [split; [by repeat constructor|done]..|lia].
Defined.

(** ** Two defects *)

(** The hash of an address does not see its last byte. *)
Lemma hash_misses_last_byte `{Hashes} :
  GetHash (NetAddr [10; 0; 0; 1] NET_IPV4 0) = GetHash (NetAddr [10; 0; 0; 2] NET_IPV4 0).
Proof. done. Qed.

(** The key of a service is not unique to it: a CJDNS and an IPv6 address of the same
    bytes have the same one, and so have Tor and I2P addresses. *)
Lemma keys_of_two_networks b p :
  length b = 16%nat ->
  GetKey (Service (NetAddr b NET_CJDNS 0) p) = GetKey (Service (NetAddr b NET_IPV6 0) p) /\
  service_eqb (Service (NetAddr b NET_CJDNS 0) p) (Service (NetAddr b NET_IPV6 0) p) = false.
Proof.
  intros Hb. split; [|done]. unfold GetKey, GetAddrBytes, SerializeV1Array. cbn [ip m_net m_addr IsAddrV1Compatible mbind option_bind app].
  by rewrite assert_true by (apply bool_decide_eq_true; sizes).
Qed.
End HiddenTheorems.
