(* ===== verification/AddrMan.v ===== *)
(** * The address manager (src/src/addrman.h, addrman.cpp)

    The peers that the node knows: a table of entries, an index by network address, a
    vector of all entries in random order, and two hash tables of buckets, one for
    addresses that were only heard of ("new") and one for those that were connected to
    ("tried").  The operations follow the source; a failing assertion, a read outside
    of [vRandom], signed overflow and the use of a reference to an entry that was
    erased are [None].  The clock and random numbers are arguments. *)
From stdpp Require Import sorting.
From S2P Require Import Prelude Compact Interp AsMap Text NetAddr.
Import NetAddr.
Local Open Scope Z_scope.

#[export] Instance Network_countable : Countable Network.
Proof.
  refine (inj_countable' net_num (fun z =>
    if z =? 1 then NET_IPV4 else if z =? 2 then NET_IPV6 else if z =? 3 then NET_ONION
    else if z =? 4 then NET_I2P else if z =? 5 then NET_CJDNS else if z =? 6 then NET_INTERNAL
    else if z =? 7 then NET_MAX else NET_UNROUTABLE) _). by intros [].
Defined.

Module AddrMan.

Definition ADDRMAN_TRIED_BUCKET_COUNT : Z := 256.
Definition ADDRMAN_NEW_BUCKET_COUNT : Z := 1024.
Definition ADDRMAN_BUCKET_SIZE : Z := 64.
Definition ADDRMAN_TRIED_BUCKETS_PER_GROUP : Z := 8.
Definition ADDRMAN_NEW_BUCKETS_PER_SOURCE_GROUP : Z := 64.
Definition ADDRMAN_NEW_BUCKETS_PER_ADDRESS : Z := 8.
Definition ADDRMAN_HORIZON_DAYS : Z := 30.
Definition ADDRMAN_RETRIES : Z := 3.
Definition ADDRMAN_MAX_FAILURES : Z := 10.
Definition ADDRMAN_MIN_FAIL_DAYS : Z := 7.
Definition ADDRMAN_REPLACEMENT_HOURS : Z := 4.
Definition ADDRMAN_GETADDR_MAX_PCT : Z := 23.
Definition ADDRMAN_GETADDR_MAX : Z := 2500.

Record CAddrInfo := AddrInfo {
  peer : CAddress; source : CNetAddr; nLastTry : Z; nLastSuccess : Z; nAttempts : Z;
  nRefCount : Z; fInTried : bool; nRandomPos : Z; fLocal : bool }.

(** The constructors, with [Init]. *)
Definition new_info (addrIn : CAddress) (addrSource : CNetAddr) : CAddrInfo :=
  AddrInfo addrIn addrSource 0 0 0 0 false (-1) false.
Definition default_info : CAddrInfo := new_info (Address (Service unspecified 0) 0 TIME_INIT) unspecified.

Definition info_ip (i : CAddrInfo) : CNetAddr := ip (service (peer i)).

Definition set_time (t : Z) (i : CAddrInfo) : CAddrInfo :=
  AddrInfo (Address (service (peer i)) (nServices (peer i)) t) (source i) (nLastTry i) (nLastSuccess i)
    (nAttempts i) (nRefCount i) (fInTried i) (nRandomPos i) (fLocal i).
Definition add_services (s : Z) (i : CAddrInfo) : CAddrInfo :=
  AddrInfo (Address (service (peer i)) (Z.lor (nServices (peer i)) s) (nTime (peer i))) (source i) (nLastTry i)
    (nLastSuccess i) (nAttempts i) (nRefCount i) (fInTried i) (nRandomPos i) (fLocal i).
Definition set_tries (last_try last_success attempts : Z) (i : CAddrInfo) : CAddrInfo :=
  AddrInfo (peer i) (source i) last_try last_success attempts (nRefCount i) (fInTried i) (nRandomPos i) (fLocal i).
Definition set_refs (n : Z) (i : CAddrInfo) : CAddrInfo :=
  AddrInfo (peer i) (source i) (nLastTry i) (nLastSuccess i) (nAttempts i) n (fInTried i) (nRandomPos i) (fLocal i).
Definition set_tried (b : bool) (i : CAddrInfo) : CAddrInfo :=
  AddrInfo (peer i) (source i) (nLastTry i) (nLastSuccess i) (nAttempts i) (nRefCount i) b (nRandomPos i) (fLocal i).
Definition set_pos (n : Z) (i : CAddrInfo) : CAddrInfo :=
  AddrInfo (peer i) (source i) (nLastTry i) (nLastSuccess i) (nAttempts i) (nRefCount i) (fInTried i) n (fLocal i).
Definition set_local (i : CAddrInfo) : CAddrInfo :=
  AddrInfo (peer i) (source i) (nLastTry i) (nLastSuccess i) (nAttempts i) (nRefCount i) (fInTried i) (nRandomPos i) true.

Definition IsTerrible (i : CAddrInfo) (nNow : Z) : bool :=
  if fLocal i then false
  else if negb (nLastTry i =? 0) && (nNow - 60 <=? nLastTry i) then false
  else if nNow + 10 * 60 <? nTime (peer i) then true
  else if (nTime (peer i) =? 0) || (ADDRMAN_HORIZON_DAYS * 24 * 60 * 60 <? nNow - nTime (peer i)) then true
  else if (nLastSuccess i =? 0) && (ADDRMAN_RETRIES <=? nAttempts i) then true
  else if (ADDRMAN_MIN_FAIL_DAYS * 24 * 60 * 60 <? nNow - nLastSuccess i) && (ADDRMAN_MAX_FAILURES <=? nAttempts i)
  then true
  else false.

Definition IsJustTried (i : CAddrInfo) (nNow : Z) : bool :=
  negb (nLastTry i =? 0) && (nNow - 60 <=? nLastTry i).

Definition GetLastSuccess (i : CAddrInfo) : Z := nTime (peer i).

(** ** State *)

(** A table of buckets: the places that hold an entry; the others hold -1. *)
Abbreviation buckets := (gmap (Z * Z) Z).

Record CAddrMan := Man {
  nIdCount : Z; mapInfo : gmap Z CAddrInfo; mapAddr : gmap (Network * list Z) Z; vRandom : list Z;
  nTried : Z; vvTried : buckets; nNew : Z; vvNew : buckets; m_tried_collisions : list Z }.

Definition place (t : buckets) (b p : Z) : Z := default (-1) (t !! (b, p)).
Definition set_place (b p v : Z) (t : buckets) : buckets := if v =? -1 then delete (b, p) t else <[(b, p) := v]> t.

Definition with_info (m : gmap Z CAddrInfo) (s : CAddrMan) : CAddrMan :=
  Man (nIdCount s) m (mapAddr s) (vRandom s) (nTried s) (vvTried s) (nNew s) (vvNew s) (m_tried_collisions s).
Definition with_random (l : list Z) (s : CAddrMan) : CAddrMan :=
  Man (nIdCount s) (mapInfo s) (mapAddr s) l (nTried s) (vvTried s) (nNew s) (vvNew s) (m_tried_collisions s).
Definition with_new (n : Z) (t : buckets) (s : CAddrMan) : CAddrMan :=
  Man (nIdCount s) (mapInfo s) (mapAddr s) (vRandom s) (nTried s) (vvTried s) n t (m_tried_collisions s).
Definition with_tried (n : Z) (t : buckets) (s : CAddrMan) : CAddrMan :=
  Man (nIdCount s) (mapInfo s) (mapAddr s) (vRandom s) n t (nNew s) (vvNew s) (m_tried_collisions s).
Definition with_collisions (l : list Z) (s : CAddrMan) : CAddrMan :=
  Man (nIdCount s) (mapInfo s) (mapAddr s) (vRandom s) (nTried s) (vvTried s) (nNew s) (vvNew s) l.

(** Through a reference to the entry [id]. *)
Definition upd (id : Z) (f : CAddrInfo -> CAddrInfo) (s : CAddrMan) : option CAddrMan :=
  i ← mapInfo s !! id; Some (with_info (<[id := f i]> (mapInfo s)) s).

(** [mapInfo[id]], which makes an entry when there is none. *)
Definition touch (id : Z) (s : CAddrMan) : CAddrMan :=
  match mapInfo s !! id with Some _ => s | None => with_info (<[id := default_info]> (mapInfo s)) s end.

(** [Clear]: ids go on counting and the collisions stay; the key of the tables, which it
    draws, is a parameter below. *)
Definition Clear (s : CAddrMan) : CAddrMan :=
  Man (nIdCount s) ∅ ∅ [] 0 ∅ 0 ∅ (m_tried_collisions s).
Definition CAddrMan_new : CAddrMan := Clear (Man 0 ∅ ∅ [] 0 ∅ 0 ∅ []).

(** The map of autonomous systems: the bits of the file, when they pass the check. *)
Definition DecodeAsmap (file : list Z) : list bool :=
  let bits := flat_map (fun cur_byte => map (fun bit => Z.testbit cur_byte (Z.of_nat bit)) (seq 0 8)) file in
  if AsMap.SanityCheckASMap bits 128 then bits else [].

(** ** Buckets *)

Section Buckets.
Context {HS : Hashes} (nKey : list Z) (m_asmap : list bool).

(** [CHashWriter << ... .GetHash().GetCheapHash()] *)
Definition cheap_hash (data : list Z) : Z := le_num (take 8 (CHash256 data)).
Definition vec_bytes (l : list Z) : list Z := WriteCompactSize (Zlen l) ++ l.

Definition GetTriedBucket (i : CAddrInfo) : option Z :=
  key ← GetKey (service (peer i));
  group ← GetGroup (info_ip i) m_asmap;
  let hash1 := cheap_hash (nKey ++ vec_bytes key) in
  let hash2 := cheap_hash (nKey ++ vec_bytes group ++ le_bytes 8 (hash1 mod ADDRMAN_TRIED_BUCKETS_PER_GROUP)) in
  Some (hash2 mod ADDRMAN_TRIED_BUCKET_COUNT).

Definition GetNewBucket (i : CAddrInfo) (src : CNetAddr) : option Z :=
  vchSourceGroupKey ← GetGroup src m_asmap;
  group ← GetGroup (info_ip i) m_asmap;
  let hash1 := cheap_hash (nKey ++ vec_bytes group ++ vec_bytes vchSourceGroupKey) in
  let hash2 := cheap_hash (nKey ++ vec_bytes vchSourceGroupKey ++ le_bytes 8 (hash1 mod ADDRMAN_NEW_BUCKETS_PER_SOURCE_GROUP)) in
  Some (hash2 mod ADDRMAN_NEW_BUCKET_COUNT).

Definition GetBucketPosition (i : CAddrInfo) (fNew : bool) (nBucket : Z) : option Z :=
  key ← GetKey (service (peer i));
  Some (cheap_hash (nKey ++ [if fNew then 78 else 75] ++ le_bytes 4 nBucket ++ vec_bytes key) mod ADDRMAN_BUCKET_SIZE).

(** ** Entries *)

Definition Find (s : CAddrMan) (addr : CNetAddr) : option Z :=
  id ← mapAddr s !! net_key addr; _ ← mapInfo s !! id; Some id.

Definition Create (addr : CAddress) (addrSource : CNetAddr) (s : CAddrMan) : option (Z * CAddrMan) :=
  let nId := nIdCount s in
  next ← i32 (nIdCount s + 1);
  Some (nId, Man next (<[nId := set_pos (Zlen (vRandom s)) (new_info addr addrSource)]> (mapInfo s))
               (<[net_key (ip (service addr)) := nId]> (mapAddr s)) (vRandom s ++ [nId])
               (nTried s) (vvTried s) (nNew s + 1) (vvNew s) (m_tried_collisions s)).

Definition SwapRandom (nRndPos1 nRndPos2 : Z) (s : CAddrMan) : option CAddrMan :=
  if nRndPos1 =? nRndPos2 then Some s
  else
    nId1 ← vRandom s !! Z.to_nat nRndPos1;
    nId2 ← vRandom s !! Z.to_nat nRndPos2;
    match mapInfo s !! nId1, mapInfo s !! nId2 with
    | Some _, Some _ =>
        s ← upd nId1 (set_pos nRndPos2) s;
        s ← upd nId2 (set_pos nRndPos1) s;
        Some (with_random (<[Z.to_nat nRndPos2 := nId1]> (<[Z.to_nat nRndPos1 := nId2]> (vRandom s))) s)
    | _, _ => Some s
    end.

Definition Delete (nId : Z) (s : CAddrMan) : option CAddrMan :=
  match mapInfo s !! nId with
  | None => Some s
  | Some info =>
      s ← SwapRandom (u32 (nRandomPos info)) (u32 (Zlen (vRandom s) - 1)) s;
      match vRandom s with
      | [] => None
      | _ =>
          Some (Man (nIdCount s) (delete nId (mapInfo s)) (delete (net_key (info_ip info)) (mapAddr s))
                  (removelast (vRandom s)) (nTried s) (vvTried s) (nNew s - 1) (vvNew s) (m_tried_collisions s))
      end
  end.

Definition ClearNew (nUBucket nUBucketPos : Z) (s : CAddrMan) : option CAddrMan :=
  let nIdDelete := place (vvNew s) nUBucket nUBucketPos in
  if nIdDelete =? -1 then Some s
  else
    match mapInfo s !! nIdDelete with
    | None => Some s
    | Some info =>
        if nRefCount info =? 0 then Some s
        else
          s ← upd nIdDelete (set_refs (nRefCount info - 1)) s;
          let s := with_new (nNew s) (set_place nUBucket nUBucketPos (-1) (vvNew s)) s in
          if nRefCount info - 1 =? 0 then Delete nIdDelete s else Some s
    end.

(** The first loop of [MakeTried], over the buckets that are left. *)
Fixpoint leave_new (buckets : list Z) (nId : Z) (s : CAddrMan) : option CAddrMan :=
  match buckets with
  | [] => Some s
  | bucket :: buckets =>
      info ← mapInfo s !! nId;
      pos ← GetBucketPosition info true bucket;
      if place (vvNew s) bucket pos =? nId then
        s ← upd nId (set_refs (nRefCount info - 1)) (with_new (nNew s) (set_place bucket pos (-1) (vvNew s)) s);
        if nRefCount info - 1 =? 0 then Some s else leave_new buckets nId s
      else leave_new buckets nId s
  end.

Definition buckets_from (start : Z) : list Z :=
  map (fun n => (start + Z.of_nat n) mod ADDRMAN_NEW_BUCKET_COUNT) (seq 0 1024).

(** Making space in the tried table: what is there goes back to the new one. *)
Definition evict (nKBucket nKBucketPos : Z) (s : CAddrMan) : option CAddrMan :=
  let nIdEvict := place (vvTried s) nKBucket nKBucketPos in
  if nIdEvict =? -1 then Some s
  else
    let s := touch nIdEvict s in
    infoOld ← mapInfo s !! nIdEvict;
    s ← upd nIdEvict (set_tried false) s;
    let s := with_tried (nTried s - 1) (set_place nKBucket nKBucketPos (-1) (vvTried s)) s in
    nUBucket ← GetNewBucket infoOld (source infoOld);
    nUBucketPos ← GetBucketPosition infoOld true nUBucket;
    s ← ClearNew nUBucket nUBucketPos s;
    s ← upd nIdEvict (set_refs 1) s;
    Some (with_new (nNew s + 1) (set_place nUBucket nUBucketPos nIdEvict (vvNew s)) s).

(** The rest of [MakeTried], once the entry has left the new table. *)
Definition to_tried (nId : Z) (s : CAddrMan) : option CAddrMan :=
  let s := with_new (nNew s - 1) (vvNew s) s in
  info ← mapInfo s !! nId;
  nKBucket ← GetTriedBucket info;
  nKBucketPos ← GetBucketPosition info false nKBucket;
  s ← evict nKBucket nKBucketPos s;
  let s := with_tried (nTried s + 1) (set_place nKBucket nKBucketPos nId (vvTried s)) s in
  upd nId (set_tried true) s.

Definition MakeTried (nId : Z) (s : CAddrMan) : option CAddrMan :=
  info ← mapInfo s !! nId;
  start_bucket ← GetNewBucket info (source info);
  s ← leave_new (buckets_from start_bucket) nId s;
  to_tried nId s.

(** The loop of [Good_] that looks for a bucket the entry is in. *)
Fixpoint find_bucket (buckets : list Z) (nId : Z) (info : CAddrInfo) (t : gmap (Z * Z) Z) : option bool :=
  match buckets with
  | [] => Some false
  | nB :: buckets =>
      nBpos ← GetBucketPosition info true nB;
      if place t nB nBpos =? nId then Some true else find_bucket buckets nId info t
  end.

(** [Good_].  [test_before_evict] is not looked at. *)
Definition Good_ (addr : CService) (test_before_evict : bool) (time nRnd : Z) (s : CAddrMan) : option CAddrMan :=
  match Find s (ip addr) with
  | None => Some s
  | Some nId =>
      info ← mapInfo s !! nId;
      if negb (service_eqb (service (peer info)) addr) then Some s
      else
        s ← upd nId (set_tries time time 0) s;
        if fInTried info then Some s
        else
          found ← find_bucket (buckets_from nRnd) nId info (vvNew s);
          if found : bool then MakeTried nId s else Some s
  end.

(** The factor of the stochastic test: two to the reference count. *)
Definition nFactor (refs : Z) : Z := Nat.iter (Z.to_nat refs) (Z.mul 2) 1.

(** The first half of [Add_], on an entry that is there: whether to go on. *)
Definition refresh (now : Z) (addr : CAddress) (nTimePenalty rnd : Z) (nId : Z) (s : CAddrMan) : option (bool * CAddrMan) :=
  info ← mapInfo s !! nId;
  let fCurrentlyOnline := now - nTime addr <? 24 * 60 * 60 in
  let nUpdateInterval := if fCurrentlyOnline then 60 * 60 else 24 * 60 * 60 in
  let later := negb (nTime addr =? 0) &&
    ((nTime (peer info) =? 0) || (nTime (peer info) <? nTime addr - nUpdateInterval - nTimePenalty)) in
  s ← upd nId (if later then set_time (u32 (Z.max 0 (nTime addr - nTimePenalty))) else fun i => i) s;
  s ← upd nId (add_services (nServices addr)) s;
  info ← mapInfo s !! nId;
  if (nTime addr =? 0) || (negb (nTime (peer info) =? 0) && (nTime addr <=? nTime (peer info))) then Some (false, s)
  else if fInTried info then Some (false, s)
  else if nRefCount info =? ADDRMAN_NEW_BUCKETS_PER_ADDRESS then Some (false, s)
  else if (1 <? nFactor (nRefCount info)) && negb (rnd =? 0) then Some (false, s)
  else Some (true, s).

(** The second half: a place in the new table for the entry [nId]. *)
Definition enter (now : Z) (source : CNetAddr) (nId : Z) (s : CAddrMan) : option (bool * CAddrMan) :=
  info ← mapInfo s !! nId;
  nUBucket ← GetNewBucket info source;
  nUBucketPos ← GetBucketPosition info true nUBucket;
  let there := place (vvNew s) nUBucket nUBucketPos in
  let fInsert := there =? -1 in
  if there =? nId then Some (fInsert, s)
  else
    let fInsert :=
      fInsert ||
      match mapInfo s !! there with
      | Some infoExisting => IsTerrible infoExisting now || ((1 <? nRefCount infoExisting) && (nRefCount info =? 0))
      | None => false
      end in
    if fInsert : bool then
      s ← ClearNew nUBucket nUBucketPos s;
      info ← mapInfo s !! nId;
      s ← upd nId (set_refs (nRefCount info + 1)) s;
      Some (true, with_new (nNew s) (set_place nUBucket nUBucketPos nId (vvNew s)) s)
    else if nRefCount info =? 0 then s ← Delete nId s; Some (false, s)
    else Some (false, s).

Definition Add_ (now : Z) (addr : CAddress) (source : CNetAddr) (nTimePenalty rnd : Z) (s : CAddrMan) :
    option (bool * CAddrMan) :=
  if negb (IsRoutable (ip (service addr))) then Some (false, s)
  else
    match Find s (ip (service addr)) with
    | Some nId =>
        '(go, s) ← refresh now addr nTimePenalty rnd nId s;
        if go : bool then enter now source nId s else Some (false, s)
    | None =>
        '(nId, s) ← Create addr source s;
        s ← upd nId (fun i => set_time (u32 (Z.max 0 (nTime (peer i) - nTimePenalty))) i) s;
        enter now source nId s
    end.

(** The operations that only note something about an entry. *)
Definition note (addr : CService) (f : CAddrInfo -> option CAddrInfo) (s : CAddrMan) : option CAddrMan :=
  match Find s (ip addr) with
  | None => Some s
  | Some nId =>
      info ← mapInfo s !! nId;
      if negb (service_eqb (service (peer info)) addr) then Some s
      else info ← f info; upd nId (fun _ => info) s
  end.

Definition Attempt_ (addr : CService) (time : Z) (s : CAddrMan) : option CAddrMan :=
  note addr (fun i => n ← i32 (nAttempts i + 1); Some (set_tries time (nLastSuccess i) n i)) s.

Definition Connected_ (addr : CService) (time : Z) (s : CAddrMan) : option CAddrMan :=
  note addr (fun i => Some (if 20 * 60 <? time - nTime (peer i) then set_time (u32 time) i else i)) s.

Definition SetLocal_ (addr : CService) (s : CAddrMan) : option CAddrMan :=
  note addr (fun i => Some (set_local i)) s.

(** ** Collisions *)

(** One turn of [ResolveCollisions_]: whether the collision is erased. *)
Definition resolve_one (now rnd : Z) (id_new : Z) (s : CAddrMan) : option (bool * CAddrMan) :=
  match mapInfo s !! id_new with
  | None => Some (true, s)
  | Some info_new =>
      tried_bucket ← GetTriedBucket info_new;
      tried_bucket_pos ← GetBucketPosition info_new false tried_bucket;
      if negb (IsValid (info_ip info_new)) then Some (true, s)
      else
        let id_old := place (vvTried s) tried_bucket tried_bucket_pos in
        if negb (id_old =? -1) then
          let s := touch id_old s in
          info_old ← mapInfo s !! id_old;
          if now - nLastSuccess info_old <? ADDRMAN_REPLACEMENT_HOURS * (60 * 60) then Some (true, s)
          else if now - nLastTry info_old <? ADDRMAN_REPLACEMENT_HOURS * (60 * 60) then
            if 60 <? now - nLastTry info_old then
              s ← Good_ (service (peer info_new)) false now rnd s; Some (true, s)
            else Some (false, s)
          else Some (false, s)
        else s ← Good_ (service (peer info_new)) false now rnd s; Some (true, s)
  end.

Fixpoint resolve_loop (now rnd : Z) (ids : list Z) (s : CAddrMan) : option (list Z * CAddrMan) :=
  match ids with
  | [] => Some ([], s)
  | id :: ids =>
      '(erase_collision, s) ← resolve_one now rnd id s;
      '(rest, s) ← resolve_loop now rnd ids s;
      Some (if erase_collision : bool then rest else id :: rest, s)
  end.

Definition ResolveCollisions_ (now rnd : Z) (s : CAddrMan) : option CAddrMan :=
  '(rest, s) ← resolve_loop now rnd (m_tried_collisions s) s; Some (with_collisions rest s).

Definition SelectTriedCollision_ (rnd : Z) (s : CAddrMan) : option (CAddrInfo * CAddrMan) :=
  if Zlen (m_tried_collisions s) =? 0 then Some (default_info, s)
  else
    id_new ← m_tried_collisions s !! Z.to_nat rnd;
    match mapInfo s !! id_new with
    | None => Some (default_info, with_collisions (delete (Z.to_nat rnd) (m_tried_collisions s)) s)
    | Some newInfo =>
        tried_bucket ← GetTriedBucket newInfo;
        tried_bucket_pos ← GetBucketPosition newInfo false tried_bucket;
        let id_old := place (vvTried s) tried_bucket tried_bucket_pos in
        let s := touch id_old s in
        info ← mapInfo s !! id_old; Some (info, s)
    end.

(** ** Addresses for a peer that asks *)

Section GetAddr.
Context (RandomInt : nat -> Z -> Z) (now : Z) (wants_addrv2 : bool).

Fixpoint shuffle (positions : list nat) (s : CAddrMan) : option CAddrMan :=
  match positions with
  | [] => Some s
  | n :: positions =>
      let nRndPos := RandomInt n (Zlen (vRandom s) - Z.of_nat n) + Z.of_nat n in
      s ← SwapRandom (Z.of_nat n) nRndPos s; shuffle positions s
  end.

(** The counters of the networks, in the order in which they are tried. *)
Definition networks : list Network := [NET_IPV4; NET_IPV6; NET_CJDNS; NET_ONION; NET_I2P].

Fixpoint offer (addrv2Nodes : Z) (ai : CAddrInfo) (nets : list Network) (counts : list Z) (vAddr : list CAddress) :
    list Z * list CAddress :=
  match nets, counts with
  | net :: nets, count :: counts =>
      let take_it := is_net (info_ip ai) net && (count <=? addrv2Nodes) in
      let vAddr := if take_it then vAddr ++ [peer ai] else vAddr in
      let '(rest, vAddr) := offer addrv2Nodes ai nets counts vAddr in
      ((if take_it then count + 1 else count) :: rest, vAddr)
  | _, _ => (counts, vAddr)
  end.

Fixpoint gather (nNodes addrv2Nodes : Z) (ids : list Z) (counts : list Z) (vAddr : list CAddress) (s : CAddrMan) :
    option (list CAddress * CAddrMan) :=
  match ids with
  | [] => Some (vAddr, s)
  | id :: ids =>
      if nNodes <=? Zlen vAddr then Some (vAddr, s)
      else
        let s := touch id s in
        ai ← mapInfo s !! id;
        if IsTerrible ai now then gather nNodes addrv2Nodes ids counts vAddr s
        else if negb wants_addrv2 then gather nNodes addrv2Nodes ids counts (vAddr ++ [peer ai]) s
        else
          let '(counts, vAddr) := offer addrv2Nodes ai networks counts vAddr in
          gather nNodes addrv2Nodes ids counts vAddr s
  end.

Definition GetAddr_ (s : CAddrMan) : option (list CAddress * CAddrMan) :=
  let nNodes := Z.min ADDRMAN_GETADDR_MAX (ADDRMAN_GETADDR_MAX_PCT * Zlen (vRandom s) / 100) in
  let addrv2Nodes := nNodes / 5 in
  s ← shuffle (seq 0 (length (vRandom s))) s;
  gather nNodes addrv2Nodes (vRandom s) [0; 0; 0; 0; 0] [] s.
End GetAddr.

(** ** The check of the debugging build *)

Record audit := Audit { seen_addr : gmap (Network * list Z) Z; setTried : gset Z; mapNew : gmap Z Z }.

(** One entry, in the first loop of [Check_]: an error code, or 0. *)
Definition check_kind (n : Z) (info : CAddrInfo) (a : audit) : Z * audit :=
  if fInTried info then
    if nLastSuccess info =? 0 then (-1, a)
    else if negb (nRefCount info =? 0) then (-2, a)
    else (0, Audit (seen_addr a) ({[n]} ∪ setTried a) (mapNew a))
  else if (nRefCount info <? 0) || (ADDRMAN_NEW_BUCKETS_PER_ADDRESS <? nRefCount info) then (-3, a)
  else if nRefCount info =? 0 then (-4, a)
  else (0, Audit (seen_addr a) (setTried a) (<[n := nRefCount info]> (mapNew a))).

(** [mapAddr[info]] enters 0 when the address is not there. *)
Definition check_rest (random : list Z) (n : Z) (info : CAddrInfo) (a : audit) : Z * audit :=
  let id := default 0 (seen_addr a !! net_key (info_ip info)) in
  let a := Audit (<[net_key (info_ip info) := id]> (seen_addr a)) (setTried a) (mapNew a) in
  (if negb (id =? n) then -5
   else if (nRandomPos info <? 0) || (Zlen random <=? nRandomPos info) ||
           negb (bool_decide (random !! Z.to_nat (nRandomPos info) = Some n)) then -14
   else if nLastTry info <? 0 then -6
   else if nLastSuccess info <? 0 then -8
   else 0, a).

Fixpoint check_entries (s : CAddrMan) (ids : list Z) (a : audit) : Z * audit :=
  match ids with
  | [] => (0, a)
  | n :: ids =>
      match mapInfo s !! n with
      | None => check_entries s ids a
      | Some info =>
          let '(err, a) := check_kind n info a in
          if negb (err =? 0) then (err, a)
          else
            let '(err, a) := check_rest (vRandom s) n info a in
            if negb (err =? 0) then (err, a) else check_entries s ids a
      end
  end.

Fixpoint check_tried (s : CAddrMan) (places : list (Z * Z)) (a : audit) : option (Z * audit) :=
  match places with
  | [] => Some (0, a)
  | (n, i) :: places =>
      let id := place (vvTried s) n i in
      if id =? -1 then check_tried s places a
      else if negb (bool_decide (id ∈ setTried a)) then Some (-11, a)
      else
        info ← mapInfo s !! id;
        bucket ← GetTriedBucket info;
        if negb (bucket =? n) then Some (-17, a)
        else
          pos ← GetBucketPosition info false n;
          if negb (pos =? i) then Some (-18, a)
          else check_tried s places (Audit (seen_addr a) (setTried a ∖ {[id]}) (mapNew a))
  end.

Fixpoint check_new (s : CAddrMan) (places : list (Z * Z)) (a : audit) : option (Z * audit) :=
  match places with
  | [] => Some (0, a)
  | (n, i) :: places =>
      let id := place (vvNew s) n i in
      if id =? -1 then check_new s places a
      else
        match mapNew a !! id with
        | None => Some (-12, a)
        | Some refs =>
            info ← mapInfo s !! id;
            pos ← GetBucketPosition info true n;
            if negb (pos =? i) then Some (-19, a)
            else
              check_new s places
                (Audit (seen_addr a) (setTried a)
                   (if refs - 1 =? 0 then delete id (mapNew a) else <[id := refs - 1]> (mapNew a)))
        end
  end.

Definition places (buckets : Z) : list (Z * Z) :=
  list_prod (seqZ 0 buckets) (seqZ 0 ADDRMAN_BUCKET_SIZE).

Definition Check_ (s : CAddrMan) : option (Z * CAddrMan) :=
  if negb (Zlen (vRandom s) =? u64 (nTried s + nNew s)) then Some (-7, s)
  else
    let '(err, a) := check_entries s (merge_sort Z.le (elements (dom (mapInfo s)))) (Audit (mapAddr s) ∅ ∅) in
    let s := Man (nIdCount s) (mapInfo s) (seen_addr a) (vRandom s) (nTried s) (vvTried s) (nNew s) (vvNew s)
               (m_tried_collisions s) in
    if negb (err =? 0) then Some (err, s)
    else if negb (Z.of_nat (size (setTried a)) =? u64 (nTried s)) then Some (-9, s)
    else if negb (Z.of_nat (size (mapNew a)) =? u64 (nNew s)) then Some (-10, s)
    else
      '(err, a) ← check_tried s (places ADDRMAN_TRIED_BUCKET_COUNT) a;
      if negb (err =? 0) then Some (err, s)
      else
        '(err, a) ← check_new s (places ADDRMAN_NEW_BUCKET_COUNT) a;
        Some (if negb (err =? 0) then err
              else if negb (Z.of_nat (size (setTried a)) =? 0) then -13
              else if negb (Z.of_nat (size (mapNew a)) =? 0) then -15
              else if forallb (Z.eqb 0) nKey then -16
              else 0, s).

(** ** The operations on the manager *)

Inductive op :=
  | OpAdd (now : Z) (addr : CAddress) (source : CNetAddr) (nTimePenalty rnd : Z)
  | OpGood (addr : CService) (test_before_evict : bool) (time rnd : Z)
  | OpAttempt (addr : CService) (time : Z)
  | OpConnected (addr : CService) (time : Z)
  | OpSetLocal (addr : CService)
  | OpResolve (now rnd : Z)
  | OpGetAddr (RandomInt : nat -> Z -> Z) (now : Z) (wants_addrv2 : bool).

Definition run (o : op) (s : CAddrMan) : option CAddrMan :=
  match o with
  | OpAdd now addr source pen rnd => '(_, s) ← Add_ now addr source pen rnd s; Some s
  | OpGood addr t time rnd => Good_ addr t time rnd s
  | OpAttempt addr time => Attempt_ addr time s
  | OpConnected addr time => Connected_ addr time s
  | OpSetLocal addr => SetLocal_ addr s
  | OpResolve now rnd => ResolveCollisions_ now rnd s
  | OpGetAddr rand now v2 => '(_, s) ← GetAddr_ rand now v2 s; Some s
  end.
End Buckets.
End AddrMan.

Module AddrManFacts.
Import AddrMan NetAddrFacts NetAddrTheorems.

(** ** Counting the entries of a map *)

Section Tally.
Context {K A : Type} `{Countable K} (P : A -> bool).
Definition tally (m : gmap K A) : Z := map_fold (fun _ a n => Z.b2z (P a) + n) 0 m.

Lemma tally_empty : tally ∅ = 0.
Proof. apply map_fold_empty. Qed.

Lemma tally_insert m k a : m !! k = None -> tally (<[k := a]> m) = Z.b2z (P a) + tally m.
Proof. intros Hk. unfold tally. apply (map_fold_insert_L (fun _ a n => Z.b2z (P a) + n)); [intros; lia|done]. Qed.

Lemma tally_delete m k a : m !! k = Some a -> tally (delete k m) = tally m - Z.b2z (P a).
Proof. intros Hk. rewrite <-(insert_delete_id m k a Hk) at 2. rewrite tally_insert by apply lookup_delete_eq. lia. Qed.

Lemma tally_update m k a a' : m !! k = Some a -> tally (<[k := a']> m) = tally m - Z.b2z (P a) + Z.b2z (P a').
Proof.
  intros Hk. rewrite <-insert_delete_eq, tally_insert, (tally_delete m k a) by (done || apply lookup_delete_eq). lia.
Qed.

Lemma tally_nonneg m : 0 <= tally m.
Proof.
  induction m as [|k a m Hk IH] using map_ind; [by rewrite tally_empty|].
  rewrite tally_insert by done. destruct (P a); cbn; lia.
Qed.

Lemma tally_zero m : tally m = 0 -> forall k a, m !! k = Some a -> P a = false.
Proof.
  intros E k a Hk. destruct (P a) eqn:HP; [|done]. pose proof (tally_nonneg (delete k m)).
  rewrite (tally_delete m k a Hk), E, HP in *. cbn in *. lia.
Qed.

Lemma tally_none m : (forall k a, m !! k = Some a -> P a = false) -> tally m = 0.
Proof.
  induction m as [|k a m Hk IH] using map_ind; intros Hf; [apply tally_empty|].
  rewrite tally_insert, (Hf k a) by (done || apply lookup_insert_eq). rewrite IH; [done|].
  intros k' a' Hk'. apply (Hf k'). rewrite lookup_insert_ne; [done|]. intros ->. congruence.
Qed.
End Tally.

Section Invariant.
Context {HS : Hashes} (nKey : list Z) (m_asmap : list bool) (Hmap : map_checked m_asmap).

Abbreviation position := (GetBucketPosition nKey).
Abbreviation tried_bucket := (GetTriedBucket nKey m_asmap).
Abbreviation new_bucket := (GetNewBucket nKey m_asmap).

(** ** Buckets are there *)

Definition info_ok (i : CAddrInfo) : Prop :=
  addr_ok (info_ip i) /\ clean (info_ip i) /\ addr_ok (source i) /\ 0 <= nLastTry i /\ 0 <= nLastSuccess i.

Lemma GetKey_some i : info_ok i -> exists k, GetKey (service (peer i)) = Some k.
Proof.
  intros (H1 & H2 & _). destruct (GetAddrBytes_some (info_ip i) H1 H2) as [k E].
  unfold GetKey. unfold info_ip in E. rewrite E. eauto.
Qed.

Lemma position_some i n b : info_ok i -> exists p, position i n b = Some p /\ 0 <= p < 64.
Proof.
  intros Hi. destruct (GetKey_some i Hi) as [k E]. unfold GetBucketPosition. rewrite E.
  eexists. split; [done|]. by apply Z.mod_pos_bound.
Qed.

Lemma tried_bucket_some i : info_ok i -> exists b, tried_bucket i = Some b /\ 0 <= b < 256.
Proof using Hmap.
  intros Hi. destruct (GetKey_some i Hi) as [k E]. destruct (GetGroup_some (info_ip i) m_asmap) as [g Eg]; [apply Hi|done|].
  unfold GetTriedBucket. rewrite E. cbn [mbind option_bind]. rewrite Eg. eexists. split; [done|]. by apply Z.mod_pos_bound.
Qed.

Lemma new_bucket_some i src : info_ok i -> addr_ok src -> exists b, new_bucket i src = Some b /\ 0 <= b < 1024.
Proof using Hmap.
  intros Hi Hs. destruct (GetGroup_some (info_ip i) m_asmap) as [g Eg]; [apply Hi|done|].
  destruct (GetGroup_some src m_asmap) as [g' Eg']; [done..|].
  unfold GetNewBucket. rewrite Eg'. cbn [mbind option_bind]. rewrite Eg. eexists. split; [done|]. by apply Z.mod_pos_bound.
Qed.

(** Buckets depend on the address, its port and the source only. *)
Lemma position_same i j n b : service (peer j) = service (peer i) -> position j n b = position i n b.
Proof. intros E. unfold GetBucketPosition. by rewrite E. Qed.

Lemma tried_bucket_same i j : service (peer j) = service (peer i) -> tried_bucket j = tried_bucket i.
Proof. intros E. unfold GetTriedBucket, info_ip. by rewrite E. Qed.

(** ** The invariant *)

(** The entries and the tables, with a set [X] of entries that are in neither table at
    the moment and a difference [d] of the counter of new entries. *)
Record core (X : gset Z) (d : Z) (s : CAddrMan) : Prop := {
  c_addr : forall id i, mapInfo s !! id = Some i -> mapAddr s !! net_key (info_ip i) = Some id;
  c_info : forall k id, mapAddr s !! k = Some id -> exists i, mapInfo s !! id = Some i /\ net_key (info_ip i) = k;
  c_new : forall b p id, vvNew s !! (b, p) = Some id ->
    0 <= b < 1024 /\ id ∉ X /\ exists i, mapInfo s !! id = Some i /\ fInTried i = false /\ position i true b = Some p;
  c_refs : forall id i, mapInfo s !! id = Some i -> nRefCount i = tally (fun v => v =? id) (vvNew s);
  c_kept : forall id i, mapInfo s !! id = Some i -> fInTried i = false -> id ∉ X -> 1 <= nRefCount i <= 8;
  c_tried : forall b p id, vvTried s !! (b, p) = Some id ->
    exists i, mapInfo s !! id = Some i /\ fInTried i = true /\ tried_bucket i = Some b /\ position i false b = Some p;
  c_in : forall id i, mapInfo s !! id = Some i -> fInTried i = true ->
    id ∉ X /\ (exists b p, vvTried s !! (b, p) = Some id) /\ nLastSuccess i <> 0;
  c_float : forall id, id ∈ X -> is_Some (mapInfo s !! id);
  c_ids : forall id i, mapInfo s !! id = Some i -> 0 <= id < nIdCount s;
  c_ok : forall id i, mapInfo s !! id = Some i -> info_ok i;
  c_ntried : nTried s = tally fInTried (mapInfo s);
  c_nnew : nNew s = tally (fun i => negb (fInTried i)) (mapInfo s) + d;
  c_count : 0 <= nIdCount s < 2 ^ 31;
  c_collisions : m_tried_collisions s = [] }.

(** The vector of all entries. *)
Record random (s : CAddrMan) : Prop := {
  r_pos : forall id i, mapInfo s !! id = Some i -> 0 <= nRandomPos i /\ vRandom s !! Z.to_nat (nRandomPos i) = Some id;
  r_entry : forall n id, vRandom s !! n = Some id -> exists i, mapInfo s !! id = Some i /\ nRandomPos i = Z.of_nat n }.

Definition inv (X : gset Z) (d : Z) (s : CAddrMan) : Prop := core X d s /\ random s.

(** Equal but for what the tables do not depend on. *)
Record alike (i j : CAddrInfo) : Prop := {
  a_service : service (peer j) = service (peer i);
  a_refs : nRefCount j = nRefCount i;
  a_tried : fInTried j = fInTried i }.

Lemma alike_refl i : alike i i.
Proof. done. Qed.
Lemma alike_trans i j k : alike i j -> alike j k -> alike i k.
Proof. intros [] []. split; congruence. Qed.
Lemma alike_key i j : alike i j -> net_key (info_ip j) = net_key (info_ip i).
Proof. intros [E _ _]. unfold info_ip. by rewrite E. Qed.

(** Find the entry that a lookup in an updated map is about. *)
Ltac entry_cases H :=
  apply lookup_insert_Some in H as [[<- <-]|[? H]].
Ltac entry_at id0 :=
  match goal with |- context [<[?k := _]> _ !! id0] =>
    destruct (decide (k = id0)) as [<-|?]; [rewrite lookup_insert_eq|rewrite lookup_insert_ne by done]
  end.

(** One entry is changed in what the tables do not depend on. *)
Lemma core_note X d s id i j :
  core X d s -> mapInfo s !! id = Some i -> alike i j -> info_ok j ->
  (fInTried i = true -> nLastSuccess j <> 0) ->
  core X d (with_info (<[id := j]> (mapInfo s)) s).
Proof.
  intros C Hi A Hj Hls. pose proof (alike_key _ _ A) as Hk. destruct A as [As Ar At].
  split; cbn [mapInfo mapAddr vvNew vvTried nTried nNew nIdCount m_tried_collisions with_info].
  - intros id' i' H. entry_cases H; [rewrite Hk|]; by apply (c_addr _ _ _ C).
  - intros k id' H. destruct (c_info _ _ _ C k id' H) as (i' & Hi' & E). entry_at id'; eauto.
    exists j. split; [done|]. rewrite Hk. congruence.
  - intros b p id' H. destruct (c_new _ _ _ C b p id' H) as (Hb & HX & i' & Hi' & Ht & Hp). split; [done|]. split; [done|].
    entry_at id'; eauto. exists j. rewrite (position_same i) by done. assert (i' = i) as -> by congruence. split; [done|]. split; congruence.
  - intros id' i' H. entry_cases H; [rewrite Ar|]; by apply (c_refs _ _ _ C).
  - intros id' i' H. entry_cases H; [rewrite Ar, At|]; by apply (c_kept _ _ _ C).
  - intros b p id' H. destruct (c_tried _ _ _ C b p id' H) as (i' & Hi' & Ht & Hb & Hp).
    entry_at id'; eauto. exists j. assert (i' = i) as -> by congruence. rewrite (position_same i), (tried_bucket_same i) by done.
    split; [done|]. split; [congruence|done].
  - intros id' i' H Ht. entry_cases H; [|by apply (c_in _ _ _ C)]. rewrite At in Ht.
    destruct (c_in _ _ _ C _ _ Hi Ht) as (H1 & H2 & _). auto.
  - intros id' H. entry_at id'; [done|]. by apply (c_float _ _ _ C).
  - intros id' i' H. entry_cases H; by eapply (c_ids _ _ _ C).
  - intros id' i' H. entry_cases H; [done|]. by eapply (c_ok _ _ _ C).
  - rewrite (tally_update _ _ _ _ _ Hi), At. rewrite (c_ntried _ _ _ C). lia.
  - rewrite (tally_update _ _ _ _ _ Hi), At. rewrite (c_nnew _ _ _ C). lia.
  - apply (c_count _ _ _ C).
  - apply (c_collisions _ _ _ C).
Qed.

Lemma random_note s id i j :
  random s -> mapInfo s !! id = Some i -> nRandomPos j = nRandomPos i ->
  random (with_info (<[id := j]> (mapInfo s)) s).
Proof.
  intros R Hi Hp. split; cbn.
  - intros id' i' H. entry_cases H; [rewrite Hp|]; by apply (r_pos _ R).
  - intros n id' H. destruct (r_entry _ R n id' H) as (i' & Hi' & E). entry_at id'; eauto.
    exists j. split; [done|]. congruence.
Qed.

Lemma inv_note X d s id i j :
  inv X d s -> mapInfo s !! id = Some i -> alike i j -> nRandomPos j = nRandomPos i -> info_ok j ->
  (fInTried i = true -> nLastSuccess j <> 0) ->
  inv X d (with_info (<[id := j]> (mapInfo s)) s).
Proof. intros [C R] Hi A Hp Hj Hls. split; [by eapply core_note|by eapply random_note]. Qed.

(** ** Changes of the tables *)

Abbreviation with_entry id j s := (with_info (<[id := j]> (mapInfo s)) s).

Lemma core_random_irrelevant X d s l : core X d s -> core X d (with_random l s).
Proof. intros C. by destruct C. Qed.

Lemma core_counter X d s n : core X d s -> core X (d + (n - nNew s)) (with_new n (vvNew s) s).
Proof. intros C. destruct C. split; try done. cbn. lia. Qed.

Lemma untried_float X d s id i : core X d s -> mapInfo s !! id = Some i -> id ∈ X -> fInTried i = false.
Proof.
  intros C Hi HX. destruct (fInTried i) eqn:E; [|done]. by destruct (c_in _ _ _ C id i Hi E) as [? _].
Qed.

(** An entry loses one of its places in the new table. *)
Lemma core_drop X X' d s b p id i :
  core X d s -> vvNew s !! (b, p) = Some id -> mapInfo s !! id = Some i ->
  (forall x, x ∈ X' <-> x ∈ X \/ (x = id /\ nRefCount i = 1)) ->
  core X' d (with_new (nNew s) (delete (b, p) (vvNew s)) (with_entry id (set_refs (nRefCount i - 1) i) s)).
Proof.
  intros C Hv Hi HX'. destruct (c_new _ _ _ C b p id Hv) as (Hb & HX & i0 & Hi0 & Ht & Hp).
  assert (i0 = i) as -> by congruence.
  assert (forall x, tally (fun v => v =? x) (delete (b, p) (vvNew s)) = tally (fun v => v =? x) (vvNew s) - Z.b2z (id =? x)) as Htl
    by (intros x; by apply (tally_delete (fun v => v =? x))).
  split; cbn [mapInfo mapAddr vvNew vvTried nTried nNew nIdCount m_tried_collisions with_info with_new].
  - intros id' i' H. entry_cases H; [exact (c_addr _ _ _ C _ _ Hi)|by apply (c_addr _ _ _ C)].
  - intros k id' H. destruct (c_info _ _ _ C k id' H) as (i' & Hi' & E). entry_at id'; eauto.
    assert (i' = i) as -> by congruence. eexists. split; [done|]. exact E.
  - intros b' p' id' H. pose proof H as H'. apply lookup_delete_Some in H as [_ H].
    destruct (c_new _ _ _ C b' p' id' H) as (Hb' & HX0 & i' & Hi' & Ht' & Hp'). split; [done|]. split.
    + intros [?|[-> E1]]%HX'; [done|]. assert (tally (fun v => v =? id) (delete (b, p) (vvNew s)) = 0) as E0.
      { rewrite Htl, Z.eqb_refl. rewrite (c_refs _ _ _ C _ _ Hi) in E1. cbn. lia. }
      pose proof (tally_zero _ _ E0 _ _ H') as F. cbn in F. by rewrite Z.eqb_refl in F.
    + entry_at id'; eauto. assert (i' = i) as -> by congruence. eexists. split; [done|]. by split.
  - intros id' i' H. rewrite Htl. entry_cases H.
    + rewrite Z.eqb_refl, <-(c_refs _ _ _ C _ _ Hi). done.
    + rewrite (proj2 (Z.eqb_neq id id')) by done. cbn. rewrite Z.sub_0_r. by apply (c_refs _ _ _ C).
  - intros id' i' H Ht' Hx. entry_cases H.
    + pose proof (c_kept _ _ _ C _ _ Hi Ht HX) as Hk. cbn. assert (nRefCount i <> 1) by (intros E; apply Hx, HX'; auto). lia.
    + apply (c_kept _ _ _ C id'); [done..|]. intros ?. apply Hx, HX'. auto.
  - intros b' p' id' H. destruct (c_tried _ _ _ C b' p' id' H) as (i' & Hi' & Ht' & Hrest). entry_at id'; eauto. congruence.
  - intros id' i' H Ht'. entry_cases H; [cbn in Ht'; congruence|].
    destruct (c_in _ _ _ C _ _ H Ht') as (H1 & H2 & H3). split; [|done]. intros [?|[-> _]]%HX'; done.
  - intros id' [H|[-> _]]%HX'; [|rewrite lookup_insert_eq; done]. entry_at id'; [done|]. by apply (c_float _ _ _ C).
  - intros id' i' H. entry_cases H; by eapply (c_ids _ _ _ C).
  - intros id' i' H. entry_cases H; [|by eapply (c_ok _ _ _ C)]. apply (c_ok _ _ _ C _ _ Hi).
  - rewrite (tally_update _ _ _ _ _ Hi), (c_ntried _ _ _ C). cbn. lia.
  - rewrite (tally_update _ _ _ _ _ Hi), (c_nnew _ _ _ C). cbn. lia.
  - apply (c_count _ _ _ C).
  - apply (c_collisions _ _ _ C).
Qed.

(** An entry gets a place in the new table. *)
Lemma core_enter X d s b p id i :
  core X d s -> vvNew s !! (b, p) = None -> mapInfo s !! id = Some i -> fInTried i = false ->
  nRefCount i < 8 -> 0 <= b < 1024 -> position i true b = Some p ->
  core (X ∖ {[id]}) d (with_new (nNew s) (<[(b, p) := id]> (vvNew s)) (with_entry id (set_refs (nRefCount i + 1) i) s)).
Proof.
  intros C Hv Hi Ht Hr Hb Hp.
  assert (0 <= nRefCount i) as Hr0 by (rewrite (c_refs _ _ _ C _ _ Hi); apply tally_nonneg).
  assert (forall x, tally (fun v => v =? x) (<[(b, p) := id]> (vvNew s)) = Z.b2z (id =? x) + tally (fun v => v =? x) (vvNew s)) as Htl
    by (intros x; by apply (tally_insert (fun v => v =? x))).
  split; cbn [mapInfo mapAddr vvNew vvTried nTried nNew nIdCount m_tried_collisions with_info with_new].
  - intros id' i' H. entry_cases H; [exact (c_addr _ _ _ C _ _ Hi)|by apply (c_addr _ _ _ C)].
  - intros k id' H. destruct (c_info _ _ _ C k id' H) as (i' & Hi' & E). entry_at id'; eauto.
    assert (i' = i) as -> by congruence. eexists. split; [done|]. exact E.
  - intros b' p' id' H. apply lookup_insert_Some in H as [[[= -> ->] <-]|[_ H]].
    + split; [done|]. split; [set_solver|]. rewrite lookup_insert_eq. eexists. split; [done|]. by split.
    + destruct (c_new _ _ _ C b' p' id' H) as (Hb' & HX0 & i' & Hi' & Ht' & Hp'). split; [done|]. split; [set_solver|].
      entry_at id'; eauto. assert (i' = i) as -> by congruence. eexists. split; [done|]. by split.
  - intros id' i' H. rewrite Htl. entry_cases H.
    + rewrite Z.eqb_refl, <-(c_refs _ _ _ C _ _ Hi). cbn. lia.
    + rewrite (proj2 (Z.eqb_neq id id')) by done. by apply (c_refs _ _ _ C).
  - intros id' i' H Ht' Hx. entry_cases H; [cbn; lia|]. apply (c_kept _ _ _ C id'); [done..|set_solver].
  - intros b' p' id' H. destruct (c_tried _ _ _ C b' p' id' H) as (i' & Hi' & Ht' & Hrest). entry_at id'; eauto. congruence.
  - intros id' i' H Ht'. entry_cases H; [cbn in Ht'; congruence|].
    destruct (c_in _ _ _ C _ _ H Ht') as (H1 & H2 & H3). split; [set_solver|done].
  - intros id' [H _]%elem_of_difference. entry_at id'; [done|]. by apply (c_float _ _ _ C).
  - intros id' i' H. entry_cases H; by eapply (c_ids _ _ _ C).
  - intros id' i' H. entry_cases H; [|by eapply (c_ok _ _ _ C)]. apply (c_ok _ _ _ C _ _ Hi).
  - rewrite (tally_update _ _ _ _ _ Hi), (c_ntried _ _ _ C). cbn. lia.
  - rewrite (tally_update _ _ _ _ _ Hi), (c_nnew _ _ _ C). cbn. lia.
  - apply (c_count _ _ _ C).
  - apply (c_collisions _ _ _ C).
Qed.

(** An entry that is nowhere gets a place in the tried table. *)
Lemma core_try X d s b p id i :
  core X d s -> id ∈ X -> vvTried s !! (b, p) = None -> mapInfo s !! id = Some i -> nLastSuccess i <> 0 ->
  tried_bucket i = Some b -> position i false b = Some p ->
  core (X ∖ {[id]}) (d + 1) (with_tried (nTried s + 1) (<[(b, p) := id]> (vvTried s)) (with_entry id (set_tried true i) s)).
Proof.
  intros C HX Hv Hi Hls Hb Hp. pose proof (untried_float _ _ _ _ _ C Hi HX) as Ht.
  split; cbn [mapInfo mapAddr vvNew vvTried nTried nNew nIdCount m_tried_collisions with_info with_tried].
  - intros id' i' H. entry_cases H; [exact (c_addr _ _ _ C _ _ Hi)|by apply (c_addr _ _ _ C)].
  - intros k id' H. destruct (c_info _ _ _ C k id' H) as (i' & Hi' & E). entry_at id'; eauto.
    assert (i' = i) as -> by congruence. eexists. split; [done|]. exact E.
  - intros b' p' id' H. destruct (c_new _ _ _ C b' p' id' H) as (Hb' & HX0 & i' & Hi' & Ht' & Hp'). split; [done|]. split; [set_solver|].
    rewrite lookup_insert_ne by (intros <-; done). eauto.
  - intros id' i' H. entry_cases H; [exact (c_refs _ _ _ C _ _ Hi)|by apply (c_refs _ _ _ C)].
  - intros id' i' H Ht' Hx. entry_cases H; [done|]. apply (c_kept _ _ _ C id'); [done..|set_solver].
  - intros b' p' id' H. apply lookup_insert_Some in H as [[[= -> ->] <-]|[_ H]].
    + rewrite lookup_insert_eq. eexists. split; [done|]. done.
    + destruct (c_tried _ _ _ C b' p' id' H) as (i' & Hi' & Ht' & Hrest).
      rewrite lookup_insert_ne by (intros <-; congruence). eauto.
  - intros id' i' H Ht'. entry_cases H.
    + split; [set_solver|]. split; [|done]. exists b, p. apply lookup_insert_eq.
    + destruct (c_in _ _ _ C _ _ H Ht') as (H1 & (b' & p' & H2) & H3). split; [set_solver|]. split; [|done].
      exists b', p'. rewrite lookup_insert_ne; [done|]. intros [= -> ->]. congruence.
  - intros id' [H _]%elem_of_difference. entry_at id'; [done|]. by apply (c_float _ _ _ C).
  - intros id' i' H. entry_cases H; by eapply (c_ids _ _ _ C).
  - intros id' i' H. entry_cases H; [|by eapply (c_ok _ _ _ C)]. apply (c_ok _ _ _ C _ _ Hi).
  - rewrite (tally_update _ _ _ _ _ Hi), (c_ntried _ _ _ C), Ht. cbn. lia.
  - rewrite (tally_update _ _ _ _ _ Hi), (c_nnew _ _ _ C), Ht. cbn. lia.
  - apply (c_count _ _ _ C).
  - apply (c_collisions _ _ _ C).
Qed.

(** An entry loses its place in the tried table. *)
Lemma core_untry X d s b p id i :
  core X d s -> vvTried s !! (b, p) = Some id -> mapInfo s !! id = Some i ->
  core ({[id]} ∪ X) (d - 1) (with_tried (nTried s - 1) (delete (b, p) (vvTried s)) (with_entry id (set_tried false i) s)).
Proof.
  intros C Hv Hi. destruct (c_tried _ _ _ C b p id Hv) as (i0 & Hi0 & Ht & Hb & Hp).
  assert (i0 = i) as -> by congruence.
  split; cbn [mapInfo mapAddr vvNew vvTried nTried nNew nIdCount m_tried_collisions with_info with_tried].
  - intros id' i' H. entry_cases H; [exact (c_addr _ _ _ C _ _ Hi)|by apply (c_addr _ _ _ C)].
  - intros k id' H. destruct (c_info _ _ _ C k id' H) as (i' & Hi' & E). entry_at id'; eauto.
    assert (i' = i) as -> by congruence. eexists. split; [done|]. exact E.
  - intros b' p' id' H. destruct (c_new _ _ _ C b' p' id' H) as (Hb' & HX0 & i' & Hi' & Ht' & Hp').
    assert (id <> id') by (intros <-; congruence). split; [done|]. split; [set_solver|]. rewrite lookup_insert_ne by done. eauto.
  - intros id' i' H. entry_cases H; [exact (c_refs _ _ _ C _ _ Hi)|by apply (c_refs _ _ _ C)].
  - intros id' i' H Ht' Hx. entry_cases H; [set_solver|]. apply (c_kept _ _ _ C id'); [done..|set_solver].
  - intros b' p' id' H. apply lookup_delete_Some in H as [Hne H].
    destruct (c_tried _ _ _ C b' p' id' H) as (i' & Hi' & Ht' & Hb' & Hp').
    entry_at id'; eauto. exfalso. apply Hne. assert (i' = i) as -> by congruence.
    assert (b' = b) as -> by congruence. congruence.
  - intros id' i' H Ht'. entry_cases H; [done|].
    destruct (c_in _ _ _ C _ _ H Ht') as (H1 & (b' & p' & H2) & H3). split; [set_solver|]. split; [|done].
    exists b', p'. rewrite lookup_delete_ne; [done|]. intros [= -> ->]. congruence.
  - intros id' H. entry_at id'; [done|]. apply (c_float _ _ _ C). set_solver.
  - intros id' i' H. entry_cases H; by eapply (c_ids _ _ _ C).
  - intros id' i' H. entry_cases H; [|by eapply (c_ok _ _ _ C)]. apply (c_ok _ _ _ C _ _ Hi).
  - rewrite (tally_update _ _ _ _ _ Hi), (c_ntried _ _ _ C), Ht. cbn. lia.
  - rewrite (tally_update _ _ _ _ _ Hi), (c_nnew _ _ _ C), Ht. cbn. lia.
  - apply (c_count _ _ _ C).
  - apply (c_collisions _ _ _ C).
Qed.

(** A new entry. *)
Lemma core_create X d s a src l :
  core X d s -> mapAddr s !! net_key (ip (service a)) = None -> nIdCount s + 1 < 2 ^ 31 ->
  info_ok (new_info a src) ->
  core ({[nIdCount s]} ∪ X) d
    (Man (nIdCount s + 1) (<[nIdCount s := set_pos (Zlen l) (new_info a src)]> (mapInfo s))
       (<[net_key (ip (service a)) := nIdCount s]> (mapAddr s)) (l ++ [nIdCount s])
       (nTried s) (vvTried s) (nNew s + 1) (vvNew s) (m_tried_collisions s)).
Proof.
  intros C Hk Hc Hok. set (n := nIdCount s) in *. set (j := set_pos _ _).
  assert (mapInfo s !! n = None) as Hn.
  { destruct (mapInfo s !! n) as [i|] eqn:E; [|done]. pose proof (c_ids _ _ _ C _ _ E). unfold n in *. lia. }
  assert (forall id i, mapInfo s !! id = Some i -> n <> id) as Hfresh by (intros id i Hi ->; congruence).
  split; cbn [mapInfo mapAddr vvNew vvTried nTried nNew nIdCount m_tried_collisions].
  - intros id' i' H. entry_cases H; [apply lookup_insert_eq|]. rewrite lookup_insert_ne; [by apply (c_addr _ _ _ C)|].
    intros E. rewrite E in Hk. by rewrite (c_addr _ _ _ C _ _ H) in Hk.
  - intros k id' H. apply lookup_insert_Some in H as [[<- <-]|[Hne H]].
    + rewrite lookup_insert_eq. eauto.
    + destruct (c_info _ _ _ C k id' H) as (i' & Hi' & E). rewrite lookup_insert_ne by (by eapply Hfresh). eauto.
  - intros b p id' H. destruct (c_new _ _ _ C b p id' H) as (Hb & HX & i' & Hi' & Hrest). pose proof (Hfresh _ _ Hi').
    split; [done|]. split; [set_solver|]. rewrite lookup_insert_ne by done. eauto.
  - intros id' i' H. entry_cases H; [|by apply (c_refs _ _ _ C)]. symmetry. apply tally_none.
    intros [b p] v Hv. destruct (c_new _ _ _ C b p v Hv) as (_ & _ & i' & Hi' & _). apply Z.eqb_neq.
    intros ->. by apply (Hfresh _ _ Hi').
  - intros id' i' H Ht Hx. entry_cases H; [set_solver|]. apply (c_kept _ _ _ C id'); [done..|set_solver].
  - intros b p id' H. destruct (c_tried _ _ _ C b p id' H) as (i' & Hi' & Hrest).
    rewrite lookup_insert_ne by (by eapply Hfresh). eauto.
  - intros id' i' H Ht. entry_cases H; [done|]. destruct (c_in _ _ _ C _ _ H Ht) as (H1 & H2). split; [set_solver|done].
  - intros id' H. entry_at id'; [done|]. apply (c_float _ _ _ C). set_solver.
  - intros id' i' H. pose proof (c_count _ _ _ C). entry_cases H; [unfold n in *; lia|]. pose proof (c_ids _ _ _ C _ _ H). unfold n in *. lia.
  - intros id' i' H. entry_cases H; [exact Hok|]. by eapply (c_ok _ _ _ C).
  - rewrite (tally_insert _ _ _ _ Hn), (c_ntried _ _ _ C). done.
  - rewrite (tally_insert _ _ _ _ Hn), (c_nnew _ _ _ C). cbn. lia.
  - pose proof (c_count _ _ _ C). unfold n in *. lia.
  - apply (c_collisions _ _ _ C).
Qed.

(** An entry that is nowhere is erased. *)
Lemma core_erase X d s id i l :
  core X d s -> id ∈ X -> mapInfo s !! id = Some i ->
  core (X ∖ {[id]}) d
    (Man (nIdCount s) (delete id (mapInfo s)) (delete (net_key (info_ip i)) (mapAddr s)) l
       (nTried s) (vvTried s) (nNew s - 1) (vvNew s) (m_tried_collisions s)).
Proof.
  intros C HX Hi. pose proof (untried_float _ _ _ _ _ C Hi HX) as Ht.
  split; cbn [mapInfo mapAddr vvNew vvTried nTried nNew nIdCount m_tried_collisions].
  - intros id' i' H. apply lookup_delete_Some in H as [Hne H]. pose proof (c_addr _ _ _ C _ _ H) as E.
    rewrite lookup_delete_ne; [done|]. intros Ek. rewrite <-Ek in E. pose proof (c_addr _ _ _ C _ _ Hi). congruence.
  - intros k id' H. apply lookup_delete_Some in H as [Hne H]. destruct (c_info _ _ _ C k id' H) as (i' & Hi' & E).
    rewrite lookup_delete_ne by (intros <-; congruence). eauto.
  - intros b p id' H. destruct (c_new _ _ _ C b p id' H) as (Hb & HX' & i' & Hi' & Hrest). split; [done|]. split; [set_solver|].
    rewrite lookup_delete_ne by (intros <-; done). eauto.
  - intros id' i' H. apply lookup_delete_Some in H as [Hne H]. by apply (c_refs _ _ _ C).
  - intros id' i' H Ht' Hx. apply lookup_delete_Some in H as [Hne H]. apply (c_kept _ _ _ C id'); [done..|set_solver].
  - intros b p id' H. destruct (c_tried _ _ _ C b p id' H) as (i' & Hi' & Ht' & Hrest).
    rewrite lookup_delete_ne by (intros <-; congruence). eauto.
  - intros id' i' H Ht'. apply lookup_delete_Some in H as [Hne H]. destruct (c_in _ _ _ C _ _ H Ht') as (H1 & H2). split; [set_solver|done].
  - intros id' [H Hne]%elem_of_difference. rewrite lookup_delete_ne by set_solver. by apply (c_float _ _ _ C).
  - intros id' i' H. apply lookup_delete_Some in H as [_ H]. by eapply (c_ids _ _ _ C).
  - intros id' i' H. apply lookup_delete_Some in H as [_ H]. by eapply (c_ok _ _ _ C).
  - rewrite (tally_delete _ _ _ _ Hi), (c_ntried _ _ _ C), Ht. cbn. lia.
  - rewrite (tally_delete _ _ _ _ Hi), (c_nnew _ _ _ C), Ht. cbn. lia.
  - apply (c_count _ _ _ C).
  - apply (c_collisions _ _ _ C).
Qed.

(** ** The vector of all entries *)

(** The entries of two states, up to their positions in the vector. *)
Definition moved (s s' : CAddrMan) (id : Z) : Prop :=
  forall i, mapInfo s !! id = Some i -> exists n, mapInfo s' !! id = Some (set_pos n i).

Lemma set_pos_same i : set_pos (nRandomPos i) i = i.
Proof. by destruct i. Qed.
Lemma set_pos_twice m n i : set_pos m (set_pos n i) = set_pos m i.
Proof. done. Qed.

Lemma moved_refl s id : moved s s id.
Proof. intros i Hi. exists (nRandomPos i). by rewrite set_pos_same. Qed.
Lemma moved_trans s1 s2 s3 id : moved s1 s2 id -> moved s2 s3 id -> moved s1 s3 id.
Proof. intros H1 H2 i Hi. destruct (H1 i Hi) as [n Hn]. destruct (H2 _ Hn) as [m Hm]. exists m. by rewrite set_pos_twice in Hm. Qed.

Lemma core_pos X d s id i n :
  core X d s -> mapInfo s !! id = Some i -> core X d (with_entry id (set_pos n i) s).
Proof.
  intros C Hi. eapply core_note; [done|done|by split|apply (c_ok _ _ _ C _ _ Hi)|].
  intros Ht. by apply (c_in _ _ _ C _ _ Hi Ht).
Qed.

Lemma random_distinct s m n id : random s -> vRandom s !! m = Some id -> vRandom s !! n = Some id -> m = n.
Proof.
  intros R Hm Hn. destruct (r_entry _ R m id Hm) as (i & Hi & E1). destruct (r_entry _ R n id Hn) as (j & Hj & E2).
  assert (i = j) as -> by congruence. lia.
Qed.

Lemma random_length X d s : inv X d s -> Zlen (vRandom s) < 2 ^ 31.
Proof.
  intros [C R]. pose proof (c_count _ _ _ C). enough (length (vRandom s) <= Z.to_nat (nIdCount s))%nat by (unfold Zlen; lia).
  rewrite <-(length_seq (Z.to_nat (nIdCount s)) 0), <-(length_map Z.of_nat). apply NoDup_incl_length.
  - apply base.NoDup_ListNoDup || apply NoDup_ListNoDup. apply NoDup_alt. intros m n id Hm Hn. by eapply random_distinct.
  - intros id Hin. apply list_elem_of_In, list_elem_of_lookup in Hin as [n Hn]. destruct (r_entry _ R n id Hn) as (i & Hi & _).
    pose proof (c_ids _ _ _ C _ _ Hi). apply in_map_iff. exists (Z.to_nat id). split; [lia|]. apply in_seq. lia.
Qed.

(** Swapping two positions keeps everything but them. *)
Lemma SwapRandom_ok X d s m n :
  inv X d s -> (m < length (vRandom s))%nat -> (n < length (vRandom s))%nat ->
  exists s', SwapRandom (Z.of_nat m) (Z.of_nat n) s = Some s' /\ inv X d s' /\
    (forall id, moved s s' id) /\ (forall id, mapInfo s !! id = None -> mapInfo s' !! id = None) /\
    vvNew s' = vvNew s /\ vvTried s' = vvTried s /\ mapAddr s' = mapAddr s /\ nIdCount s' = nIdCount s /\
    length (vRandom s') = length (vRandom s) /\ vRandom s' !! n = vRandom s !! m.
Proof.
  intros [C R] Hm Hn. unfold SwapRandom. destruct (Z.eqb_spec (Z.of_nat m) (Z.of_nat n)) as [E|E].
  { exists s. apply Nat2Z.inj in E as ->. split; [done|]. split; [by split|]. split; [intros; apply moved_refl|]. done. }
  destruct (lookup_lt_is_Some_2 _ _ Hm) as [id1 H1]. destruct (lookup_lt_is_Some_2 _ _ Hn) as [id2 H2].
  destruct (r_entry _ R m id1 H1) as (i1 & Hi1 & P1). destruct (r_entry _ R n id2 H2) as (i2 & Hi2 & P2).
  assert (id1 <> id2) as Hne by (intros <-; pose proof (random_distinct _ _ _ _ R H1 H2); lia).
  rewrite !Nat2Z.id, H1. cbn [mbind option_bind]. rewrite H2. cbn [mbind option_bind]. unfold upd. rewrite Hi1, Hi2.
  cbn [mbind option_bind mapInfo with_info vRandom].
  rewrite lookup_insert_ne, Hi2 by done. cbn [mbind option_bind]. eexists. split; [done|].
  assert (forall id i, <[id2 := set_pos (Z.of_nat m) i2]> (<[id1 := set_pos (Z.of_nat n) i1]> (mapInfo s)) !! id = Some i ->
    (id = id2 /\ i = set_pos (Z.of_nat m) i2) \/ (id = id1 /\ i = set_pos (Z.of_nat n) i1) \/
    (id <> id1 /\ id <> id2 /\ mapInfo s !! id = Some i)) as Hcases.
  { intros id i H. apply lookup_insert_Some in H as [[<- <-]|[Hx H]]; [auto|]. apply lookup_insert_Some in H as [[<- <-]|[Hy H]]; auto. }
  assert (forall k, <[n := id1]> (<[m := id2]> (vRandom s)) !! k =
    if decide (k = n) then Some id1 else if decide (k = m) then Some id2 else vRandom s !! k) as Hvec.
  { intros k. destruct (decide (k = n)) as [->|Hkn]; [apply list_lookup_insert_eq; rewrite length_insert; done|].
    rewrite list_lookup_insert_ne by done. destruct (decide (k = m)) as [->|Hkm]; [by apply list_lookup_insert_eq|].
    by rewrite list_lookup_insert_ne by done. }
  split; [split|].
  - apply core_random_irrelevant.
    refine (core_pos X d (with_entry id1 (set_pos (Z.of_nat n) i1) s) id2 i2 (Z.of_nat m) _ _).
    + by apply core_pos.
    + cbn. by rewrite lookup_insert_ne.
  - split; cbn [mapInfo vRandom with_info with_random].
    + intros id i H. rewrite Hvec. apply Hcases in H as [[-> ->]|[[-> ->]|(N1 & N2 & H)]]; cbn [nRandomPos set_pos];
        rewrite ?Nat2Z.id; (split; [|]); try lia.
      * rewrite decide_False, decide_True by (done || lia). done.
      * by rewrite decide_True.
      * apply (r_pos _ R _ _ H).
      * destruct (r_pos _ R _ _ H) as [Hp Hl]. rewrite !decide_False; [done|intros Ek; rewrite Ek in Hl; congruence..].
    + intros k id H. rewrite Hvec in H. destruct (decide (k = n)) as [->|Hkn]; [injection H as <-|destruct (decide (k = m)) as [->|Hkm]; [injection H as <-|]].
      * rewrite lookup_insert_ne, lookup_insert_eq by done. eauto.
      * rewrite lookup_insert_eq. eauto.
      * destruct (r_entry _ R k id H) as (i & Hi & P).
        assert (id <> id1) by (intros ->; assert (i = i1) as -> by congruence; lia).
        assert (id <> id2) by (intros ->; assert (i = i2) as -> by congruence; lia).
        rewrite !lookup_insert_ne by done. eauto.
  - cbn [mapInfo vvNew vvTried mapAddr nIdCount vRandom with_info with_random]. repeat split.
    + intros id i Hi. cbn [mapInfo with_info with_random]. destruct (decide (id = id2)) as [->|N2].
      { rewrite lookup_insert_eq. assert (i = i2) as -> by congruence. eauto. }
      rewrite lookup_insert_ne by done. destruct (decide (id = id1)) as [->|N1].
      { rewrite lookup_insert_eq. assert (i = i1) as -> by congruence. eauto. }
      rewrite lookup_insert_ne by done. exists (nRandomPos i). by rewrite set_pos_same.
    + intros id H. rewrite !lookup_insert_ne by (intros <-; congruence). done.
    + by rewrite !length_insert.
    + by rewrite Hvec, decide_True by done.
Qed.

(** ** Erasing an entry *)

(** What an operation leaves of the entries it is not about. *)
Record frame (gone : Z -> Prop) (s s' : CAddrMan) : Prop := {
  f_moved : forall id, ~ gone id -> moved s s' id;
  f_none : forall id, mapInfo s !! id = None -> mapInfo s' !! id = None;
  f_tried : vvTried s' = vvTried s;
  f_ids : nIdCount s' = nIdCount s }.

Lemma random_pop s id i :
  random s -> mapInfo s !! id = Some i -> nRandomPos i = Zlen (vRandom s) - 1 ->
  random (Man (nIdCount s) (delete id (mapInfo s)) (delete (net_key (info_ip i)) (mapAddr s)) (removelast (vRandom s))
     (nTried s) (vvTried s) (nNew s - 1) (vvNew s) (m_tried_collisions s)).
Proof.
  intros R Hi Hp. destruct (r_pos _ R _ _ Hi) as [Hp0 Hl]. rewrite Hp in Hl. unfold Zlen in *.
  split; cbn [mapInfo vRandom]; rewrite removelast_firstn_len.
  - intros id' i' H. apply lookup_delete_Some in H as [Hne H]. destruct (r_pos _ R _ _ H) as [Hp' Hl']. split; [done|].
    rewrite lookup_take_lt; [done|]. pose proof (lookup_lt_Some _ _ _ Hl').
    enough (Z.to_nat (nRandomPos i') <> Z.to_nat (Z.of_nat (length (vRandom s)) - 1)) by lia. intros E. rewrite E in Hl'. congruence.
  - intros n id' H. apply lookup_take_Some in H as [H Hn]. destruct (r_entry _ R n id' H) as (i' & Hi' & P).
    rewrite lookup_delete_ne; [eauto|]. intros <-. assert (i' = i) as -> by congruence. lia.
Qed.

Lemma Delete_ok X d s id i :
  inv X d s -> id ∈ X -> mapInfo s !! id = Some i ->
  exists s', Delete id s = Some s' /\ inv (X ∖ {[id]}) d s' /\ frame (fun x => x = id) s s' /\ vvNew s' = vvNew s.
Proof.
  intros Hinv HX Hi. pose proof (random_length _ _ _ Hinv) as Hlen. unfold Zlen in Hlen.
  destruct (r_pos _ (proj2 Hinv) _ _ Hi) as [Hp Hl]. pose proof (lookup_lt_Some _ _ _ Hl) as Hlt.
  destruct (SwapRandom_ok X d s (Z.to_nat (nRandomPos i)) (length (vRandom s) - 1) Hinv) as
    (s1 & E & [C1 R1] & Hmv & Hno & Hnew & Htr & Had & Hid & Hl1 & Hlast); [lia..|].
  unfold Delete. rewrite Hi. rewrite !u32_id by (unfold is_u, Zlen; lia). unfold Zlen.
  replace (nRandomPos i) with (Z.of_nat (Z.to_nat (nRandomPos i))) by lia.
  replace (Z.of_nat (length (vRandom s)) - 1) with (Z.of_nat (length (vRandom s) - 1)) by lia.
  rewrite E. cbn [mbind option_bind]. destruct (Hmv id i Hi) as [n Hn].
  assert (n = Zlen (vRandom s1) - 1) as ->.
  { rewrite Hl in Hlast. destruct (r_entry _ R1 _ _ Hlast) as (j & Hj & P). assert (j = set_pos n i) as -> by congruence.
    cbn in P. unfold Zlen. lia. }
  pose proof (core_erase X d s1 id _ (removelast (vRandom s1)) C1 HX Hn) as C2.
  pose proof (random_pop s1 id _ R1 Hn eq_refl) as R2.
  destruct (vRandom s1) as [|v l] eqn:Ev; [cbn in Hl1; lia|]. eexists. split; [done|].
  split; [split; [exact C2|exact R2]|]. split; [split|done]; cbn.
  - intros id' Hne i' Hi'. destruct (Hmv id' i' Hi') as [n' Hn']. exists n'. cbn. by rewrite lookup_delete_ne.
  - intros id' H. apply lookup_delete_None. right. by apply Hno.
  - done.
  - done.
Qed.

Lemma random_ext s s' : random s -> mapInfo s' = mapInfo s -> vRandom s' = vRandom s -> random s'.
Proof. intros [R1 R2] E1 E2. split; rewrite E1, E2; done. Qed.

(** ** Clearing a place of the new table *)

Lemma place_some (t : buckets) b p v : (forall x, t !! (b, p) = Some x -> 0 <= x) -> place t b p = v -> v <> -1 -> t !! (b, p) = Some v.
Proof. unfold place. destruct (t !! (b, p)); cbn; congruence. Qed.

Lemma place_none (t : buckets) b p : (forall x, t !! (b, p) = Some x -> 0 <= x) -> place t b p = -1 -> t !! (b, p) = None.
Proof. unfold place. destruct (t !! (b, p)) as [x|]; [|done]. cbn. intros H ->. specialize (H _ eq_refl). lia. Qed.

Lemma new_ids X d s b p x : core X d s -> vvNew s !! (b, p) = Some x -> 0 <= x.
Proof. intros C H. destruct (c_new _ _ _ C b p x H) as (_ & _ & i & Hi & _). apply (c_ids _ _ _ C _ _ Hi). Qed.
Lemma tried_ids X d s b p x : core X d s -> vvTried s !! (b, p) = Some x -> 0 <= x.
Proof. intros C H. destruct (c_tried _ _ _ C b p x H) as (i & Hi & _). apply (c_ids _ _ _ C _ _ Hi). Qed.

(** The place of the new table is empty afterwards; the entry that was there may be
    gone. *)
Lemma ClearNew_ok X d s b p :
  inv X d s ->
  exists s', ClearNew b p s = Some s' /\ inv X d s' /\ frame (fun x => vvNew s !! (b, p) = Some x) s s' /\
    vvNew s' = delete (b, p) (vvNew s) /\
    (forall x k, mapInfo s !! x = Some k -> 1 < nRefCount k ->
     exists j, mapInfo s' !! x = Some j /\ service (peer j) = service (peer k) /\ fInTried j = fInTried k).
Proof.
  intros Hinv. pose proof Hinv as [C R]. unfold ClearNew.
  destruct (Z.eqb_spec (place (vvNew s) b p) (-1)) as [E|E].
  { apply place_none in E; [|intros; by eapply new_ids]. exists s. split; [done|]. split; [done|].
    rewrite delete_id by done. split; [|split; [done|eauto]]. split; [intros; apply moved_refl|done..]. }
  pose proof (place_some _ _ _ _ (fun x => new_ids _ _ _ b p x C) eq_refl E) as Hv. set (id := place (vvNew s) b p) in *.
  destruct (c_new _ _ _ C b p id Hv) as (Hb & HX & i & Hi & Ht & Hp). rewrite Hi.
  pose proof (c_kept _ _ _ C _ _ Hi Ht HX) as Hr. rewrite (proj2 (Z.eqb_neq (nRefCount i) 0)) by lia.
  unfold upd. rewrite Hi. cbn [mbind option_bind set_place Z.eqb Pos.eqb]. change (-1 =? -1) with true. cbn iota.
  set (s1 := with_new _ _ _).
  assert (random s1) as R1 by (by apply (random_ext (with_entry id (set_refs (nRefCount i - 1) i) s)); [apply (random_note _ _ i)|..]).
  assert (frame (fun x => Some id = Some x) s s1) as F1.
  { split; [|intros id' H'; cbn; rewrite lookup_insert_ne by (intros <-; congruence)|..]; try done.
    intros id' Hne i' Hi'. exists (nRandomPos i'). cbn. rewrite lookup_insert_ne by (intros ->; by apply Hne).
    by rewrite set_pos_same. }
  destruct (Z.eqb_spec (nRefCount i - 1) 0) as [E0|E0].
  - pose proof (core_drop X ({[id]} ∪ X) d s b p id i C Hv Hi) as C1. fold s1 in C1.
    destruct (Delete_ok ({[id]} ∪ X) d s1 id (set_refs (nRefCount i - 1) i)) as (s2 & -> & I2 & F2 & Hn2).
    + split; [apply C1|done]. intros x. split; [intros [?%elem_of_singleton|?]%elem_of_union; [right; split; [done|lia]|by left]|set_solver].
    + set_solver.
    + cbn. apply lookup_insert_eq.
    + exists s2. split; [done|]. replace (({[id]} ∪ X) ∖ {[id]}) with X in I2 by set_solver. split; [done|]. rewrite Hv, Hn2. split; [|split; [done|]].
      2: { intros x k Hk Hk1. assert (x <> id) as Hx by (intros ->; assert (k = i) as -> by congruence; lia).
           assert (mapInfo s1 !! x = Some k) as Hk' by (cbn; by rewrite lookup_insert_ne).
           destruct (f_moved _ _ _ F2 x Hx k Hk') as [n Hn]. eauto. }
      split.
      * intros id' Hne. eapply moved_trans; [by apply F1|]. apply F2. intros ->. by apply Hne.
      * intros id' H'. by apply F2, F1.
      * rewrite (f_tried _ _ _ F2). apply F1.
      * rewrite (f_ids _ _ _ F2). apply F1.
  - exists s1. split; [done|]. rewrite Hv. split; [split; [|done]|split; [done|split; [done|]]].
    2: { intros x k Hk Hk1. cbn. entry_at x; [|eauto]. assert (k = i) as -> by congruence. eauto. }
    apply (core_drop X X d s b p id i C Hv Hi). intros x. split; [by left|]. intros [?|[_ ?]]; [done|lia].
Qed.

(** ** Leaving the new table *)

Lemma frame_refl G s : frame G s s.
Proof. split; [intros; apply moved_refl|done..]. Qed.

Lemma frame_trans (G : Z -> Prop) s1 s2 s3 : frame G s1 s2 -> frame G s2 s3 -> frame G s1 s3.
Proof.
  intros F1 F2. split.
  - intros id Hg. eapply moved_trans; [by apply F1|by apply F2].
  - intros id H. by apply F2, F1.
  - rewrite (f_tried _ _ _ F2). apply F1.
  - rewrite (f_ids _ _ _ F2). apply F1.
Qed.

Lemma buckets_from_all start b : 0 <= b < 1024 -> b ∈ buckets_from start.
Proof.
  intros Hb. unfold buckets_from, ADDRMAN_NEW_BUCKET_COUNT. apply list_elem_of_fmap. exists (Z.to_nat ((b - start) mod 1024)).
  pose proof (Z.mod_pos_bound (b - start) 1024 ltac:(lia)). split.
  - rewrite Z2Nat.id, Zplus_mod_idemp_r by lia. replace (start + (b - start)) with b by lia. symmetry. by apply Z.mod_small.
  - apply elem_of_seq. lia.
Qed.

(** The loop stops when the last reference is gone, or has been through its buckets. *)
Lemma leave_new_loop X d id bs : forall s i,
  inv X d s -> id ∉ X -> mapInfo s !! id = Some i -> fInTried i = false ->
  exists s' n, leave_new nKey bs id s = Some s' /\ mapInfo s' !! id = Some (set_refs n i) /\
    frame (fun x => x = id) s s' /\ (forall k v, vvNew s' !! k = Some v -> vvNew s !! k = Some v) /\
    (inv ({[id]} ∪ X) d s' \/ (inv X d s' /\ forall b p, vvNew s' !! (b, p) = Some id -> b ∉ bs)).
Proof.
  induction bs as [|b bs IH]; intros s i Hinv HX Hi Ht; cbn [leave_new].
  { exists s, (nRefCount i). split; [done|]. split; [by destruct i|]. split; [apply frame_refl|]. split; [done|].
    right. split; [done|]. intros b p _. apply not_elem_of_nil. }
  pose proof Hinv as [C R]. destruct (position_some i true b (c_ok _ _ _ C _ _ Hi)) as (p & Hp & _).
  rewrite Hi. cbn [mbind option_bind]. rewrite Hp. cbn [mbind option_bind].
  destruct (Z.eqb_spec (place (vvNew s) b p) id) as [E|E].
  - assert (vvNew s !! (b, p) = Some id) as Hv.
    { apply place_some; [intros; by eapply new_ids|done|]. pose proof (c_ids _ _ _ C _ _ Hi). lia. }
    unfold upd. cbn [mapInfo with_new]. rewrite Hi. cbn [mbind option_bind].
    change (set_place b p (-1) (vvNew s)) with (delete (b, p) (vvNew s)).
    set (s1 := with_info _ _).
    assert (random s1) as R1 by (by apply (random_ext (with_entry id (set_refs (nRefCount i - 1) i) s)); [apply (random_note _ _ i)|..]).
    assert (frame (fun x => x = id) s s1) as F1.
    { split; [|intros id' H'; cbn; rewrite lookup_insert_ne by (intros <-; congruence)|..]; try done.
      intros id' Hne i' Hi'. exists (nRandomPos i'). cbn. rewrite lookup_insert_ne by done. by rewrite set_pos_same. }
    assert (mapInfo s1 !! id = Some (set_refs (nRefCount i - 1) i)) as Hi1 by (cbn; apply lookup_insert_eq).
    assert (forall k v, vvNew s1 !! k = Some v -> vvNew s !! k = Some v) as Hsub
      by (intros k v H; cbn in H; by apply lookup_delete_Some in H as [_ H]).
    destruct (Z.eqb_spec (nRefCount i - 1) 0) as [E0|E0].
    + exists s1, (nRefCount i - 1). split; [done|]. split; [done|]. split; [done|]. split; [done|]. left. split; [|done].
      apply (core_drop X ({[id]} ∪ X) d s b p id i C Hv Hi). intros x. rewrite elem_of_union, elem_of_singleton.
      split; [intros [->|?]; [right; split; [done|lia]|by left]|intros [?|[-> _]]; [by right|by left]].
    + assert (inv X d s1) as I1.
      { split; [|done]. apply (core_drop X X d s b p id i C Hv Hi). intros x. split; [by left|]. intros [?|[_ ?]]; [done|lia]. }
      destruct (IH s1 _ I1 HX Hi1 Ht) as (s2 & n & E2 & Hi2 & F2 & Hsub2 & H2). exists s2, n.
      split; [done|]. split; [done|]. split; [by eapply frame_trans|]. split; [auto|].
      destruct H2 as [H2|[I2 H2]]; [by left|right]. split; [done|]. intros b' p' H'. apply not_elem_of_cons.
      split; [|by eapply H2]. intros ->. pose proof (Hsub2 _ _ H') as H1. cbn in H1. apply lookup_delete_Some in H1 as [Hne H1].
      destruct (c_new _ _ _ C _ _ _ H1) as (_ & _ & j & Hj & _ & Hp'). assert (j = i) as -> by congruence. congruence.
  - destruct (IH s i Hinv HX Hi Ht) as (s2 & n & E2 & Hi2 & F2 & Hsub2 & H2). exists s2, n.
    split; [done|]. split; [done|]. split; [done|]. split; [done|]. destruct H2 as [H2|[I2 H2]]; [by left|right].
    split; [done|]. intros b' p' H'. apply not_elem_of_cons. split; [|by eapply H2]. intros ->. apply E.
    pose proof (Hsub2 _ _ H') as H1. destruct (c_new _ _ _ C _ _ _ H1) as (_ & _ & j & Hj & _ & Hp').
    assert (j = i) as -> by congruence. assert (p' = p) as -> by congruence. unfold place. by rewrite H1.
Qed.

Lemma leave_new_ok X d s id i start :
  inv X d s -> id ∉ X -> mapInfo s !! id = Some i -> fInTried i = false ->
  exists s' n, leave_new nKey (buckets_from start) id s = Some s' /\ mapInfo s' !! id = Some (set_refs n i) /\
    frame (fun x => x = id) s s' /\ inv ({[id]} ∪ X) d s'.
Proof.
  intros Hinv HX Hi Ht. destruct (leave_new_loop X d id (buckets_from start) s i Hinv HX Hi Ht) as (s' & n & E & Hi' & F & _ & [I|[I Hno]]).
  { eauto 10. }
  exfalso. destruct I as [C R]. pose proof (c_kept _ _ _ C _ _ Hi' Ht HX) as Hk.
  rewrite (c_refs _ _ _ C _ _ Hi'), tally_none in Hk; [lia|]. intros [b p] v Hv. apply Z.eqb_neq. intros ->.
  destruct (c_new _ _ _ C _ _ _ Hv) as (Hb & _). apply (Hno b p Hv). by apply buckets_from_all.
Qed.

(** ** Moving an entry to the tried table *)

Lemma set_place_insert (b p v : Z) (t : buckets) : 0 <= v -> set_place b p v t = <[(b, p) := v]> t.
Proof. intros Hv. unfold set_place. by rewrite (proj2 (Z.eqb_neq v (-1))) by lia. Qed.

(** Of the entries in the tried table only [e] may leave it, and it stays known. *)
Definition keeps_but (e : Z) (s s' : CAddrMan) : Prop :=
  forall x k, mapInfo s !! x = Some k -> fInTried k = true ->
    exists j, mapInfo s' !! x = Some j /\ service (peer j) = service (peer k) /\ (x = e \/ fInTried j = true).

Lemma keeps_but_refl e s : keeps_but e s s.
Proof. intros x k Hk Ht. eauto. Qed.

(** What was in the place of the tried table is put back into the new table. *)
Lemma evict_ok X d s b p :
  inv X d s ->
  exists s', evict nKey m_asmap b p s = Some s' /\ inv X d s' /\ vvTried s' !! (b, p) = None /\
    (forall id, id ∈ X -> moved s s' id) /\ exists e, keeps_but e s s'.
Proof using Hmap.
  intros Hinv. pose proof Hinv as [C R]. unfold evict.
  destruct (Z.eqb_spec (place (vvTried s) b p) (-1)) as [E|E].
  { exists s. split; [done|]. split; [done|]. split; [apply place_none; [intros; by eapply tried_ids|done]|].
    split; [intros; apply moved_refl|]. exists 0. apply keeps_but_refl. }
  pose proof (place_some _ _ _ _ (fun x => tried_ids _ _ _ b p x C) eq_refl E) as Hv. set (e := place (vvTried s) b p) in *.
  destruct (c_tried _ _ _ C b p e Hv) as (i & Hi & Ht & Hb & Hp). destruct (c_in _ _ _ C _ _ Hi Ht) as (HX & _ & Hls).
  unfold touch, upd. rewrite !Hi. cbn [mbind option_bind]. rewrite ?Hi. cbn [mbind option_bind].
  change (set_place b p (-1) ?t) with (delete (b, p) t).
  set (s1 := with_tried _ _ _).
  assert (inv ({[e]} ∪ X) (d - 1) s1) as I1.
  { split; [exact (core_untry X d s b p e i C Hv Hi)|]. by apply (random_ext (with_entry e (set_tried false i) s)); [apply (random_note _ _ i)|..]. }
  pose proof (c_ok _ _ _ C _ _ Hi) as Hok.
  destruct (new_bucket_some i (source i) Hok) as (nb & Enb & Hnb); [apply Hok|].
  destruct (position_some i true nb Hok) as (np & Enp & _).
  rewrite Enb. cbn [mbind option_bind]. rewrite Enp. cbn [mbind option_bind].
  destruct (ClearNew_ok _ _ s1 nb np I1) as (s2 & -> & I2 & F2 & Hnew & _). cbn [mbind option_bind].
  assert (mapInfo s1 !! e = Some (set_tried false i)) as Hi1 by (cbn; apply lookup_insert_eq).
  assert (forall x, x ∈ {[e]} ∪ X -> moved s1 s2 x) as Hmv.
  { intros x Hx. apply F2. intros Hs. destruct (c_new _ _ _ (proj1 I1) _ _ _ Hs) as (_ & Hnx & _). done. }
  destruct (Hmv e ltac:(set_solver) _ Hi1) as [m Hi2]. set (j := set_pos m (set_tried false i)) in *.
  rewrite Hi2. cbn [mbind option_bind]. pose proof I2 as [C2 R2].
  assert (nRefCount j = 0) as Hr.
  { rewrite (c_refs _ _ _ C2 _ _ Hi2). apply tally_none. intros [b' p'] v Hv'. apply Z.eqb_neq. intros ->.
    destruct (c_new _ _ _ C2 _ _ _ Hv') as (_ & Hnx & _). set_solver. }
  assert (position j true nb = Some np) as Ejp by (rewrite <-Enp; by apply position_same).
  pose proof (core_enter _ _ s2 nb np e j C2 ltac:(by rewrite Hnew, lookup_delete_eq) Hi2 eq_refl ltac:(lia) Hnb Ejp) as C3.
  rewrite Hr in C3. apply (core_counter _ _ _ (nNew s2 + 1)) in C3. cbn [nNew with_new with_info vvNew] in C3.
  replace (d - 1 + (nNew s2 + 1 - nNew s2)) with d in C3 by lia.
  replace (({[e]} ∪ X) ∖ {[e]}) with X in C3 by set_solver.
  rewrite set_place_insert by (exact (tried_ids _ _ _ _ _ _ C Hv)). eexists. split; [done|]. split; [split; [exact C3|]|].
  - by apply (random_ext (with_entry e (set_refs 1 j) s2)); [apply (random_note _ _ j)|..].
  - split; [cbn; rewrite (f_tried _ _ _ F2); apply lookup_delete_eq|].
    split.
    + intros x Hx k Hk. assert (x <> e) as Hxe by (intros ->; done).
      destruct (Hmv x ltac:(set_solver) k) as [n Hn]; [cbn; by rewrite lookup_insert_ne|].
      exists n. cbn. by rewrite lookup_insert_ne.
    + exists e. intros x k Hk Htk. cbn. entry_at x; [assert (k = i) as -> by congruence; eauto|].
      assert (mapInfo s1 !! x = Some k) as Hk1 by (cbn; by rewrite lookup_insert_ne).
      destruct (f_moved _ _ _ F2 x) with k as [n' Hn]; [|done|eauto].
      intros Hs. destruct (c_new _ _ _ (proj1 I1) _ _ _ Hs) as (_ & _ & k' & Hk' & Hf & _). congruence.
Qed.

Lemma to_tried_ok s1 id i :
  inv {[id]} 0 s1 -> mapInfo s1 !! id = Some i -> nLastSuccess i <> 0 ->
  exists s' j, to_tried nKey m_asmap id s1 = Some s' /\ inv ∅ 0 s' /\
    mapInfo s' !! id = Some j /\ service (peer j) = service (peer i) /\ fInTried j = true /\
    exists e, keeps_but e s1 s'.
Proof using Hmap.
  intros [C1 R1] Hi1 Hls. unfold to_tried.
  apply (core_counter _ _ _ (nNew s1 - 1)) in C1. replace (0 + (nNew s1 - 1 - nNew s1)) with (-1) in C1 by lia.
  set (s2 := with_new _ _ s1) in *. assert (mapInfo s2 !! id = Some i) as Hi2 by done. rewrite Hi2. cbn [mbind option_bind].
  assert (inv {[id]} (-1) s2) as I2 by (split; [done|by apply (random_ext s1)]).
  pose proof (c_ok _ _ _ C1 _ _ Hi2) as Hok2.
  destruct (tried_bucket_some _ Hok2) as (tb & Etb & _). rewrite Etb. cbn [mbind option_bind].
  destruct (position_some _ false tb Hok2) as (tp & Etp & _). rewrite Etp. cbn [mbind option_bind].
  destruct (evict_ok _ _ s2 tb tp I2) as (s3 & -> & I3 & Hfree & Hmv & e & Hk). cbn [mbind option_bind].
  destruct (Hmv id ltac:(set_solver) _ Hi2) as [m Hi3]. unfold upd. cbn [mapInfo with_tried]. rewrite Hi3. cbn [mbind option_bind].
  pose proof I3 as [C3 R3]. set (j := set_pos m i) in *.
  rewrite set_place_insert by (apply (c_ids _ _ _ C3 _ _ Hi3)).
  assert (inv ({[id]} ∖ {[id]}) (-1 + 1)
    (with_tried (nTried s3 + 1) (<[(tb, tp) := id]> (vvTried s3)) (with_entry id (set_tried true j) s3))) as I4.
  { split.
    - apply (core_try _ _ s3 tb tp id j C3); [set_solver|done|done|done|by rewrite <-Etb; apply tried_bucket_same|by rewrite <-Etp; apply position_same].
    - by apply (random_ext (with_entry id (set_tried true j) s3)); [apply (random_note _ _ j)|..]. }
  assert (({[id]} ∖ {[id]} : gset Z) = ∅) as EX by set_solver. rewrite EX in I4. clear EX.
  eexists _, (set_tried true j). split; [reflexivity|]. split; [exact I4|].
  split; [apply lookup_insert_eq|]. split; [reflexivity|]. split; [reflexivity|]. exists e. intros x k Hx Htk.
  destruct (Hk x k Hx Htk) as (l & Hl & Es & Htl). cbn. entry_at x; [|eauto]. assert (l = j) as -> by congruence. eauto.
Qed.

Lemma bind_some {A B} (f : A -> option B) a : (Some a ≫= f) = f a.
Proof. done. Qed.

Lemma MakeTried_ok s id i :
  inv ∅ 0 s -> mapInfo s !! id = Some i -> fInTried i = false -> nLastSuccess i <> 0 ->
  exists s' j, MakeTried nKey m_asmap id s = Some s' /\ inv ∅ 0 s' /\
    mapInfo s' !! id = Some j /\ service (peer j) = service (peer i) /\ fInTried j = true /\
    exists e, keeps_but e s s'.
Proof using Hmap.
  intros Hinv Hi Ht Hls. pose proof (c_ok _ _ _ (proj1 Hinv) _ _ Hi) as Hok.
  destruct (new_bucket_some i (source i) Hok) as (nb & Enb & _); [apply Hok|].
  destruct (leave_new_ok _ _ s id i nb Hinv ltac:(set_solver) Hi Ht) as (s1 & n & E1 & Hi1 & F1 & I1).
  rewrite union_empty_r_L in I1.
  assert (MakeTried nKey m_asmap id s = to_tried nKey m_asmap id s1) as ->.
  { unfold MakeTried. rewrite Hi, bind_some, Enb, bind_some, E1. apply bind_some. }
  destruct (to_tried_ok s1 id _ I1 Hi1 Hls) as (s' & j & Er & Ir & Hj & Es & Htj & e & Hk).
  exists s', j. do 5 (split; [done|]). exists e. intros x k Hx Htk. assert (x <> id) as Hne by (intros ->; congruence).
  destruct (f_moved _ _ _ F1 x Hne k Hx) as [m' Hm]. exact (Hk x _ Hm Htk).
Qed.

(** ** The operations *)

Definition consistent (s : CAddrMan) : Prop := inv ∅ 0 s.

Lemma Find_some s a id : Find s a = Some id -> exists i, mapAddr s !! net_key a = Some id /\ mapInfo s !! id = Some i.
Proof.
  unfold Find. destruct (mapAddr s !! net_key a) as [id'|]; [|done]. cbn [mbind option_bind].
  destruct (mapInfo s !! id') as [i|] eqn:E; [|done]. intros [= ->]. eauto.
Qed.

Lemma Find_none X d s a : core X d s -> Find s a = None -> mapAddr s !! net_key a = None.
Proof.
  intros C. unfold Find. destruct (mapAddr s !! net_key a) as [id|] eqn:E; [|done]. cbn [mbind option_bind].
  destruct (c_info _ _ _ C _ _ E) as (i & -> & _). done.
Qed.

(** Noting something about one entry. *)
Lemma upd_ok s id i f :
  consistent s -> mapInfo s !! id = Some i -> alike i (f i) -> nRandomPos (f i) = nRandomPos i -> info_ok (f i) ->
  (fInTried i = true -> nLastSuccess (f i) <> 0) ->
  upd id f s = Some (with_entry id (f i) s) /\ consistent (with_entry id (f i) s).
Proof. intros Hinv Hi A Hp Hok Hls. unfold upd. rewrite Hi. split; [done|]. by eapply inv_note. Qed.

Lemma find_bucket_some bs id i t : info_ok i -> exists b, find_bucket nKey bs id i t = Some b.
Proof.
  intros Hi. induction bs as [|b bs IH]; cbn [find_bucket]; [eauto|].
  destruct (position_some i true b Hi) as (p & -> & _). cbn [mbind option_bind]. destruct (_ =? _); eauto.
Qed.

Lemma find_bucket_found bs id i t b p :
  info_ok i -> b ∈ bs -> position i true b = Some p -> t !! (b, p) = Some id -> find_bucket nKey bs id i t = Some true.
Proof.
  intros Hi Hb Hp Ht. induction bs as [|b' bs IH]; [by apply elem_of_nil in Hb|]. cbn [find_bucket].
  destruct (position_some i true b' Hi) as (p' & Hp' & _). rewrite Hp', bind_some.
  destruct (Z.eqb_spec (place t b' p') id) as [|E]; [done|]. apply IH. apply elem_of_cons in Hb as [->|Hb]; [|done].
  exfalso. apply E. assert (p' = p) as -> by congruence. unfold place. by rewrite Ht.
Qed.

(** A new entry is in some bucket. *)
Lemma in_new s id i : consistent s -> mapInfo s !! id = Some i -> fInTried i = false ->
  exists b p, vvNew s !! (b, p) = Some id.
Proof.
  intros [C R] Hi Ht. pose proof (c_kept _ _ _ C _ _ Hi Ht ltac:(set_solver)) as Hk. rewrite (c_refs _ _ _ C _ _ Hi) in Hk.
  destruct (decide (map_Exists (fun _ v => v = id) (vvNew s))) as [([b p] & v & Hv & ->)|Hno]; [eauto|].
  exfalso. rewrite tally_none in Hk; [lia|]. intros k v Hv. apply Z.eqb_neq. intros ->. apply Hno. exists k, id. done.
Qed.

Lemma Good_ok s addr t time rnd :
  consistent s -> 0 < time ->
  exists s', Good_ nKey m_asmap addr t time rnd s = Some s' /\ consistent s' /\
    (forall id i, Find s (ip addr) = Some id -> mapInfo s !! id = Some i -> service_eqb (service (peer i)) addr = true ->
     exists j, mapInfo s' !! id = Some j /\ service (peer j) = service (peer i) /\ fInTried j = true) /\
    exists e, keeps_but e s s'.
Proof using Hmap.
  intros Hinv Htime. pose proof (keeps_but_refl 0 s) as K0.
  unfold Good_. destruct (Find s (ip addr)) as [id|] eqn:Ef; [|exists s; do 3 (split; [done|]); eauto].
  destruct (Find_some _ _ _ Ef) as (i & Ha & Hi). rewrite Hi, bind_some.
  destruct (service_eqb (service (peer i)) addr) eqn:Es; cbn [negb].
  2: { exists s. split; [done|]. split; [done|]. split; [|eauto]. intros ? ? [= <-] Hi' Es'. assert (i = i0) as <- by congruence. congruence. }
  pose proof (c_ok _ _ _ (proj1 Hinv) _ _ Hi) as Hok.
  destruct (upd_ok s id i (set_tries time time 0) Hinv Hi) as [Eu Hinv1]; [done|done| |cbn; lia|].
  { destruct Hok as (H1 & H2 & H3 & _). split; [done|]. split; [done|]. split; [done|]. cbn. lia. }
  rewrite Eu, bind_some. set (s1 := with_entry id _ s) in *.
  assert (mapInfo s1 !! id = Some (set_tries time time 0 i)) as Hi1 by (cbn; apply lookup_insert_eq).
  assert (keeps_but 0 s s1) as K1.
  { intros x k Hx Htk. cbn. entry_at x; [|eauto]. assert (k = i) as -> by congruence. eauto. }
  destruct (fInTried i) eqn:Ht.
  { exists s1. split; [done|]. split; [done|]. split; [|eauto]. intros ? ? [= <-] Hi' _. assert (i = i0) as <- by congruence. eauto. }
  destruct (in_new s1 id _ Hinv1 Hi1 Ht) as (b & p & Hv). destruct (c_new _ _ _ (proj1 Hinv1) _ _ _ Hv) as (Hb & _ & k & Hk & _ & Hp).
  assert (k = set_tries time time 0 i) as -> by congruence.
  rewrite (find_bucket_found _ id i (vvNew s1) b p Hok (buckets_from_all rnd b Hb)), bind_some by (by rewrite (position_same (set_tries time time 0 i)) || done).
  destruct (MakeTried_ok s1 id _ Hinv1 Hi1 Ht ltac:(cbn; lia)) as (s' & j & E & Hinv' & Hj & Hs & Htr & e & Ke).
  exists s'. split; [done|]. split; [done|]. split.
  - intros ? ? [= <-] Hi' _. assert (i = i0) as <- by congruence. eauto.
  - exists e. intros x k Hx Htk. assert (id <> x) by (intros <-; congruence). apply Ke; [cbn; by rewrite lookup_insert_ne|done].
Qed.

(** What [enter] leaves as it is: the tried table and its entries, but for their
    positions in the random order. *)
Definition keeps_tried (s s' : CAddrMan) : Prop :=
  vvTried s' = vvTried s /\
  forall id i, mapInfo s !! id = Some i -> fInTried i = true -> exists n, mapInfo s' !! id = Some (set_pos n i).

(** What [Add_] does of its own to the entry of the address [a]: it takes over the services
    and, when the entry has no time or one that is older by the interval, the time less the penalty. *)
Definition told (now : Z) (a : CAddress) (pen : Z) (i j : CAddrInfo) : Prop :=
  exists t, j = add_services (nServices a) (set_time t i) /\
    (t = nTime (peer i) \/
     (nTime a <> 0 /\ t = u32 (Z.max 0 (nTime a - pen)) /\
      (nTime (peer i) = 0 \/
       nTime (peer i) < nTime a - (if now - nTime a <? 24 * 60 * 60 then 60 * 60 else 24 * 60 * 60) - pen))).

(** The same with the address that is told. *)
Definition keeps_told (now : Z) (a : CAddress) (pen : Z) (s s' : CAddrMan) : Prop :=
  vvTried s' = vvTried s /\
  forall id i, mapInfo s !! id = Some i -> fInTried i = true -> exists n,
    mapInfo s' !! id = Some (set_pos n i) \/
    (net_key (info_ip i) = net_key (ip (service a)) /\
     exists j, told now a pen i j /\ mapInfo s' !! id = Some (set_pos n j)).

Lemma keeps_trans s1 s2 s3 : keeps_tried s1 s2 -> keeps_tried s2 s3 -> keeps_tried s1 s3.
Proof.
  intros [E1 H1] [E2 H2]. split; [congruence|]. intros id i Hi Ht. destruct (H1 id i Hi Ht) as (n & Hn).
  destruct (H2 id _ Hn Ht) as (m & Hm). exists m. rewrite Hm. done.
Qed.

Lemma told_trans now a pen s1 s2 s3 : keeps_told now a pen s1 s2 -> keeps_tried s2 s3 -> keeps_told now a pen s1 s3.
Proof.
  intros [E1 H1] [E2 H2]. split; [congruence|]. intros id i Hi Ht. destruct (H1 id i Hi Ht) as (n & [Hn|(Hk & j & Hj & Hn)]).
  - destruct (H2 id _ Hn Ht) as (m & Hm). exists m. left. rewrite Hm. done.
  - assert (fInTried (set_pos n j) = true) as Htj by (destruct Hj as (t & -> & _); exact Ht).
    destruct (H2 id _ Hn Htj) as (m & Hm). exists m. right. split; [done|]. exists j. split; [done|]. rewrite Hm. done.
Qed.

Lemma same_pos i : i = set_pos (nRandomPos i) i.
Proof. by destruct i. Qed.
Lemma keeps_refl s : keeps_tried s s.
Proof. split; [done|]. intros id i Hi _. exists (nRandomPos i). by rewrite <-same_pos. Qed.
Lemma keeps_is_told now a pen s s' : keeps_tried s s' -> keeps_told now a pen s s'.
Proof. intros [E H]. split; [done|]. intros id i Hi Ht. destruct (H id i Hi Ht) as [n Hn]. exists n. by left. Qed.

(** A frame around an entry that is not in the tried table keeps that table. *)
Lemma frame_keeps (G : Z -> Prop) s s' :
  frame G s s' -> (forall id i, mapInfo s !! id = Some i -> fInTried i = true -> ~ G id) -> keeps_tried s s'.
Proof.
  intros F HG. split; [apply F|]. intros id i Hi Ht. by destruct (f_moved _ _ _ F id (HG id i Hi Ht) i Hi) as [n Hn]; exists n.
Qed.

Lemma refresh_ok now addr pen rnd s id i :
  consistent s -> mapInfo s !! id = Some i -> net_key (info_ip i) = net_key (ip (service addr)) ->
  exists go s' j, refresh now addr pen rnd id s = Some (go, s') /\ consistent s' /\ keeps_told now addr pen s s' /\
    mapInfo s' !! id = Some j /\ alike i j /\ info_ok j /\ (forall x, x <> id -> mapInfo s' !! x = mapInfo s !! x) /\
    (go = true -> fInTried i = false /\ nRefCount i < 8).
Proof.
  intros Hinv Hi Hkey. unfold refresh. rewrite Hi, bind_some. cbv zeta. set (g := if (_ && _) then _ else _).
  pose proof (c_ok _ _ _ (proj1 Hinv) _ _ Hi) as Hok.
  assert (exists t, g i = set_time t i /\ told now addr pen i (add_services (nServices addr) (g i))) as (t & Eg & Htold).
  { unfold g. destruct (negb (nTime addr =? 0) && _) eqn:El.
    - eexists. split; [reflexivity|]. eexists. split; [reflexivity|]. right.
      apply andb_true_iff in El as [H1%negb_true_iff%Z.eqb_neq H2]. split; [done|]. split; [done|].
      apply orb_true_iff in H2 as [H2%Z.eqb_eq|H2%Z.ltb_lt]; auto.
    - assert (i = set_time (nTime (peer i)) i) as Ei by (by destruct i as [[]]).
      exists (nTime (peer i)). split; [exact Ei|]. exists (nTime (peer i)). split; [by rewrite <-Ei|by left]. }
  assert (forall tt, fInTried i = true -> nLastSuccess (set_time tt i) <> 0) as Hls
    by (intros tt Ht; by apply (c_in _ _ _ (proj1 Hinv) _ _ Hi Ht)).
  destruct (upd_ok s id i g Hinv Hi) as [Eu H1]; [by rewrite Eg|by rewrite Eg|by rewrite Eg|by rewrite Eg; apply Hls|].
  rewrite Eu, bind_some. set (s1 := with_entry id (g i) s) in *.
  assert (mapInfo s1 !! id = Some (g i)) as Hi1 by (cbn; apply lookup_insert_eq).
  destruct (upd_ok s1 id (g i) (add_services (nServices addr)) H1 Hi1) as [Eu2 H2]; [done|done|by rewrite Eg|by rewrite Eg; apply Hls|].
  rewrite Eu2, bind_some. set (s2 := with_entry id _ s1) in *. set (j := add_services (nServices addr) (g i)) in *.
  assert (mapInfo s2 !! id = Some j) as Hi2 by (cbn; apply lookup_insert_eq). rewrite Hi2, bind_some.
  assert (alike i j) as A by (unfold j; by rewrite Eg).
  assert (forall x, x <> id -> mapInfo s2 !! x = mapInfo s !! x) as Hoth by (intros x Hx; cbn; by rewrite !lookup_insert_ne by done).
  assert (keeps_told now addr pen s s2) as K.
  { split; [done|]. intros x k Hk Ht. exists (nRandomPos k). destruct (decide (x = id)) as [->|Hx].
    - assert (k = i) as -> by congruence. right. split; [done|]. exists j. split; [done|]. rewrite Hi2. f_equal.
      rewrite (same_pos j). unfold j. by rewrite Eg.
    - left. rewrite Hoth by done. by rewrite <-same_pos. }
  assert (info_ok j) as Hjok by (unfold j; rewrite Eg; exact Hok).
  pose proof (a_tried _ _ A) as At. pose proof (a_refs _ _ A) as Ar. rewrite At, Ar.
  assert (exists go s' j, Some (false, s2) = Some (go, s') /\ consistent s' /\ keeps_told now addr pen s s' /\
    mapInfo s' !! id = Some j /\ alike i j /\ info_ok j /\ (forall x, x <> id -> mapInfo s' !! x = mapInfo s !! x) /\
    (go = true -> fInTried i = false /\ nRefCount i < 8)) as Hstop by (exists false, s2, j; done).
  match goal with |- context [if ?c then Some (false, s2) else _] => destruct c; [exact Hstop|] end.
  destruct (fInTried i) eqn:Ht; [exact Hstop|].
  destruct (Z.eqb_spec (nRefCount i) ADDRMAN_NEW_BUCKETS_PER_ADDRESS) as [|Hr]; [exact Hstop|].
  match goal with |- context [if ?c then Some (false, s2) else _] => destruct c; [exact Hstop|] end.
  exists true, s2, j. do 7 (split; [done|]). intros _. split; [done|].
  pose proof (c_kept _ _ _ (proj1 Hinv) _ _ Hi Ht ltac:(set_solver)). unfold ADDRMAN_NEW_BUCKETS_PER_ADDRESS in Hr. lia.
Qed.

(** The entries that are not terrible are all still there. *)
Definition keeps_good (now : Z) (s s' : CAddrMan) (nId : Z) : Prop :=
  forall x k, x <> nId -> mapInfo s !! x = Some k -> IsTerrible k now = false ->
    exists j, mapInfo s' !! x = Some j /\ service (peer j) = service (peer k) /\ fInTried j = fInTried k.

Lemma float_refs X d s id i : core X d s -> mapInfo s !! id = Some i -> id ∈ X -> nRefCount i = 0.
Proof.
  intros C Hi HX. rewrite (c_refs _ _ _ C _ _ Hi). apply tally_none. intros [b p] v Hv. apply Z.eqb_neq. intros ->.
  by destruct (c_new _ _ _ C _ _ _ Hv) as (_ & Hnx & _).
Qed.

Lemma enter_insert X now s id i b p :
  inv X 0 s -> X ⊆ {[id]} -> mapInfo s !! id = Some i -> fInTried i = false -> nRefCount i < 8 ->
  0 <= b < 1024 -> position i true b = Some p -> vvNew s !! (b, p) <> Some id ->
  (forall x k, vvNew s !! (b, p) = Some x -> mapInfo s !! x = Some k -> IsTerrible k now = true \/ 1 < nRefCount k) ->
  exists s1 s', ClearNew b p s = Some s1 /\
    (info ← mapInfo s1 !! id; s2 ← upd id (set_refs (nRefCount info + 1)) s1;
     Some (true, with_new (nNew s2) (set_place b p id (vvNew s2)) s2)) = Some (true, s') /\
    consistent s' /\ keeps_tried s s' /\ keeps_good now s s' id.
Proof.
  intros Hinv HX Hi Ht Hr Hb Hp Hne Hout. destruct (ClearNew_ok X 0 s b p Hinv) as (s1 & E1 & [C1 R1] & F1 & Hnew & Hmany).
  destruct (f_moved _ _ _ F1 id Hne i Hi) as [n Hi1]. set (j := set_pos n i) in *.
  exists s1. rewrite Hi1, bind_some. unfold upd. rewrite Hi1, !bind_some.
  rewrite set_place_insert by (apply (c_ids _ _ _ C1 _ _ Hi1)). eexists. split; [done|]. split; [done|].
  assert (position j true b = Some p) as Hpj by (rewrite <-Hp; by apply position_same).
  pose proof (core_enter X 0 s1 b p id j C1 ltac:(by rewrite Hnew, lookup_delete_eq) Hi1 Ht Hr Hb Hpj) as C2.
  replace (X ∖ {[id]}) with (∅ : gset Z) in C2 by set_solver.
  split; [split; [exact C2|by apply (random_ext (with_entry id (set_refs (nRefCount j + 1) j) s1)); [apply (random_note _ _ j)|..]]|].
  assert (forall x, x <> id -> <[id := set_refs (nRefCount j + 1) j]> (mapInfo s1) !! x = mapInfo s1 !! x) as Hx
    by (intros x Hx; by rewrite lookup_insert_ne).
  assert (keeps_tried s s1) as [K1 K2].
  { apply (frame_keeps _ _ _ F1). intros x k Hk Htk Hs. destruct (c_new _ _ _ (proj1 Hinv) _ _ _ Hs) as (_ & _ & k' & Hk' & ? & _). congruence. }
  split; [split; [done|]|].
  - intros x k Hk Htk. cbn. rewrite Hx by (intros ->; congruence). by apply K2.
  - intros x k Hxn Hk Hg. cbn. rewrite Hx by done. destruct (decide (vvNew s !! (b, p) = Some x)) as [Hs|Hs].
    + destruct (Hout x k Hs Hk) as [?|?]; [congruence|]. by apply (Hmany x k).
    + destruct (f_moved _ _ _ F1 x Hs k Hk) as [m Hm]. eauto.
Qed.

Lemma enter_ok X now src s id i :
  inv X 0 s -> X ⊆ {[id]} -> mapInfo s !! id = Some i -> fInTried i = false -> nRefCount i < 8 -> addr_ok src ->
  exists b s', enter nKey m_asmap now src id s = Some (b, s') /\ consistent s' /\ keeps_tried s s' /\ keeps_good now s s' id.
Proof using Hmap.
  intros Hinv HX Hi Ht Hr Hsrc. pose proof Hinv as [C R]. unfold enter. rewrite Hi, bind_some.
  pose proof (c_ok _ _ _ C _ _ Hi) as Hok. destruct (new_bucket_some i src Hok Hsrc) as (b & Eb & Hb).
  destruct (position_some i true b Hok) as (p & Ep & _). rewrite Eb, bind_some, Ep, bind_some. cbv zeta.
  pose proof (c_ids _ _ _ C _ _ Hi) as Hid.
  assert (consistent s -> keeps_tried s s /\ keeps_good now s s id) as Hsame.
  { intros _. split; [apply keeps_refl|intros x k ? ? ?; eauto]. }
  assert (id ∉ X -> consistent s) as Hcons by (intros Hn; replace X with (∅ : gset Z) in Hinv by set_solver; done).
  destruct (Z.eqb_spec (place (vvNew s) b p) id) as [E|E].
  { assert (id ∉ X) as Hn.
    { apply place_some in E; [|intros; by eapply new_ids|lia]. by destruct (c_new _ _ _ C _ _ _ E) as (_ & ? & _). }
    eexists _, s. split; [done|]. specialize (Hcons Hn). split; [done|]. by apply Hsame. }
  destruct ((place (vvNew s) b p =? -1) || _) eqn:Hins.
  - destruct (enter_insert X now s id i b p) as (s1 & s' & E1 & E2 & Hrest); try done.
    + intros H. apply E. unfold place. by rewrite H.
    + intros x k Hx Hk. unfold place in Hins. rewrite Hx in Hins. cbn in Hins. rewrite Hk in Hins.
      pose proof (new_ids _ _ _ _ _ _ C Hx). rewrite (proj2 (Z.eqb_neq x (-1))) in Hins by lia. cbn [orb] in Hins.
      apply orb_true_iff in Hins as [?|[?%Z.ltb_lt _]%andb_true_iff]; auto.
    + exists true, s'. rewrite E1, bind_some, E2. done.
  - destruct (Z.eqb_spec (nRefCount i) 0) as [E0|E0].
    + assert (id ∈ X) as Hin.
      { destruct (decide (id ∈ X)); [done|]. pose proof (c_kept _ _ _ C _ _ Hi Ht ltac:(done)). lia. }
      destruct (Delete_ok X 0 s id i Hinv Hin Hi) as (s' & -> & I' & F' & _). rewrite bind_some.
      replace (X ∖ {[id]}) with (∅ : gset Z) in I' by set_solver. exists false, s'. split; [done|]. split; [done|]. split.
      * apply (frame_keeps _ _ _ F'). intros x k Hk Htk ->. congruence.
      * intros x k Hx Hk _. destruct (f_moved _ _ _ F' x Hx k Hk) as [n Hn]. eauto.
    + assert (id ∉ X) as Hn by (intros Hin; apply E0; by eapply float_refs).
      exists false, s. split; [done|]. specialize (Hcons Hn). split; [done|]. by apply Hsame.
Qed.

Definition peer_ok (a : CAddress) : Prop := addr_ok (ip (service a)) /\ clean (ip (service a)).

Lemma random_create s a src next :
  random s -> mapInfo s !! nIdCount s = None ->
  random (Man next (<[nIdCount s := set_pos (Zlen (vRandom s)) (new_info a src)]> (mapInfo s))
    (<[net_key (ip (service a)) := nIdCount s]> (mapAddr s)) (vRandom s ++ [nIdCount s])
    (nTried s) (vvTried s) (nNew s + 1) (vvNew s) (m_tried_collisions s)).
Proof.
  intros R Hn. split; cbn [mapInfo vRandom].
  - intros id i H. entry_cases H.
    + cbn. unfold Zlen. split; [lia|]. rewrite Nat2Z.id. apply lookup_app_r_Some || idtac.
      rewrite lookup_app_r, Nat.sub_diag by done. done.
    + destruct (r_pos _ R _ _ H) as [Hp Hl]. split; [done|]. by apply lookup_app_l_Some.
  - intros n id H. apply lookup_app_Some in H as [H|[Hlen H]].
    + destruct (r_entry _ R _ _ H) as (i & Hi & P). rewrite lookup_insert_ne by (intros <-; congruence). eauto.
    + apply list_lookup_singleton_Some in H as [H0 <-]. rewrite lookup_insert_eq. eexists. split; [done|]. cbn. unfold Zlen. lia.
Qed.

Lemma Add_ok now a src pen rnd s :
  consistent s -> peer_ok a -> addr_ok src -> nIdCount s + 1 < 2 ^ 31 ->
  exists b s' id, Add_ nKey m_asmap now a src pen rnd s = Some (b, s') /\ consistent s' /\ keeps_told now a pen s s' /\
    keeps_good now s s' id /\ (Find s (ip (service a)) = Some id \/ mapInfo s !! id = None).
Proof using Hmap.
  intros Hinv [Ha Hc] Hsrc Hcount. unfold Add_.
  assert (forall id, keeps_good now s s id) as Hk0 by (intros id x k ? ? ?; eauto).
  pose proof (keeps_is_told now a pen s s (keeps_refl s)) as K0.
  assert (mapInfo s !! nIdCount s = None) as Hn.
  { destruct (mapInfo s !! nIdCount s) as [i|] eqn:E; [|done]. pose proof (c_ids _ _ _ (proj1 Hinv) _ _ E). lia. }
  destruct (IsRoutable _); cbn [negb].
  2: { exists false, s, (nIdCount s). do 4 (split; [done|]). by right. }
  destruct (Find s (ip (service a))) as [id|] eqn:Ef.
  - destruct (Find_some _ _ _ Ef) as (i & Haddr & Hi).
    assert (net_key (info_ip i) = net_key (ip (service a))) as Hkey.
    { destruct (c_info _ _ _ (proj1 Hinv) _ _ Haddr) as (k & Hk & Ek). congruence. }
    destruct (refresh_ok now a pen rnd s id i Hinv Hi Hkey) as (go & s1 & j & -> & Hinv1 & K1 & Hj & A & Hjok & Hoth & Hgo).
    rewrite bind_some. assert (keeps_good now s s1 id) as G1 by (intros x k Hx Hk _; exists k; by rewrite Hoth).
    destruct go; [|exists false, s1, id; do 4 (split; [done|]); by left].
    destruct (Hgo eq_refl) as [Ht Hr].
    destruct (enter_ok ∅ now src s1 id j Hinv1 ltac:(set_solver) Hj) as (b & s2 & -> & Hinv2 & K2 & G2); [by rewrite (a_tried _ _ A)|by rewrite (a_refs _ _ A)|done|].
    exists b, s2, id. split; [done|]. split; [done|]. split; [by eapply told_trans|]. split; [|by left].
    intros x k Hx Hk Hg. apply (G2 x k Hx); [by rewrite Hoth|done].
  - unfold Create. unfold i32. rewrite decide_True by (unfold is_s32; pose proof (c_count _ _ _ (proj1 Hinv)); lia). rewrite !bind_some.
    assert (info_ok (new_info a src)) as Hok by (split; [done|]; split; [done|]; split; [done|]; cbn; lia).
    pose proof (core_create ∅ 0 s a src (vRandom s) (proj1 Hinv) (Find_none _ _ _ _ (proj1 Hinv) Ef) Hcount Hok) as C1.
    pose proof (random_create s a src (nIdCount s + 1) (proj2 Hinv) Hn) as R1.
    rewrite union_empty_r_L in C1. set (s1 := Man _ _ _ _ _ _ _ _ _) in *. set (i := set_pos (Zlen (vRandom s)) (new_info a src)) in *.
    assert (mapInfo s1 !! nIdCount s = Some i) as Hi1 by (cbn; apply lookup_insert_eq).
    unfold upd. rewrite Hi1, bind_some. cbn beta. rewrite bind_some. set (j := set_time _ i). set (s2 := with_info _ s1).
    assert (inv {[nIdCount s]} 0 s2) as I2 by (apply (inv_note _ _ s1 _ i); [by split|done|done|done|exact Hok|done]).
    assert (mapInfo s2 !! nIdCount s = Some j) as Hi2 by (cbn; apply lookup_insert_eq).
    destruct (enter_ok _ now src s2 (nIdCount s) j I2 ltac:(set_solver) Hi2 eq_refl ltac:(cbn; lia) Hsrc) as (b & s3 & -> & Hinv3 & K3 & G3).
    assert (forall x, x <> nIdCount s -> mapInfo s2 !! x = mapInfo s !! x) as Hoth by (intros x Hx; cbn; by rewrite !lookup_insert_ne by done).
    exists b, s3, (nIdCount s). split; [done|]. split; [done|]. split; [|split; [|by right]].
    + apply keeps_is_told, (keeps_trans _ s2); [|done]. split; [done|]. intros x k Hk Htk. exists (nRandomPos k).
      rewrite Hoth by (intros ->; congruence). by rewrite <-same_pos.
    + intros x k Hx Hk Hg. apply (G3 x k Hx); [by rewrite Hoth|done].
Qed.

Lemma note_ok addr f s :
  consistent s ->
  (forall i, (exists id, mapInfo s !! id = Some i) -> exists j, f i = Some j /\ alike i j /\ nRandomPos j = nRandomPos i /\ info_ok j /\
     (fInTried i = true -> nLastSuccess j <> 0)) ->
  exists s', note addr f s = Some s' /\ consistent s'.
Proof.
  intros Hinv Hf. unfold note. destruct (Find s (ip addr)) as [id|] eqn:Ef; [|eauto].
  destruct (Find_some _ _ _ Ef) as (i & _ & Hi). rewrite Hi, bind_some. destruct (negb _); [eauto|].
  destruct (Hf i ltac:(eauto)) as (j & -> & A & Hp & Hok & Hls). rewrite bind_some.
  destruct (upd_ok s id i (fun _ => j) Hinv Hi A Hp Hok Hls) as [-> H]. eauto.
Qed.

(** ** Addresses for a peer *)

Section GetAddrFacts.
Context (RandomInt : nat -> Z -> Z) (now : Z) (wants : bool).
Context (Hrand : forall n m, 0 < m -> 0 <= RandomInt n m < m).

Lemma shuffle_ok ns : forall s,
  consistent s -> Forall (fun n => (n < length (vRandom s))%nat) ns ->
  exists s', shuffle RandomInt ns s = Some s' /\ consistent s' /\ (forall id, moved s s' id) /\
    (forall id, mapInfo s !! id = None -> mapInfo s' !! id = None).
Proof using Hrand.
  induction ns as [|n ns IH]; intros s Hinv Hns; cbn [shuffle].
  { exists s. split; [done|]. split; [done|]. split; [intros; apply moved_refl|done]. }
  inversion Hns as [|?? Hn Hns']; subst. cbv zeta. unfold Zlen.
  pose proof (Hrand n (Z.of_nat (length (vRandom s)) - Z.of_nat n) ltac:(lia)) as Hr.
  set (r := RandomInt n _) in *. replace (r + Z.of_nat n) with (Z.of_nat (Z.to_nat r + n)) by lia.
  destruct (SwapRandom_ok ∅ 0 s n (Z.to_nat r + n) Hinv) as (s1 & -> & Hinv1 & Hmv & Hno & _ & _ & _ & _ & Hlen & _); [done|lia|].
  rewrite bind_some. destruct (IH s1 Hinv1) as (s2 & E2 & Hinv2 & Hmv2 & Hno2); [by rewrite Hlen|].
  exists s2. split; [done|]. split; [done|]. split; [|auto]. intros id. by eapply moved_trans.
Qed.

(** An entry that may be given away. *)
Definition offered (s : CAddrMan) (a : CAddress) : Prop :=
  exists id i, mapInfo s !! id = Some i /\ peer i = a /\ IsTerrible i now = false.

Lemma offer_spec lim ai nets : forall counts l counts' l',
  NoDup nets -> offer lim ai nets counts l = (counts', l') -> l' = l \/ l' = l ++ [peer ai].
Proof.
  induction nets as [|net nets IH]; intros [|c counts] l counts' l' Hnd E; cbn [offer] in E; try (injection E as _ <-; by left).
  apply NoDup_cons in Hnd as [Hnin Hnd]. destruct (is_net (info_ip ai) net) eqn:En; cbn [andb] in E.
  - assert (forall cs l0 cs' l0', offer lim ai nets cs l0 = (cs', l0') -> l0' = l0) as Hrest.
    { clear - En Hnin. apply bool_decide_eq_true in En. induction nets as [|m nets IH]; intros [|c cs] l0 cs' l0' E; cbn [offer] in E; try by injection E as _ <-.
      apply not_elem_of_cons in Hnin as [Hm Hnin]. assert (is_net (info_ip ai) m = false) as Em by (apply bool_decide_eq_false; congruence).
      rewrite Em in E. cbn [andb] in E. destruct (offer lim ai nets cs l0) as [rest l1] eqn:E1. injection E as _ <-. by eapply IH. }
    destruct (offer lim ai nets counts _) as [rest l1] eqn:E1. apply Hrest in E1 as ->. injection E as _ <-.
    destruct (c <=? lim); [by right|by left].
  - destruct (offer lim ai nets counts l) as [rest l1] eqn:E1. injection E as _ <-. by eapply IH.
Qed.

Lemma gather_ok nNodes lim s : consistent s ->
  forall ids counts l, NoDup ids -> (forall id, id ∈ ids -> is_Some (mapInfo s !! id)) ->
  Forall (offered s) l -> NoDup (map (fun a => net_key (ip (service a))) l) ->
  (forall id i, id ∈ ids -> mapInfo s !! id = Some i -> net_key (info_ip i) ∉ map (fun a => net_key (ip (service a))) l) ->
  0 <= nNodes -> Zlen l <= nNodes ->
  exists l', gather now wants nNodes lim ids counts l s = Some (l', s) /\ Zlen l' <= nNodes /\ Forall (offered s) l' /\
    NoDup (map (fun a => net_key (ip (service a))) l').
Proof.
  intros [C R] ids. induction ids as [|id ids IH]; intros counts l Hnd Hin Hl Hk Hfresh Hn Hlen; cbn [gather].
  { exists l. done. }
  destruct (Z.leb_spec nNodes (Zlen l)) as [|Hroom]; [exists l; done|]. cbv zeta.
  destruct (Hin id (list_elem_of_here _ _)) as [i Hi].
  unfold touch. rewrite Hi, Hi, bind_some. apply NoDup_cons in Hnd as [Hid Hnd].
  assert (forall x, x ∈ ids -> is_Some (mapInfo s !! x)) as Hin' by (intros x Hx; apply Hin; by right).
  assert (forall x k, x ∈ ids -> mapInfo s !! x = Some k -> net_key (info_ip k) ∉ map (fun a => net_key (ip (service a))) l) as Hf'
    by (intros x k Hx; apply Hfresh; by right).
  destruct (IsTerrible i now) eqn:Et; [by apply IH|].
  assert (forall counts, exists l', gather now wants nNodes lim ids counts (l ++ [peer i]) s = Some (l', s) /\ Zlen l' <= nNodes /\ Forall (offered s) l' /\
    NoDup (map (fun a => net_key (ip (service a))) l')) as Htake.
  { intros cs. apply IH; [done|done| | | |done|].
    - apply Forall_app. split; [done|]. constructor; [|constructor]. exists id, i. done.
    - rewrite map_app. apply NoDup_app. split; [done|]. split; [|apply NoDup_singleton].
      intros k Hk1 Hk2. apply list_elem_of_singleton in Hk2 as ->. apply (Hfresh id i (list_elem_of_here _ _) Hi). exact Hk1.
    - intros x k Hx Hxk. rewrite map_app. rewrite not_elem_of_app. split; [by eapply Hf'|]. cbn. intros Hk2.
      apply list_elem_of_singleton in Hk2. pose proof (c_addr _ _ _ C _ _ Hxk) as E1. pose proof (c_addr _ _ _ C _ _ Hi) as E2.
      unfold info_ip in *. rewrite Hk2 in E1. assert (x = id) as -> by congruence. done.
    - rewrite Zlen_app. change (Zlen [peer i]) with 1. lia. }
  destruct (negb wants); [by apply Htake|].
  destruct (offer lim i networks counts l) as [counts' l1] eqn:Eo.
  apply offer_spec in Eo as [->| ->]; [by apply IH|by apply Htake|].
  unfold networks. repeat (apply NoDup_cons; split; [rewrite ?not_elem_of_cons; repeat split; try done; apply not_elem_of_nil|]). apply NoDup_nil_2.
Qed.

Lemma GetAddr_ok s :
  consistent s ->
  exists l s', GetAddr_ RandomInt now wants s = Some (l, s') /\ consistent s' /\
    Zlen l <= Z.min ADDRMAN_GETADDR_MAX (ADDRMAN_GETADDR_MAX_PCT * Zlen (vRandom s) / 100) /\
    Forall (offered s) l /\ NoDup (map (fun a => net_key (ip (service a))) l).
Proof using Hrand.
  intros Hinv. unfold GetAddr_.
  destruct (shuffle_ok (seq 0 (length (vRandom s))) s Hinv) as (s1 & -> & Hinv1 & Hmv & Hno).
  { apply Forall_forall. intros n Hn%elem_of_seq. lia. }
  rewrite bind_some. set (nNodes := Z.min _ _).
  assert (0 <= nNodes) as Hn.
  { unfold nNodes, ADDRMAN_GETADDR_MAX, ADDRMAN_GETADDR_MAX_PCT. pose proof (Zlen_nonneg (vRandom s)). apply Z.min_glb; [lia|]. apply Z.div_pos; lia. }
  destruct (gather_ok nNodes (nNodes / 5) s1 Hinv1 (vRandom s1) [0; 0; 0; 0; 0] []) as (l & E & Hlen & Hoff & Hnd); try done.
  - apply NoDup_alt. intros m n id Hm Hn'. by eapply random_distinct; [apply Hinv1|..].
  - intros id [n Hn']%list_elem_of_lookup. destruct (r_entry _ (proj2 Hinv1) _ _ Hn') as (i & Hi & _). eauto.
  - constructor.
  - intros id i _ _. apply not_elem_of_nil.
  - exists l, s1. split; [done|]. split; [done|]. split; [done|]. split; [|done].
    apply (Forall_impl _ _ _ Hoff). intros a (id & i & Hi & <- & Ht).
    destruct (mapInfo s !! id) as [k|] eqn:Ek; [|rewrite (Hno _ Ek) in Hi; done].
    destruct (Hmv id k Ek) as [n Hk]. assert (i = set_pos n k) as -> by congruence. exists id, k. done.
Qed.
End GetAddrFacts.
End Invariant.
End AddrManFacts.

(** ** The check of the debugging build passes *)

Module CheckFacts.
Import AddrMan AddrManFacts NetAddrFacts NetAddrTheorems.

Section Sums.
Context {K A : Type} `{Countable K} (P : A -> bool).

(** A tally, taken over the places of a table one after the other. *)
Definition tally_over (m : gmap K A) (l : list K) : Z :=
  foldr (fun k n => (match m !! k with Some a => Z.b2z (P a) | None => 0 end) + n) 0 l.

Lemma tally_over_cons m k l :
  tally_over m (k :: l) = (match m !! k with Some a => Z.b2z (P a) | None => 0 end) + tally_over m l.
Proof. done. Qed.

Lemma tally_over_delete m k l : k ∉ l -> tally_over (delete k m) l = tally_over m l.
Proof.
  induction l as [|k' l IH]; intros Hk; [done|]. apply not_elem_of_cons in Hk as [Hne Hk].
  by rewrite !tally_over_cons, IH, lookup_delete_ne.
Qed.

Lemma tally_over_all l : forall m, NoDup l -> (forall k, is_Some (m !! k) -> k ∈ l) -> tally P m = tally_over m l.
Proof.
  induction l as [|k l IH]; intros m Hnd Hdom.
  - apply tally_none. intros k a Hk. destruct (not_elem_of_nil k). apply Hdom. by rewrite Hk.
  - apply NoDup_cons in Hnd as [Hn Hnd].
    rewrite tally_over_cons, <-(tally_over_delete m k l Hn), <-(IH (delete k m)); [|done|].
    + destruct (m !! k) as [a|] eqn:E; [rewrite (tally_delete P m k a E); lia|]. by rewrite delete_id by done.
    + intros k' [a [Hne Hk]%lookup_delete_Some]. destruct (proj1 (elem_of_cons l k' k) (Hdom k' (mk_is_Some _ _ Hk))) as [->|?]; done.
Qed.

Lemma tally_over_nonneg m l : 0 <= tally_over m l.
Proof. induction l as [|k l IH]; [done|]. rewrite tally_over_cons. destruct (m !! k) as [a|]; [destruct (P a)|]; cbn; lia. Qed.
End Sums.

(** Counting all entries. *)
Lemma tally_size {A} (P : A -> bool) (m : gmap Z A) :
  tally P m + tally (fun a => negb (P a)) m = Z.of_nat (size m).
Proof.
  induction m as [|k a m Hk IH] using map_ind; [by rewrite !tally_empty, map_size_empty|].
  rewrite !tally_insert, map_size_insert_None by done. destruct (P a); cbn [negb Z.b2z]; lia.
Qed.

Lemma elem_of_places n b p : (b, p) ∈ places n <-> 0 <= b < n /\ 0 <= p < 64.
Proof.
  unfold places. rewrite list_elem_of_In, in_prod_iff, <-!list_elem_of_In, !elem_of_seqZ. unfold ADDRMAN_BUCKET_SIZE. lia.
Qed.

Lemma NoDup_places n : NoDup (places n).
Proof.
  unfold places. generalize (NoDup_seqZ 0 n). induction (seqZ 0 n) as [|b l IH]; intros Hnd; [constructor|].
  apply NoDup_cons in Hnd as [Hb Hnd]. cbn [list_prod]. apply NoDup_app. split; [|split; [|by apply IH]].
  - apply (NoDup_fmap_2 (pair b)), NoDup_seqZ.
  - intros [b' p'] Hin Hin'. apply list_elem_of_In, in_prod_iff in Hin' as [Hin' _].
    apply list_elem_of_In, in_map_iff in Hin as (x & [= <- <-] & _). by apply Hb, list_elem_of_In.
Qed.

Section Passes.
Context {HS : Hashes} (nKey : list Z) (m_asmap : list bool).
Abbreviation sound := (core nKey m_asmap ∅ 0).

Lemma random_size s : random s -> length (vRandom s) = size (mapInfo s).
Proof using.
  intros R. rewrite <-size_dom. rewrite <-(size_list_to_set (C := gset Z) (vRandom s)).
  - f_equal. apply set_eq. intros id. rewrite elem_of_list_to_set, elem_of_dom. split.
    + intros [n Hn]%list_elem_of_lookup. destruct (r_entry _ R _ _ Hn) as (i & -> & _). done.
    + intros [i Hi]. apply list_elem_of_lookup. destruct (r_pos _ R _ _ Hi) as [_ H]. eauto.
  - apply NoDup_alt. intros m n id. by apply random_distinct.
Qed.

(** What the first loop gathers from the entries it has seen. *)
Record gathered (s : CAddrMan) (seen : list Z) (a : audit) : Prop := {
  g_addr : seen_addr a = mapAddr s;
  g_tried : forall id, id ∈ setTried a <-> id ∈ seen /\ exists i, mapInfo s !! id = Some i /\ fInTried i = true;
  g_new : forall id n, mapNew a !! id = Some n <->
    id ∈ seen /\ exists i, mapInfo s !! id = Some i /\ fInTried i = false /\ n = nRefCount i }.

Lemma tried_refs s id i : sound s -> mapInfo s !! id = Some i -> fInTried i = true -> nRefCount i = 0.
Proof using.
  intros C Hi Ht. rewrite (c_refs _ _ _ _ _ C _ _ Hi). apply tally_none. intros [b p] v Hv. apply Z.eqb_neq. intros ->.
  destruct (c_new _ _ _ _ _ C _ _ _ Hv) as (_ & _ & j & Hj & Hf & _). congruence.
Qed.

Lemma check_kind_ok s seen n i a :
  sound s -> mapInfo s !! n = Some i -> gathered s seen a ->
  exists a', check_kind n i a = (0, a') /\ gathered s (n :: seen) a'.
Proof using.
  intros C Hi [G1 G2 G3]. unfold check_kind. destruct (fInTried i) eqn:Ht.
  - destruct (c_in _ _ _ _ _ C _ _ Hi Ht) as (_ & _ & Hls). rewrite (proj2 (Z.eqb_neq _ 0) Hls), (tried_refs s n i) by done.
    cbn [negb Z.eqb]. eexists. split; [done|]. split; cbn; [done| |].
    + intros id. rewrite elem_of_union, elem_of_singleton, G2, elem_of_cons. naive_solver.
    + intros id m. rewrite G3, elem_of_cons. naive_solver congruence.
  - pose proof (c_kept _ _ _ _ _ C _ _ Hi Ht ltac:(set_solver)) as Hk. unfold ADDRMAN_NEW_BUCKETS_PER_ADDRESS.
    rewrite (proj2 (Z.ltb_ge _ 0)), (proj2 (Z.ltb_ge 8 _)), (proj2 (Z.eqb_neq _ 0)) by lia. cbn [orb].
    eexists. split; [done|]. split; cbn; [done| |].
    + intros id. rewrite G2, elem_of_cons. naive_solver congruence.
    + intros id m. rewrite lookup_insert_Some, G3, elem_of_cons. split; [naive_solver|].
      intros [[->|Hin] (j & Hj & Hf & ->)].
      * left. split; [done|]. congruence.
      * destruct (decide (n = id)) as [->|]; [left; split; [done|congruence]|right; eauto 10].
Qed.

Lemma check_rest_ok s seen n i a :
  sound s -> random s -> mapInfo s !! n = Some i -> gathered s seen a -> check_rest (vRandom s) n i a = (0, a).
Proof using.
  intros C R Hi G. pose proof (c_addr _ _ _ _ _ C _ _ Hi) as Ha. unfold check_rest. rewrite (g_addr _ _ _ G), Ha. cbn [default].
  rewrite insert_id by done. rewrite Z.eqb_refl. cbn [negb]. destruct (r_pos _ R _ _ Hi) as [Hp Hl].
  pose proof (lookup_lt_Some _ _ _ Hl) as Hlt. destruct (c_ok _ _ _ _ _ C _ _ Hi) as (_ & _ & _ & ? & ?).
  rewrite (proj2 (Z.ltb_ge _ 0)), (proj2 (Z.leb_gt (Zlen (vRandom s)) _)) by (unfold Zlen; lia).
  rewrite bool_decide_true by done. cbn [orb negb]. rewrite !(proj2 (Z.ltb_ge _ 0)) by done. f_equal.
  destruct a as [sa st mn]. cbn in *. f_equal. symmetry. apply (g_addr _ _ _ G).
Qed.

Lemma check_entries_ok s ids : forall seen a,
  sound s -> random s -> gathered s seen a ->
  exists a', check_entries s ids a = (0, a') /\ gathered s (rev ids ++ seen) a'.
Proof using.
  induction ids as [|n ids IH]; intros seen a C R G; cbn [check_entries rev]; [eauto|]. rewrite <-app_assoc. cbn [app].
  destruct (mapInfo s !! n) as [i|] eqn:Hi.
  - destruct (check_kind_ok s seen n i a C Hi G) as (a1 & -> & G1). cbn [negb Z.eqb].
    rewrite (check_rest_ok s _ n i a1 C R Hi G1). cbn [negb Z.eqb]. by apply IH.
  - apply IH; [done..|]. destruct G as [G1 G2 G3]. split; [done|..].
    + intros id. rewrite G2, elem_of_cons. naive_solver.
    + intros id m. rewrite G3, elem_of_cons. naive_solver.
Qed.

Lemma set_tally {A} (P : A -> bool) (m : gmap Z A) : forall S : gset Z,
  (forall k, k ∈ S <-> exists a, m !! k = Some a /\ P a = true) -> Z.of_nat (size S) = tally P m.
Proof using.
  induction m as [|k a m Hk IH] using map_ind; intros S HS'.
  - rewrite tally_empty. assert (S = ∅) as -> by (apply set_eq; intros x; rewrite HS'; set_solver). by rewrite size_empty.
  - rewrite tally_insert by done. assert (forall x, x ∈ S ∖ {[k]} <-> exists a, m !! x = Some a /\ P a = true) as Hrest.
    { intros x. rewrite elem_of_difference, elem_of_singleton, HS'. destruct (decide (k = x)) as [<-|Hne].
      - split; [naive_solver|]. intros (b & Hb & _). congruence.
      - rewrite lookup_insert_ne by done. naive_solver. }
    pose proof (HS' k) as Hin. rewrite lookup_insert_eq in Hin. pose proof (IH _ Hrest) as E. destruct (P a) eqn:HP.
    + rewrite <-E. rewrite (union_difference_singleton_L k S) at 1 by naive_solver. rewrite size_union, size_singleton by set_solver. cbn [Z.b2z]. lia.
    + rewrite <-E, difference_disjoint_L; [done|]. apply disjoint_singleton_r. naive_solver congruence.
Qed.

Lemma check_tried_ok s l : forall a,
  sound s -> NoDup l -> (forall id, id ∈ setTried a <-> exists bp, bp ∈ l /\ vvTried s !! bp = Some id) ->
  check_tried nKey m_asmap s l a = Some (0, Audit (seen_addr a) ∅ (mapNew a)).
Proof using.
  induction l as [|[b p] l IH]; intros a C Hnd Ha; cbn [check_tried].
  { assert (setTried a = ∅) as E by (apply set_eq; intros x; rewrite Ha; set_solver). destruct a; cbn in *. by subst. }
  apply NoDup_cons in Hnd as [Hn Hnd]. assert (forall x, vvTried s !! (b, p) = Some x -> 0 <= x) as H0 by (intros x; by apply (tried_ids nKey m_asmap ∅ 0)).
  set (id := place (vvTried s) b p). destruct (Z.eqb_spec id (-1)) as [Em|Em].
  - apply IH; [done..|]. intros x. rewrite Ha. pose proof (place_none _ _ _ H0 Em). split; [|set_solver].
    intros (bp & [->|Hin]%elem_of_cons & Hv); [congruence|eauto].
  - pose proof (place_some _ _ _ id H0 eq_refl Em) as Hv. destruct (c_tried _ _ _ _ _ C _ _ _ Hv) as (i & Hi & Ht & Hb & Hp).
    rewrite bool_decide_true by (apply Ha; exists (b, p); set_solver). cbn [negb].
    rewrite Hi, bind_some, Hb, bind_some, Z.eqb_refl. cbn [negb]. rewrite Hp, bind_some, Z.eqb_refl. cbn [negb].
    rewrite (IH (Audit _ _ _)); [done..|]. cbn. intros x. rewrite elem_of_difference, elem_of_singleton, Ha. split.
    + intros [(bp & [->|Hin]%elem_of_cons & Hx) Hne]; [congruence|eauto].
    + intros ([b' p'] & Hin & Hx). split; [exists (b', p'); set_solver|]. intros ->.
      destruct (c_tried _ _ _ _ _ C _ _ _ Hx) as (j & Hj & _ & Hb' & Hp'). assert (j = i) as -> by congruence.
      assert (b' = b) as -> by congruence. assert (p' = p) as -> by congruence. done.
Qed.

Abbreviation held s x l := (tally_over (fun v => v =? x) (vvNew s) l).

Lemma check_new_ok s l : forall a,
  sound s -> NoDup l -> (forall id n, mapNew a !! id = Some n <-> n <> 0 /\ n = held s id l) ->
  check_new nKey s l a = Some (0, Audit (seen_addr a) (setTried a) ∅).
Proof using.
  induction l as [|[b p] l IH]; intros a C Hnd Ha; cbn [check_new].
  { assert (mapNew a = ∅) as E. { apply map_eq. intros x. rewrite lookup_empty. destruct (mapNew a !! x) as [n|] eqn:En; [|done]. by apply Ha in En as [? ->]. }
    destruct a; cbn in *. by subst. }
  apply NoDup_cons in Hnd as [Hn Hnd]. assert (forall x, vvNew s !! (b, p) = Some x -> 0 <= x) as H0 by (intros x; by apply (new_ids nKey m_asmap ∅ 0)).
  set (id := place (vvNew s) b p). destruct (Z.eqb_spec id (-1)) as [Em|Em].
  - apply IH; [done..|]. intros x n. rewrite Ha, tally_over_cons, (place_none _ _ _ H0 Em). done.
  - pose proof (place_some _ _ _ id H0 eq_refl Em) as Hv. destruct (c_new _ _ _ _ _ C _ _ _ Hv) as (_ & _ & i & Hi & Ht & Hp).
    assert (forall x, held s x ((b, p) :: l) = Z.b2z (id =? x) + held s x l) as Hheld by (intros x; by rewrite tally_over_cons, Hv).
    pose proof (tally_over_nonneg (fun v => v =? id) (vvNew s) l) as Hpos.
    assert (mapNew a !! id = Some (1 + held s id l)) as -> by (apply Ha; rewrite Hheld, Z.eqb_refl; cbn; lia).
    rewrite Hi, bind_some, Hp, bind_some, Z.eqb_refl. cbn [negb].
    rewrite (IH (Audit _ _ _)); [done..|]. cbn. intros x n. replace (1 + held s id l - 1) with (held s id l) by lia.
    specialize (Ha x n). rewrite Hheld in Ha. destruct (Z.eqb_spec (held s id l) 0) as [E0|E0]; destruct (decide (id = x)) as [<-|Hne].
    + rewrite lookup_delete_eq. split; [done|]. intros [? ->]. done.
    + rewrite lookup_delete_ne, Ha, (proj2 (Z.eqb_neq id x)) by done. done.
    + rewrite lookup_insert_eq. split; [intros [= <-]; done|]. by intros [_ ->].
    + rewrite lookup_insert_ne, Ha, (proj2 (Z.eqb_neq id x)) by done. done.
Qed.

Context (Hmap : map_checked m_asmap).

(** The places of the two tables. *)
Lemma tried_place s bp id : sound s -> vvTried s !! bp = Some id -> bp ∈ places ADDRMAN_TRIED_BUCKET_COUNT.
Proof using Hmap.
  intros C Hv. destruct bp as [b p]. destruct (c_tried _ _ _ _ _ C _ _ _ Hv) as (i & Hi & _ & Hb & Hp).
  pose proof (c_ok _ _ _ _ _ C _ _ Hi) as Hok. destruct (tried_bucket_some nKey m_asmap Hmap i Hok) as (b' & Eb & ?).
  destruct (position_some nKey i false b Hok) as (p' & Ep & ?). apply elem_of_places. unfold ADDRMAN_TRIED_BUCKET_COUNT.
  assert (b' = b) as -> by congruence. assert (p' = p) as -> by congruence. done.
Qed.

Lemma new_place s bp id : sound s -> vvNew s !! bp = Some id -> bp ∈ places ADDRMAN_NEW_BUCKET_COUNT.
Proof using.
  intros C Hv. destruct bp as [b p]. destruct (c_new _ _ _ _ _ C _ _ _ Hv) as (Hb & _ & i & Hi & _ & Hp).
  destruct (position_some nKey i true b (c_ok _ _ _ _ _ C _ _ Hi)) as (p' & Ep & ?). apply elem_of_places.
  assert (p' = p) as -> by congruence. done.
Qed.

Lemma check_ok s :
  consistent nKey m_asmap s -> forallb (Z.eqb 0) nKey = false -> Check_ nKey m_asmap s = Some (0, s).
Proof using Hmap.
  intros [C R] Hkey. unfold Check_. set (pt := places ADDRMAN_TRIED_BUCKET_COUNT). set (pn := places ADDRMAN_NEW_BUCKET_COUNT).
  pose proof (random_length nKey m_asmap ∅ 0 s (conj C R)) as Hlen. pose proof (random_size s R) as Hsz.
  pose proof (tally_size fInTried (mapInfo s)) as Hall. pose proof (c_ntried _ _ _ _ _ C) as Et. pose proof (c_nnew _ _ _ _ _ C) as En.
  pose proof (tally_nonneg fInTried (mapInfo s)). pose proof (tally_nonneg (fun i => negb (fInTried i)) (mapInfo s)).
  unfold Zlen in *. unfold u64. rewrite !Z.mod_small by (unfold Zlen; cbn; lia). rewrite (proj2 (Z.eqb_eq _ _)) by lia. cbn [negb].
  destruct (check_entries_ok s (merge_sort Z.le (elements (dom (mapInfo s)))) [] (Audit (mapAddr s) ∅ ∅) C R) as (a & -> & G).
  { split; [done|..]; cbn; intros; [set_solver|]. rewrite lookup_empty. split; [done|]. intros [?%not_elem_of_nil _]; done. }
  rewrite (g_addr _ _ _ G). replace (Man _ _ _ _ _ _ _ _ _) with s by (by destruct s). cbn [negb Z.eqb].
  assert (forall id, id ∈ rev (merge_sort Z.le (elements (dom (mapInfo s)))) ++ [] <-> is_Some (mapInfo s !! id)) as Hids.
  { intros id. rewrite app_nil_r, list_elem_of_In, <-in_rev, <-list_elem_of_In, merge_sort_Permutation, elem_of_elements, elem_of_dom. done. }
  rewrite (set_tally fInTried (mapInfo s)), Et by (intros id; rewrite (g_tried _ _ _ G), Hids; naive_solver).
  rewrite Z.mod_small, Z.eqb_refl by lia. cbn [negb].
  rewrite <-(size_dom (D := gset Z)), (set_tally (fun i => negb (fInTried i)) (mapInfo s)).
  2: { intros id. rewrite elem_of_dom. unfold is_Some. setoid_rewrite (g_new _ _ _ G). setoid_rewrite Hids. setoid_rewrite negb_true_iff. naive_solver. }
  rewrite En, Z.add_0_r, Z.mod_small, Z.eqb_refl by lia. cbn [negb].
  rewrite check_tried_ok, bind_some; [|done|apply NoDup_places|].
  2: { intros id. rewrite (g_tried _ _ _ G), Hids. split.
       - intros (_ & i & Hi & Ht). destruct (c_in _ _ _ _ _ C _ _ Hi Ht) as (_ & (b & p & Hv) & _). exists (b, p). split; [by apply (tried_place s _ id)|done].
       - intros ([b p] & _ & Hv). destruct (c_tried _ _ _ _ _ C _ _ _ Hv) as (i & Hi & Ht & _). eauto. }
  cbn [negb Z.eqb]. rewrite check_new_ok, bind_some; [|done|apply NoDup_places|].
  - cbn [negb Z.eqb setTried mapNew]. rewrite size_empty, map_size_empty, Hkey. done.
  - intros id n. cbn [mapNew]. rewrite (g_new _ _ _ G), Hids.
    rewrite <-(tally_over_all (fun v => v =? id) pn (vvNew s)) by (apply NoDup_places || (intros bp [v Hv]; by apply (new_place s _ v))). split.
    + intros (_ & i & Hi & Ht & ->). pose proof (c_kept _ _ _ _ _ C _ _ Hi Ht ltac:(set_solver)). split; [lia|]. apply (c_refs _ _ _ _ _ C _ _ Hi).
    + intros [Hne ->]. destruct (mapInfo s !! id) as [i|] eqn:Hi.
      * split; [done|]. exists i. rewrite <-(c_refs _ _ _ _ _ C _ _ Hi) in *. split; [done|]. split; [|done].
        destruct (fInTried i) eqn:Ht; [|done]. by rewrite (tried_refs s id i C Hi Ht) in Hne.
      * exfalso. apply Hne, tally_none. intros [b p] v Hv. apply Z.eqb_neq. intros ->.
        destruct (c_new _ _ _ _ _ C _ _ _ Hv) as (_ & _ & i & Hi' & _). congruence.
Qed.
End Passes.
End CheckFacts.

(** ** The operations together *)

Module AddrManTheorems.
Import AddrMan AddrManFacts CheckFacts NetAddrFacts NetAddrTheorems.

(** What the callers hand over: an address that was read from the network or made by
    the constructors, a clock after 1970, random numbers in range. *)
Definition op_ok (o : op) : Prop :=
  match o with
  | OpAdd _ addr source _ _ => peer_ok addr /\ addr_ok source
  | OpGood _ _ time _ => 0 < time
  | OpAttempt _ time | OpConnected _ time => 0 <= time
  | OpGetAddr RandomInt _ _ => forall n m, 0 < m -> 0 <= RandomInt n m < m
  | _ => True
  end.

(** The next id, and one more attempt, fit into an [int]. *)
Definition counters_ok (s : CAddrMan) : Prop :=
  nIdCount s + 1 < 2 ^ 31 /\ map_Forall (fun _ i => is_s32 (nAttempts i + 1)) (mapInfo s).

Section Reached.
Context {HS : Hashes} (nKey : list Z) (m_asmap : list bool).

(** The states between two calls of [Clear]: the key stays the same. *)
Inductive reached : CAddrMan -> Prop :=
  | reached_clear s : 0 <= nIdCount s < 2 ^ 31 -> m_tried_collisions s = [] -> reached (Clear s)
  | reached_run s o s' : reached s -> counters_ok s -> op_ok o -> run nKey m_asmap o s = Some s' -> reached s'.

Context (Hmap : map_checked m_asmap).

Lemma empty_consistent n : 0 <= n < 2 ^ 31 -> consistent nKey m_asmap (Man n ∅ ∅ [] 0 ∅ 0 ∅ []).
Proof using. intros Hn. split; split; cbn; try done; intros; simplify_map_eq; set_solver. Qed.

Lemma resolve_nothing now rnd s : m_tried_collisions s = [] -> ResolveCollisions_ nKey m_asmap now rnd s = Some s.
Proof using. intros E. unfold ResolveCollisions_. rewrite E. cbn. unfold with_collisions. destruct s; cbn in *. by subst. Qed.

Lemma Attempt_ok addr time s :
  consistent nKey m_asmap s -> counters_ok s -> 0 <= time ->
  exists s', Attempt_ addr time s = Some s' /\ consistent nKey m_asmap s'.
Proof using.
  intros Hinv [_ Hc] Ht. apply note_ok; [done|]. intros i [id Hi].
  unfold i32. rewrite decide_True by exact (Hc _ _ Hi). rewrite bind_some. eexists. split; [done|].
  destruct (c_ok _ _ _ _ _ (proj1 Hinv) _ _ Hi) as (? & ? & ? & ? & ?). do 2 (split; [done|]). split; [done|].
  intros Hin. by apply (c_in _ _ _ _ _ (proj1 Hinv) _ _ Hi).
Qed.

Lemma Connected_ok addr time s :
  consistent nKey m_asmap s -> exists s', Connected_ addr time s = Some s' /\ consistent nKey m_asmap s'.
Proof using.
  intros Hinv. apply note_ok; [done|]. intros i [id Hi]. eexists. split; [done|].
  pose proof (c_ok _ _ _ _ _ (proj1 Hinv) _ _ Hi). pose proof (c_in _ _ _ _ _ (proj1 Hinv) _ _ Hi) as Hin.
  destruct (_ <? _); do 3 (split; [done|]); intros ?; by apply Hin.
Qed.

Lemma SetLocal_ok addr s :
  consistent nKey m_asmap s -> exists s', SetLocal_ addr s = Some s' /\ consistent nKey m_asmap s'.
Proof using.
  intros Hinv. apply note_ok; [done|]. intros i [id Hi]. eexists. split; [done|].
  pose proof (c_ok _ _ _ _ _ (proj1 Hinv) _ _ Hi). pose proof (c_in _ _ _ _ _ (proj1 Hinv) _ _ Hi) as Hin.
  do 3 (split; [done|]); intros ?; by apply Hin.
Qed.

Lemma run_ok o s :
  consistent nKey m_asmap s -> counters_ok s -> op_ok o ->
  exists s', run nKey m_asmap o s = Some s' /\ consistent nKey m_asmap s'.
Proof using Hmap.
  intros Hinv Hc Ho. destruct o as [now a src pen rnd|a t time rnd|a time|a time|a|now rnd|rand now v2]; cbn [run op_ok] in *.
  - destruct Ho as [Ha Hs]. destruct (Add_ok nKey m_asmap Hmap now a src pen rnd s Hinv Ha Hs (proj1 Hc)) as (b & s' & id & -> & ? & _).
    rewrite bind_some. eauto.
  - destruct (Good_ok nKey m_asmap Hmap s a t time rnd Hinv Ho) as (s' & ? & ? & _). eauto.
  - by apply Attempt_ok.
  - by apply Connected_ok.
  - by apply SetLocal_ok.
  - exists s. split; [|done]. apply resolve_nothing, (c_collisions _ _ _ _ _ (proj1 Hinv)).
  - destruct (GetAddr_ok nKey m_asmap rand now v2 Ho s Hinv) as (l & s' & -> & ? & _). rewrite bind_some. eauto.
Qed.

Lemma reached_consistent s : reached s -> consistent nKey m_asmap s.
Proof using Hmap.
  induction 1 as [s Hn E|s o s' _ IH Hc Ho E]; [unfold Clear; rewrite E; by apply empty_consistent|].
  destruct (run_ok o s IH Hc Ho) as (s'' & E' & ?). congruence.
Qed.
End Reached.

(** What [DecodeAsmap] returns is what the theorems below suppose of the map. *)
Lemma DecodeAsmap_checked file : Zlen file < 2 ^ 29 -> map_checked (DecodeAsmap file).
Proof.
  intros Hl. unfold DecodeAsmap. set (bits := flat_map _ file). destruct (AsMap.SanityCheckASMap bits 128) eqn:E; [right|by left].
  split; [|done]. assert (Zlen bits = 8 * Zlen file) as ->; [|lia]. subst bits. clear. unfold Zlen.
  induction file as [|b file IH]; [done|]. cbn [flat_map]. rewrite length_app, length_map, length_seq. cbn [length]. lia.
Qed.

(** [C34] In every state that the operations reach from a cleared manager, the program's
    own consistency check finds no error and changes nothing, and every operation
    succeeds: no assertion fails, no place outside of a vector is read and no entry is
    used after it was erased.  Operations are those of the node: addresses that passed
    the parser, a positive clock, random numbers in range, fewer than 2^31 entries ever
    made and fewer than 2^31 attempts. *)
Theorem addrman_consistent {HS : Hashes} (nKey : list Z) (m_asmap : list bool) (s : CAddrMan) :
  map_checked m_asmap -> forallb (Z.eqb 0) nKey = false -> reached nKey m_asmap s ->
  Check_ nKey m_asmap s = Some (0, s) /\
  (counters_ok s -> forall o, op_ok o -> exists s', run nKey m_asmap o s = Some s').
Proof.
  intros Hm Hk Hr. pose proof (reached_consistent nKey m_asmap Hm s Hr) as Hc. split; [by apply check_ok|].
  intros Hn o Ho. destruct (run_ok nKey m_asmap Hm o s Hc Hn Ho) as (s' & E & _). eauto.
Qed.

(** [C35] What other peers say about an address changes little of what the node found
    out itself.  [Add_] leaves the tried table as it is, and of the entries in it,
    but for their positions in the random order, it changes only that of the announced
    address: the services that are announced are added to its services, and its
    last-seen time, if it is zero or older than the announced one by the update
    interval and the penalty, becomes the announced time less the penalty; its
    attempts and the times of the last try and the last success stay.  And no entry of
    another address is erased, or moved to or from the tried table, unless it is terrible. *)
Theorem gossip_keeps_tried {HS : Hashes} (nKey : list Z) (m_asmap : list bool) (s : CAddrMan)
    (now : Z) (addr : CAddress) (source : CNetAddr) (nTimePenalty rnd : Z) :
  map_checked m_asmap -> reached nKey m_asmap s -> counters_ok s -> peer_ok addr -> addr_ok source ->
  exists fNew s', Add_ nKey m_asmap now addr source nTimePenalty rnd s = Some (fNew, s') /\
    vvTried s' = vvTried s /\
    (forall id i, mapInfo s !! id = Some i -> fInTried i = true -> exists n,
       mapInfo s' !! id = Some (set_pos n i) \/
       (net_key (info_ip i) = net_key (ip (service addr)) /\
        exists j, told now addr nTimePenalty i j /\ mapInfo s' !! id = Some (set_pos n j))) /\
    (forall id i, mapInfo s !! id = Some i -> net_key (info_ip i) <> net_key (ip (service addr)) ->
     IsTerrible i now = false ->
     exists j, mapInfo s' !! id = Some j /\ service (peer j) = service (peer i) /\ fInTried j = fInTried i).
Proof.
  intros Hm Hr [Hc _] Ha Hs. pose proof (reached_consistent nKey m_asmap Hm s Hr) as Hinv.
  destruct (Add_ok nKey m_asmap Hm now addr source nTimePenalty rnd s Hinv Ha Hs Hc) as (b & s' & id & E & _ & [K1 K2] & G & Hid).
  exists b, s'. do 3 (split; [done|]). intros x i Hx Hne Ht. apply (G x i); [|done..]. intros ->.
  destruct Hid as [Hf|Hn]; [|congruence]. destruct (Find_some _ _ _ Hf) as (j & Haddr & _).
  destruct (c_info _ _ _ _ _ (proj1 Hinv) _ _ Haddr) as (k & Hk & Ek). congruence.
Qed.

(** After a connection to a known address the entry is in the tried table, at the
    place that its address determines, whether or not another entry was there; that
    other entry goes back to the new table and stays known, and no third entry leaves
    the tried table. *)
Theorem good_moves_to_tried {HS : Hashes} (nKey : list Z) (m_asmap : list bool) (s : CAddrMan)
    (addr : CService) (test_before_evict : bool) (time rnd id : Z) (i : CAddrInfo) :
  map_checked m_asmap -> reached nKey m_asmap s -> 0 < time ->
  Find s (ip addr) = Some id -> mapInfo s !! id = Some i -> service_eqb (service (peer i)) addr = true ->
  exists s', Good_ nKey m_asmap addr test_before_evict time rnd s = Some s' /\
    (exists j b p, mapInfo s' !! id = Some j /\ service (peer j) = service (peer i) /\ fInTried j = true /\
       GetTriedBucket nKey m_asmap i = Some b /\ GetBucketPosition nKey i false b = Some p /\ place (vvTried s') b p = id) /\
    exists e, forall x k, mapInfo s !! x = Some k -> fInTried k = true ->
      exists j, mapInfo s' !! x = Some j /\ service (peer j) = service (peer k) /\ (x = e \/ fInTried j = true).
Proof.
  intros Hm Hr Ht Hf Hi Es. pose proof (reached_consistent nKey m_asmap Hm s Hr) as Hinv.
  destruct (Good_ok nKey m_asmap Hm s addr test_before_evict time rnd Hinv Ht) as (s' & E & [C' _] & Hin & e & Hk).
  exists s'. split; [done|]. split; [|by exists e]. destruct (Hin id i Hf Hi Es) as (j & Hj & Ej & Htj).
  destruct (c_in _ _ _ _ _ C' _ _ Hj Htj) as (_ & (b & p & Hv) & _). exists j, b, p. do 3 (split; [done|]).
  destruct (c_tried _ _ _ _ _ C' _ _ _ Hv) as (j' & Hj' & _ & Hb & Hp). assert (j' = j) as -> by congruence.
  rewrite <-(tried_bucket_same nKey m_asmap i j), <-(position_same nKey i j) by done. do 2 (split; [done|]).
  unfold place. by rewrite Hv.
Qed.

(** [C36] A peer that asks for addresses learns at most 2500 of them and at most 23 of
    every 100 known ones; each is an address that the node knows and does not hold to be
    terrible, and no address is given twice. *)
Theorem getaddr_bounded {HS : Hashes} (nKey : list Z) (m_asmap : list bool) (s : CAddrMan)
    (RandomInt : nat -> Z -> Z) (now : Z) (wants_addrv2 : bool) :
  map_checked m_asmap -> reached nKey m_asmap s -> (forall n m, 0 < m -> 0 <= RandomInt n m < m) ->
  exists vAddr s', GetAddr_ RandomInt now wants_addrv2 s = Some (vAddr, s') /\
    Zlen vAddr <= 2500 /\ 100 * Zlen vAddr <= 23 * Z.of_nat (size (mapInfo s)) /\
    (forall a, a ∈ vAddr -> exists id i, mapInfo s !! id = Some i /\ peer i = a /\ IsTerrible i now = false) /\
    NoDup (map (fun a => net_key (ip (service a))) vAddr).
Proof.
  intros Hm Hr Hrand. pose proof (reached_consistent nKey m_asmap Hm s Hr) as Hinv.
  destruct (GetAddr_ok nKey m_asmap RandomInt now wants_addrv2 Hrand s Hinv) as (l & s' & E & _ & Hlen & Hoff & Hnd).
  exists l, s'. split; [done|]. unfold ADDRMAN_GETADDR_MAX, ADDRMAN_GETADDR_MAX_PCT in Hlen.
  rewrite <-(random_size s (proj2 Hinv)). fold (Zlen (vRandom s)). pose proof (Z.mul_div_le (23 * Zlen (vRandom s)) 100).
  split; [lia|]. split; [lia|]. split; [|done]. by apply Forall_forall.
Qed.

(** ** Test before evict *)

(** The collisions that [ResolveCollisions_] works on are never entered: [Good_] takes a
    place in the tried table whatever [test_before_evict] says. *)
Lemma no_collisions {HS : Hashes} nKey m_asmap s now rnd :
  map_checked m_asmap -> reached nKey m_asmap s ->
  m_tried_collisions s = [] /\ ResolveCollisions_ nKey m_asmap now rnd s = Some s /\
  SelectTriedCollision_ nKey m_asmap rnd s = Some (default_info, s).
Proof.
  intros Hm Hr. pose proof (c_collisions _ _ _ _ _ (proj1 (reached_consistent nKey m_asmap Hm s Hr))) as E.
  split; [done|]. split; [by apply resolve_nothing|]. unfold SelectTriedCollision_. by rewrite E.
Qed.

Lemma test_before_evict_ignored {HS : Hashes} nKey m_asmap addr time rnd s :
  Good_ nKey m_asmap addr true time rnd s = Good_ nKey m_asmap addr false time rnd s.
Proof. done. Qed.

(** The time that is listed as the last success of a peer is when it was last seen. *)
Lemma last_success_is_last_seen i : GetLastSuccess i = nTime (peer i).
Proof. done. Qed.

(** ** Witnesses *)

#[local] Instance sum_hash : Hashes := {|
  ripemd160 msg := le_bytes 20 (fold_right Z.add 0 msg); sha1 msg := le_bytes 20 (fold_right Z.add 0 msg);
  sha256 msg := le_bytes 32 (fold_right Z.add 0 msg) |}.

Definition peer_a : CAddress := Address (Service (NetAddr [8; 8; 8; 8] NET_IPV4 0) 18030) 1 1000.
Definition peer_b : CAddress := Address (Service (NetAddr [9; 9; 9; 9] NET_IPV4 0) 18030) 1 2000.
Definition next (o : op) (s : CAddrMan) : CAddrMan := default s (run [1] [] o s).
Definition one_peer : CAddrMan := next (OpAdd 3000 peer_a (ip (service peer_b)) 0 0) CAddrMan_new.
Definition tried_peer : CAddrMan := next (OpGood (service peer_a) true 3000 5) one_peer.
Definition two_peers : CAddrMan := next (OpAdd 3000 peer_b (ip (service peer_a)) 0 0) tried_peer.

Example two_peers_tables : (nTried two_peers, nNew two_peers, vRandom two_peers) = (1, 1, [0; 1]).
Proof. vm_compute. reflexivity. Qed.

Lemma counters_dec s : bool_decide (counters_ok s) = true -> counters_ok s.
Proof. apply bool_decide_eq_true. Qed.

Lemma reached_next o s : reached [1] [] s -> bool_decide (counters_ok s) = true -> op_ok o -> reached [1] [] (next o s).
Proof.
  intros Hr Hc%counters_dec Ho. unfold next. destruct (run [1] [] o s) as [s'|] eqn:E; [|done]. by eapply reached_run.
Qed.

Lemma four_bytes a b c d : bytes_ok [a; b; c; d] -> addr_ok (NetAddr [a; b; c; d] NET_IPV4 0).
Proof. by intros. Qed.
Lemma bytes_8 : bytes_ok [8; 8; 8; 8].
Proof. repeat (apply Forall_cons; split; [done|]). by apply Forall_nil. Qed.
Lemma bytes_9 : bytes_ok [9; 9; 9; 9].
Proof. repeat (apply Forall_cons; split; [done|]). by apply Forall_nil. Qed.

Lemma reached_one : reached [1] [] one_peer.
Proof.
  apply reached_next; [by constructor|by vm_compute|]. split; [split|]; [apply four_bytes, bytes_8|done|apply four_bytes, bytes_9].
Qed.
Lemma reached_tried : reached [1] [] tried_peer.
Proof. apply reached_next; [apply reached_one|by vm_compute|done]. Qed.
Lemma reached_two : reached [1] [] two_peers.
Proof.
  apply reached_next; [apply reached_tried|by vm_compute|]. split; [split|]; [apply four_bytes, bytes_9|done|apply four_bytes, bytes_8].
Qed.

Lemma addrman_consistent_witness : Check_ [1] [] two_peers = Some (0, two_peers) /\ nTried two_peers = 1.
Proof.
  split; [|by vm_compute]. apply (addrman_consistent [1] [] two_peers); [by left|done|apply reached_two].
Defined.

(** An announcement changes the time and the services of the tried entry of its own address. *)
Example gossip_refreshes_tried :
  (r ← Add_ [1] [] 90000 (Address (service peer_a) 4 90000) (ip (service peer_b)) 60 0 tried_peer;
   i ← mapInfo r.2 !! 0; Some (nTime (peer i), nServices (peer i), fInTried i, nLastSuccess i)) = Some (89940, 5, true, 3000).
Proof. vm_compute. reflexivity. Qed.

Lemma gossip_keeps_tried_witness :
  exists fNew s', Add_ [1] [] 3000 peer_b (ip (service peer_a)) 0 0 tried_peer = Some (fNew, s') /\
    vvTried s' = vvTried tried_peer /\ vvTried tried_peer <> ∅.
Proof.
  destruct (gossip_keeps_tried [1] [] tried_peer 3000 peer_b (ip (service peer_a)) 0 0) as (b & s' & E & Ev & _).
  - by left.
  - apply reached_tried.
  - apply counters_dec. by vm_compute.
  - split; [apply four_bytes, bytes_9|done].
  - apply four_bytes, bytes_8.
  - exists b, s'. split; [exact E|]. split; [exact Ev|]. intros H. apply (f_equal size) in H. by vm_compute in H.
Defined.

Lemma good_moves_to_tried_witness :
  exists s' j, Good_ [1] [] (service peer_a) true 3000 5 one_peer = Some s' /\ mapInfo s' !! 0 = Some j /\ fInTried j = true.
Proof.
  destruct (good_moves_to_tried [1] [] one_peer (service peer_a) true 3000 5 0
    (set_refs 1 (set_pos 0 (new_info peer_a (ip (service peer_b)))))) as (s' & E & (j & b & p & Hj & _ & Ht & _) & _);
    [by left|apply reached_one|done|by vm_compute..|].
  exists s', j. auto.
Defined.

Lemma getaddr_bounded_witness :
  exists vAddr s', GetAddr_ (fun _ _ => 0) 3000 true two_peers = Some (vAddr, s') /\ Zlen vAddr <= 2500.
Proof.
  destruct (getaddr_bounded [1] [] two_peers (fun _ _ => 0) 3000 true) as (l & s' & E & Hl & _);
    [by left|apply reached_two|intros; lia|]. eauto.
Defined.
End AddrManTheorems.
